(* ===== verification/_CoqProject ===== *)
-Q . S2P
Prelude.v
Endian.v
Double.v
FloatBounds.v
Time.v
Heap.v
Crc.v
Tun.v
Base32.v
Hash.v
MultiHashMap.v
MapInterface.v
Peer.v
BloomFilter.v
ServerMst.v
Bandwidth.v
Messages.v
FdSet.v
Scheduler.v
SchedulerSpec.v
Lockmanager.v
LockmanagerSpec.v
DnsParser.v
DnsParserSpec.v
Namestore.v
MetaData.v
MetaDataSpec.v
Slist.v
SlistSpec.v
CoreTypemap.v
CoreTypemapSpec.v
CString.v
Strings.v
Configuration.v
ConfigurationSpec.v
ConfigurationText.v
ConfigurationFiles.v
CryptoAes.v
FsTree.v
FsTreeSpec.v
FsUri.v
FsUriSpec.v
FsUriKeywords.v
FsDirectory.v
FsDirectorySpec.v
Block.v
Routing.v
RoutingSpec.v
Hello.v
DhtMessages.v
DhtServices.v
DhtNeighbours.v
DhtDistance.v
DhtTable.v
DhtSelect.v
DhtForward.v
DhtReceive.v
DhtCount.v
DhtSpec.v
Fragmentation.v
Defragmentation.v
