(* ===== verification/Prelude.v ===== *)
(** * A verification development for GNUnet

    GNUnet is a framework for secure peer-to-peer networking.  Its daemons share a
    utility library ([src/src/util]) with an event loop, containers, time and bandwidth
    arithmetic, text encodings, hash codes and the framing of messages, and build their
    protocols on it: HELLO messages that advertise the addresses of peers
    ([src/src/hello]), fragmentation of messages for transports with a small MTU
    ([src/src/fragmentation]), IP packets for the VPN ([src/src/tun]), DNS messages
    ([src/src/dns]), name-system records ([src/src/namestore]), a lock service
    ([src/src/lockmanager]), typed blocks ([src/src/block]), the routing of the DHT
    ([src/src/dht]), the content trees and URIs of file sharing ([src/src/fs]) and the
    other services above them.  This development models the
    utility library's core and the protocol components next to it, and proves what
    the rest of the system relies on.

    ** Files, components and sources

    - [Prelude]: machine integers, return codes, the outcome monad and actions on a
      state, byte buffers with checked reads and writes, big-endian encodings, the
      tactic [int_lia] and the hint and rewrite database [gnunet].
    - [Endian]: [common_endian.c], the 64-bit byte order conversions.
    - [Double]: binary64 and binary32 arithmetic (over [SpecFloat]) for the latency
      estimate and the forward count of the DHT.  [FloatBounds]: bounds on rounded
      results, from which the range of the forward count follows.
    - [Time]: [time.c], saturating arithmetic on absolute and relative times.
    - [Heap]: [container_heap.c]: the tree with its size fields, insertion (by
      well-founded recursion with Equations), removal, cost updates, iteration and the
      random walk.  A node has an identity, so that a handle to a freed node can be
      told from a live one.
    - [Crc], [Tun]: [crypto_crc.c] and the checksums and headers of [tun/tun.c] that
      use it.
    - [Base32], [Hash]: the Base-32 codec of [strings.c] and the hash codes of
      [crypto_hash.c].
    - [MultiHashMap], [MapInterface], [Peer]: [container_multihashmap.c]; the type
      classes [KeyMap] and [MultiMap] that state what the map promises to its clients,
      with the instances that discharge them; and [peer.c], interned peer identities,
      proved against [KeyMap].
    - [BloomFilter]: [container_bloomfilter.c] with its file of 4-bit counters.
    - [ServerMst]: [server_mst.c], the tokenizer that cuts byte streams into messages.
    - [Bandwidth]: [bandwidth.c], the bandwidth tracker.
    - [Messages]: the type class [WireFormat] of packed message structs with its
      instances, through which sender and receiver of fragments agree on the bytes.
    - [FdSet]: the descriptor sets of [network.c] ([GNUNET_NETWORK_fdset_*]) with the
      word-wise overlap test.
    - [Scheduler]: [scheduler.c], the event loop of every process: the pending list, the
      sorted timeout list with its insertion cursor, the ready queue per priority,
      cancellation, every [add_*] function, shutdown and the loop of
      [GNUNET_SCHEDULER_run].  A task's callback is a program over the scheduler's
      API, so callbacks that add and cancel tasks are covered.
      [SchedulerSpec]: its invariant, its specification as a bag of tasks and the
      refinement.
    - [Lockmanager]: [gnunet-service-lockmanager.c], locks with a holder and a queue of
      waiting clients, over any map with the [MultiMap] interface.
      [LockmanagerSpec]: the service as one FIFO queue per lock, and the refinement.
    - [DnsParser]: [dnsparser.c], parsing, packing and freeing of DNS messages.
      [DnsParserSpec]: safety on arbitrary bytes and the round trip.
    - [Namestore]: [namestore_common.c], serialization and comparison of records.
    - [MetaData]: [container_meta_data.c], meta data sorted by size and their compressed,
      partial and cached serialization; libextractor and zlib are the type classes
      [Extractor] and [Zlib].
      [MetaDataSpec]: the container as a map, and the round trip.
    - [Slist]: [container_slist.c], singly linked lists over a store of elements, lists
      and buffers.  [SlistSpec]: the lists as sequences.
    - [CoreTypemap]: [gnunet-service-core_typemap.c], the message types that the clients
      of the core service handle.  [CoreTypemapSpec]: the map as a bag of registrations.
    - [CString], [Strings]: C strings and the functions of the C library on them (with
      [sscanf] for the formats that occur), and the rest of [strings.c]: packed string
      buffers, sizes and times for humans, expansion and checks of file names, URIs and
      socket addresses.
    - [Configuration]: [configuration.c], sections of options, their text form, files,
      lists of file names, expansion of variables and loading; the disk and the
      environment are type classes.
      [ConfigurationSpec]: the configuration as a map of case-insensitive names.
      [ConfigurationText]: serialization and parsing.  [ConfigurationFiles]: lists of
      file names, expansion, copies and differences.
    - [CryptoAes]: [crypto_aes.c], session keys and encryption over the class [Gcrypt].
    - [FsTree]: [fs_tree.c], the encoder that turns a file into a tree of encrypted
      blocks.  [FsTreeSpec]: the tree as a function of the file, and the encoder.
    - [FsUri]: [fs_uri.c], content, namespace, keyword and location URIs.
      [FsUriSpec]: the round trip through text.  [FsUriKeywords]: keyword lists as maps
      and the keywords of meta data.
    - [FsDirectory]: [fs_directory.c], directories as files of aligned entries.
      [FsDirectorySpec]: what the builder writes is what the listing reads.
    - [Block]: [block.c], dispatch to block plugins and the filter of known results.
    - [Routing]: [gnunet-service-dht_routing.c], recent requests of the DHT as objects
      shared by a heap and a map ([MultiMap]).
      [RoutingSpec]: the table as a bounded map and the routing of replies.
    - [Hello]: [hello.c] and [address.c], creation, parsing, merging and comparison of
      HELLO messages.
    - [DhtMessages]: the messages between DHT services.  [DhtServices]:
      [gnunet-service-dht_nse.c] and [gnunet-service-dht_hello.c].
    - [DhtNeighbours]: [gnunet-service-dht_neighbours.c] and the requests of
      [gnunet-service-dht_datacache.c]: connected peers as objects shared by buckets, a
      map ([MultiMap]), tasks and requests; the rest of the system is the class
      [DhtEnv], and calls to other services are recorded.
      [DhtDistance]: the distance of peers.  [DhtTable]: the invariant of the table and
      connections.  [DhtSelect]: the choice of peers.  [DhtForward]: what is put into
      queues.  [DhtReceive]: the handlers of messages.  [DhtCount]: the forward count.
      [DhtSpec]: the reachable states and the properties in them.
    - [Fragmentation], [Defragmentation]: [fragmentation.c] and [defragmentation.c],
      the two ends of the fragmentation protocol.

    Definitions carry the names of the C functions; a helper that stands for a loop or
    a block of a function is documented where it is defined.  Structs are records,
    arrays and linked lists are lists, and the C control flow (guards, early returns,
    order of updates) is kept.

    ** Conventions

    - A [uintN_t] is an integer of [Z]; every operation that may leave the range is
      wrapped ([u8] ... [u64], [s32], [s64]).  Signed overflow and shifts past the
      width are [Undefined] where the code can reach them, except that a 1 shifted into
      the sign bit is the sign bit, as GCC defines it.  A floating point number out of
      the range of an integer type is converted to an unspecified value of the type
      ([FloatConversion], Annex F of the C standard); no theorem depends on the value.
    - A function that can abort or go wrong returns in the monad [outcome]:
      [AssertFailed] is a failed [GNUNET_assert], [Undefined] an access outside of an
      object, to a freed object or undefined arithmetic.  A theorem that a function
      returns [Ret] is therefore a safety theorem.  [GNUNET_break] only logs and does
      not appear; neither do logging and statistics.
    - The host is little-endian with 64-bit [size_t] and 32-bit [int]; memory
      allocation succeeds and clears the memory ([GNUNET_malloc]; [MetaData] models its
      limit of 40 MB, and so do the strings).
    - Code that threads a state through many calls is an [action] on it; [returns] says
      that it returns with a result and a state that satisfy a predicate.
    - The clock, random numbers, uninitialized memory, callbacks and their closures,
      and functions of libraries outside the repository (SHA-512 of libgcrypt, the case
      mapping of libunistring) are arguments of the definitions that use them.  So is
      the stack frame of [GNUNET_CRYPTO_hash_from_string2] ([UpperCase]), which stores a
      byte behind an array: with padding there the parsers of URIs and directories work,
      without it they are [Undefined], and the theorems say which.

    ** What the theorems show

    - Event loop: from every reachable state each API call and each round of the loop
      is a step of the task bag, every queued task runs exactly once or is cancelled;
      [check_ready] queues exactly the tasks whose conditions hold; the timeout of
      [select] never oversleeps a task; the ready tasks are all run when nothing
      stays urgent, and a shutdown runs everything.
    - Services: the lock manager serves every lock in the order of requests; the DHT's
      routing table drops the oldest request when it is full, combines equal requests
      and forwards a reply to exactly the requests that it answers; the type map of the
      core service is the set of the registered types, and its changes are announced.
    - DHT neighbours: the table of peers implements a set from every reachable state;
      handlers of messages are safe on arbitrary bytes and keep it (levels of 0 and
      missing reply filters apart), for every network size estimate of at least 0.5; the
      targets of a request are different peers that its filter leaves, as many as the
      forward count says; the test whether this peer is the closest is exact, and the 32-bit distance
      is monotone in the XOR metric; a PUT arrives at its targets as it was sent.
    - Containers: the heap refines an abstract priority queue from every reachable
      state; the hash map implements a multimap through growth and rehashing; the
      container of meta data implements a map and survives its (partial, compressed)
      serialization; singly linked lists implement sequences in a shared
      store; the counting Bloom filter never loses an element and forgets
      removed ones, and can be reloaded from its file; interned peers have exact
      reference counts over any map with the [KeyMap] interface.
    - Configuration: options form a map under case-insensitive names; what is serialized
      is parsed back; a difference applied to the defaults restores the configuration;
      lists of file names are sets with escapes; the expansion of variables terminates
      when they do not refer to each other in a cycle.
    - File sharing: the encoder emits exactly the CHK tree of a file of up to 2 GiB, and
      sizes computed by publisher and downloader agree; all kinds of URIs survive
      printing and parsing; keyword lists implement a map and their arrays are never
      overrun; a directory that was built lists exactly its entries.
    - Messages from the network: the tokenizer is a function of the byte stream alone,
      independent of chunks and alignment, and refines a reference framing; parsing
      HELLOs and fragments is memory-safe on arbitrary bytes, DNS names on arbitrary
      packets; DNS messages and blocks of name-system records survive the round trip.
    - Protocols: fragments reassemble to the message under reordering, duplication and
      loss, exactly once; acknowledgements are understood by the sender;
      unacknowledged fragments are retransmitted in rounds; merged HELLOs carry the
      latest expiration of every address; the tracker enforces its rate.
    - Encodings and arithmetic: Base-32 and hash round trips, CRC-32 against the
      bit-serial division, checksums that receivers accept, saturating times, hash
      comparison as the XOR metric.
    - Defects: where the code does not do what it means to, a theorem states what it
      does (a dangling walk position, an abort and a buffer overrun in the Base-32
      decoding, a loop without end, an expiration that is always zero, a disconnected
      client that stays in a lock's queue, reads past a DNS packet, descriptor 0 lost
      from a descriptor set, an abort on a documented priority, meta data that are
      truncated or overrun their buffer, a missing reply filter and a replication level of 0
      that crash the DHT, HELLOs that are never cached, a
      configuration that aborts on a syntax error, inner blocks of large files that are
      never published, a parser of keyword URIs that never ends on a quote, lists that lose
      elements inserted through one iterator, type maps that are read past their message
      and lose types after 256 registrations).

    ** Termination and fuel

    Loops that are structural on their data are fixpoints on it.  Insertion into the
    heap decreases a lexicographic measure.  The other loops have fuel, and the
    theorems prove that it is enough: [mst_receive] passes at most once per byte of
    input and buffer; [transmit_next] finds a set bit within 64 steps; the parsing
    loops of HELLOs consume at least one byte per round; the loops over DNS names are
    bounded by the packet and by 32 levels of pointers; the lock manager's loops over a
    disconnected client's locks and over the clients at shutdown remove an entry per
    round; the size of a block filter is found in 13 steps, and the routing table expires
    a request per round.  The loop over ready tasks has fuel because a callback may keep
    adding urgent work: its safety holds for any fuel, and a theorem gives the number of
    rounds that is enough when callbacks do not.  The search for a power of two
    in [bloomfilter_resize] needs at most 33 steps below 2^31 and, as a theorem shows,
    never ends above.  The recursion of the configuration over inlined files and
    variables has fuel for its depth, which a theorem bounds for acyclic references; the
    buffer for the working directory doubles at most 14 times below the limit of
    [GNUNET_malloc]; the depth of a content tree is found in 8 steps for every 64-bit
    length; the backward loop over a keyword URI needs as many steps as the text has
    characters, unless it meets a quote; the listing of a directory moves forward by at
    least one byte per round; the loops over a singly linked list have one more step than
    the store has elements.

    ** What is not modelled

    Socket and file I/O, operating system wrappers, the cryptography of libgcrypt,
    database back ends, command-line tools and test beds are left out: what they do is
    done by code outside of the repository.  The services that mainly relay messages
    between a socket and another service (the sessions of core, transport, mesh, stream, the client side
    of the DHT, statistics, peerinfo) need a model of connections and of the peers at the
    other end, and the resolvers and daemons above the components here (gns, dns, vpn,
    nse, topology) are out of scope with them.  Of partly modelled files, functions
    that only read the clock, the disk or the network are left out.  Freeing memory is
    only modelled where the code can still reach the object. *)

From Stdlib Require Import ZArith Lia.
From stdpp Require Import base list numbers decidable.

(** ** Machine integers

    A C value of type [uintN_t] is an integer of [Z] in [0 .. 2^N - 1];
    arithmetic that may leave the range is wrapped explicitly. *)

Declare Scope gnunet_scope.
Delimit Scope gnunet_scope with gnunet.
Local Open Scope Z_scope.

Definition u8 (z : Z) : Z := z mod 2 ^ 8.
Definition u16 (z : Z) : Z := z mod 2 ^ 16.
Definition u32 (z : Z) : Z := z mod 2 ^ 32.
Definition u64 (z : Z) : Z := z mod 2 ^ 64.

(** Two's complement conversion to [int] and [int64_t]. *)
Definition s32 (z : Z) : Z := (z + 2 ^ 31) mod 2 ^ 32 - 2 ^ 31.
Definition s64 (z : Z) : Z := (z + 2 ^ 63) mod 2 ^ 64 - 2 ^ 63.

Definition UINT64_MAX : Z := 2 ^ 64 - 1.
Definition UINT32_MAX : Z := 2 ^ 32 - 1.

Definition is_u8 (z : Z) : Prop := 0 <= z < 2 ^ 8.
Definition is_u16 (z : Z) : Prop := 0 <= z < 2 ^ 16.
Definition is_u32 (z : Z) : Prop := 0 <= z < 2 ^ 32.
Definition is_u64 (z : Z) : Prop := 0 <= z < 2 ^ 64.

(** ** Return codes of [gnunet_common.h] *)

Definition GNUNET_OK : Z := 1.
Definition GNUNET_SYSERR : Z := -1.
Definition GNUNET_YES : Z := 1.
Definition GNUNET_NO : Z := 0.

(** ** Outcomes

    A C function either returns, stops the process in [GNUNET_assert], or has
    no defined behaviour (an access outside of an object or to a freed one). *)

Inductive outcome (A : Type) : Type :=
  | Ret (a : A)
  | AssertFailed
  | Undefined.
Arguments Ret {A} a.
Arguments AssertFailed {A}.
Arguments Undefined {A}.

#[global] Instance outcome_ret : MRet outcome := fun A a => Ret a.
#[global] Instance outcome_bind : MBind outcome := fun A B f m =>
  match m with
  | Ret a => f a
  | AssertFailed => AssertFailed
  | Undefined => Undefined
  end.

(** [GNUNET_assert (b)] *)
Definition gnunet_assert (b : bool) : outcome unit :=
  if b then Ret tt else AssertFailed.

Definition of_option {A} (o : option A) : outcome A :=
  match o with
  | Some a => Ret a
  | None => Undefined
  end.

Lemma gnunet_assert_true (b : bool) : b = true -> gnunet_assert b = Ret tt.
Proof. intros ->; reflexivity. Qed.

(** Rewriting a computation in the outcome monad whose first step returns. *)
Lemma bind_ret {A B} (m : outcome A) (a : A) (f : A -> outcome B) :
  m = Ret a -> (m ≫= f) = f a.
Proof. intros ->; reflexivity. Qed.

Lemma bind_Ret_inv {A B} (m : outcome A) (f : A -> outcome B) (b : B) :
  (m ≫= f) = Ret b -> exists a, m = Ret a /\ f a = Ret b.
Proof. destruct m as [a| |]; [ by exists a | done | done ]. Qed.

(** ** Actions: computations on a state that is threaded through many calls *)

Definition action (W A : Type) : Type := W -> outcome (A * W).

#[global] Instance action_ret {W} : MRet (action W) := fun A a w => Ret (a, w).
#[global] Instance action_bind {W} : MBind (action W) := fun A B f m w =>
  match m w with
  | Ret (a, w') => f a w'
  | AssertFailed => AssertFailed
  | Undefined => Undefined
  end.

Definition lift {W A} (o : outcome A) : action W A := fun w => a ← o; Ret (a, w).
Definition get_state {W} : action W W := fun w => Ret (w, w).
Definition modify {W} (f : W -> W) : action W unit := fun w => Ret (tt, f w).

Lemma run_bind {W A B} (m : action W A) (f : A -> action W B) (w w' : W) (a : A) :
  m w = Ret (a, w') -> (m ≫= f) w = f a w'.
Proof. intros H. unfold mbind, action_bind. by rewrite H. Qed.

Lemma run_lift {W A} (o : outcome A) (w : W) (a : A) : o = Ret a -> lift o w = Ret (a, w).
Proof. by intros ->. Qed.

(** [m] returns from [w], with a result and a state that satisfy [Q]. *)
Definition returns {W A} (m : action W A) (w : W) (Q : A -> W -> Prop) : Prop :=
  exists a w', m w = Ret (a, w') /\ Q a w'.

Lemma returns_ret {W A} (a : A) (w : W) (Q : A -> W -> Prop) : Q a w -> returns (mret a) w Q.
Proof. intros HQ. by exists a, w. Qed.

Lemma returns_bind {W A B} (m : action W A) (f : A -> action W B) (w : W) Q R :
  returns m w Q -> (forall a w', Q a w' -> returns (f a) w' R) -> returns (m ≫= f) w R.
Proof.
  intros (a & w' & Hm & HQ) Hf. destruct (Hf a w' HQ) as (b & w2 & Hb & HR).
  exists b, w2. split; [ | done ]. by rewrite (run_bind _ _ _ _ _ Hm).
Qed.

Lemma returns_weaken {W A} (m : action W A) (w : W) (Q R : A -> W -> Prop) :
  returns m w Q -> (forall a w', Q a w' -> R a w') -> returns m w R.
Proof. intros (a & w' & Hm & HQ) HR. exists a, w'. auto. Qed.

(** One step whose result is known *)
Lemma returns_step {W A B} (m : action W A) (f : A -> action W B) (w w' : W) (a : A) R :
  m w = Ret (a, w') -> returns (f a) w' R -> returns (m ≫= f) w R.
Proof. intros Hm (b & w2 & Hb & HR). exists b, w2. split; [ by rewrite (run_bind _ _ _ _ _ Hm) | done ]. Qed.

Lemma returns_lift {W A B} (o : outcome A) (f : A -> action W B) (w : W) (a : A) R :
  o = Ret a -> returns (f a) w R -> returns (lift o ≫= f) w R.
Proof. intros Ho. by apply returns_step, run_lift. Qed.

Lemma returns_get {W B} (f : W -> action W B) (w : W) R :
  returns (f w) w R -> returns (get_state ≫= f) w R.
Proof. by apply returns_step. Qed.

Lemma returns_modify {W B} (g : W -> W) (f : unit -> action W B) (w : W) R :
  returns (f tt) (g w) R -> returns (modify g ≫= f) w R.
Proof. by apply returns_step. Qed.

(** Taking apart a computation that has returned *)
Ltac inv_ret H :=
  repeat match type of H with
    | (_ ≫= _) = Ret _ =>
        let a := fresh "a" in let Ha := fresh "Hret" in
        apply bind_Ret_inv in H as (a & Ha & H)
    | (let '(_, _) := ?x in _) = Ret _ => destruct x
    | (if ?b then _ else _) = Ret _ => destruct b eqn:?
    end.

(** ** Byte buffers

    A buffer of [n] bytes is a list of length [n]; reads and writes outside of
    it have no defined behaviour. *)

Definition mem_read {A} (buf : list A) (off len : nat) : outcome (list A) :=
  if (off + len <=? length buf)%nat then Ret (take len (drop off buf))
  else Undefined.

Definition mem_write {A} (buf : list A) (off : nat) (data : list A)
  : outcome (list A) :=
  if (off + length data <=? length buf)%nat
  then Ret (take off buf ++ data ++ drop (off + length data) buf)
  else Undefined.

Definition is_bytes (l : list Z) : Prop := Forall is_u8 l.

(** Network byte order: [ntohs], [ntohl] and [GNUNET_ntohll] applied to a field
    of a packed message read the bytes big-endian; [htons] and the others write
    them so. *)
Fixpoint be_decode (l : list Z) : Z :=
  match l with
  | [] => 0
  | b :: l' => b * 2 ^ (8 * Z.of_nat (length l')) + be_decode l'
  end.

Fixpoint be_encode (n : nat) (v : Z) : list Z :=
  match n with
  | O => []
  | S n' => u8 (Z.shiftr v (8 * Z.of_nat n')) :: be_encode n' v
  end.

(** ** Range lemmas and the [gnunet] hint database *)

Create HintDb gnunet.
Create Rewrite HintDb gnunet.

Ltac unfold_ints :=
  unfold u8, u16, u32, u64, s32, s64, is_u8, is_u16, is_u32, is_u64,
    UINT64_MAX, UINT32_MAX in *.

(** Arithmetic over fixed widths: expose [mod] and the bounds, then [lia]. *)
Ltac int_lia :=
  unfold_ints;
  repeat match goal with
    | H : context [2 ^ 64] |- _ => change (2 ^ 64) with 18446744073709551616 in H
    | H : context [2 ^ 63] |- _ => change (2 ^ 63) with 9223372036854775808 in H
    | H : context [2 ^ 32] |- _ => change (2 ^ 32) with 4294967296 in H
    | H : context [2 ^ 16] |- _ => change (2 ^ 16) with 65536 in H
    | H : context [2 ^ 8] |- _ => change (2 ^ 8) with 256 in H
    end;
  change (2 ^ 64) with 18446744073709551616;
  change (2 ^ 63) with 9223372036854775808;
  change (2 ^ 32) with 4294967296;
  change (2 ^ 16) with 65536;
  change (2 ^ 8) with 256;
  first [ lia | Z.div_mod_to_equations; lia ].

Lemma u8_range z : is_u8 (u8 z).
Proof. int_lia. Qed.
Lemma u16_range z : is_u16 (u16 z).
Proof. int_lia. Qed.
Lemma u32_range z : is_u32 (u32 z).
Proof. int_lia. Qed.
Lemma u64_range z : is_u64 (u64 z).
Proof. int_lia. Qed.

Lemma u8_small z : is_u8 z -> u8 z = z.
Proof. apply Z.mod_small. Qed.
Lemma u16_small z : is_u16 z -> u16 z = z.
Proof. apply Z.mod_small. Qed.
Lemma u32_small z : is_u32 z -> u32 z = z.
Proof. apply Z.mod_small. Qed.
Lemma u64_small z : is_u64 z -> u64 z = z.
Proof. apply Z.mod_small. Qed.
Lemma s32_small z : - 2 ^ 31 <= z < 2 ^ 31 -> s32 z = z.
Proof. intros H. unfold s32. rewrite Z.mod_small; lia. Qed.
Lemma s64_small z : - 2 ^ 63 <= z < 2 ^ 63 -> s64 z = z.
Proof. intros H. unfold s64. rewrite Z.mod_small; lia. Qed.

#[export] Hint Resolve u8_range u16_range u32_range u64_range : gnunet.
#[export] Hint Rewrite u8_small u16_small u32_small u64_small
  using (solve [auto with gnunet | int_lia]) : gnunet.

(** ** Bits *)

Lemma lor_add_shift hi lo k :
  0 <= k -> 0 <= lo < 2 ^ k -> Z.lor (Z.shiftl hi k) lo = hi * 2 ^ k + lo.
Proof.
  intros Hk Hlo. rewrite <- Z.shiftl_mul_pow2 by lia.
  rewrite <- Z.lxor_lor, <- Z.add_nocarry_lxor; try done;
    apply Z.bits_inj'; intros i Hi; rewrite Z.land_spec, Z.bits_0;
    destruct (Z.lt_ge_cases i k);
    try (rewrite Z.shiftl_spec_low by lia; reflexivity);
    rewrite <- (Z.mod_small lo (2 ^ k)) by lia;
    rewrite (Z.mod_pow2_bits_high lo) by lia; apply andb_false_r.
Qed.

(** A remainder modulo a power of two, reduced modulo a smaller one. *)
Lemma mod_mod_pow2 z a b : 0 <= a <= b -> (z mod 2 ^ b) mod 2 ^ a = z mod 2 ^ a.
Proof.
  intros H. apply Z.bits_inj'. intros i Hi. destruct (Z.lt_ge_cases i a).
  - by rewrite !Z.mod_pow2_bits_low by lia.
  - by rewrite !Z.mod_pow2_bits_high by lia.
Qed.

Lemma mul_pow2_mod z a b :
  0 <= a -> 0 <= b -> (z * 2 ^ a) mod 2 ^ (b + a) = z mod 2 ^ b * 2 ^ a.
Proof.
  intros Ha Hb. rewrite Z.pow_add_r, Z.mul_mod_distr_r by lia. done.
Qed.

(** ** Lemmas on buffers *)

Lemma is_bytes_cons b l : is_bytes (b :: l) <-> is_u8 b /\ is_bytes l.
Proof. unfold is_bytes. apply Forall_cons_iff. Qed.

Lemma is_bytes_app l1 l2 : is_bytes (l1 ++ l2) <-> is_bytes l1 /\ is_bytes l2.
Proof. unfold is_bytes. by rewrite Forall_app. Qed.

Lemma is_bytes_take n l : is_bytes l -> is_bytes (take n l).
Proof. apply Forall_take. Qed.

Lemma is_bytes_drop n l : is_bytes l -> is_bytes (drop n l).
Proof. apply Forall_drop. Qed.

#[export] Hint Resolve is_bytes_take is_bytes_drop : gnunet.

Lemma length_be_encode n v : length (be_encode n v) = n.
Proof. induction n; simpl; congruence. Qed.

Lemma be_encode_bytes n v : is_bytes (be_encode n v).
Proof. induction n; constructor; auto with gnunet. Qed.

Lemma be_decode_range l :
  is_bytes l -> 0 <= be_decode l < 2 ^ (8 * Z.of_nat (length l)).
Proof.
  induction 1 as [|b l Hb Hl IH]; simpl length; cbn [be_decode].
  - simpl; lia.
  - replace (8 * Z.of_nat (S (length l))) with (8 + 8 * Z.of_nat (length l)) by lia.
    rewrite Z.pow_add_r by lia. unfold is_u8 in Hb. nia.
Qed.

Lemma be_decode_encode n v :
  be_decode (be_encode n v) = v mod 2 ^ (8 * Z.of_nat n).
Proof.
  induction n as [|n IH]; [ symmetry; apply Z.mod_1_r | ].
  cbn [be_encode be_decode]. rewrite length_be_encode, IH.
  replace (8 * Z.of_nat (S n)) with (8 * Z.of_nat n + 8) by lia.
  rewrite Z.pow_add_r by lia. unfold u8. rewrite Z.shiftr_div_pow2 by lia.
  rewrite (Z.rem_mul_r v) by lia. lia.
Qed.

Lemma be_encode_decode l :
  is_bytes l -> be_encode (length l) (be_decode l) = l.
Proof.
  intros Hl. enough (Hk : forall k, 0 <= k ->
    be_encode (length l)
      (k * 2 ^ (8 * Z.of_nat (length l)) + be_decode l) = l) by (apply (Hk 0); lia).
  induction Hl as [|b l Hb Hl IH]; intros k Hk; cbn [be_encode be_decode length];
    [ reflexivity | ].
  pose proof (be_decode_range l Hl) as Hr.
  replace (8 * Z.of_nat (S (length l))) with (8 * Z.of_nat (length l) + 8) by lia.
  rewrite Z.pow_add_r by lia.
  f_equal.
  - rewrite Z.shiftr_div_pow2 by lia.
    replace (k * (2 ^ (8 * Z.of_nat (length l)) * 2 ^ 8) +
      (b * 2 ^ (8 * Z.of_nat (length l)) + be_decode l))
      with ((k * 2 ^ 8 + b) * 2 ^ (8 * Z.of_nat (length l)) + be_decode l) by lia.
    rewrite Z.div_add_l, (Z.div_small (be_decode l)) by lia.
    unfold is_u8 in Hb. int_lia.
  - etransitivity; [ | apply (IH (k * 2 ^ 8 + b)); unfold is_u8 in Hb; lia ].
    f_equal. ring.
Qed.

Lemma mem_read_ok {A} (buf : list A) off len :
  (off + len <= length buf)%nat -> mem_read buf off len = Ret (take len (drop off buf)).
Proof. intros H. unfold mem_read. by rewrite (proj2 (Nat.leb_le _ _) H). Qed.

Lemma mem_write_ok {A} (buf : list A) off data :
  (off + length data <= length buf)%nat ->
  mem_write buf off data = Ret (take off buf ++ data ++ drop (off + length data) buf).
Proof. intros H. unfold mem_write. by rewrite (proj2 (Nat.leb_le _ _) H). Qed.

Lemma mem_write_length {A} (buf buf' : list A) off data :
  mem_write buf off data = Ret buf' -> length buf' = length buf.
Proof.
  unfold mem_write. case_match eqn:E; [ | done ]. intros [= <-].
  apply Nat.leb_le in E. rewrite !length_app, length_take, length_drop. lia.
Qed.

(** A write and a read at the end of a prefix *)
Lemma mem_write_app {A} (pre rest data : list A) :
  (length data <= length rest)%nat ->
  mem_write (pre ++ rest) (length pre) data = Ret (pre ++ data ++ drop (length data) rest).
Proof.
  intros Hl. rewrite mem_write_ok by (rewrite length_app; lia).
  rewrite take_app_length, <- drop_drop, drop_app_length. done.
Qed.

Lemma mem_read_app {A} (pre data post : list A) len :
  length data = len -> mem_read (pre ++ data ++ post) (length pre) len = Ret data.
Proof.
  intros <-. rewrite mem_read_ok by (rewrite !length_app; lia).
  by rewrite drop_app_length, take_app_length.
Qed.

Lemma mem_write_at {A} (mem pre rest data : list A) off :
  mem = pre ++ rest -> off = length pre -> (length data <= length rest)%nat ->
  mem_write mem off data = Ret (pre ++ data ++ drop (length data) rest).
Proof. intros -> -> Hl. by apply mem_write_app. Qed.

Lemma mem_read_at {A} (mem pre data post : list A) off len :
  mem = pre ++ data ++ post -> off = length pre -> length data = len ->
  mem_read mem off len = Ret data.
Proof. intros -> -> Hl. by apply mem_read_app. Qed.

Lemma mem_write_insert {A} (l : list A) i x :
  (i < length l)%nat -> mem_write l i [x] = Ret (<[i := x]> l).
Proof.
  intros Hi. rewrite mem_write_ok by (cbn [length]; lia). cbn [length].
  rewrite Nat.add_1_r. f_equal. cbn [app]. symmetry. by apply insert_take_drop.
Qed.

Lemma mem_read_len {A} (l l' : list A) off len : mem_read l off len = Ret l' -> length l' = len.
Proof.
  unfold mem_read. case_match eqn:E; [ | done ]. intros [= <-]. apply Nat.leb_le in E.
  rewrite length_take, length_drop. lia.
Qed.

Lemma app_len_eq {A} (pre w : list A) k : length w = k -> (length pre + k)%nat = length (pre ++ w).
Proof. intros <-. by rewrite length_app. Qed.
