(* ===== verification/Endian.v ===== *)
(** * Byte order conversion: [src/util/common_endian.c]

    The host is little-endian, the branch of the conditional compilation that
    does something.  [ntohl] and [htonl] of the C library swap the four bytes of
    their argument there.  The theorem of this file ties the arithmetic of
    [GNUNET_htonll] to the bytes that appear on the wire ([be_encode]). *)

From Stdlib Require Import ZArith Lia.
From stdpp Require Import base list numbers.
From S2P Require Import Prelude.
Local Open Scope Z_scope.

(** [ntohl] and [htonl] on a little-endian host; the argument is converted to
    [uint32_t] by the call. *)
Definition ntohl (n : Z) : Z :=
  let n := u32 n in
  Z.lor (Z.lor (Z.shiftl (Z.land n 255) 24)
               (Z.shiftl (Z.land (Z.shiftr n 8) 255) 16))
        (Z.lor (Z.shiftl (Z.land (Z.shiftr n 16) 255) 8)
               (Z.shiftr n 24)).
Definition htonl : Z -> Z := ntohl.

(** [(((uint64_t) ntohl (n)) << 32) + ntohl (n >> 32)] *)
Definition GNUNET_ntohll (n : Z) : Z :=
  u64 (u64 (Z.shiftl (ntohl n) 32) + ntohl (Z.shiftr n 32)).

Definition GNUNET_htonll (n : Z) : Z :=
  u64 (u64 (Z.shiftl (htonl n) 32) + htonl (Z.shiftr n 32)).

(** The bytes of an [n]-byte integer in the memory of the host. *)
Fixpoint host_bytes (n : nat) (v : Z) : list Z :=
  match n with
  | O => []
  | S n' => u8 v :: host_bytes n' (Z.shiftr v 8)
  end.

Lemma length_host_bytes n v : length (host_bytes n v) = n.
Proof. revert v. induction n; intros v; simpl; congruence. Qed.

(** ** Arithmetic form of the byte swap *)

Definition byte_at (n : Z) (i : Z) : Z := (n / 2 ^ (8 * i)) mod 256.

Lemma byte_at_range n i : 0 <= byte_at n i < 256.
Proof. unfold byte_at. apply Z.mod_pos_bound. lia. Qed.

Lemma u32_bytes n :
  is_u32 n ->
  n = byte_at n 0 + 256 * (byte_at n 1 + 256 * (byte_at n 2 + 256 * byte_at n 3)).
Proof.
  intros H. unfold byte_at. change (2 ^ (8 * 0)) with 1.
  change (2 ^ (8 * 1)) with 256. change (2 ^ (8 * 2)) with 65536.
  change (2 ^ (8 * 3)) with 16777216. int_lia.
Qed.

Lemma ntohl_arith n :
  ntohl n = ((byte_at (u32 n) 0 * 256 + byte_at (u32 n) 1) * 256
             + byte_at (u32 n) 2) * 256 + byte_at (u32 n) 3.
Proof.
  unfold ntohl. generalize (u32 n), (u32_range n); clear n; intros n Hn.
  change 255 with (Z.ones 8). rewrite !Z.land_ones by lia.
  rewrite !Z.shiftr_div_pow2 by lia.
  replace (n / 2 ^ 24) with (byte_at n 3)
    by (unfold byte_at; change (2 ^ (8 * 3)) with (2 ^ 24); change (2 ^ 24) with 16777216;
        int_lia).
  change (2 ^ 8) with 256 at 1.
  replace (n mod 256) with (byte_at n 0) by (unfold byte_at; change (2 ^ (8 * 0)) with 1;
    by rewrite Z.div_1_r).
  change ((n / 2 ^ 8) mod 2 ^ 8) with (byte_at n 1).
  change ((n / 2 ^ 16) mod 2 ^ 8) with (byte_at n 2).
  pose proof (byte_at_range n 0). pose proof (byte_at_range n 1).
  pose proof (byte_at_range n 2). pose proof (byte_at_range n 3).
  rewrite (lor_add_shift (byte_at n 2) (byte_at n 3) 8) by lia.
  rewrite (Z.shiftl_mul_pow2 (byte_at n 0) 24) by lia.
  replace (byte_at n 0 * 2 ^ 24) with (Z.shiftl (byte_at n 0 * 2 ^ 8) 16)
    by (rewrite Z.shiftl_mul_pow2 by lia; lia).
  rewrite <- Z.shiftl_lor.
  replace (byte_at n 0 * 2 ^ 8) with (Z.shiftl (byte_at n 0) 8)
    by (rewrite Z.shiftl_mul_pow2; lia).
  rewrite (lor_add_shift (byte_at n 0) (byte_at n 1) 8) by lia.
  rewrite lor_add_shift by lia. lia.
Qed.

Lemma ntohl_range n : is_u32 (ntohl n).
Proof.
  rewrite ntohl_arith.
  pose proof (byte_at_range (u32 n) 0). pose proof (byte_at_range (u32 n) 1).
  pose proof (byte_at_range (u32 n) 2). pose proof (byte_at_range (u32 n) 3).
  unfold is_u32. lia.
Qed.
#[export] Hint Resolve ntohl_range : gnunet.

(** A value put together from four bytes, and its bytes. *)
Lemma byte_at_combine a b c d :
  0 <= a < 256 -> 0 <= b < 256 -> 0 <= c < 256 -> 0 <= d < 256 ->
  let n := ((a * 256 + b) * 256 + c) * 256 + d in
  byte_at n 0 = d /\ byte_at n 1 = c /\ byte_at n 2 = b /\ byte_at n 3 = a.
Proof.
  intros Ha Hb Hc Hd n. unfold byte_at, n. change (2 ^ (8 * 0)) with 1.
  change (2 ^ (8 * 1)) with 256. change (2 ^ (8 * 2)) with 65536.
  change (2 ^ (8 * 3)) with 16777216.
  repeat split; Z.div_mod_to_equations; lia.
Qed.

Lemma ntohl_involutive n : is_u32 n -> ntohl (ntohl n) = n.
Proof.
  intros Hn. rewrite (ntohl_arith (ntohl n)), (u32_small (ntohl n)) by auto with gnunet.
  rewrite ntohl_arith, (u32_small n Hn).
  destruct (byte_at_combine (byte_at n 0) (byte_at n 1) (byte_at n 2) (byte_at n 3))
    as (-> & -> & -> & ->); try apply byte_at_range.
  rewrite (u32_bytes n Hn) at 5. lia.
Qed.

(** Both conversions in arithmetic form: the swapped low word becomes the high
    one. *)
Lemma ntohll_arith n :
  is_u64 n -> GNUNET_ntohll n = ntohl n * 2 ^ 32 + ntohl (n / 2 ^ 32).
Proof.
  intros Hn. unfold GNUNET_ntohll.
  pose proof (ntohl_range n). pose proof (ntohl_range (n / 2 ^ 32)).
  rewrite Z.shiftl_mul_pow2, Z.shiftr_div_pow2 by lia.
  rewrite (u64_small (ntohl n * 2 ^ 32)) by int_lia.
  rewrite u64_small by int_lia. reflexivity.
Qed.

Lemma ntohl_u32 n : ntohl (u32 n) = ntohl n.
Proof. unfold ntohl. by rewrite (u32_small (u32 n)) by auto with gnunet. Qed.

Lemma htonll_split n :
  is_u64 n ->
  GNUNET_htonll n / 2 ^ 32 = ntohl n /\
  u32 (GNUNET_htonll n) = ntohl (n / 2 ^ 32) /\ is_u64 (GNUNET_htonll n).
Proof.
  intros Hn. change (GNUNET_htonll n) with (GNUNET_ntohll n).
  rewrite ntohll_arith by done.
  pose proof (ntohl_range n). pose proof (ntohl_range (n / 2 ^ 32)).
  repeat split; int_lia.
Qed.

Lemma ntohll_htonll n : is_u64 n -> GNUNET_ntohll (GNUNET_htonll n) = n.
Proof.
  intros Hn. destruct (htonll_split n Hn) as (Hh & Hl & Hr).
  rewrite ntohll_arith, Hh, <- ntohl_u32, Hl by done.
  rewrite (ntohl_involutive (n / 2 ^ 32)) by int_lia.
  rewrite <- (ntohl_u32 n), (ntohl_involutive (u32 n)) by auto with gnunet.
  int_lia.
Qed.

(** The bytes of a 32-bit value in host memory after [htonl]. *)
Lemma host_bytes_htonl n : host_bytes 4 (htonl n) = be_encode 4 (u32 n).
Proof.
  unfold htonl, host_bytes, be_encode. rewrite ntohl_arith.
  pose proof (byte_at_range (u32 n) 0). pose proof (byte_at_range (u32 n) 1).
  pose proof (byte_at_range (u32 n) 2). pose proof (byte_at_range (u32 n) 3).
  destruct (byte_at_combine (byte_at (u32 n) 0) (byte_at (u32 n) 1)
    (byte_at (u32 n) 2) (byte_at (u32 n) 3)) as (E0 & E1 & E2 & E3); try done.
  set (v := ((_ * 256 + _) * 256 + _) * 256 + _) in *.
  assert (Hb : forall (m i : Z), 0 <= i -> u8 (Z.shiftr m (8 * i)) = byte_at m i)
    by (intros m i Hi; unfold u8, byte_at; by rewrite Z.shiftr_div_pow2 by lia).
  rewrite !Z.shiftr_shiftr by lia.
  change (u8 v) with (u8 (Z.shiftr v (8 * 0))).
  change (8 + 8 + 8) with (8 * 3). change (8 + 8) with (8 * 2).
  change (Z.shiftr v 8) with (Z.shiftr v (8 * 1)).
  rewrite !Hb, E0, E1, E2, E3 by lia. reflexivity.
Qed.

Lemma host_bytes_app a b v :
  host_bytes (a + b) v = host_bytes a v ++ host_bytes b (v / 2 ^ (8 * Z.of_nat a)).
Proof.
  revert v. induction a as [|a IH]; intros v;
    cbn [host_bytes Nat.add app].
  - by rewrite Z.div_1_r.
  - rewrite IH, Z.shiftr_div_pow2, Z.div_div, <- Z.pow_add_r by lia.
    by replace (8 + 8 * Z.of_nat a) with (8 * Z.of_nat (S a)) by lia.
Qed.

Lemma host_bytes_mod n v m :
  8 * Z.of_nat n <= m -> host_bytes n (v mod 2 ^ m) = host_bytes n v.
Proof.
  revert v m. induction n as [|n IH]; intros v m Hm; [ done | ]. cbn [host_bytes].
  f_equal.
  - unfold u8. apply Z.bits_inj'. intros i Hi.
    destruct (Z.lt_ge_cases i 8).
    + by rewrite !Z.mod_pow2_bits_low by lia.
    + by rewrite !Z.mod_pow2_bits_high by lia.
  - rewrite <- (IH (Z.shiftr v 8) (m - 8)) by lia. f_equal.
    apply Z.bits_inj'. intros i Hi. rewrite Z.shiftr_spec by lia.
    destruct (Z.lt_ge_cases i (m - 8)).
    + rewrite !Z.mod_pow2_bits_low, Z.shiftr_spec by lia. done.
    + by rewrite !Z.mod_pow2_bits_high by lia.
Qed.

Lemma be_encode_app a b v :
  be_encode (a + b) v = be_encode a (v / 2 ^ (8 * Z.of_nat b)) ++ be_encode b v.
Proof.
  induction a as [|a IH]; [ done | ]. cbn [be_encode Nat.add app]. rewrite IH.
  rewrite !Z.shiftr_div_pow2, Z.div_div, <- Z.pow_add_r by lia.
  by replace (8 * Z.of_nat b + 8 * Z.of_nat a) with (8 * Z.of_nat (a + b)) by lia.
Qed.

Lemma be_encode_mod n v m :
  8 * Z.of_nat n <= m -> be_encode n (v mod 2 ^ m) = be_encode n v.
Proof.
  induction n as [|n IH]; intros Hm; [ done | ]. simpl. rewrite IH by lia. f_equal.
  unfold u8. apply Z.bits_inj'. intros i Hi.
  destruct (Z.lt_ge_cases i 8).
  - rewrite !Z.mod_pow2_bits_low, !Z.shiftr_spec, Z.mod_pow2_bits_low by lia. done.
  - by rewrite !Z.mod_pow2_bits_high by lia.
Qed.

(** On a little-endian host GNUNET_htonll lays a 64-bit value out in
    memory most significant byte first, and GNUNET_ntohll undoes it. *)
Lemma htonll_wire_format (n : Z) :
  is_u64 n ->
  host_bytes 8 (GNUNET_htonll n) = be_encode 8 n /\
  GNUNET_ntohll (GNUNET_htonll n) = n.
Proof.
  intros Hn. split; [ | by apply ntohll_htonll ].
  destruct (htonll_split n Hn) as (Hh & Hl & _).
  rewrite (host_bytes_app 4 4), (be_encode_app 4 4). change (8 * Z.of_nat 4) with 32.
  rewrite Hh, <- (host_bytes_mod 4 _ 32) by lia.
  change (GNUNET_htonll n mod 2 ^ 32) with (u32 (GNUNET_htonll n)). rewrite Hl.
  pose proof host_bytes_htonl as Hw. unfold htonl in Hw. rewrite !Hw. f_equal.
  - rewrite u32_small; [ done | int_lia ].
  - by apply be_encode_mod.
Qed.

