(* ===== verification/Double.v ===== *)
(** * Floating point arithmetic

    The C type [double] is IEEE 754 binary64, [float] binary32, with rounding to nearest,
    ties to even.  The operations are those of the executable specification
    [SpecFloat] at precision 53 and 24; nothing is assumed about them. *)

From Stdlib Require Import ZArith Lia SpecFloat.
From stdpp Require Import base numbers.
From S2P Require Import Prelude.
Local Open Scope Z_scope.

(** The conversion of a number to an unsigned integer drops the fraction.  If the integer
    does not fit, or for infinities and NaN, the value is unspecified (IEC 60559, as annex F of
    the C standard adopts it); these functions are what the machine yields. *)
Class FloatConversion := {
  unspecified_u64 : spec_float -> Z;
  unspecified_u32 : spec_float -> Z
}.

Module Double.

Definition prec : Z := 53.
Definition emax : Z := 1024.

Definition t : Type := spec_float.

Definition add : t -> t -> t := SFadd prec emax.
Definition sub : t -> t -> t := SFsub prec emax.
Definition mul : t -> t -> t := SFmul prec emax.
Definition div : t -> t -> t := SFdiv prec emax.
Definition sqrt : t -> t := SFsqrt prec emax.

(** [(double) z] for an integer [z] *)
Definition of_Z (z : Z) : t := binary_normalize prec emax z 0 false.

(** [x < y] *)
Definition ltb (x y : t) : bool := SFltb x y.
(** [x <= y] *)
Definition leb (x y : t) : bool := SFleb x y.

(** Truncation towards zero of a finite double. *)
Definition trunc (x : t) : option Z :=
  match x with
  | S754_zero _ => Some 0
  | S754_finite s m e =>
      let a := if e <? 0 then Z.shiftr (Z.pos m) (- e) else Z.shiftl (Z.pos m) e in
      Some (if s then - a else a)
  | _ => None
  end.

(** [(uint64_t) x] *)
Definition to_u64 `{FloatConversion} (x : t) : Z :=
  match trunc x with
  | Some z => if (0 <=? z) && (z <? 2 ^ 64) then z else u64 (unspecified_u64 x)
  | None => u64 (unspecified_u64 x)
  end.

Lemma to_u64_range `{FloatConversion} x : is_u64 (to_u64 x).
Proof.
  unfold to_u64. destruct (trunc x) as [v|]; [ | auto with gnunet ].
  case_match eqn:E; [ | auto with gnunet ]. unfold is_u64. lia.
Qed.

(** ** Integers below [2 ^ 53] are represented exactly *)

Lemma digits_bounds p : 2 ^ (Zpos (digits2_pos p) - 1) <= Zpos p < 2 ^ Zpos (digits2_pos p).
Proof.
  induction p as [p IH|p IH|]; [ | | by cbn ]; cbn [digits2_pos]; rewrite Pos2Z.inj_succ;
    replace (Z.succ (Zpos (digits2_pos p)) - 1) with (Z.succ (Zpos (digits2_pos p) - 1)) by lia;
    rewrite !Z.pow_succ_r by lia; lia.
Qed.

Lemma shift_spec n p :
  Zpos (Pos.iter xO p n) = Zpos p * 2 ^ Zpos n /\ Zpos (digits2_pos (Pos.iter xO p n)) = Zpos (digits2_pos p) + Zpos n.
Proof.
  induction n as [|n IH] using Pos.peano_ind; [ cbn; lia | ].
  rewrite Pos.iter_succ. destruct IH as [IH1 IH2]. cbn [digits2_pos]. rewrite Pos2Z.inj_xO, IH1.
  rewrite !Pos2Z.inj_succ, IH2, Z.pow_succ_r by lia. lia.
Qed.

(** A mantissa of 53 bits is kept. *)
Lemma round_exact m e :
  Zpos (digits2_pos m) = 53 -> -1074 <= e <= 971 -> binary_round_aux prec emax false (Zpos m) e loc_Exact = S754_finite false m e.
Proof.
  intros Hd He. unfold binary_round_aux, shr_fexp. cbn [Zdigits2]. rewrite Hd.
  assert (Hf : fexp prec emax (53 + e) - e = 0) by (unfold fexp, emin, prec, emax; lia).
  rewrite Hf. cbn [shr shr_record_of_loc shr_m loc_of_shr_record round_nearest_even]. cbn [Zdigits2]. rewrite Hd, Hf.
  cbn [shr shr_record_of_loc shr_m]. unfold prec, emax.
  by rewrite (proj2 (Z.leb_le e _)) by lia.
Qed.

Lemma of_Z_spec z :
  0 < z < 2 ^ 53 -> exists m d, of_Z z = S754_finite false m (d - 53) /\ 2 ^ (d - 1) <= z < 2 ^ d
    /\ Zpos m = z * 2 ^ (53 - d) /\ 1 <= d <= 53.
Proof.
  intros Hz. destruct z as [|p|p]; try lia. pose proof (digits_bounds p) as Hd.
  set (d := Zpos (digits2_pos p)) in *.
  assert (Hd53 : 1 <= d <= 53).
  { split; [ unfold d; lia | ]. destruct (Z.le_gt_cases d 53); [ done | ].
    assert (2 ^ 53 <= 2 ^ (d - 1)) by (apply Z.pow_le_mono_r; lia). lia. }
  unfold of_Z, binary_normalize, binary_round, shl_align.
  assert (Hf : fexp prec emax (d + 0) - 0 = d - 53) by (unfold fexp, emin, prec, emax; lia).
  fold d. rewrite Hf. destruct (d - 53) as [|q|q] eqn:E; [ | lia | ].
  - exists p, d. rewrite E. replace (53 - d) with 0 by lia. rewrite round_exact by (fold d; lia).
    split_and!; [ done | lia | lia | lia | lia | lia ].
  - destruct (shift_spec q p) as [Hs Hsd]. exists (Pos.iter xO p q), d. rewrite E.
    assert (Hfe : fexp prec emax (d + 0) = d - 53) by (unfold fexp, emin, prec, emax; lia). rewrite Hfe, E.
    rewrite round_exact by (rewrite ?Hsd; fold d; lia).
    replace (53 - d) with (Zpos q) by lia. split_and!; [ done | lia | lia | done | lia | lia ].
Qed.

Lemma ltb_of_Z a b : 0 <= a < 2 ^ 53 -> 0 <= b < 2 ^ 53 -> ltb (of_Z a) (of_Z b) = (a <? b).
Proof.
  intros Ha Hb. unfold ltb, SFltb.
  destruct (Z.eqb_spec a 0) as [->|Ha0], (Z.eqb_spec b 0) as [->|Hb0]; [ done | | | ].
  - destruct (of_Z_spec b) as (m & d & -> & _); [ lia | ]. cbn. symmetry. apply Z.ltb_lt. lia.
  - destruct (of_Z_spec a) as (m & d & -> & _); [ lia | ]. cbn. symmetry. apply Z.ltb_ge. lia.
  - destruct (of_Z_spec a) as (m & d & -> & Hd & Hm & Hr); [ lia | ].
    destruct (of_Z_spec b) as (m' & d' & -> & Hd' & Hm' & Hr'); [ lia | ].
    cbn [SFcompare]. assert (Hmono : forall x y, x < y -> 1 <= x -> 1 <= y -> 2 ^ x <= 2 ^ (y - 1)).
    { intros x y Hxy Hx Hy. apply Z.pow_le_mono_r; lia. }
    destruct (Z.compare_spec (d - 53) (d' - 53)) as [E|E|E].
    + assert (d' = d) as -> by lia.
      assert (Hc : Pos.compare_cont Eq m m' = (a ?= b)).
      { change (Pos.compare_cont Eq m m') with (Pos.compare m m'). change (m ?= m')%positive with (Zpos m ?= Zpos m').
        rewrite Hm, Hm'. symmetry. apply Zmult_compare_compat_r. apply Z.lt_gt, Z.pow_pos_nonneg; lia. }
      rewrite Hc. unfold Z.ltb. by destruct (a ?= b).
    + symmetry. apply Z.ltb_lt. specialize (Hmono d d' ltac:(lia) ltac:(lia) ltac:(lia)). lia.
    + symmetry. apply Z.ltb_ge. specialize (Hmono d' d ltac:(lia) ltac:(lia) ltac:(lia)). lia.
Qed.

End Double.

(** [float] is IEEE 754 binary32. *)
Module Single.

Definition prec : Z := 24.
Definition emax : Z := 128.

Definition t : Type := spec_float.

Definition sub : t -> t -> t := SFsub prec emax.
Definition mul : t -> t -> t := SFmul prec emax.

Definition of_Z (z : Z) : t := binary_normalize prec emax z 0 false.

(** [(float) x] rounds a double. *)
Definition of_double (x : Double.t) : t :=
  match x with
  | S754_finite s m e => binary_normalize prec emax (if s then Z.neg m else Z.pos m) e s
  | _ => x
  end.

(** A [float] is a [double]. *)
Definition to_double (x : t) : Double.t :=
  match x with
  | S754_finite s m e =>
      binary_normalize Double.prec Double.emax (if s then Z.neg m else Z.pos m) e s
  | _ => x
  end.

(** [x < y] *)
Definition ltb (x y : t) : bool := SFltb x y.

(** [(uint32_t) x] *)
Definition to_u32 `{FloatConversion} (x : t) : Z :=
  match Double.trunc x with
  | Some z => if (0 <=? z) && (z <? 2 ^ 32) then z else u32 (unspecified_u32 x)
  | None => u32 (unspecified_u32 x)
  end.

End Single.
