(* ===== verification/FloatBounds.v ===== *)
(** * Bounds for floating point arithmetic

    Rounding keeps numbers on their side of a power of two: for the operations of
    [SpecFloat] at any precision, results that are at most (at least) a power of two stay
    so after rounding.  This bounds computations on unknown floating point numbers. *)

From Stdlib Require Import ZArith Lia SpecFloat.
From stdpp Require Import base numbers.
From S2P Require Import Prelude Double.
Local Open Scope Z_scope.

(** ** Numbers and powers of two *)

(** [0 <= x <= 2 ^ k] *)
Definition at_most (k : Z) (x : spec_float) : Prop :=
  match x with
  | S754_zero _ => True
  | S754_finite false m e => e <= k /\ Zpos m <= 2 ^ (k - e)
  | _ => False
  end.

(** [2 ^ k <= x], infinity included *)
Definition at_least (k : Z) (x : spec_float) : Prop :=
  match x with
  | S754_infinity false => True
  | S754_finite false m e => k <= e \/ 2 ^ (k - e) <= Zpos m
  | _ => False
  end.

(** [0 <= x], infinity included *)
Definition not_negative (x : spec_float) : Prop :=
  match x with
  | S754_zero _ | S754_infinity false | S754_finite false _ _ => True
  | _ => False
  end.

Lemma at_most_not_negative k x : at_most k x -> not_negative x.
Proof. by destruct x as [?|[]| |[]]. Qed.

Lemma at_least_not_negative k x : at_least k x -> not_negative x.
Proof. by destruct x as [?|[]| |[]]. Qed.

Lemma pow2_pos k : 0 <= k -> 0 < 2 ^ k.
Proof. intros. apply Z.pow_pos_nonneg; lia. Qed.

Lemma digits_le m k : 0 <= k -> Zpos m <= 2 ^ k -> Zpos (digits2_pos m) <= k + 1.
Proof.
  intros Hk Hm. pose proof (Double.digits_bounds m) as [Hd _].
  destruct (Z.le_gt_cases (Zpos (digits2_pos m)) (k + 1)) as [|Hgt]; [ done | ].
  assert (2 ^ (k + 1) <= 2 ^ (Zpos (digits2_pos m) - 1)) by (apply Z.pow_le_mono_r; lia).
  rewrite Z.pow_add_r in * by lia. lia.
Qed.

Lemma digits_gt m k : 0 <= k -> 2 ^ k <= Zpos m -> k + 1 <= Zpos (digits2_pos m).
Proof.
  intros Hk Hm. pose proof (Double.digits_bounds m) as [_ Hd].
  destruct (Z.le_gt_cases (k + 1) (Zpos (digits2_pos m))) as [|Hgt]; [ done | ].
  assert (2 ^ Zpos (digits2_pos m) <= 2 ^ k) by (apply Z.pow_le_mono_r; lia). lia.
Qed.

Lemma digits_canonical_le m n : 0 <= n -> n <= Zpos (digits2_pos m) - 1 -> 2 ^ n <= Zpos m.
Proof.
  intros Hn Hm. pose proof (Double.digits_bounds m) as [Hd _].
  assert (2 ^ n <= 2 ^ (Zpos (digits2_pos m) - 1)) by (apply Z.pow_le_mono_r; lia). lia.
Qed.

(** ** Shifts *)

Definition exact (r : shr_record) : Prop := loc_of_shr_record r = loc_Exact.

Lemma shr_1_spec r : 0 <= shr_m r ->
  shr_m (shr_1 r) = shr_m r / 2 /\ (forall c, exact r -> shr_m r = c * 2 -> exact (shr_1 r)).
Proof.
  destruct r as [m rr s]. cbn [shr_m]. intros Hm. split.
  - destruct m as [|[p|p|]|]; try lia; cbn [shr_1 shr_m]; Z.div_mod_to_equations; lia.
  - intros c He ->. unfold exact, loc_of_shr_record in He. destruct rr, s; try done.
    destruct c as [|p|p]; [ done | | lia ]. by replace (Zpos p * 2) with (Zpos p~0) by lia.
Qed.

Lemma iter_shr_spec p : forall r, 0 <= shr_m r ->
  shr_m (SpecFloat.iter_pos shr_1 p r) = shr_m r / 2 ^ Zpos p
  /\ (forall c, exact r -> shr_m r = c * 2 ^ Zpos p -> exact (SpecFloat.iter_pos shr_1 p r)).
Proof.
  assert (Hcomp : forall f g a b, 0 <= a -> 0 <= b ->
    (forall r, 0 <= shr_m r -> shr_m (f r) = shr_m r / 2 ^ a
       /\ (forall c, exact r -> shr_m r = c * 2 ^ a -> exact (f r))) ->
    (forall r, 0 <= shr_m r -> shr_m (g r) = shr_m r / 2 ^ b
       /\ (forall c, exact r -> shr_m r = c * 2 ^ b -> exact (g r))) ->
    forall r, 0 <= shr_m r -> shr_m (g (f r)) = shr_m r / 2 ^ (a + b)
       /\ (forall c, exact r -> shr_m r = c * 2 ^ (a + b) -> exact (g (f r)))).
  { intros f g a b Ha Hb Hf Hg r Hr. destruct (Hf r Hr) as [Hf1 Hf2].
    assert (Hfr : 0 <= shr_m (f r)) by (rewrite Hf1; apply Z.div_pos; [ lia | by apply pow2_pos ]).
    destruct (Hg _ Hfr) as [Hg1 Hg2]. rewrite Z.pow_add_r by lia. pose proof (pow2_pos a Ha). pose proof (pow2_pos b Hb).
    split; [ rewrite Hg1, Hf1, Z.div_div by lia; done | ].
    intros c He Hc. apply (Hg2 c).
    - apply (Hf2 (c * 2 ^ b)); [ done | rewrite Hc; ring ].
    - rewrite Hf1, Hc. replace (c * (2 ^ a * 2 ^ b)) with (c * 2 ^ b * 2 ^ a) by ring. by apply Z.div_mul; lia. }
  assert (H1 : forall r, 0 <= shr_m r -> shr_m (shr_1 r) = shr_m r / 2 ^ 1
    /\ (forall c, exact r -> shr_m r = c * 2 ^ 1 -> exact (shr_1 r))) by apply shr_1_spec.
  induction p as [p IH|p IH|]; intros r Hr; cbn [SpecFloat.iter_pos]; [ | | by apply H1 ].
  - replace (Zpos p~1) with (1 + Zpos p + Zpos p) by lia.
    exact (Hcomp _ _ (1 + Zpos p) (Zpos p) ltac:(lia) ltac:(lia)
      (Hcomp _ _ 1 (Zpos p) ltac:(lia) ltac:(lia) H1 IH) IH r Hr).
  - replace (Zpos p~0) with (Zpos p + Zpos p) by lia.
    exact (Hcomp _ _ (Zpos p) (Zpos p) ltac:(lia) ltac:(lia) IH IH r Hr).
Qed.

Section Rounding.
Context (prec emax : Z) (Hprec : 0 < prec) (Hemax : prec < emax).

Lemma shr_fexp_spec m e l : 0 <= m ->
  exists n r, 0 <= n /\ n = Z.max 0 (fexp prec emax (Zdigits2 m + e) - e)
    /\ shr_fexp prec emax m e l = (r, e + n) /\ shr_m r = m / 2 ^ n
    /\ (forall c, l = loc_Exact -> m = c * 2 ^ n -> exact r).
Proof.
  intros Hm. unfold shr_fexp. set (d := fexp prec emax (Zdigits2 m + e) - e).
  assert (H0 : shr_m (shr_record_of_loc m l) = m) by (by destruct l as [|[]]).
  assert (He : l = loc_Exact -> exact (shr_record_of_loc m l)) by (by intros ->).
  assert (Hid : exists r, (shr_record_of_loc m l, e) = (r, e + 0) /\ shr_m r = m / 2 ^ 0
    /\ (forall c, l = loc_Exact -> m = c * 2 ^ 0 -> exact r)).
  { exists (shr_record_of_loc m l). rewrite Z.add_0_r, H0. change (2 ^ 0) with 1. rewrite Z.div_1_r. auto. }
  destruct d as [|p|p] eqn:Hd.
  - exists 0. destruct Hid as (r & Hr & ?). exists r. split_and!; [ lia | lia | exact Hr | tauto.. ].
  - exists (Zpos p), (SpecFloat.iter_pos shr_1 p (shr_record_of_loc m l)). cbn [shr].
    destruct (iter_shr_spec p (shr_record_of_loc m l)) as [H1 H2]; [ by rewrite H0 | ]. rewrite H0 in *.
    split_and!; [ lia | lia | done | done | eauto ].
  - exists 0. destruct Hid as (r & Hr & ?). exists r. split_and!; [ lia | lia | exact Hr | tauto.. ].
Qed.

Lemma fexp_eq d : fexp prec emax d = Z.max (d - prec) (3 - emax - prec).
Proof. done. Qed.

(** *** Upper bounds *)

(** [(m + l) * 2 ^ e <= 2 ^ k] for a location [l] between two integers *)
Definition below (k m e : Z) (l : location) : Prop :=
  m = 0 /\ l = loc_Exact
  \/ e <= k /\ m + match l with loc_Exact => 0 | _ => 1 end <= 2 ^ (k - e).

Lemma digits_below k m e l : 0 <= m -> below k m e l -> m <> 0 -> Zdigits2 m + e <= k + 1 /\ e <= k.
Proof.
  intros Hm [[-> _]|[He Hb]] Hne; [ done | ]. destruct m as [|p|p]; [ done | | lia ]. cbn [Zdigits2].
  assert (Hp : Zpos p <= 2 ^ (k - e)) by (destruct l; lia).
  pose proof (digits_le p (k - e) ltac:(lia) Hp). lia.
Qed.

Lemma shift_below k m e n : 0 <= n -> e + n <= k -> 0 <= m <= 2 ^ (k - e) -> 0 <= m / 2 ^ n <= 2 ^ (k - (e + n)).
Proof.
  intros Hn He Hm. pose proof (pow2_pos n Hn). split; [ apply Z.div_pos; lia | ].
  apply Z.div_le_upper_bound; [ done | ]. rewrite <- Z.pow_add_r by lia.
  replace (n + (k - (e + n))) with (k - e) by lia. lia.
Qed.

Lemma round_step_below k m e l : 0 <= m -> 3 - emax - prec <= k < emax -> e <= emax - prec -> below k m e l ->
  exists r e', shr_fexp prec emax m e l = (r, e') /\ 0 <= shr_m r /\ e' <= emax - prec
    /\ below k (round_nearest_even (shr_m r) (loc_of_shr_record r)) e' loc_Exact
    /\ 0 <= round_nearest_even (shr_m r) (loc_of_shr_record r)
    /\ below k (shr_m r) e' loc_Exact.
Proof.
  intros Hm Hk He Hb. destruct (shr_fexp_spec m e l Hm) as (n & r & Hn & Hnd & Hs & Hr & Hx).
  exists r, (e + n). split; [ done | ]. destruct (Z.eq_dec m 0) as [->|Hne].
  - rewrite Z.div_0_l in Hr by (pose proof (pow2_pos n Hn); lia). rewrite Hr.
    cbn [Zdigits2] in Hnd. rewrite fexp_eq in Hnd. destruct Hb as [[_ ->]|[Hek Hb]].
    + assert (Hex : loc_of_shr_record r = loc_Exact) by (by apply (Hx 0)). rewrite Hex. cbn [round_nearest_even].
      split_and!; try lia; by left.
    + assert (Hp : 1 <= 2 ^ (k - (e + n))) by (pose proof (pow2_pos (k - (e + n)) ltac:(lia)); lia).
      assert (Hrn : 0 <= round_nearest_even 0 (loc_of_shr_record r) <= 1) by (by destruct (loc_of_shr_record r) as [|[]]).
      split_and!; try lia; right; split; lia.
  - destruct (digits_below k m e l Hm Hb Hne) as [Hd Hek]. rewrite fexp_eq in Hnd.
    destruct Hb as [[? _]|[_ Hb]]; [ done | ].
    assert (Hmk : 0 <= m <= 2 ^ (k - e)) by (destruct l; lia).
    pose proof (shift_below k m e n Hn ltac:(lia) Hmk) as Hsb. rewrite <- Hr in Hsb.
    assert (Hrange : shr_m r <= round_nearest_even (shr_m r) (loc_of_shr_record r) <= 2 ^ (k - (e + n))).
    { destruct (Z.eq_dec (shr_m r) (2 ^ (k - (e + n)))) as [Heq|Hneq].
      - assert (Hm2 : m = 2 ^ (k - (e + n)) * 2 ^ n).
        { rewrite <- Z.pow_add_r by lia. replace (k - (e + n) + n) with (k - e) by lia.
          assert (2 ^ (k - (e + n)) * 2 ^ n <= m); [ | rewrite <- Z.pow_add_r in * by lia;
            replace (k - (e + n) + n) with (k - e) in * by lia; lia ].
          rewrite <- Heq, Hr. rewrite Z.mul_comm. apply Z.mul_div_le. by apply pow2_pos. }
        assert (Hl : l = loc_Exact).
        { destruct l; [ done | ]. rewrite <- Z.pow_add_r in Hm2 by lia.
          replace (k - (e + n) + n) with (k - e) in Hm2 by lia. lia. }
        assert (Hex : loc_of_shr_record r = loc_Exact) by (by eapply Hx). rewrite Hex. cbn [round_nearest_even]. lia.
      - assert (shr_m r <= round_nearest_even (shr_m r) (loc_of_shr_record r) <= shr_m r + 1); [ | lia ].
        destruct (loc_of_shr_record r) as [|[]]; cbn [round_nearest_even]; try destruct (Z.even _); lia. }
    split_and!; try lia; right; split; lia.
Qed.

Lemma round_at_most k m e l : 0 <= m -> 3 - emax - prec <= k < emax -> e <= emax - prec -> below k m e l ->
  at_most k (binary_round_aux prec emax false m e l).
Proof.
  intros Hm Hk He Hb. unfold binary_round_aux.
  destruct (round_step_below k m e l Hm Hk He Hb) as (r & e1 & -> & _ & He1 & Hb1 & Hm1 & _).
  destruct (round_step_below k _ e1 loc_Exact Hm1 Hk He1 Hb1) as (r2 & e2 & -> & Hm2 & He2 & _ & _ & Hb2).
  destruct (shr_m r2) as [|q|q]; [ done | | lia ]. rewrite (proj2 (Z.leb_le _ _)) by lia.
  destruct Hb2 as [[? _]|Hb2]; [ done | ]. cbn. lia.
Qed.

(** *** Lower bounds *)

Definition above (k m e : Z) : Prop := 0 < m /\ (k <= e \/ 2 ^ (k - e) <= m).

Lemma round_step_above k m e l : 3 - emax - prec <= k -> above k m e ->
  exists r e', shr_fexp prec emax m e l = (r, e') /\ above k (shr_m r) e'.
Proof.
  intros Hk [Hm Ha]. destruct (shr_fexp_spec m e l ltac:(lia)) as (n & r & Hn & Hnd & Hs & Hr & _).
  exists r, (e + n). split; [ done | ]. rewrite fexp_eq in Hnd. unfold above. rewrite Hr.
  destruct (Z.eq_dec n 0) as [->|Hn0]; [ rewrite Z.add_0_r, Z.div_1_r; auto | ].
  destruct m as [|p|p]; [ lia | | lia ]. cbn [Zdigits2] in Hnd. pose proof (pow2_pos n Hn) as Hpn.
  destruct (Z.le_gt_cases k (e + n)) as [Hke|Hke].
  - assert (2 ^ n <= Zpos p).
    { destruct (Z.le_gt_cases n (Zpos (digits2_pos p) - 1)); [ apply digits_canonical_le; lia | ].
      destruct Ha as [Ha|Ha]; [ lia | ]. replace n with (k - e) by lia. done. }
    assert (1 <= Zpos p / 2 ^ n) by (apply Z.div_le_lower_bound; lia). lia.
  - destruct Ha as [Ha|Ha]; [ lia | ].
    assert (2 ^ (k - (e + n)) <= Zpos p / 2 ^ n).
    { apply Z.div_le_lower_bound; [ done | ]. rewrite <- Z.pow_add_r by lia.
      by replace (n + (k - (e + n))) with (k - e) by lia. }
    pose proof (pow2_pos (k - (e + n)) ltac:(lia)). lia.
Qed.

Lemma round_at_least k m e l : 3 - emax - prec <= k -> above k m e ->
  at_least k (binary_round_aux prec emax false m e l).
Proof.
  intros Hk Ha. unfold binary_round_aux.
  destruct (round_step_above k m e l Hk Ha) as (r & e1 & -> & Hm1 & Ha1).
  assert (Hb1 : above k (round_nearest_even (shr_m r) (loc_of_shr_record r)) e1).
  { assert (shr_m r <= round_nearest_even (shr_m r) (loc_of_shr_record r)); [ | unfold above; lia ].
    destruct (loc_of_shr_record r) as [|[]]; cbn [round_nearest_even]; try destruct (Z.even _); lia. }
  destruct (round_step_above k _ e1 loc_Exact Hk Hb1) as (r2 & e2 & -> & Hm2 & Ha2).
  destruct (shr_m r2) as [|q|q]; [ lia | | lia ]. by destruct (_ <=? _).
Qed.

Lemma round_not_negative m e l : 0 <= m -> not_negative (binary_round_aux prec emax false m e l).
Proof.
  intros Hm. unfold binary_round_aux.
  destruct (shr_fexp_spec m e l Hm) as (n & r & Hn & _ & -> & Hr & _).
  assert (Hm1 : 0 <= round_nearest_even (shr_m r) (loc_of_shr_record r)).
  { assert (0 <= shr_m r) by (rewrite Hr; apply Z.div_pos; [ done | by apply pow2_pos ]).
    destruct (loc_of_shr_record r) as [|[]]; cbn [round_nearest_even]; try destruct (Z.even _); lia. }
  destruct (shr_fexp_spec _ (e + n) loc_Exact Hm1) as (n2 & r2 & Hn2 & _ & -> & Hr2 & _).
  assert (0 <= shr_m r2) by (rewrite Hr2; apply Z.div_pos; [ done | by apply pow2_pos ]).
  destruct (shr_m r2); [ done | by destruct (_ <=? _) | lia ].
Qed.
End Rounding.

(** ** Operations *)

Lemma shl_align_spec m e e0 :
  exists m', shl_align m e e0 = (m', Z.min e e0) /\ Zpos m' = Zpos m * 2 ^ (e - Z.min e e0).
Proof.
  unfold shl_align. destruct (e0 - e) as [|d|d] eqn:E.
  - exists m. replace (Z.min e e0) with e by lia. by rewrite Z.sub_diag, Z.mul_1_r.
  - exists m. replace (Z.min e e0) with e by lia. by rewrite Z.sub_diag, Z.mul_1_r.
  - exists (Pos.iter xO m d). replace (Z.min e e0) with e0 by lia. split; [ done | ].
    rewrite (proj1 (Double.shift_spec d m)). by replace (e - e0) with (Zpos d) by lia.
Qed.

Lemma at_most_mono a b x : a <= b -> at_most a x -> at_most b x.
Proof.
  intros Hab. destruct x as [?|?| |[] m e]; try done. cbn. intros [He Hm]. split; [ lia | ].
  assert (2 ^ (a - e) <= 2 ^ (b - e)) by (apply Z.pow_le_mono_r; lia). lia.
Qed.

Section Operations.
Context (prec emax : Z) (Hprec : 0 < prec) (Hemax : prec < emax).
Implicit Types (x y : spec_float).

Lemma normalize_at_most k m e s : 3 - emax - prec <= k < emax -> e <= k -> 0 <= m <= 2 ^ (k - e) ->
  at_most k (binary_normalize prec emax m e s).
Proof.
  intros Hk He Hm. destruct m as [|p|p]; [ done | | lia ]. cbn [binary_normalize]. unfold binary_round.
  destruct (shl_align_spec p e (fexp prec emax (Zpos (digits2_pos p) + e))) as (p' & -> & Hp').
  pose proof (digits_le p (k - e) ltac:(lia) ltac:(lia)) as Hd. rewrite fexp_eq in *.
  set (e' := Z.min e _) in *. apply round_at_most; try done; try lia. right. split; [ lia | ].
  rewrite Z.add_0_r, Hp'. replace (k - e') with (k - e + (e - e')) by lia.
  rewrite Z.pow_add_r by lia. apply Z.mul_le_mono_nonneg_r; [ | lia ]. apply Z.lt_le_incl, pow2_pos. lia.
Qed.

Lemma normalize_at_least k m e s : 3 - emax - prec <= k -> 0 < m -> k <= e \/ 2 ^ (k - e) <= m ->
  at_least k (binary_normalize prec emax m e s).
Proof.
  intros Hk Hm Ha. destruct m as [|p|p]; [ lia | | lia ]. cbn [binary_normalize]. unfold binary_round.
  destruct (shl_align_spec p e (fexp prec emax (Zpos (digits2_pos p) + e))) as (p' & -> & Hp').
  set (e' := Z.min e _) in *. apply round_at_least; try done. split; [ lia | ].
  destruct (Z.le_gt_cases k e') as [|Hke]; [ by left | right ]. rewrite Hp'.
  destruct Ha as [Ha|Ha].
  - assert (2 ^ (k - e') <= 2 ^ (e - e')) by (apply Z.pow_le_mono_r; lia). pose proof (pow2_pos (e - e') ltac:(lia)). nia.
  - destruct (Z.le_gt_cases k e) as [Hk2|Hk2].
    + assert (2 ^ (k - e') <= 2 ^ (e - e')) by (apply Z.pow_le_mono_r; lia). pose proof (pow2_pos (e - e') ltac:(lia)). nia.
    + replace (k - e') with (k - e + (e - e')) by lia. rewrite Z.pow_add_r by lia.
      apply Z.mul_le_mono_nonneg_r; [ | lia ]. apply Z.lt_le_incl, pow2_pos. lia.
Qed.

Lemma normalize_not_negative m e s : 0 <= m -> not_negative (binary_normalize prec emax m e s).
Proof.
  intros Hm. destruct m as [|p|p]; [ done | | lia ]. cbn [binary_normalize]. unfold binary_round.
  destruct (shl_align _ _ _). by apply round_not_negative.
Qed.

(** The sum of two mantissas that have been aligned *)
Lemma add_aligned m1 e1 m2 e2 :
  let ez := Z.min e1 e2 in
  SFadd prec emax (S754_finite false m1 e1) (S754_finite false m2 e2)
  = binary_normalize prec emax (Zpos m1 * 2 ^ (e1 - ez) + Zpos m2 * 2 ^ (e2 - ez)) ez false.
Proof.
  cbn [SFadd]. destruct (shl_align_spec m1 e1 (Z.min e1 e2)) as (p1 & -> & Hp1).
  destruct (shl_align_spec m2 e2 (Z.min e1 e2)) as (p2 & -> & Hp2). cbn [fst cond_Zopp]. rewrite Hp1, Hp2.
  replace (Z.min e1 (Z.min e1 e2)) with (Z.min e1 e2) by lia. by replace (Z.min e2 (Z.min e1 e2)) with (Z.min e1 e2) by lia.
Qed.

Lemma scale_above k m e ez : ez <= e -> 0 < m -> k <= e \/ 2 ^ (k - e) <= m ->
  k <= ez \/ 2 ^ (k - ez) <= m * 2 ^ (e - ez).
Proof.
  intros He Hm Ha. destruct (Z.le_gt_cases k ez) as [|Hke]; [ by left | right ].
  pose proof (pow2_pos (e - ez) ltac:(lia)). destruct (Z.le_gt_cases k e) as [Hk2|Hk2].
  - assert (2 ^ (k - ez) <= 2 ^ (e - ez)) by (apply Z.pow_le_mono_r; lia). nia.
  - destruct Ha as [|Ha]; [ lia | ]. replace (k - ez) with (k - e + (e - ez)) by lia.
    rewrite Z.pow_add_r by lia. apply Z.mul_le_mono_nonneg_r; lia.
Qed.

Lemma scale_below k m e ez : ez <= e -> e <= k -> m <= 2 ^ (k - e) -> m * 2 ^ (e - ez) <= 2 ^ (k - ez).
Proof.
  intros He Hk Hm. pose proof (pow2_pos (e - ez) ltac:(lia)). replace (k - ez) with (k - e + (e - ez)) by lia.
  rewrite Z.pow_add_r by lia. apply Z.mul_le_mono_nonneg_r; lia.
Qed.

Lemma add_at_least k x y : 3 - emax - prec <= k -> at_least k x -> not_negative y -> at_least k (SFadd prec emax x y).
Proof.
  intros Hk Hx Hy. destruct x as [?|[]| |[] m1 e1], y as [?|[]| |[] m2 e2]; try done.
  cbn [at_least] in Hx. rewrite add_aligned. pose proof (pow2_pos (e2 - Z.min e1 e2) ltac:(lia)).
  pose proof (pow2_pos (e1 - Z.min e1 e2) ltac:(lia)). apply normalize_at_least; [ done | nia | ].
  destruct (scale_above k (Zpos m1) e1 (Z.min e1 e2) ltac:(lia) ltac:(lia) Hx) as [|Ha]; [ by left | right ]. nia.
Qed.

Lemma add_at_least_r k x y : 3 - emax - prec <= k -> at_least k x -> not_negative y -> at_least k (SFadd prec emax y x).
Proof.
  intros Hk Hx Hy. destruct x as [?|[]| |[] m1 e1], y as [?|[]| |[] m2 e2]; try done.
  cbn [at_least] in Hx. rewrite add_aligned. pose proof (pow2_pos (e2 - Z.min e2 e1) ltac:(lia)).
  pose proof (pow2_pos (e1 - Z.min e2 e1) ltac:(lia)). apply normalize_at_least; [ done | nia | ].
  destruct (scale_above k (Zpos m1) e1 (Z.min e2 e1) ltac:(lia) ltac:(lia) Hx) as [|Ha]; [ by left | right ]. nia.
Qed.

Lemma add_at_most k x y : 3 - emax - prec <= k + 1 < emax -> at_most k x -> at_most k y ->
  at_most (k + 1) (SFadd prec emax x y).
Proof.
  intros Hk Hx Hy. assert (Hx1 := at_most_mono k (k + 1) x ltac:(lia) Hx). assert (Hy1 := at_most_mono k (k + 1) y ltac:(lia) Hy).
  destruct x as [[]|[]| |[] m1 e1], y as [[]|[]| |[] m2 e2]; try done.
  cbn [at_most] in Hx, Hy. rewrite add_aligned. set (ez := Z.min e1 e2).
  pose proof (scale_below k (Zpos m1) e1 ez ltac:(lia) ltac:(lia) ltac:(lia)).
  pose proof (scale_below k (Zpos m2) e2 ez ltac:(lia) ltac:(lia) ltac:(lia)).
  pose proof (pow2_pos (e1 - ez) ltac:(lia)). pose proof (pow2_pos (e2 - ez) ltac:(lia)).
  apply normalize_at_most; [ done | lia | ]. replace (k + 1 - ez) with (k - ez + 1) by lia.
  rewrite Z.pow_add_r by lia. nia.
Qed.

Lemma mul_not_negative a b x y : at_most a x -> at_most b y -> not_negative (SFmul prec emax x y).
Proof.
  intros Hx Hy. destruct x as [?|[]| |[]], y as [?|[]| |[]]; try done. by apply round_not_negative.
Qed.

Lemma location_exact d r : new_location d r = loc_Exact <-> r = 0.
Proof.
  unfold new_location, new_location_even, new_location_odd.
  destruct (Z.even d), (Z.eqb_spec r 0); naive_solver.
Qed.

Lemma div_at_most a b x y : 3 - emax - prec <= a - b < emax -> at_most a x -> at_least b y ->
  at_most (a - b) (SFdiv prec emax x y).
Proof.
  intros Hk Hx Hy. destruct x as [?|[]| |[] m1 e1], y as [?|[]| |[] m2 e2]; try done. cbn [at_most at_least] in Hx, Hy.
  destruct Hx as [He1 Hm1]. cbn [SFdiv xorb]. unfold SFdiv_core_binary. cbn [Zdigits2]. cbv zeta.
  pose proof (digits_le m1 (a - e1) ltac:(lia) Hm1) as Hd1.
  assert (Hd2 : b + 1 <= Zpos (digits2_pos m2) + e2).
  { destruct (Z.le_gt_cases b e2) as [|Hb]; [ lia | ]. destruct Hy as [|Hy]; [ lia | ].
    pose proof (digits_gt m2 (b - e2) ltac:(lia) Hy). lia. }
  rewrite fexp_eq. set (e' := Z.min _ (e1 - e2)). set (s := e1 - e2 - e').
  assert (Hs : 0 <= s) by lia.
  assert (Hm' : match s with Z0 => Zpos m1 | Zpos _ => Z.shiftl (Zpos m1) s | Zneg _ => 0 end = Zpos m1 * 2 ^ s).
  { destruct s; [ by rewrite Z.mul_1_r | by rewrite Z.shiftl_mul_pow2 | lia ]. }
  rewrite Hm'. pose proof (Z_div_mod (Zpos m1 * 2 ^ s) (Zpos m2) ltac:(lia)) as Hq.
  destruct (Z.div_eucl _ _) as [q r]. destruct Hq as [Hq Hr].
  assert (Hm'k : Zpos m1 * 2 ^ s <= Zpos m2 * 2 ^ (a - b - e')).
  { pose proof (pow2_pos s Hs).
    assert (Zpos m1 * 2 ^ s <= 2 ^ (a - e2 - e')).
    { replace (a - e2 - e') with (a - e1 + s) by lia. rewrite Z.pow_add_r by lia. apply Z.mul_le_mono_nonneg_r; lia. }
    assert (2 ^ (a - e2 - e') <= Zpos m2 * 2 ^ (a - b - e')); [ | lia ].
    pose proof (pow2_pos (a - b - e') ltac:(lia)). destruct (Z.le_gt_cases b e2) as [Hb|Hb].
    - assert (2 ^ (a - e2 - e') <= 2 ^ (a - b - e')) by (apply Z.pow_le_mono_r; lia). nia.
    - destruct Hy as [|Hy]; [ lia | ]. replace (a - e2 - e') with (b - e2 + (a - b - e')) by lia.
      rewrite Z.pow_add_r by lia. apply Z.mul_le_mono_nonneg_r; lia. }
  pose proof (pow2_pos s Hs). assert (Hq0 : 0 <= q) by nia.
  apply round_at_most; try done; try lia. right. split; [ lia | ].
  destruct (new_location (Zpos m2) r) eqn:Hl.
  - apply location_exact in Hl. nia.
  - assert (r <> 0) by (intros Hr0; apply (location_exact (Zpos m2)) in Hr0; congruence). nia.
Qed.
End Operations.

(** Truncation of a number between 1 and a power of two *)
Lemma trunc_range k x : 0 <= k -> at_least 0 x -> at_most k x -> exists n, Double.trunc x = Some n /\ 1 <= n <= 2 ^ k.
Proof.
  intros Hk Hl Hm. destruct x as [?|[]| |[] m e]; try done. cbn [at_least at_most Double.trunc] in *.
  destruct Hm as [He Hm]. eexists. split; [ reflexivity | ]. destruct (Z.ltb_spec e 0) as [Hneg|Hpos].
  - destruct Hl as [|Hl]; [ lia | ]. rewrite Z.shiftr_div_pow2 by lia. pose proof (pow2_pos (- e) ltac:(lia)).
    replace (0 - e) with (- e) in Hl by lia. split; [ apply Z.div_le_lower_bound; lia | ].
    apply Z.div_le_upper_bound; [ lia | ]. rewrite <- Z.pow_add_r by lia. by replace (- e + k) with (k - e) by lia.
  - rewrite Z.shiftl_mul_pow2 by lia. pose proof (pow2_pos e Hpos). split; [ nia | ].
    replace k with (k - e + e) by lia. rewrite Z.pow_add_r by lia. apply Z.mul_le_mono_nonneg_r; lia.
Qed.

(** A valid double that is not less than 0.5 *)
Lemma half_at_least x : valid_binary Double.prec Double.emax x = true ->
  Double.leb (S754_finite false (2 ^ 52) (-53)) x = true -> at_least (-1) x.
Proof.
  intros Hv Hl. destruct x as [?|[]| |[] m e]; try done. unfold Double.leb, SFleb in Hl. cbn [SFcompare] in Hl.
  cbn [valid_binary] in Hv. unfold bounded in Hv. apply andb_true_iff in Hv as [Hc _].
  unfold canonical_mantissa in Hc. apply Z.eqb_eq in Hc. rewrite fexp_eq in Hc. unfold Double.prec, Double.emax in Hc.
  cbn [at_least]. right. destruct (Z.compare_spec (-53) e) as [<-|Hlt|]; [ | | done ].
  - change (2 ^ (-1 - -53)) with (Zpos (2 ^ 52)). change (Pos.compare_cont Eq) with Pos.compare in Hl.
    destruct (Pos.compare_spec (2 ^ 52) m); [ | | done ]; lia.
  - destruct (Z.le_gt_cases (-1 - e) 0) as [Hn|Hn].
    + pose proof (Z.pow_le_mono_r 2 (-1 - e) 0 ltac:(lia) Hn). lia.
    + apply digits_canonical_le; lia.
Qed.
