(* ===== verification/Time.v ===== *)
(** * Time: [src/util/time.c]

    Absolute and relative times are 64-bit numbers of milliseconds, [UINT64_MAX]
    standing for "forever".  [GNUNET_TIME_absolute_get] reads the clock of the
    operating system: an operation that calls it takes the current time [now] as
    an argument.  [GNUNET_break] only logs and is left out. *)

From Stdlib Require Import ZArith Lia.
From stdpp Require Import base list numbers.
From S2P Require Import Prelude Endian Double.
Local Open Scope Z_scope.

Record GNUNET_TIME_Absolute := mk_abs { abs_value : Z }.
Record GNUNET_TIME_Relative := mk_rel { rel_value : Z }.
Record GNUNET_TIME_AbsoluteNBO := mk_abs_nbo { abs_value__ : Z }.
Record GNUNET_TIME_RelativeNBO := mk_rel_nbo { rel_value__ : Z }.

#[global] Instance abs_eq_dec : EqDecision GNUNET_TIME_Absolute.
Proof. solve_decision. Defined.
#[global] Instance rel_eq_dec : EqDecision GNUNET_TIME_Relative.
Proof. solve_decision. Defined.

Definition is_abs (t : GNUNET_TIME_Absolute) : Prop := is_u64 (abs_value t).
Definition is_rel (t : GNUNET_TIME_Relative) : Prop := is_u64 (rel_value t).

(** ** The clock

    [tv_sec] and [tv_usec] are what [gettimeofday] reports, [timestamp_offset]
    the value of the static variable set by [GNUNET_TIME_set_offset]. *)
Definition GNUNET_TIME_absolute_get (timestamp_offset tv_sec tv_usec : Z)
  : GNUNET_TIME_Absolute :=
  mk_abs (u64 (u64 (u64 (u64 tv_sec * 1000) + u64 tv_usec / 1000)
               + timestamp_offset)).

(** ** Constants *)

Definition GNUNET_TIME_relative_get_zero_ : GNUNET_TIME_Relative := mk_rel 0.
Definition GNUNET_TIME_absolute_get_zero_ : GNUNET_TIME_Absolute := mk_abs 0.
Definition GNUNET_TIME_relative_get_unit_ : GNUNET_TIME_Relative := mk_rel 1.
Definition GNUNET_TIME_relative_get_second_ : GNUNET_TIME_Relative := mk_rel 1000.
Definition GNUNET_TIME_relative_get_minute_ : GNUNET_TIME_Relative :=
  mk_rel (60 * 1000).
Definition GNUNET_TIME_relative_get_hour_ : GNUNET_TIME_Relative :=
  mk_rel (60 * 60 * 1000).
Definition GNUNET_TIME_relative_get_forever_ : GNUNET_TIME_Relative :=
  mk_rel UINT64_MAX.
Definition GNUNET_TIME_absolute_get_forever_ : GNUNET_TIME_Absolute :=
  mk_abs UINT64_MAX.

Abbreviation GNUNET_TIME_UNIT_ZERO := GNUNET_TIME_relative_get_zero_.
Abbreviation GNUNET_TIME_UNIT_ZERO_ABS := GNUNET_TIME_absolute_get_zero_.
Abbreviation GNUNET_TIME_UNIT_MILLISECONDS := GNUNET_TIME_relative_get_unit_.
Abbreviation GNUNET_TIME_UNIT_SECONDS := GNUNET_TIME_relative_get_second_.
Abbreviation GNUNET_TIME_UNIT_FOREVER_REL := GNUNET_TIME_relative_get_forever_.
Abbreviation GNUNET_TIME_UNIT_FOREVER_ABS := GNUNET_TIME_absolute_get_forever_.

(** ** Operations *)

Definition GNUNET_TIME_relative_to_absolute (now : GNUNET_TIME_Absolute)
  (rel : GNUNET_TIME_Relative) : GNUNET_TIME_Absolute :=
  if rel_value rel =? UINT64_MAX then GNUNET_TIME_UNIT_FOREVER_ABS
  else if u64 (rel_value rel + abs_value now) <? rel_value rel
  then GNUNET_TIME_UNIT_FOREVER_ABS
  else mk_abs (u64 (rel_value rel + abs_value now)).

Definition GNUNET_TIME_relative_min (t1 t2 : GNUNET_TIME_Relative)
  : GNUNET_TIME_Relative :=
  if rel_value t1 <? rel_value t2 then t1 else t2.

Definition GNUNET_TIME_relative_max (t1 t2 : GNUNET_TIME_Relative)
  : GNUNET_TIME_Relative :=
  if rel_value t2 <? rel_value t1 then t1 else t2.

Definition GNUNET_TIME_absolute_min (t1 t2 : GNUNET_TIME_Absolute)
  : GNUNET_TIME_Absolute :=
  if abs_value t1 <? abs_value t2 then t1 else t2.

Definition GNUNET_TIME_absolute_max (t1 t2 : GNUNET_TIME_Absolute)
  : GNUNET_TIME_Absolute :=
  if abs_value t2 <? abs_value t1 then t1 else t2.

Definition GNUNET_TIME_absolute_get_remaining (now future : GNUNET_TIME_Absolute)
  : GNUNET_TIME_Relative :=
  if abs_value future =? UINT64_MAX then GNUNET_TIME_UNIT_FOREVER_REL
  else if abs_value future <? abs_value now then GNUNET_TIME_UNIT_ZERO
  else mk_rel (u64 (abs_value future - abs_value now)).

Definition GNUNET_TIME_absolute_get_difference (start end_ : GNUNET_TIME_Absolute)
  : GNUNET_TIME_Relative :=
  if abs_value end_ =? UINT64_MAX then GNUNET_TIME_UNIT_FOREVER_REL
  else if abs_value end_ <? abs_value start then GNUNET_TIME_UNIT_ZERO
  else mk_rel (u64 (abs_value end_ - abs_value start)).

Definition GNUNET_TIME_absolute_get_duration (now whence : GNUNET_TIME_Absolute)
  : outcome GNUNET_TIME_Relative :=
  _ ← gnunet_assert (negb (abs_value whence =? UINT64_MAX));
  if abs_value now <? abs_value whence then Ret GNUNET_TIME_UNIT_ZERO
  else Ret (mk_rel (u64 (abs_value now - abs_value whence))).

Definition GNUNET_TIME_absolute_add (start : GNUNET_TIME_Absolute)
  (duration : GNUNET_TIME_Relative) : GNUNET_TIME_Absolute :=
  if (abs_value start =? UINT64_MAX) || (rel_value duration =? UINT64_MAX)
  then GNUNET_TIME_UNIT_FOREVER_ABS
  else if u64 (abs_value start + rel_value duration) <? abs_value start
  then GNUNET_TIME_UNIT_FOREVER_ABS
  else mk_abs (u64 (abs_value start + rel_value duration)).

Definition GNUNET_TIME_absolute_subtract (start : GNUNET_TIME_Absolute)
  (duration : GNUNET_TIME_Relative) : GNUNET_TIME_Absolute :=
  if abs_value start <=? rel_value duration then GNUNET_TIME_UNIT_ZERO_ABS
  else if abs_value start =? abs_value GNUNET_TIME_UNIT_FOREVER_ABS
  then GNUNET_TIME_UNIT_FOREVER_ABS
  else mk_abs (u64 (abs_value start - rel_value duration)).

(** [factor] is an [unsigned int]. *)
Definition GNUNET_TIME_relative_multiply (rel : GNUNET_TIME_Relative) (factor : Z)
  : GNUNET_TIME_Relative :=
  if factor =? 0 then GNUNET_TIME_UNIT_ZERO
  else
    let r := u64 (rel_value rel * factor) in
    if negb (r / factor =? rel_value rel) then GNUNET_TIME_UNIT_FOREVER_REL
    else mk_rel r.

Definition GNUNET_TIME_relative_divide (rel : GNUNET_TIME_Relative) (factor : Z)
  : GNUNET_TIME_Relative :=
  if (factor =? 0) || (rel_value rel =? rel_value GNUNET_TIME_UNIT_FOREVER_REL)
  then GNUNET_TIME_UNIT_FOREVER_REL
  else mk_rel (rel_value rel / factor).

Definition GNUNET_TIME_calculate_eta `{FloatConversion} (now start : GNUNET_TIME_Absolute)
  (finished total : Z) : outcome GNUNET_TIME_Relative :=
  if total <=? finished then Ret GNUNET_TIME_UNIT_ZERO
  else if finished =? 0 then Ret GNUNET_TIME_UNIT_FOREVER_REL
  else
    dur ← GNUNET_TIME_absolute_get_duration now start;
    let exp := Double.div (Double.mul (Double.of_Z (rel_value dur)) (Double.of_Z total))
                          (Double.of_Z finished) in
    Ret (mk_rel (u64 (Double.to_u64 exp - rel_value dur))).

Definition GNUNET_TIME_relative_add (a1 a2 : GNUNET_TIME_Relative)
  : GNUNET_TIME_Relative :=
  if (rel_value a1 =? UINT64_MAX) || (rel_value a2 =? UINT64_MAX)
  then GNUNET_TIME_UNIT_FOREVER_REL
  else if u64 (rel_value a1 + rel_value a2) <? rel_value a1
  then GNUNET_TIME_UNIT_FOREVER_REL
  else mk_rel (u64 (rel_value a1 + rel_value a2)).

Definition GNUNET_TIME_relative_subtract (a1 a2 : GNUNET_TIME_Relative)
  : GNUNET_TIME_Relative :=
  if rel_value a1 <=? rel_value a2 then GNUNET_TIME_UNIT_ZERO
  else if rel_value a1 =? UINT64_MAX then GNUNET_TIME_UNIT_FOREVER_REL
  else mk_rel (u64 (rel_value a1 - rel_value a2)).

Definition GNUNET_TIME_relative_hton (a : GNUNET_TIME_Relative)
  : GNUNET_TIME_RelativeNBO := mk_rel_nbo (GNUNET_htonll (rel_value a)).
Definition GNUNET_TIME_relative_ntoh (a : GNUNET_TIME_RelativeNBO)
  : GNUNET_TIME_Relative := mk_rel (GNUNET_ntohll (rel_value__ a)).
Definition GNUNET_TIME_absolute_hton (a : GNUNET_TIME_Absolute)
  : GNUNET_TIME_AbsoluteNBO := mk_abs_nbo (GNUNET_htonll (abs_value a)).
Definition GNUNET_TIME_absolute_ntoh (a : GNUNET_TIME_AbsoluteNBO)
  : GNUNET_TIME_Absolute := mk_abs (GNUNET_ntohll (abs_value__ a)).

(** ** Saturating arithmetic *)

(** Exact addition in the extended naturals: what the header promises of every
    addition of times. *)
Definition saturate (z : Z) : Z := Z.min z UINT64_MAX.

Lemma saturating_add_correct (a b : Z) :
  is_u64 a -> is_u64 b ->
  (if (a =? UINT64_MAX) || (b =? UINT64_MAX) then UINT64_MAX
   else if u64 (a + b) <? a then UINT64_MAX else u64 (a + b)) = saturate (a + b).
Proof.
  intros Ha Hb. unfold saturate.
  destruct ((a =? UINT64_MAX) || (b =? UINT64_MAX)) eqn:E.
  - unfold_ints; lia.
  - destruct (Z.lt_ge_cases (a + b) (2 ^ 64)).
    + rewrite u64_small by (unfold_ints; lia).
      destruct (a + b <? a) eqn:E2; unfold_ints; lia.
    + replace (u64 (a + b)) with (a + b - 2 ^ 64) by int_lia.
      destruct (a + b - 2 ^ 64 <? a) eqn:E2; unfold_ints; lia.
Qed.

Lemma absolute_add_saturates start d :
  is_abs start -> is_rel d ->
  abs_value (GNUNET_TIME_absolute_add start d)
  = saturate (abs_value start + rel_value d).
Proof.
  intros Hs Hd. rewrite <- saturating_add_correct by done.
  unfold GNUNET_TIME_absolute_add. by repeat case_match.
Qed.

Lemma relative_add_saturates a b :
  is_rel a -> is_rel b ->
  rel_value (GNUNET_TIME_relative_add a b) = saturate (rel_value a + rel_value b).
Proof.
  intros Ha Hb. rewrite <- saturating_add_correct by done.
  unfold GNUNET_TIME_relative_add. by repeat case_match.
Qed.

(** The overflow test of the multiplication, [ret / factor != rel], is exact. *)
Lemma relative_multiply_saturates rel factor :
  is_rel rel -> is_u32 factor ->
  rel_value (GNUNET_TIME_relative_multiply rel factor)
  = saturate (rel_value rel * factor).
Proof.
  intros Hr Hf. unfold GNUNET_TIME_relative_multiply, saturate, is_rel in *.
  destruct (factor =? 0) eqn:E0.
  - assert (factor = 0) as -> by lia. simpl. unfold_ints; lia.
  - destruct (Z.lt_ge_cases (rel_value rel * factor) (2 ^ 64)) as [Hlt|Hge].
    + rewrite u64_small by (unfold_ints; nia). rewrite Z.div_mul by lia.
      rewrite Z.eqb_refl; simpl. unfold_ints; lia.
    + assert (Hd : u64 (rel_value rel * factor) / factor < rel_value rel).
      { apply Z.div_lt_upper_bound; [ unfold_ints; lia | ].
        pose proof (u64_range (rel_value rel * factor)).
        unfold is_u64 in *. lia. }
      destruct (u64 (rel_value rel * factor) / factor =? rel_value rel) eqn:E;
        [ lia | ]. simpl. unfold_ints; lia.
Qed.

Lemma relative_to_absolute_saturates now rel :
  is_abs now -> is_rel rel ->
  abs_value (GNUNET_TIME_relative_to_absolute now rel)
  = saturate (rel_value rel + abs_value now).
Proof.
  intros Hn Hr. unfold GNUNET_TIME_relative_to_absolute, saturate, is_abs, is_rel in *.
  destruct (rel_value rel =? UINT64_MAX) eqn:E; [ simpl; unfold_ints; lia | ].
  destruct (Z.lt_ge_cases (rel_value rel + abs_value now) (2 ^ 64)).
  - rewrite u64_small by (unfold_ints; lia). case_match; simpl; unfold_ints; lia.
  - replace (u64 (rel_value rel + abs_value now))
      with (rel_value rel + abs_value now - 2 ^ 64) by int_lia.
    case_match; simpl; unfold_ints; lia.
Qed.

Lemma saturate_id z : is_u64 z -> saturate z = z.
Proof. unfold saturate. unfold_ints. lia. Qed.

(** Adding and multiplying times on 64-bit words saturates at FOREVER
    instead of wrapping around: the result is the mathematical sum or product,
    capped at the largest 64-bit value. *)
Theorem time_arithmetic_saturates (t now : GNUNET_TIME_Absolute)
  (d e : GNUNET_TIME_Relative) (factor : Z) :
  is_abs t -> is_abs now -> is_rel d -> is_rel e -> is_u32 factor ->
  abs_value (GNUNET_TIME_absolute_add t d) = saturate (abs_value t + rel_value d) /\
  rel_value (GNUNET_TIME_relative_add d e) = saturate (rel_value d + rel_value e) /\
  rel_value (GNUNET_TIME_relative_multiply d factor) = saturate (rel_value d * factor) /\
  abs_value (GNUNET_TIME_relative_to_absolute now d)
  = saturate (rel_value d + abs_value now).
Proof.
  intros Ht Hn Hd He Hf. split_and!.
  - by apply absolute_add_saturates.
  - by apply relative_add_saturates.
  - by apply relative_multiply_saturates.
  - by apply relative_to_absolute_saturates.
Qed.

Lemma time_arithmetic_saturates_witness :
  rel_value (GNUNET_TIME_relative_multiply (mk_rel (2 ^ 33)) (2 ^ 31)) = UINT64_MAX.
Proof.
  destruct (time_arithmetic_saturates (mk_abs 5) (mk_abs 7) (mk_rel (2 ^ 33))
    (mk_rel 9) (2 ^ 31)) as (_ & _ & -> & _);
    try (unfold is_abs, is_rel, is_u64, is_u32; simpl; lia).
  reflexivity.
Defined.

(** The difference of two times, added to the first, gives the second; it
    is zero when the second is earlier; subtracting undoes adding unless it
    saturated; the remaining time is the difference from now. *)
Lemma difference_inverts_addition (start end_ : GNUNET_TIME_Absolute)
  (d : GNUNET_TIME_Relative) :
  is_abs start -> is_abs end_ -> is_rel d ->
  (abs_value start <= abs_value end_ ->
   GNUNET_TIME_absolute_add start (GNUNET_TIME_absolute_get_difference start end_)
   = end_) /\
  (abs_value end_ < abs_value start ->
   GNUNET_TIME_absolute_get_difference start end_ = GNUNET_TIME_UNIT_ZERO) /\
  (abs_value start + rel_value d < UINT64_MAX ->
   GNUNET_TIME_absolute_get_difference start (GNUNET_TIME_absolute_add start d) = d /\
   GNUNET_TIME_absolute_subtract (GNUNET_TIME_absolute_add start d) d = start) /\
  GNUNET_TIME_absolute_get_remaining start end_
  = GNUNET_TIME_absolute_get_difference start end_.
Proof.
  destruct start as [s], end_ as [e], d as [d]. unfold is_abs, is_rel.
  cbn [abs_value rel_value]. intros Hs He Hd. split_and!; [ .. | done ].
  - intros Hle. unfold GNUNET_TIME_absolute_get_difference; cbn [abs_value].
    destruct (e =? UINT64_MAX) eqn:E1;
      [ | destruct (e <? s) eqn:E2; [ lia | rewrite u64_small by (unfold_ints; lia) ] ];
      unfold GNUNET_TIME_absolute_add; cbn [abs_value rel_value];
      (case_match; [ f_equal; unfold_ints; lia | ]).
    + cbn in *. unfold_ints; lia.
    + replace (s + (e - s)) with e by lia. rewrite u64_small by done.
      rewrite E2. done.
  - intros Hlt. unfold GNUNET_TIME_absolute_get_difference; cbn [abs_value].
    destruct (e =? UINT64_MAX) eqn:E1; [ unfold_ints; lia | ].
    by rewrite (proj2 (Z.ltb_lt e s) Hlt).
  - intros Hlt.
    assert (Ha : GNUNET_TIME_absolute_add (mk_abs s) (mk_rel d) = mk_abs (s + d)).
    { unfold GNUNET_TIME_absolute_add; cbn [abs_value rel_value].
      rewrite u64_small by (unfold_ints; lia).
      repeat case_match; first [ done | unfold_ints; lia ]. }
    rewrite Ha. unfold GNUNET_TIME_absolute_get_difference, GNUNET_TIME_absolute_subtract.
    cbn [abs_value rel_value].
    replace (s + d - s) with d by lia. replace (s + d - d) with s by lia.
    rewrite !u64_small by done.
    split; repeat case_match; try done; try (cbn in *; unfold_ints; lia);
      unfold GNUNET_TIME_absolute_get_zero_, GNUNET_TIME_absolute_get_forever_;
      f_equal; cbn in *; unfold_ints; lia.
Qed.

(** The bytes of a time on the wire are its big-endian encoding, and reading them
    back gives the time. *)
Lemma absolute_nbo_roundtrip t :
  is_abs t ->
  GNUNET_TIME_absolute_ntoh (GNUNET_TIME_absolute_hton t) = t.
Proof.
  destruct t as [t]. intros H. unfold GNUNET_TIME_absolute_ntoh. simpl.
  by rewrite ntohll_htonll.
Qed.

Lemma relative_nbo_roundtrip t :
  is_rel t ->
  GNUNET_TIME_relative_ntoh (GNUNET_TIME_relative_hton t) = t.
Proof.
  destruct t as [t]. intros H. unfold GNUNET_TIME_relative_ntoh. simpl.
  by rewrite ntohll_htonll.
Qed.

(** One quarter of the work done after 1000 ms: 3000 ms remain. *)
Example eta_quarter `{FloatConversion} :
  GNUNET_TIME_calculate_eta (mk_abs 6000) (mk_abs 5000) 25 100 = Ret (mk_rel 3000).
Proof. vm_compute. reflexivity. Qed.

Lemma is_rel_multiply rel factor :
  is_rel rel -> is_u32 factor -> is_rel (GNUNET_TIME_relative_multiply rel factor).
Proof.
  intros Hr Hf. unfold is_rel. rewrite relative_multiply_saturates by done.
  unfold saturate. unfold is_rel in Hr. unfold_ints. nia.
Qed.
#[export] Hint Resolve is_rel_multiply : gnunet.
