(* ===== verification/Heap.v ===== *)
(** * Heap: [src/util/container_heap.c]

    A heap node is a C object with links to its parent and its two children.  A
    node is named by its address ([node_id]), and the links are the shape of an
    inductive tree: the parent link of a node is its position.  A handle that
    a client keeps, and the position of the random walk, are addresses; using
    one that is not in the tree is an access to freed memory ([Undefined]).
    [EXTRA_CHECKS] is 0 in the source, so the assertions it guards are not part
    of the code. *)

From Stdlib Require Import ZArith Lia.
From Equations Require Import Equations.
From stdpp Require Import base list numbers sorting.
From S2P Require Import Prelude.
Local Open Scope Z_scope.

Section Heap.
Context {E : Type}.

(** ** Data *)

Inductive GNUNET_CONTAINER_HeapOrder :=
  | GNUNET_CONTAINER_HEAP_ORDER_MAX
  | GNUNET_CONTAINER_HEAP_ORDER_MIN.

Record GNUNET_CONTAINER_HeapNode := mk_node {
  node_id : nat;
  element : E;
  cost : Z;
  tree_size : Z
}.

Inductive tree :=
  | Leaf
  | Node (n : GNUNET_CONTAINER_HeapNode) (left_child right_child : tree).

Record GNUNET_CONTAINER_Heap := mk_heap {
  root : tree;
  walk_pos : option nat;
  heap_size : Z;
  order : GNUNET_CONTAINER_HeapOrder
}.

Fixpoint count (t : tree) : nat :=
  match t with
  | Leaf => 0
  | Node _ l r => S (count l + count r)
  end.

Definition set_tree_size (f : Z -> Z) (n : GNUNET_CONTAINER_HeapNode) :=
  mk_node (node_id n) (element n) (cost n) (u32 (f (tree_size n))).

(** [node->tree_size] of the root of a subtree that is not [NULL] *)
Definition ts (t : tree) : Z :=
  match t with
  | Leaf => 0
  | Node n _ _ => tree_size n
  end.

(** ** Read-only operations *)

Definition GNUNET_CONTAINER_heap_create (ord : GNUNET_CONTAINER_HeapOrder)
  : GNUNET_CONTAINER_Heap := mk_heap Leaf None 0 ord.

Definition GNUNET_CONTAINER_heap_peek (heap : GNUNET_CONTAINER_Heap) : option E :=
  match root heap with
  | Leaf => None
  | Node n _ _ => Some (element n)
  end.

Definition GNUNET_CONTAINER_heap_get_size (heap : GNUNET_CONTAINER_Heap) : Z :=
  heap_size heap.

(** The node at an address, with the subtrees below it. *)
Fixpoint subtree (t : tree) (i : nat) : option (GNUNET_CONTAINER_HeapNode * tree * tree) :=
  match t with
  | Leaf => None
  | Node n l r =>
      if (node_id n =? i)%nat then Some (n, l, r)
      else match subtree l i with
           | Some x => Some x
           | None => subtree r i
           end
  end.

Definition GNUNET_CONTAINER_heap_node_get_cost (heap : GNUNET_CONTAINER_Heap)
  (node : nat) : outcome Z :=
  match subtree (root heap) node with
  | Some (n, _, _) => Ret (cost n)
  | None => Undefined
  end.

(** The iterator has a state of its own (its closure) and returns whether to
    continue. *)
Fixpoint node_iterator {S : Type}
  (iterator : S -> nat -> E -> Z -> S * bool) (s : S) (t : tree) : S * bool :=
  match t with
  | Leaf => (s, true)
  | Node n l r =>
      let '(s1, go1) := node_iterator iterator s l in
      if negb go1 then (s1, false)
      else
        let '(s2, go2) := node_iterator iterator s1 r in
        if negb go2 then (s2, false)
        else iterator s2 (node_id n) (element n) (cost n)
  end.

Definition GNUNET_CONTAINER_heap_iterate {S : Type} (heap : GNUNET_CONTAINER_Heap)
  (iterator : S -> nat -> E -> Z -> S * bool) (s : S) : S :=
  fst (node_iterator iterator s (root heap)).

(** ** The random walk

    [rnd] is the value of [GNUNET_CRYPTO_random_u32 (WEAK, 2)]. *)

Definition root_id (t : tree) : option nat :=
  match t with
  | Leaf => None
  | Node n _ _ => Some (node_id n)
  end.

Definition GNUNET_CONTAINER_heap_walk_get_next (rnd : Z)
  (heap : GNUNET_CONTAINER_Heap) : outcome (option E * GNUNET_CONTAINER_Heap) :=
  match root heap with
  | Leaf => Ret (None, heap)
  | Node n0 l0 r0 =>
      '(n, l, r) ← match walk_pos heap with
                   | None => Ret (n0, l0, r0)
                   | Some i => of_option (subtree (root heap) i)
                   end;
      Ret (Some (element n),
           mk_heap (root heap) (if rnd =? 0 then root_id r else root_id l)
                   (heap_size heap) (order heap))
  end.

(** ** Insertion *)

(** The condition of the [while] loop of [insert_node]: the node stays below
    [pos]. *)
Definition stays_below (ord : GNUNET_CONTAINER_HeapOrder) (pos_cost node_cost : Z)
  : bool :=
  match ord with
  | GNUNET_CONTAINER_HEAP_ORDER_MAX => node_cost <=? pos_cost
  | GNUNET_CONTAINER_HEAP_ORDER_MIN => pos_cost <=? node_cost
  end.

Definition insert_measure (ord : GNUNET_CONTAINER_HeapOrder) (pos node : tree) : nat :=
  2 * (count pos + count node) +
  match pos, node with
  | Node p _ _, Node n _ _ => if stays_below ord (cost p) (cost n) then 0 else 1
  | _, _ => 0
  end.

Lemma stays_below_total ord a b :
  stays_below ord a b = false -> stays_below ord b a = true.
Proof. destruct ord; simpl; lia. Qed.

Definition inspect {A} (a : A) : { b : A | a = b } := exist _ a eq_refl.

(** The loop of [insert_node] walks down from [pos]; [insert_node ord pos node]
    is the subtree that stands where [pos] stood.  When the loop ends, [node]
    takes the place of [pos] in its parent (or becomes the root) and [pos] is
    inserted below it.  [pos] and [node] are never [NULL] in the code. *)
Equations? insert_node (ord : GNUNET_CONTAINER_HeapOrder) (pos node : tree) : tree
  by wf (insert_measure ord pos node) lt :=
  insert_node ord Leaf node := node;
  insert_node ord pos Leaf := pos;
  insert_node ord (Node p l r) (Node n nl nr)
    with inspect (stays_below ord (cost p) (cost n)) => {
    | exist _ true _ :=
        let p' := set_tree_size (fun s => s + (1 + tree_size n)) p in
        match l, r with
        | Leaf, _ => Node p' (Node n nl nr) r
        | _, Leaf => Node p' l (Node n nl nr)
        | Node pl _ _, Node pr _ _ =>
            if tree_size pl <? tree_size pr
            then Node p' (insert_node ord l (Node n nl nr)) r
            else Node p' l (insert_node ord r (Node n nl nr))
        end;
    | exist _ false _ := insert_node ord (Node n nl nr) (Node p l r) }.
Proof.
  - unfold insert_measure. cbn [count]. repeat case_match; lia.
  - unfold insert_measure. cbn [count]. repeat case_match; lia.
  - pose proof (stays_below_total _ _ _ e) as Ht. unfold insert_measure. cbn [count].
    rewrite Ht, e. lia.
Qed.

Definition GNUNET_CONTAINER_heap_insert (heap : GNUNET_CONTAINER_Heap) (i : nat)
  (e : E) (c : Z) : outcome GNUNET_CONTAINER_Heap :=
  let node := Node (mk_node i e c 0) Leaf Leaf in
  let size' := u32 (heap_size heap + 1) in
  let root' := match root heap with
               | Leaf => node
               | _ => insert_node (order heap) (root heap) node
               end in
  _ ← gnunet_assert (size' =? u32 (ts root' + 1));
  Ret (mk_heap root' (walk_pos heap) size' (order heap)).

(** ** Removal of the root *)

Definition GNUNET_CONTAINER_heap_remove_root (heap : GNUNET_CONTAINER_Heap)
  : option E * GNUNET_CONTAINER_Heap :=
  match root heap with
  | Leaf => (None, heap)
  | Node n l r =>
      let root' := match l, r with
                   | Leaf, _ => r
                   | _, Leaf => l
                   | _, _ => insert_node (order heap) l r
                   end in
      (Some (element n),
       mk_heap root' (walk_pos heap) (u32 (heap_size heap - 1)) (order heap))
  end.

(** ** Removal of a node *)

(** The address of the parent of node [i]; [None] for the root. *)
Fixpoint parent_of (t : tree) (i : nat) : option nat :=
  match t with
  | Leaf => None
  | Node n l r =>
      if bool_decide (root_id l = Some i) || bool_decide (root_id r = Some i)
      then Some (node_id n)
      else match parent_of l i with
           | Some p => Some p
           | None => parent_of r i
           end
  end.

(** The loop over the ancestors of node [i]: [ancestor->tree_size--]. *)
Fixpoint dec_ancestors (t : tree) (i : nat) : tree :=
  match t with
  | Leaf => Leaf
  | Node n l r =>
      if (node_id n =? i)%nat then Node n l r
      else
        match subtree l i, subtree r i with
        | None, None => Node n l r
        | _, _ => Node (set_tree_size (fun s => s - 1) n)
                       (dec_ancestors l i) (dec_ancestors r i)
        end
  end.

(** An assignment through a pointer to node [p] of the tree. *)
Fixpoint update_at (p : nat) (f : tree -> tree) (t : tree) : tree :=
  match t with
  | Leaf => Leaf
  | Node n l r =>
      if (node_id n =? p)%nat then f t
      else Node n (update_at p f l) (update_at p f r)
  end.

(** [if (node->parent->left_child == node) node->parent->left_child = NULL;
    else node->parent->right_child = NULL;] *)
Definition unlink (i : nat) (t : tree) : tree :=
  match t with
  | Leaf => Leaf
  | Node n l r =>
      if bool_decide (root_id l = Some i) then Node n Leaf r else Node n l Leaf
  end.

(** The block [if (node->left_child != NULL) { ... }] of [remove_node] for a node
    with a parent: take the child out of the count of the parent, then insert it
    below the parent. *)
Definition reinsert (ord : GNUNET_CONTAINER_HeapOrder) (p : nat) (child t : tree)
  : tree :=
  match child with
  | Leaf => t
  | Node c _ _ =>
      let t1 := update_at p (fun pos =>
        match pos with
        | Leaf => Leaf
        | Node n l r => Node (set_tree_size (fun s => s - (1 + tree_size c)) n) l r
        end) t in
      update_at p (fun pos => insert_node ord pos child) t1
  end.

Definition remove_child (ord : GNUNET_CONTAINER_HeapOrder) (p i : nat) (l r t : tree)
  : tree :=
  reinsert ord p r (reinsert ord p l (update_at p (unlink i) (dec_ancestors t i))).

(** The node is returned with the links cleared and its own [tree_size]
    updated. *)
Definition remove_node (heap : GNUNET_CONTAINER_Heap) (i : nat)
  : outcome (GNUNET_CONTAINER_HeapNode * GNUNET_CONTAINER_Heap) :=
  match subtree (root heap) i with
  | None => Undefined
  | Some (n, l, r) =>
      let n1 := match l with
                | Leaf => n
                | _ => set_tree_size (fun s => s - (1 + ts l)) n
                end in
      let n2 := match r with
                | Leaf => n1
                | _ => set_tree_size (fun s => s - (1 + ts r)) n1
                end in
      let root' :=
        match parent_of (root heap) i with
        | None =>
            match l with
            | Leaf => r
            | _ => match r with
                   | Leaf => l
                   | _ => insert_node (order heap) l r
                   end
            end
        | Some p => remove_child (order heap) p i l r (root heap)
        end in
      _ ← gnunet_assert (tree_size n2 =? 0);
      Ret (n2, mk_heap root' (walk_pos heap) (heap_size heap) (order heap))
  end.

(** [rnd] is the random value drawn when the walk stands on the node. *)
Definition GNUNET_CONTAINER_heap_remove_node (rnd : Z) (heap : GNUNET_CONTAINER_Heap)
  (i : nat) : outcome (E * GNUNET_CONTAINER_Heap) :=
  heap1 ← (if bool_decide (walk_pos heap = Some i)
           then r ← GNUNET_CONTAINER_heap_walk_get_next rnd heap; Ret (snd r)
           else Ret heap);
  '(n, heap2) ← remove_node heap1 i;
  let wp := if bool_decide (walk_pos heap2 = Some i) then None else walk_pos heap2 in
  Ret (element n, mk_heap (root heap2) wp (u32 (heap_size heap2 - 1)) (order heap2)).

Definition GNUNET_CONTAINER_heap_update_cost (heap : GNUNET_CONTAINER_Heap)
  (i : nat) (new_cost : Z) : outcome GNUNET_CONTAINER_Heap :=
  '(n, heap1) ← remove_node heap i;
  let node := Node (mk_node (node_id n) (element n) new_cost (tree_size n)) Leaf Leaf in
  let root' := match root heap1 with
               | Leaf => node
               | _ => insert_node (order heap1) (root heap1) node
               end in
  Ret (mk_heap root' (walk_pos heap1) (heap_size heap1) (order heap1)).

(** ** Contents, heap order and node counts *)

(** What a client can see of a node: handle, element and cost. *)
Definition item : Type := nat * E * Z.
Definition item_of (n : GNUNET_CONTAINER_HeapNode) : item :=
  (node_id n, element n, cost n).
Definition item_id (x : item) : nat := fst (fst x).
Definition item_cost (x : item) : Z := snd x.

(** All items, in the order [node_iterator] visits them. *)
Fixpoint items (t : tree) : list item :=
  match t with
  | Leaf => []
  | Node n l r => items l ++ items r ++ [item_of n]
  end.

Definition ids (t : tree) : list nat := item_id <$> items t.

Fixpoint ordered (ord : GNUNET_CONTAINER_HeapOrder) (t : tree) : Prop :=
  match t with
  | Leaf => True
  | Node n l r =>
      Forall (fun x => stays_below ord (cost n) (item_cost x) = true)
             (items l ++ items r) /\
      ordered ord l /\ ordered ord r
  end.

(** Every [tree_size] is the number of nodes strictly below. *)
Fixpoint sized (t : tree) : Prop :=
  match t with
  | Leaf => True
  | Node n l r =>
      tree_size n = Z.of_nat (count l + count r) /\ sized l /\ sized r
  end.

Lemma length_items t : length (items t) = count t.
Proof. induction t; simpl; [ done | ]. rewrite !length_app. simpl. lia. Qed.

Lemma ts_sized t : sized t -> t <> Leaf -> ts t = Z.of_nat (count t) - 1.
Proof. destruct t; simpl; [ done | ]. intros (-> & _ & _) _. lia. Qed.

Lemma stays_below_trans ord a b c :
  stays_below ord a b = true -> stays_below ord b c = true -> stays_below ord a c = true.
Proof. destruct ord; simpl; lia. Qed.

Lemma stays_below_refl ord a : stays_below ord a a = true.
Proof. destruct ord; simpl; lia. Qed.

(** Everything in an ordered tree stays below whatever its root stays below. *)
Lemma ordered_below ord t n l r c :
  t = Node n l r -> ordered ord t -> stays_below ord c (cost n) = true ->
  Forall (fun x => stays_below ord c (item_cost x) = true) (items t).
Proof.
  intros -> (Hall & _ & _) Hc. cbn [items]. rewrite Forall_app in *.
  destruct Hall as [Hl Hr]. rewrite Forall_app. split_and!.
  - eapply Forall_impl; [ exact Hl | ]. eauto using stays_below_trans.
  - eapply Forall_impl; [ exact Hr | ]. eauto using stays_below_trans.
  - repeat constructor. exact Hc.
Qed.

(** ** [insert_node] *)

Record insert_ok (ord : GNUNET_CONTAINER_HeapOrder) (pos node t : tree) : Prop := {
  io_items : items t ≡ₚ items pos ++ items node;
  io_count : count t = (count pos + count node)%nat;
  io_ordered : ordered ord t;
  io_sized : sized t
}.

Lemma item_of_set_tree_size f n : item_of (set_tree_size f n) = item_of n.
Proof. done. Qed.

(** The node [p] after [node] went somewhere into its subtrees. *)
Lemma insert_below ord p l r n nl nr l' r' :
  let node := Node n nl nr in
  let p' := set_tree_size (fun s => s + (1 + tree_size n)) p in
  stays_below ord (cost p) (cost n) = true ->
  ordered ord (Node p l r) -> ordered ord node ->
  sized (Node p l r) -> sized node ->
  Z.of_nat (count (Node p l r) + count node) < 2 ^ 32 ->
  items l' ++ items r' ≡ₚ items l ++ items r ++ items node ->
  ordered ord l' -> ordered ord r' -> sized l' -> sized r' ->
  insert_ok ord (Node p l r) node (Node p' l' r').
Proof.
  intros node p' Hb (Hall & _ & _) On (Hs & _ & _) (Hn & _ & _) Hc Hp Ol Or Sl Sr.
  assert (Hcount : (count l' + count r' = count l + count r + count node)%nat).
  { rewrite <- !length_items. apply Permutation_length in Hp.
    rewrite !length_app in Hp. lia. }
  constructor.
  - cbn [items]. fold node. rewrite (app_assoc (items l')), Hp.
    rewrite <- !app_assoc. do 2 apply Permutation_app_head.
    apply Permutation_app_comm.
  - cbn [count] in *. lia.
  - split; [ | done ]. rewrite Hp. rewrite app_assoc, Forall_app.
    split; [ exact Hall | ]. by eapply ordered_below.
  - split; [ | done ]. cbn [count] in *. subst node p'. cbn [count] in *.
    cbn [set_tree_size tree_size]. rewrite Hs, Hn, u32_small by (unfold is_u32; lia). lia.
Qed.

Lemma insert_node_ok ord pos node :
  ordered ord pos -> ordered ord node -> sized pos -> sized node ->
  Z.of_nat (count pos + count node) < 2 ^ 32 ->
  insert_ok ord pos node (insert_node ord pos node).
Proof.
  funelim (insert_node ord pos node); intros Op On Sp Sn Hc; clear Heqcall.
  - by constructor.
  - constructor; [ by rewrite app_nil_r | simpl; lia | done.. ].
  - pose proof Op as (_ & Ol & Or). pose proof Sp as (_ & Sl & Sr).
    set (node := Node n nl nr) in *.
    assert (Hcl : Z.of_nat (count l + count node) < 2 ^ 32) by (cbn [count] in Hc; lia).
    assert (Hcr : Z.of_nat (count r + count node) < 2 ^ 32) by (cbn [count] in Hc; lia).
    destruct l as [|pl ll lr]; [ | destruct r as [|pr rl rr] ]; [ | | case_match ].
    + apply insert_below; try done.
      exact (Permutation_app_comm (items node) (items r)).
    + apply insert_below; done.
    + destruct (H pl ll lr pr rl rr) as [Hi _ ? ?]; try done.
      apply insert_below; try done. rewrite Hi, <- !app_assoc.
      apply Permutation_app_head, Permutation_app_comm.
    + destruct (H0 pl ll lr pr rl rr) as [Hi _ ? ?]; try done.
      apply insert_below; try done. by rewrite Hi.
  - destruct H as [Hi Hn Ho Hs]; try done; [ by rewrite Nat.add_comm | ].
    constructor; try done.
    + by rewrite Hi, Permutation_app_comm.
    + by rewrite Hn, Nat.add_comm.
Qed.

(** A node that stays below [pos] leaves [pos] on top; where it goes does not
    depend on the [tree_size] of [pos]. *)
Lemma insert_node_top ord p l r n nl nr :
  stays_below ord (cost p) (cost n) = true ->
  exists l' r', forall q, cost q = cost p ->
    insert_node ord (Node q l r) (Node n nl nr)
    = Node (set_tree_size (fun s => s + (1 + tree_size n)) q) l' r'.
Proof.
  intros Hb.
  assert (Hu : forall q, cost q = cost p ->
    insert_node ord (Node q l r) (Node n nl nr)
    = let q' := set_tree_size (fun s => s + (1 + tree_size n)) q in
      match l, r with
      | Leaf, _ => Node q' (Node n nl nr) r
      | _, Leaf => Node q' l (Node n nl nr)
      | Node pl _ _, Node pr _ _ =>
          if tree_size pl <? tree_size pr
          then Node q' (insert_node ord l (Node n nl nr)) r
          else Node q' l (insert_node ord r (Node n nl nr))
      end).
  { intros q Hq. rewrite <- Hq in Hb. simp insert_node.
    destruct (inspect (stays_below ord (cost q) (cost n))) as [[] Eb]; [ | congruence ].
    by simp insert_node. }
  destruct l as [|pl ll lr]; [ | destruct r as [|pr rl rr]; [ | case_match ] ];
    eexists _, _; intros q Hq; rewrite (Hu q Hq); cbn; by try case_match.
Qed.

(** ** Addresses *)

Lemma ids_node n l r : ids (Node n l r) = ids l ++ ids r ++ [node_id n].
Proof. unfold ids. cbn [items]. by rewrite !fmap_app. Qed.

Lemma NoDup_ids_node n l r :
  NoDup (ids (Node n l r)) ->
  NoDup (ids l) /\ NoDup (ids r) /\ (node_id n ∉ ids l) /\ (node_id n ∉ ids r) /\
  (forall i, i ∈ ids l -> i ∉ ids r).
Proof.
  rewrite ids_node, !NoDup_app. intros (Hl & Hlr & Hr & Hrn & _).
  split_and!; try done.
  - intros Hi. apply (Hlr _ Hi). rewrite elem_of_app, list_elem_of_singleton. auto.
  - intros Hi. apply (Hrn _ Hi). by apply list_elem_of_singleton.
  - intros i Hi Hr'. apply (Hlr _ Hi), elem_of_app. auto.
Qed.

Lemma subtree_None t i : i ∉ ids t -> subtree t i = None.
Proof.
  induction t as [|n l IHl r IHr]; [ done | ]. rewrite ids_node, !not_elem_of_app.
  intros (Hl & Hr & Hn). rewrite list_elem_of_singleton in Hn. cbn [subtree].
  rewrite (proj2 (Nat.eqb_neq _ _)) by congruence. by rewrite IHl, IHr.
Qed.

Lemma subtree_elem t i x : subtree t i = Some x -> i ∈ ids t.
Proof.
  intros H. destruct (decide (i ∈ ids t)) as [|Hn]; [ done | ].
  by rewrite subtree_None in H.
Qed.

Lemma subtree_Some t i : i ∈ ids t -> is_Some (subtree t i).
Proof.
  induction t as [|n l IHl r IHr]; [ by rewrite elem_of_nil | ].
  rewrite ids_node, !elem_of_app, list_elem_of_singleton. intros Hi. cbn [subtree].
  destruct (node_id n =? i)%nat eqn:En; [ eauto | ]. apply Nat.eqb_neq in En.
  destruct (subtree l i) eqn:El; [ eauto | ].
  destruct Hi as [Hi|[Hi| ->]]; [ | auto | done ].
  destruct (IHl Hi). congruence.
Qed.

Lemma root_id_elem t i : root_id t = Some i -> i ∈ ids t.
Proof.
  destruct t as [|n l r]; [ done | ]. intros [= <-].
  rewrite ids_node, !elem_of_app, list_elem_of_singleton. auto.
Qed.

Lemma parent_of_elem t i p : parent_of t i = Some p -> p ∈ ids t /\ i ∈ ids t.
Proof.
  induction t as [|n l IHl r IHr]; [ done | ]. cbn [parent_of].
  rewrite ids_node, !elem_of_app, list_elem_of_singleton.
  case_match eqn:Er; [ | case_match ]; intros Hp; try injection Hp as <-.
  - apply orb_true_iff in Er as [Er|Er]; apply bool_decide_eq_true, root_id_elem in Er;
      auto.
  - destruct (IHl eq_refl). auto.
  - destruct (IHr Hp). auto.
Qed.

Lemma parent_of_None t i : i ∈ ids t -> parent_of t i = None -> root_id t = Some i.
Proof.
  induction t as [|n l IHl r IHr]; [ by rewrite elem_of_nil | ].
  rewrite ids_node, !elem_of_app, list_elem_of_singleton. cbn [parent_of root_id].
  intros Hi. case_match eqn:Er; [ done | ]. apply orb_false_iff in Er as [El Er].
  apply bool_decide_eq_false in El, Er. case_match; [ done | ]. intros Hp.
  destruct Hi as [Hi|[Hi| ->]]; [ | | done ]; exfalso; auto.
Qed.

Lemma update_at_notin p f t : p ∉ ids t -> update_at p f t = t.
Proof.
  induction t as [|n l IHl r IHr]; [ done | ]. rewrite ids_node, !not_elem_of_app.
  intros (Hl & Hr & Hn). rewrite list_elem_of_singleton in Hn. cbn [update_at].
  rewrite (proj2 (Nat.eqb_neq _ _)) by congruence. by rewrite IHl, IHr.
Qed.

Lemma dec_ancestors_notin t i : i ∉ ids t -> dec_ancestors t i = t.
Proof.
  destruct t as [|n l r]; [ done | ]. intros Hi. cbn [dec_ancestors].
  rewrite ids_node, !not_elem_of_app in Hi. destruct Hi as (Hl & Hr & _).
  rewrite !subtree_None by done. by case_match.
Qed.

Lemma reinsert_left ord p child n l r :
  node_id n <> p -> p ∉ ids r ->
  reinsert ord p child (Node n l r) = Node n (reinsert ord p child l) r.
Proof.
  intros Hn Hr. destruct child as [|c cl cr]; [ done | ]. cbn [reinsert update_at].
  rewrite (proj2 (Nat.eqb_neq _ _)) by done. cbn [update_at].
  rewrite (proj2 (Nat.eqb_neq _ _)) by done. by rewrite !(update_at_notin p _ r).
Qed.

Lemma reinsert_right ord p child n l r :
  node_id n <> p -> p ∉ ids l ->
  reinsert ord p child (Node n l r) = Node n l (reinsert ord p child r).
Proof.
  intros Hn Hl. destruct child as [|c cl cr]; [ done | ]. cbn [reinsert update_at].
  rewrite (proj2 (Nat.eqb_neq _ _)) by done. cbn [update_at].
  rewrite (proj2 (Nat.eqb_neq _ _)) by done. by rewrite !(update_at_notin p _ l).
Qed.

(** ** Removing a child of a node

    While [remove_node] works, the [tree_size] of the parent counts nodes that are
    not linked below it any more: [k] of them. *)
Inductive top_ok (ord : GNUNET_CONTAINER_HeapOrder) (k : nat)
  (m : GNUNET_CONTAINER_HeapNode) (its : list item) : tree -> Prop :=
  | top_ok_intro (q : GNUNET_CONTAINER_HeapNode) (a b t : tree) :
      t = Node q a b ->
      item_of q = item_of m ->
      tree_size q = Z.of_nat (count a + count b + k) ->
      items a ++ items b ≡ₚ its ->
      ordered ord (Node q a b) ->
      sized a /\ sized b ->
      top_ok ord k m its t.

Lemma reinsert_top ord k m its t child :
  top_ok ord (count child + k) m its t ->
  Z.of_nat (S (length its) + count child + k) < 2 ^ 32 ->
  ordered ord child -> sized child ->
  Forall (fun x => stays_below ord (cost m) (item_cost x) = true) (items child) ->
  top_ok ord k m (its ++ items child) (reinsert ord (node_id m) child t).
Proof.
  intros [q a b ? -> Hq Hts Hits Ho [Sa Sb]] Hc Oc Sc Hb.
  assert (Hcount : (count a + count b = length its)%nat).
  { rewrite <- !length_items, <- length_app. by apply Permutation_length. }
  destruct child as [|c cl cr].
  - exists q a b; try done. by rewrite app_nil_r.
  - set (child := Node c cl cr) in *.
    assert (Hid : node_id q = node_id m) by (injection Hq; auto).
    assert (Hcost : cost q = cost m) by (injection Hq; auto).
    assert (Hcb : stays_below ord (cost q) (cost c) = true).
    { rewrite Hcost. subst child. cbn [items] in Hb. rewrite !Forall_app in Hb.
      destruct Hb as (_ & _ & Hb). by apply Forall_inv in Hb. }
    destruct (insert_node_top ord q a b c cl cr Hcb) as (a' & b' & Htop).
    fold child in Htop.
    assert (Hcs : tree_size c = Z.of_nat (count child) - 1)
      by (destruct Sc as (-> & _ & _); simpl; lia).
    (* the same insertion below a node whose count is exact *)
    pose (q0 := mk_node (node_id q) (element q) (cost q) (Z.of_nat (count a + count b))).
    assert (Hins : insert_ok ord (Node q0 a b) child (insert_node ord (Node q0 a b) child)).
    { apply insert_node_ok; try done. cbn [count]. lia. }
    rewrite (Htop q0 eq_refl) in Hins. destruct Hins as [Hi Hn Ho' (Hs' & Sa' & Sb')].
    pose (q1 := set_tree_size (fun s => s - (1 + tree_size c)) q).
    exists (set_tree_size (fun s => s + (1 + tree_size c)) q1) a' b'.
    + cbn [reinsert child update_at]. rewrite (proj2 (Nat.eqb_eq _ _) Hid).
      cbn [update_at]. cbn [set_tree_size node_id].
      rewrite (proj2 (Nat.eqb_eq _ _) Hid). by apply Htop.
    + done.
    + cbn [count] in Hn. unfold q1. cbn [set_tree_size tree_size].
      rewrite Hts, Hcs, (u32_small (_ - _)) by (unfold is_u32; lia).
      rewrite u32_small by (unfold is_u32; lia). lia.
    + cbn [items] in Hi. rewrite <- Hits. rewrite !app_assoc in Hi.
      rewrite <- (app_assoc _ [_] (items child)) in Hi. cbn [app] in Hi.
      change (item_of (set_tree_size _ q0)) with (item_of q0) in Hi.
      rewrite <- !Permutation_middle, app_nil_r in Hi. by apply Permutation_cons_inv in Hi.
    + destruct Ho' as (Hall & Oa & Ob). done.
    + done.
Qed.

(** The parent [m] of the removed node, after the unlinking. *)
Lemma unlinked_top ord m a b n l r :
  (a = Node n l r \/ b = Node n l r) ->
  NoDup (ids (Node m a b)) ->
  ordered ord (Node m a b) -> sized (Node m a b) ->
  Z.of_nat (count (Node m a b)) < 2 ^ 32 ->
  let i := node_id n in
  exists its,
    top_ok ord (count l + (count r + 0)) m its
      (update_at (node_id m) (unlink i) (dec_ancestors (Node m a b) i)) /\
    items a ++ items b ≡ₚ item_of n :: its ++ items l ++ items r.
Proof.
  intros Hab Hnd (Hall & Oa & Ob) (Hm & Sa & Sb) Hc i.
  apply NoDup_ids_node in Hnd as (Ha & Hb & Hma & Hmb & Hd).
  assert (Hroot : root_id (Node n l r) = Some i) by done.
  rewrite Forall_app in Hall. destruct Hall as [Hla Hlb].
  pose (m1 := set_tree_size (fun s => s - 1) m).
  assert (Hdec : dec_ancestors (Node m a b) i
    = Node m1 (dec_ancestors a i) (dec_ancestors b i)).
  { cbn [dec_ancestors]. destruct Hab as [Hab|Hab];
      (assert (Hi : i ∈ ids (Node n l r)) by by apply root_id_elem);
      rewrite <- Hab in Hi; apply subtree_Some in Hi as [x Hx]; pose proof Hx as Hy;
      apply subtree_elem in Hy;
      (rewrite (proj2 (Nat.eqb_neq _ _)) by (intros E1; rewrite E1 in *; done));
      rewrite Hx; [ done | ]. by case_match. }
  assert (Hself : dec_ancestors (Node n l r) i = Node n l r)
    by (cbn [dec_ancestors]; unfold i; by rewrite Nat.eqb_refl).
  assert (Hroots : forall t, root_id (dec_ancestors t i) = root_id t).
  { intros [|q ql qr]; [ done | ]. cbn [dec_ancestors]. repeat case_match; done. }
  rewrite Hdec. cbn [update_at]. rewrite Nat.eqb_refl. unfold unlink. rewrite Hroots.
  destruct Hab as [-> | ->].
  - exists (items b). rewrite (bool_decide_eq_true_2 _ Hroot).
    assert (Hib : i ∉ ids b) by (apply Hd; by apply root_id_elem).
    rewrite (dec_ancestors_notin b) by done. split.
    + exists m1 Leaf b; try done.
      cbn [count] in Hm, Hc. unfold m1. cbn [set_tree_size tree_size count].
      rewrite Hm, u32_small by (unfold is_u32; lia). lia.
    + cbn [items]. rewrite <- !app_assoc. cbn [app].
      rewrite <- !Permutation_middle. apply Permutation_skip.
      by rewrite app_assoc, (Permutation_app_comm _ (items b)).
  - exists (items a).
    assert (Hia : i ∉ ids a)
      by (intros Hx; apply (Hd _ Hx); by apply root_id_elem).
    rewrite bool_decide_eq_false_2 by (intros Hx; by apply root_id_elem in Hx).
    rewrite (dec_ancestors_notin a) by done. split.
    + exists m1 a Leaf; try done.
      * cbn [count] in Hm, Hc. unfold m1. cbn [set_tree_size tree_size count].
        rewrite Hm, u32_small by (unfold is_u32; lia). lia.
      * by rewrite app_nil_r.
      * split; [ | done ]. cbn [items]. by rewrite app_nil_r.
    + cbn [items]. rewrite !app_assoc. by rewrite <- Permutation_cons_append.
Qed.

(** [remove_child] takes exactly the node out and restores order and counts. *)
Record removed_ok (ord : GNUNET_CONTAINER_HeapOrder) (t : tree)
  (n : GNUNET_CONTAINER_HeapNode) (t' : tree) : Prop := {
  ro_items : items t ≡ₚ item_of n :: items t';
  ro_ordered : ordered ord t';
  ro_sized : sized t'
}.

Lemma removed_ok_count ord t n t' : removed_ok ord t n t' -> count t = S (count t').
Proof.
  intros [Hi _ _]. rewrite <- !length_items. apply Permutation_length in Hi. done.
Qed.

Lemma remove_child_here ord m a b n l r :
  (a = Node n l r \/ b = Node n l r) ->
  NoDup (ids (Node m a b)) ->
  ordered ord (Node m a b) -> sized (Node m a b) ->
  Z.of_nat (count (Node m a b)) < 2 ^ 32 ->
  removed_ok ord (Node m a b) n
    (remove_child ord (node_id m) (node_id n) l r (Node m a b)).
Proof.
  intros Hab Hnd Ho Hs Hc.
  destruct (unlinked_top ord m a b n l r) as (its & Htop & Hits); try done.
  assert (Hlen : (count a + count b = S (length its + count l + count r))%nat).
  { apply Permutation_length in Hits. cbn [length] in Hits. rewrite !length_app in Hits.
    rewrite !length_items in Hits. lia. }
  assert (Hn : ordered ord (Node n l r) /\ sized (Node n l r)).
  { destruct Ho as (_ & ? & ?), Hs as (_ & ? & ?). by destruct Hab as [-> | ->]. }
  destruct Hn as [(_ & Ol & Or) (_ & Sl & Sr)].
  assert (Hall : Forall (fun x => stays_below ord (cost m) (item_cost x) = true)
                   (items l) /\
                 Forall (fun x => stays_below ord (cost m) (item_cost x) = true)
                   (items r)).
  { destruct Ho as (Hall & _). rewrite Hits in Hall.
    apply Forall_cons in Hall as [_ Hall]. rewrite !Forall_app in Hall. tauto. }
  cbn [count] in Hc. apply reinsert_top in Htop; try tauto; [ | lia ].
  apply reinsert_top in Htop; try tauto; [ | rewrite length_app, length_items; lia ].
  unfold remove_child. destruct Htop as [q a' b' t -> Hq Hts Hi Ho' [Sa' Sb']].
  constructor; [ | done | ].
  - cbn [items]. rewrite !app_assoc, Hi, Hits, Hq. cbn [app]. by rewrite !app_assoc.
  - split; [ | done ]. rewrite Hts. f_equal. lia.
Qed.

Lemma remove_child_left ord p i l r m a b :
  p ∈ ids a -> i ∈ ids a -> NoDup (ids (Node m a b)) ->
  remove_child ord p i l r (Node m a b)
  = Node (set_tree_size (fun s => s - 1) m) (remove_child ord p i l r a) b.
Proof.
  intros Hp Hi Hnd. apply NoDup_ids_node in Hnd as (_ & _ & Hma & _ & Hd).
  assert (Hmp : node_id m <> p) by (intros <-; done).
  assert (Hmi : node_id m <> i) by (intros <-; done).
  unfold remove_child. cbn [dec_ancestors]. rewrite (proj2 (Nat.eqb_neq _ _) Hmi).
  destruct (subtree_Some a i Hi) as [x ->].
  rewrite (dec_ancestors_notin b) by auto. cbn [update_at].
  cbn [set_tree_size node_id]. rewrite (proj2 (Nat.eqb_neq _ _) Hmp).
  rewrite (update_at_notin p _ b) by auto. by rewrite !reinsert_left by auto.
Qed.

Lemma remove_child_right ord p i l r m a b :
  p ∈ ids b -> i ∈ ids b -> NoDup (ids (Node m a b)) ->
  remove_child ord p i l r (Node m a b)
  = Node (set_tree_size (fun s => s - 1) m) a (remove_child ord p i l r b).
Proof.
  intros Hp Hi Hnd. apply NoDup_ids_node in Hnd as (_ & _ & _ & Hmb & Hd).
  assert (Hmp : node_id m <> p) by (intros <-; done).
  assert (Hmi : node_id m <> i) by (intros <-; done).
  assert (Hpa : p ∉ ids a) by (intros Hx; by apply (Hd p)).
  assert (Hia : i ∉ ids a) by (intros Hx; by apply (Hd i)).
  unfold remove_child. cbn [dec_ancestors]. rewrite (proj2 (Nat.eqb_neq _ _) Hmi).
  destruct (subtree_Some b i Hi) as [x ->]. rewrite (subtree_None a) by done.
  rewrite (dec_ancestors_notin a) by done. cbn [update_at].
  cbn [set_tree_size node_id]. rewrite (proj2 (Nat.eqb_neq _ _) Hmp).
  rewrite (update_at_notin p _ a) by done. by rewrite !reinsert_right by done.
Qed.

(** Removal in one subtree of [m], the other one unchanged. *)
Lemma removed_ok_node ord m a b a' b' n :
  ordered ord (Node m a b) -> sized (Node m a b) ->
  Z.of_nat (count (Node m a b)) < 2 ^ 32 ->
  (removed_ok ord a n a' /\ b' = b) \/ (removed_ok ord b n b' /\ a' = a) ->
  removed_ok ord (Node m a b) n
    (Node (set_tree_size (fun s => s - 1) m) a' b').
Proof.
  intros (Hall & Oa & Ob) (Hm & Sa & Sb) Hc Hrm.
  assert (Hits : items a ++ items b ≡ₚ item_of n :: items a' ++ items b').
  { destruct Hrm as [[[Hi _ _] ->] | [[Hi _ _] ->]]; rewrite Hi; [ done | ].
    by rewrite <- Permutation_middle. }
  assert (Hcount : (count a + count b = S (count a' + count b'))%nat).
  { apply Permutation_length in Hits. cbn [length] in Hits.
    by rewrite !length_app, !length_items in Hits. }
  assert (Hsub : (ordered ord a' /\ ordered ord b') /\ sized a' /\ sized b')
    by (destruct Hrm as [[[_ ? ?] ->] | [[_ ? ?] ->]]; done).
  destruct Hsub as [[Oa' Ob'] [Sa' Sb']]. constructor.
  - cbn [items]. rewrite !app_assoc, Hits. done.
  - split; [ | done ]. rewrite Hits in Hall. by apply Forall_cons in Hall as [_ Hall].
  - split; [ | done ]. cbn [count] in Hc. cbn [set_tree_size tree_size].
    rewrite Hm, u32_small by (unfold is_u32; lia). lia.
Qed.

Lemma subtree_root t i n l r :
  root_id t = Some i -> subtree t i = Some (n, l, r) -> t = Node n l r.
Proof.
  destruct t as [|m a b]; [ done | ]. intros [= <-]. cbn [subtree].
  rewrite Nat.eqb_refl. by intros [= <- <- <-].
Qed.

Lemma subtree_in_left m a b i x :
  NoDup (ids (Node m a b)) -> i ∈ ids a -> subtree (Node m a b) i = Some x ->
  subtree a i = Some x.
Proof.
  intros Hnd Hi. apply NoDup_ids_node in Hnd as (_ & _ & Hma & _ & _).
  cbn [subtree]. rewrite (proj2 (Nat.eqb_neq _ _)) by (intros <-; done).
  by destruct (subtree_Some a i Hi) as [y ->].
Qed.

Lemma subtree_in_right m a b i x :
  NoDup (ids (Node m a b)) -> i ∈ ids b -> subtree (Node m a b) i = Some x ->
  subtree b i = Some x.
Proof.
  intros Hnd Hi. apply NoDup_ids_node in Hnd as (_ & _ & _ & Hmb & Hd).
  cbn [subtree]. rewrite (proj2 (Nat.eqb_neq _ _)) by (intros <-; done).
  rewrite subtree_None; [ done | ]. intros Hx. by apply (Hd i).
Qed.

Lemma remove_child_ok ord t i p n l r :
  NoDup (ids t) -> ordered ord t -> sized t -> Z.of_nat (count t) < 2 ^ 32 ->
  subtree t i = Some (n, l, r) -> parent_of t i = Some p ->
  removed_ok ord t n (remove_child ord p i l r t).
Proof.
  induction t as [|m a IHa b IHb]; [ done | ].
  intros Hnd Ho Hs Hc Hsub Hpar.
  pose proof (NoDup_ids_node _ _ _ Hnd) as (Ha & Hb & _ & _ & Hd).
  pose proof Ho as (_ & Oa & Ob). pose proof Hs as (_ & Sa & Sb).
  cbn [parent_of] in Hpar. cbn [count] in Hc.
  assert (Hhere : forall t', (t' = a \/ t' = b) -> root_id t' = Some i ->
    subtree t' i = Some (n, l, r) -> p = node_id m ->
    removed_ok ord (Node m a b) n (remove_child ord p i l r (Node m a b))).
  { intros t' Ht Hr Hst ->. pose proof (subtree_root _ _ _ _ _ Hr Hst) as ->.
    injection Hr as <-.
    apply remove_child_here; try done. destruct Ht; auto. }
  destruct (bool_decide (root_id a = Some i)) eqn:Ea.
  - apply bool_decide_eq_true in Ea. injection Hpar as <-.
    apply (Hhere a); auto. eapply subtree_in_left; eauto using root_id_elem.
  - destruct (bool_decide (root_id b = Some i)) eqn:Eb; cbn [orb] in Hpar.
    + apply bool_decide_eq_true in Eb. injection Hpar as <-.
      apply (Hhere b); auto. eapply subtree_in_right; eauto using root_id_elem.
    + destruct (parent_of a i) as [p'|] eqn:Epa.
      * injection Hpar as <-. destruct (parent_of_elem _ _ _ Epa) as [Hp Hi].
        rewrite remove_child_left by done.
        apply removed_ok_node; try done.
        left. split; [ | done ]. apply IHa; try done; [ lia | ].
        by eapply subtree_in_left.
      * destruct (parent_of_elem _ _ _ Hpar) as [Hp Hi].
        rewrite remove_child_right by done.
        apply removed_ok_node; try done.
        right. split; [ | done ]. apply IHb; try done; [ lia | ].
        by eapply subtree_in_right.
Qed.

(** ** The invariant of a heap and the abstract priority queue *)

Definition contents (h : GNUNET_CONTAINER_Heap) : list item := items (root h).

Record heap_inv (h : GNUNET_CONTAINER_Heap) : Prop := {
  hi_nodup : NoDup (ids (root h));
  hi_ordered : ordered (order h) (root h);
  hi_sized : sized (root h);
  hi_size : heap_size h = Z.of_nat (count (root h));
  hi_bound : Z.of_nat (count (root h)) < 2 ^ 32
}.

(** The position of the walk is a node of the heap. *)
Definition walk_valid (h : GNUNET_CONTAINER_Heap) : Prop :=
  forall j, walk_pos h = Some j -> j ∈ ids (root h).

Lemma heap_inv_create ord : heap_inv (GNUNET_CONTAINER_heap_create ord).
Proof. constructor; simpl; try done. constructor. Qed.

Lemma ids_perm t n t' ord :
  removed_ok ord t n t' -> ids t ≡ₚ node_id n :: ids t'.
Proof. intros [Hi _ _]. unfold ids. by rewrite Hi. Qed.

(** Joining the two subtrees of a removed root. *)
Lemma join_ok ord n l r :
  ordered ord (Node n l r) -> sized (Node n l r) ->
  Z.of_nat (count (Node n l r)) < 2 ^ 32 ->
  removed_ok ord (Node n l r) n
    (match l, r with
     | Leaf, _ => r
     | _, Leaf => l
     | _, _ => insert_node ord l r
     end).
Proof.
  intros (_ & Ol & Or) (_ & Sl & Sr) Hc. cbn [count] in Hc.
  destruct l as [|ln ll lr].
  { constructor; try done. cbn [items app]. by rewrite <- Permutation_cons_append. }
  destruct r as [|rn rl rr].
  { constructor; try done. cbn [items app]. by rewrite <- Permutation_cons_append. }
  destruct (insert_node_ok ord (Node ln ll lr) (Node rn rl rr)) as [Hi _ Ho Hs];
    try done; [ lia | ].
  constructor; [ | done | done ].
  change (items (Node n ?a ?b)) with (items a ++ items b ++ [item_of n]).
  rewrite Hi, app_assoc. by rewrite <- Permutation_cons_append.
Qed.

(** The internal [remove_node] on every node of a heap. *)
Lemma remove_node_ok h i :
  heap_inv h -> i ∈ ids (root h) ->
  exists n h', remove_node h i = Ret (n, h') /\
    node_id n = i /\ tree_size n = 0 /\
    removed_ok (order h) (root h) n (root h') /\
    walk_pos h' = walk_pos h /\ heap_size h' = heap_size h /\ order h' = order h.
Proof.
  intros [Hnd Ho Hs Hsz Hb] Hi. destruct (subtree_Some _ _ Hi) as [[[n l] r] Hsub].
  assert (Hn : node_id n = i /\ tree_size n = Z.of_nat (count l + count r) /\
               sized l /\ sized r /\ (count (Node n l r) <= count (root h))%nat).
  { clear -Hs Hsub. induction (root h) as [|m a IHa b IHb]; [ done | ].
    cbn [subtree sized count] in *. destruct Hs as (Hm & Sa & Sb).
    destruct (node_id m =? i)%nat eqn:Em.
    - injection Hsub as -> -> ->. apply Nat.eqb_eq in Em. done.
    - destruct (subtree a i).
      + destruct IHa as (?&?&?&?&?); try done. split_and!; try done. lia.
      + destruct IHb as (?&?&?&?&?); try done. split_and!; try done. lia. }
  destruct Hn as (Hid & Hts & Sl & Sr & Hle). cbn [count] in Hle.
  unfold remove_node. rewrite Hsub. cbv zeta.
  set (n2 := match r with Leaf => _ | _ => _ end).
  assert (Hn2 : tree_size n2 = 0 /\ item_of n2 = item_of n).
  { subst n2. destruct l as [|ln ll lr], r as [|rn rl rr]; split; try done;
      cbn [set_tree_size tree_size count ts sized] in *;
      try (destruct Sl as (-> & _)); try (destruct Sr as (-> & _)); rewrite Hts;
      try rewrite (u32_small (Z.of_nat _ - _)) by (unfold is_u32; lia);
      try rewrite u32_small by (unfold is_u32; lia); lia. }
  destruct Hn2 as [Hn20 Hn2i]. rewrite Hn20. cbn [Z.eqb gnunet_assert mbind outcome_bind].
  assert (Hid2 : node_id n2 = i) by (injection Hn2i; congruence).
  eexists n2, _. split; [ reflexivity | ]. split_and!; try done. cbn [root].
  assert (Hgoal : forall t', removed_ok (order h) (root h) n t' ->
                             removed_ok (order h) (root h) n2 t')
    by (intros t' [Hi' ? ?]; constructor; [ by rewrite Hn2i | done.. ]).
  apply Hgoal. destruct (parent_of (root h) i) as [p|] eqn:Hpar.
  - by apply remove_child_ok.
  - pose proof (parent_of_None _ _ Hi Hpar) as Hroot.
    rewrite (subtree_root _ _ _ _ _ Hroot Hsub) in Ho, Hs, Hb |- *.
    pose proof (join_ok (order h) n l r Ho Hs Hb) as Hj. by destruct l, r.
Qed.

Lemma heap_inv_removed h n h' :
  heap_inv h -> removed_ok (order h) (root h) n (root h') -> order h' = order h ->
  heap_size h' = u32 (heap_size h - 1) -> heap_inv h'.
Proof.
  intros [Hnd Ho Hs Hsz Hb] Hrm Hord Hsize.
  pose proof (removed_ok_count _ _ _ _ Hrm) as Hcount.
  pose proof (ids_perm _ _ _ _ Hrm) as Hids. destruct Hrm as [Hi Ho' Hs'].
  constructor; [ | by rewrite Hord | done | | lia ].
  - rewrite Hids in Hnd. by apply NoDup_cons in Hnd as [_ Hnd].
  - rewrite Hsize, Hsz, u32_small by (unfold is_u32; lia). lia.
Qed.

Lemma walk_valid_removed h n h' j :
  removed_ok (order h) (root h) n (root h') -> j ∈ ids (root h) -> j <> node_id n ->
  j ∈ ids (root h').
Proof.
  intros Hrm Hj Hne. rewrite (ids_perm _ _ _ _ Hrm) in Hj.
  by apply elem_of_cons in Hj as [->|?].
Qed.

Lemma subtree_child_elem t i n l r j :
  subtree t i = Some (n, l, r) -> (root_id l = Some j \/ root_id r = Some j) ->
  j ∈ ids t.
Proof.
  intros Hsub Hj. induction t as [|m a IHa b IHb]; [ done | ].
  rewrite ids_node, !elem_of_app. cbn [subtree] in Hsub. case_match.
  - injection Hsub as -> -> ->. destruct Hj as [Hj|Hj]; apply root_id_elem in Hj; auto.
  - destruct (subtree a i); auto.
Qed.

(** The child of a node has another address. *)
Lemma subtree_child_ne t i n l r :
  NoDup (ids t) -> subtree t i = Some (n, l, r) ->
  root_id l <> Some i /\ root_id r <> Some i.
Proof.
  intros Hnd Hsub. induction t as [|m a IHa b IHb]; [ done | ].
  pose proof (NoDup_ids_node _ _ _ Hnd) as (Ha & Hb & Hma & Hmb & _).
  cbn [subtree] in Hsub. case_match eqn:Em.
  - injection Hsub as -> -> ->. apply Nat.eqb_eq in Em as <-.
    split; intros Hx; by apply root_id_elem in Hx.
  - destruct (subtree a i); auto.
Qed.

Lemma walk_get_next_ok rnd h :
  heap_inv h -> walk_valid h ->
  exists e h', GNUNET_CONTAINER_heap_walk_get_next rnd h = Ret (e, h') /\
    root h' = root h /\ heap_size h' = heap_size h /\ order h' = order h /\
    walk_valid h' /\ (forall j, walk_pos h = Some j -> walk_pos h' <> Some j) /\
    (root h <> Leaf -> exists i c, e <> None /\ forall x, e = Some x ->
       (i, x, c) ∈ contents h).
Proof.
  intros Hinv Hw. unfold GNUNET_CONTAINER_heap_walk_get_next, contents.
  destruct (root h) as [|n0 l0 r0] eqn:Hroot.
  { eexists _, _. split; [ reflexivity | ]. split_and!; try done.
    intros j Hj. specialize (Hw _ Hj). rewrite Hroot in Hw. by apply elem_of_nil in Hw. }
  assert (Hpos : exists n l r i, (match walk_pos h with
      | None => Ret (n0, l0, r0)
      | Some i => of_option (subtree (Node n0 l0 r0) i)
      end) = Ret (n, l, r) /\ subtree (Node n0 l0 r0) i = Some (n, l, r) /\
      (forall j, walk_pos h = Some j -> j = i)).
  { destruct (walk_pos h) as [i|] eqn:Ew.
    - specialize (Hw _ Ew). rewrite Hroot in Hw.
      destruct (subtree_Some _ _ Hw) as [[[n l] r] Hs].
      exists n, l, r, i. rewrite Hs. split_and!; try done. congruence.
    - exists n0, l0, r0, (node_id n0). cbn [subtree]. by rewrite Nat.eqb_refl. }
  destruct Hpos as (n & l & r & i & -> & Hsub & Hi). cbn [mbind outcome_bind].
  eexists _, _. split; [ reflexivity | ]. cbn [root walk_pos heap_size order].
  split_and!; try done.
  - intros j. cbn [root walk_pos]. intros Hj.
    eapply subtree_child_elem; [ exact Hsub | ]. case_match; auto.
  - intros j Hj. rewrite (Hi _ Hj). destruct Hinv as [Hnd _ _ _ _].
    rewrite Hroot in Hnd. destruct (subtree_child_ne _ _ _ _ _ Hnd Hsub).
    by case_match.
  - intros _. exists (node_id n), (cost n). split; [ done | ]. intros x [= <-].
    clear -Hsub. revert Hsub. generalize (Node n0 l0 r0).
    intros t. induction t as [|m a IHa b IHb]; [ done | ]. cbn [subtree items].
    rewrite !elem_of_app, list_elem_of_singleton. intros Hs. case_match.
    + injection Hs as -> _ _. auto.
    + destruct (subtree a i); auto.
Qed.

(** ** Sequences of operations *)

Inductive heap_op :=
  | OpInsert (i : nat) (e : E) (c : Z)
  | OpRemoveRoot
  | OpRemoveNode (rnd : Z) (i : nat)
  | OpUpdateCost (i : nat) (c : Z)
  | OpWalk (rnd : Z).

Definition heap_step (op : heap_op) (h : GNUNET_CONTAINER_Heap)
  : outcome GNUNET_CONTAINER_Heap :=
  match op with
  | OpInsert i e c => GNUNET_CONTAINER_heap_insert h i e c
  | OpRemoveRoot => Ret (snd (GNUNET_CONTAINER_heap_remove_root h))
  | OpRemoveNode rnd i => r ← GNUNET_CONTAINER_heap_remove_node rnd h i; Ret (snd r)
  | OpUpdateCost i c => GNUNET_CONTAINER_heap_update_cost h i c
  | OpWalk rnd => r ← GNUNET_CONTAINER_heap_walk_get_next rnd h; Ret (snd r)
  end.

Fixpoint run_ops (ops : list heap_op) (h : GNUNET_CONTAINER_Heap)
  : outcome GNUNET_CONTAINER_Heap :=
  match ops with
  | [] => Ret h
  | op :: ops' => h' ← heap_step op h; run_ops ops' h'
  end.

(** What the client owes: [malloc] returns a fresh address, handles are those of
    nodes in the heap, and the heap never holds 2^32 - 1 nodes. *)
Definition client_ok (op : heap_op) (h : GNUNET_CONTAINER_Heap) : Prop :=
  match op with
  | OpInsert i _ _ => (i ∉ ids (root h)) /\ Z.of_nat (count (root h)) + 1 < 2 ^ 32
  | OpRemoveNode _ i | OpUpdateCost i _ => i ∈ ids (root h)
  | OpRemoveRoot | OpWalk _ => True
  end.

(** [GNUNET_CONTAINER_heap_remove_root] does not look at [walk_pos]. *)
Definition walk_off_root (op : heap_op) (h : GNUNET_CONTAINER_Heap) : Prop :=
  match op with
  | OpRemoveRoot => root h = Leaf \/ walk_pos h <> root_id (root h)
  | _ => True
  end.

(** The effect of an operation on the contents, as a relation on multisets. *)
Definition abstract_step (ord : GNUNET_CONTAINER_HeapOrder) (op : heap_op)
  (s s' : list item) : Prop :=
  match op with
  | OpInsert i e c => s' ≡ₚ (i, e, c) :: s
  | OpRemoveRoot =>
      (s = [] /\ s' = []) \/
      exists x, s ≡ₚ x :: s' /\
        Forall (fun y => stays_below ord (item_cost x) (item_cost y) = true) s
  | OpRemoveNode _ i => exists x, item_id x = i /\ s ≡ₚ x :: s'
  | OpUpdateCost i c =>
      exists e c0 rest, s ≡ₚ (i, e, c0) :: rest /\ s' ≡ₚ (i, e, c) :: rest
  | OpWalk _ => s' = s
  end.

(** *** Each operation *)

Lemma ids_insert_ok ord pos node t :
  insert_ok ord pos node t -> ids t ≡ₚ ids node ++ ids pos.
Proof.
  intros [Hi _ _ _]. unfold ids. by rewrite Hi, fmap_app, Permutation_app_comm.
Qed.

(** Putting a detached single node into a heap, the common end of insertion and
    of a change of cost. *)
Lemma attach_ok ord t n :
  ordered ord t -> sized t -> tree_size n = 0 -> Z.of_nat (count t) + 1 < 2 ^ 32 ->
  insert_ok ord t (Node n Leaf Leaf)
    (match t with
     | Leaf => Node n Leaf Leaf
     | _ => insert_node ord t (Node n Leaf Leaf)
     end).
Proof.
  intros Ho Hs Hn Hc. destruct t as [|p l r].
  - by constructor.
  - apply insert_node_ok; try done. cbn [count] in *. lia.
Qed.

Lemma heap_insert_ok h i e c :
  heap_inv h -> client_ok (OpInsert i e c) h ->
  exists h', GNUNET_CONTAINER_heap_insert h i e c = Ret h' /\ heap_inv h' /\
    contents h' ≡ₚ (i, e, c) :: contents h /\
    ids (root h') ≡ₚ i :: ids (root h) /\
    walk_pos h' = walk_pos h /\ order h' = order h.
Proof.
  intros [Hnd Ho Hs Hsz Hb] [Hfresh Hc].
  pose proof (attach_ok (order h) (root h) (mk_node i e c 0)) as Hat.
  destruct Hat as [Hi Hn Ho' Hs']; try done.
  unfold GNUNET_CONTAINER_heap_insert. cbv zeta. set (t' := match root h with
    | Leaf => _ | _ => _ end) in *.
  assert (Hts : ts t' = Z.of_nat (count (root h))).
  { rewrite (ts_sized t' Hs'), Hn; [ cbn [count]; lia | ]. intros Hx.
    rewrite Hx in Hn. cbn [count] in Hn. lia. }
  rewrite Hts, Hsz, Z.eqb_refl. cbn [gnunet_assert mbind outcome_bind].
  assert (Hids : ids t' ≡ₚ i :: ids (root h)).
  { unfold ids. rewrite Hi, fmap_app. cbn [items app fmap list_fmap].
    by rewrite <- Permutation_cons_append. }
  eexists. split; [ reflexivity | ]. cbn [root walk_pos order heap_size].
  split_and!; try done.
  - constructor; cbn [root walk_pos order heap_size]; try done.
    + rewrite Hids. by constructor.
    + rewrite u32_small by (unfold is_u32; lia). rewrite Hn. cbn [count]. lia.
    + rewrite Hn. cbn [count]. lia.
  - unfold contents. cbn [root]. rewrite Hi. cbn [items app].
    by rewrite <- Permutation_cons_append.
Qed.

Lemma heap_remove_root_ok h :
  heap_inv h ->
  match root h with
  | Leaf => GNUNET_CONTAINER_heap_remove_root h = (None, h)
  | Node n _ _ =>
      exists h', GNUNET_CONTAINER_heap_remove_root h = (Some (element n), h') /\
        heap_inv h' /\ contents h ≡ₚ item_of n :: contents h' /\
        Forall (fun y => stays_below (order h) (cost n) (item_cost y) = true)
          (contents h) /\
        removed_ok (order h) (root h) n (root h') /\
        walk_pos h' = walk_pos h /\ order h' = order h
  end.
Proof.
  intros Hinv. pose proof Hinv as [Hnd Ho Hs Hsz Hb].
  unfold GNUNET_CONTAINER_heap_remove_root, contents.
  destruct (root h) as [|n l r] eqn:Hroot; [ done | ].
  pose proof (join_ok (order h) n l r Ho Hs Hb) as Hj.
  eexists. split; [ reflexivity | ]. cbn [root walk_pos order heap_size].
  split_and!; try done.
  - eapply heap_inv_removed; [ exact Hinv | | done | done ]. by rewrite Hroot.
  - apply Hj.
  - eapply ordered_below; [ reflexivity | done | ]. apply stays_below_refl.
Qed.

Lemma heap_remove_node_ok rnd h i :
  heap_inv h -> walk_valid h -> i ∈ ids (root h) ->
  exists e c h', GNUNET_CONTAINER_heap_remove_node rnd h i = Ret (e, h') /\
    heap_inv h' /\ walk_valid h' /\ contents h ≡ₚ (i, e, c) :: contents h' /\
    order h' = order h.
Proof.
  intros Hinv Hw Hi. unfold GNUNET_CONTAINER_heap_remove_node.
  assert (Hstep : exists h1, (if bool_decide (walk_pos h = Some i)
      then r ← GNUNET_CONTAINER_heap_walk_get_next rnd h; Ret (snd r)
      else Ret h) = Ret h1 /\ root h1 = root h /\ heap_size h1 = heap_size h /\
      order h1 = order h /\ walk_valid h1).
  { case_bool_decide as Hwi; [ | by exists h ].
    destruct (walk_get_next_ok rnd h Hinv Hw) as (e & h1 & -> & ? & ? & ? & ? & _).
    by exists h1. }
  destruct Hstep as (h1 & -> & Hr1 & Hsz1 & Ho1 & Hw1). cbn [mbind outcome_bind].
  assert (Hinv1 : heap_inv h1)
    by (destruct Hinv; constructor; rewrite ?Hr1, ?Ho1, ?Hsz1; done).
  destruct (remove_node_ok h1 i Hinv1) as (n & h2 & -> & Hid & _ & Hrm & Hw2 & Hsz2 & Ho2);
    [ by rewrite Hr1 | ].
  cbn [mbind outcome_bind]. eexists (element n), (cost n), _. split; [ reflexivity | ].
  split_and!.
  - eapply (heap_inv_removed h1 n); cbn [root order heap_size]; try done. by rewrite Hsz2.
  - intros j. cbn [walk_pos root]. case_bool_decide as Hj; [ done | ]. intros Hj'.
    rewrite Hw2 in Hj, Hj'. eapply walk_valid_removed; [ exact Hrm | by apply Hw1 | ].
    rewrite Hid. congruence.
  - unfold contents. rewrite <- Hr1. cbn [root]. destruct Hrm as [-> _ _].
    by rewrite <- Hid.
  - cbn [order]. congruence.
Qed.

Lemma heap_update_cost_ok h i c :
  heap_inv h -> i ∈ ids (root h) ->
  exists e c0 rest h', GNUNET_CONTAINER_heap_update_cost h i c = Ret h' /\
    heap_inv h' /\ contents h ≡ₚ (i, e, c0) :: rest /\
    contents h' ≡ₚ (i, e, c) :: rest /\ walk_pos h' = walk_pos h /\ order h' = order h.
Proof.
  intros Hinv Hi. unfold GNUNET_CONTAINER_heap_update_cost.
  destruct (remove_node_ok h i Hinv Hi) as (n & h1 & -> & Hid & Hts & Hrm & Hw1 & Hsz1 & Ho1).
  cbn [mbind outcome_bind]. cbv zeta.
  pose proof (removed_ok_count _ _ _ _ Hrm) as Hcount.
  pose proof (ids_perm _ _ _ _ Hrm) as Hids. destruct Hrm as [Hits Hord Hsized].
  destruct Hinv as [Hnd Ho Hs Hsz Hb].
  destruct (attach_ok (order h1) (root h1) (mk_node (node_id n) (element n) c (tree_size n)))
    as [Hi2 Hn2 Ho2 Hs2]; [ by rewrite Ho1 | done | done | lia | ].
  set (t' := match root h1 with Leaf => _ | _ => _ end) in *.
  eexists (element n), (cost n), (items (root h1)), _. split; [ reflexivity | ].
  unfold contents. cbn [root walk_pos order heap_size]. split_and!; try done.
  - constructor; cbn [root walk_pos order heap_size]; try done.
    + unfold ids. rewrite Hi2, fmap_app. cbn [items app fmap list_fmap].
      rewrite <- Permutation_cons_append. by rewrite Hids in Hnd.
    + rewrite Hsz1, Hsz, Hn2. cbn [count]. lia.
    + rewrite Hn2. cbn [count]. lia.
  - by rewrite <- Hid.
  - rewrite Hi2, <- Hid. cbn [items app]. by rewrite <- Permutation_cons_append.
Qed.

(** One step of the refinement: the invariant is kept and the contents change as
    the abstract priority queue says. *)
Lemma heap_step_refines op h :
  heap_inv h -> walk_valid h -> client_ok op h -> walk_off_root op h ->
  exists h', heap_step op h = Ret h' /\ heap_inv h' /\ walk_valid h' /\
    order h' = order h /\ abstract_step (order h) op (contents h) (contents h').
Proof.
  intros Hinv Hw Hok Hoff. destruct op as [i e c| |rnd i|i c|rnd]; cbn [heap_step].
  - destruct (heap_insert_ok h i e c Hinv Hok) as (h' & -> & Hi' & Hc & Hids & Hwp & Ho).
    exists h'. split_and!; try done. intros j Hj. rewrite Hwp in Hj.
    rewrite Hids. apply elem_of_cons. right. by apply Hw.
  - pose proof (heap_remove_root_ok h Hinv) as Hrm. destruct (root h) as [|n l r] eqn:Hroot.
    + rewrite Hrm. exists h. split_and!; try done. left. unfold contents. by rewrite Hroot.
    + destruct Hrm as (h' & -> & Hi' & Hc & Hall & Hrm & Hwp & Ho). exists h'.
      split_and!; try done; [ | right; by exists (item_of n) ].
      intros j Hj. rewrite Hwp in Hj. eapply walk_valid_removed.
      * rewrite <- Hroot in Hrm. exact Hrm.
      * by apply Hw.
      * cbn in Hoff. rewrite Hroot in Hoff. destruct Hoff as [|Hoff]; [ done | ].
        rewrite Hj in Hoff. cbn in Hoff. congruence.
  - destruct (heap_remove_node_ok rnd h i Hinv Hw Hok)
      as (e & c & h' & -> & Hi' & Hw' & Hc & Ho).
    exists h'. split_and!; try done. by exists (i, e, c).
  - destruct (heap_update_cost_ok h i c Hinv Hok)
      as (e & c0 & rest & h' & -> & Hi' & Hc & Hc' & Hwp & Ho).
    exists h'. split_and!; try done; [ | by exists e, c0, rest ].
    intros j Hj. rewrite Hwp in Hj. specialize (Hw _ Hj).
    unfold ids, contents in *. rewrite Hc in Hw.
    change (j ∈ item_id <$> (i, e, c) :: rest) in Hw. by rewrite <- Hc' in Hw.
  - destruct (walk_get_next_ok rnd h Hinv Hw) as (e & h' & -> & Hr & Hs & Ho & Hw' & _).
    exists h'. split_and!; try done.
    + destruct Hinv. constructor; rewrite ?Hr, ?Hs, ?Ho; done.
    + cbn. unfold contents. by rewrite Hr.
Qed.

(** ** Iteration *)

(** A loop over a list that stops when the iterator says so. *)
Fixpoint iterate_list {S : Type} (iterator : S -> nat -> E -> Z -> S * bool) (s : S)
  (l : list item) : S * bool :=
  match l with
  | [] => (s, true)
  | (i, e, c) :: l' =>
      let '(s', go) := iterator s i e c in
      if go then iterate_list iterator s' l' else (s', false)
  end.

Lemma iterate_list_app {S : Type} (it : S -> nat -> E -> Z -> S * bool) s l1 l2 :
  iterate_list it s (l1 ++ l2) =
  let '(s', go) := iterate_list it s l1 in
  if go then iterate_list it s' l2 else (s', false).
Proof.
  revert s. induction l1 as [|[[i e] c] l1 IH]; intros s; [ done | ].
  cbn [iterate_list app]. destruct (it s i e c) as [s' []]; [ apply IH | done ].
Qed.

Lemma node_iterator_items {S : Type} (it : S -> nat -> E -> Z -> S * bool) s t :
  node_iterator it s t = iterate_list it s (items t).
Proof.
  revert s. induction t as [|n l IHl r IHr]; intros s; [ done | ].
  cbn [node_iterator items]. rewrite !iterate_list_app, IHl.
  destruct (iterate_list it s (items l)) as [s1 []]; [ | done ]. cbn [negb].
  rewrite IHr, iterate_list_app.
  destruct (iterate_list it s1 (items r)) as [s2 []]; [ | done ]. cbn [negb].
  cbn [iterate_list item_of]. by destruct (it s2 _ _ _) as [s3 []].
Qed.

End Heap.

Arguments tree : clear implicits.
Arguments GNUNET_CONTAINER_Heap : clear implicits.
Arguments heap_op : clear implicits.

(** ** Properties *)

(** The sequences of operations a client may run: every call respects [client_ok],
    and [heap_remove_root] is not called while the walk stands on the root. *)
Inductive reachable {E : Type} (ord : GNUNET_CONTAINER_HeapOrder)
  : GNUNET_CONTAINER_Heap E -> Prop :=
  | reachable_create : reachable ord (GNUNET_CONTAINER_heap_create ord)
  | reachable_step h op h' :
      reachable ord h -> client_ok op h -> walk_off_root op h ->
      heap_step op h = Ret h' -> reachable ord h'.

Lemma reachable_inv {E : Type} ord (h : GNUNET_CONTAINER_Heap E) :
  reachable ord h -> heap_inv h /\ walk_valid h /\ order h = ord.
Proof.
  induction 1 as [|h op h' _ (Hinv & Hw & Ho) Hok Hoff Hstep].
  - split_and!; [ apply heap_inv_create | done | done ].
  - destruct (heap_step_refines op h Hinv Hw Hok Hoff) as (h2 & Hs & ? & ? & ? & _).
    rewrite Hstep in Hs. injection Hs as <-. split_and!; try done. congruence.
Qed.

(** C1: Every operation of the heap is an operation of an abstract priority
    queue: from any heap reached from heap_create by inserts, removals, cost
    updates and walks, the next operation terminates without an assertion
    failure, preserves the structural invariant (heap order, tree sizes,
    distinct nodes) and changes the bag of (node, element, cost) entries
    exactly as the priority queue does. The client owes fresh node identities,
    handles of nodes in the heap, fewer than 2^32 - 1 nodes, and not to call
    heap_remove_root while the walk stands on the root, which would leave the
    walk with a freed node (heap_remove_root_leaves_dangling_walk). *)
Theorem heap_refines_priority_queue {E : Type} (ord : GNUNET_CONTAINER_HeapOrder)
  (h : GNUNET_CONTAINER_Heap E) (op : heap_op E) :
  reachable ord h -> client_ok op h -> walk_off_root op h ->
  exists h', heap_step op h = Ret h' /\ heap_inv h' /\
    abstract_step ord op (contents h) (contents h').
Proof.
  intros Hr Hok Hoff. destruct (reachable_inv ord h Hr) as (Hinv & Hw & <-).
  destruct (heap_step_refines op h Hinv Hw Hok Hoff) as (h' & ? & ? & _ & _ & ?).
  by exists h'.
Qed.

Lemma heap_refines_priority_queue_witness :
  exists h', heap_step (OpInsert 2 true 5)
      (mk_heap (Node (mk_node 1 false 9 0) Leaf Leaf) None 1
               GNUNET_CONTAINER_HEAP_ORDER_MIN) = Ret h' /\
    heap_inv h' /\ contents h' ≡ₚ [(2%nat, true, 5); (1%nat, false, 9)].
Proof.
  refine (heap_refines_priority_queue GNUNET_CONTAINER_HEAP_ORDER_MIN
    (mk_heap (Node (mk_node 1 false 9 0) Leaf Leaf) None 1
             GNUNET_CONTAINER_HEAP_ORDER_MIN) (OpInsert 2 true 5) _ _ I).
  - eapply (reachable_step _ _ (OpInsert 1 false 9)); [ apply reachable_create | | exact I
      | vm_compute; reflexivity ].
    split; [ apply not_elem_of_nil | vm_compute; reflexivity ].
  - split; [ | vm_compute; reflexivity ]. vm_compute. intros Hx.
    apply elem_of_cons in Hx as [Hx|Hx]; [ discriminate | inversion Hx ].
Defined.

(** remove_root returns what peek shows, NULL exactly for the empty heap;
    otherwise the element removed has minimal (maximal) cost in a min (max)
    heap, exactly its entry disappears and the invariant is preserved. *)
Lemma heap_remove_root_extremal {E : Type} (h h' : GNUNET_CONTAINER_Heap E)
  (r : option E) :
  heap_inv h -> GNUNET_CONTAINER_heap_remove_root h = (r, h') ->
  r = GNUNET_CONTAINER_heap_peek h /\
  (r = None <-> GNUNET_CONTAINER_heap_get_size h = 0) /\
  (forall e, r = Some e -> exists i c,
     contents h ≡ₚ (i, e, c) :: contents h' /\ heap_inv h' /\
     Forall (fun y => match order h with
                      | GNUNET_CONTAINER_HEAP_ORDER_MIN => c <= item_cost y
                      | GNUNET_CONTAINER_HEAP_ORDER_MAX => item_cost y <= c
                      end) (contents h)).
Proof.
  intros Hinv Hrm. pose proof (heap_remove_root_ok h Hinv) as Hok.
  unfold GNUNET_CONTAINER_heap_peek, GNUNET_CONTAINER_heap_get_size.
  rewrite (hi_size _ Hinv). destruct (root h) as [|n a b] eqn:Hroot.
  - rewrite Hrm in Hok. injection Hok as -> ->. split_and!; done.
  - destruct Hok as (h2 & Heq & Hinv' & Hc & Hall & _). rewrite Hrm in Heq.
    injection Heq as -> ->. split_and!; [ done | split; [ done | cbn [count]; lia ] | ].
    intros e [= <-]. exists (node_id n), (cost n). split_and!; try done.
    eapply Forall_impl; [ exact Hall | ]. intros y. unfold stays_below.
    destruct (order h); cbn; lia.
Qed.

Definition sample_heap : GNUNET_CONTAINER_Heap nat :=
  mk_heap (Node (mk_node 1 10%nat 3 2) (Node (mk_node 2 20%nat 7 0) Leaf Leaf)
                (Node (mk_node 3 30%nat 5 0) Leaf Leaf))
          None 3 GNUNET_CONTAINER_HEAP_ORDER_MIN.

Lemma sample_heap_inv : heap_inv sample_heap.
Proof.
  constructor; try reflexivity.
  - apply (bool_decide_unpack _). vm_compute. exact I.
  - simpl. split_and!; try done; repeat constructor.
  - simpl. lia.
Qed.

(** remove_node on a node of the heap returns its element and deletes
    exactly its entry, update_cost changes exactly its cost; both terminate
    without an assertion failure and preserve the heap invariant, and
    remove_node leaves the random-walk position valid. *)
Theorem heap_remove_update_correct {E : Type} (h : GNUNET_CONTAINER_Heap E)
  (rnd c' : Z) (i : nat) (e : E) (c : Z) :
  heap_inv h -> walk_valid h -> (i, e, c) ∈ contents h ->
  exists h1 h2 rest,
    contents h ≡ₚ (i, e, c) :: rest /\
    GNUNET_CONTAINER_heap_remove_node rnd h i = Ret (e, h1) /\
    heap_inv h1 /\ walk_valid h1 /\ contents h1 ≡ₚ rest /\
    GNUNET_CONTAINER_heap_update_cost h i c' = Ret h2 /\
    heap_inv h2 /\ contents h2 ≡ₚ (i, e, c') :: rest.
Proof.
  intros Hinv Hw Hi.
  assert (Hid : i ∈ ids (root h)).
  { unfold ids. apply list_elem_of_fmap. by exists (i, e, c). }
  destruct (heap_remove_node_ok rnd h i Hinv Hw Hid)
    as (e1 & c1 & h1 & Hrm & Hinv1 & Hw1 & Hc1 & _).
  destruct (heap_update_cost_ok h i c' Hinv Hid)
    as (e2 & c2 & rest & h2 & Hup & Hinv2 & Hc2 & Hc2' & _).
  (* a handle determines its item *)
  assert (Huniq : forall e0 c0 l, contents h ≡ₚ (i, e0, c0) :: l -> e0 = e /\ c0 = c).
  { intros e0 c0 l Hp. rewrite Hp in Hi. apply elem_of_cons in Hi as [Hi|Hi].
    - by injection Hi.
    - pose proof (hi_nodup _ Hinv) as Hnd. unfold ids in Hnd.
      change (items (root h)) with (contents h) in Hnd. rewrite Hp in Hnd.
      apply NoDup_cons in Hnd as [Hn _]. exfalso. apply Hn.
      apply list_elem_of_fmap. by exists (i, e, c). }
  destruct (Huniq _ _ _ Hc1) as [-> ->]. destruct (Huniq _ _ _ Hc2) as [-> ->].
  exists h1, h2, rest. split_and!; try done.
  rewrite Hc2 in Hc1. by apply Permutation_cons_inv in Hc1.
Qed.

Lemma heap_remove_update_correct_witness :
  exists h1, GNUNET_CONTAINER_heap_remove_node 0 sample_heap 2 = Ret (20%nat, h1) /\
             heap_inv h1.
Proof.
  destruct (heap_remove_update_correct sample_heap 0 1 2 20%nat 7 sample_heap_inv)
    as (h1 & h2 & rest & _ & Hr & Hi & _).
  - intros j Hj. discriminate Hj.
  - left.
  - exists h1. split; [ exact Hr | exact Hi ].
Defined.

(** heap_iterate calls the iterator on each entry of the heap once, in
    pre-order, until the iterator declines. *)
Lemma heap_iterate_visits_contents {E S : Type} (h : GNUNET_CONTAINER_Heap E)
  (iterator : S -> nat -> E -> Z -> S * bool) (s : S) :
  GNUNET_CONTAINER_heap_iterate h iterator s
  = fst (iterate_list iterator s (contents h)).
Proof. unfold GNUNET_CONTAINER_heap_iterate. by rewrite node_iterator_items. Qed.

(** A history of calls, each one allowed by the interface, after which the random
    walk stands on a freed node. *)
Definition dangling_walk_history : list (heap_op nat) :=
  [ OpInsert 1 10%nat 1; OpInsert 2 20%nat 2; OpInsert 3 30%nat 3;
    OpWalk 1; OpRemoveRoot; OpRemoveRoot ].

(** heap_remove_root frees the root without moving walk_pos: after two
    inserts, a walk and a remove_root, the heap is not empty and the next
    walk_get_next reads the freed node, whatever the random bit. *)
Theorem heap_remove_root_leaves_dangling_walk :
  exists h, run_ops dangling_walk_history
              (GNUNET_CONTAINER_heap_create GNUNET_CONTAINER_HEAP_ORDER_MIN) = Ret h /\
    root h <> Leaf /\
    (forall rnd, GNUNET_CONTAINER_heap_walk_get_next rnd h = Undefined).
Proof.
  eexists. split; [ vm_compute; reflexivity | ]. split; [ discriminate | ].
  intros rnd. vm_compute. reflexivity.
Qed.
