(* ===== verification/Crc.v ===== *)
(** * Checksums: [src/util/crypto_crc.c]

    The table-driven CRC-32 with the table as [crc_init] fills it, and the 16-bit
    ones' complement sum of the IP headers.  The theorems compare CRC-32 with the
    bit-serial division by the polynomial that the table abbreviates, and the
    16-bit sum with arithmetic modulo 2^16 - 1. *)

From Stdlib Require Import ZArith Lia.
From stdpp Require Import base list numbers.
From S2P Require Import Prelude.
Local Open Scope Z_scope.

(** ** CRC-32 *)

Definition POLYNOMIAL : Z := 0xedb88320.

(** [h = (h >> 1) ^ ((h & 1) ? POLYNOMIAL : 0)] *)
Definition crc_shift (h : Z) : Z :=
  Z.lxor (Z.shiftr h 1) (if Z.land h 1 =? 0 then 0 else POLYNOMIAL).

(** The inner loop: [for (j = 0; j < 256; j += 2 * i) crc_table[i + j] =
    crc_table[j] ^ h], with [n] iterations left. *)
Fixpoint crc_fill (n : nat) (table : list Z) (i j : nat) (h : Z) : list Z :=
  match n with
  | O => table
  | S n' =>
      if (j <? 256)%nat
      then crc_fill n' (<[(i + j)%nat := Z.lxor (nth j table 0) h]> table) i
                    (j + 2 * i) h
      else table
  end.

(** The outer loop: [for (i = 128; i; i >>= 1)], with [n] iterations left. *)
Fixpoint crc_init_loop (n : nat) (table : list Z) (i : nat) (h : Z) : list Z :=
  match n with
  | O => table
  | S n' =>
      if (i =? 0)%nat then table
      else
        let h' := crc_shift h in
        crc_init_loop n' (crc_fill 256 table i 0 h') (i / 2) h'
  end.

(** The static table starts out as zero; [crc_table[0] = 0] changes nothing. *)
Definition crc_init : list Z := crc_init_loop 256 (<[0%nat := 0]> (replicate 256 0)) 128 1.

Definition crc_table : list Z := Eval vm_compute in crc_init.

Definition crc32_step (crc b : Z) : Z :=
  Z.lxor (Z.shiftr crc 8) (nth (Z.to_nat (Z.land (Z.lxor crc b) 0xff)) crc_table 0).

(** [while (len--) crc = ...]; the assertion [crc_table[255] != 0] holds of the
    table ([crc_table_correct]). *)
Definition crc32 (crc : Z) (buf : list Z) : Z :=
  Z.lxor (foldl crc32_step (Z.lxor crc 0xffffffff) buf) 0xffffffff.

(** The result is converted to [int32_t]; it is kept here as the unsigned value
    with the same bits. *)
Definition GNUNET_CRYPTO_crc32_n (buf : list Z) : Z := crc32 (crc32 0 []) buf.

(** ** The 16-bit sum

    [beyond] is the byte that follows the buffer in memory: for a buffer of odd
    length the code reads a 16-bit word that starts at the last byte. *)
Fixpoint GNUNET_CRYPTO_crc16_step (beyond sum : Z) (buf : list Z) : Z :=
  match buf with
  | b0 :: b1 :: buf' =>
      GNUNET_CRYPTO_crc16_step beyond (u32 (sum + (b0 + 256 * b1))) buf'
  | [b] => u32 (sum + Z.land (b + 256 * beyond) 0x00ff)
  | [] => sum
  end.

Definition GNUNET_CRYPTO_crc16_finish (sum : Z) : Z :=
  let sum1 := u32 (Z.shiftr sum 16 + Z.land sum 0xffff) in
  let sum2 := u32 (sum1 + Z.shiftr sum1 16) in
  u16 (Z.lnot sum2).

Definition GNUNET_CRYPTO_crc16_n (beyond : Z) (buf : list Z) : Z :=
  GNUNET_CRYPTO_crc16_finish (GNUNET_CRYPTO_crc16_step beyond 0 buf).

(** ** The bit-serial reference *)

(** [n] steps of the division register without input. *)
Fixpoint shift_n (n : nat) (r : Z) : Z :=
  match n with
  | O => r
  | S n' => shift_n n' (crc_shift r)
  end.

(** CRC-32 (IEEE 802.3, reflected), one bit at a time. *)
Definition crc32_bitwise (buf : list Z) : Z :=
  Z.lxor (foldl (fun r b => shift_n 8 (Z.lxor r b)) 0xffffffff buf) 0xffffffff.

(** The division is linear. *)
Lemma land_1_testbit h : (Z.land h 1 =? 0) = negb (Z.testbit h 0).
Proof.
  change 1 with (Z.ones 1). rewrite Z.land_ones by lia.
  change (2 ^ 1) with 2. rewrite Zmod_odd, Z.bit0_odd. by destruct (Z.odd h).
Qed.

Lemma crc_shift_lxor a b : crc_shift (Z.lxor a b) = Z.lxor (crc_shift a) (crc_shift b).
Proof.
  unfold crc_shift. rewrite !land_1_testbit, Z.shiftr_lxor, Z.lxor_spec.
  apply Z.bits_inj'. intros i Hi. rewrite !Z.lxor_spec.
  destruct (Z.testbit a 0), (Z.testbit b 0); cbn [xorb negb]; rewrite ?Z.bits_0;
    destruct (Z.testbit (Z.shiftr a 1) i), (Z.testbit (Z.shiftr b 1) i),
             (Z.testbit POLYNOMIAL i); reflexivity.
Qed.

Lemma shift_n_lxor n a b : shift_n n (Z.lxor a b) = Z.lxor (shift_n n a) (shift_n n b).
Proof.
  revert a b. induction n as [|n IH]; intros a b; [ done | ].
  cbn [shift_n]. by rewrite crc_shift_lxor, IH.
Qed.

(** A register whose low [n] bits are zero is only shifted. *)
Lemma shift_n_high n k : shift_n n (Z.shiftl k (Z.of_nat n)) = k.
Proof.
  induction n as [|n IH]; [ apply Z.shiftl_0_r | ]. cbn [shift_n].
  assert (Hs : crc_shift (Z.shiftl k (Z.of_nat (S n))) = Z.shiftl k (Z.of_nat n)).
  { unfold crc_shift. rewrite land_1_testbit, Z.shiftl_spec_low by lia. cbn [negb].
    rewrite Z.lxor_0_r. rewrite Z.shiftr_shiftl_l by lia. f_equal. lia. }
  by rewrite Hs.
Qed.

Lemma crc_table_entries :
  crc_table = (fun n => shift_n 8 (Z.of_nat n)) <$> seq 0 256 /\
  nth 255 crc_table 0 <> 0.
Proof. split; [ vm_compute; reflexivity | vm_compute; discriminate ]. Qed.

Lemma crc_table_nth n :
  (n < 256)%nat -> nth n crc_table 0 = shift_n 8 (Z.of_nat n).
Proof.
  intros Hn. rewrite (proj1 crc_table_entries).
  rewrite (nth_lookup_Some _ _ 0 (shift_n 8 (Z.of_nat n))); [ done | ].
  rewrite list_lookup_fmap, lookup_seq_lt by lia. done.
Qed.

(** One table lookup is eight steps of the division. *)
Lemma crc32_step_bitwise crc b :
  is_u32 crc -> is_u8 b -> crc32_step crc b = shift_n 8 (Z.lxor crc b).
Proof.
  intros Hc Hb. unfold crc32_step. change 0xff with (Z.ones 8).
  rewrite Z.land_ones by lia. set (x := Z.lxor crc b).
  pose proof (Z.mod_pos_bound x (2 ^ 8) ltac:(lia)) as Hr.
  rewrite crc_table_nth by lia. rewrite Z2Nat.id by lia.
  assert (Hx : x = Z.lxor (Z.shiftl (Z.shiftr crc 8) 8) (x mod 2 ^ 8)).
  { apply Z.bits_inj'. intros i Hi. rewrite Z.lxor_spec.
    destruct (Z.lt_ge_cases i 8).
    - rewrite Z.shiftl_spec_low, Z.mod_pow2_bits_low by lia. done.
    - rewrite Z.shiftl_spec, Z.shiftr_spec, Z.mod_pow2_bits_high by lia.
      unfold x. rewrite Z.lxor_spec. unfold is_u8 in Hb.
      rewrite <- (Z.mod_small b (2 ^ 8)) by lia. rewrite Z.mod_pow2_bits_high by lia.
      replace (i - 8 + 8) with i by lia. done. }
  rewrite Hx at 2. rewrite shift_n_lxor. f_equal.
  symmetry. apply (shift_n_high 8).
Qed.

Lemma crc_shift_range r : is_u32 r -> is_u32 (crc_shift r).
Proof.
  intros Hr. unfold crc_shift, is_u32 in *.
  assert (Hnn : 0 <= Z.lxor (Z.shiftr r 1) (if Z.land r 1 =? 0 then 0 else POLYNOMIAL)).
  { apply Z.lxor_nonneg. split; intros _; [ case_match; done | ].
    apply Z.shiftr_nonneg. lia. }
  split; [ done | ].
  apply Z.log2_lt_cancel. eapply Z.le_lt_trans; [ apply Z.log2_lxor; try (apply Z.shiftr_nonneg; lia);
    case_match; done | ].
  rewrite Z.log2_pow2 by lia. apply Z.max_lub_lt.
  - rewrite Z.shiftr_div_pow2 by lia. change (2 ^ 1) with 2.
    assert (Hl : Z.log2 (r / 2) <= Z.log2 r) by (apply Z.log2_le_mono; int_lia).
    destruct (Z.eq_dec r 0) as [->|]; [ simpl; lia | ].
    assert (Z.log2 r < 32) by (apply Z.log2_lt_pow2; lia). lia.
  - case_match; vm_compute; reflexivity.
Qed.

Lemma shift_n_range n r : is_u32 r -> is_u32 (shift_n n r).
Proof.
  revert r. induction n as [|n IH]; intros r Hr; [ done | ].
  apply IH. by apply crc_shift_range.
Qed.

Lemma lxor_u32 a b : is_u32 a -> is_u32 b -> is_u32 (Z.lxor a b).
Proof.
  unfold is_u32. intros Ha Hb.
  assert (0 <= Z.lxor a b) by (apply Z.lxor_nonneg; lia). split; [ done | ].
  destruct (Z.eq_dec (Z.lxor a b) 0) as [->|]; [ lia | ].
  apply Z.log2_lt_pow2; [ lia | ].
  pose proof (Z.log2_lxor a b ltac:(lia) ltac:(lia)).
  assert (Hl : forall z, 0 <= z < 2 ^ 32 -> Z.log2 z < 32).
  { intros z Hz. destruct (Z.eq_dec z 0) as [->|]; [ simpl; lia | ].
    apply Z.log2_lt_pow2; lia. }
  pose proof (Hl a Ha). pose proof (Hl b Hb). lia.
Qed.

(** The loop of the table-driven sum is the loop of the division, and stays in 32
    bits. *)
Lemma crc32_fold buf r :
  is_bytes buf -> is_u32 r ->
  foldl crc32_step r buf = foldl (fun r b => shift_n 8 (Z.lxor r b)) r buf /\
  is_u32 (foldl crc32_step r buf).
Proof.
  intros Hb. revert r. induction Hb as [|b buf Hb Hbuf IH]; intros r Hr; [ done | ].
  cbn [foldl]. rewrite crc32_step_bitwise by done. apply IH.
  apply shift_n_range, lxor_u32; [ done | ]. unfold is_u8, is_u32 in *. lia.
Qed.

Lemma crc32_n_range buf : is_bytes buf -> is_u32 (GNUNET_CRYPTO_crc32_n buf).
Proof.
  intros Hb. unfold GNUNET_CRYPTO_crc32_n, crc32. cbn [foldl].
  apply lxor_u32; [ | unfold is_u32; lia ].
  apply crc32_fold; [ done | vm_compute; split; congruence ].
Qed.

(** The table-driven CRC-32, with the table built by crc_init, computes
    the bitwise polynomial division (reflected IEEE 802.3 polynomial) on every
    byte string, and is a 32-bit value. *)
Theorem crc32_is_polynomial_division (buf : list Z) :
  is_bytes buf ->
  GNUNET_CRYPTO_crc32_n buf = crc32_bitwise buf /\
  is_u32 (GNUNET_CRYPTO_crc32_n buf).
Proof.
  intros Hb. split; [ | by apply crc32_n_range ].
  unfold GNUNET_CRYPTO_crc32_n, crc32, crc32_bitwise. cbn [foldl].
  change (Z.lxor (Z.lxor (Z.lxor 0 0xffffffff) 0xffffffff) 0xffffffff) with 0xffffffff.
  f_equal. apply crc32_fold; [ done | unfold is_u32; lia ].
Qed.

(** The check value of the standard: the CRC of the characters [123456789]. *)
Lemma crc32_is_polynomial_division_witness :
  GNUNET_CRYPTO_crc32_n [49; 50; 51; 52; 53; 54; 55; 56; 57] = 0xcbf43926.
Proof.
  rewrite (proj1 (crc32_is_polynomial_division [49; 50; 51; 52; 53; 54; 55; 56; 57]
    ltac:(repeat constructor; unfold is_u8; lia))).
  vm_compute. reflexivity.
Defined.

(** ** The 16-bit sum *)

(** The words of a buffer, an odd last byte padded with zero. *)
Fixpoint words16 (buf : list Z) : list Z :=
  match buf with
  | b0 :: b1 :: buf' => (b0 + 256 * b1) :: words16 buf'
  | [b] => [b]
  | [] => []
  end.

Definition sum_list (l : list Z) : Z := foldr Z.add 0 l.

Lemma words16_ind (P : list Z -> Prop) :
  P [] -> (forall b, P [b]) ->
  (forall b0 b1 buf, P buf -> P (b0 :: b1 :: buf)) -> forall buf, P buf.
Proof.
  intros H0 H1 H2 buf.
  enough (P buf /\ forall b, P (b :: buf)) by tauto.
  induction buf as [|b buf [IH1 IH2]]; split; auto.
Qed.

Lemma sum_words16_nonneg buf : is_bytes buf -> 0 <= sum_list (words16 buf).
Proof.
  induction buf as [|b|b0 b1 buf IH] using words16_ind; intros Hb; simpl; [ lia | | ].
  - apply is_bytes_cons in Hb as [Hb _]. unfold is_u8 in Hb. lia.
  - apply is_bytes_cons in Hb as [H0 Hb]. apply is_bytes_cons in Hb as [H1 Hb].
    specialize (IH Hb). unfold sum_list, is_u8 in *. lia.
Qed.

Lemma sum_words16_bound l :
  is_bytes l -> sum_list (words16 l) <= 65535 * ((Z.of_nat (length l) + 1) / 2).
Proof.
  induction l as [|b|b0 b1 l IH] using words16_ind; intros Hl;
    cbn [words16 sum_list foldr length] in *; [ vm_compute; discriminate | | ].
  - apply is_bytes_cons in Hl as [Hl _]. unfold is_u8 in Hl.
    change ((Z.of_nat 1 + 1) / 2) with 1. lia.
  - apply is_bytes_cons in Hl as [H0 Hl]. apply is_bytes_cons in Hl as [H1 Hl].
    specialize (IH Hl). unfold is_u8, sum_list in *.
    replace (Z.of_nat (S (S (length l))) + 1) with (Z.of_nat (length l) + 1 + 1 * 2) by lia.
    rewrite Z.div_add by lia. lia.
Qed.

Lemma crc16_step_sum beyond sum buf :
  is_bytes buf -> is_u8 beyond -> 0 <= sum ->
  sum + sum_list (words16 buf) < 2 ^ 32 ->
  GNUNET_CRYPTO_crc16_step beyond sum buf = sum + sum_list (words16 buf).
Proof.
  revert sum. induction buf as [|b|b0 b1 buf IH] using words16_ind;
    intros sum Hb Hy Hs Hlt; cbn [GNUNET_CRYPTO_crc16_step words16] in *.
  - unfold sum_list. simpl. lia.
  - apply is_bytes_cons in Hb as [Hb _]. unfold sum_list in *. cbn [foldr] in *.
    assert (Hl : Z.land (b + 256 * beyond) 0x00ff = b).
    { change 0x00ff with (Z.ones 8). rewrite Z.land_ones by lia.
      unfold is_u8 in *. change (2 ^ 8) with 256.
      replace (b + 256 * beyond) with (b + beyond * 256) by lia.
      rewrite Z.mod_add by lia. apply Z.mod_small. lia. }
    rewrite Hl, u32_small; [ lia | ]. unfold is_u32, is_u8 in *. lia.
  - apply is_bytes_cons in Hb as [H0 Hb]. apply is_bytes_cons in Hb as [H1 Hb].
    pose proof (sum_words16_nonneg buf Hb).
    change (sum_list ((b0 + 256 * b1) :: words16 buf))
      with (b0 + 256 * b1 + sum_list (words16 buf)) in *.
    unfold is_u8 in H0, H1.
    rewrite u32_small by (unfold is_u32; lia). rewrite IH; try done; lia.
Qed.

Lemma crc16_finish_spec sum :
  is_u32 sum ->
  is_u16 (GNUNET_CRYPTO_crc16_finish sum) /\
  (sum + GNUNET_CRYPTO_crc16_finish sum) mod 65535 = 0.
Proof.
  intros Hs. unfold GNUNET_CRYPTO_crc16_finish. change 0xffff with (Z.ones 16).
  rewrite Z.land_ones, !Z.shiftr_div_pow2 by lia.
  change (Z.ones 16) with 65535. change (2 ^ 16) with 65536 in *. unfold Z.lnot.
  assert (Hd : 0 <= sum / 65536 < 65536) by int_lia.
  assert (Hm : 0 <= sum mod 65536 < 65536) by (apply Z.mod_pos_bound; lia).
  rewrite (u32_small (sum / 65536 + sum mod 65536)) by (unfold is_u32; lia).
  set (s1 := sum / 65536 + sum mod 65536).
  assert (Hs1 : 0 <= s1 / 65536 <= 1) by (unfold s1; Z.div_mod_to_equations; lia).
  rewrite (u32_small (s1 + s1 / 65536)) by (unfold is_u32, s1 in *; lia).
  unfold u16, is_u16. change (2 ^ 16) with 65536.
  split; [ apply Z.mod_pos_bound; lia | ].
  pose proof (Z.div_mod sum 65536 ltac:(lia)) as Hsum.
  destruct (Z.lt_ge_cases s1 65536) as [Hc|Hc].
  - rewrite (Z.div_small s1) by (unfold s1 in *; lia).
    replace (Z.pred (- (s1 + 0))) with (65535 - s1 + (-1) * 65536) by lia.
    rewrite Z.mod_add, (Z.mod_small (65535 - s1)) by (unfold s1 in *; lia).
    replace (sum + (65535 - s1)) with ((sum / 65536 + 1) * 65535) by (unfold s1; lia).
    apply Z.mod_mul. lia.
  - assert (s1 / 65536 = 1) as -> by (unfold s1 in *; Z.div_mod_to_equations; lia).
    replace (Z.pred (- (s1 + 1))) with (131070 - s1 + (-2) * 65536) by lia.
    rewrite Z.mod_add, (Z.mod_small (131070 - s1)) by (unfold s1 in *; lia).
    replace (sum + (131070 - s1)) with ((sum / 65536 + 2) * 65535) by (unfold s1; lia).
    apply Z.mod_mul. lia.
Qed.

(** The 16-bit checksum of a buffer of up to 128 KiB is the one's
    complement sum that makes the words of the buffer and the checksum add up
    to 0 modulo 65535, whatever lies beyond an odd last byte. *)
Lemma crc16_ones_complement (beyond : Z) (buf : list Z) :
  is_bytes buf -> is_u8 beyond -> Z.of_nat (length buf) <= 131072 ->
  is_u16 (GNUNET_CRYPTO_crc16_n beyond buf) /\
  (sum_list (words16 buf) + GNUNET_CRYPTO_crc16_n beyond buf) mod 65535 = 0.
Proof.
  intros Hb Hy Hlen.
  pose proof (sum_words16_bound buf Hb) as Hsum. pose proof (sum_words16_nonneg buf Hb) as Hnn.
  assert (Hlt : sum_list (words16 buf) < 2 ^ 32).
  { eapply Z.le_lt_trans; [ exact Hsum | ].
    assert ((Z.of_nat (length buf) + 1) / 2 <= 65536)
      by (Z.div_mod_to_equations; lia). lia. }
  unfold GNUNET_CRYPTO_crc16_n. rewrite crc16_step_sum by (auto; lia).
  rewrite Z.add_0_l. apply crc16_finish_spec. unfold is_u32. lia.
Qed.

