(* ===== verification/Tun.v ===== *)
(** * IP packet headers: [src/tun/tun.c]

    The functions that build the headers of the packets which the VPN, exit and DNS
    components inject, and compute their checksums with [GNUNET_CRYPTO_crc16_*].  A
    header is the bytes of its packed struct ([src/include/gnunet_tun_lib.h], in the
    layout of a little-endian host); [ip->x = htons (v)] stores [be_encode 2 v], a
    value that was not converted is stored as [host_bytes].  [beyond] is the byte that
    follows the payload in memory ([crc16_step] reads it for odd lengths). *)

From Stdlib Require Import ZArith Lia.
From stdpp Require Import base list numbers.
From S2P Require Import Prelude Endian Crc.
Local Open Scope Z_scope.

Definition FRESH_TTL : Z := 64.
Definition IPPROTO_TCP : Z := 6.
Definition IPPROTO_UDP : Z := 17.

(** [ntohs] of the field at offset [off] *)
Definition field16 (hdr : list Z) (off : nat) : outcome Z :=
  f ← mem_read hdr off 2; Ret (be_decode f).
Definition field8 (hdr : list Z) (off : nat) : outcome Z := of_option (hdr !! off).

(** [rnd] is the value of [GNUNET_CRYPTO_random_u32 (..., 65536)]; the header is
    cleared before its fields are set. *)
Definition GNUNET_TUN_initialize_ipv4_header (rnd protocol payload_length : Z)
  (src dst : list Z) : outcome (list Z) :=
  _ ← gnunet_assert (payload_length <=? 65535 - 20);
  let ip := [16 * 4 + 20 / 4; 0] ++ be_encode 2 (20 + payload_length)
            ++ host_bytes 2 (u16 rnd) ++ [0; 0; FRESH_TTL; protocol; 0; 0] ++ src ++ dst in
  mem_write ip 10 (host_bytes 2 (GNUNET_CRYPTO_crc16_n 0 ip)).

Definition GNUNET_TUN_initialize_ipv6_header (protocol payload_length : Z) (src dst : list Z)
  : outcome (list Z) :=
  _ ← gnunet_assert (payload_length <=? 65535 - 40);
  Ret ([16 * 6; 0; 0; 0] ++ be_encode 2 (u16 payload_length) ++ [protocol; FRESH_TTL]
       ++ src ++ dst).

Definition GNUNET_TUN_calculate_tcp4_checksum (beyond : Z) (ip tcp payload : list Z)
  : outcome (list Z) :=
  let payload_length := Z.of_nat (length payload) in
  total ← field16 ip 2;
  _ ← gnunet_assert (payload_length + 20 + 20 =? total);
  protocol ← field8 ip 9;
  _ ← gnunet_assert (IPPROTO_TCP =? protocol);
  tcp0 ← mem_write tcp 16 [0; 0];
  addrs ← mem_read ip 12 8;
  let sum1 := GNUNET_CRYPTO_crc16_step 0 0 addrs in
  let sum2 := GNUNET_CRYPTO_crc16_step 0 sum1 (be_encode 2 IPPROTO_TCP) in
  let sum3 := GNUNET_CRYPTO_crc16_step 0 sum2 (be_encode 2 (payload_length + 20)) in
  let sum4 := GNUNET_CRYPTO_crc16_step 0 sum3 tcp0 in
  let sum5 := GNUNET_CRYPTO_crc16_step beyond sum4 payload in
  mem_write tcp0 16 (host_bytes 2 (GNUNET_CRYPTO_crc16_finish sum5)).

Definition GNUNET_TUN_calculate_tcp6_checksum (beyond : Z) (ip tcp payload : list Z)
  : outcome (list Z) :=
  let payload_length := Z.of_nat (length payload) in
  total ← field16 ip 4;
  _ ← gnunet_assert (payload_length + 20 =? total);
  next_header ← field8 ip 6;
  _ ← gnunet_assert (IPPROTO_TCP =? next_header);
  tcp0 ← mem_write tcp 16 [0; 0];
  addrs ← mem_read ip 8 32;
  let sum1 := GNUNET_CRYPTO_crc16_step 0 0 addrs in
  let sum2 := GNUNET_CRYPTO_crc16_step 0 sum1 (be_encode 4 (20 + payload_length)) in
  let sum3 := GNUNET_CRYPTO_crc16_step 0 sum2 (be_encode 4 IPPROTO_TCP) in
  let sum4 := GNUNET_CRYPTO_crc16_step 0 sum3 tcp0 in
  let sum5 := GNUNET_CRYPTO_crc16_step beyond sum4 payload in
  mem_write tcp0 16 (host_bytes 2 (GNUNET_CRYPTO_crc16_finish sum5)).

Definition GNUNET_TUN_calculate_udp4_checksum (beyond : Z) (ip udp payload : list Z)
  : outcome (list Z) :=
  let payload_length := Z.of_nat (length payload) in
  total ← field16 ip 2;
  _ ← gnunet_assert (payload_length + 20 + 8 =? total);
  protocol ← field8 ip 9;
  _ ← gnunet_assert (IPPROTO_UDP =? protocol);
  udp0 ← mem_write udp 6 [0; 0];
  addrs ← mem_read ip 12 8;
  let sum1 := GNUNET_CRYPTO_crc16_step 0 0 addrs in
  let sum2 := GNUNET_CRYPTO_crc16_step 0 sum1 (be_encode 2 IPPROTO_UDP) in
  let sum3 := GNUNET_CRYPTO_crc16_step 0 sum2 (be_encode 2 (8 + payload_length)) in
  let sum4 := GNUNET_CRYPTO_crc16_step 0 sum3 udp0 in
  let sum5 := GNUNET_CRYPTO_crc16_step beyond sum4 payload in
  mem_write udp0 6 (host_bytes 2 (GNUNET_CRYPTO_crc16_finish sum5)).

(** [tmp] is a [uint32_t] that is assigned a 16-bit value in network byte order:
    in memory the two bytes of the value come first. *)
Definition GNUNET_TUN_calculate_udp6_checksum (beyond : Z) (ip udp payload : list Z)
  : outcome (list Z) :=
  let payload_length := Z.of_nat (length payload) in
  total ← field16 ip 4;
  _ ← gnunet_assert (payload_length + 8 =? total);
  len ← field16 udp 4;
  _ ← gnunet_assert (payload_length + 8 =? len);
  next_header ← field8 ip 6;
  _ ← gnunet_assert (IPPROTO_UDP =? next_header);
  udp0 ← mem_write udp 6 [0; 0];
  addrs ← mem_read ip 8 32;
  let sum1 := GNUNET_CRYPTO_crc16_step 0 0 addrs in
  let sum2 := GNUNET_CRYPTO_crc16_step 0 sum1 (be_encode 2 (8 + payload_length) ++ [0; 0]) in
  let sum3 := GNUNET_CRYPTO_crc16_step 0 sum2 (be_encode 2 next_header ++ [0; 0]) in
  let sum4 := GNUNET_CRYPTO_crc16_step 0 sum3 udp0 in
  let sum5 := GNUNET_CRYPTO_crc16_step beyond sum4 payload in
  mem_write udp0 6 (host_bytes 2 (GNUNET_CRYPTO_crc16_finish sum5)).

Definition GNUNET_TUN_calculate_icmp_checksum (beyond : Z) (icmp payload : list Z)
  : outcome (list Z) :=
  icmp0 ← mem_write icmp 2 [0; 0];
  let sum1 := GNUNET_CRYPTO_crc16_step 0 0 icmp0 in
  let sum2 := GNUNET_CRYPTO_crc16_step beyond sum1 payload in
  mem_write icmp0 2 (host_bytes 2 (GNUNET_CRYPTO_crc16_finish sum2)).

(** ** The reference: one's complement sums *)

(** What a receiver checks (RFC 791, 793, 768, 2460): the words of the data,
    checksum included, add up to zero modulo 2^16 - 1. *)
Definition checksum_ok (l : list Z) : Prop := sum_list (words16 l) mod 65535 = 0.

Definition pseudo4 (ip : list Z) (protocol len : Z) : list Z :=
  take 8 (drop 12 ip) ++ [0; protocol] ++ be_encode 2 len.
Definition pseudo6 (ip : list Z) (protocol len : Z) : list Z :=
  take 32 (drop 8 ip) ++ be_encode 4 len ++ [0; 0; 0; protocol].

(** The header with the checksum at [off] replaced and nothing else *)
Definition only_checksum (off : nat) (hdr hdr' : list Z) : Prop :=
  length hdr' = length hdr /\ take off hdr' = take off hdr /\ drop (off + 2) hdr' = drop (off + 2) hdr.

Lemma sum_words16_app n l1 l2 :
  length l1 = (2 * n)%nat ->
  sum_list (words16 (l1 ++ l2)) = sum_list (words16 l1) + sum_list (words16 l2).
Proof.
  revert l1. induction n as [|n IH]; intros l1 Hl.
  - apply nil_length_inv in Hl as ->. done.
  - destruct l1 as [|a [|b l1]]; cbn [length] in Hl; [ lia | lia | ].
    cbn [app words16 sum_list foldr]. unfold sum_list in *. rewrite IH by lia. lia.
Qed.

Lemma sum_words16_word v : is_u16 v -> sum_list (words16 (host_bytes 2 v)) = v.
Proof.
  intros Hv. cbn [host_bytes words16 sum_list foldr]. unfold u8, is_u16 in *.
  rewrite Z.shiftr_div_pow2 by lia. Z.div_mod_to_equations. lia.
Qed.

(** Steps over small blocks add their words. *)
Lemma step_small beyond s l :
  is_bytes l -> is_u8 beyond -> 0 <= s <= 2 ^ 24 -> Z.of_nat (length l) <= 65536 ->
  GNUNET_CRYPTO_crc16_step beyond s l = s + sum_list (words16 l).
Proof.
  intros Hl Hb Hs Hlen. pose proof (sum_words16_bound l Hl) as Hsum.
  apply crc16_step_sum; [ done | done | lia | ].
  assert ((Z.of_nat (length l) + 1) / 2 <= 32768) by (Z.div_mod_to_equations; lia). lia.
Qed.

(** The sum of a short block *)
Lemma sum_short l :
  is_bytes l -> Z.of_nat (length l) <= 64 -> 0 <= sum_list (words16 l) <= 2 ^ 22.
Proof.
  intros Hl Hlen. pose proof (sum_words16_bound l Hl). pose proof (sum_words16_nonneg l Hl).
  assert ((Z.of_nat (length l) + 1) / 2 <= 32) by (Z.div_mod_to_equations; lia). lia.
Qed.

(** Storing the checksum of pseudo-header [P], header and payload *)
Lemma checksum_core P n hdr m k payload beyond :
  is_bytes P -> is_bytes hdr -> is_bytes payload -> is_u8 beyond ->
  length P = (2 * n)%nat -> (n <= 32)%nat -> length hdr = (2 * m)%nat -> (m <= 32)%nat -> (k < m)%nat ->
  Z.of_nat (length payload) <= 65536 ->
  exists hdr0 hdr', mem_write hdr (2 * k) [0; 0] = Ret hdr0
    /\ is_bytes hdr0 /\ length hdr0 = length hdr
    /\ mem_write hdr0 (2 * k)
         (host_bytes 2 (GNUNET_CRYPTO_crc16_finish
            (GNUNET_CRYPTO_crc16_step beyond (sum_list (words16 P) + sum_list (words16 hdr0)) payload)))
       = Ret hdr'
    /\ checksum_ok (P ++ hdr' ++ payload) /\ only_checksum (2 * k) hdr hdr'.
Proof.
  intros HP Hh Hp Hb HlP Hn Hlh Hm Hk Hlp.
  set (front := take (2 * k) hdr). set (back := drop (2 * k + 2) hdr).
  assert (Hf : length front = (2 * k)%nat) by (unfold front; rewrite length_take; lia).
  assert (Hbk : length back = (2 * (m - k - 1))%nat) by (unfold back; rewrite length_drop; lia).
  assert (Hwrite : forall (x : list Z) (v : list Z), length v = 2%nat ->
    length x = length hdr -> take (2 * k) x = front -> drop (2 * k + 2) x = back ->
    mem_write x (2 * k) v = Ret (front ++ v ++ back)).
  { intros x v Hv Hx H1 H2. rewrite mem_write_ok by lia. by rewrite Hv, H1, H2. }
  exists (front ++ [0; 0] ++ back). eexists.
  assert (Hl0 : length (front ++ [0; 0] ++ back) = length hdr)
    by (rewrite !length_app; cbn [length]; lia).
  assert (Hb0 : is_bytes (front ++ [0; 0] ++ back)).
  { rewrite !is_bytes_app. split_and!; [ unfold front; auto with gnunet |
      repeat constructor; unfold is_u8; lia | unfold back; auto with gnunet ]. }
  split_and!; [ by apply Hwrite | done | done | apply Hwrite; try done | | ].
  - apply take_app_length'. lia.
  - rewrite app_assoc. apply drop_app_length'. rewrite length_app. cbn [length]. lia.
  - pose proof (sum_short P HP ltac:(lia)) as SP.
    pose proof (sum_short _ Hb0 ltac:(lia)) as S0.
    rewrite step_small by (done || lia).
    pose proof (sum_words16_bound payload Hp) as Hsum. pose proof (sum_words16_nonneg payload Hp) as Hnn.
    assert ((Z.of_nat (length payload) + 1) / 2 <= 32768) by (Z.div_mod_to_equations; lia).
    set (S := sum_list (words16 P) + _ + _).
    destruct (crc16_finish_spec S) as [Hu Hz]; [ unfold is_u32, S; lia | ].
    set (c := GNUNET_CRYPTO_crc16_finish S) in *. clearbody c.
    unfold checksum_ok. rewrite <- Hz. f_equal. unfold S.
    rewrite (sum_words16_app n P) by done.
    rewrite (sum_words16_app m (front ++ _ ++ back)) by (rewrite !length_app, length_host_bytes; lia).
    rewrite !(sum_words16_app k front) by done.
    rewrite (sum_words16_app 1 (host_bytes 2 _)) by apply length_host_bytes.
    rewrite (sum_words16_app 1 [0; 0]) by done. rewrite sum_words16_word by done.
    change (sum_list (words16 [0; 0])) with 0. lia.
  - split_and!.
    + rewrite !length_app, length_host_bytes. cbn [length] in *. lia.
    + by rewrite take_app_length' by lia.
    + rewrite app_assoc. by rewrite drop_app_length' by (rewrite length_app, length_host_bytes; lia).
Qed.

(** The three steps over a pseudo-header *)
Lemma steps3 a b c na nb :
  is_bytes a -> is_bytes b -> is_bytes c -> length a = (2 * na)%nat -> length b = (2 * nb)%nat ->
  Z.of_nat (length a) <= 64 -> Z.of_nat (length b) <= 64 -> Z.of_nat (length c) <= 64 ->
  GNUNET_CRYPTO_crc16_step 0 (GNUNET_CRYPTO_crc16_step 0 (GNUNET_CRYPTO_crc16_step 0 0 a) b) c
  = sum_list (words16 (a ++ b ++ c)).
Proof.
  intros Ha Hb Hc La Lb Sa Sb Sc.
  pose proof (sum_short a Ha Sa). pose proof (sum_short b Hb Sb).
  rewrite (step_small 0 0 a) by (done || unfold is_u8; lia).
  rewrite (step_small 0 _ b) by (done || unfold is_u8; lia).
  rewrite (step_small 0 _ c) by (done || unfold is_u8; lia).
  rewrite (sum_words16_app na a), (sum_words16_app nb b) by done. lia.
Qed.

(** The checksum of a transport segment: [P0] is what the code feeds to the sum for
    the pseudo-header [P], [k] the position of the checksum in words. *)
Lemma segment_checksum a b c P hdr m k payload beyond :
  is_bytes a -> is_bytes b -> is_bytes c -> is_bytes P -> is_bytes hdr -> is_bytes payload ->
  is_u8 beyond -> Nat.Even (length a) -> Nat.Even (length b) -> Nat.Even (length P) ->
  (length a <= 64)%nat -> (length b <= 64)%nat -> (length c <= 64)%nat -> (length P <= 64)%nat ->
  length hdr = (2 * m)%nat -> (m <= 32)%nat -> (k < m)%nat ->
  Z.of_nat (length payload) <= 65536 ->
  sum_list (words16 (a ++ b ++ c)) = sum_list (words16 P) ->
  exists hdr', (hdr0 ← mem_write hdr (2 * k) [0; 0];
      mem_write hdr0 (2 * k) (host_bytes 2 (GNUNET_CRYPTO_crc16_finish
        (GNUNET_CRYPTO_crc16_step beyond
           (GNUNET_CRYPTO_crc16_step 0
              (GNUNET_CRYPTO_crc16_step 0
                 (GNUNET_CRYPTO_crc16_step 0 (GNUNET_CRYPTO_crc16_step 0 0 a) b) c) hdr0)
           payload)))) = Ret hdr'
    /\ checksum_ok (P ++ hdr' ++ payload) /\ only_checksum (2 * k) hdr hdr'.
Proof.
  intros Ha Hb Hc HP Hh Hp Hy [na La] [nb Lb] [n LP] Sa Sb Sc SP Lh Hm Hk Lp Heq.
  destruct (checksum_core P n hdr m k payload beyond) as (hdr0 & hdr' & H1 & Hb0 & Hl0 & H2 & H3 & H4);
    try done; [ lia | ].
  exists hdr'. split_and!; [ | done | done ]. rewrite H1. cbn [mbind outcome_bind].
  rewrite (steps3 a b c na nb), Heq by (done || lia).
  pose proof (sum_short P HP ltac:(lia)).
  rewrite (step_small 0 _ hdr0) by (done || (unfold is_u8; lia) || lia). exact H2.
Qed.

(** The address block of an IP header *)
Lemma read_addresses ip off n :
  (off + n <= length ip)%nat -> is_bytes ip ->
  mem_read ip off n = Ret (take n (drop off ip)) /\ is_bytes (take n (drop off ip))
  /\ length (take n (drop off ip)) = n.
Proof.
  intros Hl Hb. split_and!; [ by apply mem_read_ok | auto with gnunet | ].
  rewrite length_take, length_drop. lia.
Qed.

(** In the sum, the place of the 16-bit length within a 32-bit field does not
    matter. *)
Lemma length_field_sum v :
  0 <= v < 2 ^ 16 ->
  sum_list (words16 (be_encode 2 v ++ [0; 0])) = sum_list (words16 (be_encode 4 v)).
Proof.
  intros Hv. cbn [be_encode app words16 sum_list foldr].
  replace (u8 (Z.shiftr v (8 * Z.of_nat 3))) with 0.
  2:{ unfold u8. rewrite Z.shiftr_div_pow2 by lia. change (2 ^ (8 * Z.of_nat 3)) with 16777216.
      rewrite Z.div_small by lia. done. }
  replace (u8 (Z.shiftr v (8 * Z.of_nat 2))) with 0.
  2:{ unfold u8. rewrite Z.shiftr_div_pow2 by lia. change (2 ^ (8 * Z.of_nat 2)) with 65536.
      rewrite Z.div_small by lia. done. }
  lia.
Qed.

Lemma pseudo4_facts ip protocol len :
  is_bytes ip -> length ip = 20%nat -> is_u8 protocol ->
  is_bytes (pseudo4 ip protocol len) /\ Nat.Even (length (pseudo4 ip protocol len))
  /\ (length (pseudo4 ip protocol len) <= 64)%nat.
Proof.
  intros Hi Li Hp. unfold pseudo4.
  destruct (read_addresses ip 12 8) as (_ & Ba & La); [ lia | done | ].
  rewrite !length_app, La, length_be_encode. split_and!; [ | by exists 6%nat | cbn; lia ].
  rewrite !is_bytes_app. split_and!; [ done | | apply be_encode_bytes ].
  repeat constructor; unfold is_u8 in *; lia.
Qed.

Lemma pseudo6_facts ip protocol len :
  is_bytes ip -> length ip = 40%nat -> is_u8 protocol ->
  is_bytes (pseudo6 ip protocol len) /\ Nat.Even (length (pseudo6 ip protocol len))
  /\ (length (pseudo6 ip protocol len) <= 64)%nat.
Proof.
  intros Hi Li Hp. unfold pseudo6.
  destruct (read_addresses ip 8 32) as (_ & Ba & La); [ lia | done | ].
  rewrite !length_app, La, length_be_encode. split_and!; [ | by exists 20%nat | cbn; lia ].
  rewrite !is_bytes_app. split_and!; [ done | apply be_encode_bytes | ].
  repeat constructor; unfold is_u8 in *; lia.
Qed.

(** Run a read of the header that returns, and an assertion that holds. *)
Ltac run_read H := rewrite H; cbn [mbind outcome_bind].
Ltac run_assert b := rewrite (gnunet_assert_true b) by apply Z.eqb_refl; cbn [mbind outcome_bind].

Section Segments.
Context (beyond : Z) (ip hdr payload : list Z).
Context (Hi : is_bytes ip) (Hh : is_bytes hdr) (Hp : is_bytes payload) (Hy : is_u8 beyond).
Let pl := Z.of_nat (length payload).
Context (Hpl : pl <= 65000).

Lemma tcp4_ok :
  length ip = 20%nat -> length hdr = 20%nat ->
  field16 ip 2 = Ret (pl + 20 + 20) -> field8 ip 9 = Ret IPPROTO_TCP ->
  exists hdr', GNUNET_TUN_calculate_tcp4_checksum beyond ip hdr payload = Ret hdr'
    /\ checksum_ok (pseudo4 ip IPPROTO_TCP (20 + pl) ++ hdr' ++ payload)
    /\ only_checksum 16 hdr hdr'.
Proof.
  intros Li Lh Hf H8. destruct (read_addresses ip 12 8) as (Ra & Ba & La); [ lia | done | ].
  destruct (pseudo4_facts ip IPPROTO_TCP (20 + pl)) as (BP & EP & SP); [ done.. | ].
  unfold GNUNET_TUN_calculate_tcp4_checksum. fold pl. run_read Hf. run_assert (pl + 20 + 20 =? pl + 20 + 20).
  run_read H8. run_read Ra. run_assert (IPPROTO_TCP =? IPPROTO_TCP). rewrite (Z.add_comm pl 20).
  apply (segment_checksum (take 8 (drop 12 ip)) (be_encode 2 IPPROTO_TCP) (be_encode 2 (20 + pl))
           (pseudo4 ip IPPROTO_TCP (20 + pl)) hdr 10 8 payload beyond);
    try done; try apply be_encode_bytes; rewrite ?La, ?length_be_encode; try lia.
  - by exists 4%nat.
  - by exists 1%nat.
Qed.

Lemma udp4_ok :
  length ip = 20%nat -> length hdr = 8%nat ->
  field16 ip 2 = Ret (pl + 20 + 8) -> field8 ip 9 = Ret IPPROTO_UDP ->
  exists hdr', GNUNET_TUN_calculate_udp4_checksum beyond ip hdr payload = Ret hdr'
    /\ checksum_ok (pseudo4 ip IPPROTO_UDP (8 + pl) ++ hdr' ++ payload)
    /\ only_checksum 6 hdr hdr'.
Proof.
  intros Li Lh Hf H8. destruct (read_addresses ip 12 8) as (Ra & Ba & La); [ lia | done | ].
  destruct (pseudo4_facts ip IPPROTO_UDP (8 + pl)) as (BP & EP & SP); [ done.. | ].
  unfold GNUNET_TUN_calculate_udp4_checksum. fold pl. run_read Hf. run_assert (pl + 20 + 8 =? pl + 20 + 8).
  run_read H8. run_read Ra. run_assert (IPPROTO_UDP =? IPPROTO_UDP).
  apply (segment_checksum (take 8 (drop 12 ip)) (be_encode 2 IPPROTO_UDP) (be_encode 2 (8 + pl))
           (pseudo4 ip IPPROTO_UDP (8 + pl)) hdr 4 3 payload beyond);
    try done; try apply be_encode_bytes; rewrite ?La, ?length_be_encode; try lia.
  - by exists 4%nat.
  - by exists 1%nat.
Qed.

Lemma tcp6_ok :
  length ip = 40%nat -> length hdr = 20%nat ->
  field16 ip 4 = Ret (pl + 20) -> field8 ip 6 = Ret IPPROTO_TCP ->
  exists hdr', GNUNET_TUN_calculate_tcp6_checksum beyond ip hdr payload = Ret hdr'
    /\ checksum_ok (pseudo6 ip IPPROTO_TCP (20 + pl) ++ hdr' ++ payload)
    /\ only_checksum 16 hdr hdr'.
Proof.
  intros Li Lh Hf H8. destruct (read_addresses ip 8 32) as (Ra & Ba & La); [ lia | done | ].
  destruct (pseudo6_facts ip IPPROTO_TCP (20 + pl)) as (BP & EP & SP); [ done.. | ].
  unfold GNUNET_TUN_calculate_tcp6_checksum. fold pl. run_read Hf. run_assert (pl + 20 =? pl + 20).
  run_read H8. run_read Ra. run_assert (IPPROTO_TCP =? IPPROTO_TCP).
  apply (segment_checksum (take 32 (drop 8 ip)) (be_encode 4 (20 + pl)) (be_encode 4 IPPROTO_TCP)
           (pseudo6 ip IPPROTO_TCP (20 + pl)) hdr 10 8 payload beyond);
    try done; try apply be_encode_bytes; rewrite ?La, ?length_be_encode; try lia.
  - by exists 16%nat.
  - by exists 2%nat.
Qed.

Lemma udp6_ok :
  length ip = 40%nat -> length hdr = 8%nat ->
  field16 ip 4 = Ret (pl + 8) -> field16 hdr 4 = Ret (pl + 8) -> field8 ip 6 = Ret IPPROTO_UDP ->
  exists hdr', GNUNET_TUN_calculate_udp6_checksum beyond ip hdr payload = Ret hdr'
    /\ checksum_ok (pseudo6 ip IPPROTO_UDP (8 + pl) ++ hdr' ++ payload)
    /\ only_checksum 6 hdr hdr'.
Proof.
  intros Li Lh Hf Hf2 H8. destruct (read_addresses ip 8 32) as (Ra & Ba & La); [ lia | done | ].
  destruct (pseudo6_facts ip IPPROTO_UDP (8 + pl)) as (BP & EP & SP); [ done.. | ].
  unfold GNUNET_TUN_calculate_udp6_checksum. fold pl. run_read Hf. run_assert (pl + 8 =? pl + 8).
  run_read Hf2. run_assert (pl + 8 =? pl + 8). run_read H8. run_read Ra.
  run_assert (IPPROTO_UDP =? IPPROTO_UDP).
  assert (Hz : is_bytes [0; 0]) by (repeat constructor; unfold is_u8; lia).
  apply (segment_checksum (take 32 (drop 8 ip)) (be_encode 2 (8 + pl) ++ [0; 0])
           (be_encode 2 IPPROTO_UDP ++ [0; 0])
           (pseudo6 ip IPPROTO_UDP (8 + pl)) hdr 4 3 payload beyond);
    try done; try (apply is_bytes_app; split; [ apply be_encode_bytes | done ]);
    rewrite ?length_app, ?La, ?length_be_encode; try (cbn [length]; lia).
  - by exists 16%nat.
  - by exists 2%nat.
  - unfold pseudo6. rewrite !(sum_words16_app 16 (take 32 _)) by done.
    rewrite (sum_words16_app 2 (be_encode 2 _ ++ _)), (sum_words16_app 2 (be_encode 4 _)) by done.
    rewrite length_field_sum by lia. done.
Qed.

End Segments.

(** The checksums that the tunnel code stores into TCP, UDP (over IPv4
    and IPv6) and ICMP headers are the ones a receiver verifies: pseudo-
    header, header and payload add up to zero modulo 65535, whatever the
    payload length and the byte behind it, no assertion fails when the lengths
    agree, and no other byte of the header changes. *)
Theorem tun_checksums_verify (beyond : Z) (ip hdr payload : list Z) :
  is_bytes ip -> is_bytes hdr -> is_bytes payload -> is_u8 beyond ->
  let pl := Z.of_nat (length payload) in
  pl <= 65000 ->
  (length ip = 20%nat -> length hdr = 20%nat ->
   field16 ip 2 = Ret (pl + 20 + 20) -> field8 ip 9 = Ret IPPROTO_TCP ->
   exists hdr', GNUNET_TUN_calculate_tcp4_checksum beyond ip hdr payload = Ret hdr'
     /\ checksum_ok (pseudo4 ip IPPROTO_TCP (20 + pl) ++ hdr' ++ payload)
     /\ only_checksum 16 hdr hdr')
  /\ (length ip = 40%nat -> length hdr = 20%nat ->
   field16 ip 4 = Ret (pl + 20) -> field8 ip 6 = Ret IPPROTO_TCP ->
   exists hdr', GNUNET_TUN_calculate_tcp6_checksum beyond ip hdr payload = Ret hdr'
     /\ checksum_ok (pseudo6 ip IPPROTO_TCP (20 + pl) ++ hdr' ++ payload)
     /\ only_checksum 16 hdr hdr')
  /\ (length ip = 20%nat -> length hdr = 8%nat ->
   field16 ip 2 = Ret (pl + 20 + 8) -> field8 ip 9 = Ret IPPROTO_UDP ->
   exists hdr', GNUNET_TUN_calculate_udp4_checksum beyond ip hdr payload = Ret hdr'
     /\ checksum_ok (pseudo4 ip IPPROTO_UDP (8 + pl) ++ hdr' ++ payload)
     /\ only_checksum 6 hdr hdr')
  /\ (length ip = 40%nat -> length hdr = 8%nat ->
   field16 ip 4 = Ret (pl + 8) -> field16 hdr 4 = Ret (pl + 8) -> field8 ip 6 = Ret IPPROTO_UDP ->
   exists hdr', GNUNET_TUN_calculate_udp6_checksum beyond ip hdr payload = Ret hdr'
     /\ checksum_ok (pseudo6 ip IPPROTO_UDP (8 + pl) ++ hdr' ++ payload)
     /\ only_checksum 6 hdr hdr')
  /\ (length hdr = 8%nat ->
   exists hdr', GNUNET_TUN_calculate_icmp_checksum beyond hdr payload = Ret hdr'
     /\ checksum_ok (hdr' ++ payload) /\ only_checksum 2 hdr hdr').
Proof.
  intros Hi Hh Hp Hy pl Hpl.
  split_and!; [ by apply tcp4_ok | by apply tcp6_ok | by apply udp4_ok | by apply udp6_ok | ].
  intros Lh. unfold GNUNET_TUN_calculate_icmp_checksum.
  destruct (checksum_core [] 0 hdr 4 1 payload beyond)
    as (hdr0 & hdr' & H1 & Hb0 & Hl0 & H2 & H3 & H4); try done; try lia; [ constructor | ].
  exists hdr'. change 2%nat with (2 * 1)%nat at 1 2 3. rewrite H1. cbn [mbind outcome_bind].
  rewrite (step_small 0 0 hdr0) by (done || (unfold is_u8; lia) || lia). done.
Qed.

(** ** Fresh IP headers *)

Lemma host_bytes_bytes n v : is_bytes (host_bytes n v).
Proof.
  revert v. induction n as [|n IH]; intros v; [ constructor | ].
  apply is_bytes_cons. split; [ apply u8_range | apply IH ].
Qed.

Lemma ipv4_header_ok rnd protocol pl src dst :
  is_u8 protocol -> 0 <= pl <= 65515 -> is_bytes src -> is_bytes dst ->
  length src = 4%nat -> length dst = 4%nat ->
  exists ip, GNUNET_TUN_initialize_ipv4_header rnd protocol pl src dst = Ret ip
    /\ length ip = 20%nat /\ is_bytes ip /\ checksum_ok ip
    /\ field16 ip 2 = Ret (20 + pl) /\ field8 ip 9 = Ret protocol
    /\ take 8 (drop 12 ip) = src ++ dst.
Proof.
  intros Hpr Hpl Hs Hd Ls Ld. unfold GNUNET_TUN_initialize_ipv4_header.
  rewrite gnunet_assert_true by (apply Z.leb_le; lia). cbn [mbind outcome_bind].
  set (front := [16 * 4 + 20 / 4; 0] ++ be_encode 2 (20 + pl) ++ host_bytes 2 (u16 rnd)
                ++ [0; 0; FRESH_TTL; protocol]).
  set (ip := [16 * 4 + 20 / 4; 0] ++ _).
  assert (Eip : ip = front ++ [0; 0] ++ src ++ dst) by reflexivity. rewrite Eip.
  assert (Lf : length front = 10%nat) by reflexivity.
  assert (Bf : is_bytes front).
  { unfold front, FRESH_TTL. rewrite !is_bytes_app.
    assert (B1 : is_bytes [16 * 4 + 20 / 4; 0]).
    { change (20 / 4) with 5. rewrite !is_bytes_cons. unfold is_u8. split_and!; try lia. constructor. }
    assert (B2 : is_bytes [0; 0; 64; protocol]).
    { rewrite !is_bytes_cons. unfold is_u8 in *. split_and!; try lia. constructor. }
    pose proof (be_encode_bytes 2 (20 + pl)). pose proof (host_bytes_bytes 2 (u16 rnd)). tauto. }
  assert (Bip : is_bytes (front ++ [0; 0] ++ src ++ dst)).
  { rewrite !is_bytes_app. split_and!; try done. repeat constructor; unfold is_u8; lia. }
  assert (Lip : length (front ++ [0; 0] ++ src ++ dst) = 20%nat)
    by (rewrite !length_app, Lf, Ls, Ld; done).
  set (c := GNUNET_CRYPTO_crc16_n 0 _).
  assert (Hsum : 0 <= sum_list (words16 (front ++ [0; 0] ++ src ++ dst)) <= 2 ^ 22)
    by (apply sum_short; [ done | lia ]).
  assert (Hc : is_u16 c /\ (sum_list (words16 (front ++ [0; 0] ++ src ++ dst)) + c) mod 65535 = 0).
  { unfold c, GNUNET_CRYPTO_crc16_n.
    rewrite step_small by (done || (unfold is_u8; lia) || lia).
    apply crc16_finish_spec. unfold is_u32. lia. }
  destruct Hc as [Hu Hz]. clearbody c.
  rewrite mem_write_ok by (rewrite Lip, length_host_bytes; lia).
  rewrite length_host_bytes, (take_app_length' front) by done.
  rewrite (app_assoc front [0; 0]), (drop_app_length' (front ++ [0; 0])) by done.
  eexists. split; [ reflexivity | ]. split_and!.
  - rewrite !length_app, Lf, Ls, Ld, length_host_bytes. done.
  - rewrite !is_bytes_app. split_and!; try done. apply host_bytes_bytes.
  - unfold checksum_ok. rewrite <- Hz. f_equal.
    rewrite !(sum_words16_app 5 front) by done.
    rewrite (sum_words16_app 1 (host_bytes 2 c)), (sum_words16_app 1 [0; 0]) by done.
    rewrite sum_words16_word by done. change (sum_list (words16 [0; 0])) with 0. lia.
  - unfold field16. rewrite mem_read_ok by (rewrite length_app, Lf; lia).
    cbn [mbind outcome_bind]. f_equal. unfold front. rewrite <- !app_assoc.
    rewrite (drop_app_length' [_; _]) by done. rewrite take_app_length' by done.
    rewrite be_decode_encode. apply Z.mod_small. cbn. lia.
  - unfold field8. rewrite lookup_app_l by (rewrite Lf; lia). done.
  - rewrite app_assoc, drop_app_length' by (rewrite length_app, Lf, length_host_bytes; done).
    apply take_ge. rewrite length_app. lia.
Qed.

(** A UDP datagram in a fresh IPv4 packet *)
Lemma tun_checksums_verify_witness :
  exists ip udp, GNUNET_TUN_initialize_ipv4_header 7 IPPROTO_UDP 11 [10; 0; 0; 1] [10; 0; 0; 2]
      = Ret ip
    /\ GNUNET_TUN_calculate_udp4_checksum 99 ip [0; 53; 0; 53; 0; 11; 1; 1] [1; 2; 3] = Ret udp
    /\ checksum_ok (pseudo4 ip IPPROTO_UDP 11 ++ udp ++ [1; 2; 3]).
Proof.
  assert (Hb : is_bytes [10; 0; 0; 1] /\ is_bytes [10; 0; 0; 2] /\ is_bytes [1; 2; 3]
               /\ is_bytes [0; 53; 0; 53; 0; 11; 1; 1]).
  { rewrite !is_bytes_cons. unfold is_u8. split_and!; try lia; constructor. }
  destruct Hb as (B1 & B2 & B3 & B4).
  destruct (ipv4_header_ok 7 IPPROTO_UDP 11 [10; 0; 0; 1] [10; 0; 0; 2] ltac:(unfold is_u8, IPPROTO_UDP; lia)
              ltac:(lia) B1 B2 eq_refl eq_refl) as (ip & H1 & Li & Bi & _ & Hf & H8 & _).
  destruct (tun_checksums_verify 99 ip [0; 53; 0; 53; 0; 11; 1; 1] [1; 2; 3] Bi B4 B3
              ltac:(unfold is_u8; lia) ltac:(cbn; lia)) as (_ & _ & Hudp & _).
  destruct (Hudp Li eq_refl Hf H8) as (udp & H2 & H3 & _).
  exists ip, udp. split; [ exact H1 | split; [ exact H2 | exact H3 ] ].
Defined.
