(* ===== verification/Base32.v ===== *)
(** * Base-32 text: [GNUNET_STRINGS_data_to_string] and
    [GNUNET_STRINGS_string_to_data] of [src/util/strings.c]

    The encoding of hash codes and keys in names, URIs and file names.  Characters
    are their codes.  A result [None] is the [NULL] or [GNUNET_SYSERR] of the C
    function, [Some] the bytes it wrote. *)

From Stdlib Require Import ZArith Lia.
From stdpp Require Import base list numbers.
From S2P Require Import Prelude Endian.
Local Open Scope Z_scope.

(** The characters of ["0123456789ABCDEFGHIJKLMNOPQRSTUV"]. *)
Definition encTable__ : list Z :=
  [48; 49; 50; 51; 52; 53; 54; 55; 56; 57; 65; 66; 67; 68; 69; 70;
   71; 72; 73; 74; 75; 76; 77; 78; 79; 80; 81; 82; 83; 84; 85; 86].

Definition enc_char (v : Z) : Z := nth (Z.to_nat v) encTable__ 0.

Definition getValue__ (a : Z) : Z :=
  if (48 <=? a) && (a <=? 57) then a - 48
  else if (65 <=? a) && (a <=? 86) then a - 65 + 10
  else -1.

(** ** Encoding

    One iteration of the loop per unit of [fuel]; [data] is what is left to read
    ([&data[rpos]]), [room] is [out_size - wpos]. *)
Fixpoint enc_loop (fuel : nat) (size : nat) (data : list Z) (bits vbit : Z)
  (room : nat) : outcome (option (list Z)) :=
  match fuel with
  | O => Undefined
  | S fuel' =>
      match data, (0 <? vbit) with
      | [], false => Ret (if (room =? 0)%nat then Some [] else None)
      | _, _ =>
          let '(data1, bits1, vbit1) :=
            match data with
            | d :: data' =>
                if vbit <? 5
                then (data', Z.lor (u32 (Z.shiftl bits 8)) d, vbit + 8)
                else (data, bits, vbit)
            | [] => (data, bits, vbit)
            end in
          '(bits2, vbit2) ←
            (if vbit1 <? 5
             then _ ← gnunet_assert (vbit1 =? (Z.of_nat size * 8) mod 5);
                  Ret (u32 (Z.shiftl bits1 (5 - vbit1)), 5)
             else Ret (bits1, vbit1));
          match room with
          | O => Ret None
          | S room' =>
              let c := enc_char (Z.land (Z.shiftr bits2 (vbit2 - 5)) 31) in
              r ← enc_loop fuel' size data1 bits2 (vbit2 - 5) room';
              Ret (match r with Some l => Some (c :: l) | None => None end)
          end
      end
  end.

Definition GNUNET_STRINGS_data_to_string (data : list Z) (out_size : nat)
  : outcome (option (list Z)) :=
  let size := length data in
  if Z.of_nat out_size <? (Z.of_nat size * 8 + (Z.of_nat size * 8) mod 5) mod 5
  then Ret None
  else enc_loop (2 * size + 1) size data 0 0 out_size.

(** ** Decoding

    The text is read from its end: [renc] is the part not read yet, last
    character first, and [wpos] the number of bytes still to write. *)
Fixpoint dec_loop (renc : list Z) (wpos : nat) (bits vbit : Z) (out : list Z)
  : outcome (option (list Z)) :=
  match wpos with
  | O =>
      _ ← gnunet_assert (length renc =? 0)%nat;
      _ ← gnunet_assert (vbit =? 0);
      Ret (Some out)
  | S wpos' =>
      match renc with
      | [] => AssertFailed
      | c :: renc' =>
          let ret := getValue__ c in
          let bits1 := u32 (Z.lor (Z.shiftl ret vbit) bits) in
          if ret =? -1 then Ret None
          else
            let vbit1 := vbit + 5 in
            if 8 <=? vbit1
            then dec_loop renc' wpos' (Z.shiftr bits1 8) (vbit1 - 8) (u8 bits1 :: out)
            else dec_loop renc' wpos bits1 vbit1 out
      end
  end.

(** [encoded_len] is an [int]: [out_size * 8] wraps around for buffers of 2^28
    bytes and more.  [enc[--rpos]] of an empty text is outside of the buffer. *)
Definition GNUNET_STRINGS_string_to_data (enc : list Z) (out_size : nat)
  : outcome (option (list Z)) :=
  let encoded_len := s32 (Z.of_nat out_size * 8) in
  let vbit := if 0 <? Z.rem encoded_len 5 then Z.rem encoded_len 5 else 0 in
  let shift := if 0 <? Z.rem encoded_len 5 then 5 - vbit else 0 in
  if negb (u64 (Z.quot (encoded_len + shift) 5) =? Z.of_nat (length enc)) then Ret None
  else
    match rev enc with
    | [] => Undefined
    | c :: renc =>
        let ret := getValue__ c in
        let bits := u32 (Z.shiftr ret (5 - Z.rem encoded_len 5)) in
        if ret =? -1 then Ret None
        else dec_loop renc out_size bits vbit []
    end.

(** Sizes for which [encoded_len] does not wrap around. *)
Definition fits_int (n : nat) : Prop := Z.of_nat n * 8 < 2 ^ 31.

Example base32_abc :
  GNUNET_STRINGS_data_to_string [97; 98; 99] 5 = Ret (Some [67; 53; 72; 54; 54]).
Proof. reflexivity. Qed.

(** ** Reference: digits of a number in base 32, most significant first *)

Fixpoint digits (k : nat) (X : Z) : list Z :=
  match k with
  | O => []
  | S k' => (X / 32 ^ Z.of_nat k') mod 32 :: digits k' X
  end.

Lemma length_digits k X : length (digits k X) = k.
Proof. induction k; simpl; congruence. Qed.

Lemma digits_congr k X m : digits k (X + m * 32 ^ Z.of_nat k) = digits k X.
Proof.
  revert m. induction k as [|k IH]; intros m; [ done | ]. cbn [digits].
  replace (32 ^ Z.of_nat (S k)) with (32 * 32 ^ Z.of_nat k)
    by (rewrite Nat2Z.inj_succ, Z.pow_succ_r; lia).
  replace (m * (32 * 32 ^ Z.of_nat k)) with (m * 32 * 32 ^ Z.of_nat k) by ring.
  rewrite IH. f_equal. rewrite Z.div_add by lia. apply Z.mod_add. lia.
Qed.

(** The digits of a number from its top digit and the rest. *)
Lemma digits_cons k t X :
  0 <= t < 32 -> 0 <= X < 32 ^ Z.of_nat k ->
  digits (S k) (t * 32 ^ Z.of_nat k + X) = t :: digits k X.
Proof.
  intros Ht HX. cbn [digits]. rewrite Z.div_add_l, (Z.div_small X), Z.add_0_r by lia.
  rewrite Z.mod_small by lia. f_equal.
  rewrite Z.add_comm. apply digits_congr.
Qed.

Lemma enc_char_value v : 0 <= v < 32 -> getValue__ (enc_char v) = v /\ is_u8 (enc_char v).
Proof.
  intros Hv.
  assert (Hall : Forall (fun n => getValue__ (enc_char (Z.of_nat n)) = Z.of_nat n /\
                                  is_u8 (enc_char (Z.of_nat n))) (seq 0 32)).
  { repeat (apply List.Forall_cons; [ split; [ reflexivity | vm_compute; split; congruence ] | ]).
    constructor. }
  rewrite Forall_forall in Hall. specialize (Hall (Z.to_nat v)).
  rewrite Z2Nat.id in Hall by lia. apply Hall, in_seq. lia.
Qed.

(** ** Encoding *)

Section Encoding.
Context (size : nat).

(** What is left to encode: the [vbit] low bits of [bits], then the bytes. *)
Definition pending (bits vbit : Z) (data : list Z) : Z :=
  bits mod 2 ^ vbit * 2 ^ (8 * Z.of_nat (length data)) + be_decode data.

(** Emitting one character when at least five bits are there. *)
Lemma emit_digit bits vbit data k pad :
  5 <= vbit -> is_bytes data -> 0 <= pad ->
  vbit + 8 * Z.of_nat (length data) + pad = 5 * Z.of_nat (S k) ->
  digits (S k) (pending bits vbit data * 2 ^ pad)
  = Z.land (Z.shiftr bits (vbit - 5)) 31
    :: digits k (pending bits (vbit - 5) data * 2 ^ pad).
Proof.
  intros Hv Hd Hp Heq. unfold pending.
  set (r := 8 * Z.of_nat (length data)). set (B := bits mod 2 ^ vbit).
  pose proof (be_decode_range data Hd) as HD. fold r in HD.
  assert (H32 : 32 ^ Z.of_nat k = 2 ^ (vbit - 5) * (2 ^ r * 2 ^ pad)).
  { change 32 with (2 ^ 5). rewrite <- Z.pow_mul_r, <- !Z.pow_add_r by lia.
    f_equal. lia. }
  assert (HB : B = Z.land (Z.shiftr bits (vbit - 5)) 31 * 2 ^ (vbit - 5)
                   + bits mod 2 ^ (vbit - 5)).
  { unfold B. change 31 with (Z.ones 5).
    rewrite Z.land_ones, Z.shiftr_div_pow2 by lia.
    replace (2 ^ vbit) with (2 ^ (vbit - 5) * 2 ^ 5)
      by (rewrite <- Z.pow_add_r by lia; f_equal; lia).
    rewrite Z.rem_mul_r by lia. lia. }
  set (t := Z.land (Z.shiftr bits (vbit - 5)) 31) in *.
  assert (Ht : 0 <= t < 32).
  { unfold t. change 31 with (Z.ones 5). rewrite Z.land_ones by lia.
    apply Z.mod_pos_bound. lia. }
  assert (Hlow : 0 <= bits mod 2 ^ (vbit - 5) < 2 ^ (vbit - 5))
    by (apply Z.mod_pos_bound; lia).
  set (b := bits mod 2 ^ (vbit - 5)) in *. set (D := be_decode data) in *.
  replace ((B * 2 ^ r + D) * 2 ^ pad)
    with (t * 32 ^ Z.of_nat k + (b * 2 ^ r + D) * 2 ^ pad)
    by (rewrite H32, HB; ring).
  apply digits_cons; [ done | ]. rewrite H32.
  assert (0 < 2 ^ pad) by lia. assert (0 <= b * 2 ^ r) by nia.
  assert (b * 2 ^ r + D < 2 ^ (vbit - 5) * 2 ^ r) by nia. split; nia.
Qed.

(** Reading one more byte. *)
Lemma eat_byte bits vbit d data :
  0 <= vbit <= 24 -> is_u8 d ->
  pending (Z.lor (u32 (Z.shiftl bits 8)) d) (vbit + 8) data
  = pending bits vbit (d :: data).
Proof.
  intros Hv Hd. unfold pending. cbn [be_decode length].
  assert (Hb : Z.lor (u32 (Z.shiftl bits 8)) d mod 2 ^ (vbit + 8)
               = bits mod 2 ^ vbit * 2 ^ 8 + d).
  { unfold u32. rewrite Z.shiftl_mul_pow2 by lia.
    change 32 with (24 + 8). rewrite mul_pow2_mod by lia.
    rewrite <- Z.shiftl_mul_pow2, lor_add_shift by (lia || exact Hd).
    unfold is_u8 in Hd.
    rewrite Z.pow_add_r by lia. rewrite (Z.mul_comm (2 ^ vbit)).
    rewrite Z.rem_mul_r by lia.
    rewrite (Z.add_comm _ d), Z.mod_add, Z.div_add, (Z.div_small d), (Z.mod_small d) by lia.
    rewrite Z.add_0_l, mod_mod_pow2 by lia. lia. }
  rewrite Hb. set (r := 8 * Z.of_nat (length data)).
  replace (8 * Z.of_nat (S (length data))) with (8 + r) by lia.
  rewrite Z.pow_add_r by lia. ring.
Qed.

Lemma enc_loop_ok fuel k data bits vbit pad :
  is_bytes data -> 0 <= vbit <= 7 -> 0 <= pad < 5 ->
  vbit + 8 * Z.of_nat (length data) + pad = 5 * Z.of_nat k ->
  (vbit + 8 * Z.of_nat (length data) - Z.of_nat size * 8) mod 5 = 0 ->
  (k < fuel)%nat ->
  enc_loop fuel size data bits vbit k
  = Ret (Some (enc_char <$> digits k (pending bits vbit data * 2 ^ pad))).
Proof.
  revert k data bits vbit pad.
  induction fuel as [|fuel IH]; intros k data bits vbit pad Hd Hv Hp Heq Hmod Hfuel; [ lia | ].
  cbn [enc_loop]. destruct k as [|k].
  { assert (data = [] /\ vbit = 0) as [-> ->]
      by (destruct data; [ split; [ done | simpl in Heq; lia ] | simpl in Heq; lia ]).
    reflexivity. }
  (* the emission of a digit after the register was filled *)
  assert (Hemit : forall data1 bits2 vbit2 pad1,
    is_bytes data1 -> 5 <= vbit2 <= 12 -> 0 <= pad1 < 5 ->
    vbit2 + 8 * Z.of_nat (length data1) + pad1 = 5 * Z.of_nat (S k) ->
    (vbit2 + 8 * Z.of_nat (length data1) - Z.of_nat size * 8) mod 5 = 0 ->
    (r ← enc_loop fuel size data1 bits2 (vbit2 - 5) k;
     Ret (match r with
          | Some l => Some (enc_char (Z.land (Z.shiftr bits2 (vbit2 - 5)) 31) :: l)
          | None => None
          end))
    = Ret (Some (enc_char <$> digits (S k) (pending bits2 vbit2 data1 * 2 ^ pad1)))).
  { intros data1 bits2 vbit2 pad1 Hd1 Hv2 Hp1 Heq1 Hmod1.
    rewrite (IH k data1 bits2 (vbit2 - 5) pad1); try done; try lia.
    - cbn [mbind outcome_bind]. rewrite emit_digit by (done || lia). done.
    - rewrite <- Hmod1.
      replace (vbit2 + 8 * Z.of_nat (length data1) - Z.of_nat size * 8)
        with (vbit2 - 5 + 8 * Z.of_nat (length data1) - Z.of_nat size * 8 + 1 * 5) by lia.
      by rewrite Z.mod_add by lia. }
  destruct data as [|d data].
  - assert (Hv0 : (0 <? vbit) = true) by (simpl in Heq; lia). rewrite Hv0.
    destruct (vbit <? 5) eqn:E5.
    + simpl length in *.
      assert (Hs : vbit = (Z.of_nat size * 8) mod 5).
      { rewrite <- (Z.mod_small vbit 5) by lia.
        apply Z.mod_divide in Hmod as [q Hq]; [ | lia ].
        replace vbit with (Z.of_nat size * 8 + q * 5) by lia. by rewrite Z.mod_add by lia. }
      rewrite (proj2 (Z.eqb_eq _ _) Hs). cbn [gnunet_assert mbind outcome_bind].
      assert (k = 0%nat /\ pad = 5 - vbit) as [-> ->] by lia.
      destruct fuel as [|fuel]; [ lia | ].
      change (5 - 5) with 0. rewrite Z.shiftr_0_r.
      assert (Hend : forall b, enc_loop (S fuel) size [] b 0 0 = Ret (Some []))
        by reflexivity.
      rewrite Hend. cbn [mbind outcome_bind digits fmap list_fmap]. do 4 f_equal. unfold pending, u32. cbn [be_decode length].
      rewrite Z.shiftl_mul_pow2 by lia. change (8 * Z.of_nat 0) with 0.
      rewrite Z.mul_1_r, Z.add_0_r. change 31 with (Z.ones 5). rewrite Z.land_ones by lia.
      change (32 ^ Z.of_nat 0) with 1. rewrite mod_mod_pow2, Z.div_1_r by lia.
      replace (2 ^ 5) with (2 ^ (vbit + (5 - vbit))) by (f_equal; lia).
      rewrite mul_pow2_mod by lia. change 32 with (2 ^ 5).
      rewrite (Z.mod_small (_ * _)); [ done | ].
      pose proof (Z.mod_pos_bound bits (2 ^ vbit) ltac:(lia)).
      assert (2 ^ 5 = 2 ^ vbit * 2 ^ (5 - vbit)) as ->
        by (rewrite <- Z.pow_add_r by lia; f_equal; lia).
      nia.
    + cbn [mbind outcome_bind]. apply Hemit; try done. lia.
  - apply is_bytes_cons in Hd as [Hd0 Hd].
    assert (Hlen : 8 * Z.of_nat (length (d :: data)) = 8 + 8 * Z.of_nat (length data))
      by (cbn [length]; lia). rewrite Hlen in Heq, Hmod.
    destruct (vbit <? 5) eqn:E5.
    + destruct (vbit + 8 <? 5) eqn:E6; [ lia | ]. cbn [mbind outcome_bind].
      rewrite <- eat_byte by (done || lia). apply Hemit; try done; try lia.
      rewrite <- Hmod. f_equal; lia.
    + rewrite E5. cbn [mbind outcome_bind]. apply Hemit; try lia.
      * by apply is_bytes_cons.
      * rewrite Hlen, <- Hmod. f_equal; lia.
Qed.
End Encoding.

(** ** Decoding *)

(** The number written by characters, least significant first. *)
Fixpoint val32 (renc : list Z) : Z :=
  match renc with
  | [] => 0
  | c :: renc' => getValue__ c + 32 * val32 renc'
  end.

Definition valid_char (c : Z) : bool := negb (getValue__ c =? -1).

Lemma valid_char_range c : valid_char c = true -> 0 <= getValue__ c < 32.
Proof. unfold valid_char, getValue__. repeat case_match; lia. Qed.

(** One more character in the register. *)
Lemma or_char bits vbit v :
  0 <= v < 32 -> 0 <= vbit < 8 -> 0 <= bits < 2 ^ vbit ->
  u32 (Z.lor (Z.shiftl v vbit) bits) = v * 2 ^ vbit + bits /\
  v * 2 ^ vbit + bits < 2 ^ (vbit + 5).
Proof.
  intros Hv Hb Hbits. rewrite lor_add_shift by lia.
  assert (Hp : 2 ^ (vbit + 5) = 2 ^ vbit * 32) by (rewrite Z.pow_add_r by lia; reflexivity).
  assert (2 ^ (vbit + 5) <= 2 ^ 32) by (apply Z.pow_le_mono_r; lia).
  assert (Hlt : v * 2 ^ vbit + bits < 2 ^ (vbit + 5)) by nia.
  split; [ | done ]. apply u32_small. unfold is_u32. nia.
Qed.

(** When the text has exactly the bits that the output needs. *)
Lemma dec_loop_spec renc wpos bits vbit out :
  0 <= vbit < 8 -> 0 <= bits < 2 ^ vbit ->
  vbit + 5 * Z.of_nat (length renc) = 8 * Z.of_nat wpos ->
  dec_loop renc wpos bits vbit out
  = Ret (if forallb valid_char renc
         then Some (be_encode wpos (bits + 2 ^ vbit * val32 renc) ++ out)
         else None).
Proof.
  revert wpos bits vbit out.
  induction renc as [|c renc IH]; intros wpos bits vbit out Hv Hb Heq.
  { assert (wpos = 0%nat /\ vbit = 0) as [-> ->] by (simpl in Heq; lia). reflexivity. }
  destruct wpos as [|wpos]; [ cbn [length] in Heq; lia | ].
  cbn [dec_loop forallb]. unfold valid_char at 1.
  destruct (getValue__ c =? -1) eqn:Ec; [ reflexivity | ]. cbn [negb andb].
  assert (Hr : 0 <= getValue__ c < 32)
    by (apply valid_char_range; unfold valid_char; by rewrite Ec).
  destruct (or_char bits vbit (getValue__ c) Hr Hv Hb) as [-> Hlt].
  set (b1 := getValue__ c * 2 ^ vbit + bits) in *.
  assert (Hnum : bits + 2 ^ vbit * val32 (c :: renc) = b1 + 2 ^ (vbit + 5) * val32 renc).
  { cbn [val32]. unfold b1. rewrite Z.pow_add_r by lia. change (2 ^ 5) with 32. ring. }
  rewrite Hnum. cbn [length] in Heq. assert (0 <= b1) by (unfold b1; nia).
  destruct (8 <=? vbit + 5) eqn:E8.
  - rewrite IH; [ | lia | | lia ].
    + destruct (forallb valid_char renc); [ | done ]. do 2 f_equal.
      replace (S wpos) with (wpos + 1)%nat by lia. rewrite be_encode_app, <- app_assoc.
      change (8 * Z.of_nat 1) with 8. rewrite Z.shiftr_div_pow2 by lia.
      replace (2 ^ (vbit + 5)) with (2 ^ (vbit + 5 - 8) * 2 ^ 8)
        by (rewrite <- Z.pow_add_r by lia; f_equal; lia).
      replace (b1 + 2 ^ (vbit + 5 - 8) * 2 ^ 8 * val32 renc)
        with (b1 + 2 ^ (vbit + 5 - 8) * val32 renc * 2 ^ 8) by ring.
      rewrite Z.div_add by lia. f_equal. cbn [be_encode app]. f_equal.
      change (8 * Z.of_nat 0) with 0. rewrite Z.shiftr_0_r. unfold u8.
      by rewrite Z.mod_add by lia.
    + rewrite Z.shiftr_div_pow2 by lia. split; [ apply Z.div_pos; lia | ].
      apply Z.div_lt_upper_bound; [ lia | ].
      rewrite <- Z.pow_add_r by lia. by replace (8 + (vbit + 5 - 8)) with (vbit + 5) by lia.
  - rewrite IH by lia. done.
Qed.

(** When the text is too short, an assertion stops the process. *)
Lemma dec_loop_short renc wpos bits vbit out :
  0 <= vbit < 8 -> 0 <= bits < 2 ^ vbit -> forallb valid_char renc = true ->
  vbit + 5 * Z.of_nat (length renc) < 8 * Z.of_nat wpos ->
  dec_loop renc wpos bits vbit out = AssertFailed.
Proof.
  revert wpos bits vbit out.
  induction renc as [|c renc IH]; intros wpos bits vbit out Hv Hb Hc Hlt.
  { destruct wpos; [ simpl in Hlt; lia | reflexivity ]. }
  destruct wpos as [|wpos]; [ cbn [length] in Hlt; lia | ].
  cbn [forallb] in Hc. apply andb_true_iff in Hc as [Hc Hcs].
  pose proof (valid_char_range c Hc) as Hr. cbn [dec_loop length] in *.
  destruct (getValue__ c =? -1) eqn:Ec; [ lia | ].
  destruct (or_char bits vbit (getValue__ c) Hr Hv Hb) as [-> Hlt1].
  assert (0 <= getValue__ c * 2 ^ vbit + bits) by nia.
  destruct (8 <=? vbit + 5) eqn:E8; apply IH; try done; try lia.
  rewrite Z.shiftr_div_pow2 by lia. split; [ apply Z.div_pos; lia | ].
  apply Z.div_lt_upper_bound; [ lia | ].
  rewrite <- Z.pow_add_r by lia. by replace (8 + (vbit + 5 - 8)) with (vbit + 5) by lia.
Qed.

(** The length of the text for [n] bytes, as the comment of
    [GNUNET_STRINGS_data_to_string] gives it. *)
Definition padding (n : nat) : Z :=
  if 0 <? (Z.of_nat n * 8) mod 5 then 5 - (Z.of_nat n * 8) mod 5 else 0.
Definition encoded_length (n : nat) : nat := Z.to_nat ((Z.of_nat n * 8 + padding n) / 5).

Lemma encoded_length_spec n :
  0 <= padding n < 5 /\ Z.of_nat n * 8 + padding n = 5 * Z.of_nat (encoded_length n).
Proof.
  unfold encoded_length, padding.
  pose proof (Z.mod_pos_bound (Z.of_nat n * 8) 5 ltac:(lia)) as Hm.
  pose proof (Z.div_mod (Z.of_nat n * 8) 5 ltac:(lia)) as Hd.
  set (q := Z.of_nat n * 8 / 5) in *. set (m := (Z.of_nat n * 8) mod 5) in *.
  assert (0 <= q) by lia.
  destruct (0 <? m) eqn:E; (split; [ lia | ]).
  - replace (Z.of_nat n * 8 + (5 - m)) with ((q + 1) * 5) by lia.
    rewrite Z.div_mul by lia. lia.
  - replace (Z.of_nat n * 8 + 0) with (q * 5) by lia. rewrite Z.div_mul by lia. lia.
Qed.

(** The first test of the encoder never fails for such a buffer. *)
Lemma encoded_length_guard n :
  (Z.of_nat (encoded_length n) <? (Z.of_nat n * 8 + (Z.of_nat n * 8) mod 5) mod 5)
  = false.
Proof.
  destruct (encoded_length_spec n) as [Hp Heq].
  pose proof (Z.mod_pos_bound (Z.of_nat n * 8 + (Z.of_nat n * 8) mod 5) 5 ltac:(lia)).
  destruct n as [|[|[|n']]]; [ reflexivity.. | ]. apply Z.ltb_ge. lia.
Qed.

(** *** The encoder is total on a buffer of the documented size *)
Lemma data_to_string_ok data :
  is_bytes data ->
  GNUNET_STRINGS_data_to_string data (encoded_length (length data))
  = Ret (Some (enc_char <$> digits (encoded_length (length data))
                              (be_decode data * 2 ^ padding (length data)))).
Proof.
  intros Hd. set (n := length data).
  destruct (encoded_length_spec n) as [Hp Heq].
  unfold GNUNET_STRINGS_data_to_string. fold n.
  rewrite encoded_length_guard.
  rewrite (enc_loop_ok n _ _ data 0 0 (padding n)); try done; try lia.
  rewrite Z.add_0_l. unfold n. by rewrite (Z.mul_comm 8), Z.sub_diag.
Qed.

Lemma val32_app l1 l2 : val32 (l1 ++ l2) = val32 l1 + 32 ^ Z.of_nat (length l1) * val32 l2.
Proof.
  induction l1 as [|c l1 IH]; cbn [val32 app length].
  - change (32 ^ Z.of_nat 0) with 1. lia.
  - rewrite IH, Nat2Z.inj_succ, Z.pow_succ_r by lia. ring.
Qed.

Lemma val32_digits k X :
  0 <= X < 32 ^ Z.of_nat k ->
  val32 (rev (enc_char <$> digits k X)) = X /\
  forallb valid_char (rev (enc_char <$> digits k X)) = true.
Proof.
  revert X. induction k as [|k IH]; intros X HX.
  { change (32 ^ Z.of_nat 0) with 1 in HX. simpl. split; [ lia | done ]. }
  rewrite Nat2Z.inj_succ, Z.pow_succ_r in HX by lia.
  set (P := 32 ^ Z.of_nat k) in *. assert (0 < P) by (unfold P; lia).
  assert (Ht : 0 <= X / P < 32)
    by (split; [ apply Z.div_pos; lia | apply Z.div_lt_upper_bound; lia ]).
  assert (Hm : 0 <= X mod P < P) by (apply Z.mod_pos_bound; lia).
  assert (Hdig : digits (S k) X = X / P :: digits k (X mod P)).
  { rewrite <- (digits_cons k (X / P) (X mod P)) by done. f_equal. fold P.
    rewrite Z.mul_comm. apply Z.div_mod. lia. }
  destruct (IH (X mod P) Hm) as [IHv IHc].
  destruct (enc_char_value (X / P) Ht) as [Hval _].
  rewrite Hdig, fmap_cons. cbn [rev]. split.
  - rewrite val32_app, IHv, length_rev, length_fmap, length_digits. cbn [val32].
    fold P. rewrite Hval. pose proof (Z.div_mod X P ltac:(lia)). lia.
  - rewrite forallb_app, IHc. cbn [forallb]. unfold valid_char. rewrite Hval.
    destruct (X / P =? -1) eqn:E; [ lia | done ].
Qed.

(** Without wrap-around the decoder computes on non-negative numbers. *)
Lemma string_to_data_unfold enc n :
  fits_int n ->
  GNUNET_STRINGS_string_to_data enc n
  = if negb (encoded_length n =? length enc)%nat then Ret None
    else
      match rev enc with
      | [] => Undefined
      | c :: renc =>
          let e := (Z.of_nat n * 8) mod 5 in
          if getValue__ c =? -1 then Ret None
          else dec_loop renc n (u32 (Z.shiftr (getValue__ c) (5 - e)))
                 (if 0 <? e then e else 0) []
      end.
Proof.
  unfold fits_int. intros Hn. destruct (encoded_length_spec n) as [Hp Heq].
  unfold GNUNET_STRINGS_string_to_data.
  rewrite s32_small, Z.rem_mod_nonneg by lia. cbv zeta.
  replace (if 0 <? (Z.of_nat n * 8) mod 5
           then 5 - (if 0 <? (Z.of_nat n * 8) mod 5 then (Z.of_nat n * 8) mod 5 else 0)
           else 0) with (padding n)
    by (unfold padding; by destruct (0 <? _)).
  rewrite Heq, Z.mul_comm, Z.quot_mul, u64_small by int_lia.
  destruct (Z.eqb_spec (Z.of_nat (encoded_length n)) (Z.of_nat (length enc))) as [E|E].
  - by replace (encoded_length n =? length enc)%nat with true by (symmetry; apply Nat.eqb_eq; lia).
  - by replace (encoded_length n =? length enc)%nat with false by (symmetry; apply Nat.eqb_neq; lia).
Qed.

Lemma string_to_data_spec enc n :
  (0 < n)%nat -> fits_int n -> (Z.of_nat n * 8) mod 5 <> 0 ->
  GNUNET_STRINGS_string_to_data enc n
  = Ret (if (length enc =? encoded_length n)%nat && forallb valid_char enc
         then Some (be_encode n (val32 (rev enc) / 2 ^ padding n)) else None).
Proof.
  intros Hn Hint Hmod. destruct (encoded_length_spec n) as [Hp Heq].
  rewrite string_to_data_unfold by done. cbv zeta.
  pose proof (Z.mod_pos_bound (Z.of_nat n * 8) 5 ltac:(lia)) as Hm.
  assert (Hpad : padding n = 5 - (Z.of_nat n * 8) mod 5).
  { unfold padding. destruct (0 <? _) eqn:E; lia. }
  rewrite Nat.eqb_sym. destruct (length enc =? encoded_length n)%nat eqn:El; [ | done ].
  apply Nat.eqb_eq in El. cbn [negb andb].
  assert (Hrev : forallb valid_char enc = forallb valid_char (rev enc)).
  { clear. induction enc as [|c enc IH]; [ done | ]. cbn [rev forallb].
    rewrite forallb_app, <- IH. cbn [forallb]. by rewrite andb_true_r, andb_comm. }
  rewrite Hrev. assert (Hlen : length (rev enc) = encoded_length n) by (by rewrite length_rev).
  destruct (rev enc) as [|c renc]; [ cbn [length] in Hlen; lia | ].
  cbn [forallb val32 length] in *. unfold valid_char at 1.
  destruct (0 <? (Z.of_nat n * 8) mod 5) eqn:E0; [ | lia ].
  destruct (getValue__ c =? -1) eqn:Ec; [ done | ]. cbn [negb andb].
  assert (Hr : 0 <= getValue__ c < 32)
    by (apply valid_char_range; unfold valid_char; by rewrite Ec).
  rewrite <- Hpad. set (e := (Z.of_nat n * 8) mod 5) in *.
  rewrite Z.shiftr_div_pow2 by lia.
  assert (H32 : 2 ^ padding n * 2 ^ e = 32)
    by (rewrite <- Z.pow_add_r by lia; replace (padding n + e) with 5 by lia; reflexivity).
  assert (Hq : 0 <= getValue__ c / 2 ^ padding n < 2 ^ e).
  { split; [ apply Z.div_pos; lia | ]. apply Z.div_lt_upper_bound; lia. }
  rewrite u32_small.
  2:{ unfold is_u32. assert (2 ^ e <= 2 ^ 32) by (apply Z.pow_le_mono_r; lia). lia. }
  rewrite dec_loop_spec by lia. rewrite app_nil_r.
  destruct (forallb valid_char renc); [ | done ]. do 3 f_equal.
  replace (32 * val32 renc) with (2 ^ e * val32 renc * 2 ^ padding n)
    by (rewrite <- H32; ring).
  by rewrite Z.div_add by lia.
Qed.

(** The number that the encoder writes fits its characters. *)
Lemma encoded_number_range data :
  is_bytes data ->
  0 <= be_decode data * 2 ^ padding (length data)
    < 32 ^ Z.of_nat (encoded_length (length data)).
Proof.
  intros Hd. destruct (encoded_length_spec (length data)) as [Hp Heq].
  pose proof (be_decode_range data Hd) as Hr.
  assert (32 ^ Z.of_nat (encoded_length (length data))
          = 2 ^ (8 * Z.of_nat (length data)) * 2 ^ padding (length data)) as ->.
  { change 32 with (2 ^ 5). rewrite <- Z.pow_mul_r, <- Z.pow_add_r by lia. f_equal. lia. }
  assert (0 < 2 ^ padding (length data)) by lia. nia.
Qed.

(** The encoding of a block of bytes, and its decoding. *)
Lemma block_encoding data :
  is_bytes data -> fits_int (length data) -> (length data mod 5 <> 0)%nat ->
  exists enc, GNUNET_STRINGS_data_to_string data (encoded_length (length data)) = Ret (Some enc)
    /\ length enc = encoded_length (length data) /\ Forall (fun c => getValue__ c <> -1) enc
    /\ GNUNET_STRINGS_string_to_data enc (length data) = Ret (Some data).
Proof.
  intros Hd Hint Hmod. rewrite data_to_string_ok by done. eexists. split; [ reflexivity | ].
  rewrite length_fmap, length_digits. split; [ done | ].
  assert (Hn : (0 < length data)%nat).
  { destruct (length data); [ done | lia ]. }
  assert (Hm8 : (Z.of_nat (length data) * 8) mod 5 <> 0).
  { intros H8. apply Hmod. apply Nat2Z.inj. rewrite Nat2Z.inj_mod. Z.div_mod_to_equations. lia. }
  destruct (val32_digits _ _ (encoded_number_range data Hd)) as [Hval Hc].
  assert (Hf : forallb valid_char (enc_char <$> digits (encoded_length (length data))
      (be_decode data * 2 ^ padding (length data))) = true).
  { apply forallb_forall. intros c Hin. rewrite forallb_forall in Hc.
    apply Hc. by apply in_rev in Hin. }
  split.
  - apply List.Forall_forall. intros c Hin. rewrite forallb_forall in Hf.
    specialize (Hf c Hin). unfold valid_char in Hf. lia.
  - rewrite string_to_data_spec by done.
    rewrite length_fmap, length_digits, Nat.eqb_refl, Hval, Hf. cbn [andb].
    rewrite Z.div_mul by (destruct (encoded_length_spec (length data)); lia).
    by rewrite be_encode_decode.
Qed.

(** Encoding bytes whose length is not a multiple of five (below the 2^28
    bytes at which an int in the decoder wraps around) and decoding the
    characters gives back the bytes, with the documented encoded length and no
    assertion failure. *)
Theorem base32_roundtrip (data : list Z) :
  is_bytes data -> fits_int (length data) -> (length data mod 5 <> 0)%nat ->
  exists enc,
    GNUNET_STRINGS_data_to_string data (encoded_length (length data))
    = Ret (Some enc) /\
    length enc = encoded_length (length data) /\
    GNUNET_STRINGS_string_to_data enc (length data) = Ret (Some data).
Proof.
  intros Hd Hint Hmod. destruct (block_encoding data Hd Hint Hmod) as (enc & H1 & H2 & _ & H3). eauto.
Qed.

(** Three bytes, five characters, and back. *)
Lemma base32_roundtrip_witness :
  exists enc,
    GNUNET_STRINGS_data_to_string [97; 98; 99] 5 = Ret (Some enc) /\
    length enc = 5%nat /\
    GNUNET_STRINGS_string_to_data enc 3 = Ret (Some [97; 98; 99]).
Proof.
  refine (base32_roundtrip [97; 98; 99] _ _ _).
  - repeat constructor; unfold is_u8; lia.
  - vm_compute. reflexivity.
  - vm_compute. discriminate.
Defined.

(** For output sizes below 2^28 that are not a multiple of five the
    decoder always returns; it reports an error exactly when the input has the
    wrong length or a character outside the alphabet, and otherwise fills the
    whole buffer with bytes. *)
Theorem base32_decode_errors (enc : list Z) (n : nat) :
  fits_int n -> (n mod 5 <> 0)%nat ->
  exists r, GNUNET_STRINGS_string_to_data enc n = Ret r /\
    (r = None <-> (length enc <> encoded_length n \/
                   Exists (fun c => getValue__ c = -1) enc)) /\
    (forall data, r = Some data -> length data = n /\ is_bytes data).
Proof.
  intros Hint Hmod. assert (Hn : (0 < n)%nat) by (destruct n; [ done | lia ]).
  assert (Hm8 : (Z.of_nat n * 8) mod 5 <> 0).
  { intros H8. apply Hmod. apply Nat2Z.inj. rewrite Nat2Z.inj_mod. Z.div_mod_to_equations. lia. }
  rewrite string_to_data_spec by done. eexists. split; [ reflexivity | ].
  assert (Hx : Exists (fun c => getValue__ c = -1) enc <-> forallb valid_char enc = false).
  { clear. induction enc as [|c enc IH]; cbn [forallb].
    - split; [ intros H; inversion H | done ].
    - rewrite Exists_cons, IH, andb_false_iff. unfold valid_char.
      destruct (getValue__ c =? -1) eqn:E; cbn [negb]; intuition (try lia; try discriminate). }
  rewrite Hx. destruct (length enc =? encoded_length n)%nat eqn:El; cbn [andb].
  - apply Nat.eqb_eq in El. destruct (forallb valid_char enc) eqn:Ef.
    + split; [ split; [ done | intros [?|?]; done ] | ].
      intros data [= <-]. split; [ apply length_be_encode | apply be_encode_bytes ].
    + split; [ split; [ auto | done ] | done ].
  - apply Nat.eqb_neq in El. split; [ split; [ auto | done ] | done ].
Qed.

Lemma base32_decode_errors_witness :
  exists r, GNUNET_STRINGS_string_to_data [48; 120; 48; 48; 48] 3 = Ret r /\
            (r = None <-> (5%nat <> encoded_length 3 \/
                           Exists (fun c => getValue__ c = -1) [48; 120; 48; 48; 48])).
Proof.
  destruct (base32_decode_errors [48; 120; 48; 48; 48] 3) as (r & Hr & He & _).
  - vm_compute. reflexivity.
  - vm_compute. discriminate.
  - exists r. split; [ exact Hr | exact He ].
Defined.

(** For every non-empty byte string whose length is a multiple of five
    (and below 2^28), the encoder succeeds but decoding its output runs out of
    characters and fails the assertion that some are left, which aborts the
    process. *)
Theorem base32_decode_aborts_on_multiples_of_five (data : list Z) :
  is_bytes data -> data <> [] -> fits_int (length data) -> (length data mod 5 = 0)%nat ->
  exists enc,
    GNUNET_STRINGS_data_to_string data (encoded_length (length data)) = Ret (Some enc) /\
    GNUNET_STRINGS_string_to_data enc (length data) = AssertFailed.
Proof.
  intros Hd Hne Hint Hmod. rewrite data_to_string_ok by done. eexists. split; [ reflexivity | ].
  destruct (val32_digits _ _ (encoded_number_range data Hd)) as [_ Hc].
  set (enc := enc_char <$> _) in *.
  assert (Hlen : length enc = encoded_length (length data))
    by (unfold enc; by rewrite length_fmap, length_digits).
  assert (Hm8 : (Z.of_nat (length data) * 8) mod 5 = 0).
  { apply (f_equal Z.of_nat) in Hmod. rewrite Nat2Z.inj_mod in Hmod.
    Z.div_mod_to_equations. lia. }
  destruct (encoded_length_spec (length data)) as [Hp Heq].
  assert (Hpad : padding (length data) = 0) by (unfold padding; by rewrite Hm8).
  assert (Hpos : (0 < length data)%nat) by (destruct data; [ done | simpl; lia ]).
  rewrite string_to_data_unfold by done. cbv zeta.
  rewrite Hlen, Nat.eqb_refl. cbn [negb].
  rewrite <- Hlen, <- (length_rev enc) in Heq.
  destruct (rev enc) as [|c renc]; [ cbn [length] in Heq; lia | ].
  cbn [forallb length] in *. apply andb_true_iff in Hc as [Hc Hcs].
  pose proof (valid_char_range c Hc) as Hr. rewrite Hm8.
  change (0 <? 0) with false. cbv iota. destruct (getValue__ c =? -1) eqn:Ec; [ lia | ].
  change (5 - 0) with 5. rewrite Z.shiftr_div_pow2, Z.div_small by lia.
  apply dec_loop_short; try done; lia.
Qed.

Lemma base32_decode_aborts_on_multiples_of_five_witness :
  exists enc,
    GNUNET_STRINGS_data_to_string [1; 2; 3; 4; 5] 8 = Ret (Some enc) /\
    GNUNET_STRINGS_string_to_data enc 5 = AssertFailed.
Proof.
  refine (base32_decode_aborts_on_multiples_of_five [1; 2; 3; 4; 5] _ _ _ _).
  - repeat constructor; unfold is_u8; lia.
  - discriminate.
  - vm_compute. reflexivity.
  - reflexivity.
Defined.
