(* ===== verification/Hash.v ===== *)
(** * Hash codes: [src/util/crypto_hash.c]

    A [struct GNUNET_HashCode] is its sixteen 32-bit words [bits[0..15]]; its bytes
    are the words in host (little-endian) order.  SHA-512 itself is the C library
    libgcrypt and a parameter where it is needed.  The theorems relate the word and
    bit loops to the number that the words write in base 2^32. *)

From Stdlib Require Import ZArith Lia.
From stdpp Require Import base list numbers.
From S2P Require Import Prelude Endian Crc Base32.
Local Open Scope Z_scope.

Definition GNUNET_HashCode : Type := list Z.

Definition is_hash (h : GNUNET_HashCode) : Prop := length h = 16%nat /\ Forall is_u32 h.

(** The 64 bytes of a hash code in memory. *)
Definition hash_bytes (h : GNUNET_HashCode) : list Z := flat_map (host_bytes 4) h.

(** The words in [n * 4] bytes in host order *)
Fixpoint hash_words (n : nat) (l : list Z) : GNUNET_HashCode :=
  match n with
  | O => []
  | S n' => be_decode (rev (take 4 l)) :: hash_words n' (drop 4 l)
  end.

(** ** Operations *)

Definition GNUNET_CRYPTO_hash_to_enc (block : GNUNET_HashCode)
  : outcome (list Z) :=
  r ← GNUNET_STRINGS_data_to_string (hash_bytes block) 103;
  match r with
  | Some np => Ret (np ++ [0])
  | None => AssertFailed
  end.

Definition GNUNET_CRYPTO_hash_distance_u32 (a b : GNUNET_HashCode) : Z :=
  let x1 := Z.shiftr (u32 (nth 1 a 0 - nth 1 b 0)) 16 in
  let x2 := Z.shiftr (u32 (nth 1 b 0 - nth 1 a 0)) 16 in
  u32 (x1 * x2).

(** [for (i = 15; i >= 0; i--) result->bits[i] = ...]: the words are independent,
    so the order of the loop does not matter. *)
Definition GNUNET_CRYPTO_hash_difference (a b : GNUNET_HashCode) : GNUNET_HashCode :=
  zip_with (fun x y => u32 (y - x)) a b.

Definition GNUNET_CRYPTO_hash_sum (a delta : GNUNET_HashCode) : GNUNET_HashCode :=
  zip_with (fun x y => u32 (y + x)) a delta.

Definition GNUNET_CRYPTO_hash_xor (a b : GNUNET_HashCode) : GNUNET_HashCode :=
  zip_with Z.lxor a b.

(** [rnd k] is the [k]-th value that [GNUNET_CRYPTO_random_u32] returns; the loop
    fills the words from the last to the first. *)
Definition GNUNET_CRYPTO_hash_create_random (rnd : nat -> Z) : GNUNET_HashCode :=
  rev (rnd <$> seq 0 16).

Record GNUNET_CRYPTO_AesSessionKey := mk_skey { key : list Z; key_crc32 : Z }.

Definition GNUNET_CRYPTO_hash_to_aes_key (hc : GNUNET_HashCode)
  : GNUNET_CRYPTO_AesSessionKey * list Z :=
  let k := take 32 (hash_bytes hc) in
  (mk_skey k (htonl (GNUNET_CRYPTO_crc32_n k)), take 16 (drop 32 (hash_bytes hc))).

Definition GNUNET_CRYPTO_hash_get_bit (code : GNUNET_HashCode) (bit : Z) : outcome bool :=
  _ ← gnunet_assert (bit <? 8 * 64);
  Ret (0 <? Z.land (nth (Z.to_nat (Z.shiftr bit 3)) (hash_bytes code) 0)
                   (Z.shiftl 1 (Z.land bit 7))).

(** The loop [for (i = 0; i < 512; i++)], with [n] iterations left. *)
Fixpoint matching_loop (n : nat) (i : Z) (first second : GNUNET_HashCode) : outcome Z :=
  match n with
  | O => Ret (64 * 8)
  | S n' =>
      b1 ← GNUNET_CRYPTO_hash_get_bit first i;
      b2 ← GNUNET_CRYPTO_hash_get_bit second i;
      if negb (Bool.eqb b1 b2) then Ret i
      else matching_loop n' (i + 1) first second
  end.

Definition GNUNET_CRYPTO_hash_matching_bits (first second : GNUNET_HashCode) : outcome Z :=
  matching_loop 512 0 first second.

(** The loop [for (i = 15; i >= 0; i--)] over the words, last word first. *)
Fixpoint cmp_loop (w1 w2 : list Z) : Z :=
  match w1, w2 with
  | x1 :: w1', x2 :: w2' =>
      if x2 <? x1 then 1 else if x1 <? x2 then -1 else cmp_loop w1' w2'
  | _, _ => 0
  end.

Definition GNUNET_CRYPTO_hash_cmp (h1 h2 : GNUNET_HashCode) : Z :=
  cmp_loop (rev h1) (rev h2).

Fixpoint xorcmp_loop (w1 w2 wt : list Z) : Z :=
  match w1, w2, wt with
  | x1 :: w1', x2 :: w2', t :: wt' =>
      let d1 := Z.lxor x1 t in
      let d2 := Z.lxor x2 t in
      if d2 <? d1 then 1 else if d1 <? d2 then -1 else xorcmp_loop w1' w2' wt'
  | _, _, _ => 0
  end.

Definition GNUNET_CRYPTO_hash_xorcmp (h1 h2 target : GNUNET_HashCode) : Z :=
  xorcmp_loop (rev h1) (rev h2) (rev target).

(** ** Text *)

(** A NUL-terminated C string: the bytes before the NUL. *)
Fixpoint c_string (l : list Z) : list Z :=
  match l with
  | [] => []
  | c :: l' => if c =? 0 then [] else c :: c_string l'
  end.

(** [GNUNET_STRINGS_utf8_toupper] of [src/util/strings.c]: [u8_toupper] is the case
    mapping of libunistring, [output] the caller's buffer. *)
Definition GNUNET_STRINGS_utf8_toupper (u8_toupper : list Z -> list Z) (input output : list Z)
  : outcome (list Z) :=
  mem_write output 0 (u8_toupper (c_string input) ++ [0]).

(** [stack] holds the bytes of the stack frame from the start of the array [upper_enc] up to
    the next object: the [enclen] bytes of the array, and the padding behind it that the
    alignment of the frame leaves. A store behind them is undefined. *)
Definition GNUNET_CRYPTO_hash_from_string2 (u8_toupper : list Z -> list Z) (stack enc : list Z)
  (enclen : nat) : outcome (option (list Z)) :=
  upper_enc ← GNUNET_STRINGS_utf8_toupper u8_toupper enc stack;
  GNUNET_STRINGS_string_to_data (take enclen upper_enc) 64.

(** ** Short hash codes: eight words *)

Definition GNUNET_CRYPTO_ShortHashCode : Type := list Z.

Definition is_short_hash (h : GNUNET_CRYPTO_ShortHashCode) : Prop :=
  length h = 8%nat /\ Forall is_u32 h.

Definition GNUNET_CRYPTO_short_hash_double (sh : GNUNET_CRYPTO_ShortHashCode)
  : GNUNET_HashCode := take 8 sh ++ take 8 sh.

Definition GNUNET_CRYPTO_short_hash_from_truncation (dh : GNUNET_HashCode)
  : option GNUNET_CRYPTO_ShortHashCode :=
  if decide (take 8 dh = take 8 (drop 8 dh)) then Some (take 8 dh) else None.

Definition GNUNET_CRYPTO_short_hash_from_string2 (u8_toupper : list Z -> list Z)
  (stack enc : list Z) (enclen : nat) : outcome (option (list Z)) :=
  upper_enc ← GNUNET_STRINGS_utf8_toupper u8_toupper enc stack;
  GNUNET_STRINGS_string_to_data (take enclen upper_enc) 32.

Definition GNUNET_CRYPTO_short_hash_to_enc (block : GNUNET_CRYPTO_ShortHashCode)
  : outcome (list Z) :=
  r ← GNUNET_STRINGS_data_to_string (hash_bytes block) 52;
  match r with
  | Some np => Ret (np ++ [0])
  | None => AssertFailed
  end.

Definition GNUNET_CRYPTO_short_hash_cmp (h1 h2 : GNUNET_CRYPTO_ShortHashCode) : Z :=
  cmp_loop (rev h1) (rev h2).

(** ** The number of a hash code *)

(** Words, least significant first, in base 2^32. *)
Fixpoint hash_val (h : GNUNET_HashCode) : Z :=
  match h with
  | [] => 0
  | w :: h' => w + 2 ^ 32 * hash_val h'
  end.

Definition sign_of (c : comparison) : Z :=
  match c with Gt => 1 | Lt => -1 | Eq => 0 end.

Lemma hash_val_app h1 h2 :
  hash_val (h1 ++ h2) = hash_val h1 + 2 ^ (32 * Z.of_nat (length h1)) * hash_val h2.
Proof.
  induction h1 as [|w h1 IH]; cbn [hash_val app length].
  - change (2 ^ (32 * Z.of_nat 0)) with 1. lia.
  - rewrite IH. replace (32 * Z.of_nat (S (length h1))) with (32 + 32 * Z.of_nat (length h1))
      by lia. rewrite Z.pow_add_r by lia. ring.
Qed.

Lemma hash_val_range h :
  Forall is_u32 h -> 0 <= hash_val h < 2 ^ (32 * Z.of_nat (length h)).
Proof.
  induction 1 as [|w h Hw Hh IH]; cbn [hash_val length]; [ simpl; lia | ].
  replace (32 * Z.of_nat (S (length h))) with (32 + 32 * Z.of_nat (length h)) by lia.
  rewrite Z.pow_add_r by lia. unfold is_u32 in Hw. nia.
Qed.

Lemma hash_val_inj h1 h2 :
  Forall is_u32 h1 -> Forall is_u32 h2 -> length h1 = length h2 ->
  hash_val h1 = hash_val h2 -> h1 = h2.
Proof.
  intros H1. revert h2. induction H1 as [|w h1 Hw H1 IH]; intros [|w2 h2] H2 Hlen Hv;
    try done. apply Forall_cons_iff in H2 as [Hw2 H2]. cbn [hash_val] in Hv.
  pose proof (hash_val_range h1 H1). pose proof (hash_val_range h2 H2).
  unfold is_u32 in *. assert (w = w2 /\ hash_val h1 = hash_val h2) as [-> Hv'] by lia.
  f_equal. apply IH; auto.
Qed.

(** The comparison loop decides the order of the numbers; the words are given last
    first. *)
Lemma cmp_loop_compare w1 w2 :
  Forall is_u32 w1 -> Forall is_u32 w2 -> length w1 = length w2 ->
  cmp_loop w1 w2 = sign_of (hash_val (rev w1) ?= hash_val (rev w2)).
Proof.
  intros H1. revert w2. induction H1 as [|x1 w1 Hx1 H1 IH]; intros [|x2 w2] H2 Hlen;
    try done. apply Forall_cons_iff in H2 as [Hx2 H2]. injection Hlen as Hlen.
  cbn [cmp_loop rev]. rewrite !hash_val_app, !length_rev, <- Hlen. cbn [hash_val].
  assert (Hr1 : 0 <= hash_val (rev w1) < 2 ^ (32 * Z.of_nat (length w1))).
  { rewrite <- (length_rev w1). apply hash_val_range. by apply Forall_rev. }
  assert (Hr2 : 0 <= hash_val (rev w2) < 2 ^ (32 * Z.of_nat (length w1))).
  { rewrite Hlen, <- (length_rev w2). apply hash_val_range. by apply Forall_rev. }
  set (P := 2 ^ (32 * Z.of_nat (length w1))) in *.
  destruct (x2 <? x1) eqn:E1.
  - rewrite (proj2 (Z.compare_gt_iff _ _)); [ done | nia ].
  - destruct (x1 <? x2) eqn:E2.
    + rewrite (proj2 (Z.compare_lt_iff _ _)); [ done | nia ].
    + assert (x1 = x2) as -> by lia. rewrite (IH w2 H2 Hlen).
      f_equal. destruct (Z.compare_spec (hash_val (rev w1)) (hash_val (rev w2)));
        symmetry; [ apply Z.compare_eq_iff | apply Z.compare_lt_iff | apply Z.compare_gt_iff ];
        lia.
Qed.

Lemma xorcmp_loop_cmp w1 w2 wt :
  length w1 = length wt -> length w2 = length wt ->
  xorcmp_loop w1 w2 wt = cmp_loop (zip_with Z.lxor w1 wt) (zip_with Z.lxor w2 wt).
Proof.
  revert w2 wt. induction w1 as [|x1 w1 IH]; intros [|x2 w2] [|t wt] H1 H2; try done.
  cbn [xorcmp_loop zip_with cmp_loop]. repeat case_match; try done. by apply IH; auto.
Qed.

Lemma Forall_zip_lxor a b :
  Forall is_u32 a -> Forall is_u32 b -> Forall is_u32 (zip_with Z.lxor a b).
Proof.
  intros Ha. revert b. induction Ha as [|x a Hx Ha IH]; intros [|y b] Hb; cbn [zip_with];
    try constructor; apply Forall_cons_iff in Hb as [Hy Hb]; [ by apply lxor_u32 | auto ].
Qed.

(** A word and the rest of the number have no bit in common. *)
Lemma testbit_word w X i :
  is_u32 w -> 0 <= i ->
  Z.testbit (w + 2 ^ 32 * X) i = if i <? 32 then Z.testbit w i else Z.testbit X (i - 32).
Proof.
  intros Hw Hi. unfold is_u32 in Hw.
  replace (w + 2 ^ 32 * X) with (Z.lor (Z.shiftl X 32) w)
    by (rewrite lor_add_shift; lia).
  rewrite Z.lor_spec. destruct (i <? 32) eqn:E.
  - rewrite Z.shiftl_spec_low by lia. done.
  - rewrite Z.shiftl_spec by lia. rewrite <- (Z.mod_small w (2 ^ 32)) by lia.
    rewrite Z.mod_pow2_bits_high by lia. apply orb_false_r.
Qed.

Lemma hash_val_lxor a b :
  Forall is_u32 a -> Forall is_u32 b -> length a = length b ->
  hash_val (zip_with Z.lxor a b) = Z.lxor (hash_val a) (hash_val b).
Proof.
  intros Ha. revert b. induction Ha as [|x a Hx Ha IH]; intros [|y b] Hb Hlen; try done.
  apply Forall_cons_iff in Hb as [Hy Hb]. cbn [zip_with hash_val].
  rewrite IH by auto. apply Z.bits_inj'. intros i Hi. rewrite Z.lxor_spec.
  rewrite !testbit_word by (try apply lxor_u32; done).
  destruct (i <? 32); by rewrite Z.lxor_spec.
Qed.

(** ** Bits of a hash code *)

Lemma hash_bytes_val h :
  Forall is_u32 h -> hash_bytes h = host_bytes (4 * length h) (hash_val h).
Proof.
  induction 1 as [|w h Hw Hh IH]; [ done | ].
  replace (4 * length (w :: h))%nat with (4 + 4 * length h)%nat by (cbn [length]; lia).
  rewrite host_bytes_app. unfold hash_bytes in *. cbn [flat_map hash_val]. rewrite IH.
  unfold is_u32 in Hw. change (8 * Z.of_nat 4) with 32. f_equal.
  - rewrite <- (host_bytes_mod 4 (w + _) 32) by lia.
    rewrite Z.mul_comm, Z.mod_add, Z.mod_small by lia. done.
  - rewrite Z.mul_comm, Z.div_add, Z.div_small by lia. done.
Qed.

Lemma nth_host_bytes n v j :
  (j < n)%nat -> nth j (host_bytes n v) 0 = u8 (Z.shiftr v (8 * Z.of_nat j)).
Proof.
  revert v j. induction n as [|n IH]; intros v [|j] Hj; cbn [host_bytes nth]; try lia.
  - by rewrite Z.shiftr_0_r.
  - rewrite IH, Z.shiftr_shiftr by lia.
    by replace (8 + 8 * Z.of_nat j) with (8 * Z.of_nat (S j)) by lia.
Qed.

Lemma hash_bytes_bytes h : is_bytes (hash_bytes h).
Proof.
  unfold is_bytes, hash_bytes. induction h as [|w h IH]; [ constructor | ].
  cbn [flat_map]. apply Forall_app. split; [ | done ].
  repeat constructor; apply u8_range.
Qed.

Lemma length_hash_bytes h : length (hash_bytes h) = (4 * length h)%nat.
Proof.
  unfold hash_bytes. induction h as [|w h IH]; [ done | ].
  cbn [flat_map]. rewrite length_app, IH, length_host_bytes. cbn [length]. lia.
Qed.

Lemma hash_words_bytes h rest :
  Forall is_u32 h -> hash_words (length h) (hash_bytes h ++ rest) = h.
Proof.
  unfold hash_bytes. induction 1 as [|w h Hw _ IH]; [ done | ]. cbn [length hash_words flat_map].
  rewrite <- app_assoc, take_app_length', drop_app_length', IH by (by rewrite length_host_bytes).
  f_equal. cbn. unfold u8. rewrite !Z.shiftr_div_pow2 by lia. int_lia.
Qed.

Lemma hash_words_range n l : is_bytes l -> (4 * n <= length l)%nat ->
  length (hash_words n l) = n /\ Forall is_u32 (hash_words n l).
Proof.
  revert l. induction n as [|n IH]; intros l Hl Hn; [ split; [ done | constructor ] | ].
  cbn [hash_words length]. destruct (IH (drop 4 l)) as [IHl IHf];
    [ by apply Forall_drop | rewrite length_drop; lia | ].
  split; [ by rewrite IHl | ]. constructor; [ | done ].
  assert (Ht : is_bytes (rev (take 4 l))) by (apply Forall_rev, Forall_take, Hl).
  apply be_decode_range in Ht. rewrite length_rev, length_take in Ht.
  replace (4 `min` length l)%nat with 4%nat in Ht by lia. exact Ht.
Qed.

Lemma test_bit_mask x k : 0 <= k -> (0 <? Z.land x (Z.shiftl 1 k)) = Z.testbit x k.
Proof.
  intros Hk. rewrite Z.shiftl_1_l.
  assert (Hl : Z.land x (2 ^ k) = if Z.testbit x k then 2 ^ k else 0).
  { apply Z.bits_inj'. intros i Hi. rewrite Z.land_spec, Z.pow2_bits_eqb by lia.
    destruct (Z.eqb_spec k i) as [->|Hne].
    - destruct (Z.testbit x i) eqn:E; [ | by rewrite Z.bits_0 ].
      by rewrite Z.pow2_bits_true by lia.
    - rewrite andb_false_r. destruct (Z.testbit x k); [ | by rewrite Z.bits_0 ].
      by rewrite Z.pow2_bits_false. }
  rewrite Hl. destruct (Z.testbit x k); [ | done ]. apply Z.ltb_lt. lia.
Qed.

Lemma hash_get_bit_testbit h bit :
  is_hash h -> 0 <= bit < 512 ->
  GNUNET_CRYPTO_hash_get_bit h bit = Ret (Z.testbit (hash_val h) bit).
Proof.
  intros [Hlen Hh] Hb. unfold GNUNET_CRYPTO_hash_get_bit.
  rewrite gnunet_assert_true by lia. cbn [mbind outcome_bind]. f_equal.
  change 7 with (Z.ones 3). rewrite Z.land_ones, Z.shiftr_div_pow2 by lia.
  change (2 ^ 3) with 8. pose proof (Z.mod_pos_bound bit 8 ltac:(lia)).
  rewrite test_bit_mask, hash_bytes_val by (done || lia).
  rewrite nth_host_bytes by (rewrite Hlen; Z.div_mod_to_equations; lia).
  rewrite Z2Nat.id by (apply Z.div_pos; lia).
  unfold u8. rewrite Z.mod_pow2_bits_low by lia.
  rewrite Z.shiftr_spec by lia. f_equal. Z.div_mod_to_equations. lia.
Qed.

Lemma matching_loop_spec n i a b :
  is_hash a -> is_hash b -> 0 <= i -> i + Z.of_nat n = 512 ->
  exists r, matching_loop n i a b = Ret r /\ i <= r <= 512 /\
    (forall j, i <= j < r -> Z.testbit (hash_val a) j = Z.testbit (hash_val b) j) /\
    (r < 512 -> Z.testbit (hash_val a) r <> Z.testbit (hash_val b) r).
Proof.
  intros Ha Hb. revert i. induction n as [|n IH]; intros i Hi Hn.
  - exists 512. split_and!; try done; lia.
  - cbn [matching_loop]. rewrite !hash_get_bit_testbit by (done || lia).
    cbn [mbind outcome_bind].
    destruct (Bool.eqb _ _) eqn:E; cbn [negb].
    + apply eqb_prop in E. destruct (IH (i + 1)) as (r & -> & Hr & Heq & Hne); try lia.
      exists r. split_and!; try done; try lia. intros j Hj.
      destruct (Z.eq_dec j i) as [->|]; [ done | apply Heq; lia ].
    + apply eqb_false_iff in E. exists i. split_and!; try done; lia.
Qed.

Lemma zip_with_lxor_rev (u v : list Z) :
  length u = length v -> zip_with Z.lxor (rev u) (rev v) = rev (zip_with Z.lxor u v).
Proof.
  revert v. induction u as [|x u IH]; intros [|y v] Hl; try done. injection Hl as Hl.
  cbn [rev zip_with]. rewrite zip_with_app by (by rewrite !length_rev).
  by rewrite IH.
Qed.

(** ** Properties *)

(** hash_cmp orders hashes as 512-bit numbers and returns 0 only for
    equal hashes; hash_xorcmp orders two hashes by their XOR distance to the
    target, the metric of the DHT. *)
Theorem hash_comparisons_numeric (h1 h2 target : GNUNET_HashCode) :
  is_hash h1 -> is_hash h2 -> is_hash target ->
  GNUNET_CRYPTO_hash_cmp h1 h2 = sign_of (hash_val h1 ?= hash_val h2) /\
  (GNUNET_CRYPTO_hash_cmp h1 h2 = 0 <-> h1 = h2) /\
  GNUNET_CRYPTO_hash_xorcmp h1 h2 target
  = sign_of (Z.lxor (hash_val h1) (hash_val target)
             ?= Z.lxor (hash_val h2) (hash_val target)).
Proof.
  intros [L1 H1] [L2 H2] [Lt Ht].
  assert (Hcmp : forall a b, Forall is_u32 a -> Forall is_u32 b -> length a = length b ->
    cmp_loop (rev a) (rev b) = sign_of (hash_val a ?= hash_val b)).
  { intros a b Ha Hb Hl. rewrite cmp_loop_compare, !rev_involutive;
      [ done | by apply Forall_rev | by apply Forall_rev | by rewrite !length_rev ]. }
  unfold GNUNET_CRYPTO_hash_cmp, GNUNET_CRYPTO_hash_xorcmp. split_and!.
  - apply Hcmp; congruence.
  - rewrite Hcmp by congruence. split.
    + intros Hs. apply hash_val_inj; try congruence. apply Z.compare_eq.
      by destruct (hash_val h1 ?= hash_val h2).
    + intros ->. by rewrite Z.compare_refl.
  - rewrite xorcmp_loop_cmp by (rewrite !length_rev; congruence).
    assert (Hz : forall a, length a = 16%nat ->
      zip_with Z.lxor (rev a) (rev target) = rev (zip_with Z.lxor a target)).
    { intros a Hla. apply zip_with_lxor_rev. congruence. }
    rewrite !Hz by done. rewrite Hcmp.
    + rewrite !hash_val_lxor by congruence. done.
    + by apply Forall_zip_lxor.
    + by apply Forall_zip_lxor.
    + rewrite !length_zip_with. congruence.
Qed.

Lemma hash_comparisons_numeric_witness :
  GNUNET_CRYPTO_hash_xorcmp (replicate 16 5) (replicate 16 6) (replicate 16 4) = -1.
Proof.
  rewrite (proj2 (proj2 (hash_comparisons_numeric (replicate 16 5) (replicate 16 6)
    (replicate 16 4) ltac:(split; [ reflexivity | repeat constructor; unfold is_u32; lia ])
    ltac:(split; [ reflexivity | repeat constructor; unfold is_u32; lia ])
    ltac:(split; [ reflexivity | repeat constructor; unfold is_u32; lia ])))).
  vm_compute. reflexivity.
Defined.

(** hash_matching_bits returns the length of the longest common bit
    prefix of two hashes: the bits below it agree, the next one differs, and
    it is 512 exactly for equal hashes; get_bit never fails on the way. *)
Theorem hash_matching_bits_spec (a b : GNUNET_HashCode) :
  is_hash a -> is_hash b ->
  exists r, GNUNET_CRYPTO_hash_matching_bits a b = Ret r /\ 0 <= r <= 512 /\
    (forall j, 0 <= j < r ->
       GNUNET_CRYPTO_hash_get_bit a j = GNUNET_CRYPTO_hash_get_bit b j) /\
    (r < 512 -> GNUNET_CRYPTO_hash_get_bit a r <> GNUNET_CRYPTO_hash_get_bit b r) /\
    (r = 512 <-> a = b).
Proof.
  intros Ha Hb.
  destruct (matching_loop_spec 512 0 a b Ha Hb) as (r & Hr & Hrange & Heq & Hne);
    [ lia | lia | ].
  exists r. split_and!; try done; try lia.
  - intros j Hj. rewrite !hash_get_bit_testbit by (done || lia). f_equal. by apply Heq.
  - intros Hlt. rewrite !hash_get_bit_testbit by (done || lia). intros [= E].
    by apply (Hne Hlt).
  - split.
    + intros ->. destruct Ha as [La Ha], Hb as [Lb Hb].
      apply hash_val_inj; try done; [ congruence | ].
      pose proof (hash_val_range a Ha) as Hra. pose proof (hash_val_range b Hb) as Hrb.
      rewrite La in Hra. rewrite Lb in Hrb.
      apply Z.bits_inj'. intros i Hi. destruct (Z.lt_ge_cases i 512).
      * apply Heq. lia.
      * rewrite <- (Z.mod_small _ _ Hra), <- (Z.mod_small _ _ Hrb).
        by rewrite !Z.mod_pow2_bits_high by lia.
    + intros ->. destruct (Z.eq_dec r 512) as [|Hx]; [ done | ].
      exfalso. by apply Hne; [ lia | ].
Qed.

Lemma hash_matching_bits_spec_witness :
  GNUNET_CRYPTO_hash_matching_bits (replicate 16 12) (replicate 16 4) = Ret 3 /\
  (3 = 512 <-> replicate 16 12 = replicate 16 4).
Proof.
  destruct (hash_matching_bits_spec (replicate 16 12) (replicate 16 4))
    as (r & Hr & _ & _ & _ & He).
  - split; [ reflexivity | repeat constructor; unfold is_u32; lia ].
  - split; [ reflexivity | repeat constructor; unfold is_u32; lia ].
  - assert (r = 3) as -> by (vm_compute in Hr; congruence).
    split; [ exact Hr | exact He ].
Defined.

(** hash_sum undoes hash_difference word by word modulo 2^32, and
    hash_xor is an involution. *)
Lemma hash_arithmetic_inverse (a b : GNUNET_HashCode) :
  is_hash a -> is_hash b ->
  GNUNET_CRYPTO_hash_sum a (GNUNET_CRYPTO_hash_difference a b) = b /\
  is_hash (GNUNET_CRYPTO_hash_difference a b) /\
  GNUNET_CRYPTO_hash_xor a (GNUNET_CRYPTO_hash_xor a b) = b.
Proof.
  intros [La Ha] [Lb Hb].
  assert (Hgen : forall u v, Forall is_u32 u -> Forall is_u32 v -> length u = length v ->
    GNUNET_CRYPTO_hash_sum u (GNUNET_CRYPTO_hash_difference u v) = v /\
    Forall is_u32 (GNUNET_CRYPTO_hash_difference u v) /\
    GNUNET_CRYPTO_hash_xor u (GNUNET_CRYPTO_hash_xor u v) = v).
  { intros u v Hu. revert v. induction Hu as [|x u Hx Hu IH]; intros [|y v] Hv Hl; try done.
    apply Forall_cons_iff in Hv as [Hy Hv]. injection Hl as Hl.
    destruct (IH v Hv Hl) as (Hs & Hf & Hxor).
    unfold GNUNET_CRYPTO_hash_sum, GNUNET_CRYPTO_hash_difference, GNUNET_CRYPTO_hash_xor in *.
    cbn [zip_with]. rewrite Hs, Hxor. split_and!.
    - f_equal. int_lia.
    - constructor; [ apply u32_range | done ].
    - f_equal. by rewrite <- Z.lxor_assoc, Z.lxor_nilpotent, Z.lxor_0_l. }
  destruct (Hgen a b Ha Hb ltac:(congruence)) as (Hs & Hf & Hx).
  split_and!; try done. split; [ | done ].
  unfold GNUNET_CRYPTO_hash_difference. rewrite length_zip_with. lia.
Qed.

(** The printable form of a hash has 103 characters of the alphabet and
    decodes to the hash, that of a short hash 52; doubling a short hash and
    truncating it gives it back. *)
Theorem hash_enc_roundtrip (h : GNUNET_HashCode) (sh : GNUNET_CRYPTO_ShortHashCode) :
  is_hash h -> is_short_hash sh ->
  (exists enc, GNUNET_CRYPTO_hash_to_enc h = Ret (enc ++ [0]) /\ length enc = 103%nat
     /\ Forall (fun c => getValue__ c <> -1) enc
     /\ GNUNET_STRINGS_string_to_data enc 64 = Ret (Some (hash_bytes h)))
  /\ (exists enc, GNUNET_CRYPTO_short_hash_to_enc sh = Ret (enc ++ [0]) /\ length enc = 52%nat
     /\ Forall (fun c => getValue__ c <> -1) enc
     /\ GNUNET_STRINGS_string_to_data enc 32 = Ret (Some (hash_bytes sh)))
  /\ GNUNET_CRYPTO_short_hash_from_truncation (GNUNET_CRYPTO_short_hash_double sh) = Some sh.
Proof.
  intros [Lh Hh] [Ls Hs].
  assert (Hlen : length (hash_bytes h) = 64%nat) by (by rewrite length_hash_bytes, Lh).
  assert (Hlens : length (hash_bytes sh) = 32%nat) by (by rewrite length_hash_bytes, Ls).
  split_and!.
  - destruct (block_encoding (hash_bytes h) (hash_bytes_bytes h)) as (enc & E & Hl & Hv & Hd);
      [ rewrite Hlen; reflexivity | rewrite Hlen; vm_compute; lia | ]. rewrite Hlen in *.
    change (encoded_length 64) with 103%nat in *. exists enc.
    unfold GNUNET_CRYPTO_hash_to_enc. rewrite E. done.
  - destruct (block_encoding (hash_bytes sh) (hash_bytes_bytes sh)) as (enc & E & Hl & Hv & Hd);
      [ rewrite Hlens; reflexivity | rewrite Hlens; vm_compute; lia | ]. rewrite Hlens in *.
    change (encoded_length 32) with 52%nat in *. exists enc.
    unfold GNUNET_CRYPTO_short_hash_to_enc. rewrite E. done.
  - unfold GNUNET_CRYPTO_short_hash_from_truncation, GNUNET_CRYPTO_short_hash_double.
    rewrite (take_ge sh) by lia. rewrite <- Ls, take_app_length, drop_app_length, take_ge by lia.
    by rewrite decide_True.
Qed.

Lemma hash_enc_roundtrip_witness :
  exists enc, GNUNET_CRYPTO_hash_to_enc (replicate 16 305419896) = Ret (enc ++ [0]) /\
    length enc = 103%nat.
Proof.
  destruct (hash_enc_roundtrip (replicate 16 305419896) (replicate 8 77))
    as ((enc & He & Hl & _) & _).
  - split; [ reflexivity | repeat constructor; unfold is_u32; lia ].
  - split; [ reflexivity | repeat constructor; unfold is_u32; lia ].
  - exists enc. split; [ exact He | exact Hl ].
Defined.

(** ** Decoding overruns its buffer *)

Lemma c_string_app s l : Forall (fun c => c <> 0) s -> c_string (s ++ 0 :: l) = s.
Proof.
  induction 1 as [|c s Hc Hs IH]; [ done | ]. cbn [app c_string].
  by rewrite (proj2 (Z.eqb_neq _ _) Hc), IH.
Qed.

(** hash_from_string2 always writes one byte past its stack buffer:
    utf8_toupper stores the terminating NUL at index enclen of a buffer of
    enclen bytes, for every string without an inner NUL that the conversion
    does not lengthen or shorten. Without padding behind the array this is
    undefined. *)
Theorem hash_from_string_overruns_buffer (u8_toupper : list Z -> list Z)
  (stack s rest : list Z) :
  Forall (fun c => c <> 0) s -> length (u8_toupper s) = length s ->
  (length stack <= length s)%nat ->
  GNUNET_CRYPTO_hash_from_string2 u8_toupper stack (s ++ 0 :: rest) (length s) = Undefined.
Proof.
  intros Hs Hl Hst.
  unfold GNUNET_CRYPTO_hash_from_string2, GNUNET_STRINGS_utf8_toupper, mem_write.
  rewrite c_string_app by done. rewrite length_app, Hl. cbn [length].
  by rewrite (proj2 (Nat.leb_gt _ _)) by lia.
Qed.

Lemma hash_from_string_overruns_buffer_witness :
  let upper := fmap (fun c => if (97 <=? c) && (c <=? 122) then c - 32 else c) in
  GNUNET_CRYPTO_hash_from_string2 upper (replicate 103 0) (replicate 103 97 ++ [0]) 103
  = Undefined.
Proof.
  intros upper.
  refine (hash_from_string_overruns_buffer upper (replicate 103 0) (replicate 103 97) [] _ _ _).
  - repeat constructor; discriminate.
  - unfold upper. apply length_fmap.
  - rewrite !length_replicate. lia.
Defined.

(** With a byte of padding it converts the text, and the padding is all it touches. *)
Lemma hash_from_string_padded (u8_toupper : list Z -> list Z) (stack s rest : list Z) :
  Forall (fun c => c <> 0) s -> u8_toupper s = s -> (length s < length stack)%nat ->
  GNUNET_CRYPTO_hash_from_string2 u8_toupper stack (s ++ 0 :: rest) (length s)
  = GNUNET_STRINGS_string_to_data s 64.
Proof.
  intros Hs Hup Hst.
  unfold GNUNET_CRYPTO_hash_from_string2, GNUNET_STRINGS_utf8_toupper, mem_write.
  rewrite c_string_app, Hup by done. rewrite length_app. cbn [length].
  rewrite (proj2 (Nat.leb_le _ _)) by lia. change (take 0 stack) with (@nil Z). cbn [outcome_bind mbind app].
  by rewrite <- app_assoc, take_app_length.
Qed.

