(* ===== verification/MultiHashMap.v ===== *)
(** * Hash map with several values per key: [src/util/container_multihashmap.c]

    The map is an array of buckets, a bucket a linked list of entries.  The two
    layouts of an entry ([BigMapEntry] with a copy of the key, [SmallMapEntry] with
    a pointer to it) are searched and relinked by the same loops; an entry of the
    model carries the 16 words that [memcmp] reads, so the caller's obligation not
    to change a key that it lent to the map is built in.  Values are pointers,
    compared for equality by [remove] and [contains_value]. *)

From Stdlib Require Import ZArith Lia.
From stdpp Require Import base list numbers sorting.
From S2P Require Import Prelude Hash.
Local Open Scope Z_scope.

Section MultiHashMap.
Context {V : Type} `{EqDecision V}.

(** ** Data *)

Record MapEntry := mk_entry { entry_key : GNUNET_HashCode; entry_value : V }.

Record GNUNET_CONTAINER_MultiHashMap := mk_map {
  map : list (list MapEntry);
  size : Z;
  map_length : Z;
  use_small_entries : bool
}.

Inductive GNUNET_CONTAINER_MultiHashMapOption :=
  | MULTIHASHMAPOPTION_REPLACE
  | MULTIHASHMAPOPTION_MULTIPLE
  | MULTIHASHMAPOPTION_UNIQUE_ONLY
  | MULTIHASHMAPOPTION_UNIQUE_FAST.

#[global] Instance option_eq_dec : EqDecision GNUNET_CONTAINER_MultiHashMapOption.
Proof. solve_decision. Defined.

(** ** Operations *)

Definition GNUNET_CONTAINER_multihashmap_create (len : Z) (do_not_copy_keys : bool)
  : outcome GNUNET_CONTAINER_MultiHashMap :=
  _ ← gnunet_assert (0 <? len);
  Ret (mk_map (replicate (Z.to_nat len) []) 0 len do_not_copy_keys).

(** [( *(unsigned int * ) key) % map->map_length] *)
Definition idx_of (m : GNUNET_CONTAINER_MultiHashMap) (key : GNUNET_HashCode) : nat :=
  Z.to_nat (nth 0 key 0 mod map_length m).

Definition bucket (m : GNUNET_CONTAINER_MultiHashMap) (i : nat) : list MapEntry :=
  nth i (map m) [].

Definition set_bucket (m : GNUNET_CONTAINER_MultiHashMap) (i : nat) (b : list MapEntry)
  (sz : Z) : GNUNET_CONTAINER_MultiHashMap :=
  mk_map (<[i := b]> (map m)) (u32 sz) (map_length m) (use_small_entries m).

Definition GNUNET_CONTAINER_multihashmap_size (m : GNUNET_CONTAINER_MultiHashMap) : Z :=
  size m.

(** [0 == memcmp (key, ..., sizeof (struct GNUNET_HashCode))] *)
Definition key_eqb (k1 k2 : GNUNET_HashCode) : bool := bool_decide (k1 = k2).

Fixpoint get_loop (key : GNUNET_HashCode) (b : list MapEntry) : option V :=
  match b with
  | [] => None
  | e :: b' => if key_eqb key (entry_key e) then Some (entry_value e) else get_loop key b'
  end.

Definition GNUNET_CONTAINER_multihashmap_get (m : GNUNET_CONTAINER_MultiHashMap)
  (key : GNUNET_HashCode) : option V :=
  get_loop key (bucket m (idx_of m key)).

(** The iterator, when there is one, has a state (its closure) and returns whether
    to go on; the result is the number of entries or [GNUNET_SYSERR]. *)
Fixpoint iterate_bucket {S : Type} (it : option (S -> GNUNET_HashCode -> V -> S * bool))
  (s : S) (count : Z) (b : list MapEntry) : S * Z * bool :=
  match b with
  | [] => (s, count, true)
  | e :: b' =>
      match it with
      | None => iterate_bucket it s (count + 1) b'
      | Some f =>
          let '(s', ok) := f s (entry_key e) (entry_value e) in
          if ok then iterate_bucket it s' (count + 1) b' else (s', GNUNET_SYSERR, false)
      end
  end.

Fixpoint iterate_buckets {S : Type} (it : option (S -> GNUNET_HashCode -> V -> S * bool))
  (s : S) (count : Z) (bs : list (list MapEntry)) : S * Z :=
  match bs with
  | [] => (s, count)
  | b :: bs' =>
      let '(s', c, go) := iterate_bucket it s count b in
      if (go : bool) then iterate_buckets it s' c bs' else (s', c)
  end.

Definition GNUNET_CONTAINER_multihashmap_iterate {S : Type}
  (m : GNUNET_CONTAINER_MultiHashMap)
  (it : option (S -> GNUNET_HashCode -> V -> S * bool)) (s : S) : S * Z :=
  iterate_buckets it s 0 (map m).

(** The loop of [remove]: unlink the first matching entry. *)
Fixpoint remove_loop (key : GNUNET_HashCode) (value : V) (b : list MapEntry)
  : option (list MapEntry) :=
  match b with
  | [] => None
  | e :: b' =>
      if key_eqb key (entry_key e) && bool_decide (value = entry_value e) then Some b'
      else match remove_loop key value b' with
           | Some b'' => Some (e :: b'')
           | None => None
           end
  end.

Definition GNUNET_CONTAINER_multihashmap_remove (m : GNUNET_CONTAINER_MultiHashMap)
  (key : GNUNET_HashCode) (value : V) : Z * GNUNET_CONTAINER_MultiHashMap :=
  let i := idx_of m key in
  match remove_loop key value (bucket m i) with
  | Some b' => (GNUNET_YES, set_bucket m i b' (size m - 1))
  | None => (GNUNET_NO, m)
  end.

(** The loop of [remove_all]: the remaining bucket and the number of entries
    unlinked. *)
Fixpoint remove_all_loop (key : GNUNET_HashCode) (b : list MapEntry)
  : list MapEntry * Z :=
  match b with
  | [] => ([], 0)
  | e :: b' =>
      let '(b'', ret) := remove_all_loop key b' in
      if key_eqb key (entry_key e) then (b'', ret + 1) else (e :: b'', ret)
  end.

Definition GNUNET_CONTAINER_multihashmap_remove_all (m : GNUNET_CONTAINER_MultiHashMap)
  (key : GNUNET_HashCode) : Z * GNUNET_CONTAINER_MultiHashMap :=
  let i := idx_of m key in
  let '(b', ret) := remove_all_loop key (bucket m i) in
  (ret, set_bucket m i b' (size m - ret)).

Fixpoint contains_loop (key : GNUNET_HashCode) (b : list MapEntry) : Z :=
  match b with
  | [] => GNUNET_NO
  | e :: b' => if key_eqb key (entry_key e) then GNUNET_YES else contains_loop key b'
  end.

Definition GNUNET_CONTAINER_multihashmap_contains (m : GNUNET_CONTAINER_MultiHashMap)
  (key : GNUNET_HashCode) : Z :=
  contains_loop key (bucket m (idx_of m key)).

Fixpoint contains_value_loop (key : GNUNET_HashCode) (value : V) (b : list MapEntry) : Z :=
  match b with
  | [] => GNUNET_NO
  | e :: b' =>
      if key_eqb key (entry_key e) && bool_decide (entry_value e = value) then GNUNET_YES
      else contains_value_loop key value b'
  end.

Definition GNUNET_CONTAINER_multihashmap_contains_value
  (m : GNUNET_CONTAINER_MultiHashMap) (key : GNUNET_HashCode) (value : V) : Z :=
  contains_value_loop key value (bucket m (idx_of m key)).

(** The inner loop of [grow]: each entry goes to the head of its new bucket. *)
Fixpoint grow_bucket (m : GNUNET_CONTAINER_MultiHashMap) (old : list MapEntry)
  : GNUNET_CONTAINER_MultiHashMap :=
  match old with
  | [] => m
  | e :: old' =>
      let idx := idx_of m (entry_key e) in
      grow_bucket (mk_map (<[idx := e :: bucket m idx]> (map m)) (size m) (map_length m)
                          (use_small_entries m)) old'
  end.

Definition grow (m : GNUNET_CONTAINER_MultiHashMap) : GNUNET_CONTAINER_MultiHashMap :=
  let new_len := u32 (map_length m * 2) in
  foldl grow_bucket
    (mk_map (replicate (Z.to_nat new_len) []) (size m) new_len (use_small_entries m))
    (map m).

(** The search of [put]: the bucket with the value of the first matching entry
    replaced. *)
Fixpoint replace_loop (key : GNUNET_HashCode) (value : V) (b : list MapEntry)
  : option (list MapEntry) :=
  match b with
  | [] => None
  | e :: b' =>
      if key_eqb key (entry_key e) then Some (mk_entry (entry_key e) value :: b')
      else match replace_loop key value b' with
           | Some b'' => Some (e :: b'')
           | None => None
           end
  end.

Definition put_new (m : GNUNET_CONTAINER_MultiHashMap) (key : GNUNET_HashCode) (value : V)
  : Z * GNUNET_CONTAINER_MultiHashMap :=
  let m' := if map_length m / 4 <=? size m / 3 then grow m else m in
  let i := idx_of m' key in
  (GNUNET_OK, set_bucket m' i (mk_entry key value :: bucket m' i) (size m' + 1)).

Definition GNUNET_CONTAINER_multihashmap_put (m : GNUNET_CONTAINER_MultiHashMap)
  (key : GNUNET_HashCode) (value : V) (opt : GNUNET_CONTAINER_MultiHashMapOption)
  : Z * GNUNET_CONTAINER_MultiHashMap :=
  let i := idx_of m key in
  if negb (bool_decide (opt = MULTIHASHMAPOPTION_MULTIPLE)) &&
     negb (bool_decide (opt = MULTIHASHMAPOPTION_UNIQUE_FAST))
  then
    match replace_loop key value (bucket m i) with
    | Some b' =>
        if bool_decide (opt = MULTIHASHMAPOPTION_UNIQUE_ONLY) then (GNUNET_SYSERR, m)
        else (GNUNET_NO, set_bucket m i b' (size m))
    | None => put_new m key value
    end
  else put_new m key value.

Fixpoint get_multiple_loop {S : Type} (key : GNUNET_HashCode)
  (it : option (S -> GNUNET_HashCode -> V -> S * bool)) (s : S) (count : Z)
  (b : list MapEntry) : S * Z :=
  match b with
  | [] => (s, count)
  | e :: b' =>
      if negb (key_eqb key (entry_key e)) then get_multiple_loop key it s count b'
      else
        match it with
        | None => get_multiple_loop key it s (count + 1) b'
        | Some f =>
            let '(s', ok) := f s key (entry_value e) in
            if ok then get_multiple_loop key it s' (count + 1) b' else (s', GNUNET_SYSERR)
        end
  end.

Definition GNUNET_CONTAINER_multihashmap_get_multiple {S : Type}
  (m : GNUNET_CONTAINER_MultiHashMap) (key : GNUNET_HashCode)
  (it : option (S -> GNUNET_HashCode -> V -> S * bool)) (s : S) : S * Z :=
  get_multiple_loop key it s 0 (bucket m (idx_of m key)).

(** ** The abstract multimap *)

Definition entries (m : GNUNET_CONTAINER_MultiHashMap) : list MapEntry :=
  concat (map m).

(** The values stored under a key, in the order the buckets hold them. *)
Definition values_of (key : GNUNET_HashCode) (l : list MapEntry) : list V :=
  entry_value <$> filter (fun e => entry_key e = key) l.

Definition values (m : GNUNET_CONTAINER_MultiHashMap) (key : GNUNET_HashCode) : list V :=
  values_of key (entries m).

(** Every entry is in the bucket of its key. *)
Record map_wf (m : GNUNET_CONTAINER_MultiHashMap) : Prop := {
  mw_length : map_length m = Z.of_nat (length (map m));
  mw_pos : 0 < map_length m < 2 ^ 32;
  mw_index : forall i b e, map m !! i = Some b -> e ∈ b -> idx_of m (entry_key e) = i
}.

Record map_inv (m : GNUNET_CONTAINER_MultiHashMap) : Prop := {
  mi_wf : map_wf m;
  mi_size : size m = Z.of_nat (length (entries m));
  mi_bound : Z.of_nat (length (entries m)) < 2 ^ 32
}.

(** ** Buckets *)

Lemma values_of_app k l1 l2 : values_of k (l1 ++ l2) = values_of k l1 ++ values_of k l2.
Proof. unfold values_of. by rewrite filter_app, fmap_app. Qed.

Lemma values_of_cons k e l :
  values_of k (e :: l)
  = if key_eqb k (entry_key e) then entry_value e :: values_of k l else values_of k l.
Proof.
  unfold values_of, key_eqb. rewrite filter_cons.
  case_bool_decide as H1; case_decide as H2; try done; congruence.
Qed.

Lemma values_of_nil_other k l :
  (forall e, e ∈ l -> entry_key e <> k) -> values_of k l = [].
Proof.
  induction l as [|e l IH]; intros H; [ done | ]. rewrite values_of_cons.
  unfold key_eqb. rewrite bool_decide_eq_false_2.
  - apply IH. intros e' He. apply H. by right.
  - intros ->. by apply (H e); [ left | ].
Qed.

Lemma idx_of_lt m k : map_wf m -> (idx_of m k < length (map m))%nat.
Proof.
  intros [Hl Hp _]. unfold idx_of. pose proof (Z.mod_pos_bound (nth 0 k 0) (map_length m)).
  lia.
Qed.

Lemma bucket_lookup m i : (i < length (map m))%nat -> map m !! i = Some (bucket m i).
Proof.
  intros H. unfold bucket. rewrite nth_lookup.
  by destruct (lookup_lt_is_Some_2 _ _ H) as [b ->].
Qed.

Lemma entries_split m i :
  (i < length (map m))%nat ->
  entries m = concat (take i (map m)) ++ bucket m i ++ concat (drop (S i) (map m)).
Proof.
  intros H. unfold entries. rewrite <- (take_drop_middle _ _ _ (bucket_lookup m i H)) at 1.
  by rewrite concat_app.
Qed.

Lemma entries_set_bucket m i b sz :
  (i < length (map m))%nat ->
  entries (set_bucket m i b sz)
  = concat (take i (map m)) ++ b ++ concat (drop (S i) (map m)).
Proof.
  intros H. unfold entries, set_bucket. cbn [map].
  rewrite insert_take_drop by done. by rewrite concat_app.
Qed.

(** The values of a key are in one bucket. *)
Lemma values_bucket m k :
  map_wf m -> values m k = values_of k (bucket m (idx_of m k)).
Proof.
  intros Hwf. pose proof (idx_of_lt m k Hwf) as Hi. unfold values.
  rewrite (entries_split m _ Hi), !values_of_app.
  assert (Hother : forall bs, (forall b, b ∈ bs -> exists j, j <> idx_of m k /\
    map m !! j = Some b) -> values_of k (concat bs) = []).
  { intros bs Hbs. apply values_of_nil_other. intros e He Hk.
    apply list_elem_of_In, in_concat in He as (b & Hb & He).
    apply list_elem_of_In in Hb, He. destruct (Hbs b Hb) as (j & Hj & Hlk).
    pose proof (mw_index _ Hwf j b e Hlk He) as Hidx. congruence. }
  rewrite !Hother, app_nil_r; [ done | | ].
  - intros b Hb. apply list_elem_of_lookup in Hb as [j Hj]. rewrite lookup_drop in Hj.
    exists (S (idx_of m k) + j)%nat. split; [ lia | done ].
  - intros b Hb. apply list_elem_of_lookup in Hb as [j Hj].
    apply lookup_take_Some in Hj as [Hj Hlt]. exists j. split; [ lia | done ].
Qed.

(** Replacing a bucket by one whose entries belong there. *)
Lemma set_bucket_wf m i b sz :
  map_wf m -> (i < length (map m))%nat ->
  (forall e, e ∈ b -> idx_of m (entry_key e) = i) -> map_wf (set_bucket m i b sz).
Proof.
  intros [Hl Hp Hx] Hi Hb. constructor; cbn [set_bucket map map_length].
  - by rewrite length_insert.
  - done.
  - intros j b' e Hj He. unfold idx_of. cbn [map_length].
    change (idx_of m (entry_key e) = j).
    destruct (decide (i = j)) as [->|Hne].
    + rewrite list_lookup_insert_eq in Hj by done. injection Hj as <-. by apply Hb.
    + rewrite list_lookup_insert_ne in Hj by done. by eapply Hx.
Qed.

Lemma bucket_set_bucket m i b sz j :
  (i < length (map m))%nat ->
  bucket (set_bucket m i b sz) j = if decide (j = i) then b else bucket m j.
Proof.
  intros Hi. unfold bucket, set_bucket. cbn [map]. rewrite !nth_lookup.
  case_decide as Hj; [ subst; by rewrite list_lookup_insert_eq | ].
  by rewrite list_lookup_insert_ne.
Qed.

Lemma values_set_bucket m i b sz k :
  map_wf m -> (i < length (map m))%nat ->
  (forall e, e ∈ b -> idx_of m (entry_key e) = i) ->
  values (set_bucket m i b sz) k
  = if decide (idx_of m k = i) then values_of k b else values m k.
Proof.
  intros Hwf Hi Hb. rewrite values_bucket by by apply set_bucket_wf.
  change (idx_of (set_bucket m i b sz) k) with (idx_of m k).
  rewrite bucket_set_bucket by done. case_decide; [ done | ].
  by rewrite values_bucket.
Qed.

Lemma set_bucket_inv m i b sz :
  map_inv m -> (i < length (map m))%nat ->
  (forall e, e ∈ b -> idx_of m (entry_key e) = i) ->
  sz = size m - Z.of_nat (length (bucket m i)) + Z.of_nat (length b) ->
  sz < 2 ^ 32 -> map_inv (set_bucket m i b sz).
Proof.
  intros [Hwf Hs Hbd] Hi Hb Hsz Hlt.
  assert (Hlen : sz = Z.of_nat (length (entries (set_bucket m i b sz)))).
  { rewrite entries_set_bucket by done. rewrite (entries_split m i Hi) in Hs.
    rewrite !length_app in *. lia. }
  constructor; [ by apply set_bucket_wf | | lia ].
  rewrite <- Hlen. cbn [set_bucket size]. apply u32_small. unfold is_u32. lia.
Qed.

(** The keys of a bucket hash to it. *)
Lemma bucket_index m i e :
  map_wf m -> (i < length (map m))%nat -> e ∈ bucket m i -> idx_of m (entry_key e) = i.
Proof. intros Hwf Hi He. eapply mw_index; [ done | by apply bucket_lookup | done ]. Qed.

(** ** The loops over a bucket *)

Lemma get_loop_values k b : get_loop k b = head (values_of k b).
Proof.
  induction b as [|e b IH]; [ done | ]. cbn [get_loop]. rewrite values_of_cons.
  by destruct (key_eqb k (entry_key e)).
Qed.

Lemma contains_loop_values k b :
  contains_loop k b = if decide (values_of k b = []) then GNUNET_NO else GNUNET_YES.
Proof.
  induction b as [|e b IH]; [ done | ]. cbn [contains_loop]. rewrite values_of_cons.
  by destruct (key_eqb k (entry_key e)).
Qed.

Lemma contains_value_loop_values k v b :
  contains_value_loop k v b = if decide (v ∈ values_of k b) then GNUNET_YES else GNUNET_NO.
Proof.
  induction b as [|e b IH]; cbn [contains_value_loop].
  - case_decide as H; [ | done ]. by apply elem_of_nil in H.
  - rewrite values_of_cons. destruct (key_eqb k (entry_key e)); cbn [andb]; [ | done ].
    case_bool_decide as Hv; [ subst; by rewrite decide_True by left | ]. rewrite IH.
    destruct (decide (v ∈ values_of k b)) as [Hin|Hin].
    + by rewrite decide_True by by right.
    + rewrite decide_False; [ done | ]. rewrite not_elem_of_cons. split; [ congruence | done ].
Qed.

(** Removing the first occurrence of a value. *)
Fixpoint remove_first (v : V) (l : list V) : list V :=
  match l with
  | [] => []
  | x :: l' => if decide (v = x) then l' else x :: remove_first v l'
  end.

Lemma remove_loop_values k v b :
  match remove_loop k v b with
  | Some b' =>
      v ∈ values_of k b /\ values_of k b' = remove_first v (values_of k b) /\
      (forall k', k' <> k -> values_of k' b' = values_of k' b) /\
      length b = S (length b') /\ (forall e, e ∈ b' -> e ∈ b)
  | None => v ∉ values_of k b
  end.
Proof.
  induction b as [|e b IH]; [ apply not_elem_of_nil | ]. cbn [remove_loop].
  rewrite values_of_cons. unfold key_eqb in *.
  case_bool_decide as Hk; cbn [andb]; [ case_bool_decide as Hv | ].
  - subst. split_and!; [ left | cbn; by rewrite decide_True | | done | by right ].
    intros k' Hk'. rewrite values_of_cons. unfold key_eqb.
    by rewrite bool_decide_eq_false_2.
  - destruct (remove_loop k v b) as [b'|].
    + destruct IH as (Hin & Hrm & Ho & Hl & He). split_and!.
      * by right.
      * rewrite values_of_cons. unfold key_eqb. rewrite bool_decide_eq_true_2 by done.
        cbn. rewrite decide_False by done. by rewrite Hrm.
      * intros k' Hk'. rewrite !values_of_cons, Ho by done. done.
      * cbn [length]. lia.
      * intros e' He'. apply elem_of_cons in He' as [->|He']; [ left | right; auto ].
    + rewrite not_elem_of_cons. done.
  - destruct (remove_loop k v b) as [b'|]; [ | done ].
    destruct IH as (Hin & Hrm & Ho & Hl & He). split_and!; try done.
    + rewrite values_of_cons. unfold key_eqb. by rewrite bool_decide_eq_false_2.
    + intros k' Hk'. rewrite !values_of_cons, Ho by done. done.
    + cbn [length]. lia.
    + intros e' He'. apply elem_of_cons in He' as [->|He']; [ left | right; auto ].
Qed.

Lemma remove_all_loop_values k b b' ret :
  remove_all_loop k b = (b', ret) ->
  ret = Z.of_nat (length (values_of k b)) /\ values_of k b' = [] /\
  (forall k', k' <> k -> values_of k' b' = values_of k' b) /\
  Z.of_nat (length b) = Z.of_nat (length b') + ret /\ (forall e, e ∈ b' -> e ∈ b).
Proof.
  revert b' ret. induction b as [|e b IH]; intros b' ret; cbn [remove_all_loop].
  - intros [= <- <-]. done.
  - destruct (remove_all_loop k b) as [b1 r1]. specialize (IH b1 r1 eq_refl).
    destruct IH as (-> & Hk & Ho & Hl & He). rewrite values_of_cons. unfold key_eqb.
    case_bool_decide as Hek; intros [= <- <-]; split_and!; try done.
    + cbn [length]. lia.
    + intros k' Hk'. rewrite values_of_cons, Ho by done. unfold key_eqb.
      rewrite bool_decide_eq_false_2 by congruence. done.
    + cbn [length]. lia.
    + intros e' He'. right. auto.
    + rewrite values_of_cons. unfold key_eqb. by rewrite bool_decide_eq_false_2.
    + intros k' Hk'. rewrite !values_of_cons, Ho by done. done.
    + cbn [length]. lia.
    + intros e' He'. apply elem_of_cons in He' as [->|He']; [ left | right; auto ].
Qed.

Lemma replace_loop_values k v b :
  match replace_loop k v b with
  | Some b' =>
      exists old rest, values_of k b = old :: rest /\ values_of k b' = v :: rest /\
      (forall k', k' <> k -> values_of k' b' = values_of k' b) /\
      length b' = length b /\ entry_key <$> b' = entry_key <$> b
  | None => values_of k b = []
  end.
Proof.
  induction b as [|e b IH]; [ done | ]. cbn [replace_loop]. rewrite values_of_cons.
  destruct (key_eqb k (entry_key e)) eqn:Ek.
  - exists (entry_value e), (values_of k b). rewrite values_of_cons. cbn [entry_key entry_value].
    rewrite Ek. split_and!; try done. intros k' Hk'. rewrite !values_of_cons.
    cbn [entry_key]. unfold key_eqb in *. apply bool_decide_eq_true in Ek as <-.
    by rewrite bool_decide_eq_false_2.
  - destruct (replace_loop k v b) as [b'|]; [ | done ].
    destruct IH as (old & rest & Hb & Hb' & Ho & Hl & Hk). exists old, rest.
    rewrite values_of_cons, Ek. split_and!; try done.
    + intros k' Hk'. rewrite !values_of_cons, Ho by done. done.
    + cbn [length]. lia.
    + rewrite !fmap_cons. by rewrite Hk.
Qed.

(** ** Growing *)

Lemma grow_bucket_ok m old :
  map_wf m ->
  let m' := grow_bucket m old in
  map_wf m' /\ (forall k, values m' k = rev (values_of k old) ++ values m k) /\
  length (entries m') = (length old + length (entries m))%nat /\
  map_length m' = map_length m /\ size m' = size m.
Proof.
  revert m. induction old as [|e old IH]; intros m Hwf; cbn [grow_bucket]; [ done | ].
  pose proof (idx_of_lt m (entry_key e) Hwf) as Hi.
  set (i := idx_of m (entry_key e)) in *.
  set (m1 := mk_map _ _ _ _).
  assert (Hin : forall x, x ∈ e :: bucket m i -> idx_of m (entry_key x) = i).
  { intros x Hx. apply elem_of_cons in Hx as [->|Hx]; [ done | ].
    by apply bucket_index. }
  assert (Hm1 : map m1 = map (set_bucket m i (e :: bucket m i) (size m))) by done.
  assert (Hwf1 : map_wf m1).
  { destruct (set_bucket_wf m i (e :: bucket m i) (size m) Hwf Hi Hin).
    by constructor. }
  destruct (IH m1 Hwf1) as (Hwf' & Hv & Hl & Hml & Hsz). split_and!; try done.
  - intros k. rewrite Hv. unfold values at 1, entries. rewrite Hm1.
    change (concat (map (set_bucket m i (e :: bucket m i) (size m))))
      with (entries (set_bucket m i (e :: bucket m i) (size m))).
    change (values_of k (entries ?x)) with (values x k).
    rewrite values_set_bucket by done. rewrite !values_of_cons.
    case_decide as Hk.
    + rewrite (values_bucket m k Hwf), Hk. unfold key_eqb.
      case_bool_decide as Hke; [ | done ]. cbn [rev]. by rewrite <- app_assoc.
    + unfold key_eqb. rewrite bool_decide_eq_false_2 by (intros ->; done). done.
  - rewrite Hl. unfold entries at 1. rewrite Hm1.
    change (concat (map (set_bucket m i (e :: bucket m i) (size m))))
      with (entries (set_bucket m i (e :: bucket m i) (size m))).
    rewrite entries_set_bucket, (entries_split m i) by done.
    rewrite !length_app. cbn [length]. lia.
Qed.

Lemma grow_ok m :
  map_inv m -> map_length m < 2 ^ 31 ->
  map_inv (grow m) /\ (forall k, values (grow m) k = rev (values m k)) /\
  map_length (grow m) = map_length m * 2 /\ size (grow m) = size m.
Proof.
  intros [Hwf Hs Hb] Hlt. unfold grow. destruct (mw_pos _ Hwf) as [Hp _].
  rewrite u32_small by (unfold is_u32; lia).
  set (m0 := mk_map (replicate _ []) _ _ _).
  assert (Hwf0 : map_wf m0).
  { constructor; unfold m0; cbn [map map_length].
    - rewrite length_replicate. lia.
    - lia.
    - intros i b e Hi He. apply lookup_replicate in Hi as [-> _].
      by apply elem_of_nil in He. }
  assert (He0 : entries m0 = []).
  { unfold entries, m0. cbn [map]. clear. induction (Z.to_nat _); [ done | ]. done. }
  assert (Hfold : forall bs m1, map_wf m1 ->
    let m' := foldl grow_bucket m1 bs in
    map_wf m' /\ (forall k, values m' k = rev (values_of k (concat bs)) ++ values m1 k) /\
    length (entries m') = (length (concat bs) + length (entries m1))%nat /\
    map_length m' = map_length m1 /\ size m' = size m1).
  { clear. induction bs as [|b bs IH]; intros m1 Hwf1; [ done | ]. cbn [foldl concat].
    destruct (grow_bucket_ok m1 b Hwf1) as (Hw & Hv & Hl & Hml & Hsz).
    destruct (IH _ Hw) as (Hw' & Hv' & Hl' & Hml' & Hsz'). split_and!; try congruence.
    - intros k. rewrite Hv', Hv, values_of_app, rev_app_distr. by rewrite app_assoc.
    - rewrite Hl', Hl, length_app. lia. }
  destruct (Hfold (map m) m0 Hwf0) as (Hw & Hv & Hl & Hml & Hsz).
  rewrite He0 in Hl. cbn [length] in Hl. rewrite Nat.add_0_r in Hl.
  change (concat (map m)) with (entries m) in *. split_and!; [ constructor | | done | done ].
  - done.
  - rewrite Hsz, Hl. done.
  - rewrite Hl. done.
  - intros k. rewrite Hv. unfold values. rewrite He0. by rewrite app_nil_r.
Qed.

Lemma put_new_ok m k v :
  map_inv m -> map_length m < 2 ^ 31 -> Z.of_nat (length (entries m)) + 1 < 2 ^ 32 ->
  let '(ret, m') := put_new m k v in
  ret = GNUNET_OK /\ map_inv m' /\ values m' k ≡ₚ v :: values m k /\
  (forall k', k' <> k -> values m' k' ≡ₚ values m k') /\ size m' = size m + 1.
Proof.
  intros Hinv Hlt Hsz. unfold put_new.
  set (m1 := if map_length m / 4 <=? size m / 3 then grow m else m).
  assert (Hm1 : map_inv m1 /\ (forall k', values m1 k' ≡ₚ values m k') /\
                size m1 = size m).
  { unfold m1. case_match; [ | done ].
    destruct (grow_ok m Hinv Hlt) as (Hi & Hv & _ & Hs). split_and!; try done.
    intros k'. rewrite Hv. symmetry. apply Permutation_rev. }
  clearbody m1. destruct Hm1 as (Hinv1 & Hv1 & Hs1).
  pose proof (mi_wf _ Hinv1) as Hwf1. pose proof (idx_of_lt m1 k Hwf1) as Hi.
  set (i := idx_of m1 k) in *.
  assert (Hin : forall x, x ∈ mk_entry k v :: bucket m1 i -> idx_of m1 (entry_key x) = i).
  { intros x Hx. apply elem_of_cons in Hx as [->|Hx]; [ done | by apply bucket_index ]. }
  assert (Hsize : size m1 + 1 < 2 ^ 32) by (rewrite Hs1, (mi_size _ Hinv); lia).
  split_and!; [ done | .. ].
  - apply set_bucket_inv; try done. cbn [length]. lia.
  - rewrite values_set_bucket, decide_True, values_of_cons by done. unfold key_eqb.
    rewrite bool_decide_eq_true_2 by done. rewrite <- Hv1.
    by rewrite (values_bucket m1 k Hwf1).
  - intros k' Hk'. rewrite values_set_bucket by done. rewrite <- Hv1.
    case_decide as Hi'; [ | done ]. rewrite values_of_cons. unfold key_eqb.
    rewrite bool_decide_eq_false_2 by done. by rewrite (values_bucket m1 k' Hwf1), Hi'.
  - cbn [set_bucket size]. rewrite u32_small by (unfold is_u32; rewrite (mi_size _ Hinv1) in *; lia).
    lia.
Qed.

(** ** Iteration *)

(** [iterate] visits all entries, bucket after bucket. *)
Lemma iterate_bucket_app {S : Type} (it : option (S -> GNUNET_HashCode -> V -> S * bool))
  s c b1 b2 :
  iterate_bucket it s c (b1 ++ b2) =
  let '(s', c', go) := iterate_bucket it s c b1 in
  if (go : bool) then iterate_bucket it s' c' b2 else (s', c', false).
Proof.
  revert s c. induction b1 as [|e b1 IH]; intros s c; [ done | ].
  cbn [iterate_bucket app]. destruct it as [f|]; [ | apply IH ].
  destruct (f s (entry_key e) (entry_value e)) as [s' []]; [ apply IH | done ].
Qed.

Lemma iterate_buckets_entries {S : Type} (it : option (S -> GNUNET_HashCode -> V -> S * bool))
  s c bs :
  iterate_buckets it s c bs = fst (iterate_bucket it s c (concat bs)).
Proof.
  revert s c. induction bs as [|b bs IH]; intros s c; [ done | ].
  cbn [iterate_buckets concat]. rewrite iterate_bucket_app.
  destruct (iterate_bucket it s c b) as [[s' c'] []]; [ apply IH | done ].
Qed.

(** [get_multiple] is the iteration over the matching entries. *)
Lemma get_multiple_loop_filter {S : Type}
  (it : option (S -> GNUNET_HashCode -> V -> S * bool)) k s c b :
  get_multiple_loop k it s c b
  = fst (iterate_bucket it s c (mk_entry k <$> values_of k b)).
Proof.
  revert s c. induction b as [|e b IH]; intros s c; [ done | ].
  cbn [get_multiple_loop]. rewrite values_of_cons.
  destruct (key_eqb k (entry_key e)); cbn [negb]; [ | apply IH ].
  rewrite fmap_cons. cbn [iterate_bucket entry_key entry_value].
  destruct it as [f|]; [ | apply IH ].
  destruct (f s k (entry_value e)) as [s' []]; [ apply IH | done ].
Qed.

Lemma iterate_bucket_count {S : Type} (s : S) c b :
  iterate_bucket None s c b = (s, c + Z.of_nat (length b), true).
Proof.
  revert c. induction b as [|e b IH]; intros c; cbn [iterate_bucket length].
  - by rewrite Z.add_0_r.
  - rewrite IH. do 2 f_equal. lia.
Qed.

End MultiHashMap.

Arguments MapEntry : clear implicits.
Arguments GNUNET_CONTAINER_MultiHashMap : clear implicits.

(** ** Properties *)

(** *** Storing an entry *)
Lemma put_ok {V : Type} `{EqDecision V}
  (m : GNUNET_CONTAINER_MultiHashMap V) (k : GNUNET_HashCode) (v : V)
  (opt : GNUNET_CONTAINER_MultiHashMapOption) :
  map_inv m -> map_length m < 2 ^ 31 -> Z.of_nat (length (entries m)) + 1 < 2 ^ 32 ->
  let '(ret, m') := GNUNET_CONTAINER_multihashmap_put m k v opt in
  map_inv m' /\
  (forall k', k' <> k -> values m' k' ≡ₚ values m k') /\
  match opt, values m k with
  | MULTIHASHMAPOPTION_REPLACE, old :: rest =>
      ret = GNUNET_NO /\ values m' k = v :: rest /\ size m' = size m
  | MULTIHASHMAPOPTION_UNIQUE_ONLY, _ :: _ => ret = GNUNET_SYSERR /\ m' = m
  | _, _ => ret = GNUNET_OK /\ values m' k ≡ₚ v :: values m k /\ size m' = size m + 1
  end.
Proof.
  intros Hinv Hlt Hsz. unfold GNUNET_CONTAINER_multihashmap_put.
  pose proof (mi_wf _ Hinv) as Hwf. pose proof (idx_of_lt m k Hwf) as Hi.
  pose proof (put_new_ok m k v Hinv Hlt Hsz) as Hnew.
  destruct (put_new m k v) as [ret1 m1]. destruct Hnew as (-> & Hinv1 & Hk & Ho & Hs).
  pose proof (replace_loop_values k v (bucket m (idx_of m k))) as Hrep.
  rewrite <- (values_bucket m k Hwf) in Hrep.
  destruct opt; cbn [bool_decide decide_rel negb andb]; try done.
  - change (negb (bool_decide (MULTIHASHMAPOPTION_REPLACE = MULTIHASHMAPOPTION_MULTIPLE)) &&
      negb (bool_decide (MULTIHASHMAPOPTION_REPLACE = MULTIHASHMAPOPTION_UNIQUE_FAST)))
      with true. cbv iota.
    destruct (replace_loop k v (bucket m (idx_of m k))) as [b'|].
    + destruct Hrep as (old & rest & -> & Hb' & Hoth & Hlen & Hkeys).
      assert (Hin : forall e, e ∈ b' -> idx_of m (entry_key e) = idx_of m k).
      { intros e He. assert (Hke : entry_key e ∈ entry_key <$> bucket m (idx_of m k)).
        { rewrite <- Hkeys. apply list_elem_of_fmap. by exists e. }
        apply list_elem_of_fmap in Hke as (e' & -> & He'). by apply bucket_index. }
      assert (Hsize : size m < 2 ^ 32) by (rewrite (mi_size _ Hinv); lia).
      cbn. split_and!; try done.
      * apply set_bucket_inv; try done. lia.
      * intros k' Hk'. rewrite values_set_bucket by done.
        case_decide as Hik; [ | done ]. by rewrite Hoth, (values_bucket m k' Hwf), Hik.
      * rewrite values_set_bucket by done. by rewrite decide_True.
      * apply u32_small. unfold is_u32. rewrite (mi_size _ Hinv) in *. lia.
    + rewrite Hrep in Hk |- *. done.
  - change (negb (bool_decide (MULTIHASHMAPOPTION_UNIQUE_ONLY = MULTIHASHMAPOPTION_MULTIPLE))
      && negb (bool_decide (MULTIHASHMAPOPTION_UNIQUE_ONLY = MULTIHASHMAPOPTION_UNIQUE_FAST)))
      with true. cbv iota.
    destruct (replace_loop k v (bucket m (idx_of m k))) as [b'|].
    + destruct Hrep as (old & rest & -> & _). cbn. done.
    + rewrite Hrep in Hk |- *. done.
Qed.

(** C5: put preserves the map invariant, leaves the values of every other key
    alone (also when it grows and rehashes the table), and for its own key
    behaves as its option says: REPLACE overwrites the first value and returns
    GNUNET_NO, UNIQUE_ONLY on a present key returns GNUNET_SYSERR and leaves
    the map unchanged, every other case adds one value, counts it in size and
    returns GNUNET_OK. *)
Theorem multihashmap_put_spec {V : Type} `{EqDecision V}
  (m : GNUNET_CONTAINER_MultiHashMap V) (k : GNUNET_HashCode) (v : V)
  (opt : GNUNET_CONTAINER_MultiHashMapOption) :
  map_inv m -> map_length m < 2 ^ 31 -> Z.of_nat (length (entries m)) + 1 < 2 ^ 32 ->
  let '(ret, m') := GNUNET_CONTAINER_multihashmap_put m k v opt in
  map_inv m' /\
  (forall k', k' <> k -> values m' k' ≡ₚ values m k') /\
  match opt, values m k with
  | MULTIHASHMAPOPTION_REPLACE, old :: rest =>
      ret = GNUNET_NO /\ values m' k = v :: rest /\ size m' = size m
  | MULTIHASHMAPOPTION_UNIQUE_ONLY, _ :: _ => ret = GNUNET_SYSERR /\ m' = m
  | _, _ => ret = GNUNET_OK /\ values m' k ≡ₚ v :: values m k /\ size m' = size m + 1
  end.
Proof. apply put_ok. Qed.

(** A map of two buckets with one entry. *)
Definition sample_key (w : Z) : GNUNET_HashCode := w :: replicate 15 0.
Definition sample_map : GNUNET_CONTAINER_MultiHashMap nat :=
  mk_map [[]; [mk_entry (sample_key 3) 7%nat]] 1 2 false.

Lemma sample_map_inv : map_inv sample_map.
Proof.
  constructor; [ constructor | reflexivity | vm_compute; reflexivity ].
  - reflexivity.
  - cbn. lia.
  - intros i b e Hi He. destruct i as [|[|i]]; cbn in Hi; [ | | done ].
    + injection Hi as <-. by apply elem_of_nil in He.
    + injection Hi as <-. by apply list_elem_of_singleton in He as ->.
Qed.

Lemma multihashmap_put_spec_witness :
  values (snd (GNUNET_CONTAINER_multihashmap_put sample_map (sample_key 3) 8%nat
                 MULTIHASHMAPOPTION_REPLACE)) (sample_key 3) = [8%nat].
Proof.
  exact (proj1 (proj2 (proj2 (proj2 (multihashmap_put_spec sample_map (sample_key 3) 8%nat
    MULTIHASHMAPOPTION_REPLACE sample_map_inv ltac:(vm_compute; reflexivity)
    ltac:(vm_compute; reflexivity)))))).
Defined.

(** *** Looking entries up *)
Lemma lookup_ok {V : Type} `{EqDecision V}
  (m : GNUNET_CONTAINER_MultiHashMap V) (k : GNUNET_HashCode) (v : V) :
  map_inv m ->
  GNUNET_CONTAINER_multihashmap_get m k = head (values m k) /\
  (GNUNET_CONTAINER_multihashmap_contains m k = GNUNET_YES <-> values m k <> []) /\
  (GNUNET_CONTAINER_multihashmap_contains_value m k v = GNUNET_YES <-> v ∈ values m k) /\
  GNUNET_CONTAINER_multihashmap_size m = Z.of_nat (length (entries m)).
Proof.
  intros Hinv. pose proof (mi_wf _ Hinv) as Hwf.
  unfold GNUNET_CONTAINER_multihashmap_get, GNUNET_CONTAINER_multihashmap_contains,
    GNUNET_CONTAINER_multihashmap_contains_value, GNUNET_CONTAINER_multihashmap_size.
  rewrite get_loop_values, contains_loop_values, contains_value_loop_values.
  rewrite <- (values_bucket m k Hwf). split_and!.
  - done.
  - case_decide; done.
  - case_decide; done.
  - by apply mi_size.
Qed.

(** get returns the first value of the key, contains and contains_value
    answer GNUNET_YES exactly when the key has a value (has that value), and
    size is the number of entries. *)
Theorem multihashmap_lookup_spec {V : Type} `{EqDecision V}
  (m : GNUNET_CONTAINER_MultiHashMap V) (k : GNUNET_HashCode) (v : V) :
  map_inv m ->
  GNUNET_CONTAINER_multihashmap_get m k = head (values m k) /\
  (GNUNET_CONTAINER_multihashmap_contains m k = GNUNET_YES <-> values m k <> []) /\
  (GNUNET_CONTAINER_multihashmap_contains_value m k v = GNUNET_YES <-> v ∈ values m k) /\
  GNUNET_CONTAINER_multihashmap_size m = Z.of_nat (length (entries m)).
Proof. apply lookup_ok. Qed.

Lemma multihashmap_lookup_spec_witness :
  GNUNET_CONTAINER_multihashmap_get sample_map (sample_key 3) = Some 7%nat.
Proof.
  rewrite (proj1 (multihashmap_lookup_spec sample_map (sample_key 3) 7%nat sample_map_inv)).
  reflexivity.
Defined.

(** *** Removing entries *)
Lemma remove_ok {V : Type} `{EqDecision V}
  (m : GNUNET_CONTAINER_MultiHashMap V) (k : GNUNET_HashCode) (v : V) :
  map_inv m ->
  (let '(ret, m') := GNUNET_CONTAINER_multihashmap_remove m k v in
   map_inv m' /\ (forall k', k' <> k -> values m' k' = values m k') /\
   (if decide (v ∈ values m k)
    then ret = GNUNET_YES /\ values m' k = remove_first v (values m k) /\
         size m' = size m - 1
    else ret = GNUNET_NO /\ m' = m)) /\
  (let '(ret, m') := GNUNET_CONTAINER_multihashmap_remove_all m k in
   map_inv m' /\ (forall k', k' <> k -> values m' k' = values m k') /\
   values m' k = [] /\ ret = Z.of_nat (length (values m k)) /\ size m' = size m - ret).
Proof.
  intros Hinv. pose proof (mi_wf _ Hinv) as Hwf. pose proof (idx_of_lt m k Hwf) as Hi.
  pose proof (mi_size _ Hinv) as Hsz. pose proof (mi_bound _ Hinv) as Hbd.
  assert (Hlen : length (entries m)
      = (length (concat (take (idx_of m k) (map m))) + (length (bucket m (idx_of m k))
         + length (concat (drop (S (idx_of m k)) (map m)))))%nat).
  { rewrite (entries_split m _ Hi), !length_app. done. }
  split.
  - unfold GNUNET_CONTAINER_multihashmap_remove.
    pose proof (remove_loop_values k v (bucket m (idx_of m k))) as Hrm.
    rewrite <- (values_bucket m k Hwf) in Hrm.
    destruct (remove_loop k v (bucket m (idx_of m k))) as [b'|].
    + destruct Hrm as (Hv & Hk & Ho & Hl & He).
      assert (Hin : forall e, e ∈ b' -> idx_of m (entry_key e) = idx_of m k)
        by (intros e Hx; apply bucket_index; auto).
      rewrite decide_True by done. split_and!.
      * apply set_bucket_inv; try done; lia.
      * intros k' Hk'. rewrite values_set_bucket by done. case_decide as Hik; [ | done ].
        by rewrite Ho, (values_bucket m k' Hwf), Hik.
      * done.
      * rewrite values_set_bucket, decide_True by done. done.
      * cbn. apply u32_small. unfold is_u32. lia.
    + rewrite decide_False by done. done.
  - unfold GNUNET_CONTAINER_multihashmap_remove_all.
    destruct (remove_all_loop k (bucket m (idx_of m k))) as [b' ret] eqn:Er.
    apply remove_all_loop_values in Er as (Hret & Hk & Ho & Hl & He).
    rewrite <- (values_bucket m k Hwf) in Hret.
    assert (Hin : forall e, e ∈ b' -> idx_of m (entry_key e) = idx_of m k)
      by (intros e Hx; apply bucket_index; auto).
    split_and!; [ | | | done | ].
    + apply set_bucket_inv; try done; lia.
    + intros k' Hk'. rewrite values_set_bucket by done. case_decide as Hik; [ | done ].
      by rewrite Ho, (values_bucket m k' Hwf), Hik.
    + rewrite values_set_bucket, decide_True by done. done.
    + cbn. apply u32_small. unfold is_u32. lia.
Qed.

(** remove deletes the first occurrence of the value under the key and
    returns GNUNET_YES, or returns GNUNET_NO and leaves the map unchanged if
    there is none; remove_all deletes all values of the key and returns how
    many there were; both adjust size and leave every other key alone. *)
Theorem multihashmap_remove_spec {V : Type} `{EqDecision V}
  (m : GNUNET_CONTAINER_MultiHashMap V) (k : GNUNET_HashCode) (v : V) :
  map_inv m ->
  (let '(ret, m') := GNUNET_CONTAINER_multihashmap_remove m k v in
   map_inv m' /\ (forall k', k' <> k -> values m' k' = values m k') /\
   (if decide (v ∈ values m k)
    then ret = GNUNET_YES /\ values m' k = remove_first v (values m k) /\
         size m' = size m - 1
    else ret = GNUNET_NO /\ m' = m)) /\
  (let '(ret, m') := GNUNET_CONTAINER_multihashmap_remove_all m k in
   map_inv m' /\ (forall k', k' <> k -> values m' k' = values m k') /\
   values m' k = [] /\ ret = Z.of_nat (length (values m k)) /\ size m' = size m - ret).
Proof. apply remove_ok. Qed.

Lemma multihashmap_remove_spec_witness :
  values (snd (GNUNET_CONTAINER_multihashmap_remove_all sample_map (sample_key 3)))
    (sample_key 3) = [].
Proof.
  exact (proj1 (proj2 (proj2 (proj2 (multihashmap_remove_spec sample_map (sample_key 3) 7%nat
    sample_map_inv))))).
Defined.

(** iterate calls the iterator on every entry in table order until it
    declines and returns the count or GNUNET_SYSERR; get_multiple does the
    same on the values of one key; without an iterator both only count. *)
Theorem multihashmap_iterate_spec {V S : Type} `{EqDecision V}
  (m : GNUNET_CONTAINER_MultiHashMap V) (k : GNUNET_HashCode) (s : S)
  (it : S -> GNUNET_HashCode -> V -> S * bool) :
  map_inv m ->
  GNUNET_CONTAINER_multihashmap_iterate m (Some it) s
  = fst (iterate_bucket (Some it) s 0 (entries m)) /\
  GNUNET_CONTAINER_multihashmap_iterate m None s = (s, size m) /\
  GNUNET_CONTAINER_multihashmap_get_multiple m k (Some it) s
  = fst (iterate_bucket (Some it) s 0 (mk_entry k <$> values m k)) /\
  GNUNET_CONTAINER_multihashmap_get_multiple m k None s
  = (s, Z.of_nat (length (values m k))).
Proof.
  intros Hinv. unfold GNUNET_CONTAINER_multihashmap_iterate,
    GNUNET_CONTAINER_multihashmap_get_multiple.
  rewrite !iterate_buckets_entries, !get_multiple_loop_filter, !iterate_bucket_count.
  rewrite <- (values_bucket m k (mi_wf _ Hinv)), length_fmap. cbn [fst].
  split_and!; try done. change (concat (map m)) with (entries m).
  by rewrite <- (mi_size _ Hinv).
Qed.

Lemma multihashmap_iterate_spec_witness :
  GNUNET_CONTAINER_multihashmap_get_multiple sample_map (sample_key 3)
    (None : option (unit -> GNUNET_HashCode -> nat -> unit * bool)) tt = (tt, 1).
Proof.
  exact (proj2 (proj2 (proj2 (multihashmap_iterate_spec sample_map (sample_key 3) tt
    (fun s _ _ => (s, true)) sample_map_inv)))).
Defined.
