(* ===== verification/MapInterface.v ===== *)
(** * What a hash map promises to its clients

    [MultiMap] is the interface of a map that may hold several values per key; the
    entries are a multiset, so everything is stated up to permutation.  [KeyMap] is the
    interface through which other components use
    [src/util/container_multihashmap.c]: the operations that a client with at most
    one value per key calls, and what they do to the abstract map from keys to lists
    of values.  [km_ok B] is the invariant of a map that never holds more than [B]
    entries; it keeps the table small enough that doubling its length does not wrap
    around.  [multihashmap_key_map] and [multihashmap_multi_map] show that the multi hash
    map keeps the promises. *)

From Stdlib Require Import ZArith Lia.
From stdpp Require Import base list numbers sorting.
From S2P Require Import Prelude Hash MultiHashMap.
Local Open Scope Z_scope.

Class KeyMap (M V : Type) := {
  (** [GNUNET_CONTAINER_multihashmap_create (len, do_not_copy_keys)] *)
  km_create : Z -> bool -> outcome M;
  km_get : M -> GNUNET_HashCode -> option V;
  (** [put] with [GNUNET_CONTAINER_MULTIHASHMAPOPTION_UNIQUE_ONLY] *)
  km_put_unique : M -> GNUNET_HashCode -> V -> Z * M;
  km_remove : M -> GNUNET_HashCode -> V -> Z * M;
  km_values : M -> GNUNET_HashCode -> list V;
  km_count : M -> nat;
  km_ok : nat -> M -> Prop;
  km_create_ok : forall B len copy, 0 < len <= 2 ^ 20 -> Z.of_nat B <= 2 ^ 28 ->
    exists m, km_create len copy = Ret m /\ km_ok B m /\ km_count m = 0%nat
      /\ forall k, km_values m k = [];
  km_get_ok : forall B m k, km_ok B m -> km_get m k = head (km_values m k);
  km_put_ok : forall B m k v, km_ok B m -> km_values m k = [] -> (km_count m < B)%nat ->
    let '(ret, m') := km_put_unique m k v in
    ret = GNUNET_OK /\ km_ok B m' /\ km_values m' k = [v]
    /\ (forall k', k' <> k -> km_values m' k' ≡ₚ km_values m k')
    /\ km_count m' = S (km_count m);
  km_remove_ok : forall B m k v, km_ok B m -> km_values m k = [v] ->
    let '(ret, m') := km_remove m k v in
    ret = GNUNET_YES /\ km_ok B m' /\ km_values m' k = []
    /\ (forall k', k' <> k -> km_values m' k' = km_values m k')
    /\ S (km_count m') = km_count m
}.

Section Instance.
Context {V : Type} `{EqDecision V}.

Definition bounded_map (B : nat) (m : GNUNET_CONTAINER_MultiHashMap V) : Prop :=
  map_inv m /\ (length (entries m) <= B)%nat /\ Z.of_nat B <= 2 ^ 28
  /\ map_length m <= Z.max (2 ^ 20) (3 * Z.of_nat B + 32).

Lemma bounded_create B len copy :
  0 < len <= 2 ^ 20 -> Z.of_nat B <= 2 ^ 28 ->
  exists m : GNUNET_CONTAINER_MultiHashMap V,
    GNUNET_CONTAINER_multihashmap_create len copy = Ret m /\ bounded_map B m
    /\ length (entries m) = 0%nat /\ forall k, values m k = [].
Proof.
  intros Hl HB. unfold GNUNET_CONTAINER_multihashmap_create.
  rewrite gnunet_assert_true by (apply Z.ltb_lt; lia). cbn [mbind outcome_bind].
  eexists. split; [ reflexivity | ]. set (m := mk_map _ _ _ _).
  assert (He : entries m = []).
  { unfold entries, m. cbn [map]. clear. induction (Z.to_nat _); [ done | ]. done. }
  unfold values. rewrite He. split_and!; [ | done | done ]. unfold bounded_map. rewrite He.
  split_and!; [ | cbn; lia | lia | cbn [map_length m]; lia ].
  constructor; [ constructor | by rewrite He | rewrite He; cbn; lia ]; cbn [m map map_length].
  - rewrite length_replicate. lia.
  - lia.
  - intros i b e Hi Hb. apply lookup_replicate in Hi as [-> _]. by apply elem_of_nil in Hb.
Qed.

(** A key that is not there is added by [put_new]. *)
Lemma put_absent (m : GNUNET_CONTAINER_MultiHashMap V) k v :
  map_inv m -> values m k = [] ->
  GNUNET_CONTAINER_multihashmap_put m k v MULTIHASHMAPOPTION_UNIQUE_ONLY = put_new m k v.
Proof.
  intros Hinv Hk. unfold GNUNET_CONTAINER_multihashmap_put.
  pose proof (replace_loop_values k v (bucket m (idx_of m k))) as Hrep.
  rewrite <- (values_bucket m k (mi_wf _ Hinv)), Hk in Hrep.
  destruct (replace_loop k v (bucket m (idx_of m k))) as [b'|].
  - destruct Hrep as (old & rest & Hv & _). done.
  - by destruct (negb _ && negb _).
Qed.

Lemma put_new_length (m : GNUNET_CONTAINER_MultiHashMap V) k v :
  map_inv m -> map_length m < 2 ^ 31 ->
  map_length (put_new m k v).2
  = if map_length m / 4 <=? size m / 3 then map_length m * 2 else map_length m.
Proof.
  intros Hinv Hl. unfold put_new. cbn [snd set_bucket map_length].
  destruct (_ <=? _); [ | done ]. apply (grow_ok m Hinv Hl).
Qed.

Lemma bounded_put B (m : GNUNET_CONTAINER_MultiHashMap V) k v :
  bounded_map B m -> values m k = [] -> (length (entries m) < B)%nat ->
  let '(ret, m') := GNUNET_CONTAINER_multihashmap_put m k v MULTIHASHMAPOPTION_UNIQUE_ONLY in
  ret = GNUNET_OK /\ bounded_map B m' /\ values m' k = [v]
  /\ (forall k', k' <> k -> values m' k' ≡ₚ values m k')
  /\ length (entries m') = S (length (entries m)).
Proof.
  intros (Hinv & Hn & HB & Hl) Hk Hlt. rewrite put_absent by done.
  assert (Hl31 : map_length m < 2 ^ 31) by lia.
  pose proof (put_new_ok m k v Hinv Hl31 ltac:(lia)) as Hp.
  pose proof (put_new_length m k v Hinv Hl31) as Hlen.
  destruct (put_new m k v) as [ret m']. destruct Hp as (-> & Hinv' & Hv & Ho & Hs).
  cbn [snd] in Hlen.
  assert (Hc : length (entries m') = S (length (entries m))).
  { apply Nat2Z.inj. rewrite <- (mi_size _ Hinv'), Hs, (mi_size _ Hinv). lia. }
  split_and!; [ done | | | done | done ].
  - split_and!; [ done | lia | done | ]. rewrite Hlen. destruct (Z.leb_spec (map_length m / 4) (size m / 3)); [ | done ].
    rewrite (mi_size _ Hinv) in *. Z.div_mod_to_equations. lia.
  - rewrite Hk in Hv. by apply Permutation_singleton_r.
Qed.

Lemma bounded_remove B (m : GNUNET_CONTAINER_MultiHashMap V) k v :
  bounded_map B m -> values m k = [v] ->
  let '(ret, m') := GNUNET_CONTAINER_multihashmap_remove m k v in
  ret = GNUNET_YES /\ bounded_map B m' /\ values m' k = []
  /\ (forall k', k' <> k -> values m' k' = values m k')
  /\ S (length (entries m')) = length (entries m).
Proof.
  intros (Hinv & Hn & HB & Hl) Hk. pose proof (proj1 (remove_ok m k v Hinv)) as Hr.
  assert (Hlen : map_length (GNUNET_CONTAINER_multihashmap_remove m k v).2 = map_length m).
  { unfold GNUNET_CONTAINER_multihashmap_remove. by destruct (remove_loop _ _ _). }
  destruct (GNUNET_CONTAINER_multihashmap_remove m k v) as [ret m'].
  destruct Hr as (Hinv' & Ho & Hr). rewrite decide_True in Hr by (rewrite Hk; by left).
  destruct Hr as (-> & Hv & Hs). cbn [snd] in Hlen.
  assert (Hc : S (length (entries m')) = length (entries m)).
  { apply Nat2Z.inj. rewrite Nat2Z.inj_succ, <- (mi_size _ Hinv'), Hs, (mi_size _ Hinv). lia. }
  split_and!; [ done | | | done | done ].
  - split_and!; [ done | lia | done | by rewrite Hlen ].
  - rewrite Hv, Hk. cbn [remove_first]. by rewrite decide_True.
Qed.

Lemma bounded_get B (m : GNUNET_CONTAINER_MultiHashMap V) k :
  bounded_map B m -> GNUNET_CONTAINER_multihashmap_get m k = head (values m k).
Proof.
  intros (Hinv & _). unfold GNUNET_CONTAINER_multihashmap_get.
  by rewrite get_loop_values, <- (values_bucket m k (mi_wf _ Hinv)).
Qed.

#[global] Instance multihashmap_key_map : KeyMap (GNUNET_CONTAINER_MultiHashMap V) V := {
  km_create := GNUNET_CONTAINER_multihashmap_create;
  km_get := GNUNET_CONTAINER_multihashmap_get;
  km_put_unique m k v := GNUNET_CONTAINER_multihashmap_put m k v MULTIHASHMAPOPTION_UNIQUE_ONLY;
  km_remove := GNUNET_CONTAINER_multihashmap_remove;
  km_values := values;
  km_count m := length (entries m);
  km_ok := bounded_map;
  km_create_ok := bounded_create;
  km_get_ok := bounded_get;
  km_put_ok := bounded_put;
  km_remove_ok := bounded_remove
}.

End Instance.

(** ** Several values per key *)

(** A callback that is called on a list of values until it returns [false] *)
Fixpoint walk {S K V : Type} (f : S -> K -> V -> S * bool) (s : S) (l : list (K * V)) : S :=
  match l with
  | [] => s
  | (k, v) :: l' => let '(s', go) := f s k v in if (go : bool) then walk f s' l' else s'
  end.

Class MultiMap (M V : Type) := {
  mm_create : Z -> bool -> outcome M;
  (** [put] with [GNUNET_CONTAINER_MULTIHASHMAPOPTION_MULTIPLE] *)
  mm_put : M -> GNUNET_HashCode -> V -> Z * M;
  mm_remove : M -> GNUNET_HashCode -> V -> Z * M;
  mm_get_multiple : forall {S : Type}, M -> GNUNET_HashCode ->
    (S -> GNUNET_HashCode -> V -> S * bool) -> S -> S;
  mm_iterate : forall {S : Type}, M -> (S -> GNUNET_HashCode -> V -> S * bool) -> S -> S;
  mm_size : M -> Z;
  mm_get : M -> GNUNET_HashCode -> option V;
  mm_contains : M -> GNUNET_HashCode -> Z;
  (** [put] with [GNUNET_CONTAINER_MULTIHASHMAPOPTION_UNIQUE_ONLY] *)
  mm_put_unique : M -> GNUNET_HashCode -> V -> Z * M;
  mm_entries : M -> list (GNUNET_HashCode * V);
  mm_ok : nat -> M -> Prop;
  mm_create_ok : forall B len copy, 0 < len <= 2 ^ 20 -> Z.of_nat B <= 2 ^ 28 ->
    exists m, mm_create len copy = Ret m /\ mm_ok B m /\ mm_entries m = [];
  mm_put_ok : forall B m k v, mm_ok B m -> (length (mm_entries m) < B)%nat ->
    exists m', mm_put m k v = (GNUNET_OK, m') /\ mm_ok B m'
      /\ mm_entries m' ≡ₚ (k, v) :: mm_entries m;
  mm_remove_ok : forall B m k v, mm_ok B m -> (k, v) ∈ mm_entries m ->
    exists m', mm_remove m k v = (GNUNET_YES, m') /\ mm_ok B m'
      /\ mm_entries m ≡ₚ (k, v) :: mm_entries m';
  mm_get_multiple_ok : forall B m k S (f : S -> GNUNET_HashCode -> V -> S * bool) s,
    mm_ok B m -> exists l, l ≡ₚ filter (fun e => e.1 = k) (mm_entries m)
      /\ mm_get_multiple m k f s = walk f s l;
  mm_iterate_ok : forall B m S (f : S -> GNUNET_HashCode -> V -> S * bool) s,
    mm_ok B m -> mm_iterate m f s = walk f s (mm_entries m);
  mm_size_ok : forall B m, mm_ok B m -> mm_size m = Z.of_nat (length (mm_entries m));
  mm_get_ok : forall B m k, mm_ok B m ->
    match mm_get m k with
    | Some v => (k, v) ∈ mm_entries m
    | None => forall v, (k, v) ∉ mm_entries m
    end;
  mm_contains_ok : forall B m k, mm_ok B m ->
    mm_contains m k = if mm_get m k then GNUNET_YES else GNUNET_NO;
  mm_put_unique_ok : forall B m k v, mm_ok B m -> (length (mm_entries m) < B)%nat ->
    mm_get m k = None ->
    exists m', mm_put_unique m k v = (GNUNET_OK, m') /\ mm_ok B m'
      /\ mm_entries m' ≡ₚ (k, v) :: mm_entries m
}.

Section MultiInstance.
Context {V : Type} `{EqDecision V}.

Definition entry_pair (e : MapEntry V) : GNUNET_HashCode * V := (entry_key e, entry_value e).

Lemma elem_of_values_of k v (l : list (MapEntry V)) :
  v ∈ values_of k l <-> mk_entry k v ∈ l.
Proof.
  unfold values_of. rewrite list_elem_of_fmap. split.
  - intros ([k' v'] & -> & Hin). apply list_elem_of_filter in Hin as [Hk Hin]. cbn in Hk. by subst.
  - intros Hin. exists (mk_entry k v). rewrite list_elem_of_filter. done.
Qed.

(** The values of every key determine the entries up to permutation. *)
Lemma values_of_perm (l1 l2 : list (MapEntry V)) :
  (forall k, values_of k l1 ≡ₚ values_of k l2) -> l1 ≡ₚ l2.
Proof.
  revert l2. induction l1 as [|[k v] l1 IH]; intros l2 Hk.
  - destruct l2 as [|[k v] l2]; [ done | ]. specialize (Hk k). rewrite values_of_cons in Hk.
    unfold key_eqb in Hk. cbn in Hk. rewrite bool_decide_eq_true_2 in Hk by done.
    by apply Permutation_nil in Hk.
  - assert (Hin : mk_entry k v ∈ l2).
    { apply elem_of_values_of. rewrite <- (Hk k), values_of_cons. unfold key_eqb. cbn.
      rewrite bool_decide_eq_true_2 by done. by left. }
    apply list_elem_of_In, in_split in Hin as (la & lb & ->).
    rewrite <- Permutation_middle. f_equiv. apply IH. intros k'. specialize (Hk k').
    rewrite values_of_app in Hk. rewrite !values_of_cons in Hk. rewrite values_of_app.
    destruct (key_eqb k' _); [ | done ]. rewrite <- Permutation_middle in Hk.
    by apply Permutation_cons_inv in Hk.
Qed.

Lemma remove_first_perm (v : V) l : v ∈ l -> l ≡ₚ v :: remove_first v l.
Proof.
  induction l as [|x l IH]; intros Hin; [ by apply elem_of_nil in Hin | ]. cbn [remove_first].
  case_decide as Hv; [ by subst | ]. apply elem_of_cons in Hin as [->|Hin]; [ done | ].
  rewrite (IH Hin) at 1. apply perm_swap.
Qed.

Lemma bounded_put_multiple B (m : GNUNET_CONTAINER_MultiHashMap V) k v :
  bounded_map B m -> (length (entry_pair <$> entries m) < B)%nat ->
  exists m', GNUNET_CONTAINER_multihashmap_put m k v MULTIHASHMAPOPTION_MULTIPLE = (GNUNET_OK, m')
    /\ bounded_map B m' /\ entry_pair <$> entries m' ≡ₚ (k, v) :: (entry_pair <$> entries m).
Proof.
  rewrite length_fmap. intros (Hinv & Hn & HB & Hl) Hlt.
  change (GNUNET_CONTAINER_multihashmap_put m k v MULTIHASHMAPOPTION_MULTIPLE) with (put_new m k v).
  assert (Hl31 : map_length m < 2 ^ 31) by lia.
  pose proof (put_new_ok m k v Hinv Hl31 ltac:(lia)) as Hp.
  pose proof (put_new_length m k v Hinv Hl31) as Hlen.
  destruct (put_new m k v) as [ret m']. destruct Hp as (-> & Hinv' & Hv & Ho & Hs).
  cbn [snd] in Hlen.
  assert (Hperm : entries m' ≡ₚ mk_entry k v :: entries m).
  { apply values_of_perm. intros k'. change (values_of k' (entries m')) with (values m' k').
    rewrite values_of_cons. unfold key_eqb. cbn. case_bool_decide as Hk; [ by subst | by apply Ho ]. }
  pose proof (Permutation_length Hperm) as Hc. cbn [length] in Hc.
  exists m'. split_and!; [ done | | by rewrite Hperm ]. split_and!; [ done | lia | done | ].
  rewrite Hlen. destruct (Z.leb_spec (map_length m / 4) (size m / 3)); [ | done ].
  rewrite (mi_size _ Hinv) in *. Z.div_mod_to_equations. lia.
Qed.

Lemma bounded_remove_multiple B (m : GNUNET_CONTAINER_MultiHashMap V) k v :
  bounded_map B m -> (k, v) ∈ entry_pair <$> entries m ->
  exists m', GNUNET_CONTAINER_multihashmap_remove m k v = (GNUNET_YES, m')
    /\ bounded_map B m' /\ entry_pair <$> entries m ≡ₚ (k, v) :: (entry_pair <$> entries m').
Proof.
  intros (Hinv & Hn & HB & Hl) Hin.
  apply list_elem_of_fmap in Hin as ([k1 v1] & [= <- <-] & Hin).
  pose proof (proj1 (remove_ok m k v Hinv)) as Hr.
  assert (Hlen : map_length (GNUNET_CONTAINER_multihashmap_remove m k v).2 = map_length m).
  { unfold GNUNET_CONTAINER_multihashmap_remove. by destruct (remove_loop _ _ _). }
  destruct (GNUNET_CONTAINER_multihashmap_remove m k v) as [ret m'].
  assert (Hv : v ∈ values m k) by by apply elem_of_values_of.
  destruct Hr as (Hinv' & Ho & Hr). rewrite decide_True in Hr by done.
  destruct Hr as (-> & Hrm & Hs). cbn [snd] in Hlen.
  assert (Hperm : entries m ≡ₚ mk_entry k v :: entries m').
  { apply values_of_perm. intros k'. change (values_of k' (entries m)) with (values m k').
    rewrite values_of_cons. change (values_of k' (entries m')) with (values m' k').
    unfold key_eqb. cbn. case_bool_decide as Hk; [ | by rewrite Ho ]. subst.
    rewrite Hrm. by apply remove_first_perm. }
  pose proof (Permutation_length Hperm) as Hc. cbn [length] in Hc.
  exists m'. split_and!; [ done | | by rewrite Hperm ]. split_and!; [ done | lia | done | by rewrite Hlen ].
Qed.

Lemma iterate_bucket_walk {S : Type} (f : S -> GNUNET_HashCode -> V -> S * bool) s c b :
  (iterate_bucket (Some f) s c b).1.1 = walk f s (entry_pair <$> b).
Proof.
  revert s c. induction b as [|e b IH]; intros s c; [ done | ]. cbn.
  destruct (f s (entry_key e) (entry_value e)) as [s' []]; [ apply IH | done ].
Qed.

Lemma bounded_get_multiple B (m : GNUNET_CONTAINER_MultiHashMap V) k S
  (f : S -> GNUNET_HashCode -> V -> S * bool) s :
  bounded_map B m -> exists l, l ≡ₚ filter (fun e => e.1 = k) (entry_pair <$> entries m)
    /\ (GNUNET_CONTAINER_multihashmap_get_multiple m k (Some f) s).1 = walk f s l.
Proof.
  intros (Hinv & _). unfold GNUNET_CONTAINER_multihashmap_get_multiple.
  rewrite get_multiple_loop_filter, iterate_bucket_walk.
  rewrite <- (values_bucket m k (mi_wf _ Hinv)). eexists. split; [ | done ].
  unfold values, values_of. rewrite <- list_fmap_compose. clear.
  induction (entries m) as [|e l IH]; [ done | ]. rewrite !fmap_cons, !filter_cons. cbn.
  destruct e as [k1 v1]. cbn. case_decide as Hk; [ subst; by apply perm_skip | done ].
Qed.

Lemma bounded_iterate B (m : GNUNET_CONTAINER_MultiHashMap V) S
  (f : S -> GNUNET_HashCode -> V -> S * bool) s :
  bounded_map B m ->
  (GNUNET_CONTAINER_multihashmap_iterate m (Some f) s).1 = walk f s (entry_pair <$> entries m).
Proof.
  intros _. unfold GNUNET_CONTAINER_multihashmap_iterate.
  by rewrite iterate_buckets_entries, iterate_bucket_walk.
Qed.

Lemma bounded_size B (m : GNUNET_CONTAINER_MultiHashMap V) :
  bounded_map B m ->
  GNUNET_CONTAINER_multihashmap_size m = Z.of_nat (length (entry_pair <$> entries m)).
Proof. intros (Hinv & _). rewrite length_fmap. apply (mi_size _ Hinv). Qed.

Lemma bounded_create_multiple B len copy :
  0 < len <= 2 ^ 20 -> Z.of_nat B <= 2 ^ 28 ->
  exists m : GNUNET_CONTAINER_MultiHashMap V,
    GNUNET_CONTAINER_multihashmap_create len copy = Ret m /\ bounded_map B m
    /\ entry_pair <$> entries m = [].
Proof.
  intros Hl HB. destruct (bounded_create (V := V) B len copy Hl HB) as (m & Hm & Hok & Hc & _).
  exists m. split_and!; [ done | done | ]. apply nil_length_inv in Hc. by rewrite Hc.
Qed.

Lemma bounded_get_entry B (m : GNUNET_CONTAINER_MultiHashMap V) k :
  bounded_map B m ->
  match GNUNET_CONTAINER_multihashmap_get m k with
  | Some v => (k, v) ∈ entry_pair <$> entries m
  | None => forall v, (k, v) ∉ entry_pair <$> entries m
  end.
Proof.
  intros Hm. rewrite (bounded_get B m k Hm).
  assert (Hin : forall v, (k, v) ∈ entry_pair <$> entries m <-> v ∈ values m k).
  { intros v. unfold values. rewrite elem_of_values_of, list_elem_of_fmap. split.
    - by intros ([k1 v1] & [= <- <-] & H).
    - intros H. by exists (mk_entry k v). }
  destruct (values m k) as [|v l]; cbn [head].
  - intros v H. apply Hin in H. by apply elem_of_nil in H.
  - apply Hin. by left.
Qed.

Lemma bounded_contains B (m : GNUNET_CONTAINER_MultiHashMap V) k :
  bounded_map B m ->
  GNUNET_CONTAINER_multihashmap_contains m k
  = if GNUNET_CONTAINER_multihashmap_get m k then GNUNET_YES else GNUNET_NO.
Proof.
  intros _. unfold GNUNET_CONTAINER_multihashmap_contains, GNUNET_CONTAINER_multihashmap_get.
  rewrite contains_loop_values, get_loop_values. by destruct (values_of k _).
Qed.

Lemma bounded_put_unique B (m : GNUNET_CONTAINER_MultiHashMap V) k v :
  bounded_map B m -> (length (entry_pair <$> entries m) < B)%nat ->
  GNUNET_CONTAINER_multihashmap_get m k = None ->
  exists m', GNUNET_CONTAINER_multihashmap_put m k v MULTIHASHMAPOPTION_UNIQUE_ONLY = (GNUNET_OK, m')
    /\ bounded_map B m' /\ entry_pair <$> entries m' ≡ₚ (k, v) :: (entry_pair <$> entries m).
Proof.
  intros Hm Hlt Hk. rewrite (bounded_get B m k Hm) in Hk. apply head_None in Hk.
  rewrite put_absent by (done || apply Hm).
  by apply (bounded_put_multiple B m k v).
Qed.

#[global] Instance multihashmap_multi_map : MultiMap (GNUNET_CONTAINER_MultiHashMap V) V := {
  mm_create := GNUNET_CONTAINER_multihashmap_create;
  mm_put m k v := GNUNET_CONTAINER_multihashmap_put m k v MULTIHASHMAPOPTION_MULTIPLE;
  mm_remove := GNUNET_CONTAINER_multihashmap_remove;
  mm_get_multiple S m k f s := (GNUNET_CONTAINER_multihashmap_get_multiple m k (Some f) s).1;
  mm_iterate S m f s := (GNUNET_CONTAINER_multihashmap_iterate m (Some f) s).1;
  mm_size := GNUNET_CONTAINER_multihashmap_size;
  mm_get := GNUNET_CONTAINER_multihashmap_get;
  mm_contains := GNUNET_CONTAINER_multihashmap_contains;
  mm_put_unique m k v := GNUNET_CONTAINER_multihashmap_put m k v MULTIHASHMAPOPTION_UNIQUE_ONLY;
  mm_entries m := entry_pair <$> entries m;
  mm_ok := bounded_map;
  mm_create_ok := bounded_create_multiple;
  mm_put_ok := bounded_put_multiple;
  mm_remove_ok := bounded_remove_multiple;
  mm_get_multiple_ok := bounded_get_multiple;
  mm_iterate_ok := bounded_iterate;
  mm_size_ok := bounded_size;
  mm_get_ok := bounded_get_entry;
  mm_contains_ok := bounded_contains;
  mm_put_unique_ok := bounded_put_unique
}.

End MultiInstance.
