(* ===== verification/Peer.v ===== *)
(** * Interned peer identities: [src/util/peer.c]

    A table of peer identities with reference counts: components keep small integers
    instead of 64-byte identities.  Slots that are not used form a free list through
    their [pid]; a hash map finds the slot of an identity.  The table, its free list
    and the map are the global variables of the source.

    The map is used through [KeyMap].  Its values are the pointers to table entries,
    which are the indices of the table here; the keys that the source lends to the
    map are the identities in the entries, and the invariant shows that an entry does
    not change while the map refers to it. *)

From Stdlib Require Import ZArith Lia.
From stdpp Require Import base list numbers sorting.
From S2P Require Import Prelude Hash MultiHashMap MapInterface.
Local Open Scope Z_scope.

Record PeerEntry := mk_peer { id : GNUNET_HashCode; pid : nat; rc : Z }.

(** [struct GNUNET_PeerIdentity] filled with zeros *)
Definition zero_id : GNUNET_HashCode := replicate 16 0.

Section Peer.
Context {M : Type} `{KeyMap M nat}.

Record peer_state := mk_state {
  table : list PeerEntry;
  peer_map : option M;
  free_list_start : nat
}.

Definition initial_state : peer_state := mk_state [] None 0.

(** [table[i]]; [size] is the length of the table. *)
Definition entry (t : list PeerEntry) (i : nat) : outcome PeerEntry := of_option (t !! i).

Definition GNUNET_PEER_search (st : peer_state) (p : option GNUNET_HashCode) : outcome nat :=
  match p, peer_map st with
  | Some k, Some m =>
      match km_get m k with
      | None => Ret 0%nat
      | Some i => e ← entry (table st) i;
                  _ ← gnunet_assert (0 <? rc e);
                  Ret (pid e)
      end
  | _, _ => Ret 0%nat
  end.

(** [GNUNET_array_grow (table, size, size + 16)] and the loop that fills the new
    slots when the free list is empty *)
Definition grow_table (t : list PeerEntry) (ret : nat) : list PeerEntry :=
  if (ret =? length t)%nat
  then t ++ ((fun i => mk_peer zero_id (S i) 0) <$> seq (length t) 16)
  else t.

(** Slot 0 is never handed out: [if (0 == ret) ...] *)
Definition reserve_zero (t : list PeerEntry) (ret : nat) : outcome (list PeerEntry * nat) :=
  if (ret =? 0)%nat
  then e ← entry t 0; Ret (<[0%nat := mk_peer (id e) 0 1]> t, 1%nat)
  else Ret (t, ret).

Definition GNUNET_PEER_intern (st : peer_state) (p : option GNUNET_HashCode)
  : outcome (nat * peer_state) :=
  match p with
  | None => Ret (0%nat, st)
  | Some k =>
      m ← match peer_map st with None => km_create 32 true | Some m => Ret m end;
      match km_get m k with
      | Some i =>
          e ← entry (table st) i;
          _ ← gnunet_assert (0 <? rc e);
          Ret (pid e, mk_state (<[i := mk_peer (id e) (pid e) (u32 (rc e + 1))]> (table st))
                        (Some m) (free_list_start st))
      | None =>
          '(t, ret) ← reserve_zero (grow_table (table st) (free_list_start st))
                        (free_list_start st);
          _ ← gnunet_assert (ret <? length t)%nat;
          e ← entry t ret;
          _ ← gnunet_assert (rc e =? 0);
          let '(_, m') := km_put_unique m k ret in
          Ret (ret, mk_state (<[ret := mk_peer k ret 1]> t) (Some m') (pid e))
      end
  end.

(** The end of [decrement_rcs] and [change_rc]: the entry [e] of slot [i] has its new
    reference count; a slot that is not used any more is freed. *)
Definition put_back (st : peer_state) (i : nat) (e : PeerEntry) : outcome peer_state :=
  if rc e =? 0
  then
    m ← of_option (peer_map st);
    let '(_, m') := km_remove m (id e) i in
    Ret (mk_state (<[i := mk_peer (id e) (free_list_start st) 0]> (table st)) (Some m') i)
  else Ret (mk_state (<[i := e]> (table st)) (peer_map st) (free_list_start st)).

(** One round of the loop of [decrement_rcs] *)
Definition decrement_rc (st : peer_state) (i : nat) : outcome peer_state :=
  if (i =? 0)%nat then Ret st
  else
    _ ← gnunet_assert (i <? length (table st))%nat;
    e ← entry (table st) i;
    _ ← gnunet_assert (0 <? rc e);
    put_back st i (mk_peer (id e) (pid e) (u32 (rc e - 1))).

(** From the last identifier to the first *)
Fixpoint decrement_loop (st : peer_state) (rev_ids : list nat) : outcome peer_state :=
  match rev_ids with
  | [] => Ret st
  | i :: rest => st' ← decrement_rc st i; decrement_loop st' rest
  end.

Definition GNUNET_PEER_decrement_rcs (st : peer_state) (ids : list nat) : outcome peer_state :=
  decrement_loop st (rev ids).

(** [table[id]->rc >= -delta] compares unsigned numbers. *)
Definition GNUNET_PEER_change_rc (st : peer_state) (i : nat) (delta : Z) : outcome peer_state :=
  if (i =? 0)%nat then Ret st
  else
    _ ← gnunet_assert (i <? length (table st))%nat;
    e ← entry (table st) i;
    _ ← gnunet_assert (0 <? rc e);
    _ ← gnunet_assert ((0 <=? delta) || (u32 (- delta) <=? rc e));
    put_back st i (mk_peer (id e) (pid e) (u32 (rc e + delta))).

Definition GNUNET_PEER_resolve (st : peer_state) (i : nat) : outcome GNUNET_HashCode :=
  if (i =? 0)%nat then Ret zero_id
  else
    _ ← gnunet_assert (i <? length (table st))%nat;
    e ← entry (table st) i;
    _ ← gnunet_assert (0 <? rc e);
    Ret (id e).

Definition GNUNET_PEER_resolve2 (st : peer_state) (i : nat) : outcome GNUNET_HashCode :=
  e ← entry (table st) i; Ret (id e).

(** ** The invariant *)

(** The slots of the free list, from [start] to the end of the table *)
Fixpoint chain (t : list PeerEntry) (start : nat) (fl : list nat) : Prop :=
  match fl with
  | [] => start = length t
  | i :: fl' => start = i /\ exists e, t !! i = Some e /\ rc e = 0 /\ chain t (pid e) fl'
  end.

(** The slots under which the map knows a peer *)
Definition slots (st : peer_state) (k : GNUNET_HashCode) : list nat :=
  match peer_map st with Some m => km_values m k | None => [] end.

(** How often a peer is referenced *)
Definition refs (st : peer_state) (k : GNUNET_HashCode) : Z :=
  match slots st k with
  | i :: _ => match table st !! i with Some e => rc e | None => 0 end
  | [] => 0
  end.

Record peer_inv (B : nat) (st : peer_state) : Prop := {
  pi_bound : (length (table st) <= B)%nat /\ Z.of_nat B <= 2 ^ 28;
  pi_map : match peer_map st with Some m => km_ok B m | None => True end;
  pi_zero : forall e, table st !! 0%nat = Some e -> rc e = 1;
  pi_rc : forall i e, table st !! i = Some e -> is_u32 (rc e);
  pi_free : exists fl, NoDup fl /\ chain (table st) (free_list_start st) fl
      /\ (forall i e, table st !! i = Some e -> rc e = 0 -> i ∈ fl)
      /\ (table st <> [] ->
          match peer_map st with Some m => km_count m | None => 0%nat end + length fl + 1
          = length (table st))%nat
      /\ (table st = [] -> match peer_map st with Some m => km_count m = 0%nat | None => True end);
  pi_used : forall i e, table st !! i = Some e -> i <> 0%nat -> 0 < rc e ->
      pid e = i /\ slots st (id e) = [i];
  pi_slots : forall k i, i ∈ slots st k ->
      i <> 0%nat /\ exists e, table st !! i = Some e /\ 0 < rc e /\ id e = k
}.

(** ** The free list *)

Lemma chain_elem t start fl i :
  chain t start fl -> i ∈ fl -> exists e, t !! i = Some e /\ rc e = 0.
Proof.
  revert start. induction fl as [|j fl IH]; intros start Hc Hi; [ by apply elem_of_nil in Hi | ].
  destruct Hc as (_ & e & He & Hr & Hc). apply elem_of_cons in Hi as [->|Hi]; [ eauto | ].
  by eapply IH.
Qed.

Lemma chain_same t t' start fl :
  length t' = length t -> (forall i, i ∈ fl -> t' !! i = t !! i) -> chain t start fl ->
  chain t' start fl.
Proof.
  intros Hl. revert start. induction fl as [|j fl IH]; intros start Hs Hc.
  - cbn in *. congruence.
  - destruct Hc as (-> & e & He & Hr & Hc). split; [ done | ]. exists e.
    split_and!; [ rewrite Hs by (by left); done | done | ]. apply IH; [ | done ].
    intros i Hi. apply Hs. by right.
Qed.

(** Fresh slots form a chain of their own. *)
Lemma chain_fresh t a n :
  length t = (a + n)%nat ->
  (forall i, (a <= i < a + n)%nat -> t !! i = Some (mk_peer zero_id (S i) 0)) ->
  chain t a (seq a n).
Proof.
  revert a. induction n as [|n IH]; intros a Hl Ht.
  - cbn. lia.
  - cbn [seq chain]. split; [ done | ]. eexists. split_and!; [ apply Ht; lia | done | ].
    cbn [pid]. apply IH; [ lia | ]. intros i Hi. apply Ht. lia.
Qed.

(** ** The slots of a peer *)

Lemma slots_cases B st k :
  peer_inv B st ->
  slots st k = []
  \/ exists i e, slots st k = [i] /\ i <> 0%nat /\ table st !! i = Some e /\ 0 < rc e /\ id e = k
       /\ pid e = i.
Proof.
  intros Hinv. destruct (slots st k) as [|i l] eqn:E; [ by left | right ].
  destruct (pi_slots _ _ Hinv k i) as (Hi & e & He & Hr & <-); [ rewrite E; by left | ].
  destruct (pi_used _ _ Hinv i e He Hi Hr) as [Hp Hs]. rewrite E in Hs. simplify_eq.
  exists (pid e), e. done.
Qed.

Lemma search_ok B st k :
  peer_inv B st -> GNUNET_PEER_search st (Some k) = Ret (default 0%nat (head (slots st k))).
Proof.
  intros Hinv. pose proof (slots_cases B st k Hinv) as Hs. unfold GNUNET_PEER_search, slots in *.
  pose proof (pi_map _ _ Hinv) as Hm. destruct (peer_map st) as [m|]; [ | done ].
  rewrite (km_get_ok B m k Hm). destruct Hs as [-> | (i & e & -> & Hi & He & Hr & _ & Hp)]; [ done | ].
  cbn [head]. unfold entry. rewrite He. cbn [of_option mbind outcome_bind].
  rewrite gnunet_assert_true by (apply Z.ltb_lt; lia). cbn [mbind outcome_bind]. by rewrite Hp.
Qed.

Lemma resolve_ok st i e :
  i <> 0%nat -> table st !! i = Some e -> 0 < rc e -> GNUNET_PEER_resolve st i = Ret (id e).
Proof.
  intros Hi He Hr. unfold GNUNET_PEER_resolve, entry.
  rewrite (proj2 (Nat.eqb_neq _ _) Hi). apply lookup_lt_Some in He as Hl.
  rewrite gnunet_assert_true by (by apply Nat.ltb_lt). rewrite He. cbn [of_option mbind outcome_bind].
  rewrite gnunet_assert_true by (by apply Z.ltb_lt). done.
Qed.

Lemma resolve_inv st i q :
  i <> 0%nat -> GNUNET_PEER_resolve st i = Ret q ->
  exists e, table st !! i = Some e /\ 0 < rc e /\ id e = q.
Proof.
  intros Hi. unfold GNUNET_PEER_resolve, entry. rewrite (proj2 (Nat.eqb_neq _ _) Hi).
  destruct (_ <? _)%nat; [ | done ]. cbn [gnunet_assert mbind outcome_bind].
  destruct (table st !! i) as [e|]; [ | done ]. cbn [of_option mbind outcome_bind].
  destruct (0 <? rc e) eqn:E; [ | done ]. cbn. intros [= <-]. exists e. split_and!; [ done | lia | done ].
Qed.

(** ** The map exists once it is needed *)

Lemma ensure_map B st :
  peer_inv B st ->
  exists m, (match peer_map st with None => km_create 32 true | Some m => Ret m end) = Ret m
    /\ let st1 := mk_state (table st) (Some m) (free_list_start st) in
       peer_inv B st1 /\ forall k, slots st1 k = slots st k.
Proof.
  intros Hinv. destruct (peer_map st) as [m|] eqn:Em.
  - exists m. split; [ done | ]. cbv zeta. replace (mk_state _ _ _) with st; [ done | ].
    destruct st; cbn in *; by subst.
  - destruct (km_create_ok (M := M) B 32 true) as (m & Hm & Hok & Hc & Hv);
      [ lia | apply (pi_bound _ _ Hinv) | ].
    exists m. split; [ done | ]. cbv zeta.
    assert (Hs : forall k, slots (mk_state (table st) (Some m) (free_list_start st)) k = slots st k).
    { intros k. unfold slots. cbn [peer_map]. by rewrite Em, Hv. }
    split; [ | exact Hs ].
    destruct Hinv as [Hb _ Hz Hrc (fl & Hnd & Hch & Hin & Hct & Hem) Hu Hsl]. rewrite Em in Hct.
    constructor; cbn [table peer_map free_list_start]; try done.
    + exists fl. split_and!; try done. intros Ht. rewrite Hc. by apply Hct.
    + intros i e He Hi Hr. rewrite Hs. by apply Hu.
    + intros k i Hi. rewrite Hs in Hi. by apply Hsl.
Qed.

(** What an operation on the peer [k] leaves alone *)
Definition frame (st st' : peer_state) (k : GNUNET_HashCode) : Prop :=
  (forall k', k' <> k -> slots st' k' = slots st k' /\ refs st' k' = refs st k')
  /\ forall j q, j <> 0%nat -> q <> k -> GNUNET_PEER_resolve st j = Ret q ->
       GNUNET_PEER_resolve st' j = Ret q.

(** Entries in use that agree give the same references. *)
Lemma refs_same B st st' k :
  peer_inv B st -> slots st' k = slots st k ->
  (forall i e, table st !! i = Some e -> i <> 0%nat -> 0 < rc e -> id e = k ->
     table st' !! i = Some e) ->
  refs st' k = refs st k.
Proof.
  intros Hinv Hs Ht. unfold refs. rewrite Hs.
  destruct (slots_cases B st k Hinv) as [-> | (i & e & -> & Hi & He & Hr & Hk & _)]; [ done | ].
  by rewrite (Ht i e), He.
Qed.

(** *** Changing a reference count that stays positive *)
Lemma set_rc_ok B st i e r :
  peer_inv B st -> i <> 0%nat -> table st !! i = Some e -> 0 < rc e -> 0 < r < 2 ^ 32 ->
  let st' := mk_state (<[i := mk_peer (id e) (pid e) r]> (table st)) (peer_map st)
               (free_list_start st) in
  peer_inv B st' /\ refs st' (id e) = r /\ slots st' (id e) = [i] /\ frame st st' (id e)
  /\ GNUNET_PEER_resolve st' i = Ret (id e).
Proof.
  intros Hinv Hi He Hr Hr' st'. pose proof (lookup_lt_Some _ _ _ He) as Hlt.
  destruct (pi_used _ _ Hinv i e He Hi Hr) as [Hp Hs].
  assert (Hsame : forall k, slots st' k = slots st k) by done.
  assert (Hget : table st' !! i = Some (mk_peer (id e) (pid e) r))
    by (by apply list_lookup_insert_eq).
  assert (Hother : forall j, j <> i -> table st' !! j = table st !! j)
    by (intros j Hj; by apply list_lookup_insert_ne).
  assert (Hlen : length (table st') = length (table st)) by apply length_insert.
  assert (Hpm : peer_map st' = peer_map st) by done.
  assert (Hfs : free_list_start st' = free_list_start st) by done. clearbody st'.
  split_and!; [ | by unfold refs; rewrite Hsame, Hs, Hget | by rewrite Hsame | | ].
  - destruct Hinv as [Hb Hm Hz Hrc (fl & Hnd & Hch & Hin & Hct & Hem) Hu Hsl].
    assert (Hifl : forall j, j ∈ fl -> j <> i).
    { intros j Hj ->. destruct (chain_elem _ _ _ _ Hch Hj) as (e' & He' & Hr0). simplify_eq. lia. }
    constructor; rewrite ?Hpm, ?Hfs, ?Hlen; try done.
    + intros e0 H0. rewrite Hother in H0 by done. by apply Hz.
    + intros j e0 Hj. destruct (decide (j = i)) as [->|Hne].
      * rewrite Hget in Hj. simplify_eq. cbn. unfold is_u32. lia.
      * rewrite Hother in Hj by done. by eapply Hrc.
    + exists fl. split_and!; [ done | | | | ].
      * eapply chain_same; [ exact Hlen | | exact Hch ]. intros j Hj. by apply Hother, Hifl.
      * intros j e0 Hj Hr0. destruct (decide (j = i)) as [->|Hne].
        { rewrite Hget in Hj. simplify_eq. cbn in Hr0. lia. }
        rewrite Hother in Hj by done. by eapply Hin.
      * intros _. apply Hct. intros Ht. rewrite Ht in He. done.
      * intros Ht. apply Hem. apply nil_length_inv. by rewrite <- Hlen, Ht.
    + intros j e0 Hj Hj0 Hr0. destruct (decide (j = i)) as [->|Hne].
      * rewrite Hget in Hj. simplify_eq. cbn [pid id]. by rewrite Hsame.
      * rewrite Hother in Hj by done. rewrite Hsame. by apply Hu.
    + intros k j Hj. rewrite Hsame in Hj. destruct (Hsl k j Hj) as (Hj0 & e0 & He0 & Hr0 & Hk). split; [ done | ].
      destruct (decide (j = i)) as [->|Hne].
      * rewrite He in He0. simplify_eq. rewrite Hget. eexists. split_and!; [ done | cbn; lia | done ].
      * rewrite Hother by done. eauto.
  - split.
    + intros k' Hk'. split; [ done | ]. apply (refs_same B); [ done | done | ].
      intros j e0 Hj _ _ Hk. destruct (decide (j = i)) as [->|Hne]; [ congruence | ].
      by rewrite Hother.
    + intros j q Hj Hq Hres. apply resolve_inv in Hres as (e0 & He0 & Hr0 & <-); [ | done ].
      apply resolve_ok; [ done | | done ]. rewrite Hother; [ done | ]. intros ->. congruence.
  - apply (resolve_ok st' i (mk_peer (id e) (pid e) r)); [ done | done | cbn; lia ].
Qed.

(** *** Freeing a slot *)
Lemma free_slot_ok B st i e m :
  peer_inv B st -> peer_map st = Some m -> i <> 0%nat -> table st !! i = Some e -> 0 < rc e ->
  let st' := mk_state (<[i := mk_peer (id e) (free_list_start st) 0]> (table st))
               (Some (km_remove m (id e) i).2) i in
  peer_inv B st' /\ refs st' (id e) = 0 /\ slots st' (id e) = [] /\ frame st st' (id e).
Proof.
  intros Hinv Hm Hi He Hr st'. pose proof (lookup_lt_Some _ _ _ He) as Hlt.
  destruct (pi_used _ _ Hinv i e He Hi Hr) as [Hp Hs].
  pose proof (pi_map _ _ Hinv) as Hok. rewrite Hm in Hok.
  assert (Hsv : km_values m (id e) = [i]) by (unfold slots in Hs; by rewrite Hm in Hs).
  pose proof (km_remove_ok B m (id e) i Hok Hsv) as Hrm.
  unfold st' in *. destruct (km_remove m (id e) i) as [ret m'] eqn:Erm. cbn [snd] in *.
  destruct Hrm as (_ & Hok' & Hv0 & Hvo & Hcnt). clear st'. set (st' := mk_state _ _ _).
  assert (Hget : table st' !! i = Some (mk_peer (id e) (free_list_start st) 0))
    by (by apply list_lookup_insert_eq).
  assert (Hother : forall j, j <> i -> table st' !! j = table st !! j)
    by (intros j Hj; by apply list_lookup_insert_ne).
  assert (Hsk : slots st' (id e) = []) by done.
  assert (Hlen : length (table st') = length (table st)) by apply length_insert.
  assert (Hpm : peer_map st' = Some m') by done.
  assert (Hfs : free_list_start st' = i) by done. clearbody st'.
  assert (Hso : forall k, k <> id e -> slots st' k = slots st k).
  { intros k Hk. unfold slots. rewrite Hpm, Hm. by apply Hvo. }
  split_and!; [ | by unfold refs; rewrite Hsk | done | ].
  - destruct Hinv as [Hb _ Hz Hrc (fl & Hnd & Hch & Hin & Hct & Hem) Hu Hsl]. rewrite Hm in Hct.
    assert (Hifl : i ∉ fl).
    { intros Hj. destruct (chain_elem _ _ _ _ Hch Hj) as (e' & He' & Hr0). simplify_eq. lia. }
    constructor; rewrite ?Hpm, ?Hfs, ?Hlen; try done.
    + intros e0 H0. rewrite Hother in H0 by done. by apply Hz.
    + intros j e0 Hj. destruct (decide (j = i)) as [->|Hne].
      * rewrite Hget in Hj. simplify_eq. cbn. unfold is_u32. lia.
      * rewrite Hother in Hj by done. by eapply Hrc.
    + exists (i :: fl). split_and!; [ by constructor | | | | ].
      * split; [ done | ]. eexists. split_and!; [ exact Hget | done | ]. cbn [pid].
        eapply chain_same; [ exact Hlen | | exact Hch ].
        intros j Hj. apply Hother. by intros ->.
      * intros j e0 Hj Hr0. destruct (decide (j = i)) as [->|Hne]; [ by left | ].
        rewrite Hother in Hj by done. right. by eapply Hin.
      * intros _. cbn [length]. specialize (Hct ltac:(intros Ht; rewrite Ht in He; done)). lia.
      * intros Ht. rewrite Ht in Hlen. cbn in Hlen. lia.
    + intros j e0 Hj Hj0 Hr0. destruct (decide (j = i)) as [->|Hne].
      { rewrite Hget in Hj. injection Hj as <-. cbn in Hr0. lia. }
      rewrite Hother in Hj by done. destruct (Hu j e0 Hj Hj0 Hr0) as [Hp0 Hs0]. split; [ done | ].
      rewrite Hso; [ done | ]. intros Hk. rewrite Hk, Hs in Hs0. congruence.
    + intros k j Hj. destruct (decide (k = id e)) as [->|Hk].
      { rewrite Hsk in Hj. by apply elem_of_nil in Hj. }
      rewrite Hso in Hj by done. destruct (Hsl k j Hj) as (Hj0 & e0 & He0 & Hr0 & Hk0).
      split; [ done | ]. exists e0. rewrite Hother; [ done | ]. intros ->. congruence.
  - split.
    + intros k' Hk'. split; [ by apply Hso | ]. apply (refs_same B); [ done | by apply Hso | ].
      intros j e0 Hj _ _ Hk. rewrite Hother; [ done | ]. intros ->. congruence.
    + intros j q Hj Hq Hres. apply resolve_inv in Hres as (e0 & He0 & Hr0 & <-); [ | done ].
      apply resolve_ok; [ done | | done ]. rewrite Hother; [ done | ]. intros ->. congruence.
Qed.

(** *** Taking a slot from the free list *)

Lemma grown_lookup t i n :
  (length t <= i < length t + n)%nat ->
  (t ++ ((fun i => mk_peer zero_id (S i) 0) <$> seq (length t) n)) !! i
  = Some (mk_peer zero_id (S i) 0).
Proof.
  intros Hi. rewrite lookup_app_r, list_lookup_fmap, lookup_seq_lt by lia. cbn. do 2 f_equal; lia.
Qed.

Lemma grown_lookup_inv t i n e :
  (t ++ ((fun i => mk_peer zero_id (S i) 0) <$> seq (length t) n)) !! i = Some e ->
  t !! i = Some e \/ (length t <= i < length t + n)%nat /\ e = mk_peer zero_id (S i) 0.
Proof.
  intros H0. destruct (decide (i < length t)%nat) as [Hlt|Hge].
  - left. by rewrite lookup_app_l in H0.
  - right. assert (Hi : (length t <= i < length t + n)%nat).
    { apply lookup_lt_Some in H0. rewrite length_app, length_fmap, length_seq in H0. lia. }
    rewrite grown_lookup in H0 by done. split; congruence.
Qed.

(** What [intern] knows about the table before it fills the slot [ret]: the rest of
    the free list is [fl], and the entries in use did not change. *)
Definition slot_ready (st : peer_state) (B : nat) (t : list PeerEntry) (ret : nat)
  (e : PeerEntry) (fl : list nat) : Prop :=
  ret <> 0%nat /\ t !! ret = Some e /\ rc e = 0 /\ NoDup (ret :: fl) /\ chain t (pid e) fl
  /\ (forall i e0, t !! i = Some e0 -> rc e0 = 0 -> i ∈ ret :: fl)
  /\ (forall e0, t !! 0%nat = Some e0 -> rc e0 = 1)
  /\ (forall i e0, i <> 0%nat -> 0 < rc e0 -> t !! i = Some e0 <-> table st !! i = Some e0)
  /\ (forall i e0, t !! i = Some e0 -> is_u32 (rc e0))
  /\ (length t <= B)%nat
  /\ (match peer_map st with Some m => km_count m | None => 0 end + S (length fl) + 1
      = length t)%nat.

Lemma prepare_first B st :
  peer_inv B st -> table st = [] -> (16 <= B)%nat ->
  exists t e fl, reserve_zero (grow_table [] 0) 0 = Ret (t, 1%nat)
    /\ slot_ready st B t 1 e fl.
Proof.
  intros Hinv Ht HB. unfold grow_table, reserve_zero, entry. cbn [length Nat.eqb].
  set (g := [] ++ _). assert (Hl : length g = 16%nat) by reflexivity.
  assert (Hg : forall i, (i < 16)%nat -> g !! i = Some (mk_peer zero_id (S i) 0)).
  { intros i Hi. unfold g. apply (grown_lookup [] i 16). cbn; lia. }
  assert (Hg' : forall i e0, g !! i = Some e0 -> (i < 16)%nat /\ e0 = mk_peer zero_id (S i) 0).
  { intros i e0 H0. apply lookup_lt_Some in H0 as Hlt. rewrite Hl in Hlt. rewrite Hg in H0 by done.
    split; congruence. }
  clearbody g. rewrite (Hg 0%nat) by lia. cbn [of_option mbind outcome_bind id].
  set (t := <[0%nat := _]> g).
  assert (Ht0 : t !! 0%nat = Some (mk_peer zero_id 0 1)) by (apply list_lookup_insert_eq; lia).
  assert (Hti : forall i, i <> 0%nat -> t !! i = g !! i)
    by (intros i Hi; apply list_lookup_insert_ne; lia).
  assert (Hlt : length t = 16%nat) by (unfold t; by rewrite length_insert).
  exists t, (mk_peer zero_id 2 0), (seq 2 14). split; [ done | ]. unfold slot_ready.
  split_and!; [ done | rewrite Hti, Hg by lia; done | done | apply (NoDup_seq 1 15) | | | | | | lia | ].
  - cbn [pid]. apply chain_fresh; [ lia | ]. intros i Hi. rewrite Hti, Hg by lia. done.
  - intros i e0 H0 Hr. change (1%nat :: seq 2 14) with (seq 1 15). apply elem_of_seq.
    destruct (decide (i = 0%nat)) as [->|Hi]; [ rewrite Ht0 in H0; injection H0 as <-; done | ].
    rewrite Hti in H0 by done. apply Hg' in H0 as [? _]. lia.
  - intros e0 H0. rewrite Ht0 in H0. by injection H0 as <-.
  - intros i e0 Hi Hr. rewrite Hti, Ht by done. split; [ | done ].
    intros [_ ->]%Hg'. cbn in Hr. lia.
  - intros i e0 H0. destruct (decide (i = 0%nat)) as [->|Hi].
    + rewrite Ht0 in H0. injection H0 as <-. cbn. unfold is_u32. lia.
    + rewrite Hti in H0 by done. apply Hg' in H0 as [_ ->]. cbn. unfold is_u32. lia.
  - rewrite length_seq. destruct (pi_free _ _ Hinv) as (fl & _ & _ & _ & _ & Hem).
    specialize (Hem Ht). rewrite Hlt. destruct (peer_map st); lia.
Qed.

Lemma prepare_slot B st :
  peer_inv B st -> (length (table st) + 16 <= B)%nat ->
  exists t ret e fl,
    reserve_zero (grow_table (table st) (free_list_start st)) (free_list_start st) = Ret (t, ret)
    /\ slot_ready st B t ret e fl.
Proof.
  intros Hinv HB. destruct (pi_free _ _ Hinv) as (fl & Hnd & Hch & Hin & Hct & Hem).
  destruct fl as [|i fl].
  - cbn in Hch. rewrite Hch. destruct (decide (table st = [])) as [Ht|Ht].
    { destruct (prepare_first B st Hinv Ht ltac:(lia)) as (t & e & fl & Hr & Hs).
      exists t, 1%nat, e, fl. by rewrite Ht. }
    set (n := length (table st)) in *.
    assert (Hn : (0 < n)%nat) by (unfold n; destruct (table st); [ done | cbn; lia ]).
    unfold grow_table, reserve_zero. rewrite Nat.eqb_refl, (proj2 (Nat.eqb_neq n 0)) by lia.
    set (t := table st ++ _). assert (Hlt : length t = (n + 16)%nat)
      by (unfold t; rewrite length_app, length_fmap, length_seq; lia).
    exists t, n, (mk_peer zero_id (S n) 0), (seq (S n) 15). split; [ done | ]. unfold slot_ready.
    split_and!; [ lia | apply grown_lookup; lia | done | apply (NoDup_seq n 16) | | | | | | lia | ].
    + cbn [pid]. apply chain_fresh; [ lia | ]. intros i Hi. apply grown_lookup. lia.
    + intros i e0 H0 Hr. change (n :: seq (S n) 15) with (seq n 16). apply elem_of_seq.
      apply grown_lookup_inv in H0 as [H0|[? _]]; [ | lia ].
      apply Hin in H0; [ by apply elem_of_nil in H0 | done ].
    + intros e0 H0. unfold t in H0. rewrite lookup_app_l in H0 by (fold n; lia).
      by apply (pi_zero _ _ Hinv).
    + intros i e0 Hi Hr. split.
      * intros [H0|[_ ->]]%grown_lookup_inv; [ done | cbn in Hr; lia ].
      * intros H0. unfold t. rewrite lookup_app_l; [ done | by eapply lookup_lt_Some ].
    + intros i e0 [H0|[_ ->]]%grown_lookup_inv; [ by eapply (pi_rc _ _ Hinv) | ].
      cbn. unfold is_u32. lia.
    + rewrite length_seq, Hlt. specialize (Hct Ht). cbn [length] in Hct. lia.
  - destruct Hch as (Hst & e & He & Hr & Hch). rewrite Hst.
    pose proof (lookup_lt_Some _ _ _ He) as Hlt.
    assert (Hi : i <> 0%nat).
    { intros ->. rewrite (pi_zero _ _ Hinv e He) in Hr. done. }
    unfold grow_table, reserve_zero.
    rewrite (proj2 (Nat.eqb_neq i (length (table st)))), (proj2 (Nat.eqb_neq i 0)) by lia.
    exists (table st), i, e, fl. split; [ done | ].
    unfold slot_ready. split_and!; try done.
    + apply (pi_zero _ _ Hinv).
    + apply (pi_rc _ _ Hinv).
    + lia.
    + rewrite <- Hct by (intros Ht; rewrite Ht in He; done). done.
Qed.

(** *** Filling the slot *)
Lemma fill_slot_ok B st t ret e fl m k :
  peer_inv B st -> peer_map st = Some m -> slots st k = [] -> slot_ready st B t ret e fl ->
  let st' := mk_state (<[ret := mk_peer k ret 1]> t) (Some (km_put_unique m k ret).2) (pid e) in
  peer_inv B st' /\ refs st' k = 1 /\ slots st' k = [ret] /\ frame st st' k
  /\ GNUNET_PEER_resolve st' ret = Ret k.
Proof.
  intros Hinv Hm Hk (Hret & He & Hr & Hnd & Hch & Hin & Hz & Hagree & Hrc & HlB & Hct) st'.
  pose proof (lookup_lt_Some _ _ _ He) as Hlt.
  pose proof (pi_map _ _ Hinv) as Hok. rewrite Hm in Hok, Hct.
  assert (Hkv : km_values m k = []) by (unfold slots in Hk; by rewrite Hm in Hk).
  pose proof (km_put_ok B m k ret Hok Hkv ltac:(lia)) as Hput.
  unfold st' in *. destruct (km_put_unique m k ret) as [r m']. cbn [snd] in *.
  destruct Hput as (_ & Hok' & Hv & Hvo & Hcnt). clear st'. set (st' := mk_state _ _ _).
  assert (Hget : table st' !! ret = Some (mk_peer k ret 1)) by (by apply list_lookup_insert_eq).
  assert (Hother : forall j, j <> ret -> table st' !! j = t !! j)
    by (intros j Hj; by apply list_lookup_insert_ne).
  assert (Hlen : length (table st') = length t) by apply length_insert.
  assert (Hpm : peer_map st' = Some m') by done.
  assert (Hfs : free_list_start st' = pid e) by done. clearbody st'.
  assert (Hsk : slots st' k = [ret]) by (unfold slots; by rewrite Hpm).
  assert (Hso : forall k', k' <> k -> slots st' k' = slots st k').
  { intros k' Hk'. pose proof (slots_cases B st k' Hinv) as Hc. unfold slots in *. rewrite Hm, Hpm in *.
    specialize (Hvo k' Hk').
    destruct Hc as [Hc | (i & e0 & Hc & _)]; rewrite Hc in *.
    - by apply Permutation_nil_r.
    - by apply Permutation_singleton_r. }
  assert (Huse : forall i e0, table st !! i = Some e0 -> i <> 0%nat -> 0 < rc e0 ->
                  i <> ret /\ table st' !! i = Some e0).
  { intros i e0 H0 Hi0 Hr0. assert (Hit : t !! i = Some e0) by (by apply Hagree).
    assert (i <> ret) by (intros ->; rewrite He in Hit; simplify_eq; lia).
    split; [ done | ]. by rewrite Hother. }
  split_and!; [ | by unfold refs; rewrite Hsk, Hget | done | | ].
  - apply NoDup_cons in Hnd as [Hnin Hnd'].
    constructor; rewrite ?Hpm, ?Hfs, ?Hlen; try done.
    + split; [ done | apply (pi_bound _ _ Hinv) ].
    + intros e0 H0. rewrite Hother in H0 by done. by apply Hz.
    + intros j e0 Hj. destruct (decide (j = ret)) as [->|Hne].
      * rewrite Hget in Hj. injection Hj as <-. cbn. unfold is_u32. lia.
      * rewrite Hother in Hj by done. by eapply Hrc.
    + exists fl. split_and!; [ done | | | | ].
      * eapply chain_same; [ exact Hlen | | exact Hch ]. intros j Hj. apply Hother. by intros ->.
      * intros j e0 Hj Hr0. destruct (decide (j = ret)) as [->|Hne].
        { rewrite Hget in Hj. by injection Hj as <-. }
        rewrite Hother in Hj by done. specialize (Hin j e0 Hj Hr0).
        by apply elem_of_cons in Hin as [->|Hin].
      * intros _. lia.
      * intros Ht. rewrite Ht in Hlen. cbn in Hlen. lia.
    + intros j e0 Hj Hj0 Hr0. destruct (decide (j = ret)) as [->|Hne].
      { rewrite Hget in Hj. by injection Hj as <-. }
      rewrite Hother in Hj by done. apply Hagree in Hj; [ | done | done ].
      destruct (pi_used _ _ Hinv j e0 Hj Hj0 Hr0) as [Hp0 Hs0]. split; [ done | ].
      rewrite Hso; [ done | ]. intros Hk0. rewrite Hk0, Hk in Hs0. done.
    + intros k' j Hj. destruct (decide (k' = k)) as [->|Hk'].
      { rewrite Hsk in Hj. apply list_elem_of_singleton in Hj as ->. split; [ done | ].
        rewrite Hget. eexists. split_and!; [ done | cbn; lia | done ]. }
      rewrite Hso in Hj by done. destruct (pi_slots _ _ Hinv k' j Hj) as (Hj0 & e0 & He0 & Hr0 & Hk0).
      split; [ done | ]. exists e0. split; [ | done ]. by apply Huse.
  - split.
    + intros k' Hk'. split; [ by apply Hso | ]. apply (refs_same B); [ done | by apply Hso | ].
      intros j e0 Hj Hj0 Hr0 _. by apply Huse.
    + intros j q Hj Hq Hres. apply resolve_inv in Hres as (e0 & He0 & Hr0 & <-); [ | done ].
      apply resolve_ok; [ done | by apply Huse | done ].
  - apply (resolve_ok st' ret (mk_peer k ret 1)); [ done | done | cbn; lia ].
Qed.

(** ** The operations *)

Lemma intern_ok B st k :
  peer_inv B st -> (length (table st) + 16 <= B)%nat -> refs st k < UINT32_MAX ->
  exists i st', GNUNET_PEER_intern st (Some k) = Ret (i, st') /\ peer_inv B st'
    /\ i <> 0%nat /\ GNUNET_PEER_resolve st' i = Ret k /\ slots st' k = [i]
    /\ refs st' k = refs st k + 1 /\ frame st st' k.
Proof.
  intros Hinv HB Hmax. unfold GNUNET_PEER_intern.
  destruct (ensure_map B st Hinv) as (m & Hm & Hinv1 & Hslots). rewrite Hm. cbn [mbind outcome_bind].
  set (st1 := mk_state (table st) (Some m) (free_list_start st)) in *.
  assert (Href : forall k', refs st1 k' = refs st k') by (intros k'; unfold refs; by rewrite Hslots).
  assert (Hframe : forall st', frame st1 st' k -> frame st st' k).
  { intros st' [F1 F2]. split; [ | exact F2 ]. intros k' Hk'.
    rewrite <- Hslots, <- Href. by apply F1. }
  pose proof (pi_map _ _ Hinv1) as Hok. cbn [peer_map st1] in Hok.
  rewrite (km_get_ok B m k Hok). change (km_values m k) with (slots st1 k).
  destruct (slots_cases B st1 k Hinv1) as [Hs | (i & e & Hs & Hi & He & Hr & Hk & Hp)]; rewrite Hs; cbn [head].
  - destruct (prepare_slot B st1 Hinv1 HB) as (t & ret & e & fl & Hprep & Hready).
    change (table st1) with (table st) in Hprep.
    change (free_list_start st1) with (free_list_start st) in Hprep.
    rewrite Hprep. cbn [mbind outcome_bind].
    destruct (fill_slot_ok B st1 t ret e fl m k Hinv1 eq_refl Hs Hready) as (Hi' & Hr' & Hs' & Hf & Hres).
    destruct Hready as (Hret & He & Hre & _). pose proof (lookup_lt_Some _ _ _ He) as Hlt.
    rewrite gnunet_assert_true by (by apply Nat.ltb_lt). cbn [mbind outcome_bind].
    unfold entry. rewrite He. cbn [of_option mbind outcome_bind].
    rewrite gnunet_assert_true by (by apply Z.eqb_eq). cbn [mbind outcome_bind].
    destruct (km_put_unique m k ret) as [r m']. cbn [snd] in *.
    do 2 eexists. split; [ reflexivity | ]. split_and!; try done; [ | by apply Hframe ].
    rewrite Hr', <- Href. unfold refs. by rewrite Hs.
  - unfold entry. change (table st1) with (table st) in *. rewrite He. cbn [of_option mbind outcome_bind].
    rewrite gnunet_assert_true by (by apply Z.ltb_lt). cbn [mbind outcome_bind].
    assert (Hrk : refs st k = rc e) by (rewrite <- Href; unfold refs; rewrite Hs; cbn [table st1]; by rewrite He).
    rewrite u32_small by (unfold is_u32; int_lia).
    destruct (set_rc_ok B st1 i e (rc e + 1) Hinv1 Hi He Hr ltac:(int_lia))
      as (Hi' & Hr' & Hs' & Hf & Hres). rewrite Hk in *. rewrite Hp in *.
    do 2 eexists. split; [ reflexivity | ]. split_and!; try done; [ | by apply Hframe ].
    cbn [table peer_map free_list_start st1] in Hr'. rewrite Hr'. lia.
Qed.

Lemma put_back_ok B st i e r :
  peer_inv B st -> i <> 0%nat -> table st !! i = Some e -> 0 < rc e -> 0 <= r < 2 ^ 32 ->
  exists st', put_back st i (mk_peer (id e) (pid e) r) = Ret st' /\ peer_inv B st'
    /\ refs st' (id e) = r /\ slots st' (id e) = (if r =? 0 then [] else [i])
    /\ frame st st' (id e).
Proof.
  intros Hinv Hi He Hr Hr'. unfold put_back. cbn [rc id pid].
  destruct (Z.eqb_spec r 0) as [->|Hr0].
  - destruct (pi_used _ _ Hinv i e He Hi Hr) as [_ Hs]. unfold slots in Hs.
    destruct (peer_map st) as [m|] eqn:Em; [ | done ]. cbn [of_option mbind outcome_bind].
    destruct (free_slot_ok B st i e m Hinv Em Hi He Hr) as (Hi' & Hr0 & Hs0 & Hf).
    destruct (km_remove m (id e) i) as [r m']. cbn [snd] in *. eauto 10.
  - destruct (set_rc_ok B st i e r Hinv Hi He Hr ltac:(lia)) as (Hi' & Hr1 & Hs1 & Hf & _).
    eauto 10.
Qed.

Lemma change_rc_ok B st i k delta :
  peer_inv B st -> slots st k = [i] -> 0 <= refs st k + delta < 2 ^ 32 -> - 2 ^ 31 < delta ->
  exists st', GNUNET_PEER_change_rc st i delta = Ret st' /\ peer_inv B st'
    /\ refs st' k = refs st k + delta
    /\ slots st' k = (if refs st k + delta =? 0 then [] else [i]) /\ frame st st' k.
Proof.
  intros Hinv Hs Hd Hmin.
  destruct (slots_cases B st k Hinv) as [Hs0 | (i0 & e & Hs0 & Hi & He & Hr & Hk & Hp)];
    [ by rewrite Hs0 in Hs | ]. rewrite Hs in Hs0. injection Hs0 as <-.
  assert (Href : refs st k = rc e) by (unfold refs; by rewrite Hs, He).
  unfold GNUNET_PEER_change_rc. rewrite (proj2 (Nat.eqb_neq _ _) Hi).
  rewrite gnunet_assert_true by (apply Nat.ltb_lt; by eapply lookup_lt_Some). cbn [mbind outcome_bind].
  unfold entry. rewrite He. cbn [of_option mbind outcome_bind].
  rewrite (gnunet_assert_true (0 <? rc e)) by (by apply Z.ltb_lt). cbn [mbind outcome_bind].
  pose proof (pi_rc _ _ Hinv i e He) as Hu.
  rewrite gnunet_assert_true.
  2:{ destruct (Z.leb_spec 0 delta); [ done | ]. cbn [orb]. rewrite u32_small by int_lia.
      apply Z.leb_le. lia. }
  cbn [mbind outcome_bind]. rewrite u32_small by (unfold is_u32; lia).
  destruct (put_back_ok B st i e (rc e + delta) Hinv Hi He Hr ltac:(lia))
    as (st' & Hst & Hi' & Hr' & Hs' & Hf). rewrite Hk in *. rewrite Href. eauto 10.
Qed.

(** [decrement_rcs] is [change_rc] by -1, from the last identifier to the first. *)
Lemma decrement_rc_change B st i :
  peer_inv B st -> decrement_rc st i = GNUNET_PEER_change_rc st i (-1).
Proof.
  intros Hinv. unfold decrement_rc, GNUNET_PEER_change_rc. destruct (i =? 0)%nat; [ done | ].
  destruct (gnunet_assert _); cbn [mbind outcome_bind]; try done. unfold entry.
  destruct (table st !! i) as [e|]; [ | done ]. cbn [of_option mbind outcome_bind].
  unfold gnunet_assert. destruct (0 <? rc e) eqn:Er; [ | done ]. cbn [mbind outcome_bind orb].
  change (0 <=? -1) with false. change (u32 (- -1)) with 1. cbn [orb].
  by rewrite (proj2 (Z.leb_le _ _)) by lia.
Qed.

(** How often the identifier [i] occurs in a list of identifiers *)
Definition occurrences (l : list nat) (i : nat) : Z :=
  Z.of_nat (length (List.filter (Nat.eqb i) l)).

Lemma occurrences_cons j l i :
  occurrences (j :: l) i = (if (i =? j)%nat then 1 else 0) + occurrences l i.
Proof. unfold occurrences. cbn [List.filter]. destruct (i =? j)%nat; cbn [length]; lia. Qed.

Lemma occurrences_pos l i : i ∈ l -> 0 < occurrences l i.
Proof.
  induction l as [|j l IH]; intros Hi; [ by apply elem_of_nil in Hi | ]. rewrite occurrences_cons.
  apply elem_of_cons in Hi as [->|Hi].
  - rewrite Nat.eqb_refl. unfold occurrences. lia.
  - specialize (IH Hi). destruct (i =? j)%nat; lia.
Qed.

Lemma occurrences_rev l i : occurrences (rev l) i = occurrences l i.
Proof.
  induction l as [|j l IH]; [ done | ]. cbn [rev]. unfold occurrences in *.
  rewrite List.filter_app, length_app. cbn [List.filter]. destruct (i =? j)%nat; cbn [length]; lia.
Qed.

(** The references that a list of identifiers takes from a peer *)
Definition taken (st : peer_state) (l : list nat) (k : GNUNET_HashCode) : Z :=
  match slots st k with i :: _ => occurrences l i | [] => 0 end.

(** Every identifier of the list is in use and has enough references. *)
Definition releasable (st : peer_state) (l : list nat) : Prop :=
  forall i, i ∈ l -> i <> 0%nat -> exists k, slots st k = [i] /\ occurrences l i <= refs st k.

Lemma slots_unique B st k k' i :
  peer_inv B st -> slots st k = [i] -> slots st k' = [i] -> k = k'.
Proof.
  intros Hinv Hk Hk'.
  destruct (pi_slots _ _ Hinv k i) as (_ & e & He & _ & <-); [ rewrite Hk; by left | ].
  destruct (pi_slots _ _ Hinv k' i) as (_ & e' & He' & _ & <-); [ rewrite Hk'; by left | ].
  congruence.
Qed.

Lemma decrement_loop_ok B st l :
  peer_inv B st -> releasable st l ->
  exists st', decrement_loop st l = Ret st' /\ peer_inv B st'
    /\ forall k, refs st' k = refs st k - taken st l k.
Proof.
  revert st. induction l as [|i l IH]; intros st Hinv Hrel; cbn [decrement_loop].
  { exists st. split_and!; [ done | done | ]. intros k. unfold taken, occurrences.
    destruct (slots st k); cbn; lia. }
  rewrite (decrement_rc_change B) by done. destruct (decide (i = 0%nat)) as [->|Hi].
  - unfold GNUNET_PEER_change_rc. cbn [Nat.eqb mbind outcome_bind].
    destruct (IH st Hinv) as (st' & Hst & Hi' & Hr').
    { intros j Hj Hj0. destruct (Hrel j ltac:(by right) Hj0) as (k & Hk & Ho). exists k.
      rewrite occurrences_cons, (proj2 (Nat.eqb_neq j 0)) in Ho by done. done. }
    exists st'. split_and!; [ done | done | ]. intros k. rewrite Hr'. unfold taken.
    destruct (slots_cases B st k Hinv) as [-> | (j & e & -> & Hj & _)]; [ done | ].
    by rewrite occurrences_cons, (proj2 (Nat.eqb_neq j 0)).
  - destruct (Hrel i ltac:(by left) Hi) as (k & Hk & Ho).
    rewrite occurrences_cons, Nat.eqb_refl in Ho.
    assert (Hocc : 0 <= occurrences l i) by (unfold occurrences; lia).
    assert (Hmax : refs st k < 2 ^ 32).
    { unfold refs. rewrite Hk. destruct (table st !! i) as [e|] eqn:He; [ | lia ].
      apply (pi_rc _ _ Hinv i e He). }
    destruct (change_rc_ok B st i k (-1) Hinv Hk) as (st1 & Hst1 & Hinv1 & Hr1 & Hs1 & F1 & _);
      [ lia | lia | ].
    rewrite Hst1. cbn [mbind outcome_bind]. destruct (IH st1 Hinv1) as (st' & Hst & Hi' & Hr').
    { intros j Hj Hj0. destruct (Hrel j ltac:(by right) Hj0) as (k' & Hk' & Ho').
      rewrite occurrences_cons in Ho'. exists k'. destruct (decide (k' = k)) as [->|Hne].
      - assert (j = i) as -> by congruence. pose proof (occurrences_pos l i Hj).
        rewrite Hs1, Hr1. destruct (Z.eqb_spec (refs st k + -1) 0); [ lia | ]. split; [ done | lia ].
      - destruct (F1 k' Hne) as [-> ->]. destruct (Nat.eqb_spec j i) as [->|]; [ | split; [ done | lia ] ].
        destruct Hne. exact (slots_unique B st k' k i Hinv Hk' Hk). }
    exists st'. split_and!; [ done | done | ]. intros k'. rewrite Hr'. unfold taken.
    destruct (decide (k' = k)) as [->|Hne].
    + rewrite Hk, Hr1, Hs1, occurrences_cons, Nat.eqb_refl.
      destruct (Z.eqb_spec (refs st k + -1) 0); lia.
    + destruct (F1 k' Hne) as [-> ->].
      destruct (slots_cases B st k' Hinv) as [-> | (j & e & Hj & _)]; [ done | ].
      rewrite Hj, occurrences_cons. destruct (Nat.eqb_spec j i) as [->|]; [ | lia ].
      destruct Hne. exact (slots_unique B st k' k i Hinv Hj Hk).
Qed.

Lemma initial_inv B : Z.of_nat B <= 2 ^ 28 -> peer_inv B initial_state.
Proof.
  intros HB. constructor; cbn [initial_state table peer_map free_list_start]; try done.
  - split; [ cbn; lia | done ].
  - exists []. split_and!; try done. constructor.
  - intros k i Hi. unfold slots in Hi. cbn in Hi. by apply elem_of_nil in Hi.
Qed.

End Peer.
Arguments peer_state M : clear implicits.

(** ** Properties *)

(** C35: intern, used over any hash map that keeps the promises of KeyMap,
    returns a non-zero identifier that resolves to the peer and that search
    finds, adds exactly one reference to that peer, changes neither the
    references of other peers nor what valid identifiers resolve to, and keeps
    the invariant of table, free list and map (so entries whose keys the map
    borrows never change while it refers to them). *)
Theorem peer_intern_spec {M : Type} `{KeyMap M nat} (B : nat) (st : peer_state M)
  (k : GNUNET_HashCode) :
  peer_inv B st -> (length (table st) + 16 <= B)%nat -> refs st k < UINT32_MAX ->
  exists i st', GNUNET_PEER_intern st (Some k) = Ret (i, st') /\ peer_inv B st'
    /\ i <> 0%nat /\ GNUNET_PEER_resolve st' i = Ret k
    /\ GNUNET_PEER_search st' (Some k) = Ret i /\ refs st' k = refs st k + 1
    /\ (forall k', k' <> k -> refs st' k' = refs st k'
          /\ GNUNET_PEER_search st' (Some k') = GNUNET_PEER_search st (Some k'))
    /\ (forall j q, j <> 0%nat -> GNUNET_PEER_resolve st j = Ret q ->
          GNUNET_PEER_resolve st' j = Ret q).
Proof.
  intros Hinv HB Hmax.
  destruct (intern_ok B st k Hinv HB Hmax) as (i & st' & Hi & Hinv' & Hi0 & Hres & Hs & Hr & F1 & F2).
  exists i, st'. split_and!; try done.
  - rewrite (search_ok B) by done. by rewrite Hs.
  - intros k' Hk'. destruct (F1 k' Hk') as [Hs' Hr']. split; [ done | ].
    rewrite !(search_ok B) by done. by rewrite Hs'.
  - intros j q Hj Hq. destruct (decide (q = k)) as [->|Hne]; [ | by apply F2 ].
    apply resolve_inv in Hq as (e & He & Hre & <-); [ | done ].
    destruct (pi_used _ _ Hinv j e He Hj Hre) as [_ Hsj].
    assert (Hji : j = i); [ | congruence ].
    unfold GNUNET_PEER_intern in Hi. destruct (ensure_map B st Hinv) as (m & Hm & Hinv1 & Hsl).
    rewrite Hm in Hi. cbn [mbind outcome_bind] in Hi.
    pose proof (pi_map _ _ Hinv1) as Hok. cbn [peer_map] in Hok.
    assert (Hv : km_values m (id e) = [j]) by (rewrite <- Hsj, <- Hsl; done).
    rewrite (km_get_ok B m (id e) Hok), Hv in Hi. cbn [head] in Hi. unfold entry in Hi.
    rewrite He in Hi. cbn [of_option mbind outcome_bind] in Hi.
    rewrite gnunet_assert_true in Hi by (by apply Z.ltb_lt). cbn in Hi. injection Hi as <- _.
    symmetry. by apply (pi_used _ _ Hinv j e He Hj Hre).
Qed.

(** The first peer of an empty table, with the multi hash map of the library *)
Lemma peer_intern_spec_witness :
  let k := replicate 16 1 in
  exists i (st' : peer_state (GNUNET_CONTAINER_MultiHashMap nat)),
    GNUNET_PEER_intern initial_state (Some k) = Ret (i, st')
    /\ GNUNET_PEER_resolve st' i = Ret k /\ refs st' k = 1.
Proof.
  intros k.
  destruct (peer_intern_spec (M := GNUNET_CONTAINER_MultiHashMap nat) 64 initial_state k)
    as (i & st' & H1 & _ & _ & H2 & _ & H3 & _).
  - apply initial_inv. cbn. lia.
  - cbn. lia.
  - reflexivity.
  - exists i, st'. split; [ exact H1 | split; [ exact H2 | exact H3 ] ].
Defined.

(** decrement_rcs with a list of identifiers that have enough references
    terminates without a failed assertion, takes from every peer as many
    references as its identifier occurs in the list, keeps the invariant, and
    search stops finding exactly the peers that have no reference left. *)
Theorem peer_release_spec {M : Type} `{KeyMap M nat} (B : nat) (st : peer_state M)
  (ids : list nat) :
  peer_inv B st -> releasable st ids ->
  exists st', GNUNET_PEER_decrement_rcs st ids = Ret st' /\ peer_inv B st'
    /\ (forall k, refs st' k = refs st k - taken st ids k)
    /\ forall k, refs st' k = 0 <-> GNUNET_PEER_search st' (Some k) = Ret 0%nat.
Proof.
  intros Hinv Hrel. unfold GNUNET_PEER_decrement_rcs.
  destruct (decrement_loop_ok B st (rev ids) Hinv) as (st' & Hst & Hinv' & Hr).
  { intros i Hi Hi0. apply list_elem_of_In, in_rev, list_elem_of_In in Hi.
    rewrite occurrences_rev. by apply Hrel. }
  exists st'. split_and!; [ done | done | | ].
  - intros k. rewrite Hr. unfold taken. destruct (slots st k); [ done | ]. by rewrite occurrences_rev.
  - intros k. rewrite (search_ok B) by done. unfold refs.
    destruct (slots_cases B st' k Hinv') as [-> | (i & e & -> & Hi & He & Hre & _)]; [ done | ].
    rewrite He. cbn. split; [ lia | by intros [= ->] ].
Qed.

(** The only reference is given back. *)
Lemma peer_release_spec_witness :
  let k := replicate 16 1 in
  exists i (st1 st2 : peer_state (GNUNET_CONTAINER_MultiHashMap nat)),
    GNUNET_PEER_intern initial_state (Some k) = Ret (i, st1)
    /\ GNUNET_PEER_decrement_rcs st1 [i] = Ret st2 /\ refs st2 k = 0.
Proof.
  intros k.
  destruct (intern_ok (M := GNUNET_CONTAINER_MultiHashMap nat) 64 initial_state k)
    as (i & st1 & H1 & Hinv & Hi & _ & Hs & Hr & _);
    [ apply initial_inv; cbn; lia | cbn; lia | reflexivity | ].
  destruct (peer_release_spec 64 st1 [i] Hinv) as (st2 & H2 & _ & H3 & _).
  - intros j Hj _. apply list_elem_of_singleton in Hj as ->. exists k. split; [ exact Hs | ].
    rewrite Hr, occurrences_cons, Nat.eqb_refl. change (1 + 0 <= 0 + 1). lia.
  - exists i, st1, st2. split; [ exact H1 | split; [ exact H2 | ] ].
    rewrite H3, Hr. unfold taken. rewrite Hs, occurrences_cons, Nat.eqb_refl. reflexivity.
Defined.
