(* ===== verification/BloomFilter.v ===== *)
(** * Bloom filter: [src/util/container_bloomfilter.c]

    A filter is a bit array in memory and, when it was loaded from disk, a file of
    4-bit counters that makes removal possible.  The file is its contents; a read
    past its end returns nothing, a write past it extends it with zeros, and other
    I/O errors are not modelled.  [hash] is SHA-512 over a hash code, from
    libgcrypt: all that is used of it is that it fills the sixteen words of a
    [struct GNUNET_HashCode]. *)

From Stdlib Require Import ZArith Lia.
From stdpp Require Import base list numbers sorting sets.
From S2P Require Import Prelude Endian Hash.
Local Open Scope Z_scope.

Abbreviation GNUNET_DISK_FileHandle := (list Z).

Record GNUNET_CONTAINER_BloomFilter := mk_bf {
  bitArray : list Z;
  (** whether [filename] is not [NULL] *)
  filename : bool;
  (** [None] is an invalid handle *)
  fh : option GNUNET_DISK_FileHandle;
  addressesPerElement : nat;
  bitArraySize : Z
}.

(** ** Bits *)

Definition setBit (arr : list Z) (bitIdx : Z) : list Z :=
  let slot := Z.to_nat (bitIdx / 8) in
  let targetBit := Z.shiftl 1 (bitIdx mod 8) in
  <[slot := u8 (Z.lor (nth slot arr 0) targetBit)]> arr.

Definition clearBit (arr : list Z) (bitIdx : Z) : list Z :=
  let slot := Z.to_nat (bitIdx / 8) in
  let targetBit := Z.shiftl 1 (bitIdx mod 8) in
  <[slot := u8 (Z.land (nth slot arr 0) (Z.lnot targetBit))]> arr.

Definition testBit (arr : list Z) (bitIdx : Z) : bool :=
  let slot := Z.to_nat (bitIdx / 8) in
  let targetBit := Z.shiftl 1 (bitIdx mod 8) in
  negb (Z.land (nth slot arr 0) targetBit =? 0).

(** ** The counter file *)

Definition file_read1 (f : GNUNET_DISK_FileHandle) (pos : nat) : option Z := f !! pos.

Definition file_write1 (f : GNUNET_DISK_FileHandle) (pos : nat) (v : Z)
  : GNUNET_DISK_FileHandle :=
  if (pos <? length f)%nat then <[pos := v]> f
  else f ++ replicate (pos - length f) 0 ++ [v].

Definition incrementBit (bf : GNUNET_CONTAINER_BloomFilter) (bitIdx : Z)
  : GNUNET_CONTAINER_BloomFilter :=
  let arr := setBit (bitArray bf) bitIdx in
  match fh bf with
  | None => mk_bf arr (filename bf) None (addressesPerElement bf) (bitArraySize bf)
  | Some f =>
      let fileSlot := Z.to_nat (bitIdx / 2) in
      let targetLoc := bitIdx mod 2 in
      let value := default 0 (file_read1 f fileSlot) in
      let low := Z.land value 0xF in
      let high := Z.shiftr (Z.land value (Z.lnot 0xF)) 4 in
      let '(low', high') :=
        if targetLoc =? 0
        then (if low <? 0xF then low + 1 else low, high)
        else (low, if high <? 0xF then high + 1 else high) in
      let value' := u8 (Z.lor (Z.shiftl high' 4) low') in
      mk_bf arr (filename bf) (Some (file_write1 f fileSlot value'))
            (addressesPerElement bf) (bitArraySize bf)
  end.

Definition decrementBit (bf : GNUNET_CONTAINER_BloomFilter) (bitIdx : Z)
  : GNUNET_CONTAINER_BloomFilter :=
  match fh bf with
  | None => bf
  | Some f =>
      let fileslot := Z.to_nat (bitIdx / 2) in
      let targetLoc := bitIdx mod 2 in
      let value := default 0 (file_read1 f fileslot) in
      let low := Z.land value 0xF in
      let high := Z.shiftr (Z.land value 0xF0) 4 in
      let dec x := if (0 <? x) && (x <? 0xF) then x - 1 else x in
      let '(low', high') :=
        if targetLoc =? 0 then (dec low, high) else (low, dec high) in
      let cleared := if targetLoc =? 0 then low' =? 0 else high' =? 0 in
      let arr := if cleared then clearBit (bitArray bf) bitIdx else bitArray bf in
      let value' := u8 (Z.lor (Z.shiftl high' 4) low') in
      mk_bf arr (filename bf) (Some (file_write1 f fileslot value'))
            (addressesPerElement bf) (bitArraySize bf)
  end.

(** [make_empty_file]: [size] zero bytes from the start of the file. *)
Definition make_empty_file (f : GNUNET_DISK_FileHandle) (size : Z)
  : GNUNET_DISK_FileHandle :=
  replicate (Z.to_nat size) 0 ++ drop (Z.to_nat size) f.

(** ** Iteration over the addresses of an element *)

Section Hashing.
Context (hash : GNUNET_HashCode -> GNUNET_HashCode).

(** The two nested loops of [iterateBits]: [tmp] is the current hash, [words] what
    is left of it ([&tmp[slot]]); when it is used up, the hash is hashed.  The
    callback returns whether to continue. *)
Fixpoint iterate_words {S : Type} (callback : S -> Z -> S * bool) (nbits : Z)
  (bitCount : nat) (tmp words : GNUNET_HashCode) (s : S) : S :=
  match bitCount with
  | O => s
  | S bitCount' =>
      let '(tmp', words') := match words with [] => (hash tmp, hash tmp) | _ => (tmp, words) end in
      match words' with
      | [] => s
      | w :: rest =>
          let '(s', go) := callback s (u32 (w mod nbits)) in
          if (go : bool) then iterate_words callback nbits bitCount' tmp' rest s' else s'
      end
  end.

Definition iterateBits {S : Type} (bf : GNUNET_CONTAINER_BloomFilter)
  (callback : S -> Z -> S * bool) (s : S) (key : GNUNET_HashCode) : outcome S :=
  _ ← gnunet_assert (0 <? bitArraySize bf);
  _ ← gnunet_assert (bitArraySize bf <? u64 (bitArraySize bf * 8));
  Ret (iterate_words callback (u64 (bitArraySize bf * 8)) (addressesPerElement bf) key key s).

(** ** Interface *)

Definition GNUNET_CONTAINER_bloomfilter_get_size
  (bf : option GNUNET_CONTAINER_BloomFilter) : Z :=
  match bf with None => 0 | Some b => bitArraySize b end.

Definition GNUNET_CONTAINER_bloomfilter_init (data : option (list Z)) (size : Z) (k : nat)
  : option GNUNET_CONTAINER_BloomFilter :=
  if (k =? 0)%nat || (size =? 0) then None
  else Some (mk_bf (match data with
                    | Some d => take (Z.to_nat size) d
                    | None => replicate (Z.to_nat size) 0
                    end) false None k size).

Definition GNUNET_CONTAINER_bloomfilter_copy (bf : GNUNET_CONTAINER_BloomFilter)
  : option GNUNET_CONTAINER_BloomFilter :=
  GNUNET_CONTAINER_bloomfilter_init (Some (bitArray bf)) (bitArraySize bf)
    (addressesPerElement bf).

Definition GNUNET_CONTAINER_bloomfilter_get_raw_data
  (bf : option GNUNET_CONTAINER_BloomFilter) (size : Z) : option (list Z) :=
  match bf with
  | None => None
  | Some b => if negb (bitArraySize b =? size) then None
              else Some (take (Z.to_nat size) (bitArray b))
  end.

Definition GNUNET_CONTAINER_bloomfilter_clear (bf : GNUNET_CONTAINER_BloomFilter)
  : GNUNET_CONTAINER_BloomFilter :=
  mk_bf (replicate (Z.to_nat (bitArraySize bf)) 0) (filename bf)
        (if filename bf
         then match fh bf with
              | Some f => Some (make_empty_file f (bitArraySize bf * 4))
              | None => None
              end
         else fh bf)
        (addressesPerElement bf) (bitArraySize bf).

Definition GNUNET_CONTAINER_bloomfilter_test (bf : option GNUNET_CONTAINER_BloomFilter)
  (e : GNUNET_HashCode) : outcome bool :=
  match bf with
  | None => Ret true
  | Some b =>
      iterateBits b (fun res bit => if testBit (bitArray b) bit then (res, true)
                                    else (false, false)) true e
  end.

Definition GNUNET_CONTAINER_bloomfilter_add (bf : GNUNET_CONTAINER_BloomFilter)
  (e : GNUNET_HashCode) : outcome GNUNET_CONTAINER_BloomFilter :=
  iterateBits bf (fun b bit => (incrementBit b bit, true)) bf e.

Definition GNUNET_CONTAINER_bloomfilter_remove (bf : GNUNET_CONTAINER_BloomFilter)
  (e : GNUNET_HashCode) : outcome GNUNET_CONTAINER_BloomFilter :=
  if negb (filename bf) then Ret bf
  else iterateBits bf (fun b bit => (decrementBit b bit, true)) bf e.

(** The word loop of [or] and [or2]: [fc[i] |= dc[i]] on 64-bit words, then the
    remaining bytes. *)
Fixpoint le_decode (l : list Z) : Z :=
  match l with
  | [] => 0
  | b :: l' => Z.lor b (Z.shiftl (le_decode l') 8)
  end.

Fixpoint or_words (n : nat) (a d : list Z) : list Z :=
  match n with
  | O => zip_with Z.lor a d
  | S n' => host_bytes 8 (Z.lor (le_decode (take 8 a)) (le_decode (take 8 d)))
            ++ or_words n' (drop 8 a) (drop 8 d)
  end.

Definition GNUNET_CONTAINER_bloomfilter_or (bf : option GNUNET_CONTAINER_BloomFilter)
  (data : list Z) (size : Z) : Z * option GNUNET_CONTAINER_BloomFilter :=
  match bf with
  | None => (GNUNET_YES, None)
  | Some b =>
      if negb (bitArraySize b =? size) then (GNUNET_SYSERR, Some b)
      else
        (GNUNET_OK, Some (mk_bf (or_words (Z.to_nat (size / 8)) (bitArray b)
                                          (take (Z.to_nat size) data))
                                (filename b) (fh b) (addressesPerElement b)
                                (bitArraySize b)))
  end.

Definition GNUNET_CONTAINER_bloomfilter_or2 (bf : option GNUNET_CONTAINER_BloomFilter)
  (to_or : GNUNET_CONTAINER_BloomFilter) (size : Z)
  : Z * option GNUNET_CONTAINER_BloomFilter :=
  GNUNET_CONTAINER_bloomfilter_or bf (bitArray to_or) size.

(** [i = 1; while (i < size) i *= 2;] in [unsigned int]; [None] when the loop does
    not end. *)
Fixpoint next_pow2 (fuel : nat) (i size : Z) : option Z :=
  match fuel with
  | O => None
  | S fuel' => if i <? size then next_pow2 fuel' (u32 (i * 2)) size else Some i
  end.

(** [iterator] gives the elements to put into the resized filter.  The parameter
    [k] is not used by the code. *)
Definition GNUNET_CONTAINER_bloomfilter_resize (bf : GNUNET_CONTAINER_BloomFilter)
  (elements : list GNUNET_HashCode) (size : Z) (k : nat)
  : outcome (option GNUNET_CONTAINER_BloomFilter) :=
  match next_pow2 34 1 size with
  | None => Ret None
  | Some size' =>
      let bf1 := mk_bf (replicate (Z.to_nat size') 0) (filename bf)
                   (if filename bf
                    then match fh bf with
                         | Some f => Some (make_empty_file f (size' * 4))
                         | None => None
                         end
                    else fh bf)
                   (addressesPerElement bf) size' in
      bf2 ← foldl (fun acc e => b ← acc; GNUNET_CONTAINER_bloomfilter_add b e)
                  (Ret bf1) elements;
      Ret (Some bf2)
  end.

(** [ui = 1; while ((ui < size) && (ui * 2 > ui)) ui *= 2;] in [size_t]. *)
Fixpoint load_pow2 (fuel : nat) (ui size : Z) : option Z :=
  match fuel with
  | O => None
  | S fuel' => if (ui <? size) && (ui <? u64 (ui * 2))
               then load_pow2 fuel' (u64 (ui * 2)) size else Some ui
  end.

Definition BUFFSIZE : Z := 65536.

(** The [for] loop over one buffer of counters. *)
Fixpoint load_buffer (rbuff : list Z) (pos i : Z) (arr : list Z) : list Z :=
  match rbuff with
  | [] => arr
  | b :: rest =>
      let arr1 := if negb (Z.land b 0x0F =? 0) then setBit arr (u32 (pos + i * 2)) else arr in
      let arr2 := if negb (Z.land b 0xF0 =? 0)
                  then setBit arr1 (u32 (pos + i * 2 + 1)) else arr1 in
      load_buffer rest pos (i + 1) arr2
  end.

(** The [while] loop: [f] is what is left to read of the file. *)
Fixpoint load_loop (fuel : nat) (f : list Z) (pos size : Z) (arr : list Z)
  : option (list Z) :=
  match fuel with
  | O => None
  | S fuel' =>
      if pos <? size * 8 then
        let rbuff := take (Z.to_nat BUFFSIZE) f in
        let res := Z.of_nat (length rbuff) in
        if res =? 0 then Some arr
        else
          let arr' := load_buffer rbuff pos 0 arr in
          if res <? BUFFSIZE then Some arr'
          else load_loop fuel' (drop (Z.to_nat BUFFSIZE) f) (pos + BUFFSIZE * 2) size arr'
      else Some arr
  end.

(** [file] is the content of the file when it exists.  When the file is empty it
    is filled with zeros, which leaves the position at its end. *)
Definition GNUNET_CONTAINER_bloomfilter_load (file : option GNUNET_DISK_FileHandle)
  (size : Z) (k : nat) : option GNUNET_CONTAINER_BloomFilter :=
  if (k =? 0)%nat || (size =? 0) then None
  else
    let size0 := if size <? BUFFSIZE then BUFFSIZE else size in
    match load_pow2 65 1 size0 with
    | None => None
    | Some size1 =>
        let empty := replicate (Z.to_nat size1) 0 in
        match file with
        | None => Some (mk_bf empty true (Some (make_empty_file [] (size1 * 4))) k size1)
        | Some f =>
            let fsize := Z.of_nat (length f) in
            if fsize =? 0
            then match load_loop 1 [] 0 size1 empty with
                 | Some arr => Some (mk_bf arr true
                                       (Some (make_empty_file [] (size1 * 4))) k size1)
                 | None => None
                 end
            else if negb (fsize =? size1 * 4) then None
            else match load_loop (S (Z.to_nat (size1 * 8 / (BUFFSIZE * 2)))) f 0 size1 empty with
                 | Some arr => Some (mk_bf arr true (Some f) k size1)
                 | None => None
                 end
        end
    end.

(** ** The addresses of an element *)

Fixpoint addresses_loop (nbits : Z) (bitCount : nat) (tmp words : GNUNET_HashCode)
  : list Z :=
  match bitCount with
  | O => []
  | S bitCount' =>
      let '(tmp', words') := match words with [] => (hash tmp, hash tmp) | _ => (tmp, words) end in
      match words' with
      | [] => []
      | w :: rest => u32 (w mod nbits) :: addresses_loop nbits bitCount' tmp' rest
      end
  end.

Definition addresses (bf : GNUNET_CONTAINER_BloomFilter) (e : GNUNET_HashCode) : list Z :=
  addresses_loop (u64 (bitArraySize bf * 8)) (addressesPerElement bf) e e.

(** The callback sees the addresses in order. *)
Fixpoint iterate_addresses {S : Type} (callback : S -> Z -> S * bool) (l : list Z) (s : S)
  : S :=
  match l with
  | [] => s
  | a :: l' => let '(s', go) := callback s a in
               if (go : bool) then iterate_addresses callback l' s' else s'
  end.

Lemma iterate_words_addresses {S : Type} (callback : S -> Z -> S * bool) nbits n tmp words s :
  iterate_words callback nbits n tmp words s
  = iterate_addresses callback (addresses_loop nbits n tmp words) s.
Proof.
  revert tmp words s. induction n as [|n IH]; intros tmp words s; [ done | ].
  cbn [iterate_words addresses_loop].
  destruct (match words with [] => _ | _ => _ end) as [tmp' words'].
  destruct words' as [|w rest]; [ done | ]. cbn [iterate_addresses].
  destruct (callback s (u32 (w mod nbits))) as [s' []]; [ apply IH | done ].
Qed.

(** The iteration in terms of the address list. *)
Lemma iterateBits_addresses {S : Type} bf (callback : S -> Z -> S * bool) s e :
  0 < bitArraySize bf < 2 ^ 60 ->
  iterateBits bf callback s e = Ret (iterate_addresses callback (addresses bf e) s).
Proof.
  intros Hs. unfold iterateBits, addresses.
  rewrite !gnunet_assert_true by int_lia. cbn [mbind outcome_bind].
  by rewrite iterate_words_addresses.
Qed.

Lemma iterate_addresses_fold {S : Type} (f : S -> Z -> S) l s :
  iterate_addresses (fun s a => (f s a, true)) l s = foldl f s l.
Proof. revert s; induction l as [|a l IH]; intros s; [ done | apply IH ]. Qed.

Lemma iterate_addresses_test arr l :
  iterate_addresses (fun res bit => if testBit arr bit then (res, true) else (false, false))
    l true = forallb (testBit arr) l.
Proof.
  induction l as [|a l IH]; [ done | ]. cbn [iterate_addresses forallb].
  destruct (testBit arr a); [ apply IH | done ].
Qed.

Lemma addresses_loop_range nbits n tmp words :
  0 < nbits -> Forall (fun a => 0 <= a < nbits) (addresses_loop nbits n tmp words).
Proof.
  intros Hn. revert tmp words. induction n as [|n IH]; intros tmp words; [ constructor | ].
  cbn [addresses_loop]. destruct (match words with [] => _ | _ => _ end) as [tmp' words'].
  destruct words' as [|w rest]; constructor; [ | apply IH ].
  unfold u32. pose proof (Z.mod_pos_bound w nbits Hn).
  pose proof (Z.mod_le (w mod nbits) (2 ^ 32)).
  pose proof (Z.mod_pos_bound (w mod nbits) (2 ^ 32)). lia.
Qed.

Lemma addresses_range bf e :
  0 < bitArraySize bf < 2 ^ 60 ->
  Forall (fun a => 0 <= a < bitArraySize bf * 8) (addresses bf e).
Proof.
  intros Hs. unfold addresses. rewrite (u64_small (bitArraySize bf * 8)) by int_lia.
  apply addresses_loop_range. lia.
Qed.

End Hashing.

(** ** Bit lemmas *)

Lemma testBit_spec arr i :
  0 <= i -> testBit arr i = Z.testbit (nth (Z.to_nat (i / 8)) arr 0) (i mod 8).
Proof.
  intros Hi. unfold testBit. generalize (nth (Z.to_nat (i / 8)) arr 0) as b. intros b.
  pose proof (Z.mod_pos_bound i 8). rewrite Z.shiftl_1_l.
  destruct (Z.testbit b (i mod 8)) eqn:E.
  - destruct (Z.eqb_spec (Z.land b (2 ^ (i mod 8))) 0) as [E0|]; [ | done ].
    apply (f_equal (fun z => Z.testbit z (i mod 8))) in E0.
    rewrite Z.land_spec, E, Z.pow2_bits_true, Z.bits_0 in E0 by lia. done.
  - replace (Z.land b (2 ^ (i mod 8))) with 0; [ done | ]. symmetry.
    apply Z.bits_inj'. intros j Hj. rewrite Z.land_spec, Z.bits_0, Z.pow2_bits_eqb by lia.
    destruct (Z.eqb_spec (i mod 8) j) as [<-|]; [ by rewrite E | apply andb_false_r ].
Qed.

Lemma nth_insert_eq (l : list Z) i j v d :
  (i < length l)%nat -> nth j (<[i := v]> l) d = if decide (i = j) then v else nth j l d.
Proof.
  intros Hi. rewrite !nth_lookup. destruct (decide (i = j)) as [->|Hij].
  - by rewrite list_lookup_insert_eq.
  - by rewrite list_lookup_insert_ne.
Qed.

Lemma div_mod_8_inj i j : i / 8 = j / 8 -> i mod 8 = j mod 8 -> i = j.
Proof. intros. rewrite (Z.div_mod i 8), (Z.div_mod j 8) by lia. lia. Qed.

Lemma testbit_u8 z k : 0 <= k < 8 -> Z.testbit (u8 z) k = Z.testbit z k.
Proof. intros. unfold u8. by rewrite Z.mod_pow2_bits_low by lia. Qed.

Lemma testBit_setBit arr i j :
  0 <= i < 8 * Z.of_nat (length arr) -> 0 <= j ->
  testBit (setBit arr i) j = (i =? j) || testBit arr j.
Proof.
  intros Hi Hj. rewrite !testBit_spec by done. unfold setBit.
  rewrite nth_insert_eq by int_lia. pose proof (Z.mod_pos_bound i 8).
  pose proof (Z.mod_pos_bound j 8).
  destruct (decide (Z.to_nat (i / 8) = Z.to_nat (j / 8))) as [E|E].
  - rewrite testbit_u8 by lia. rewrite Z.lor_spec, Z.shiftl_1_l, Z.pow2_bits_eqb by lia.
    rewrite E, orb_comm. f_equal.
    apply eq_bool_prop_intro. rewrite !Is_true_true, !Z.eqb_eq. split; [ | by intros -> ].
    intros. apply div_mod_8_inj; [ int_lia | done ].
  - destruct (Z.eqb_spec i j) as [<-|]; done.
Qed.

Lemma testBit_clearBit arr i j :
  0 <= i < 8 * Z.of_nat (length arr) -> 0 <= j ->
  testBit (clearBit arr i) j = negb (i =? j) && testBit arr j.
Proof.
  intros Hi Hj. rewrite !testBit_spec by done. unfold clearBit.
  rewrite nth_insert_eq by int_lia. pose proof (Z.mod_pos_bound i 8).
  pose proof (Z.mod_pos_bound j 8).
  destruct (decide (Z.to_nat (i / 8) = Z.to_nat (j / 8))) as [E|E].
  - rewrite testbit_u8 by lia.
    rewrite Z.land_spec, Z.lnot_spec, Z.shiftl_1_l, Z.pow2_bits_eqb by lia.
    rewrite E, andb_comm. f_equal. f_equal.
    apply eq_bool_prop_intro. rewrite !Is_true_true, !Z.eqb_eq. split; [ | by intros -> ].
    intros. apply div_mod_8_inj; [ int_lia | done ].
  - destruct (Z.eqb_spec i j) as [<-|]; done.
Qed.

Lemma testBit_zeros n i : testBit (replicate n 0) i = false.
Proof.
  unfold testBit. rewrite nth_lookup. destruct (replicate n 0 !! _) as [x|] eqn:E; [ | done ].
  apply lookup_replicate_1 in E as [-> _]. done.
Qed.

(** ** Counters *)

(** The 4-bit counter of bit [i]. *)
Definition counter (f : GNUNET_DISK_FileHandle) (i : Z) : Z :=
  let v := default 0 (f !! Z.to_nat (i / 2)) in
  if i mod 2 =? 0 then v mod 16 else v / 16.

Lemma byte_nibbles v :
  is_u8 v ->
  Z.land v 0xF = v mod 16 /\ Z.shiftr (Z.land v 0xF0) 4 = v / 16
  /\ Z.shiftr (Z.land v (Z.lnot 0xF)) 4 = v / 16.
Proof.
  intros Hv. split_and!.
  - by apply (Z.land_ones v 4).
  - rewrite Z.shiftr_land. change (Z.shiftr 0xF0 4) with (Z.ones 4).
    rewrite Z.land_ones, Z.shiftr_div_pow2 by lia. change (2 ^ 4) with 16. int_lia.
  - rewrite Z.shiftr_land. change (Z.shiftr (Z.lnot 0xF) 4) with (-1).
    rewrite Z.land_m1_r, Z.shiftr_div_pow2 by lia. done.
Qed.

Lemma file_write1_lookup f p v q :
  default 0 (file_write1 f p v !! q) = if decide (p = q) then v else default 0 (f !! q).
Proof.
  unfold file_write1. destruct (Nat.ltb_spec p (length f)) as [Hp|Hp].
  - destruct (decide (p = q)) as [->|]; [ by rewrite list_lookup_insert_eq | ].
    by rewrite list_lookup_insert_ne.
  - destruct (decide (p = q)) as [<-|Hpq].
    + rewrite lookup_app_r, lookup_app_r by (rewrite ?length_replicate; lia).
      rewrite length_replicate. by replace (p - length f - (p - length f))%nat with 0%nat by lia.
    + destruct (Nat.lt_ge_cases q (length f)); [ by rewrite lookup_app_l | ].
      rewrite lookup_app_r, (lookup_ge_None_2 f q) by lia.
      destruct (Nat.lt_ge_cases q p).
      * rewrite lookup_app_l by (rewrite length_replicate; lia).
        by rewrite lookup_replicate_2 by lia.
      * rewrite lookup_app_r, length_replicate by (rewrite length_replicate; lia).
        by rewrite lookup_ge_None_2 by (simpl; lia).
Qed.

Lemma is_bytes_default f q : is_bytes f -> is_u8 (default 0 (f !! q)).
Proof.
  intros Hf. destruct (f !! q) as [v|] eqn:E; simpl; [ | int_lia ].
  unfold is_bytes in Hf. by eapply Forall_lookup_1.
Qed.

Lemma is_bytes_file_write1 f p v : is_bytes f -> is_u8 v -> is_bytes (file_write1 f p v).
Proof.
  intros Hf Hv. unfold file_write1, is_bytes in *. case_match.
  - by apply Forall_insert.
  - rewrite !Forall_app, Forall_singleton. split_and!; [ done | | done ].
    apply Forall_replicate. int_lia.
Qed.

Lemma counter_range f i : is_bytes f -> 0 <= counter f i < 16.
Proof.
  intros Hf. unfold counter.
  pose proof (is_bytes_default f (Z.to_nat (i / 2)) Hf). case_match; int_lia.
Qed.

(** Writing back the byte of counter [i] with that counter replaced by [c]. *)
Lemma counter_file_write1 f i j c :
  is_bytes f -> 0 <= c < 16 -> 0 <= i -> 0 <= j ->
  let v := default 0 (f !! Z.to_nat (i / 2)) in
  let v' := u8 (Z.lor (Z.shiftl (if i mod 2 =? 0 then v / 16 else c) 4)
                      (if i mod 2 =? 0 then c else v mod 16)) in
  counter (file_write1 f (Z.to_nat (i / 2)) v') j = if i =? j then c else counter f j.
Proof.
  intros Hf Hc Hi Hj v v'. pose proof (is_bytes_default f (Z.to_nat (i / 2)) Hf) as Hv.
  fold v in Hv. assert (Hv' : v' = if i mod 2 =? 0 then v / 16 * 16 + c else c * 16 + v mod 16).
  { unfold v'. rewrite lor_add_shift by (try case_match; int_lia). change (2 ^ 4) with 16.
    case_match; rewrite u8_small by int_lia; lia. }
  unfold counter. rewrite file_write1_lookup, Hv'.
  destruct (decide (Z.to_nat (i / 2) = Z.to_nat (j / 2))) as [E|E].
  - rewrite <- E. fold v. destruct (Z.eqb_spec i j) as [<-|];
      repeat case_match; try int_lia.
  - destruct (Z.eqb_spec i j) as [<-|]; [ done | done ].
Qed.

Definition count_up (c : Z) : Z := if c <? 15 then c + 1 else c.
Definition count_down (c : Z) : Z := if (0 <? c) && (c <? 15) then c - 1 else c.

Lemma incrementBit_file bf f i :
  fh bf = Some f -> is_bytes f -> 0 <= i ->
  exists f', incrementBit bf i = mk_bf (setBit (bitArray bf) i) (filename bf) (Some f')
                                   (addressesPerElement bf) (bitArraySize bf)
    /\ is_bytes f'
    /\ forall j, 0 <= j -> counter f' j = if i =? j then count_up (counter f i) else counter f j.
Proof.
  intros Hfh Hf Hi. unfold incrementBit. rewrite Hfh. unfold file_read1.
  pose proof (is_bytes_default f (Z.to_nat (i / 2)) Hf) as Hv.
  destruct (byte_nibbles _ Hv) as (El & _ & Eh). rewrite El, Eh.
  pose proof (counter_range f i Hf) as Hc.
  assert (Hc' : 0 <= count_up (counter f i) < 16) by (unfold count_up; case_match; lia).
  set (v' := u8 (Z.lor (Z.shiftl (if i mod 2 =? 0 then default 0 (f !! Z.to_nat (i / 2)) / 16
                                  else count_up (counter f i)) 4)
                      (if i mod 2 =? 0 then count_up (counter f i)
                       else default 0 (f !! Z.to_nat (i / 2)) mod 16))).
  exists (file_write1 f (Z.to_nat (i / 2)) v'). split_and!.
  - unfold v', count_up, counter. destruct (i mod 2 =? 0); done.
  - apply is_bytes_file_write1; [ done | apply u8_range ].
  - intros j Hj. by apply counter_file_write1.
Qed.

Lemma decrementBit_file bf f i :
  fh bf = Some f -> is_bytes f -> 0 <= i ->
  exists f', decrementBit bf i
      = mk_bf (if count_down (counter f i) =? 0 then clearBit (bitArray bf) i else bitArray bf)
          (filename bf) (Some f') (addressesPerElement bf) (bitArraySize bf)
    /\ is_bytes f'
    /\ forall j, 0 <= j -> counter f' j = if i =? j then count_down (counter f i) else counter f j.
Proof.
  intros Hfh Hf Hi. unfold decrementBit. rewrite Hfh. unfold file_read1.
  pose proof (is_bytes_default f (Z.to_nat (i / 2)) Hf) as Hv.
  destruct (byte_nibbles _ Hv) as (El & Eh & _). rewrite El, Eh.
  pose proof (counter_range f i Hf) as Hc.
  assert (Hc' : 0 <= count_down (counter f i) < 16) by (unfold count_down; case_match; lia).
  set (v' := u8 (Z.lor (Z.shiftl (if i mod 2 =? 0 then default 0 (f !! Z.to_nat (i / 2)) / 16
                                  else count_down (counter f i)) 4)
                      (if i mod 2 =? 0 then count_down (counter f i)
                       else default 0 (f !! Z.to_nat (i / 2)) mod 16))).
  exists (file_write1 f (Z.to_nat (i / 2)) v'). split_and!.
  - unfold v', count_down, counter. destruct (i mod 2 =? 0); done.
  - apply is_bytes_file_write1; [ done | apply u8_range ].
  - intros j Hj. by apply counter_file_write1.
Qed.

(** ** The counting invariant

    [addrs] are the addresses counted up since the filter was empty and not counted down
    again, [peak i] bounds the number of times that bit [i] was among them at any time. *)

Definition count (l : list Z) (i : Z) : Z := Z.of_nat (count_occ Z.eq_dec l i).

Definition counts_as (c n m : Z) : Prop :=
  n <= m /\ ((c = n /\ n < 15) \/ (c = 15 /\ 15 <= m)).

Record counting (bf : GNUNET_CONTAINER_BloomFilter) (addrs : list Z) (peak : Z -> Z) : Prop := {
  counting_size : 0 < bitArraySize bf < 2 ^ 60;
  counting_length : Z.of_nat (length (bitArray bf)) = bitArraySize bf;
  counting_filename : filename bf = true;
  counting_counters : exists f, fh bf = Some f /\ is_bytes f
    /\ forall i, 0 <= i < bitArraySize bf * 8 ->
         counts_as (counter f i) (count addrs i) (peak i)
         /\ testBit (bitArray bf) i = (0 <? counter f i)
}.

Lemma length_setBit arr i : length (setBit arr i) = length arr.
Proof. apply length_insert. Qed.
Lemma length_clearBit arr i : length (clearBit arr i) = length arr.
Proof. apply length_insert. Qed.

Lemma count_cons a l i : count (a :: l) i = if a =? i then count l i + 1 else count l i.
Proof.
  unfold count. destruct (Z.eqb_spec a i) as [->|].
  - rewrite count_occ_cons_eq by done. lia.
  - by rewrite count_occ_cons_neq.
Qed.

Lemma count_nonneg l i : 0 <= count l i.
Proof. unfold count. lia. Qed.

Lemma counting_increment bf addrs peak peak' i :
  counting bf addrs peak -> 0 <= i < bitArraySize bf * 8 ->
  (forall j, peak j <= peak' j) -> (forall j, count (i :: addrs) j <= peak' j) ->
  counting (incrementBit bf i) (i :: addrs) peak'.
Proof.
  intros [Hs Hl Hn (f & Hfh & Hf & Hc)] Hi Hmono Hpeak.
  destruct (incrementBit_file bf f i Hfh Hf) as (f' & -> & Hf' & Hc'); [ lia | ].
  constructor; cbn; [ done | by rewrite length_setBit | done | ].
  exists f'. split_and!; [ done | done | ]. intros j Hj.
  specialize (Hmono j). specialize (Hpeak j). revert Hpeak.
  rewrite testBit_setBit, Hc', !count_cons by lia. destruct (Hc j Hj) as [Hr Ht]. intros Hpeak.
  destruct (Z.eqb_spec i j) as [<-|]; [ | unfold counts_as in *; split; [ lia | done ] ].
  pose proof (count_nonneg addrs i). unfold counts_as, count_up in *.
  case_match; split; [ lia | cbn; lia | lia | cbn; lia ].
Qed.

Lemma counting_decrement bf addrs peak i :
  counting bf (i :: addrs) peak -> 0 <= i < bitArraySize bf * 8 ->
  counting (decrementBit bf i) addrs peak.
Proof.
  intros [Hs Hl Hn (f & Hfh & Hf & Hc)] Hi.
  destruct (decrementBit_file bf f i Hfh Hf) as (f' & -> & Hf' & Hc'); [ lia | ].
  constructor; cbn; [ done | by case_match; rewrite ?length_clearBit | done | ].
  exists f'. split_and!; [ done | done | ]. intros j Hj. destruct (Hc j Hj) as [Hr Ht].
  rewrite count_cons in Hr. pose proof (count_nonneg addrs j) as Hnn.
  assert (Htc : testBit (if count_down (counter f i) =? 0 then clearBit (bitArray bf) i
                         else bitArray bf) j
      = negb ((count_down (counter f i) =? 0) && (i =? j)) && testBit (bitArray bf) j).
  { destruct (count_down (counter f i) =? 0); [ | done ].
    by rewrite testBit_clearBit by lia. }
  rewrite Htc, Hc', Ht by lia. destruct (Z.eqb_spec i j) as [<-|];
    [ | by rewrite andb_false_r ].
  rewrite andb_true_r. unfold counts_as, count_down in *.
  split; repeat case_match; lia.
Qed.

Lemma counting_proper bf l1 l2 peak :
  (forall i, count l1 i = count l2 i) -> counting bf l1 peak -> counting bf l2 peak.
Proof.
  intros He [? ? ? (f & ? & ? & Hc)]. constructor; [ done.. | ].
  exists f. split_and!; [ done | done | ]. intros i Hi. rewrite <- He. by apply Hc.
Qed.

Lemma count_app l1 l2 i : count (l1 ++ l2) i = count l1 i + count l2 i.
Proof. unfold count. rewrite count_occ_app. lia. Qed.

(** Counting leaves the parameters of the filter alone. *)
Definition same_params (bf bf' : GNUNET_CONTAINER_BloomFilter) : Prop :=
  bitArraySize bf' = bitArraySize bf /\ addressesPerElement bf' = addressesPerElement bf.

Lemma incrementBit_params bf i : same_params bf (incrementBit bf i).
Proof. unfold incrementBit, same_params. repeat case_match; done. Qed.

Lemma decrementBit_params bf i : same_params bf (decrementBit bf i).
Proof. unfold decrementBit, same_params. repeat case_match; done. Qed.

Lemma addresses_params hash bf bf' e :
  same_params bf bf' -> addresses hash bf' e = addresses hash bf e.
Proof. intros [E1 E2]. unfold addresses. by rewrite E1, E2. Qed.

Lemma foldl_params (f : GNUNET_CONTAINER_BloomFilter -> Z -> GNUNET_CONTAINER_BloomFilter) l bf :
  (forall b i, same_params b (f b i)) -> same_params bf (foldl f bf l).
Proof.
  intros Hf. revert bf. induction l as [|i l IH]; intros bf; [ done | ]. cbn [foldl].
  destruct (IH (f bf i)) as [E1 E2], (Hf bf i) as [E3 E4].
  split; congruence.
Qed.

Lemma counting_weaken bf addrs peak peak' :
  counting bf addrs peak -> (forall j, peak j <= peak' j) -> counting bf addrs peak'.
Proof.
  intros [? ? ? (f & ? & ? & Hc)] Hmono. constructor; [ done.. | ]. exists f. split_and!; [ done | done | ].
  intros i Hi. destruct (Hc i Hi) as [Hr Ht]. specialize (Hmono i). unfold counts_as in *. split; [ lia | done ].
Qed.

Lemma counting_increments l bf addrs peak peak' :
  counting bf addrs peak -> Forall (fun i => 0 <= i < bitArraySize bf * 8) l ->
  (forall j, peak j <= peak' j) -> (forall j, count (l ++ addrs) j <= peak' j) ->
  counting (foldl incrementBit bf l) (l ++ addrs) peak'.
Proof.
  revert bf addrs peak. induction l as [|i l IH]; intros bf addrs peak Hc Hl Hmono Hpeak.
  { by eapply counting_weaken. }
  apply Forall_cons in Hl as [Hi Hl]. cbn [foldl].
  pose proof (proj1 (incrementBit_params bf i)) as Es.
  assert (Hsame : forall j, count (l ++ i :: addrs) j = count ((i :: l) ++ addrs) j).
  { intros j. rewrite <- app_comm_cons, count_cons, !count_app, count_cons. case_match; lia. }
  eapply counting_proper; [ exact Hsame | ]. eapply (IH _ _ peak').
  - eapply counting_increment; [ done | done | done | ]. intros j. pose proof (Hpeak j) as Hj.
    rewrite <- Hsame, count_app in Hj. pose proof (count_nonneg l j). lia.
  - by rewrite Es.
  - done.
  - intros j. by rewrite Hsame.
Qed.

Lemma counting_decrements l bf addrs peak :
  counting bf (l ++ addrs) peak -> Forall (fun i => 0 <= i < bitArraySize bf * 8) l ->
  counting (foldl decrementBit bf l) addrs peak.
Proof.
  revert bf addrs. induction l as [|i l IH]; intros bf addrs Hc Hl; [ done | ].
  apply Forall_cons in Hl as [Hi Hl]. cbn [foldl].
  apply IH; [ by apply counting_decrement | ].
  by rewrite (proj1 (decrementBit_params bf i)).
Qed.

(** ** Histories of a counting filter *)

Inductive bf_op :=
  | OpAdd (e : GNUNET_HashCode)
  | OpRemove (e : GNUNET_HashCode).

Definition apply_op hash (bf : GNUNET_CONTAINER_BloomFilter) (o : bf_op)
  : outcome GNUNET_CONTAINER_BloomFilter :=
  match o with
  | OpAdd e => GNUNET_CONTAINER_bloomfilter_add hash bf e
  | OpRemove e => GNUNET_CONTAINER_bloomfilter_remove hash bf e
  end.

Fixpoint run_ops hash (bf : GNUNET_CONTAINER_BloomFilter) (os : list bf_op)
  : outcome GNUNET_CONTAINER_BloomFilter :=
  match os with
  | [] => Ret bf
  | o :: os' => bf' ← apply_op hash bf o; run_ops hash bf' os'
  end.

Fixpoint list_remove (e : GNUNET_HashCode) (l : list GNUNET_HashCode)
  : option (list GNUNET_HashCode) :=
  match l with
  | [] => None
  | x :: l' => if decide (e = x) then Some l'
               else match list_remove e l' with
                    | Some l1 => Some (x :: l1)
                    | None => None
                    end
  end.

(** The multiset of elements after a history that started from [l]; [None] when
    an element is removed that is not there. *)
Fixpoint present (l : list GNUNET_HashCode) (os : list bf_op)
  : option (list GNUNET_HashCode) :=
  match os with
  | [] => Some l
  | OpAdd e :: os' => present (e :: l) os'
  | OpRemove e :: os' => match list_remove e l with
                         | Some l' => present l' os'
                         | None => None
                         end
  end.

Section Histories.
Context (hash : GNUNET_HashCode -> GNUNET_HashCode).

Lemma counting_add bf addrs peak e :
  counting bf addrs peak ->
  exists bf', GNUNET_CONTAINER_bloomfilter_add hash bf e = Ret bf'
    /\ counting bf' (addresses hash bf e ++ addrs)
         (fun a => Z.max (peak a) (count (addresses hash bf e ++ addrs) a))
    /\ same_params bf bf'.
Proof.
  intros Hc. unfold GNUNET_CONTAINER_bloomfilter_add.
  rewrite iterateBits_addresses by apply Hc. rewrite iterate_addresses_fold.
  eexists; split_and!; [ done | | by apply foldl_params, incrementBit_params ].
  eapply counting_increments; [ done | apply addresses_range, Hc | |]; intros j; lia.
Qed.

Lemma counting_remove bf addrs peak e :
  counting bf (addresses hash bf e ++ addrs) peak ->
  exists bf', GNUNET_CONTAINER_bloomfilter_remove hash bf e = Ret bf'
    /\ counting bf' addrs peak /\ same_params bf bf'.
Proof.
  intros Hc. unfold GNUNET_CONTAINER_bloomfilter_remove.
  rewrite (counting_filename _ _ _ Hc). cbn [negb].
  rewrite iterateBits_addresses by apply Hc. rewrite iterate_addresses_fold.
  eexists; split_and!; [ done | | by apply foldl_params, decrementBit_params ].
  apply counting_decrements; [ done | ]. apply addresses_range, Hc.
Qed.

Lemma list_remove_count (f : GNUNET_HashCode -> list Z) e l l' i :
  list_remove e l = Some l' ->
  count (flat_map f l) i = count (f e) i + count (flat_map f l') i.
Proof.
  revert l'. induction l as [|x l IH]; intros l'; [ done | ]. cbn [list_remove].
  destruct (decide (e = x)) as [<-|].
  - intros [= <-]. cbn [flat_map]. by rewrite count_app.
  - destruct (list_remove e l) as [l1|] eqn:E; [ | done ]. intros [= <-].
    cbn [flat_map]. rewrite !count_app, (IH l1) by done. lia.
Qed.

(** The history was once such that the counter [a] was at least [n]. *)
Definition once_at_least bf (l : list GNUNET_HashCode) (os : list bf_op) (a n : Z) : Prop :=
  exists os1 os2 l1, os = os1 ++ os2 /\ present l os1 = Some l1
    /\ n <= count (flat_map (addresses hash bf) l1) a.

Lemma once_now bf l os a n : n <= count (flat_map (addresses hash bf) l) a -> once_at_least bf l os a n.
Proof. intros Hn. by exists [], os, l. Qed.

Lemma once_later bf o l l1 os a n :
  present l [o] = Some l1 -> once_at_least bf l1 os a n -> once_at_least bf l (o :: os) a n.
Proof.
  intros Ho (os1 & os2 & l2 & -> & Hp & Hn). exists (o :: os1), os2, l2. split_and!; [ done | | done ].
  destruct o as [e|e]; cbn [present] in *; [ by injection Ho as <- | ].
  destruct (list_remove e l); [ by injection Ho as <- | done ].
Qed.

Lemma run_ops_counting os bf l peak l' :
  let A := flat_map (addresses hash bf) in
  counting bf (A l) peak -> present l os = Some l' ->
  exists bf' peak', run_ops hash bf os = Ret bf' /\ same_params bf bf' /\ counting bf' (A l') peak'
    /\ forall a, peak' a <= peak a \/ once_at_least bf l os a (peak' a).
Proof.
  revert bf l peak. induction os as [|[e|e] os IH]; intros bf l peak A Hc Hp;
    cbn [present] in Hp.
  - injection Hp as <-. exists bf, peak. split_and!; [ done | done | done | by left ].
  - destruct (counting_add bf _ _ e Hc) as (bf1 & E1 & Hc1 & Hs1).
    cbn [run_ops apply_op]. rewrite E1. cbn [mbind outcome_bind].
    assert (HA : forall m, flat_map (addresses hash bf1) m = A m).
    { intros m. apply flat_map_ext. intros x. by apply addresses_params. }
    edestruct (IH bf1 (e :: l)) as (bf' & peak' & E & Hs & Hc' & Hpk); [ by rewrite HA | done | ].
    exists bf', peak'. split_and!; [ done | destruct Hs1, Hs; split; congruence | by rewrite HA in Hc' | ].
    intros a. destruct (Hpk a) as [Hle|Hon]; [ | right; eapply once_later; [ done | ] ].
    + destruct (Z.le_gt_cases (peak' a) (peak a)) as [|Hgt]; [ by left | right ].
      eapply once_later; [ done | ]. apply once_now. unfold A in *. cbn [flat_map]. lia.
    + destruct Hon as (os1 & os2 & l1 & He & Hp1 & Hn). exists os1, os2, l1.
      rewrite HA in Hn. done.
  - destruct (list_remove e l) as [l1|] eqn:El; [ | done ].
    destruct (counting_remove bf (A l1) peak e) as (bf1 & E1 & Hc1 & Hs1).
    { eapply counting_proper, Hc. intros i.
      rewrite count_app. by apply list_remove_count. }
    cbn [run_ops apply_op]. rewrite E1. cbn [mbind outcome_bind].
    assert (HA : forall m, flat_map (addresses hash bf1) m = A m).
    { intros m. apply flat_map_ext. intros x. by apply addresses_params. }
    edestruct (IH bf1 l1) as (bf' & peak' & E & Hs & Hc' & Hpk); [ by rewrite HA | done | ].
    exists bf', peak'. split_and!; [ done | destruct Hs1, Hs; split; congruence | by rewrite HA in Hc' | ].
    intros a. destruct (Hpk a) as [Hle|Hon]; [ by left | right; eapply once_later ].
    + cbn [present]. by rewrite El.
    + destruct Hon as (os1 & os2 & l2 & He & Hp1 & Hn). exists os1, os2, l2.
      rewrite HA in Hn. done.
Qed.

Lemma test_addresses bf e :
  0 < bitArraySize bf < 2 ^ 60 ->
  GNUNET_CONTAINER_bloomfilter_test hash (Some bf) e
  = Ret (forallb (testBit (bitArray bf)) (addresses hash bf e)).
Proof.
  intros Hs. unfold GNUNET_CONTAINER_bloomfilter_test.
  by rewrite iterateBits_addresses, iterate_addresses_test.
Qed.

Lemma counting_testBit bf addrs peak i :
  counting bf addrs peak -> 0 <= i < bitArraySize bf * 8 ->
  (i ∈ addrs -> testBit (bitArray bf) i = true)
  /\ (peak i < 15 -> testBit (bitArray bf) i = true -> i ∈ addrs).
Proof.
  intros [_ _ _ (f & _ & _ & Hc)] Hi. destruct (Hc i Hi) as [Hr ->].
  rewrite list_elem_of_In, (count_occ_In Z.eq_dec). unfold counts_as, count in *. lia.
Qed.

Lemma counting_clear bf f :
  0 < bitArraySize bf < 2 ^ 60 -> filename bf = true -> fh bf = Some f -> is_bytes f ->
  counting (GNUNET_CONTAINER_bloomfilter_clear bf) [] (fun _ => 0).
Proof.
  intros Hs Hn Hfh Hf. unfold GNUNET_CONTAINER_bloomfilter_clear. rewrite Hn, Hfh.
  constructor; cbn; [ done | rewrite length_replicate; lia | done | ].
  eexists. split_and!; [ done | | ].
  - unfold make_empty_file. apply is_bytes_app. split; [ | by apply is_bytes_drop ].
    apply Forall_replicate. int_lia.
  - intros i Hi. assert (Hz : counter (make_empty_file f (bitArraySize bf * 4)) i = 0).
    { unfold counter, make_empty_file.
      rewrite lookup_app_l by (rewrite length_replicate; int_lia).
      rewrite lookup_replicate_2 by int_lia. by case_match. }
    rewrite Hz, testBit_zeros. unfold counts_as, count. cbn. lia.
Qed.

(** C32: A Bloom filter with a counter file supports removal: after any
    sequence of adds and removes (removing only elements that are in) every
    element still in tests positive, and if at no time during the history 15
    or more uses of a bit were in the filter, it tests positive exactly on the
    elements all of whose bits belong to elements still in; so counters are
    neither lost nor left behind. *)
Theorem bloomfilter_counting_membership bf f os l :
  0 < bitArraySize bf < 2 ^ 60 -> filename bf = true -> fh bf = Some f -> is_bytes f ->
  present [] os = Some l ->
  exists bf', run_ops hash (GNUNET_CONTAINER_bloomfilter_clear bf) os = Ret bf'
    /\ (forall e, e ∈ l -> GNUNET_CONTAINER_bloomfilter_test hash (Some bf') e = Ret true)
    /\ ((forall os1 os2 l1 a, os = os1 ++ os2 -> present [] os1 = Some l1 ->
           count (flat_map (addresses hash bf) l1) a < 15) ->
        forall e, GNUNET_CONTAINER_bloomfilter_test hash (Some bf') e = Ret true <->
          forall a, a ∈ addresses hash bf e -> a ∈ flat_map (addresses hash bf) l).
Proof.
  intros Hs Hn Hfh Hf Hp.
  set (bf0 := GNUNET_CONTAINER_bloomfilter_clear bf).
  destruct (run_ops_counting os bf0 [] (fun _ => 0) l) as (bf' & peak & E & Hs' & Hc & Hpk);
    [ by apply (counting_clear bf f) | done | ].
  assert (Hcl : same_params bf bf0) by done.
  assert (HA : forall m, flat_map (addresses hash bf0) m = flat_map (addresses hash bf) m).
  { intros m. apply flat_map_ext. intros x. by apply addresses_params. }
  rewrite !HA in Hc. exists bf'. split; [ done | ].
  assert (Hs2 : same_params bf bf') by (destruct Hs', Hcl; split; congruence).
  pose proof (counting_size _ _ _ Hc) as Hsz.
  assert (Hr : forall e a, a ∈ addresses hash bf e -> 0 <= a < bitArraySize bf' * 8).
  { intros e a Ha. rewrite <- (addresses_params hash _ _ e Hs2) in Ha.
    pose proof (addresses_range hash bf' e Hsz) as HF. rewrite Forall_forall in HF.
    by apply HF. }
  assert (Ht : forall e, GNUNET_CONTAINER_bloomfilter_test hash (Some bf') e = Ret true <->
    forall a, a ∈ addresses hash bf e -> testBit (bitArray bf') a = true).
  { intros e. rewrite test_addresses, (addresses_params hash _ _ e Hs2) by done.
    setoid_rewrite list_elem_of_In. rewrite <- forallb_forall.
    split; [ by intros [= ->] | by intros -> ]. }
  split.
  - intros e He. apply Ht. intros a Ha. apply (counting_testBit _ _ _ a Hc); [ by eapply Hr | ].
    rewrite list_elem_of_In, in_flat_map. exists e. by rewrite <- !list_elem_of_In.
  - intros Hmax e. assert (Hlow : forall a, peak a < 15).
    { intros a. destruct (Hpk a) as [|(os1 & os2 & l1 & He & Hp1 & Hle)]; [ lia | ].
      rewrite HA in Hle. specialize (Hmax os1 os2 l1 a He Hp1). lia. }
    rewrite Ht. split; intros H a Ha; apply (counting_testBit _ _ _ a Hc); eauto.
Qed.

(** ** Filters that only grow *)

(** The bits of [bf] are the addresses in [addrs]. *)
Definition holds (bf : GNUNET_CONTAINER_BloomFilter) (addrs : list Z) : Prop :=
  0 < bitArraySize bf < 2 ^ 60
  /\ Z.of_nat (length (bitArray bf)) = bitArraySize bf
  /\ forall i, 0 <= i < bitArraySize bf * 8 ->
       testBit (bitArray bf) i = bool_decide (i ∈ addrs).

Lemma incrementBit_array bf i : bitArray (incrementBit bf i) = setBit (bitArray bf) i.
Proof. unfold incrementBit. repeat case_match; done. Qed.

Lemma holds_increments l bf addrs :
  holds bf addrs -> Forall (fun i => 0 <= i < bitArraySize bf * 8) l ->
  holds (foldl incrementBit bf l) (rev l ++ addrs).
Proof.
  revert bf addrs. induction l as [|i l IH]; intros bf addrs (Hs & Hl & Hb) HF; [ done | ].
  apply Forall_cons in HF as [Hi HF]. cbn [foldl rev]. rewrite <- app_assoc.
  destruct (incrementBit_params bf i) as [Es _].
  apply IH; [ | by rewrite Es ]. unfold holds. rewrite Es, incrementBit_array, length_setBit.
  split_and!; [ lia | lia | done | ]. intros j Hj. rewrite testBit_setBit, Hb by lia.
  destruct (Z.eqb_spec i j) as [<-|Hij]; cbn.
  - symmetry. apply bool_decide_eq_true. by left.
  - apply bool_decide_ext. rewrite elem_of_cons. intuition congruence.
Qed.

Lemma holds_add bf addrs e :
  holds bf addrs ->
  exists bf', GNUNET_CONTAINER_bloomfilter_add hash bf e = Ret bf'
    /\ holds bf' (rev (addresses hash bf e) ++ addrs) /\ same_params bf bf'.
Proof.
  intros Hc. unfold GNUNET_CONTAINER_bloomfilter_add.
  rewrite iterateBits_addresses, iterate_addresses_fold by apply Hc.
  eexists; split_and!; [ done | | by apply foldl_params, incrementBit_params ].
  apply holds_increments; [ done | ]. apply addresses_range, Hc.
Qed.

Definition add_all (bf : GNUNET_CONTAINER_BloomFilter) (l : list GNUNET_HashCode)
  : outcome GNUNET_CONTAINER_BloomFilter :=
  foldl (fun acc e => b ← acc; GNUNET_CONTAINER_bloomfilter_add hash b e) (Ret bf) l.

Lemma holds_add_all l bf addrs :
  holds bf addrs ->
  exists bf' addrs', add_all bf l = Ret bf' /\ same_params bf bf' /\ holds bf' addrs'
    /\ forall a, a ∈ addrs' <-> a ∈ flat_map (addresses hash bf) l \/ a ∈ addrs.
Proof.
  unfold add_all. revert bf addrs. induction l as [|e l IH]; intros bf addrs Hh.
  - exists bf, addrs. do 3 (split; [ done | ]). cbn [flat_map]. intros a.
    rewrite elem_of_nil. tauto.
  - cbn [foldl mbind outcome_bind]. destruct (holds_add bf addrs e Hh) as (bf1 & -> & Hh1 & Hp1).
    destruct (IH bf1 _ Hh1) as (bf' & addrs' & E & Hp & Hh' & Ha).
    exists bf', addrs'. split; [ done | ].
    split; [ destruct Hp, Hp1; split; congruence | ]. split; [ done | ].
    intros a. rewrite Ha. cbn [flat_map].
    rewrite !elem_of_app, (list_elem_of_In (rev _)), <- in_rev, <- list_elem_of_In.
    rewrite (flat_map_ext _ (addresses hash bf)) by (intros; by apply addresses_params).
    tauto.
Qed.

Lemma holds_add_all_empty l bf :
  holds bf [] ->
  exists bf' addrs', add_all bf l = Ret bf' /\ same_params bf bf' /\ holds bf' addrs'
    /\ forall a, a ∈ addrs' <-> a ∈ flat_map (addresses hash bf) l.
Proof.
  intros Hh. destruct (holds_add_all l bf [] Hh) as (bf' & addrs' & E & Hp & Hh' & Ha).
  exists bf', addrs'. do 3 (split; [ done | ]). intros a. rewrite Ha, elem_of_nil. tauto.
Qed.

Lemma holds_test bf addrs e :
  holds bf addrs ->
  GNUNET_CONTAINER_bloomfilter_test hash (Some bf) e = Ret true <->
  forall a, a ∈ addresses hash bf e -> a ∈ addrs.
Proof.
  intros (Hs & Hl & Hb). rewrite test_addresses by done.
  pose proof (addresses_range hash bf e Hs) as HF. rewrite Forall_forall in HF.
  transitivity (forall a, a ∈ addresses hash bf e -> testBit (bitArray bf) a = true).
  - setoid_rewrite list_elem_of_In. rewrite <- forallb_forall.
    split; [ by intros [= ->] | by intros -> ].
  - split; intros H a Ha; specialize (H a Ha).
    + rewrite Hb in H by eauto. by apply bool_decide_eq_true in H.
    + rewrite Hb by eauto. by apply bool_decide_eq_true.
Qed.

Lemma holds_empty size nm h k :
  0 < size < 2 ^ 60 -> holds (mk_bf (replicate (Z.to_nat size) 0) nm h k size) [].
Proof.
  intros Hs. split_and!; cbn; [ lia | lia | rewrite length_replicate; lia | ].
  intros i Hi. by rewrite testBit_zeros.
Qed.

(** A memory-only filter answers membership of exactly the elements all
    of whose addresses are addresses of added elements, so added elements are
    always found; transferring its raw data with get_raw_data and init yields
    a filter with the same answers. *)
Theorem bloomfilter_membership size k l :
  0 < size < 2 ^ 60 -> k <> 0%nat ->
  exists bf bf', GNUNET_CONTAINER_bloomfilter_init None size k = Some bf
    /\ add_all bf l = Ret bf'
    /\ (forall e, GNUNET_CONTAINER_bloomfilter_test hash (Some bf') e = Ret true <->
          forall a, a ∈ addresses hash bf e -> a ∈ flat_map (addresses hash bf) l)
    /\ (forall e, e ∈ l -> GNUNET_CONTAINER_bloomfilter_test hash (Some bf') e = Ret true)
    /\ exists raw, GNUNET_CONTAINER_bloomfilter_get_raw_data (Some bf') size = Some raw
        /\ exists bf2, GNUNET_CONTAINER_bloomfilter_init (Some raw) size k = Some bf2
            /\ forall e, GNUNET_CONTAINER_bloomfilter_test hash (Some bf2) e
                 = GNUNET_CONTAINER_bloomfilter_test hash (Some bf') e.
Proof.
  intros Hs Hk. unfold GNUNET_CONTAINER_bloomfilter_init.
  rewrite (proj2 (Nat.eqb_neq k 0)), (proj2 (Z.eqb_neq size 0)) by lia. cbn [orb].
  eexists. pose proof (holds_empty size false None k Hs) as Hh.
  destruct (holds_add_all_empty l _ Hh) as (bf' & addrs & E & Hp & Hh' & Ha).
  exists bf'. split_and!; [ done | done | | | ].
  - intros e. rewrite holds_test by done. setoid_rewrite Ha.
    by rewrite (addresses_params hash _ _ _ Hp).
  - intros e He. apply (holds_test _ _ _ Hh'). intros a Hin. apply Ha.
    rewrite list_elem_of_In, in_flat_map. exists e.
    rewrite <- !list_elem_of_In, <- (addresses_params hash _ _ _ Hp). done.
  - destruct Hp as [Es Ek], Hh' as (_ & Hl & _). cbn in Es, Ek.
    unfold GNUNET_CONTAINER_bloomfilter_get_raw_data. rewrite Es, Z.eqb_refl.
    eexists; split; [ done | ]. eexists; split; [ done | ]. intros e.
    rewrite !test_addresses by (cbn; lia). unfold addresses. cbn.
    by rewrite Es, Ek, take_take, Nat.min_id, take_ge by lia.
Qed.

Lemma next_pow2_spec n i size :
  0 <= i -> 2 ^ (Z.of_nat n + i) = 2 ^ 32 -> 2 ^ i < 2 * size -> 0 < size <= 2 ^ 31 ->
  exists j, next_pow2 (S n) (2 ^ i) size = Some (2 ^ j) /\ 0 <= j
    /\ size <= 2 ^ j < 2 * size.
Proof.
  revert i. induction n as [|n IH]; intros i Hi Hn Hlt Hs.
  - rewrite Z.add_0_l in Hn. lia.
  - cbn [next_pow2]. destruct (Z.ltb_spec (2 ^ i) size) as [Hl|Hl]; [ | exists i; split; [ done | lia ] ].
    assert (Hi1 : 2 ^ i * 2 = 2 ^ (i + 1)) by (rewrite Z.pow_add_r; lia).
    rewrite u32_small by (pose proof (Z.pow_nonneg 2 i ltac:(lia)); unfold is_u32; lia).
    rewrite Hi1. apply (IH (i + 1)); [ lia | | lia | done ].
    rewrite <- Hn. f_equal. lia.
Qed.

Lemma next_pow2_more n i size r :
  next_pow2 n i size = Some r -> next_pow2 (S n) i size = Some r.
Proof.
  revert i. induction n as [|n IH]; intros i; [ done | ].
  intros H. cbn [next_pow2] in H. cbn [next_pow2]. case_match; [ | done ]. by apply IH.
Qed.

(** Beyond 2^31 the [unsigned int] of the loop wraps to zero. *)
Lemma next_pow2_diverges n i size :
  0 <= i -> 2 ^ 31 < size -> next_pow2 n (u32 (2 ^ i)) size = None.
Proof.
  revert i. induction n as [|n IH]; intros i Hi Hs; [ done | ]. cbn [next_pow2].
  assert (Hlt : u32 (2 ^ i) < size).
  { destruct (Z.lt_ge_cases i 32).
    - assert (2 ^ i <= 2 ^ 31) by (apply Z.pow_le_mono_r; lia).
      rewrite u32_small by (pose proof (Z.pow_nonneg 2 i ltac:(lia)); unfold is_u32; lia). lia.
    - unfold u32. replace i with (i - 32 + 32) by lia.
      rewrite Z.pow_add_r, Z.mod_mul by lia. lia. }
  rewrite (proj2 (Z.ltb_lt _ _) Hlt). rewrite <- (IH (i + 1)) by lia. f_equal.
  unfold u32. rewrite Z.mul_mod_idemp_l, Z.pow_add_r by lia. done.
Qed.

(** For sizes up to 2^31 resize terminates with the least power of two
    that holds size and a filter that contains exactly what the re-added
    elements account for; the number of addresses per element stays that of
    the old filter, whatever k the caller asks for. *)
Theorem bloomfilter_resize_rebuilds bf l size k :
  0 < size <= 2 ^ 31 ->
  exists bf', GNUNET_CONTAINER_bloomfilter_resize hash bf l size k = Ret (Some bf')
    /\ (exists j, 0 <= j /\ bitArraySize bf' = 2 ^ j) /\ size <= bitArraySize bf' < 2 * size
    /\ addressesPerElement bf' = addressesPerElement bf
    /\ forall e, GNUNET_CONTAINER_bloomfilter_test hash (Some bf') e = Ret true <->
          forall a, a ∈ addresses hash bf' e -> a ∈ flat_map (addresses hash bf') l.
Proof.
  intros Hs. unfold GNUNET_CONTAINER_bloomfilter_resize.
  destruct (next_pow2_spec 32 0 size) as (j & E & Hj & Hlt); [ lia | done | lia | lia | ].
  change (2 ^ 0) with 1 in E.
  assert (E' : next_pow2 34 1 size = Some (2 ^ j)) by (by apply next_pow2_more).
  rewrite E'. set (bf1 := mk_bf _ _ _ _ _).
  assert (Hh : holds bf1 []) by (apply holds_empty; lia).
  destruct (holds_add_all_empty l _ Hh) as (bf' & addrs & Ea & Hp & Hh' & Ha).
  unfold add_all in Ea. rewrite Ea. cbn [mbind outcome_bind]. exists bf'.
  pose proof Hp as [Es Ek]. rewrite Es. cbn [bitArraySize bf1].
  split; [ done | ]. split; [ by exists j | ]. split; [ done | ]. split; [ done | ].
  intros e. rewrite holds_test by done. setoid_rewrite Ha.
  by rewrite (flat_map_ext (addresses hash bf') (addresses hash bf1))
    by (intros; by apply addresses_params).
Qed.

(** For sizes above 2^31 the loop of resize that searches the next power
    of two in a 32-bit unsigned int never ends, whatever the number of
    iterations. *)
Theorem bloomfilter_resize_diverges bf l size k :
  2 ^ 31 < size ->
  (forall fuel, next_pow2 fuel 1 size = None)
  /\ GNUNET_CONTAINER_bloomfilter_resize hash bf l size k = Ret None.
Proof.
  intros Hs. assert (H : forall fuel, next_pow2 fuel 1 size = None).
  { intros fuel. change 1 with (u32 (2 ^ 0)). by apply next_pow2_diverges. }
  split; [ done | ]. unfold GNUNET_CONTAINER_bloomfilter_resize. by rewrite H.
Qed.

(** ** Union of filters *)

Lemma le_decode_lor a d :
  length a = length d -> is_bytes a -> is_bytes d ->
  host_bytes (length a) (Z.lor (le_decode a) (le_decode d)) = zip_with Z.lor a d.
Proof.
  intros Hl Ha. revert d Hl. induction Ha as [|b a Hb Ha IH]; intros [|b' d] Hl Hd;
    try done. apply is_bytes_cons in Hd as [Hb' Hd]. injection Hl as Hl.
  cbn [length host_bytes le_decode zip_with]. f_equal.
  - unfold u8. rewrite <- (Z.mod_small (Z.lor b b') (2 ^ 8)).
    + apply Z.bits_inj'. intros i Hi. destruct (Z.lt_ge_cases i 8).
      * rewrite !Z.mod_pow2_bits_low, !Z.lor_spec, !Z.shiftl_spec_low by lia.
        by rewrite !orb_false_r.
      * by rewrite !Z.mod_pow2_bits_high by lia.
    + assert (Hlog : Z.lor b b' = Z.lor b b' mod 2 ^ 8); [ | int_lia ].
      apply Z.bits_inj'. intros i Hi. destruct (Z.lt_ge_cases i 8).
      * by rewrite Z.mod_pow2_bits_low by lia.
      * rewrite Z.mod_pow2_bits_high, Z.lor_spec by lia.
        rewrite <- (Z.mod_small b (2 ^ 8)), <- (Z.mod_small b' (2 ^ 8)) by done.
        by rewrite !Z.mod_pow2_bits_high by lia.
  - rewrite <- (IH d) by done. f_equal. rewrite !Z.shiftr_lor, !Z.shiftr_shiftl_l by lia.
    rewrite !Z.shiftr_div_pow2, !Z.div_small by done. done.
Qed.

Lemma or_words_bytewise n a d :
  length a = length d -> (8 * n <= length a)%nat -> is_bytes a -> is_bytes d ->
  or_words n a d = zip_with Z.lor a d.
Proof.
  revert a d. induction n as [|n IH]; intros a d Hl Hn Ha Hd; [ done | ].
  cbn [or_words]. rewrite IH by (rewrite ?length_drop; try lia; auto with gnunet).
  rewrite <- (take_drop 8 a) at 3. rewrite <- (take_drop 8 d) at 3.
  rewrite zip_with_app by (rewrite !length_take; lia). f_equal.
  rewrite <- le_decode_lor by (rewrite ?length_take; try lia; auto with gnunet).
  rewrite length_take. by replace (8 `min` length a)%nat with 8%nat by lia.
Qed.

Lemma testBit_zip_lor a d i :
  length a = length d -> 0 <= i ->
  testBit (zip_with Z.lor a d) i = testBit a i || testBit d i.
Proof.
  intros Hl Hi. rewrite !testBit_spec, !nth_lookup, lookup_zip_with by done.
  destruct (a !! Z.to_nat (i / 8)) as [x|] eqn:Ea, (d !! Z.to_nat (i / 8)) as [y|] eqn:Ed; cbn;
    rewrite ?Z.lor_spec, ?Z.bits_0; try done.
  - apply lookup_lt_Some in Ea. apply lookup_ge_None in Ed. lia.
  - apply lookup_lt_Some in Ed. apply lookup_ge_None in Ea. lia.
Qed.

(** bloomfilter_or computes the bytewise or (through 64-bit words plus a
    remainder), so the result contains whatever either filter contained; sizes
    that differ are refused with GNUNET_SYSERR and no change. *)
Lemma bloomfilter_or_union bf d size :
  0 < bitArraySize bf < 2 ^ 60 -> Z.of_nat (length (bitArray bf)) = bitArraySize bf ->
  is_bytes (bitArray bf) -> Z.of_nat (length d) = size -> is_bytes d ->
  if size =? bitArraySize bf then
    exists bf', GNUNET_CONTAINER_bloomfilter_or (Some bf) d size = (GNUNET_OK, Some bf')
      /\ bitArray bf' = zip_with Z.lor (bitArray bf) d
      /\ forall e bfd, GNUNET_CONTAINER_bloomfilter_init (Some d) size
                        (addressesPerElement bf) = Some bfd ->
           GNUNET_CONTAINER_bloomfilter_test hash (Some bf) e = Ret true
           \/ GNUNET_CONTAINER_bloomfilter_test hash (Some bfd) e = Ret true ->
           GNUNET_CONTAINER_bloomfilter_test hash (Some bf') e = Ret true
  else GNUNET_CONTAINER_bloomfilter_or (Some bf) d size = (GNUNET_SYSERR, Some bf).
Proof.
  intros Hs Hl Hb Hd Hbd. unfold GNUNET_CONTAINER_bloomfilter_or. rewrite Z.eqb_sym.
  destruct (Z.eqb_spec (bitArraySize bf) size) as [E|E]; [ | done ]. cbn [negb].
  rewrite take_ge, or_words_bytewise by (rewrite ?E; int_lia || done).
  eexists. do 2 (split; [ done | ]). intros e bfd Hi Ht.
  unfold GNUNET_CONTAINER_bloomfilter_init in Hi.
  destruct (_ || _); [ done | ]. injection Hi as <-. rewrite take_ge in Ht by lia.
  rewrite !test_addresses in Ht by (cbn; lia). rewrite test_addresses by (cbn; lia).
  unfold addresses in *. cbn [bitArray bitArraySize addressesPerElement] in *.
  rewrite <- E in Ht. f_equal. apply forallb_forall. intros a Ha.
  assert (Hr : 0 <= a).
  { pose proof (addresses_range hash bf e Hs) as HF. rewrite Forall_forall in HF.
    apply HF, list_elem_of_In, Ha. }
  rewrite testBit_zip_lor by (try lia; done).
  destruct Ht as [[= Ht]|[= Ht]]; rewrite forallb_forall in Ht; rewrite (Ht a Ha);
    [ done | apply orb_true_r ].
Qed.

End Histories.

(** ** Loading a filter from its counter file *)

Lemma load_pow2_spec n i j :
  0 <= i <= j -> j < 63 -> (Z.to_nat (j - i) < n)%nat ->
  load_pow2 n (2 ^ i) (2 ^ j) = Some (2 ^ j).
Proof.
  revert i. induction n as [|n IH]; intros i Hi Hj Hn; [ lia | ]. cbn [load_pow2].
  assert (Hi1 : 2 ^ i * 2 = 2 ^ (i + 1)) by (rewrite Z.pow_add_r; lia).
  assert (Hp : 0 < 2 ^ i) by (apply Z.pow_pos_nonneg; lia).
  assert (Hb : 2 ^ (i + 1) <= 2 ^ 63) by (apply Z.pow_le_mono_r; lia).
  rewrite u64_small by (unfold is_u64; lia).
  destruct (Z.eq_dec i j) as [->|Hne]; [ by rewrite Z.ltb_irrefl | ].
  assert (2 ^ i < 2 ^ j) by (apply Z.pow_lt_mono_r; lia).
  rewrite (proj2 (Z.ltb_lt _ _)), (proj2 (Z.ltb_lt (2 ^ i) _)) by lia. cbn [andb].
  rewrite Hi1. apply IH; lia.
Qed.

Lemma counter_cons b f j :
  0 <= j ->
  counter (b :: f) j = if j =? 0 then b mod 16 else if j =? 1 then b / 16 else counter f (j - 2).
Proof.
  intros Hj. unfold counter.
  destruct (Z.eqb_spec j 0) as [->|]; [ done | ]. destruct (Z.eqb_spec j 1) as [->|]; [ done | ].
  replace (Z.to_nat (j / 2)) with (S (Z.to_nat ((j - 2) / 2))) by int_lia.
  replace ((j - 2) mod 2) with (j mod 2) by int_lia. done.
Qed.

Lemma counter_past f j : 2 * Z.of_nat (length f) <= j -> counter f j = 0.
Proof.
  intros Hj. unfold counter. rewrite lookup_ge_None_2 by int_lia. by case_match.
Qed.

Lemma nibble_tests b :
  is_u8 b -> negb (Z.land b 0x0F =? 0) = (0 <? b mod 16)
             /\ negb (Z.land b 0xF0 =? 0) = (0 <? b / 16).
Proof.
  intros Hb. destruct (byte_nibbles b Hb) as (El & Eh & _). rewrite El. split; [ int_lia | ].
  assert (Hhi : Z.land b 0xF0 = b / 16 * 16).
  { rewrite <- Eh. change 16 with (2 ^ 4). rewrite <- Z.shiftl_mul_pow2 by lia.
    rewrite Z.shiftr_land, Z.shiftl_land. change (Z.shiftl (Z.shiftr 0xF0 4) 4) with 0xF0.
    apply Z.bits_inj'. intros i Hi. rewrite !Z.land_spec.
    destruct (Z.lt_ge_cases i 4).
    - assert (Hz : Z.testbit 0xF0 i = false)
        by (change 0xF0 with (Z.shiftl 15 4); by rewrite Z.shiftl_spec_low by lia).
      by rewrite Hz, !andb_false_r.
    - rewrite Z.shiftl_spec, Z.shiftr_spec by lia. by replace (i - 4 + 4) with i by lia. }
  rewrite Hhi. int_lia.
Qed.

(** Bit [j] after the counters [rb] of the bits from [p] on have been read. *)
Lemma load_buffer_spec rb : forall pos i arr j,
  is_bytes rb -> 0 <= pos -> 0 <= i -> 0 <= j -> 8 * Z.of_nat (length arr) <= 2 ^ 32 ->
  pos + 2 * i + 2 * Z.of_nat (length rb) <= 8 * Z.of_nat (length arr) ->
  length (load_buffer rb pos i arr) = length arr
  /\ testBit (load_buffer rb pos i arr) j
     = testBit arr j || (pos + 2 * i <=? j) && (0 <? counter rb (j - (pos + 2 * i))).
Proof.
  induction rb as [|b rb IH]; intros pos i arr j Hb Hpos Hi Hj Ha Hlen.
  - split; [ done | ]. cbn [load_buffer].
    destruct (Z.leb_spec (pos + 2 * i) j); [ | by rewrite orb_false_r ].
    rewrite counter_past by (cbn; lia). by rewrite orb_false_r.
  - apply is_bytes_cons in Hb as [Hb Hrb]. destruct (nibble_tests b Hb) as [E1 E2].
    cbn [load_buffer length] in *. rewrite E1, E2, !u32_small by (unfold is_u32; lia).
    set (arr1 := if 0 <? b mod 16 then setBit arr (pos + i * 2) else arr).
    set (arr2 := if 0 <? b / 16 then setBit arr1 (pos + i * 2 + 1) else arr1).
    assert (L1 : length arr1 = length arr) by (unfold arr1; case_match; [ apply length_setBit | done ]).
    assert (L2 : length arr2 = length arr)
      by (unfold arr2; case_match; [ by rewrite length_setBit | done ]).
    assert (T1 : testBit arr1 j = testBit arr j || (0 <? b mod 16) && (pos + i * 2 =? j)).
    { unfold arr1. destruct (0 <? b mod 16); [ | by rewrite orb_false_r ].
      rewrite testBit_setBit by lia. apply orb_comm. }
    assert (T2 : testBit arr2 j = testBit arr1 j || (0 <? b / 16) && (pos + i * 2 + 1 =? j)).
    { unfold arr2. destruct (0 <? b / 16); [ | by rewrite orb_false_r ].
      rewrite testBit_setBit by (rewrite ?L1; lia). apply orb_comm. }
    destruct (IH pos (i + 1) arr2 j) as [IL IT]; [ done | lia.. | ].
    rewrite IL, IT, L2, T2, T1. split; [ done | ]. rewrite <- !orb_assoc. f_equal.
    destruct (Z.leb_spec (pos + 2 * i) j) as [Hle|Hle].
    + rewrite counter_cons by lia.
      replace (j - (pos + 2 * i) - 2) with (j - (pos + 2 * (i + 1))) by lia.
      destruct (Z.eqb_spec (j - (pos + 2 * i)) 0), (Z.eqb_spec (j - (pos + 2 * i)) 1),
        (Z.eqb_spec (pos + i * 2) j), (Z.eqb_spec (pos + i * 2 + 1) j),
        (Z.leb_spec (pos + 2 * (i + 1)) j); try lia;
        rewrite ?andb_true_r, ?andb_false_r, ?orb_false_r; done.
    + rewrite (proj2 (Z.eqb_neq (pos + i * 2) j)), (proj2 (Z.eqb_neq (pos + i * 2 + 1) j)),
        (proj2 (Z.leb_gt (pos + 2 * (i + 1)) j)), !andb_false_r by lia. done.
Qed.

Lemma counter_app f g j :
  0 <= j -> counter (f ++ g) j = if j <? 2 * Z.of_nat (length f) then counter f j
                                 else counter g (j - 2 * Z.of_nat (length f)).
Proof.
  intros Hj. unfold counter. destruct (Z.ltb_spec j (2 * Z.of_nat (length f))).
  - by rewrite lookup_app_l by int_lia.
  - rewrite lookup_app_r by int_lia.
    replace (Z.to_nat ((j - 2 * Z.of_nat (length f)) / 2))
      with (Z.to_nat (j / 2) - length f)%nat by int_lia.
    by replace ((j - 2 * Z.of_nat (length f)) mod 2) with (j mod 2) by int_lia.
Qed.

Lemma load_loop_spec m : forall f pos size arr,
  is_bytes f -> 0 <= pos -> Z.of_nat (length f) = Z.of_nat m * BUFFSIZE ->
  Z.of_nat (length arr) = size -> size * 8 <= 2 ^ 32 -> pos + 2 * Z.of_nat (length f) = size * 8 ->
  exists arr', load_loop (S m) f pos size arr = Some arr' /\ length arr' = length arr
    /\ forall j, 0 <= j ->
         testBit arr' j = testBit arr j || (pos <=? j) && (0 <? counter f (j - pos)).
Proof.
  induction m as [|m IH]; intros f pos size arr Hf Hpos Hl Ha Hs Hp; cbn [load_loop].
  - rewrite (proj2 (Z.ltb_ge _ _)) by lia. exists arr. split_and!; [ done | done | ].
    intros j Hj. destruct (Z.leb_spec pos j); [ | by rewrite orb_false_r ].
    rewrite counter_past by lia. by rewrite orb_false_r.
  - assert (HB : 0 < BUFFSIZE) by done. rewrite (proj2 (Z.ltb_lt _ _)) by lia.
    assert (Hge : (Z.to_nat BUFFSIZE <= length f)%nat) by nia.
    assert (Hlt : Z.of_nat (length (take (Z.to_nat BUFFSIZE) f)) = BUFFSIZE)
      by (rewrite length_take; lia).
    rewrite Hlt, (proj2 (Z.eqb_neq _ _)), Z.ltb_irrefl by lia.
    pose proof (fun j Hj => load_buffer_spec (take (Z.to_nat BUFFSIZE) f) pos 0 arr j
      (is_bytes_take _ _ Hf) Hpos ltac:(lia) Hj ltac:(lia) ltac:(lia)) as Hbuf.
    destruct (Hbuf 0 ltac:(lia)) as [HL _].
    destruct (IH (drop (Z.to_nat BUFFSIZE) f) (pos + BUFFSIZE * 2) size
      (load_buffer (take (Z.to_nat BUFFSIZE) f) pos 0 arr)) as (arr' & E & Hla & Hta);
      [ by apply is_bytes_drop | lia | rewrite length_drop; lia | lia | done
      | rewrite length_drop; lia | ].
    exists arr'. split_and!; [ done | congruence | ]. intros j Hj.
    rewrite Hta by done. destruct (Hbuf j Hj) as [_ ->]. rewrite <- orb_assoc. f_equal.
    replace (pos + 2 * 0) with pos by lia.
    destruct (Z.leb_spec pos j) as [Hle|Hle]; cycle 1.
    { by rewrite (proj2 (Z.leb_gt _ _)) by lia. }
    rewrite <- (take_drop (Z.to_nat BUFFSIZE) f) at 3.
    rewrite counter_app, Hlt by lia.
    replace (j - pos - 2 * BUFFSIZE) with (j - (pos + BUFFSIZE * 2)) by lia.
    destruct (Z.ltb_spec (j - pos) (2 * BUFFSIZE)).
    + by rewrite (proj2 (Z.leb_gt (pos + BUFFSIZE * 2) j)), orb_false_r by lia.
    + rewrite (proj2 (Z.leb_le (pos + BUFFSIZE * 2) j)), counter_past by lia. done.
Qed.

(** Loading the counter file of a filter rebuilds the filter: the bit
    array has a bit set exactly where the original had, with the size and
    counters intact; a non-empty file of another length is rejected. *)
Theorem bloomfilter_load_restores bf addrs peak f k j :
  counting bf addrs peak -> fh bf = Some f -> Z.of_nat (length f) = bitArraySize bf * 4 ->
  bitArraySize bf = 2 ^ j -> 16 <= j <= 29 -> k <> 0%nat ->
  exists bf', GNUNET_CONTAINER_bloomfilter_load (Some f) (bitArraySize bf) k = Some bf'
    /\ bitArraySize bf' = bitArraySize bf /\ addressesPerElement bf' = k
    /\ (forall i, 0 <= i < bitArraySize bf * 8 ->
          testBit (bitArray bf') i = testBit (bitArray bf) i)
    /\ counting bf' addrs peak
    /\ forall g, Z.of_nat (length g) <> 0 -> length g <> length f ->
         GNUNET_CONTAINER_bloomfilter_load (Some g) (bitArraySize bf) k = None.
Proof.
  intros [Hs Hla Hn (f0 & Hfh & Hf & Hc)] Ef Hl Hj Hjr Hk.
  rewrite Ef in Hfh. injection Hfh as <-. unfold GNUNET_CONTAINER_bloomfilter_load.
  assert (Hlo : 2 ^ 16 <= 2 ^ j) by (apply Z.pow_le_mono_r; lia).
  assert (Hhi : 2 ^ j <= 2 ^ 29) by (apply Z.pow_le_mono_r; lia).
  rewrite (proj2 (Nat.eqb_neq k 0)), (proj2 (Z.eqb_neq _ 0)) by lia. cbn [orb].
  rewrite (proj2 (Z.ltb_ge (bitArraySize bf) BUFFSIZE)) by (unfold BUFFSIZE; lia).
  pose proof (load_pow2_spec 65 0 j) as Hp2. change (2 ^ 0) with 1 in Hp2.
  rewrite Hj, Hp2 by lia. rewrite <- Hj.
  rewrite (proj2 (Z.eqb_neq (Z.of_nat (length f)) 0)), Hl, Z.eqb_refl by lia. cbn [negb].
  assert (Hdiv : bitArraySize bf * 4 = bitArraySize bf * 8 / (BUFFSIZE * 2) * BUFFSIZE).
  { rewrite Hj. replace j with (j - 14 + 14) by lia. rewrite (Z.pow_add_r 2 (j - 14)) by lia.
    change (BUFFSIZE * 2) with (2 ^ 14 * 8). change BUFFSIZE with (2 ^ 14 * 4).
    replace (2 ^ (j - 14) * 2 ^ 14 * 8) with (2 ^ (j - 14) * (2 ^ 14 * 8)) by ring.
    rewrite Z.div_mul by lia. ring. }
  destruct (load_loop_spec (Z.to_nat (bitArraySize bf * 8 / (BUFFSIZE * 2))) f 0
    (bitArraySize bf) (replicate (Z.to_nat (bitArraySize bf)) 0)) as (arr & -> & Hlr & Ht);
    [ done | lia | rewrite Z2Nat.id; [ lia | apply Z.div_pos; [ lia | done ] ]
    | rewrite length_replicate; lia | lia | lia | ].
  rewrite length_replicate in Hlr.
  assert (Hbits : forall i, 0 <= i -> testBit arr i = (0 <? counter f i)).
  { intros i Hi. rewrite Ht, testBit_zeros, Z.sub_0_r, (proj2 (Z.leb_le 0 i)) by done. done. }
  eexists. split; [ done | ]. cbn. split; [ done | ]. split; [ done | ]. split; [ | split ].
  - intros i Hi. rewrite Hbits by lia. symmetry. by apply Hc.
  - constructor; cbn; [ lia | lia | done | ]. exists f. split_and!; [ done | done | ].
    intros i Hi. split; [ by apply Hc | apply Hbits; lia ].
  - intros g Hg0 Hgf. rewrite (proj2 (Z.eqb_neq _ _) Hg0).
    by rewrite (proj2 (Z.eqb_neq (Z.of_nat (length g)) _)) by lia.
Qed.

(** ** The hypotheses hold at concrete filters *)

Definition toy_hash (h : GNUNET_HashCode) : GNUNET_HashCode :=
  (fun w => u32 (w * 1103515245 + 12345)) <$> h.
Definition elem1 : GNUNET_HashCode := (fun i => Z.of_nat i * 7 + 3) <$> seq 0 16.
Definition elem2 : GNUNET_HashCode := (fun i => Z.of_nat i * 11 + 5) <$> seq 0 16.

Lemma bloomfilter_counting_membership_witness :
  exists bf', run_ops toy_hash
      (GNUNET_CONTAINER_bloomfilter_clear (mk_bf [1; 2; 3; 4] true (Some [9]) 18 4))
      [OpAdd elem1; OpAdd elem2; OpRemove elem1] = Ret bf'
    /\ GNUNET_CONTAINER_bloomfilter_test toy_hash (Some bf') elem2 = Ret true.
Proof.
  destruct (bloomfilter_counting_membership toy_hash (mk_bf [1; 2; 3; 4] true (Some [9]) 18 4)
    [9] [OpAdd elem1; OpAdd elem2; OpRemove elem1] [elem2]) as (bf' & E & Ht & _).
  - cbn; lia.
  - reflexivity.
  - reflexivity.
  - repeat constructor; int_lia.
  - vm_compute; reflexivity.
  - exists bf'. split; [ exact E | ]. apply Ht. left.
Defined.

Lemma bloomfilter_membership_witness :
  exists bf bf', GNUNET_CONTAINER_bloomfilter_init None 4 3 = Some bf
    /\ add_all toy_hash bf [elem1; elem2] = Ret bf'
    /\ GNUNET_CONTAINER_bloomfilter_test toy_hash (Some bf') elem1 = Ret true.
Proof.
  destruct (bloomfilter_membership toy_hash 4 3 [elem1; elem2])
    as (bf & bf' & E1 & E2 & _ & Ht & _); [ lia | lia | ].
  exists bf, bf'. split; [ exact E1 | ]. split; [ exact E2 | ]. apply Ht. left.
Defined.

Lemma bloomfilter_resize_rebuilds_witness :
  exists bf', GNUNET_CONTAINER_bloomfilter_resize toy_hash (mk_bf [0] false None 3 1)
      [elem1] 5 7 = Ret (Some bf')
    /\ addressesPerElement bf' = 3%nat.
Proof.
  destruct (bloomfilter_resize_rebuilds toy_hash (mk_bf [0] false None 3 1) [elem1] 5 7)
    as (bf' & E & _ & _ & Hk & _); [ lia | ].
  exists bf'. split; [ exact E | exact Hk ].
Defined.

Lemma bloomfilter_resize_diverges_witness :
  GNUNET_CONTAINER_bloomfilter_resize toy_hash (mk_bf [0] false None 3 1) [] (2 ^ 31 + 1) 3
  = Ret None.
Proof. apply bloomfilter_resize_diverges. lia. Defined.

Lemma bloomfilter_load_restores_witness :
  let bf := GNUNET_CONTAINER_bloomfilter_clear (mk_bf [] true (Some []) 3 (2 ^ 16)) in
  exists f bf', fh bf = Some f
    /\ GNUNET_CONTAINER_bloomfilter_load (Some f) (2 ^ 16) 3 = Some bf'
    /\ counting bf' [] (fun _ => 0).
Proof.
  intros bf. exists (make_empty_file [] (2 ^ 16 * 4)).
  destruct (bloomfilter_load_restores bf [] (fun _ => 0) (make_empty_file [] (2 ^ 16 * 4)) 3 16)
    as (bf' & E & _ & _ & _ & Hc & _).
  - apply (counting_clear toy_hash _ []); [ cbn; lia | reflexivity | reflexivity | constructor ].
  - reflexivity.
  - unfold make_empty_file. rewrite length_app, length_replicate, drop_nil.
    cbn [length bitArraySize bf GNUNET_CONTAINER_bloomfilter_clear]. lia.
  - reflexivity.
  - lia.
  - lia.
  - exists bf'. split; [ reflexivity | ]. split; [ exact E | exact Hc ].
Defined.
