(* ===== verification/ServerMst.v ===== *)
(** * Message stream tokenizer: [src/util/server_mst.c]

    The tokenizer cuts a byte stream into messages: bytes that were not delivered
    yet are kept in a private buffer, complete messages are handed to a callback
    from that buffer or, when the input is aligned, from the input itself.

    The private buffer is a list of [curr_buf] bytes with checked reads and writes,
    so a copy outside of it would make a run [Undefined]; the input buffer has an
    address, of which only the alignment is used.  Sizes are natural numbers; the
    invariant [off <= pos <= curr_buf] shows that no subtraction wraps.

    [framing] is the specification: what the callback sees, in terms of the bytes
    alone. *)

From Stdlib Require Import ZArith Lia.
From stdpp Require Import base list numbers.
From S2P Require Import Prelude.
Local Open Scope Z_scope.

(** [sizeof (struct GNUNET_MessageHeader)]: 16-bit size and type, big-endian. *)
Definition sizeof_header : nat := 4.
Definition GNUNET_SERVER_MIN_BUFFER_SIZE : nat := sizeof_header.

Record GNUNET_SERVER_MessageStreamTokenizer := mk_mst {
  curr_buf : nat;
  off : nat;
  pos : nat;
  hdr : list Z
}.

(** [ntohs (hdr->size)] *)
Definition header_size (h : list Z) : nat := Z.to_nat (be_decode (take 2 h)).

Definition GNUNET_SERVER_mst_create : GNUNET_SERVER_MessageStreamTokenizer :=
  mk_mst GNUNET_SERVER_MIN_BUFFER_SIZE 0 0 (replicate GNUNET_SERVER_MIN_BUFFER_SIZE 0).

Section Tokenizer.
(** [ALIGN_FACTOR] is chosen by the build; [junk] is what the bytes hold that
    [GNUNET_realloc] adds to a block; [cb] is the callback with its closure, it
    returns the new closure and the return value. *)
Context (ALIGN_FACTOR : nat) (junk : nat -> Z).
Context {C : Type} (cb : C -> list Z -> C * Z).

Definition realloc (b : list Z) (n : nat) : list Z :=
  take n b ++ (junk <$> seq 0 (n - length b)).

(** [mst->pos -= mst->off; memmove (ibuf, &ibuf[mst->off], mst->pos); mst->off = 0;] *)
Definition move_down (m : GNUNET_SERVER_MessageStreamTokenizer)
  : outcome GNUNET_SERVER_MessageStreamTokenizer :=
  d ← mem_read (hdr m) (off m) (pos m - off m);
  h ← mem_write (hdr m) 0 d;
  Ret (mk_mst (curr_buf m) 0 (pos m - off m) h).

(** [memcpy (&ibuf[mst->pos], buf, delta); mst->pos += delta;] *)
Definition append (m : GNUNET_SERVER_MessageStreamTokenizer) (d : list Z)
  : outcome GNUNET_SERVER_MessageStreamTokenizer :=
  h ← mem_write (hdr m) (pos m) d;
  Ret (mk_mst (curr_buf m) (off m) (pos m + length d) h).

Definition purged (purge : bool) (m : GNUNET_SERVER_MessageStreamTokenizer)
  : GNUNET_SERVER_MessageStreamTokenizer :=
  if purge then mk_mst (curr_buf m) 0 0 (hdr m) else m.

(** How a pass through a loop body ends: [return], [goto copy] or the next pass,
    with the input pointer ([addr]), the bytes left and [one_shot]. *)
Inductive pass :=
  | Return (ret : Z) (m : GNUNET_SERVER_MessageStreamTokenizer) (c : C)
  | Copy (ret : Z) (m : GNUNET_SERVER_MessageStreamTokenizer) (buf : list Z) (c : C)
  | Again (m : GNUNET_SERVER_MessageStreamTokenizer) (addr : nat) (buf : list Z)
          (one_shot : Z) (c : C).

(** The body of [while (mst->pos > 0)], from the label [do_align]. *)
Definition do_align (purge : bool) (m0 : GNUNET_SERVER_MessageStreamTokenizer)
  (addr0 : nat) (buf0 : list Z) (one_shot : Z) (c : C) : outcome pass :=
  _ ← gnunet_assert (off m0 <=? pos m0)%nat;
  m1 ← (if ((curr_buf m0 - off m0 <? sizeof_header)
            || negb (off m0 mod ALIGN_FACTOR =? 0))%nat
        then move_down m0 else Ret m0);
  let short1 := (pos m1 - off m1 <? sizeof_header)%nat in
  let delta1 := (if short1 then (sizeof_header - (pos m1 - off m1)) `min` length buf0
                 else 0)%nat in
  m2 ← (if short1 then append m1 (take delta1 buf0) else Ret m1);
  let buf1 := drop delta1 buf0 in
  let addr1 := (addr0 + delta1)%nat in
  if (pos m2 - off m2 <? sizeof_header)%nat
  then Ret (Return GNUNET_OK (purged purge m2) c)
  else
    h ← mem_read (hdr m2) (off m2) sizeof_header;
    let want := header_size h in
    if (want <? sizeof_header)%nat then Ret (Return GNUNET_SYSERR m2 c)
    else
      m3 ← (if ((curr_buf m2 - off m2 <? want) && (0 <? off m2))%nat
            then move_down m2 else Ret m2);
      m4 ← (if (curr_buf m3 <? want)%nat
            then _ ← gnunet_assert (off m3 =? 0)%nat;
                 Ret (mk_mst want (off m3) (pos m3) (realloc (hdr m3) want))
            else Ret m3);
      let short2 := (pos m4 - off m4 <? want)%nat in
      let delta2 := (if short2 then (want - (pos m4 - off m4)) `min` length buf1
                     else 0)%nat in
      m5 ← (if short2
            then _ ← gnunet_assert (pos m4 + delta2 <=? curr_buf m4)%nat;
                 append m4 (take delta2 buf1)
            else Ret m4);
      let buf2 := drop delta2 buf1 in
      let addr2 := (addr1 + delta2)%nat in
      if (pos m5 - off m5 <? want)%nat
      then Ret (Return GNUNET_OK (purged purge m5) c)
      else if one_shot =? GNUNET_SYSERR then Ret (Copy GNUNET_NO m5 buf2 c)
      else
        let one_shot' := if one_shot =? GNUNET_YES then GNUNET_SYSERR else one_shot in
        msg ← mem_read (hdr m5) (off m5) want;
        let m6 := mk_mst (curr_buf m5) (off m5 + want) (pos m5) (hdr m5) in
        let '(c', r) := cb c msg in
        if r =? GNUNET_SYSERR then Ret (Return GNUNET_SYSERR m6 c')
        else if (off m6 =? pos m6)%nat
        then Ret (Again (mk_mst (curr_buf m6) 0 0 (hdr m6)) addr2 buf2 one_shot' c')
        else Ret (Again m6 addr2 buf2 one_shot' c').

(** The body of [while (size > 0)], where nothing is in the private buffer. *)
Definition zero_copy (purge : bool) (m : GNUNET_SERVER_MessageStreamTokenizer)
  (addr : nat) (buf : list Z) (one_shot : Z) (c : C) : outcome pass :=
  if (length buf <? sizeof_header)%nat then Ret (Copy GNUNET_OK m buf c)
  else if (addr mod ALIGN_FACTOR =? 0)%nat then
    h ← mem_read buf 0 sizeof_header;
    let want := header_size h in
    if (want <? sizeof_header)%nat
    then Ret (Return GNUNET_SYSERR (mk_mst (curr_buf m) 0 (pos m) (hdr m)) c)
    else if (length buf <? want)%nat then Ret (Copy GNUNET_OK m buf c)
    else if one_shot =? GNUNET_SYSERR then Ret (Copy GNUNET_NO m buf c)
    else
      let one_shot' := if one_shot =? GNUNET_YES then GNUNET_SYSERR else one_shot in
      msg ← mem_read buf 0 want;
      let '(c', r) := cb c msg in
      if r =? GNUNET_SYSERR then Ret (Return GNUNET_SYSERR m c')
      else Ret (Again m (addr + want) (drop want buf) one_shot' c')
  else do_align purge m addr buf one_shot c.

(** The two loops.  The second one does not change [mst->pos], so it is the loop
    below from the moment [mst->pos] is zero; its [goto do_align] enters the first
    loop.  [None]: out of fuel. *)
Fixpoint loops (fuel : nat) (purge : bool) (m : GNUNET_SERVER_MessageStreamTokenizer)
  (addr : nat) (buf : list Z) (one_shot : Z) (c : C) : outcome (option pass) :=
  match fuel with
  | O => Ret None
  | S fuel' =>
      p ← (if (0 <? pos m)%nat then do_align purge m addr buf one_shot c
           else if (0 <? length buf)%nat then zero_copy purge m addr buf one_shot c
           else Ret (Copy GNUNET_OK m buf c));
      match p with
      | Again m' addr' buf' one_shot' c' => loops fuel' purge m' addr' buf' one_shot' c'
      | _ => Ret (Some p)
      end
  end.

(** From the label [copy]. *)
Definition copy_rest (purge : bool) (m : GNUNET_SERVER_MessageStreamTokenizer)
  (buf : list Z) : outcome GNUNET_SERVER_MessageStreamTokenizer :=
  m' ← (if ((0 <? length buf)%nat && negb purge)
        then
          let m1 := if (curr_buf m <? length buf + pos m)%nat
                    then mk_mst (length buf + pos m) (off m) (pos m)
                                (realloc (hdr m) (length buf + pos m))
                    else m in
          _ ← gnunet_assert (length buf + pos m1 <=? curr_buf m1)%nat;
          append m1 buf
        else Ret m);
  Ret (purged purge m').

Definition GNUNET_SERVER_mst_receive (m : GNUNET_SERVER_MessageStreamTokenizer)
  (addr : nat) (buf : list Z) (purge : bool) (one_shot : Z) (c : C)
  : outcome (option (Z * GNUNET_SERVER_MessageStreamTokenizer * C)) :=
  _ ← gnunet_assert (off m <=? pos m)%nat;
  _ ← gnunet_assert (pos m <=? curr_buf m)%nat;
  r ← loops (S (pos m + length buf)) purge m addr buf one_shot c;
  match r with
  | Some (Return ret m' c') => Ret (Some (ret, m', c'))
  | Some (Copy ret m' buf' c') => m'' ← copy_rest purge m' buf'; Ret (Some (ret, m'', c'))
  | _ => Ret None
  end.

(** ** Specification *)

(** The next message of a byte stream. *)
Inductive frame :=
  | Incomplete
  | Malformed
  | Message (msg rest : list Z).

Definition next_frame (data : list Z) : frame :=
  if (length data <? sizeof_header)%nat then Incomplete
  else let want := header_size data in
    if (want <? sizeof_header)%nat then Malformed
    else if (length data <? want)%nat then Incomplete
    else Message (take want data) (drop want data).

(** Deliver the messages of [data]; the result has the return value, the bytes
    that are left and the closure. *)
Fixpoint framing (fuel : nat) (data : list Z) (one_shot : Z) (c : C) : Z * list Z * C :=
  match fuel with
  | O => (GNUNET_OK, data, c)
  | S fuel' =>
      match next_frame data with
      | Incomplete => (GNUNET_OK, data, c)
      | Malformed => (GNUNET_SYSERR, data, c)
      | Message msg rest =>
          if one_shot =? GNUNET_SYSERR then (GNUNET_NO, data, c)
          else let '(c', r) := cb c msg in
            if r =? GNUNET_SYSERR then (GNUNET_SYSERR, rest, c')
            else framing fuel' rest
                   (if one_shot =? GNUNET_YES then GNUNET_SYSERR else one_shot) c'
      end
  end.

(** What the private buffer holds. *)
Definition pending (m : GNUNET_SERVER_MessageStreamTokenizer) : list Z :=
  take (pos m - off m) (drop (off m) (hdr m)).

Record mst_inv (m : GNUNET_SERVER_MessageStreamTokenizer) : Prop := {
  inv_length : length (hdr m) = curr_buf m;
  inv_off : (off m <= pos m)%nat;
  inv_pos : (pos m <= curr_buf m)%nat;
  inv_min : (sizeof_header <= curr_buf m)%nat
}.

(** ** The buffer operations *)

Lemma length_pending m : mst_inv m -> length (pending m) = (pos m - off m)%nat.
Proof.
  intros [Hl Ho Hp _]. unfold pending. rewrite length_take, length_drop. lia.
Qed.

Lemma move_down_spec m :
  mst_inv m ->
  exists m', move_down m = Ret m' /\ mst_inv m' /\ off m' = 0%nat
    /\ pos m' = (pos m - off m)%nat /\ curr_buf m' = curr_buf m /\ pending m' = pending m.
Proof.
  intros Hm. pose proof (length_pending m Hm) as Hlp. destruct Hm as [Hl Ho Hp Hmin].
  unfold move_down. rewrite mem_read_ok by lia. cbn [mbind outcome_bind].
  fold (pending m). rewrite mem_write_ok by lia. cbn [mbind outcome_bind].
  eexists; split; [ reflexivity | ]. split_and!; try reflexivity.
  - constructor; cbn; [ | lia.. ]. rewrite !length_app, length_take, length_drop. lia.
  - unfold pending at 1. cbn. rewrite take_0, Nat.sub_0_r, <- Hlp. cbn [app]. apply take_app_length.
Qed.

Lemma append_spec m d :
  mst_inv m -> (pos m + length d <= curr_buf m)%nat ->
  exists m', append m d = Ret m' /\ mst_inv m' /\ off m' = off m
    /\ pos m' = (pos m + length d)%nat /\ curr_buf m' = curr_buf m
    /\ pending m' = pending m ++ d.
Proof.
  intros [Hl Ho Hp Hmin] Hd. unfold append. rewrite mem_write_ok by lia.
  cbn [mbind outcome_bind]. eexists; split; [ reflexivity | ]. split_and!; try reflexivity.
  - constructor; cbn; [ | lia.. ]. rewrite !length_app, length_take, length_drop. lia.
  - unfold pending. cbn. rewrite drop_app_le by (rewrite length_take; lia).
    rewrite skipn_firstn_comm, app_assoc.
    assert (Hlen : length (take (pos m - off m) (drop (off m) (hdr m)) ++ d)
                   = (pos m + length d - off m)%nat)
      by (rewrite length_app, length_take, length_drop; lia).
    rewrite <- Hlen. apply take_app_length.
Qed.

Lemma realloc_spec m n :
  mst_inv m -> (curr_buf m <= n)%nat ->
  let m' := mk_mst n (off m) (pos m) (realloc (hdr m) n) in
  mst_inv m' /\ pending m' = pending m.
Proof.
  intros [Hl Ho Hp Hmin] Hn m'. unfold m', realloc, pending. cbn. split.
  - constructor; cbn; [ | lia.. ].
    rewrite length_app, length_take, length_fmap, length_seq. lia.
  - rewrite (take_ge (hdr m)) by lia.
    rewrite drop_app_le by lia. rewrite take_app_le; [ done | ]. rewrite length_drop. lia.
Qed.

Lemma purged_inv purge m : mst_inv m -> mst_inv (purged purge m).
Proof. intros [? ? ? ?]. destruct purge; constructor; cbn; lia. Qed.

Lemma purged_pending purge m :
  pending (purged purge m) = if purge then [] else pending m.
Proof. by destruct purge. Qed.

(** Dropping a delivered message from the front of the buffer. *)
Lemma consume_spec m n :
  mst_inv m -> (n <= pos m - off m)%nat ->
  let m' := mk_mst (curr_buf m) (off m + n) (pos m) (hdr m) in
  mst_inv m' /\ pending m' = drop n (pending m).
Proof.
  intros [Hl Ho Hp Hmin] Hn m'. unfold m', pending. cbn. split.
  - constructor; cbn; lia.
  - rewrite skipn_firstn_comm, drop_drop. f_equal. lia.
Qed.

Lemma header_size_take n l : (2 <= n)%nat -> header_size (take n l) = header_size l.
Proof. intros Hn. unfold header_size. rewrite take_take. by replace (2 `min` n)%nat with 2%nat by lia. Qed.

Lemma header_size_app l r : (2 <= length l)%nat -> header_size (l ++ r) = header_size l.
Proof. intros Hn. unfold header_size. by rewrite take_app_le. Qed.

Lemma pending_read m n :
  mst_inv m -> (n <= pos m - off m)%nat ->
  mem_read (hdr m) (off m) n = Ret (take n (pending m)).
Proof.
  intros [Hl Ho Hp Hmin] Hn. rewrite mem_read_ok by lia. unfold pending.
  rewrite take_take. by replace (n `min` (pos m - off m))%nat with n by lia.
Qed.

(** A step that pulls bytes from the input when the buffer has less than [n]. *)
Lemma pull_spec m buf n :
  mst_inv m -> (off m + n <= curr_buf m)%nat ->
  let short := (pos m - off m <? n)%nat in
  let delta := (if short then (n - (pos m - off m)) `min` length buf else 0)%nat in
  exists m', (if short then append m (take delta buf) else Ret m) = Ret m'
    /\ mst_inv m' /\ off m' = off m /\ curr_buf m' = curr_buf m
    /\ (pos m + delta <= curr_buf m)%nat
    /\ pending m' ++ drop delta buf = pending m ++ buf
    /\ if (length (pending m ++ buf) <? n)%nat then drop delta buf = [] /\ (pos m' - off m' < n)%nat
       else (n <= pos m' - off m')%nat.
Proof.
  intros Hm Hn short delta. pose proof (length_pending m Hm) as Hlp.
  pose proof (inv_off m Hm). pose proof (inv_pos m Hm).
  destruct (Nat.ltb_spec (pos m - off m) n) as [Hs|Hs]; subst short delta.
  - set (delta := (_ `min` _)%nat). assert (Hd : (delta <= length buf)%nat) by lia.
    destruct (append_spec m (take delta buf) Hm) as (m' & -> & Hm' & Ho & Hp & Hc & Hpe).
    { rewrite length_take. lia. }
    exists m'. rewrite length_take in Hp. split_and!; try done; [ lia | | ].
    + rewrite Hpe, <- app_assoc, take_drop. done.
    + rewrite length_app, Hlp. destruct (Nat.ltb_spec (pos m - off m + length buf) n); [ | lia ].
      split; [ apply drop_ge; lia | lia ].
  - exists m. split_and!; try done; [ lia | ].
    rewrite length_app, Hlp, (proj2 (Nat.ltb_ge _ _)) by lia. done.
Qed.

(** ** One pass through the loops *)

Definition pass_ok (purge : bool) (data : list Z) (one_shot : Z) (c : C) (p : pass) : Prop :=
  match p with
  | Return ret m c' =>
      mst_inv m
      /\ ((ret = GNUNET_OK /\ c' = c /\ next_frame data = Incomplete
           /\ pending m = if purge then [] else data)
          \/ (ret = GNUNET_SYSERR /\ c' = c /\ next_frame data = Malformed)
          \/ (ret = GNUNET_SYSERR /\ one_shot <> GNUNET_SYSERR
              /\ exists msg rest, next_frame data = Message msg rest
                   /\ cb c msg = (c', GNUNET_SYSERR)))
  | Copy ret m buf c' =>
      mst_inv m /\ c' = c /\ pending m ++ buf = data
      /\ ((ret = GNUNET_OK /\ next_frame data = Incomplete)
          \/ (ret = GNUNET_NO /\ one_shot = GNUNET_SYSERR
              /\ exists msg rest, next_frame data = Message msg rest))
  | Again m addr buf one_shot' c' =>
      mst_inv m /\ one_shot <> GNUNET_SYSERR
      /\ one_shot' = (if one_shot =? GNUNET_YES then GNUNET_SYSERR else one_shot)
      /\ exists msg r, next_frame data = Message msg (pending m ++ buf)
           /\ cb c msg = (c', r) /\ r <> GNUNET_SYSERR
  end.

Lemma next_frame_short data : (length data < sizeof_header)%nat -> next_frame data = Incomplete.
Proof. intros H. unfold next_frame. by rewrite (proj2 (Nat.ltb_lt _ _) H). Qed.

Lemma next_frame_long data :
  (sizeof_header <= length data)%nat ->
  next_frame data
  = if (header_size data <? sizeof_header)%nat then Malformed
    else if (length data <? header_size data)%nat then Incomplete
    else Message (take (header_size data) data) (drop (header_size data) data).
Proof. intros H. unfold next_frame. by rewrite (proj2 (Nat.ltb_ge _ _) H). Qed.

(** A message is complete in the private buffer [m]: the end of the body. *)
Lemma deliver_spec purge m addr buf one_shot c want :
  mst_inv m -> (want <= pos m - off m)%nat ->
  next_frame (pending m ++ buf)
    = Message (take want (pending m ++ buf)) (drop want (pending m ++ buf)) ->
  exists p,
    (if one_shot =? GNUNET_SYSERR then Ret (Copy GNUNET_NO m buf c)
     else
       msg ← mem_read (hdr m) (off m) want;
       let m6 := mk_mst (curr_buf m) (off m + want) (pos m) (hdr m) in
       let '(c', r) := cb c msg in
       if r =? GNUNET_SYSERR then Ret (Return GNUNET_SYSERR m6 c')
       else if (off m6 =? pos m6)%nat
       then Ret (Again (mk_mst (curr_buf m6) 0 0 (hdr m6)) addr buf
                   (if one_shot =? GNUNET_YES then GNUNET_SYSERR else one_shot) c')
       else Ret (Again m6 addr buf
                   (if one_shot =? GNUNET_YES then GNUNET_SYSERR else one_shot) c'))
    = Ret p /\ pass_ok purge (pending m ++ buf) one_shot c p.
Proof.
  intros Hm Hw Hf. pose proof (length_pending m Hm) as Hlp.
  destruct (Z.eqb_spec one_shot GNUNET_SYSERR) as [Hos|Hos].
  { eexists; split; [ reflexivity | ]. cbn. split_and!; try done. right.
    split_and!; try done. eauto. }
  rewrite pending_read by done. cbn [mbind outcome_bind].
  destruct (consume_spec m want Hm Hw) as [Hi6 Hp6].
  set (m6 := mk_mst _ _ _ _) in *. cbv zeta.
  assert (Htk : take want (pending m ++ buf) = take want (pending m)) by (apply take_app_le; lia).
  assert (Hdr : drop want (pending m ++ buf) = pending m6 ++ buf)
    by (rewrite Hp6; apply drop_app_le; lia).
  rewrite Htk, Hdr in Hf. destruct (cb c (take want (pending m))) as [c' r] eqn:Ecb.
  destruct (Z.eqb_spec r GNUNET_SYSERR) as [->|Hr].
  { eexists; split; [ reflexivity | ]. cbn. split; [ done | ]. right; right. eauto 10. }
  destruct (Nat.eqb_spec (off m6) (pos m6)) as [He|He]; eexists; (split; [ reflexivity | ]);
    cbn; split_and!; try done; [ | | by eauto 10 ].
  - destruct Hi6. constructor; cbn in *; lia.
  - eexists _, _. split_and!; [ | done | done ]. rewrite Hf. do 2 f_equal.
    unfold pending. by rewrite <- He, Nat.sub_diag.
Qed.

(** The moves that make room, first for the header, then for the message. *)
Lemma align_spec m (b : bool) :
  mst_inv m ->
  exists m1, (if ((curr_buf m - off m <? sizeof_header)%nat || b) then move_down m
              else Ret m) = Ret m1
    /\ mst_inv m1 /\ pending m1 = pending m /\ (off m1 + sizeof_header <= curr_buf m1)%nat.
Proof.
  intros Hm. destruct (_ || _) eqn:E.
  - destruct (move_down_spec m Hm) as (m1 & E1 & Hm1 & Ho & _ & Hc & Hp).
    exists m1. split_and!; try done. rewrite Ho. apply Hm1.
  - exists m. split_and!; try done. apply orb_false_iff in E as [E _].
    apply Nat.ltb_ge in E. pose proof (inv_off m Hm). pose proof (inv_pos m Hm). lia.
Qed.

Lemma room_spec m want :
  mst_inv m ->
  exists m3, (if ((curr_buf m - off m <? want) && (0 <? off m))%nat then move_down m
              else Ret m) = Ret m3
    /\ mst_inv m3 /\ pending m3 = pending m
    /\ (off m3 = 0 \/ off m3 + want <= curr_buf m3)%nat.
Proof.
  intros Hm. destruct (_ && _) eqn:E.
  - destruct (move_down_spec m Hm) as (m1 & E1 & Hm1 & Ho & _ & Hc & Hp).
    exists m1. split_and!; try done. by left.
  - exists m. split_and!; try done. apply andb_false_iff in E as [E|E];
      apply Nat.ltb_ge in E; pose proof (inv_off m Hm); pose proof (inv_pos m Hm); lia.
Qed.

Lemma grow_spec m want :
  mst_inv m -> (off m = 0 \/ off m + want <= curr_buf m)%nat ->
  exists m4, (if (curr_buf m <? want)%nat
              then _ ← gnunet_assert (off m =? 0)%nat;
                   Ret (mk_mst want (off m) (pos m) (realloc (hdr m) want))
              else Ret m) = Ret m4
    /\ mst_inv m4 /\ pending m4 = pending m /\ (off m4 + want <= curr_buf m4)%nat.
Proof.
  intros Hm Hr. destruct (Nat.ltb_spec (curr_buf m) want) as [Hlt|Hge].
  - assert (Ho : off m = 0%nat) by lia. rewrite gnunet_assert_true by (by rewrite Ho).
    destruct (realloc_spec m want Hm) as [Hi Hp]; [ lia | ].
    eexists. split_and!; [ reflexivity | done | done | cbn; lia ].
  - exists m. split_and!; try done. lia.
Qed.

Lemma do_align_spec purge m addr buf one_shot c :
  mst_inv m ->
  exists p, do_align purge m addr buf one_shot c = Ret p
    /\ pass_ok purge (pending m ++ buf) one_shot c p.
Proof.
  intros Hm. unfold do_align. rewrite gnunet_assert_true by (apply Nat.leb_le, inv_off, Hm).
  cbn [mbind outcome_bind].
  destruct (align_spec m (negb (off m mod ALIGN_FACTOR =? 0)%nat) Hm)
    as (m1 & -> & Hm1 & Hp1 & Hroom). cbn [mbind outcome_bind]. rewrite <- Hp1.
  destruct (pull_spec m1 buf sizeof_header Hm1 Hroom)
    as (m2 & -> & Hm2 & Ho2 & Hc2 & _ & Hd2 & Hs2). cbn [mbind outcome_bind].
  set (buf1 := drop _ buf) in *. set (addr1 := (addr + _)%nat). cbv zeta.
  rewrite <- Hd2 in *. pose proof (length_pending m2 Hm2) as Hl2.
  rewrite length_app in Hs2.
  destruct (Nat.ltb_spec (pos m2 - off m2) sizeof_header) as [Hsh|Hsh].
  { destruct (Nat.ltb_spec (length (pending m2) + length buf1) sizeof_header); [ | lia ].
    destruct Hs2 as [Hb _]. rewrite Hb, app_nil_r. eexists; split; [ reflexivity | ]. cbn.
    split; [ by apply purged_inv | ]. left. rewrite purged_pending.
    split_and!; try done. apply next_frame_short. lia. }
  rewrite pending_read by done. cbn [mbind outcome_bind].
  assert (Hhs : header_size (take sizeof_header (pending m2)) = header_size (pending m2 ++ buf1)).
  { rewrite header_size_take by (unfold sizeof_header; lia).
    by rewrite header_size_app by (unfold sizeof_header in *; lia). }
  rewrite Hhs.
  pose proof (next_frame_long (pending m2 ++ buf1)) as Hnf. rewrite length_app in Hnf.
  specialize (Hnf ltac:(lia)). set (want := header_size (pending m2 ++ buf1)) in *.
  destruct (Nat.ltb_spec want sizeof_header) as [Hbad|Hgood].
  { eexists; split; [ reflexivity | ]. cbn. split; [ done | ]. right; left. done. }
  clear Hhs. clearbody want. destruct (room_spec m2 want Hm2) as (m3 & -> & Hm3 & Hp3 & Hr3).
  cbn [mbind outcome_bind].
  destruct (grow_spec m3 want Hm3 Hr3) as (m4 & -> & Hm4 & Hp4 & Hr4).
  cbn [mbind outcome_bind]. rewrite <- Hp3, <- Hp4 in *.
  destruct (pull_spec m4 buf1 want Hm4 Hr4) as (m5 & E5 & Hm5 & Ho5 & Hc5 & Hfit & Hd5 & Hs5).
  rewrite (gnunet_assert_true (_ <=? curr_buf m4)%nat) by (apply Nat.leb_le, Hfit).
  cbn [mbind outcome_bind] in E5 |- *. rewrite E5. clear E5. cbn [mbind outcome_bind].
  set (buf2 := drop _ buf1) in *. set (addr2 := (addr1 + _)%nat). cbv zeta.
  rewrite <- Hd5 in *. pose proof (length_pending m5 Hm5) as Hl5.
  rewrite <- (length_app (pending m4)), <- Hd5, length_app in Hnf. rewrite length_app in Hs5.
  destruct (Nat.ltb_spec (pos m5 - off m5) want) as [Hsh5|Hsh5].
  { destruct (Nat.ltb_spec (length (pending m5) + length buf2) want) as [Hlt|]; [ | lia ].
    destruct Hs5 as [Hb _]. rewrite Hb, app_nil_r in *. eexists; split; [ reflexivity | ]. cbn.
    split; [ by apply purged_inv | ]. left. rewrite purged_pending. done. }
  destruct (Nat.ltb_spec (length (pending m5) + length buf2) want); [ lia | ].
  by apply (deliver_spec purge m5 addr2 buf2 one_shot c want).
Qed.

Lemma pending_nil m : mst_inv m -> pos m = 0%nat -> pending m = [].
Proof. intros _ Hp. unfold pending. by rewrite Hp. Qed.

Lemma zero_copy_spec purge m addr buf one_shot c :
  mst_inv m -> pos m = 0%nat ->
  exists p, zero_copy purge m addr buf one_shot c = Ret p /\ pass_ok purge buf one_shot c p.
Proof.
  intros Hm Hp. pose proof (pending_nil m Hm Hp) as Hn. unfold zero_copy.
  destruct (Nat.ltb_spec (length buf) sizeof_header) as [Hs|Hs].
  { eexists; split; [ reflexivity | ]. cbn. rewrite Hn. split_and!; try done. left.
    split; [ done | ]. by apply next_frame_short. }
  destruct (addr mod ALIGN_FACTOR =? 0)%nat; cycle 1.
  { destruct (do_align_spec purge m addr buf one_shot c Hm) as (p & E & Hok).
    rewrite Hn in Hok. by exists p. }
  rewrite mem_read_ok by lia. cbn [mbind outcome_bind]. rewrite drop_0.
  rewrite header_size_take by (unfold sizeof_header; lia).
  pose proof (next_frame_long buf Hs) as Hnf. set (want := header_size buf) in *.
  clearbody want.
  destruct (Nat.ltb_spec want sizeof_header) as [Hb|Hb].
  { eexists; split; [ reflexivity | ]. cbn. split; [ | right; left; done ].
    destruct Hm. constructor; cbn; lia. }
  destruct (Nat.ltb_spec (length buf) want) as [Hi|Hi].
  { eexists; split; [ reflexivity | ]. cbn. rewrite Hn. split_and!; try done. by left. }
  destruct (Z.eqb_spec one_shot GNUNET_SYSERR) as [Hos|Hos].
  { eexists; split; [ reflexivity | ]. cbn. rewrite Hn. split_and!; try done. right. eauto. }
  rewrite mem_read_ok by lia. cbn [mbind outcome_bind]. rewrite drop_0.
  destruct (cb c (take want buf)) as [c' r] eqn:Ecb.
  destruct (Z.eqb_spec r GNUNET_SYSERR) as [->|Hr]; eexists; (split; [ reflexivity | ]); cbn.
  - split; [ done | ]. right; right. eauto 10.
  - split_and!; try done. rewrite Hn. eauto 10.
Qed.

(** ** The whole call *)

Lemma next_frame_message_length data msg rest :
  next_frame data = Message msg rest -> data = msg ++ rest /\ (4 <= length msg)%nat.
Proof.
  unfold next_frame. repeat case_match; try done. intros [= <- <-].
  rewrite take_drop, length_take. split; [ done | ].
  unfold sizeof_header in *. rewrite !Nat.ltb_ge in *. lia.
Qed.

Lemma framing_fuel n1 n2 data one_shot c :
  (length data < n1)%nat -> (length data < n2)%nat ->
  framing n1 data one_shot c = framing n2 data one_shot c.
Proof.
  revert n2 data one_shot c. induction n1 as [|n1 IH]; intros [|n2] data one_shot c H1 H2;
    try lia. cbn [framing]. destruct (next_frame data) as [| |msg rest] eqn:E; try done.
  apply next_frame_message_length in E as [-> Hm]. rewrite length_app in *.
  case_match; [ done | ]. destruct (cb c msg) as [c' r]. case_match; [ done | ].
  apply IH; lia.
Qed.

Definition frames (data : list Z) (one_shot : Z) (c : C) : Z * list Z * C :=
  framing (S (length data)) data one_shot c.

Lemma frames_step data one_shot c :
  frames data one_shot c
  = match next_frame data with
    | Incomplete => (GNUNET_OK, data, c)
    | Malformed => (GNUNET_SYSERR, data, c)
    | Message msg rest =>
        if one_shot =? GNUNET_SYSERR then (GNUNET_NO, data, c)
        else let '(c', r) := cb c msg in
          if r =? GNUNET_SYSERR then (GNUNET_SYSERR, rest, c')
          else frames rest (if one_shot =? GNUNET_YES then GNUNET_SYSERR else one_shot) c'
    end.
Proof.
  unfold frames at 1. cbn [framing].
  destruct (next_frame data) as [| |msg rest] eqn:E; try done.
  apply next_frame_message_length in E as [-> Hm].
  case_match; [ done | ]. destruct (cb c msg) as [c' r]. case_match; [ done | ].
  apply framing_fuel; rewrite ?length_app; lia.
Qed.

(** The outcome of [receive] in terms of [frames]. *)
Definition receive_ok (purge : bool) (data : list Z) (one_shot : Z) (c : C)
  (res : Z * GNUNET_SERVER_MessageStreamTokenizer * C) : Prop :=
  let '(ret, m, c') := res in
  mst_inv m
  /\ exists rest, frames data one_shot c = (ret, rest, c')
       /\ (ret <> GNUNET_SYSERR -> pending m = if purge then [] else rest).

Lemma copy_rest_spec purge m buf :
  mst_inv m ->
  exists m', copy_rest purge m buf = Ret m' /\ mst_inv m'
    /\ pending m' = if purge then [] else pending m ++ buf.
Proof.
  intros Hm. unfold copy_rest. destruct purge.
  { rewrite andb_false_r. cbn. eexists. split_and!; [ reflexivity | | done ].
    by apply (purged_inv true). }
  rewrite andb_true_r. destruct (Nat.ltb_spec 0 (length buf)) as [Hb|Hb]; cycle 1.
  { destruct buf; [ | cbn in Hb; lia ]. rewrite app_nil_r. by exists m. }
  set (m1 := if (_ <? _)%nat then _ else m).
  assert (H1 : mst_inv m1 /\ pending m1 = pending m
               /\ (length buf + pos m1 <= curr_buf m1)%nat).
  { unfold m1. destruct (Nat.ltb_spec (curr_buf m) (length buf + pos m)); [ | done ].
    destruct (realloc_spec m (length buf + pos m) Hm) as [? ?]; [ lia | ].
    by split_and!. }
  destruct H1 as (Hm1 & Hp1 & Hfit). cbv zeta.
  rewrite gnunet_assert_true by (by apply Nat.leb_le). cbn [mbind outcome_bind].
  destruct (append_spec m1 buf Hm1) as (m' & -> & Hm' & _ & _ & _ & Hp); [ lia | ].
  exists m'. by rewrite Hp, Hp1.
Qed.

Lemma loops_spec fuel purge m addr buf one_shot c :
  mst_inv m -> (length (pending m ++ buf) < fuel)%nat ->
  exists p res, loops fuel purge m addr buf one_shot c = Ret (Some p)
    /\ match p with
       | Return ret m' c' => res = (ret, m', c')
       | Copy ret m' buf' c' => exists m'', copy_rest purge m' buf' = Ret m''
                                  /\ res = (ret, m'', c')
       | Again _ _ _ _ _ => False
       end
    /\ receive_ok purge (pending m ++ buf) one_shot c res.
Proof.
  revert m addr buf one_shot c. induction fuel as [|fuel IH]; intros m addr buf one_shot c Hm Hf;
    [ lia | ]. cbn [loops].
  assert (Hp : exists p,
    (if (0 <? pos m)%nat then do_align purge m addr buf one_shot c
     else if (0 <? length buf)%nat then zero_copy purge m addr buf one_shot c
     else Ret (Copy GNUNET_OK m buf c)) = Ret p
    /\ pass_ok purge (pending m ++ buf) one_shot c p).
  { destruct (Nat.ltb_spec 0 (pos m)) as [Hpos|Hpos]; [ by apply do_align_spec | ].
    destruct (Nat.ltb_spec 0 (length buf)) as [Hb|Hb].
    - rewrite (pending_nil m Hm) by lia. apply zero_copy_spec; [ done | lia ].
    - destruct buf; [ | cbn in Hb; lia ]. eexists; split; [ reflexivity | ].
      cbn. split_and!; try done. left. by rewrite (pending_nil m Hm) by lia. }
  destruct Hp as (p & -> & Hok). cbn [mbind outcome_bind].
  destruct p as [ret m' c'|ret m' buf' c'|m' addr' buf' os' c']; cbn [pass_ok] in Hok.
  - exists (Return ret m' c'), (ret, m', c'). do 2 (split; [ done | ]).
    destruct Hok as [Hm' Hcase]. split; [ done | ]. rewrite frames_step.
    destruct Hcase as [(-> & -> & -> & Hpe)|[(-> & -> & ->)|(-> & Hos & msg & rest & -> & Hcb)]].
    + eauto.
    + eexists; split; [ done | ]. done.
    + rewrite (proj2 (Z.eqb_neq _ _) Hos), Hcb. eexists; split; [ done | ]. done.
  - destruct Hok as (Hm' & -> & Hd & Hcase).
    destruct (copy_rest_spec purge m' buf' Hm') as (m'' & E & Hm'' & Hpe).
    exists (Copy ret m' buf' c), (ret, m'', c). split; [ done | ]. split; [ eauto | ].
    split; [ done | ]. rewrite frames_step, <- Hd in *.
    destruct Hcase as [(-> & ->)|(-> & -> & msg & rest & ->)]; eauto.
  - destruct Hok as (Hm' & Hos & -> & msg & r & Hnf & Hcb & Hr).
    destruct (next_frame_message_length _ _ _ Hnf) as [Hd Hl4].
    destruct (IH m' addr' buf' (if one_shot =? GNUNET_YES then GNUNET_SYSERR else one_shot) c' Hm')
      as (p & res & E & Hres & Hok).
    { rewrite Hd, length_app in Hf. lia. }
    exists p, res. do 2 (split; [ done | ]). unfold receive_ok in *.
    destruct res as [[ret m''] c'']. rewrite frames_step, Hnf, (proj2 (Z.eqb_neq _ _) Hos), Hcb.
    by rewrite (proj2 (Z.eqb_neq _ _) Hr).
Qed.

Lemma receive_spec m addr buf purge one_shot c :
  mst_inv m ->
  exists res, GNUNET_SERVER_mst_receive m addr buf purge one_shot c = Ret (Some res)
    /\ receive_ok purge (pending m ++ buf) one_shot c res.
Proof.
  intros Hm. unfold GNUNET_SERVER_mst_receive.
  rewrite !gnunet_assert_true by (apply Nat.leb_le; apply Hm). cbn [mbind outcome_bind].
  destruct (loops_spec (S (pos m + length buf)) purge m addr buf one_shot c Hm)
    as (p & res & -> & Hres & Hok).
  { rewrite length_app, length_pending by done. lia. }
  exists res. split; [ | done ]. cbn [mbind outcome_bind].
  destruct p as [ret m' c'|ret m' buf' c'|]; [ by subst | | done ].
  destruct Hres as (m'' & -> & ->). done.
Qed.

(** Feeding a stream in chunks, each at its own address, until an error. *)
Fixpoint receive_all (m : GNUNET_SERVER_MessageStreamTokenizer)
  (chunks : list (nat * list Z)) (c : C)
  : outcome (option (Z * GNUNET_SERVER_MessageStreamTokenizer * C)) :=
  match chunks with
  | [] => Ret (Some (GNUNET_OK, m, c))
  | (addr, b) :: chunks' =>
      r ← GNUNET_SERVER_mst_receive m addr b false GNUNET_NO c;
      match r with
      | None => Ret None
      | Some (ret, m', c') =>
          if ret =? GNUNET_SYSERR then Ret r else receive_all m' chunks' c'
      end
  end.

Lemma next_frame_app data more :
  match next_frame data with
  | Incomplete => True
  | Malformed => next_frame (data ++ more) = Malformed
  | Message msg rest => next_frame (data ++ more) = Message msg (rest ++ more)
  end.
Proof.
  destruct (Nat.lt_ge_cases (length data) sizeof_header) as [Hs|Hs].
  { by rewrite next_frame_short. }
  rewrite next_frame_long by done.
  rewrite (next_frame_long (data ++ more)) by (rewrite length_app; lia).
  rewrite header_size_app by (unfold sizeof_header in Hs; lia).
  destruct (Nat.ltb_spec (header_size data) sizeof_header); [ done | ].
  destruct (Nat.ltb_spec (length data) (header_size data)); [ done | ].
  destruct (Nat.ltb_spec (length (data ++ more)) (header_size data)) as [Hl|].
  { rewrite length_app in Hl. lia. }
  by rewrite take_app_le, drop_app_le by lia.
Qed.

(** What is delivered from a prefix of the stream is what would be delivered from
    the stream. *)
Lemma frames_app data more c ret rest c1 :
  frames data GNUNET_NO c = (ret, rest, c1) ->
  (ret = GNUNET_OK /\ frames (data ++ more) GNUNET_NO c = frames (rest ++ more) GNUNET_NO c1)
  \/ (ret = GNUNET_SYSERR
      /\ frames (data ++ more) GNUNET_NO c = (GNUNET_SYSERR, rest ++ more, c1)).
Proof.
  remember (length data) as n eqn:Hn. revert data c Hn.
  induction n as [n IH] using lt_wf_ind; intros data c -> E.
  rewrite frames_step in E. pose proof (next_frame_app data more) as Hnf.
  destruct (next_frame data) as [| |msg rst] eqn:Ed.
  - injection E as <- <- <-. by left.
  - injection E as <- <- <-. right. by rewrite frames_step, Hnf.
  - apply next_frame_message_length in Ed as [-> Hl]. cbn [Z.eqb GNUNET_NO GNUNET_SYSERR] in E.
    rewrite (frames_step ((msg ++ rst) ++ more)), Hnf.
    change (GNUNET_NO =? GNUNET_SYSERR) with false in *.
    change (GNUNET_NO =? GNUNET_YES) with false in *. cbv iota in *.
    destruct (cb c msg) as [c' r]. destruct (r =? GNUNET_SYSERR).
    + injection E as <- <- <-. by right.
    + eapply IH; [ | reflexivity | exact E ]. rewrite length_app. lia.
Qed.

Lemma frames_ok_rest data c rest c1 :
  frames data GNUNET_NO c = (GNUNET_OK, rest, c1) -> next_frame rest = Incomplete.
Proof.
  remember (length data) as n eqn:Hn. revert data c Hn.
  induction n as [n IH] using lt_wf_ind; intros data c -> E. rewrite frames_step in E.
  destruct (next_frame data) as [| |msg rst] eqn:Ed; [ by injection E as <- <- | done | ].
  apply next_frame_message_length in Ed as [-> Hl].
  change (GNUNET_NO =? GNUNET_SYSERR) with false in *.
  change (GNUNET_NO =? GNUNET_YES) with false in *. cbv iota in *.
  destruct (cb c msg) as [c' r]. destruct (r =? GNUNET_SYSERR); [ done | ].
  eapply IH; [ | reflexivity | exact E ]. rewrite length_app. lia.
Qed.

Lemma receive_all_spec chunks m c :
  mst_inv m -> next_frame (pending m) = Incomplete ->
  exists ret m' c' rest, receive_all m chunks c = Ret (Some (ret, m', c')) /\ mst_inv m'
    /\ frames (pending m ++ concat (snd <$> chunks)) GNUNET_NO c = (ret, rest, c')
    /\ (ret <> GNUNET_SYSERR -> pending m' = rest).
Proof.
  revert m c. induction chunks as [|[addr b] chunks IH]; intros m c Hm Hinc.
  - exists GNUNET_OK, m, c, (pending m). cbn [fmap list_fmap concat receive_all].
    rewrite app_nil_r, frames_step, Hinc. done.
  - cbn [receive_all fmap list_fmap snd concat].
    destruct (receive_spec m addr b false GNUNET_NO c Hm)
      as ([[ret m'] c'] & -> & Hm' & rest & Hfr & Hpe). cbn [mbind outcome_bind].
    rewrite app_assoc.
    destruct (frames_app _ (concat (snd <$> chunks)) _ _ _ _ Hfr) as [[-> Hcat]|[-> Hcat]].
    + cbn [Z.eqb GNUNET_OK GNUNET_SYSERR]. rewrite <- (Hpe ltac:(done)) in Hcat, Hfr.
      destruct (IH m' c' Hm') as (ret & m2 & c2 & rest2 & E & Hm2 & Hf2 & Hp2).
      { by eapply frames_ok_rest. }
      exists ret, m2, c2, rest2. rewrite <- Hf2, <- Hcat. done.
    + exists GNUNET_SYSERR, m', c', (rest ++ concat (snd <$> chunks)). done.
Qed.

Lemma create_inv : mst_inv GNUNET_SERVER_mst_create.
Proof. constructor; vm_compute; lia. Qed.

End Tokenizer.

(** ** Properties *)

(** One call of mst_receive on a tokenizer with pending bytes, with any
    purge and one_shot flags and any callback, terminates and refines the
    framing of pending ++ buf: same callback calls, same return code,
    invariant kept, and afterwards the tokenizer holds exactly the unconsumed
    bytes (none when purging). *)
Theorem mst_receive_refines_framing {C : Type} (ALIGN_FACTOR : nat) (junk : nat -> Z)
  (cb : C -> list Z -> C * Z) m addr buf purge one_shot c :
  mst_inv m ->
  exists ret m' c' rest,
    GNUNET_SERVER_mst_receive ALIGN_FACTOR junk cb m addr buf purge one_shot c
      = Ret (Some (ret, m', c'))
    /\ mst_inv m'
    /\ frames cb (pending m ++ buf) one_shot c = (ret, rest, c')
    /\ (ret <> GNUNET_SYSERR -> pending m' = if purge then [] else rest).
Proof.
  intros Hm.
  destruct (receive_spec ALIGN_FACTOR junk cb m addr buf purge one_shot c Hm)
    as ([[ret m'] c'] & E & Hm' & rest & Hf & Hp).
  by exists ret, m', c', rest.
Qed.

Lemma mst_receive_refines_framing_witness :
  exists m' rest, GNUNET_SERVER_mst_receive 8 (fun _ => 170)
      (fun (c : list (list Z)) msg => (c ++ [msg], GNUNET_OK))
      GNUNET_SERVER_mst_create 3 [0; 5; 0; 1; 9; 0; 4; 0; 2; 0; 7] false GNUNET_YES []
    = Ret (Some (GNUNET_NO, m', [[0; 5; 0; 1; 9]]))
    /\ rest = [0; 4; 0; 2; 0; 7] /\ pending m' = rest.
Proof.
  destruct (mst_receive_refines_framing 8 (fun _ => 170)
    (fun (c : list (list Z)) msg => (c ++ [msg], GNUNET_OK))
    GNUNET_SERVER_mst_create 3 [0; 5; 0; 1; 9; 0; 4; 0; 2; 0; 7] false GNUNET_YES [])
    as (ret & m' & c' & rest & E & _ & Hf & Hp).
  - constructor; vm_compute; lia.
  - vm_compute in Hf. injection Hf as <- <- <-.
    exists m', [0; 4; 0; 2; 0; 7]. split; [ exact E | ]. split; [ reflexivity | ].
    apply Hp. discriminate.
Defined.

(** C20: The tokenizer (without purge and one_shot) is a function of the byte
    stream alone: however the stream is cut into chunks, at whatever addresses
    the chunks lie, and whatever the callback does, a fresh tokenizer
    terminates, calls the callback on exactly the frames of the concatenated
    stream and, unless it returns GNUNET_SYSERR, ends with the unconsumed
    bytes of it. *)
Theorem mst_stream_independent_of_chunks {C : Type} (ALIGN_FACTOR : nat) (junk : nat -> Z)
  (cb : C -> list Z -> C * Z) (chunks : list (nat * list Z)) c :
  exists ret m' c' rest,
    receive_all ALIGN_FACTOR junk cb GNUNET_SERVER_mst_create chunks c
      = Ret (Some (ret, m', c'))
    /\ frames cb (concat (snd <$> chunks)) GNUNET_NO c = (ret, rest, c')
    /\ (ret <> GNUNET_SYSERR -> pending m' = rest).
Proof.
  destruct (receive_all_spec ALIGN_FACTOR junk cb chunks GNUNET_SERVER_mst_create c)
    as (ret & m' & c' & rest & E & _ & Hf & Hp); [ apply create_inv | done | ].
  by exists ret, m', c', rest.
Qed.

Definition well_formed_message (msg : list Z) : Prop :=
  (sizeof_header <= length msg)%nat /\ header_size msg = length msg.

Definition collect (c : list (list Z)) (msg : list Z) : list (list Z) * Z :=
  (c ++ [msg], GNUNET_OK).

Lemma frames_concat msgs c :
  Forall well_formed_message msgs ->
  frames collect (concat msgs) GNUNET_NO c = (GNUNET_OK, [], c ++ msgs).
Proof.
  intros Hm. revert c. induction Hm as [|msg msgs [Hl Hs] Hm IH]; intros c.
  - by rewrite app_nil_r.
  - cbn [concat]. rewrite frames_step.
    rewrite next_frame_long by (rewrite length_app; lia).
    rewrite header_size_app, Hs by (unfold sizeof_header in Hl; lia).
    rewrite (proj2 (Nat.ltb_ge _ _) Hl).
    rewrite (proj2 (Nat.ltb_ge (length (msg ++ concat msgs)) _)) by (rewrite length_app; lia).
    rewrite take_app_length, drop_app_length. cbn [Z.eqb GNUNET_NO GNUNET_YES GNUNET_OK GNUNET_SYSERR collect].
    rewrite IH, <- app_assoc. done.
Qed.

(** If the received stream is the concatenation of well-formed messages
    (size field equal to the length, at least the header), the tokenizer
    delivers exactly these messages in order, whatever the chunk boundaries,
    returns GNUNET_OK and has nothing pending. *)
Theorem mst_delivers_messages (ALIGN_FACTOR : nat) (junk : nat -> Z)
  (msgs : list (list Z)) (chunks : list (nat * list Z)) :
  Forall well_formed_message msgs -> concat (snd <$> chunks) = concat msgs ->
  exists m', receive_all ALIGN_FACTOR junk collect GNUNET_SERVER_mst_create chunks []
      = Ret (Some (GNUNET_OK, m', msgs))
    /\ pending m' = [].
Proof.
  intros Hm Hc.
  destruct (receive_all_spec ALIGN_FACTOR junk collect chunks GNUNET_SERVER_mst_create [])
    as (ret & m' & c' & rest & E & _ & Hf & Hp); [ apply create_inv | done | ].
  change (pending GNUNET_SERVER_mst_create) with (@nil Z) in Hf. cbn [app] in Hf.
  rewrite Hc, frames_concat in Hf by done. injection Hf as <- <- <-.
  exists m'. split; [ done | ]. by apply Hp.
Qed.

Lemma mst_delivers_messages_witness :
  exists m', receive_all 8 (fun _ => 85) collect GNUNET_SERVER_mst_create
      [(0%nat, [0]); (1%nat, [5; 0; 1; 9; 0; 4]); (8%nat, [0; 2])] []
    = Ret (Some (GNUNET_OK, m', [[0; 5; 0; 1; 9]; [0; 4; 0; 2]])).
Proof.
  destruct (mst_delivers_messages 8 (fun _ => 85) [[0; 5; 0; 1; 9]; [0; 4; 0; 2]]
    [(0%nat, [0]); (1%nat, [5; 0; 1; 9; 0; 4]); (8%nat, [0; 2])]) as (m' & E & _).
  - repeat constructor; vm_compute; lia.
  - reflexivity.
  - exists m'. exact E.
Defined.
