(* ===== verification/Bandwidth.v ===== *)
(** * Bandwidth tracking: [src/util/bandwidth.c]

    A tracker counts bytes against a rate.  Its counter is an [int64_t]: the
    arithmetic is written out at its width, and signed overflow, which C leaves
    undefined, is [Undefined].  The clock is an argument. *)

From Stdlib Require Import ZArith Lia.
From stdpp Require Import base list numbers.
From S2P Require Import Prelude Endian Time.
Local Open Scope Z_scope.

Record GNUNET_BANDWIDTH_Value32NBO := mk_bps { value__ : Z }.

Record GNUNET_BANDWIDTH_Tracker := mk_tracker {
  consumption_since_last_update__ : Z;
  last_update__ : GNUNET_TIME_Absolute;
  available_bytes_per_s__ : Z;
  max_carry_s__ : Z
}.

Abbreviation consumption := consumption_since_last_update__.
Abbreviation rate := available_bytes_per_s__.

Definition GNUNET_SERVER_MAX_MESSAGE_SIZE : Z := 65536.

(** Signed 64-bit arithmetic. *)
Definition int64 (z : Z) : outcome Z :=
  if (- 2 ^ 63 <=? z) && (z <? 2 ^ 63) then Ret z else Undefined.

Definition GNUNET_BANDWIDTH_value_init (bytes_per_second : Z)
  : GNUNET_BANDWIDTH_Value32NBO :=
  mk_bps (htonl bytes_per_second).

Definition GNUNET_BANDWIDTH_value_min (b1 b2 : GNUNET_BANDWIDTH_Value32NBO)
  : GNUNET_BANDWIDTH_Value32NBO :=
  GNUNET_BANDWIDTH_value_init (Z.min (ntohl (value__ b1)) (ntohl (value__ b2))).

Definition GNUNET_BANDWIDTH_value_get_available_until (bps : GNUNET_BANDWIDTH_Value32NBO)
  (deadline : GNUNET_TIME_Relative) : Z :=
  let b := ntohl (value__ bps) in
  u64 (b * rel_value deadline + 500) / 1000.

Definition GNUNET_BANDWIDTH_value_get_delay_for (bps : GNUNET_BANDWIDTH_Value32NBO)
  (size : Z) : GNUNET_TIME_Relative :=
  let b := ntohl (value__ bps) in
  if b =? 0 then GNUNET_TIME_UNIT_FOREVER_REL
  else mk_rel (u64 (size * 1000) / b).

Definition GNUNET_BANDWIDTH_tracker_init (now : GNUNET_TIME_Absolute)
  (bytes_per_second_limit : GNUNET_BANDWIDTH_Value32NBO) (max_carry_s : Z)
  : GNUNET_BANDWIDTH_Tracker :=
  mk_tracker 0 now (ntohl (value__ bytes_per_second_limit)) max_carry_s.

Definition update_tracker (now : GNUNET_TIME_Absolute) (av : GNUNET_BANDWIDTH_Tracker)
  : outcome GNUNET_BANDWIDTH_Tracker :=
  let delta_time := u64 (abs_value now - abs_value (last_update__ av)) in
  let delta_avail := u64 (delta_time * rate av + 500) / 1000 in
  let c := s64 (consumption av - delta_avail) in
  if c <? 0 then
    left_bytes ← int64 (- c);
    (* the product has type uint32_t *)
    let max_carry0 := u32 (rate av * max_carry_s__ av) in
    let max_carry := if max_carry0 <? GNUNET_SERVER_MAX_MESSAGE_SIZE
                     then GNUNET_SERVER_MAX_MESSAGE_SIZE else max_carry0 in
    let c' := if left_bytes <? max_carry then s64 (- left_bytes) else s64 (- max_carry) in
    Ret (mk_tracker c' now (rate av) (max_carry_s__ av))
  else Ret (mk_tracker c now (rate av) (max_carry_s__ av)).

Definition GNUNET_BANDWIDTH_tracker_consume (now : GNUNET_TIME_Absolute)
  (av : GNUNET_BANDWIDTH_Tracker) (size : Z) : outcome (Z * GNUNET_BANDWIDTH_Tracker) :=
  let with_consumption c := mk_tracker c (last_update__ av) (rate av) (max_carry_s__ av) in
  if 0 <? size then
    nc ← int64 (consumption av + size);
    if nc <? consumption av then Ret (GNUNET_SYSERR, av)
    else
      av' ← update_tracker now (with_consumption nc);
      if 0 <? consumption av' then Ret (GNUNET_YES, av') else Ret (GNUNET_NO, av')
  else
    c ← int64 (consumption av + size);
    Ret (GNUNET_NO, with_consumption c).

Definition GNUNET_BANDWIDTH_tracker_get_delay (now : GNUNET_TIME_Absolute)
  (av : GNUNET_BANDWIDTH_Tracker) (size : Z)
  : outcome (GNUNET_TIME_Relative * GNUNET_BANDWIDTH_Tracker) :=
  if rate av =? 0 then Ret (GNUNET_TIME_UNIT_FOREVER_REL, av)
  else
    av' ← update_tracker now av;
    let bytes_needed := s64 (size + consumption av') in
    if bytes_needed <=? 0 then Ret (GNUNET_TIME_UNIT_ZERO, av')
    else
      n ← int64 (1000 * bytes_needed);
      Ret (mk_rel (n / rate av'), av').

(** [now1] is the clock in [update_tracker], [now2] in [absolute_get_duration]. *)
Definition GNUNET_BANDWIDTH_tracker_get_available (now1 now2 : GNUNET_TIME_Absolute)
  (av : GNUNET_BANDWIDTH_Tracker) : outcome (Z * GNUNET_BANDWIDTH_Tracker) :=
  av' ← update_tracker now1 av;
  let bps := GNUNET_BANDWIDTH_value_init (rate av') in
  duration ← GNUNET_TIME_absolute_get_duration now2 (last_update__ av');
  let avail := GNUNET_BANDWIDTH_value_get_available_until bps duration in
  let used := consumption av' in
  Ret (s64 (avail - used), av').

Definition GNUNET_BANDWIDTH_tracker_update_quota (now1 now2 : GNUNET_TIME_Absolute)
  (av : GNUNET_BANDWIDTH_Tracker) (bytes_per_second_limit : GNUNET_BANDWIDTH_Value32NBO)
  : outcome GNUNET_BANDWIDTH_Tracker :=
  let new_limit := ntohl (value__ bytes_per_second_limit) in
  av1 ← update_tracker now1 av;
  let old_limit := rate av1 in
  let av2 := mk_tracker (consumption av1) (last_update__ av1) new_limit (max_carry_s__ av1) in
  if new_limit <? old_limit then update_tracker now2 av2 else Ret av2.

(** ** What an update computes *)

(** The bytes that [dt] milliseconds are worth, rounded to the nearest byte. *)
Definition credit (r dt : Z) : Z := (r * dt + 500) / 1000.

(** The most that may accumulate. *)
Definition carry_limit (av : GNUNET_BANDWIDTH_Tracker) : Z :=
  Z.max (u32 (rate av * max_carry_s__ av)) GNUNET_SERVER_MAX_MESSAGE_SIZE.

(** The clock does not run backwards and the quantities fit their types. *)
Definition in_range (now : GNUNET_TIME_Absolute) (av : GNUNET_BANDWIDTH_Tracker) : Prop :=
  is_abs now /\ is_abs (last_update__ av) /\ is_u32 (rate av)
  /\ abs_value (last_update__ av) <= abs_value now
  /\ rate av * (abs_value now - abs_value (last_update__ av)) < 2 ^ 62
  /\ - 2 ^ 62 < consumption av < 2 ^ 63.

Lemma update_tracker_exact now av :
  in_range now av ->
  update_tracker now av
  = Ret (mk_tracker (Z.max (consumption av
                            - credit (rate av) (abs_value now - abs_value (last_update__ av)))
                           (- carry_limit av)) now (rate av) (max_carry_s__ av)).
Proof.
  intros (Hn & Hl & Hr & Hm & Hp & Hc). unfold is_abs, is_u64, is_u32 in *.
  unfold update_tracker. set (dt := abs_value now - abs_value (last_update__ av)) in *.
  assert (Hd : 0 <= rate av * dt) by nia.
  rewrite (u64_small dt) by (unfold is_u64; lia).
  rewrite (u64_small (dt * rate av + 500)) by (unfold is_u64; lia).
  replace (dt * rate av + 500) with (rate av * dt + 500) by lia. fold (credit (rate av) dt).
  assert (Hcr : 0 <= credit (rate av) dt < 2 ^ 62).
  { unfold credit. split; [ apply Z.div_pos; lia | apply Z.div_lt_upper_bound; lia ]. }
  rewrite s64_small by lia. set (c := consumption av - credit (rate av) dt) in *.
  pose proof (u32_range (rate av * max_carry_s__ av)) as Hcar. unfold is_u32 in Hcar.
  unfold carry_limit. set (car := u32 (rate av * max_carry_s__ av)) in *.
  assert (Hmax : (if car <? GNUNET_SERVER_MAX_MESSAGE_SIZE then GNUNET_SERVER_MAX_MESSAGE_SIZE
                  else car) = Z.max car GNUNET_SERVER_MAX_MESSAGE_SIZE) by (case_match; lia).
  rewrite Hmax. unfold GNUNET_SERVER_MAX_MESSAGE_SIZE in *.
  destruct (Z.ltb_spec c 0) as [Hneg|Hpos]; [ | do 2 f_equal; lia ].
  unfold int64. rewrite (proj2 (Z.leb_le _ _)), (proj2 (Z.ltb_lt _ _)) by lia.
  cbn [andb mbind outcome_bind]. do 2 f_equal.
  destruct (Z.ltb_spec (- c) (Z.max car 65536)); rewrite s64_small; lia.
Qed.

(** ** Sequences of consumptions *)

(** Consume at the given times; the codes that were returned, and the tracker. *)
Fixpoint consume_all (av : GNUNET_BANDWIDTH_Tracker) (l : list (GNUNET_TIME_Absolute * Z))
  : outcome (list Z * GNUNET_BANDWIDTH_Tracker) :=
  match l with
  | [] => Ret ([], av)
  | (now, size) :: l' =>
      r ← GNUNET_BANDWIDTH_tracker_consume now av size;
      rs ← consume_all r.2 l';
      Ret (r.1 :: rs.1, rs.2)
  end.

Definition total (l : list (GNUNET_TIME_Absolute * Z)) : Z := foldr (fun p s => p.2 + s) 0 l.

(** Times that increase from [t] to [t_end], at a rate [r] for which the credit of
    the whole span fits the counter; positive sizes whose sum fits it. *)
Fixpoint increasing (t : Z) (l : list (GNUNET_TIME_Absolute * Z)) (t_end : Z) : Prop :=
  match l with
  | [] => t <= t_end
  | (now, size) :: l' => t <= abs_value now /\ 0 < size /\ increasing (abs_value now) l' t_end
  end.

Lemma increasing_le t l t_end : increasing t l t_end -> t <= t_end.
Proof.
  revert t. induction l as [|[now size] l IH]; intros t; [ done | ].
  intros (H1 & _ & H2). specialize (IH _ H2). lia.
Qed.

Lemma total_nonneg t l t_end : increasing t l t_end -> 0 <= total l.
Proof.
  revert t. induction l as [|[now size] l IH]; intros t; [ done | ].
  intros (_ & H1 & H2). specialize (IH _ H2). unfold total in *. cbn [foldr snd]. lia.
Qed.

Lemma consume_exact now av size :
  0 < size -> consumption av + size < 2 ^ 63 ->
  in_range now av -> is_abs now ->
  exists av', GNUNET_BANDWIDTH_tracker_consume now av size
      = Ret (if 0 <? consumption av' then GNUNET_YES else GNUNET_NO, av')
    /\ av' = mk_tracker (Z.max (consumption av + size
                 - credit (rate av) (abs_value now - abs_value (last_update__ av)))
                (- carry_limit av)) now (rate av) (max_carry_s__ av).
Proof.
  intros Hs Hfit (Hn & Hl & Hr & Hm & Hp & Hc) _. unfold GNUNET_BANDWIDTH_tracker_consume.
  rewrite (proj2 (Z.ltb_lt _ _) Hs). unfold int64.
  rewrite (proj2 (Z.leb_le _ _)), (proj2 (Z.ltb_lt (_ + _) _)) by lia.
  cbn [andb mbind outcome_bind]. rewrite (proj2 (Z.ltb_ge _ _)) by lia.
  rewrite update_tracker_exact
    by (unfold in_range, is_abs, is_u32, is_u64 in *; cbn; lia).
  cbn [mbind outcome_bind consumption rate last_update__ max_carry_s__].
  eexists. split; [ | reflexivity ]. cbn. by destruct (0 <? _).
Qed.

(** The bytes consumed, less the credit given, are a lower bound of the counter. *)
Lemma consume_all_bound l : forall av t_end,
  increasing (abs_value (last_update__ av)) l t_end -> is_u64 t_end ->
  is_abs (last_update__ av) -> is_u32 (rate av) ->
  rate av * (t_end - abs_value (last_update__ av)) < 2 ^ 62 ->
  - 2 ^ 62 < consumption av -> Z.max (consumption av) 0 + total l < 2 ^ 63 ->
  exists rets av', consume_all av l = Ret (rets, av') /\ length rets = length l
    /\ 1000 * (consumption av + total l - consumption av')
       <= rate av * (t_end - abs_value (last_update__ av)) + 500 * Z.of_nat (length l)
    /\ (forall rs, rets = rs ++ [GNUNET_NO] -> consumption av' <= 0).
Proof.
  induction l as [|[now size] l IH]; intros av t_end Hinc Hte Hla Hr Hp Hc Htot.
  - exists [], av. cbn in *. split_and!; try done; [ unfold is_u32 in Hr; nia | ].
    by intros [|].
  - destruct Hinc as (Hm & Hs & Hinc). pose proof (increasing_le _ _ _ Hinc) as Hle.
    pose proof (total_nonneg _ _ _ Hinc) as Htn.
    unfold total in Htot |- *. cbn [foldr snd] in Htot |- *. fold (total l) in *.
    unfold is_abs in *. unfold is_u32, is_u64 in *.
    assert (Hspan : rate av * (t_end - abs_value (last_update__ av))
      = rate av * (abs_value now - abs_value (last_update__ av))
        + rate av * (t_end - abs_value now)) by ring.
    assert (Hrest : 0 <= rate av * (t_end - abs_value now)) by (apply Z.mul_nonneg_nonneg; lia).
    assert (Hhead : 0 <= rate av * (abs_value now - abs_value (last_update__ av)))
      by (apply Z.mul_nonneg_nonneg; lia).
    assert (Hrng : in_range now av).
    { unfold in_range, is_abs, is_u32, is_u64. repeat split; lia. }
    destruct (consume_exact now av size) as (av1 & E & Hav1); [ lia | lia | done | | ].
    { unfold is_abs, is_u64. lia. }
    cbn [consume_all]. rewrite E. cbn [mbind outcome_bind snd fst].
    set (dt := abs_value now - abs_value (last_update__ av)) in *.
    assert (Hcr : 1000 * credit (rate av) dt <= rate av * dt + 500 /\ 0 <= credit (rate av) dt).
    { unfold credit. split; [ apply Z.mul_div_le; lia | apply Z.div_pos; lia ]. }
    assert (Hcl : 0 <= carry_limit av < 2 ^ 33).
    { unfold carry_limit. pose proof (u32_range (rate av * max_carry_s__ av)) as Hu.
      unfold is_u32, GNUNET_SERVER_MAX_MESSAGE_SIZE in *. lia. }
    destruct (IH av1 t_end) as (rets & av' & E' & Hlen & Hb & Hlast);
      subst av1; cbn [consumption rate last_update__] in *; try done; try lia.
    rewrite E'. eexists _, av'. split; [ reflexivity | ]. cbn [fst].
    split; [ cbn; congruence | ]. split.
    + cbn [length]. lia.
    + intros [|r rs]; cbn [app]; intros [= Hret Hrets]; [ | by eapply Hlast ].
      subst rets. destruct l; [ | done ]. cbn in E'. injection E' as <-. cbn.
      destruct (Z.ltb_spec 0 (Z.max (consumption av + size - credit (rate av) dt)
        (- carry_limit av))); [ done | lia ].
Qed.

(** ** Properties *)

(** C40: A sender that starts with a fresh tracker and consumes positive
    amounts at non-decreasing times never gets GNUNET_NO (still below the
    limit) after having consumed more than rate times elapsed time, up to the
    half byte of rounding per call; in these ranges no signed overflow occurs. *)
Theorem bandwidth_tracker_enforces_limit bps carry t0 t_end l :
  is_u32 bps -> is_u64 t0 -> is_u64 t_end -> increasing t0 l t_end ->
  bps * (t_end - t0) < 2 ^ 62 -> total l < 2 ^ 63 ->
  exists rets av, consume_all (GNUNET_BANDWIDTH_tracker_init (mk_abs t0)
                     (GNUNET_BANDWIDTH_value_init bps) carry) l = Ret (rets, av)
    /\ length rets = length l
    /\ (forall rs, rets = rs ++ [GNUNET_NO] ->
          1000 * total l <= bps * (t_end - t0) + 500 * Z.of_nat (length l)).
Proof.
  intros Hb Ht0 Hte Hinc Hfit Htot. unfold GNUNET_BANDWIDTH_tracker_init, htonl. cbn [value__].
  change (value__ (GNUNET_BANDWIDTH_value_init bps)) with (ntohl bps).
  rewrite ntohl_involutive by done.
  destruct (consume_all_bound l (mk_tracker 0 (mk_abs t0) bps carry) t_end)
    as (rets & av & E & Hlen & Hbound & Hlast); cbn in *; try done; try lia.
  exists rets, av. split_and!; [ done | done | ]. intros rs Hrs. specialize (Hlast rs Hrs). lia.
Qed.

Lemma bandwidth_tracker_enforces_limit_witness :
  let l := [(mk_abs 2000, 700); (mk_abs 3000, 1200)] in
  exists av, consume_all (GNUNET_BANDWIDTH_tracker_init (mk_abs 1000)
      (GNUNET_BANDWIDTH_value_init 1000) 5) l = Ret ([GNUNET_NO; GNUNET_NO], av)
    /\ 1000 * total l <= 1000 * (3000 - 1000) + 500 * 2.
Proof.
  intros l. destruct (bandwidth_tracker_enforces_limit 1000 5 1000 3000 l)
    as (rets & av & E & Hlen & Hb); try (unfold is_u32, is_u64, total; cbn; lia).
  - assert (Hr : rets = [GNUNET_NO; GNUNET_NO]).
    { vm_compute in E. injection E as <- _. reflexivity. }
    subst rets. exists av. split; [ exact E | ]. apply (Hb [GNUNET_NO]). reflexivity.
Defined.

(** Waiting [1000 * n / r] milliseconds, rounded down, is worth almost [n] bytes. *)
Lemma credit_after_delay r n :
  0 < r -> 0 <= n -> 1000 * (n - credit r (1000 * n / r)) <= r + 498.
Proof.
  intros Hr Hn. unfold credit. set (d := 1000 * n / r).
  pose proof (Z.mul_succ_div_gt (1000 * n) r Hr) as Hd. fold d in Hd.
  pose proof (Z.mul_succ_div_gt (r * d + 500) 1000 ltac:(lia)). nia.
Qed.

Lemma delay_exact av bytes_needed :
  0 < rate av < 2 ^ 32 -> bytes_needed < 2 ^ 42 ->
  exists d, 0 <= d < 2 ^ 62 /\ rate av * d < 2 ^ 52
    /\ 1000 * (bytes_needed - credit (rate av) d) <= rate av + 498
    /\ (if bytes_needed <=? 0 then Ret (GNUNET_TIME_UNIT_ZERO, av)
        else n ← int64 (1000 * bytes_needed); Ret (mk_rel (n / rate av), av))
       = Ret (mk_rel d, av).
Proof.
  intros Hr Hb. destruct (Z.leb_spec bytes_needed 0) as [Hle|Hgt].
  - exists 0. unfold credit. rewrite Z.mul_0_r. change ((0 + 500) / 1000) with 0.
    split_and!; try lia. done.
  - exists (1000 * bytes_needed / rate av). unfold int64.
    rewrite (proj2 (Z.leb_le _ _)), (proj2 (Z.ltb_lt _ _)) by lia. cbn [andb mbind outcome_bind].
    pose proof (Z.mul_div_le (1000 * bytes_needed) (rate av) ltac:(lia)).
    assert (0 <= 1000 * bytes_needed / rate av) by (apply Z.div_pos; lia).
    split_and!; try nia; [ | done ]. apply credit_after_delay; lia.
Qed.

(** Waiting as long as tracker_get_delay says and then consuming leaves
    the tracker over its limit by less than the bandwidth of one millisecond
    plus rounding, and not over it at all for rates up to 501 bytes per
    second. *)
Theorem bandwidth_delay_bound now av size :
  in_range now av -> 0 < rate av -> 0 < size -> consumption av < 2 ^ 40 -> size < 2 ^ 40 ->
  abs_value now < 2 ^ 62 ->
  exists d av1 code av2,
    GNUNET_BANDWIDTH_tracker_get_delay now av size = Ret (mk_rel d, av1)
    /\ GNUNET_BANDWIDTH_tracker_consume (mk_abs (abs_value now + d)) av1 size = Ret (code, av2)
    /\ 1000 * consumption av2 <= rate av + 498
    /\ (rate av <= 501 -> code = GNUNET_NO).
Proof.
  intros Hin Hr Hs Hc Hsz Hnow. unfold GNUNET_BANDWIDTH_tracker_get_delay.
  rewrite (proj2 (Z.eqb_neq _ _)) by lia. rewrite update_tracker_exact by done.
  cbn [mbind outcome_bind]. set (av1 := mk_tracker _ _ _ _).
  destruct Hin as (Hn & Hl & Hu & Hm & Hp & Hcr). unfold is_abs in *. unfold is_u32, is_u64 in *.
  assert (Hcl : 0 <= carry_limit av < 2 ^ 33).
  { unfold carry_limit. pose proof (u32_range (rate av * max_carry_s__ av)) as Hu32.
    unfold is_u32, GNUNET_SERVER_MAX_MESSAGE_SIZE in *. lia. }
  assert (Hcred : 0 <= credit (rate av) (abs_value now - abs_value (last_update__ av))).
  { unfold credit. apply Z.div_pos; nia. }
  assert (Hc1 : - 2 ^ 33 < consumption av1 < 2 ^ 40) by (cbn; lia).
  rewrite s64_small by lia.
  destruct (delay_exact av1 (size + consumption av1)) as (d & Hd0 & Hrd & Hex & ->);
    [ cbn; lia | lia | ]. cbn [rate av1] in Hrd, Hex.
  destruct (consume_exact (mk_abs (abs_value now + d)) av1 size) as (av2 & E2 & Hav2);
    [ lia | lia | unfold in_range, is_abs, is_u32, is_u64; cbn in *; try lia
    | unfold is_abs, is_u64; cbn; lia | ].
  eexists d, av1, _, av2. split; [ done | ]. split; [ exact E2 | ].
  assert (Hc2 : consumption av2 = Z.max (size + consumption av1 - credit (rate av) d)
                                        (- carry_limit av1)).
  { subst av2. cbn. replace (abs_value now + d - abs_value now) with d by lia. f_equal. lia. }
  change (carry_limit av1) with (carry_limit av) in Hc2.
  split; [ lia | ]. intros Hr501. destruct (Z.ltb_spec 0 (consumption av2)); [ lia | done ].
Qed.

Lemma bandwidth_delay_bound_witness :
  exists d av1 code av2,
    GNUNET_BANDWIDTH_tracker_get_delay (mk_abs 9000)
      (mk_tracker 100 (mk_abs 8000) 400 5) 1000 = Ret (mk_rel d, av1)
    /\ GNUNET_BANDWIDTH_tracker_consume (mk_abs (9000 + d)) av1 1000 = Ret (code, av2)
    /\ code = GNUNET_NO.
Proof.
  destruct (bandwidth_delay_bound (mk_abs 9000) (mk_tracker 100 (mk_abs 8000) 400 5) 1000)
    as (d & av1 & code & av2 & E1 & E2 & _ & Hno);
    try (unfold in_range, is_abs, is_u32, is_u64; cbn; lia).
  exists d, av1, code, av2. split; [ exact E1 | ]. split; [ exact E2 | ].
  apply Hno. cbn; lia.
Defined.

(** The carry limit is a product of two 32-bit numbers computed in 32
    bits: a tracker of 2^20 bytes per second with a carry of 4096 seconds,
    idle for that long, offers 65536 bytes instead of 2^32. *)
Lemma bandwidth_carry_truncated :
  let av := GNUNET_BANDWIDTH_tracker_init (mk_abs 0) (GNUNET_BANDWIDTH_value_init (2 ^ 20)) 4096 in
  let later := mk_abs (4096 * 1000) in
  exists av', GNUNET_BANDWIDTH_tracker_get_available later later av = Ret (65536, av')
    /\ rate av * max_carry_s__ av = 2 ^ 32
    /\ credit (rate av) (4096 * 1000) = 2 ^ 32.
Proof. vm_compute. eexists. split_and!; reflexivity. Qed.

Lemma bandwidth_value_min_correct a b :
  is_u32 a -> is_u32 b ->
  ntohl (value__ (GNUNET_BANDWIDTH_value_min (GNUNET_BANDWIDTH_value_init a)
                                             (GNUNET_BANDWIDTH_value_init b))) = Z.min a b.
Proof.
  intros Ha Hb. unfold GNUNET_BANDWIDTH_value_min, GNUNET_BANDWIDTH_value_init, htonl. cbn [value__].
  rewrite (ntohl_involutive a), (ntohl_involutive b), ntohl_involutive; try done.
  unfold is_u32 in *. lia.
Qed.
