(* ===== verification/Messages.v ===== *)
(** * Message structs on the wire

    The packed structs of [GNUNET_NETWORK_STRUCT_BEGIN] are sequences of
    fixed-width fields in network byte order: [struct GNUNET_MessageHeader] of
    [src/include/gnunet_common.h], [struct FragmentHeader] and
    [struct FragmentAcknowledgement] of [src/fragmentation/fragmentation.h].
    [WireFormat] is what the components that build and parse messages promise to
    each other; a field written with [htons], [htonl] or [GNUNET_htonll] occupies
    the big-endian bytes of its value (see [Endian]). *)

From Stdlib Require Import ZArith Lia.
From stdpp Require Import base list numbers.
From S2P Require Import Prelude.
Local Open Scope Z_scope.

(** ** Sequences of fields *)

Fixpoint encode_fields (ws : list nat) (vs : list Z) : list Z :=
  match ws, vs with
  | w :: ws', v :: vs' => be_encode w v ++ encode_fields ws' vs'
  | _, _ => []
  end.

Fixpoint decode_fields (ws : list nat) (l : list Z) : list Z :=
  match ws with
  | [] => []
  | w :: ws' => be_decode (take w l) :: decode_fields ws' (drop w l)
  end.

Definition field_fits (w : nat) (v : Z) : Prop := 0 <= v < 2 ^ (8 * Z.of_nat w).

Lemma decode_encode_fields ws vs rest :
  Forall2 field_fits ws vs -> decode_fields ws (encode_fields ws vs ++ rest) = vs.
Proof.
  induction 1 as [|w v ws vs Hv Hvs IH]; [ done | ]. cbn [encode_fields decode_fields].
  assert (Hl : length (be_encode w v) = w) by apply length_be_encode.
  rewrite <- app_assoc. rewrite take_app_length', drop_app_length' by done.
  rewrite IH, be_decode_encode, Z.mod_small by done. done.
Qed.

Lemma be_decode_take n l : is_bytes l -> 0 <= be_decode (take n l) < 2 ^ (8 * Z.of_nat n).
Proof.
  intros Hl. pose proof (be_decode_range (take n l) (is_bytes_take n l Hl)) as [H0 H1].
  split; [ done | ]. eapply Z.lt_le_trans; [ done | ]. apply Z.pow_le_mono_r; [ lia | ].
  rewrite length_take. lia.
Qed.

Lemma decode_fields_fit ws : forall l, is_bytes l -> Forall2 field_fits ws (decode_fields ws l).
Proof.
  induction ws as [|w ws IH]; intros l Hl; cbn [decode_fields]; constructor;
    [ by apply be_decode_take | by apply IH, Forall_drop ].
Qed.

Ltac fits :=
  repeat match goal with
    | |- Forall2 _ (_ :: _) (_ :: _) => apply List.Forall2_cons
    | |- Forall2 _ [] [] => apply List.Forall2_nil
    end; unfold field_fits; cbn; unfold_ints; lia.

(** The fields of a struct, at their offsets *)
Lemma decode_fields_at ws vs :
  Forall2 field_fits ws vs -> decode_fields ws (encode_fields ws vs) = vs.
Proof.
  intros Hf. rewrite <- (app_nil_r (encode_fields ws vs)). by apply decode_encode_fields.
Qed.

Lemma length_encode_fields ws vs :
  length ws = length vs -> length (encode_fields ws vs) = sum_list ws.
Proof.
  revert vs. induction ws as [|w ws IH]; intros [|v vs] Hl; try done.
  cbn [encode_fields sum_list sum_list_with]. rewrite length_app, length_be_encode, IH;
    [ done | cbn in Hl; lia ].
Qed.

Lemma encode_fields_bytes ws vs : is_bytes (encode_fields ws vs).
Proof.
  revert vs. induction ws as [|w ws IH]; intros [|v vs]; try constructor.
  apply is_bytes_app. split; [ apply be_encode_bytes | apply IH ].
Qed.

(** ** The interface *)

Class WireFormat (A : Type) := {
  wire_size : nat;
  wire_encode : A -> list Z;
  wire_decode : list Z -> A;
  wire_valid : A -> Prop;
  wire_length : forall a, length (wire_encode a) = wire_size;
  wire_bytes : forall a, is_bytes (wire_encode a);
  wire_roundtrip : forall a rest, wire_valid a -> wire_decode (wire_encode a ++ rest) = a
}.
Arguments wire_size A {_}.

(** ** The structs *)

Record GNUNET_MessageHeader := mk_header { mh_size : Z; mh_type : Z }.

Record FragmentHeader := mk_fragment_header {
  fh_header : GNUNET_MessageHeader;
  fh_fragment_id : Z;
  fh_total_size : Z;
  fh_offset : Z
}.

Record FragmentAcknowledgement := mk_fragment_ack {
  fa_header : GNUNET_MessageHeader;
  fa_fragment_id : Z;
  fa_bits : Z
}.

Definition encode_header (h : GNUNET_MessageHeader) : list Z :=
  encode_fields [2; 2]%nat [mh_size h; mh_type h].
Definition decode_header (l : list Z) : GNUNET_MessageHeader :=
  match decode_fields [2; 2]%nat l with
  | [s; t] => mk_header s t
  | _ => mk_header 0 0
  end.
Definition valid_header (h : GNUNET_MessageHeader) : Prop :=
  is_u16 (mh_size h) /\ is_u16 (mh_type h).

Lemma header_roundtrip h rest : valid_header h -> decode_header (encode_header h ++ rest) = h.
Proof.
  destruct h as [s t]. intros [Hs Ht]. unfold decode_header, encode_header.
  rewrite (decode_encode_fields [2; 2]%nat) by (repeat constructor; cbn in *; unfold_ints; lia). done.
Qed.

#[export] Instance header_wire : WireFormat GNUNET_MessageHeader := {
  wire_size := 4;
  wire_encode := encode_header;
  wire_decode := decode_header;
  wire_valid := valid_header;
  wire_length h := length_encode_fields [2; 2]%nat
    [mh_size h; mh_type h] eq_refl;
  wire_bytes h := encode_fields_bytes [2; 2]%nat _;
  wire_roundtrip := header_roundtrip
}.

Definition encode_fragment_header (h : FragmentHeader) : list Z :=
  encode_fields [2; 2; 4; 2; 2]%nat [mh_size (fh_header h); mh_type (fh_header h); fh_fragment_id h;
                                    fh_total_size h; fh_offset h].
Definition decode_fragment_header (l : list Z) : FragmentHeader :=
  match decode_fields [2; 2; 4; 2; 2]%nat l with
  | [s; t; i; n; o] => mk_fragment_header (mk_header s t) i n o
  | _ => mk_fragment_header (mk_header 0 0) 0 0 0
  end.
Definition valid_fragment_header (h : FragmentHeader) : Prop :=
  valid_header (fh_header h) /\ is_u32 (fh_fragment_id h)
  /\ is_u16 (fh_total_size h) /\ is_u16 (fh_offset h).

Lemma fragment_header_roundtrip h rest : valid_fragment_header h -> decode_fragment_header (encode_fragment_header h ++ rest) = h.
Proof.
  destruct h as [[s t] i n o]. intros ([Hs Ht] & Hi & Hn & Ho). unfold decode_fragment_header, encode_fragment_header.
  rewrite (decode_encode_fields [2; 2; 4; 2; 2]%nat) by (repeat constructor; cbn in *; unfold_ints; lia). done.
Qed.

#[export] Instance fragment_header_wire : WireFormat FragmentHeader := {
  wire_size := 12;
  wire_encode := encode_fragment_header;
  wire_decode := decode_fragment_header;
  wire_valid := valid_fragment_header;
  wire_length h := length_encode_fields [2; 2; 4; 2; 2]%nat
    [mh_size (fh_header h); mh_type (fh_header h); fh_fragment_id h;
     fh_total_size h; fh_offset h] eq_refl;
  wire_bytes h := encode_fields_bytes [2; 2; 4; 2; 2]%nat _;
  wire_roundtrip := fragment_header_roundtrip
}.

Definition encode_fragment_ack (h : FragmentAcknowledgement) : list Z :=
  encode_fields [2; 2; 4; 8]%nat [mh_size (fa_header h); mh_type (fa_header h); fa_fragment_id h;
                                 fa_bits h].
Definition decode_fragment_ack (l : list Z) : FragmentAcknowledgement :=
  match decode_fields [2; 2; 4; 8]%nat l with
  | [s; t; i; b] => mk_fragment_ack (mk_header s t) i b
  | _ => mk_fragment_ack (mk_header 0 0) 0 0
  end.
Definition valid_fragment_ack (h : FragmentAcknowledgement) : Prop :=
  valid_header (fa_header h) /\ is_u32 (fa_fragment_id h) /\ is_u64 (fa_bits h).

Lemma fragment_ack_roundtrip h rest : valid_fragment_ack h -> decode_fragment_ack (encode_fragment_ack h ++ rest) = h.
Proof.
  destruct h as [[s t] i b]. intros ([Hs Ht] & Hi & Hb). unfold decode_fragment_ack, encode_fragment_ack.
  rewrite (decode_encode_fields [2; 2; 4; 8]%nat) by (repeat constructor; cbn in *; unfold_ints; lia). done.
Qed.

#[export] Instance fragment_ack_wire : WireFormat FragmentAcknowledgement := {
  wire_size := 16;
  wire_encode := encode_fragment_ack;
  wire_decode := decode_fragment_ack;
  wire_valid := valid_fragment_ack;
  wire_length h := length_encode_fields [2; 2; 4; 8]%nat
    [mh_size (fa_header h); mh_type (fa_header h); fa_fragment_id h; fa_bits h] eq_refl;
  wire_bytes h := encode_fields_bytes [2; 2; 4; 8]%nat _;
  wire_roundtrip := fragment_ack_roundtrip
}.

(** [ntohs (msg->size)] of a message *)
Definition msg_size (m : list Z) : Z := mh_size (wire_decode m).

(** A message starts with its header. *)
Lemma msg_size_fragment h rest :
  wire_valid h -> msg_size (wire_encode (A := FragmentHeader) h ++ rest) = mh_size (fh_header h).
Proof.
  intros Hv. assert (E : forall l, msg_size l = mh_size (fh_header (wire_decode l))) by done.
  rewrite E, wire_roundtrip; done.
Qed.

Lemma msg_size_ack h rest :
  wire_valid h ->
  msg_size (wire_encode (A := FragmentAcknowledgement) h ++ rest) = mh_size (fa_header h).
Proof.
  intros Hv. assert (E : forall l, msg_size l = mh_size (fa_header (wire_decode l))) by done.
  rewrite E, wire_roundtrip; done.
Qed.
