(* ===== verification/FdSet.v ===== *)
(** * Sets of file descriptors: [src/util/network.c]

    [struct GNUNET_NETWORK_FDSet] is an [fd_set] of the operating system, here the
    finite set of its members, with the largest member plus one.  The macros [FD_SET]
    and [FD_ISSET] have no defined behaviour outside of [0 .. FD_SETSIZE - 1]. *)

From Stdlib Require Import ZArith Lia.
From stdpp Require Import base list numbers gmap.
From S2P Require Import Prelude.
Local Open Scope Z_scope.

Definition FD_SETSIZE : Z := 1024.

Record GNUNET_NETWORK_FDSet := mk_fdset { nsds : Z; sds : gset Z }.

#[global] Instance fdset_eq_dec : EqDecision GNUNET_NETWORK_FDSet.
Proof. solve_decision. Defined.

Definition FD_ISSET (fd : Z) (s : gset Z) : outcome bool :=
  if (0 <=? fd) && (fd <? FD_SETSIZE) then Ret (bool_decide (fd ∈ s)) else Undefined.

Definition FD_SET (fd : Z) (s : gset Z) : outcome (gset Z) :=
  if (0 <=? fd) && (fd <? FD_SETSIZE) then Ret ({[fd]} ∪ s) else Undefined.

(** ** Operations *)

Definition GNUNET_NETWORK_fdset_zero : GNUNET_NETWORK_FDSet := mk_fdset 0 ∅.

Definition GNUNET_NETWORK_fdset_create : GNUNET_NETWORK_FDSet := GNUNET_NETWORK_fdset_zero.

(** [fd] is the descriptor of the socket. *)
Definition GNUNET_NETWORK_fdset_set (fds : GNUNET_NETWORK_FDSet) (fd : Z)
  : outcome GNUNET_NETWORK_FDSet :=
  s ← FD_SET fd (sds fds);
  Ret (mk_fdset (if nsds fds <? fd + 1 then fd + 1 else nsds fds) s).

Definition GNUNET_NETWORK_fdset_isset (fds : GNUNET_NETWORK_FDSet) (fd : Z) : outcome bool :=
  FD_ISSET fd (sds fds).

(** The loop of [fdset_add], from [nfds] down to 1 *)
Fixpoint add_loop (nfds : nat) (dst src : GNUNET_NETWORK_FDSet) : outcome GNUNET_NETWORK_FDSet :=
  match nfds with
  | O => Ret dst
  | S nfds' =>
      let fd := Z.of_nat nfds in
      isset ← FD_ISSET fd (sds src);
      dst ← (if isset : bool then
               s ← FD_SET fd (sds dst);
               Ret (mk_fdset (if nsds dst <? fd + 1 then fd + 1 else nsds dst) s)
             else Ret dst);
      add_loop nfds' dst src
  end.

Definition GNUNET_NETWORK_fdset_add (dst src : GNUNET_NETWORK_FDSet)
  : outcome GNUNET_NETWORK_FDSet := add_loop (Z.to_nat (nsds src)) dst src.

Definition GNUNET_NETWORK_fdset_copy (to from : GNUNET_NETWORK_FDSet) : GNUNET_NETWORK_FDSet :=
  mk_fdset (nsds from) (sds from).

Definition GNUNET_NETWORK_fdset_copy_native (to : GNUNET_NETWORK_FDSet) (from : gset Z) (nfds : Z)
  : GNUNET_NETWORK_FDSet := mk_fdset nfds from.

Definition GNUNET_NETWORK_fdset_set_native (to : GNUNET_NETWORK_FDSet) (nfd : Z)
  : outcome GNUNET_NETWORK_FDSet :=
  _ ← gnunet_assert ((0 <=? nfd) && (nfd <? FD_SETSIZE));
  s ← FD_SET nfd (sds to);
  Ret (mk_fdset (Z.max (nfd + 1) (nsds to)) s).

(** [None] is [NULL]. *)
Definition GNUNET_NETWORK_fdset_test_native (to : option GNUNET_NETWORK_FDSet) (nfd : Z)
  : outcome bool :=
  match to with
  | None => Ret false
  | Some to => if nfd =? -1 then Ret false else FD_ISSET nfd (sds to)
  end.

(** [fd] is the descriptor of the file handle. *)
Definition GNUNET_NETWORK_fdset_handle_set (fds : GNUNET_NETWORK_FDSet) (fd : Z)
  : outcome GNUNET_NETWORK_FDSet :=
  s ← FD_SET fd (sds fds);
  Ret (mk_fdset (if nsds fds <? fd + 1 then fd + 1 else nsds fds) s).

Definition GNUNET_NETWORK_fdset_handle_isset (fds : GNUNET_NETWORK_FDSet) (fd : Z) : outcome bool :=
  FD_ISSET fd (sds fds).

(** The loop of [fdset_overlap], which looks at [nfds - 1] down to 0 *)
Fixpoint overlap_loop (nfds : nat) (s1 s2 : gset Z) : outcome bool :=
  match nfds with
  | O => Ret false
  | S nfds =>
      let fd := Z.of_nat nfds in
      b1 ← FD_ISSET fd s1;
      b ← (if b1 : bool then FD_ISSET fd s2 else Ret false);
      if b : bool then Ret true else overlap_loop nfds s1 s2
  end.

Definition GNUNET_NETWORK_fdset_overlap (fds1 fds2 : GNUNET_NETWORK_FDSet) : outcome bool :=
  overlap_loop (Z.to_nat (if nsds fds2 <? nsds fds1 then nsds fds2 else nsds fds1))
    (sds fds1) (sds fds2).

(** ** Well-formed sets *)

(** [nsds] bounds the members, and the loop of [fdset_add] stays in range. *)
Record fdset_ok (s : GNUNET_NETWORK_FDSet) : Prop := {
  fdset_members : forall fd, fd ∈ sds s -> 0 <= fd < nsds s;
  fdset_size : 0 <= nsds s < FD_SETSIZE
}.

(** A descriptor that all operations accept *)
Definition is_fd (fd : Z) : Prop := 0 <= fd < FD_SETSIZE - 1.

Lemma FD_ISSET_ok fd s : 0 <= fd < FD_SETSIZE -> FD_ISSET fd s = Ret (bool_decide (fd ∈ s)).
Proof.
  intros H. unfold FD_ISSET. by rewrite (proj2 (Z.leb_le _ _)), (proj2 (Z.ltb_lt _ _)) by lia.
Qed.

Lemma FD_SET_ok fd s : 0 <= fd < FD_SETSIZE -> FD_SET fd s = Ret ({[fd]} ∪ s).
Proof.
  intros H. unfold FD_SET. by rewrite (proj2 (Z.leb_le _ _)), (proj2 (Z.ltb_lt _ _)) by lia.
Qed.

Lemma fdset_zero_ok : fdset_ok GNUNET_NETWORK_fdset_zero.
Proof. split; cbn; [ intros fd Hfd; set_solver | unfold FD_SETSIZE; lia ]. Qed.

Lemma fdset_insert_ok s fd :
  fdset_ok s -> is_fd fd -> fdset_ok (mk_fdset (Z.max (fd + 1) (nsds s)) ({[fd]} ∪ sds s)).
Proof.
  intros [Hm Hs] Hfd. unfold is_fd in Hfd. split; cbn; [ | lia ].
  intros x [->%elem_of_singleton|Hx]%elem_of_union; [ lia | ]. apply Hm in Hx. lia.
Qed.

(** A set that [select] has reduced *)
Lemma fdset_subset_ok s s' : fdset_ok s -> s' ⊆ sds s -> fdset_ok (mk_fdset (nsds s) s').
Proof. intros [Hm Hs] Hsub. split; cbn; [ | done ]. intros fd Hfd. by apply Hm, Hsub. Qed.

Lemma set_native_ok s fd :
  is_fd fd ->
  GNUNET_NETWORK_fdset_set_native s fd = Ret (mk_fdset (Z.max (fd + 1) (nsds s)) ({[fd]} ∪ sds s)).
Proof.
  intros Hfd. unfold is_fd in Hfd. unfold GNUNET_NETWORK_fdset_set_native.
  rewrite (proj2 (Z.leb_le _ _)), (proj2 (Z.ltb_lt _ _)) by lia. cbn [andb gnunet_assert mbind outcome_bind].
  by rewrite FD_SET_ok by lia.
Qed.

Lemma handle_set_native s fd :
  is_fd fd -> GNUNET_NETWORK_fdset_handle_set s fd = GNUNET_NETWORK_fdset_set_native s fd.
Proof.
  intros Hfd. rewrite set_native_ok by done. unfold is_fd in Hfd.
  unfold GNUNET_NETWORK_fdset_handle_set. rewrite FD_SET_ok by lia. cbn [mbind outcome_bind].
  do 2 f_equal. destruct (Z.ltb_spec (nsds s) (fd + 1)); lia.
Qed.

Lemma test_native_ok s fd :
  0 <= fd < FD_SETSIZE ->
  GNUNET_NETWORK_fdset_test_native (Some s) fd = Ret (bool_decide (fd ∈ sds s)).
Proof.
  intros Hfd. cbn. rewrite (proj2 (Z.eqb_neq fd (-1))) by lia. by apply FD_ISSET_ok.
Qed.

(** *** [fdset_overlap] decides whether there is a common member. *)

Lemma overlap_loop_ok n s1 s2 :
  Z.of_nat n <= FD_SETSIZE ->
  overlap_loop n s1 s2
  = Ret (bool_decide (Exists (fun fd => fd ∈ s1 /\ fd ∈ s2) (Z.of_nat <$> seq 0 n))).
Proof.
  intros Hn. induction n as [|n IH]; cbn [overlap_loop]; [ done | ].
  rewrite FD_ISSET_ok by lia. cbn [mbind outcome_bind].
  rewrite seq_S, fmap_app. cbn [fmap list_fmap Nat.add].
  rewrite IH by lia. rewrite FD_ISSET_ok by lia.
  repeat case_bool_decide; try done; cbn [mbind outcome_bind]; try done;
    repeat match goal with H : Exists _ (_ ++ _) |- _ => rewrite Exists_app in H
                         | H : ~ Exists _ (_ ++ _) |- _ => rewrite Exists_app in H end;
    repeat match goal with H : context [Exists _ [_]] |- _ => rewrite Exists_cons, Exists_nil in H end;
    exfalso; naive_solver.
Qed.

Lemma overlap_ok s1 s2 :
  fdset_ok s1 -> fdset_ok s2 ->
  GNUNET_NETWORK_fdset_overlap s1 s2 = Ret (bool_decide (sds s1 ∩ sds s2 <> ∅)).
Proof.
  intros [Hm1 Hs1] [Hm2 Hs2]. unfold GNUNET_NETWORK_fdset_overlap.
  set (n := if nsds s2 <? nsds s1 then nsds s2 else nsds s1).
  assert (Hn : n = Z.min (nsds s1) (nsds s2)) by (unfold n; destruct (Z.ltb_spec (nsds s2) (nsds s1)); lia).
  rewrite overlap_loop_ok by lia. f_equal. apply bool_decide_ext. rewrite Exists_exists.
  split.
  - intros (fd & _ & H1 & H2) He. set_solver.
  - intros He. apply set_choose_L in He as [fd [H1 H2]%elem_of_intersection].
    exists fd. split; [ | done ]. apply Hm1 in H1. apply Hm2 in H2.
    apply list_elem_of_fmap. exists (Z.to_nat fd). split; [ lia | ]. apply elem_of_seq. lia.
Qed.

(** *** [fdset_add] adds all members but descriptor 0. *)

Lemma add_loop_ok n dst src :
  Z.of_nat n < FD_SETSIZE -> fdset_ok dst -> fdset_ok src ->
  exists r, add_loop n dst src = Ret r /\ fdset_ok r
    /\ (forall fd, fd ∈ sds r <-> fd ∈ sds dst \/ (fd ∈ sds src /\ 1 <= fd <= Z.of_nat n)).
Proof.
  intros Hn Hd Hs. revert dst Hd. induction n as [|n IH]; intros dst Hd; cbn [add_loop].
  { exists dst. split_and!; [ done | done | ]. intros fd. intuition lia. }
  rewrite FD_ISSET_ok by lia. cbn [mbind outcome_bind]. case_bool_decide as Hin.
  - assert (Hfd : is_fd (Z.of_nat (S n))).
    { apply (fdset_members _ Hs) in Hin. destruct (fdset_size _ Hs). unfold is_fd. lia. }
    pose proof (handle_set_native dst _ Hfd) as Hset. rewrite set_native_ok in Hset by done.
    unfold GNUNET_NETWORK_fdset_handle_set in Hset. rewrite Hset. cbn [mbind outcome_bind].
    destruct (IH ltac:(lia) _ (fdset_insert_ok _ _ Hd Hfd)) as (r & Hr & Hok & Hm).
    exists r. split_and!; [ done | done | ]. intros fd. rewrite Hm. cbn.
    rewrite elem_of_union, elem_of_singleton.
    split; [ intros [[->|?]|[? ?]] | intros [?|[? ?]] ]; try (right; split; [ done | lia ]); auto.
    destruct (decide (fd = Z.of_nat (S n))); [ auto | ]. right. split; [ done | lia ].
  - destruct (IH ltac:(lia) dst Hd) as (r & Hr & Hok & Hm). exists r.
    split_and!; [ done | done | ]. intros fd. rewrite Hm.
    split; [ intros [?|[? ?]] | intros [?|[? ?]] ]; try (right; split; [ done | lia ]); auto.
    destruct (decide (fd = Z.of_nat (S n))); [ by subst | ]. right. split; [ done | lia ].
Qed.

Lemma fdset_add_ok dst src :
  fdset_ok dst -> fdset_ok src ->
  exists r, GNUNET_NETWORK_fdset_add dst src = Ret r /\ fdset_ok r
    /\ sds r = sds dst ∪ (sds src ∖ {[0]}).
Proof.
  intros Hd Hs. pose proof (fdset_size _ Hs).
  destruct (add_loop_ok (Z.to_nat (nsds src)) dst src) as (r & Hr & Hok & Hm); [ lia | done | done | ].
  exists r. split_and!; [ done | done | ]. apply set_eq. intros fd. rewrite Hm.
  rewrite elem_of_union, elem_of_difference, elem_of_singleton.
  split; intros [?|[Hin ?]]; auto; right; (split; [ done | ]).
  - lia.
  - apply (fdset_members _ Hs) in Hin. lia.
Qed.
