(* ===== verification/Scheduler.v ===== *)
(** * The task scheduler: [src/util/scheduler.c]

    Tasks wait in [pending] for a timeout or a file descriptor, in [pending_timeout]
    (sorted) for a timeout alone, or in one of the queues [ready], one per priority.
    The linked lists of the source are lists of tasks here.  A task is referred to by
    its identifier, which also stands for its address: [pending_timeout_last] is
    [None] for [NULL], and following it when the task is in no list is [Undefined].

    A callback acts on the scheduler only through the functions of this file: it is a
    program ([prog]) of such calls, each with its reading of the clock, and is run by
    [exec].  Callbacks and the rest of the process (its state [W]), the results of
    [select] and the clock are parameters.  Function pointers are numbers, 0 being
    [NULL].  Backtraces, delay profiling, the warning about busy waiting and the
    installation of signal handlers are left out; that a signal has arrived is the
    readability of the descriptor [pr] of the shutdown pipe. *)

From Stdlib Require Import ZArith Lia.
From stdpp Require Import base list numbers gmap.
From S2P Require Import Prelude Time FdSet.
Local Open Scope Z_scope.

Definition GNUNET_SCHEDULER_REASON_STARTUP : Z := 0.
Definition GNUNET_SCHEDULER_REASON_SHUTDOWN : Z := 1.
Definition GNUNET_SCHEDULER_REASON_TIMEOUT : Z := 2.
Definition GNUNET_SCHEDULER_REASON_READ_READY : Z := 4.
Definition GNUNET_SCHEDULER_REASON_WRITE_READY : Z := 8.
Definition GNUNET_SCHEDULER_REASON_PREREQ_DONE : Z := 16.

Definition GNUNET_SCHEDULER_PRIORITY_KEEP : Z := 0.
Definition GNUNET_SCHEDULER_PRIORITY_DEFAULT : Z := 3.
Definition GNUNET_SCHEDULER_PRIORITY_SHUTDOWN : Z := 7.
Definition GNUNET_SCHEDULER_PRIORITY_COUNT : Z := 8.

(** ** State *)

Record Task := mk_task {
  callback : nat;
  callback_cls : nat;
  read_set : option GNUNET_NETWORK_FDSet;
  write_set : option GNUNET_NETWORK_FDSet;
  id : Z;
  timeout : GNUNET_TIME_Absolute;
  reason : Z;
  priority : Z;
  read_fd : Z;
  write_fd : Z;
  lifeness : Z
}.

(** [active_task]: [NULL], the address -1 that only passes the sanity checks, or the
    task that is running *)
Inductive active := NoTask | Dummy | Running (t : Task).

Record scheduler := mk_sched {
  pending : list Task;
  pending_timeout : list Task;
  pending_timeout_last : option Z;
  active_task : active;
  ready : list (list Task);
  last_id : Z;
  ready_count : Z;
  tasks_run : Z;
  current_priority : Z;
  max_priority_added : Z;
  current_lifeness : Z
}.

Definition sched_init : scheduler :=
  mk_sched [] [] None NoTask (replicate 8 []) 0 0 0 0 0 0.

(** Assignments *)

Definition set_reason (t : Task) (r : Z) : Task :=
  mk_task (callback t) (callback_cls t) (read_set t) (write_set t) (id t) (timeout t) r
    (priority t) (read_fd t) (write_fd t) (lifeness t).
Definition set_sets (t : Task) (rs ws : option GNUNET_NETWORK_FDSet) : Task :=
  mk_task (callback t) (callback_cls t) rs ws (id t) (timeout t) (reason t)
    (priority t) (read_fd t) (write_fd t) (lifeness t).
Definition set_lifeness (t : Task) (l : Z) : Task :=
  mk_task (callback t) (callback_cls t) (read_set t) (write_set t) (id t) (timeout t) (reason t)
    (priority t) (read_fd t) (write_fd t) l.
Definition or_reason (r : Z) (t : Task) : Task := set_reason t (Z.lor (reason t) r).

Definition set_pending (st : scheduler) (l : list Task) : scheduler :=
  mk_sched l (pending_timeout st) (pending_timeout_last st) (active_task st) (ready st)
    (last_id st) (ready_count st) (tasks_run st) (current_priority st) (max_priority_added st)
    (current_lifeness st).
Definition set_timeouts (st : scheduler) (l : list Task) (last : option Z) : scheduler :=
  mk_sched (pending st) l last (active_task st) (ready st)
    (last_id st) (ready_count st) (tasks_run st) (current_priority st) (max_priority_added st)
    (current_lifeness st).
Definition set_ready (st : scheduler) (q : list (list Task)) (n : Z) : scheduler :=
  mk_sched (pending st) (pending_timeout st) (pending_timeout_last st) (active_task st) q
    (last_id st) n (tasks_run st) (current_priority st) (max_priority_added st)
    (current_lifeness st).
Definition set_active (st : scheduler) (a : active) : scheduler :=
  mk_sched (pending st) (pending_timeout st) (pending_timeout_last st) a (ready st)
    (last_id st) (ready_count st) (tasks_run st) (current_priority st) (max_priority_added st)
    (current_lifeness st).
Definition set_last_id (st : scheduler) (n : Z) : scheduler :=
  mk_sched (pending st) (pending_timeout st) (pending_timeout_last st) (active_task st) (ready st)
    n (ready_count st) (tasks_run st) (current_priority st) (max_priority_added st)
    (current_lifeness st).
Definition set_tasks_run (st : scheduler) (n : Z) : scheduler :=
  mk_sched (pending st) (pending_timeout st) (pending_timeout_last st) (active_task st) (ready st)
    (last_id st) (ready_count st) n (current_priority st) (max_priority_added st)
    (current_lifeness st).
Definition set_current (st : scheduler) (p l : Z) : scheduler :=
  mk_sched (pending st) (pending_timeout st) (pending_timeout_last st) (active_task st) (ready st)
    (last_id st) (ready_count st) (tasks_run st) p (max_priority_added st) l.
Definition set_max_priority (st : scheduler) (p : Z) : scheduler :=
  mk_sched (pending st) (pending_timeout st) (pending_timeout_last st) (active_task st) (ready st)
    (last_id st) (ready_count st) (tasks_run st) (current_priority st) p (current_lifeness st).

Definition is_active (st : scheduler) : bool :=
  match active_task st with NoTask => false | _ => true end.

(** ** Becoming ready *)

Definition check_priority (p : Z) : outcome Z :=
  if (0 <=? p) && (p <? GNUNET_SCHEDULER_PRIORITY_COUNT) then Ret p else AssertFailed.

(** The loop of [update_sets] over [pending] *)
Fixpoint update_pending (now : GNUNET_TIME_Absolute) (l : list Task)
  (rs ws : GNUNET_NETWORK_FDSet) (to : GNUNET_TIME_Relative)
  : outcome (GNUNET_NETWORK_FDSet * GNUNET_NETWORK_FDSet * GNUNET_TIME_Relative) :=
  match l with
  | [] => Ret (rs, ws, to)
  | pos :: l' =>
      let to :=
        if negb (abs_value (timeout pos) =? abs_value GNUNET_TIME_UNIT_FOREVER_ABS) then
          let d := GNUNET_TIME_absolute_get_difference now (timeout pos) in
          if rel_value d <? rel_value to then d else to
        else to in
      rs ← (if negb (read_fd pos =? -1) then GNUNET_NETWORK_fdset_set_native rs (read_fd pos)
            else Ret rs);
      ws ← (if negb (write_fd pos =? -1) then GNUNET_NETWORK_fdset_set_native ws (write_fd pos)
            else Ret ws);
      rs ← match read_set pos with Some s => GNUNET_NETWORK_fdset_add rs s | None => Ret rs end;
      ws ← match write_set pos with Some s => GNUNET_NETWORK_fdset_add ws s | None => Ret ws end;
      update_pending now l' rs ws
        (if negb (reason pos =? 0) then GNUNET_TIME_UNIT_ZERO else to)
  end.

Definition update_sets (st : scheduler) (now : GNUNET_TIME_Absolute)
  (rs ws : GNUNET_NETWORK_FDSet) (to : GNUNET_TIME_Relative)
  : outcome (GNUNET_NETWORK_FDSet * GNUNET_NETWORK_FDSet * GNUNET_TIME_Relative) :=
  let to :=
    match pending_timeout st with
    | [] => to
    | pos :: _ =>
        let d := GNUNET_TIME_absolute_get_difference now (timeout pos) in
        let to := if rel_value d <? rel_value to then d else to in
        if negb (reason pos =? 0) then GNUNET_TIME_UNIT_ZERO else to
    end in
  update_pending now (pending st) rs ws to.

(** The answer and the set [want] afterwards *)
Definition set_overlaps (ready want : option GNUNET_NETWORK_FDSet)
  : outcome (bool * option GNUNET_NETWORK_FDSet) :=
  match want, ready with
  | Some w, Some r =>
      b ← GNUNET_NETWORK_fdset_overlap r w;
      if b : bool then Ret (true, Some (GNUNET_NETWORK_fdset_copy w r)) else Ret (false, want)
  | _, _ => Ret (false, want)
  end.

(** One of the two descriptor conditions of [is_ready]: [bit] is added to the reason if
    it is not there yet and the descriptor or the set is ready. *)
Definition fd_ready (bit : Z) (reason : Z) (fd : Z) (set : option GNUNET_NETWORK_FDSet)
  (ready : GNUNET_NETWORK_FDSet) : outcome (Z * option GNUNET_NETWORK_FDSet) :=
  if Z.land reason bit =? 0 then
    b ← (if negb (fd =? -1) then GNUNET_NETWORK_fdset_test_native (Some ready) fd else Ret false);
    if b : bool then Ret (Z.lor reason bit, set)
    else
      '(b, set) ← set_overlaps (Some ready) set;
      Ret (if b : bool then Z.lor reason bit else reason, set)
  else Ret (reason, set).

Definition is_ready (task : Task) (now : GNUNET_TIME_Absolute) (rs ws : GNUNET_NETWORK_FDSet)
  : outcome (bool * Task) :=
  let r := if abs_value (timeout task) <=? abs_value now
           then Z.lor (reason task) GNUNET_SCHEDULER_REASON_TIMEOUT else reason task in
  '(r, rset) ← fd_ready GNUNET_SCHEDULER_REASON_READ_READY r (read_fd task) (read_set task) rs;
  '(r, wset) ← fd_ready GNUNET_SCHEDULER_REASON_WRITE_READY r (write_fd task) (write_set task) ws;
  let task := set_sets task rset wset in
  if r =? 0 then Ret (false, task)
  else Ret (true, set_reason task (Z.lor r GNUNET_SCHEDULER_REASON_PREREQ_DONE)).

Definition queue_ready_task (st : scheduler) (task : Task) : outcome scheduler :=
  p ← check_priority (if negb (Z.land (reason task) GNUNET_SCHEDULER_REASON_SHUTDOWN =? 0)
                      then GNUNET_SCHEDULER_PRIORITY_SHUTDOWN else priority task);
  q ← of_option (ready st !! Z.to_nat p);
  Ret (set_ready st (<[Z.to_nat p := task :: q]> (ready st)) (u32 (ready_count st + 1))).

(** The first loop of [check_ready]; [l] is [pending_timeout]. *)
Fixpoint check_timeouts (now : GNUNET_TIME_Absolute) (l : list Task) (st : scheduler)
  : outcome scheduler :=
  match l with
  | [] => Ret st
  | pos :: next =>
      let pos := if abs_value (timeout pos) <=? abs_value now
                 then or_reason GNUNET_SCHEDULER_REASON_TIMEOUT pos else pos in
      if reason pos =? 0 then Ret st
      else
        st ← queue_ready_task
          (set_timeouts st next (if decide (pending_timeout_last st = Some (id pos)) then None
                                 else pending_timeout_last st)) pos;
        check_timeouts now next st
  end.

(** The second loop: the tasks that stay in [pending], and the state *)
Fixpoint check_pending (now : GNUNET_TIME_Absolute) (rs ws : GNUNET_NETWORK_FDSet)
  (l : list Task) (st : scheduler) : outcome (list Task * scheduler) :=
  match l with
  | [] => Ret ([], st)
  | pos :: next =>
      '(r, pos) ← is_ready pos now rs ws;
      if r : bool then
        st ← queue_ready_task st pos;
        check_pending now rs ws next st
      else
        '(l, st) ← check_pending now rs ws next st;
        Ret (pos :: l, st)
  end.

Definition check_ready (st : scheduler) (now : GNUNET_TIME_Absolute)
  (rs ws : GNUNET_NETWORK_FDSet) : outcome scheduler :=
  st ← check_timeouts now (pending_timeout st) st;
  '(l, st) ← check_pending now rs ws (pending st) st;
  Ret (set_pending st l).

Definition GNUNET_SCHEDULER_shutdown (st : scheduler) : scheduler :=
  let mark := fmap (or_reason GNUNET_SCHEDULER_REASON_SHUTDOWN) in
  let st := set_timeouts st (mark (pending_timeout st)) (pending_timeout_last st) in
  let st := set_pending st (mark (pending st)) in
  set_ready st (mark <$> ready st) (ready_count st).

Definition check_lifeness (st : scheduler) : Z * scheduler :=
  let alive := existsb (fun t => lifeness t =? GNUNET_YES) in
  if 0 <? ready_count st then (GNUNET_OK, st)
  else if alive (pending st) then (GNUNET_OK, st)
  else if alive (pending_timeout st) then (GNUNET_OK, st)
  else match pending st, pending_timeout st with
       | [], [] => (GNUNET_NO, st)
       | _, _ => (GNUNET_OK, GNUNET_SCHEDULER_shutdown st)
       end.

(** ** The interface for tasks *)

Definition GNUNET_SCHEDULER_get_reason (st : scheduler) : outcome Z :=
  match active_task st with
  | NoTask => AssertFailed
  | Dummy => Undefined
  | Running t => Ret (reason t)
  end.

Definition GNUNET_SCHEDULER_get_load (st : scheduler) (p : Z) : outcome Z :=
  _ ← gnunet_assert (is_active st);
  if p =? GNUNET_SCHEDULER_PRIORITY_COUNT then Ret (ready_count st)
  else
    p ← check_priority (if p =? GNUNET_SCHEDULER_PRIORITY_KEEP then current_priority st else p);
    q ← of_option (ready st !! Z.to_nat p);
    Ret (u32 (Z.of_nat (length q))).

(** Position of task [i] *)
Definition find_task (i : Z) (l : list Task) : option (nat * Task) := list_find (fun t => id t = i) l.

(** The loop over the queues of [cancel], from priority [p] on *)
Fixpoint cancel_ready (i : Z) (p : nat) (qs : list (list Task)) : option (nat * nat * Task) :=
  match qs with
  | [] => None
  | q :: qs' =>
      match find_task i q with
      | Some (k, t) => Some (p, k, t)
      | None => cancel_ready i (S p) qs'
      end
  end.

Definition GNUNET_SCHEDULER_cancel (st : scheduler) (task : Z) : outcome (nat * scheduler) :=
  _ ← gnunet_assert (is_active st);
  match find_task task (pending st) with
  | Some (k, t) => Ret (callback_cls t, set_pending st (delete k (pending st)))
  | None =>
      match find_task task (pending_timeout st) with
      | Some (k, t) =>
          let last := if decide (pending_timeout_last st = Some (id t)) then None
                      else pending_timeout_last st in
          Ret (callback_cls t, set_timeouts st (delete k (pending_timeout st)) last)
      | None =>
          match cancel_ready task 1 (tail (ready st)) with
          | Some (p, k, t) =>
              q ← of_option (ready st !! p);
              Ret (callback_cls t,
                   set_ready st (<[p := delete k q]> (ready st)) (u32 (ready_count st - 1)))
          | None => AssertFailed
          end
      end
  end.

Definition GNUNET_SCHEDULER_add_continuation_with_priority (st : scheduler) (task cls : nat)
  (reason priority : Z) : outcome scheduler :=
  _ ← gnunet_assert (negb (task =? 0)%nat);
  _ ← gnunet_assert (is_active st || (reason =? GNUNET_SCHEDULER_REASON_STARTUP));
  let st := set_last_id st (u64 (last_id st + 1)) in
  queue_ready_task st (mk_task task cls None None (last_id st) (mk_abs 0) reason priority (-1) (-1)
                         (current_lifeness st)).

Definition GNUNET_SCHEDULER_add_continuation (st : scheduler) (task cls : nat) (reason : Z)
  : outcome scheduler :=
  GNUNET_SCHEDULER_add_continuation_with_priority st task cls reason
    GNUNET_SCHEDULER_PRIORITY_DEFAULT.

(** The traversal of [add_delayed_with_priority] from the node [pos] on *)
Fixpoint insert_timeout (t : Task) (pos : list Task) : list Task :=
  match pos with
  | p :: next =>
      if (abs_value (timeout p) <=? abs_value (timeout t)) || negb (reason p =? 0)
      then p :: insert_timeout t next else t :: pos
  | [] => [t]
  end.

(** Where the traversal starts: after [pending_timeout_last] if its timeout is not
    later, otherwise at the head *)
Definition start_position (st : scheduler) (t : Task) : outcome nat :=
  match pending_timeout_last st with
  | None => Ret O
  | Some i =>
      '(k, prev) ← of_option (find_task i (pending_timeout st));
      Ret (if abs_value (timeout t) <? abs_value (timeout prev) then O else S k)
  end.

Definition GNUNET_SCHEDULER_add_delayed_with_priority (now : GNUNET_TIME_Absolute)
  (st : scheduler) (delay : GNUNET_TIME_Relative) (priority : Z) (task cls : nat)
  : outcome (Z * scheduler) :=
  _ ← gnunet_assert (is_active st);
  _ ← gnunet_assert (negb (task =? 0)%nat);
  let st := set_last_id st (u64 (last_id st + 1)) in
  let t := mk_task task cls None None (last_id st) (GNUNET_TIME_relative_to_absolute now delay)
             0 priority (-1) (-1) (current_lifeness st) in
  k ← start_position st t;
  let l := pending_timeout st in
  Ret (id t, set_timeouts st (take k l ++ insert_timeout t (drop k l)) (Some (id t))).

Definition GNUNET_SCHEDULER_add_delayed (now : GNUNET_TIME_Absolute) (st : scheduler)
  (delay : GNUNET_TIME_Relative) (task cls : nat) : outcome (Z * scheduler) :=
  GNUNET_SCHEDULER_add_delayed_with_priority now st delay GNUNET_SCHEDULER_PRIORITY_DEFAULT task cls.

Definition GNUNET_SCHEDULER_add_now (now : GNUNET_TIME_Absolute) (st : scheduler) (task cls : nat)
  : outcome (Z * scheduler) :=
  GNUNET_SCHEDULER_add_delayed now st GNUNET_TIME_UNIT_ZERO task cls.

(** The end of [add_without_sets] and [add_select]: the new task, a function [t] of its
    identifier and priority, is put in front of [pending]. *)
Definition add_pending (st : scheduler) (t : Z -> Z -> Task) (prio : Z) : outcome (Z * scheduler) :=
  let st := set_last_id st (u64 (last_id st + 1)) in
  p ← check_priority (if prio =? GNUNET_SCHEDULER_PRIORITY_KEEP then current_priority st else prio);
  let t := t (last_id st) p in
  Ret (id t, set_max_priority (set_pending st (t :: pending st)) (Z.max (max_priority_added st) p)).

Definition add_without_sets (now : GNUNET_TIME_Absolute) (st : scheduler)
  (delay : GNUNET_TIME_Relative) (priority rfd wfd : Z) (task cls : nat) : outcome (Z * scheduler) :=
  _ ← gnunet_assert (is_active st);
  _ ← gnunet_assert (negb (task =? 0)%nat);
  _ ← gnunet_assert (-1 <=? wfd);
  add_pending st (fun i p => mk_task task cls None None i
    (GNUNET_TIME_relative_to_absolute now delay) 0 p rfd wfd (current_lifeness st)) priority.

Definition GNUNET_SCHEDULER_add_read_net_with_priority (now : GNUNET_TIME_Absolute)
  (st : scheduler) (delay : GNUNET_TIME_Relative) (priority rfd : Z) (task cls : nat) :=
  add_without_sets now st delay priority rfd (-1) task cls.

Definition GNUNET_SCHEDULER_add_read_net (now : GNUNET_TIME_Absolute) (st : scheduler)
  (delay : GNUNET_TIME_Relative) (rfd : Z) (task cls : nat) :=
  GNUNET_SCHEDULER_add_read_net_with_priority now st delay GNUNET_SCHEDULER_PRIORITY_DEFAULT
    rfd task cls.

Definition GNUNET_SCHEDULER_add_write_net (now : GNUNET_TIME_Absolute) (st : scheduler)
  (delay : GNUNET_TIME_Relative) (wfd : Z) (task cls : nat) : outcome (Z * scheduler) :=
  _ ← gnunet_assert (0 <=? wfd);
  add_without_sets now st delay GNUNET_SCHEDULER_PRIORITY_DEFAULT (-1) wfd task cls.

Definition GNUNET_SCHEDULER_add_read_file (now : GNUNET_TIME_Absolute) (st : scheduler)
  (delay : GNUNET_TIME_Relative) (fd : Z) (task cls : nat) :=
  add_without_sets now st delay GNUNET_SCHEDULER_PRIORITY_DEFAULT fd (-1) task cls.

Definition GNUNET_SCHEDULER_add_write_file (now : GNUNET_TIME_Absolute) (st : scheduler)
  (delay : GNUNET_TIME_Relative) (fd : Z) (task cls : nat) : outcome (Z * scheduler) :=
  _ ← gnunet_assert (0 <=? fd);
  add_without_sets now st delay GNUNET_SCHEDULER_PRIORITY_DEFAULT (-1) fd task cls.

Definition GNUNET_SCHEDULER_add_select (now : GNUNET_TIME_Absolute) (st : scheduler) (prio : Z)
  (delay : GNUNET_TIME_Relative) (rs ws : option GNUNET_NETWORK_FDSet) (task cls : nat)
  : outcome (Z * scheduler) :=
  _ ← gnunet_assert (is_active st);
  _ ← gnunet_assert (negb (task =? 0)%nat);
  let copy := fmap (GNUNET_NETWORK_fdset_copy GNUNET_NETWORK_fdset_create) in
  add_pending st (fun i p => mk_task task cls (copy rs) (copy ws) i
    (GNUNET_TIME_relative_to_absolute now delay) 0 p (-1) (-1) (current_lifeness st)) prio.

Definition GNUNET_SCHEDULER_add_with_priority (now : GNUNET_TIME_Absolute) (st : scheduler)
  (prio : Z) (task cls : nat) : outcome (Z * scheduler) :=
  GNUNET_SCHEDULER_add_select now st prio GNUNET_TIME_UNIT_ZERO None None task cls.

Definition GNUNET_SCHEDULER_add_now_with_lifeness (now : GNUNET_TIME_Absolute) (st : scheduler)
  (lifeness : Z) (task cls : nat) : outcome (Z * scheduler) :=
  '(ret, st) ← GNUNET_SCHEDULER_add_select now st GNUNET_SCHEDULER_PRIORITY_DEFAULT
                 GNUNET_TIME_UNIT_ZERO None None task cls;
  match pending st with
  | [] => Undefined
  | t :: l =>
      _ ← gnunet_assert (id t =? ret);
      Ret (ret, set_pending st (set_lifeness t lifeness :: l))
  end.

(** ** Callbacks as programs of calls *)

Inductive call :=
  | AddContinuation (task cls : nat) (reason priority : Z)
  | AddDelayed (delay : GNUNET_TIME_Relative) (priority : Z) (task cls : nat)
  | AddFd (delay : GNUNET_TIME_Relative) (priority rfd wfd : Z) (task cls : nat)
  | AddSelect (prio : Z) (delay : GNUNET_TIME_Relative)
      (rs ws : option GNUNET_NETWORK_FDSet) (task cls : nat)
  | AddNowWithLifeness (lifeness : Z) (task cls : nat)
  | Cancel (task : Z)
  | Shutdown
  | GetReason
  | GetLoad (p : Z).

(** The value that a call returns, and the state *)
Definition api (now : GNUNET_TIME_Absolute) (st : scheduler) (c : call) : outcome (Z * scheduler) :=
  match c with
  | AddContinuation task cls r p =>
      st ← GNUNET_SCHEDULER_add_continuation_with_priority st task cls r p; Ret (0, st)
  | AddDelayed d p task cls => GNUNET_SCHEDULER_add_delayed_with_priority now st d p task cls
  | AddFd d p rfd wfd task cls => add_without_sets now st d p rfd wfd task cls
  | AddSelect p d rs ws task cls => GNUNET_SCHEDULER_add_select now st p d rs ws task cls
  | AddNowWithLifeness l task cls => GNUNET_SCHEDULER_add_now_with_lifeness now st l task cls
  | Cancel i => '(cls, st) ← GNUNET_SCHEDULER_cancel st i; Ret (Z.of_nat cls, st)
  | Shutdown => Ret (0, GNUNET_SCHEDULER_shutdown st)
  | GetReason => r ← GNUNET_SCHEDULER_get_reason st; Ret (r, st)
  | GetLoad p => n ← GNUNET_SCHEDULER_get_load st p; Ret (n, st)
  end.

Inductive prog (W : Type) :=
  | Done (w : W)
  | Call (now : GNUNET_TIME_Absolute) (c : call) (k : Z -> prog W).
Arguments Done {W} w.
Arguments Call {W} now c k.

Fixpoint exec {W} (p : prog W) (st : scheduler) : outcome (scheduler * W) :=
  match p with
  | Done w => Ret (st, w)
  | Call now c k => '(r, st) ← api now st c; exec (k r) st
  end.

(** ** Running tasks *)

Record GNUNET_SCHEDULER_TaskContext := mk_tc {
  tc_reason : Z;
  read_ready : GNUNET_NETWORK_FDSet;
  write_ready : GNUNET_NETWORK_FDSet
}.

(** The loop that finds the non-empty queue of highest priority, from [p] down to 1:
    the priority, its first task and the rest of the queue *)
Fixpoint highest_ready (ready : list (list Task)) (p : nat) : option (nat * Task * list Task) :=
  match p with
  | O => None
  | S p' =>
      match ready !! p with
      | Some (pos :: next) => Some (p, pos, next)
      | _ => highest_ready ready p'
      end
  end.

Section Run.
Context {W : Type}.
(** The effect of [pos->callback (pos->callback_cls, &tc)] *)
Context (run_callback : W -> Task -> GNUNET_SCHEDULER_TaskContext -> prog W).

(** One pass of the loop of [run_ready], from the choice of the task on *)
Definition run_task (st : scheduler) (w : W) (rs ws : GNUNET_NETWORK_FDSet)
  : outcome (scheduler * W * GNUNET_NETWORK_FDSet * GNUNET_NETWORK_FDSet * (nat * Task)) :=
  keep ← of_option (ready st !! 0%nat);
  _ ← gnunet_assert (bool_decide (keep = []));
  match highest_ready (ready st) (Z.to_nat (GNUNET_SCHEDULER_PRIORITY_COUNT - 1)) with
  | None => AssertFailed
  | Some (p, pos, next) =>
      let st := set_ready st (<[p := next]> (ready st)) (u32 (ready_count st - 1)) in
      let st := set_current st (priority pos) (lifeness pos) in
      let st := set_active st (Running pos) in
      rs ← (if negb (read_fd pos =? -1)
               && negb (Z.land (reason pos) GNUNET_SCHEDULER_REASON_READ_READY =? 0)
            then GNUNET_NETWORK_fdset_set_native rs (read_fd pos) else Ret rs);
      ws ← (if negb (write_fd pos =? -1)
               && negb (Z.land (reason pos) GNUNET_SCHEDULER_REASON_WRITE_READY =? 0)
            then GNUNET_NETWORK_fdset_set_native ws (write_fd pos) else Ret ws);
      _ ← (if negb (Z.land (reason pos) GNUNET_SCHEDULER_REASON_WRITE_READY =? 0)
              && negb (write_fd pos =? -1)
           then b ← GNUNET_NETWORK_fdset_test_native (Some ws) (write_fd pos); gnunet_assert b
           else Ret tt);
      let tc := mk_tc (reason pos) (default rs (read_set pos)) (default ws (write_set pos)) in
      '(st, w) ← exec (run_callback w pos tc) st;
      let st := set_active st NoTask in
      Ret (set_tasks_run st (u64 (tasks_run st + 1)), w, rs, ws, (p, pos))
  end.

(** The loop of [run_ready]: whether it has ended within [fuel] passes, and the tasks
    that were run, each with the queue it was taken from *)
Fixpoint run_loop (fuel : nat) (st : scheduler) (w : W) (rs ws : GNUNET_NETWORK_FDSet)
  : outcome (bool * scheduler * W * GNUNET_NETWORK_FDSet * GNUNET_NETWORK_FDSet * list (nat * Task)) :=
  match fuel with
  | O => Ret (false, st, w, rs, ws, [])
  | S fuel =>
      if ready_count st =? 0 then Ret (true, st, w, rs, ws, [])
      else
        '(st, w, rs, ws, (p, pos)) ← run_task st w rs ws;
        if bool_decide (pending st = []) || (max_priority_added st <=? Z.of_nat p)
        then '(b, st, w, rs, ws, l) ← run_loop fuel st w rs ws; Ret (b, st, w, rs, ws, (p, pos) :: l)
        else Ret (true, st, w, rs, ws, [(p, pos)])
  end.

Definition run_ready (fuel : nat) (st : scheduler) (w : W) (rs ws : GNUNET_NETWORK_FDSet) :=
  run_loop fuel (set_max_priority st GNUNET_SCHEDULER_PRIORITY_KEEP) w rs ws.

(** ** The main loop *)

(** [select] fails, interrupted or not, or leaves the ready descriptors in the sets. *)
Inductive select_result :=
  | SelectError (eintr : bool)
  | Selected (rs ws : gset Z).

(** What the operating system does in one round: the clock in [update_sets] and in
    [check_ready], and [select] *)
Record round := mk_round {
  clock_update : GNUNET_TIME_Absolute;
  clock_check : GNUNET_TIME_Absolute;
  select : GNUNET_NETWORK_FDSet -> GNUNET_NETWORK_FDSet -> GNUNET_TIME_Relative -> select_result
}.

(** The body of the loop of [GNUNET_SCHEDULER_run] after [check_lifeness]: whether
    [run_ready] has ended, the state and the tasks that were run *)
Definition main_round (fuel : nat) (pr : Z) (r : round) (st : scheduler) (w : W)
  : outcome (bool * scheduler * W * list (nat * Task)) :=
  '(rs, ws, to) ← update_sets st (clock_update r) GNUNET_NETWORK_fdset_zero
                    GNUNET_NETWORK_fdset_zero GNUNET_TIME_UNIT_FOREVER_REL;
  rs ← GNUNET_NETWORK_fdset_handle_set rs pr;
  let to := if 0 <? ready_count st then GNUNET_TIME_UNIT_ZERO else to in
  match select r rs ws to with
  | SelectError true => Ret (true, st, w, [])
  | SelectError false => AssertFailed
  | Selected rds wds =>
      let rs := mk_fdset (nsds rs) rds in
      let ws := mk_fdset (nsds ws) wds in
      st ← check_ready st (clock_check r) rs ws;
      '(b, st, w, rs, ws, l) ← run_ready fuel st w rs ws;
      if b : bool then
        sig ← GNUNET_NETWORK_fdset_handle_isset rs pr;
        Ret (true, if sig : bool then GNUNET_SCHEDULER_shutdown st else st, w, l)
      else Ret (false, st, w, l)
  end.

(** The loop: whether the scheduler has returned because there are no tasks left, the
    state and the tasks that were run in the given rounds *)
Fixpoint main_loop (fuel : nat) (pr : Z) (rounds : list round) (st : scheduler) (w : W)
  : outcome (bool * scheduler * W * list (nat * Task)) :=
  match rounds with
  | [] => Ret (false, st, w, [])
  | r :: rounds =>
      let '(ok, st) := check_lifeness st in
      if negb (ok =? GNUNET_OK) then Ret (true, st, w, [])
      else
        '(b, st, w, l) ← main_round fuel pr r st w;
        if b : bool then
          '(e, st, w, l') ← main_loop fuel pr rounds st w;
          Ret (e, st, w, l ++ l')
        else Ret (false, st, w, l)
  end.

(** [GNUNET_SCHEDULER_run] before its loop; [parent_control] is the task
    [GNUNET_OS_install_parent_control_handler]. *)
Definition scheduler_start (now : GNUNET_TIME_Absolute) (st : scheduler) (task cls parent_control : nat)
  : outcome scheduler :=
  _ ← gnunet_assert (negb (is_active st));
  let st := set_current st GNUNET_SCHEDULER_PRIORITY_DEFAULT GNUNET_YES in
  st ← GNUNET_SCHEDULER_add_continuation st task cls GNUNET_SCHEDULER_REASON_STARTUP;
  '(_, st) ← GNUNET_SCHEDULER_add_now_with_lifeness now (set_active st Dummy) GNUNET_NO parent_control 0;
  Ret (set_active st NoTask).

Definition GNUNET_SCHEDULER_run (now : GNUNET_TIME_Absolute) (fuel : nat) (pr : Z)
  (rounds : list round) (task cls parent_control : nat) (w : W)
  : outcome (bool * scheduler * W * list (nat * Task)) :=
  st ← scheduler_start now sched_init task cls parent_control;
  main_loop fuel pr rounds st w.

End Run.
