(* ===== verification/SchedulerSpec.v ===== *)
(** * Properties of the scheduler

    The specification is a bag of tasks: a call adds a task with a new identifier or
    takes one out, and running takes one out.  The scheduler refines it: it neither
    loses, duplicates nor changes a task on its way through its queues, and no
    assertion fails as long as the callbacks keep to the documented interface. *)

From Stdlib Require Import ZArith Lia.
From stdpp Require Import base list numbers sorting gmap.
From S2P Require Import Prelude Time FdSet Scheduler.
Local Open Scope Z_scope.

(** ** The invariant *)

Definition live (st : scheduler) : list Task :=
  pending st ++ pending_timeout st ++ concat (ready st).

Definition fd_ok (fd : Z) : Prop := fd = -1 \/ is_fd fd.
Definition set_ok (s : option GNUNET_NETWORK_FDSet) : Prop := forall s', s = Some s' -> fdset_ok s'.

Record task_ok (t : Task) : Prop := {
  ok_priority : 1 <= priority t <= 7;
  ok_timeout : is_abs (timeout t);
  ok_read_fd : fd_ok (read_fd t);
  ok_write_fd : fd_ok (write_fd t);
  ok_read_set : set_ok (read_set t);
  ok_write_set : set_ok (write_set t)
}.

Definition earlier (t1 t2 : Task) : Prop := abs_value (timeout t1) <= abs_value (timeout t2).

(** Tasks that have a reason to run, then tasks that wait, by timeout *)
Definition timeouts_ok (l : list Task) : Prop :=
  exists A B, l = A ++ B /\ Forall (fun t => reason t <> 0) A
    /\ Forall (fun t => reason t = 0) B /\ StronglySorted earlier B.

(** Eight queues, the one of priority KEEP empty, that hold [n] tasks *)
Record queues_ok (qs : list (list Task)) (n : Z) : Prop := {
  q_length : length qs = 8%nat;
  q_keep : qs !! 0%nat = Some [];
  q_count : n = u32 (Z.of_nat (length (concat qs)))
}.

(** Distinct identifiers of at most [n] *)
Definition ids_ok (l : list Task) (n : Z) : Prop :=
  NoDup (id <$> l) /\ Forall (fun t => 0 < id t <= n) l.

Record sched_inv (st : scheduler) : Prop := {
  inv_queues : queues_ok (ready st) (ready_count st);
  inv_tasks : Forall task_ok (live st);
  inv_ids : ids_ok (live st) (last_id st);
  inv_last_id : 0 <= last_id st < 2 ^ 64;
  inv_timeouts : timeouts_ok (pending_timeout st);
  inv_last : forall i, pending_timeout_last st = Some i -> i ∈ id <$> pending_timeout st;
  inv_priority : is_active st = true -> 1 <= current_priority st <= 7
}.

(** ** The specification *)

(** What never changes in a task *)
Definition core (t : Task) : Task := set_reason (set_sets t None None) 0.

Inductive label := Added (t : Task) | Cancelled (t : Task) | Ran (t : Task).

(** The tasks, and the last identifier that was given *)
Definition bag : Type := list Task * Z.

Inductive bag_step : bag -> label -> bag -> Prop :=
  | bag_add L n t L' :
      id t = n + 1 -> L' ≡ₚ core t :: L -> bag_step (L, n) (Added (core t)) (L', n + 1)
  | bag_cancel L n t L' :
      L ≡ₚ core t :: L' -> bag_step (L, n) (Cancelled (core t)) (L', n)
  | bag_run L n t L' :
      L ≡ₚ core t :: L' -> bag_step (L, n) (Ran (core t)) (L', n).

Inductive bag_steps : bag -> list label -> bag -> Prop :=
  | steps_nil L L' n : L ≡ₚ L' -> bag_steps (L, n) [] (L', n)
  | steps_cons b l b' tr b'' :
      bag_step b l b' -> bag_steps b' tr b'' -> bag_steps b (l :: tr) b''.

Definition bag_of (st : scheduler) : bag := (core <$> live st, last_id st).

(** What a call may do: identifiers are left, priorities are of the documented range
    (no KEEP where the scheduler does not resolve it), descriptors can be selected on,
    the callback is not [NULL], and a task that is cancelled has not run. *)
Definition may_add (st : scheduler) (task : nat) : Prop :=
  last_id st + 1 < 2 ^ 64 /\ task <> 0%nat.

Definition call_ok (st : scheduler) (c : call) : Prop :=
  match c with
  | AddContinuation task _ _ p => may_add st task /\ 1 <= p <= 7
  | AddDelayed _ p task _ => may_add st task /\ 1 <= p <= 7
  | AddFd _ p rfd wfd task _ => may_add st task /\ 0 <= p <= 7 /\ fd_ok rfd /\ fd_ok wfd
  | AddSelect p _ rs ws task _ => may_add st task /\ 0 <= p <= 7 /\ set_ok rs /\ set_ok ws
  | AddNowWithLifeness _ task _ => may_add st task
  | Cancel i => i ∈ id <$> live st
  | Shutdown | GetReason => True
  | GetLoad p => 0 <= p <= 8
  end.

Fixpoint prog_ok {W} (p : prog W) (st : scheduler) : Prop :=
  match p with
  | Done _ => True
  | Call now c k =>
      call_ok st c /\ forall r st', api now st c = Ret (r, st') -> prog_ok (k r) st'
  end.

(** ** Cores and identifiers *)

Lemma core_reason t r : core (set_reason t r) = core t.
Proof. done. Qed.
Lemma core_or_reason r t : core (or_reason r t) = core t.
Proof. done. Qed.
Lemma core_core t : core (core t) = core t.
Proof. done. Qed.

Lemma ids_cores (l : list Task) : id <$> l = id <$> (core <$> l).
Proof. rewrite <- list_fmap_compose. by apply list_fmap_ext. Qed.

Lemma ids_bound (l : list Task) n : Forall (fun t => 0 < id t <= n) l <-> Forall (fun i => 0 < i <= n) (id <$> l).
Proof. by rewrite Forall_fmap. Qed.

Lemma ids_ok_cores (l l' : list Task) n : core <$> l ≡ₚ core <$> l' -> ids_ok l n -> ids_ok l' n.
Proof.
  unfold ids_ok. rewrite !ids_bound, !(ids_cores l), !(ids_cores l'). intros Hp. by rewrite Hp.
Qed.

Lemma ids_ok_cons t l n : ids_ok l n -> id t = n + 1 -> 0 <= n -> ids_ok (t :: l) (n + 1).
Proof.
  intros [Hn Hb] Ht H0. split.
  - cbn. constructor; [ | done ]. rewrite list_elem_of_fmap. intros (t' & Heq & Hin).
    rewrite Forall_forall in Hb. apply Hb in Hin. lia.
  - constructor; [ lia | ]. eapply Forall_impl; [ exact Hb | ]. cbn. lia.
Qed.

Lemma ids_ok_tail t l n : ids_ok (t :: l) n -> ids_ok l n.
Proof. intros [Hn Hb]. cbn in Hn. inversion_clear Hn. inversion_clear Hb. done. Qed.

(** ** The queues *)

Lemma u32_add a b : u32 (u32 a + b) = u32 (a + b).
Proof. unfold u32. by rewrite Zplus_mod_idemp_l. Qed.

Lemma concat_insert {A} (qs : list (list A)) p q q' :
  qs !! p = Some q ->
  exists pre post, concat qs = pre ++ q ++ post /\ concat (<[p := q']> qs) = pre ++ q' ++ post.
Proof.
  intros Hp. exists (concat (take p qs)), (concat (drop (S p) qs)).
  pose proof (lookup_lt_Some _ _ _ Hp). rewrite insert_take_drop by done.
  split; [ rewrite <- (take_drop_middle qs p q Hp) at 1 | ]; rewrite concat_app; done.
Qed.

Lemma queues_lookup qs n p : queues_ok qs n -> 0 <= p <= 7 -> exists q, qs !! Z.to_nat p = Some q.
Proof. intros [Hl _ _] Hp. apply lookup_lt_is_Some_2. lia. Qed.

(** The queue of a task that becomes ready *)
Definition queue_of (t : Task) : Z :=
  if negb (Z.land (reason t) GNUNET_SCHEDULER_REASON_SHUTDOWN =? 0)
  then GNUNET_SCHEDULER_PRIORITY_SHUTDOWN else priority t.

Lemma queue_of_range t : 1 <= priority t <= 7 -> 1 <= queue_of t <= 7.
Proof. unfold queue_of, GNUNET_SCHEDULER_PRIORITY_SHUTDOWN. destruct (negb _); lia. Qed.

Lemma queue_ready_task_ok st t :
  queues_ok (ready st) (ready_count st) -> 1 <= priority t <= 7 ->
  exists q qs n, ready st !! Z.to_nat (queue_of t) = Some q
    /\ qs = <[Z.to_nat (queue_of t) := t :: q]> (ready st)
    /\ queue_ready_task st t = Ret (set_ready st qs n)
    /\ queues_ok qs n /\ concat qs ≡ₚ t :: concat (ready st).
Proof.
  intros Hq Hp. apply queue_of_range in Hp.
  destruct (queues_lookup _ _ (queue_of t) Hq) as [q Hlook]; [ lia | ].
  destruct (concat_insert _ _ q (t :: q) Hlook) as (pre & post & H1 & H2).
  assert (Hperm : concat (<[Z.to_nat (queue_of t) := t :: q]> (ready st)) ≡ₚ t :: concat (ready st))
    by (rewrite H1, H2; cbn; symmetry; apply Permutation_middle).
  exists q, (<[Z.to_nat (queue_of t) := t :: q]> (ready st)), (u32 (ready_count st + 1)).
  split_and!; [ done | done | | | done ].
  - unfold queue_ready_task. fold (queue_of t). unfold check_priority, GNUNET_SCHEDULER_PRIORITY_COUNT.
    rewrite (proj2 (Z.leb_le _ _)), (proj2 (Z.ltb_lt _ _)) by lia. cbn [andb mbind outcome_bind].
    by rewrite Hlook.
  - destruct Hq as [Hl Hk Hc]. split.
    + by rewrite length_insert.
    + rewrite list_lookup_insert_ne by lia. done.
    + rewrite Hperm, Hc, u32_add. cbn [length]. f_equal. lia.
Qed.

(** ** Becoming ready *)

Lemma lor_bit a b : Z.land a (2 ^ b) <> 0 -> 0 <= b -> Z.lor a (2 ^ b) = a.
Proof.
  intros Ha Hb. apply Z.bits_inj'. intros i Hi. rewrite Z.lor_spec.
  destruct (decide (i = b)) as [->|Hne].
  - rewrite Z.pow2_bits_true, orb_true_r by done. symmetry.
    destruct (Z.testbit a b) eqn:E; [ done | ]. exfalso. apply Ha. apply Z.bits_inj'.
    intros j Hj. rewrite Z.land_spec, Z.bits_0, Z.pow2_bits_eqb by done.
    destruct (Z.eqb_spec b j); [ subst; by rewrite E | apply andb_false_r ].
  - rewrite Z.pow2_bits_false by lia. apply orb_false_r.
Qed.

(** The descriptor [fd] or a member of [set] is in the set that [select] returned. *)
Definition ready_in (s : GNUNET_NETWORK_FDSet) (fd : Z) (set : option GNUNET_NETWORK_FDSet) : bool :=
  (negb (fd =? -1) && bool_decide (fd ∈ sds s))
  || match set with Some s' => bool_decide (sds s ∩ sds s' <> ∅) | None => false end.

Definition bit_if (b : bool) (r : Z) : Z := if b then r else 0.

Lemma bit_if_0 b r : r <> 0 -> bit_if b r = 0 -> b = false.
Proof. by destruct b. Qed.

Lemma fd_ready_ok b r fd set s :
  0 <= b -> fd_ok fd -> set_ok set -> fdset_ok s ->
  exists set', fd_ready (2 ^ b) r fd set s = Ret (Z.lor r (bit_if (ready_in s fd set) (2 ^ b)), set')
    /\ set_ok set' /\ (ready_in s fd set = false -> set' = set).
Proof.
  intros Hb Hfd Hset Hs. unfold fd_ready.
  destruct (Z.eqb_spec (Z.land r (2 ^ b)) 0) as [Hr|Hr].
  2:{ exists set. split_and!; [ | done | done ]. f_equal. f_equal.
      unfold bit_if. destruct (ready_in s fd set); [ by rewrite lor_bit | by rewrite Z.lor_0_r ]. }
  assert (Ht : (if negb (fd =? -1) then GNUNET_NETWORK_fdset_test_native (Some s) fd else Ret false)
    = Ret (negb (fd =? -1) && bool_decide (fd ∈ sds s))).
  { destruct (Z.eqb_spec fd (-1)); [ done | ]. destruct Hfd as [|Hfd]; [ done | ].
    rewrite test_native_ok by (unfold is_fd in Hfd; lia). done. }
  rewrite Ht. cbn [mbind outcome_bind]. unfold ready_in, bit_if.
  destruct (negb (fd =? -1) && bool_decide (fd ∈ sds s)); cbn [orb].
  { exists set. done. }
  destruct set as [s'|]; cbn [set_overlaps mbind outcome_bind].
  2:{ exists None. rewrite Z.lor_0_r. done. }
  rewrite overlap_ok by (done || by apply Hset). cbn [mbind outcome_bind].
  case_bool_decide; cbn [mbind outcome_bind].
  - eexists. split_and!; [ done | | done ]. intros s'' [= <-]. by destruct s.
  - exists (Some s'). rewrite Z.lor_0_r. done.
Qed.

Definition timed_out (now : GNUNET_TIME_Absolute) (t : Task) : bool :=
  abs_value (timeout t) <=? abs_value now.

(** The reasons to run [t], PREREQ_DONE apart *)
Definition reasons (now : GNUNET_TIME_Absolute) (rs ws : GNUNET_NETWORK_FDSet) (t : Task) : Z :=
  Z.lor (Z.lor (Z.lor (reason t) (bit_if (timed_out now t) GNUNET_SCHEDULER_REASON_TIMEOUT))
    (bit_if (ready_in rs (read_fd t) (read_set t)) GNUNET_SCHEDULER_REASON_READ_READY))
    (bit_if (ready_in ws (write_fd t) (write_set t)) GNUNET_SCHEDULER_REASON_WRITE_READY).

(** [t'] is the task [t] on its way to a queue. *)
Record made_ready (r : Task -> Z) (t t' : Task) : Prop := {
  mr_core : core t' = core t;
  mr_reason : reason t' = r t;
  mr_ok : task_ok t'
}.

Lemma made_ready_cores r l l' : Forall2 (made_ready r) l l' -> core <$> l' = core <$> l.
Proof. induction 1 as [|t t' l l' Ht Hl IH]; cbn; [ done | ]. by rewrite IH, (mr_core _ _ _ Ht). Qed.

Lemma is_ready_ok t now rs ws :
  task_ok t -> fdset_ok rs -> fdset_ok ws ->
  exists t', is_ready t now rs ws = Ret (negb (reasons now rs ws t =? 0), t')
    /\ if reasons now rs ws t =? 0 then t' = t
       else made_ready (fun t => Z.lor (reasons now rs ws t) GNUNET_SCHEDULER_REASON_PREREQ_DONE) t t'.
Proof.
  intros [Hp Hto Hr Hw Hrs Hws] Hs1 Hs2. unfold is_ready.
  set (r0 := if abs_value (timeout t) <=? abs_value now then _ else _).
  assert (H0 : r0 = Z.lor (reason t) (bit_if (timed_out now t) GNUNET_SCHEDULER_REASON_TIMEOUT)).
  { unfold r0, bit_if, timed_out. destruct (_ <=? _); [ done | by rewrite Z.lor_0_r ]. }
  rewrite H0. clear r0 H0.
  destruct (fd_ready_ok 2 (Z.lor (reason t) (bit_if (timed_out now t) GNUNET_SCHEDULER_REASON_TIMEOUT))
    (read_fd t) (read_set t) rs) as (rset & Hr1 & Hr2 & Hr3); try done.
  change (2 ^ 2) with GNUNET_SCHEDULER_REASON_READ_READY in Hr1. rewrite Hr1. cbn [mbind outcome_bind].
  match goal with |- context [fd_ready _ ?r _ _ _] =>
    destruct (fd_ready_ok 3 r (write_fd t) (write_set t) ws) as (wset & Hw1 & Hw2 & Hw3); try done end.
  change (2 ^ 3) with GNUNET_SCHEDULER_REASON_WRITE_READY in Hw1. rewrite Hw1. cbn [mbind outcome_bind].
  fold (reasons now rs ws t). destruct (Z.eqb_spec (reasons now rs ws t) 0) as [H0|H0].
  - unfold reasons in H0. rewrite !Z.lor_eq_0_iff in H0. destruct H0 as [[_ HR] HW].
    apply bit_if_0 in HR, HW; try done. eexists. split; [ done | ].
    rewrite Hr3, Hw3 by done. by destruct t.
  - eexists. split; [ done | ]. split; [ done | done | ]. by split.
Qed.

(** *** Moving tasks to the queues *)

Definition in_queue (qs : list (list Task)) (p : nat) (t : Task) : Prop :=
  exists q, qs !! p = Some q /\ t ∈ q.

(** The tasks [ms] were put on the queues [qs0], which are now [qs]. *)
Record moved_to (qs0 : list (list Task)) (ms : list Task) (qs : list (list Task)) (n : Z) : Prop := {
  mt_ok : queues_ok qs n;
  mt_perm : concat qs ≡ₚ ms ++ concat qs0;
  mt_in : Forall (fun t => in_queue qs (Z.to_nat (queue_of t)) t) ms;
  mt_mono : forall p t, in_queue qs0 p t -> in_queue qs p t
}.

Lemma moved_to_nil qs n : queues_ok qs n -> moved_to qs [] qs n.
Proof. intros H. by split. Qed.

Lemma moved_to_trans qs0 a qs1 n1 b qs2 n2 :
  moved_to qs0 a qs1 n1 -> moved_to qs1 b qs2 n2 -> moved_to qs0 (a ++ b) qs2 n2.
Proof.
  intros [Ho1 Hp1 Hi1 Hm1] [Ho2 Hp2 Hi2 Hm2]. split; [ done | | | by auto ].
  - by rewrite Hp2, Hp1, app_assoc, (Permutation_app_comm b a).
  - apply Forall_app. split; [ | done ]. eapply Forall_impl; [ exact Hi1 | ]. cbn. auto.
Qed.

Lemma queue_ready_moved st t :
  queues_ok (ready st) (ready_count st) -> 1 <= priority t <= 7 ->
  exists qs n, queue_ready_task st t = Ret (set_ready st qs n) /\ moved_to (ready st) [t] qs n.
Proof.
  intros Hq Hp. destruct (queue_ready_task_ok st t Hq Hp) as (q & qs & n & Hl & Hqs & Hr & Hok & Hperm).
  exists qs, n. split; [ done | ]. pose proof (lookup_lt_Some _ _ _ Hl).
  split; [ done | done | | ].
  - constructor; [ | done ]. exists (t :: q). rewrite Hqs, list_lookup_insert_eq by done.
    split; [ done | by left ].
  - intros p t' (q' & Hq' & Hin). unfold in_queue. rewrite Hqs.
    destruct (decide (p = Z.to_nat (queue_of t))) as [->|Hne].
    + rewrite Hl in Hq'. injection Hq' as <-. exists (t :: q).
      rewrite list_lookup_insert_eq by done. split; [ done | by right ].
    + exists q'. by rewrite list_lookup_insert_ne.
Qed.

(** *** Timeouts *)

Definition timeout_reasons (now : GNUNET_TIME_Absolute) (t : Task) : Z :=
  Z.lor (reason t) (bit_if (timed_out now t) GNUNET_SCHEDULER_REASON_TIMEOUT).

Lemma mark_timeout now t :
  (if abs_value (timeout t) <=? abs_value now then or_reason GNUNET_SCHEDULER_REASON_TIMEOUT t else t)
  = set_reason t (timeout_reasons now t).
Proof.
  unfold timeout_reasons, timed_out, bit_if. destruct (_ <=? _); [ done | ].
  rewrite Z.lor_0_r. by destruct t.
Qed.

Lemma check_timeouts_ok now l : forall st,
  pending_timeout st = l -> queues_ok (ready st) (ready_count st) -> Forall task_ok l ->
  exists moved rest moved' qs n last,
    l = moved ++ rest
    /\ check_timeouts now l st = Ret (set_ready (set_timeouts st rest last) qs n)
    /\ Forall (fun t => timeout_reasons now t <> 0) moved
    /\ (forall t rest', rest = t :: rest' -> timeout_reasons now t = 0)
    /\ Forall2 (made_ready (timeout_reasons now)) moved moved'
    /\ moved_to (ready st) moved' qs n
    /\ (forall i, last = Some i -> pending_timeout_last st = Some i /\ i ∉ id <$> moved).
Proof.
  induction l as [|t l IH]; intros st Hst Hq Hok; cbn [check_timeouts].
  { exists [], [], [], (ready st), (ready_count st), (pending_timeout_last st).
    split_and!; try done.
    - f_equal. destruct st. cbn in *. by subst.
    - intros i Hi. split; [ done | ]. apply not_elem_of_nil. }
  rewrite mark_timeout. apply Forall_cons in Hok as [Ht Hok]. cbn [reason set_reason].
  destruct (Z.eqb_spec (timeout_reasons now t) 0) as [H0|H0].
  { exists [], (t :: l), [], (ready st), (ready_count st), (pending_timeout_last st).
    split_and!; try done.
    - f_equal. destruct st. cbn in *. by subst.
    - by intros t' rest' [= <- _].
    - intros i Hi. split; [ done | ]. apply not_elem_of_nil. }
  set (t' := set_reason t (timeout_reasons now t)). cbn [id set_reason].
  set (last' := if decide _ then _ else _).
  destruct (queue_ready_moved (set_timeouts st l last') t') as (qs & n & Hr & Hm); [ done | apply Ht | ].
  rewrite Hr. cbn [mbind outcome_bind].
  destruct (IH (set_ready (set_timeouts st l last') qs n)) as
    (moved & rest & moved' & qs' & n' & last & Hl & Hc & Hmv & Hhd & Hmr & Hmt & Hlast);
    [ done | apply Hm | done | ].
  exists (t :: moved), rest, (t' :: moved'), qs', n', last. split_and!.
  - by rewrite Hl.
  - rewrite Hc. done.
  - by constructor.
  - done.
  - constructor; [ | done ]. split; [ done | done | ]. by destruct Ht.
  - apply (moved_to_trans _ [t'] qs n moved' qs' n' Hm Hmt).
  - intros i Hi. destruct (Hlast i Hi) as [Hl1 Hl2]. cbn in Hl1. unfold last' in Hl1.
    destruct (decide _) as [Hd|Hd]; [ done | ]. split; [ done | ]. cbn.
    rewrite not_elem_of_cons. split; [ | done ]. intros ->. by apply Hd.
Qed.

(** *** [check_ready] *)

Lemma check_pending_ok now rs ws l : fdset_ok rs -> fdset_ok ws -> forall st,
  queues_ok (ready st) (ready_count st) -> Forall task_ok l ->
  exists moved' qs n,
    check_pending now rs ws l st = Ret (filter (fun t => reasons now rs ws t = 0) l, set_ready st qs n)
    /\ Forall2 (made_ready (fun t => Z.lor (reasons now rs ws t) GNUNET_SCHEDULER_REASON_PREREQ_DONE))
         (filter (fun t => reasons now rs ws t <> 0) l) moved'
    /\ moved_to (ready st) moved' qs n.
Proof.
  intros Hs1 Hs2. induction l as [|t l IH]; intros st Hq Hok; cbn [check_pending].
  { exists [], (ready st), (ready_count st). split_and!; [ by destruct st | constructor | by apply moved_to_nil ]. }
  apply Forall_cons in Hok as [Ht Hok].
  destruct (is_ready_ok t now rs ws Ht Hs1 Hs2) as (t' & Hr & Ht'). rewrite Hr. cbn [mbind outcome_bind].
  rewrite !filter_cons. destruct (Z.eqb_spec (reasons now rs ws t) 0) as [H0|H0]; cbn [negb].
  - subst t'. rewrite decide_True, decide_False by tauto.
    destruct (IH st Hq Hok) as (moved' & qs & n & Hc & Hmr & Hmt). rewrite Hc. cbn [mbind outcome_bind].
    by exists moved', qs, n.
  - rewrite decide_False, decide_True by done.
    destruct (queue_ready_moved st t' Hq) as (qs & n & Hqr & Hm); [ apply Ht' | ].
    rewrite Hqr. cbn [mbind outcome_bind].
    destruct (IH (set_ready st qs n)) as (moved' & qs' & n' & Hc & Hmr & Hmt); [ apply Hm | done | ].
    exists (t' :: moved'), qs', n'. rewrite Hc. split_and!; [ done | by constructor | ].
    apply (moved_to_trans _ [t'] qs n moved' qs' n' Hm Hmt).
Qed.

Lemma timeout_reasons_0 now t :
  timeout_reasons now t = 0 <-> reason t = 0 /\ abs_value now < abs_value (timeout t).
Proof.
  unfold timeout_reasons. rewrite Z.lor_eq_0_iff. unfold bit_if, timed_out.
  destruct (Z.leb_spec (abs_value (timeout t)) (abs_value now)); [ | intuition lia ].
  split; [ by intros [_ ?] | lia ].
Qed.

(** In a list with the invariant, the tasks behind one that has to wait wait as well. *)
Lemma timeouts_suffix A B :
  timeouts_ok (A ++ B) -> (forall t B', B = t :: B' -> reason t = 0) ->
  Forall (fun t => reason t = 0) B /\ StronglySorted earlier B.
Proof.
  intros (C & D & Heq & HC & HD & Hs) Hhd. destruct B as [|t B]; [ by repeat constructor | ].
  specialize (Hhd t B eq_refl).
  apply app_eq_inv in Heq as [(k & -> & Hk)|(k & -> & Hk)].
  - subst D. apply Forall_app in HD as [_ HD]. split; [ done | ].
    by eapply StronglySorted_app_1_r.
  - destruct k as [|t' k]; cbn in Hk; [ by subst D | ].
    injection Hk as <- ->. apply Forall_app in HC as [_ HC]. apply Forall_cons in HC as [? _]. done.
Qed.

(** What the loops do not touch *)
Definition same_frame (st st' : scheduler) : Prop :=
  last_id st' = last_id st /\ active_task st' = active_task st /\ tasks_run st' = tasks_run st
  /\ current_priority st' = current_priority st /\ max_priority_added st' = max_priority_added st
  /\ current_lifeness st' = current_lifeness st.

(** The tasks that have a reason to run, and no other, are now in the queue of their
    priority, with their reasons. *)
Record ready_spec (now : GNUNET_TIME_Absolute) (rs ws : GNUNET_NETWORK_FDSet)
  (st st' : scheduler) : Prop := {
  rd_pending : pending st' = filter (fun t => reasons now rs ws t = 0) (pending st);
  rd_timeouts : pending_timeout st' = filter (fun t => timeout_reasons now t = 0) (pending_timeout st);
  rd_moved : exists m1 m2,
    Forall2 (made_ready (timeout_reasons now))
      (filter (fun t => timeout_reasons now t <> 0) (pending_timeout st)) m1
    /\ Forall2 (made_ready (fun t => Z.lor (reasons now rs ws t) GNUNET_SCHEDULER_REASON_PREREQ_DONE))
         (filter (fun t => reasons now rs ws t <> 0) (pending st)) m2
    /\ moved_to (ready st) (m1 ++ m2) (ready st') (ready_count st');
  rd_frame : same_frame st st'
}.

Lemma filter_all {A} (P : A -> Prop) `{forall x, Decision (P x)} l : Forall P l -> filter P l = l.
Proof. induction 1 as [|x l Hx _ IH]; [ done | ]. by rewrite filter_cons_True, IH. Qed.

Lemma filter_none {A} (P : A -> Prop) `{forall x, Decision (P x)} l :
  Forall (fun x => ~ P x) l -> filter P l = [].
Proof. induction 1 as [|x l Hx _ IH]; [ done | ]. by rewrite filter_cons_False, IH. Qed.

Lemma permutation_swap3 {A} (a b c d : list A) : a ++ b ++ c ++ d ≡ₚ c ++ b ++ a ++ d.
Proof.
  rewrite !app_assoc. apply Permutation_app_tail.
  by rewrite (Permutation_app_comm (a ++ b) c), (Permutation_app_comm a b), app_assoc.
Qed.

Lemma filter_cores (P : Task -> Prop) `{forall t, Decision (P t)} (l : list Task) :
  core <$> l ≡ₚ (core <$> filter P l) ++ (core <$> filter (fun t => ~ P t) l).
Proof. by rewrite <- fmap_app, filter_app_complement. Qed.

Lemma made_ready_ok r l l' : Forall2 (made_ready r) l l' -> Forall task_ok l'.
Proof. induction 1 as [|t t' l l' Ht Hl IH]; constructor; [ apply Ht | done ]. Qed.

Lemma live_forall (P : Task -> Prop) st :
  Forall P (live st) <->
  Forall P (pending st) /\ Forall P (pending_timeout st) /\ Forall P (concat (ready st)).
Proof. unfold live. by rewrite !Forall_app. Qed.

(** The parts of the invariant that follow from the tasks being the same *)
Lemma inv_same_tasks st st' :
  sched_inv st -> queues_ok (ready st') (ready_count st') -> Forall task_ok (live st') ->
  core <$> live st' ≡ₚ core <$> live st -> last_id st' = last_id st ->
  active_task st' = active_task st -> current_priority st' = current_priority st ->
  timeouts_ok (pending_timeout st') ->
  (forall i, pending_timeout_last st' = Some i -> i ∈ id <$> pending_timeout st') ->
  sched_inv st'.
Proof.
  intros [Hq Ht Hi Hl _ _ Hp] Hq' Ht' Hc Hid Ha Hcp Hto Hlast. split; try done.
  - rewrite Hid. by eapply ids_ok_cores.
  - by rewrite Hid.
  - unfold is_active. by rewrite Ha, Hcp.
Qed.

Lemma check_ready_ok st now rs ws :
  sched_inv st -> fdset_ok rs -> fdset_ok ws ->
  exists st', check_ready st now rs ws = Ret st' /\ sched_inv st'
    /\ core <$> live st' ≡ₚ core <$> live st /\ ready_spec now rs ws st st'.
Proof.
  intros Hinv Hs1 Hs2. pose proof Hinv as [Hq Htasks Hids Hlid Hto Hlast Hpr].
  apply live_forall in Htasks as (Hp & Hpt & Hrd). unfold check_ready.
  destruct (check_timeouts_ok now (pending_timeout st) st eq_refl Hq Hpt) as
    (moved & rest & m1 & qs & n & last & Hl & Hc & Hmv & Hhd & Hmr & Hmt & Hlst).
  rewrite Hc. cbn [mbind outcome_bind].
  destruct (check_pending_ok now rs ws (pending st) Hs1 Hs2 (set_ready (set_timeouts st rest last) qs n))
    as (m2 & qs' & n' & Hc2 & Hmr2 & Hmt2); [ apply Hmt | done | ].
  cbn [pending set_ready set_timeouts] in *. rewrite Hc2. cbn [mbind outcome_bind].
  assert (Hrest : Forall (fun t => timeout_reasons now t = 0) rest /\ timeouts_ok rest).
  { rewrite Hl in Hto. destruct (timeouts_suffix _ _ Hto) as [Hr0 Hsort].
    { intros t B' ->. by apply (timeout_reasons_0 now t), (Hhd t B'). }
    split; [ | by exists [], rest ]. destruct rest as [|t rest']; [ constructor | ].
    pose proof (Hhd t rest' eq_refl) as Ht0. constructor; [ done | ]. apply timeout_reasons_0 in Ht0.
    inversion_clear Hsort as [|? ? _ Hall]. apply Forall_cons in Hr0 as [_ Hr0].
    rewrite Forall_forall in *. intros t' Ht'. apply timeout_reasons_0. split; [ by apply Hr0 | ].
    specialize (Hall t' Ht'). unfold earlier in Hall. lia. }
  destruct Hrest as [Hrest Hrest'].
  assert (Hf1 : filter (fun t => timeout_reasons now t = 0) (pending_timeout st) = rest).
  { rewrite Hl, filter_app, (filter_none _ moved), (filter_all _ rest); done. }
  assert (Hf2 : filter (fun t => timeout_reasons now t <> 0) (pending_timeout st) = moved).
  { rewrite Hl, filter_app, (filter_all _ moved), (filter_none _ rest); [ by rewrite app_nil_r | | done ].
    eapply Forall_impl; [ exact Hrest | ]. cbn. tauto. }
  pose proof (moved_to_trans _ _ _ _ _ _ _ Hmt Hmt2) as Hmt3.
  eexists. split; [ done | ].
  assert (Hcores : core <$> live (set_pending (set_ready (set_ready (set_timeouts st rest last) qs n) qs' n')
    (filter (fun t => reasons now rs ws t = 0) (pending st))) ≡ₚ core <$> live st).
  { unfold live. cbn [pending pending_timeout ready set_pending set_ready set_timeouts].
    rewrite !fmap_app. rewrite (mt_perm _ _ _ _ Hmt3), !fmap_app.
    rewrite (made_ready_cores _ _ _ Hmr), (made_ready_cores _ _ _ Hmr2), Hl, fmap_app.
    rewrite (filter_cores (fun t => reasons now rs ws t = 0) (pending st)).
    rewrite <- !app_assoc. apply Permutation_app_head.
    apply permutation_swap3. }
  split; [ | split ]; [ | done | ].
  - eapply inv_same_tasks; try done; cbn [pending pending_timeout ready ready_count set_pending set_ready set_timeouts].
    + apply Hmt3.
    + apply live_forall. cbn [pending pending_timeout ready set_pending set_ready set_timeouts].
      split_and!.
      * rewrite Forall_forall in *. intros t Ht. apply list_elem_of_filter in Ht as [_ Ht]. by apply Hp.
      * rewrite Hl in Hpt. by apply Forall_app in Hpt as [_ ?].
      * rewrite (mt_perm _ _ _ _ Hmt3), !Forall_app. split_and!; try done; by eapply made_ready_ok.
    + intros i Hi. cbn in Hi. destruct (Hlst i Hi) as [Hi1 Hi2]. apply Hlast in Hi1.
      rewrite Hl, fmap_app, elem_of_app in Hi1. tauto.
  - split; try done. exists m1, m2. rewrite Hf2. done.
Qed.

(** ** The interface *)

Lemma inv_add st st' t :
  sched_inv st -> last_id st + 1 < 2 ^ 64 -> id t = last_id st + 1 -> task_ok t ->
  queues_ok (ready st') (ready_count st') -> live st' ≡ₚ t :: live st ->
  last_id st' = last_id st + 1 -> active_task st' = active_task st ->
  current_priority st' = current_priority st -> timeouts_ok (pending_timeout st') ->
  (forall i, pending_timeout_last st' = Some i -> i ∈ id <$> pending_timeout st') ->
  sched_inv st' /\ bag_step (bag_of st) (Added (core t)) (bag_of st').
Proof.
  intros [Hq Ht Hi Hl _ _ Hp] Hlt Hid Htok Hq' Hlive Hn Ha Hcp Hto Hlast. split; [ split; try done | ].
  - rewrite Hlive. by constructor.
  - eapply (ids_ok_cores (t :: live st)); [ by rewrite Hlive | ]. rewrite Hn. apply ids_ok_cons; [ done | done | lia ].
  - lia.
  - unfold is_active. by rewrite Ha, Hcp.
  - unfold bag_of. rewrite Hn. apply bag_add; [ done | ]. by rewrite Hlive.
Qed.

Lemma inv_remove st st' t :
  sched_inv st -> queues_ok (ready st') (ready_count st') -> live st ≡ₚ t :: live st' ->
  last_id st' = last_id st -> active_task st' = active_task st ->
  current_priority st' = current_priority st -> timeouts_ok (pending_timeout st') ->
  (forall i, pending_timeout_last st' = Some i -> i ∈ id <$> pending_timeout st') ->
  sched_inv st' /\ bag_step (bag_of st) (Cancelled (core t)) (bag_of st').
Proof.
  intros [Hq Ht Hi Hl _ _ Hp] Hq' Hlive Hn Ha Hcp Hto Hlast. split; [ split; try done | ].
  - rewrite Hlive in Ht. by apply Forall_cons in Ht as [_ ?].
  - rewrite Hn. apply (ids_ok_tail t). eapply ids_ok_cores; [ | exact Hi ]. by rewrite Hlive.
  - by rewrite Hn.
  - unfold is_active. by rewrite Ha, Hcp.
  - unfold bag_of. rewrite Hn. apply bag_cancel. by rewrite Hlive.
Qed.

(** *** The sorted list *)

Lemma sublist_sorted (l l' : list Task) : l `sublist_of` l' -> StronglySorted earlier l' -> StronglySorted earlier l.
Proof.
  induction 1 as [|x l l' Hsub IH|x l l' Hsub IH]; intros Hs; [ constructor | | ];
    inversion_clear Hs as [|? ? Hs' Hall].
  - constructor; [ by apply IH | ]. rewrite Forall_forall in *. intros y Hy.
    apply Hall. by eapply sublist_subseteq.
  - by apply IH.
Qed.

Lemma timeouts_sublist (l l' : list Task) : l `sublist_of` l' -> timeouts_ok l' -> timeouts_ok l.
Proof.
  intros Hsub (A & B & -> & HA & HB & Hs). apply sublist_app_r in Hsub as (A' & B' & -> & HA' & HB').
  exists A', B'. rewrite Forall_forall in HA, HB. split_and!; [ done | | | by eapply sublist_sorted ];
    apply Forall_forall; intros x Hx; [ apply HA | apply HB ]; by eapply sublist_subseteq.
Qed.

Lemma insert_timeout_split t l :
  exists l1 l2, l = l1 ++ l2 /\ insert_timeout t l = l1 ++ t :: l2
    /\ Forall (fun x => reason x = 0 -> earlier x t) l1
    /\ (forall x l2', l2 = x :: l2' -> reason x = 0 /\ earlier t x).
Proof.
  induction l as [|p l IH]; cbn [insert_timeout].
  { exists [], []. split_and!; try done. }
  destruct (Z.leb_spec (abs_value (timeout p)) (abs_value (timeout t))) as [Hle|Hlt]; cbn [orb].
  - destruct IH as (l1 & l2 & -> & Heq & Hf & Hh). exists (p :: l1), l2.
    split_and!; [ done | by rewrite Heq | by constructor | done ].
  - destruct (Z.eqb_spec (reason p) 0) as [H0|H0]; cbn [negb].
    + exists [], (p :: l). split_and!; [ done | done | constructor | ].
      intros x l2' [= <- _]. split; [ done | ]. unfold earlier. lia.
    + destruct IH as (l1 & l2 & -> & Heq & Hf & Hh). exists (p :: l1), l2.
      split_and!; [ done | by rewrite Heq | by constructor | done ].
Qed.

Lemma insert_timeout_perm t l : insert_timeout t l ≡ₚ t :: l.
Proof.
  destruct (insert_timeout_split t l) as (l1 & l2 & -> & -> & _). symmetry. apply Permutation_middle.
Qed.

(** The task may be inserted behind any task that is not later. *)
Lemma insert_timeout_ok t pre l :
  timeouts_ok (pre ++ l) -> reason t = 0 ->
  (forall pre' prev, pre = pre' ++ [prev] -> earlier prev t) ->
  timeouts_ok (pre ++ insert_timeout t l).
Proof.
  intros Hok Ht Hpre. destruct (insert_timeout_split t l) as (l1 & l2 & -> & -> & Hf & Hh).
  assert (Hbefore : forall x, x ∈ pre ++ l1 -> reason x = 0 -> earlier x t).
  { intros x [Hx|Hx]%elem_of_app Hx0; [ | rewrite Forall_forall in Hf; by apply Hf ].
    destruct pre as [|prev pre _] using rev_ind; [ by apply elem_of_nil in Hx | ].
    specialize (Hpre pre prev eq_refl). apply elem_of_app in Hx as [Hx|Hx]; [ | by apply list_elem_of_singleton in Hx as -> ].
    apply list_elem_of_split in Hx as (p1 & p2 & ->). rewrite <- !app_assoc in Hok. cbn in Hok.
    destruct (timeouts_suffix _ _ Hok) as [_ Hs]; [ by intros ? ? [= <- _] | ].
    inversion_clear Hs as [|? ? _ Hall]. rewrite Forall_forall in Hall.
    assert (Hep : earlier x prev) by (apply Hall; set_solver). unfold earlier in *. lia. }
  rewrite app_assoc in *. destruct (timeouts_suffix _ _ Hok) as [H2 Hs2].
  { intros x B' ->. by apply (Hh x B'). }
  assert (Ht2 : Forall (earlier t) l2).
  { destruct l2 as [|x l2]; [ constructor | ]. destruct (Hh x l2 eq_refl) as [_ Hx].
    inversion_clear Hs2 as [|? ? _ Hall]. constructor; [ done | ].
    eapply Forall_impl; [ exact Hall | ]. unfold earlier in *. intros. lia. }
  destruct Hok as (C & D & Heq & HC & HD & Hs).
  assert (Hk : exists k, pre ++ l1 = C ++ k /\ D = k ++ l2).
  { apply app_eq_inv in Heq as [(k & Hk1 & Hk2)|(k & Hk1 & Hk2)]; [ by exists k | ].
    destruct k as [|x k]; cbn in Hk2.
    - exists []. rewrite app_nil_r in *. done.
    - exfalso. destruct (Hh x (k ++ D) Hk2) as [Hx0 _]. subst C. rewrite Forall_app, Forall_cons in HC.
      tauto. }
  destruct Hk as (k & Hk & ->). exists C, (k ++ t :: l2). rewrite Hk, <- app_assoc.
  apply Forall_app in HD as [HDk HDl].
  split_and!; [ done | done | by rewrite Forall_app, Forall_cons | ].
  apply StronglySorted_app. split_and!; [ | by eapply StronglySorted_app_1_l | by constructor ].
  intros x y Hx Hy. assert (Hxt : earlier x t).
  { rewrite Forall_forall in HDk. apply Hbefore; [ rewrite Hk; set_solver | by apply HDk ]. }
  apply elem_of_cons in Hy as [->|Hy]; [ done | ]. rewrite Forall_forall in Ht2. specialize (Ht2 y Hy).
  unfold earlier in *. lia.
Qed.

Lemma find_task_some i l k t : find_task i l = Some (k, t) -> l !! k = Some t /\ id t = i.
Proof. unfold find_task. rewrite list_find_Some. tauto. Qed.

Lemma find_task_in i (l : list Task) : i ∈ id <$> l -> exists k t, find_task i l = Some (k, t).
Proof.
  intros (t & -> & Ht)%list_elem_of_fmap. unfold find_task.
  destruct (list_find_elem_of (fun t' => id t' = id t) l t Ht eq_refl) as [[k t'] Hk]. eauto.
Qed.

Lemma find_task_none i (l : list Task) : find_task i l = None -> i ∉ id <$> l.
Proof. intros Hn Hin. apply find_task_in in Hin as (k & t & Hk). congruence. Qed.

Lemma start_position_ok st t :
  (forall i, pending_timeout_last st = Some i -> i ∈ id <$> pending_timeout st) ->
  exists k, start_position st t = Ret k
    /\ forall pre' prev, take k (pending_timeout st) = pre' ++ [prev] -> earlier prev t.
Proof.
  intros Hlast. unfold start_position. destruct (pending_timeout_last st) as [i|].
  2:{ exists O. split; [ done | ]. intros pre' prev Hp. by destruct pre'. }
  destruct (find_task_in i (pending_timeout st) (Hlast i eq_refl)) as (k & prev & Hk). rewrite Hk.
  cbn [of_option mbind outcome_bind]. eexists. split; [ done | ]. intros pre' prev'.
  destruct (Z.ltb_spec (abs_value (timeout t)) (abs_value (timeout prev))) as [Hlt|Hge].
  - by destruct pre'.
  - apply find_task_some in Hk as [Hk _]. rewrite (take_S_r _ _ _ Hk). intros [_ [= <-]]%app_inj_2; done.
Qed.

(** *** Adding tasks *)

Lemma last_id_next st : sched_inv st -> last_id st + 1 < 2 ^ 64 -> u64 (last_id st + 1) = last_id st + 1.
Proof. intros Hinv Hlt. pose proof (inv_last_id _ Hinv). apply u64_small. unfold is_u64. lia. Qed.

Lemma set_ok_copy s : set_ok s -> set_ok (GNUNET_NETWORK_fdset_copy GNUNET_NETWORK_fdset_create <$> s).
Proof.
  intros Hs s' Hs'. apply fmap_Some in Hs' as (s0 & -> & ->). specialize (Hs s0 eq_refl). by destruct s0.
Qed.

Lemma task_ok_fds task cls i to r p rfd wfd l :
  1 <= p <= 7 -> is_abs to -> fd_ok rfd -> fd_ok wfd ->
  task_ok (mk_task task cls None None i to r p rfd wfd l).
Proof. by split. Qed.

Lemma deadline_range now delay : is_abs (GNUNET_TIME_relative_to_absolute now delay).
Proof.
  unfold GNUNET_TIME_relative_to_absolute. repeat case_match; try (unfold is_abs, is_u64; cbn; unfold UINT64_MAX; lia).
  apply u64_range.
Qed.

#[local] Hint Resolve deadline_range : core.

(** What every call guarantees: it returns, keeps the invariant and the running task,
    and acts on the bag of tasks without running one. *)
Definition not_ran (l : label) : Prop := match l with Ran _ => False | _ => True end.

Record call_spec (st st' : scheduler) : Prop := {
  cs_inv : sched_inv st';
  cs_active : active_task st' = active_task st;
  cs_bag : exists tr, Forall not_ran tr /\ bag_steps (bag_of st) tr (bag_of st')
}.

Lemma call_spec_step st st' l :
  sched_inv st' /\ bag_step (bag_of st) l (bag_of st') -> not_ran l ->
  active_task st' = active_task st -> call_spec st st'.
Proof.
  intros [Hinv Hb] Hl Ha. split; [ done | done | ]. exists [l]. split; [ by constructor | ].
  eapply steps_cons; [ exact Hb | ]. unfold bag_of. by constructor.
Qed.

Lemma add_pending_ok st t prio :
  sched_inv st -> is_active st = true -> last_id st + 1 < 2 ^ 64 -> 0 <= prio <= 7 ->
  (forall i p, 1 <= p <= 7 -> task_ok (t i p) /\ id (t i p) = i) ->
  exists p st', add_pending st t prio = Ret (last_id st + 1, st')
    /\ pending st' = t (last_id st + 1) p :: pending st /\ 1 <= p <= 7 /\ call_spec st st'.
Proof.
  intros Hinv Hact Hlt Hp Ht. unfold add_pending. rewrite last_id_next by done.
  cbn [current_priority set_last_id last_id pending max_priority_added].
  set (p := if prio =? GNUNET_SCHEDULER_PRIORITY_KEEP then current_priority st else prio).
  assert (Hpr : 1 <= p <= 7).
  { unfold p, GNUNET_SCHEDULER_PRIORITY_KEEP. pose proof (inv_priority _ Hinv Hact).
    destruct (Z.eqb_spec prio 0); lia. }
  unfold check_priority, GNUNET_SCHEDULER_PRIORITY_COUNT.
  rewrite (proj2 (Z.leb_le _ _)), (proj2 (Z.ltb_lt _ _)) by lia. cbn [andb mbind outcome_bind].
  destruct (Ht (last_id st + 1) p Hpr) as [Htok Hid]. rewrite Hid. exists p.
  eexists. split_and!; [ done | done | lia | lia | ].
  eapply call_spec_step; [ | | done ]; [ eapply inv_add; try done | done ]; apply Hinv.
Qed.

Lemma gnunet_assert_active st : is_active st = true -> gnunet_assert (is_active st) = Ret tt.
Proof. by intros ->. Qed.

Lemma gnunet_assert_task (task : nat) : task <> 0%nat -> gnunet_assert (negb (task =? 0)%nat) = Ret tt.
Proof. intros H. apply gnunet_assert_true. by destruct (Nat.eqb_spec task 0). Qed.

Lemma add_delayed_ok now st delay p task cls :
  sched_inv st -> is_active st = true -> may_add st task -> 1 <= p <= 7 ->
  exists st', GNUNET_SCHEDULER_add_delayed_with_priority now st delay p task cls
      = Ret (last_id st + 1, st') /\ call_spec st st'.
Proof.
  intros Hinv Hact [Hlt Htask] Hp. unfold GNUNET_SCHEDULER_add_delayed_with_priority.
  rewrite gnunet_assert_active, gnunet_assert_task by done. cbn [mbind outcome_bind].
  rewrite last_id_next by done. cbn [last_id set_last_id current_lifeness id].
  set (t := mk_task _ _ _ _ _ _ _ _ _ _ _).
  destruct (start_position_ok (set_last_id st (last_id st + 1)) t (inv_last _ Hinv)) as (k & Hk & Hprev).
  rewrite Hk. cbn [mbind outcome_bind pending_timeout set_last_id] in *.
  assert (Hperm : take k (pending_timeout st) ++ insert_timeout t (drop k (pending_timeout st))
    ≡ₚ t :: pending_timeout st).
  { rewrite insert_timeout_perm, <- Permutation_middle, take_drop. done. }
  eexists. split; [ done | ].
  eapply call_spec_step; [ eapply (inv_add st _ t); try done | done | done ].
  - apply task_ok_fds; [ done | try done | by left | by left ].
  - apply Hinv.
  - unfold live. cbn [pending pending_timeout ready set_timeouts set_last_id]. rewrite Hperm. cbn.
    symmetry. apply Permutation_middle.
  - cbn [pending_timeout set_timeouts set_last_id].
    apply insert_timeout_ok; [ rewrite take_drop; apply Hinv | done | done ].
  - cbn [pending_timeout pending_timeout_last set_timeouts set_last_id]. intros i [= <-].
    rewrite Hperm. cbn. by left.
Qed.

Lemma add_continuation_ok st task cls r p :
  sched_inv st -> (is_active st || (r =? GNUNET_SCHEDULER_REASON_STARTUP)) = true ->
  may_add st task -> 1 <= p <= 7 ->
  exists st', GNUNET_SCHEDULER_add_continuation_with_priority st task cls r p = Ret st' /\ call_spec st st'.
Proof.
  intros Hinv Hact [Hlt Htask] Hp. unfold GNUNET_SCHEDULER_add_continuation_with_priority.
  rewrite gnunet_assert_task by done. rewrite gnunet_assert_true by done. cbn [mbind outcome_bind].
  rewrite last_id_next by done. cbn [last_id set_last_id current_lifeness].
  set (t := mk_task _ _ _ _ _ _ _ _ _ _ _).
  destruct (queue_ready_moved (set_last_id st (last_id st + 1)) t) as (qs & n & Hr & Hm);
    [ apply Hinv | done | ].
  rewrite Hr. eexists. split; [ done | ].
  eapply call_spec_step; [ eapply (inv_add st _ t); try done | done | done ].
  - apply task_ok_fds; [ done | try done | by left | by left ].
  - apply Hm.
  - unfold live. cbn [pending pending_timeout ready set_ready set_last_id].
    rewrite (mt_perm _ _ _ _ Hm). cbn. by rewrite app_assoc, <- Permutation_middle, <- app_assoc.
  - apply Hinv.
  - apply Hinv.
Qed.

(** *** Cancelling *)

Lemma delete_perm {A} (l : list A) k x : l !! k = Some x -> l ≡ₚ x :: delete k l.
Proof. apply delete_Permutation. Qed.

Lemma cancel_ready_ok i qs : forall p,
  (i ∈ id <$> concat qs ->
   exists j k q t, cancel_ready i p qs = Some ((p + j)%nat, k, t) /\ qs !! j = Some q
     /\ q !! k = Some t /\ id t = i)
  /\ (i ∉ id <$> concat qs -> cancel_ready i p qs = None).
Proof.
  induction qs as [|q qs IH]; intros p; cbn [cancel_ready concat].
  { split; [ by intros ?%elem_of_nil | done ]. }
  rewrite fmap_app, elem_of_app. destruct (find_task i q) as [[k t]|] eqn:Hf.
  - apply find_task_some in Hf as [Hk Hid]. split.
    + intros _. exists O, k, q, t. by rewrite Nat.add_0_r.
    + intros Hn. exfalso. apply Hn. left. rewrite <- Hid. apply list_elem_of_fmap.
      exists t. split; [ done | ]. by eapply list_elem_of_lookup_2.
  - apply find_task_none in Hf. destruct (IH (S p)) as [IH1 IH2]. split.
    + intros [|Hin]; [ done | ]. destruct (IH1 Hin) as (j & k & q' & t & Hc & Hq & Hk & Hid).
      exists (S j), k, q', t. rewrite Hc. split_and!; [ do 3 f_equal; lia | done | done | done ].
    + intros Hn. apply IH2. tauto.
Qed.

Lemma concat_tail st : queues_ok (ready st) (ready_count st) -> concat (tail (ready st)) = concat (ready st).
Proof. intros [_ Hk _]. destruct (ready st) as [|q qs]; [ done | ]. cbn in Hk. by injection Hk as ->. Qed.

Lemma cancel_ok st i :
  sched_inv st -> is_active st = true -> i ∈ id <$> live st ->
  exists t st', GNUNET_SCHEDULER_cancel st i = Ret (callback_cls t, st') /\ id t = i
    /\ live st ≡ₚ t :: live st' /\ call_spec st st'.
Proof.
  intros Hinv Hact Hin. unfold GNUNET_SCHEDULER_cancel. rewrite gnunet_assert_active by done.
  cbn [mbind outcome_bind].
  destruct (find_task i (pending st)) as [[k t]|] eqn:H1.
  { apply find_task_some in H1 as [Hk Hid].
    assert (Hlive : live st ≡ₚ t :: live (set_pending st (delete k (pending st)))).
    { unfold live. cbn [pending pending_timeout ready set_pending].
      by rewrite (delete_perm _ _ _ Hk) at 1. }
    eexists t, _. split_and!; [ done | done | exact Hlive | ].
    eapply call_spec_step; [ eapply (inv_remove st _ t); try done; apply Hinv | done | done ]. }
  apply find_task_none in H1.
  destruct (find_task i (pending_timeout st)) as [[k t]|] eqn:H2.
  { apply find_task_some in H2 as [Hk Hid].
    set (last := if decide _ then _ else _).
    assert (Hlive : live st ≡ₚ t :: live (set_timeouts st (delete k (pending_timeout st)) last)).
    { unfold live. cbn [pending pending_timeout ready set_timeouts].
      rewrite (delete_perm _ _ _ Hk) at 1. cbn. symmetry. apply Permutation_middle. }
    eexists t, _. split_and!; [ done | done | exact Hlive | ].
    eapply call_spec_step; [ eapply (inv_remove st _ t); try done; try apply Hinv | done | done ].
    - eapply timeouts_sublist; [ apply sublist_delete | apply Hinv ].
    - cbn [pending_timeout_last pending_timeout set_timeouts]. unfold last. intros j Hj.
      destruct (decide _) as [|Hne]; [ done | ]. pose proof (inv_last _ Hinv j Hj) as Hjin.
      rewrite (delete_perm _ _ _ Hk) in Hjin. cbn in Hjin. apply elem_of_cons in Hjin as [->|]; [ | done ].
      by rewrite Hid in *. }
  apply find_task_none in H2. destruct (cancel_ready_ok i (tail (ready st)) 1) as [Hc _].
  rewrite (concat_tail st) in Hc by apply Hinv. unfold live in Hin. rewrite !fmap_app, !elem_of_app in Hin.
  destruct Hc as (j & k & q & t & Hc & Hq & Hk & Hid); [ tauto | ]. rewrite Hc.
  assert (Hq' : ready st !! (1 + j)%nat = Some q) by (destruct (ready st); [ done | exact Hq ]).
  rewrite Hq'. cbn [of_option mbind outcome_bind].
  destruct (concat_insert _ _ q (delete k q) Hq') as (pre & post & Ha & Hb).
  assert (Hperm : concat (ready st) ≡ₚ t :: concat (<[(1 + j)%nat := delete k q]> (ready st))).
  { rewrite Ha, Hb, (delete_perm _ _ _ Hk) at 1. cbn. symmetry. apply Permutation_middle. }
  set (st' := set_ready _ _ _).
  assert (Hlive : live st ≡ₚ t :: live st').
  { unfold live, st'. cbn [pending pending_timeout ready set_ready]. rewrite Hperm.
    by rewrite app_assoc, <- Permutation_middle, <- app_assoc. }
  exists t, st'. split_and!; [ done | done | done | ].
  eapply call_spec_step; [ eapply (inv_remove st _ t); try done; try apply Hinv | done | done ].
  unfold st'. cbn [ready ready_count set_ready]. destruct (inv_queues _ Hinv) as [Hl Hke Hn].
  split; [ by rewrite length_insert | by rewrite list_lookup_insert_ne by lia | ].
  rewrite Hn, <- Z.add_opp_r, u32_add, Hperm. cbn [length]. f_equal. lia.
Qed.

(** A task that has run or was cancelled cannot be cancelled again. *)
Lemma cancel_dead st i :
  queues_ok (ready st) (ready_count st) -> i ∉ id <$> live st ->
  GNUNET_SCHEDULER_cancel st i = AssertFailed.
Proof.
  intros Hq Hni. unfold live in Hni. rewrite !fmap_app, !elem_of_app in Hni. unfold GNUNET_SCHEDULER_cancel.
  destruct (is_active st); [ | done ]. cbn [gnunet_assert mbind outcome_bind].
  assert (Hf : forall l : list Task, i ∉ id <$> l -> find_task i l = None).
  { intros l Hl. destruct (find_task i l) as [[k t]|] eqn:E; [ | done ]. exfalso. apply Hl.
    apply find_task_some in E as [Hk <-]. apply list_elem_of_fmap. exists t.
    split; [ done | by eapply list_elem_of_lookup_2 ]. }
  rewrite !Hf by tauto. destruct (cancel_ready_ok i (tail (ready st)) 1) as [_ Hc].
  rewrite (concat_tail st Hq) in Hc. by rewrite Hc by tauto.
Qed.

(** *** Shutdown *)

Lemma concat_fmap {A B} (f : A -> B) (ls : list (list A)) :
  concat ((fmap f : list A -> list B) <$> ls) = f <$> concat ls.
Proof. induction ls as [|l ls IH]; cbn; [ done | ]. by rewrite IH, fmap_app. Qed.

Definition marked : Task -> Task := or_reason GNUNET_SCHEDULER_REASON_SHUTDOWN.

Lemma marked_reason t : reason (marked t) <> 0.
Proof. cbn. rewrite Z.lor_eq_0_iff. by intros [_ ?]. Qed.

Lemma live_shutdown st : live (GNUNET_SCHEDULER_shutdown st) = marked <$> live st.
Proof.
  unfold live, GNUNET_SCHEDULER_shutdown.
  cbn [pending pending_timeout ready set_pending set_timeouts set_ready]. by rewrite concat_fmap, !fmap_app.
Qed.

Lemma cores_marked (l : list Task) : core <$> (marked <$> l) = core <$> l.
Proof. rewrite <- list_fmap_compose. by apply list_fmap_ext. Qed.

Lemma ids_marked (l : list Task) : id <$> (marked <$> l) = id <$> l.
Proof. rewrite <- list_fmap_compose. by apply list_fmap_ext. Qed.

Lemma queues_shutdown qs n : queues_ok qs n -> queues_ok ((fmap marked : list Task -> list Task) <$> qs) n.
Proof.
  intros [Hl Hk Hn]. split.
  - by rewrite length_fmap.
  - by rewrite list_lookup_fmap, Hk.
  - by rewrite concat_fmap, length_fmap.
Qed.

Lemma shutdown_ok st : sched_inv st -> call_spec st (GNUNET_SCHEDULER_shutdown st).
Proof.
  intros Hinv. split; [ | done | ].
  - eapply (inv_same_tasks st); try done.
    + apply queues_shutdown, Hinv.
    + rewrite live_shutdown. apply Forall_fmap. eapply Forall_impl; [ apply Hinv | ].
      intros t [? ? ? ? ? ?]. by split.
    + by rewrite live_shutdown, cores_marked.
    + exists (marked <$> pending_timeout st), []. split_and!; [ by rewrite app_nil_r | | done | constructor ].
      apply Forall_fmap, Forall_true. intros t. apply marked_reason.
    + cbn. intros i Hi. change (i ∈ id <$> (marked <$> pending_timeout st)). rewrite ids_marked. by apply Hinv.
  - exists []. split; [ constructor | ]. unfold bag_of. rewrite live_shutdown, cores_marked. by constructor.
Qed.

(** *** Programs of calls *)

Lemma bag_step_perm L L' n l b : L ≡ₚ L' -> bag_step (L', n) l b -> bag_step (L, n) l b.
Proof.
  intros Hp Hs. inversion Hs; subst; constructor; try done; by rewrite Hp.
Qed.

Lemma bag_steps_perm L L' n tr b : L ≡ₚ L' -> bag_steps (L', n) tr b -> bag_steps (L, n) tr b.
Proof.
  intros Hp Hs. inversion Hs; subst.
  - constructor. by rewrite Hp.
  - eapply steps_cons; [ by eapply bag_step_perm | done ].
Qed.

Lemma bag_steps_app b1 tr1 b2 tr2 b3 :
  bag_steps b1 tr1 b2 -> bag_steps b2 tr2 b3 -> bag_steps b1 (tr1 ++ tr2) b3.
Proof.
  induction 1 as [L L' n Hp|b l b' tr b'' Hs Hss IH]; intros H2; cbn.
  - by eapply bag_steps_perm.
  - eapply steps_cons; [ done | by apply IH ].
Qed.

Lemma call_spec_refl st : sched_inv st -> call_spec st st.
Proof. intros Hinv. split; [ done | done | ]. exists []. split; [ constructor | ]. by constructor. Qed.

Lemma call_spec_trans st1 st2 st3 : call_spec st1 st2 -> call_spec st2 st3 -> call_spec st1 st3.
Proof.
  intros [_ Ha1 (tr1 & Hn1 & Hb1)] [Hi Ha2 (tr2 & Hn2 & Hb2)]. split; [ done | congruence | ].
  exists (tr1 ++ tr2). split; [ by rewrite Forall_app | by eapply bag_steps_app ].
Qed.

Lemma add_with_lifeness_ok now st l task cls :
  sched_inv st -> is_active st = true -> may_add st task ->
  exists st', GNUNET_SCHEDULER_add_now_with_lifeness now st l task cls = Ret (last_id st + 1, st')
    /\ call_spec st st'.
Proof.
  intros Hinv Hact [Hlt Htask]. unfold GNUNET_SCHEDULER_add_now_with_lifeness, GNUNET_SCHEDULER_add_select,
    add_pending.
  rewrite gnunet_assert_active, gnunet_assert_task by done. cbn [mbind outcome_bind].
  rewrite last_id_next by done. cbn -[Z.max u32]. rewrite Z.eqb_refl. cbn [gnunet_assert mbind outcome_bind].
  eexists. split; [ done | ].
  eapply call_spec_step; [ eapply (inv_add st _ (mk_task task cls None None (last_id st + 1)
    (GNUNET_TIME_relative_to_absolute now GNUNET_TIME_UNIT_ZERO) 0 3 (-1) (-1) l)); try done | done | done ];
    try apply Hinv.
  apply task_ok_fds; [ lia | done | by left | by left ].
Qed.

Lemma api_ok now st c t :
  sched_inv st -> active_task st = Running t -> call_ok st c ->
  exists r st', api now st c = Ret (r, st') /\ call_spec st st'.
Proof.
  intros Hinv Hrun Hc. assert (Hact : is_active st = true) by (unfold is_active; by rewrite Hrun).
  destruct c as [task cls r p|d p task cls|d p rfd wfd task cls|p d rs ws task cls|l task cls|i| | |p];
    cbn [api call_ok] in *.
  - destruct Hc as [Hm Hp]. destruct (add_continuation_ok st task cls r p) as (st' & -> & Hs);
      [ done | by rewrite Hact | done | done | ]. cbn. eauto.
  - destruct Hc as [Hm Hp]. destruct (add_delayed_ok now st d p task cls) as (st' & -> & Hs); eauto.
  - destruct Hc as ([Hlt Htask] & Hp & Hr & Hw). unfold add_without_sets.
    rewrite gnunet_assert_active, gnunet_assert_task by done. rewrite gnunet_assert_true.
    2:{ apply Z.leb_le. destruct Hw as [->|Hw]; [ done | ]. unfold is_fd in Hw. lia. }
    cbn [mbind outcome_bind].
    edestruct add_pending_ok as (p' & st' & -> & _ & _ & Hs); [ done | done | done | exact Hp | | eauto ].
    intros i p0 Hp0. split; [ by apply task_ok_fds | done ].
  - destruct Hc as ([Hlt Htask] & Hp & Hr & Hw). unfold GNUNET_SCHEDULER_add_select.
    rewrite gnunet_assert_active, gnunet_assert_task by done. cbn [mbind outcome_bind].
    edestruct add_pending_ok as (p' & st' & -> & _ & _ & Hs); [ done | done | done | exact Hp | | eauto ].
    intros i p0 Hp0. split; [ | done ]. split; cbn; [ done | done | by left | by left | | ]; by apply set_ok_copy.
  - destruct (add_with_lifeness_ok now st l task cls) as (st' & -> & Hs); eauto.
  - destruct (cancel_ok st i) as (t' & st' & -> & _ & _ & Hs); [ done | done | done | ]. cbn. eauto.
  - eexists _, _. split; [ done | by apply shutdown_ok ].
  - unfold GNUNET_SCHEDULER_get_reason. rewrite Hrun. cbn.
    eexists _, _. split; [ done | by apply call_spec_refl ].
  - unfold GNUNET_SCHEDULER_get_load. rewrite gnunet_assert_active by done. cbn [mbind outcome_bind].
    unfold GNUNET_SCHEDULER_PRIORITY_COUNT, GNUNET_SCHEDULER_PRIORITY_KEEP.
    destruct (Z.eqb_spec p 8); [ cbn; eexists _, _; split; [ done | by apply call_spec_refl ] | ].
    set (p' := if p =? 0 then _ else _). assert (Hp' : 0 <= p' <= 7).
    { unfold p'. pose proof (inv_priority _ Hinv Hact). destruct (Z.eqb_spec p 0); lia. }
    unfold check_priority, GNUNET_SCHEDULER_PRIORITY_COUNT.
    rewrite (proj2 (Z.leb_le _ _)), (proj2 (Z.ltb_lt _ _)) by lia. cbn [andb mbind outcome_bind].
    destruct (queues_lookup _ _ p' (inv_queues _ Hinv) Hp') as [q ->]. cbn.
    eexists _, _. split; [ done | by apply call_spec_refl ].
Qed.

Lemma exec_ok {W} (p : prog W) t : forall st,
  sched_inv st -> active_task st = Running t -> prog_ok p st ->
  exists st' w, exec p st = Ret (st', w) /\ call_spec st st'.
Proof.
  induction p as [w|now c k IH]; intros st Hinv Hrun Hp; cbn [exec].
  { exists st, w. split; [ done | by apply call_spec_refl ]. }
  destruct Hp as [Hc Hk]. destruct (api_ok now st c t Hinv Hrun Hc) as (r & st1 & Ha & Hs). rewrite Ha.
  cbn [mbind outcome_bind].
  destruct (IH r st1) as (st' & w & He & Hs'); [ apply Hs | by rewrite (cs_active _ _ Hs) | by apply Hk | ].
  exists st', w. split; [ done | by eapply call_spec_trans ].
Qed.

(** ** Waiting *)

Definition remaining (now : GNUNET_TIME_Absolute) (t : Task) : Z :=
  rel_value (GNUNET_TIME_absolute_get_difference now (timeout t)).

(** How long the process may sleep: not at all when a task has a reason to run,
    otherwise until the first timeout, [m] being the longest *)
Definition next_wakeup (now : GNUNET_TIME_Absolute) (l : list Task) (m : Z) : Z :=
  if existsb (fun t => negb (reason t =? 0)) l then 0
  else foldr Z.min m (remaining now <$> l).

(** The descriptors that a task waits for; the scheduler loses descriptor 0 of a set. *)
Definition wanted (fd : Z) (set : option GNUNET_NETWORK_FDSet) : gset Z :=
  (if decide (fd = -1) then ∅ else {[fd]})
  ∪ match set with Some s => sds s ∖ {[0]} | None => ∅ end.

Lemma remaining_range now t : 0 <= remaining now t < 2 ^ 64.
Proof.
  unfold remaining, GNUNET_TIME_absolute_get_difference.
  repeat case_match; cbn; [ unfold UINT64_MAX; lia | lia | ]. apply (u64_range (_ - _)).
Qed.

Lemma remaining_mono now t1 t2 :
  0 <= abs_value now -> 0 <= abs_value (timeout t1) -> abs_value (timeout t2) < 2 ^ 64 ->
  earlier t1 t2 -> remaining now t1 <= remaining now t2.
Proof.
  intros Hn Ht1 Ht2 He. unfold remaining, GNUNET_TIME_absolute_get_difference, earlier, UINT64_MAX in *.
  repeat (case_match; [ | ]); repeat match goal with
    | H : (_ =? _) = true |- _ => apply Z.eqb_eq in H
    | H : (_ =? _) = false |- _ => apply Z.eqb_neq in H
    | H : (_ <? _) = true |- _ => apply Z.ltb_lt in H
    | H : (_ <? _) = false |- _ => apply Z.ltb_ge in H
    end; cbn; unfold UINT64_MAX in *; int_lia.
Qed.

Lemma fold_min_le l m x : x <= m -> Forall (fun y => x <= y) l -> x <= foldr Z.min m l.
Proof. intros Hm. induction 1; cbn; lia. Qed.

Lemma fold_min_0 l : Forall (fun y => 0 <= y) l -> foldr Z.min 0 l = 0.
Proof. induction 1; cbn; lia. Qed.

Lemma fold_min_comm l m x : foldr Z.min (Z.min x m) l = Z.min x (foldr Z.min m l).
Proof. induction l as [|y l IH]; cbn; [ done | rewrite IH; lia ]. Qed.

Lemma remaining_nonneg now (l : list Task) : Forall (fun y => 0 <= y) (remaining now <$> l).
Proof. apply Forall_fmap, Forall_true. intros t. apply remaining_range. Qed.

Lemma next_wakeup_cons now t l m :
  next_wakeup now (t :: l) m
  = next_wakeup now l (if negb (reason t =? 0) then 0 else Z.min (remaining now t) m).
Proof.
  unfold next_wakeup. cbn [existsb fmap list_fmap foldr]. destruct (negb (reason t =? 0)); cbn [orb].
  - destruct (existsb _ l); [ done | ]. by rewrite fold_min_0 by apply remaining_nonneg.
  - destruct (existsb _ l); [ done | ]. by rewrite fold_min_comm.
Qed.

Lemma update_fd s fd :
  fdset_ok s -> fd_ok fd ->
  exists s', (if negb (fd =? -1) then GNUNET_NETWORK_fdset_set_native s fd else Ret s) = Ret s'
    /\ fdset_ok s' /\ sds s' = sds s ∪ (if decide (fd = -1) then ∅ else {[fd]}).
Proof.
  intros Hs Hfd. destruct (Z.eqb_spec fd (-1)) as [->|Hne].
  - exists s. rewrite decide_True by done. split_and!; [ done | done | set_solver ].
  - destruct Hfd as [|Hfd]; [ done | ]. cbn [negb]. rewrite set_native_ok by done. eexists.
    split_and!; [ done | by apply fdset_insert_ok | ]. rewrite decide_False by done. cbn. set_solver.
Qed.

Lemma update_fdset s set :
  fdset_ok s -> set_ok set ->
  exists s', match set with Some x => GNUNET_NETWORK_fdset_add s x | None => Ret s end = Ret s'
    /\ fdset_ok s' /\ sds s' = sds s ∪ match set with Some x => sds x ∖ {[0]} | None => ∅ end.
Proof.
  intros Hs Hset. destruct set as [x|].
  - by apply fdset_add_ok; [ | apply Hset ].
  - exists s. split_and!; [ done | done | set_solver ].
Qed.

Lemma update_pending_ok now l : Forall task_ok l -> forall rs ws to,
  fdset_ok rs -> fdset_ok ws -> is_rel to ->
  exists rs' ws' to', update_pending now l rs ws to = Ret (rs', ws', to')
    /\ fdset_ok rs' /\ fdset_ok ws' /\ rel_value to' = next_wakeup now l (rel_value to)
    /\ sds rs' = sds rs ∪ ⋃ ((fun t => wanted (read_fd t) (read_set t)) <$> l)
    /\ sds ws' = sds ws ∪ ⋃ ((fun t => wanted (write_fd t) (write_set t)) <$> l).
Proof.
  induction 1 as [|t l Ht Hl IH]; intros rs ws to Hrs Hws Hto; cbn [update_pending].
  { exists rs, ws, to. cbn. split_and!; try done; set_solver. }
  destruct Ht as [_ _ Hr Hw Hrset Hwset].
  destruct (update_fd rs (read_fd t) Hrs Hr) as (rs1 & -> & Hrs1 & Er1).
  destruct (update_fd ws (write_fd t) Hws Hw) as (ws1 & -> & Hws1 & Ew1). cbn [mbind outcome_bind].
  destruct (update_fdset rs1 (read_set t) Hrs1 Hrset) as (rs2 & -> & Hrs2 & Er2).
  destruct (update_fdset ws1 (write_set t) Hws1 Hwset) as (ws2 & -> & Hws2 & Ew2). cbn [mbind outcome_bind].
  set (to1 := if negb (abs_value (timeout t) =? _) then _ else _).
  assert (Hto1 : rel_value to1 = Z.min (remaining now t) (rel_value to)).
  { unfold to1. unfold is_rel, is_u64 in Hto.
    destruct (Z.eqb_spec (abs_value (timeout t)) (abs_value GNUNET_TIME_UNIT_FOREVER_ABS)) as [He|He]; cbn [negb].
    - unfold remaining, GNUNET_TIME_absolute_get_difference. cbn in He. rewrite He, Z.eqb_refl. cbn.
      unfold UINT64_MAX. lia.
    - fold (remaining now t). destruct (Z.ltb_spec (remaining now t) (rel_value to)); [ | lia ].
      unfold remaining in *. lia. }
  set (to2 := if negb (reason t =? 0) then _ else _).
  assert (Hto2 : rel_value to2 = if negb (reason t =? 0) then 0 else Z.min (remaining now t) (rel_value to)).
  { unfold to2. by destruct (negb (reason t =? 0)). }
  pose proof (remaining_range now t).
  destruct (IH rs2 ws2 to2 Hrs2 Hws2) as (rs' & ws' & to' & Hu & H1 & H2 & H3 & H4 & H5).
  { unfold is_rel, is_u64 in *. rewrite Hto2. destruct (negb (reason t =? 0)); lia. }
  exists rs', ws', to'. rewrite Hu. split_and!; [ done | done | done | | | ].
  - by rewrite next_wakeup_cons, H3, Hto2.
  - rewrite H4, Er2, Er1. cbn [fmap list_fmap union_list]. unfold wanted. set_solver.
  - rewrite H5, Ew2, Ew1. cbn [fmap list_fmap union_list]. unfold wanted. set_solver.
Qed.

Lemma next_wakeup_app now l1 l2 m :
  next_wakeup now (l1 ++ l2) m = next_wakeup now l2 (next_wakeup now l1 m).
Proof.
  revert m. induction l1 as [|t l1 IH]; intros m; cbn [app]; [ done | ]. by rewrite !next_wakeup_cons, IH.
Qed.

(** It is enough to look at the head of the sorted list. *)
Lemma next_wakeup_head now t l m :
  is_abs now -> Forall task_ok (t :: l) -> timeouts_ok (t :: l) -> 0 <= m < 2 ^ 64 ->
  next_wakeup now (t :: l) m = if negb (reason t =? 0) then 0 else Z.min (remaining now t) m.
Proof.
  intros Hnow Hok Hto Hm. rewrite next_wakeup_cons. destruct (Z.eqb_spec (reason t) 0) as [H0|H0]; cbn [negb].
  - destruct (timeouts_suffix [] (t :: l) Hto) as [Hr Hs]; [ by intros ? ? [= <- _] | ].
    unfold next_wakeup. destruct (existsb (fun t => negb (reason t =? 0)) l) eqn:Hb.
    + exfalso. apply existsb_exists in Hb as (x & Hx & Hb). apply list_elem_of_In in Hx.
      apply Forall_cons in Hr as [_ Hr]. rewrite Forall_forall in Hr. rewrite Hr in Hb; done.
    + apply Forall_cons in Hok as [Ht Hok]. inversion_clear Hs as [|? ? _ Hall].
      assert (Hle : Forall (fun y => Z.min (remaining now t) m <= y) (remaining now <$> l)).
      { apply Forall_fmap. rewrite Forall_forall in *. intros x Hx. cbn.
        pose proof (ok_timeout _ Ht). pose proof (ok_timeout _ (Hok x Hx)). unfold is_abs, is_u64 in *.
        enough (remaining now t <= remaining now x) by lia.
        apply remaining_mono; [ lia | lia | lia | by apply Hall ]. }
      clear -Hle. induction Hle as [|y ys Hy _ IH]; cbn; [ done | ]. rewrite IH. lia.
  - unfold next_wakeup. destruct (existsb _ l); [ done | ]. apply fold_min_0, remaining_nonneg.
Qed.

Lemma update_sets_ok st now :
  sched_inv st -> is_abs now ->
  exists rs ws to, update_sets st now GNUNET_NETWORK_fdset_zero GNUNET_NETWORK_fdset_zero
      GNUNET_TIME_UNIT_FOREVER_REL = Ret (rs, ws, to)
    /\ fdset_ok rs /\ fdset_ok ws
    /\ rel_value to = next_wakeup now (pending_timeout st ++ pending st) UINT64_MAX
    /\ sds rs = ⋃ ((fun t => wanted (read_fd t) (read_set t)) <$> pending st)
    /\ sds ws = ⋃ ((fun t => wanted (write_fd t) (write_set t)) <$> pending st).
Proof.
  intros Hinv Hnow. destruct (proj1 (live_forall _ _) (inv_tasks _ Hinv)) as (Hp & Hpt & _).
  unfold update_sets. rewrite next_wakeup_app.
  set (to := match pending_timeout st with [] => _ | _ => _ end).
  assert (Hto : rel_value to = next_wakeup now (pending_timeout st) UINT64_MAX).
  { unfold to. destruct (pending_timeout st) as [|t l] eqn:E; [ done | ].
    rewrite next_wakeup_head; [ | done | done | rewrite <- E; apply Hinv | unfold UINT64_MAX; lia ].
    destruct (negb _); [ done | ]. cbn [rel_value GNUNET_TIME_relative_get_forever_].
    fold (remaining now t). pose proof (remaining_range now t).
    destruct (Z.ltb_spec (remaining now t) UINT64_MAX); cbn; unfold remaining in *; lia. }
  assert (His : is_rel to).
  { unfold is_rel, is_u64. rewrite Hto. unfold next_wakeup. destruct (existsb _ _); [ lia | ].
    split; [ apply fold_min_le; [ unfold UINT64_MAX; lia | apply remaining_nonneg ] | ].
    enough (foldr Z.min UINT64_MAX (remaining now <$> pending_timeout st) <= UINT64_MAX) by (unfold UINT64_MAX in *; lia).
    generalize (remaining now <$> pending_timeout st). intros l. induction l; cbn; lia. }
  destruct (update_pending_ok now (pending st) Hp GNUNET_NETWORK_fdset_zero GNUNET_NETWORK_fdset_zero to)
    as (rs & ws & to' & Hu & H1 & H2 & H3 & H4 & H5); [ apply fdset_zero_ok | apply fdset_zero_ok | done | ].
  exists rs, ws, to'. split_and!; [ done | done | done | | | ].
  - by rewrite H3, Hto.
  - rewrite H4. cbn. set_solver.
  - rewrite H5. cbn. set_solver.
Qed.

(** ** Running *)

Lemma highest_ready_some qs m p pos next :
  highest_ready qs m = Some (p, pos, next) ->
  qs !! p = Some (pos :: next) /\ (1 <= p <= m)%nat
  /\ forall p', (p < p' <= m)%nat -> forall t, ~ in_queue qs p' t.
Proof.
  induction m as [|m IH]; cbn [highest_ready]; [ done | ].
  destruct (qs !! S m) as [[|t q]|] eqn:E.
  - intros Hh. destruct (IH Hh) as (Hp & Hm & Ha). split_and!; [ done | lia | lia | ].
    intros p' Hp' t (q & Hq & Hin). destruct (decide (p' = S m)) as [->|]; [ | by apply (Ha p' ltac:(lia) t); exists q ].
    rewrite E in Hq. injection Hq as <-. by apply elem_of_nil in Hin.
  - intros [= <- <- <-]. split_and!; [ done | lia | lia | ]. intros p' Hp'. lia.
  - intros Hh. destruct (IH Hh) as (Hp & Hm & Ha). split_and!; [ done | lia | lia | ].
    intros p' Hp' t (q & Hq & Hin). destruct (decide (p' = S m)) as [->|]; [ congruence | ].
    apply (Ha p' ltac:(lia) t). by exists q.
Qed.

Lemma highest_ready_none qs m :
  highest_ready qs m = None -> forall p t, (1 <= p <= m)%nat -> ~ in_queue qs p t.
Proof.
  induction m as [|m IH]; cbn [highest_ready]; intros Hh p t Hp; [ lia | ].
  destruct (decide (p = S m)) as [->|Hne].
  - intros (q & Hq & Hin). rewrite Hq in Hh. destruct q; [ by apply elem_of_nil in Hin | done ].
  - destruct (qs !! S m) as [[|? ?]|]; try done; apply IH; [ done | lia | done | lia ].
Qed.

Lemma in_queue_concat qs p t : in_queue qs p t -> t ∈ concat qs.
Proof.
  intros (q & Hq & Hin). apply list_elem_of_lookup_2 in Hq. rewrite list_elem_of_In. apply in_concat.
  exists q. rewrite <- !list_elem_of_In. done.
Qed.

Lemma concat_in_queue qs n t : queues_ok qs n -> t ∈ concat qs -> exists p, (1 <= p <= 7)%nat /\ in_queue qs p t.
Proof.
  intros [Hl Hk _] Hin. rewrite list_elem_of_In in Hin. apply in_concat in Hin as (q & Hq & Ht).
  rewrite <- list_elem_of_In in Hq. rewrite <- list_elem_of_In in Ht. apply list_elem_of_lookup in Hq as [p Hp].
  pose proof (lookup_lt_Some _ _ _ Hp). exists p. split; [ | by exists q ].
  destruct p; [ | lia ]. rewrite Hk in Hp. injection Hp as <-. by apply elem_of_nil in Ht.
Qed.

Lemma highest_ready_ok qs n :
  queues_ok qs n -> n <> 0 -> exists p pos next, highest_ready qs 7 = Some (p, pos, next).
Proof.
  intros Hq Hn. destruct (highest_ready qs 7) as [[[p pos] next]|] eqn:E; [ eauto | ]. exfalso. apply Hn.
  rewrite (q_count _ _ Hq). destruct (concat qs) as [|t l] eqn:Ec; [ done | ]. exfalso.
  destruct (concat_in_queue qs n t Hq) as (p & Hp & Hin); [ rewrite Ec; by left | ].
  by eapply highest_ready_none.
Qed.

(** The state in which the callback of [pos], the first task of queue [p], is called *)
Definition picked (st : scheduler) (p : nat) (pos : Task) (next : list Task) : scheduler :=
  set_active (set_current (set_ready st (<[p := next]> (ready st)) (u32 (ready_count st - 1)))
    (priority pos) (lifeness pos)) (Running pos).

Lemma picked_ok st p pos next :
  sched_inv st -> ready st !! p = Some (pos :: next) -> (1 <= p)%nat ->
  sched_inv (picked st p pos next) /\ live st ≡ₚ pos :: live (picked st p pos next).
Proof.
  intros Hinv Hp H1. destruct (concat_insert _ _ (pos :: next) next Hp) as (pre & post & Ha & Hb).
  assert (Hperm : concat (ready st) ≡ₚ pos :: concat (<[p := next]> (ready st))).
  { rewrite Ha, Hb. cbn. symmetry. apply Permutation_middle. }
  assert (Hlive : live st ≡ₚ pos :: live (picked st p pos next)).
  { unfold live. cbn [picked pending pending_timeout ready set_ready set_current set_active]. rewrite Hperm.
    by rewrite app_assoc, <- Permutation_middle, <- app_assoc. }
  split; [ | done ]. pose proof (inv_tasks _ Hinv) as Htasks. rewrite Hlive in Htasks.
  apply Forall_cons in Htasks as [Hpos Htasks].
  split; try apply Hinv; cbn [picked ready ready_count set_ready set_current set_active last_id current_priority].
  - destruct (inv_queues _ Hinv) as [Hl Hk Hn].
    split; [ by rewrite length_insert | by rewrite list_lookup_insert_ne by lia | ].
    rewrite Hn, <- Z.add_opp_r, u32_add, Hperm. cbn [length]. f_equal. lia.
  - done.
  - apply (ids_ok_tail pos). eapply ids_ok_cores; [ | apply Hinv ]. by rewrite Hlive.
  - intros _. apply Hpos.
Qed.

Lemma finished_ok st :
  sched_inv st -> sched_inv (set_tasks_run (set_active st NoTask) (u64 (tasks_run st + 1))).
Proof. intros Hinv. split; try apply Hinv. done. Qed.

(** The tasks that a trace runs *)
Definition ran (tr : list label) : list Task :=
  omap (fun l => match l with Ran t => Some t | _ => None end) tr.

Lemma ran_not_ran tr : Forall not_ran tr -> ran tr = [].
Proof. induction 1 as [|l tr Hl Htr IH]; [ done | ]. unfold ran in *. cbn. by destruct l. Qed.

Lemma ran_app tr1 tr2 : ran (tr1 ++ tr2) = ran tr1 ++ ran tr2.
Proof. apply omap_app. Qed.

Section Clients.
Context {W : Type} (run_callback : W -> Task -> GNUNET_SCHEDULER_TaskContext -> prog W).

(** [I] relates the state of the clients to the tasks.  A callback that is run in such a
    state keeps to the interface and establishes [I] again. *)
Record client_ok (I : W -> bag -> Prop) : Prop := {
  cl_perm : forall w L L' n, L ≡ₚ L' -> I w (L, n) -> I w (L', n);
  cl_run : forall w t tc st,
    sched_inv st -> active_task st = Running t -> I w (core t :: (core <$> live st), last_id st) ->
    prog_ok (run_callback w t tc) st
    /\ forall st' w', exec (run_callback w t tc) st = Ret (st', w') -> I w' (bag_of st')
}.

Context (I : W -> bag -> Prop) (HI : client_ok I).

Lemma run_task_ok st w rs ws :
  sched_inv st -> active_task st = NoTask -> ready_count st <> 0 -> I w (bag_of st) ->
  fdset_ok rs -> fdset_ok ws ->
  exists p pos next tc st2 w' rs' ws' tr,
    let st' := set_tasks_run (set_active st2 NoTask) (u64 (tasks_run st2 + 1)) in
    highest_ready (ready st) 7 = Some (p, pos, next)
    /\ exec (run_callback w pos tc) (picked st p pos next) = Ret (st2, w')
    /\ run_task run_callback st w rs ws = Ret (st', w', rs', ws', (p, pos))
    /\ sched_inv st' /\ I w' (bag_of st') /\ fdset_ok rs' /\ fdset_ok ws'
    /\ bag_steps (bag_of st) (Ran (core pos) :: tr) (bag_of st') /\ Forall not_ran tr.
Proof.
  intros Hinv Hact Hn HIw Hrs Hws. unfold run_task. rewrite (q_keep _ _ (inv_queues _ Hinv)).
  cbn [of_option mbind outcome_bind]. rewrite bool_decide_eq_true_2 by done.
  cbn [gnunet_assert mbind outcome_bind].
  destruct (highest_ready_ok _ _ (inv_queues _ Hinv) Hn) as (p & pos & next & Hh).
  change (Z.to_nat (GNUNET_SCHEDULER_PRIORITY_COUNT - 1)) with 7%nat. rewrite Hh.
  destruct (highest_ready_some _ _ _ _ _ Hh) as (Hp & Hp1 & _).
  destruct (picked_ok st p pos next Hinv Hp ltac:(lia)) as [Hinv1 Hlive].
  pose proof (inv_tasks _ Hinv) as Htasks. rewrite Hlive in Htasks.
  apply Forall_cons in Htasks as [[_ _ Hrfd Hwfd _ _] _].
  assert (Hset : forall b s fd, fdset_ok s -> fd_ok fd -> exists s',
    (if negb (fd =? -1) && b then GNUNET_NETWORK_fdset_set_native s fd else Ret s) = Ret s'
    /\ fdset_ok s' /\ (b = true -> fd <> -1 -> fd ∈ sds s')).
  { intros b s fd Hs Hfd. destruct b; [ | rewrite andb_false_r; by exists s ]. rewrite andb_true_r.
    destruct (update_fd s fd Hs Hfd) as (s' & Hs' & Hok & Hsds). exists s'. split_and!; [ done | done | ].
    intros _ Hne. rewrite Hsds, decide_False by done. set_solver. }
  destruct (Hset (negb (Z.land (reason pos) GNUNET_SCHEDULER_REASON_READ_READY =? 0)) rs (read_fd pos) Hrs Hrfd)
    as (rs' & -> & Hrs' & _).
  destruct (Hset (negb (Z.land (reason pos) GNUNET_SCHEDULER_REASON_WRITE_READY =? 0)) ws (write_fd pos) Hws Hwfd)
    as (ws' & -> & Hws' & Hin). cbn [mbind outcome_bind].
  assert (Htest : (if negb (Z.land (reason pos) GNUNET_SCHEDULER_REASON_WRITE_READY =? 0) && negb (write_fd pos =? -1)
    then b ← GNUNET_NETWORK_fdset_test_native (Some ws') (write_fd pos); gnunet_assert b else Ret tt) = Ret tt).
  { destruct (negb (Z.land _ _ =? 0)); [ | done ]. cbn [andb].
    destruct (Z.eqb_spec (write_fd pos) (-1)) as [|Hne]; [ done | ]. cbn [negb].
    destruct Hwfd as [|Hwfd]; [ done | ]. rewrite test_native_ok by (unfold is_fd in Hwfd; lia).
    cbn [mbind outcome_bind]. by rewrite bool_decide_eq_true_2 by auto. }
  rewrite Htest. cbn [mbind outcome_bind]. fold (picked st p pos next).
  set (tc := mk_tc _ _ _).
  assert (HI1 : I w (core pos :: (core <$> live (picked st p pos next)), last_id (picked st p pos next))).
  { eapply (cl_perm I HI); [ | exact HIw ]. by rewrite Hlive. }
  destruct (cl_run I HI w pos tc (picked st p pos next) Hinv1 eq_refl HI1) as [Hprog Hpost].
  destruct (exec_ok _ pos _ Hinv1 eq_refl Hprog) as (st2 & w' & He & Hspec). rewrite He. cbn [mbind outcome_bind].
  destruct (cs_bag _ _ Hspec) as (tr & Hnr & Hsteps).
  exists p, pos, next, tc, st2, w', rs', ws', tr. split_and!; try done.
  - apply finished_ok, Hspec.
  - by apply (Hpost st2 w').
  - eapply steps_cons; [ | exact Hsteps ]. unfold bag_of. cbn [last_id picked set_active set_current set_ready].
    apply bag_run. by rewrite Hlive.
Qed.

Lemma run_loop_ok fuel : forall st w rs ws,
  sched_inv st -> active_task st = NoTask -> I w (bag_of st) -> fdset_ok rs -> fdset_ok ws ->
  exists b st' w' rs' ws' l tr,
    run_loop run_callback fuel st w rs ws = Ret (b, st', w', rs', ws', l)
    /\ sched_inv st' /\ active_task st' = NoTask /\ I w' (bag_of st') /\ fdset_ok rs' /\ fdset_ok ws'
    /\ bag_steps (bag_of st) tr (bag_of st') /\ ran tr = core <$> l.*2.
Proof.
  assert (Hnil : forall (b : bool) st w rs ws,
    sched_inv st -> active_task st = NoTask -> I w (bag_of st) -> fdset_ok rs -> fdset_ok ws ->
    exists b' st' w' rs' ws' l tr,
      Ret (b, st, w, rs, ws, [] : list (nat * Task)) = Ret (b', st', w', rs', ws', l)
      /\ sched_inv st' /\ active_task st' = NoTask /\ I w' (bag_of st') /\ fdset_ok rs' /\ fdset_ok ws'
      /\ bag_steps (bag_of st) tr (bag_of st') /\ ran tr = core <$> l.*2).
  { intros b st w rs ws H1 H2 H3 H4 H5. exists b, st, w, rs, ws, [], [].
    split_and!; try done. unfold bag_of. by constructor. }
  induction fuel as [|fuel IH]; intros st w rs ws Hinv Hact HIw Hrs Hws; cbn [run_loop]; [ by apply Hnil | ].
  destruct (Z.eqb_spec (ready_count st) 0) as [H0|H0]; [ by apply Hnil | ].
  destruct (run_task_ok st w rs ws Hinv Hact H0 HIw Hrs Hws) as
    (p & pos & next & tc & st2 & w' & rs' & ws' & tr & Hh & He & Hr & Hinv' & HI' & Hrs' & Hws' & Hst & Hnr).
  rewrite Hr. cbn [mbind outcome_bind]. set (st' := set_tasks_run _ _) in *.
  assert (Hran : ran (Ran (core pos) :: tr) = [core pos]).
  { unfold ran. cbn. fold (ran tr). by rewrite ran_not_ran. }
  destruct (_ || _).
  - destruct (IH st' w' rs' ws') as (b & st3 & w3 & rs3 & ws3 & l & tr3 & Hl & H1 & H2 & H3 & H4 & H5 & H6 & H7);
      try done. rewrite Hl. cbn [mbind outcome_bind].
    eexists _, _, _, _, _, _, _. split_and!; try done; [ by eapply bag_steps_app | ].
    rewrite ran_app, Hran, H7. done.
  - eexists _, _, _, _, _, _, _. by split_and!.
Qed.

(** *** The main loop *)

(** [select] returns subsets of what it was given and only fails when interrupted. *)
Definition round_ok (r : round) : Prop :=
  is_abs (clock_update r) /\ is_abs (clock_check r)
  /\ forall rs ws to, match select r rs ws to with
                      | SelectError eintr => eintr = true
                      | Selected rds wds => rds ⊆ sds rs /\ wds ⊆ sds ws
                      end.

(** [st'] has the invariant and the tasks that are left after running [l]. *)
Record ran_spec (st : scheduler) (l : list (nat * Task)) (st' : scheduler) (w' : W) : Prop := {
  rs_inv : sched_inv st';
  rs_idle : active_task st' = NoTask;
  rs_client : I w' (bag_of st');
  rs_bag : exists tr, bag_steps (bag_of st) tr (bag_of st') /\ ran tr = core <$> l.*2
}.

Lemma ran_spec_trans st1 l1 st2 w2 l2 st3 w3 :
  ran_spec st1 l1 st2 w2 -> ran_spec st2 l2 st3 w3 -> ran_spec st1 (l1 ++ l2) st3 w3.
Proof.
  intros [_ _ _ (tr1 & Hb1 & Hr1)] [H1 H2 H3 (tr2 & Hb2 & Hr2)]. split; try done.
  exists (tr1 ++ tr2). split; [ by eapply bag_steps_app | ]. by rewrite ran_app, Hr1, Hr2, !fmap_app.
Qed.

(** A step that changes nothing but the order of the tasks and their reasons *)
Lemma ran_spec_same st st' w :
  sched_inv st' -> active_task st' = NoTask -> I w (bag_of st) ->
  core <$> live st' ≡ₚ core <$> live st -> last_id st' = last_id st -> ran_spec st [] st' w.
Proof.
  intros H1 H2 H3 Hc Hn. split; [ done | done | | ].
  - unfold bag_of in *. rewrite Hn. by eapply (cl_perm I HI).
  - exists []. split; [ | done ]. unfold bag_of. rewrite Hn. by constructor.
Qed.

Lemma shutdown_same st w :
  sched_inv st -> active_task st = NoTask -> I w (bag_of st) ->
  ran_spec st [] (GNUNET_SCHEDULER_shutdown st) w.
Proof.
  intros Hinv Ha Hw. destruct (shutdown_ok st Hinv) as [H1 H2 _].
  apply ran_spec_same; try done. by rewrite live_shutdown, cores_marked.
Qed.

Lemma check_lifeness_ok st w :
  sched_inv st -> active_task st = NoTask -> I w (bag_of st) ->
  ran_spec st [] (check_lifeness st).2 w
  /\ ((check_lifeness st).1 = GNUNET_OK \/ (check_lifeness st).1 = GNUNET_NO)
  /\ ((check_lifeness st).1 = GNUNET_NO -> pending st = [] /\ pending_timeout st = [] /\ ready_count st = 0).
Proof.
  intros Hinv Ha Hw. assert (Hsame : ran_spec st [] st w) by by apply ran_spec_same.
  pose proof (shutdown_same st w Hinv Ha Hw) as Hshut.
  assert (H0 : 0 <= ready_count st) by (rewrite (q_count _ _ (inv_queues _ Hinv)); apply u32_range).
  assert (Halive : forall st', ran_spec st [] st' w ->
    ran_spec st [] (GNUNET_OK, st').2 w
    /\ ((GNUNET_OK, st').1 = GNUNET_OK \/ (GNUNET_OK, st').1 = GNUNET_NO)
    /\ ((GNUNET_OK, st').1 = GNUNET_NO -> pending st = [] /\ pending_timeout st = [] /\ ready_count st = 0)).
  { intros st' Hst'. split_and!; [ done | by left | discriminate ]. }
  unfold check_lifeness. destruct (Z.ltb_spec 0 (ready_count st)); [ by apply Halive | ].
  destruct (existsb _ (pending st)); [ by apply Halive | ].
  destruct (existsb _ (pending_timeout st)); [ by apply Halive | ].
  destruct (pending st), (pending_timeout st); try (by apply Halive).
  split_and!; [ done | by right | ]. intros _. split_and!; [ done | done | lia ].
Qed.

(** A round up to [run_ready], when [select] was not interrupted *)
Lemma main_round_selected r st w rs ws to :
  round_ok r -> sched_inv st -> active_task st = NoTask -> I w (bag_of st) ->
  fdset_ok rs -> fdset_ok ws -> forall rds wds, select r rs ws to = Selected rds wds ->
  exists st1, check_ready st (clock_check r) (mk_fdset (nsds rs) rds) (mk_fdset (nsds ws) wds) = Ret st1
    /\ fdset_ok (mk_fdset (nsds rs) rds) /\ fdset_ok (mk_fdset (nsds ws) wds)
    /\ ready_spec (clock_check r) (mk_fdset (nsds rs) rds) (mk_fdset (nsds ws) wds) st st1
    /\ ran_spec st [] (set_max_priority st1 GNUNET_SCHEDULER_PRIORITY_KEEP) w.
Proof.
  intros (Hc1 & Hc2 & Hsel) Hinv Ha Hw Hrs Hws rds wds Hs. specialize (Hsel rs ws to).
  rewrite Hs in Hsel. destruct Hsel as [Hr Hwd].
  destruct (check_ready_ok st (clock_check r) (mk_fdset (nsds rs) rds) (mk_fdset (nsds ws) wds))
    as (st1 & Hcr & Hinv1 & Hcores & Hspec); [ done | by apply fdset_subset_ok | by apply fdset_subset_ok | ].
  destruct (rd_frame _ _ _ _ _ Hspec) as (Hid & Ha1 & _).
  exists st1. split_and!; [ done | by apply fdset_subset_ok | by apply fdset_subset_ok | done | ].
  apply ran_spec_same; try done; [ split; apply Hinv1 | cbn; congruence ].
Qed.

(** The end of a round *)
Lemma round_signal st l st' w' pr (rs : GNUNET_NETWORK_FDSet) :
  is_fd pr -> ran_spec st l st' w' ->
  exists b, GNUNET_NETWORK_fdset_handle_isset rs pr = Ret b
    /\ ran_spec st l (if b then GNUNET_SCHEDULER_shutdown st' else st') w'.
Proof.
  intros Hpr H. unfold GNUNET_NETWORK_fdset_handle_isset, is_fd in *. rewrite FD_ISSET_ok by lia.
  eexists. split; [ done | ]. case_bool_decide; [ | done ]. rewrite <- (app_nil_r l).
  eapply ran_spec_trans; [ exact H | apply shutdown_same; apply H ].
Qed.

Lemma main_round_ok fuel pr r st w :
  is_fd pr -> round_ok r -> sched_inv st -> active_task st = NoTask -> I w (bag_of st) ->
  exists b st' w' l, main_round run_callback fuel pr r st w = Ret (b, st', w', l)
    /\ ran_spec st l st' w'.
Proof.
  intros Hpr Hround Hinv Ha Hw. unfold main_round. pose proof Hround as (Hc1 & Hc2 & Hsel).
  destruct (update_sets_ok st _ Hinv Hc1) as (rs & ws & to & Hu & Hrs & Hws & _). rewrite Hu.
  cbn [mbind outcome_bind]. rewrite handle_set_native, set_native_ok by done. cbn [mbind outcome_bind].
  pose proof (fdset_insert_ok rs pr Hrs Hpr) as Hrs1. set (rs1 := mk_fdset _ _) in *.
  set (to' := if 0 <? ready_count st then _ else _). specialize (Hsel rs1 ws to').
  destruct (select r rs1 ws to') as [eintr|rds wds] eqn:Hs.
  { subst eintr. exists true, st, w, []. split; [ done | ]. by apply ran_spec_same. }
  destruct (main_round_selected r st w rs1 ws to' Hround Hinv Ha Hw Hrs1 Hws rds wds Hs)
    as (st1 & Hcr & Hok1 & Hok2 & _ & H1).
  rewrite Hcr. cbn [mbind outcome_bind]. unfold run_ready.
  destruct (run_loop_ok fuel _ w (mk_fdset (nsds rs1) rds) (mk_fdset (nsds ws) wds)
    (rs_inv _ _ _ _ H1) (rs_idle _ _ _ _ H1) (rs_client _ _ _ _ H1) Hok1 Hok2)
    as (b & st2 & w2 & rs2 & ws2 & l & tr & Hl & Hi2 & Ha2 & Hw2 & Hrs2 & _ & Hbag & Hran).
  rewrite Hl. cbn [mbind outcome_bind].
  assert (H2 : ran_spec st l st2 w2).
  { apply (ran_spec_trans _ [] _ w l st2 w2 H1). split; try done. by exists tr. }
  destruct b; [ | eauto 10 ]. destruct (round_signal _ _ _ _ pr rs2 Hpr H2) as (b & -> & H3).
  cbn [mbind outcome_bind]. by eexists _, _, _, _.
Qed.

(** Any other failure of [select] ends the process. *)
Lemma main_round_aborts fuel pr r st w :
  is_fd pr -> is_abs (clock_update r) -> sched_inv st ->
  (forall rs ws to, select r rs ws to = SelectError false) ->
  main_round run_callback fuel pr r st w = AssertFailed.
Proof.
  intros Hpr Hc Hinv Hsel. unfold main_round.
  destruct (update_sets_ok st _ Hinv Hc) as (rs & ws & to & Hu & Hrs & Hws & _). rewrite Hu.
  cbn [mbind outcome_bind]. rewrite handle_set_native, set_native_ok by done. cbn [mbind outcome_bind].
  by rewrite Hsel.
Qed.

Lemma main_loop_ok fuel pr rounds : is_fd pr -> Forall round_ok rounds -> forall st w,
  sched_inv st -> active_task st = NoTask -> I w (bag_of st) ->
  exists e st' w' l, main_loop run_callback fuel pr rounds st w = Ret (e, st', w', l)
    /\ ran_spec st l st' w' /\ (e = true -> pending st' = [] /\ pending_timeout st' = [] /\ ready_count st' = 0).
Proof.
  intros Hpr. induction 1 as [|r rounds Hr Hrs IH]; intros st w Hinv Ha Hw; cbn [main_loop].
  { exists false, st, w, []. split_and!; [ done | by apply ran_spec_same | done ]. }
  destruct (check_lifeness_ok st w Hinv Ha Hw) as (H1 & Hok & Hno).
  destruct (check_lifeness st) as [ok st1] eqn:El. cbn [fst snd] in *.
  destruct (Z.eqb_spec ok GNUNET_OK) as [->|Hne]; cbn [negb].
  2:{ destruct Hok as [Hok|Hok]; [ done | ]. exists true, st1, w, []. split_and!; [ done | done | ]. intros _.
      assert (Hst : st1 = st); [ | rewrite Hst; by apply Hno ]. revert El. unfold check_lifeness.
      repeat case_match; naive_solver. }
  destruct (main_round_ok fuel pr r st1 w Hpr Hr (rs_inv _ _ _ _ H1) (rs_idle _ _ _ _ H1) (rs_client _ _ _ _ H1))
    as (b & st2 & w2 & l & Hm & H2). rewrite Hm. cbn [mbind outcome_bind].
  pose proof (ran_spec_trans _ [] _ _ _ _ _ H1 H2) as H12. cbn [app] in H12.
  destruct b; [ | exists false, st2, w2, l; split_and!; done ].
  destruct (IH st2 w2 (rs_inv _ _ _ _ H2) (rs_idle _ _ _ _ H2) (rs_client _ _ _ _ H2))
    as (e & st3 & w3 & l' & Hl & H3 & He). rewrite Hl. cbn [mbind outcome_bind].
  eexists _, _, _, _. split_and!; [ done | by eapply ran_spec_trans | done ].
Qed.

End Clients.

(** ** The whole scheduler *)

Lemma timeouts_nil : timeouts_ok [].
Proof. exists [], []. split_and!; [ done | constructor | constructor | constructor ]. Qed.

Lemma sched_init_ok : sched_inv sched_init.
Proof.
  split; try done.
  - split; constructor.
  - apply timeouts_nil.
Qed.

(** The first task, and the one that installs the control handler *)
Definition first_task (task cls : nat) : Task :=
  mk_task task cls None None 1 (mk_abs 0) 0 3 (-1) (-1) GNUNET_YES.
Definition control_task (now : GNUNET_TIME_Absolute) (task : nat) : Task :=
  mk_task task 0 None None 2 (GNUNET_TIME_relative_to_absolute now GNUNET_TIME_UNIT_ZERO) 0 3 (-1) (-1) GNUNET_NO.

Lemma scheduler_start_ok now task cls parent_control :
  task <> 0%nat -> parent_control <> 0%nat ->
  exists st, scheduler_start now sched_init task cls parent_control = Ret st /\ sched_inv st
    /\ active_task st = NoTask /\ live st = [control_task now parent_control; first_task task cls]
    /\ last_id st = 2.
Proof.
  intros Ht Hp. unfold scheduler_start, GNUNET_SCHEDULER_add_continuation,
    GNUNET_SCHEDULER_add_continuation_with_priority, GNUNET_SCHEDULER_add_now_with_lifeness,
    GNUNET_SCHEDULER_add_select, add_pending.
  rewrite !gnunet_assert_task by done. cbn. eexists. split; [ done | ].
  split_and!; try done. split; try done.
  - change (Forall task_ok [control_task now parent_control; first_task task cls]).
    constructor; [ | constructor; [ | constructor ] ];
      (apply task_ok_fds; [ lia | try done | by left | by left ]).
  - change (ids_ok [control_task now parent_control; first_task task cls] 2).
    split; [ | repeat constructor; cbn; lia ]. cbn. apply NoDup_cons. split; [ set_solver | apply NoDup_singleton ].
  - apply timeouts_nil.
Qed.

Lemma ids_ok_perm_bag L L' n : L ≡ₚ L' -> ids_ok L n -> ids_ok L' n.
Proof. intros Hp. apply ids_ok_cores. by rewrite Hp. Qed.

(** In the specification no task runs twice, and none runs that is still there. *)
Lemma bag_steps_once b tr b' :
  bag_steps b tr b' -> ids_ok b.1 b.2 -> 0 <= b.2 ->
  NoDup (id <$> ran tr ++ b'.1)
  /\ forall i, i ∈ id <$> ran tr ++ b'.1 -> i ∈ id <$> b.1 \/ b.2 < i.
Proof.
  induction 1 as [L L' n Hp|b l b' tr b'' Hs Hss IH]; intros Hids Hn; cbn [fst snd] in *.
  { cbn [app]. change (ran []) with (@nil Task). cbn [app].
    split; [ rewrite <- Hp; apply Hids | intros i; rewrite <- Hp; auto ]. }
  destruct Hs as [L n t L' Hid Hp|L n t L' Hp|L n t L' Hp]; cbn [fst snd] in *.
  - destruct IH as [IH1 IH2]; [ | lia | ].
    { apply (ids_ok_perm_bag (core t :: L)); [ by rewrite Hp | by apply ids_ok_cons ]. }
    change (ran (Added (core t) :: tr)) with (ran tr). split; [ done | ]. intros i Hi.
    apply IH2 in Hi as [Hi|Hi]; [ | right; lia ]. rewrite Hp in Hi. cbn in Hi.
    apply elem_of_cons in Hi as [->|Hi]; [ right; rewrite Hid; lia | by left ].
  - assert (Hids' : ids_ok (core t :: L') n) by by eapply ids_ok_perm_bag.
    destruct IH as [IH1 IH2]; [ by eapply ids_ok_tail | done | ].
    change (ran (Cancelled (core t) :: tr)) with (ran tr). split; [ done | ]. intros i Hi.
    apply IH2 in Hi as [Hi|Hi]; [ | by right ]. left. rewrite Hp. cbn. by right.
  - assert (Hids' : ids_ok (core t :: L') n) by by eapply ids_ok_perm_bag.
    destruct IH as [IH1 IH2]; [ by eapply ids_ok_tail | done | ].
    change (ran (Ran (core t) :: tr)) with (core t :: ran tr). cbn [app fmap list_fmap]. split.
    + constructor; [ | done ]. intros Hin. apply IH2 in Hin. destruct Hids' as [Hnd Hb].
      cbn in Hnd. apply NoDup_cons in Hnd as [Hnd _]. apply Forall_cons in Hb as [Hb _].
      destruct Hin as [Hin|Hin]; [ done | ]. lia.
    + intros i [->|Hi]%elem_of_cons; [ left; rewrite Hp; cbn; by left | ].
      apply IH2 in Hi as [Hi|Hi]; [ | by right ]. left. rewrite Hp. cbn. by right.
Qed.


(** A client that schedules one more task each time it runs, [w] times *)
Definition sample_callback (w : nat) (t : Task) (tc : GNUNET_SCHEDULER_TaskContext) : prog nat :=
  match w with
  | O => Done O
  | S w => Call (mk_abs 0) (AddDelayed (mk_rel 5) 4 1 0) (fun _ => Done w)
  end.

Definition sample_client (w : nat) (b : bag) : Prop := b.2 + Z.of_nat w < 2 ^ 64.

Lemma sample_client_ok : client_ok sample_callback sample_client.
Proof.
  split; [ done | ]. intros [|w] t tc st Hinv Hrun HI; unfold sample_client in *; cbn [snd] in HI.
  { split; [ done | ]. intros st' w' [= <- <-]. done. }
  assert (Hm : may_add st 1) by (split; [ lia | done ]).
  assert (Ha : is_active st = true) by (unfold is_active; by rewrite Hrun).
  split.
  { split; [ by split | ]. done. }
  cbn [sample_callback exec api]. intros st' w'. unfold GNUNET_SCHEDULER_add_delayed_with_priority.
  rewrite gnunet_assert_active by done. cbn [gnunet_assert Nat.eqb negb mbind outcome_bind].
  destruct (start_position _ _) as [k| |]; cbn [mbind outcome_bind]; [ | done | done ].
  intros [= <- <-]. cbn [bag_of snd set_timeouts set_last_id last_id]. rewrite last_id_next by (done || lia). lia.
Qed.

(** Nothing is readable; one second passes in each round. *)
Definition sample_round (now : Z) : round := mk_round (mk_abs now) (mk_abs now) (fun _ _ _ => Selected ∅ ∅).

Lemma sample_round_ok now : 0 <= now < 2 ^ 64 -> round_ok (sample_round now).
Proof. intros H. split_and!; [ done | done | ]. cbn. set_solver. Qed.

Definition sample_rounds : list round :=
  [sample_round 1000; sample_round 2000; sample_round 3000; sample_round 4000; sample_round 5000].

(** Whether the scheduler has returned, and the tasks it has run *)
Definition summary (o : outcome (bool * scheduler * nat * list (nat * Task))) : option (bool * list Z) :=
  match o with Ret (e, _, _, l) => Some (e, id <$> l.*2) | _ => None end.


(** The state after the start of the scheduler *)
Definition sample_state : scheduler :=
  match scheduler_start (mk_abs 0) sched_init 1 0 2 with Ret st => st | _ => sched_init end.

Lemma sample_state_ok : sched_inv sample_state /\ active_task sample_state = NoTask.
Proof.
  destruct (scheduler_start_ok (mk_abs 0) 1 0 2) as (st & Hst & Hinv & Ha & _); [ done | done | ].
  unfold sample_state. by rewrite Hst.
Qed.

(** C18: check_ready moves exactly the tasks that have a reason to run
    (timeout reached, descriptor ready, shutdown) out of the pending lists,
    although it stops at the first task of the sorted list that has to wait:
    each is put with exactly its reasons into the queue of its priority (of
    shutdown if it has that reason), nothing else changes, and the invariant
    is kept. *)
Theorem scheduler_check_ready_exact (st : scheduler) (now : GNUNET_TIME_Absolute)
  (rs ws : GNUNET_NETWORK_FDSet) :
  sched_inv st -> fdset_ok rs -> fdset_ok ws ->
  exists st', check_ready st now rs ws = Ret st' /\ sched_inv st'
    /\ core <$> live st' ≡ₚ core <$> live st /\ ready_spec now rs ws st st'.
Proof. apply check_ready_ok. Qed.

Lemma scheduler_check_ready_exact_witness :
  exists st', check_ready sample_state (mk_abs 0) GNUNET_NETWORK_fdset_zero GNUNET_NETWORK_fdset_zero = Ret st'
    /\ pending st' = [] /\ sched_inv st'.
Proof.
  destruct (scheduler_check_ready_exact sample_state (mk_abs 0) GNUNET_NETWORK_fdset_zero
    GNUNET_NETWORK_fdset_zero) as (st' & Hst' & Hinv & _ & Hspec).
  - apply sample_state_ok.
  - apply fdset_zero_ok.
  - apply fdset_zero_ok.
  - exists st'. split; [ exact Hst' | split; [ | exact Hinv ] ].
    rewrite (rd_pending _ _ _ _ _ Hspec). vm_compute. reflexivity.
Defined.

(** C26: The timeout that update_sets gives to select, which looks only at the
    head of the sorted list, is the minimum over all tasks of the time that
    remains (zero if some task already has a reason to run), and the sets are
    exactly the descriptors that the pending tasks wait for, apart from
    descriptor 0 of a set. *)
Theorem scheduler_sleeps_until_next_task (st : scheduler) (now : GNUNET_TIME_Absolute) :
  sched_inv st -> is_abs now ->
  exists rs ws to, update_sets st now GNUNET_NETWORK_fdset_zero GNUNET_NETWORK_fdset_zero
      GNUNET_TIME_UNIT_FOREVER_REL = Ret (rs, ws, to)
    /\ fdset_ok rs /\ fdset_ok ws
    /\ rel_value to = next_wakeup now (pending_timeout st ++ pending st) UINT64_MAX
    /\ sds rs = ⋃ ((fun t => wanted (read_fd t) (read_set t)) <$> pending st)
    /\ sds ws = ⋃ ((fun t => wanted (write_fd t) (write_set t)) <$> pending st).
Proof. apply update_sets_ok. Qed.

Lemma scheduler_sleeps_until_next_task_witness :
  exists rs ws to, update_sets sample_state (mk_abs 0) GNUNET_NETWORK_fdset_zero GNUNET_NETWORK_fdset_zero
      GNUNET_TIME_UNIT_FOREVER_REL = Ret (rs, ws, to) /\ rel_value to = 0.
Proof.
  destruct (scheduler_sleeps_until_next_task sample_state (mk_abs 0)) as (rs & ws & to & Hu & _ & _ & Hto & _).
  - apply sample_state_ok.
  - unfold is_abs, is_u64. cbn. lia.
  - exists rs, ws, to. split; [ exact Hu | ]. rewrite Hto. vm_compute. reflexivity.
Defined.

(** ** Order and termination *)

(** Programs that only make calls of a kind *)
Fixpoint only {W} (P : call -> Prop) (p : prog W) : Prop :=
  match p with
  | Done _ => True
  | Call _ c k => P c /\ forall r, only P (k r)
  end.

Definition no_continuation (c : call) : Prop :=
  match c with AddContinuation _ _ _ _ => False | _ => True end.

Definition no_add (c : call) : Prop :=
  match c with Cancel _ | Shutdown | GetReason | GetLoad _ => True | _ => False end.

Definition shorter (q q' : list Task) : Prop := (length q' <= length q)%nat.

Lemma shorter_refl (qs : list (list Task)) : Forall2 shorter qs qs.
Proof. apply Forall2_same_length_lookup_2; [ done | ]. intros i x y -> [= ->]. unfold shorter. lia. Qed.

Lemma shorter_trans (q1 q2 q3 : list (list Task)) :
  Forall2 shorter q1 q2 -> Forall2 shorter q2 q3 -> Forall2 shorter q1 q3.
Proof.
  intros H1. revert q3. induction H1 as [|a b l l' Hab Hl IH]; intros q3 H2; inversion H2; subst; constructor.
  - unfold shorter in *. lia.
  - by apply IH.
Qed.

Lemma shorter_insert qs p q q' :
  qs !! p = Some q -> shorter q q' -> Forall2 shorter qs (<[p := q']> qs).
Proof.
  intros Hp Hs. rewrite <- (list_insert_id qs p q Hp) at 1. apply Forall2_insert; [ apply shorter_refl | done ].
Qed.

Lemma shorter_concat qs qs' : Forall2 shorter qs qs' -> (length (concat qs') <= length (concat qs))%nat.
Proof. induction 1 as [|q q' qs qs' Hq _ IH]; cbn; [ done | ]. rewrite !length_app. unfold shorter in *. lia. Qed.

Lemma shorter_empty qs qs' p :
  Forall2 shorter qs qs' -> (forall t, ~ in_queue qs p t) -> forall t, ~ in_queue qs' p t.
Proof.
  intros Hs He t (q' & Hq' & Hin). destruct (Forall2_lookup_r _ _ _ _ _ Hs Hq') as (q & Hq & Hle).
  unfold shorter in Hle. destruct q as [|x q].
  - cbn in Hle. destruct q'; [ by apply elem_of_nil in Hin | cbn in Hle; lia ].
  - apply (He x). exists (x :: q). split; [ done | by left ].
Qed.

Lemma api_shorter now st c r st' :
  api now st c = Ret (r, st') -> no_continuation c -> Forall2 shorter (ready st) (ready st').
Proof.
  destruct c as [task cls rr p|d p task cls|d p rfd wfd task cls|p d rs ws task cls|l task cls|i| | |p];
    cbn [api]; intros H Hc; try done.
  - unfold GNUNET_SCHEDULER_add_delayed_with_priority in H. inv_ret H. injection H as <- <-. apply shorter_refl.
  - unfold add_without_sets, add_pending in H. inv_ret H. injection H as <- <-. apply shorter_refl.
  - unfold GNUNET_SCHEDULER_add_select, add_pending in H. inv_ret H. injection H as <- <-. apply shorter_refl.
  - unfold GNUNET_SCHEDULER_add_now_with_lifeness, GNUNET_SCHEDULER_add_select, add_pending in H.
    inv_ret H. destruct (pending s); [ done | ]. inv_ret H. injection H as <- <-.
    inv_ret Hret. injection Hret as <- <-. apply shorter_refl.
  - apply bind_Ret_inv in H as ([cls s] & Hc' & [= <- <-]). unfold GNUNET_SCHEDULER_cancel in Hc'.
    apply bind_Ret_inv in Hc' as (u & _ & Hc').
    destruct (find_task i (pending st)) as [[k t]|]; [ injection Hc' as <- <-; apply shorter_refl | ].
    destruct (find_task i (pending_timeout st)) as [[k t]|]; [ injection Hc' as <- <-; apply shorter_refl | ].
    destruct (cancel_ready _ _ _) as [[[p k] t]|]; [ | done ].
    destruct (ready st !! p) as [q|] eqn:Hq; [ | done ]. cbn in Hc'. injection Hc' as <- <-.
    apply (shorter_insert _ _ q _ Hq). unfold shorter. apply sublist_length, sublist_delete.
  - injection H as <- <-.
    change (ready (GNUNET_SCHEDULER_shutdown st)) with ((fmap marked : list Task -> list Task) <$> ready st).
    apply Forall2_fmap_r. eapply Forall2_impl; [ apply shorter_refl | ].
    intros q q' Hq. unfold compose, shorter in *. by rewrite length_fmap.
  - apply bind_Ret_inv in H as (x & _ & [= <- <-]). apply shorter_refl.
  - apply bind_Ret_inv in H as (x & _ & [= <- <-]). apply shorter_refl.
Qed.

Lemma exec_shorter {W} (p : prog W) : forall st st' w,
  exec p st = Ret (st', w) -> only no_continuation p -> Forall2 shorter (ready st) (ready st').
Proof.
  induction p as [w0|now c k IH]; cbn [exec only]; intros st st' w He Ho.
  - injection He as <- <-. apply shorter_refl.
  - apply bind_Ret_inv in He as ([r st1] & Ha & He). destruct Ho as [Hc Hk].
    eapply shorter_trans; [ by eapply api_shorter | by eapply IH ].
Qed.

Lemma in_queue_insert qs p q p' t : p' <> p -> in_queue (<[p := q]> qs) p' t -> in_queue qs p' t.
Proof. intros Hne (q' & Hq & Hin). exists q'. by rewrite list_lookup_insert_ne in Hq. Qed.

Lemma pick_shorter qs p pos next qs' :
  qs !! p = Some (pos :: next) -> Forall2 shorter (<[p := next]> qs) qs' ->
  (length (concat qs') < length (concat qs))%nat.
Proof.
  intros Hp Hsh. apply shorter_concat in Hsh.
  destruct (concat_insert _ _ (pos :: next) next Hp) as (pre & post & Ha & Hb).
  rewrite Hb in Hsh. rewrite Ha. rewrite !length_app in *. cbn [length]. lia.
Qed.

Section Order.
Context {W : Type} (run_callback : W -> Task -> GNUNET_SCHEDULER_TaskContext -> prog W).
Context (I : W -> bag -> Prop) (HI : client_ok run_callback I).
Hypothesis no_continuations : forall w t tc, only no_continuation (run_callback w t tc).

(** The loop ends, and the queues it takes tasks from are in order. *)
Lemma run_loop_order fuel : forall st w rs ws m,
  sched_inv st -> active_task st = NoTask -> I w (bag_of st) -> fdset_ok rs -> fdset_ok ws ->
  (length (concat (ready st)) < fuel)%nat -> (forall p t, (m < p <= 7)%nat -> ~ in_queue (ready st) p t) ->
  exists st' w' rs' ws' l,
    run_loop run_callback fuel st w rs ws = Ret (true, st', w', rs', ws', l)
    /\ StronglySorted ge l.*1 /\ Forall (fun p => (p <= m)%nat) l.*1
    /\ (ready_count st' = 0 \/
        pending st' <> [] /\ exists p, last l.*1 = Some p /\ Z.of_nat p < max_priority_added st')
    /\ (ready_count st <> 0 -> l <> []).
Proof.
  induction fuel as [|fuel IH]; intros st w rs ws m Hinv Hact HIw Hrs Hws Hf Hm; [ lia | ]. cbn [run_loop].
  destruct (Z.eqb_spec (ready_count st) 0) as [H0|H0].
  { eexists _, _, _, _, _. split_and!; [ done | constructor | constructor | by left | done ]. }
  destruct (run_task_ok run_callback I HI st w rs ws Hinv Hact H0 HIw Hrs Hws) as
    (p & pos & next & tc & st2 & w' & rs' & ws' & tr & Hh & He & Hr & Hinv' & HI' & Hrs' & Hws' & _).
  rewrite Hr. cbn [mbind outcome_bind].
  destruct (highest_ready_some _ _ _ _ _ Hh) as (Hp & Hp7 & Habove).
  pose proof (exec_shorter _ _ _ _ He (no_continuations w pos tc)) as Hsh.
  cbn [picked ready set_active set_current set_ready] in Hsh.
  assert (Hpm : (p <= m)%nat).
  { destruct (decide (p <= m)%nat) as [|Hn]; [ done | ]. exfalso. apply (Hm p pos ltac:(lia)).
    exists (pos :: next). split; [ done | by left ]. }
  set (st' := set_tasks_run _ _) in *.
  assert (Hlen : (length (concat (ready st')) < length (concat (ready st)))%nat).
  { by eapply pick_shorter. }
  assert (Hm' : forall p' t, (p < p' <= 7)%nat -> ~ in_queue (ready st') p' t).
  { intros p' t Hp' Hin. eapply (shorter_empty _ _ p' Hsh); [ | exact Hin ]. intros t' Ht'.
    apply in_queue_insert in Ht'; [ | lia ]. by apply (Habove p' Hp' t'). }
  destruct (bool_decide (pending st' = []) || (max_priority_added st' <=? Z.of_nat p)) eqn:Hcond.
  - destruct (IH st' w' rs' ws' p) as (st3 & w3 & rs3 & ws3 & l & Hl & Hs & Hb & Hend & _); try done; [ lia | ].
    rewrite Hl. cbn [mbind outcome_bind]. eexists _, _, _, _, _. split_and!; [ done | | | | done ]; cbn [fmap list_fmap fst].
    + constructor; [ done | ]. eapply Forall_impl; [ exact Hb | ]. cbn. lia.
    + constructor; [ done | ]. eapply Forall_impl; [ exact Hb | ]. cbn. lia.
    + destruct Hend as [|(Hne & p3 & Hp3 & Hlt)]; [ by left | ]. right. split; [ done | ]. exists p3.
      split; [ | done ]. rewrite last_cons, Hp3. done.
  - apply orb_false_iff in Hcond as [Hc1 Hc2]. apply bool_decide_eq_false in Hc1. apply Z.leb_gt in Hc2.
    eexists _, _, _, _, _. split_and!; [ done | | | | done ]; cbn [fmap list_fmap fst].
    + by repeat constructor.
    + by constructor.
    + right. split; [ done | ]. by exists p.
Qed.

End Order.

(** If callbacks add no continuations, run_ready terminates within as
    many passes as tasks are ready: it runs at least one ready task, always
    one of the highest non-empty priority, so in non-increasing order of
    priority, and stops when the queues are empty or a pending task of higher
    priority was added. *)
Theorem scheduler_run_ready_terminates {W : Type}
  (run_callback : W -> Task -> GNUNET_SCHEDULER_TaskContext -> prog W) (I : W -> bag -> Prop)
  (fuel : nat) (st : scheduler) (w : W) (rs ws : GNUNET_NETWORK_FDSet) :
  client_ok run_callback I -> (forall w t tc, only no_continuation (run_callback w t tc)) ->
  sched_inv st -> active_task st = NoTask -> I w (bag_of st) -> fdset_ok rs -> fdset_ok ws ->
  (length (concat (ready st)) < fuel)%nat ->
  exists st' w' rs' ws' l,
    run_ready run_callback fuel st w rs ws = Ret (true, st', w', rs', ws', l)
    /\ StronglySorted ge l.*1
    /\ (ready_count st' = 0 \/
        pending st' <> [] /\ exists p, last l.*1 = Some p /\ Z.of_nat p < max_priority_added st')
    /\ (ready_count st <> 0 -> l <> []).
Proof.
  intros HI Hno Hinv Hact Hw Hrs Hws Hf. unfold run_ready.
  destruct (run_loop_order run_callback I HI Hno fuel (set_max_priority st GNUNET_SCHEDULER_PRIORITY_KEEP)
    w rs ws 7) as (st' & w' & rs' & ws' & l & Hl & Hs & _ & Hend & Hne); try done.
  - split; apply Hinv.
  - intros p t Hp. lia.
  - by exists st', w', rs', ws', l.
Qed.

Lemma scheduler_run_ready_terminates_witness :
  exists st' w' rs' ws' l,
    run_ready sample_callback 2 sample_state 2%nat GNUNET_NETWORK_fdset_zero GNUNET_NETWORK_fdset_zero
      = Ret (true, st', w', rs', ws', l) /\ l <> [].
Proof.
  destruct (scheduler_run_ready_terminates sample_callback sample_client 2 sample_state 2%nat
    GNUNET_NETWORK_fdset_zero GNUNET_NETWORK_fdset_zero) as (st' & w' & rs' & ws' & l & Hr & _ & _ & Hne).
  - exact sample_client_ok.
  - intros [|w] t tc; cbn; [ exact Logic.I | split; [ exact Logic.I | intros r; exact Logic.I ] ].
  - apply sample_state_ok.
  - apply sample_state_ok.
  - vm_compute. reflexivity.
  - apply fdset_zero_ok.
  - apply fdset_zero_ok.
  - vm_compute. lia.
  - exists st', w', rs', ws', l. split; [ exact Hr | ]. apply Hne. vm_compute. discriminate.
Defined.

(** ** Shutdown *)

Lemma api_no_add now st c r st' :
  api now st c = Ret (r, st') -> no_add c ->
  (length (pending st') <= length (pending st))%nat
  /\ (length (pending_timeout st') <= length (pending_timeout st))%nat /\ last_id st' = last_id st.
Proof.
  destruct c as [task cls rr p|d p task cls|d p rfd wfd task cls|p d rs ws task cls|l task cls|i| | |p];
    cbn [api]; intros H Hc; try done.
  - apply bind_Ret_inv in H as ([cls s] & Hc' & [= <- <-]). unfold GNUNET_SCHEDULER_cancel in Hc'.
    apply bind_Ret_inv in Hc' as (u & _ & Hc').
    destruct (find_task i (pending st)) as [[k t]|].
    { injection Hc' as <- <-. cbn. split_and!; [ | done | done ]. apply sublist_length, sublist_delete. }
    destruct (find_task i (pending_timeout st)) as [[k t]|].
    { injection Hc' as <- <-. cbn. split_and!; [ done | | done ]. apply sublist_length, sublist_delete. }
    destruct (cancel_ready _ _ _) as [[[p k] t]|]; [ | done ].
    destruct (ready st !! p) as [q|] eqn:Hq; [ | done ]. cbn in Hc'. by injection Hc' as <- <-.
  - injection H as <- <-. unfold GNUNET_SCHEDULER_shutdown.
    cbn [pending pending_timeout set_ready set_pending set_timeouts]. rewrite !length_fmap. done.
  - by apply bind_Ret_inv in H as (x & _ & [= <- <-]).
  - by apply bind_Ret_inv in H as (x & _ & [= <- <-]).
Qed.

Lemma exec_no_add {W} (p : prog W) : forall st st' w,
  exec p st = Ret (st', w) -> only no_add p -> pending st = [] -> pending_timeout st = [] ->
  pending st' = [] /\ pending_timeout st' = [] /\ last_id st' = last_id st.
Proof.
  induction p as [w0|now c k IH]; cbn [exec only]; intros st st' w He Ho H1 H2.
  - by injection He as <- <-.
  - apply bind_Ret_inv in He as ([r st1] & Ha & He). destruct Ho as [Hc Hk].
    destruct (api_no_add _ _ _ _ _ Ha Hc) as (Hl1 & Hl2 & <-). rewrite H1, H2 in *. cbn in Hl1, Hl2.
    eapply IH; [ exact He | by apply Hk | apply nil_length_inv; lia | apply nil_length_inv; lia ].
Qed.

Lemma only_weaken {W} (P Q : call -> Prop) (p : prog W) : (forall c, P c -> Q c) -> only P p -> only Q p.
Proof. intros HPQ. induction p as [w|now c k IH]; cbn; [ done | ]. intros [Hc Hk]. auto. Qed.

Section ShutdownRun.
Context {W : Type} (run_callback : W -> Task -> GNUNET_SCHEDULER_TaskContext -> prog W).
Context (I : W -> bag -> Prop) (HI : client_ok run_callback I).
Hypothesis no_adds : forall w t tc, only no_add (run_callback w t tc).

(** With nothing pending, the loop of [run_ready] only ends when the queues are empty. *)
Lemma run_loop_empties fuel : forall st w rs ws,
  sched_inv st -> active_task st = NoTask -> I w (bag_of st) -> fdset_ok rs -> fdset_ok ws ->
  (length (concat (ready st)) < fuel)%nat -> Z.of_nat (length (concat (ready st))) < 2 ^ 32 ->
  pending st = [] -> pending_timeout st = [] ->
  exists st' w' rs' ws' l,
    run_loop run_callback fuel st w rs ws = Ret (true, st', w', rs', ws', l) /\ live st' = []
    /\ last_id st' = last_id st.
Proof.
  induction fuel as [|fuel IH]; intros st w rs ws Hinv Hact HIw Hrs Hws Hf Hlt Hp1 Hp2; [ lia | ]. cbn [run_loop].
  destruct (Z.eqb_spec (ready_count st) 0) as [H0|H0].
  { eexists _, _, _, _, _. split_and!; [ done | | done ]. unfold live. rewrite Hp1, Hp2. cbn.
    rewrite (q_count _ _ (inv_queues _ Hinv)), u32_small in H0 by (unfold is_u32; lia).
    apply nil_length_inv. lia. }
  destruct (run_task_ok run_callback I HI st w rs ws Hinv Hact H0 HIw Hrs Hws) as
    (p & pos & next & tc & st2 & w' & rs' & ws' & tr & Hh & He & Hr & Hinv' & HI' & Hrs' & Hws' & _).
  rewrite Hr. cbn [mbind outcome_bind].
  destruct (highest_ready_some _ _ _ _ _ Hh) as (Hp & Hp7 & Habove).
  assert (Hsh : Forall2 shorter (<[p := next]> (ready st)) (ready st2)).
  { eapply (exec_shorter _ (picked st p pos next)); [ exact He | ].
    eapply only_weaken; [ | apply no_adds ]. by intros []. }
  destruct (exec_no_add _ _ _ _ He (no_adds w pos tc) Hp1 Hp2) as (Hp1' & Hp2' & Hid').
  set (st' := set_tasks_run _ _) in *.
  assert (Hlen : (length (concat (ready st')) < length (concat (ready st)))%nat).
  { by eapply pick_shorter. }
  rewrite bool_decide_eq_true_2 by done. cbn [orb].
  destruct (IH st' w' rs' ws') as (st3 & w3 & rs3 & ws3 & l & Hl & Hlive & Hid); try done; [ lia | lia | ].
  rewrite Hl. cbn [mbind outcome_bind]. eexists _, _, _, _, _. split_and!; [ done | done | by rewrite Hid ].
Qed.

(** Every task has a reason to run. *)
Definition all_due (st : scheduler) : Prop :=
  Forall (fun t => reason t <> 0) (pending st) /\ Forall (fun t => reason t <> 0) (pending_timeout st).

Lemma marked_due (l : list Task) : Forall (fun t => reason t <> 0) (marked <$> l).
Proof. apply Forall_fmap, Forall_true. intros t. apply marked_reason. Qed.

Lemma shutdown_due st : all_due (GNUNET_SCHEDULER_shutdown st).
Proof. split; apply marked_due. Qed.

Lemma ready_spec_due now rs ws st st' :
  ready_spec now rs ws st st' -> all_due st -> pending st' = [] /\ pending_timeout st' = [].
Proof.
  intros [Hp Ht _ _] [H1 H2]. rewrite Hp, Ht. split; apply filter_none.
  - eapply Forall_impl; [ exact H1 | ]. intros t Hr Hz. apply Hr. unfold reasons in Hz.
    rewrite !Z.lor_eq_0_iff in Hz. tauto.
  - eapply Forall_impl; [ exact H2 | ]. intros t Hr Hz. apply Hr. by apply timeout_reasons_0 in Hz as [? _].
Qed.

Lemma live_ready st : pending st = [] -> pending_timeout st = [] -> live st = concat (ready st).
Proof. unfold live. by intros -> ->. Qed.

(** A round in which every task has a reason to run *)
Lemma main_round_due fuel pr r st w :
  is_fd pr -> round_ok r -> (forall rs ws to e, select r rs ws to <> SelectError e) ->
  sched_inv st -> active_task st = NoTask -> I w (bag_of st) -> all_due st ->
  (length (live st) < fuel)%nat -> Z.of_nat (length (live st)) < 2 ^ 32 ->
  exists st' w' l, main_round run_callback fuel pr r st w = Ret (true, st', w', l)
    /\ ran_spec I st l st' w' /\ live st' = [] /\ last_id st' = last_id st.
Proof.
  intros Hpr Hround Hnoerr Hinv Ha Hw Hdue Hf Hlt. unfold main_round. pose proof Hround as (Hc1 & Hc2 & _).
  destruct (update_sets_ok st _ Hinv Hc1) as (rs & ws & to & Hu & Hrs & Hws & _). rewrite Hu.
  cbn [mbind outcome_bind]. rewrite handle_set_native, set_native_ok by done. cbn [mbind outcome_bind].
  pose proof (fdset_insert_ok rs pr Hrs Hpr) as Hrs1. set (rs1 := mk_fdset _ _) in *.
  set (to' := if 0 <? ready_count st then _ else _).
  destruct (select r rs1 ws to') as [e|rds wds] eqn:Hs; [ by apply Hnoerr in Hs | ].
  destruct (main_round_selected run_callback I HI r st w rs1 ws to' Hround Hinv Ha Hw Hrs1 Hws rds wds Hs)
    as (st1 & Hcr & Hok1 & Hok2 & Hspec & H1).
  rewrite Hcr. cbn [mbind outcome_bind]. unfold run_ready.
  destruct (ready_spec_due _ _ _ _ _ Hspec Hdue) as [Hp1 Hp2].
  set (st1' := set_max_priority st1 _) in *.
  assert (Hcount : length (concat (ready st1')) = length (live st)).
  { destruct (rs_bag _ _ _ _ _ H1) as (tr & Hb & Hr). rewrite <- (live_ready st1') by done.
    destruct (check_ready_ok st (clock_check r) (mk_fdset (nsds rs1) rds) (mk_fdset (nsds ws) wds) Hinv Hok1 Hok2)
      as (st1b & Hcr' & _ & Hc & _). rewrite Hcr in Hcr'. injection Hcr' as <-.
    apply Permutation_length in Hc. by rewrite !length_fmap in Hc. }
  destruct (run_loop_empties fuel st1' w (mk_fdset (nsds rs1) rds) (mk_fdset (nsds ws) wds)
    (rs_inv _ _ _ _ _ H1) (rs_idle _ _ _ _ _ H1) (rs_client _ _ _ _ _ H1) Hok1 Hok2)
    as (st2 & w2 & rs2 & ws2 & l & Hl & Hlive & Hid); [ lia | lia | done | done | ].
  destruct (run_loop_ok run_callback I HI fuel st1' w (mk_fdset (nsds rs1) rds) (mk_fdset (nsds ws) wds)
    (rs_inv _ _ _ _ _ H1) (rs_idle _ _ _ _ _ H1) (rs_client _ _ _ _ _ H1) Hok1 Hok2)
    as (b & st2' & w2' & rs2' & ws2' & l' & tr & Hl' & Hi2 & Ha2 & Hw2 & _ & _ & Hbag & Hran).
  rewrite Hl in Hl'. injection Hl' as <- <- <- <- <- <-. rewrite Hl. cbn [mbind outcome_bind].
  assert (H2 : ran_spec I st l st2 w2).
  { apply (ran_spec_trans I _ [] _ w l st2 w2 H1). split; try done. by exists tr. }
  destruct (round_signal run_callback I HI _ _ _ _ pr rs2 Hpr H2) as (b & -> & H3). cbn [mbind outcome_bind].
  assert (Hid1 : last_id st1' = last_id st) by apply (rd_frame _ _ _ _ _ Hspec).
  eexists _, _, _. split_and!; [ done | done | | ]; destruct b; try done; try congruence.
  - by rewrite live_shutdown, Hlive.
  - cbn. congruence.
Qed.

End ShutdownRun.

Lemma lifeness_due st :
  all_due st -> all_due (check_lifeness st).2 /\ length (live (check_lifeness st).2) = length (live st)
  /\ last_id (check_lifeness st).2 = last_id st.
Proof.
  intros Hd. assert (Hs : forall b : bool, all_due (if b then GNUNET_SCHEDULER_shutdown st else st)
    /\ length (live (if b then GNUNET_SCHEDULER_shutdown st else st)) = length (live st)
    /\ last_id (if b then GNUNET_SCHEDULER_shutdown st else st) = last_id st).
  { intros []; split_and!; try done; [ apply shutdown_due | by rewrite live_shutdown, length_fmap ]. }
  unfold check_lifeness. destruct (0 <? ready_count st); [ apply (Hs false) | ].
  destruct (existsb _ (pending st)); [ apply (Hs false) | ].
  destruct (existsb _ (pending_timeout st)); [ apply (Hs false) | ].
  destruct (pending st), (pending_timeout st); first [ apply (Hs false) | apply (Hs true) ].
Qed.

(** Without tasks the scheduler returns. *)
Lemma lifeness_empty st : sched_inv st -> live st = [] -> (check_lifeness st).1 = GNUNET_NO.
Proof.
  intros Hinv Hl. unfold live in Hl. apply app_eq_nil in Hl as [H1 Hl]. apply app_eq_nil in Hl as [H2 H3].
  unfold check_lifeness. rewrite (q_count _ _ (inv_queues _ Hinv)), H1, H2, H3. done.
Qed.

Lemma main_loop_empty {W} (run_callback : W -> Task -> GNUNET_SCHEDULER_TaskContext -> prog W) fuel pr r rounds st w :
  sched_inv st -> live st = [] ->
  main_loop run_callback fuel pr (r :: rounds) st w = Ret (true, (check_lifeness st).2, w, []).
Proof.
  intros Hinv Hl. cbn [main_loop]. pose proof (lifeness_empty st Hinv Hl) as H.
  destruct (check_lifeness st) as [ok st1]. cbn in H. by subst ok.
Qed.

Lemma main_loop_next {W} (run_callback : W -> Task -> GNUNET_SCHEDULER_TaskContext -> prog W)
  fuel pr r rounds st w st2 w2 l :
  (check_lifeness st).1 = GNUNET_OK ->
  main_round run_callback fuel pr r (check_lifeness st).2 w = Ret (true, st2, w2, l) ->
  main_loop run_callback fuel pr (r :: rounds) st w
  = ('(e, st, w, l') ← main_loop run_callback fuel pr rounds st2 w2; Ret (e, st, w, l ++ l')).
Proof.
  intros Hok Hm. cbn [main_loop]. destruct (check_lifeness st) as [ok st1]. cbn [fst snd] in *.
  subst ok. rewrite Z.eqb_refl. cbn [negb]. by rewrite Hm.
Qed.

(** A scheduler that has tasks does not return. *)
Lemma lifeness_nonempty {W} (I : W -> bag -> Prop) run_callback st w :
  client_ok run_callback I -> sched_inv st -> active_task st = NoTask -> I w (bag_of st) ->
  live st <> [] -> Z.of_nat (length (live st)) < 2 ^ 32 -> (check_lifeness st).1 = GNUNET_OK.
Proof.
  intros HI Hinv Ha Hw Hne Hlt.
  destruct (check_lifeness_ok run_callback I HI st w Hinv Ha Hw) as (_ & Hok & Hnone).
  destruct Hok as [|Hn]; [ done | ]. exfalso. apply Hne. destruct (Hnone Hn) as (E1 & E2 & E3).
  rewrite live_ready in * by done. pose proof (q_count _ _ (inv_queues _ Hinv)) as Hc.
  rewrite E3, u32_small in Hc by (unfold is_u32; lia). apply nil_length_inv. lia.
Qed.

Lemma ran_spec_bag {W} (I : W -> bag -> Prop) st l st' w' :
  ran_spec I st l st' w' -> live st' = [] -> last_id st' = last_id st ->
  exists tr, bag_steps (bag_of st) tr ([], last_id st) /\ ran tr = core <$> l.*2.
Proof.
  intros [_ _ _ (tr & Hb & Hr)] Hl Hid. exists tr. split; [ | done ].
  unfold bag_of at 2 in Hb. by rewrite Hl, Hid in Hb.
Qed.


Definition quiet_callback (w : nat) (t : Task) (tc : GNUNET_SCHEDULER_TaskContext) : prog nat := Done w.


(** ** Defects *)

Lemma wanted_not_0 (l : list Task) :
  (forall t, t ∈ l -> read_fd t <> 0) -> 0 ∉ ⋃ ((fun t => wanted (read_fd t) (read_set t)) <$> l).
Proof.
  intros Hl Hin. apply elem_of_union_list in Hin as (x & Hx & Hin).
  apply list_elem_of_fmap in Hx as (t & -> & Ht). specialize (Hl t Ht). unfold wanted in Hin.
  apply elem_of_union in Hin as [Hin|Hin].
  - case_decide; [ set_solver | ]. apply elem_of_singleton in Hin. congruence.
  - destruct (read_set t); set_solver.
Qed.

(** A task that was added with add_select to wait for descriptor 0 is not
    found ready whatever select returns, as long as no other task waits for
    that descriptor by its number: update_sets never passes descriptor 0 of a
    set to select. *)
Theorem scheduler_never_wakes_on_descriptor_0 (st : scheduler) (t : Task) (s rs ws ws' : GNUNET_NETWORK_FDSet)
  (now now' : GNUNET_TIME_Absolute) (to : GNUNET_TIME_Relative) (pr : Z) (rds : gset Z) :
  sched_inv st -> is_abs now -> t ∈ pending st -> (forall t', t' ∈ pending st -> read_fd t' <> 0) ->
  read_set t = Some s -> sds s = {[0]} -> read_fd t = -1 -> write_fd t = -1 -> write_set t = None ->
  reason t = 0 -> abs_value now' < abs_value (timeout t) ->
  update_sets st now GNUNET_NETWORK_fdset_zero GNUNET_NETWORK_fdset_zero GNUNET_TIME_UNIT_FOREVER_REL
    = Ret (rs, ws, to) ->
  is_fd pr -> pr <> 0 -> rds ⊆ {[pr]} ∪ sds rs -> fdset_ok ws' ->
  is_ready t now' (mk_fdset (Z.max (pr + 1) (nsds rs)) rds) ws' = Ret (false, t).
Proof.
  intros Hinv Hnow Ht Hother Hset Hs Hr Hw Hws Hreason Hto Hu Hpr Hne Hsub Hok.
  destruct (update_sets_ok st now Hinv Hnow) as (rs' & ws0 & to' & Hu' & Hrs & _ & _ & Hsds & _).
  rewrite Hu in Hu'. injection Hu' as <- <- <-.
  assert (H0 : 0 ∉ rds).
  { intros Hin. apply Hsub in Hin. rewrite Hsds in Hin. pose proof (wanted_not_0 _ Hother). set_solver. }
  assert (Hrds : fdset_ok (mk_fdset (Z.max (pr + 1) (nsds rs)) rds)).
  { apply (fdset_subset_ok (mk_fdset (Z.max (pr + 1) (nsds rs)) ({[pr]} ∪ sds rs))); [ by apply fdset_insert_ok | done ]. }
  destruct (proj1 (live_forall _ _) (inv_tasks _ Hinv)) as (Htask & _). rewrite Forall_forall in Htask.
  destruct (is_ready_ok t now' _ ws' (Htask t Ht) Hrds Hok) as (t' & Hir & Ht').
  assert (Hz : reasons now' (mk_fdset (Z.max (pr + 1) (nsds rs)) rds) ws' t = 0).
  { unfold reasons. rewrite Hreason. unfold timed_out. rewrite (proj2 (Z.leb_gt _ _)) by done.
    unfold ready_in. rewrite Hr, Hw, Hws, Hset. change (-1 =? -1) with true. cbn [negb andb orb sds].
    rewrite bool_decide_eq_false_2; [ reflexivity | ]. rewrite Hs. intros Hn. apply Hn. set_solver. }
  rewrite Hz in Hir, Ht'. cbn [Z.eqb negb] in *. by subst t'.
Qed.

(** A state in which a task waits for descriptor 0, without a timeout *)
Definition stdin_state : scheduler :=
  match GNUNET_SCHEDULER_add_select (mk_abs 0) (set_active sched_init Dummy) 3 GNUNET_TIME_UNIT_FOREVER_REL
          (Some (mk_fdset 1 {[0]})) None 1 0 with
  | Ret (_, st) => set_active st NoTask
  | _ => sched_init
  end.

Definition stdin_task : Task :=
  mk_task 1 0 (Some (mk_fdset 1 {[0]})) None 1 GNUNET_TIME_UNIT_FOREVER_ABS 0 3 (-1) (-1) 0.

Lemma stdin_state_pending : pending stdin_state = [stdin_task].
Proof. vm_compute. reflexivity. Qed.

Lemma stdin_state_ok : sched_inv stdin_state.
Proof.
  split; try (vm_compute; reflexivity || discriminate).
  - split; vm_compute; reflexivity.
  - change (Forall task_ok [stdin_task]). constructor; [ | constructor ].
    split; cbn; [ lia | unfold is_abs, is_u64; cbn; unfold UINT64_MAX; lia | by left | by left | | done ].
    intros s' [= <-]. split; cbn; [ intros fd ->%elem_of_singleton; lia | unfold FD_SETSIZE; lia ].
  - change (ids_ok [stdin_task] 1). split; [ apply NoDup_singleton | constructor; [ cbn; lia | constructor ] ].
  - vm_compute. split; [ discriminate | reflexivity ].
  - apply timeouts_nil.
Qed.

Lemma scheduler_never_wakes_on_descriptor_0_witness :
  exists rs ws to, update_sets stdin_state (mk_abs 0) GNUNET_NETWORK_fdset_zero GNUNET_NETWORK_fdset_zero
      GNUNET_TIME_UNIT_FOREVER_REL = Ret (rs, ws, to)
    /\ is_ready stdin_task (mk_abs 1000) (mk_fdset (Z.max 4 (nsds rs)) {[3]}) GNUNET_NETWORK_fdset_zero
       = Ret (false, stdin_task).
Proof.
  destruct (update_sets_ok stdin_state (mk_abs 0) stdin_state_ok) as (rs & ws & to & Hu & _);
    [ unfold is_abs, is_u64; cbn; lia | ].
  exists rs, ws, to. split; [ exact Hu | ].
  apply (scheduler_never_wakes_on_descriptor_0 stdin_state stdin_task (mk_fdset 1 {[0]}) rs ws
    GNUNET_NETWORK_fdset_zero (mk_abs 0) (mk_abs 1000) to 3 {[3]}).
  - exact stdin_state_ok.
  - unfold is_abs, is_u64. cbn. lia.
  - rewrite stdin_state_pending. apply list_elem_of_singleton. reflexivity.
  - intros t'. rewrite stdin_state_pending. intros Ht'. apply list_elem_of_singleton in Ht'. subst t'. discriminate.
  - reflexivity.
  - reflexivity.
  - reflexivity.
  - reflexivity.
  - reflexivity.
  - reflexivity.
  - vm_compute. reflexivity.
  - exact Hu.
  - unfold is_fd, FD_SETSIZE. lia.
  - discriminate.
  - set_solver.
  - apply fdset_zero_ok.
Defined.

(** A client whose first task schedules another one with the documented priority KEEP *)
Definition keep_callback (delayed : bool) (w : nat) (t : Task) (tc : GNUNET_SCHEDULER_TaskContext) : prog nat :=
  match w, callback t with
  | S _, 1%nat =>
      Call (mk_abs 0)
        (if delayed then AddDelayed (mk_rel 0) GNUNET_SCHEDULER_PRIORITY_KEEP 1 0
         else AddSelect GNUNET_SCHEDULER_PRIORITY_KEEP (mk_rel 0) None None 1 0) (fun _ => Done O)
  | _, _ => Done w
  end.

(** A task that schedules another one with add_delayed_with_priority and
    the documented priority KEEP makes the scheduler abort in an assertion of
    run_ready, while the same request through add_select is run. *)
Theorem scheduler_keep_priority_aborts :
  GNUNET_SCHEDULER_run (keep_callback true) (mk_abs 0) 10 3 sample_rounds 1 0 2 1%nat = AssertFailed
  /\ summary (GNUNET_SCHEDULER_run (keep_callback false) (mk_abs 0) 10 3 sample_rounds 1 0 2 1%nat)
     = Some (true, [2; 1; 3]).
Proof. split; vm_compute; reflexivity. Qed.
