(* ===== verification/Lockmanager.v ===== *)
(** * The lock manager service: [src/lockmanager/gnunet-service-lockmanager.c]

    Clients acquire and release locks, named by a domain and a number; a lock that is
    taken has a list of waiting clients.  The objects of the service refer to each
    other by pointers: a [Lock] to the [ClientList] entry of its holder and of the
    clients that wait, a [ClientList] entry to the locks it holds or waits for.
    Pointers are addresses here, so that a pointer to a freed entry can be told from a
    live one: all [Lock]s that are allocated are in the store [locks], all
    [ClientList] entries in the list [cl] (the doubly linked list of the source), and
    following a pointer to anything else is [Undefined].

    Messages are sent through the server library; a handler returns what it asks the
    library to send and to report ([output]).  The hash of a domain name, the hash map
    (through [MultiMap]) and the addresses that [GNUNET_malloc] returns are parameters. *)

From Stdlib Require Import ZArith Lia.
From stdpp Require Import base list numbers sorting gmap.
From S2P Require Import Prelude Hash MultiHashMap MapInterface Messages.
Local Open Scope Z_scope.

(** ** Messages *)

Record GNUNET_LOCKMANAGER_Message := mk_lm_message {
  lm_header : GNUNET_MessageHeader;
  lm_lock : Z
}.

Definition GNUNET_MESSAGE_TYPE_LOCKMANAGER_SUCCESS : Z := 452.

Definition encode_lm_message (m : GNUNET_LOCKMANAGER_Message) : list Z :=
  encode_fields [2; 2; 4]%nat [mh_size (lm_header m); mh_type (lm_header m); lm_lock m].
Definition decode_lm_message (l : list Z) : GNUNET_LOCKMANAGER_Message :=
  match decode_fields [2; 2; 4]%nat l with
  | [s; t; n] => mk_lm_message (mk_header s t) n
  | _ => mk_lm_message (mk_header 0 0) 0
  end.
Definition valid_lm_message (m : GNUNET_LOCKMANAGER_Message) : Prop :=
  valid_header (lm_header m) /\ is_u32 (lm_lock m).

Lemma lm_message_roundtrip m rest :
  valid_lm_message m -> decode_lm_message (encode_lm_message m ++ rest) = m.
Proof.
  destruct m as [[s t] n]. intros [[Hs Ht] Hn]. unfold decode_lm_message, encode_lm_message.
  rewrite (decode_encode_fields [2; 2; 4]%nat)
    by (repeat constructor; cbn in *; unfold_ints; lia). done.
Qed.

#[export] Instance lm_message_wire : WireFormat GNUNET_LOCKMANAGER_Message := {
  wire_size := 8;
  wire_encode := encode_lm_message;
  wire_decode := decode_lm_message;
  wire_valid := valid_lm_message;
  wire_length m := length_encode_fields [2; 2; 4]%nat
    [mh_size (lm_header m); mh_type (lm_header m); lm_lock m] eq_refl;
  wire_bytes m := encode_fields_bytes [2; 2; 4]%nat _;
  wire_roundtrip := lm_message_roundtrip
}.

(** The characters of the string that starts a buffer, up to its NUL *)
Fixpoint c_string (l : list Z) : outcome (list Z) :=
  match l with
  | [] => Undefined
  | b :: l' => if b =? 0 then Ret [] else s ← c_string l'; Ret (b :: s)
  end.

(** ** Data *)

(** A [WaitList] entry only points to the client, so the list is one of addresses. *)
Record Lock := mk_lock {
  wl : list nat;
  cl_entry : option nat;
  domain_name : list Z;
  lock_num : Z
}.

Record ClientList := mk_client { ll : list nat; client : nat }.

Inductive output :=
  | Transmit (client : nat) (reply : list Z)
  | ReceiveDone (client : nat) (success : Z).

Section Lockmanager.
Context {M : Type} `{MultiMap M nat}.
Context (hash : list Z -> GNUNET_HashCode).

Record service := mk_service {
  lock_map : M;
  locks : gmap nat Lock;
  cl : list (nat * ClientList)
}.

Definition set_locks (st : service) (l : gmap nat Lock) : service :=
  mk_service (lock_map st) l (cl st).
Definition set_cl (st : service) (l : list (nat * ClientList)) : service :=
  mk_service (lock_map st) (locks st) l.

(** *** Following pointers *)

Definition get_lock (st : service) (a : nat) : outcome Lock := of_option (locks st !! a).

Definition cl_lookup (l : list (nat * ClientList)) (c : nat) : option ClientList :=
  (fun '(_, (_, e)) => e) <$> list_find (fun e => e.1 = c) l.

Definition get_client (st : service) (c : nat) : outcome ClientList :=
  of_option (cl_lookup (cl st) c).

(** Assignment to a field of entry [c]; removal of entry [c] *)
Definition cl_update (c : nat) (f : ClientList -> ClientList) (l : list (nat * ClientList))
  : list (nat * ClientList) :=
  (fun '(c', e) => (c', if (c' =? c)%nat then f e else e)) <$> l.

Definition cl_delete (c : nat) (l : list (nat * ClientList)) : list (nat * ClientList) :=
  match list_find (fun e => e.1 = c) l with
  | Some (i, _) => delete i l
  | None => l
  end.

(** ** Locks *)

Definition get_key (domain : list Z) (lock_number : Z) : GNUNET_HashCode :=
  let key := hash domain in <[0%nat := Z.lxor (nth 0 key 0) lock_number]> key.

(** The closure is [match->matched_entry]; reading [*lock] may fail. *)
Definition match_iterator (st : service) (domain : list Z) (num : Z)
  (s : outcome (option nat)) (key : GNUNET_HashCode) (a : nat)
  : outcome (option nat) * bool :=
  match s, get_lock st a with
  | Ret m, Ret lock =>
      if (num =? lock_num lock) && bool_decide (domain = domain_name lock)
      then (Ret (Some a), false) else (Ret m, true)
  | _, _ => (Undefined, false)
  end.

Definition find_lock (st : service) (domain : list Z) (num : Z) : outcome (option nat) :=
  mm_get_multiple (lock_map st) (get_key domain num) (match_iterator st domain num) (Ret None).

(** [a] is the address of the new lock. *)
Definition add_lock (st : service) (domain : list Z) (num : Z) (a : nat) : service :=
  let '(_, m) := mm_put (lock_map st) (get_key domain num) a in
  mk_service m (<[a := mk_lock [] None domain num]> (locks st)) (cl st).

Definition remove_lock (st : service) (a : nat) : outcome service :=
  lock ← get_lock st a;
  _ ← gnunet_assert (bool_decide (wl lock = []));
  let '(ret, m) := mm_remove (lock_map st) (get_key (domain_name lock) (lock_num lock)) a in
  _ ← gnunet_assert (GNUNET_YES =? ret);
  Ret (mk_service m (delete a (locks st)) (cl st)).

(** A list entry is named by its position. *)
Definition cl_ll_find_lock (st : service) (c a : nat) : outcome (option nat) :=
  e ← get_client st c;
  Ret (fst <$> list_find (fun x => x = a) (ll e)).

Definition cl_ll_add_lock (st : service) (c a : nat) : outcome service :=
  _ ← get_client st c;
  Ret (set_cl st (cl_update c (fun e => mk_client (ll e ++ [a]) (client e)) (cl st))).

Definition cl_ll_remove_lock (st : service) (c i : nat) : outcome service :=
  e ← get_client st c;
  _ ← gnunet_assert (negb (bool_decide (ll e = [])));
  Ret (set_cl st (cl_update c (fun e => mk_client (delete i (ll e)) (client e)) (cl st))).

Definition lock_wl_find (lock : Lock) (c : nat) : option nat :=
  fst <$> list_find (fun x => x = c) (wl lock).

Definition lock_wl_add_client (st : service) (a c : nat) : outcome service :=
  lock ← get_lock st a;
  Ret (set_locks st (<[a := mk_lock (wl lock ++ [c]) (cl_entry lock) (domain_name lock)
                                    (lock_num lock)]> (locks st))).

Definition lock_wl_remove (st : service) (a i : nat) : outcome service :=
  lock ← get_lock st a;
  Ret (set_locks st (<[a := mk_lock (delete i (wl lock)) (cl_entry lock) (domain_name lock)
                                    (lock_num lock)]> (locks st))).

(** [lock->cl_entry = c] *)
Definition set_holder (st : service) (a c : nat) : outcome service :=
  lock ← get_lock st a;
  Ret (set_locks st (<[a := mk_lock (wl lock) (Some c) (domain_name lock)
                                    (lock_num lock)]> (locks st))).

(** ** Clients *)

Definition cl_find_client (st : service) (p : nat) : option nat :=
  (fun '(_, (c, _)) => c) <$> list_find (fun e => client e.2 = p) (cl st).

(** [c] is the address of the new entry. *)
Definition cl_add_client (st : service) (p c : nat) : service :=
  set_cl st (cl st ++ [(c, mk_client [] p)]).

Definition cl_remove_client (st : service) (c : nat) : outcome service :=
  e ← get_client st c;
  _ ← gnunet_assert (bool_decide (ll e = []));
  Ret (set_cl st (cl_delete c (cl st))).

(** ** Messages to clients *)

(** [Some buf] is the buffer of [size] bytes of a client that can be reached. *)
Definition transmit_notify (msg : list Z) (buf : option (list Z)) : outcome (Z * option (list Z)) :=
  match buf with
  | None => Ret (0, None)
  | Some b =>
      if (length b =? 0)%nat then Ret (0, buf)
      else
        let msg_size := be_decode (take 2 msg) in
        _ ← gnunet_assert (msg_size <=? Z.of_nat (length b));
        data ← mem_read msg 0 (Z.to_nat msg_size);
        b' ← mem_write b 0 data;
        Ret (msg_size, Some b')
  end.

(** [lock_num] is passed as an [int]; the reply is written into [reply_size] bytes. *)
Definition send_success_msg (p : nat) (domain : list Z) (num : Z) : outcome (list output) :=
  let domain_name_len := Z.of_nat (length domain) + 1 in
  let reply_size := u16 (Z.of_nat (wire_size GNUNET_LOCKMANAGER_Message) + domain_name_len) in
  let reply := replicate (Z.to_nat reply_size) 0 in
  reply ← mem_write reply 0
    (wire_encode (mk_lm_message
      (mk_header reply_size GNUNET_MESSAGE_TYPE_LOCKMANAGER_SUCCESS) (u32 (s32 num))));
  reply ← mem_write reply 8 (domain ++ [0]);
  Ret [Transmit p reply].

(** ** Handlers *)

(** The checks at the start of both handlers, with the domain name and the number of
    the request *)
Definition read_request (message : list Z) : outcome (option (list Z * Z)) :=
  size ← mem_read message 0 2;
  let msize := be_decode size in
  if msize <=? Z.of_nat (wire_size GNUNET_LOCKMANAGER_Message) then Ret None
  else
    last ← mem_read message (Z.to_nat msize - 1) 1;
    if negb (nth 0 last 0 =? 0) then Ret None
    else
      num ← mem_read message 4 4;
      domain ← c_string (drop 8 message);
      Ret (Some (domain, be_decode num)).

Definition handle_acquire (st : service) (p : nat) (message : list Z) (new_client new_lock : nat)
  : outcome (service * list output) :=
  request ← read_request message;
  match request with
  | None => Ret (st, [ReceiveDone p GNUNET_SYSERR])
  | Some (domain, num) =>
      let '(c, st) := match cl_find_client st p with
                      | Some c => (c, st)
                      | None => (new_client, cl_add_client st p new_client)
                      end in
      found ← find_lock st domain num;
      match found with
      | Some a =>
          lock ← get_lock st a;
          if bool_decide (cl_entry lock = Some c)
          then Ret (st, [ReceiveDone p GNUNET_SYSERR])
          else
            st ← lock_wl_add_client st a c;
            st ← cl_ll_add_lock st c a;
            Ret (st, [ReceiveDone p GNUNET_OK])
      | None =>
          st ← set_holder (add_lock st domain num new_lock) new_lock c;
          st ← cl_ll_add_lock st c new_lock;
          e ← get_client st c;
          out ← send_success_msg (client e) domain num;
          Ret (st, out ++ [ReceiveDone p GNUNET_OK])
      end
  end.

Definition process_lock_release (st : service) (a : nat) : outcome (service * list output) :=
  lock ← get_lock st a;
  match wl lock with
  | [] => st ← remove_lock st a; Ret (st, [])
  | c :: _ =>
      st ← set_holder st a c;
      st ← lock_wl_remove st a 0;
      e ← get_client st c;
      out ← send_success_msg (client e) (domain_name lock) (lock_num lock);
      Ret (st, out)
  end.

Definition handle_release (st : service) (p : nat) (message : list Z)
  : outcome (service * list output) :=
  request ← read_request message;
  match request with
  | None => Ret (st, [ReceiveDone p GNUNET_SYSERR])
  | Some (domain, num) =>
      match cl_find_client st p with
      | None => Ret (st, [ReceiveDone p GNUNET_SYSERR])
      | Some c =>
          found ← find_lock st domain num;
          match found with
          | None => Ret (st, [ReceiveDone p GNUNET_SYSERR])
          | Some a =>
              entry ← cl_ll_find_lock st c a;
              match entry with
              | None => Ret (st, [ReceiveDone p GNUNET_SYSERR])
              | Some i =>
                  st ← cl_ll_remove_lock st c i;
                  lock ← get_lock st a;
                  if bool_decide (Some c = cl_entry lock)
                  then
                    '(st, out) ← process_lock_release st a;
                    Ret (st, out ++ [ReceiveDone p GNUNET_OK])
                  else
                    st ← match lock_wl_find lock c with
                         | Some j => lock_wl_remove st a j
                         | None => Ret st
                         end;
                    Ret (st, [ReceiveDone p GNUNET_OK])
              end
          end
      end
  end.

(** The loop of [client_disconnect_cb]; every round removes an entry of [ll]. *)
Fixpoint disconnect_loop (fuel : nat) (st : service) (c : nat) : outcome (service * list output) :=
  e ← get_client st c;
  match ll e, fuel with
  | [], _ => Ret (st, [])
  | _ :: _, O => Undefined
  | a :: _, S fuel =>
      st ← cl_ll_remove_lock st c 0;
      '(st, out) ← process_lock_release st a;
      '(st, out') ← disconnect_loop fuel st c;
      Ret (st, out ++ out')
  end.

Definition client_disconnect_cb (st : service) (p : nat) : outcome (service * list output) :=
  match cl_find_client st p with
  | None => Ret (st, [])
  | Some c =>
      e ← get_client st c;
      '(st, out) ← disconnect_loop (length (ll e)) st c;
      st ← cl_remove_client st c;
      Ret (st, out)
  end.

(** ** Shutdown *)

(** The iteration has read the next entry before it calls the iterator, which only
    removes the entry it was called for.  The loop that empties the wait list is the
    assignment of the empty list. *)
Definition lock_delete_iterator (s : outcome service) (key : GNUNET_HashCode) (a : nat)
  : outcome service * bool :=
  (st ← s;
   lock ← get_lock st a;
   let st := set_locks st (<[a := mk_lock [] (cl_entry lock) (domain_name lock)
                                          (lock_num lock)]> (locks st)) in
   let '(ret, m) := mm_remove (lock_map st) key a in
   _ ← gnunet_assert (GNUNET_YES =? ret);
   Ret (mk_service m (delete a (locks st)) (cl st)), true).

(** The nested loops over the clients and their locks; the inner one empties [ll]. *)
Fixpoint clear_clients (fuel : nat) (st : service) : outcome service :=
  match cl st, fuel with
  | [], _ => Ret st
  | _ :: _, O => Undefined
  | (c, _) :: _, S fuel =>
      let st := set_cl st (cl_update c (fun e => mk_client [] (client e)) (cl st)) in
      st ← cl_remove_client st c;
      clear_clients fuel st
  end.

Definition shutdown_task (st : service) : outcome service :=
  st ← clear_clients (length (cl st)) st;
  st ← mm_iterate (lock_map st) lock_delete_iterator (Ret st);
  _ ← gnunet_assert (0 =? mm_size (lock_map st));
  Ret st.

(** [lockmanager_run]; [32] buckets, keys are copied *)
Definition lockmanager_run : outcome service :=
  m ← mm_create 32 false;
  Ret (mk_service m ∅ []).

(** ** Sequences of events *)

Inductive event :=
  | Acquire (p : nat) (message : list Z)
  | Release (p : nat) (message : list Z)
  | Disconnect (p : nat).

(** [malloc] gives an address that is not used by the objects that are allocated. *)
Context (malloc : list nat -> nat).

Definition handle (st : service) (ev : event) : outcome (service * list output) :=
  match ev with
  | Acquire p message =>
      handle_acquire st p message (malloc (cl st).*1) (malloc (map_to_list (locks st)).*1)
  | Release p message => handle_release st p message
  | Disconnect p => client_disconnect_cb st p
  end.

Fixpoint handle_all (st : service) (evs : list event) : outcome (service * list output) :=
  match evs with
  | [] => Ret (st, [])
  | ev :: evs =>
      '(st, out) ← handle st ev;
      '(st, out') ← handle_all st evs;
      Ret (st, out ++ out')
  end.

End Lockmanager.
