(* ===== verification/LockmanagerSpec.v ===== *)
(** * The lock manager refines first-come-first-served queues

    The specification of [Lockmanager] has one queue of clients per lock: the first
    client of a queue has the lock, the others wait in the order of their requests.
    Handling a request changes the queue of one lock, and the client that becomes the
    first of a queue is sent one SUCCESS message.  The invariant relates the pointers
    of the service to the queues; every handler keeps it, provided that no client
    disconnects while it waits for a lock.  A client that does breaks the service,
    which is stated at the end. *)

From Stdlib Require Import ZArith Lia.
From stdpp Require Import base list numbers sorting gmap.
From S2P Require Import Prelude Hash MultiHashMap MapInterface Messages Lockmanager.
Local Open Scope Z_scope.

(** ** Occurrences in a list *)

Fixpoint occ (x : nat) (l : list nat) : nat :=
  match l with
  | [] => 0
  | y :: l' => (if decide (x = y) then 1 else 0) + occ x l'
  end%nat.

Lemma occ_app x l1 l2 : occ x (l1 ++ l2) = (occ x l1 + occ x l2)%nat.
Proof. induction l1 as [|y l1 IH]; cbn; [ done | lia ]. Qed.

Lemma occ_elem x l : (0 < occ x l)%nat <-> x ∈ l.
Proof.
  induction l as [|y l IH]; cbn.
  - rewrite elem_of_nil. lia.
  - rewrite elem_of_cons, <- IH. case_decide; [ subst; lia | ]. intuition lia.
Qed.

Lemma occ_zero x l : occ x l = 0%nat <-> x ∉ l.
Proof. rewrite <- occ_elem. lia. Qed.

Lemma occ_delete x l i y :
  l !! i = Some y ->
  occ x l = ((if decide (x = y) then 1 else 0) + occ x (delete i l))%nat.
Proof.
  intros Hi. rewrite <- (take_drop_middle l i y Hi) at 1. rewrite delete_take_drop, !occ_app.
  cbn. lia.
Qed.

(** ** The specification *)

Definition name : Type := list Z * Z.
Definition queues : Type := name -> list nat.

Definition set_queue (Q : queues) (n : name) (q : list nat) : queues :=
  fun n' => if decide (n' = n) then q else Q n'.

Definition success (n : name) : list Z :=
  wire_encode (mk_lm_message (mk_header (9 + Z.of_nat (length n.1))
    GNUNET_MESSAGE_TYPE_LOCKMANAGER_SUCCESS) n.2) ++ n.1 ++ [0].

(** The message to the client that has become the first of a queue *)
Definition grant (n : name) (q : list nat) : list output :=
  match q with
  | [] => []
  | p :: _ => [Transmit p (success n)]
  end.

Definition waits (Q : queues) (p : nat) : Prop := exists n, p ∈ tail (Q n).

Inductive fifo_step (Q : queues) : event -> queues -> list output -> Prop :=
  | step_bad_acquire p m :
      read_request m = Ret None ->
      fifo_step Q (Acquire p m) Q [ReceiveDone p GNUNET_SYSERR]
  | step_bad_release p m :
      read_request m = Ret None ->
      fifo_step Q (Release p m) Q [ReceiveDone p GNUNET_SYSERR]
  | step_take p m n :
      read_request m = Ret (Some n) -> Q n = [] ->
      fifo_step Q (Acquire p m) (set_queue Q n [p])
        (grant n [p] ++ [ReceiveDone p GNUNET_OK])
  | step_wait p m n :
      read_request m = Ret (Some n) -> Q n <> [] -> head (Q n) <> Some p ->
      fifo_step Q (Acquire p m) (set_queue Q n (Q n ++ [p])) [ReceiveDone p GNUNET_OK]
  | step_twice p m n :
      read_request m = Ret (Some n) -> head (Q n) = Some p ->
      fifo_step Q (Acquire p m) Q [ReceiveDone p GNUNET_SYSERR]
  | step_release p m n :
      read_request m = Ret (Some n) -> head (Q n) = Some p ->
      fifo_step Q (Release p m) (set_queue Q n (tail (Q n)))
        (grant n (tail (Q n)) ++ [ReceiveDone p GNUNET_OK])
  | step_give_up p m n h q :
      read_request m = Ret (Some n) -> Q n = h :: q -> h <> p -> p ∈ q ->
      fifo_step Q (Release p m) (set_queue Q n (h :: remove_first p q)) [ReceiveDone p GNUNET_OK]
  | step_not_there p m n :
      read_request m = Ret (Some n) -> p ∉ Q n ->
      fifo_step Q (Release p m) Q [ReceiveDone p GNUNET_SYSERR]
  | step_disconnect p ns Q' :
      NoDup ns -> (forall n, n ∈ ns <-> head (Q n) = Some p) -> ~ waits Q p ->
      (forall n, Q' n = if decide (n ∈ ns) then tail (Q n) else Q n) ->
      fifo_step Q (Disconnect p) Q' (concat ((fun n => grant n (tail (Q n))) <$> ns)).

(** *** Sequences of events *)

Inductive fifo_run (Q : queues) : list event -> queues -> list output -> Prop :=
  | run_nil : fifo_run Q [] Q []
  | run_cons ev evs Q1 out1 Q2 out2 :
      fifo_step Q ev Q1 out1 -> fifo_run Q1 evs Q2 out2 ->
      fifo_run Q (ev :: evs) Q2 (out1 ++ out2).

(** What the server library guarantees of a message *)
Definition wf_message (m : list Z) : Prop :=
  is_bytes m /\ (4 <= length m)%nat /\ be_decode (take 2 m) = Z.of_nat (length m).

(** Messages are well formed, and no client leaves while it waits. *)
Definition may_happen (Q : queues) (ev : event) : Prop :=
  match ev with
  | Acquire _ m | Release _ m => wf_message m
  | Disconnect p => ~ waits Q p
  end.

Fixpoint guarded (Q : queues) (evs : list event) : Prop :=
  match evs with
  | [] => True
  | ev :: evs => may_happen Q ev /\ forall Q' out, fifo_step Q ev Q' out -> guarded Q' evs
  end.

(** ** The invariant *)

Definition lname (lock : Lock) : name := (domain_name lock, lock_num lock).

(** The holder of a lock and the clients that wait for it *)
Definition lqueue (lock : option Lock) : list nat :=
  match lock with
  | Some lock => option_list (cl_entry lock) ++ wl lock
  | None => []
  end.

Definition live (l : list (nat * ClientList)) (c : nat) : Prop := is_Some (cl_lookup l c).

(** The client of the entry at an address *)
Definition pointer (l : list (nat * ClientList)) (c : nat) : nat :=
  from_option client 0%nat (cl_lookup l c).

Record clients_ok (l : list (nat * ClientList)) : Prop := {
  co_addresses : NoDup l.*1;
  co_clients : NoDup (client <$> l.*2)
}.

(** The list of a client has a lock once for each time it is in the lock's queue. *)
Definition lists_ok (lks : gmap nat Lock) (l : list (nat * ClientList)) : Prop :=
  forall c e a, cl_lookup l c = Some e -> occ a (ll e) = occ c (lqueue (lks !! a)).

(** ** The list of clients *)

Lemma cl_lookup_cons c1 e1 l c :
  cl_lookup ((c1, e1) :: l) c = if decide (c = c1) then Some e1 else cl_lookup l c.
Proof.
  unfold cl_lookup. cbn [list_find]. case_decide as H1; cbn in H1.
  - by rewrite decide_True.
  - rewrite decide_False by congruence. by destruct (list_find _ l) as [[i [c2 e2]]|].
Qed.

Lemma cl_lookup_elem l c e : cl_lookup l c = Some e -> (c, e) ∈ l.
Proof.
  induction l as [|[c1 e1] l IH]; [ done | ]. rewrite cl_lookup_cons.
  case_decide; [ intros [= ->]; subst; left | right; auto ].
Qed.

Lemma cl_lookup_Some l c e : NoDup l.*1 -> (c, e) ∈ l -> cl_lookup l c = Some e.
Proof.
  induction l as [|[c1 e1] l IH]; [ by rewrite elem_of_nil | ]. rewrite fmap_cons, NoDup_cons.
  intros [Hc Hn] Hin. rewrite cl_lookup_cons. apply elem_of_cons in Hin as [[= -> ->]|Hin].
  - by rewrite decide_True.
  - rewrite decide_False; [ by apply IH | ]. intros ->. apply Hc, list_elem_of_fmap.
    by exists (c1, e).
Qed.

Lemma cl_lookup_None l c : c ∉ l.*1 -> cl_lookup l c = None.
Proof.
  intros Hc. destruct (cl_lookup l c) as [e|] eqn:He; [ | done ]. destruct Hc.
  apply list_elem_of_fmap. exists (c, e). by apply cl_lookup_elem in He.
Qed.

Lemma cl_lookup_update l c f c' :
  cl_lookup (cl_update c f l) c'
  = if decide (c' = c) then f <$> cl_lookup l c' else cl_lookup l c'.
Proof.
  induction l as [|[c1 e1] l IH]; [ by case_decide | ]. unfold cl_update in *.
  rewrite fmap_cons, !cl_lookup_cons, IH. destruct (Nat.eqb_spec c1 c) as [->|Hne].
  - repeat case_decide; naive_solver.
  - repeat case_decide; naive_solver.
Qed.

Lemma cl_lookup_add l c e c' :
  c ∉ l.*1 ->
  cl_lookup (l ++ [(c, e)]) c' = if decide (c' = c) then Some e else cl_lookup l c'.
Proof.
  induction l as [|[c1 e1] l IH]; cbn [app]; intros Hc; [ by rewrite cl_lookup_cons | ].
  cbn in Hc. rewrite not_elem_of_cons in Hc. rewrite !cl_lookup_cons, IH by tauto.
  repeat case_decide; naive_solver.
Qed.

Lemma cl_delete_cons c1 e1 l c :
  cl_delete c ((c1, e1) :: l) = if decide (c = c1) then l else (c1, e1) :: cl_delete c l.
Proof.
  unfold cl_delete. cbn [list_find]. case_decide as H1; cbn in H1.
  - by rewrite decide_True.
  - rewrite (decide_False (P := c = c1)) by congruence.
    by destruct (list_find _ l) as [[i [c2 e2]]|].
Qed.

Lemma cl_delete_sublist l c : cl_delete c l `sublist_of` l.
Proof.
  induction l as [|[c1 e1] l IH]; [ done | ]. rewrite cl_delete_cons.
  case_decide; [ by constructor | by constructor ].
Qed.

Lemma cl_lookup_delete l c c' :
  NoDup l.*1 ->
  cl_lookup (cl_delete c l) c' = if decide (c' = c) then None else cl_lookup l c'.
Proof.
  induction l as [|[c1 e1] l IH]; [ by case_decide | ]. rewrite fmap_cons, NoDup_cons.
  intros [Hc Hn].
  rewrite cl_delete_cons. destruct (decide (c = c1)) as [->|Hne].
  - rewrite cl_lookup_cons. case_decide; [ subst; by apply cl_lookup_None | done ].
  - rewrite !cl_lookup_cons, IH by done. repeat case_decide; naive_solver.
Qed.

(** *** Changes to the list *)

Lemma update_addresses l c f : (cl_update c f l).*1 = l.*1.
Proof.
  unfold cl_update. rewrite <- list_fmap_compose. apply list_fmap_ext. by intros i [c' e] _.
Qed.

Lemma update_pointer l c f :
  (forall e, client (f e) = client e) -> forall c', pointer (cl_update c f l) c' = pointer l c'.
Proof.
  intros Hf c'. unfold pointer. rewrite cl_lookup_update.
  case_decide; [ subst | done ]. destruct (cl_lookup l c); cbn; auto.
Qed.

Lemma update_live l c f c' : live (cl_update c f l) c' <-> live l c'.
Proof. unfold live. rewrite cl_lookup_update. case_decide; [ by rewrite fmap_is_Some | done ]. Qed.

Lemma update_clients_ok l c f :
  (forall e, client (f e) = client e) -> clients_ok l -> clients_ok (cl_update c f l).
Proof.
  intros Hf [Ha Hc]. constructor; [ by rewrite update_addresses | ].
  replace (client <$> (cl_update c f l).*2) with (client <$> l.*2); [ done | ].
  unfold cl_update. rewrite <- !list_fmap_compose. apply list_fmap_ext. intros i [c' e] _. cbn.
  destruct (c' =? c)%nat; cbn; [ by rewrite Hf | done ].
Qed.

Lemma pointer_lookup l c e : cl_lookup l c = Some e -> pointer l c = client e.
Proof. intros He. unfold pointer. by rewrite He. Qed.

Lemma pointer_inj l c1 c2 :
  clients_ok l -> live l c1 -> live l c2 -> pointer l c1 = pointer l c2 -> c1 = c2.
Proof.
  intros [Ha Hc] [e1 H1] [e2 H2]. unfold pointer. rewrite H1, H2. cbn. intros Heq.
  apply cl_lookup_elem in H1, H2. apply list_elem_of_lookup in H1 as [i Hi], H2 as [j Hj].
  assert (i = j) as <-.
  { apply (NoDup_lookup _ i j (client e1) Hc); rewrite <- list_fmap_compose, list_lookup_fmap;
      [ by rewrite Hi | rewrite Hj; cbn; by rewrite Heq ]. }
  congruence.
Qed.

Lemma find_client_Some {M : Type} (st : service (M := M)) p c :
  clients_ok (cl st) -> cl_find_client st p = Some c -> live (cl st) c /\ pointer (cl st) c = p.
Proof.
  intros Hok Hf. unfold cl_find_client in Hf.
  destruct (list_find _ _) as [[i [c' e]]|] eqn:Hl; [ | done ]. injection Hf as ->.
  apply list_find_Some in Hl as (Hi & Hp & _). apply list_elem_of_lookup_2 in Hi.
  apply (cl_lookup_Some _ _ _ (co_addresses _ Hok)) in Hi. unfold live, pointer. by rewrite Hi.
Qed.

Lemma find_client_None {M : Type} (st : service (M := M)) p :
  cl_find_client st p = None -> p ∉ client <$> (cl st).*2.
Proof.
  unfold cl_find_client. rewrite fmap_None, list_find_None, Forall_forall. intros Hf Hin.
  rewrite <- list_fmap_compose in Hin. apply list_elem_of_fmap in Hin as (e & -> & Hin).
  by apply (Hf e).
Qed.

Lemma pointer_elem l c : live l c -> pointer l c ∈ client <$> l.*2.
Proof.
  intros [e He]. unfold pointer. rewrite He. cbn. apply cl_lookup_elem in He.
  rewrite <- list_fmap_compose. apply list_elem_of_fmap. by exists (c, e).
Qed.

Lemma add_clients_ok l c p :
  clients_ok l -> c ∉ l.*1 -> p ∉ client <$> l.*2 -> clients_ok (l ++ [(c, mk_client [] p)]).
Proof.
  intros [Ha Hc] Hca Hpc.
  constructor; rewrite !fmap_app; apply NoDup_app; split_and!; try done;
    try apply NoDup_singleton; intros x Hx Hx2; apply list_elem_of_singleton in Hx2 as ->; done.
Qed.

Lemma delete_clients_ok l c : clients_ok l -> clients_ok (cl_delete c l).
Proof.
  intros [Ha Hc]. constructor.
  - apply (sublist_NoDup _ _ Ha). apply fmap_sublist, cl_delete_sublist.
  - apply (sublist_NoDup _ _ Hc). do 2 apply fmap_sublist; apply cl_delete_sublist.
Qed.

Section Spec.
Context {M : Type} `{MultiMap M nat}.
Context (hash : list Z -> GNUNET_HashCode).

Definition lkey (lock : Lock) : GNUNET_HashCode :=
  get_key hash (domain_name lock) (lock_num lock).

(** The entries of the map are the locks. *)
Definition map_ok (B : nat) (m : M) (lks : gmap nat Lock) : Prop :=
  mm_ok B m /\ mm_entries m ≡ₚ prod_swap <$> map_to_list (lkey <$> lks).

Record lock_ok (l : list (nat * ClientList)) (Q : queues) (lock : Lock) : Prop := {
  lo_holder : is_Some (cl_entry lock);
  lo_live : Forall (live l) (lqueue (Some lock));
  lo_queue : Q (lname lock) = pointer l <$> lqueue (Some lock);
  lo_length : Z.of_nat (length (domain_name lock)) + 9 < 2 ^ 16;
  lo_num : is_u32 (lock_num lock)
}.

Record service_inv (B : nat) (st : service (M := M)) (Q : queues) : Prop := {
  si_map : map_ok B (lock_map st) (locks st);
  si_unique : forall a1 a2 l1 l2, locks st !! a1 = Some l1 -> locks st !! a2 = Some l2 ->
    lname l1 = lname l2 -> a1 = a2;
  si_locks : forall a lock, locks st !! a = Some lock -> lock_ok (cl st) Q lock;
  si_free : forall n, (forall a lock, locks st !! a = Some lock -> lname lock <> n) -> Q n = [];
  si_clients : clients_ok (cl st);
  si_lists : lists_ok (locks st) (cl st)
}.

(** ** The map *)

Lemma map_entries B m lks k a :
  map_ok B m lks -> (k, a) ∈ mm_entries m <-> exists lock, lks !! a = Some lock /\ k = lkey lock.
Proof.
  intros [_ Hp]. rewrite Hp, list_elem_of_fmap. split.
  - intros ([a' k'] & [= -> ->] & Hin). apply elem_of_map_to_list in Hin.
    rewrite lookup_fmap in Hin. destruct (lks !! a') as [lock|]; [ | done ].
    injection Hin as <-. by exists lock.
  - intros (lock & Hl & ->). exists (a, lkey lock). split; [ done | ].
    apply elem_of_map_to_list. by rewrite lookup_fmap, Hl.
Qed.

(** The number of locks is the number of entries. *)
Lemma map_count B m lks : map_ok B m lks -> length (mm_entries m) = base.size lks.
Proof.
  intros [_ Hp]. rewrite Hp, length_fmap, length_map_to_list. apply map_size_fmap.
Qed.

(** An update of a lock that keeps its name *)
Lemma map_update B m lks a lock lock' :
  map_ok B m lks -> lks !! a = Some lock -> lname lock' = lname lock ->
  map_ok B m (<[a := lock']> lks).
Proof.
  intros [Hm Hp] Hl Hn. split; [ done | ]. rewrite fmap_insert, insert_id; [ done | ].
  rewrite lookup_fmap, Hl. cbn. unfold lkey. unfold lname in Hn. congruence.
Qed.

Lemma map_add B m lks a lock :
  map_ok B m lks -> lks !! a = None -> (base.size lks < B)%nat ->
  exists m', mm_put m (lkey lock) a = (GNUNET_OK, m') /\ map_ok B m' (<[a := lock]> lks).
Proof.
  intros Hm Ha HB. pose proof (map_count _ _ _ Hm) as Hc. destruct Hm as [Hm Hp].
  destruct (mm_put_ok B m (lkey lock) a Hm ltac:(lia)) as (m' & -> & Hm' & Hp').
  exists m'. split; [ done | ]. split; [ done | ]. rewrite Hp', Hp, fmap_insert.
  rewrite map_to_list_insert by by rewrite lookup_fmap, Ha. done.
Qed.

Lemma map_remove B m lks a lock :
  map_ok B m lks -> lks !! a = Some lock ->
  exists m', mm_remove m (lkey lock) a = (GNUNET_YES, m') /\ map_ok B m' (delete a lks).
Proof.
  intros Hm Ha. assert (Hin : (lkey lock, a) ∈ mm_entries m)
    by (apply (map_entries _ _ _ _ _ Hm); by exists lock).
  destruct Hm as [Hm Hp]. destruct (mm_remove_ok B m (lkey lock) a Hm Hin) as (m' & -> & Hm' & Hp').
  exists m'. split; [ done | ]. split; [ done | ]. apply (Permutation_cons_inv (a := (lkey lock, a))).
  rewrite <- Hp', Hp, fmap_delete.
  rewrite <- (map_to_list_delete (lkey <$> lks) a (lkey lock)) by by rewrite lookup_fmap, Ha. done.
Qed.

Lemma find_lock_walk (st : service (M := M)) d n (l : list (GNUNET_HashCode * nat)) :
  (forall k a, (k, a) ∈ l -> is_Some (locks st !! a)) ->
  exists r, walk (match_iterator st d n) (Ret None) l = Ret r /\
    match r with
    | Some a => a ∈ l.*2 /\ lname <$> locks st !! a = Some (d, n)
    | None => forall a, a ∈ l.*2 -> lname <$> locks st !! a <> Some (d, n)
    end.
Proof.
  induction l as [|[k a] l IH]; intros Hl.
  - exists None. split; [ done | ]. intros a Ha. by apply elem_of_nil in Ha.
  - cbn [walk]. destruct (Hl k a) as [lock Hlock]; [ by left | ].
    unfold match_iterator, get_lock. rewrite Hlock. cbn [of_option].
    assert (Hb : (n =? lock_num lock) && bool_decide (d = domain_name lock) = true
      <-> lname lock = (d, n)).
    { rewrite andb_true_iff, Z.eqb_eq, bool_decide_eq_true. unfold lname. naive_solver. }
    destruct (_ && _).
    + exists (Some a). rewrite Hlock. cbn. rewrite (proj1 Hb) by done.
      split_and!; [ done | by left | done ].
    + destruct IH as (r & Hr & HP); [ intros k' a' Ha'; apply (Hl k'); by right | ].
      exists r. split; [ done | ]. destruct r as [a'|].
      * destruct HP. split; [ by right | done ].
      * intros a'. cbn. rewrite elem_of_cons. intros [->|Ha']; [ | by apply HP ].
        rewrite Hlock. cbn. intros Hn%(inj Some). by apply Hb in Hn.
Qed.

Lemma find_lock_ok B (st : service (M := M)) d n :
  map_ok B (lock_map st) (locks st) ->
  exists r, find_lock hash st d n = Ret r /\
    match r with
    | Some a => exists lock, locks st !! a = Some lock /\ lname lock = (d, n)
    | None => forall a lock, locks st !! a = Some lock -> lname lock <> (d, n)
    end.
Proof.
  intros Hm. unfold find_lock. destruct (mm_get_multiple_ok B (lock_map st) (get_key hash d n)
    _ (match_iterator st d n) (Ret None) (proj1 Hm)) as (l & Hl & ->).
  assert (Hel : forall k a, (k, a) ∈ l <-> k = get_key hash d n /\
    exists lock, locks st !! a = Some lock /\ k = lkey lock).
  { intros k a. rewrite Hl, list_elem_of_filter, (map_entries _ _ _ _ _ Hm). done. }
  destruct (find_lock_walk st d n l) as (r & -> & HP).
  { intros k a Ha. apply Hel in Ha as (_ & lock & -> & _). done. }
  exists r. split; [ done | ]. destruct r as [a|].
  - destruct HP as [_ HP]. destruct (locks st !! a) as [lock|]; [ | done ].
    apply (inj Some) in HP. by exists lock.
  - intros a lock Ha Hn. apply (HP a); [ | rewrite Ha; cbn; by rewrite Hn ].
    apply list_elem_of_fmap. exists (get_key hash d n, a). split; [ done | ]. apply Hel.
    split; [ done | ]. exists lock. split; [ done | ]. unfold lkey. unfold lname in Hn. congruence.
Qed.

(** ** Changing the queue of one lock *)

(** The list of locks of client [c] is changed by [g]. *)
Definition update_ll (c : nat) (g : list nat -> list nat) (l : list (nat * ClientList)) :=
  cl_update c (fun e => mk_client (g (ll e)) (client e)) l.

Lemma update_ll_pointer c g l c' : pointer (update_ll c g l) c' = pointer l c'.
Proof. by apply update_pointer. Qed.

Lemma update_ll_fmap c g l (q : list nat) : pointer (update_ll c g l) <$> q = pointer l <$> q.
Proof. apply list_fmap_ext. intros i x _. apply update_ll_pointer. Qed.

Lemma lists_ok_update lks lks' l a c e g :
  lists_ok lks l -> cl_lookup l c = Some e ->
  (forall x, x <> a -> lks' !! x = lks !! x) ->
  (forall x, x <> a -> occ x (g (ll e)) = occ x (ll e)) ->
  (forall c', c' <> c -> occ c' (lqueue (lks' !! a)) = occ c' (lqueue (lks !! a))) ->
  occ a (g (ll e)) = occ c (lqueue (lks' !! a)) ->
  lists_ok lks' (update_ll c g l).
Proof.
  intros Hok He Hlks Hx Hc Ha c' e' x. unfold update_ll. rewrite cl_lookup_update.
  case_decide as Hcc; intros He'.
  - subst. rewrite He in He'. injection He' as <-. cbn [ll].
    destruct (decide (x = a)) as [->|Hne]; [ done | ]. rewrite Hx, Hlks by done. by apply Hok.
  - rewrite (Hok c' e' x He'). destruct (decide (x = a)) as [->|Hne]; [ by rewrite Hc | ].
    by rewrite Hlks.
Qed.

(** [a] is the address of lock [n], if it has one. *)
Lemma inv_change B (st : service (M := M)) Q n a c e g m' lks' :
  service_inv B st Q -> cl_lookup (cl st) c = Some e ->
  (forall x lk, locks st !! x = Some lk -> lname lk = n <-> x = a) ->
  map_ok B m' lks' -> (forall x, x <> a -> lks' !! x = locks st !! x) ->
  (forall lk, lks' !! a = Some lk -> lname lk = n /\ is_Some (cl_entry lk)
    /\ Forall (live (cl st)) (lqueue (Some lk))
    /\ Z.of_nat (length n.1) + 9 < 2 ^ 16 /\ is_u32 n.2) ->
  (forall x, x <> a -> occ x (g (ll e)) = occ x (ll e)) ->
  (forall c', c' <> c -> occ c' (lqueue (lks' !! a)) = occ c' (lqueue (locks st !! a))) ->
  occ a (g (ll e)) = occ c (lqueue (lks' !! a)) ->
  service_inv B (mk_service m' lks' (update_ll c g (cl st)))
    (set_queue Q n (pointer (cl st) <$> lqueue (lks' !! a))).
Proof.
  intros [Hmap Huniq Hlocks Hfree Hcl Hlists] He Hname Hm' Hsame Hnew Hx Hc Ha.
  constructor; cbn [lock_map locks cl].
  - done.
  - intros a1 a2 l1 l2 H1 H2 Heq.
    destruct (decide (a1 = a)) as [->|Hn1], (decide (a2 = a)) as [->|Hn2]; [ done | .. ].
    + rewrite Hsame in H2 by done. symmetry. apply (Hname _ _ H2). rewrite <- Heq. by apply Hnew.
    + rewrite Hsame in H1 by done. apply (Hname _ _ H1). rewrite Heq. by apply Hnew.
    + rewrite Hsame in H1, H2 by done. by eapply Huniq.
  - intros x lk Hlk. destruct (decide (x = a)) as [->|Hne].
    + destruct (Hnew lk Hlk) as (Hn & Hh & Hl & Hlen & Hnum). subst n.
      constructor; try done.
      * eapply Forall_impl; [ done | ]. intros y Hy. by apply update_live.
      * unfold set_queue. rewrite decide_True, Hlk by done. by rewrite update_ll_fmap.
    + rewrite Hsame in Hlk by done. destruct (Hlocks x lk Hlk) as [Hh Hl Hq Hlen Hnum].
      constructor; try done.
      * eapply Forall_impl; [ done | ]. intros y Hy. by apply update_live.
      * unfold set_queue. rewrite decide_False; [ by rewrite update_ll_fmap | ].
        intros Hn. by apply (Hname _ _ Hlk) in Hn.
  - intros n' Hn'. unfold set_queue. case_decide as Hd.
    + subst n'. destruct (lks' !! a) as [lk|] eqn:Hlk; [ | done ].
      destruct (Hn' a lk Hlk). by apply Hnew.
    + apply Hfree. intros x lk Hlk Hn. apply (Hn' x lk); [ | done ]. rewrite Hsame; [ done | ].
      intros ->. apply Hd. rewrite <- Hn. by apply (Hname _ _ Hlk).
  - by apply update_clients_ok.
  - by eapply lists_ok_update.
Qed.

(** *** Consequences of the invariant *)

Lemma inv_name B (st : service (M := M)) Q a lock :
  service_inv B st Q -> locks st !! a = Some lock ->
  forall x lk, locks st !! x = Some lk -> lname lk = lname lock <-> x = a.
Proof.
  intros Hinv Ha x lk Hx. split; intros Heq; [ by eapply si_unique | subst; congruence ].
Qed.

Lemma inv_queue B (st : service (M := M)) Q a lock :
  service_inv B st Q -> locks st !! a = Some lock ->
  exists h, cl_entry lock = Some h /\ Q (lname lock) = pointer (cl st) <$> h :: wl lock
    /\ live (cl st) h /\ Forall (live (cl st)) (wl lock).
Proof.
  intros Hinv Ha. destruct (si_locks _ _ _ Hinv a lock Ha) as [[h Hh] Hl Hq _ _].
  cbn in Hl, Hq. rewrite Hh in Hl, Hq. exists h. cbn in Hl. by apply Forall_cons in Hl as [??].
Qed.

(** A client is in the queue of a lock when the lock is in its list. *)
Lemma inv_member B (st : service (M := M)) Q a lock c e :
  service_inv B st Q -> locks st !! a = Some lock -> cl_lookup (cl st) c = Some e ->
  client e ∈ Q (lname lock) <-> a ∈ ll e.
Proof.
  intros Hinv Ha He. destruct (si_locks _ _ _ Hinv a lock Ha) as [_ Hl Hq _ _].
  rewrite Hq, <- (occ_elem a), (si_lists _ _ _ Hinv c e a He), Ha, occ_elem.
  rewrite list_elem_of_fmap. assert (Hp : client e = pointer (cl st) c) by by rewrite (pointer_lookup _ _ _ He).
  rewrite Hp. split; [ | by exists c ]. intros (c' & Heq & Hin).
  enough (c = c') by congruence. eapply pointer_inj; [ by apply (si_clients _ _ _ Hinv) | by exists e | | done ].
  by eapply Forall_forall in Hl.
Qed.

(** A queue that is not empty belongs to a lock, and its clients are connected. *)
Lemma queued_lock B (st : service (M := M)) Q n p :
  service_inv B st Q -> p ∈ Q n -> exists a lock, locks st !! a = Some lock /\ lname lock = n.
Proof.
  intros Hinv Hin. destruct (find_lock_ok B st n.1 n.2 (si_map _ _ _ Hinv)) as ([a|] & _ & HP);
    rewrite <- (surjective_pairing n) in HP; [ by eexists | ].
  rewrite (si_free _ _ _ Hinv n HP) in Hin. by apply elem_of_nil in Hin.
Qed.

Lemma queued_client B (st : service (M := M)) Q n p :
  service_inv B st Q -> p ∈ Q n -> p ∈ client <$> (cl st).*2.
Proof.
  intros Hinv Hin. destruct (queued_lock _ _ _ _ _ Hinv Hin) as (a & lock & Ha & <-).
  destruct (si_locks _ _ _ Hinv a lock Ha) as [_ Hl Hq _ _]. rewrite Hq in Hin.
  apply list_elem_of_fmap in Hin as (c & -> & Hc). apply pointer_elem. by eapply Forall_forall in Hl.
Qed.

(** ** SUCCESS messages *)

Lemma u32_s32 z : is_u32 z -> u32 (s32 z) = z.
Proof.
  intros Hz. unfold s32. destruct (Z.lt_ge_cases z (2 ^ 31)) as [Hlt|Hge].
  - rewrite Z.mod_small by int_lia. unfold u32. rewrite Z.mod_small; int_lia.
  - replace ((z + 2 ^ 31) mod 2 ^ 32) with (z - 2 ^ 31); [ | unfold is_u32 in Hz ].
    + unfold u32. replace (z - 2 ^ 31 - 2 ^ 31) with (z + (-1) * 2 ^ 32) by lia.
      rewrite Z.mod_add, Z.mod_small; int_lia.
    + replace (z + 2 ^ 31) with ((z - 2 ^ 31) + 1 * 2 ^ 32) by lia.
      rewrite Z.mod_add, Z.mod_small; lia.
Qed.

Lemma send_success_ok p d n :
  Z.of_nat (length d) + 9 < 2 ^ 16 -> is_u32 n ->
  send_success_msg p d n = Ret [Transmit p (success (d, n))].
Proof.
  intros Hd Hn. unfold send_success_msg. rewrite (u32_s32 n Hn).
  change (Z.of_nat (wire_size GNUNET_LOCKMANAGER_Message)) with 8.
  replace (8 + (Z.of_nat (length d) + 1)) with (9 + Z.of_nat (length d)) by lia.
  rewrite u16_small by (unfold is_u16; lia).
  set (h := wire_encode _). assert (Hh : length h = 8%nat) by exact (wire_length (A := GNUNET_LOCKMANAGER_Message) _).
  replace (Z.to_nat (9 + Z.of_nat (length d))) with (9 + length d)%nat by lia.
  rewrite mem_write_ok by (rewrite Hh, length_replicate; lia). cbn [mbind outcome_bind].
  rewrite take_0, Hh. cbn [app].
  rewrite mem_write_ok
    by (rewrite !length_app, Hh, length_drop, length_replicate; cbn [length]; lia).
  cbn [mbind outcome_bind]. do 2 f_equal. unfold success. cbn [fst snd]. fold h.
  rewrite take_app_length' by done. f_equal. rewrite drop_app, Hh.
  rewrite drop_ge by (rewrite Hh, length_app; cbn [length]; lia).
  rewrite drop_drop, drop_ge, !app_nil_r; [ done | ].
  rewrite length_replicate, length_app. cbn [length]. lia.
Qed.

(** ** Releasing a lock *)

Lemma update_ll_client c g l e c' :
  cl_lookup l c' = Some e -> exists e', cl_lookup (update_ll c g l) c' = Some e' /\ client e' = client e.
Proof.
  intros He. unfold update_ll. rewrite cl_lookup_update, He. case_decide; cbn; eauto.
Qed.

(** Removing entry [i], which is lock [a], from the list of a client *)
Lemma occ_delete_other l i a x : l !! i = Some a -> x <> a -> occ x (delete i l) = occ x l.
Proof. intros Hi Hx. rewrite (occ_delete x l i a Hi). by rewrite decide_False. Qed.

Lemma occ_delete_same l i a : l !! i = Some a -> occ a l = S (occ a (delete i l)).
Proof. intros Hi. rewrite (occ_delete a l i a Hi). by rewrite decide_True. Qed.

(** The holder has taken the lock off its list, and the next one has the lock. *)
Lemma inv_release B (st : service (M := M)) Q c e i a lock m' lks' :
  service_inv B st Q -> cl_lookup (cl st) c = Some e -> ll e !! i = Some a ->
  locks st !! a = Some lock -> cl_entry lock = Some c ->
  map_ok B m' lks' -> (forall x, x <> a -> lks' !! x = locks st !! x) ->
  lqueue (lks' !! a) = wl lock ->
  (forall lk, lks' !! a = Some lk -> lname lk = lname lock /\ is_Some (cl_entry lk)) ->
  service_inv B (mk_service m' lks' (update_ll c (delete i) (cl st)))
    (set_queue Q (lname lock) (tail (Q (lname lock)))).
Proof.
  intros Hinv He Hi Ha Hh Hm Hsame Hq' Hnew.
  destruct (inv_queue _ _ _ _ _ Hinv Ha) as (h & Hh' & Hq & Hlh & Hlw).
  rewrite Hh in Hh'. injection Hh' as <-.
  pose proof (si_lists _ _ _ Hinv c e a He) as Hocc. rewrite Ha in Hocc. cbn in Hocc.
  rewrite Hh in Hocc. cbn in Hocc. rewrite decide_True, (occ_delete_same _ _ _ Hi) in Hocc by done.
  destruct (si_locks _ _ _ Hinv a lock Ha) as [_ _ _ Hlen Hnum].
  replace (tail (Q (lname lock))) with (pointer (cl st) <$> lqueue (lks' !! a))
    by (rewrite Hq, Hq'; done).
  eapply inv_change; try done.
  - by eapply inv_name.
  - intros lk Hlk. destruct (Hnew lk Hlk). rewrite <- Hlk, Hq'. done.
  - intros x Hx. by apply occ_delete_other with a.
  - intros c' Hc'. rewrite Hq', Ha. cbn. rewrite Hh. cbn. by rewrite decide_False.
  - rewrite Hq'. by injection Hocc.
Qed.

(** Passing the lock on to the first client that waits, or removing it *)
Lemma release_ok B (st : service (M := M)) Q c e i a lock :
  service_inv B st Q -> cl_lookup (cl st) c = Some e -> ll e !! i = Some a ->
  locks st !! a = Some lock -> cl_entry lock = Some c ->
  exists m' lks', process_lock_release hash (set_cl st (update_ll c (delete i) (cl st))) a
      = Ret (mk_service m' lks' (update_ll c (delete i) (cl st)),
             grant (lname lock) (tail (Q (lname lock))))
    /\ (base.size lks' <= base.size (locks st))%nat
    /\ service_inv B (mk_service m' lks' (update_ll c (delete i) (cl st)))
         (set_queue Q (lname lock) (tail (Q (lname lock)))).
Proof.
  intros Hinv He Hi Ha Hh. destruct (inv_queue _ _ _ _ _ Hinv Ha) as (h & Hh' & Hq & Hlh & Hlw).
  destruct (si_locks _ _ _ Hinv a lock Ha) as [_ _ _ Hlen Hnum].
  pose proof (fun m' lks' => inv_release B st Q c e i a lock m' lks' Hinv He Hi Ha Hh) as Hstep.
  unfold process_lock_release, get_lock. cbn [set_cl locks]. rewrite Ha.
  cbn [of_option mbind outcome_bind]. destruct (wl lock) as [|c2 rest] eqn:Hwl.
  - unfold remove_lock, get_lock. cbn [set_cl locks lock_map]. rewrite Ha.
    cbn [of_option mbind outcome_bind]. rewrite bool_decide_eq_true_2 by done.
    cbn [gnunet_assert mbind outcome_bind].
    destruct (map_remove _ _ _ _ _ (si_map _ _ _ Hinv) Ha) as (m' & Hrm & Hm').
    unfold lkey in Hrm. rewrite Hrm. exists m', (delete a (locks st)).
    split; [ rewrite Hq; done | ]. split; [ rewrite map_size_delete, Ha; cbn; lia | ].
    apply Hstep; try done; rewrite ?lookup_delete_eq; try done.
    intros x Hx. by rewrite lookup_delete_ne.
  - unfold set_holder, lock_wl_remove, get_lock, get_client, set_locks, set_cl.
    cbn [cl locks lock_map]. rewrite Ha. cbn [of_option mbind outcome_bind locks].
    rewrite lookup_insert_eq. cbn [of_option mbind outcome_bind locks lock_map cl wl cl_entry
      domain_name lock_num]. rewrite insert_insert_eq, Hwl. cbn [delete list_delete].
    apply Forall_cons in Hlw as [[e2 He2] Hlr].
    destruct (update_ll_client c (delete i) _ _ _ He2) as (e2' & He2' & Hp2). rewrite He2'.
    cbn [of_option mbind outcome_bind]. rewrite send_success_ok by done. cbn [mbind outcome_bind].
    eexists (lock_map st), _. split.
    { rewrite Hq, Hp2. cbn. unfold pointer. rewrite He2. done. }
    split; [ rewrite map_size_insert, Ha; cbn; lia | ].
    apply Hstep; try done; rewrite ?lookup_insert_eq; try done.
    + eapply map_update; [ apply (si_map _ _ _ Hinv) | done | done ].
    + intros x Hx. by rewrite lookup_insert_ne.
    + intros lk [= <-]. done.
Qed.

(** ** Requests *)

Lemma c_string_ok l : exists d, c_string (l ++ [0]) = Ret d /\ (length d <= length l)%nat.
Proof.
  induction l as [|b l (d & Hd & Hl)]; [ by exists [] | ]. cbn [app c_string].
  destruct (b =? 0); [ exists []; split; [ done | cbn [length]; lia ] | ].
  rewrite Hd. exists (b :: d). split; [ done | cbn [length]; lia ].
Qed.

Lemma be_decode_small l w : is_bytes l -> length l = w -> 0 <= be_decode l < 2 ^ (8 * Z.of_nat w).
Proof. intros Hl <-. by apply be_decode_range. Qed.

Lemma read_request_ok m :
  wf_message m ->
  read_request m = Ret None \/ exists n : name, read_request m = Ret (Some n)
    /\ Z.of_nat (length n.1) + 9 < 2 ^ 16 /\ is_u32 n.2.
Proof.
  intros (Hb & Hl & Hsize). unfold read_request. rewrite (mem_read_ok m 0 2) by lia.
  cbn [mbind outcome_bind]. rewrite drop_0, Hsize.
  change (Z.of_nat (wire_size GNUNET_LOCKMANAGER_Message)) with 8.
  destruct (Z.leb_spec (Z.of_nat (length m)) 8) as [Hle|Hgt]; [ by left | ].
  rewrite Nat2Z.id, (mem_read_ok m (length m - 1) 1) by lia. cbn [mbind outcome_bind].
  destruct (Z.eqb_spec (nth 0 (take 1 (drop (length m - 1) m)) 0) 0) as [Hz|Hz];
    cbn [negb]; [ | by left ].
  rewrite mem_read_ok by lia. cbn [mbind outcome_bind].
  assert (Hm : drop 8 m = take (length m - 9) (drop 8 m) ++ [0]).
  { rewrite <- (take_drop (length m - 9) (drop 8 m)) at 1. f_equal. rewrite drop_drop.
    replace (8 + (length m - 9))%nat with (length m - 1)%nat by lia.
    assert (Hlast : length (drop (length m - 1) m) = 1%nat) by (rewrite length_drop; lia).
    destruct (drop (length m - 1) m) as [|x [|]]; try done. cbn in Hz. by subst. }
  right. rewrite Hm. destruct (c_string_ok (take (length m - 9) (drop 8 m))) as (d & Hd & Hdl).
  rewrite Hd. cbn [mbind outcome_bind]. eexists (d, _). split; [ done | ]. cbn [fst snd].
  rewrite length_take, length_drop in Hdl.
  pose proof (be_decode_small (take 2 m) 2 (is_bytes_take _ _ Hb)
    ltac:(rewrite length_take; lia)) as Hr. rewrite Hsize in Hr.
  change (2 ^ (8 * Z.of_nat 2)) with (2 ^ 16) in Hr. split; [ lia | ].
  apply (be_decode_small _ 4); [ auto with gnunet | ]. rewrite length_take, length_drop. lia.
Qed.

(** ** Acquiring a lock *)

Lemma inv_add_client B (st : service (M := M)) Q p c :
  service_inv B st Q -> c ∉ (cl st).*1 -> p ∉ client <$> (cl st).*2 ->
  service_inv B (cl_add_client st p c) Q.
Proof.
  intros [Hmap Huniq Hlocks Hfree Hcl Hlists] Hc Hp. unfold cl_add_client, set_cl.
  assert (Hlook : forall x, live (cl st) x ->
    cl_lookup (cl st ++ [(c, mk_client [] p)]) x = cl_lookup (cl st) x).
  { intros x [e He]. rewrite cl_lookup_add by done. case_decide; [ subst | done ].
    by rewrite cl_lookup_None in He. }
  constructor; cbn [lock_map locks cl]; try done; [ | by apply add_clients_ok | ].
  - intros a lk Ha. destruct (Hlocks a lk Ha) as [Hh Hl Hq Hlen Hnum]. constructor; try done.
    + eapply Forall_impl; [ done | ]. intros x Hx. unfold live. by rewrite Hlook.
    + rewrite Hq. apply list_fmap_ext. intros i x Hx. unfold pointer.
      rewrite Hlook; [ done | ]. by eapply Forall_lookup in Hl.
  - intros x e a. rewrite cl_lookup_add by done. case_decide as Hx; [ | by apply Hlists ].
    intros [= <-]. subst. symmetry. apply occ_zero. intros Hin.
    destruct (locks st !! a) as [lk|] eqn:Ha; [ | by apply elem_of_nil in Hin ].
    destruct (Hlocks a lk Ha) as [_ Hl _ _ _]. eapply Forall_forall in Hl as [e He]; [ | done ].
    by rewrite cl_lookup_None in He.
Qed.

(** A client that is not the holder joins the queue. *)
Lemma wait_ok B (st : service (M := M)) Q c e a lock :
  service_inv B st Q -> cl_lookup (cl st) c = Some e -> locks st !! a = Some lock ->
  exists st', (st ← lock_wl_add_client st a c; cl_ll_add_lock st c a) = Ret st'
    /\ base.size (locks st') = base.size (locks st)
    /\ service_inv B st' (set_queue Q (lname lock) (Q (lname lock) ++ [client e])).
Proof.
  intros Hinv He Ha. destruct (inv_queue _ _ _ _ _ Hinv Ha) as (h & Hh & Hq & Hlh & Hlw).
  destruct (si_locks _ _ _ Hinv a lock Ha) as [_ _ _ Hlen Hnum].
  unfold lock_wl_add_client, cl_ll_add_lock, get_lock, get_client, set_locks, set_cl.
  rewrite Ha. cbn [of_option mbind outcome_bind cl locks lock_map]. rewrite He.
  cbn [of_option mbind outcome_bind]. eexists. split; [ reflexivity | ]. cbn [locks].
  split; [ by rewrite map_size_insert, Ha | ].
  set (lock' := mk_lock _ _ _ _).
  assert (Hd : <[a := lock']> (locks st) !! a = Some lock') by by rewrite lookup_insert_eq.
  assert (Hq' : lqueue (Some lock') = lqueue (Some lock) ++ [c]) by (cbn; by rewrite app_assoc).
  replace (Q (lname lock) ++ [client e])
    with (pointer (cl st) <$> lqueue (<[a := lock']> (locks st) !! a)).
  2: { rewrite Hd, Hq', fmap_app. cbn. rewrite Hh, Hq. by rewrite (pointer_lookup _ _ _ He). }
  eapply (inv_change B st Q (lname lock) a c e (fun l => l ++ [a])); try done.
  - by eapply inv_name.
  - eapply map_update; [ apply (si_map _ _ _ Hinv) | done | done ].
  - intros x Hx. by rewrite lookup_insert_ne.
  - intros lk Hlk. rewrite Hd in Hlk. injection Hlk as <-. rewrite Hq'. split_and!; try done.
    apply Forall_app. split; [ by eapply lo_live, si_locks | ]. apply Forall_singleton. by exists e.
  - intros x Hx. rewrite occ_app. cbn. rewrite decide_False by done. lia.
  - intros c' Hc'. rewrite Hd, Hq', Ha, occ_app. cbn [occ]. rewrite decide_False by done. lia.
  - rewrite Hd, Hq', !occ_app, (si_lists _ _ _ Hinv c e a He), Ha. cbn [occ].
    by rewrite !decide_True.
Qed.

(** A lock that nobody holds is created. *)
Lemma take_ok B (st : service (M := M)) Q c e a n :
  service_inv B st Q -> cl_lookup (cl st) c = Some e -> locks st !! a = None ->
  (forall x lk, locks st !! x = Some lk -> lname lk <> n) ->
  Z.of_nat (length n.1) + 9 < 2 ^ 16 -> is_u32 n.2 -> (base.size (locks st) < B)%nat ->
  exists st', (st ← set_holder (add_lock hash st n.1 n.2 a) a c; cl_ll_add_lock st c a) = Ret st'
    /\ base.size (locks st') = S (base.size (locks st))
    /\ (exists e', cl_lookup (cl st') c = Some e' /\ client e' = client e)
    /\ service_inv B st' (set_queue Q n [client e]).
Proof.
  intros Hinv He Ha Hfree Hlen Hnum HB. destruct n as [d num].
  set (lock' := mk_lock [] (Some c) d num).
  destruct (map_add _ _ _ a lock' (si_map _ _ _ Hinv) Ha HB) as (m' & Hput & Hm').
  change (lkey lock') with (get_key hash d num) in Hput.
  unfold add_lock, set_holder, cl_ll_add_lock, get_lock, get_client, set_locks, set_cl.
  cbn [fst snd]. rewrite Hput. cbn [locks cl lock_map]. rewrite lookup_insert_eq.
  cbn [of_option mbind outcome_bind cl locks lock_map wl domain_name lock_num]. rewrite He.
  rewrite insert_insert_eq. cbn [of_option mbind outcome_bind]. fold lock'.
  eexists. split; [ reflexivity | ]. cbn [locks cl].
  split; [ by rewrite map_size_insert, Ha | ].
  change (cl_update c _ (cl st)) with (update_ll c (fun l => l ++ [a]) (cl st)).
  split; [ by apply update_ll_client | ].
  assert (Hd : <[a := lock']> (locks st) !! a = Some lock') by by rewrite lookup_insert_eq.
  replace [client e] with (pointer (cl st) <$> lqueue (<[a := lock']> (locks st) !! a)).
  2: { rewrite Hd. cbn. by rewrite (pointer_lookup _ _ _ He). }
  eapply inv_change; try done.
  - intros x lk Hx. split; [ intros Hn; by destruct (Hfree x lk) | intros ->; congruence ].
  - intros x Hx. by rewrite lookup_insert_ne.
  - intros lk Hlk. rewrite Hd in Hlk. injection Hlk as <-. split_and!; try done.
    apply Forall_singleton. by exists e.
  - intros x Hx. rewrite occ_app. cbn. rewrite decide_False by done. lia.
  - intros c' Hc'. rewrite Hd, Ha. cbn. by rewrite decide_False.
  - rewrite Hd, occ_app, (si_lists _ _ _ Hinv c e a He), Ha. cbn. by rewrite !decide_True.
Qed.

Lemma acquire_ok B (st : service (M := M)) Q p m new_client new_lock :
  service_inv B st Q -> wf_message m -> (base.size (locks st) < B)%nat ->
  new_client ∉ (cl st).*1 -> locks st !! new_lock = None ->
  exists st' Q' out, handle_acquire hash st p m new_client new_lock = Ret (st', out)
    /\ fifo_step Q (Acquire p m) Q' out /\ service_inv B st' Q'
    /\ (base.size (locks st') <= S (base.size (locks st)))%nat.
Proof.
  intros Hinv Hm HB Hc Ha. unfold handle_acquire.
  destruct (read_request_ok m Hm) as [Hr | ([d num] & Hr & Hlen & Hnum)]; rewrite Hr;
    cbn [mbind outcome_bind].
  { exists st, Q. eexists. split_and!; [ done | by constructor | done | lia ]. }
  set (n := (d, num)) in *.
  assert (Hst1 : exists c e st1, match cl_find_client st p with
      | Some c => (c, st) | None => (new_client, cl_add_client st p new_client) end = (c, st1)
    /\ cl_lookup (cl st1) c = Some e /\ client e = p /\ locks st1 = locks st
    /\ service_inv B st1 Q).
  { destruct (cl_find_client st p) as [c|] eqn:Hf.
    - apply find_client_Some in Hf as [[e He] Hp]; [ | by eapply si_clients ].
      exists c, e, st. by rewrite (pointer_lookup _ _ _ He) in Hp.
    - exists new_client, (mk_client [] p), (cl_add_client st p new_client).
      apply find_client_None in Hf. split_and!; try done; [ | by apply inv_add_client ].
      cbn [cl_add_client set_cl cl]. by rewrite cl_lookup_add, decide_True. }
  destruct Hst1 as (c & e & st1 & -> & He & Hp & Hl1 & Hinv1). rewrite <- Hl1 in *.
  destruct (find_lock_ok B st1 d num (si_map _ _ _ Hinv1)) as (r & -> & HP).
  cbn [mbind outcome_bind]. destruct r as [a|].
  - destruct HP as (lock & Hlock & Hn). fold n in Hn. unfold get_lock at 1. rewrite Hlock.
    cbn [of_option mbind outcome_bind].
    destruct (inv_queue _ _ _ _ _ Hinv1 Hlock) as (h & Hh & Hq & Hlh & Hlw).
    rewrite Hn in Hq. case_bool_decide as Hcl; rewrite Hh in Hcl.
    + injection Hcl as ->. exists st1, Q. eexists. split_and!; [ done | | done | lia ].
      apply step_twice with n; [ done | ]. rewrite Hq. cbn. by rewrite (pointer_lookup _ _ _ He), Hp.
    + destruct (wait_ok B st1 Q c e a lock Hinv1 He Hlock) as (st2 & Hst2 & Hsz & Hinv2).
      destruct (lock_wl_add_client st1 a c) as [st3| |]; try done. cbn [mbind outcome_bind] in *.
      rewrite Hst2. cbn [mbind outcome_bind]. rewrite Hn, Hp in Hinv2.
      exists st2, (set_queue Q n (Q n ++ [p])). eexists. split_and!; [ done | | done | lia ].
      apply step_wait; [ done | by rewrite Hq | ]. rewrite Hq. cbn. intros [= Heq].
      apply Hcl. f_equal.
      apply (pointer_inj (cl st1)); [ by eapply si_clients | done | by exists e | ].
      by rewrite Heq, (pointer_lookup _ _ _ He), Hp.
  - destruct (take_ok B st1 Q c e new_lock n Hinv1 He Ha HP Hlen Hnum HB)
      as (st2 & Hst2 & Hsz & (e' & He' & Hp') & Hinv2).
    destruct (set_holder _ _ _) as [st3| |]; try done. cbn [mbind outcome_bind] in *.
    rewrite Hst2. cbn [mbind outcome_bind]. unfold get_client. rewrite He'.
    cbn [of_option mbind outcome_bind]. rewrite Hp', Hp, send_success_ok by done.
    cbn [mbind outcome_bind]. rewrite Hp in Hinv2.
    exists st2, (set_queue Q n [p]). eexists. split_and!; [ done | | done | lia ].
    apply step_take; [ done | ]. by eapply si_free.
Qed.

(** ** Giving up *)

Lemma remove_first_fmap (f : nat -> nat) c (q : list nat) j :
  (forall x, x ∈ q -> f x = f c -> x = c) -> list_find (fun x => x = c) q = Some (j, c) ->
  remove_first (f c) (f <$> q) = f <$> delete j q.
Proof.
  revert j. induction q as [|x q IH]; intros j Hf Hj; [ done | ]. cbn [list_find] in Hj.
  rewrite fmap_cons. cbn [remove_first]. case_decide as Hx.
  - injection Hj as <- ->. by rewrite decide_True.
  - destruct (list_find _ q) as [[j' y]|] eqn:Hl; [ | done ]. cbn in Hj. injection Hj as <- ->.
    rewrite decide_False.
    2: { intros Heq. apply Hx, Hf; [ by left | done ]. }
    cbn [delete list_delete]. rewrite fmap_cons. f_equal. apply IH; [ | done ].
    intros y Hy. apply Hf. by right.
Qed.

(** A client that waits leaves the queue. *)
Lemma give_up_ok B (st : service (M := M)) Q c e i a lock h :
  service_inv B st Q -> cl_lookup (cl st) c = Some e -> ll e !! i = Some a ->
  locks st !! a = Some lock -> cl_entry lock = Some h -> h <> c ->
  exists j lks', lock_wl_find lock c = Some j /\
    lock_wl_remove (set_cl st (update_ll c (delete i) (cl st))) a j
      = Ret (mk_service (lock_map st) lks' (update_ll c (delete i) (cl st)))
    /\ client e ∈ pointer (cl st) <$> wl lock
    /\ base.size lks' = base.size (locks st)
    /\ service_inv B (mk_service (lock_map st) lks' (update_ll c (delete i) (cl st)))
         (set_queue Q (lname lock)
           (pointer (cl st) h :: remove_first (client e) (pointer (cl st) <$> wl lock))).
Proof.
  intros Hinv He Hi Ha Hh Hne. destruct (inv_queue _ _ _ _ _ Hinv Ha) as (h' & Hh' & Hq & Hlh & Hlw).
  rewrite Hh in Hh'. injection Hh' as <-.
  destruct (si_locks _ _ _ Hinv a lock Ha) as [_ _ _ Hlen Hnum].
  pose proof (si_lists _ _ _ Hinv c e a He) as Hocc. rewrite Ha in Hocc. cbn in Hocc.
  rewrite Hh in Hocc. cbn in Hocc. rewrite decide_False, (occ_delete_same _ _ _ Hi) in Hocc by done.
  cbn in Hocc. assert (Hin : c ∈ wl lock) by (apply occ_elem; lia).
  assert (Hp : client e = pointer (cl st) c) by by rewrite (pointer_lookup _ _ _ He).
  destruct (list_find (fun x => x = c) (wl lock)) as [[j c']|] eqn:Hf.
  2: { apply list_find_None in Hf. eapply Forall_forall in Hf; [ | apply Hin ]. done. }
  pose proof Hf as (Hj & -> & _)%list_find_Some.
  set (lock' := mk_lock (delete j (wl lock)) (Some h) (domain_name lock) (lock_num lock)).
  exists j, (<[a := lock']> (locks st)). split; [ unfold lock_wl_find; by rewrite Hf | ].
  split. { unfold lock_wl_remove, get_lock, set_locks, set_cl. cbn [locks cl lock_map].
           rewrite Ha. cbn. by rewrite Hh. }
  split. { rewrite Hp. by apply list_elem_of_fmap_2. }
  split; [ by rewrite map_size_insert, Ha | ].
  assert (Hd : <[a := lock']> (locks st) !! a = Some lock') by by rewrite lookup_insert_eq.
  rewrite Hp, (remove_first_fmap _ c _ j).
  2: { intros x Hx. apply (pointer_inj (cl st)); [ by eapply si_clients | | by exists e ].
       by eapply Forall_forall in Hlw. }
  2: done.
  change (pointer (cl st) h :: (pointer (cl st) <$> delete j (wl lock)))
    with (pointer (cl st) <$> lqueue (Some lock')). rewrite <- Hd.
  eapply inv_change; try done.
  - by eapply inv_name.
  - eapply map_update; [ apply (si_map _ _ _ Hinv) | done | done ].
  - intros x Hx. by rewrite lookup_insert_ne.
  - intros lk Hlk. rewrite Hd in Hlk. injection Hlk as <-. split_and!; try done.
    cbn. apply Forall_cons. split; [ done | ]. by apply Forall_delete.
  - intros x Hx. by apply occ_delete_other with a.
  - intros c' Hc'. rewrite Hd, Ha. cbn. rewrite Hh. cbn. by rewrite (occ_delete_other _ _ c).
  - rewrite Hd. cbn. rewrite decide_False by done. rewrite (occ_delete_same _ _ _ Hj) in Hocc.
    cbn. lia.
Qed.

Lemma ll_remove_ok (st : service (M := M)) c e i a :
  cl_lookup (cl st) c = Some e -> ll e !! i = Some a ->
  cl_ll_remove_lock st c i = Ret (set_cl st (update_ll c (delete i) (cl st))).
Proof.
  intros He Hi. unfold cl_ll_remove_lock, get_client. rewrite He. cbn [of_option mbind outcome_bind].
  rewrite bool_decide_eq_false_2; [ done | ]. intros Hn. by rewrite Hn in Hi.
Qed.

Lemma release_handler_ok B (st : service (M := M)) Q p m :
  service_inv B st Q -> wf_message m ->
  exists st' Q' out, handle_release hash st p m = Ret (st', out)
    /\ fifo_step Q (Release p m) Q' out /\ service_inv B st' Q'
    /\ (base.size (locks st') <= base.size (locks st))%nat.
Proof.
  intros Hinv Hm. unfold handle_release.
  assert (Herr : forall n, read_request m = Ret (Some n) -> p ∉ Q n ->
    exists st' Q' out, Ret (st, [ReceiveDone p GNUNET_SYSERR]) = Ret (st', out)
      /\ fifo_step Q (Release p m) Q' out /\ service_inv B st' Q'
      /\ (base.size (locks st') <= base.size (locks st))%nat).
  { intros n Hr Hn. exists st, Q. eexists. split_and!; [ done | by eapply step_not_there | done | lia ]. }
  destruct (read_request_ok m Hm) as [Hr | ([d num] & Hr & _)]; rewrite Hr; cbn [mbind outcome_bind].
  { exists st, Q. eexists. split_and!; [ done | by constructor | done | lia ]. }
  destruct (find_lock_ok B st d num (si_map _ _ _ Hinv)) as (r & -> & HP). cbn [mbind outcome_bind].
  assert (Hfree : r = None -> Q (d, num) = []) by (intros ->; by eapply si_free).
  destruct (cl_find_client st p) as [c|] eqn:Hf.
  2: { apply (Herr _ Hr). intros Hin. apply find_client_None in Hf. by eapply Hf, queued_client. }
  apply find_client_Some in Hf as [[e He] Hp]; [ | by eapply si_clients ].
  rewrite (pointer_lookup _ _ _ He) in Hp. destruct r as [a|].
  2: { apply (Herr _ Hr). rewrite Hfree by done. apply not_elem_of_nil. }
  destruct HP as (lock & Ha & Hn). unfold cl_ll_find_lock, get_client. rewrite He.
  cbn [of_option mbind outcome_bind]. destruct (list_find _ (ll e)) as [[i a']|] eqn:Hi; cbn [fmap option_fmap option_map fst].
  2: { apply (Herr _ Hr). rewrite <- Hn, <- Hp. rewrite (inv_member _ _ _ _ _ _ _ Hinv Ha He).
       intros Hin. apply list_find_None in Hi. eapply Forall_forall in Hi; [ | apply Hin ]. done. }
  apply list_find_Some in Hi as (Hi & -> & _). rewrite (ll_remove_ok _ _ _ _ _ He Hi).
  cbn [mbind outcome_bind]. unfold get_lock. cbn [set_cl locks]. rewrite Ha.
  cbn [of_option mbind outcome_bind].
  destruct (inv_queue _ _ _ _ _ Hinv Ha) as (h & Hh & Hq & Hlh & Hlw). case_bool_decide as Hcl.
  - rewrite Hh in Hcl. injection Hcl as <-.
    destruct (release_ok B st Q c e i a lock Hinv He Hi Ha Hh) as (m' & lks' & -> & Hsz & Hinv').
    cbn [mbind outcome_bind]. rewrite Hn in *. do 3 eexists. split_and!; [ done | | done | done ].
    apply step_release; [ done | ]. rewrite Hq. cbn. by rewrite (pointer_lookup _ _ _ He), Hp.
  - rewrite Hh in Hcl.
    destruct (give_up_ok B st Q c e i a lock h Hinv He Hi Ha Hh ltac:(congruence))
      as (j & lks' & -> & -> & Hin & Hsz & Hinv').
    cbn [mbind outcome_bind]. rewrite Hn, Hp in *. do 3 eexists.
    split_and!; [ done | | done | cbn; lia ]. eapply step_give_up; try done.
    intros <-. apply Hcl. f_equal.
    apply (pointer_inj (cl st)); [ by eapply si_clients | by exists e | done | ].
    by rewrite (pointer_lookup _ _ _ He).
Qed.

(** ** Disconnecting *)

Lemma inv_remove_client B (st : service (M := M)) Q c e :
  service_inv B st Q -> cl_lookup (cl st) c = Some e -> ll e = [] ->
  cl_remove_client st c = Ret (set_cl st (cl_delete c (cl st)))
  /\ service_inv B (set_cl st (cl_delete c (cl st))) Q.
Proof.
  intros [Hmap Huniq Hlocks Hfree Hcl Hlists] He Hll. split.
  { unfold cl_remove_client, get_client. rewrite He. cbn. by rewrite bool_decide_eq_true_2. }
  assert (Hlook : forall x, cl_lookup (cl_delete c (cl st)) x
    = if decide (x = c) then None else cl_lookup (cl st) x)
    by (intros x; apply cl_lookup_delete, Hcl).
  assert (Hnot : forall a lk, locks st !! a = Some lk -> c ∉ lqueue (Some lk)).
  { intros a lk Ha. apply occ_zero. rewrite <- Ha, <- (Hlists c e a He), Hll. done. }
  constructor; cbn [lock_map locks cl set_cl]; try done; [ | by apply delete_clients_ok | ].
  - intros a lk Ha. specialize (Hnot a lk Ha).
    destruct (Hlocks a lk Ha) as [Hh Hl Hq Hlen Hnum]. constructor; try done.
    + apply Forall_forall. intros x Hx. unfold live. rewrite Hlook, decide_False by by intros ->.
      by eapply Forall_forall in Hl.
    + rewrite Hq. apply list_fmap_ext. intros i x Hx. apply list_elem_of_lookup_2 in Hx.
      unfold pointer. rewrite Hlook, decide_False by by intros ->. done.
  - intros x ex a. rewrite Hlook. case_decide; [ done | ]. apply Hlists.
Qed.

(** The lock at the head of the list of a client that waits for none *)
Lemma only_holds B (st : service (M := M)) Q c e a :
  service_inv B st Q -> cl_lookup (cl st) c = Some e -> a ∈ ll e -> ~ waits Q (client e) ->
  exists lock, locks st !! a = Some lock /\ cl_entry lock = Some c.
Proof.
  intros Hinv He Ha Hw. apply occ_elem in Ha. rewrite (si_lists _ _ _ Hinv c e a He) in Ha.
  destruct (locks st !! a) as [lock|] eqn:Hl; [ | cbn in Ha; lia ]. exists lock. split; [ done | ].
  destruct (inv_queue _ _ _ _ _ Hinv Hl) as (h & Hh & Hq & _). apply occ_elem in Ha. cbn in Ha.
  rewrite Hh in Ha |- *. apply elem_of_cons in Ha as [->|Hin]; [ done | ]. destruct Hw.
  exists (lname lock). rewrite Hq, <- (pointer_lookup _ _ _ He). by apply list_elem_of_fmap_2.
Qed.

Lemma no_locks_no_head B (st : service (M := M)) Q c e n :
  service_inv B st Q -> cl_lookup (cl st) c = Some e -> ll e = [] -> head (Q n) <> Some (client e).
Proof.
  intros Hinv He Hll Hhd.
  assert (Hin : client e ∈ Q n) by (destruct (Q n); [ done | injection Hhd as ->; by left ]).
  destruct (queued_lock _ _ _ _ _ Hinv Hin) as (a & lock & Ha & <-).
  apply (inv_member _ _ _ _ _ _ _ Hinv Ha He) in Hin. rewrite Hll in Hin. by apply elem_of_nil in Hin.
Qed.

Lemma tail_elem {A} (x : A) l : x ∈ tail l -> x ∈ l.
Proof. destruct l; [ done | by right ]. Qed.

Lemma disconnect_loop_ok B fuel (st : service (M := M)) Q c e :
  service_inv B st Q -> cl_lookup (cl st) c = Some e -> ~ waits Q (client e) ->
  (length (ll e) <= fuel)%nat ->
  exists st' Q' ns e',
    disconnect_loop hash fuel st c = Ret (st', concat ((fun n => grant n (tail (Q n))) <$> ns))
    /\ service_inv B st' Q' /\ NoDup ns /\ (forall n, n ∈ ns <-> head (Q n) = Some (client e))
    /\ (forall n, Q' n = if decide (n ∈ ns) then tail (Q n) else Q n)
    /\ cl_lookup (cl st') c = Some e' /\ ll e' = []
    /\ (base.size (locks st') <= base.size (locks st))%nat.
Proof.
  revert st Q e. induction fuel as [|fuel IH]; intros st Q e Hinv He Hw Hfuel;
    cbn [disconnect_loop]; unfold get_client; rewrite He; cbn [of_option mbind outcome_bind];
    destruct (ll e) as [|a l] eqn:Hll; cbn [length] in Hfuel; try lia.
  1, 2: exists st, Q, [], e; split_and!; try done;
    [ constructor | intros n; rewrite elem_of_nil; split; [ done | by intros Hh%(no_locks_no_head _ _ _ _ _ _ Hinv He Hll) ] ].
  destruct (only_holds B st Q c e a Hinv He ltac:(rewrite Hll; by left) Hw) as (lock & Ha & Hh).
  assert (Hi : ll e !! 0%nat = Some a) by by rewrite Hll.
  rewrite (ll_remove_ok _ _ _ _ _ He Hi). cbn [mbind outcome_bind].
  destruct (release_ok B st Q c e 0 a lock Hinv He Hi Ha Hh) as (m' & lks' & -> & Hsz & Hinv1).
  cbn [mbind outcome_bind]. set (n := lname lock) in *. set (Q1 := set_queue Q n _) in *.
  set (st1 := mk_service m' lks' _) in *.
  assert (He1 : cl_lookup (cl st1) c = Some (mk_client l (client e))).
  { cbn [cl st1]. unfold update_ll. rewrite cl_lookup_update, decide_True, He by done. cbn.
    by rewrite Hll. }
  assert (Hhd : head (Q n) = Some (client e)).
  { destruct (inv_queue _ _ _ _ _ Hinv Ha) as (h & Hh' & Hq & _). fold n in Hq. rewrite Hq.
    rewrite Hh in Hh'. injection Hh' as <-. cbn. by rewrite (pointer_lookup _ _ _ He). }
  assert (HQ1 : forall x, x <> n -> Q1 x = Q x)
    by (intros x Hx; unfold Q1, set_queue; by rewrite decide_False).
  assert (HQn : Q1 n = tail (Q n)) by (unfold Q1, set_queue; by rewrite decide_True).
  assert (Hw1 : ~ waits Q1 (client e)).
  { intros [x Hx]. apply Hw. exists x. destruct (decide (x = n)) as [->|Hne].
    - rewrite HQn in Hx. by apply tail_elem.
    - by rewrite HQ1 in Hx. }
  destruct (IH st1 Q1 _ Hinv1 He1 Hw1) as (st' & Q' & ns & e' & -> & Hinv' & Hnd & Hns & HQ' & He' & Hll' & Hsz');
    [ cbn; lia | ].
  assert (Hn : n ∉ ns).
  { rewrite Hns, HQn. cbn. intros Hx. apply Hw. exists n.
    destruct (tail (Q n)); [ done | injection Hx as ->; by left ]. }
  cbn [mbind outcome_bind]. exists st', Q', (n :: ns), e'. split_and!; try done.
  - rewrite fmap_cons. cbn [concat]. do 4 f_equal. apply list_fmap_ext. intros j x Hx. rewrite HQ1; [ done | ].
    intros ->. by apply list_elem_of_lookup_2 in Hx.
  - by constructor.
  - intros x. rewrite elem_of_cons, Hns. cbn. destruct (decide (x = n)) as [->|Hne].
    + rewrite Hhd. intuition.
    + rewrite HQ1 by done. intuition.
  - intros x. rewrite HQ'. destruct (decide (x = n)) as [->|Hne].
    + rewrite decide_False, decide_True by (done || by left). done.
    + rewrite HQ1 by done. destruct (decide (x ∈ ns)) as [Hx|Hx].
      * by rewrite decide_True by by right.
      * rewrite decide_False; [ done | ]. rewrite not_elem_of_cons. done.
  - cbn in Hsz'. lia.
Qed.

Lemma disconnect_ok B (st : service (M := M)) Q p :
  service_inv B st Q -> ~ waits Q p ->
  exists st' Q' out, client_disconnect_cb hash st p = Ret (st', out)
    /\ fifo_step Q (Disconnect p) Q' out /\ service_inv B st' Q'
    /\ (base.size (locks st') <= base.size (locks st))%nat.
Proof.
  intros Hinv Hw. unfold client_disconnect_cb. destruct (cl_find_client st p) as [c|] eqn:Hf.
  - apply find_client_Some in Hf as [[e He] Hp]; [ | by eapply si_clients ].
    rewrite (pointer_lookup _ _ _ He) in Hp. subst p. unfold get_client. rewrite He.
    cbn [of_option mbind outcome_bind].
    destruct (disconnect_loop_ok B (length (ll e)) st Q c e Hinv He Hw ltac:(lia))
      as (st' & Q' & ns & e' & -> & Hinv' & Hnd & Hns & HQ' & He' & Hll' & Hsz).
    cbn [mbind outcome_bind]. destruct (inv_remove_client _ _ _ _ _ Hinv' He' Hll') as [-> Hinv''].
    cbn [mbind outcome_bind]. do 3 eexists. split_and!; [ done | | done | done ].
    by apply step_disconnect.
  - apply find_client_None in Hf. exists st, Q, []. split_and!; [ done | | done | lia ].
    apply (step_disconnect Q p []); [ constructor | | done | done ].
    intros n. rewrite elem_of_nil. split; [ done | ]. intros Hhd.
    assert (Hin : p ∈ Q n) by (destruct (Q n); [ done | injection Hhd as ->; by left ]).
    by eapply Hf, queued_client.
Qed.

(** ** Sequences of events *)

Context (malloc : list nat -> nat).
Hypothesis malloc_fresh : forall l, malloc l ∉ l.

Lemma handle_ok B (st : service (M := M)) Q ev :
  service_inv B st Q -> may_happen Q ev -> (base.size (locks st) < B)%nat ->
  exists st' Q' out, handle hash malloc st ev = Ret (st', out)
    /\ fifo_step Q ev Q' out /\ service_inv B st' Q'
    /\ (base.size (locks st') <= S (base.size (locks st)))%nat.
Proof.
  intros Hinv Hev HB. destruct ev as [p m | p m | p]; cbn [handle].
  - apply acquire_ok; try done. set (a := malloc (map_to_list (locks st)).*1).
    destruct (locks st !! a) as [lock|] eqn:Ha; [ | done ].
    destruct (malloc_fresh (map_to_list (locks st)).*1). fold a.
    apply list_elem_of_fmap. exists (a, lock). split; [ done | ]. by apply elem_of_map_to_list.
  - destruct (release_handler_ok B st Q p m Hinv Hev) as (st' & Q' & out & ?).
    exists st', Q', out. intuition lia.
  - destruct (disconnect_ok B st Q p Hinv Hev) as (st' & Q' & out & ?).
    exists st', Q', out. intuition lia.
Qed.

Lemma handle_all_ok B evs : forall (st : service (M := M)) Q,
  service_inv B st Q -> (base.size (locks st) + length evs <= B)%nat -> guarded Q evs ->
  exists st' Q' out, handle_all hash malloc st evs = Ret (st', out)
    /\ fifo_run Q evs Q' out /\ service_inv B st' Q'.
Proof.
  induction evs as [|ev evs IH]; intros st Q Hinv HB Hg; cbn [handle_all].
  - exists st, Q, []. split_and!; [ done | constructor | done ].
  - cbn in HB, Hg. destruct Hg as [Hev Hg].
    destruct (handle_ok B st Q ev Hinv Hev ltac:(lia)) as (st1 & Q1 & out1 & -> & Hs & Hinv1 & Hsz).
    cbn [mbind outcome_bind].
    destruct (IH st1 Q1 Hinv1 ltac:(lia) (Hg _ _ Hs)) as (st2 & Q2 & out2 & -> & Hr & Hinv2).
    exists st2, Q2, (out1 ++ out2). split_and!; [ done | by econstructor | done ].
Qed.

Lemma run_inv B :
  Z.of_nat B <= 2 ^ 28 ->
  exists st : service (M := M), lockmanager_run = Ret st /\ locks st = ∅
    /\ service_inv B st (fun _ => []).
Proof.
  intros HB. unfold lockmanager_run.
  destruct (mm_create_ok (V := nat) B 32 false ltac:(lia) HB) as (m & -> & Hm & He). cbn.
  eexists. split_and!; [ done | done | ]. constructor; cbn.
  - split; [ done | ]. by rewrite He, fmap_empty, map_to_list_empty.
  - intros a1 a2 l1 l2. by rewrite lookup_empty.
  - intros a lock. by rewrite lookup_empty.
  - done.
  - constructor; constructor.
  - done.
Qed.

(** ** Shutdown *)

Lemma delete_all_ok B l : forall st : service (M := M),
  map_ok B (lock_map st) (locks st) -> mm_entries (lock_map st) ≡ₚ l ->
  exists m', walk lock_delete_iterator (Ret st) l = Ret (mk_service m' ∅ (cl st))
    /\ mm_ok B m' /\ mm_entries m' = [].
Proof.
  induction l as [|[k a] l IH]; intros st Hm Hl; cbn [walk].
  - apply Permutation_nil_r in Hl. exists (lock_map st).
    pose proof (map_count _ _ _ Hm) as Hc. rewrite Hl in Hc. symmetry in Hc.
    apply map_size_empty_inv in Hc. destruct st as [m lks cls]. cbn in *. subst lks.
    split_and!; [ done | apply Hm | done ].
  - assert (Hin : (k, a) ∈ mm_entries (lock_map st)) by (rewrite Hl; by left).
    apply (map_entries _ _ _ _ _ Hm) in Hin as (lock & Ha & ->).
    unfold lock_delete_iterator at 1. cbn [mbind outcome_bind]. unfold get_lock. rewrite Ha.
    cbn [of_option mbind outcome_bind set_locks lock_map locks cl].
    rewrite delete_insert_eq.
    destruct (map_remove _ _ _ _ _ Hm Ha) as (m' & -> & Hm'). cbn [mbind outcome_bind].
    destruct (IH (mk_service m' (delete a (locks st)) (cl st)) Hm') as (m'' & Hw & Hok & He).
    { cbn [lock_map]. apply (Permutation_cons_inv (a := (lkey lock, a))). rewrite <- Hl.
      destruct Hm' as [_ ->], Hm as [_ ->]. rewrite fmap_delete.
      rewrite <- (map_to_list_delete (lkey <$> locks st) a (lkey lock)) by by rewrite lookup_fmap, Ha.
      done. }
    exists m''. done.
Qed.

Lemma clear_clients_ok fuel (st : service (M := M)) :
  (length (cl st) <= fuel)%nat -> clear_clients fuel st = Ret (set_cl st []).
Proof.
  revert st. induction fuel as [|fuel IH]; intros [m lks [|[c e] l]] Hl; cbn in Hl; try lia; try done.
  cbn [clear_clients cl]. unfold cl_remove_client, get_client.
  assert (Hup : cl_update c (fun e => mk_client [] (client e)) ((c, e) :: l)
    = (c, mk_client [] (client e)) :: cl_update c (fun e => mk_client [] (client e)) l).
  { cbn. by rewrite Nat.eqb_refl. }
  unfold set_cl. cbn [cl lock_map locks]. rewrite Hup, cl_lookup_cons, decide_True by done.
  cbn [of_option mbind outcome_bind ll]. rewrite bool_decide_eq_true_2 by done.
  cbn [gnunet_assert mbind outcome_bind]. rewrite cl_delete_cons, decide_True by done.
  rewrite IH; [ done | ]. cbn [cl]. unfold cl_update. rewrite length_fmap. lia.
Qed.

End Spec.

(** ** Properties *)

(** C3: The lock manager, over any hash map with the MultiMap interface,
    implements one first-come-first-served queue per lock: for every sequence
    of up to 2^28 well-formed requests and disconnects in which no client
    leaves while it waits, the service runs without a failed assertion or a
    dangling pointer, sends a SUCCESS message exactly to the client that
    becomes the first of a queue, answers every request as the queues say and
    keeps the invariant that relates its pointers to the queues. *)
Theorem lockmanager_refines_fifo {M : Type} `{MultiMap M nat}
  (hash : list Z -> GNUNET_HashCode) (malloc : list nat -> nat) (B : nat) (evs : list event) :
  (forall l, malloc l ∉ l) -> Z.of_nat B <= 2 ^ 28 -> (length evs <= B)%nat ->
  guarded (fun _ => []) evs ->
  exists (st0 st : service (M := M)) Q out,
    lockmanager_run = Ret st0 /\ handle_all hash malloc st0 evs = Ret (st, out)
    /\ fifo_run (fun _ => []) evs Q out /\ service_inv hash B st Q.
Proof.
  intros Hmalloc HB Hl Hg. destruct (run_inv hash B HB) as (st0 & Hst0 & Hlocks & Hinv).
  destruct (handle_all_ok hash malloc Hmalloc B evs st0 _ Hinv) as (st & Q & out & Hst & Hr & Hinv').
  - rewrite Hlocks, map_size_empty. lia.
  - done.
  - by exists st0, st, Q, out.
Qed.

Definition sample_request : list Z := [0; 10; 0; 0; 0; 0; 0; 7; 97; 0].
Definition sample_hash (_ : list Z) : GNUNET_HashCode := replicate 16 0.
(** One more than the largest address in use *)
Definition sample_malloc (l : list nat) : nat := S (foldr max 0%nat l).

Lemma sample_malloc_fresh l : sample_malloc l ∉ l.
Proof.
  intros Hin. unfold sample_malloc in Hin.
  assert (Hle : forall x, x ∈ l -> (x <= foldr max 0 l)%nat).
  { clear. induction l as [|y l IH]; intros x Hx; [ by apply elem_of_nil in Hx | ].
    apply elem_of_cons in Hx as [->|Hx]; cbn; [ lia | ]. specialize (IH x Hx). lia. }
  apply Hle in Hin. lia.
Qed.

Lemma sample_request_wf : wf_message sample_request.
Proof.
  split_and!; [ | cbn; lia | done ]. unfold sample_request. rewrite !is_bytes_cons. unfold is_u8.
  split_and!; try lia. constructor.
Qed.

Lemma lockmanager_refines_fifo_witness :
  exists (st0 st : service (M := GNUNET_CONTAINER_MultiHashMap nat)) Q out,
    lockmanager_run = Ret st0
    /\ handle_all sample_hash sample_malloc st0
         [Acquire 1 sample_request; Acquire 2 sample_request; Release 1 sample_request]
       = Ret (st, out)
    /\ fifo_run (fun _ => [])
         [Acquire 1 sample_request; Acquire 2 sample_request; Release 1 sample_request] Q out
    /\ service_inv sample_hash 3 st Q.
Proof.
  apply (lockmanager_refines_fifo sample_hash sample_malloc 3).
  - apply sample_malloc_fresh.
  - lia.
  - reflexivity.
  - cbn [guarded may_happen]. intuition auto using sample_request_wf.
Defined.

(** From every state that satisfies the invariant, shutdown_task
    terminates, frees every lock and client and leaves the map empty, so the
    assertion on its size holds. *)
Theorem lockmanager_shutdown_clean {M : Type} `{MultiMap M nat}
  (hash : list Z -> GNUNET_HashCode) (B : nat) (st : service (M := M)) (Q : queues) :
  service_inv hash B st Q ->
  exists st', shutdown_task st = Ret st' /\ locks st' = ∅ /\ cl st' = []
    /\ mm_entries (lock_map st') = [].
Proof.
  intros Hinv. unfold shutdown_task. rewrite clear_clients_ok by done. cbn [mbind outcome_bind].
  destruct (delete_all_ok hash B (mm_entries (lock_map st)) (set_cl st []) (si_map _ _ _ _ Hinv))
    as (m' & Hw & Hok & He); [ done | ].
  rewrite (mm_iterate_ok B) by apply (si_map _ _ _ _ Hinv). cbn [set_cl lock_map] in *. rewrite Hw.
  cbn [mbind outcome_bind lock_map]. rewrite (mm_size_ok B) by done. rewrite He. cbn.
  eexists. split_and!; try done.
Qed.

Lemma lockmanager_shutdown_clean_witness :
  exists st0 st', lockmanager_run (M := GNUNET_CONTAINER_MultiHashMap nat) = Ret st0
    /\ shutdown_task st0 = Ret st' /\ locks st' = ∅.
Proof.
  destruct (run_inv (M := GNUNET_CONTAINER_MultiHashMap nat) sample_hash 3 ltac:(lia))
    as (st0 & Hst0 & _ & Hinv).
  destruct (lockmanager_shutdown_clean sample_hash 3 st0 _ Hinv) as (st' & Hs & Hl & _).
  exists st0, st'. split_and!; done.
Defined.

(** A client that disconnects while it waits for a lock breaks the
    service: the lock is granted to another waiting client although the holder
    never released it, the freed entry stays in the wait list and is read when
    the lock is released, and a lock can be left with a freed holder so that
    later clients are refused or never served. *)
Theorem lockmanager_waiter_disconnect_breaks_exclusion :
  let run evs := st ← lockmanager_run (M := GNUNET_CONTAINER_MultiHashMap nat);
                 r ← handle_all sample_hash sample_malloc st evs; Ret r.2 in
  let m := sample_request in
  let ok p := ReceiveDone p GNUNET_OK in
  let granted p := Transmit p (success ([97], 7)) in
  run [Acquire 1 m; Acquire 2 m; Acquire 3 m; Disconnect 3]
  = Ret [granted 1%nat; ok 1%nat; ok 2%nat; ok 3%nat; granted 2%nat]
  /\ run [Acquire 1 m; Acquire 2 m; Acquire 3 m; Disconnect 3; Release 2 m] = Undefined
  /\ run [Acquire 1 m; Acquire 2 m; Disconnect 2; Release 1 m; Acquire 3 m]
     = Ret [granted 1%nat; ok 1%nat; ok 2%nat; granted 2%nat; ok 1%nat;
            ReceiveDone 3%nat GNUNET_SYSERR].
Proof. split_and!; vm_compute; reflexivity. Qed.
