(* ===== verification/DnsParser.v ===== *)
(** * DNS packets: [src/dns/dnsparser.c]

    Parsing the payload of a UDP packet into queries and resource records, and packing
    a packet into a payload.  The payload is a buffer [mem] with its declared length
    [n] ([udp_payload_length]); reads outside of [mem] are [Undefined].  Strings are
    lists of characters without their NUL.  A name that is [NULL] is [None].

    The conversions of libidn ([idna_to_unicode_8z8z], [idna_to_ascii_8z]) and the
    clock are parameters.  A record whose [data.srv] was freed while it is still
    reachable has the data [SrvFreed]; freeing it again is [Undefined]. *)

From Stdlib Require Import ZArith Lia.
From stdpp Require Import base list numbers.
From S2P Require Import Prelude Time Messages.
Local Open Scope Z_scope.

Abbreviation str := (list Z).

(** The characters ['.'] and ['_'] *)
Definition dot : Z := 46.
Definition underscore : Z := 95.

Definition GNUNET_DNSPARSER_TYPE_NS : Z := 2.
Definition GNUNET_DNSPARSER_TYPE_CNAME : Z := 5.
Definition GNUNET_DNSPARSER_TYPE_SOA : Z := 6.
Definition GNUNET_DNSPARSER_TYPE_PTR : Z := 12.
Definition GNUNET_DNSPARSER_TYPE_MX : Z := 15.
Definition GNUNET_DNSPARSER_TYPE_SRV : Z := 33.

(** ** Data *)

Record GNUNET_DNSPARSER_Query := mk_query { q_name : option str; q_type : Z; q_class : Z }.

Record GNUNET_DNSPARSER_SoaRecord := mk_soa {
  mname : option str;
  rname : option str;
  serial : Z;
  refresh : Z;
  retry : Z;
  expire : Z;
  minimum_ttl : Z
}.

Record GNUNET_DNSPARSER_MxRecord := mk_mx { preference : Z; mxhost : option str }.

Record GNUNET_DNSPARSER_SrvRecord := mk_srv {
  service : option str;
  proto : option str;
  srv_domain_name : option str;
  target : option str;
  priority : Z;
  weight : Z;
  port : Z
}.

(** The union [data] of a record; [NoData] is the cleared union. *)
Inductive record_data :=
  | NoData
  | Hostname (h : option str)
  | Soa (s : GNUNET_DNSPARSER_SoaRecord)
  | Mx (m : GNUNET_DNSPARSER_MxRecord)
  | Srv (s : GNUNET_DNSPARSER_SrvRecord)
  | SrvFreed
  | Raw (bytes : list Z).

Record GNUNET_DNSPARSER_Record := mk_record {
  r_name : option str;
  r_data : record_data;
  expiration_time : GNUNET_TIME_Absolute;
  r_type : Z;
  r_class : Z
}.

(** [id] and [flags] are kept as the bytes of the packet. *)
Record GNUNET_DNSPARSER_Packet := mk_packet {
  queries : list GNUNET_DNSPARSER_Query;
  answers : list GNUNET_DNSPARSER_Record;
  authority_records : list GNUNET_DNSPARSER_Record;
  additional_records : list GNUNET_DNSPARSER_Record;
  p_flags : list Z;
  p_id : list Z
}.

(** Sizes of the packed structs [GNUNET_TUN_DnsHeader], [query_line], [record_line],
    [soa_data] and [srv_data] *)
Definition sizeof_dns_header : nat := 12.
Definition sizeof_query_line : nat := 4.
Definition sizeof_record_line : nat := 10.
Definition sizeof_soa_data : nat := 20.
Definition sizeof_srv_data : nat := 6.

(** ** C strings *)

(** ["%.*s"]: the characters of a buffer, up to a NUL *)
Fixpoint until_nul (l : list Z) : str :=
  match l with
  | [] => []
  | b :: l' => if b =? 0 then [] else b :: until_nul l'
  end.

(** [strchr (s, '.')]: the characters before the first dot and those after it *)
Fixpoint split_dot (s : str) : str * option str :=
  match s with
  | [] => ([], None)
  | c :: s' =>
      if c =? dot then ([], Some s')
      else let '(seg, rest) := split_dot s' in (c :: seg, rest)
  end.

(** [NULL != strstr (s, "._")] *)
Fixpoint has_dot_underscore (s : str) : bool :=
  match s with
  | c1 :: ((c2 :: _) as s') => ((c1 =? dot) && (c2 =? underscore)) || has_dot_underscore s'
  | _ => false
  end.

(** [strtok (s, ".")]: the next token and what follows it *)
Fixpoint strtok (s : str) : option (str * str) :=
  match s with
  | [] => None
  | c :: s' =>
      if c =? dot then strtok s'
      else let '(tok, rest) := split_dot s in Some (tok, from_option id [] rest)
  end.

(** [if (0 < strlen (ret)) ret[strlen (ret) - 1] = '\0';] *)
Definition eat_dot (s : str) : str := take (length s - 1) s.

Section DnsParser.
Context (idna_to_unicode idna_to_ascii : str -> option str).

Definition GNUNET_DNSPARSER_check_label (label : str) : Z :=
  match idna_to_ascii label with
  | None => GNUNET_SYSERR
  | Some _ => GNUNET_OK
  end.

(** ** Parsing *)

Section Parse.
Context (mem : list Z) (n : nat).

Definition read_byte (off : nat) : outcome Z := of_option (mem !! off).

(** The loop of [parse_name]; [rec] is the recursive call, [None] when [depth > 32].
    The result is the name and the value of [*off], which also moves on an error. *)
Fixpoint name_loop (rec : option (nat -> outcome (option str * nat))) (fuel : nat)
  (off : nat) (ret : str) : outcome (option str * nat) :=
  match fuel with
  | O => Undefined
  | S fuel =>
      if (n <=? off)%nat then Ret (None, off)
      else
        len ← read_byte off;
        if len =? 0 then Ret (Some (eat_dot ret), S off)
        else if len <? 64 then
          if Z.of_nat n <? Z.of_nat off + 1 + len then Ret (None, off)
          else
            label ← mem_read mem (S off) (Z.to_nat len);
            let tmp := until_nul label in
            let piece := from_option id tmp (idna_to_unicode tmp) in
            name_loop rec fuel (S off + Z.to_nat len) (ret ++ piece ++ [dot])
        else if Z.land len 192 =? 192 then
          match rec with
          | None => Ret (None, off)
          | Some parse =>
              if (n <? off + 1)%nat then Ret (None, off)
              else
                lo ← read_byte (off + 1);
                '(xstr, _) ← parse (Z.to_nat (Z.shiftl (len - 192) 8 + lo));
                match xstr with
                | None => Ret (None, off)
                | Some xstr =>
                    let ret := ret ++ xstr ++ [dot] in
                    if (n <? length ret)%nat then Ret (None, off)
                    else Ret (Some (eat_dot ret), (off + 2)%nat)
                end
          end
        else Ret (None, off)
  end.

(** [levels] is [33 - depth]: the recursive calls that are still allowed. *)
Fixpoint parse_name_at (levels : nat) (off : nat) : outcome (option str * nat) :=
  name_loop match levels with
            | O => None
            | S levels => Some (parse_name_at levels)
            end (S n) off [].

(** [parse_name (..., 0)] *)
Definition parse_name (off : nat) : outcome (option str * nat) := parse_name_at 33 off.

Definition parse_query (off : nat) : outcome (Z * GNUNET_DNSPARSER_Query * nat) :=
  '(name, off) ← parse_name off;
  match name with
  | None => Ret (GNUNET_SYSERR, mk_query None 0 0, off)
  | Some name =>
      if (n <? off + sizeof_query_line)%nat
      then Ret (GNUNET_SYSERR, mk_query (Some name) 0 0, off)
      else
        ql ← mem_read mem off sizeof_query_line;
        Ret (GNUNET_OK, mk_query (Some name) (be_decode (take 2 ql)) (be_decode (take 2 (drop 2 ql))),
             (off + sizeof_query_line)%nat)
  end.

(** The fields of [struct soa_data] *)
Definition decode_soa (mname rname : option str) (l : list Z) : GNUNET_DNSPARSER_SoaRecord :=
  match decode_fields [4; 4; 4; 4; 4]%nat l with
  | [a; b; c; d; e] => mk_soa mname rname a b c d e
  | _ => mk_soa mname rname 0 0 0 0 0
  end.

(** The cases of the [switch] of [parse_record]: the code, the data and the offset *)
Definition parse_hostname (data_len off : nat) : outcome (Z * record_data * nat) :=
  let old_off := off in
  '(hostname, off) ← parse_name off;
  Ret (if bool_decide (hostname = None) || negb (old_off + data_len =? off)%nat
       then GNUNET_SYSERR else GNUNET_OK, Hostname hostname, off).

Definition parse_soa (data_len off : nat) : outcome (Z * record_data * nat) :=
  let old_off := off in
  '(mname, off) ← parse_name off;
  '(rname, off) ← parse_name off;
  if bool_decide (mname = None) || bool_decide (rname = None) ||
     (n <? off + sizeof_soa_data)%nat
  then Ret (GNUNET_SYSERR, Soa (mk_soa mname rname 0 0 0 0 0), off)
  else
    soa ← mem_read mem off sizeof_soa_data;
    let off := (off + sizeof_soa_data)%nat in
    Ret (if negb (old_off + data_len =? off)%nat then GNUNET_SYSERR else GNUNET_OK,
         Soa (decode_soa mname rname soa), off).

Definition parse_mx (data_len off : nat) : outcome (Z * record_data * nat) :=
  let old_off := off in
  if (n <? off + 2)%nat then Ret (GNUNET_SYSERR, NoData, off)
  else
    mxpref ← mem_read mem off 2;
    '(mxhost, off) ← parse_name (off + 2);
    Ret (if negb (old_off + data_len =? off)%nat then GNUNET_SYSERR else GNUNET_OK,
         Mx (mk_mx (be_decode mxpref) mxhost), off).

(** The tokens of "_$SERVICE._$PROTO.$DOMAIN_NAME", or that [r->data.srv] is freed *)
Definition srv_tokens (name : str) : outcome (option (str * str * str)) :=
  let tok := strtok name in
  _ ← gnunet_assert (bool_decide (tok <> None));
  '(service, rest) ← of_option tok;
  _ ← gnunet_assert (bool_decide (head service = Some underscore));
  match strtok rest with
  | Some (proto, rest) =>
      if bool_decide (head proto <> Some underscore) then Ret None
      else
        match strtok rest with
        | None => Ret None
        | Some (domain, _) => Ret (Some (tail service, tail proto, domain))
        end
  | None => Ret None
  end.

Definition parse_srv (name : str) (data_len off : nat) : outcome (Z * record_data * nat) :=
  if bool_decide (head name <> Some underscore) then Ret (GNUNET_SYSERR, NoData, off)
  else if negb (has_dot_underscore name) then Ret (GNUNET_SYSERR, NoData, off)
  else
    let old_off := off in
    if (n <? off + sizeof_srv_data)%nat then Ret (GNUNET_SYSERR, NoData, off)
    else
      srv ← mem_read mem off sizeof_srv_data;
      let off := (off + sizeof_srv_data)%nat in
      tokens ← srv_tokens name;
      match tokens with
      | None => Ret (GNUNET_SYSERR, SrvFreed, off)
      | Some (service, proto, domain) =>
          '(target, off) ← parse_name off;
          Ret (if negb (old_off + data_len =? off)%nat then GNUNET_SYSERR else GNUNET_OK,
               Srv (mk_srv (Some service) (Some proto) (Some domain) target
                      (be_decode (take 2 srv)) (be_decode (take 2 (drop 2 srv)))
                      (be_decode (take 2 (drop 4 srv)))), off)
      end.

Definition parse_raw (data_len off : nat) : outcome (Z * record_data * nat) :=
  data ← mem_read mem off data_len;
  Ret (GNUNET_OK, Raw data, (off + data_len)%nat).

Definition is_hostname_type (type : Z) : bool :=
  (type =? GNUNET_DNSPARSER_TYPE_NS) || (type =? GNUNET_DNSPARSER_TYPE_CNAME)
  || (type =? GNUNET_DNSPARSER_TYPE_PTR).

(** The [switch (r->type)] *)
Definition parse_data (type : Z) (name : str) (data_len off : nat)
  : outcome (Z * record_data * nat) :=
  if is_hostname_type type then parse_hostname data_len off
  else if type =? GNUNET_DNSPARSER_TYPE_SOA then parse_soa data_len off
  else if type =? GNUNET_DNSPARSER_TYPE_MX then parse_mx data_len off
  else if type =? GNUNET_DNSPARSER_TYPE_SRV then parse_srv name data_len off
  else parse_raw data_len off.

Definition ttl_expiration (now : GNUNET_TIME_Absolute) (ttl : Z) : GNUNET_TIME_Absolute :=
  GNUNET_TIME_relative_to_absolute now
    (GNUNET_TIME_relative_multiply GNUNET_TIME_UNIT_SECONDS ttl).

Definition parse_record (now : GNUNET_TIME_Absolute) (off : nat)
  : outcome (Z * GNUNET_DNSPARSER_Record * nat) :=
  '(name, off) ← parse_name off;
  match name with
  | None => Ret (GNUNET_SYSERR, mk_record None NoData (mk_abs 0) 0 0, off)
  | Some name =>
      if (n <? off + sizeof_record_line)%nat
      then Ret (GNUNET_SYSERR, mk_record (Some name) NoData (mk_abs 0) 0 0, off)
      else
        rl ← mem_read mem off sizeof_record_line;
        let off := (off + sizeof_record_line)%nat in
        let type := be_decode (take 2 rl) in
        let class := be_decode (take 2 (drop 2 rl)) in
        let expiration := ttl_expiration now (be_decode (take 4 (drop 4 rl))) in
        let data_len := Z.to_nat (be_decode (take 2 (drop 8 rl))) in
        if (n <? off + data_len)%nat
        then Ret (GNUNET_SYSERR, mk_record (Some name) NoData expiration type class, off)
        else
          '(code, data, off) ← parse_data type name data_len off;
          Ret (code, mk_record (Some name) data expiration type class, off)
  end.

End Parse.

(** *** Freeing a packet *)

(** [free_soa], [free_srv] and [free_mx] accept [NULL]. *)
Definition free_record (r : GNUNET_DNSPARSER_Record) : outcome unit :=
  match r_data r with
  | SrvFreed => Undefined
  | _ => Ret tt
  end.

Fixpoint free_records (l : list GNUNET_DNSPARSER_Record) : outcome unit :=
  match l with
  | [] => Ret tt
  | r :: l' => _ ← free_record r; free_records l'
  end.

Definition GNUNET_DNSPARSER_free_packet (p : GNUNET_DNSPARSER_Packet) : outcome unit :=
  _ ← free_records (answers p);
  _ ← free_records (authority_records p);
  free_records (additional_records p).

(** A loop over one of the arrays of a packet: whether it succeeded, the elements it
    has written, and the offset *)
Fixpoint parse_array {A : Type} (parse : nat -> outcome (Z * A * nat)) (count off : nat)
  : outcome (bool * list A * nat) :=
  match count with
  | O => Ret (true, [], off)
  | S count =>
      '(code, a, off) ← parse off;
      if negb (code =? GNUNET_OK) then Ret (false, [a], off)
      else
        '(ok, l, off) ← parse_array parse count off;
        Ret (ok, a :: l, off)
  end.

(** The label [error] *)
Definition parse_error (p : GNUNET_DNSPARSER_Packet) : outcome (option GNUNET_DNSPARSER_Packet) :=
  _ ← GNUNET_DNSPARSER_free_packet p; Ret None.

Definition GNUNET_DNSPARSER_parse (now : GNUNET_TIME_Absolute) (mem : list Z) (n : nat)
  : outcome (option GNUNET_DNSPARSER_Packet) :=
  if (n <? sizeof_dns_header)%nat then Ret None
  else
    dns ← mem_read mem 0 sizeof_dns_header;
    let count i := Z.to_nat (be_decode (take 2 (drop i dns))) in
    let packet qs an au ad := mk_packet qs an au ad (take 2 (drop 2 dns)) (take 2 dns) in
    '(ok, qs, off) ← parse_array (parse_query mem n) (count 4%nat) sizeof_dns_header;
    if negb ok then parse_error (packet qs [] [] [])
    else
      '(ok, an, off) ← parse_array (parse_record mem n now) (count 6%nat) off;
      if negb ok then parse_error (packet qs an [] [])
      else
        '(ok, au, off) ← parse_array (parse_record mem n now) (count 8%nat) off;
        if negb ok then parse_error (packet qs an au [])
        else
          '(ok, ad, off) ← parse_array (parse_record mem n now) (count 10%nat) off;
          if negb ok then parse_error (packet qs an au ad)
          else Ret (Some (packet qs an au ad)).

(** ** Packing *)

(** The [do] loop of [add_name]: the buffer and, unless a segment is too long or empty,
    the position after the name *)
Fixpoint add_labels (fuel : nat) (dst : list Z) (pos : nat) (name : str)
  : outcome (list Z * option nat) :=
  match fuel with
  | O => Undefined
  | S fuel =>
      let '(seg, rest) := split_dot name in
      let len := length seg in
      if (64 <=? len)%nat || (len =? 0)%nat then Ret (dst, None)
      else
        dst ← mem_write dst pos [u8 (Z.of_nat len)];
        dst ← mem_write dst (pos + 1) seg;
        let pos := (pos + 1 + len)%nat in
        match rest with
        | Some name => add_labels fuel dst pos name
        | None => dst ← mem_write dst pos [0]; Ret (dst, Some (pos + 1)%nat)
        end
  end.

Definition add_name (dst : list Z) (dst_len : Z) (off : nat) (name : option str)
  : outcome (Z * list Z * nat) :=
  match name with
  | None => Ret (GNUNET_SYSERR, dst, off)
  | Some name =>
      match idna_to_ascii name with
      | None => Ret (GNUNET_NO, dst, off)
      | Some idna_name =>
          if dst_len <? Z.of_nat (off + length idna_name + 2) then Ret (GNUNET_NO, dst, off)
          else
            '(dst, pos) ← add_labels (S (length idna_name)) dst off idna_name;
            match pos with
            | Some pos => Ret (GNUNET_OK, dst, pos)
            | None => Ret (GNUNET_NO, dst, off)
            end
      end
  end.

(** Writing a packed struct at [*off] *)
Definition add_struct (dst : list Z) (off : nat) (ws : list nat) (vs : list Z)
  : outcome (list Z) := mem_write dst off (encode_fields ws vs).

Definition add_query (dst : list Z) (dst_len : Z) (off : nat) (query : GNUNET_DNSPARSER_Query)
  : outcome (Z * list Z * nat) :=
  '(ret, dst, off) ← add_name dst (u64 (dst_len - Z.of_nat sizeof_query_line)) off (q_name query);
  if negb (ret =? GNUNET_OK) then Ret (ret, dst, off)
  else
    dst ← add_struct dst off [2; 2]%nat [q_type query; q_class query];
    Ret (GNUNET_OK, dst, (off + sizeof_query_line)%nat).

Definition add_mx (dst : list Z) (dst_len : Z) (off : nat) (mx : GNUNET_DNSPARSER_MxRecord)
  : outcome (Z * list Z * nat) :=
  if dst_len <? Z.of_nat (off + 2) then Ret (GNUNET_NO, dst, off)
  else
    dst ← add_struct dst off [2]%nat [preference mx];
    add_name dst dst_len (off + 2) (mxhost mx).

Definition add_soa (dst : list Z) (dst_len : Z) (off : nat) (soa : GNUNET_DNSPARSER_SoaRecord)
  : outcome (Z * list Z * nat) :=
  '(ret, dst, off) ← add_name dst dst_len off (mname soa);
  if negb (ret =? GNUNET_OK) then Ret (ret, dst, off)
  else
    '(ret, dst, off) ← add_name dst dst_len off (rname soa);
    if negb (ret =? GNUNET_OK) then Ret (ret, dst, off)
    else if dst_len <? Z.of_nat (off + sizeof_soa_data) then Ret (GNUNET_NO, dst, off)
    else
      dst ← add_struct dst off [4; 4; 4; 4; 4]%nat
        [serial soa; refresh soa; retry soa; expire soa; minimum_ttl soa];
      Ret (GNUNET_OK, dst, (off + sizeof_soa_data)%nat).

Definition add_srv (dst : list Z) (dst_len : Z) (off : nat) (srv : GNUNET_DNSPARSER_SrvRecord)
  : outcome (Z * list Z * nat) :=
  if dst_len <? Z.of_nat (off + sizeof_srv_data) then Ret (GNUNET_NO, dst, off)
  else
    dst ← add_struct dst off [2; 2; 2]%nat [priority srv; weight srv; port srv];
    add_name dst dst_len (off + sizeof_srv_data) (target srv).

(** The name of an SRV record that has none: "_%s._%s.%s" *)
Definition srv_name (record : GNUNET_DNSPARSER_Record) : outcome (option str) :=
  match r_name record with
  | Some name => Ret (Some name)
  | None =>
      if r_type record =? GNUNET_DNSPARSER_TYPE_SRV then
        match r_data record with
        | Srv srv =>
            s ← of_option (service srv);
            p ← of_option (proto srv);
            d ← of_option (srv_domain_name srv);
            Ret (Some ([underscore] ++ s ++ [dot; underscore] ++ p ++ [dot] ++ d))
        | _ => Undefined
        end
      else Ret None
  end.

(** The [switch (record->type)]; the member of the union must be the one of the type. *)
Definition add_data (dst : list Z) (dst_len : Z) (pos : nat) (record : GNUNET_DNSPARSER_Record)
  : outcome (Z * list Z * nat) :=
  let type := r_type record in
  if type =? GNUNET_DNSPARSER_TYPE_MX then
    match r_data record with Mx mx => add_mx dst dst_len pos mx | _ => Undefined end
  else if type =? GNUNET_DNSPARSER_TYPE_SOA then
    match r_data record with Soa soa => add_soa dst dst_len pos soa | _ => Undefined end
  else if is_hostname_type type then
    match r_data record with Hostname h => add_name dst dst_len pos h | _ => Undefined end
  else if type =? GNUNET_DNSPARSER_TYPE_SRV then
    match r_data record with Srv srv => add_srv dst dst_len pos srv | _ => Undefined end
  else
    match r_data record with
    | Raw data =>
        if dst_len <? Z.of_nat (pos + length data) then Ret (GNUNET_NO, dst, pos)
        else dst ← mem_write dst pos data; Ret (GNUNET_OK, dst, (pos + length data)%nat)
    | _ => Undefined
    end.

Definition remaining_seconds (now expiration : GNUNET_TIME_Absolute) : Z :=
  rel_value (GNUNET_TIME_absolute_get_remaining now expiration) / 1000.

Definition add_record (now : GNUNET_TIME_Absolute) (dst : list Z) (dst_len : Z) (off : nat)
  (record : GNUNET_DNSPARSER_Record) : outcome (Z * list Z * nat) :=
  let start := off in
  name ← srv_name record;
  '(ret, dst, off) ← add_name dst (u64 (dst_len - Z.of_nat sizeof_record_line)) off name;
  if negb (ret =? GNUNET_OK) then Ret (ret, dst, off)
  else
    '(ret, dst, pos) ← add_data dst dst_len (off + sizeof_record_line) record;
    if negb (ret =? GNUNET_OK) then Ret (GNUNET_NO, dst, start)
    else
      let data_len := (pos - (off + sizeof_record_line))%nat in
      if 65535 <? Z.of_nat data_len then Ret (GNUNET_NO, dst, start)
      else
        dst ← add_struct dst off [2; 2; 4; 2]%nat
          [r_type record; r_class record; u32 (remaining_seconds now (expiration_time record));
           Z.of_nat data_len];
        Ret (GNUNET_OK, dst, pos).

(** One of the loops of [pack], from element [i] on: [None] if the element is invalid,
    otherwise the buffer, the offset and the count that replaces the one in the header
    when an element did not fit *)
Fixpoint add_array {A : Type} (add : list Z -> nat -> A -> outcome (Z * list Z * nat))
  (i : Z) (l : list A) (dst : list Z) (off : nat)
  : outcome (option (list Z * nat * option Z)) :=
  match l with
  | [] => Ret (Some (dst, off, None))
  | a :: l' =>
      '(ret, dst, off) ← add dst off a;
      if ret =? GNUNET_SYSERR then Ret None
      else if ret =? GNUNET_NO then Ret (Some (dst, off, Some (u16 (u32 (i - 1)))))
      else add_array add (i + 1) l' dst off
  end.

(** [dns.flags.message_truncated = 1]: bit 1 of the first byte *)
Definition set_truncated (flags : list Z) : list Z :=
  match flags with
  | b :: rest => Z.lor b 2 :: rest
  | [] => []
  end.

(** [tmp] is the array on the stack, of [max] bytes; [*buf] is [None] on an error. *)
Definition GNUNET_DNSPARSER_pack (now : GNUNET_TIME_Absolute) (p : GNUNET_DNSPARSER_Packet)
  (tmp : list Z) : outcome (Z * option (list Z)) :=
  let max := Z.of_nat (length tmp) in
  let len {A} (l : list A) := Z.of_nat (length l) in
  if (65535 <? len (queries p)) || (65535 <? len (answers p))
     || (65535 <? len (authority_records p)) || (65535 <? len (additional_records p))
  then Ret (GNUNET_SYSERR, None)
  else
    r ← add_array (fun dst => add_query dst max) 0 (queries p) tmp sizeof_dns_header;
    match r with
    | None => Ret (GNUNET_SYSERR, None)
    | Some (tmp, off, qd) =>
        r ← add_array (fun dst => add_record now dst max) 0 (answers p) tmp off;
        match r with
        | None => Ret (GNUNET_SYSERR, None)
        | Some (tmp, off, an) =>
            r ← add_array (fun dst => add_record now dst max) 0 (authority_records p) tmp off;
            match r with
            | None => Ret (GNUNET_SYSERR, None)
            | Some (tmp, off, ns) =>
                r ← add_array (fun dst => add_record now dst max) 0 (additional_records p) tmp off;
                match r with
                | None => Ret (GNUNET_SYSERR, None)
                | Some (tmp, off, ar) =>
                    let trc := negb (bool_decide (qd = None) && bool_decide (an = None)
                                     && bool_decide (ns = None) && bool_decide (ar = None)) in
                    let flags := if trc then set_truncated (p_flags p) else p_flags p in
                    tmp ← mem_write tmp 0
                      (p_id p ++ flags ++ encode_fields [2; 2; 2; 2]%nat
                         [from_option id (len (queries p)) qd; from_option id (len (answers p)) an;
                          from_option id (len (authority_records p)) ns;
                          from_option id (len (additional_records p)) ar]);
                    buf ← mem_read tmp 0 off;
                    Ret (if trc then GNUNET_NO else GNUNET_OK, Some buf)
                end
            end
        end
    end.

End DnsParser.
