(* ===== verification/DnsParserSpec.v ===== *)
(** * Properties of the DNS parser

    Parsing is total and reads at most one byte past the payload, on any input; the
    one byte, and the double free of an SRV record, are stated as such.  Packing writes
    the reference encoding of a packet, and parsing it gives the packet back. *)

From Stdlib Require Import ZArith Lia.
From stdpp Require Import base list numbers.
From S2P Require Import Prelude Time Messages DnsParser.
Local Open Scope Z_scope.

(** ** Safety of parsing *)

Section Safety.
Context (idna_to_unicode idna_to_ascii : str -> option str) (mem : list Z) (n : nat).
Hypothesis mem_bytes : is_bytes mem.
(** One byte after the payload may be read. *)
Hypothesis mem_slack : (n < length mem)%nat.

Abbreviation parse_name := (parse_name idna_to_unicode mem n).
Abbreviation name_loop := (name_loop idna_to_unicode mem n).

Lemma read_byte_ok off : (off <= n)%nat -> exists b, read_byte mem off = Ret b /\ is_u8 b.
Proof.
  intros Hoff. unfold read_byte. destruct (lookup_lt_is_Some_2 mem off) as [b Hb]; [ lia | ].
  rewrite Hb. exists b. split; [ done | ]. by eapply Forall_lookup_1 in mem_bytes.
Qed.

Lemma name_loop_safe rec fuel off ret :
  (forall parse, rec = Some parse -> forall o, exists r, parse o = Ret r) ->
  (n - off < fuel)%nat -> exists r, name_loop rec fuel off ret = Ret r.
Proof.
  intros Hrec. revert off ret. induction fuel as [|fuel IH]; intros off ret Hf; [ lia | ].
  cbn [DnsParser.name_loop]. destruct (Nat.leb_spec n off); [ eauto | ].
  destruct (read_byte_ok off) as (len & -> & Hlen); [ lia | ]. cbn [mbind outcome_bind].
  unfold is_u8 in Hlen. destruct (Z.eqb_spec len 0); [ eauto | ].
  destruct (Z.ltb_spec len 64).
  - destruct (Z.ltb_spec (Z.of_nat n) (Z.of_nat off + 1 + len)); [ eauto | ].
    rewrite mem_read_ok by lia. cbn [mbind outcome_bind]. apply IH. lia.
  - destruct (_ =? _); [ | eauto ]. destruct rec as [parse|]; [ | eauto ].
    destruct (Nat.ltb_spec n (off + 1)); [ eauto | ].
    destruct (read_byte_ok (off + 1)) as (lo & -> & _); [ lia | ]. cbn [mbind outcome_bind].
    destruct (Hrec parse eq_refl (Z.to_nat (Z.shiftl (len - 192) 8 + lo))) as ([[xstr|] o] & ->);
      cbn [mbind outcome_bind]; [ case_match | ]; eauto.
Qed.

Lemma parse_name_at_safe levels off : exists r, parse_name_at idna_to_unicode mem n levels off = Ret r.
Proof.
  revert off. induction levels as [|levels IH]; intros off; apply name_loop_safe; try lia.
  - done.
  - by intros parse [= <-].
Qed.

Lemma parse_name_safe off : exists r, parse_name off = Ret r.
Proof. apply parse_name_at_safe. Qed.

Lemma parse_query_safe off : exists r, parse_query idna_to_unicode mem n off = Ret r.
Proof.
  unfold parse_query. destruct (parse_name_safe off) as ([[name|] o] & ->); cbn [mbind outcome_bind]; [ | eauto ].
  destruct (Nat.ltb_spec n (o + sizeof_query_line)); [ eauto | ].
  rewrite mem_read_ok by lia. cbn. eauto.
Qed.

(** *** The tokens of an SRV name *)

Lemma split_dot_head c s : c <> dot -> head (split_dot (c :: s)).1 = Some c.
Proof.
  intros Hc. cbn. rewrite (proj2 (Z.eqb_neq _ _) Hc). by destruct (split_dot s) as [seg rest].
Qed.

Lemma srv_tokens_safe name :
  head name = Some underscore -> exists r, srv_tokens name = Ret r.
Proof.
  destruct name as [|c name]; [ done | ]. cbn [head]. intros [= ->]. unfold srv_tokens.
  assert (Hs : exists rest, strtok (underscore :: name) = Some ((split_dot (underscore :: name)).1, rest)).
  { cbn [strtok]. change (underscore =? dot) with false. cbv iota.
    destruct (split_dot (underscore :: name)) as [tok rest]. eauto. }
  destruct Hs as (rest & ->). rewrite bool_decide_eq_true_2 by done.
  cbn [gnunet_assert mbind outcome_bind of_option].
  rewrite split_dot_head, bool_decide_eq_true_2 by done. cbn [gnunet_assert mbind outcome_bind].
  repeat case_match; eauto.
Qed.

Lemma split_dot_free l r : (dot ∉ l) -> split_dot (l ++ dot :: r) = (l, Some r).
Proof.
  induction l as [|c l IH]; [ done | ]. intros [Hc Hl]%not_elem_of_cons. cbn.
  by rewrite (proj2 (Z.eqb_neq c dot)), IH by congruence.
Qed.

Lemma strtok_token c l r : c <> dot -> (dot ∉ l) -> strtok (c :: l ++ dot :: r) = Some (c :: l, r).
Proof.
  intros Hc Hl. cbn [strtok]. rewrite (proj2 (Z.eqb_neq _ _) Hc).
  change (c :: l ++ dot :: r) with ((c :: l) ++ dot :: r). rewrite split_dot_free; [ done | ].
  apply not_elem_of_cons. split; congruence.
Qed.

Lemma strtok_dots k s : strtok (replicate k dot ++ s) = strtok s.
Proof. by induction k. Qed.

(** The tokens of a name of the right form; of the domain only the first label *)
Lemma srv_tokens_wellformed s k p k' c d :
  (dot ∉ s) -> (dot ∉ p) -> c <> dot ->
  srv_tokens (underscore :: s ++ dot :: replicate k dot ++ underscore :: p ++ dot :: replicate k' dot ++ c :: d)
  = Ret (Some (s, p, (split_dot (c :: d)).1)).
Proof.
  intros Hs Hp Hc. unfold srv_tokens. rewrite strtok_token by done.
  cbn [gnunet_assert mbind outcome_bind of_option]. rewrite bool_decide_eq_true_2 by done.
  cbn [gnunet_assert mbind outcome_bind of_option head]. rewrite bool_decide_eq_true_2 by done.
  cbn [gnunet_assert mbind outcome_bind]. rewrite strtok_dots, strtok_token by done.
  cbn [head]. rewrite bool_decide_eq_false_2 by (intros Hx; by apply Hx). rewrite strtok_dots.
  cbn [strtok]. rewrite (proj2 (Z.eqb_neq _ _) Hc). by destruct (split_dot (c :: d)).
Qed.

Lemma parse_data_safe type name data_len off :
  (off + data_len <= n)%nat ->
  exists r, parse_data idna_to_unicode mem n type name data_len off = Ret r.
Proof.
  intros Hoff. unfold parse_data, parse_hostname, parse_soa, parse_mx, parse_srv, parse_raw.
  destruct (is_hostname_type type).
  { destruct (parse_name_safe off) as ([h o] & ->). cbn. eauto. }
  destruct (type =? GNUNET_DNSPARSER_TYPE_SOA).
  { destruct (parse_name_safe off) as ([h o] & ->). cbn [mbind outcome_bind].
    destruct (parse_name_safe o) as ([h' o'] & ->). cbn [mbind outcome_bind].
    destruct (_ || _) eqn:Hor; [ eauto | ]. apply orb_false_iff in Hor as [_ Ho%Nat.ltb_ge].
    rewrite mem_read_ok by lia. cbn. eauto. }
  destruct (type =? GNUNET_DNSPARSER_TYPE_MX).
  { destruct (Nat.ltb_spec n (off + 2)); [ eauto | ]. rewrite mem_read_ok by lia.
    cbn [mbind outcome_bind]. destruct (parse_name_safe (off + 2)) as ([h o] & ->). cbn. eauto. }
  destruct (type =? GNUNET_DNSPARSER_TYPE_SRV).
  { case_bool_decide as Hh; [ eauto | ]. destruct (negb _); [ eauto | ].
    destruct (Nat.ltb_spec n (off + sizeof_srv_data)); [ eauto | ]. rewrite mem_read_ok by lia.
    cbn [mbind outcome_bind].
    destruct (srv_tokens_safe name) as ([[[s p] d]|] & ->); [ by destruct (decide (head name = Some underscore)) | | cbn; eauto ].
    cbn [mbind outcome_bind].
    destruct (parse_name_safe (off + sizeof_srv_data)) as ([h o] & ->). cbn. eauto. }
  rewrite mem_read_ok by lia. cbn. eauto.
Qed.

Lemma parse_record_safe now off : exists r, parse_record idna_to_unicode mem n now off = Ret r.
Proof.
  unfold parse_record. destruct (parse_name_safe off) as ([[name|] o] & ->);
    cbn [mbind outcome_bind]; [ | eauto ].
  destruct (Nat.ltb_spec n (o + sizeof_record_line)); [ eauto | ].
  rewrite mem_read_ok by lia. cbn [mbind outcome_bind].
  destruct (Nat.ltb_spec n (o + sizeof_record_line
    + Z.to_nat (be_decode (take 2 (drop 8 (take sizeof_record_line (drop o mem))))))); [ eauto | ].
  edestruct parse_data_safe as ([[code data] o'] & ->); [ done | ]. cbn. eauto.
Qed.

(** *** Arrays *)

Lemma parse_array_safe {A} (parse : nat -> outcome (Z * A * nat)) count off :
  (forall o, exists r, parse o = Ret r) -> exists r, parse_array parse count off = Ret r.
Proof.
  intros Hp. revert off. induction count as [|count IH]; intros off; cbn [parse_array]; [ eauto | ].
  destruct (Hp off) as ([[code a] o] & ->). cbn [mbind outcome_bind]. destruct (negb _); [ eauto | ].
  destruct (IH o) as ([[ok l] o'] & ->). cbn. eauto.
Qed.

(** The elements before the last one were parsed without an error, and the last one too if
    the loop succeeded. *)
Lemma parse_array_elems {A} (parse : nat -> outcome (Z * A * nat)) count off ok l o :
  parse_array parse count off = Ret (ok, l, o) ->
  let good a := exists off o', parse off = Ret (GNUNET_OK, a, o') in
  if ok then Forall good l
  else exists l' a code off' o', l = l' ++ [a] /\ Forall good l' /\ parse off' = Ret (code, a, o').
Proof.
  revert off ok l o. induction count as [|count IH]; intros off ok l o; cbn [parse_array].
  - intros [= <- <- <-]. constructor.
  - destruct (parse off) as [[[code b] o1]| |] eqn:Hp; try done. cbn [mbind outcome_bind].
    destruct (Z.eqb_spec code GNUNET_OK) as [->|Hc]; cbn [negb].
    + destruct (parse_array parse count o1) as [[[ok' l'] o']| |] eqn:Hr; try done.
      intros [= <- <- <-]. specialize (IH _ _ _ _ Hr). cbn zeta in *. destruct ok'.
      * constructor; eauto.
      * destruct IH as (l2 & a & c2 & off2 & o2 & -> & Hg & Ha). exists (b :: l2), a, c2, off2, o2.
        split_and!; [ done | constructor; eauto | done ].
    + intros [= <- <- <-]. exists [], b, code, off, o1. split_and!; [ done | constructor | done ].
Qed.

Lemma parse_array_add {A} (parse : nat -> outcome (Z * A * nat)) a b off :
  parse_array parse (a + b) off
  = ('(ok, l, o) ← parse_array parse a off;
     if negb ok then Ret (false, l, o)
     else '(ok, l', o) ← parse_array parse b o; Ret (ok, l ++ l', o)).
Proof.
  revert off. induction a as [|a IH]; intros off; cbn [Nat.add parse_array mbind outcome_bind negb].
  - by destruct (parse_array parse b off) as [[[ok l] o]| |].
  - destruct (parse off) as [[[code x] o1]| |]; [ | done | done ]. cbn [mbind outcome_bind].
    destruct (negb (code =? GNUNET_OK)); [ done | ]. rewrite IH.
    destruct (parse_array parse a o1) as [[[ok l] o]| |]; [ | done | done ]. cbn [mbind outcome_bind].
    destruct ok; cbn [negb mbind outcome_bind]; [ | done ].
    by destruct (parse_array parse b o) as [[[ok' l'] o']| |].
Qed.

(** The name of an SRV record as the code takes it: "_$SERVICE._$PROTO.$DOMAIN", where more
    than one dot may separate the parts *)
Definition srv_wellformed (name : str) : Prop :=
  exists s k p k' c d, name = underscore :: s ++ dot :: replicate k dot
      ++ underscore :: p ++ dot :: replicate k' dot ++ c :: d
    /\ (dot ∉ s) /\ (dot ∉ p) /\ c <> dot.

(** A record whose SRV data are freed twice: its name starts with "_" and contains "._", but
    is not of the form of an SRV name. *)
Definition freed_twice (r : GNUNET_DNSPARSER_Record) : Prop :=
  r_type r = GNUNET_DNSPARSER_TYPE_SRV /\ r_data r = SrvFreed
  /\ exists name, r_name r = Some name /\ head name = Some underscore
       /\ has_dot_underscore name = true /\ ~ srv_wellformed name.

(** The counts of the header, and the records behind the queries: the last one that was
    parsed is freed twice. *)
Definition header_count (i : nat) : nat := Z.to_nat (be_decode (take 2 (drop i (take 12 mem)))).

Definition reaches_freed_record (now : GNUNET_TIME_Absolute) : Prop :=
  (12 <= n)%nat /\
  exists qs off l r o,
    parse_array (parse_query idna_to_unicode mem n) (header_count 4) 12 = Ret (true, qs, off)
    /\ parse_array (parse_record idna_to_unicode mem n now)
         (header_count 6 + (header_count 8 + header_count 10)) off = Ret (false, l ++ [r], o)
    /\ freed_twice r.

Lemma parse_data_freed type name data_len off code off' :
  parse_data idna_to_unicode mem n type name data_len off = Ret (code, SrvFreed, off') ->
  code = GNUNET_SYSERR /\ type = GNUNET_DNSPARSER_TYPE_SRV /\ head name = Some underscore
  /\ has_dot_underscore name = true /\ ~ srv_wellformed name.
Proof.
  unfold parse_data, parse_hostname, parse_soa, parse_mx, parse_srv, parse_raw. intros H.
  destruct (is_hostname_type type); [ inv_ret H; done | ].
  destruct (_ =? GNUNET_DNSPARSER_TYPE_SOA); [ inv_ret H; done | ].
  destruct (_ =? GNUNET_DNSPARSER_TYPE_MX); [ inv_ret H; done | ].
  destruct (Z.eqb_spec type GNUNET_DNSPARSER_TYPE_SRV) as [->|]; [ | inv_ret H; done ].
  case_bool_decide as Hh; [ done | ]. destruct (has_dot_underscore name) eqn:Hd; [ | done ]. cbn [negb] in H.
  destruct (Nat.ltb_spec n (off + sizeof_srv_data)); [ done | ].
  destruct (mem_read mem off sizeof_srv_data) as [srv| |]; [ | done | done ]. cbn [mbind outcome_bind] in H.
  destruct (srv_tokens name) as [[[[s p] d]|]| |] eqn:Htok; [ | | done | done ]; cbn [mbind outcome_bind] in H.
  { inv_ret H; done. }
  injection H as <- _. split_and!; [ done | done | by destruct (decide (head name = Some underscore)) | done | ].
  intros (s & k & p & k' & c & d & -> & Hs & Hp & Hc).
  by rewrite srv_tokens_wellformed in Htok.
Qed.

Lemma parse_record_freed now off code r off' :
  parse_record idna_to_unicode mem n now off = Ret (code, r, off') -> r_data r = SrvFreed ->
  code = GNUNET_SYSERR /\ freed_twice r.
Proof.
  intros Hp Hr. unfold parse_record in Hp. inv_ret Hp. destruct o as [name|]; inv_ret Hp;
    injection Hp as <- <- <-; try done. cbn in Hr. subst.
  match goal with H : parse_data _ _ _ _ _ _ _ = Ret (_, SrvFreed, _) |- _ =>
    destruct (parse_data_freed _ _ _ _ _ _ H) as (-> & Ht & Hh & Hd & Hw) end.
  split; [ done | ]. split_and!; [ done | done | by exists name ].
Qed.

(** *** Freeing the packet *)

Lemma free_records_app l1 l2 : free_records (l1 ++ l2) = (_ ← free_records l1; free_records l2).
Proof. induction l1 as [|r l IH]; [ done | ]. cbn. rewrite IH. by destruct (free_record r). Qed.

Lemma free_good now l :
  Forall (fun a => exists off o', parse_record idna_to_unicode mem n now off = Ret (GNUNET_OK, a, o')) l ->
  free_records l = Ret tt.
Proof.
  induction 1 as [|r l (off & o' & Hr) _ IH]; [ done | ]. cbn [free_records]. unfold free_record.
  destruct (r_data r) eqn:Hd; try done. by destruct (parse_record_freed _ _ _ _ _ Hr Hd).
Qed.

(** The error path frees the records that were parsed, of which only the last one can have
    been freed before. *)
Lemma parse_error_result now off count l o p :
  parse_array (parse_record idna_to_unicode mem n now) count off = Ret (false, l, o) ->
  answers p ++ authority_records p ++ additional_records p = l ->
  exists l' r, l = l' ++ [r]
    /\ (parse_error p = Undefined /\ freed_twice r
        \/ parse_error p = Ret None /\ ~ freed_twice r).
Proof.
  intros Hl Hp. destruct (parse_array_elems _ _ _ _ _ _ Hl) as (l' & r & code & off' & o' & -> & Hg & Hr).
  exists l', r. split; [ done | ].
  assert (Hf : parse_error p = (_ ← free_record r; Ret None)).
  { unfold parse_error, GNUNET_DNSPARSER_free_packet. rewrite <- free_records_app, <- free_records_app.
    rewrite Hp, free_records_app, (free_good now l' Hg). cbn. by destruct (free_record r). }
  rewrite Hf. unfold free_record. destruct (r_data r) eqn:Hd;
    try (right; split; [ done | ]; intros (_ & Hx & _); congruence).
  left. split; [ done | ]. by eapply parse_record_freed.
Qed.

Lemma parse_safe now :
  (exists r, GNUNET_DNSPARSER_parse idna_to_unicode now mem n = Ret r) /\ ~ reaches_freed_record now
  \/ GNUNET_DNSPARSER_parse idna_to_unicode now mem n = Undefined /\ reaches_freed_record now.
Proof.
  unfold GNUNET_DNSPARSER_parse. change sizeof_dns_header with 12%nat.
  destruct (Nat.ltb_spec n 12) as [Hlt|Hge]; [ left; split; [ eauto | intros [? _]; lia ] | ].
  rewrite mem_read_ok, drop_0 by lia. cbn [mbind outcome_bind].
  fold (header_count 4) (header_count 6) (header_count 8) (header_count 10).
  set (c6 := header_count 6). set (c8 := header_count 8). set (c10 := header_count 10).
  assert (Hrec : forall c off, exists r, parse_array (parse_record idna_to_unicode mem n now) c off = Ret r)
    by (intros; apply parse_array_safe, parse_record_safe).
  edestruct (parse_array_safe (parse_query idna_to_unicode mem n)) as ([[ok qs] o] & Hq);
    [ apply parse_query_safe | ]. rewrite Hq. cbn [mbind outcome_bind]. destruct ok; cbn [negb].
  2: { left. split; [ unfold parse_error; cbn; eauto | ]. intros (_ & ? & ? & ? & ? & ? & Hq' & _). by rewrite Hq in Hq'. }
  assert (Hall : exists ok l o', parse_array (parse_record idna_to_unicode mem n now) (c6 + (c8 + c10)) o
      = Ret (ok, l, o')) by (destruct (Hrec (c6 + (c8 + c10))%nat o) as ([[ok l] o'] & Hx); eauto).
  destruct Hall as (ok & l & o' & Hall).
  assert (Hcase : forall e, (ok = true /\ exists pk, e = Ret (Some pk))
      \/ (ok = false /\ exists p, answers p ++ authority_records p ++ additional_records p = l /\ e = parse_error p) ->
    (exists r, e = Ret r) /\ ~ reaches_freed_record now \/ e = Undefined /\ reaches_freed_record now).
  { intros e [[-> [pk ->]]|[-> (p & Hp & ->)]].
    - left. split; [ eauto | ]. intros (_ & qs' & off & l' & r & o2 & Hq' & Hr & _).
      rewrite Hq in Hq'. injection Hq' as <- <-. fold c6 c8 c10 in Hr. by rewrite Hall in Hr.
    - destruct (parse_error_result now _ _ _ _ p Hall Hp) as (l' & r & -> & [[He Hf]|[He Hf]]).
      + right. split; [ done | ]. split; [ done | ]. exists qs, o, l', r, o'. done.
      + left. split; [ eauto | ]. intros (_ & qs' & off & l2 & r2 & o2 & Hq' & Hr & Hf2).
        rewrite Hq in Hq'. injection Hq' as <- <-. fold c6 c8 c10 in Hr. rewrite Hall in Hr.
        injection Hr as Hr _. apply app_inj_tail in Hr as [_ <-]. done. }
  apply Hcase. clear Hcase. revert Hall.
  rewrite !parse_array_add.
  destruct (Hrec c6 o) as ([[ok1 an] o1] & ->). cbn [mbind outcome_bind]. destruct ok1; cbn [negb].
  2: { intros [= <- <- <-]. right. split; [ done | ]. eexists. split; [ | reflexivity ]. cbn. by rewrite !app_nil_r. }
  rewrite parse_array_add.
  destruct (Hrec c8 o1) as ([[ok2 au] o2] & ->). cbn [mbind outcome_bind]. destruct ok2; cbn [negb mbind outcome_bind].
  2: { intros [= <- <- <-]. right. split; [ done | ]. eexists. split; [ | reflexivity ]. cbn. by rewrite !app_nil_r. }
  destruct (Hrec c10 o2) as ([[ok3 ad] o3] & ->). cbn [mbind outcome_bind].
  destruct ok3; cbn [negb]; intros [= <- <- <-]; [ left; eauto | right; split; [ done | ] ].
  eexists. split; [ | reflexivity ]. done.
Qed.

End Safety.

(** ** The reference encoding *)

Fixpoint join_dot (ls : list str) : str :=
  match ls with
  | [] => []
  | [l] => l
  | l :: ls => l ++ dot :: join_dot ls
  end.

Fixpoint encode_labels (ls : list str) : list Z :=
  match ls with
  | [] => [0]
  | l :: ls => Z.of_nat (length l) :: l ++ encode_labels ls
  end.

Definition label_ok (l : str) : Prop :=
  (1 <= length l < 64)%nat /\ Forall (fun c => is_u8 c /\ c <> 0 /\ c <> dot) l.

Lemma read_byte_app pre b post : read_byte (pre ++ b :: post) (length pre) = Ret b.
Proof.
  unfold read_byte. rewrite lookup_app_r, Nat.sub_diag by lia. done.
Qed.

Lemma split_dot_label l : Forall (fun c => is_u8 c /\ c <> 0 /\ c <> dot) l -> split_dot l = (l, None).
Proof.
  induction 1 as [|c l (_ & _ & Hc) _ IH]; [ done | ]. cbn. by rewrite (proj2 (Z.eqb_neq _ _) Hc), IH.
Qed.

Lemma split_dot_app l r :
  Forall (fun c => is_u8 c /\ c <> 0 /\ c <> dot) l -> split_dot (l ++ dot :: r) = (l, Some r).
Proof.
  induction 1 as [|c l (_ & _ & Hc) _ IH]; [ done | ]. cbn. by rewrite (proj2 (Z.eqb_neq _ _) Hc), IH.
Qed.

Lemma until_nul_label l : Forall (fun c => is_u8 c /\ c <> 0 /\ c <> dot) l -> until_nul l = l.
Proof.
  induction 1 as [|c l (_ & Hc & _) _ IH]; [ done | ]. cbn. by rewrite (proj2 (Z.eqb_neq _ _) Hc), IH.
Qed.

Lemma length_encode_labels ls :
  ls <> [] -> length (encode_labels ls) = (length (join_dot ls) + 2)%nat.
Proof.
  induction ls as [|l ls IH]; [ done | intros _ ]. destruct ls as [|l' ls].
  - cbn. rewrite length_app. cbn. lia.
  - change (length (encode_labels (l :: l' :: ls)))
      with (S (length (l ++ encode_labels (l' :: ls)))).
    change (join_dot (l :: l' :: ls)) with (l ++ dot :: join_dot (l' :: ls)).
    rewrite !length_app, IH by done. cbn [length]. lia.
Qed.

Lemma length_join_dot ls : (length ls <= S (length (join_dot ls)))%nat.
Proof.
  induction ls as [|l ls IH]; [ cbn; lia | ]. destruct ls as [|l' ls]; [ cbn; lia | ].
  change (join_dot (l :: l' :: ls)) with (l ++ dot :: join_dot (l' :: ls)).
  rewrite length_app. cbn [length] in *. lia.
Qed.

Lemma add_labels_ok ls : forall fuel pre rest,
  ls <> [] -> Forall label_ok ls -> (length ls <= fuel)%nat ->
  (length (encode_labels ls) <= length rest)%nat ->
  add_labels fuel (pre ++ rest) (length pre) (join_dot ls)
  = Ret (pre ++ encode_labels ls ++ drop (length (encode_labels ls)) rest,
         Some (length pre + length (encode_labels ls))%nat).
Proof.
  induction ls as [|l ls IH]; intros fuel pre rest Hne Hls Hf Hrest; [ done | ].
  apply Forall_cons_iff in Hls as [[Hlen Hl] Hls]. destruct fuel as [|fuel]; [ cbn in Hf; lia | ].
  cbn [encode_labels] in Hrest |- *. cbn [length] in Hrest, Hf. rewrite length_app in Hrest.
  assert (Hu8 : u8 (Z.of_nat (length l)) = Z.of_nat (length l)) by (apply u8_small; unfold is_u8; lia).
  set (pre' := pre ++ Z.of_nat (length l) :: l). set (rest' := drop (length l) (drop 1 rest)).
  assert (Hw : forall k, (dst ← mem_write (pre ++ rest) (length pre) [Z.of_nat (length l)];
      dst ← mem_write dst (length pre + 1) l; k dst) = (k (pre' ++ rest') : outcome (list Z * option nat))).
  { intros k. rewrite mem_write_app by (cbn; lia). cbn [mbind outcome_bind length].
    replace (length pre + 1)%nat with (length (pre ++ [Z.of_nat (length l)]))
      by (rewrite length_app; done).
    rewrite app_assoc, mem_write_app by (rewrite length_drop; lia). cbn [mbind outcome_bind].
    unfold pre', rest'. by rewrite <- !app_assoc. }
  assert (Hpre' : (length pre + 1 + length l)%nat = length pre')
    by (unfold pre'; rewrite length_app; cbn; lia).
  assert (Hguard : (64 <=? length l)%nat || (length l =? 0)%nat = false)
    by (apply orb_false_iff; split; [ apply Nat.leb_gt | apply Nat.eqb_neq ]; lia).
  cbn [add_labels]. destruct ls as [|l' ls].
  - cbn [join_dot]. rewrite split_dot_label, Hguard, Hu8, Hw, Hpre' by done. cbn [encode_labels] in *.
    rewrite mem_write_app by (unfold rest'; rewrite !length_drop; cbn in *; lia).
    cbn [mbind outcome_bind]. unfold pre', rest'. rewrite !drop_drop. do 2 f_equal.
    + rewrite <- !app_assoc. cbn [app length]. by rewrite length_app, <- app_assoc.
    + f_equal. rewrite !length_app. cbn [length]. rewrite length_app. cbn [length]. lia.
  - change (join_dot (l :: l' :: ls)) with (l ++ dot :: join_dot (l' :: ls)).
    rewrite split_dot_app, Hguard, Hu8, Hw, Hpre' by done. rewrite IH; try done; [ | cbn in *; lia | ].
    2: { unfold rest'. rewrite !length_drop. lia. }
    unfold pre', rest'. rewrite !drop_drop. do 2 f_equal.
    + rewrite <- !app_assoc. cbn [app length]. rewrite <- !app_assoc. by rewrite length_app.
    + f_equal. rewrite !length_app. cbn [length]. rewrite length_app. lia.
Qed.

Section Roundtrip.
Context (idna_to_unicode idna_to_ascii : str -> option str).

(** The characters that [parse_name] collects for the labels of a name *)
Definition unicode_labels (ls : list str) : str :=
  concat ((fun l => from_option id l (idna_to_unicode l) ++ [dot]) <$> ls).

(** A name, with the labels of its ASCII form: the conversions of libidn are inverse to
    each other on it. *)
Record name_ok (name : str) (ls : list str) : Prop := {
  no_ascii : idna_to_ascii name = Some (join_dot ls);
  no_unicode : eat_dot (unicode_labels ls) = name;
  no_nonempty : ls <> [];
  no_labels : Forall label_ok ls
}.

Definition query_enc (q : GNUNET_DNSPARSER_Query) (w : list Z) : Prop :=
  is_u16 (q_type q) /\ is_u16 (q_class q) /\
  exists name ls, q_name q = Some name /\ name_ok name ls
    /\ w = encode_labels ls ++ encode_fields [2; 2]%nat [q_type q; q_class q].

(** The name of an SRV record *)
Definition srv_format (s p d : str) : str := [underscore] ++ s ++ [dot; underscore] ++ p ++ [dot] ++ d.

Inductive data_enc (name : str) : Z -> record_data -> list Z -> Prop :=
  | enc_hostname type h ls :
      is_hostname_type type = true -> name_ok h ls ->
      data_enc name type (Hostname (Some h)) (encode_labels ls)
  | enc_soa m lm r lr a b c d e :
      name_ok m lm -> name_ok r lr -> is_u32 a -> is_u32 b -> is_u32 c -> is_u32 d -> is_u32 e ->
      data_enc name GNUNET_DNSPARSER_TYPE_SOA (Soa (mk_soa (Some m) (Some r) a b c d e))
        (encode_labels lm ++ encode_labels lr ++ encode_fields [4; 4; 4; 4; 4]%nat [a; b; c; d; e])
  | enc_mx pref h ls :
      is_u16 pref -> name_ok h ls ->
      data_enc name GNUNET_DNSPARSER_TYPE_MX (Mx (mk_mx pref (Some h)))
        (encode_fields [2]%nat [pref] ++ encode_labels ls)
  | enc_srv s p d t ls prio wt pt :
      name = srv_format s p d -> (dot ∉ s) -> (dot ∉ p) -> d <> [] -> head d <> Some dot ->
      name_ok t ls -> is_u16 prio -> is_u16 wt -> is_u16 pt ->
      data_enc name GNUNET_DNSPARSER_TYPE_SRV
        (Srv (mk_srv (Some s) (Some p) (Some d) (Some t) prio wt pt))
        (encode_fields [2; 2; 2]%nat [prio; wt; pt] ++ encode_labels ls)
  | enc_raw type data :
      is_hostname_type type = false -> type <> GNUNET_DNSPARSER_TYPE_SOA ->
      type <> GNUNET_DNSPARSER_TYPE_MX -> type <> GNUNET_DNSPARSER_TYPE_SRV ->
      data_enc name type (Raw data) data.

(** The name that is written: for an SRV record without a name, the one of its details *)
Definition wire_name (r : GNUNET_DNSPARSER_Record) : option str :=
  match r_name r, r_data r with
  | Some name, _ => Some name
  | None, Srv (mk_srv (Some s) (Some p) (Some d) _ _ _ _) => Some (srv_format s p d)
  | None, _ => None
  end.

Definition record_enc (now : GNUNET_TIME_Absolute) (r : GNUNET_DNSPARSER_Record) (w : list Z)
  : Prop :=
  is_u16 (r_type r) /\ is_u16 (r_class r) /\
  exists name ls dw, wire_name r = Some name /\ name_ok name ls
    /\ data_enc name (r_type r) (r_data r) dw /\ Z.of_nat (length dw) <= 65535
    /\ w = encode_labels ls ++ encode_fields [2; 2; 4; 2]%nat
             [r_type r; r_class r; u32 (remaining_seconds now (expiration_time r));
              Z.of_nat (length dw)] ++ dw.

(** ** Packing writes the encoding *)

Lemma add_name_ok name ls pre rest dst_len :
  name_ok name ls -> (length (encode_labels ls) <= length rest)%nat ->
  Z.of_nat (length pre + length (encode_labels ls)) <= dst_len ->
  add_name idna_to_ascii (pre ++ rest) dst_len (length pre) (Some name)
  = Ret (GNUNET_OK, pre ++ encode_labels ls ++ drop (length (encode_labels ls)) rest,
         (length pre + length (encode_labels ls))%nat).
Proof.
  intros [Ha Hu Hne Hls] Hrest Hlen. unfold add_name. rewrite Ha.
  pose proof (length_encode_labels ls Hne) as Hel.
  rewrite (proj2 (Z.ltb_ge _ _)) by lia.
  rewrite add_labels_ok by (try done; pose proof (length_join_dot ls); lia). done.
Qed.

Lemma add_struct_ok pre rest ws vs :
  length ws = length vs -> (sum_list ws <= length rest)%nat ->
  add_struct (pre ++ rest) (length pre) ws vs
  = Ret (pre ++ encode_fields ws vs ++ drop (sum_list ws) rest).
Proof.
  intros Hl Hrest. unfold add_struct. pose proof (length_encode_fields ws vs Hl) as Hlen.
  rewrite mem_write_app by lia. by rewrite Hlen.
Qed.

Lemma u64_sub max k : Z.of_nat k <= max < 2 ^ 16 -> u64 (max - Z.of_nat k) = max - Z.of_nat k.
Proof. intros H. apply u64_small. int_lia. Qed.

Lemma add_query_ok q w pre rest max :
  query_enc q w -> max = Z.of_nat (length pre + length rest) -> max < 2 ^ 16 ->
  (length w <= length rest)%nat ->
  add_query idna_to_ascii (pre ++ rest) max (length pre) q
  = Ret (GNUNET_OK, pre ++ w ++ drop (length w) rest, (length pre + length w)%nat).
Proof.
  intros (_ & _ & name & ls & Hn & Hok & ->) Hmax Hlt Hw. unfold add_query. rewrite Hn.
  rewrite length_app, (length_encode_fields [2; 2]%nat) in Hw |- * by done.
  change (sum_list [2; 2]%nat) with 4%nat in *. unfold sizeof_query_line.
  rewrite u64_sub by lia. rewrite (add_name_ok name ls) by (done || lia).
  cbn [mbind outcome_bind]. change (negb (GNUNET_OK =? GNUNET_OK)) with false. cbv iota.
  rewrite (app_len_eq pre (encode_labels ls) _ eq_refl). rewrite app_assoc.
  rewrite add_struct_ok by (rewrite ?length_drop; cbn; lia). cbn [mbind outcome_bind].
  rewrite drop_drop, <- !app_assoc, length_app, Nat.add_assoc. done.
Qed.

(** One more piece written behind the prefix *)
Ltac written :=
  cbn [mbind outcome_bind]; change (negb (GNUNET_OK =? GNUNET_OK)) with false; cbv iota;
  rewrite ?drop_drop, <- ?app_assoc, ?length_app, ?Nat.add_assoc; try done.

Lemma type_cases type :
  is_hostname_type type = true -> type <> GNUNET_DNSPARSER_TYPE_SOA
    /\ type <> GNUNET_DNSPARSER_TYPE_MX /\ type <> GNUNET_DNSPARSER_TYPE_SRV.
Proof.
  unfold is_hostname_type. rewrite !orb_true_iff, !Z.eqb_eq.
  unfold GNUNET_DNSPARSER_TYPE_NS, GNUNET_DNSPARSER_TYPE_CNAME, GNUNET_DNSPARSER_TYPE_PTR,
    GNUNET_DNSPARSER_TYPE_SOA, GNUNET_DNSPARSER_TYPE_MX, GNUNET_DNSPARSER_TYPE_SRV. lia.
Qed.

Lemma add_soa_ok name soa w pre rest max :
  data_enc name GNUNET_DNSPARSER_TYPE_SOA (Soa soa) w ->
  max = Z.of_nat (length pre + length rest) -> (length w <= length rest)%nat ->
  add_soa idna_to_ascii (pre ++ rest) max (length pre) soa
  = Ret (GNUNET_OK, pre ++ w ++ drop (length w) rest, (length pre + length w)%nat).
Proof.
  intros Henc Hmax Hw. inversion Henc as [| m lm r lr a b c d e Hm Hr Ha Hb Hc Hd He | | |]; subst; try done.
  set (f := encode_fields _ _) in *.
  assert (Hf : length f = 20%nat) by apply (length_encode_fields [4; 4; 4; 4; 4]%nat [a; b; c; d; e] eq_refl).
  rewrite !length_app, Hf in Hw. unfold add_soa. cbn [mname rname serial refresh retry expire minimum_ttl].
  rewrite (add_name_ok m lm) by (done || lia). cbn [mbind outcome_bind].
  change (negb (GNUNET_OK =? GNUNET_OK)) with false. cbv iota.
  rewrite (app_len_eq pre (encode_labels lm) _ eq_refl), app_assoc.
  rewrite (add_name_ok r lr) by (done || rewrite ?length_drop, ?length_app; lia). cbn [mbind outcome_bind].
  change (negb (GNUNET_OK =? GNUNET_OK)) with false. cbv iota. unfold sizeof_soa_data.
  rewrite (proj2 (Z.ltb_ge _ _)) by (rewrite length_app; lia).
  rewrite (app_len_eq (pre ++ encode_labels lm) (encode_labels lr) _ eq_refl), app_assoc.
  rewrite add_struct_ok by (rewrite ?length_drop; cbn; lia). fold f. by written.
Qed.

Lemma add_data_ok name record w pre rest max :
  data_enc name (r_type record) (r_data record) w ->
  max = Z.of_nat (length pre + length rest) -> (length w <= length rest)%nat ->
  add_data idna_to_ascii (pre ++ rest) max (length pre) record
  = Ret (GNUNET_OK, pre ++ w ++ drop (length w) rest, (length pre + length w)%nat).
Proof.
  intros Henc Hmax Hw. unfold add_data. destruct record as [nm data exp type class]. cbn [r_type r_data] in *.
  destruct Henc as [type h ls Ht Hok | m lm r lr a b c d e | pref h ls Hp Hok
    | s p d t ls prio wt pt Hname Hs Hp Hd Hdot Hok | type data Ht Hsoa Hmx Hsrv].
  - destruct (type_cases type Ht) as (H1 & H2 & H3).
    rewrite (proj2 (Z.eqb_neq _ _) H1), (proj2 (Z.eqb_neq _ _) H2), Ht.
    apply add_name_ok; (done || lia).
  - change (GNUNET_DNSPARSER_TYPE_SOA =? GNUNET_DNSPARSER_TYPE_MX) with false.
    change (GNUNET_DNSPARSER_TYPE_SOA =? GNUNET_DNSPARSER_TYPE_SOA) with true. cbv iota.
    apply (add_soa_ok name); (done || by constructor).
  - change (GNUNET_DNSPARSER_TYPE_MX =? GNUNET_DNSPARSER_TYPE_MX) with true. cbv iota.
    rewrite length_app, (length_encode_fields [2]%nat) in Hw |- * by done.
    change (sum_list [2]%nat) with 2%nat in *. unfold add_mx. cbn [preference mxhost].
    rewrite (proj2 (Z.ltb_ge _ _)) by lia. rewrite add_struct_ok by (cbn; lia).
    cbn [mbind outcome_bind].
    rewrite (app_len_eq pre (encode_fields [2]%nat [pref]) 2 eq_refl), app_assoc.
    rewrite (add_name_ok h ls) by (done || rewrite ?length_drop, ?length_app; cbn; lia). by written.
  - change (GNUNET_DNSPARSER_TYPE_SRV =? GNUNET_DNSPARSER_TYPE_MX) with false.
    change (GNUNET_DNSPARSER_TYPE_SRV =? GNUNET_DNSPARSER_TYPE_SOA) with false.
    change (is_hostname_type GNUNET_DNSPARSER_TYPE_SRV) with false.
    change (GNUNET_DNSPARSER_TYPE_SRV =? GNUNET_DNSPARSER_TYPE_SRV) with true. cbv iota.
    rewrite length_app, (length_encode_fields [2; 2; 2]%nat) in Hw |- * by done.
    change (sum_list [2; 2; 2]%nat) with 6%nat in *. unfold add_srv, sizeof_srv_data.
    cbn [priority weight port target]. rewrite (proj2 (Z.ltb_ge _ _)) by lia.
    rewrite add_struct_ok by (cbn; lia). cbn [mbind outcome_bind].
    rewrite (app_len_eq pre (encode_fields [2; 2; 2]%nat [prio; wt; pt]) 6 eq_refl), app_assoc.
    rewrite (add_name_ok t ls) by (done || rewrite ?length_drop, ?length_app; cbn; lia). by written.
  - rewrite (proj2 (Z.eqb_neq _ _) Hmx), (proj2 (Z.eqb_neq _ _) Hsoa), Ht,
      (proj2 (Z.eqb_neq _ _) Hsrv).
    rewrite (proj2 (Z.ltb_ge _ _)) by lia. by rewrite mem_write_app.
Qed.

Lemma srv_name_ok r name (ls : list str) dw :
  wire_name r = Some name -> data_enc name (r_type r) (r_data r) dw -> srv_name r = Ret (Some name).
Proof.
  unfold wire_name, srv_name. destruct (r_name r) as [m|]; [ by intros [= ->] | ]. intros Hn Hd.
  destruct Hd; cbn in Hn; try done. by injection Hn as <-.
Qed.

Lemma add_record_ok now r w pre rest max :
  record_enc now r w -> max = Z.of_nat (length pre + length rest) -> max < 2 ^ 16 ->
  (length w <= length rest)%nat ->
  add_record idna_to_ascii now (pre ++ rest) max (length pre) r
  = Ret (GNUNET_OK, pre ++ w ++ drop (length w) rest, (length pre + length w)%nat).
Proof.
  intros (_ & _ & name & ls & dw & Hn & Hok & Hd & Hdl & ->) Hmax Hlt Hw.
  unfold add_record. rewrite (srv_name_ok r name ls dw Hn Hd). cbn [mbind outcome_bind].
  set (f := encode_fields _ _) in *.
  assert (Hf : length f = 10%nat) by apply (length_encode_fields [2; 2; 4; 2]%nat
    [r_type r; r_class r; u32 (remaining_seconds now (expiration_time r)); Z.of_nat (length dw)] eq_refl).
  rewrite !length_app, Hf in Hw |- *. unfold sizeof_record_line.
  rewrite u64_sub by lia. rewrite (add_name_ok name ls) by (done || lia). cbn [mbind outcome_bind].
  change (negb (GNUNET_OK =? GNUNET_OK)) with false. cbv iota.
  set (rest1 := drop (length (encode_labels ls)) rest).
  assert (Hr1 : length rest1 = (length rest - length (encode_labels ls))%nat) by apply length_drop.
  assert (Hhole : length (take 10 rest1) = 10%nat) by (rewrite length_take; lia).
  assert (Hpos : (length pre + length (encode_labels ls) + 10)%nat
    = length (pre ++ encode_labels ls ++ take 10 rest1)) by (rewrite !length_app, Hhole; lia).
  replace (pre ++ encode_labels ls ++ rest1)
    with ((pre ++ encode_labels ls ++ take 10 rest1) ++ drop 10 rest1)
    by (rewrite <- !app_assoc, take_drop; done).
  rewrite Hpos.
  rewrite (add_data_ok name r dw) by (done || rewrite ?length_drop, ?length_app, ?Hhole; lia).
  cbn [mbind outcome_bind]. change (negb (GNUNET_OK =? GNUNET_OK)) with false. cbv iota.
  set (hole := pre ++ encode_labels ls ++ take 10 rest1) in *.
  replace (length hole + length dw - length hole)%nat with (length dw) by lia.
  rewrite (proj2 (Z.ltb_ge _ _)) by lia. subst hole.
  rewrite (app_len_eq pre (encode_labels ls) _ eq_refl), <- !app_assoc,
    (app_assoc pre (encode_labels ls) (take 10 rest1 ++ _)).
  rewrite add_struct_ok by (rewrite ?length_app, ?Hhole; cbn; lia). fold f. cbn [mbind outcome_bind].
  change (sum_list [2; 2; 4; 2]%nat) with 10%nat. rewrite drop_app_length' by done.
  rewrite <- !app_assoc, !length_app, Hhole. unfold rest1. rewrite !drop_drop.
  by rewrite <- !Nat.add_assoc.
Qed.

Lemma add_array_ok {A} (enc : A -> list Z -> Prop) add (max : Z) :
  (forall a w pre rest, enc a w -> max = Z.of_nat (length pre + length rest) ->
    (length w <= length rest)%nat ->
    add (pre ++ rest) (length pre) a
    = Ret (GNUNET_OK, pre ++ w ++ drop (length w) rest, (length pre + length w)%nat)) ->
  forall l ws i pre rest, Forall2 enc l ws -> max = Z.of_nat (length pre + length rest) ->
    (length (concat ws) <= length rest)%nat ->
    add_array add i l (pre ++ rest) (length pre)
    = Ret (Some (pre ++ concat ws ++ drop (length (concat ws)) rest,
                 (length pre + length (concat ws))%nat, None)).
Proof.
  intros Hadd l ws i pre rest Henc. revert i pre rest.
  induction Henc as [|a w l ws Ha Hl IH]; intros i pre rest Hmax Hw; cbn [add_array concat] in *.
  - by rewrite drop_0, Nat.add_0_r.
  - rewrite length_app in Hw. rewrite (Hadd a w) by (done || lia). cbn [mbind outcome_bind].
    change (GNUNET_OK =? GNUNET_SYSERR) with false. change (GNUNET_OK =? GNUNET_NO) with false. cbv iota.
    rewrite (app_len_eq pre w _ eq_refl), app_assoc.
    rewrite IH by (rewrite ?length_app, ?length_drop; lia). by written.
Qed.

(** ** Parsing reads the encoding *)

Lemma name_loop_ok rec ls : forall fuel pre post ret,
  Forall label_ok ls -> (length ls < fuel)%nat ->
  name_loop idna_to_unicode (pre ++ encode_labels ls ++ post)
    (length (pre ++ encode_labels ls ++ post)) rec fuel (length pre) ret
  = Ret (Some (eat_dot (ret ++ unicode_labels ls)), (length pre + length (encode_labels ls))%nat).
Proof.
  induction ls as [|l ls IH]; intros fuel pre post ret Hls Hf;
    (destruct fuel as [|fuel]; [ cbn in Hf; lia | ]); cbn [name_loop encode_labels];
    rewrite (proj2 (Nat.leb_gt _ _)) by (rewrite length_app; cbn; lia);
    cbn [app]; rewrite read_byte_app; cbn [mbind outcome_bind].
  - cbn. by rewrite app_nil_r, Nat.add_1_r.
  - apply Forall_cons_iff in Hls as [[Hlen Hl] Hls].
    rewrite (proj2 (Z.eqb_neq _ _)), (proj2 (Z.ltb_lt _ _)) by lia.
    rewrite (proj2 (Z.ltb_ge _ _)) by (rewrite length_app; cbn [length]; rewrite !length_app; lia).
    rewrite Nat2Z.id. set (mem := pre ++ _).
    assert (Hmem : mem = (pre ++ [Z.of_nat (length l)]) ++ l ++ encode_labels ls ++ post).
    { unfold mem. by rewrite <- !app_assoc. }
    assert (Hmem2 : mem = (pre ++ Z.of_nat (length l) :: l) ++ encode_labels ls ++ post).
    { unfold mem. by rewrite <- !app_assoc. }
    replace (S (length pre)) with (length (pre ++ [Z.of_nat (length l)]))
      by (rewrite length_app; cbn; lia).
    rewrite Hmem at 1. rewrite mem_read_app by done. cbn [mbind outcome_bind].
    rewrite until_nul_label by done.
    replace (length (pre ++ [Z.of_nat (length l)]) + length l)%nat
      with (length (pre ++ Z.of_nat (length l) :: l)) by (rewrite !length_app; cbn; lia).
    rewrite Hmem2, IH by (done || cbn in Hf; lia). unfold unicode_labels.
    rewrite fmap_cons. cbn [concat]. rewrite <- !app_assoc. do 2 f_equal.
    rewrite !length_app. cbn [length]. rewrite length_app. lia.
Qed.

Lemma parse_name_ok name ls pre post :
  name_ok name ls ->
  parse_name idna_to_unicode (pre ++ encode_labels ls ++ post)
    (length (pre ++ encode_labels ls ++ post)) (length pre)
  = Ret (Some name, (length pre + length (encode_labels ls))%nat).
Proof.
  intros [Ha Hu Hne Hls]. unfold parse_name. cbn [parse_name_at].
  rewrite name_loop_ok; [ cbn [app]; by rewrite Hu | done | ].
  rewrite !length_app, (length_encode_labels ls Hne). pose proof (length_join_dot ls). lia.
Qed.

(** The same with the buffer and its parts given by equations *)
Lemma parse_name_at_ok name ls mem off pre post :
  name_ok name ls -> mem = pre ++ encode_labels ls ++ post -> off = length pre ->
  parse_name idna_to_unicode mem (length mem) off
  = Ret (Some name, (off + length (encode_labels ls))%nat).
Proof. intros Hok -> ->. by apply parse_name_ok. Qed.

Lemma parse_query_ok q w pre post :
  query_enc q w ->
  parse_query idna_to_unicode (pre ++ w ++ post) (length (pre ++ w ++ post)) (length pre)
  = Ret (GNUNET_OK, q, (length pre + length w)%nat).
Proof.
  intros (Ht & Hc & name & ls & Hn & Hok & ->). unfold parse_query.
  set (f := encode_fields _ _). assert (Hf : length f = 4%nat)
    by apply (length_encode_fields [2; 2]%nat [q_type q; q_class q] eq_refl).
  set (mem := pre ++ _).
  rewrite (parse_name_at_ok name ls mem _ pre (f ++ post)) by (unfold mem; rewrite <- ?app_assoc; done).
  cbn [mbind outcome_bind]. unfold sizeof_query_line.
  rewrite (proj2 (Nat.ltb_ge _ _)) by (unfold mem; rewrite !length_app, Hf; lia).
  rewrite (mem_read_at mem (pre ++ encode_labels ls) f post)
    by (unfold mem; rewrite <- ?app_assoc, ?length_app; done).
  cbn [mbind outcome_bind]. rewrite length_app, Hf, Nat.add_assoc.
  assert (Hdec : decode_fields [2; 2]%nat f = [q_type q; q_class q]) 
    by (apply decode_fields_at; fits).
  clearbody f. cbn [decode_fields] in Hdec. injection Hdec as -> ->. destruct q. cbn in *. by subst.
Qed.

Ltac parse_step mem := try unfold mem; rewrite <- ?app_assoc, ?length_app; first [ done | lia ].

Lemma parse_soa_ok name soa w pre post :
  data_enc name GNUNET_DNSPARSER_TYPE_SOA (Soa soa) w ->
  parse_soa idna_to_unicode (pre ++ w ++ post) (length (pre ++ w ++ post)) (length w) (length pre)
  = Ret (GNUNET_OK, Soa soa, (length pre + length w)%nat).
Proof.
  intros Henc. inversion Henc as [| m lm r lr a b c d e Hm Hr Ha Hb Hc Hd He | | |]; subst; try done.
  set (f := encode_fields _ _) in *.
  assert (Hf : length f = 20%nat)
    by apply (length_encode_fields [4; 4; 4; 4; 4]%nat [a; b; c; d; e] eq_refl).
  assert (Hdec : decode_fields [4; 4; 4; 4; 4]%nat f = [a; b; c; d; e])
    by (apply decode_fields_at; fits). clearbody f.
  set (mem := pre ++ _). unfold parse_soa.
  rewrite (parse_name_at_ok m lm mem _ pre (encode_labels lr ++ f ++ post)) by parse_step mem.
  cbn [mbind outcome_bind].
  rewrite (parse_name_at_ok r lr mem _ (pre ++ encode_labels lm) (f ++ post)) by parse_step mem.
  cbn [mbind outcome_bind]. unfold sizeof_soa_data.
  rewrite !bool_decide_eq_false_2 by done. cbn [orb].
  rewrite (proj2 (Nat.ltb_ge _ _)) by (unfold mem; rewrite !length_app, Hf; lia).
  rewrite (mem_read_at mem ((pre ++ encode_labels lm) ++ encode_labels lr) f post) by parse_step mem.
  cbn [mbind outcome_bind]. unfold decode_soa. rewrite Hdec, !length_app, Hf, !Nat.add_assoc.
  by rewrite Nat.eqb_refl.
Qed.

Lemma srv_format_ok s p c d :
  (dot ∉ s) -> (dot ∉ p) -> c <> dot ->
  let name := srv_format s p (c :: d) in
  head name = Some underscore /\ has_dot_underscore name = true
  /\ srv_tokens name = Ret (Some (s, p, (split_dot (c :: d)).1)).
Proof.
  intros Hs Hp Hc name. split_and!; [ done | | exact (srv_tokens_wellformed s 0 p 0 c d Hs Hp Hc) ].
  unfold name, srv_format. rewrite (app_assoc [underscore] s). generalize ([underscore] ++ s). intros l.
  induction l as [|x l IH]; [ done | ]. cbn [app has_dot_underscore].
  destruct (l ++ _) eqn:E; [ by apply app_eq_nil in E as [_ ?] | ]. by rewrite IH, orb_true_r.
Qed.

(** What the parser makes of the data: of the domain of an SRV record it keeps the first
    label. *)
Definition reread (data : record_data) : record_data :=
  match data with
  | Srv (mk_srv s p d t prio wt pt) =>
      Srv (mk_srv s p ((fun d => (split_dot d).1) <$> d) t prio wt pt)
  | _ => data
  end.

Lemma parse_data_ok name type data w pre post :
  data_enc name type data w ->
  parse_data idna_to_unicode (pre ++ w ++ post) (length (pre ++ w ++ post)) type name (length w) (length pre)
  = Ret (GNUNET_OK, reread data, (length pre + length w)%nat).
Proof.
  intros Henc. unfold parse_data.
  destruct Henc as [type h ls Ht Hok | m lm r lr a b c d e | pref h ls Hp Hok
    | s p d t ls prio wt pt Hname Hs Hpr Hd Hdot Hok Hprio Hwt Hpt | type data Ht Hsoa Hmx Hsrv].
  - rewrite Ht. unfold parse_hostname. rewrite (parse_name_ok h ls) by done. cbn [mbind outcome_bind].
    rewrite bool_decide_eq_false_2, Nat.eqb_refl by done. done.
  - change (is_hostname_type GNUNET_DNSPARSER_TYPE_SOA) with false.
    change (GNUNET_DNSPARSER_TYPE_SOA =? GNUNET_DNSPARSER_TYPE_SOA) with true. cbv iota.
    apply (parse_soa_ok name). by constructor.
  - change (is_hostname_type GNUNET_DNSPARSER_TYPE_MX) with false.
    change (GNUNET_DNSPARSER_TYPE_MX =? GNUNET_DNSPARSER_TYPE_SOA) with false.
    change (GNUNET_DNSPARSER_TYPE_MX =? GNUNET_DNSPARSER_TYPE_MX) with true. cbv iota.
    set (f := encode_fields _ _). assert (Hf : length f = 2%nat) by done.
    assert (Hdec : decode_fields [2]%nat f = [pref]) by (apply decode_fields_at; fits). clearbody f.
    set (mem := pre ++ _). unfold parse_mx.
    rewrite (proj2 (Nat.ltb_ge _ _)) by (unfold mem; rewrite !length_app, Hf; lia).
    rewrite (mem_read_at mem pre f (encode_labels ls ++ post)) by parse_step mem.
    cbn [mbind outcome_bind].
    rewrite (parse_name_at_ok h ls mem _ (pre ++ f) post)
      by (unfold mem; rewrite <- ?app_assoc, ?length_app, ?Hf; done).
    cbn [mbind outcome_bind]. rewrite length_app, Hf, Nat.add_assoc, Nat.eqb_refl.
    cbn [decode_fields] in Hdec. rewrite take_ge in Hdec by lia. injection Hdec as ->. done.
  - change (is_hostname_type GNUNET_DNSPARSER_TYPE_SRV) with false.
    change (GNUNET_DNSPARSER_TYPE_SRV =? GNUNET_DNSPARSER_TYPE_SOA) with false.
    change (GNUNET_DNSPARSER_TYPE_SRV =? GNUNET_DNSPARSER_TYPE_MX) with false.
    change (GNUNET_DNSPARSER_TYPE_SRV =? GNUNET_DNSPARSER_TYPE_SRV) with true. cbv iota.
    set (f := encode_fields _ _). assert (Hf : length f = 6%nat) by done.
    assert (Hdec : decode_fields [2; 2; 2]%nat f = [prio; wt; pt]) by (apply decode_fields_at; fits).
    clearbody f. set (mem := pre ++ _). unfold parse_srv, sizeof_srv_data.
    destruct d as [|c d]; [ done | ]. assert (Hc : c <> dot) by (intros ->; by apply Hdot).
    destruct (srv_format_ok s p c d Hs Hpr Hc) as (Hhead & Hdu & Htok). rewrite <- Hname in Hhead, Hdu, Htok.
    rewrite bool_decide_eq_false_2, Hdu by (intros Hx; by apply Hx). cbn [negb].
    rewrite (proj2 (Nat.ltb_ge _ _)) by (unfold mem; rewrite !length_app, Hf; lia).
    rewrite (mem_read_at mem pre f (encode_labels ls ++ post)) by parse_step mem.
    cbn [mbind outcome_bind]. rewrite Htok. cbn [mbind outcome_bind].
    rewrite (parse_name_at_ok t ls mem _ (pre ++ f) post)
      by (unfold mem; rewrite <- ?app_assoc, ?length_app, ?Hf; done).
    cbn [mbind outcome_bind]. rewrite length_app, Hf, Nat.add_assoc, Nat.eqb_refl.
    cbn [decode_fields] in Hdec. rewrite drop_drop in Hdec. injection Hdec as -> -> ->. done.
  - rewrite Ht, (proj2 (Z.eqb_neq _ _) Hsoa), (proj2 (Z.eqb_neq _ _) Hmx), (proj2 (Z.eqb_neq _ _) Hsrv).
    unfold parse_raw. by rewrite mem_read_app.
Qed.

(** A record as it is parsed: the time to live, modulo 2^32, is counted from then on. *)
Definition refreshed (now now' : GNUNET_TIME_Absolute) (r : GNUNET_DNSPARSER_Record)
  : GNUNET_DNSPARSER_Record :=
  mk_record (wire_name r) (reread (r_data r))
    (ttl_expiration now' (u32 (remaining_seconds now (expiration_time r)))) (r_type r) (r_class r).

Lemma parse_record_ok now now' r w pre post :
  record_enc now r w ->
  parse_record idna_to_unicode (pre ++ w ++ post) (length (pre ++ w ++ post)) now' (length pre)
  = Ret (GNUNET_OK, refreshed now now' r, (length pre + length w)%nat).
Proof.
  intros (Ht & Hc & name & ls & dw & Hn & Hok & Hd & Hdl & ->). unfold parse_record.
  set (ttl := u32 _). assert (Httl : is_u32 ttl) by apply u32_range.
  set (f := encode_fields _ _).
  assert (Hf : length f = 10%nat) by apply (length_encode_fields [2; 2; 4; 2]%nat
    [r_type r; r_class r; ttl; Z.of_nat (length dw)] eq_refl).
  assert (Hdec : decode_fields [2; 2; 4; 2]%nat f = [r_type r; r_class r; ttl; Z.of_nat (length dw)])
    by (apply decode_fields_at; fits). clearbody f.
  set (mem := pre ++ _).
  rewrite (parse_name_at_ok name ls mem _ pre (f ++ dw ++ post)) by parse_step mem.
  cbn [mbind outcome_bind]. unfold sizeof_record_line.
  rewrite (proj2 (Nat.ltb_ge _ _)) by (unfold mem; rewrite !length_app, Hf; lia).
  rewrite (mem_read_at mem (pre ++ encode_labels ls) f (dw ++ post)) by parse_step mem.
  cbn [mbind outcome_bind]. cbn [decode_fields] in Hdec. rewrite !drop_drop in Hdec.
  injection Hdec as -> -> -> ->. rewrite Nat2Z.id.
  rewrite (proj2 (Nat.ltb_ge _ _)) by (unfold mem; rewrite !length_app, Hf; lia).
  set (pre' := pre ++ encode_labels ls ++ f).
  assert (Hmem : mem = pre' ++ dw ++ post) by (unfold mem, pre'; by rewrite <- !app_assoc).
  replace (length pre + length (encode_labels ls) + 10)%nat with (length pre')
    by (unfold pre'; rewrite !length_app, Hf; lia).
  rewrite Hmem, (parse_data_ok _ _ (r_data r)) by done. cbn [mbind outcome_bind].
  unfold refreshed. rewrite Hn. do 2 f_equal. unfold pre'. rewrite !length_app. lia.
Qed.

Lemma parse_array_ok {A} (enc : A -> list Z -> Prop) (f : A -> A) parse mem :
  (forall a w pre post, enc a w -> mem = pre ++ w ++ post ->
    parse (length pre) = Ret (GNUNET_OK, f a, (length pre + length w)%nat)) ->
  forall l ws pre post, Forall2 enc l ws -> mem = pre ++ concat ws ++ post ->
    parse_array parse (length l) (length pre)
    = Ret (true, f <$> l, (length pre + length (concat ws))%nat).
Proof.
  intros Hp l ws pre post Henc. revert pre.
  induction Henc as [|a w l ws Ha Hl IH]; intros pre Hmem; cbn [parse_array concat length] in *.
  - by rewrite Nat.add_0_r.
  - rewrite (Hp a w pre (concat ws ++ post)) by (done || by rewrite Hmem, <- app_assoc).
    cbn [mbind outcome_bind]. change (negb (GNUNET_OK =? GNUNET_OK)) with false. cbv iota.
    rewrite (app_len_eq pre w _ eq_refl), (IH (pre ++ w)) by (rewrite Hmem, <- !app_assoc; done).
    cbn [mbind outcome_bind]. by rewrite !length_app, Nat.add_assoc.
Qed.

(** ** Packets *)

Definition encode_packet (p : GNUNET_DNSPARSER_Packet) (wq wan wau wad : list (list Z)) : list Z :=
  (p_id p ++ p_flags p ++ encode_fields [2; 2; 2; 2]%nat
    [Z.of_nat (length (queries p)); Z.of_nat (length (answers p));
     Z.of_nat (length (authority_records p)); Z.of_nat (length (additional_records p))])
  ++ concat wq ++ concat wan ++ concat wau ++ concat wad.

Record packet_enc (now : GNUNET_TIME_Absolute) (p : GNUNET_DNSPARSER_Packet)
  (wq wan wau wad : list (list Z)) : Prop := {
  pe_id : length (p_id p) = 2%nat;
  pe_flags : length (p_flags p) = 2%nat;
  pe_queries : Forall2 query_enc (queries p) wq;
  pe_answers : Forall2 (record_enc now) (answers p) wan;
  pe_authority : Forall2 (record_enc now) (authority_records p) wau;
  pe_additional : Forall2 (record_enc now) (additional_records p) wad
}.

Lemma encode_labels_nonempty ls : (1 <= length (encode_labels ls))%nat.
Proof. destruct ls; cbn; lia. Qed.

Lemma enc_count {A} (enc : A -> list Z -> Prop) l ws :
  (forall a w, enc a w -> (1 <= length w)%nat) -> Forall2 enc l ws ->
  (length l <= length (concat ws))%nat.
Proof.
  intros Hw. induction 1 as [|a w l ws Ha Hl IH]; [ done | ]. cbn [concat length].
  rewrite length_app. specialize (Hw a w Ha). lia.
Qed.

Lemma query_enc_nonempty q w : query_enc q w -> (1 <= length w)%nat.
Proof.
  intros (_ & _ & name & ls & _ & _ & ->). rewrite length_app.
  pose proof (encode_labels_nonempty ls). lia.
Qed.

Lemma record_enc_nonempty now r w : record_enc now r w -> (1 <= length w)%nat.
Proof.
  intros (_ & _ & name & ls & dw & _ & _ & _ & _ & ->). rewrite length_app.
  pose proof (encode_labels_nonempty ls). lia.
Qed.

Lemma packet_counts now p wq wan wau wad :
  packet_enc now p wq wan wau wad ->
  (length (queries p) <= length (concat wq))%nat /\ (length (answers p) <= length (concat wan))%nat
  /\ (length (authority_records p) <= length (concat wau))%nat
  /\ (length (additional_records p) <= length (concat wad))%nat.
Proof.
  intros [_ _ Hq Han Hau Had]. split_and!; eapply enc_count; eauto using query_enc_nonempty, record_enc_nonempty.
Qed.

Lemma length_packet_header now p wq wan wau wad :
  packet_enc now p wq wan wau wad ->
  length (encode_packet p wq wan wau wad)
  = (12 + length (concat wq) + length (concat wan) + length (concat wau) + length (concat wad))%nat.
Proof.
  intros [Hid Hfl _ _ _ _]. unfold encode_packet. rewrite !length_app, Hid, Hfl.
  rewrite (length_encode_fields [2; 2; 2; 2]%nat) by done.
  change (sum_list [2; 2; 2; 2]%nat) with 8%nat. lia.
Qed.

Lemma pack_ok now p wq wan wau wad tmp :
  packet_enc now p wq wan wau wad ->
  (length (encode_packet p wq wan wau wad) <= length tmp)%nat -> Z.of_nat (length tmp) < 2 ^ 16 ->
  GNUNET_DNSPARSER_pack idna_to_ascii now p tmp
  = Ret (GNUNET_OK, Some (encode_packet p wq wan wau wad)).
Proof.
  intros Hp Hl Hmax. pose proof (packet_counts _ _ _ _ _ _ Hp) as (Cq & Can & Cau & Cad).
  rewrite (length_packet_header _ _ _ _ _ _ Hp) in Hl. destruct Hp as [Hid Hfl Hq Han Hau Had].
  unfold GNUNET_DNSPARSER_pack. rewrite !(proj2 (Z.ltb_ge _ _)) by lia. cbn [orb].
  set (pre0 := take 12 tmp). set (rest0 := drop 12 tmp).
  assert (Htmp : tmp = pre0 ++ rest0) by (symmetry; apply take_drop).
  assert (Hpre0 : length pre0 = 12%nat) by (unfold pre0; rewrite length_take; lia).
  assert (Hrest0 : length rest0 = (length tmp - 12)%nat) by apply length_drop.
  assert (Hmx : Z.of_nat (length tmp) = Z.of_nat (length pre0 + length rest0)) by lia.
  set (max := Z.of_nat (length tmp)) in *. clearbody max. rewrite Htmp.
  change sizeof_dns_header with 12%nat. rewrite <- Hpre0.
  rewrite (add_array_ok query_enc _ max) with (ws := wq);
    [ | intros a w pre rest Ha Hm Hw; by apply add_query_ok | done | done | lia ].
  cbn [mbind outcome_bind]. rewrite (app_len_eq pre0 (concat wq) _ eq_refl), app_assoc.
  rewrite (add_array_ok (record_enc now) _ max) with (ws := wan);
    [ | intros a w pre rest Ha Hm Hw; by apply add_record_ok | done
      | rewrite Hmx, length_app, length_drop; lia | rewrite length_drop; lia ].
  cbn [mbind outcome_bind]. rewrite (app_len_eq (pre0 ++ concat wq) (concat wan) _ eq_refl), (app_assoc (pre0 ++ concat wq)).
  rewrite (add_array_ok (record_enc now) _ max) with (ws := wau);
    [ | intros a w pre rest Ha Hm Hw; by apply add_record_ok | done
      | rewrite Hmx, !length_app, !length_drop; lia | rewrite !length_drop; lia ].
  cbn [mbind outcome_bind]. rewrite (app_len_eq ((pre0 ++ concat wq) ++ concat wan) (concat wau) _ eq_refl),
    (app_assoc ((pre0 ++ concat wq) ++ concat wan)).
  rewrite (add_array_ok (record_enc now) _ max) with (ws := wad);
    [ | intros a w pre rest Ha Hm Hw; by apply add_record_ok | done
      | rewrite Hmx, !length_app, !length_drop; lia | rewrite !length_drop; lia ].
  cbn [mbind outcome_bind from_option id]. rewrite !bool_decide_eq_true_2 by done. cbn [andb negb].
  set (hd := p_id p ++ _). assert (Hhd : length hd = 12%nat).
  { unfold hd. rewrite !length_app, Hid, Hfl, (length_encode_fields [2; 2; 2; 2]%nat) by done. done. }
  rewrite mem_write_ok by (rewrite Hhd, !length_app; lia). cbn [mbind outcome_bind].
  rewrite take_0, Hhd. cbn [app]. rewrite <- !app_assoc, drop_app_length' by done.
  rewrite mem_read_ok by (rewrite !length_app, Hhd; lia). cbn [mbind outcome_bind].
  rewrite drop_0. unfold encode_packet. fold hd. do 3 f_equal.
  rewrite !app_assoc. rewrite take_app_length'; [ by rewrite <- !app_assoc | ].
  rewrite !length_app, Hhd. lia.
Qed.

Lemma parse_ok now now' p wq wan wau wad :
  packet_enc now p wq wan wau wad ->
  Z.of_nat (length (encode_packet p wq wan wau wad)) < 2 ^ 16 ->
  GNUNET_DNSPARSER_parse idna_to_unicode now' (encode_packet p wq wan wau wad)
    (length (encode_packet p wq wan wau wad))
  = Ret (Some (mk_packet (queries p) (refreshed now now' <$> answers p)
      (refreshed now now' <$> authority_records p) (refreshed now now' <$> additional_records p)
      (p_flags p) (p_id p))).
Proof.
  intros Hp Hl. pose proof (packet_counts _ _ _ _ _ _ Hp) as (Cq & Can & Cau & Cad).
  pose proof (length_packet_header _ _ _ _ _ _ Hp) as Hlen.
  destruct Hp as [Hid Hfl Hq Han Hau Had]. unfold GNUNET_DNSPARSER_parse.
  change sizeof_dns_header with 12%nat. rewrite (proj2 (Nat.ltb_ge _ _)) by lia.
  unfold encode_packet in *. set (cs := [Z.of_nat _; _; _; _]) in *. set (f := encode_fields _ cs) in *.
  assert (Hf : length f = 8%nat) by apply (length_encode_fields [2; 2; 2; 2]%nat cs eq_refl).
  assert (Hdec : decode_fields [2; 2; 2; 2]%nat f = cs)
    by (apply decode_fields_at; unfold cs; fits). clearbody f.
  set (hd := p_id p ++ p_flags p ++ f) in *.
  assert (Hhd : length hd = 12%nat) by (unfold hd; rewrite !length_app, Hid, Hfl, Hf; done).
  set (mem := hd ++ _). rewrite (mem_read_at mem [] hd (concat wq ++ concat wan ++ concat wau ++ concat wad)) by done.
  cbn [mbind outcome_bind].
  assert (H2 : take 2 hd = p_id p) by (unfold hd; by rewrite take_app_length').
  assert (Hd2 : drop 2 hd = p_flags p ++ f) by (unfold hd; by rewrite drop_app_length').
  assert (Hd4 : drop 4 hd = f).
  { transitivity (drop 2 (drop 2 hd)); [ by rewrite drop_drop | ].
    rewrite Hd2. by rewrite drop_app_length'. }
  assert (Hd4k : forall k, drop (4 + k) hd = drop k f) by (intros k; by rewrite <- (drop_drop hd), Hd4).
  rewrite H2, Hd2, (Hd4k 2%nat : drop 6 hd = _), (Hd4k 4%nat : drop 8 hd = _),
    (Hd4k 6%nat : drop 10 hd = _), Hd4,
    take_app_length' by done.
  cbn [decode_fields] in Hdec. rewrite !drop_drop in Hdec. cbn [Nat.add] in Hdec.
  injection Hdec as E1 E2 E3 E4. rewrite E1, E2, E3, E4, !Nat2Z.id. clear E1 E2 E3 E4.
  rewrite <- Hhd.
  rewrite (parse_array_ok query_enc id _ mem) with (ws := wq) (post := concat wan ++ concat wau ++ concat wad);
    [ | intros a w pre post Ha Hm; rewrite Hm; by apply parse_query_ok | done | done ].
  cbn [mbind outcome_bind negb]. rewrite list_fmap_id, (app_len_eq hd (concat wq) _ eq_refl).
  rewrite (parse_array_ok (record_enc now) (refreshed now now') _ mem) with (ws := wan) (post := concat wau ++ concat wad);
    [ | intros a w pre post Ha Hm; rewrite Hm; by apply parse_record_ok | done | by unfold mem; rewrite <- !app_assoc ].
  cbn [mbind outcome_bind negb]. rewrite (app_len_eq (hd ++ concat wq) (concat wan) _ eq_refl).
  rewrite (parse_array_ok (record_enc now) (refreshed now now') _ mem) with (ws := wau) (post := concat wad);
    [ | intros a w pre post Ha Hm; rewrite Hm; by apply parse_record_ok | done | by unfold mem; rewrite <- !app_assoc ].
  cbn [mbind outcome_bind negb]. rewrite (app_len_eq ((hd ++ concat wq) ++ concat wan) (concat wau) _ eq_refl).
  rewrite (parse_array_ok (record_enc now) (refreshed now now') _ mem) with (ws := wad) (post := []);
    [ | intros a w pre post Ha Hm; rewrite Hm; by apply parse_record_ok | done
      | by unfold mem; rewrite <- !app_assoc, app_nil_r ].
  done.
Qed.

End Roundtrip.

(** ** Packets that do not fit *)

Section Truncated.
Context (idna_to_unicode idna_to_ascii : str -> option str).

(** A query that does not fit leaves the offset alone. *)
Lemma add_query_full q name ls pre rest max :
  q_name q = Some name -> name_ok idna_to_unicode idna_to_ascii name ls ->
  max = Z.of_nat (length pre + length rest) -> 4 <= max < 2 ^ 16 ->
  (length rest < length (encode_labels ls) + 4)%nat ->
  add_query idna_to_ascii (pre ++ rest) max (length pre) q = Ret (GNUNET_NO, pre ++ rest, length pre).
Proof.
  intros Hn [Ha Hu Hne Hls] Hmax Hlt Hrest. unfold add_query, add_name. rewrite Hn, Ha.
  unfold sizeof_query_line. rewrite u64_sub by lia. pose proof (length_encode_labels ls Hne).
  by rewrite (proj2 (Z.ltb_lt _ _)) by lia.
Qed.

(** The loop stops at the first query that does not fit, with the count [i - 1]. *)
Lemma add_array_full qs wq q more name ls max :
  Forall2 (query_enc idna_to_unicode idna_to_ascii) qs wq ->
  q_name q = Some name -> name_ok idna_to_unicode idna_to_ascii name ls ->
  forall i pre rest, max = Z.of_nat (length pre + length rest) -> 4 <= max < 2 ^ 16 ->
    (length (concat wq) <= length rest < length (concat wq) + length (encode_labels ls) + 4)%nat ->
    add_array (fun dst => add_query idna_to_ascii dst max) i (qs ++ q :: more) (pre ++ rest) (length pre)
    = Ret (Some (pre ++ concat wq ++ drop (length (concat wq)) rest,
                 (length pre + length (concat wq))%nat,
                 Some (u16 (u32 (i + Z.of_nat (length qs) - 1))))).
Proof.
  intros Henc Hn Hok. induction Henc as [|a w l ws Ha Hl IH]; intros i pre rest Hmax Hlt Hw;
    cbn [add_array concat app length] in *.
  - rewrite (add_query_full q name ls) by (done || lia). cbn [mbind outcome_bind].
    change (GNUNET_NO =? GNUNET_SYSERR) with false. change (GNUNET_NO =? GNUNET_NO) with true. cbv iota.
    by rewrite drop_0, Z.add_0_r, Nat.add_0_r.
  - rewrite length_app in Hw. rewrite (add_query_ok idna_to_unicode idna_to_ascii a w) by (done || lia).
    cbn [mbind outcome_bind].
    change (GNUNET_OK =? GNUNET_SYSERR) with false. change (GNUNET_OK =? GNUNET_NO) with false. cbv iota.
    rewrite (app_len_eq pre w _ eq_refl), app_assoc.
    rewrite IH by (rewrite ?length_app, ?length_drop; lia).
    rewrite drop_drop, <- !app_assoc, !length_app, Nat.add_assoc.
    replace (i + 1 + Z.of_nat (length l) - 1) with (i + Z.of_nat (S (length l)) - 1) by lia. done.
Qed.

End Truncated.

(** ** Properties *)

(** C23: Packing a DNS packet whose names and records are valid into a buffer
    that is large enough returns GNUNET_OK with the reference encoding, and
    parsing these bytes gives the packet back: the same queries and records of
    every type, each expiring after the seconds that remained when it was
    packed, taken modulo 2^32. The name of an SRV record is
    _service._proto.domain, given or made from its details; of its domain the
    parser keeps only the first label (a finding). Valid names have labels of
    1 to 63 bytes without NUL and dot, on which the conversions of libidn are
    inverse to each other. *)
Theorem dns_pack_parse_roundtrip (idna_to_unicode idna_to_ascii : str -> option str)
  (now now' : GNUNET_TIME_Absolute) (p : GNUNET_DNSPARSER_Packet)
  (wq wan wau wad : list (list Z)) (tmp : list Z) :
  packet_enc idna_to_unicode idna_to_ascii now p wq wan wau wad ->
  let buf := encode_packet p wq wan wau wad in
  (length buf <= length tmp)%nat -> Z.of_nat (length tmp) < 2 ^ 16 ->
  GNUNET_DNSPARSER_pack idna_to_ascii now p tmp = Ret (GNUNET_OK, Some buf)
  /\ GNUNET_DNSPARSER_parse idna_to_unicode now' buf (length buf)
     = Ret (Some (mk_packet (queries p) (refreshed now now' <$> answers p)
         (refreshed now now' <$> authority_records p)
         (refreshed now now' <$> additional_records p) (p_flags p) (p_id p))).
Proof.
  intros Hp buf Hl Hmax. split; [ by eapply pack_ok | ]. eapply parse_ok; [ done | ]. fold buf. lia.
Qed.

(** "a.b" *)
Definition sample_name : str := [97; dot; 98].
Definition sample_packet : GNUNET_DNSPARSER_Packet :=
  mk_packet [mk_query (Some sample_name) 15 1]
    [mk_record (Some sample_name) (Mx (mk_mx 10 (Some sample_name))) (mk_abs 5000) 15 1]
    [] [] [0; 0] [1; 2].

Lemma sample_name_ok : name_ok Some Some sample_name [[97]; [98]].
Proof.
  constructor; try done. constructor; [ | constructor; [ | constructor ] ];
    (split; [ cbn; lia | constructor; [ | constructor ] ]; unfold is_u8, dot; lia).
Qed.

Lemma sample_packet_enc :
  packet_enc Some Some (mk_abs 0) sample_packet [[1; 97; 1; 98; 0; 0; 15; 0; 1]]
    [[1; 97; 1; 98; 0; 0; 15; 0; 1; 0; 0; 0; 5; 0; 7; 0; 10; 1; 97; 1; 98; 0]] [] [].
Proof.
  pose proof sample_name_ok as Hn.
  constructor; [ done | done | | | apply List.Forall2_nil | apply List.Forall2_nil ];
    (apply List.Forall2_cons; [ | apply List.Forall2_nil ]);
    (split; [ cbn; unfold is_u16; lia | split; [ cbn; unfold is_u16; lia | ] ]).
  - exists sample_name, [[97]; [98]]. split_and!; done.
  - exists sample_name, [[97]; [98]], [0; 10; 1; 97; 1; 98; 0]. split_and!; try done.
    apply (enc_mx _ _ sample_name 10 sample_name [[97]; [98]]); [ unfold is_u16; lia | done ].
Qed.

Lemma dns_pack_parse_roundtrip_witness :
  exists buf,
    GNUNET_DNSPARSER_pack Some (mk_abs 0) sample_packet (replicate 512 0) = Ret (GNUNET_OK, Some buf)
    /\ GNUNET_DNSPARSER_parse Some (mk_abs 7000) buf (length buf)
       = Ret (Some (mk_packet (queries sample_packet)
           [mk_record (Some sample_name) (Mx (mk_mx 10 (Some sample_name))) (mk_abs 12000) 15 1]
           [] [] [0; 0] [1; 2])).
Proof.
  eexists. apply (dns_pack_parse_roundtrip Some Some (mk_abs 0) (mk_abs 7000) sample_packet
    _ _ _ _ (replicate 512 0) sample_packet_enc).
  - vm_compute. lia.
  - vm_compute. done.
Defined.


(** Every record with a name, type and length that ends in a compression pointer *)
Definition sample_pointer : list Z := [0; 0; 0; 0; 0; 1; 0; 0; 0; 0; 0; 0; 192; 12; 0].


(** *** Memory errors *)

Lemma pointer_bits b : 192 <= b < 256 -> Z.land b 192 = 192.
Proof.
  intros Hb.
  assert (Hall : forallb (fun k => Z.land (192 + Z.of_nat k) 192 =? 192) (seq 0 64) = true)
    by (vm_compute; reflexivity).
  rewrite forallb_forall in Hall. specialize (Hall (Z.to_nat (b - 192))).
  rewrite Z.eqb_eq in Hall. replace b with (192 + Z.of_nat (Z.to_nat (b - 192))) by lia.
  apply Hall. apply in_seq. lia.
Qed.

(** A compression pointer whose first byte is the last one of the payload *)
Lemma name_loop_overread idna_to_unicode parse pre b fuel ret :
  192 <= b < 256 ->
  name_loop idna_to_unicode (pre ++ [b]) (S (length pre)) (Some parse) (S fuel) (length pre) ret
  = Undefined.
Proof.
  intros Hb. cbn [name_loop]. rewrite (proj2 (Nat.leb_gt _ _)) by lia.
  rewrite read_byte_app. cbn [mbind outcome_bind].
  rewrite (proj2 (Z.eqb_neq _ _)), (proj2 (Z.ltb_ge _ _)), pointer_bits by lia.
  change (192 =? 192) with true. cbv iota. rewrite (proj2 (Nat.ltb_ge _ _)) by lia.
  unfold read_byte. rewrite lookup_ge_None_2 by (rewrite length_app; cbn; lia). done.
Qed.

(** Two packets make the DNS parser misuse memory: one whose last byte
    starts a compression pointer, for which it reads the byte behind the
    payload, and one with an SRV record named _a._b, whose data it frees
    twice. *)
Theorem dns_parse_memory_errors :
  (forall idna_to_unicode now header b rest, length header = 4%nat -> is_bytes header ->
    192 <= b < 256 -> length rest = 6%nat ->
    GNUNET_DNSPARSER_parse idna_to_unicode now ((header ++ [0; 1] ++ rest) ++ [b]) 13 = Undefined)
  /\ GNUNET_DNSPARSER_parse Some (mk_abs 0)
       ([0; 0; 0; 0; 0; 0; 0; 1; 0; 0; 0; 0] ++ [2; 95; 97; 2; 95; 98; 0]
        ++ [0; 33; 0; 1; 0; 0; 0; 0; 0; 6] ++ [0; 0; 0; 0; 0; 0]) 35 = Undefined.
Proof.
  split; [ | vm_compute; reflexivity ]. intros idna now header b rest Hl Hb Hr Hrest.
  unfold GNUNET_DNSPARSER_parse. change (13 <? sizeof_dns_header)%nat with false. cbv iota.
  set (hd := header ++ [0; 1] ++ rest).
  assert (Hhd : length hd = 12%nat) by (unfold hd; rewrite !length_app, Hl, Hrest; done).
  rewrite (mem_read_at (hd ++ [b]) [] hd [b]) by done. cbn [mbind outcome_bind].
  replace (take 2 (drop 4 hd)) with [0; 1]
    by (unfold hd; rewrite drop_app_length' by done; done).
  change (Z.to_nat (be_decode [0; 1])) with 1%nat. cbn [parse_array].
  assert (Hn : parse_name idna (hd ++ [b]) 13 sizeof_dns_header = Undefined).
  { change (name_loop idna (hd ++ [b]) 13 (Some (parse_name_at idna (hd ++ [b]) 13 32)) 14 12 []
      = Undefined). set (parse := parse_name_at _ _ _ _). clearbody parse.
    rewrite <- Hhd. by apply name_loop_overread. }
  unfold parse_query. by rewrite Hn.
Qed.

(** When only the first k queries of a packet fit the buffer, pack writes
    exactly these and sets the truncation bit, but announces k - 1 of them in
    the header, and 65535 when none fits. *)
Theorem dns_pack_truncated_count (idna_to_unicode idna_to_ascii : str -> option str)
  (now : GNUNET_TIME_Absolute) (qs more : list GNUNET_DNSPARSER_Query) (q : GNUNET_DNSPARSER_Query)
  (wq : list (list Z)) (name : str) (ls : list str) (id flags tmp : list Z) :
  Forall2 (query_enc idna_to_unicode idna_to_ascii) qs wq ->
  q_name q = Some name -> name_ok idna_to_unicode idna_to_ascii name ls ->
  length id = 2%nat -> length flags = 2%nat -> Z.of_nat (length tmp) < 2 ^ 16 ->
  Z.of_nat (length qs + S (length more)) < 2 ^ 16 ->
  (12 + length (concat wq) <= length tmp < 12 + length (concat wq) + length (encode_labels ls) + 4)%nat ->
  GNUNET_DNSPARSER_pack idna_to_ascii now (mk_packet (qs ++ q :: more) [] [] [] flags id) tmp
  = Ret (GNUNET_NO, Some (id ++ set_truncated flags
      ++ encode_fields [2; 2; 2; 2]%nat [(Z.of_nat (length qs) - 1) mod 2 ^ 16; 0; 0; 0]
      ++ concat wq)).
Proof.
  intros Henc Hn Hok Hid Hfl Hmax Hcnt Hl. unfold GNUNET_DNSPARSER_pack.
  cbn [queries answers authority_records additional_records p_flags p_id length].
  rewrite length_app. cbn [length]. rewrite !(proj2 (Z.ltb_ge _ _)) by lia. cbn [orb].
  set (pre0 := take 12 tmp). set (rest0 := drop 12 tmp).
  assert (Htmp : tmp = pre0 ++ rest0) by (symmetry; apply take_drop).
  assert (Hpre0 : length pre0 = 12%nat) by (unfold pre0; rewrite length_take; lia).
  assert (Hrest0 : length rest0 = (length tmp - 12)%nat) by apply length_drop.
  assert (Hmx : Z.of_nat (length tmp) = Z.of_nat (length pre0 + length rest0)) by lia.
  set (max := Z.of_nat (length tmp)) in *. clearbody max. rewrite Htmp.
  change sizeof_dns_header with 12%nat. rewrite <- Hpre0.
  rewrite (add_array_full idna_to_unicode idna_to_ascii qs wq q more name ls max) by (done || lia).
  cbn [mbind outcome_bind add_array from_option]. rewrite bool_decide_eq_false_2 by done. cbn [andb negb].
  set (c := u16 _). assert (Hc : c = (Z.of_nat (length qs) - 1) mod 2 ^ 16).
  { unfold c, u16, u32. rewrite mod_mod_pow2 by lia. f_equal. }
  rewrite Hc. set (hd := id ++ _). assert (Hhd : length hd = 12%nat).
  { unfold hd. rewrite !length_app, Hid. destruct flags as [|x flags]; [ done | ]. cbn [set_truncated length] in *.
    rewrite (length_encode_fields [2; 2; 2; 2]%nat) by done. change (sum_list [2; 2; 2; 2]%nat) with 8%nat. lia. }
  rewrite mem_write_ok by (rewrite Hhd, !length_app; lia). cbn [mbind outcome_bind].
  rewrite take_0, Hhd. cbn [app]. rewrite drop_app_length' by done.
  rewrite mem_read_ok by (rewrite !length_app, Hhd; lia). cbn [mbind outcome_bind].
  rewrite drop_0. do 3 f_equal. rewrite app_assoc, take_app_length'; [ | rewrite length_app; lia ].
  unfold hd. by rewrite <- !app_assoc.
Qed.

(** The first query does not fit: the header announces 65535 queries, and there is none. *)
Lemma dns_pack_truncated_count_witness :
  GNUNET_DNSPARSER_pack Some (mk_abs 0)
    (mk_packet [mk_query (Some sample_name) 1 1] [] [] [] [0; 0] [1; 2]) (replicate 14 0)
  = Ret (GNUNET_NO, Some [1; 2; 2; 0; 255; 255; 0; 0; 0; 0; 0; 0]).
Proof.
  refine (dns_pack_truncated_count Some Some (mk_abs 0) [] [] (mk_query (Some sample_name) 1 1) []
    sample_name [[97]; [98]] [1; 2] [0; 0] (replicate 14 0) _ _ sample_name_ok _ _ _ _ _).
  - apply List.Forall2_nil.
  - reflexivity.
  - reflexivity.
  - reflexivity.
  - vm_compute. reflexivity.
  - vm_compute. reflexivity.
  - vm_compute. lia.
Defined.

(** A malformed host name at the end of an MX record is accepted as [NULL], because the
    offset, which has not moved, is where the record ends. *)
Lemma mx_without_host :
  parse_record Some ([1; 97; 0] ++ [0; 15; 0; 1; 0; 0; 0; 0; 0; 2] ++ [0; 10]) 15 (mk_abs 0) 0
  = Ret (GNUNET_OK, mk_record (Some [97]) (Mx (mk_mx 10 None)) (mk_abs 0) 15 1, 15%nat).
Proof. vm_compute. reflexivity. Qed.

(** Of the domain of an SRV record "_a._b.c.d" only "c" is kept. *)
Lemma srv_domain_cut :
  srv_tokens [95; 97; 46; 95; 98; 46; 99; 46; 100] = Ret (Some ([97], [98], [99])).
Proof. reflexivity. Qed.
