(* ===== verification/Namestore.v ===== *)
(** * Records of the name system: [src/namestore/namestore_common.c]

    Serialization of resource records for storage, signatures and the DHT, comparison
    of records, and expiration.  [rd[i].data_size] is the length of [data]; a record
    that was deserialized points into the source buffer, and its [data] are the bytes
    it points to.  The RSA signature of the crypto library is a parameter. *)

From Stdlib Require Import ZArith Lia.
From stdpp Require Import base list numbers.
From S2P Require Import Prelude Time Messages.
Local Open Scope Z_scope.

Record GNUNET_NAMESTORE_RecordData := mk_rd {
  data : list Z;
  rd_expiration_time : Z;
  record_type : Z;
  rd_flags : Z
}.

Definition data_size (rd : GNUNET_NAMESTORE_RecordData) : Z := Z.of_nat (length (data rd)).

Definition GNUNET_NAMESTORE_RF_RELATIVE_EXPIRATION : Z := 8.
Definition GNUNET_NAMESTORE_RF_RCMP_FLAGS : Z := GNUNET_NAMESTORE_RF_RELATIVE_EXPIRATION.
Definition GNUNET_SIGNATURE_PURPOSE_GNS_RECORD_SIGN : Z := 15.

(** [struct NetworkRecord] *)
Definition network_record : list nat := [8; 4; 4; 4]%nat.
Definition sizeof_network_record : nat := 20.

(** ** Operations *)

Fixpoint get_size_loop (ret : Z) (rd : list GNUNET_NAMESTORE_RecordData) : outcome Z :=
  match rd with
  | [] => Ret ret
  | r :: rd' =>
      _ ← gnunet_assert (ret <=? u64 (ret + data_size r));
      get_size_loop (u64 (ret + data_size r)) rd'
  end.

Definition GNUNET_NAMESTORE_records_get_size (rd : list GNUNET_NAMESTORE_RecordData) : outcome Z :=
  get_size_loop (u64 (Z.of_nat sizeof_network_record * Z.of_nat (length rd))) rd.

(** [dest] has [dest_size] bytes. *)
Fixpoint serialize_loop (rd : list GNUNET_NAMESTORE_RecordData) (dest : list Z) (off : nat)
  : outcome (Z * list Z) :=
  match rd with
  | [] => Ret (Z.of_nat off, dest)
  | r :: rd' =>
      let rec := encode_fields network_record
        [rd_expiration_time r; u32 (data_size r); record_type r; rd_flags r] in
      if (length dest <? off + sizeof_network_record)%nat then Ret (-1, dest)
      else
        dest ← mem_write dest off rec;
        let off := (off + sizeof_network_record)%nat in
        if (length dest <? off + length (data r))%nat then Ret (-1, dest)
        else
          dest ← mem_write dest off (data r);
          serialize_loop rd' dest (off + length (data r))
  end.

Definition GNUNET_NAMESTORE_records_serialize (rd : list GNUNET_NAMESTORE_RecordData)
  (dest : list Z) : outcome (Z * list Z) := serialize_loop rd dest 0.

Definition GNUNET_NAMESTORE_records_cmp (a b : GNUNET_NAMESTORE_RecordData) : Z :=
  if negb (record_type a =? record_type b) then GNUNET_NO
  else if negb (rd_expiration_time a =? rd_expiration_time b)
       && (negb (rd_expiration_time a =? 0) && negb (rd_expiration_time b =? 0)) then GNUNET_NO
  else if negb (Z.land (rd_flags a) GNUNET_NAMESTORE_RF_RCMP_FLAGS
                =? Z.land (rd_flags b) GNUNET_NAMESTORE_RF_RCMP_FLAGS) then GNUNET_NO
  else if negb (data_size a =? data_size b) then GNUNET_NO
  else if negb (bool_decide (data a = data b)) then GNUNET_NO
  else GNUNET_YES.

(** The fields of [dest[i]] that are set before the size of the data is checked *)
Record partial_record := mk_partial {
  pr_expiration_time : Z;
  pr_data_size : Z;
  pr_record_type : Z;
  pr_flags : Z
}.

(** [src] has [len] bytes. Of [dest], the records that were written, and the one that was
    left with its member [data] unset *)
Fixpoint deserialize_loop (src : list Z) (rd_count : nat) (off : nat)
  : outcome (Z * list GNUNET_NAMESTORE_RecordData * option partial_record) :=
  match rd_count with
  | O => Ret (GNUNET_OK, [], None)
  | S rd_count =>
      if (length src <? off + sizeof_network_record)%nat then Ret (GNUNET_SYSERR, [], None)
      else
        rec ← mem_read src off sizeof_network_record;
        let expiration := be_decode (take 8 rec) in
        let size := be_decode (take 4 (drop 8 rec)) in
        let type := be_decode (take 4 (drop 12 rec)) in
        let flags := be_decode (take 4 (drop 16 rec)) in
        let off := (off + sizeof_network_record)%nat in
        if Z.of_nat (length src) <? Z.of_nat off + size
        then Ret (GNUNET_SYSERR, [], Some (mk_partial expiration size type flags))
        else
          d ← mem_read src off (Z.to_nat size);
          '(ret, dest, partial) ← deserialize_loop src rd_count (off + Z.to_nat size);
          Ret (ret, mk_rd d expiration type flags :: dest, partial)
  end.

Definition GNUNET_NAMESTORE_records_deserialize (src : list Z) (rd_count : nat)
  : outcome (Z * list GNUNET_NAMESTORE_RecordData * option partial_record) :=
  deserialize_loop src rd_count 0.

(** [rd_ser] is the uninitialized array on the stack; [rsa_sign] signs the block and
    returns [None] when it fails. *)
Definition GNUNET_NAMESTORE_create_signature {Sig : Type} (rsa_sign : list Z -> option Sig)
  (expire : GNUNET_TIME_Absolute) (name : option (list Z))
  (rd : list GNUNET_NAMESTORE_RecordData) (stack : nat -> list Z) : outcome (option Sig) :=
  match name with
  | None => Ret None
  | Some name =>
      let name := name ++ [0] in
      rd_ser_len ← GNUNET_NAMESTORE_records_get_size rd;
      '(size, rd_ser) ← GNUNET_NAMESTORE_records_serialize rd (stack (Z.to_nat rd_ser_len));
      _ ← gnunet_assert (rd_ser_len =? size);
      let sig_len := u32 (8 + 8 + rd_ser_len + Z.of_nat (length name)) in
      let sig_purpose := replicate (Z.to_nat sig_len) 0 in
      sig_purpose ← mem_write sig_purpose 0
        (encode_fields [4; 4]%nat [sig_len; GNUNET_SIGNATURE_PURPOSE_GNS_RECORD_SIGN]);
      sig_purpose ← mem_write sig_purpose 8 (be_encode 8 (abs_value expire));
      sig_purpose ← mem_write sig_purpose 16 name;
      sig_purpose ← mem_write sig_purpose (16 + length name) rd_ser;
      Ret (rsa_sign sig_purpose)
  end.

Definition GNUNET_NAMESTORE_is_expired (now : GNUNET_TIME_Absolute)
  (rd : GNUNET_NAMESTORE_RecordData) : Z :=
  if negb (Z.land (rd_flags rd) GNUNET_NAMESTORE_RF_RELATIVE_EXPIRATION =? 0) then GNUNET_NO
  else if 0 =? rel_value (GNUNET_TIME_absolute_get_remaining now (mk_abs (rd_expiration_time rd)))
  then GNUNET_YES else GNUNET_NO.

(** ** The reference encoding *)

Definition encode_record (r : GNUNET_NAMESTORE_RecordData) : list Z :=
  encode_fields network_record
    [rd_expiration_time r; data_size r; record_type r; rd_flags r] ++ data r.

Definition encode_records (rd : list GNUNET_NAMESTORE_RecordData) : list Z :=
  concat (encode_record <$> rd).

Definition record_ok (r : GNUNET_NAMESTORE_RecordData) : Prop :=
  is_u64 (rd_expiration_time r) /\ is_u32 (record_type r) /\ is_u32 (rd_flags r)
  /\ data_size r < 2 ^ 32.

Lemma length_encode_record r : length (encode_record r) = (20 + length (data r))%nat.
Proof.
  unfold encode_record. rewrite length_app, (length_encode_fields network_record) by done. done.
Qed.

Lemma encode_records_cons r rd : encode_records (r :: rd) = encode_record r ++ encode_records rd.
Proof. done. Qed.

(** ** Lemmas *)

Lemma encode_records_count rd : 20 * Z.of_nat (length rd) <= Z.of_nat (length (encode_records rd)).
Proof.
  induction rd as [|r rd IH]; [ cbn; lia | ].
  rewrite encode_records_cons, length_app, length_encode_record. cbn [length]. lia.
Qed.

Lemma get_size_ok rd : forall ret,
  0 <= ret -> ret + Z.of_nat (length (encode_records rd)) - 20 * Z.of_nat (length rd) < 2 ^ 64 ->
  get_size_loop ret rd
  = Ret (ret + Z.of_nat (length (encode_records rd)) - 20 * Z.of_nat (length rd)).
Proof.
  induction rd as [|r rd IH]; intros ret Hret Hlt; cbn [get_size_loop].
  - cbn. f_equal. lia.
  - rewrite encode_records_cons, length_app, length_encode_record in *. cbn [length] in *.
    pose proof (encode_records_count rd) as Hge.
    unfold data_size. rewrite u64_small by (unfold is_u64; lia).
    rewrite gnunet_assert_true by (apply Z.leb_le; lia). cbn [mbind outcome_bind].
    rewrite IH by lia. f_equal. lia.
Qed.

Lemma serialize_ok rd : forall pre rest,
  Forall record_ok rd -> (length (encode_records rd) <= length rest)%nat ->
  serialize_loop rd (pre ++ rest) (length pre)
  = Ret (Z.of_nat (length pre + length (encode_records rd)),
         pre ++ encode_records rd ++ drop (length (encode_records rd)) rest).
Proof.
  induction rd as [|r rd IH]; intros pre rest Hok Hl; cbn [serialize_loop].
  - cbn. by rewrite drop_0, Nat.add_0_r.
  - apply Forall_cons_iff in Hok as [(_ & _ & _ & Hsz) Hok].
    rewrite encode_records_cons in *. rewrite length_app, length_encode_record in Hl.
    rewrite (u32_small (data_size r)) by (unfold is_u32, data_size in *; lia).
    set (f := encode_fields _ _).
    assert (Hf : length f = 20%nat) by apply (length_encode_fields network_record
      [rd_expiration_time r; data_size r; record_type r; rd_flags r] eq_refl).
    unfold sizeof_network_record.
    rewrite (proj2 (Nat.ltb_ge _ _)) by (rewrite length_app; lia).
    rewrite mem_write_app by lia. cbn [mbind outcome_bind]. rewrite Hf.
    rewrite (proj2 (Nat.ltb_ge _ _)) by (rewrite !length_app, length_drop; lia).
    rewrite (app_len_eq pre f _ Hf), app_assoc, mem_write_app by (rewrite length_drop; lia).
    cbn [mbind outcome_bind]. rewrite (app_len_eq (pre ++ f) (data r) _ eq_refl), app_assoc.
    rewrite IH by (done || rewrite !length_drop; lia).
    unfold encode_record. fold f. rewrite !drop_drop, <- !app_assoc, !length_app, Hf.
    by rewrite <- !Nat.add_assoc.
Qed.

Lemma deserialize_ok rd : forall pre post,
  Forall record_ok rd ->
  deserialize_loop (pre ++ encode_records rd ++ post) (length rd) (length pre)
  = Ret (GNUNET_OK, rd, None).
Proof.
  induction rd as [|r rd IH]; intros pre post Hok; cbn [deserialize_loop length]; [ done | ].
  apply Forall_cons_iff in Hok as [(He & Ht & Hfl & Hsz) Hok].
  rewrite encode_records_cons. unfold encode_record.
  set (f := encode_fields _ _).
  assert (Hf : length f = 20%nat) by apply (length_encode_fields network_record
    [rd_expiration_time r; data_size r; record_type r; rd_flags r] eq_refl).
  assert (Hdec : decode_fields network_record f
    = [rd_expiration_time r; data_size r; record_type r; rd_flags r])
    by (apply decode_fields_at; unfold network_record, data_size in *; fits).
  clearbody f. set (mem := pre ++ _). unfold sizeof_network_record.
  rewrite (proj2 (Nat.ltb_ge _ _)) by (unfold mem; rewrite !length_app; lia).
  rewrite (mem_read_at mem pre f (data r ++ encode_records rd ++ post))
    by (unfold mem; rewrite <- ?app_assoc; done).
  cbn [mbind outcome_bind]. cbn [network_record decode_fields] in Hdec. rewrite !drop_drop in Hdec.
  cbn [Nat.add] in Hdec. injection Hdec as -> -> -> ->. unfold data_size in *.
  rewrite (proj2 (Z.ltb_ge _ _)) by (unfold mem; rewrite !length_app; lia). rewrite Nat2Z.id.
  rewrite (mem_read_at mem (pre ++ f) (data r) (encode_records rd ++ post))
    by (unfold mem; rewrite <- ?app_assoc, ?length_app, ?Hf; done).
  cbn [mbind outcome_bind].
  replace (length pre + 20 + length (data r))%nat with (length (pre ++ f ++ data r))
    by (rewrite !length_app; lia).
  replace mem with ((pre ++ f ++ data r) ++ encode_records rd ++ post)
    by (unfold mem; by rewrite <- !app_assoc).
  rewrite IH by done. by destruct r.
Qed.

Definition encode_partial (p : partial_record) : list Z :=
  encode_fields network_record [pr_expiration_time p; pr_data_size p; pr_record_type p; pr_flags p].

Definition partial_ok (p : partial_record) : Prop :=
  is_u64 (pr_expiration_time p) /\ is_u32 (pr_data_size p) /\ is_u32 (pr_record_type p)
  /\ is_u32 (pr_flags p).

(** What the bytes behind the last complete record are when no further one can be read: too
    few for the fixed fields, or for the announced data *)
Definition cut_off (rest : list Z) (partial : option partial_record) : Prop :=
  match partial with
  | None => (length rest < 20)%nat
  | Some p => exists tail, rest = encode_partial p ++ tail /\ partial_ok p
      /\ Z.of_nat (length tail) < pr_data_size p
  end.

(** The fixed fields of a record and what is decoded from them *)
Lemma decode_header rec :
  is_bytes rec -> length rec = 20%nat ->
  let p := mk_partial (be_decode (take 8 rec)) (be_decode (take 4 (drop 8 rec)))
             (be_decode (take 4 (drop 12 rec))) (be_decode (take 4 (drop 16 rec))) in
  encode_partial p = rec /\ partial_ok p.
Proof.
  intros Hb Hl p.
  assert (Hfield : forall w k, (k + w <= 20)%nat ->
    be_encode w (be_decode (take w (drop k rec))) = take w (drop k rec)
    /\ 0 <= be_decode (take w (drop k rec)) < 2 ^ (8 * Z.of_nat w)).
  { intros w k Hwk. assert (Hw : length (take w (drop k rec)) = w) by (rewrite length_take, length_drop; lia).
    split; [ rewrite <- Hw at 1; apply be_encode_decode; auto with gnunet | ].
    rewrite <- Hw at 3. apply be_decode_range. auto with gnunet. }
  destruct (Hfield 8%nat 0%nat ltac:(lia)) as [E1 H1]. destruct (Hfield 4%nat 8%nat ltac:(lia)) as [E2 H2].
  destruct (Hfield 4%nat 12%nat ltac:(lia)) as [E3 H3]. destruct (Hfield 4%nat 16%nat ltac:(lia)) as [E4 H4].
  rewrite drop_0 in E1, H1. split; [ | exact (conj H1 (conj H2 (conj H3 H4))) ].
  unfold encode_partial, p, network_record. cbn [encode_fields pr_expiration_time pr_data_size pr_record_type pr_flags].
  rewrite E1, E2, E3, E4, app_nil_r.
  rewrite (take_ge (drop 16 rec)) by (rewrite length_drop; lia).
  change 16%nat with (12 + 4)%nat. rewrite <- (drop_drop rec 4 12), take_drop.
  change 12%nat with (8 + 4)%nat. by rewrite <- (drop_drop rec 4 8), take_drop, take_drop.
Qed.

Lemma deserialize_safe src count off :
  is_bytes src -> (off <= length src)%nat ->
  exists ret rd partial rest, deserialize_loop src count off = Ret (ret, rd, partial)
    /\ drop off src = encode_records rd ++ rest /\ Forall record_ok rd
    /\ (ret = GNUNET_OK /\ length rd = count /\ partial = None
        \/ ret = GNUNET_SYSERR /\ (length rd < count)%nat /\ cut_off rest partial).
Proof.
  intros Hb. revert off. induction count as [|count IH]; intros off Hoff; cbn [deserialize_loop].
  - exists GNUNET_OK, [], None, (drop off src). split_and!; auto.
  - unfold sizeof_network_record.
    destruct (Nat.ltb_spec (length src) (off + 20)) as [Hlt|Hge].
    { exists GNUNET_SYSERR, [], None, (drop off src). split_and!; auto. right.
      split_and!; [ done | cbn; lia | cbn [cut_off]; rewrite length_drop; lia ]. }
    rewrite mem_read_ok by lia. cbn [mbind outcome_bind].
    assert (Hsplit : drop off src = take 20 (drop off src) ++ drop (off + 20) src)
      by (rewrite <- drop_drop; by rewrite take_drop).
    set (rec := take 20 (drop off src)) in *.
    assert (Hrec : is_bytes rec) by (unfold rec; auto with gnunet).
    assert (Hlen : length rec = 20%nat) by (unfold rec; rewrite length_take, length_drop; lia).
    destruct (decode_header rec Hrec Hlen) as [Henc Hp]. cbv zeta in Henc, Hp.
    set (size := be_decode (take 4 (drop 8 rec))) in *.
    destruct (Z.ltb_spec (Z.of_nat (length src)) (Z.of_nat (off + 20) + size)) as [Hlt|Hge'].
    { eexists GNUNET_SYSERR, [], _, (drop off src). split_and!; [ done | done | constructor | ]. right.
      split_and!; [ done | cbn; lia | ]. exists (drop (off + 20) src).
      split_and!; [ by rewrite Henc | done | cbn [pr_data_size]; rewrite length_drop; lia ]. }
    destruct Hp as (He & Hs & Ht & Hf). cbn [pr_expiration_time pr_data_size pr_record_type pr_flags] in *.
    unfold is_u32 in Hs. rewrite mem_read_ok by lia. cbn [mbind outcome_bind].
    destruct (IH (off + 20 + Z.to_nat size)%nat) as (ret & rd & partial & rest & -> & Hdrop & Hok & Hcase); [ lia | ].
    cbn [mbind outcome_bind]. eexists ret, (_ :: rd), partial, rest. split; [ reflexivity | ].
    assert (Hd : length (take (Z.to_nat size) (drop (off + 20) src)) = Z.to_nat size)
      by (rewrite length_take, length_drop; lia).
    split_and!.
    + rewrite encode_records_cons. unfold encode_record, data_size. cbn [data rd_expiration_time record_type rd_flags].
      rewrite Hd, Z2Nat.id by lia. unfold encode_partial in Henc. cbn [pr_expiration_time pr_data_size pr_record_type pr_flags] in Henc.
      rewrite Henc, <- !app_assoc, <- Hdrop, Hsplit. f_equal.
      by rewrite <- (drop_drop src (Z.to_nat size) (off + 20)), take_drop.
    + constructor; [ | done ]. unfold record_ok, data_size. cbn [data rd_expiration_time record_type rd_flags].
      rewrite Hd. split_and!; [ done | done | done | lia ].
    + cbn [length]. destruct Hcase as [(-> & <- & ->)|(-> & Hl & Hc)]; [ by left | right ].
      split_and!; [ done | lia | done ].
Qed.

(** ** Properties *)

Lemma records_get_size_ok rd :
  Z.of_nat (length (encode_records rd)) < 2 ^ 63 ->
  GNUNET_NAMESTORE_records_get_size rd = Ret (Z.of_nat (length (encode_records rd))).
Proof.
  intros Hlt. pose proof (encode_records_count rd) as Hge.
  unfold GNUNET_NAMESTORE_records_get_size. change (Z.of_nat sizeof_network_record) with 20.
  rewrite u64_small by (unfold is_u64; lia). rewrite get_size_ok by lia. f_equal. lia.
Qed.

Lemma records_serialize_ok rd dest :
  Forall record_ok rd -> length dest = length (encode_records rd) ->
  GNUNET_NAMESTORE_records_serialize rd dest = Ret (Z.of_nat (length dest), encode_records rd).
Proof.
  intros Hok Hl. pose proof (serialize_ok rd [] dest Hok ltac:(lia)) as Hs.
  cbn [app length Nat.add] in Hs. unfold GNUNET_NAMESTORE_records_serialize. rewrite Hs.
  by rewrite drop_ge, app_nil_r, Hl by lia.
Qed.

(** C38: records_get_size is the exact size of the serialization of any list
    of records (with data of less than 2^32 bytes), records_serialize fills a
    buffer of that size with it, and records_deserialize returns the records. *)
Theorem namestore_records_roundtrip (rd : list GNUNET_NAMESTORE_RecordData) (dest : list Z) :
  Forall record_ok rd -> Z.of_nat (length (encode_records rd)) < 2 ^ 63 ->
  length dest = length (encode_records rd) ->
  GNUNET_NAMESTORE_records_get_size rd = Ret (Z.of_nat (length dest))
  /\ GNUNET_NAMESTORE_records_serialize rd dest = Ret (Z.of_nat (length dest), encode_records rd)
  /\ GNUNET_NAMESTORE_records_deserialize (encode_records rd) (length rd) = Ret (GNUNET_OK, rd, None).
Proof.
  intros Hok Hlt Hl. split_and!.
  - rewrite Hl. by apply records_get_size_ok.
  - by apply records_serialize_ok.
  - unfold GNUNET_NAMESTORE_records_deserialize. rewrite <- (app_nil_r (encode_records rd)).
    by apply (deserialize_ok rd []).
Qed.

Definition sample_records : list GNUNET_NAMESTORE_RecordData :=
  [mk_rd [127; 0; 0; 1] 1000 1 0; mk_rd [] 0 65536 8].

Lemma namestore_records_roundtrip_witness :
  GNUNET_NAMESTORE_records_deserialize (encode_records sample_records) 2
  = Ret (GNUNET_OK, sample_records, None).
Proof.
  apply (namestore_records_roundtrip sample_records (replicate 44 0)).
  - unfold sample_records, record_ok, is_u64, is_u32, data_size.
    constructor; [ cbn; lia | constructor; [ cbn; lia | constructor ] ].
  - vm_compute. reflexivity.
  - vm_compute. reflexivity.
Defined.

(** C39: Whatever the bytes and the announced number of records,
    records_deserialize reads only the source buffer; the records it has
    written completely are well typed and their encoding is exactly the
    beginning of the source. It returns GNUNET_OK if there are as many as
    announced, and otherwise GNUNET_SYSERR because what follows them is cut
    off: it is too short for the fixed fields of a record, or the fixed fields
    announce more data than there are, in which case they have been written to
    the next element of the result, whose pointer to the data is left unset. *)
Theorem namestore_deserialize_safe (src : list Z) (rd_count : nat) :
  is_bytes src ->
  exists ret rd partial rest, GNUNET_NAMESTORE_records_deserialize src rd_count = Ret (ret, rd, partial)
    /\ src = encode_records rd ++ rest /\ Forall record_ok rd
    /\ (ret = GNUNET_OK /\ length rd = rd_count /\ partial = None
        \/ ret = GNUNET_SYSERR /\ (length rd < rd_count)%nat /\ cut_off rest partial).
Proof.
  intros Hb. destruct (deserialize_safe src rd_count 0 Hb ltac:(lia)) as (ret & rd & partial & rest & H1 & H2 & H3).
  rewrite drop_0 in H2. by exists ret, rd, partial, rest.
Qed.

(** One complete record, and one of which the data are missing *)
Definition truncated_records : list Z := encode_records sample_records ++ [0; 0; 0; 0; 0; 0; 0; 9]
  ++ [0; 0; 0; 5] ++ [0; 0; 0; 1] ++ [0; 0; 0; 0] ++ [7].

Lemma namestore_deserialize_safe_witness :
  exists rest, GNUNET_NAMESTORE_records_deserialize truncated_records 3
    = Ret (GNUNET_SYSERR, sample_records, Some (mk_partial 9 5 1 0))
  /\ truncated_records = encode_records sample_records ++ rest
  /\ cut_off rest (Some (mk_partial 9 5 1 0)).
Proof.
  destruct (namestore_deserialize_safe truncated_records 3) as (ret & rd & partial & rest & H & Hs & _ & Hc).
  - vm_compute. repeat constructor; discriminate.
  - assert (Hr : GNUNET_NAMESTORE_records_deserialize truncated_records 3
      = Ret (GNUNET_SYSERR, sample_records, Some (mk_partial 9 5 1 0))) by (vm_compute; reflexivity).
    rewrite Hr in H. injection H as <- <- <-. exists rest. split; [ exact Hr | ]. split; [ exact Hs | ].
    destruct Hc as [(Hx & _)|(_ & _ & Hc)]; [ discriminate Hx | exact Hc ].
Defined.

(** The block that is signed: the purpose, the expiration, the name with its NUL and the
    records *)
Lemma create_signature_block {Sig : Type} (rsa_sign : list Z -> option Sig) expire name rd stack :
  Forall record_ok rd -> (forall n, length (stack n) = n) ->
  let n := (16 + length name + 1 + length (encode_records rd))%nat in
  Z.of_nat n < 2 ^ 32 ->
  GNUNET_NAMESTORE_create_signature rsa_sign expire (Some name) rd stack
  = Ret (rsa_sign (encode_fields [4; 4]%nat
      [Z.of_nat n; GNUNET_SIGNATURE_PURPOSE_GNS_RECORD_SIGN]
      ++ be_encode 8 (abs_value expire) ++ (name ++ [0]) ++ encode_records rd)).
Proof.
  intros Hok Hst n Hn. unfold GNUNET_NAMESTORE_create_signature.
  rewrite records_get_size_ok by lia. cbn [mbind outcome_bind]. rewrite Nat2Z.id.
  rewrite records_serialize_ok by (done || apply Hst). cbn [mbind outcome_bind].
  rewrite Hst, gnunet_assert_true by apply Z.eqb_refl. cbn [mbind outcome_bind].
  set (nm := name ++ [0]). assert (Hnm : length nm = (length name + 1)%nat) by apply length_app.
  rewrite Hnm. replace (8 + 8 + Z.of_nat (length (encode_records rd)) + Z.of_nat (length name + 1))
    with (Z.of_nat n) by lia.
  rewrite u32_small by (unfold is_u32; lia). rewrite Nat2Z.id.
  set (f := encode_fields _ _). assert (Hf : length f = 8%nat) by done.
  set (e := be_encode 8 _). assert (He : length e = 8%nat) by apply length_be_encode. clearbody f e.
  rewrite (mem_write_at _ [] (replicate n 0)) by (done || rewrite length_replicate; lia).
  cbn [mbind outcome_bind app]. rewrite drop_replicate, Hf.
  rewrite (mem_write_at _ f (replicate (n - 8) 0)) by (done || rewrite length_replicate; lia).
  cbn [mbind outcome_bind]. rewrite drop_replicate, He, app_assoc.
  rewrite (mem_write_at _ (f ++ e) (replicate (n - 8 - 8) 0))
    by (done || rewrite ?length_app, ?length_replicate; lia).
  cbn [mbind outcome_bind]. rewrite drop_replicate, app_assoc.
  rewrite (mem_write_at _ ((f ++ e) ++ nm) (replicate (n - 8 - 8 - length nm) 0))
    by (done || rewrite ?length_app, ?length_replicate; lia).
  cbn [mbind outcome_bind].
  rewrite drop_replicate. replace (n - 8 - 8 - length nm - length (encode_records rd))%nat with 0%nat by lia.
  cbn [replicate]. rewrite app_nil_r, <- !app_assoc. done.
Qed.
