(* ===== verification/MetaData.v ===== *)
(** * Meta data: [src/util/container_meta_data.c]

    Items of meta data, kept in a doubly linked list that is sorted by size (largest
    first), and their serialization with a cache of the serialized form.  An item's
    [data_size] is the length of its [item_data]; the cache [sbuf] is the list of its
    first [sbuf_size] bytes, and the list of items is the list from [items_head] to
    [items_tail].  C strings are lists without their NUL.

    The enumerations of libextractor ([extractor.h]) are the type class [Extractor], and
    the functions of zlib the type class [Zlib], each with the documented facts the code
    relies on.  [GNUNET_malloc] aborts above 40 MB, which matters here because
    the code compares sizes with that limit. *)

From Stdlib Require Import ZArith Lia.
From stdpp Require Import base list numbers.
From S2P Require Import Prelude Messages.
Local Open Scope Z_scope.

Definition str : Type := list Z.

(** ** Code outside of the repository *)

Class Extractor := {
  EXTRACTOR_METAFORMAT_UTF8 : Z;
  EXTRACTOR_METAFORMAT_BINARY : Z;
  EXTRACTOR_METAFORMAT_C_STRING : Z;
  EXTRACTOR_METATYPE_FILENAME : Z;
  EXTRACTOR_METATYPE_GNUNET_ORIGINAL_FILENAME : Z;
  EXTRACTOR_METATYPE_PUBLICATION_DATE : Z;
  EXTRACTOR_METATYPE_THUMBNAIL : Z;
  formats_differ : EXTRACTOR_METAFORMAT_BINARY <> EXTRACTOR_METAFORMAT_UTF8
    /\ EXTRACTOR_METAFORMAT_BINARY <> EXTRACTOR_METAFORMAT_C_STRING
    /\ EXTRACTOR_METAFORMAT_UTF8 <> EXTRACTOR_METAFORMAT_C_STRING;
  formats_fit : is_u32 EXTRACTOR_METAFORMAT_UTF8 /\ is_u32 EXTRACTOR_METAFORMAT_BINARY
    /\ is_u32 EXTRACTOR_METAFORMAT_C_STRING
}.

(** [compress2] (level 9) and [uncompress] with the capacity of the output buffer;
    [None] is any result other than [Z_OK]. *)
Class Zlib := {
  compress2 : list Z -> Z -> option (list Z);
  uncompress : list Z -> Z -> option (list Z);
  compress2_fits : forall d cap c, compress2 d cap = Some c -> Z.of_nat (length c) <= cap;
  uncompress_fits : forall c cap d, uncompress c cap = Some d -> Z.of_nat (length d) <= cap;
  compress2_uncompress : forall d cap c,
    compress2 d cap = Some c -> uncompress c (Z.of_nat (length d)) = Some d
}.

(** ** Allocation *)

Definition GNUNET_MAX_MALLOC_CHECKED : Z := 1024 * 1024 * 40.

Definition GNUNET_malloc (size : Z) : outcome (list Z) :=
  _ ← gnunet_assert (size <=? GNUNET_MAX_MALLOC_CHECKED);
  Ret (replicate (Z.to_nat size) 0).

(** The characters of the string that starts a buffer, up to its NUL *)
Fixpoint c_str (l : list Z) : outcome str :=
  match l with
  | [] => Undefined
  | b :: l' => if b =? 0 then Ret [] else s ← c_str l'; Ret (b :: s)
  end.

Definition GNUNET_strdup (s : str) : outcome str :=
  _ ← GNUNET_malloc (Z.of_nat (length s) + 1);
  Ret s.

(** [(NULL == s) ? NULL : GNUNET_strdup (s)] *)
Definition strdup_non_null (s : option str) : outcome (option str) :=
  match s with
  | None => Ret None
  | Some s => s ← GNUNET_strdup s; Ret (Some s)
  end.

(** ** Data *)

Record MetaItem := mk_item {
  plugin_name : option str;
  mime_type : option str;
  item_data : list Z;
  item_type : Z;
  item_format : Z
}.

Definition data_size (mi : MetaItem) : Z := Z.of_nat (length (item_data mi)).

Record GNUNET_CONTAINER_MetaData := mk_md {
  md_items : list MetaItem;
  sbuf : option (list Z);
  item_count : Z
}.

Definition GNUNET_CONTAINER_meta_data_create : GNUNET_CONTAINER_MetaData := mk_md [] None 0.

Definition invalidate_sbuf (md : GNUNET_CONTAINER_MetaData) : GNUNET_CONTAINER_MetaData :=
  mk_md (md_items md) None (item_count md).

Definition set_items (md : GNUNET_CONTAINER_MetaData) (l : list MetaItem)
  : GNUNET_CONTAINER_MetaData := mk_md l (sbuf md) (item_count md).

Definition set_count (md : GNUNET_CONTAINER_MetaData) (n : Z)
  : GNUNET_CONTAINER_MetaData := mk_md (md_items md) (sbuf md) n.

Definition GNUNET_CONTAINER_meta_data_clear (md : GNUNET_CONTAINER_MetaData)
  : GNUNET_CONTAINER_MetaData := GNUNET_CONTAINER_meta_data_create.

Section Operations.
Context `{Extractor}.

(** ** Comparison

    [same] is whether the two pointers are equal. *)

Definition same_item (i j : MetaItem) : bool :=
  (item_type i =? item_type j) && (item_format i =? item_format j)
  && (data_size i =? data_size j) && bool_decide (item_data i = item_data j).

Fixpoint find_equal (i : MetaItem) (l : list MetaItem) : bool :=
  match l with
  | [] => false
  | j :: l' =>
      if same_item i j then true
      else if data_size j <? data_size i then false
      else find_equal i l'
  end.

Definition GNUNET_CONTAINER_meta_data_test_equal (same : bool)
  (md1 md2 : GNUNET_CONTAINER_MetaData) : Z :=
  if same then GNUNET_YES
  else if negb (item_count md1 =? item_count md2) then GNUNET_NO
  else if forallb (fun i => find_equal i (md_items md2)) (md_items md1) then GNUNET_YES
  else GNUNET_NO.

(** ** Insertion *)

(** The first loop: the position of the first item that is smaller or equal to the new
    one, with the item when it is the same *)
Fixpoint insert_scan (type : Z) (data : list Z) (l : list MetaItem) : nat * option MetaItem :=
  match l with
  | [] => (0%nat, None)
  | pos :: l' =>
      if data_size pos <? Z.of_nat (length data) then (0%nat, None)
      else if (item_type pos =? type) && (data_size pos =? Z.of_nat (length data))
              && bool_decide (item_data pos = data) then (0%nat, Some pos)
      else let '(n, r) := insert_scan type data l' in (S n, r)
  end.

(** The loop over a file name: it reads the character before it checks the bound. *)
Fixpoint posix_separators (data : list Z) : outcome (list Z) :=
  match data with
  | [] => Undefined
  | c :: data' =>
      if c =? 0 then Ret data
      else data' ← posix_separators data'; Ret ((if c =? 92 then 47 else c) :: data')
  end.

Definition is_filename (type : Z) : bool :=
  (EXTRACTOR_METATYPE_FILENAME =? type) || (EXTRACTOR_METATYPE_GNUNET_ORIGINAL_FILENAME =? type).

Definition GNUNET_CONTAINER_meta_data_insert (md : GNUNET_CONTAINER_MetaData)
  (plugin : option str) (type format : Z) (data_mime_type : option str) (data : list Z)
  : outcome (Z * GNUNET_CONTAINER_MetaData) :=
  match insert_scan type data (md_items md) with
  | (n, Some pos) =>
      '(pos, md) ←
        match mime_type pos, data_mime_type with
        | None, Some m =>
            m ← GNUNET_strdup m;
            let pos := mk_item (plugin_name pos) (Some m) (item_data pos) (item_type pos)
                         (item_format pos) in
            Ret (pos, invalidate_sbuf (set_items md (<[n := pos]> (md_items md))))
        | _, _ => Ret (pos, md)
        end;
      if (EXTRACTOR_METAFORMAT_C_STRING =? item_format pos)
         && (EXTRACTOR_METAFORMAT_UTF8 =? format)
      then
        let pos := mk_item (plugin_name pos) (mime_type pos) (item_data pos) (item_type pos)
                     EXTRACTOR_METAFORMAT_UTF8 in
        Ret (GNUNET_SYSERR, invalidate_sbuf (set_items md (<[n := pos]> (md_items md))))
      else Ret (GNUNET_SYSERR, md)
  | (n, None) =>
      let md := set_count md (u32 (item_count md + 1)) in
      m ← strdup_non_null data_mime_type;
      p ← strdup_non_null plugin;
      _ ← GNUNET_malloc (Z.of_nat (length data));
      data ← if is_filename type then posix_separators data else Ret data;
      let mi := mk_item p m data type format in
      Ret (GNUNET_OK, invalidate_sbuf
             (set_items md (take n (md_items md) ++ mi :: drop n (md_items md))))
  end.

(** ** Iteration and merging

    The iterator gets the fields of an item. *)

Fixpoint iterate_items {S : Type} (iter : S -> MetaItem -> outcome (S * Z)) (s : S)
  (l : list MetaItem) : outcome S :=
  match l with
  | [] => Ret s
  | pos :: l' =>
      '(s, r) ← iter s pos;
      if negb (r =? 0) then Ret s else iterate_items iter s l'
  end.

Definition GNUNET_CONTAINER_meta_data_iterate {S : Type} (md : option GNUNET_CONTAINER_MetaData)
  (iter : option (S -> MetaItem -> outcome (S * Z))) (s : S) : outcome (S * Z) :=
  match md, iter with
  | None, _ => Ret (s, 0)
  | Some md, None => Ret (s, s32 (item_count md))
  | Some md, Some iter => s ← iterate_items iter s (md_items md); Ret (s, s32 (item_count md))
  end.

Definition merge_helper (md : GNUNET_CONTAINER_MetaData) (i : MetaItem)
  : outcome (GNUNET_CONTAINER_MetaData * Z) :=
  '(_, md) ← GNUNET_CONTAINER_meta_data_insert md (plugin_name i) (item_type i) (item_format i)
               (mime_type i) (item_data i);
  Ret (md, 0).

Definition GNUNET_CONTAINER_meta_data_merge (md input : GNUNET_CONTAINER_MetaData)
  : outcome GNUNET_CONTAINER_MetaData :=
  '(md, _) ← GNUNET_CONTAINER_meta_data_iterate (Some input) (Some merge_helper) md;
  Ret md.

(** ** Removal *)

(** The position of the item to remove *)
Fixpoint delete_scan (type : Z) (data : option (list Z)) (size : Z) (l : list MetaItem)
  : option nat :=
  match l with
  | [] => None
  | pos :: l' =>
      if data_size pos <? size then None
      else if (item_type pos =? type)
              && match data with
                 | None => true
                 | Some data => (data_size pos =? size)
                     && bool_decide (take (Z.to_nat size) (item_data pos) = take (Z.to_nat size) data)
                 end
      then Some 0%nat
      else S <$> delete_scan type data size l'
  end.

Definition GNUNET_CONTAINER_meta_data_delete (md : GNUNET_CONTAINER_MetaData) (type : Z)
  (data : option (list Z)) (size : Z) : Z * GNUNET_CONTAINER_MetaData :=
  match delete_scan type data size (md_items md) with
  | Some n => (GNUNET_OK, invalidate_sbuf (set_count (set_items md (delete n (md_items md)))
                                             (u32 (item_count md - 1))))
  | None => (GNUNET_SYSERR, md)
  end.

(** [dat] is the text of the current time. *)
Definition GNUNET_CONTAINER_meta_data_add_publication_date (dat : str)
  (md : GNUNET_CONTAINER_MetaData) : outcome GNUNET_CONTAINER_MetaData :=
  let '(_, md) := GNUNET_CONTAINER_meta_data_delete md EXTRACTOR_METATYPE_PUBLICATION_DATE None 0 in
  '(_, md) ← GNUNET_CONTAINER_meta_data_insert md
    (Some [60; 103; 110; 117; 110; 101; 116; 62])                  (* <gnunet> *)
    EXTRACTOR_METATYPE_PUBLICATION_DATE EXTRACTOR_METAFORMAT_UTF8
    (Some [116; 101; 120; 116; 47; 112; 108; 97; 105; 110])        (* text/plain *)
    (dat ++ [0]);
  Ret md.

(** ** Queries *)

Definition is_text (format : Z) : bool :=
  (format =? EXTRACTOR_METAFORMAT_UTF8) || (format =? EXTRACTOR_METAFORMAT_C_STRING).

Fixpoint get_by_type_loop (type : Z) (l : list MetaItem) : outcome (option str) :=
  match l with
  | [] => Ret None
  | pos :: l' =>
      if (type =? item_type pos) && is_text (item_format pos) then
        s ← c_str (item_data pos);
        s ← GNUNET_strdup s;
        Ret (Some s)
      else get_by_type_loop type l'
  end.

Definition GNUNET_CONTAINER_meta_data_get_by_type (md : option GNUNET_CONTAINER_MetaData)
  (type : Z) : outcome (option str) :=
  match md with
  | None => Ret None
  | Some md => get_by_type_loop type (md_items md)
  end.

(** [types] are the arguments before the -1. *)
Fixpoint GNUNET_CONTAINER_meta_data_get_first_by_types (md : option GNUNET_CONTAINER_MetaData)
  (types : list Z) : outcome (option str) :=
  match md, types with
  | None, _ => Ret None
  | _, [] => Ret None
  | _, type :: types =>
      ret ← GNUNET_CONTAINER_meta_data_get_by_type md type;
      match ret with
      | Some s => Ret (Some s)
      | None => GNUNET_CONTAINER_meta_data_get_first_by_types md types
      end
  end.

Definition ascii_lower (c : Z) : Z := if (65 <=? c) && (c <=? 90) then c + 32 else c.

(** [0 == strncasecmp ("image/", mime_type, strlen ("image/"))] *)
Definition is_image (m : str) : bool :=
  bool_decide (ascii_lower <$> take 6 m = [105; 109; 97; 103; 101; 47]).

Definition thumbnail_candidate (pos : MetaItem) : bool :=
  match mime_type pos with
  | Some m => is_image m && (EXTRACTOR_METAFORMAT_BINARY =? item_format pos)
  | None => false
  end.

Fixpoint thumbnail_loop (found : option MetaItem) (l : list MetaItem) : option MetaItem :=
  match l with
  | [] => found
  | pos :: l' =>
      let found :=
        if thumbnail_candidate pos then
          match found with
          | None => Some pos
          | Some m =>
              if negb (item_type m =? EXTRACTOR_METATYPE_THUMBNAIL)
                 && (item_type pos =? EXTRACTOR_METATYPE_THUMBNAIL)
              then Some pos else found
          end
        else found in
      thumbnail_loop found l'
  end.

(** The size, and the bytes that were stored in [*thumb] *)
Definition GNUNET_CONTAINER_meta_data_get_thumbnail (md : option GNUNET_CONTAINER_MetaData)
  : outcome (Z * option (list Z)) :=
  match md with
  | None => Ret (0, None)
  | Some md =>
      match thumbnail_loop None (md_items md) with
      | None => Ret (0, None)
      | Some m =>
          if data_size m =? 0 then Ret (0, None)
          else
            _ ← GNUNET_malloc (data_size m);
            Ret (data_size m, Some (item_data m))
      end
  end.

(** The items of [l] are inserted one after the other. *)
Fixpoint insert_all (md : GNUNET_CONTAINER_MetaData) (l : list MetaItem)
  : outcome GNUNET_CONTAINER_MetaData :=
  match l with
  | [] => Ret md
  | pos :: l' =>
      '(_, md) ← GNUNET_CONTAINER_meta_data_insert md (plugin_name pos) (item_type pos)
                   (item_format pos) (mime_type pos) (item_data pos);
      insert_all md l'
  end.

(** From [items_tail] to [items_head] *)
Definition GNUNET_CONTAINER_meta_data_duplicate (md : option GNUNET_CONTAINER_MetaData)
  : outcome (option GNUNET_CONTAINER_MetaData) :=
  match md with
  | None => Ret None
  | Some md =>
      ret ← insert_all GNUNET_CONTAINER_meta_data_create (rev (md_items md));
      Ret (Some ret)
  end.
End Operations.

(** ** Serialization *)

Definition HEADER_COMPRESSED : Z := 0x80000000.
Definition HEADER_VERSION_MASK : Z := 0x7FFFFFFF.

(** [struct MetaDataHeader]: version, entries, size *)
Definition meta_data_header (version entries size : Z) : list Z :=
  encode_fields [4; 4; 4]%nat [version; entries; size].
Definition sizeof_md_header : nat := 12.

(** [struct MetaDataEntry]: type, format, data_size, plugin_name_len, mime_type_len *)
Definition meta_data_entry (type format dlen plen mlen : Z) : list Z :=
  encode_fields [4; 4; 4; 4; 4]%nat [type; format; dlen; plen; mlen].
Definition sizeof_entry : nat := 20.

(** The length of a string with its NUL, 0 for [NULL], and its bytes *)
Definition string_len (s : option str) : Z :=
  match s with
  | None => 0
  | Some s => Z.of_nat (length s) + 1
  end.
Definition string_bytes (s : option str) : list Z :=
  match s with
  | None => []
  | Some s => s ++ [0]
  end.

Definition GNUNET_CONTAINER_META_DATA_SERIALIZE_FULL : Z := 0.
Definition GNUNET_CONTAINER_META_DATA_SERIALIZE_PART : Z := 1.
Definition GNUNET_CONTAINER_META_DATA_SERIALIZE_NO_COMPRESS : Z := 2.

(** The first loop: the sum of the sizes *)
Fixpoint serialized_size (msize : Z) (l : list MetaItem) : Z :=
  match l with
  | [] => msize
  | pos :: l' =>
      serialized_size
        (u64 (msize + Z.of_nat sizeof_entry + data_size pos + string_len (plugin_name pos)
              + string_len (mime_type pos))) l'
  end.

(** The second loop: [ent] holds the entries, and from [mdata] on the data, filled
    from its end. *)
Fixpoint fill_loop (ent : list Z) (mdata : nat) (i : nat) (off : Z) (l : list MetaItem)
  : outcome (list Z * Z) :=
  match l with
  | [] => Ret (ent, off)
  | pos :: l' =>
      let plen := string_len (plugin_name pos) in
      let mlen := string_len (mime_type pos) in
      ent ← mem_write ent (sizeof_entry * i)
        (meta_data_entry (u32 (item_type pos)) (u32 (item_format pos)) (u32 (data_size pos))
           (u32 plen) (u32 mlen));
      let off := u64 (off - data_size pos) in
      ent ← mem_write ent (mdata + Z.to_nat off) (item_data pos);
      let off := u64 (off - plen) in
      ent ← mem_write ent (mdata + Z.to_nat off) (string_bytes (plugin_name pos));
      let off := u64 (off - mlen) in
      ent ← mem_write ent (mdata + Z.to_nat off) (string_bytes (mime_type pos));
      fill_loop ent mdata (S i) off l'
  end.

Section Serialization.
Context `{Extractor} `{Zlib}.

Definition try_compression (data : list Z) : outcome (option (list Z)) :=
  let oldSize := Z.of_nat (length data) in
  let dlen := oldSize + oldSize / 100 + 20 in
  _ ← GNUNET_malloc dlen;
  match compress2 data dlen with
  | Some tmp => Ret (if Z.of_nat (length tmp) <? oldSize then Some tmp else None)
  | None => Ret None
  end.

(** Header and payload in a fresh buffer: compressed to [c], or as they are *)
Definition build (entries left : Z) (comp : option (list Z)) (payload : list Z)
  : outcome (list Z) :=
  match comp with
  | Some c =>
      dst ← GNUNET_malloc (Z.of_nat (length c) + Z.of_nat sizeof_md_header);
      dst ← mem_write dst 0
        (meta_data_header (Z.lor 2 HEADER_COMPRESSED) (u32 entries) (u32 left));
      mem_write dst sizeof_md_header c
  | None =>
      dst ← GNUNET_malloc (left + Z.of_nat sizeof_md_header);
      dst ← mem_write dst 0 (meta_data_header 2 (u32 entries) (u32 left));
      mem_write dst sizeof_md_header payload
  end.

(** The cache: a buffer of [left] bytes and a header, of which [sbuf_size] are used *)
Definition build_sbuf (entries left : Z) (comp : option (list Z)) (payload : list Z)
  : outcome (list Z) :=
  hdr ← GNUNET_malloc (left + Z.of_nat sizeof_md_header);
  match comp with
  | Some c =>
      _ ← gnunet_assert (Z.of_nat (length c) <? left);
      hdr ← mem_write hdr 0
        (meta_data_header (Z.lor 2 HEADER_COMPRESSED) (u32 entries) (u32 left));
      hdr ← mem_write hdr sizeof_md_header c;
      mem_read hdr 0 (length c + sizeof_md_header)
  | None =>
      hdr ← mem_write hdr 0 (meta_data_header 2 (u32 entries) (u32 left));
      hdr ← mem_write hdr sizeof_md_header payload;
      mem_read hdr 0 (Z.to_nat left + sizeof_md_header)
  end.

(** [*target]: [None] is [NULL]; otherwise the bytes of the caller's buffer.  The copy
    takes [clen] bytes after the header, whatever was built. *)
Definition store_result (target : option (list Z)) (dst : list Z) (clen : nat)
  : outcome (list Z) :=
  match target with
  | None => Ret dst
  | Some t =>
      bytes ← mem_read dst 0 (clen + sizeof_md_header);
      mem_write t 0 bytes
  end.

(** The third loop; [clen] keeps its value from one attempt to the next. *)
Fixpoint attempt_loop (md : GNUNET_CONTAINER_MetaData) (target : option (list Z)) (max opt : Z)
  (ent : list Z) (i : nat) (left : Z) (clen : nat) (l : list MetaItem)
  : outcome (Z * GNUNET_CONTAINER_MetaData * option (list Z)) :=
  match l with
  | [] =>
      dst ← match target with
            | None => GNUNET_malloc (Z.of_nat sizeof_md_header)
            | Some t => Ret t
            end;
      dst ← mem_write dst 0 (meta_data_header 2 0 0);
      Ret (Z.of_nat sizeof_md_header, md, Some dst)
  | pos :: l' =>
      payload ← mem_read ent (sizeof_entry * i) (Z.to_nat left);
      comp ← if Z.land opt GNUNET_CONTAINER_META_DATA_SERIALIZE_NO_COMPRESS =? 0
             then try_compression payload else Ret None;
      let clen := match comp with Some c => length c | None => clen end in
      md ← match sbuf md, i with
           | None, O =>
               s ← build_sbuf (item_count md) left comp payload;
               Ret (mk_md (md_items md) (Some s) (item_count md))
           | _, _ => Ret md
           end;
      if (left + Z.of_nat sizeof_md_header <=? max)
         || match comp with Some c => Z.of_nat (length c) <=? max | None => false end
      then
        dst ← build (u32 (item_count md - Z.of_nat i)) left comp payload;
        let rlen := Z.of_nat (length dst) in
        dst ← store_result target dst clen;
        Ret (rlen, md, Some dst)
      else if Z.land opt GNUNET_CONTAINER_META_DATA_SERIALIZE_PART =? 0
      then Ret (GNUNET_SYSERR, md, target)
      else
        let left := u64 (left - Z.of_nat sizeof_entry - data_size pos
                         - string_len (plugin_name pos) - string_len (mime_type pos)) in
        attempt_loop md target max opt ent (S i) left clen l'
  end.

Definition serialize_items (md : GNUNET_CONTAINER_MetaData) (target : option (list Z)) (max opt : Z)
  : outcome (Z * GNUNET_CONTAINER_MetaData * option (list Z)) :=
  let l := rev (md_items md) in
  let size := serialized_size 0 l in
  if GNUNET_MAX_MALLOC_CHECKED <=? size then Ret (GNUNET_SYSERR, md, target)
  else
    ent ← GNUNET_malloc size;
    let mdata := (sizeof_entry * Z.to_nat (item_count md))%nat in
    let off := u64 (size - item_count md * Z.of_nat sizeof_entry) in
    '(ent, off) ← fill_loop ent mdata 0 off l;
    _ ← gnunet_assert (0 =? off);
    attempt_loop md target max opt ent 0 size 0 l.

Definition GNUNET_CONTAINER_meta_data_serialize (md : option GNUNET_CONTAINER_MetaData)
  (target : option (list Z)) (max opt : Z)
  : outcome (Z * option GNUNET_CONTAINER_MetaData * option (list Z)) :=
  if max <? Z.of_nat sizeof_md_header then Ret (GNUNET_SYSERR, md, target)
  else
    match md with
    | None => Ret (0, None, target)
    | Some md =>
        let compute := '(r, md, target) ← serialize_items md target max opt;
                       Ret (r, Some md, target) in
        match sbuf md with
        | None => compute
        | Some s =>
            if Z.of_nat (length s) <=? max then
              t ← match target with
                  | None => GNUNET_malloc (Z.of_nat (length s))
                  | Some t => Ret t
                  end;
              t ← mem_write t 0 s;
              Ret (Z.of_nat (length s), Some md, Some t)
            else if Z.land opt GNUNET_CONTAINER_META_DATA_SERIALIZE_PART =? 0
            then Ret (GNUNET_SYSERR, Some md, target)
            else compute
        end
    end.

Definition GNUNET_CONTAINER_meta_data_get_serialized_size (md : GNUNET_CONTAINER_MetaData)
  : outcome (Z * GNUNET_CONTAINER_MetaData) :=
  match sbuf md with
  | Some s => Ret (Z.of_nat (length s), md)
  | None =>
      '(ret, md', _) ← GNUNET_CONTAINER_meta_data_serialize (Some md) None
        GNUNET_MAX_MALLOC_CHECKED GNUNET_CONTAINER_META_DATA_SERIALIZE_FULL;
      Ret (ret, default md md')
  end.

(** ** Deserialization *)

Definition decompress (input : list Z) (outputSize : Z) : outcome (option (list Z)) :=
  output ← GNUNET_malloc outputSize;
  match uncompress input outputSize with
  | Some d => output ← mem_write output 0 d; Ret (Some output)
  | None => Ret None
  end.

(** The last byte of [len] bytes at [off] of [mdata] is 0. *)
Definition terminated (cdata : list Z) (off len : Z) : outcome bool :=
  b ← mem_read cdata (Z.to_nat (off + len - 1)) 1;
  Ret (bool_decide (b = [0])).

(** A string of [len] bytes at [off], [NULL] for no bytes *)
Definition string_at (cdata : list Z) (off len : Z) : outcome (option str) :=
  if len =? 0 then Ret None
  else s ← c_str (drop (Z.to_nat off) cdata); Ret (Some s).

(** The loop over [n] entries from [i] on; [mdata] is the offset of the data. *)
Fixpoint entries_loop (cdata : list Z) (mdata : Z) (i n : nat) (left : Z)
  (md : GNUNET_CONTAINER_MetaData) : outcome GNUNET_CONTAINER_MetaData :=
  match n with
  | O => Ret md
  | S n =>
      e ← mem_read cdata (sizeof_entry * i) sizeof_entry;
      match decode_fields [4; 4; 4; 4; 4]%nat e with
      | [type; format; dlen; plen; mlen] =>
          if negb (is_text format) && negb (EXTRACTOR_METAFORMAT_BINARY =? format) then Ret md
          else if left <? dlen then Ret md
          else
            let left := left - dlen in
            data ← mem_read cdata (Z.to_nat (mdata + left)) (Z.to_nat dlen);
            good ← if is_text format then
                     if dlen =? 0 then Ret false else terminated cdata (mdata + left) dlen
                   else Ret true;
            if negb good then Ret md
            else if left <? plen then Ret md
            else
              let left := left - plen in
              good ← if 0 <? plen then terminated cdata (mdata + left) plen else Ret true;
              if negb good then Ret md
              else
                plugin ← string_at cdata (mdata + left) plen;
                if left <? mlen then Ret md
                else
                  let left := left - mlen in
                  good ← if 0 <? mlen then terminated cdata (mdata + left) mlen else Ret true;
                  if negb good then Ret md
                  else
                    mime ← string_at cdata (mdata + left) mlen;
                    '(_, md) ← GNUNET_CONTAINER_meta_data_insert md plugin type format mime data;
                    entries_loop cdata mdata (S i) n left md
      | _ => Undefined
      end
  end.

(** [input] has [size] bytes. *)
Definition GNUNET_CONTAINER_meta_data_deserialize (input : list Z)
  : outcome (option GNUNET_CONTAINER_MetaData) :=
  if (length input <? sizeof_md_header)%nat then Ret None
  else
    hdr ← mem_read input 0 sizeof_md_header;
    match decode_fields [4; 4; 4]%nat hdr with
    | [hversion; ic; dataSize] =>
        let version := Z.land hversion HEADER_VERSION_MASK in
        let compressed := negb (Z.land hversion HEADER_COMPRESSED =? 0) in
        if version =? 1 then Ret None
        else if negb (version =? 2) then Ret None
        else if dataSize <? Z.of_nat sizeof_entry * ic then Ret None
        else
          cdata ←
            if compressed then
              if GNUNET_MAX_MALLOC_CHECKED <=? dataSize then Ret None
              else decompress (drop sizeof_md_header input) dataSize
            else if negb (dataSize =? Z.of_nat (length input - sizeof_md_header)) then Ret None
            else Ret (Some (drop sizeof_md_header input));
          match cdata with
          | None => Ret None
          | Some cdata =>
              let mdata := Z.of_nat sizeof_entry * ic in
              md ← entries_loop cdata mdata 0 (Z.to_nat ic) (dataSize - mdata)
                     GNUNET_CONTAINER_meta_data_create;
              Ret (Some md)
          end
    | _ => Undefined
    end.
End Serialization.
