(* ===== verification/MetaDataSpec.v ===== *)
(** * Meta data: invariant, abstract map and round trip

    [md_ok] is the invariant of a container of meta data ([MetaData]): the items are
    sorted by size, have pairwise different keys (type and data), can be serialized,
    are counted, and a cached serialization is one of the current items.  [view] is the
    abstract map from keys to format, MIME type and plugin; insertion and removal are
    operations of that map, [test_equal] decides its equality up to MIME types and
    plugins, and deserialization inverts serialization. *)

From Stdlib Require Import ZArith Lia.
From stdpp Require Import base list numbers sorting gmap.
From S2P Require Import Prelude Messages MetaData.
Local Open Scope Z_scope.

Definition key (i : MetaItem) : Z * list Z := (item_type i, item_data i).

Definition larger (i j : MetaItem) : Prop := data_size j <= data_size i.

Definition no_nul (s : option str) : Prop :=
  match s with
  | None => True
  | Some s => Forall (fun c => c <> 0) s
  end.

(** ** The serialized form

    Entries from the last item to the first, then the strings and data from the first
    to the last. *)

Definition entry_of (i : MetaItem) : list Z :=
  meta_data_entry (item_type i) (item_format i) (data_size i) (string_len (plugin_name i))
    (string_len (mime_type i)).

Definition blob (i : MetaItem) : list Z :=
  string_bytes (mime_type i) ++ string_bytes (plugin_name i) ++ item_data i.

Definition encode (l : list MetaItem) : list Z :=
  concat (entry_of <$> rev l) ++ concat (blob <$> l).

Definition packed (comp : option (list Z)) (l : list MetaItem) : list Z :=
  let n := Z.of_nat (length l) in
  let size := Z.of_nat (length (encode l)) in
  match comp with
  | Some c => meta_data_header (Z.lor 2 HEADER_COMPRESSED) n size ++ c
  | None => meta_data_header 2 n size ++ encode l
  end.

Section Spec.
Context `{Extractor} `{Zlib}.

Definition compressed_ok (comp : option (list Z)) (l : list MetaItem) : Prop :=
  match comp with
  | Some c => (length c < length (encode l))%nat /\ exists cap, compress2 (encode l) cap = Some c
  | None => True
  end.

Definition sbuf_ok (md : GNUNET_CONTAINER_MetaData) : Prop :=
  match sbuf md with
  | Some s => exists comp, compressed_ok comp (md_items md) /\ s = packed comp (md_items md)
  | None => True
  end.

Record item_ok (i : MetaItem) : Prop := {
  io_type : is_u32 (item_type i);
  io_format : is_text (item_format i) = true \/ item_format i = EXTRACTOR_METAFORMAT_BINARY;
  io_text : is_text (item_format i) = true -> last (item_data i) = Some 0;
  io_plugin : no_nul (plugin_name i);
  io_mime : no_nul (mime_type i);
  io_sizes : data_size i <= GNUNET_MAX_MALLOC_CHECKED
    /\ string_len (plugin_name i) <= GNUNET_MAX_MALLOC_CHECKED
    /\ string_len (mime_type i) <= GNUNET_MAX_MALLOC_CHECKED;
  io_name : is_filename (item_type i) = true -> posix_separators (item_data i) = Ret (item_data i)
}.

Record md_ok (md : GNUNET_CONTAINER_MetaData) : Prop := {
  mo_sorted : StronglySorted larger (md_items md);
  mo_keys : NoDup (key <$> md_items md);
  mo_items : Forall item_ok (md_items md);
  mo_count : item_count md = Z.of_nat (length (md_items md));
  mo_sbuf : sbuf_ok md
}.

(** ** Insertion *)

Lemma malloc_ok n : n <= GNUNET_MAX_MALLOC_CHECKED -> GNUNET_malloc n = Ret (replicate (Z.to_nat n) 0).
Proof. intros Hn. unfold GNUNET_malloc. by rewrite gnunet_assert_true by (apply Z.leb_le; lia). Qed.

Lemma strdup_ok s : string_len s <= GNUNET_MAX_MALLOC_CHECKED -> strdup_non_null s = Ret s.
Proof.
  destruct s as [s|]; [ | done ]. cbn [string_len strdup_non_null]. intros Hs.
  unfold GNUNET_strdup. by rewrite malloc_ok.
Qed.

Lemma insert_scan_spec type data l :
  StronglySorted larger l ->
  let '(n, r) := insert_scan type data l in
  match r with
  | Some pos => l !! n = Some pos /\ key pos = (type, data)
  | None => (type, data) ∉ key <$> l /\ (n <= length l)%nat
      /\ Forall (fun i => Z.of_nat (length data) <= data_size i) (take n l)
      /\ Forall (fun i => data_size i < Z.of_nat (length data)) (drop n l)
  end.
Proof.
  induction 1 as [|pos l Hs IH Hlar]; cbn [insert_scan].
  { split_and!; [ apply not_elem_of_nil | lia | constructor | constructor ]. }
  destruct (Z.ltb_spec (data_size pos) (Z.of_nat (length data))) as [Hlt|Hge].
  { assert (Hall : Forall (fun i => data_size i < Z.of_nat (length data)) (pos :: l)).
    { constructor; [ done | ]. eapply Forall_impl; [ done | ]. unfold larger. cbn. lia. }
    split_and!; [ | lia | constructor | done ]. intros Hin.
    apply list_elem_of_fmap in Hin as (i & Hk & Hi). rewrite Forall_forall in Hall.
    specialize (Hall _ Hi). unfold data_size in Hall. injection Hk as _ ->. lia. }
  destruct (andb _ _) eqn:Heq.
  { apply andb_prop in Heq as [Heq Hd]. apply andb_prop in Heq as [Ht _].
    apply Z.eqb_eq in Ht. apply bool_decide_eq_true in Hd. split; [ done | ]. unfold key. congruence. }
  destruct (insert_scan type data l) as [n [p|]]; [ done | ].
  destruct IH as (Hk & Hn & Hbig & Hsmall). split_and!; [ | cbn; lia | | done ].
  - rewrite fmap_cons, not_elem_of_cons. split; [ | done ]. intros [= -> ->].
    unfold data_size in Heq. by rewrite !Z.eqb_refl, bool_decide_eq_true_2 in Heq.
  - cbn [take]. constructor; [ lia | done ].
Qed.

(** Where a fresh item goes *)
Definition place (i : MetaItem) (l : list MetaItem) : list MetaItem :=
  let n := (insert_scan (item_type i) (item_data i) l).1 in take n l ++ i :: drop n l.

Lemma place_perm i l : place i l ≡ₚ i :: l.
Proof. unfold place. rewrite <- Permutation_middle, take_drop. done. Qed.

Lemma sorted_app_cons i l1 l2 :
  StronglySorted larger (l1 ++ l2) -> Forall (fun j => larger j i) l1 -> Forall (larger i) l2 ->
  StronglySorted larger (l1 ++ i :: l2).
Proof.
  intros Hs H1 H2. induction l1 as [|j l1 IH]; cbn in *; [ by constructor | ].
  inversion_clear Hs as [|? ? Hs' Hj]. inversion_clear H1 as [|? ? Hji H1'].
  apply Forall_app in Hj as [Hj1 Hj2]. constructor; [ by apply IH | ].
  rewrite Forall_app, Forall_cons. done.
Qed.

Lemma place_sorted i l :
  StronglySorted larger l -> (key i ∉ key <$> l) -> StronglySorted larger (place i l).
Proof.
  intros Hs Hk. unfold place. pose proof (insert_scan_spec (item_type i) (item_data i) l Hs) as Hsc.
  destruct (insert_scan _ _ l) as [n [p|]]; cbn [fst].
  { destruct Hsc as [Hl Hkey]. destruct Hk. apply list_elem_of_fmap. exists p.
    split; [ by rewrite Hkey | by eapply list_elem_of_lookup_2 ]. }
  destruct Hsc as (_ & _ & Hbig & Hsmall). apply sorted_app_cons.
  - by rewrite take_drop.
  - done.
  - eapply Forall_impl; [ done | ]. unfold larger, data_size. cbn. lia.
Qed.

(** The arguments of an insertion as an item, before the separators of a file name are
    changed *)
Record args_ok (i : MetaItem) : Prop := {
  ao_type : is_u32 (item_type i);
  ao_format : is_text (item_format i) = true \/ item_format i = EXTRACTOR_METAFORMAT_BINARY;
  ao_text : is_text (item_format i) = true -> last (item_data i) = Some 0;
  ao_plugin : no_nul (plugin_name i);
  ao_mime : no_nul (mime_type i);
  ao_sizes : data_size i <= GNUNET_MAX_MALLOC_CHECKED
    /\ string_len (plugin_name i) <= GNUNET_MAX_MALLOC_CHECKED
    /\ string_len (mime_type i) <= GNUNET_MAX_MALLOC_CHECKED;
  ao_name : is_filename (item_type i) = true -> 0 ∈ item_data i
}.

Lemma posix_separators_ok d :
  0 ∈ d -> exists d', posix_separators d = Ret d' /\ length d' = length d /\ last d' = last d
    /\ posix_separators d' = Ret d'.
Proof.
  induction d as [|c d IH]; intros Hin; [ by apply elem_of_nil in Hin | ]. cbn [posix_separators].
  destruct (Z.eqb_spec c 0) as [->|Hc].
  { exists (0 :: d). done. }
  apply elem_of_cons in Hin as [Heq|Hin]; [ congruence | ].
  destruct (IH Hin) as (d' & -> & Hl & Hlast & Hid). eexists. split; [ done | ].
  split_and!; [ cbn; lia | | ].
  - destruct d as [|x d], d' as [|x' d']; try done.
  - cbn [posix_separators]. rewrite Hid.
    destruct (Z.eqb_spec c 92) as [->|H92]; [ done | ].
    rewrite (proj2 (Z.eqb_neq c 0) Hc). cbn. by rewrite (proj2 (Z.eqb_neq c 92) H92).
Qed.

(** What is stored for the data of a file name *)
Definition normalize (type : Z) (data : list Z) : list Z :=
  if is_filename type then
    match posix_separators data with Ret d => d | _ => data end
  else data.

Definition stored (i : MetaItem) : MetaItem :=
  mk_item (plugin_name i) (mime_type i) (normalize (item_type i) (item_data i)) (item_type i)
    (item_format i).

Lemma normalize_ok i :
  args_ok i ->
  (if is_filename (item_type i) then posix_separators (item_data i) else Ret (item_data i))
  = Ret (normalize (item_type i) (item_data i)).
Proof.
  intros [_ _ _ _ _ _ Hn]. unfold normalize. destruct (is_filename _); [ | done ].
  by destruct (posix_separators_ok _ (Hn eq_refl)) as (d & -> & _).
Qed.

Lemma stored_ok i : args_ok i -> item_ok (stored i).
Proof.
  intros [Ht Hf Hx Hp Hm Hs Hn].
  assert (Hd : length (normalize (item_type i) (item_data i)) = length (item_data i)
    /\ last (normalize (item_type i) (item_data i)) = last (item_data i)
    /\ (is_filename (item_type i) = true ->
        posix_separators (normalize (item_type i) (item_data i))
        = Ret (normalize (item_type i) (item_data i)))).
  { unfold normalize. destruct (is_filename _); [ | done ].
    destruct (posix_separators_ok _ (Hn eq_refl)) as (d & -> & Hl & Hlast & Hid). done. }
  destruct Hd as (Hl & Hlast & Hid).
  constructor; cbn [stored plugin_name mime_type item_data item_type item_format]; try done.
  - rewrite Hlast. done.
  - unfold data_size in *. cbn [stored item_data]. by rewrite Hl.
Qed.

Lemma posix_separators_nul d e : posix_separators d = Ret e -> 0 ∈ d.
Proof.
  revert e. induction d as [|c d IH]; intros e; [ done | ]. cbn [posix_separators].
  destruct (Z.eqb_spec c 0) as [->|Hc]; [ by left | ]. intros Hr. right.
  destruct (posix_separators d) as [d'| |] eqn:E; try done. by eapply IH.
Qed.

Lemma item_args_ok i : item_ok i -> args_ok i.
Proof.
  intros [Ht Hf Hx Hp Hm Hs Hn]. constructor; try done. intros Hfn.
  by eapply posix_separators_nul, Hn.
Qed.

Lemma item_stored i : item_ok i -> stored i = i.
Proof.
  intros [Ht Hf Hx Hp Hm Hs Hn]. destruct i as [p m d t f]. unfold stored, normalize. cbn in *.
  destruct (is_filename t); [ | done ]. by rewrite Hn.
Qed.

Definition insert_item (md : GNUNET_CONTAINER_MetaData) (i : MetaItem) :=
  GNUNET_CONTAINER_meta_data_insert md (plugin_name i) (item_type i) (item_format i)
    (mime_type i) (item_data i).

(** A fresh item is placed by the size of its data. *)
Lemma insert_new md i :
  StronglySorted larger (md_items md) -> args_ok i -> (key i ∉ key <$> md_items md) ->
  let n := (insert_scan (item_type i) (item_data i) (md_items md)).1 in
  insert_item md i = Ret (GNUNET_OK,
    mk_md (take n (md_items md) ++ stored i :: drop n (md_items md)) None (u32 (item_count md + 1))).
Proof.
  intros Hs Ha Hk. unfold insert_item, GNUNET_CONTAINER_meta_data_insert.
  pose proof (insert_scan_spec (item_type i) (item_data i) _ Hs) as Hsc.
  destruct (insert_scan _ _ _) as [n [p|]]; cbn [fst].
  { destruct Hsc as [Hl Hkey]. destruct Hk. apply list_elem_of_fmap. exists p.
    split; [ by rewrite Hkey | by eapply list_elem_of_lookup_2 ]. }
  destruct (ao_sizes _ Ha) as (Hd & Hp & Hm).
  rewrite (strdup_ok _ Hm). cbn [mbind outcome_bind]. rewrite (strdup_ok _ Hp).
  cbn [mbind outcome_bind]. rewrite malloc_ok by exact Hd. cbn [mbind outcome_bind].
  by rewrite (normalize_ok _ Ha).
Qed.

Lemma insert_fresh md i :
  md_ok md -> item_ok i -> (key i ∉ key <$> md_items md) ->
  Z.of_nat (length (md_items md)) + 1 < 2 ^ 32 ->
  let md' := mk_md (place i (md_items md)) None (item_count md + 1) in
  insert_item md i = Ret (GNUNET_OK, md') /\ md_ok md'.
Proof.
  intros Hmd Hi Hk Hn. split.
  - rewrite insert_new by (done || by apply Hmd || by apply item_args_ok).
    rewrite item_stored by done. rewrite u32_small; [ done | ]. rewrite (mo_count _ Hmd). int_lia.
  - constructor; cbn [md_items sbuf item_count].
    + apply place_sorted; [ apply Hmd | done ].
    + rewrite place_perm, fmap_cons. constructor; [ done | apply Hmd ].
    + rewrite place_perm. constructor; [ done | apply Hmd ].
    + rewrite place_perm. cbn. rewrite (mo_count _ Hmd). lia.
    + done.
Qed.

(** Inserting a list of items with fresh keys *)
Lemma insert_all_fresh l md :
  md_ok md -> Forall item_ok l -> NoDup (key <$> (md_items md ++ l)) ->
  Z.of_nat (length (md_items md ++ l)) < 2 ^ 32 ->
  exists md', insert_all md l = Ret md' /\ md_ok md' /\ md_items md' ≡ₚ md_items md ++ l.
Proof.
  revert md. induction l as [|i l IH]; intros md Hmd Hl Hk Hn; cbn [insert_all].
  { exists md. by rewrite app_nil_r. }
  apply Forall_cons in Hl as [Hi Hl].
  assert (Hp : md_items md ++ i :: l ≡ₚ place i (md_items md) ++ l).
  { by rewrite place_perm, <- Permutation_middle. }
  assert (Hfresh : key i ∉ key <$> md_items md).
  { rewrite Hp, place_perm in Hk. cbn in Hk. apply NoDup_cons in Hk as [Hk _].
    rewrite fmap_app, not_elem_of_app in Hk. apply Hk. }
  rewrite Hp in Hn. pose proof Hn as Hn'. rewrite length_app, place_perm in Hn'. cbn in Hn'.
  destruct (insert_fresh md i Hmd Hi Hfresh) as [He Hok]; [ lia | ].
  unfold insert_item in He. rewrite He. cbn [mbind outcome_bind].
  destruct (IH _ Hok Hl) as (md' & -> & Hok' & Hp'); [ by rewrite <- Hp | done | ].
  exists md'. by rewrite Hp', Hp.
Qed.

(** ** The abstract map *)

Definition attributes (i : MetaItem) : Z * option str * option str :=
  (item_format i, mime_type i, plugin_name i).

Definition view (md : GNUNET_CONTAINER_MetaData)
  : gmap (Z * list Z) (Z * option str * option str) :=
  list_to_map ((fun i => (key i, attributes i)) <$> md_items md).

Lemma keys_fst l : ((fun i => (key i, attributes i)) <$> l).*1 = key <$> l.
Proof. rewrite <- list_fmap_compose. done. Qed.

Lemma view_perm md md' :
  NoDup (key <$> md_items md) -> md_items md ≡ₚ md_items md' -> view md = view md'.
Proof. intros Hk Hp. apply list_to_map_proper; [ by rewrite keys_fst | by rewrite Hp ]. Qed.

Lemma view_lookup md i :
  NoDup (key <$> md_items md) -> i ∈ md_items md -> view md !! key i = Some (attributes i).
Proof.
  intros Hk Hi. apply elem_of_list_to_map; [ by rewrite keys_fst | ].
  apply list_elem_of_fmap. eauto.
Qed.

Lemma view_lookup_None md k : (k ∉ key <$> md_items md) -> view md !! k = None.
Proof. intros Hk. apply not_elem_of_list_to_map. by rewrite keys_fst. Qed.

Lemma view_elem md k : is_Some (view md !! k) -> k ∈ key <$> md_items md.
Proof.
  intros [v Hv]. destruct (decide (k ∈ key <$> md_items md)) as [|Hn]; [ done | ].
  by rewrite view_lookup_None in Hv.
Qed.

(** The view of a container that has one more item *)
Lemma view_cons md md' i :
  md_items md' ≡ₚ i :: md_items md -> NoDup (key <$> md_items md') ->
  view md' = <[key i := attributes i]> (view md).
Proof.
  intros Hp Hk. rewrite (view_perm md' (mk_md (i :: md_items md) None 0)) by done. done.
Qed.

(** An item whose key is there: the MIME type is added if there was none, and a C
    string that turns out to be UTF-8 is marked so. *)
Definition upgrade (pos i : MetaItem) : MetaItem :=
  mk_item (plugin_name pos)
    (match mime_type pos with Some m => Some m | None => mime_type i end)
    (item_data pos) (item_type pos)
    (if (EXTRACTOR_METAFORMAT_C_STRING =? item_format pos)
        && (EXTRACTOR_METAFORMAT_UTF8 =? item_format i)
     then EXTRACTOR_METAFORMAT_UTF8 else item_format pos).

Lemma upgrade_ok pos i : item_ok pos -> args_ok i -> item_ok (upgrade pos i).
Proof.
  intros [Ht Hf Hx Hp Hm Hs Hn] Ha.
  assert (Htext : is_text (item_format (upgrade pos i)) = is_text (item_format pos)).
  { cbn. destruct (Z.eqb_spec EXTRACTOR_METAFORMAT_C_STRING (item_format pos)) as [<-|]; [ | done ].
    destruct (_ =? item_format i); [ | done ]. unfold is_text. by rewrite !Z.eqb_refl, orb_true_r. }
  constructor; cbn [upgrade plugin_name mime_type item_data item_type]; try done.
  - destruct Hf as [Hf|Hf]; [ left; congruence | right ]. cbn. rewrite Hf.
    destruct formats_differ as (_ & Hd & _).
    by rewrite (proj2 (Z.eqb_neq EXTRACTOR_METAFORMAT_C_STRING _)) by done.
  - by rewrite Htext.
  - destruct (mime_type pos); [ done | apply Ha ].
  - destruct (ao_sizes _ Ha) as (_ & _ & Hm'). destruct (mime_type pos); [ done | ].
    unfold data_size in *. cbn. tauto.
Qed.

Lemma insert_found md i n pos :
  args_ok i -> insert_scan (item_type i) (item_data i) (md_items md) = (n, Some pos) ->
  md_items md !! n = Some pos ->
  exists md', insert_item md i = Ret (GNUNET_SYSERR, md')
    /\ md_items md' = <[n := upgrade pos i]> (md_items md) /\ item_count md' = item_count md
    /\ (md' = md \/ sbuf md' = None).
Proof.
  intros Ha Hsc Hl. unfold insert_item, GNUNET_CONTAINER_meta_data_insert. rewrite Hsc.
  destruct (ao_sizes _ Ha) as (_ & _ & Hm). destruct pos as [p m d t f]. unfold upgrade.
  cbn [plugin_name mime_type item_data item_type item_format].
  assert (Hid : forall x, x = mk_item p m d t f -> md_items md = <[n := x]> (md_items md)).
  { intros x ->. by rewrite list_insert_id. }
  destruct m as [m|]; [ | destruct (mime_type i) as [m|] eqn:Em ];
    cbn [mbind outcome_bind plugin_name mime_type item_data item_type item_format].
  - destruct (andb _ _); eexists; (split; [ reflexivity | ]); cbn; auto.
  - cbn [string_len] in Hm. unfold GNUNET_strdup. rewrite malloc_ok by done.
    cbn [mbind outcome_bind plugin_name mime_type item_data item_type item_format].
    destruct (andb _ _); eexists; (split; [ reflexivity | ]); cbn; rewrite ?list_insert_insert_eq; auto.
  - destruct (andb _ _); eexists; (split; [ reflexivity | ]); cbn; auto.
Qed.

Lemma sorted_same_sizes l l' :
  data_size <$> l = data_size <$> l' -> StronglySorted larger l -> StronglySorted larger l'.
Proof.
  intros He Hs. revert l' He. induction Hs as [|i l Hs IH Hi]; intros [|i' l'] He; try done;
    [ constructor | ].
  injection He as Hi' Hl. change (data_size <$> l = data_size <$> l') in Hl.
  constructor; [ by apply IH | ].
  rewrite Forall_forall in Hi |- *. intros j Hj.
  assert (Hin : data_size j ∈ data_size <$> l) by (rewrite Hl; apply list_elem_of_fmap; eauto).
  apply list_elem_of_fmap in Hin as (j' & Hj' & Hin). specialize (Hi _ Hin). unfold larger in *. lia.
Qed.

Lemma replaced_ok md md' n pos pos' :
  md_ok md -> md_items md !! n = Some pos -> key pos' = key pos -> item_ok pos' ->
  md_items md' = <[n := pos']> (md_items md) -> item_count md' = item_count md ->
  (md' = md \/ sbuf md' = None) -> md_ok md'.
Proof.
  intros Hmd Hn Hkey Hok He Hc Hs.
  assert (Hkeys : key <$> md_items md' = key <$> md_items md).
  { rewrite He, list_fmap_insert, Hkey. apply list_insert_id. by rewrite list_lookup_fmap, Hn. }
  constructor.
  - apply (sorted_same_sizes (md_items md)); [ | apply Hmd ]. unfold data_size.
    change (fun mi => Z.of_nat (length (item_data mi))) with ((fun k : Z * list Z => Z.of_nat (length k.2)) ∘ key).
    by rewrite !list_fmap_compose, Hkeys.
  - rewrite Hkeys. apply Hmd.
  - rewrite He. apply Forall_insert; [ apply Hmd | done ].
  - rewrite Hc, He, length_insert. apply Hmd.
  - destruct Hs as [->|Hs]; [ apply Hmd | ]. unfold sbuf_ok. by rewrite Hs.
Qed.

Lemma view_replaced md md' n pos pos' :
  NoDup (key <$> md_items md) -> md_items md !! n = Some pos -> key pos' = key pos ->
  md_items md' = <[n := pos']> (md_items md) ->
  view md' = <[key pos := attributes pos']> (view md).
Proof.
  intros Hk Hn Hkey He. pose proof (lookup_lt_Some _ _ _ Hn) as Hlt.
  pose proof (take_drop_middle _ _ _ Hn) as Hsplit. set (rest := take n (md_items md) ++ drop (S n) (md_items md)).
  assert (Hp : md_items md ≡ₚ pos :: rest).
  { rewrite <- Hsplit at 1. unfold rest. by rewrite Permutation_middle. }
  assert (Hp' : md_items md' ≡ₚ pos' :: rest).
  { rewrite He, insert_take_drop by done. unfold rest. by rewrite Permutation_middle. }
  assert (Hk' : NoDup (key <$> md_items md')).
  { rewrite Hp', fmap_cons, Hkey, <- fmap_cons, <- Hp. done. }
  rewrite (view_cons (mk_md rest None 0) md' pos') by done.
  rewrite (view_cons (mk_md rest None 0) md pos) by done.
  by rewrite Hkey, insert_insert_eq.
Qed.

Lemma placed_ok md md' i n :
  md_ok md -> args_ok i -> (key i ∉ key <$> md_items md) -> (key (stored i) ∉ key <$> md_items md) ->
  Z.of_nat (length (md_items md)) + 1 < 2 ^ 32 ->
  n = (insert_scan (item_type i) (item_data i) (md_items md)).1 ->
  md' = mk_md (take n (md_items md) ++ stored i :: drop n (md_items md)) None (u32 (item_count md + 1)) ->
  md_ok md' /\ view md' = <[key (stored i) := attributes (stored i)]> (view md).
Proof.
  intros Hmd Ha Hk Hk' Hlen Hn ->. set (l := md_items md) in *.
  assert (Hp : take n l ++ stored i :: drop n l ≡ₚ stored i :: l).
  { by rewrite <- Permutation_middle, take_drop. }
  assert (Hkeys : NoDup (key <$> (take n l ++ stored i :: drop n l))).
  { rewrite Hp, fmap_cons. constructor; [ done | apply Hmd ]. }
  assert (Hsz : data_size (stored i) = data_size i).
  { pose proof (ao_name _ Ha) as Hf. unfold data_size, stored, normalize. cbn [item_data].
    destruct (is_filename _); [ | done ].
    by destruct (posix_separators_ok _ (Hf eq_refl)) as (d & -> & -> & _). }
  split; [ | by apply view_cons ]. constructor; cbn [md_items sbuf item_count]; [ | done | | | done ].
  - pose proof (insert_scan_spec (item_type i) (item_data i) l (mo_sorted _ Hmd)) as Hsc.
    destruct (insert_scan _ _ l) as [n' [p|]]; cbn [fst] in Hn; subst n'.
    { destruct Hsc as [Hl Hkey]. destruct Hk. apply list_elem_of_fmap. exists p.
      split; [ by rewrite Hkey | by eapply list_elem_of_lookup_2 ]. }
    destruct Hsc as (_ & _ & Hbig & Hsmall). apply sorted_app_cons.
    + rewrite take_drop. apply Hmd.
    + eapply Forall_impl; [ done | ]. unfold larger. intros j. rewrite Hsz. done.
    + eapply Forall_impl; [ done | ]. unfold larger. intros j. rewrite Hsz. unfold data_size. cbn. lia.
  - rewrite Hp. constructor; [ by apply stored_ok | apply Hmd ].
  - rewrite Hp. cbn. rewrite (mo_count _ Hmd). fold l. rewrite u32_small by int_lia. lia.
Qed.

(** ** Removal *)

Lemma delete_scan_Some type data size l n :
  delete_scan type data size l = Some n ->
  exists pos, l !! n = Some pos /\ item_type pos = type
    /\ forall d, data = Some d -> size = Z.of_nat (length d) -> item_data pos = d.
Proof.
  revert n. induction l as [|pos l IH]; intros n; cbn [delete_scan]; [ done | ].
  destruct (_ <? _); [ done | ].
  destruct (Z.eqb_spec (item_type pos) type) as [Ht|_]; cbn [andb].
  - destruct data as [d|]; [ | intros [= <-]; exists pos; split_and!; done ].
    destruct (andb _ _) eqn:E.
    + intros [= <-]. exists pos. split_and!; [ done | done | ]. intros d' [= <-] ->.
      apply andb_prop in E as [Hs Hd]. apply Z.eqb_eq in Hs. apply bool_decide_eq_true in Hd.
      unfold data_size in Hs. rewrite !take_ge in Hd by lia. done.
    + intros Hn. apply fmap_Some in Hn as (m & Hm & ->). by destruct (IH _ Hm) as (p & Hp); exists p.
  - intros Hn. apply fmap_Some in Hn as (m & Hm & ->). by destruct (IH _ Hm) as (p & Hp); exists p.
Qed.

Lemma delete_scan_None type d l :
  StronglySorted larger l -> delete_scan type (Some d) (Z.of_nat (length d)) l = None ->
  (type, d) ∉ key <$> l.
Proof.
  induction 1 as [|pos l Hs IH Hlar]; cbn [delete_scan]; [ intros _; apply not_elem_of_nil | ].
  destruct (Z.ltb_spec (data_size pos) (Z.of_nat (length d))) as [Hlt|Hge].
  { intros _ Hin. rewrite fmap_cons, elem_of_cons in Hin. unfold key, data_size in *.
    destruct Hin as [[= -> ->]|Hin]; [ lia | ].
    apply list_elem_of_fmap in Hin as (i & [= -> ->] & Hi). rewrite Forall_forall in Hlar.
    specialize (Hlar _ Hi). unfold larger, data_size in Hlar. lia. }
  destruct (andb _ _) eqn:E; [ done | ]. intros Hn. apply fmap_None in Hn.
  rewrite fmap_cons, not_elem_of_cons. split; [ | by apply IH ]. intros [= -> ->].
  unfold data_size in E. by rewrite !Z.eqb_refl, bool_decide_eq_true_2 in E.
Qed.

(** [delete_scan] without data finds an item of the type if there is one. *)
Lemma delete_scan_type type l :
  delete_scan type None 0 l = None -> type ∉ item_type <$> l.
Proof.
  induction l as [|pos l IH]; cbn [delete_scan]; [ intros _; apply not_elem_of_nil | ].
  destruct (Z.ltb_spec (data_size pos) 0) as [Hlt|_]; [ unfold data_size in Hlt; lia | ].
  destruct (Z.eqb_spec (item_type pos) type) as [|Ht]; cbn [andb]; [ done | ].
  intros Hn%fmap_None. rewrite fmap_cons, not_elem_of_cons. split; [ congruence | by apply IH ].
Qed.

Lemma sorted_sublist l l' : sublist l' l -> StronglySorted larger l -> StronglySorted larger l'.
Proof.
  induction 1 as [|x l1 l2 Hsub IH|x l1 l2 Hsub IH]; intros Hs; [ constructor | | ];
    apply StronglySorted_inv in Hs as [Hs' Hx]; [ constructor; [ by apply IH | ] | by apply IH ].
  rewrite Forall_forall in Hx |- *. intros y Hy. by eapply Hx, elem_of_submseteq, sublist_submseteq.
Qed.

Lemma deleted_ok md n pos :
  md_ok md -> md_items md !! n = Some pos ->
  Z.of_nat (length (md_items md)) < 2 ^ 32 ->
  let md' := invalidate_sbuf (set_count (set_items md (delete n (md_items md))) (u32 (item_count md - 1))) in
  md_ok md' /\ md_items md ≡ₚ pos :: md_items md' /\ view md' = delete (key pos) (view md).
Proof.
  intros Hmd Hn Hlen md'.
  assert (Hp : md_items md ≡ₚ pos :: md_items md') by by apply delete_Permutation.
  assert (Hsub : sublist (md_items md') (md_items md)) by apply sublist_delete.
  pose proof (mo_keys _ Hmd) as Hk. rewrite Hp, fmap_cons in Hk. apply NoDup_cons in Hk as [Hf Hk].
  split_and!; [ | done | ].
  - constructor; [ | done | | | done ].
    + by eapply sorted_sublist, Hmd.
    + pose proof (mo_items _ Hmd) as Hi. rewrite Hp in Hi. by apply Forall_cons in Hi as [_ Hi].
    + change (item_count md') with (u32 (item_count md - 1)). rewrite (mo_count _ Hmd).
      rewrite Hp in *. cbn [length] in *. rewrite u32_small by int_lia. lia.
  - rewrite (view_cons md' md pos) by (done || apply Hmd). rewrite delete_insert_id; [ done | ].
    by apply view_lookup_None.
Qed.

(** ** Comparison *)

Definition item_summary (i : MetaItem) : Z * Z * list Z := (item_type i, item_format i, item_data i).

Lemma same_item_spec i j : same_item i j = true <-> item_summary i = item_summary j.
Proof.
  unfold same_item, item_summary, data_size. rewrite !andb_true_iff, bool_decide_eq_true, !Z.eqb_eq.
  split; [ intros [[[-> ->] _] ->]; done | intros [= -> -> ->]; done ].
Qed.

Lemma find_equal_spec i l :
  StronglySorted larger l -> find_equal i l = true <-> item_summary i ∈ item_summary <$> l.
Proof.
  induction 1 as [|j l Hs IH Hj]; cbn [find_equal]; [ split; [ done | by intros ?%elem_of_nil ] | ].
  rewrite fmap_cons, elem_of_cons, <- same_item_spec. destruct (same_item i j) eqn:E; [ tauto | ].
  destruct (Z.ltb_spec (data_size j) (data_size i)) as [Hlt|_]; [ | rewrite IH; naive_solver ].
  split; [ done | ]. intros [?|Hin]; [ done | ]. exfalso.
  apply list_elem_of_fmap in Hin as (k & [= _ _ Hd] & Hk). rewrite Forall_forall in Hj.
  specialize (Hj _ Hk). unfold larger, data_size in *. rewrite Hd in Hlt. lia.
Qed.

Lemma NoDup_item_summary l : NoDup (key <$> l) -> NoDup (item_summary <$> l).
Proof.
  intros Hk. apply (NoDup_fmap_1 (fun s : Z * Z * list Z => (s.1.1, s.2))).
  by rewrite <- list_fmap_compose.
Qed.

Lemma test_equal_spec md1 md2 :
  md_ok md1 -> md_ok md2 ->
  GNUNET_CONTAINER_meta_data_test_equal false md1 md2 = GNUNET_YES
  <-> item_summary <$> md_items md1 ≡ₚ item_summary <$> md_items md2.
Proof.
  intros H1 H2. unfold GNUNET_CONTAINER_meta_data_test_equal.
  rewrite (mo_count _ H1), (mo_count _ H2).
  destruct (Z.eqb_spec (Z.of_nat (length (md_items md1))) (Z.of_nat (length (md_items md2)))) as [Hl|Hl];
    cbn [negb].
  2: { split; [ done | ]. intros Hp%Permutation_length. rewrite !length_fmap in Hp. lia. }
  destruct (forallb _ _) eqn:E.
  - split; [ intros _ | done ]. rewrite forallb_forall in E.
    apply submseteq_length_Permutation; [ | rewrite !length_fmap; lia ].
    apply NoDup_submseteq; [ apply NoDup_item_summary, H1 | ]. intros s Hs.
    apply list_elem_of_fmap in Hs as (i & -> & Hi). apply find_equal_spec; [ apply H2 | ].
    by apply E, list_elem_of_In.
  - split; [ done | ]. intros Hp. apply not_true_iff_false in E. destruct E.
    apply forallb_forall. intros i Hi%list_elem_of_In. apply find_equal_spec; [ apply H2 | ].
    rewrite <- Hp. apply list_elem_of_fmap. eauto.
Qed.

(** ** Sizes of the serialized form *)

Definition blobs (l : list MetaItem) : nat := length (concat (blob <$> l)).

Lemma length_string_bytes s : Z.of_nat (length (string_bytes s)) = string_len s.
Proof. destruct s as [s|]; [ | done ]. cbn. rewrite length_app. cbn. lia. Qed.

Lemma length_entry_of i : length (entry_of i) = 20%nat.
Proof. apply length_encode_fields. done. Qed.

Lemma length_blob i :
  Z.of_nat (length (blob i)) = data_size i + string_len (plugin_name i) + string_len (mime_type i).
Proof.
  unfold blob, data_size. rewrite !length_app, !Nat2Z.inj_add, !length_string_bytes. lia.
Qed.

Lemma length_entries l : length (concat (entry_of <$> l)) = (20 * length l)%nat.
Proof.
  induction l as [|i l IH]; [ done | ]. rewrite fmap_cons. cbn [concat length].
  rewrite length_app, length_entry_of, IH. lia.
Qed.

Lemma blobs_cons i l : blobs (i :: l) = (length (blob i) + blobs l)%nat.
Proof. unfold blobs. rewrite fmap_cons. cbn [concat]. by rewrite length_app. Qed.

Lemma concat_blob_app l1 l2 :
  concat (blob <$> (l1 ++ l2)) = concat (blob <$> l1) ++ concat (blob <$> l2).
Proof. by rewrite fmap_app, concat_app. Qed.

Lemma blobs_app l1 l2 : blobs (l1 ++ l2) = (blobs l1 + blobs l2)%nat.
Proof. unfold blobs. by rewrite concat_blob_app, length_app. Qed.

Lemma blobs_rev l : blobs (rev l) = blobs l.
Proof.
  induction l as [|i l IH]; [ done | ]. cbn [rev].
  rewrite blobs_app, IH, !blobs_cons. change (blobs []) with 0%nat. lia.
Qed.

Lemma length_encode l : length (encode l) = (20 * length l + blobs l)%nat.
Proof. unfold encode. by rewrite length_app, length_entries, length_rev. Qed.

Lemma length_encode_app l1 l2 :
  length (encode (l1 ++ l2)) = (length (encode l1) + length (encode l2))%nat.
Proof. rewrite !length_encode, length_app, blobs_app. lia. Qed.

Lemma length_encode_snoc l i :
  Z.of_nat (length (encode (l ++ [i])))
  = Z.of_nat (length (encode l)) + 20 + data_size i + string_len (plugin_name i)
    + string_len (mime_type i).
Proof.
  rewrite length_encode_app, Nat2Z.inj_add, (length_encode [i]), blobs_cons.
  change (blobs []) with 0%nat. cbn [length]. pose proof (length_blob i). lia.
Qed.

Lemma string_len_nonneg s : 0 <= string_len s.
Proof. destruct s; cbn; lia. Qed.

Lemma serialized_size_ok l : forall m,
  0 <= m -> m + Z.of_nat (length (encode l)) < 2 ^ 64 ->
  serialized_size m l = m + Z.of_nat (length (encode l)).
Proof.
  induction l as [|i l IH]; intros m Hm Hl; cbn [serialized_size]; [ cbn; lia | ].
  rewrite length_encode, blobs_cons in Hl |- *. cbn [length] in *. pose proof (length_blob i) as Hb.
  pose proof (string_len_nonneg (plugin_name i)). pose proof (string_len_nonneg (mime_type i)).
  assert (0 <= data_size i) by (unfold data_size; lia).
  change (Z.of_nat sizeof_entry) with 20.
  rewrite u64_small by int_lia. rewrite IH; rewrite ?length_encode; lia.
Qed.

Lemma serialized_size_rev l :
  Z.of_nat (length (encode l)) < 2 ^ 64 ->
  serialized_size 0 (rev l) = Z.of_nat (length (encode l)).
Proof.
  intros Hl. assert (He : length (encode (rev l)) = length (encode l)).
  { by rewrite !length_encode, length_rev, blobs_rev. }
  rewrite serialized_size_ok; lia.
Qed.

(** ** Filling the buffer *)

Lemma entry_fields_fit i :
  item_ok i ->
  is_u32 (item_type i) /\ is_u32 (item_format i) /\ is_u32 (data_size i)
  /\ is_u32 (string_len (plugin_name i)) /\ is_u32 (string_len (mime_type i)).
Proof.
  intros Hi. destruct (io_sizes _ Hi) as (Hd & Hp & Hm).
  pose proof (string_len_nonneg (plugin_name i)). pose proof (string_len_nonneg (mime_type i)).
  unfold GNUNET_MAX_MALLOC_CHECKED in *.
  assert (0 <= data_size i) by (unfold data_size; lia).
  split_and!; [ apply Hi | | int_lia | int_lia | int_lia ].
  destruct formats_fit as (F1 & F2 & F3). destruct (io_format _ Hi) as [Hf| ->]; [ | done ].
  unfold is_text in Hf. apply orb_prop in Hf as [->%Z.eqb_eq| ->%Z.eqb_eq]; done.
Qed.

Lemma entry_of_u32 i :
  item_ok i ->
  meta_data_entry (u32 (item_type i)) (u32 (item_format i)) (u32 (data_size i))
    (u32 (string_len (plugin_name i))) (u32 (string_len (mime_type i))) = entry_of i.
Proof.
  intros Hi. destruct (entry_fields_fit i Hi) as (? & ? & ? & ? & ?). by rewrite !u32_small by done.
Qed.

Lemma write_first_zeros (pre d post : list Z) k :
  mem_write (pre ++ replicate (length d + k) 0 ++ post) (length pre) d
  = Ret (pre ++ d ++ replicate k 0 ++ post).
Proof.
  rewrite (mem_write_at _ pre (replicate (length d + k) 0 ++ post)) by
    (done || (rewrite length_app, length_replicate; lia)).
  rewrite replicate_add, <- app_assoc, drop_app_length' by (by rewrite length_replicate). done.
Qed.

Lemma write_zeros (out t : list Z) k :
  mem_write (out ++ replicate (length t + k) 0) (length out) t = Ret ((out ++ t) ++ replicate k 0).
Proof.
  pose proof (write_first_zeros out t [] k) as Hw. rewrite !app_nil_r in Hw. by rewrite <- app_assoc.
Qed.

Lemma write_last_zeros (pre d post : list Z) k n :
  n = (length pre + k)%nat ->
  mem_write (pre ++ replicate (k + length d) 0 ++ post) n d
  = Ret (pre ++ replicate k 0 ++ d ++ post).
Proof.
  intros ->. rewrite (mem_write_at _ (pre ++ replicate k 0) (replicate (length d) 0 ++ post)).
  - rewrite drop_app_length' by (by rewrite length_replicate). by rewrite <- !app_assoc.
  - by rewrite replicate_add, <- !app_assoc.
  - by rewrite length_app, length_replicate.
  - rewrite length_app, length_replicate. lia.
Qed.

Lemma fill_loop_ok l2 : forall l1,
  Forall item_ok l2 -> Z.of_nat (blobs l2) < 2 ^ 64 ->
  fill_loop (concat (entry_of <$> l1) ++ replicate (20 * length l2) 0
             ++ replicate (blobs l2) 0 ++ concat (blob <$> rev l1))
    (20 * (length l1 + length l2)) (length l1) (Z.of_nat (blobs l2)) l2
  = Ret (concat (entry_of <$> (l1 ++ l2)) ++ concat (blob <$> rev (l1 ++ l2)), 0).
Proof.
  induction l2 as [|i l2 IH]; intros l1 Hok Hlt; cbn [fill_loop].
  { rewrite !app_nil_r. done. }
  apply Forall_cons in Hok as [Hi Hok]. rewrite (entry_of_u32 _ Hi).
  rewrite blobs_cons in *. pose proof (length_blob i) as Hb.
  pose proof (length_string_bytes (plugin_name i)) as Hp.
  pose proof (length_string_bytes (mime_type i)) as Hm.
  set (p := string_bytes (plugin_name i)) in *. set (m := string_bytes (mime_type i)) in *.
  rewrite <- Hp, <- Hm. unfold data_size.
  set (pre := concat (entry_of <$> l1)). set (post := concat (blob <$> rev l1)).
  assert (Hpre : length pre = (20 * length l1)%nat) by apply length_entries.
  replace (20 * length (i :: l2))%nat with (length (entry_of i) + 20 * length l2)%nat
    by (rewrite length_entry_of; cbn [length]; lia).
  replace (sizeof_entry * length l1)%nat with (length pre) by (rewrite Hpre; done).
  rewrite write_first_zeros. cbn [mbind outcome_bind].
  assert (Hbl : length (blob i) = (length m + length p + length (item_data i))%nat)
    by (unfold blob; rewrite !length_app; unfold m, p; lia).
  set (pre' := pre ++ entry_of i ++ replicate (20 * length l2) 0).
  assert (Hpre' : length pre' = (20 * (length l1 + length (i :: l2)))%nat).
  { unfold pre'. rewrite !length_app, length_replicate, length_entry_of, Hpre. cbn [length]. lia. }
  replace (pre ++ entry_of i ++ replicate (20 * length l2) 0 ++ replicate (length (blob i) + blobs l2) 0 ++ post)
    with (pre' ++ replicate (blobs l2 + length m + length p + length (item_data i)) 0 ++ post)
    by (unfold pre'; rewrite <- !app_assoc; do 4 f_equal; f_equal; lia).
  rewrite (u64_small (Z.of_nat _ - _)) by int_lia.
  rewrite (write_last_zeros pre' (item_data i) post (blobs l2 + length m + length p)) by (rewrite Hpre'; lia).
  cbn [mbind outcome_bind]. rewrite (u64_small (_ - Z.of_nat (length p))) by int_lia.
  rewrite (write_last_zeros pre' p _ (blobs l2 + length m)) by (rewrite Hpre'; lia).
  cbn [mbind outcome_bind]. rewrite (u64_small (_ - Z.of_nat (length m))) by int_lia.
  rewrite (write_last_zeros pre' m _ (blobs l2)) by (rewrite Hpre'; lia).
  cbn [mbind outcome_bind].
  specialize (IH (l1 ++ [i]) Hok ltac:(lia)).
  rewrite <- (app_assoc l1 [i] l2) in IH. cbn [app] in IH. rewrite <- IH.
  rewrite length_app, fmap_app, concat_app, rev_app_distr, fmap_app, concat_app.
  cbn [rev app length fmap list_fmap concat]. f_equal; try lia.
  unfold pre'. rewrite !app_nil_r, <- !app_assoc. unfold blob. by rewrite <- !app_assoc.
Qed.

(** ** Serialization *)

(** The work space of [try_compression] stays below the limit of [GNUNET_malloc]. *)
Definition small (l : list MetaItem) : Prop :=
  let n := Z.of_nat (length (encode l)) in n + n / 100 + 20 <= GNUNET_MAX_MALLOC_CHECKED.

Lemma small_le l l' : small l -> (length (encode l') <= length (encode l))%nat -> small l'.
Proof. unfold small. intros Hs Hl. Z.div_mod_to_equations. lia. Qed.

Lemma small_bound l : small l -> Z.of_nat (length (encode l)) + 20 <= GNUNET_MAX_MALLOC_CHECKED.
Proof. unfold small. intros Hs. Z.div_mod_to_equations. lia. Qed.

Lemma length_le_encode l : (length l <= length (encode l))%nat.
Proof. rewrite length_encode. lia. Qed.

Lemma try_compression_ok l :
  small l -> exists comp, try_compression (encode l) = Ret comp /\ compressed_ok comp l.
Proof.
  intros Hs. unfold try_compression. rewrite malloc_ok by exact Hs. cbn [mbind outcome_bind].
  destruct (compress2 _ _) as [c|] eqn:Hc; [ | by exists None ].
  destruct (Z.ltb_spec (Z.of_nat (length c)) (Z.of_nat (length (encode l)))); [ | by exists None ].
  exists (Some c). split; [ done | ]. split; [ lia | eauto ].
Qed.

(** A header and what follows it, in a buffer of zeros *)
Lemma write_packed (h body : list Z) k n :
  length h = sizeof_md_header -> n = (sizeof_md_header + (length body + k))%nat ->
  (dst ← mem_write (replicate n 0) 0 h; mem_write dst sizeof_md_header body)
  = Ret (h ++ body ++ replicate k 0).
Proof.
  intros Hh ->. rewrite <- Hh.
  pose proof (write_first_zeros [] h [] (length body + k)) as Hw.
  cbn [app length] in Hw. rewrite !app_nil_r in Hw. rewrite Hw. cbn [mbind outcome_bind].
  pose proof (write_first_zeros h body [] k) as Hw'. rewrite !app_nil_r in Hw'. done.
Qed.

Lemma length_meta_data_header v n s : length (meta_data_header v n s) = sizeof_md_header.
Proof. apply length_encode_fields. done. Qed.

Lemma packed_u32 comp l :
  small l ->
  packed comp l
  = match comp with
    | Some c => meta_data_header (Z.lor 2 HEADER_COMPRESSED) (u32 (Z.of_nat (length l)))
                  (u32 (Z.of_nat (length (encode l)))) ++ c
    | None => meta_data_header 2 (u32 (Z.of_nat (length l)))
                (u32 (Z.of_nat (length (encode l)))) ++ encode l
    end.
Proof.
  intros Hs%small_bound. pose proof (length_le_encode l). unfold GNUNET_MAX_MALLOC_CHECKED in *.
  rewrite !u32_small by int_lia. done.
Qed.

Lemma build_ok comp l :
  small l -> compressed_ok comp l ->
  build (Z.of_nat (length l)) (Z.of_nat (length (encode l))) comp (encode l) = Ret (packed comp l).
Proof.
  intros Hs Hc. rewrite packed_u32 by done. pose proof (small_bound _ Hs) as Hb. unfold build.
  destruct comp as [c|]; [ destruct Hc as [Hc _] | ];
    (rewrite malloc_ok by (change (Z.of_nat sizeof_md_header) with 12; lia));
    cbn [mbind outcome_bind].
  - rewrite (write_packed _ c 0) by (apply length_meta_data_header || (unfold sizeof_md_header; lia)).
    cbn [replicate]. by rewrite app_nil_r.
  - rewrite (write_packed _ (encode l) 0) by (apply length_meta_data_header || (unfold sizeof_md_header; lia)).
    cbn [replicate]. by rewrite app_nil_r.
Qed.

Lemma mem_read_prefix (a b : list Z) n : n = length a -> mem_read (a ++ b) 0 n = Ret a.
Proof. intros ->. exact (mem_read_app [] a b (length a) eq_refl). Qed.

Lemma bind_bind {A B C} (m : outcome A) (f : A -> outcome B) (g : B -> outcome C) :
  ((m ≫= f) ≫= g) = (m ≫= fun a => f a ≫= g).
Proof. by destruct m. Qed.

Lemma build_sbuf_ok comp l :
  small l -> compressed_ok comp l ->
  build_sbuf (Z.of_nat (length l)) (Z.of_nat (length (encode l))) comp (encode l)
  = Ret (packed comp l).
Proof.
  intros Hs Hc. rewrite packed_u32 by done. pose proof (small_bound _ Hs) as Hb. unfold build_sbuf.
  rewrite malloc_ok by (change (Z.of_nat sizeof_md_header) with 12; lia). cbn [mbind outcome_bind].
  destruct comp as [c|].
  - destruct Hc as [Hc _]. rewrite gnunet_assert_true by (apply Z.ltb_lt; lia).
    cbn [mbind outcome_bind]. rewrite <- bind_bind.
    rewrite (write_packed _ c (length (encode l) - length c)) by (apply length_meta_data_header || (unfold sizeof_md_header; lia)).
    cbn [mbind outcome_bind]. rewrite app_assoc, mem_read_prefix; [ done | ].
    rewrite length_app, length_meta_data_header. lia.
  - rewrite <- bind_bind.
    rewrite (write_packed _ (encode l) 0) by (apply length_meta_data_header || (unfold sizeof_md_header; lia)).
    cbn [mbind outcome_bind]. rewrite app_assoc, mem_read_prefix; [ done | ].
    rewrite length_app, length_meta_data_header. lia.
Qed.

(** The bytes from entry [i] on are the encoding of the items that are left. *)
Lemma read_payload l1 l2 :
  mem_read (encode (rev (l1 ++ l2))) (sizeof_entry * length l1) (length (encode (rev l2)))
  = Ret (encode (rev l2)).
Proof.
  apply (mem_read_at _ (concat (entry_of <$> l1)) _ (concat (blob <$> rev l1))); [ | | done ].
  - unfold encode. rewrite !rev_involutive, rev_app_distr, fmap_app, concat_app, concat_blob_app.
    by rewrite <- !app_assoc.
  - by rewrite length_entries.
Qed.

(** What a serialization into a fresh buffer yields: as many of the (largest) items as
    fit, all of them unless [opt] allows for less *)
Definition serialized (max opt : Z) (l : list MetaItem) (r : Z) (t : option (list Z)) : Prop :=
  (r = GNUNET_SYSERR /\ t = None /\ Z.land opt GNUNET_CONTAINER_META_DATA_SERIALIZE_PART = 0
   /\ max < Z.of_nat (length (encode l)) + 12)
  \/ exists k comp, (k <= length l)%nat /\ compressed_ok comp (take k l)
     /\ t = Some (packed comp (take k l)) /\ r = Z.of_nat (length (packed comp (take k l)))
     /\ forall j, (k < j <= length l)%nat ->
        Z.land opt GNUNET_CONTAINER_META_DATA_SERIALIZE_PART <> 0
        /\ max < Z.of_nat (length (encode (take j l))) + 12.

Lemma serialized_all max opt l comp :
  compressed_ok comp l ->
  serialized max opt l (Z.of_nat (length (packed comp l))) (Some (packed comp l)).
Proof.
  intros Hc. right. exists (length l), comp. rewrite firstn_all. split_and!; try done. intros j Hj. lia.
Qed.

(** Leaving out the last item *)
Lemma serialized_snoc max opt l i r t :
  Z.land opt GNUNET_CONTAINER_META_DATA_SERIALIZE_PART <> 0 ->
  max < Z.of_nat (length (encode (l ++ [i]))) + 12 ->
  serialized max opt l r t -> serialized max opt (l ++ [i]) r t.
Proof.
  intros Hopt Hmax [(_ & _ & Hz & _)|(k & comp & Hk & Hc & Ht & Hr & Hj)]; [ done | ].
  right. exists k, comp. rewrite take_app_le by done. rewrite length_app. cbn [length].
  split_and!; [ lia | done | done | done | ]. intros j Hlt.
  destruct (decide (j <= length l)%nat) as [Hle|Hgt].
  - rewrite take_app_le by done. apply Hj. lia.
  - rewrite take_ge by (rewrite length_app; cbn; lia). done.
Qed.

Definition same_contents (md md' : GNUNET_CONTAINER_MetaData) : Prop :=
  md_items md' = md_items md /\ item_count md' = item_count md /\ sbuf_ok md'.

(** The cache is filled in the first attempt. *)
Lemma fill_sbuf md comp i left l :
  sbuf_ok md -> small l -> compressed_ok comp l ->
  (i = 0%nat -> l = md_items md) -> item_count md = Z.of_nat (length (md_items md)) ->
  left = Z.of_nat (length (encode l)) ->
  exists md', match sbuf md, i with
    | None, O => s ← build_sbuf (item_count md) left comp (encode l);
                 Ret (mk_md (md_items md) (Some s) (item_count md))
    | _, _ => Ret md
    end = Ret md' /\ same_contents md md'.
Proof.
  intros Hs Hsm Hc Hi Hcnt ->. destruct (sbuf md) as [s|] eqn:Es; [ by exists md | ].
  destruct i as [|i]; [ | by exists md ]. specialize (Hi eq_refl). subst l.
  rewrite Hcnt, build_sbuf_ok by done. eexists. split; [ reflexivity | ].
  split_and!; [ done | done | ]. cbn. eauto.
Qed.

Lemma attempt_ok opt l :
  small l ->
  exists comp,
    (if Z.land opt GNUNET_CONTAINER_META_DATA_SERIALIZE_NO_COMPRESS =? 0
     then try_compression (encode l) else Ret None) = Ret comp /\ compressed_ok comp l.
Proof. intros Hs. destruct (_ =? 0); [ by apply try_compression_ok | by exists None ]. Qed.

Lemma left_without l i :
  small (l ++ [i]) ->
  u64 (Z.of_nat (length (encode (l ++ [i]))) - Z.of_nat sizeof_entry - data_size i
       - string_len (plugin_name i) - string_len (mime_type i)) = Z.of_nat (length (encode l)).
Proof.
  intros Hb%small_bound. rewrite length_encode_snoc in *. change (Z.of_nat sizeof_entry) with 20.
  unfold GNUNET_MAX_MALLOC_CHECKED in Hb.
  pose proof (string_len_nonneg (plugin_name i)). pose proof (string_len_nonneg (mime_type i)).
  assert (0 <= data_size i) by (unfold data_size; lia). rewrite u64_small by int_lia. lia.
Qed.

Lemma attempt_loop_ok max opt l2 : forall l1 md clen,
  small (rev (l1 ++ l2)) -> md_items md = rev (l1 ++ l2) ->
  item_count md = Z.of_nat (length (l1 ++ l2)) -> sbuf_ok md ->
  exists r md' t,
    attempt_loop md None max opt (encode (rev (l1 ++ l2))) (length l1)
      (Z.of_nat (length (encode (rev l2)))) clen l2 = Ret (r, md', t)
    /\ same_contents md md' /\ serialized max opt (rev l2) r t.
Proof.
  induction l2 as [|i l2 IH]; intros l1 md clen Hs Hmd Hcnt Hsb.
  { eexists _, md, _. split; [ reflexivity | ]. split; [ done | ].
    apply (serialized_all max opt [] None I). }
  assert (Hsm : small (rev (i :: l2))).
  { eapply small_le; [ exact Hs | ]. rewrite rev_app_distr, length_encode_app. lia. }
  cbn [attempt_loop]. rewrite Nat2Z.id, read_payload. cbn [mbind outcome_bind].
  destruct (attempt_ok opt _ Hsm) as (comp & -> & Hc). cbn [mbind outcome_bind].
  destruct (fill_sbuf md comp (length l1) (Z.of_nat (length (encode (rev (i :: l2))))) (rev (i :: l2)))
    as (md' & -> & Hmd' & Hcnt' & Hsb'); try done.
  { intros Hl1%nil_length_inv. by rewrite Hmd, Hl1. }
  { by rewrite Hmd, length_rev. }
  cbn [mbind outcome_bind].
  assert (Hn : u32 (item_count md' - Z.of_nat (length l1)) = Z.of_nat (length (rev (i :: l2)))).
  { rewrite Hcnt', Hcnt, length_app, length_rev. pose proof (small_bound _ Hsm) as Hb.
    pose proof (length_le_encode (rev (i :: l2))) as Hle. rewrite length_rev in Hle.
    unfold GNUNET_MAX_MALLOC_CHECKED in Hb. rewrite u32_small by int_lia. lia. }
  destruct (orb _ _) eqn:Hfit.
  { rewrite Hn, build_ok by done. eexists _, md', _. split; [ reflexivity | ].
    split; [ done | ]. by apply serialized_all. }
  apply orb_false_iff in Hfit as [Hfit _]. apply Z.leb_gt in Hfit.
  change (Z.of_nat sizeof_md_header) with 12 in Hfit.
  destruct (Z.eqb_spec (Z.land opt GNUNET_CONTAINER_META_DATA_SERIALIZE_PART) 0) as [Hopt|Hopt].
  { eexists _, md', _. split; [ reflexivity | ]. split; [ done | ]. left. split_and!; done. }
  cbn [rev] in *. rewrite left_without by done.
  specialize (IH (l1 ++ [i]) md' (match comp with Some c => length c | None => clen end)).
  assert (Hsnoc : length (l1 ++ [i]) = S (length l1)) by (rewrite length_app; cbn; lia).
  rewrite Hsnoc, <- !app_assoc in IH. cbn [app] in IH.
  destruct IH as (r & md2 & t & Heq & (Hmd2 & Hcnt2 & Hsb2) & Hser); try congruence; try done.
  exists r, md2, t. split; [ exact Heq | ]. split; [ split_and!; congruence || done | ].
  by apply serialized_snoc.
Qed.

Lemma serialize_items_prepare md target max opt :
  md_ok md -> Z.of_nat (length (encode (md_items md))) < GNUNET_MAX_MALLOC_CHECKED ->
  serialize_items md target max opt
  = attempt_loop md target max opt (encode (md_items md)) 0
      (Z.of_nat (length (encode (md_items md)))) 0 (rev (md_items md)).
Proof.
  intros Hmd Hb. unfold serialize_items. unfold GNUNET_MAX_MALLOC_CHECKED in *.
  rewrite serialized_size_rev by int_lia.
  rewrite (proj2 (Z.leb_gt _ _)) by (unfold GNUNET_MAX_MALLOC_CHECKED; lia).
  rewrite malloc_ok by (unfold GNUNET_MAX_MALLOC_CHECKED; lia). cbn [mbind outcome_bind].
  rewrite (mo_count _ Hmd), !Nat2Z.id. pose proof (length_encode (md_items md)) as Hlen.
  replace (u64 _) with (Z.of_nat (blobs (rev (md_items md)))).
  2: { rewrite blobs_rev, u64_small; unfold sizeof_entry; int_lia. }
  pose proof (fill_loop_ok (rev (md_items md)) []) as Hfill.
  cbn [rev fmap list_fmap concat app length] in Hfill.
  rewrite !app_nil_r, <- replicate_add, length_rev, blobs_rev, Nat.add_0_l in Hfill.
  rewrite blobs_rev, Hlen. unfold sizeof_entry in *.
  rewrite Hfill by (apply Forall_rev, Hmd || int_lia). cbn [mbind outcome_bind].
  by rewrite rev_involutive.
Qed.

Lemma serialize_items_ok md max opt :
  md_ok md -> small (md_items md) ->
  exists r md' t, serialize_items md None max opt = Ret (r, md', t)
    /\ same_contents md md' /\ serialized max opt (md_items md) r t.
Proof.
  intros Hmd Hs. pose proof (small_bound _ Hs) as Hb.
  rewrite serialize_items_prepare by (done || lia).
  pose proof (attempt_loop_ok max opt (rev (md_items md)) [] md 0) as Hloop.
  cbn [app length] in Hloop. rewrite !rev_involutive, length_rev in Hloop.
  apply Hloop; [ done | done | apply Hmd | apply Hmd ].
Qed.

Lemma packed_length comp l :
  compressed_ok comp l -> (length (packed comp l) <= length (encode l) + 12)%nat.
Proof.
  unfold packed. destruct comp as [c|]; intros Hc; rewrite length_app, length_meta_data_header;
    unfold sizeof_md_header; [ destruct Hc; lia | lia ].
Qed.

Lemma meta_data_serialize_ok md max opt :
  md_ok md -> small (md_items md) -> 12 <= max ->
  exists r md' t, GNUNET_CONTAINER_meta_data_serialize (Some md) None max opt = Ret (r, Some md', t)
    /\ md_ok md' /\ md_items md' = md_items md /\ serialized max opt (md_items md) r t.
Proof.
  intros Hmd Hs Hmax. unfold GNUNET_CONTAINER_meta_data_serialize.
  change (Z.of_nat sizeof_md_header) with 12. rewrite (proj2 (Z.ltb_ge _ _)) by lia.
  destruct (serialize_items_ok md max opt Hmd Hs) as (r & md' & t & Heq & (Hi & Hc & Hsb) & Hser).
  assert (Hmd' : md_ok md').
  { constructor; rewrite ?Hi, ?Hc; try done; apply Hmd. }
  rewrite Heq. cbn [mbind outcome_bind].
  pose proof (mo_sbuf _ Hmd) as Hsbuf. unfold sbuf_ok in Hsbuf.
  destruct (sbuf md) as [s|]; [ | by eauto 10 ].
  destruct Hsbuf as (comp & Hcomp & ->). pose proof (packed_length comp _ Hcomp) as Hlen.
  pose proof (small_bound _ Hs) as Hb.
  destruct (Z.leb_spec (Z.of_nat (length (packed comp (md_items md)))) max) as [Hle|Hgt].
  - rewrite malloc_ok by lia. cbn [mbind outcome_bind].
    pose proof (write_first_zeros [] (packed comp (md_items md)) [] 0) as Hw.
    cbn [app length replicate] in Hw. rewrite Nat.add_0_r, !app_nil_r in Hw.
    rewrite Nat2Z.id, Hw. eexists _, md, _. split; [ reflexivity | ].
    split_and!; [ done | done | by apply serialized_all ].
  - destruct (Z.eqb_spec (Z.land opt GNUNET_CONTAINER_META_DATA_SERIALIZE_PART) 0) as [Hopt|Hopt];
      [ | by eauto 10 ].
    eexists _, md, _. split; [ reflexivity | ]. split_and!; [ done | done | ].
    left. split_and!; try done. lia.
Qed.

(** ** Deserialization *)

Lemma terminated_ok (pre d post : list Z) off len :
  off = Z.of_nat (length pre) -> len = Z.of_nat (length d) -> last d = Some 0 ->
  terminated (pre ++ d ++ post) off len = Ret true.
Proof.
  intros -> -> Hlast. apply last_Some in Hlast as (d' & ->). unfold terminated.
  rewrite (mem_read_at _ (pre ++ d') [0] post); [ done | by rewrite <- !app_assoc | | done ].
  rewrite !length_app. cbn. lia.
Qed.

Lemma last_string_bytes s : (0 < string_len s) -> last (string_bytes s) = Some 0.
Proof. destruct s as [s|]; [ intros _; apply last_snoc | done ]. Qed.

Lemma terminated_string (pre post : list Z) s off :
  off = Z.of_nat (length pre) ->
  (if 0 <? string_len s then terminated (pre ++ string_bytes s ++ post) off (string_len s) else Ret true)
  = Ret true.
Proof.
  intros Hoff. destruct (Z.ltb_spec 0 (string_len s)); [ | done ].
  apply terminated_ok; [ done | by rewrite length_string_bytes | by apply last_string_bytes ].
Qed.

Lemma c_str_app s l : Forall (fun c => c <> 0) s -> c_str (s ++ 0 :: l) = Ret s.
Proof.
  induction 1 as [|c s Hc Hs IH]; [ done | ]. cbn [app c_str].
  by rewrite (proj2 (Z.eqb_neq _ _) Hc), IH.
Qed.

Lemma string_at_ok (pre post : list Z) s off :
  off = Z.of_nat (length pre) -> no_nul s ->
  string_at (pre ++ string_bytes s ++ post) off (string_len s) = Ret s.
Proof.
  intros -> Hs. unfold string_at. destruct s as [s|]; [ | done ]. cbn [string_len string_bytes no_nul] in *.
  rewrite (proj2 (Z.eqb_neq _ _)) by lia. rewrite Nat2Z.id, drop_app_length, <- app_assoc.
  cbn [app]. by rewrite c_str_app.
Qed.

(** The checks of the text of an item and of its format *)
Lemma text_terminated (pre : list Z) i post off :
  item_ok i -> off = Z.of_nat (length pre) ->
  (if is_text (item_format i) then
     if data_size i =? 0 then Ret false
     else terminated (pre ++ item_data i ++ post) off (data_size i)
   else Ret true) = Ret true.
Proof.
  intros Hi Hoff. pose proof (io_text _ Hi) as Ht. destruct (is_text _); [ | done ].
  specialize (Ht eq_refl). destruct (Z.eqb_spec (data_size i) 0) as [Hz|_].
  - unfold data_size in Hz. by destruct (item_data i).
  - by apply terminated_ok.
Qed.

Lemma known_format i :
  item_ok i ->
  negb (is_text (item_format i)) && negb (EXTRACTOR_METAFORMAT_BINARY =? item_format i) = false.
Proof.
  intros Hi. destruct (io_format _ Hi) as [-> | ->]; [ done | by rewrite Z.eqb_refl, andb_false_r ].
Qed.

Lemma decode_entry i :
  item_ok i -> decode_fields [4; 4; 4; 4; 4]%nat (entry_of i)
  = [item_type i; item_format i; data_size i; string_len (plugin_name i); string_len (mime_type i)].
Proof.
  intros Hi. destruct (entry_fields_fit i Hi) as (? & ? & ? & ? & ?).
  apply decode_fields_at. fits.
Qed.

(** The data of the items that are left, before that of the items that were read *)
Lemma encode_split l1 i l2 :
  encode (rev (l1 ++ i :: l2))
  = (concat (entry_of <$> (l1 ++ i :: l2)) ++ concat (blob <$> rev l2))
    ++ string_bytes (mime_type i) ++ string_bytes (plugin_name i) ++ item_data i
    ++ concat (blob <$> rev l1).
Proof.
  unfold encode. rewrite rev_involutive, rev_app_distr. cbn [rev].
  rewrite !concat_blob_app. cbn [fmap list_fmap concat]. rewrite app_nil_r. unfold blob.
  by rewrite <- !app_assoc.
Qed.

Lemma encode_entry l1 i l2 :
  encode (rev (l1 ++ i :: l2))
  = concat (entry_of <$> l1) ++ entry_of i
    ++ (concat (entry_of <$> l2) ++ concat (blob <$> rev (l1 ++ i :: l2))).
Proof.
  unfold encode. rewrite rev_involutive, fmap_app, concat_app. cbn [fmap list_fmap concat].
  by rewrite <- !app_assoc.
Qed.

Lemma entries_loop_ok l2 : forall l1 md,
  Forall item_ok l2 ->
  entries_loop (encode (rev (l1 ++ l2))) (Z.of_nat (20 * length (l1 ++ l2))) (length l1)
    (length l2) (Z.of_nat (blobs l2)) md = insert_all md l2.
Proof.
  induction l2 as [|i l2 IH]; intros l1 md Hok; [ done | ].
  apply Forall_cons in Hok as [Hi Hok]. cbn [length entries_loop insert_all].
  rewrite (mem_read_at _ (concat (entry_of <$> l1)) (entry_of i) _ _ _ (encode_entry l1 i l2))
    by (rewrite ?length_entries, ?length_entry_of; done).
  cbn [mbind outcome_bind]. rewrite (decode_entry i Hi).
  set (pre := concat (entry_of <$> (l1 ++ i :: l2)) ++ concat (blob <$> rev l2)).
  set (m := string_bytes (mime_type i)). set (p := string_bytes (plugin_name i)).
  assert (Hm : Z.of_nat (length m) = string_len (mime_type i)) by apply length_string_bytes.
  assert (Hp : Z.of_nat (length p) = string_len (plugin_name i)) by apply length_string_bytes.
  assert (Hpre : Z.of_nat (length pre) = Z.of_nat (20 * length (l1 ++ i :: l2)) + Z.of_nat (blobs l2)).
  { unfold pre. rewrite length_app, length_entries. fold (blobs (rev l2)). rewrite blobs_rev. lia. }
  assert (Hd : data_size i = Z.of_nat (length (item_data i))) by done.
  assert (Hblob : Z.of_nat (blobs (i :: l2)) = Z.of_nat (blobs l2) + Z.of_nat (length m)
    + Z.of_nat (length p) + data_size i) by (rewrite blobs_cons; pose proof (length_blob i); lia).
  rewrite known_format by done. rewrite (proj2 (Z.ltb_ge _ (data_size i))) by lia.
  pose proof (encode_split l1 i l2) as E. fold pre m p in E. rewrite E. clearbody pre.
  set (post := concat (blob <$> rev l1)) in *. set (M := Z.of_nat (20 * length (l1 ++ i :: l2))) in *.
  rewrite (mem_read_at (pre ++ m ++ p ++ item_data i ++ post) (pre ++ m ++ p) (item_data i) post)
    by (rewrite <- ?app_assoc, ?length_app; done || lia).
  cbn [mbind outcome_bind].
  pose proof (text_terminated (pre ++ m ++ p) i post) as HT. rewrite <- !app_assoc in HT.
  rewrite HT by (done || (rewrite !length_app; lia)). clear HT.
  cbn [mbind outcome_bind negb]. rewrite (proj2 (Z.ltb_ge _ (string_len (plugin_name i)))) by lia.
  pose proof (terminated_string (pre ++ m) (item_data i ++ post) (plugin_name i)) as HT.
  pose proof (string_at_ok (pre ++ m) (item_data i ++ post) (plugin_name i)) as HS.
  fold p in HT, HS. rewrite <- !app_assoc in HT, HS.
  rewrite HT by (rewrite length_app; lia). cbn [mbind outcome_bind negb].
  rewrite HS by (apply Hi || (rewrite length_app; lia)). cbn [mbind outcome_bind negb]. clear HT HS.
  rewrite (proj2 (Z.ltb_ge _ (string_len (mime_type i)))) by lia.
  rewrite (terminated_string pre (p ++ item_data i ++ post) (mime_type i)) by lia.
  cbn [mbind outcome_bind negb].
  rewrite (string_at_ok pre (p ++ item_data i ++ post) (mime_type i)) by (apply Hi || lia).
  cbn [mbind outcome_bind negb].
  destruct (GNUNET_CONTAINER_meta_data_insert _ _ _ _ _ _) as [[r md']| |]; [ | done | done ].
  cbn [mbind outcome_bind]. rewrite <- (IH (l1 ++ [i]) md' Hok).
  rewrite <- E, <- app_assoc. cbn [app]. unfold M.
  f_equal; [ rewrite length_app; cbn; lia | lia ].
Qed.

Lemma create_ok : md_ok GNUNET_CONTAINER_meta_data_create.
Proof. constructor; [ constructor | constructor | constructor | done | done ]. Qed.

Lemma decompress_ok comp l c :
  comp = Some c -> compressed_ok comp l -> Z.of_nat (length (encode l)) <= GNUNET_MAX_MALLOC_CHECKED ->
  decompress c (Z.of_nat (length (encode l))) = Ret (Some (encode l)).
Proof.
  intros -> [_ [cap Hc]] Hm. unfold decompress. rewrite malloc_ok by done. cbn [mbind outcome_bind].
  rewrite (compress2_uncompress _ _ _ Hc), Nat2Z.id.
  pose proof (write_first_zeros [] (encode l) [] 0) as Hw.
  cbn [app length replicate] in Hw. rewrite Nat.add_0_r, !app_nil_r in Hw. by rewrite Hw.
Qed.

(** Deserialization inserts the items of a serialized form from the last to the first. *)
Lemma deserialize_packed comp l :
  small l -> compressed_ok comp l -> Forall item_ok l ->
  GNUNET_CONTAINER_meta_data_deserialize (packed comp l)
  = (md ← insert_all GNUNET_CONTAINER_meta_data_create (rev l); Ret (Some md)).
Proof.
  intros Hs Hc Hok. pose proof (small_bound _ Hs) as Hb. pose proof (length_le_encode l) as Hle.
  pose proof (length_encode l) as Hlen. unfold GNUNET_MAX_MALLOC_CHECKED in Hb.
  pose proof (entries_loop_ok (rev l) [] GNUNET_CONTAINER_meta_data_create) as Hloop.
  cbn [app length] in Hloop. rewrite rev_involutive, length_rev, blobs_rev in Hloop.
  specialize (Hloop ltac:(by apply Forall_rev)). rewrite <- Hloop.
  set (v := match comp with Some _ => Z.lor 2 HEADER_COMPRESSED | None => 2 end).
  set (body := match comp with Some c => c | None => encode l end).
  set (hdr := meta_data_header v (Z.of_nat (length l)) (Z.of_nat (length (encode l)))).
  assert (Hpk : packed comp l = hdr ++ body) by by destruct comp.
  assert (Hhdr : length hdr = sizeof_md_header) by apply length_meta_data_header.
  assert (Hdec : decode_fields [4; 4; 4]%nat hdr = [v; Z.of_nat (length l); Z.of_nat (length (encode l))]).
  { apply decode_fields_at. assert (0 <= v < 2 ^ 32) by (unfold v; destruct comp; split; vm_compute; congruence). fits. }
  unfold GNUNET_CONTAINER_meta_data_deserialize. rewrite Hpk.
  rewrite (proj2 (Nat.ltb_ge _ _)) by (rewrite length_app; lia).
  rewrite mem_read_prefix by done. cbn [mbind outcome_bind]. rewrite Hdec.
  assert (Hv : (Z.land v HEADER_VERSION_MASK = 2)
    /\ negb (Z.land v HEADER_COMPRESSED =? 0) = match comp with Some _ => true | None => false end).
  { unfold v. by destruct comp. }
  destruct Hv as [-> ->]. cbn [Z.eqb Pos.eqb negb]. unfold sizeof_entry.
  rewrite (proj2 (Z.ltb_ge (Z.of_nat (length (encode l))) _)) by lia.
  rewrite drop_app_length' by done.
  replace (Z.of_nat 20 * Z.of_nat (length l)) with (Z.of_nat (20 * length l)) by lia.
  replace (Z.of_nat (length (encode l)) - Z.of_nat (20 * length l)) with (Z.of_nat (blobs l)) by lia.
  rewrite Nat2Z.id. destruct comp as [c|]; subst v body.
  - rewrite (proj2 (Z.leb_gt _ _)) by (unfold GNUNET_MAX_MALLOC_CHECKED; lia).
    rewrite (decompress_ok (Some c) l c) by (done || (unfold GNUNET_MAX_MALLOC_CHECKED; lia)).
    done.
  - rewrite length_app, Hhdr, Nat.add_comm, Nat.add_sub, Z.eqb_refl. done.
Qed.

(** ** The first attempt, for any target *)

Lemma first_attempt md target max opt :
  md_ok md -> Z.of_nat (length (encode (md_items md))) < GNUNET_MAX_MALLOC_CHECKED ->
  md_items md <> [] -> sbuf md = None -> 12 <= max ->
  exists rest,
    GNUNET_CONTAINER_meta_data_serialize (Some md) target max opt
    = (comp ← if Z.land opt GNUNET_CONTAINER_META_DATA_SERIALIZE_NO_COMPRESS =? 0
              then try_compression (encode (md_items md)) else Ret None;
       rest comp)
    /\ forall comp, small (md_items md) -> compressed_ok comp (md_items md) ->
       (Z.of_nat (length (encode (md_items md))) + 12 <= max
        \/ exists c, comp = Some c /\ Z.of_nat (length c) <= max) ->
       rest comp
       = (t ← store_result target (packed comp (md_items md))
                (match comp with Some c => length c | None => 0%nat end);
          Ret (Z.of_nat (length (packed comp (md_items md))),
               Some (mk_md (md_items md) (Some (packed comp (md_items md))) (item_count md)), Some t)).
Proof.
  intros Hmd Hb Hne Hsb Hmax. unfold GNUNET_CONTAINER_meta_data_serialize.
  change (Z.of_nat sizeof_md_header) with 12. rewrite (proj2 (Z.ltb_ge _ _)) by lia. rewrite Hsb.
  rewrite serialize_items_prepare by done.
  destruct (rev (md_items md)) as [|pos l] eqn:Erev.
  { destruct Hne. rewrite <- (rev_involutive (md_items md)), Erev. done. }
  cbn [attempt_loop]. change (sizeof_entry * 0)%nat with 0%nat.
  pose proof (mem_read_prefix (encode (md_items md)) [] _ eq_refl) as Hread.
  rewrite app_nil_r in Hread. rewrite Nat2Z.id, Hread.
  cbn [mbind outcome_bind]. rewrite Hsb, bind_bind. eexists. split; [ reflexivity | ].
  intros comp Hs Hc Hfit. cbn beta.
  rewrite (mo_count _ Hmd), build_sbuf_ok by done. cbn [mbind outcome_bind item_count].
  replace (orb _ _) with true.
  2: { symmetry. apply orb_true_iff. rewrite Z.leb_le. change (Z.of_nat sizeof_md_header) with 12.
    destruct Hfit as [Hfit|(c & -> & Hfit)]; [ by left | right; by apply Z.leb_le ]. }
  pose proof (length_le_encode (md_items md)) as Hle. unfold GNUNET_MAX_MALLOC_CHECKED in Hb.
  rewrite Z.sub_0_r, u32_small by int_lia. rewrite build_ok by done. cbn [mbind outcome_bind].
  by destruct (store_result _ _ _).
Qed.

(** ** Insertion and removal as operations of the map *)

(** A new key adds an item; unless the name it is stored under is in the container already,
    the container stays a map. *)
Definition insert_view (md md' : GNUNET_CONTAINER_MetaData) (i : MetaItem) (r : Z) : Prop :=
  match view md !! key i with
  | Some (f, m, p) =>
      r = GNUNET_SYSERR /\ md_ok md'
      /\ view md' = <[key i :=
           (if (EXTRACTOR_METAFORMAT_C_STRING =? f) && (EXTRACTOR_METAFORMAT_UTF8 =? item_format i)
            then EXTRACTOR_METAFORMAT_UTF8 else f,
            match m with Some m => Some m | None => mime_type i end, p)]> (view md)
  | None =>
      r = GNUNET_OK /\ md_items md' ≡ₚ stored i :: md_items md
      /\ (view md !! key (stored i) = None ->
          md_ok md' /\ view md' = <[key (stored i) := attributes i]> (view md))
  end.

Lemma insert_refines md i :
  md_ok md -> Z.of_nat (length (md_items md)) + 1 < 2 ^ 32 -> args_ok i ->
  exists r md', insert_item md i = Ret (r, md') /\ insert_view md md' i r.
Proof.
  intros Hmd Hlen Ha. pose proof (mo_keys _ Hmd) as Hk. unfold insert_view.
  pose proof (insert_scan_spec (item_type i) (item_data i) _ (mo_sorted _ Hmd)) as Hsc.
  destruct (insert_scan _ _ _) as [n [pos|]] eqn:Es.
  - destruct Hsc as [Hn Hkey]. change (key pos = key i) in Hkey.
    assert (Hpos : pos ∈ md_items md) by by eapply list_elem_of_lookup_2.
    destruct (insert_found md i n pos Ha Es Hn) as (md' & -> & Hi & Hc & Hs).
    eexists _, md'. split; [ done | ]. rewrite <- Hkey, (view_lookup _ _ Hk Hpos). cbn [attributes].
    split_and!; [ done | | by rewrite (view_replaced md md' n pos (upgrade pos i)) ].
    apply (replaced_ok md md' n pos (upgrade pos i)); try done. apply upgrade_ok; [ | done ].
    pose proof (mo_items _ Hmd) as HI. rewrite Forall_forall in HI. by apply HI.
  - destruct Hsc as (Hf & _). rewrite (view_lookup_None md (key i)) by done.
    rewrite insert_new by (done || apply Hmd). eexists _, _. split; [ done | ]. split; [ done | ].
    split; [ cbn [md_items]; by rewrite <- Permutation_middle, take_drop | ].
    intros Hst. eapply placed_ok; try done. intros Hin.
    apply list_elem_of_fmap in Hin as (j & Hj & Hin). rewrite Hj, (view_lookup _ _ Hk Hin) in Hst. done.
Qed.

Lemma delete_refines md type d :
  md_ok md -> Z.of_nat (length (md_items md)) < 2 ^ 32 ->
  let '(r, md') := GNUNET_CONTAINER_meta_data_delete md type (Some d) (Z.of_nat (length d)) in
  md_ok md' /\ view md' = delete (type, d) (view md)
  /\ r = if decide (is_Some (view md !! (type, d))) then GNUNET_OK else GNUNET_SYSERR.
Proof.
  intros Hmd Hlen. pose proof (mo_keys _ Hmd) as Hk. unfold GNUNET_CONTAINER_meta_data_delete.
  destruct (delete_scan _ _ _ _) as [n|] eqn:Es.
  - destruct (delete_scan_Some _ _ _ _ _ Es) as (pos & Hn & Ht & Hd).
    specialize (Hd d eq_refl eq_refl). assert (Hkey : key pos = (type, d)) by (unfold key; congruence).
    destruct (deleted_ok md n pos Hmd Hn) as (Hok & _ & Hv); [ lia | ].
    split_and!; [ done | by rewrite <- Hkey | ]. rewrite <- Hkey, decide_True; [ done | ].
    rewrite view_lookup; [ done | done | by eapply list_elem_of_lookup_2 ].
  - apply delete_scan_None in Es; [ | apply Hmd ]. pose proof (view_lookup_None _ _ Es) as Hv.
    split_and!; [ done | by rewrite delete_id | ]. rewrite decide_False; [ done | ].
    rewrite Hv. by intros [? ?].
Qed.

(** ** Comparison as equality of maps *)

(** The map from keys to formats *)
Definition formats (md : GNUNET_CONTAINER_MetaData) : gmap (Z * list Z) Z :=
  (fun a => a.1.1) <$> view md.

Lemma formats_list md :
  formats md = list_to_map ((fun i => (key i, item_format i)) <$> md_items md).
Proof.
  unfold formats, view. rewrite <- list_to_map_fmap. f_equal. rewrite <- list_fmap_compose. done.
Qed.

Lemma formats_summary md1 md2 :
  md_ok md1 -> md_ok md2 ->
  formats md1 = formats md2 <-> item_summary <$> md_items md1 ≡ₚ item_summary <$> md_items md2.
Proof.
  intros H1 H2. rewrite !formats_list.
  set (f := fun i => (key i, item_format i)).
  assert (Hf : forall l, (f <$> l).*1 = key <$> l) by (intros l; by rewrite <- list_fmap_compose).
  assert (Hs : forall l, item_summary <$> l = (fun x : Z * list Z * Z => (x.1.1, x.2, x.1.2)) <$> (f <$> l))
    by (intros l; by rewrite <- list_fmap_compose).
  assert (Hb : forall l, f <$> l = (fun x : Z * Z * list Z => (x.1.1, x.2, x.1.2)) <$> (item_summary <$> l))
    by (intros l; by rewrite <- list_fmap_compose).
  split.
  - intros He. rewrite !Hs. f_equiv. apply list_to_map_inj; [ | | done ]; rewrite Hf; [ apply H1 | apply H2 ].
  - intros Hp. apply list_to_map_proper; [ rewrite Hf; apply H1 | ]. by rewrite !Hb, Hp.
Qed.

(** ** Storing the result in a buffer of the caller *)

(** The copy takes the header alone when nothing was compressed. *)
Lemma store_uncompressed l t :
  (12 <= length t)%nat ->
  store_result (Some t) (packed None l) 0
  = Ret (meta_data_header 2 (Z.of_nat (length l)) (Z.of_nat (length (encode l))) ++ drop 12 t).
Proof.
  intros Ht. unfold store_result, packed. cbn [Nat.add].
  rewrite mem_read_prefix by (by rewrite length_meta_data_header). cbn [mbind outcome_bind].
  rewrite mem_write_ok by (by rewrite length_meta_data_header).
  by rewrite length_meta_data_header.
Qed.

Lemma store_overrun l c t :
  (length t < length c + 12)%nat -> store_result (Some t) (packed (Some c) l) (length c) = Undefined.
Proof.
  intros Ht. unfold store_result, packed.
  assert (Hl : forall h : list Z, length h = sizeof_md_header -> mem_read (h ++ c) 0 (length c + sizeof_md_header) = Ret (h ++ c)).
  { intros h Hh. pose proof (mem_read_prefix (h ++ c) [] (length c + sizeof_md_header)) as Hr.
    rewrite app_nil_r in Hr. apply Hr. rewrite length_app. lia. }
  rewrite Hl by apply length_meta_data_header. cbn [mbind outcome_bind]. unfold mem_write.
  rewrite (proj2 (Nat.leb_gt _ _)); [ done | ].
  rewrite length_app, length_meta_data_header. unfold sizeof_md_header. lia.
Qed.

End Spec.

(** ** Samples *)

Definition sample_extractor : Extractor.
Proof.
  refine {| EXTRACTOR_METAFORMAT_UTF8 := 1; EXTRACTOR_METAFORMAT_BINARY := 2;
            EXTRACTOR_METAFORMAT_C_STRING := 3; EXTRACTOR_METATYPE_FILENAME := 2;
            EXTRACTOR_METATYPE_GNUNET_ORIGINAL_FILENAME := 180;
            EXTRACTOR_METATYPE_PUBLICATION_DATE := 24; EXTRACTOR_METATYPE_THUMBNAIL := 111 |};
    [ lia | int_lia ].
Defined.

(** A compression that leaves out the zeros at the end *)
Fixpoint strip (l : list Z) : list Z :=
  match l with
  | [] => []
  | b :: l' =>
      match strip l' with
      | [] => if b =? 0 then [] else [b]
      | r => b :: r
      end
  end.

Lemma strip_spec l : l = strip l ++ replicate (length l - length (strip l)) 0.
Proof.
  induction l as [|b l IH]; [ done | ]. cbn [strip]. destruct (strip l) as [|c r] eqn:E.
  - destruct (Z.eqb_spec b 0) as [->|_]; cbn [length app Nat.sub replicate]; f_equal;
      rewrite IH at 1; cbn; by rewrite Nat.sub_0_r.
  - cbn [app length Nat.sub]. f_equal. rewrite IH at 1. done.
Qed.

Definition sample_zlib : Zlib.
Proof.
  refine {| compress2 d cap := if Z.of_nat (length (strip d)) <=? cap then Some (strip d) else None;
            uncompress c cap := if Z.of_nat (length c) <=? cap
                                then Some (c ++ replicate (Z.to_nat cap - length c) 0) else None |}.
  - intros d cap c. destruct (Z.leb_spec (Z.of_nat (length (strip d))) cap); [ intros [= <-]; done | done ].
  - intros c cap d. destruct (Z.leb_spec (Z.of_nat (length c)) cap); [ | done ]. intros [= <-].
    rewrite length_app, length_replicate. lia.
  - intros d cap c. destruct (_ <=? _); [ | done ]. intros [= <-].
    pose proof (strip_spec d) as Hd. pose proof (f_equal length Hd) as Hl. rewrite length_app in Hl.
    rewrite (proj2 (Z.leb_le _ _)) by lia. by rewrite Nat2Z.id, <- Hd.
Defined.

(** A thumbnail of 40 bytes and a title *)
Definition sample_items : list MetaItem :=
  [mk_item None (Some [105; 109; 97; 103; 101; 47; 112]) (7 :: replicate 39 0) 111 2;
   mk_item (Some [112]) None [104; 105; 0] 9 1].

Definition sample_md : GNUNET_CONTAINER_MetaData := mk_md sample_items None 2.

Ltac item_ok_sample :=
  constructor; cbn; unfold_ints; try done; try lia; try (by left); try (by right);
  repeat constructor; lia.

Ltac md_ok_sample :=
  constructor; cbn -[replicate];
  [ repeat (apply SSorted_cons || apply SSorted_nil || apply List.Forall_cons || apply List.Forall_nil);
    unfold larger, data_size; cbn; lia
  | apply (bool_decide_unpack _); vm_compute; exact I
  | repeat (apply List.Forall_cons || apply List.Forall_nil); item_ok_sample
  | done | done ].

Lemma sample_md_ok : @md_ok sample_extractor sample_zlib sample_md.
Proof. md_ok_sample. Qed.

(** ** The claims *)

(** C15: Serialization of meta data into a fresh buffer returns for every
    container in its invariant below the allocation limit: it fails only
    without SERIALIZE_PART and when the items do not fit; otherwise
    deserializing the result (compressed or not) yields a container with the
    kept items, which are all of them or, with SERIALIZE_PART, a prefix (the
    largest items) that is as long as max allows. The container and its
    invariant, the cache included, are kept, and a complete result is what
    duplicate yields and equal to the original for test_equal. *)
Theorem meta_data_roundtrip {E : Extractor} {Zl : Zlib} (md : GNUNET_CONTAINER_MetaData) (max opt : Z) :
  md_ok md -> small (md_items md) -> 12 <= max ->
  exists r md' t,
    GNUNET_CONTAINER_meta_data_serialize (Some md) None max opt = Ret (r, Some md', t)
    /\ md_ok md' /\ md_items md' = md_items md
    /\ ((r = GNUNET_SYSERR /\ t = None
         /\ Z.land opt GNUNET_CONTAINER_META_DATA_SERIALIZE_PART = 0
         /\ max < Z.of_nat (length (encode (md_items md))) + 12)
        \/ exists k buf md2, t = Some buf /\ r = Z.of_nat (length buf)
           /\ GNUNET_CONTAINER_meta_data_deserialize buf = Ret (Some md2)
           /\ md_ok md2 /\ md_items md2 ≡ₚ take k (md_items md)
           /\ (forall j, (k < j <= length (md_items md))%nat ->
                Z.land opt GNUNET_CONTAINER_META_DATA_SERIALIZE_PART <> 0
                /\ max < Z.of_nat (length (encode (take j (md_items md)))) + 12)
           /\ (k = length (md_items md) ->
                GNUNET_CONTAINER_meta_data_duplicate (Some md) = Ret (Some md2)
                /\ GNUNET_CONTAINER_meta_data_test_equal false md md2 = GNUNET_YES)).
Proof.
  intros Hmd Hs Hmax. destruct (meta_data_serialize_ok md max opt Hmd Hs Hmax) as (r & md' & t & Heq & Hok & Hi & Hser).
  exists r, md', t. split_and!; [ done | done | done | ].
  destruct Hser as [Hfail|(k & comp & Hk & Hc & -> & -> & Hj)]; [ by left | right ].
  set (l := take k (md_items md)).
  assert (Hsl : small l).
  { eapply small_le; [ exact Hs | ]. pose proof (length_encode_app l (drop k (md_items md))) as Ha.
    unfold l in *. rewrite take_drop in Ha. lia. }
  assert (Hl : Forall item_ok l) by apply Forall_take, Hmd.
  assert (Hkeys : NoDup (key <$> l)).
  { eapply sublist_NoDup; [ apply Hmd | ]. apply fmap_sublist, sublist_take. }
  pose proof (small_bound _ Hsl) as Hb. pose proof (length_le_encode l) as Hle.
  destruct (insert_all_fresh (rev l) GNUNET_CONTAINER_meta_data_create create_ok) as (md2 & Hins & Hok2 & Hp2).
  { by apply Forall_rev. }
  { cbn [md_items GNUNET_CONTAINER_meta_data_create app]. by rewrite <- Permutation_rev. }
  { cbn [md_items GNUNET_CONTAINER_meta_data_create app]. rewrite length_rev.
    unfold GNUNET_MAX_MALLOC_CHECKED in Hb. lia. }
  cbn [md_items GNUNET_CONTAINER_meta_data_create app] in Hp2. rewrite <- Permutation_rev in Hp2.
  exists k, (packed comp l), md2. rewrite deserialize_packed, Hins by done.
  split_and!; [ done | done | done | done | done | done | ]. intros ->.
  unfold l in *. rewrite firstn_all in *. split; [ | apply test_equal_spec; [ done | done | by rewrite Hp2 ] ].
  unfold GNUNET_CONTAINER_meta_data_duplicate. by rewrite Hins.
Qed.

Lemma meta_data_roundtrip_witness :
  let E := sample_extractor in let Zl := sample_zlib in
  exists r md' t,
    GNUNET_CONTAINER_meta_data_serialize (Some sample_md) None 100 GNUNET_CONTAINER_META_DATA_SERIALIZE_PART
    = Ret (r, Some md', t) /\ md_ok md' /\ md_items md' = md_items sample_md.
Proof.
  intros E Zl.
  destruct (meta_data_roundtrip sample_md 100 GNUNET_CONTAINER_META_DATA_SERIALIZE_PART sample_md_ok)
    as (r & md' & t & Heq & Hok & Hi & _); [ vm_compute; congruence | lia | ].
  exists r, md', t. exact (conj Heq (conj Hok Hi)).
Defined.

(** C16: A container of meta data, a list sorted by size, implements a map
    from type and data to format, MIME type and plugin: inserting a known key
    fails and only completes what is there (a missing MIME type, UTF-8 for a C
    string), inserting a new key adds one item (with the separators of a file
    name changed), removing type and data deletes exactly that key, each with
    the right result, and the invariant (order, different keys, count, valid
    cache) is kept, with one exception: when a file name with backslashes is
    inserted whose changed form is in the container already, the item is added
    all the same and the keys are no longer different
    (meta_data_backslash_name_twice). Texts end in a NUL, file names contain
    one, and sizes are within the allocation limit. *)
Theorem meta_data_implements_map {E : Extractor} {Zl : Zlib} (md : GNUNET_CONTAINER_MetaData) :
  md_ok md -> Z.of_nat (length (md_items md)) + 1 < 2 ^ 32 ->
  (forall i, args_ok i ->
    exists r md', insert_item md i = Ret (r, md') /\ insert_view md md' i r)
  /\ (forall type d,
       let '(r, md') := GNUNET_CONTAINER_meta_data_delete md type (Some d) (Z.of_nat (length d)) in
       md_ok md' /\ view md' = delete (type, d) (view md)
       /\ r = if decide (is_Some (view md !! (type, d))) then GNUNET_OK else GNUNET_SYSERR).
Proof.
  intros Hmd Hlen. split; [ intros i Ha; by apply insert_refines | intros type d ].
  apply delete_refines; [ done | lia ].
Qed.

Lemma meta_data_implements_map_witness :
  let E := sample_extractor in let Zl := sample_zlib in
  let i := mk_item None None [104; 111; 0] 9 1 in
  (exists r md', insert_item sample_md i = Ret (r, md') /\ insert_view sample_md md' i r)
  /\ (GNUNET_CONTAINER_meta_data_delete sample_md 9 (Some [104; 105; 0]) 3).1 = GNUNET_OK.
Proof.
  intros E Zl i.
  destruct (meta_data_implements_map sample_md sample_md_ok) as [Hi Hd]; [ vm_compute; done | ].
  split; [ apply Hi; subst i; constructor; cbn; unfold_ints; try done; try lia; by left | reflexivity ].
Defined.

(** meta_data_test_equal decides whether two containers have the same
    keys with the same formats, whatever the order of their items, although it
    searches each item of the first in the second only as far as the sizes
    allow; MIME types and plugins are not compared. *)
Theorem meta_data_test_equal_exact {E : Extractor} {Zl : Zlib} (md1 md2 : GNUNET_CONTAINER_MetaData) :
  md_ok md1 -> md_ok md2 ->
  GNUNET_CONTAINER_meta_data_test_equal false md1 md2 = GNUNET_YES <-> formats md1 = formats md2.
Proof. intros H1 H2. by rewrite test_equal_spec, formats_summary. Qed.

Lemma meta_data_test_equal_exact_witness :
  let E := sample_extractor in let Zl := sample_zlib in
  formats sample_md = formats sample_md.
Proof.
  intros E Zl. apply (meta_data_test_equal_exact sample_md sample_md sample_md_ok sample_md_ok).
  reflexivity.
Defined.

(** Serialization without compression into a buffer of the caller stores
    the header alone: it returns the length of the whole serialized form, but
    the bytes after the header keep what they were, for every container that
    is not cached and fits. *)
Theorem meta_data_serialize_truncates {E : Extractor} {Zl : Zlib} (md : GNUNET_CONTAINER_MetaData)
  (t : list Z) (max : Z) :
  md_ok md -> small (md_items md) -> md_items md <> [] -> sbuf md = None ->
  Z.of_nat (length (encode (md_items md))) + 12 <= max -> (12 <= length t)%nat ->
  GNUNET_CONTAINER_meta_data_serialize (Some md) (Some t) max
    GNUNET_CONTAINER_META_DATA_SERIALIZE_NO_COMPRESS
  = Ret (Z.of_nat (length (encode (md_items md))) + 12,
         Some (mk_md (md_items md) (Some (packed None (md_items md))) (item_count md)),
         Some (meta_data_header 2 (Z.of_nat (length (md_items md)))
                 (Z.of_nat (length (encode (md_items md)))) ++ drop 12 t)).
Proof.
  intros Hmd Hs Hne Hsb Hmax Ht. pose proof (small_bound _ Hs) as Hb.
  destruct (first_attempt md (Some t) max GNUNET_CONTAINER_META_DATA_SERIALIZE_NO_COMPRESS)
    as (rest & -> & Hrest); try done; [ lia | lia | ].
  change (_ =? 0) with false. cbn [mbind outcome_bind].
  rewrite (Hrest None) by (done || by left). rewrite store_uncompressed by done.
  cbn [mbind outcome_bind]. repeat f_equal.
  unfold packed. rewrite length_app, length_meta_data_header. unfold sizeof_md_header. lia.
Qed.

Lemma meta_data_serialize_truncates_witness :
  let E := sample_extractor in let Zl := sample_zlib in
  GNUNET_CONTAINER_meta_data_serialize (Some sample_md) (Some (replicate 200 170)) 200
    GNUNET_CONTAINER_META_DATA_SERIALIZE_NO_COMPRESS
  = Ret (105, Some (mk_md sample_items (Some (packed None sample_items)) 2),
         Some (meta_data_header 2 2 93 ++ replicate 188 170)).
Proof.
  intros E Zl.
  exact (meta_data_serialize_truncates sample_md (replicate 200 170) 200 sample_md_ok
    ltac:(vm_compute; congruence) ltac:(done) eq_refl ltac:(vm_compute; congruence)
    ltac:(vm_compute; lia)).
Defined.

(** Compressed meta data overrun a buffer of max bytes: the check
    compares max with the compressed data and forgets the header of 12 bytes,
    for every container that is not cached and whose compressed data leave
    less than 12 bytes. *)
Theorem meta_data_serialize_overruns_target {E : Extractor} {Zl : Zlib} (md : GNUNET_CONTAINER_MetaData)
  (c t : list Z) (max : Z) :
  md_ok md -> small (md_items md) -> md_items md <> [] -> sbuf md = None -> 12 <= max ->
  try_compression (encode (md_items md)) = Ret (Some c) ->
  Z.of_nat (length c) <= max < Z.of_nat (length c) + 12 -> Z.of_nat (length t) = max ->
  GNUNET_CONTAINER_meta_data_serialize (Some md) (Some t) max
    GNUNET_CONTAINER_META_DATA_SERIALIZE_FULL = Undefined.
Proof.
  intros Hmd Hs Hne Hsb Hmax Hc Hle Ht. pose proof (small_bound _ Hs) as Hb.
  destruct (first_attempt md (Some t) max GNUNET_CONTAINER_META_DATA_SERIALIZE_FULL)
    as (rest & -> & Hrest); try done; [ lia | ].
  change (_ =? 0) with true. destruct (try_compression_ok _ Hs) as (comp & Hc' & Hok).
  rewrite Hc in Hc'. injection Hc' as <-. rewrite Hc. cbn [mbind outcome_bind].
  rewrite (Hrest (Some c)) by (done || (right; exists c; split; [ done | lia ])).
  by rewrite store_overrun by lia.
Qed.

Lemma meta_data_serialize_overruns_target_witness :
  let E := sample_extractor in let Zl := sample_zlib in
  let l := [mk_item None None (7 :: replicate 39 0) 9 2] in
  GNUNET_CONTAINER_meta_data_serialize (Some (mk_md l None 1)) (Some (replicate 30 0)) 30
    GNUNET_CONTAINER_META_DATA_SERIALIZE_FULL = Undefined.
Proof.
  intros E Zl l.
  apply (meta_data_serialize_overruns_target (mk_md l None 1) (strip (encode l)) (replicate 30 0) 30).
  - md_ok_sample.
  - vm_compute. congruence.
  - done.
  - done.
  - lia.
  - vm_compute. reflexivity.
  - vm_compute. split; congruence.
  - reflexivity.
Defined.

(** Meta data just below the allocation limit abort the process when they are
    serialized with compression: the size passes the check against
    [GNUNET_MAX_MALLOC_CHECKED], but the work space of [try_compression] is larger. *)
Theorem meta_data_serialize_aborts {E : Extractor} {Zl : Zlib} (md : GNUNET_CONTAINER_MetaData)
  (target : option (list Z)) (max : Z) :
  let n := Z.of_nat (length (encode (md_items md))) in
  md_ok md -> md_items md <> [] -> sbuf md = None -> 12 <= max ->
  n < GNUNET_MAX_MALLOC_CHECKED < n + n / 100 + 20 ->
  GNUNET_CONTAINER_meta_data_serialize (Some md) target max
    GNUNET_CONTAINER_META_DATA_SERIALIZE_FULL = AssertFailed.
Proof.
  intros n Hmd Hne Hsb Hmax [Hlt Hgt].
  destruct (first_attempt md target max GNUNET_CONTAINER_META_DATA_SERIALIZE_FULL)
    as (rest & -> & _); try done.
  change (_ =? 0) with true. unfold try_compression, GNUNET_malloc, gnunet_assert. cbn [mbind outcome_bind].
  by rewrite (proj2 (Z.leb_gt _ _)) by exact Hgt.
Qed.

Lemma meta_data_serialize_aborts_witness :
  let E := sample_extractor in let Zl := sample_zlib in
  exists md, md_ok md /\ GNUNET_CONTAINER_meta_data_serialize (Some md) None
    GNUNET_MAX_MALLOC_CHECKED GNUNET_CONTAINER_META_DATA_SERIALIZE_FULL = AssertFailed.
Proof.
  intros E Zl.
  assert (Hn : exists n, Z.of_nat n = 41600000) by (exists (Z.to_nat 41600000); lia).
  destruct Hn as [n Hn]. set (i := mk_item None None (replicate n 0) 9 2).
  assert (Hsz : data_size i = 41600000) by (unfold data_size; cbn [i item_data]; by rewrite length_replicate).
  assert (Hlen : Z.of_nat (length (encode [i])) = 41600020).
  { pose proof (length_encode_snoc [] i) as Hl. cbn [app length encode] in Hl. rewrite Hsz in Hl.
    cbn [i plugin_name mime_type string_len] in Hl. exact Hl. }
  assert (Hmd : md_ok (mk_md [i] None 1)).
  { constructor; cbn [md_items sbuf item_count].
    - apply SSorted_cons; [ apply SSorted_nil | apply List.Forall_nil ].
    - apply NoDup_singleton.
    - apply List.Forall_cons; [ | apply List.Forall_nil ].
      constructor; cbn [i item_type item_format plugin_name mime_type];
        [ int_lia | right; reflexivity | discriminate | exact I | exact I | | discriminate ].
      rewrite Hsz. unfold GNUNET_MAX_MALLOC_CHECKED. cbn [string_len]. lia.
    - reflexivity.
    - exact I. }
  exists (mk_md [i] None 1). split; [ exact Hmd | ].
  apply (meta_data_serialize_aborts (mk_md [i] None 1) None GNUNET_MAX_MALLOC_CHECKED Hmd);
    cbn [md_items sbuf]; [ discriminate | reflexivity | unfold GNUNET_MAX_MALLOC_CHECKED; lia | ].
  rewrite Hlen. unfold GNUNET_MAX_MALLOC_CHECKED. split; reflexivity.
Defined.

(** A file name with a backslash is inserted twice: the search for an equal item
    compares the name as it was given with the names as they were changed, so a second
    insertion of the same name does not find the first and the container holds two
    items with the same key. *)
Theorem meta_data_backslash_name_twice {E : Extractor} {Zl : Zlib} (md : GNUNET_CONTAINER_MetaData)
  (i : MetaItem) :
  md_ok md -> Z.of_nat (length (md_items md)) + 1 < 2 ^ 32 -> args_ok i -> key (stored i) <> key i ->
  view md !! key i = None -> view md !! key (stored i) = None ->
  exists md1 md2, insert_item md i = Ret (GNUNET_OK, md1) /\ insert_item md1 i = Ret (GNUNET_OK, md2)
    /\ exists rest, md_items md2 ≡ₚ stored i :: stored i :: rest.
Proof.
  intros Hmd Hlen Ha Hne Hk Hk'.
  assert (Hn : forall k, view md !! k = None -> k ∉ key <$> md_items md).
  { intros k Hv Hin. apply list_elem_of_fmap in Hin as (j & -> & Hj).
    by rewrite (view_lookup _ _ (mo_keys _ Hmd) Hj) in Hv. }
  destruct (placed_ok md _ i _ Hmd Ha (Hn _ Hk) (Hn _ Hk') Hlen eq_refl eq_refl) as [Hok _].
  pose proof (insert_new md i (mo_sorted _ Hmd) Ha (Hn _ Hk)) as Hi1. cbv zeta in Hi1.
  set (md1 := mk_md _ _ _) in *.
  assert (Hp : md_items md1 ≡ₚ stored i :: md_items md).
  { unfold md1. cbn [md_items]. by rewrite <- Permutation_middle, take_drop. }
  clearbody md1. pose proof (insert_new md1 i (mo_sorted _ Hok) Ha) as Hi2. cbv zeta in Hi2.
  eexists md1, _. split; [ exact Hi1 | ]. split; [ apply Hi2 | ].
  - rewrite Hp, fmap_cons, not_elem_of_cons. split; [ congruence | by apply Hn ].
  - exists (md_items md). cbn [md_items]. by rewrite <- Permutation_middle, take_drop, Hp.
Qed.

Lemma meta_data_backslash_name_twice_witness :
  let E := sample_extractor in let Zl := sample_zlib in
  let i := mk_item None None [97; 92; 98; 0] 2 1 in
  exists md1 md2, insert_item sample_md i = Ret (GNUNET_OK, md1)
    /\ insert_item md1 i = Ret (GNUNET_OK, md2)
    /\ exists rest, md_items md2 ≡ₚ stored i :: stored i :: rest.
Proof.
  intros E Zl i. apply (meta_data_backslash_name_twice sample_md i sample_md_ok).
  - vm_compute. reflexivity.
  - subst i. constructor; cbn; unfold_ints; try done; try lia; try (by left).
    intros _. apply (bool_decide_unpack _). vm_compute. exact I.
  - discriminate.
  - vm_compute. reflexivity.
  - vm_compute. reflexivity.
Defined.

(** ** Two more behaviours *)

(** The name of a file without a NUL is read past its end, also when it comes from a
    serialized form. *)
Example meta_data_deserialize_overread :
  let E := sample_extractor in let Zl := sample_zlib in
  GNUNET_CONTAINER_meta_data_deserialize
    (meta_data_header 2 1 22 ++ meta_data_entry 2 2 2 0 0 ++ [97; 98]) = Undefined.
Proof. vm_compute. reflexivity. Qed.

(** Removal without data removes one item of the type, the first, and not all of them. *)
Lemma meta_data_delete_type {E : Extractor} {Zl : Zlib} (md : GNUNET_CONTAINER_MetaData) (type : Z) :
  md_ok md -> Z.of_nat (length (md_items md)) < 2 ^ 32 ->
  let '(r, md') := GNUNET_CONTAINER_meta_data_delete md type None 0 in
  if decide (type ∈ item_type <$> md_items md)
  then r = GNUNET_OK /\ md_ok md'
       /\ exists i, item_type i = type /\ md_items md ≡ₚ i :: md_items md'
  else r = GNUNET_SYSERR /\ md' = md.
Proof.
  intros Hmd Hlen. unfold GNUNET_CONTAINER_meta_data_delete.
  destruct (delete_scan _ _ _ _) as [n|] eqn:Es.
  - destruct (delete_scan_Some _ _ _ _ _ Es) as (pos & Hn & Ht & _).
    destruct (deleted_ok md n pos Hmd Hn Hlen) as (Hok & Hp & _).
    rewrite decide_True; [ by eauto | ].
    rewrite <- Ht. apply list_elem_of_fmap. exists pos. split; [ done | by eapply list_elem_of_lookup_2 ].
  - by rewrite decide_False by by apply delete_scan_type.
Qed.
