(* ===== verification/Slist.v ===== *)
(** * The singly linked list: [src/util/container_slist.c]

    Elements, lists and the buffers of the application are objects of a store, so that the
    elements that a list has lost, dangling iterators and shared buffers are visible: an
    access to a freed object is [Undefined].  The payload of a transient element lies
    behind its struct ([Inside]); other elements point to a buffer of the application
    ([Buffer]), which is freed with the element if it is dynamic.  An iterator is a struct
    of the caller; the functions return its new value. *)

From Stdlib Require Import ZArith Lia.
From stdpp Require Import base list numbers gmap.
From S2P Require Import Prelude MetaData.
Local Open Scope Z_scope.

(** ** Data *)

Inductive GNUNET_CONTAINER_SListDisposition :=
  | GNUNET_CONTAINER_SLIST_DISPOSITION_TRANSIENT
  | GNUNET_CONTAINER_SLIST_DISPOSITION_STATIC
  | GNUNET_CONTAINER_SLIST_DISPOSITION_DYNAMIC.

#[export] Instance disposition_eq_dec : EqDecision GNUNET_CONTAINER_SListDisposition.
Proof. solve_decision. Defined.

(** [void *]: behind an element, or a buffer *)
Inductive payload :=
  | Inside (e : Z)
  | Buffer (b : Z).

Record GNUNET_CONTAINER_SList_Elem := mk_elem {
  e_next : option Z;
  e_elem : payload;
  e_len : Z;
  e_disp : GNUNET_CONTAINER_SListDisposition;
  e_behind : list Z
}.
Definition sizeof_SList_Elem : Z := 32.

Record GNUNET_CONTAINER_SList := mk_slist {
  sl_head : option Z;
  sl_tail : option Z;
  sl_length : Z
}.
Definition sizeof_SList : Z := 24.

Record GNUNET_CONTAINER_SList_Iterator := mk_iterator {
  i_list : Z;
  i_last : option Z;
  i_elem : option Z
}.

Record store := mk_store {
  elems : gmap Z GNUNET_CONTAINER_SList_Elem;
  slists : gmap Z GNUNET_CONTAINER_SList;
  buffers : gmap Z (list Z)
}.

Definition set_elems (f : gmap Z GNUNET_CONTAINER_SList_Elem -> gmap Z GNUNET_CONTAINER_SList_Elem)
  (w : store) : store := mk_store (f (elems w)) (slists w) (buffers w).
Definition set_slists (f : gmap Z GNUNET_CONTAINER_SList -> gmap Z GNUNET_CONTAINER_SList)
  (w : store) : store := mk_store (elems w) (f (slists w)) (buffers w).
Definition set_buffers (f : gmap Z (list Z) -> gmap Z (list Z)) (w : store) : store :=
  mk_store (elems w) (slists w) (f (buffers w)).

(** ** Access to the store *)

(** [*e] of a pointer that may be [NULL] *)
Definition elem_at (p : option Z) : action store GNUNET_CONTAINER_SList_Elem :=
  w ← get_state; lift (of_option (p ≫= fun a => elems w !! a)).
Definition slist_at (l : Z) : action store GNUNET_CONTAINER_SList :=
  w ← get_state; lift (of_option (slists w !! l)).
Definition bytes_at (p : payload) : action store (list Z) :=
  w ← get_state;
  lift (of_option match p with
                  | Inside a => e_behind <$> elems w !! a
                  | Buffer b => buffers w !! b
                  end).

(** [len] bytes at a pointer *)
Definition read_bytes (p : payload) (len : Z) : action store (list Z) :=
  b ← bytes_at p; lift (mem_read b 0 (Z.to_nat len)).

(** [e->next = next] *)
Definition set_next (e : option Z) (next : option Z) : action store unit :=
  x ← elem_at e;
  match e with
  | Some a => modify (set_elems (<[a := mk_elem next (e_elem x) (e_len x) (e_disp x) (e_behind x)]>))
  | None => lift Undefined
  end.
Definition set_slist (l : Z) (s : GNUNET_CONTAINER_SList) : action store unit :=
  _ ← slist_at l; modify (set_slists (<[l := s]>)).

(** [GNUNET_free] of a buffer of the application and of an element *)
Definition free_pointer (p : payload) : action store unit :=
  match p with
  | Inside _ => lift Undefined
  | Buffer b => _ ← bytes_at p; modify (set_buffers (delete b))
  end.
Definition free_elem (e : option Z) : action store unit :=
  _ ← elem_at e;
  match e with
  | Some a => modify (set_elems (delete a))
  | None => lift Undefined
  end.

(** A new element at an address that is not in use *)
Definition new_elem (x : Z -> GNUNET_CONTAINER_SList_Elem) : action store Z :=
  w ← get_state;
  let a := fresh (dom (elems w)) in
  _ ← modify (set_elems (<[a := x a]>));
  mret a.

(** ** Operations *)

Definition create_elem (disp : GNUNET_CONTAINER_SListDisposition) (buf : payload) (len : Z)
  : action store Z :=
  if decide (disp = GNUNET_CONTAINER_SLIST_DISPOSITION_TRANSIENT) then
    _ ← lift (GNUNET_malloc (sizeof_SList_Elem + len));
    bytes ← read_bytes buf len;
    new_elem (fun a => mk_elem None (Inside a) len disp bytes)
  else
    _ ← lift (GNUNET_malloc sizeof_SList_Elem);
    new_elem (fun _ => mk_elem None buf len disp []).

Definition GNUNET_CONTAINER_slist_add (l : Z) (disp : GNUNET_CONTAINER_SListDisposition)
  (buf : payload) (len : Z) : action store unit :=
  e ← create_elem disp buf len;
  s ← slist_at l;
  _ ← set_next (Some e) (sl_head s);
  set_slist l (mk_slist (Some e) (match sl_tail s with None => Some e | t => t end)
                 (u32 (sl_length s + 1))).

Definition GNUNET_CONTAINER_slist_add_end (l : Z) (disp : GNUNET_CONTAINER_SListDisposition)
  (buf : payload) (len : Z) : action store unit :=
  e ← create_elem disp buf len;
  s ← slist_at l;
  _ ← match sl_tail s with
      | Some t => set_next (Some t) (Some e)
      | None => mret tt
      end;
  set_slist l (mk_slist (match sl_head s with None => Some e | h => h end) (Some e)
                 (u32 (sl_length s + 1))).

Definition GNUNET_CONTAINER_slist_create : action store Z :=
  _ ← lift (GNUNET_malloc sizeof_SList);
  w ← get_state;
  let l := fresh (dom (slists w)) in
  _ ← modify (set_slists (<[l := mk_slist None None 0]>));
  mret l.

Definition GNUNET_CONTAINER_slist_begin (l : Z) : action store GNUNET_CONTAINER_SList_Iterator :=
  s ← slist_at l;
  mret (mk_iterator l None (sl_head s)).

Definition GNUNET_CONTAINER_slist_next (i : GNUNET_CONTAINER_SList_Iterator)
  : action store (Z * GNUNET_CONTAINER_SList_Iterator) :=
  x ← elem_at (i_elem i);
  mret (if decide (e_next x = None) then GNUNET_NO else GNUNET_YES,
        mk_iterator (i_list i) (i_elem i) (e_next x)).

Definition GNUNET_CONTAINER_slist_end (i : GNUNET_CONTAINER_SList_Iterator) : Z :=
  match i_elem i with
  | None => GNUNET_YES
  | Some _ => GNUNET_NO
  end.

(** The payload and its length *)
Definition GNUNET_CONTAINER_slist_get (i : GNUNET_CONTAINER_SList_Iterator)
  : action store (payload * Z) :=
  x ← elem_at (i_elem i);
  mret (e_elem x, e_len x).

(** The loops over a list have fuel, one more than the store has elements; only a cycle
    would use it up. *)
Fixpoint append_loop (fuel : nat) (dst : Z) (i : GNUNET_CONTAINER_SList_Iterator) : action store unit :=
  if GNUNET_CONTAINER_slist_end i =? GNUNET_YES then mret tt
  else
    match fuel with
    | O => lift Undefined
    | S fuel =>
        x ← elem_at (i_elem i);
        _ ← GNUNET_CONTAINER_slist_add dst
              (if decide (e_disp x = GNUNET_CONTAINER_SLIST_DISPOSITION_STATIC)
               then GNUNET_CONTAINER_SLIST_DISPOSITION_STATIC
               else GNUNET_CONTAINER_SLIST_DISPOSITION_TRANSIENT)
              (e_elem x) (e_len x);
        r ← GNUNET_CONTAINER_slist_next i;
        append_loop fuel dst r.2
    end.

Definition GNUNET_CONTAINER_slist_append (dst src : Z) : action store unit :=
  i ← GNUNET_CONTAINER_slist_begin src;
  w ← get_state;
  append_loop (S (size (elems w))) dst i.

(** What is freed with an element *)
Definition destroy_elem (e : option Z) (x : GNUNET_CONTAINER_SList_Elem) : action store unit :=
  _ ← if decide (e_disp x = GNUNET_CONTAINER_SLIST_DISPOSITION_DYNAMIC)
      then free_pointer (e_elem x) else mret tt;
  free_elem e.

Fixpoint clear_loop (fuel : nat) (e : option Z) : action store unit :=
  match e, fuel with
  | None, _ => mret tt
  | Some _, O => lift Undefined
  | Some _, S fuel =>
      x ← elem_at e;
      _ ← destroy_elem e x;
      clear_loop fuel (e_next x)
  end.

Definition GNUNET_CONTAINER_slist_clear (l : Z) : action store unit :=
  s ← slist_at l;
  w ← get_state;
  _ ← clear_loop (S (size (elems w))) (sl_head s);
  set_slist l (mk_slist None None 0).

Definition GNUNET_CONTAINER_slist_destroy (l : Z) : action store unit :=
  _ ← GNUNET_CONTAINER_slist_clear l;
  _ ← slist_at l;
  modify (set_slists (delete l)).

(** [(e->len == len) && (memcmp (buf, e->elem, len) == 0)]; [buf] are the bytes of the
    caller. *)
Definition same_payload (x : GNUNET_CONTAINER_SList_Elem) (buf : list Z) (len : Z)
  : action store bool :=
  if e_len x =? len then
    a ← lift (mem_read buf 0 (Z.to_nat len));
    b ← read_bytes (e_elem x) len;
    mret (bool_decide (a = b))
  else mret false.

Fixpoint slist_contains_loop (fuel : nat) (e : option Z) (buf : list Z) (len : Z) : action store Z :=
  match e, fuel with
  | None, _ => mret GNUNET_NO
  | Some _, O => lift Undefined
  | Some _, S fuel =>
      x ← elem_at e;
      found ← same_payload x buf len;
      if (found : bool) then mret GNUNET_YES else slist_contains_loop fuel (e_next x) buf len
  end.

Definition GNUNET_CONTAINER_slist_contains (l : Z) (buf : list Z) (len : Z) : action store Z :=
  s ← slist_at l;
  w ← get_state;
  slist_contains_loop (S (size (elems w))) (sl_head s) buf len.

(** The comparator gets both buffers with their lengths. *)
Definition same_by (compare : list Z -> Z -> list Z -> Z -> Z) (x : GNUNET_CONTAINER_SList_Elem)
  (buf : list Z) (len : Z) : action store bool :=
  if e_len x =? len then
    b ← bytes_at (e_elem x);
    mret (compare buf len b (e_len x) =? 0)
  else mret false.

Fixpoint slist_contains2_loop (fuel : nat) (e : option Z) (buf : list Z) (len : Z)
  (compare : list Z -> Z -> list Z -> Z -> Z) : action store (option payload) :=
  match e, fuel with
  | None, _ => mret None
  | Some _, O => lift Undefined
  | Some _, S fuel =>
      x ← elem_at e;
      found ← same_by compare x buf len;
      if (found : bool) then mret (Some (e_elem x)) else slist_contains2_loop fuel (e_next x) buf len compare
  end.

Definition GNUNET_CONTAINER_slist_contains2 (l : Z) (buf : list Z) (len : Z)
  (compare : list Z -> Z -> list Z -> Z -> Z) : action store (option payload) :=
  s ← slist_at l;
  w ← get_state;
  slist_contains2_loop (S (size (elems w))) (sl_head s) buf len compare.

Definition GNUNET_CONTAINER_slist_count (l : Z) : action store Z :=
  s ← slist_at l;
  mret (s32 (sl_length s)).

(** [i->last->next = next], or the head of the list *)
Definition relink (i : GNUNET_CONTAINER_SList_Iterator) (next : option Z) : action store unit :=
  match i_last i with
  | Some p => set_next (Some p) next
  | None =>
      s ← slist_at (i_list i);
      set_slist (i_list i) (mk_slist next (sl_tail s) (sl_length s))
  end.

Definition GNUNET_CONTAINER_slist_erase (i : GNUNET_CONTAINER_SList_Iterator)
  : action store GNUNET_CONTAINER_SList_Iterator :=
  x ← elem_at (i_elem i);
  let next := e_next x in
  _ ← relink i next;
  s ← slist_at (i_list i);
  _ ← set_slist (i_list i) (mk_slist (sl_head s) (if decide (next = None) then i_last i else sl_tail s)
                              (sl_length s));
  _ ← destroy_elem (i_elem i) x;
  s ← slist_at (i_list i);
  _ ← set_slist (i_list i) (mk_slist (sl_head s) (sl_tail s) (u32 (sl_length s - 1)));
  mret (mk_iterator (i_list i) (i_last i) next).

(** The iterator stays as it is. *)
Definition GNUNET_CONTAINER_slist_insert (before : GNUNET_CONTAINER_SList_Iterator)
  (disp : GNUNET_CONTAINER_SListDisposition) (buf : payload) (len : Z) : action store unit :=
  e ← create_elem disp buf len;
  _ ← set_next (Some e) (i_elem before);
  _ ← relink before (Some e);
  s ← slist_at (i_list before);
  set_slist (i_list before) (mk_slist (sl_head s) (if decide (i_elem before = None) then Some e else sl_tail s)
                               (u32 (sl_length s + 1))).
