(* ===== verification/SlistSpec.v ===== *)
(** * The singly linked list: sequences

    [heap_ok w M] is the invariant of a store: [M] gives for every list the addresses and
    the contents of its elements, lists do not share elements, every element belongs to a
    list, and the buffer of a dynamic element belongs to it alone.  The operations are
    operations on sequences of contents ([slist_refines_sequences]), also when a list is
    appended to itself; an iterator that was used for an insertion is an exception
    ([slist_insert_twice_loses_element]). *)

From Stdlib Require Import ZArith Lia.
From stdpp Require Import base list numbers gmap.
From S2P Require Import Prelude MetaData MetaDataSpec Slist.
Local Open Scope Z_scope.

Abbreviation TRANSIENT := GNUNET_CONTAINER_SLIST_DISPOSITION_TRANSIENT.
Abbreviation STATIC := GNUNET_CONTAINER_SLIST_DISPOSITION_STATIC.
Abbreviation DYNAMIC := GNUNET_CONTAINER_SLIST_DISPOSITION_DYNAMIC.

Definition entry_item : Type := GNUNET_CONTAINER_SListDisposition * list Z.

(** ** Elements and segments *)

Definition holds_item (bufs : gmap Z (list Z)) (a : Z) (x : GNUNET_CONTAINER_SList_Elem)
  (it : entry_item) : Prop :=
  e_disp x = it.1 /\ e_len x = Z.of_nat (length it.2)
  /\ match it.1 with
     | TRANSIENT => e_elem x = Inside a /\ e_behind x = it.2
     | _ => exists b, e_elem x = Buffer b /\ bufs !! b = Some it.2
     end.

(** The elements [xs] from [p] on; the last one points to [q]. *)
Fixpoint segment (w : store) (p : option Z) (xs : list (Z * entry_item)) (q : option Z) : Prop :=
  match xs with
  | [] => p = q
  | (a, it) :: xs =>
      p = Some a /\ exists x, elems w !! a = Some x /\ holds_item (buffers w) a x it
        /\ segment w (e_next x) xs q
  end.

Definition descr (xs : list (Z * entry_item)) : GNUNET_CONTAINER_SList :=
  mk_slist (head xs.*1) (last xs.*1) (u32 (Z.of_nat (length xs))).

Record heap_ok (w : store) (M : gmap Z (list (Z * entry_item))) : Prop := {
  ho_lists : slists w = descr <$> M;
  ho_segments : forall l xs, M !! l = Some xs -> segment w (head xs.*1) xs None /\ NoDup xs.*1;
  ho_disjoint : forall l1 l2 xs ys a, M !! l1 = Some xs -> M !! l2 = Some ys ->
    a ∈ xs.*1 -> a ∈ ys.*1 -> l1 = l2;
  ho_owned : forall a x, elems w !! a = Some x -> exists l xs, M !! l = Some xs /\ a ∈ xs.*1;
  ho_dynamic : forall a1 a2 x1 x2 b, elems w !! a1 = Some x1 -> elems w !! a2 = Some x2 ->
    e_elem x1 = Buffer b -> e_elem x2 = Buffer b -> e_disp x1 = DYNAMIC -> a1 = a2
}.

Definition set_e_next (q : option Z) (x : GNUNET_CONTAINER_SList_Elem) : GNUNET_CONTAINER_SList_Elem :=
  mk_elem q (e_elem x) (e_len x) (e_disp x) (e_behind x).

(** [p->next = q] for the last element of a prefix, if there is one *)
Definition link (p q : option Z) (m : gmap Z GNUNET_CONTAINER_SList_Elem) :=
  match p with
  | Some a => alter (set_e_next q) a m
  | None => m
  end.

Lemma holds_item_next bufs a x it q : holds_item bufs a (set_e_next q x) it <-> holds_item bufs a x it.
Proof. done. Qed.

Lemma segment_app w p xs ys q :
  segment w p (xs ++ ys) q <-> exists r, segment w p xs r /\ segment w r ys q.
Proof.
  revert p. induction xs as [|[a it] xs IH]; intros p; cbn [app segment].
  - split; [ by exists p | by intros (r & -> & Hs) ].
  - split.
    + intros (-> & x & Hx & Hc & Hs). apply IH in Hs as (r & H1 & H2). exists r. split; [ | done ].
      split; [ done | ]. by exists x.
    + intros (r & (-> & x & Hx & Hc & Hs) & H2). split; [ done | ]. exists x. split_and!; try done.
      apply IH. by exists r.
Qed.

Lemma segment_head w p xs q : segment w p xs q -> xs <> [] -> p = head xs.*1.
Proof. destruct xs as [|[a it] xs]; [ done | ]. by intros [-> _] _. Qed.

Lemma segment_end w p xs : segment w p xs None -> p = head xs.*1.
Proof. destruct xs as [|[a it] xs]; [ done | ]. by intros [-> _]. Qed.

Lemma segment_lookup w p xs q a :
  segment w p xs q -> a ∈ xs.*1 -> exists x it, elems w !! a = Some x /\ (a, it) ∈ xs /\ holds_item (buffers w) a x it.
Proof.
  revert p. induction xs as [|[a' it] xs IH]; intros p; cbn [segment]; [ intros _ Hin; by apply elem_of_nil in Hin | ].
  intros (-> & x & Hx & Hc & Hs) Hin. rewrite fmap_cons in Hin. apply elem_of_cons in Hin as [->|Hin].
  - exists x, it. split_and!; try done. by left.
  - destruct (IH _ Hs Hin) as (y & it' & Hy & Hi & Hh). exists y, it'. split_and!; try done. by right.
Qed.

(** Elements that stay as they are *)
Lemma segment_frame w w' p xs q :
  (forall a, a ∈ xs.*1 -> elems w' !! a = elems w !! a) ->
  (forall a x b, a ∈ xs.*1 -> elems w !! a = Some x -> e_elem x = Buffer b -> buffers w' !! b = buffers w !! b) ->
  segment w p xs q -> segment w' p xs q.
Proof.
  revert p. induction xs as [|[a it] xs IH]; intros p He Hb; cbn [segment]; [ done | ].
  intros (-> & x & Hx & (Hd & Hl & Hc) & Hs). split; [ done | ]. exists x. rewrite He by (rewrite fmap_cons; left).
  split_and!; try done.
  - split_and!; try done. destruct it as [[] bs]; cbn [fst snd] in *; [ done | | ];
      destruct Hc as (b & Hb' & Hbs); exists b; split; try done;
      rewrite (Hb a x b); try done; rewrite fmap_cons; left.
  - apply IH; [ | | done ].
    + intros a' Ha'. apply He. rewrite fmap_cons. by right.
    + intros a' x' b' Ha'. apply Hb. rewrite fmap_cons. by right.
Qed.

(** The last element of a prefix gets a new successor. *)
Lemma segment_link w w' p xs q r :
  segment w p xs r -> NoDup xs.*1 ->
  (forall a, a ∈ xs.*1 -> elems w' !! a = link (last xs.*1) q (elems w) !! a) ->
  buffers w' = buffers w ->
  segment w' (if decide (xs = []) then q else p) xs q.
Proof.
  intros Hs Hnd He Hb. destruct (list_eq_nil_dec xs) as [Hz|Hz]; [ by rewrite decide_True; subst | ].
  rewrite decide_False by done.
  induction xs as [|[a it] xs _] using rev_ind; [ done | ]. clear Hz.
  rewrite fmap_app in *. cbn in Hnd, He. rewrite last_snoc in He. cbn [link] in He.
  apply segment_app in Hs as (m & Hxs & (-> & x & Hx & Hc & _)). apply segment_app. exists (Some a). split.
  - eapply segment_frame; [ | | exact Hxs ].
    + intros a' Ha'. rewrite He by (apply elem_of_app; by left). apply lookup_alter_ne. intros ->.
      apply NoDup_app in Hnd as (_ & Hnd & _). destruct (Hnd _ Ha'). by apply list_elem_of_singleton.
    + by rewrite Hb.
  - split; [ done | ]. exists (set_e_next q x). rewrite Hb. split_and!; try done.
    rewrite He by (apply elem_of_app; right; by apply list_elem_of_singleton). by rewrite lookup_alter_eq, Hx.
Qed.

(** ** Changing one list *)

Definition dynamic_ok (w : store) : Prop :=
  forall a1 a2 x1 x2 b, elems w !! a1 = Some x1 -> elems w !! a2 = Some x2 ->
    e_elem x1 = Buffer b -> e_elem x2 = Buffer b -> e_disp x1 = DYNAMIC -> a1 = a2.

Lemma heap_update w w' M l xs xs' :
  heap_ok w M -> M !! l = Some xs -> slists w' = <[l := descr xs']> (slists w) ->
  segment w' (head xs'.*1) xs' None -> NoDup xs'.*1 ->
  (forall a, a ∉ xs.*1 -> a ∉ xs'.*1 -> elems w' !! a = elems w !! a) ->
  (forall a, a ∈ xs'.*1 -> a ∈ xs.*1 \/ elems w !! a = None) ->
  (forall a, a ∈ xs.*1 -> a ∉ xs'.*1 -> elems w' !! a = None) ->
  (forall a x b, a ∉ xs.*1 -> elems w !! a = Some x -> e_elem x = Buffer b -> buffers w' !! b = buffers w !! b) ->
  dynamic_ok w' -> heap_ok w' (<[l := xs']> M).
Proof.
  intros Hw Hl Hsl Hseg Hnd Hsame Hnew Hold Hbuf Hdyn.
  assert (Hother : forall l2 ys a, l2 <> l -> M !! l2 = Some ys -> a ∈ ys.*1 -> (a ∉ xs.*1) /\ (a ∉ xs'.*1)).
  { intros l2 ys a Hne Hys Ha. assert (Hnx : a ∉ xs.*1) by (intros Hx; by destruct Hne; eapply (ho_disjoint _ _ Hw)).
    split; [ done | ]. intros Hx'. destruct (Hnew _ Hx') as [|Hnone]; [ done | ].
    destruct (ho_segments _ _ Hw _ _ Hys) as [Hs _].
    destruct (segment_lookup _ _ _ _ _ Hs Ha) as (x & it & Hx & _). congruence. }
  constructor.
  - by rewrite Hsl, (ho_lists _ _ Hw), fmap_insert.
  - intros l2 ys Hys. destruct (decide (l2 = l)) as [->|Hne].
    + rewrite lookup_insert_eq in Hys. by injection Hys as <-.
    + rewrite lookup_insert_ne in Hys by done. destruct (ho_segments _ _ Hw _ _ Hys) as [Hs Hn]. split; [ | done ].
      eapply segment_frame; [ | | exact Hs ].
      * intros a Ha. apply Hsame; by eapply (Hother l2 ys).
      * intros a x b Ha. apply Hbuf. by eapply (Hother l2 ys).
  - intros l1 l2 ys zs a H1 H2 Hy Hz. destruct (decide (l1 = l)) as [->|Hn1], (decide (l2 = l)) as [->|Hn2]; try done.
    + rewrite lookup_insert_eq in H1. injection H1 as <-. rewrite lookup_insert_ne in H2 by done.
      by destruct (Hother _ _ a Hn2 H2 Hz).
    + rewrite lookup_insert_eq in H2. injection H2 as <-. rewrite lookup_insert_ne in H1 by done.
      by destruct (Hother _ _ a Hn1 H1 Hy).
    + rewrite lookup_insert_ne in H1, H2 by done. by eapply (ho_disjoint _ _ Hw).
  - intros a x Hx. destruct (decide (a ∈ xs'.*1)) as [Hin|Hin].
    { exists l, xs'. by rewrite lookup_insert_eq. }
    destruct (decide (a ∈ xs.*1)) as [Hin'|Hin']; [ by rewrite Hold in Hx | ].
    rewrite Hsame in Hx by done. destruct (ho_owned _ _ Hw _ _ Hx) as (l2 & ys & Hys & Ha).
    exists l2, ys. rewrite lookup_insert_ne; [ done | ]. intros ->. congruence.
  - exact Hdyn.
Qed.

Lemma link_lookup_ne p q m a : p <> Some a -> link p q m !! a = m !! a.
Proof. destruct p as [a'|]; [ | done ]. intros Hne. apply lookup_alter_ne. congruence. Qed.

Lemma link_elem p q m a x : link p q m !! a = Some x ->
  exists y, m !! a = Some y /\ e_elem x = e_elem y /\ e_disp x = e_disp y.
Proof.
  destruct p as [a'|]; cbn [link]; [ | by eauto ]. destruct (decide (a' = a)) as [->|Hne].
  - rewrite lookup_alter_eq. destruct (m !! a) as [y|]; [ | done ]. intros [= <-]. by exists y.
  - rewrite lookup_alter_ne by done. by eauto.
Qed.

Lemma last_fst_elem (xs : list (Z * entry_item)) t : last xs.*1 = Some t -> t ∈ xs.*1.
Proof. intros Ht. apply last_Some in Ht as (r & ->). apply elem_of_app. right. by apply list_elem_of_singleton. Qed.

(** An element [x] at [a] that may become part of a list *)
Record new_ok (w : store) (a : Z) (x : GNUNET_CONTAINER_SList_Elem) (it : entry_item) : Prop := {
  no_fresh : elems w !! a = None;
  no_item : holds_item (buffers w) a x it;
  no_dynamic : forall a' x' b, elems w !! a' = Some x' -> e_elem x = Buffer b -> e_elem x' = Buffer b ->
    e_disp x <> DYNAMIC /\ e_disp x' <> DYNAMIC
}.

(** The store after an element was put between two parts of a list *)
Definition spliced (w : store) (l a : Z) (x : GNUNET_CONTAINER_SList_Elem) (it : entry_item)
  (before after : list (Z * entry_item)) : store :=
  mk_store (link (last before.*1) (Some a) (<[a := set_e_next (head after.*1) x]> (elems w)))
    (<[l := descr (before ++ (a, it) :: after)]> (slists w)) (buffers w).

Lemma splice_segment w w' p a x it before after :
  segment w p (before ++ after) None -> NoDup (before ++ after).*1 -> (a ∉ (before ++ after).*1) ->
  holds_item (buffers w) a x it -> buffers w' = buffers w ->
  (forall a', a' ∈ (before ++ (a, it) :: after).*1 ->
    elems w' !! a' = link (last before.*1) (Some a) (<[a := set_e_next (head after.*1) x]> (elems w)) !! a') ->
  segment w' (if decide (before = []) then Some a else p) (before ++ (a, it) :: after) None.
Proof.
  intros Hs Hnd Hfresh Hi Hbuf He. rewrite fmap_app in Hnd, Hfresh. rewrite fmap_app, fmap_cons in He. cbn [fst] in He.
  apply not_elem_of_app in Hfresh as [Hfb Hfa]. apply NoDup_app in Hnd as (Hnb & Hsep & _).
  assert (Hlast : forall a', a' ∉ before.*1 -> last before.*1 <> Some a')
    by (intros a' Ha' Ht; by apply Ha', last_fst_elem).
  apply segment_app in Hs as (m & Hsb & Hsa). pose proof (segment_end _ _ _ Hsa) as ->.
  apply segment_app. exists (Some a). split.
  - apply (segment_link w w' p before (Some a) (head after.*1)); try done.
    intros a' Ha'. rewrite He by (apply elem_of_app; by left). assert (Hne : a <> a') by (by intros ->).
    destruct (last before.*1) as [t|]; cbn [link]; [ | by rewrite lookup_insert_ne ].
    destruct (decide (t = a')) as [->|Ht].
    + by rewrite !lookup_alter_eq, lookup_insert_ne.
    + by rewrite !lookup_alter_ne, lookup_insert_ne.
  - split; [ done | ]. exists (set_e_next (head after.*1) x).
    rewrite He by (apply elem_of_app; right; by left). rewrite link_lookup_ne, lookup_insert_eq, Hbuf by (by apply Hlast).
    split_and!; try done. cbn [set_e_next e_next]. eapply segment_frame; [ | | exact Hsa ]; [ | by rewrite Hbuf ].
    intros a' Ha'. rewrite He by (apply elem_of_app; right; by right). rewrite link_lookup_ne, lookup_insert_ne; [ done | | ].
    + by intros ->.
    + apply Hlast. intros Hb. by apply (Hsep _ Hb).
Qed.

Lemma spliced_ok w M l a x it before after :
  heap_ok w M -> M !! l = Some (before ++ after) -> new_ok w a x it ->
  heap_ok (spliced w l a x it before after) (<[l := before ++ (a, it) :: after]> M).
Proof.
  intros Hw Hl [Hf Hi Hd]. destruct (ho_segments _ _ Hw _ _ Hl) as [Hs Hnd].
  assert (Hlive : forall a', a' ∈ (before ++ after).*1 -> a' <> a).
  { intros a' Ha' ->. destruct (segment_lookup _ _ _ _ _ Hs Ha') as (y & it' & Hy & _). congruence. }
  assert (Hhead : head (before ++ (a, it) :: after).*1
    = (if decide (before = []) then Some a else head (before ++ after).*1)) by (destruct before as [|[]]; done).
  pose proof Hnd as Hnd'. rewrite fmap_app in Hnd', Hlive. pose proof Hnd' as (Hnb & Hsep & Hna)%NoDup_app.
  assert (Hlast : forall a', a' ∉ before.*1 -> last before.*1 <> Some a')
    by (intros a' Ha' Ht; by apply Ha', last_fst_elem).
  eapply heap_update; try done; cbn [spliced elems slists buffers].
  - rewrite Hhead. apply (splice_segment w _ _ a x); try done. rewrite fmap_app. intros Hin. by apply (Hlive _ Hin).
  - rewrite fmap_app, fmap_cons. apply NoDup_app. cbn [fst]. split_and!; [ done | | ].
    + intros a' Ha' [->|Hin]%elem_of_cons; [ | by apply (Hsep _ Ha') ].
      by apply (Hlive a); [ apply elem_of_app; left | ].
    + apply NoDup_cons. split; [ | done ]. intros Hin. by apply (Hlive a); [ apply elem_of_app; right | ].
  - intros a' Hn1 Hn2. rewrite fmap_app, not_elem_of_app in Hn1. rewrite fmap_app, fmap_cons, not_elem_of_app, not_elem_of_cons in Hn2.
    rewrite link_lookup_ne, lookup_insert_ne; [ done | | apply Hlast; naive_solver ]. cbn [fst] in Hn2. naive_solver.
  - intros a'. rewrite !fmap_app, fmap_cons, !elem_of_app, elem_of_cons. cbn [fst]. naive_solver.
  - intros a' Hin Hn. destruct Hn. revert Hin. rewrite !fmap_app, fmap_cons, !elem_of_app, elem_of_cons. naive_solver.
  - intros a1 a2 x1 x2 b H1 H2 Hb1 Hb2 Hdy. cbn [elems] in H1, H2.
    apply link_elem in H1 as (y1 & H1 & E1 & D1). apply link_elem in H2 as (y2 & H2 & E2 & D2).
    rewrite E1 in Hb1. rewrite E2 in Hb2. rewrite D1 in Hdy.
    destruct (decide (a1 = a)) as [->|N1], (decide (a2 = a)) as [->|N2]; [ done | | | ].
    + rewrite lookup_insert_eq in H1. rewrite lookup_insert_ne in H2 by done.
      injection H1 as <-. by destruct (Hd a2 y2 b H2 Hb1 Hb2).
    + rewrite lookup_insert_eq in H2. rewrite lookup_insert_ne in H1 by done.
      injection H2 as <-. by destruct (Hd a1 y1 b H1 Hb2 Hb1).
    + rewrite lookup_insert_ne in H1 by done. rewrite lookup_insert_ne in H2 by done.
      by eapply (ho_dynamic _ _ Hw a1 a2).
Qed.

(** ** Adding elements *)

Definition bytes_of (w : store) (p : payload) : option (list Z) :=
  match p with
  | Inside a => e_behind <$> elems w !! a
  | Buffer b => buffers w !! b
  end.

(** The arguments of an operation that adds an element with the contents [bs] *)
Definition argument_ok (w : store) (disp : GNUNET_CONTAINER_SListDisposition) (buf : payload) (len : Z)
  (bs : list Z) : Prop :=
  len = Z.of_nat (length bs)
  /\ match disp with
     | TRANSIENT => sizeof_SList_Elem + len <= GNUNET_MAX_MALLOC_CHECKED
         /\ exists full, bytes_of w buf = Some full /\ bs = take (Z.to_nat len) full
     | _ => exists b, buf = Buffer b /\ buffers w !! b = Some bs
         /\ forall a x, elems w !! a = Some x -> e_elem x = Buffer b -> disp <> DYNAMIC /\ e_disp x <> DYNAMIC
     end.

Lemma bytes_at_run w p b : bytes_of w p = Some b -> bytes_at p w = Ret (b, w).
Proof. intros Hb. unfold bytes_at. rewrite (run_bind _ _ w w w eq_refl). apply run_lift. unfold bytes_of in Hb. by rewrite Hb. Qed.

Lemma elem_at_run w a x : elems w !! a = Some x -> elem_at (Some a) w = Ret (x, w).
Proof. intros Hx. unfold elem_at. rewrite (run_bind _ _ w w w eq_refl). apply run_lift. cbn. by rewrite Hx. Qed.

Lemma slist_at_run w l s : slists w !! l = Some s -> slist_at l w = Ret (s, w).
Proof. intros Hs. unfold slist_at. rewrite (run_bind _ _ w w w eq_refl). apply run_lift. by rewrite Hs. Qed.

Lemma set_slist_run w l s s' : slists w !! l = Some s' -> set_slist l s w = Ret (tt, set_slists <[l := s]> w).
Proof. intros Hs. unfold set_slist. by rewrite (run_bind _ _ _ _ _ (slist_at_run _ _ _ Hs)). Qed.

Lemma set_next_run w a x q :
  elems w !! a = Some x -> set_next (Some a) q w = Ret (tt, set_elems (alter (set_e_next q) a) w).
Proof.
  intros Hx. unfold set_next. rewrite (run_bind _ _ _ _ _ (elem_at_run _ _ _ Hx)). unfold modify, set_elems.
  do 3 f_equal. apply map_eq. intros a'. destruct (decide (a = a')) as [->|Hne].
  - by rewrite lookup_insert_eq, lookup_alter_eq, Hx.
  - by rewrite lookup_insert_ne, lookup_alter_ne.
Qed.

Lemma create_elem_ok w disp buf len bs :
  argument_ok w disp buf len bs ->
  exists a x, create_elem disp buf len w = Ret (a, set_elems <[a := x]> w)
    /\ new_ok w a x (disp, bs) /\ e_next x = None.
Proof.
  intros [Hlen Harg]. unfold create_elem.
  assert (Hfresh : elems w !! fresh (dom (elems w)) = None) by (apply not_elem_of_dom, is_fresh).
  assert (Hnew : forall f, new_elem f w = Ret (fresh (dom (elems w)),
    set_elems <[fresh (dom (elems w)) := f (fresh (dom (elems w)))]> w)) by done.
  destruct (decide (disp = TRANSIENT)) as [->|Hd].
  - destruct Harg as (Hm & full & Hb & Hbs). exists (fresh (dom (elems w))).
    eexists. rewrite (run_bind _ _ _ _ _ (run_lift _ _ _ (malloc_ok _ Hm))).
    assert (Hfull : Z.of_nat (length (take (Z.to_nat len) full)) = len) by (rewrite <- Hbs; lia).
    rewrite length_take in Hfull.
    assert (Hread : read_bytes buf len w = Ret (bs, w)).
    { unfold read_bytes. rewrite (run_bind _ _ _ _ _ (bytes_at_run _ _ _ Hb)). apply run_lift.
      unfold mem_read. rewrite (proj2 (Nat.leb_le _ _)) by lia. by rewrite Hbs. }
    rewrite (run_bind _ _ _ _ _ Hread), Hnew. split; [ reflexivity | ]. split; [ | done ]. by constructor.
  - assert (Hm : sizeof_SList_Elem <= GNUNET_MAX_MALLOC_CHECKED) by done.
    rewrite (run_bind _ _ _ _ _ (run_lift _ _ _ (malloc_ok _ Hm))), Hnew.
    eexists _, _. split; [ reflexivity | ]. split; [ | done ].
    destruct disp; try done; destruct Harg as (b & -> & Hb & Hdy); constructor; try done;
      try (split_and!; try done; by exists b);
      intros a' x' b' Ha'; cbn [e_elem e_disp]; intros [= <-] Hx'; by eapply Hdy.
Qed.

Lemma descr_lookup w M l xs : heap_ok w M -> M !! l = Some xs -> slists w !! l = Some (descr xs).
Proof. intros Hw Hl. by rewrite (ho_lists _ _ Hw), lookup_fmap, Hl. Qed.

Lemma u32_add_1 n : u32 (u32 (Z.of_nat n) + 1) = u32 (Z.of_nat (S n)).
Proof. unfold u32. rewrite Z.add_mod_idemp_l by lia. f_equal. lia. Qed.

(** An iterator of list [l] between two parts of it *)
Definition between (i : GNUNET_CONTAINER_SList_Iterator) (l : Z) (before after : list (Z * entry_item)) : Prop :=
  i = mk_iterator l (last before.*1) (head after.*1).

Lemma add_run w M l xs disp buf len bs :
  heap_ok w M -> M !! l = Some xs -> argument_ok w disp buf len bs ->
  exists a x, GNUNET_CONTAINER_slist_add l disp buf len w = Ret (tt, spliced w l a x (disp, bs) [] xs)
    /\ new_ok w a x (disp, bs).
Proof.
  intros Hw Hl Harg. destruct (create_elem_ok _ _ _ _ _ Harg) as (a & x & Hc & Hn & Hnext).
  exists a, x. split; [ | done ]. unfold GNUNET_CONTAINER_slist_add. rewrite (run_bind _ _ _ _ _ Hc).
  pose proof (descr_lookup _ _ _ _ Hw Hl) as Hs.
  rewrite (run_bind _ _ _ _ _ (slist_at_run (set_elems <[a := x]> w) _ _ Hs)).
  rewrite (run_bind _ _ _ _ _ (set_next_run (set_elems <[a := x]> w) a x _ (lookup_insert_eq _ _ _))).
  erewrite set_slist_run by exact Hs. do 2 f_equal. unfold spliced, set_slists, set_elems. cbn [elems slists buffers].
  f_equal.
  - cbn [fmap list_fmap last link app]. by rewrite alter_insert_eq.
  - unfold descr. cbn [app fmap list_fmap length head sl_head sl_tail sl_length]. rewrite u32_add_1. f_equal.
    f_equal. rewrite last_cons. by destruct (last xs.*1).
Qed.

Lemma add_end_run w M l xs disp buf len bs :
  heap_ok w M -> M !! l = Some xs -> argument_ok w disp buf len bs ->
  exists a x, GNUNET_CONTAINER_slist_add_end l disp buf len w = Ret (tt, spliced w l a x (disp, bs) xs [])
    /\ new_ok w a x (disp, bs).
Proof.
  intros Hw Hl Harg. destruct (create_elem_ok _ _ _ _ _ Harg) as (a & x & Hc & Hn & Hnext).
  exists a, x. split; [ | done ]. unfold GNUNET_CONTAINER_slist_add_end. rewrite (run_bind _ _ _ _ _ Hc).
  pose proof (descr_lookup _ _ _ _ Hw Hl) as Hs.
  rewrite (run_bind _ _ _ _ _ (slist_at_run (set_elems <[a := x]> w) _ _ Hs)).
  assert (Hx : set_e_next None x = x) by (rewrite <- Hnext; by destruct x).
  assert (Hlink : match sl_tail (descr xs) with
      | Some t => set_next (Some t) (Some a)
      | None => mret tt
      end (set_elems <[a := x]> w) = Ret (tt, set_elems (fun m => link (last xs.*1) (Some a) (<[a := x]> m)) w)).
  { cbn [descr sl_tail]. destruct (last xs.*1) as [t|] eqn:Ht; [ | done ].
    destruct (ho_segments _ _ Hw _ _ Hl) as [Hseg _].
    destruct (segment_lookup _ _ _ _ t Hseg ltac:(by apply last_fst_elem)) as (y & it & Hy & _).
    rewrite (set_next_run (set_elems <[a := x]> w) t y); [ done | ]. cbn [set_elems elems].
    rewrite lookup_insert_ne; [ done | ]. intros ->. by rewrite (no_fresh _ _ _ _ Hn) in Hy. }
  rewrite (run_bind _ _ _ _ _ Hlink). erewrite set_slist_run by exact Hs. do 2 f_equal.
  unfold spliced, set_slists, set_elems. cbn [elems slists buffers head fmap list_fmap]. rewrite Hx. f_equal.
  unfold descr. cbn [sl_head sl_tail sl_length]. rewrite u32_add_1, fmap_app, length_app. cbn [fmap list_fmap length].
  rewrite last_snoc. f_equal. f_equal; [ | f_equal; lia ]. by destruct xs as [|[]].
Qed.

(** The part of a list in front of an iterator is linked to [q]. *)
Lemma relink_run w i l before after s q :
  between i l before after -> slists w !! l = Some s ->
  (forall t, t ∈ before.*1 -> is_Some (elems w !! t)) ->
  relink i q w = Ret (tt, mk_store (link (last before.*1) q (elems w))
    (<[l := mk_slist (if decide (before = []) then q else sl_head s) (sl_tail s) (sl_length s)]> (slists w))
    (buffers w)).
Proof.
  intros -> Hs He. unfold relink. cbn [i_last i_list]. destruct (last before.*1) as [t|] eqn:Ht; cbn [link].
  - destruct (He t (last_fst_elem _ _ Ht)) as [y Hy]. rewrite (set_next_run _ _ _ _ Hy).
    rewrite decide_False by (by intros ->). unfold set_elems. do 2 f_equal.
    rewrite insert_id; [ done | ]. rewrite Hs. by destruct s.
  - rewrite (run_bind _ _ _ _ _ (slist_at_run _ _ _ Hs)), (set_slist_run _ _ _ _ Hs).
    rewrite decide_True; [ by destruct w | ]. apply last_None in Ht. by apply fmap_nil_inv in Ht.
Qed.

(** What an insertion does to any store in which the list and the elements in front of the
    iterator are alive *)
Definition inserted (w : store) (l a : Z) (x : GNUNET_CONTAINER_SList_Elem) (s : GNUNET_CONTAINER_SList)
  (before after : list (Z * entry_item)) : store :=
  mk_store (link (last before.*1) (Some a) (<[a := set_e_next (head after.*1) x]> (elems w)))
    (<[l := mk_slist (if decide (before = []) then Some a else sl_head s)
              (if decide (head after.*1 = None) then Some a else sl_tail s) (u32 (sl_length s + 1))]> (slists w))
    (buffers w).

Lemma insert_any_run w i l before after s disp buf len bs :
  slists w !! l = Some s -> between i l before after ->
  (forall t, t ∈ before.*1 -> is_Some (elems w !! t)) -> argument_ok w disp buf len bs ->
  exists a x, GNUNET_CONTAINER_slist_insert i disp buf len w = Ret (tt, inserted w l a x s before after)
    /\ new_ok w a x (disp, bs).
Proof.
  intros Hs Hi Hlive Harg. destruct (create_elem_ok _ _ _ _ _ Harg) as (a & x & Hc & Hn & Hnext).
  exists a, x. split; [ | done ]. unfold GNUNET_CONTAINER_slist_insert. rewrite (run_bind _ _ _ _ _ Hc).
  rewrite (run_bind _ _ _ _ _ (set_next_run (set_elems <[a := x]> w) a x _ (lookup_insert_eq _ _ _))).
  set (w1 := set_elems _ (set_elems _ w)).
  assert (Hw1 : elems w1 = <[a := set_e_next (head after.*1) x]> (elems w)).
  { unfold w1, set_elems. rewrite Hi. cbn [elems i_elem]. apply alter_insert_eq. }
  assert (Hlive1 : forall t, t ∈ before.*1 -> is_Some (elems w1 !! t)).
  { intros t [y Hy]%Hlive. rewrite Hw1, lookup_insert_ne; [ by exists y | ].
    intros ->. by rewrite (no_fresh _ _ _ _ Hn) in Hy. }
  rewrite (run_bind _ _ _ _ _ (relink_run w1 _ _ _ _ _ _ Hi Hs Hlive1)). rewrite Hi. cbn [i_list i_elem].
  rewrite (run_bind _ _ _ _ _ (slist_at_run _ _ _ (lookup_insert_eq _ _ _))).
  erewrite set_slist_run by apply lookup_insert_eq. do 2 f_equal.
  unfold inserted, set_slists. cbn [elems slists buffers sl_head sl_tail sl_length].
  by rewrite Hw1, insert_insert_eq.
Qed.

Lemma insert_run w M i l before after disp buf len bs :
  heap_ok w M -> M !! l = Some (before ++ after) -> between i l before after ->
  argument_ok w disp buf len bs ->
  exists a x, GNUNET_CONTAINER_slist_insert i disp buf len w
      = Ret (tt, spliced w l a x (disp, bs) before after)
    /\ new_ok w a x (disp, bs).
Proof.
  intros Hw Hl Hi Harg. destruct (ho_segments _ _ Hw _ _ Hl) as [Hseg _].
  assert (Hlive : forall t, t ∈ before.*1 -> is_Some (elems w !! t)).
  { intros t Ht. destruct (segment_lookup _ _ _ _ t Hseg) as (y & it & Hy & _);
      [ rewrite fmap_app; apply elem_of_app; by left | by exists y ]. }
  destruct (insert_any_run w i l before after _ _ _ _ _ (descr_lookup _ _ _ _ Hw Hl) Hi Hlive Harg) as (a & x & Hrun & Hn).
  exists a, x. split; [ | done ]. rewrite Hrun. unfold inserted, spliced. do 2 f_equal. f_equal. f_equal.
  unfold descr. cbn [sl_head sl_tail sl_length]. rewrite u32_add_1, !fmap_app, !length_app.
  cbn [fmap list_fmap length fst]. f_equal; [ | | f_equal; lia ].
  - by destruct before as [|[]].
  - destruct after as [|[a' it'] after]; cbn [head fmap list_fmap].
    + rewrite decide_True by done. by rewrite last_snoc.
    + rewrite decide_False by done. rewrite !last_app, !last_cons. cbn [fst].
      by destruct (last after.*1).
Qed.

(** ** Removing elements *)

Definition freed_buffers (x : GNUNET_CONTAINER_SList_Elem) (m : gmap Z (list Z)) : gmap Z (list Z) :=
  match e_disp x, e_elem x with
  | DYNAMIC, Buffer b => delete b m
  | _, _ => m
  end.

Lemma destroy_elem_run w a x it :
  elems w !! a = Some x -> holds_item (buffers w) a x it ->
  destroy_elem (Some a) x w = Ret (tt, mk_store (delete a (elems w)) (slists w) (freed_buffers x (buffers w))).
Proof.
  intros Hx (Hd & Hl & Hc). unfold destroy_elem, freed_buffers.
  assert (Hfree : forall w', elems w' = elems w ->
    free_elem (Some a) w' = Ret (tt, mk_store (delete a (elems w)) (slists w') (buffers w'))).
  { intros w' He. unfold free_elem. rewrite <- He in Hx. rewrite (run_bind _ _ _ _ _ (elem_at_run _ _ _ Hx)).
    unfold modify, set_elems. by rewrite He. }
  destruct (decide (e_disp x = DYNAMIC)) as [Hdy|Hdy].
  - destruct it as [disp bs]. cbn [fst snd] in *. rewrite Hdy in Hd. subst disp. destruct Hc as (b & Hb & Hbs).
    rewrite Hdy, Hb. cbn [free_pointer].
    assert (Hrun : (_ ← bytes_at (Buffer b); modify (set_buffers (delete b))) w = Ret (tt, set_buffers (delete b) w))
      by (by rewrite (run_bind _ _ _ _ _ (bytes_at_run w (Buffer b) _ Hbs))).
    rewrite (run_bind _ _ _ _ _ Hrun). by apply Hfree.
  - rewrite (run_bind _ _ w w tt eq_refl), Hfree by done. by destruct (e_disp x).
Qed.

Lemma freed_buffers_other w a x a' x' b :
  dynamic_ok w -> elems w !! a = Some x -> elems w !! a' = Some x' -> a' <> a -> e_elem x' = Buffer b ->
  freed_buffers x (buffers w) !! b = buffers w !! b.
Proof.
  intros Hdy Hx Hx' Hne Hb. unfold freed_buffers. destruct (e_disp x) eqn:Hd; try done.
  destruct (e_elem x) as [e|b'] eqn:He; [ done | ]. apply lookup_delete_ne. intros ->.
  destruct Hne. symmetry. by eapply (Hdy a a').
Qed.

(** The store after the element between two parts was removed *)
Definition unlinked (w : store) (l a : Z) (x : GNUNET_CONTAINER_SList_Elem)
  (before after : list (Z * entry_item)) : store :=
  mk_store (delete a (link (last before.*1) (head after.*1) (elems w)))
    (<[l := descr (before ++ after)]> (slists w)) (freed_buffers x (buffers w)).

Lemma segment_middle w p before a it after q :
  segment w p (before ++ (a, it) :: after) q ->
  segment w p before (Some a) /\ exists x, elems w !! a = Some x /\ holds_item (buffers w) a x it
    /\ segment w (e_next x) after q.
Proof.
  intros Hs. apply segment_app in Hs as (m & Hb & Hm). cbn [segment] in Hm. destruct Hm as (-> & x & Hm).
  split; [ done | ]. by exists x.
Qed.

Lemma u32_sub_1 n : u32 (u32 (Z.of_nat (S n)) - 1) = u32 (Z.of_nat n).
Proof. unfold u32. rewrite Zminus_mod_idemp_l. f_equal. lia. Qed.

Lemma erase_run w M i l before a it after :
  heap_ok w M -> M !! l = Some (before ++ (a, it) :: after) -> between i l before ((a, it) :: after) ->
  exists x i', elems w !! a = Some x /\ holds_item (buffers w) a x it
    /\ GNUNET_CONTAINER_slist_erase i w = Ret (i', unlinked w l a x before after)
    /\ between i' l before after.
Proof.
  intros Hw Hl Hi. destruct (ho_segments _ _ Hw _ _ Hl) as [Hseg Hnd].
  destruct (segment_middle _ _ _ _ _ _ _ Hseg) as (Hb & x & Hx & Hit & Ha).
  pose proof (segment_end _ _ _ Ha) as Hnext. exists x, (mk_iterator l (last before.*1) (head after.*1)).
  split_and!; try done. pose proof (descr_lookup _ _ _ _ Hw Hl) as Hs.
  unfold GNUNET_CONTAINER_slist_erase.
  assert (i_elem i = Some a /\ i_list i = l /\ i_last i = last before.*1) as (Hel & Hli & Hla) by (by rewrite Hi).
  rewrite Hel, Hli, Hla.
  rewrite (run_bind _ _ _ _ _ (elem_at_run _ _ _ Hx)). rewrite Hnext.
  assert (Hlive : forall t, t ∈ before.*1 -> is_Some (elems w !! t)).
  { intros t Ht. destruct (segment_lookup _ _ _ _ t Hb Ht) as (y & it' & Hy & _). by exists y. }
  rewrite (run_bind _ _ _ _ _ (relink_run w _ _ _ _ _ _ Hi Hs Hlive)).
  rewrite fmap_app, fmap_cons in Hnd. apply NoDup_app in Hnd as (_ & Hsep & _).
  assert (Hna : last before.*1 <> Some a).
  { intros Ht. apply (Hsep a); [ by apply last_fst_elem | by left ]. }
  rewrite (run_bind _ _ _ _ _ (slist_at_run _ _ _ (lookup_insert_eq _ _ _))).
  rewrite (run_bind _ _ _ _ _ (set_slist_run _ _ _ _ (lookup_insert_eq _ _ _))).
  set (w2 := set_slists _ _).
  assert (Hx2 : elems w2 !! a = Some x) by (unfold w2; cbn [set_slists elems]; by rewrite link_lookup_ne).
  rewrite (run_bind _ _ _ _ _ (destroy_elem_run w2 a x it Hx2 Hit)).
  rewrite (run_bind _ _ _ _ _ (slist_at_run _ _ _ (lookup_insert_eq _ _ _))).
  rewrite (run_bind _ _ _ _ _ (set_slist_run _ _ _ _ (lookup_insert_eq _ _ _))).
  unfold mret, action_ret. do 2 f_equal. unfold unlinked, set_slists, w2. cbn [elems slists buffers sl_head sl_tail sl_length set_slists].
  rewrite !insert_insert_eq. f_equal. f_equal. unfold descr.
  rewrite length_app. cbn [length sl_head sl_tail sl_length].
  rewrite Nat.add_succ_r, u32_sub_1, <- length_app. f_equal.
  - rewrite !fmap_app. by destruct before as [|[]].
  - rewrite !fmap_app. cbn [fmap list_fmap fst]. destruct after as [|[a' it'] after]; cbn [head fmap list_fmap].
    + rewrite decide_True by done. by rewrite app_nil_r.
    + rewrite decide_False by done. rewrite !last_app, !last_cons. cbn [fst].
      by destruct (last after.*1).
Qed.

Lemma unlinked_ok w M l a x it before after :
  heap_ok w M -> M !! l = Some (before ++ (a, it) :: after) -> elems w !! a = Some x ->
  heap_ok (unlinked w l a x before after) (<[l := before ++ after]> M).
Proof.
  intros Hw Hl Hx. destruct (ho_segments _ _ Hw _ _ Hl) as [Hseg Hnd].
  destruct (segment_middle _ _ _ _ _ _ _ Hseg) as (Hb & x' & Hx' & _ & Ha).
  rewrite Hx in Hx'. injection Hx' as <-. pose proof (segment_end _ _ _ Ha) as Hnext.
  rewrite fmap_app, fmap_cons in Hnd. cbn [fst] in Hnd.
  pose proof Hnd as (Hnb & Hsep & (Hna & Hnaf)%NoDup_cons)%NoDup_app.
  assert (Hab : a ∉ before.*1) by (intros Hin; apply (Hsep a Hin); by left).
  assert (Hlast : forall a', a' ∉ before.*1 -> last before.*1 <> Some a')
    by (intros a' Ha' Ht; by apply Ha', last_fst_elem).
  assert (Hbuf : forall a' y b, a' <> a -> elems w !! a' = Some y -> e_elem y = Buffer b ->
    freed_buffers x (buffers w) !! b = buffers w !! b).
  { intros a' y b Hne Hy Hyb. by eapply (freed_buffers_other w a x a' y b (ho_dynamic _ _ Hw)). }
  set (wb := mk_store (elems w) (slists w) (freed_buffers x (buffers w))).
  assert (Hframe : forall p xs q, (a ∉ xs.*1) -> segment w p xs q -> segment wb p xs q).
  { intros p xs q Hn. apply segment_frame; [ done | ]. intros a' y b Ha'. apply Hbuf. by intros ->. }
  eapply heap_update; try done; cbn [unlinked elems slists buffers].
  - apply segment_app. exists (head after.*1). rewrite fmap_app. split.
    + pose proof (segment_link wb (unlinked w l a x before after) _ before (head after.*1) _ (Hframe _ _ _ Hab Hb) Hnb) as Hln.
      assert (Hhead : head (before.*1 ++ after.*1) = if decide (before = []) then head after.*1 else head (before ++ (a, it) :: after).*1)
        by (destruct before as [|[]]; done).
      rewrite Hhead. apply Hln; [ | done ]. intros a' Ha'. cbn [unlinked elems wb].
      apply lookup_delete_ne. by intros ->.
    + rewrite Hnext in Ha. eapply segment_frame; [ | | exact (Hframe _ _ _ Hna Ha) ]; [ | done ].
      intros a' Ha'. cbn [unlinked elems wb]. rewrite lookup_delete_ne by (by intros ->).
      apply link_lookup_ne, Hlast. intros Hin. apply (Hsep _ Hin). by right.
  - rewrite fmap_app. apply NoDup_app. split_and!; [ done | | done ].
    intros a' Ha' Hin. apply (Hsep _ Ha'). by right.
  - intros a'. rewrite !fmap_app, fmap_cons, !not_elem_of_app, not_elem_of_cons. cbn [fst]. intros (Hn1 & Hn2 & _) _.
    rewrite lookup_delete_ne by done. by apply link_lookup_ne, Hlast.
  - intros a'. rewrite !fmap_app, fmap_cons, !elem_of_app, elem_of_cons. naive_solver.
  - intros a'. rewrite !fmap_app, fmap_cons, elem_of_app, elem_of_cons, not_elem_of_app. cbn [fst].
    intros Hin [Hn1 Hn2]. assert (a' = a) as -> by naive_solver. apply lookup_delete_eq.
  - intros a' y b Hn. apply Hbuf. intros ->. destruct Hn. rewrite fmap_app, fmap_cons. apply elem_of_app. right. by left.
  - intros a1 a2 x1 x2 b H1 H2 Hb1 Hb2 Hdy. cbn [unlinked elems] in H1, H2.
    apply lookup_delete_Some in H1 as [_ H1]. apply lookup_delete_Some in H2 as [_ H2].
    apply link_elem in H1 as (y1 & H1 & E1 & D1). apply link_elem in H2 as (y2 & H2 & E2 & D2).
    rewrite E1 in Hb1. rewrite E2 in Hb2. rewrite D1 in Hdy. by eapply (ho_dynamic _ _ Hw a1 a2).
Qed.

Lemma dynamic_ok_sub w w' :
  dynamic_ok w -> (forall a x, elems w' !! a = Some x -> elems w !! a = Some x) -> dynamic_ok w'.
Proof. intros Hd Hsub a1 a2 x1 x2 b H1 H2. eapply Hd; by apply Hsub. Qed.

(** The elements of a segment are freed, with their dynamic buffers. *)
Lemma clear_loop_run xs : forall fuel w p,
  segment w p xs None -> NoDup xs.*1 -> dynamic_ok w -> (length xs <= fuel)%nat ->
  exists w', clear_loop fuel p w = Ret (tt, w') /\ slists w' = slists w
    /\ (forall a, a ∈ xs.*1 -> elems w' !! a = None)
    /\ (forall a, a ∉ xs.*1 -> elems w' !! a = elems w !! a)
    /\ (forall a x b, a ∉ xs.*1 -> elems w !! a = Some x -> e_elem x = Buffer b -> buffers w' !! b = buffers w !! b).
Proof.
  induction xs as [|[a it] xs IH]; intros fuel w p Hs Hnd Hdy Hf.
  { rewrite Hs. exists w. split; [ by destruct fuel | ]. split_and!; try done. intros a Ha. by apply elem_of_nil in Ha. }
  destruct Hs as (-> & x & Hx & Hit & Hs). destruct fuel as [|fuel]; [ cbn in Hf; lia | ]. cbn [clear_loop].
  rewrite fmap_cons in Hnd. apply NoDup_cons in Hnd as [Hna Hnd]. cbn [fst] in Hna.
  rewrite (run_bind _ _ _ _ _ (elem_at_run _ _ _ Hx)), (run_bind _ _ _ _ _ (destroy_elem_run _ _ _ _ Hx Hit)).
  set (w1 := mk_store _ _ _).
  assert (Hbuf : forall a' y b, a' <> a -> elems w !! a' = Some y -> e_elem y = Buffer b -> buffers w1 !! b = buffers w !! b).
  { intros a' y b Hne Hy Hb. by eapply (freed_buffers_other w a x a' y b). }
  destruct (IH fuel w1 (e_next x)) as (w' & Hrun & Hsl & Hgone & Hkeep & Hb).
  - eapply segment_frame; [ | | exact Hs ].
    + intros a' Ha'. apply lookup_delete_ne. by intros ->.
    + intros a' y b Ha'. apply Hbuf. by intros ->.
  - done.
  - apply (dynamic_ok_sub w); [ done | ]. intros a' y Hy. cbn [w1 elems] in Hy. by apply lookup_delete_Some in Hy as [_ Hy].
  - cbn [length] in Hf. lia.
  - exists w'. rewrite Hrun. split_and!; try done.
    + intros a'. rewrite fmap_cons. intros [->|Hin]%elem_of_cons; [ | by apply Hgone ].
      rewrite Hkeep by done. apply lookup_delete_eq.
    + intros a'. rewrite fmap_cons, not_elem_of_cons. intros [Hn1 Hn2]. rewrite Hkeep by done. by apply lookup_delete_ne.
    + intros a' y b. rewrite fmap_cons, not_elem_of_cons. intros [Hn1 Hn2] Hy Hyb.
      rewrite (Hb a' y b); [ by eapply Hbuf | done | | done ]. cbn [w1 elems]. by rewrite lookup_delete_ne.
Qed.

Lemma segment_size w p xs q : segment w p xs q -> NoDup xs.*1 -> (length xs <= size (elems w))%nat.
Proof.
  intros Hs Hnd. rewrite <- (length_fmap fst), <- size_dom.
  rewrite <- (size_list_to_set (C := gset Z) xs.*1) by done. apply subseteq_size.
  intros a Ha%elem_of_list_to_set. destruct (segment_lookup _ _ _ _ _ Hs Ha) as (x & it & Hx & _).
  by apply elem_of_dom.
Qed.

Lemma clear_ok w M l xs :
  heap_ok w M -> M !! l = Some xs ->
  exists w', GNUNET_CONTAINER_slist_clear l w = Ret (tt, w') /\ heap_ok w' (<[l := []]> M).
Proof.
  intros Hw Hl. destruct (ho_segments _ _ Hw _ _ Hl) as [Hs Hnd]. pose proof (descr_lookup _ _ _ _ Hw Hl) as Hsl.
  unfold GNUNET_CONTAINER_slist_clear. rewrite (run_bind _ _ _ _ _ (slist_at_run _ _ _ Hsl)), (run_bind _ _ w w w eq_refl).
  destruct (clear_loop_run xs (S (size (elems w))) w (head xs.*1) Hs Hnd (ho_dynamic _ _ Hw))
    as (w' & Hrun & Hsl' & Hgone & Hkeep & Hb); [ pose proof (segment_size _ _ _ _ Hs Hnd); lia | ].
  cbn [descr sl_head]. rewrite (run_bind _ _ _ _ _ Hrun). erewrite set_slist_run by (by rewrite Hsl').
  eexists. split; [ reflexivity | ]. eapply heap_update; try done; cbn [set_slists elems slists buffers].
  - by rewrite Hsl'.
  - constructor.
  - intros a Ha _. by apply Hkeep.
  - intros a Ha. by apply elem_of_nil in Ha.
  - intros a Ha _. by apply Hgone.
  - apply (dynamic_ok_sub w); [ exact (ho_dynamic _ _ Hw) | ]. intros a x Hx. cbn [set_slists elems] in Hx.
    destruct (decide (a ∈ xs.*1)) as [Hin|Hin]; [ by rewrite Hgone in Hx | by rewrite Hkeep in Hx ].
Qed.

(** ** Iterators *)

Lemma begin_run w M l xs :
  heap_ok w M -> M !! l = Some xs ->
  exists i, GNUNET_CONTAINER_slist_begin l w = Ret (i, w) /\ between i l [] xs.
Proof.
  intros Hw Hl. unfold GNUNET_CONTAINER_slist_begin.
  rewrite (run_bind _ _ _ _ _ (slist_at_run _ _ _ (descr_lookup _ _ _ _ Hw Hl))). by eexists.
Qed.

(** The element in the middle of a list *)
Lemma middle_elem w M l before a it after :
  heap_ok w M -> M !! l = Some (before ++ (a, it) :: after) ->
  exists x, elems w !! a = Some x /\ holds_item (buffers w) a x it /\ e_next x = head after.*1.
Proof.
  intros Hw Hl. destruct (ho_segments _ _ Hw _ _ Hl) as [Hs _].
  destruct (segment_middle _ _ _ _ _ _ _ Hs) as (_ & x & Hx & Hi & Ha). exists x. split_and!; try done.
  by apply segment_end in Ha.
Qed.

Lemma next_run w M i l before a it after :
  heap_ok w M -> M !! l = Some (before ++ (a, it) :: after) -> i_list i = l -> i_elem i = Some a ->
  exists i', GNUNET_CONTAINER_slist_next i w
      = Ret ((if decide (after = []) then GNUNET_NO else GNUNET_YES, i'), w)
    /\ between i' l (before ++ [(a, it)]) after.
Proof.
  intros Hw Hl Hi Ha. destruct (middle_elem _ _ _ _ _ _ _ Hw Hl) as (x & Hx & _ & Hn).
  unfold GNUNET_CONTAINER_slist_next. rewrite Ha, (run_bind _ _ _ _ _ (elem_at_run _ _ _ Hx)), Hn, Hi.
  eexists. split; [ unfold mret, action_ret; by destruct after as [|[]] | ].
  unfold between. rewrite fmap_app. cbn [fmap list_fmap fst]. by rewrite last_snoc.
Qed.

Lemma holds_item_bytes w a x it :
  elems w !! a = Some x -> holds_item (buffers w) a x it -> bytes_of w (e_elem x) = Some it.2.
Proof.
  intros Hx (_ & _ & Hc). destruct it as [[] bs]; cbn [fst snd] in *;
    [ destruct Hc as [-> Hb]; cbn [bytes_of]; by rewrite Hx; cbn; rewrite Hb | | ];
    by destruct Hc as (b & -> & Hb).
Qed.

(** *** Appending *)

(** What is added for an element: a copy, unless it is static *)
Definition copy_of (it : entry_item) : entry_item :=
  (if decide (it.1 = STATIC) then STATIC else TRANSIENT, it.2).

Definition copyable (it : entry_item) : Prop :=
  sizeof_SList_Elem + Z.of_nat (length it.2) <= GNUNET_MAX_MALLOC_CHECKED.

Lemma copy_argument w a x it :
  dynamic_ok w -> elems w !! a = Some x -> holds_item (buffers w) a x it -> copyable it ->
  argument_ok w (if decide (e_disp x = STATIC) then STATIC else TRANSIENT) (e_elem x) (e_len x) it.2.
Proof.
  intros Hdy Hx Hi Hc. pose proof (holds_item_bytes _ _ _ _ Hx Hi) as Hb. destruct Hi as (Hd & Hl & Hp).
  split; [ done | ]. destruct (decide (e_disp x = STATIC)) as [Hst|Hst].
  - rewrite Hst in Hd. destruct it as [disp bs]. cbn [fst snd] in *. subst disp. destruct Hp as (b & Hpe & Hbs).
    exists b. split_and!; try done. intros a' x' Hx' Hb'. split; [ done | ]. intros Hdyn.
    assert (a' = a) as -> by (by eapply (Hdy a' a x' x b)). congruence.
  - split; [ rewrite Hl; exact Hc | ]. exists it.2. split; [ done | ]. by rewrite Hl, Nat2Z.id, firstn_all.
Qed.

Lemma append_loop_ok rest : forall fuel w M i src dst pre ds,
  heap_ok w M -> M !! src = Some (pre ++ rest) -> M !! dst = Some ds ->
  i_list i = src -> i_elem i = head rest.*1 -> Forall copyable rest.*2 -> (length rest <= fuel)%nat ->
  exists w' new, append_loop fuel dst i w = Ret (tt, w') /\ heap_ok w' (<[dst := new ++ ds]> M)
    /\ new.*2 = rev (copy_of <$> rest.*2).
Proof.
  induction rest as [|[a it] rest IH]; intros fuel w M i src dst pre ds Hw Hsrc Hdst Hi He Hc Hf.
  { exists w, []. split_and!; [ | by rewrite insert_id | done ].
    destruct fuel; cbn [append_loop]; unfold GNUNET_CONTAINER_slist_end; by rewrite He. }
  destruct fuel as [|fuel]; [ cbn in Hf; lia | ]. cbn [append_loop].
  assert (Hend : GNUNET_CONTAINER_slist_end i = GNUNET_NO) by (unfold GNUNET_CONTAINER_slist_end; by rewrite He).
  rewrite Hend, He. change (GNUNET_NO =? GNUNET_YES) with false. cbv iota.
  rewrite fmap_cons in Hc. apply Forall_cons in Hc as [Hit Hc]. cbn [snd] in Hit.
  destruct (middle_elem _ _ _ _ _ _ _ Hw Hsrc) as (x & Hx & Hh & _). cbn [head fmap list_fmap fst].
  rewrite (run_bind _ _ _ _ _ (elem_at_run _ _ _ Hx)).
  destruct (add_run w M dst ds _ _ _ _ Hw Hdst (copy_argument w a x it (ho_dynamic _ _ Hw) Hx Hh Hit))
    as (a' & x' & Hadd & Hn).
  rewrite (run_bind _ _ _ _ _ Hadd). pose proof (spliced_ok w M dst a' x' _ [] ds Hw Hdst Hn) as Hw1.
  set (w1 := spliced _ _ _ _ _ _ _) in *. set (it' := (_, it.2)) in *. cbn [app] in Hw1.
  assert (Hsrc1 : exists pre1, <[dst := (a', it') :: ds]> M !! src = Some (pre1 ++ (a, it) :: rest)).
  { destruct (decide (dst = src)) as [->|Hne].
    - exists ((a', it') :: pre). rewrite lookup_insert_eq. cbn [app]. rewrite Hdst in Hsrc. injection Hsrc as ->. done.
    - exists pre. by rewrite lookup_insert_ne. }
  destruct Hsrc1 as [pre1 Hsrc1].
  destruct (next_run _ _ i src pre1 a it rest Hw1 Hsrc1 Hi He) as (i' & Hnext & Hbet).
  rewrite (run_bind _ _ _ _ _ Hnext). cbn [snd].
  destruct (IH fuel w1 _ i' src dst (pre1 ++ [(a, it)]) ((a', it') :: ds) Hw1) as (w' & new & Hrun & Hok & Hnew).
  - by rewrite <- app_assoc.
  - apply lookup_insert_eq.
  - by rewrite Hbet.
  - by rewrite Hbet.
  - done.
  - cbn [length] in Hf. lia.
  - exists w', (new ++ [(a', it')]). split_and!; [ done | | ].
    + rewrite insert_insert_eq in Hok. by rewrite <- app_assoc.
    + rewrite fmap_app, Hnew. cbn [fmap list_fmap snd rev]. f_equal. unfold copy_of, it'.
      destruct Hh as (Hd & _). by rewrite Hd.
Qed.

Lemma append_ok w M dst src ds ss :
  heap_ok w M -> M !! dst = Some ds -> M !! src = Some ss -> Forall copyable ss.*2 ->
  exists w' new, GNUNET_CONTAINER_slist_append dst src w = Ret (tt, w') /\ heap_ok w' (<[dst := new ++ ds]> M)
    /\ new.*2 = rev (copy_of <$> ss.*2).
Proof.
  intros Hw Hd Hs Hc. unfold GNUNET_CONTAINER_slist_append.
  destruct (begin_run _ _ _ _ Hw Hs) as (i & Hb & Hi). rewrite (run_bind _ _ _ _ _ Hb), (run_bind _ _ w w w eq_refl).
  destruct (ho_segments _ _ Hw _ _ Hs) as [Hseg Hnd]. pose proof (segment_size _ _ _ _ Hseg Hnd).
  apply (append_loop_ok ss _ w M i src dst [] ds); try done; [ by rewrite Hi | by rewrite Hi | lia ].
Qed.

(** ** Searching *)

Lemma same_payload_run w a x it buf :
  elems w !! a = Some x -> holds_item (buffers w) a x it ->
  same_payload x buf (Z.of_nat (length buf)) w = Ret (bool_decide (buf = it.2), w).
Proof.
  intros Hx Hi. pose proof (holds_item_bytes _ _ _ _ Hx Hi) as Hb. destruct Hi as (_ & Hl & _).
  unfold same_payload. rewrite Hl.
  destruct (Z.eqb_spec (Z.of_nat (length it.2)) (Z.of_nat (length buf))) as [Heq|Hne].
  - assert (Hread : forall b : list Z, length b = length buf -> mem_read b 0 (Z.to_nat (Z.of_nat (length buf))) = Ret b).
    { intros b Hlen. rewrite Nat2Z.id. unfold mem_read. rewrite (proj2 (Nat.leb_le _ _)) by lia.
      by rewrite <- Hlen, drop_0, firstn_all. }
    rewrite (run_bind _ _ _ _ _ (run_lift _ w _ (Hread buf eq_refl))).
    assert (Hrb : read_bytes (e_elem x) (Z.of_nat (length buf)) w = Ret (it.2, w)).
    { unfold read_bytes. rewrite (run_bind _ _ _ _ _ (bytes_at_run _ _ _ Hb)). apply run_lift, Hread. lia. }
    by rewrite (run_bind _ _ _ _ _ Hrb).
  - rewrite bool_decide_eq_false_2; [ done | ]. intros ->. lia.
Qed.

Lemma same_by_run compare w a x it buf :
  elems w !! a = Some x -> holds_item (buffers w) a x it ->
  same_by compare x buf (Z.of_nat (length buf)) w
  = Ret ((length it.2 =? length buf)%nat && (compare buf (Z.of_nat (length buf)) it.2 (Z.of_nat (length it.2)) =? 0), w).
Proof.
  intros Hx Hi. pose proof (holds_item_bytes _ _ _ _ Hx Hi) as Hb. destruct Hi as (_ & Hl & _).
  unfold same_by. rewrite Hl.
  destruct (Z.eqb_spec (Z.of_nat (length it.2)) (Z.of_nat (length buf))) as [Heq|Hne].
  - rewrite (run_bind _ _ _ _ _ (bytes_at_run _ _ _ Hb)). by rewrite (proj2 (Nat.eqb_eq _ _)) by lia.
  - by rewrite (proj2 (Nat.eqb_neq _ _)) by lia.
Qed.

Lemma contains_loop_run w buf xs : forall fuel p,
  segment w p xs None -> (length xs <= fuel)%nat ->
  slist_contains_loop fuel p buf (Z.of_nat (length buf)) w
  = Ret (if decide (buf ∈ xs.*2.*2) then GNUNET_YES else GNUNET_NO, w).
Proof.
  induction xs as [|[a it] xs IH]; intros fuel p Hs Hf.
  { rewrite Hs. destruct fuel; done. }
  destruct Hs as (-> & x & Hx & Hit & Hs). destruct fuel as [|fuel]; [ cbn in Hf; lia | ].
  cbn [slist_contains_loop]. rewrite (run_bind _ _ _ _ _ (elem_at_run _ _ _ Hx)).
  rewrite (run_bind _ _ _ _ _ (same_payload_run _ _ _ _ _ Hx Hit)). cbn [fmap list_fmap snd].
  case_bool_decide as Heq.
  - rewrite decide_True; [ done | ]. rewrite Heq. left.
  - rewrite (IH fuel) by (done || (cbn [length] in Hf; lia)). unfold mret, action_ret.
    destruct (decide (buf ∈ xs.*2.*2)) as [Hin|Hin].
    + rewrite decide_True; [ done | by right ].
    + rewrite decide_False; [ done | ]. by intros [|]%elem_of_cons.
Qed.

(** The first element that the comparator accepts *)
Definition first_match (compare : list Z -> Z -> list Z -> Z -> Z) (buf : list Z) (its : list entry_item)
  : option entry_item :=
  head (filter (fun it : entry_item => length it.2 = length buf
    /\ compare buf (Z.of_nat (length buf)) it.2 (Z.of_nat (length it.2)) = 0) its).

Lemma contains2_loop_run compare w buf xs : forall fuel p,
  segment w p xs None -> (length xs <= fuel)%nat ->
  exists r, slist_contains2_loop fuel p buf (Z.of_nat (length buf)) compare w = Ret (r, w)
    /\ match first_match compare buf xs.*2 with
       | None => r = None
       | Some it => exists q, r = Some q /\ bytes_of w q = Some it.2
       end.
Proof.
  induction xs as [|[a it] xs IH]; intros fuel p Hs Hf.
  { rewrite Hs. exists None. by destruct fuel. }
  destruct Hs as (-> & x & Hx & Hit & Hs). destruct fuel as [|fuel]; [ cbn in Hf; lia | ].
  cbn [slist_contains2_loop]. rewrite (run_bind _ _ _ _ _ (elem_at_run _ _ _ Hx)).
  rewrite (run_bind _ _ _ _ _ (same_by_run compare _ _ _ _ buf Hx Hit)). unfold first_match.
  cbn [fmap list_fmap snd]. destruct (andb _ _) eqn:E.
  - apply andb_true_iff in E as [E1%Nat.eqb_eq E2%Z.eqb_eq]. rewrite filter_cons_True by done. cbn [head].
    exists (Some (e_elem x)). split; [ done | ]. exists (e_elem x). split; [ done | ]. by apply (holds_item_bytes _ a).
  - apply andb_false_iff in E. rewrite filter_cons_False.
    + apply IH; [ done | cbn [length] in Hf; lia ].
    + intros [H1 H2]. destruct E as [E%Nat.eqb_neq|E%Z.eqb_neq]; done.
Qed.

(** ** Lists as sequences *)

Definition contents (M : gmap Z (list (Z * entry_item))) : gmap Z (list entry_item) := (fun xs => xs.*2) <$> M.

Definition lists_are (w : store) (A : gmap Z (list entry_item)) : Prop :=
  exists M, heap_ok w M /\ A = contents M.

(** Also, [i] is an iterator of [l] in front of its [n]th element. *)
Definition lists_at (w : store) (A : gmap Z (list entry_item)) (i : GNUNET_CONTAINER_SList_Iterator)
  (l : Z) (n : nat) : Prop :=
  exists M before after, heap_ok w M /\ A = contents M /\ M !! l = Some (before ++ after)
    /\ between i l before after /\ n = length before.

Lemma contents_lookup M l its : contents M !! l = Some its -> exists xs, M !! l = Some xs /\ its = xs.*2.
Proof. unfold contents. rewrite lookup_fmap. intros (xs & -> & Hl)%fmap_Some. by exists xs. Qed.

Lemma contents_insert M l xs : contents (<[l := xs]> M) = <[l := xs.*2]> (contents M).
Proof. apply fmap_insert. Qed.

Lemma lists_are_update w M l xs its A :
  heap_ok w (<[l := xs]> M) -> A = contents M -> its = xs.*2 -> lists_are w (<[l := its]> A).
Proof. intros Hw -> ->. exists (<[l := xs]> M). split; [ done | ]. by rewrite contents_insert. Qed.

Lemma segment_slists w f p xs q : segment w p xs q -> segment (set_slists f w) p xs q.
Proof. by apply segment_frame. Qed.

Lemma slist_create_ok w M :
  heap_ok w M ->
  exists l w', GNUNET_CONTAINER_slist_create w = Ret (l, w') /\ M !! l = None /\ heap_ok w' (<[l := []]> M).
Proof.
  intros Hw. set (l := fresh (dom (slists w))).
  exists l, (set_slists <[l := mk_slist None None 0]> w).
  assert (Hl : M !! l = None).
  { assert (Hn : slists w !! l = None) by apply not_elem_of_dom, is_fresh.
    rewrite (ho_lists _ _ Hw), lookup_fmap in Hn. by destruct (M !! l). }
  split_and!; [ | done | ].
  { unfold GNUNET_CONTAINER_slist_create.
    rewrite (run_bind _ _ _ _ _ (run_lift _ w _ (malloc_ok sizeof_SList ltac:(done)))). done. }
  constructor; cbn [set_slists elems slists buffers].
  - by rewrite (ho_lists _ _ Hw), fmap_insert.
  - intros l2 ys Hys. apply lookup_insert_Some in Hys as [[<- <-]|[Hne Hys]]; [ by split; [ | constructor ] | ].
    destruct (ho_segments _ _ Hw l2 ys Hys) as [Hs Hn]. split; [ by apply segment_slists | done ].
  - intros l1 l2 xs ys a [[<- <-]|[N1 H1]]%lookup_insert_Some [[<- <-]|[N2 H2]]%lookup_insert_Some Hx Hy;
      try (by apply elem_of_nil in Hx); try (by apply elem_of_nil in Hy). by eapply (ho_disjoint _ _ Hw).
  - intros a x Hx. destruct (ho_owned _ _ Hw _ _ Hx) as (l2 & xs & Hl2 & Ha). exists l2, xs.
    rewrite lookup_insert_ne; [ done | ]. intros <-. congruence.
  - exact (ho_dynamic _ _ Hw).
Qed.

Lemma slist_destroy_ok w M l xs :
  heap_ok w M -> M !! l = Some xs ->
  exists w', GNUNET_CONTAINER_slist_destroy l w = Ret (tt, w') /\ heap_ok w' (delete l M).
Proof.
  intros Hw Hl. unfold GNUNET_CONTAINER_slist_destroy. destruct (clear_ok _ _ _ _ Hw Hl) as (w' & Hrun & Hw').
  rewrite (run_bind _ _ _ _ _ Hrun).
  rewrite (run_bind _ _ _ _ _ (slist_at_run _ _ _ (descr_lookup _ _ _ _ Hw' (lookup_insert_eq _ _ _)))).
  eexists. split; [ reflexivity | ]. constructor; cbn [set_slists elems slists buffers].
  - by rewrite (ho_lists _ _ Hw'), <- fmap_delete, delete_insert_eq.
  - intros l2 ys [Hne Hys]%lookup_delete_Some. destruct (ho_segments _ _ Hw' l2 ys) as [Hs Hn];
      [ by rewrite lookup_insert_ne | ]. split; [ by apply segment_slists | done ].
  - intros l1 l2 ys zs a [N1 H1]%lookup_delete_Some [N2 H2]%lookup_delete_Some.
    apply (ho_disjoint _ _ Hw'); by rewrite lookup_insert_ne.
  - intros a x Hx. destruct (ho_owned _ _ Hw' _ _ Hx) as (l2 & ys & Hl2 & Ha). exists l2, ys.
    apply lookup_insert_Some in Hl2 as [[_ <-]|[Hne Hl2]]; [ by apply elem_of_nil in Ha | ].
    by rewrite lookup_delete_ne.
  - exact (ho_dynamic _ _ Hw').
Qed.

(** The operations on a list [l] with the contents [its] *)
Record list_operations (w : store) (A : gmap Z (list entry_item)) (l : Z) (its : list entry_item) : Prop := {
  lo_add : forall disp buf len bs, argument_ok w disp buf len bs ->
    returns (GNUNET_CONTAINER_slist_add l disp buf len) w (fun _ w' => lists_are w' (<[l := (disp, bs) :: its]> A));
  lo_add_end : forall disp buf len bs, argument_ok w disp buf len bs ->
    returns (GNUNET_CONTAINER_slist_add_end l disp buf len) w
      (fun _ w' => lists_are w' (<[l := its ++ [(disp, bs)]]> A));
  lo_append : forall dst ds, A !! dst = Some ds -> Forall copyable its ->
    returns (GNUNET_CONTAINER_slist_append dst l) w
      (fun _ w' => lists_are w' (<[dst := rev (copy_of <$> its) ++ ds]> A));
  lo_clear : returns (GNUNET_CONTAINER_slist_clear l) w (fun _ w' => lists_are w' (<[l := []]> A));
  lo_destroy : returns (GNUNET_CONTAINER_slist_destroy l) w (fun _ w' => lists_are w' (delete l A));
  lo_contains : forall buf, GNUNET_CONTAINER_slist_contains l buf (Z.of_nat (length buf)) w
    = Ret (if decide (buf ∈ its.*2) then GNUNET_YES else GNUNET_NO, w);
  lo_contains2 : forall buf compare,
    returns (GNUNET_CONTAINER_slist_contains2 l buf (Z.of_nat (length buf)) compare) w (fun r w' => w' = w
      /\ match first_match compare buf its with
         | None => r = None
         | Some it => exists q, r = Some q /\ bytes_of w q = Some it.2
         end);
  lo_count : Z.of_nat (length its) < 2 ^ 31 ->
    GNUNET_CONTAINER_slist_count l w = Ret (Z.of_nat (length its), w);
  lo_begin : returns (GNUNET_CONTAINER_slist_begin l) w (fun i w' => w' = w /\ lists_at w A i l 0)
}.

(** The operations on an iterator in front of the [n]th element; after an insertion it has
    to be advanced before it is used again. *)
Record iterator_operations (w : store) (A : gmap Z (list entry_item)) (l : Z) (its : list entry_item)
  (i : GNUNET_CONTAINER_SList_Iterator) (n : nat) : Prop := {
  it_end : GNUNET_CONTAINER_slist_end i = (if decide (n = length its) then GNUNET_YES else GNUNET_NO);
  it_get : forall it, its !! n = Some it ->
    returns (GNUNET_CONTAINER_slist_get i) w (fun r w' => w' = w /\ bytes_of w r.1 = Some it.2
      /\ r.2 = Z.of_nat (length it.2));
  it_next : (n < length its)%nat ->
    returns (GNUNET_CONTAINER_slist_next i) w (fun r w' => w' = w
      /\ r.1 = (if decide (S n = length its) then GNUNET_NO else GNUNET_YES) /\ lists_at w A r.2 l (S n));
  it_erase : (n < length its)%nat ->
    returns (GNUNET_CONTAINER_slist_erase i) w (fun i' w' => lists_at w' (<[l := delete n its]> A) i' l n);
  it_insert : forall disp buf len bs, argument_ok w disp buf len bs ->
    returns (GNUNET_CONTAINER_slist_insert i disp buf len) w (fun _ w' =>
      let A' := <[l := take n its ++ (disp, bs) :: drop n its]> A in
      lists_are w' A'
      /\ ((n < length its)%nat -> returns (GNUNET_CONTAINER_slist_next i) w' (fun r w'' =>
            w'' = w' /\ lists_at w' A' r.2 l (n + 2)%nat)))
}.

Lemma list_operations_ok w A l its :
  lists_are w A -> A !! l = Some its -> list_operations w A l its.
Proof.
  intros (M & Hw & ->) (xs & Hl & ->)%contents_lookup. destruct (ho_segments _ _ Hw _ _ Hl) as [Hseg Hnd].
  pose proof (segment_size _ _ _ _ Hseg Hnd) as Hsize. pose proof (descr_lookup _ _ _ _ Hw Hl) as Hs.
  constructor.
  - intros disp buf len bs Harg. destruct (add_run _ _ _ _ _ _ _ _ Hw Hl Harg) as (a & x & Hrun & Hn).
    eexists _, _. split; [ exact Hrun | ]. by eapply lists_are_update; [ apply (spliced_ok w M l a x _ [] xs) | | ].
  - intros disp buf len bs Harg. destruct (add_end_run _ _ _ _ _ _ _ _ Hw Hl Harg) as (a & x & Hrun & Hn).
    eexists _, _. split; [ exact Hrun | ]. eapply lists_are_update; [ apply (spliced_ok w M l a x _ xs []) | done | ];
      [ done | by rewrite app_nil_r | done | by rewrite fmap_app ].
  - intros dst ds (ys & Hd & ->)%contents_lookup Hc. destruct (append_ok w M dst l ys xs Hw Hd Hl Hc) as (w' & new & Hrun & Hok & Hnew).
    eexists _, _. split; [ exact Hrun | ]. eapply lists_are_update; [ exact Hok | done | ]. by rewrite fmap_app, Hnew.
  - destruct (clear_ok _ _ _ _ Hw Hl) as (w' & Hrun & Hok). eexists _, _. split; [ exact Hrun | ]. by eapply lists_are_update.
  - destruct (slist_destroy_ok _ _ _ _ Hw Hl) as (w' & Hrun & Hok). eexists _, _. split; [ exact Hrun | ].
    exists (delete l M). split; [ done | ]. unfold contents. by rewrite fmap_delete.
  - intros buf. unfold GNUNET_CONTAINER_slist_contains.
    rewrite (run_bind _ _ _ _ _ (slist_at_run _ _ _ Hs)), (run_bind _ _ w w w eq_refl).
    apply (contains_loop_run w buf xs); [ done | lia ].
  - intros buf compare. unfold GNUNET_CONTAINER_slist_contains2.
    destruct (contains2_loop_run compare w buf xs (S (size (elems w))) _ Hseg) as (r & Hrun & Hr); [ lia | ].
    exists r, w. split; [ | done ].
    by rewrite (run_bind _ _ _ _ _ (slist_at_run _ _ _ Hs)), (run_bind _ _ w w w eq_refl).
  - rewrite length_fmap. intros Hn. unfold GNUNET_CONTAINER_slist_count.
    rewrite (run_bind _ _ _ _ _ (slist_at_run _ _ _ Hs)). unfold mret, action_ret. cbn [descr sl_length].
    rewrite u32_small by int_lia. rewrite s32_small by int_lia. done.
  - destruct (begin_run _ _ _ _ Hw Hl) as (i & Hrun & Hi). exists i, w. split; [ done | ]. split; [ done | ].
    by exists M, [], xs.
Qed.

Lemma iterator_operations_ok w A l its i n :
  lists_at w A i l n -> A !! l = Some its -> (n <= length its)%nat /\ iterator_operations w A l its i n.
Proof.
  intros (M & before & after & Hw & -> & Hl & Hi & ->) Hits.
  apply contents_lookup in Hits as (xs & Hl' & ->). rewrite Hl in Hl'. injection Hl' as <-.
  assert (i_elem i = head after.*1 /\ i_list i = l) as [Hel Hli] by (by rewrite Hi).
  rewrite fmap_app. assert (Hn : length before = length before.*2) by (by rewrite length_fmap).
  split; [ rewrite length_app; lia | ]. rewrite Hn. constructor.
  - unfold GNUNET_CONTAINER_slist_end. rewrite Hel, length_app. destruct after as [|[a it] after].
    + rewrite decide_True; [ done | cbn; lia ].
    + rewrite decide_False; [ done | cbn; lia ].
  - intros it Hit. rewrite lookup_app_r, Nat.sub_diag in Hit by done.
    destruct after as [|[a it'] after]; [ done | ]. injection Hit as ->.
    destruct (middle_elem _ _ _ _ _ _ _ Hw Hl) as (x & Hx & Hh & _). exists (e_elem x, e_len x), w.
    unfold GNUNET_CONTAINER_slist_get. rewrite Hel. cbn [head fmap list_fmap fst].
    rewrite (run_bind _ _ _ _ _ (elem_at_run _ _ _ Hx)). split_and!; try done.
    + by apply (holds_item_bytes _ a).
    + by destruct Hh as (_ & ? & _).
  - intros Hlt. rewrite length_app in Hlt. destruct after as [|[a it] after]; [ cbn in Hlt; lia | ].
    destruct (next_run _ _ i l before a it after Hw Hl Hli Hel) as (i' & Hrun & Hi').
    eexists _, w. split; [ exact Hrun | ]. split_and!; [ done | | ].
    + cbn [fst]. rewrite length_app. cbn [fmap list_fmap length]. rewrite (length_fmap snd after).
      destruct after as [|p after]; [ rewrite !decide_True; [ done | cbn; lia | done ]
        | rewrite !decide_False; [ done | cbn; lia | done ] ].
    + exists M, (before ++ [(a, it)]), after. rewrite <- app_assoc, length_app, length_fmap.
      split_and!; try done. cbn. lia.
  - intros Hlt. rewrite length_app in Hlt. destruct after as [|[a it] after]; [ cbn in Hlt; lia | ].
    destruct (erase_run _ _ i l before a it after Hw Hl Hi) as (x & i' & Hx & Hh & Hrun & Hi').
    eexists _, _. split; [ exact Hrun | ]. exists (<[l := before ++ after]> M), before, after.
    split_and!; [ by eapply unlinked_ok | | apply lookup_insert_eq | done | by rewrite length_fmap ].
    rewrite contents_insert, fmap_app. f_equal. cbn [fmap list_fmap].
    by rewrite (delete_middle before.*2).
  - intros disp buf len bs Harg. destruct (insert_run _ _ _ _ _ _ _ _ _ _ Hw Hl Hi Harg) as (a & x & Hrun & Hnew).
    eexists _, _. split; [ exact Hrun | ]. pose proof (spliced_ok w M l a x _ before after Hw Hl Hnew) as Hw'.
    rewrite take_app_length, drop_app_length. cbv zeta.
    assert (HA : <[l := before.*2 ++ (disp, bs) :: after.*2]> (contents M)
      = contents (<[l := before ++ (a, (disp, bs)) :: after]> M)) by (by rewrite contents_insert, fmap_app).
    rewrite HA. split; [ by eexists | ]. intros Hlt. rewrite length_app in Hlt.
    destruct after as [|[a' it] after]; [ cbn in Hlt; lia | ].
    destruct (next_run _ _ i l (before ++ [(a, (disp, bs))]) a' it after Hw') as (i' & Hn' & Hi'); try done.
    { rewrite lookup_insert_eq. by rewrite <- app_assoc. }
    eexists _, _. split; [ exact Hn' | ]. split; [ done | ].
    exists (<[l := before ++ (a, (disp, bs)) :: (a', it) :: after]> M), ((before ++ [(a, (disp, bs))]) ++ [(a', it)]), after.
    split_and!; try done; [ by rewrite lookup_insert_eq, <- !app_assoc | ].
    rewrite !length_app, length_fmap. cbn. lia.
Qed.

(** C7: In a store whose lists hold given sequences of (disposition, bytes)
    and share no element, every operation of the singly linked list returns
    and acts as on sequences: create adds an empty list, add and add_end put
    an entry at the front or the end, append puts copies in reverse order in
    front of the target (also when both are the same list), clear and destroy
    free the elements, contains and contains2 find the first match, count is
    the length (below 2^31); an iterator at position n tells the end, gets,
    advances, erases and inserts there, and all other lists keep their
    contents. After an insertion the iterator has to be advanced before it is
    used again. *)
Theorem slist_refines_sequences (w : store) (A : gmap Z (list entry_item)) :
  lists_are w A ->
  returns GNUNET_CONTAINER_slist_create w (fun l w' => A !! l = None /\ lists_are w' (<[l := []]> A))
  /\ (forall l its, A !! l = Some its ->
        list_operations w A l its
        /\ forall i n, lists_at w A i l n ->
           (n <= length its)%nat /\ iterator_operations w A l its i n).
Proof.
  intros Hw. split.
  - destruct Hw as (M & Hw & ->). destruct (slist_create_ok w M Hw) as (l & w' & Hrun & Hn & Hok).
    exists l, w'. split; [ done | ]. split; [ unfold contents; by rewrite lookup_fmap, Hn | ].
    by eapply lists_are_update.
  - intros l its Hl. split; [ by apply list_operations_ok | ]. intros i n Hi. by apply iterator_operations_ok.
Qed.

(** A list with one static element, and two more buffers *)
Definition sample_store : store :=
  mk_store {[10 := mk_elem None (Buffer 7) 2 STATIC []]} {[1 := mk_slist (Some 10) (Some 10) 1]}
    {[7 := [1; 2]; 8 := [9]; 9 := [5]]}.

Lemma sample_store_ok : heap_ok sample_store {[1 := [(10, (STATIC, [1; 2]))]]}.
Proof.
  constructor; cbn [sample_store elems slists buffers].
  - by rewrite map_fmap_singleton.
  - intros l xs [<- <-]%lookup_singleton_Some. split; [ | by apply NoDup_singleton ].
    split; [ done | ]. eexists. split; [ apply lookup_singleton_eq | ]. split; [ | done ].
    split_and!; [ done | done | ]. by exists 7.
  - intros l1 l2 xs ys a [<- <-]%lookup_singleton_Some [<- <-]%lookup_singleton_Some. done.
  - intros a x [<- <-]%lookup_singleton_Some. eexists 1, _. split; [ apply lookup_singleton_eq | ]. by left.
  - intros a1 a2 x1 x2 b [<- <-]%lookup_singleton_Some [<- <-]%lookup_singleton_Some. done.
Qed.

Lemma slist_refines_sequences_witness :
  returns (GNUNET_CONTAINER_slist_add_end 1 DYNAMIC (Buffer 8) 1) sample_store
    (fun _ w => lists_are w (<[1 := [(STATIC, [1; 2]); (DYNAMIC, [9])]]> {[1 := [(STATIC, [1; 2])]]}))
  /\ GNUNET_CONTAINER_slist_contains 1 [1; 2] 2 sample_store = Ret (GNUNET_YES, sample_store).
Proof.
  destruct (slist_refines_sequences sample_store {[1 := [(STATIC, [1; 2])]]}) as [_ Hops].
  - exists {[1 := [(10, (STATIC, [1; 2]))]]}. split; [ exact sample_store_ok | ].
    unfold contents. by rewrite map_fmap_singleton.
  - destruct (Hops 1 [(STATIC, [1; 2])] (lookup_singleton_eq _ _)) as [Hlist _]. split.
    + apply (lo_add_end _ _ _ _ Hlist DYNAMIC (Buffer 8) 1 [9]). split; [ done | ]. exists 8.
      split; [ done | ]. split; [ done | ].
      intros a x Hx Hb. exfalso. revert Hx Hb. cbn [sample_store elems].
      intros [<- <-]%lookup_singleton_Some. discriminate.
    + exact (lo_contains _ _ _ _ Hlist [1; 2]).
Defined.

(** ** Inserting twice *)

(** The first new element is not seen from the others. *)
Lemma insert_twice_lookup p q1 q2 a1 a2 x1 x2 (m : gmap Z GNUNET_CONTAINER_SList_Elem) a :
  p <> Some a2 -> a <> a1 ->
  link p q2 (<[a2 := x2]> (link p q1 (<[a1 := x1]> m))) !! a = link p q2 (<[a2 := x2]> m) !! a.
Proof.
  intros Hp Ha. assert (Hm : forall q, link p q2 (<[a2 := x2]> (link p q m)) !! a = link p q2 (<[a2 := x2]> m) !! a).
  { intros q. destruct p as [t|]; [ | done ]. cbn [link]. destruct (decide (t = a)) as [->|Ht].
    - rewrite !lookup_alter_eq, !lookup_insert_ne, lookup_alter_eq by congruence. by destruct (m !! a).
    - rewrite !lookup_alter_ne by done. destruct (decide (a2 = a)) as [->|Ha2]; [ by rewrite !lookup_insert_eq | ].
      by rewrite !lookup_insert_ne, lookup_alter_ne. }
  rewrite <- (Hm q1). destruct p as [t|]; cbn [link].
  - destruct (decide (t = a)) as [->|Ht].
    + rewrite !lookup_alter_eq, !lookup_insert_ne, !lookup_alter_eq by congruence. by rewrite lookup_insert_ne.
    + rewrite !lookup_alter_ne by done. destruct (decide (a2 = a)) as [->|Ha2]; [ by rewrite !lookup_insert_eq | ].
      by rewrite !lookup_insert_ne, !lookup_alter_ne, lookup_insert_ne.
  - destruct (decide (a2 = a)) as [->|Ha2]; [ by rewrite !lookup_insert_eq | ]. by rewrite !lookup_insert_ne.
Qed.

(** Two insertions with the same iterator: the second one starts from the element that was
    in front of the iterator before the first one, which is unlinked again.  The list has
    lost an element that is still allocated, and its length is wrong. *)
Theorem slist_insert_twice_loses_element (w : store) (A : gmap Z (list entry_item))
  (i : GNUNET_CONTAINER_SList_Iterator) (l b1 b2 : Z) (n : nat) (its : list entry_item) (bs1 bs2 : list Z) :
  lists_at w A i l n -> A !! l = Some its -> buffers w !! b1 = Some bs1 -> buffers w !! b2 = Some bs2 ->
  copyable (TRANSIENT, bs1) -> copyable (TRANSIENT, bs2) ->
  returns (GNUNET_CONTAINER_slist_insert i TRANSIENT (Buffer b1) (Z.of_nat (length bs1))) w (fun _ w1 =>
    returns (GNUNET_CONTAINER_slist_insert i TRANSIENT (Buffer b2) (Z.of_nat (length bs2))) w1 (fun _ w2 =>
      exists p t xs lost, slists w2 !! l = Some (mk_slist p t (u32 (Z.of_nat (length its + 2))))
        /\ segment w2 p xs None /\ xs.*2 = take n its ++ (TRANSIENT, bs2) :: drop n its
        /\ is_Some (elems w2 !! lost) /\ lost ∉ xs.*1)).
Proof.
  intros (M & before & after & Hw & -> & Hl & Hi & ->) Hits Hb1 Hb2 Hc1 Hc2.
  apply contents_lookup in Hits as (xs & Hl' & ->). rewrite Hl in Hl'. injection Hl' as <-.
  assert (Harg : forall w' b bs, buffers w' !! b = Some bs -> copyable (TRANSIENT, bs) ->
    argument_ok w' TRANSIENT (Buffer b) (Z.of_nat (length bs)) bs).
  { intros w' b bs Hb Hc. split; [ done | ]. split; [ exact Hc | ]. exists bs. split; [ done | ].
    by rewrite Nat2Z.id, firstn_all. }
  destruct (ho_segments _ _ Hw _ _ Hl) as [Hs Hnd].
  assert (Hdead : forall a, elems w !! a = None -> a ∉ (before ++ after).*1).
  { intros a Ha Hin. destruct (segment_lookup _ _ _ _ a Hs Hin) as (y & it & Hy & _). congruence. }
  destruct (insert_run _ _ _ _ _ _ _ _ _ _ Hw Hl Hi (Harg _ _ _ Hb1 Hc1)) as (a1 & x1 & Hr1 & Hn1).
  eexists _, _. split; [ exact Hr1 | ]. set (w1 := spliced _ _ _ _ _ _ _) in *.
  pose proof (Hdead _ (no_fresh _ _ _ _ Hn1)) as Hd1.
  assert (Hlive : forall t, t ∈ (before ++ (a1, (TRANSIENT, bs1)) :: after).*1 -> is_Some (elems w1 !! t)).
  { intros t Ht. pose proof (spliced_ok w M l a1 x1 _ before after Hw Hl Hn1) as Hw1.
    destruct (ho_segments _ _ Hw1 _ _ (lookup_insert_eq _ _ _)) as [Hs1 _].
    destruct (segment_lookup _ _ _ _ t Hs1 Ht) as (y & it & Hy & _). by exists y. }
  rewrite fmap_app, fmap_cons in Hlive. cbn [fst] in Hlive.
  assert (Hlb : forall t, t ∈ before.*1 -> is_Some (elems w1 !! t)) by (intros t Ht; apply Hlive, elem_of_app; by left).
  destruct (insert_any_run w1 i l before after _ TRANSIENT (Buffer b2) _ bs2 (lookup_insert_eq _ _ _) Hi Hlb
    (Harg w1 _ _ Hb2 Hc2)) as (a2 & x2 & Hr2 & Hn2).
  eexists _, _. split; [ exact Hr2 | ]. pose proof (no_fresh _ _ _ _ Hn2) as Hf2.
  assert (Hd2 : forall t, t ∈ before.*1 ++ a1 :: after.*1 -> t <> a2)
    by (intros t Ht ->; destruct (Hlive _ Ht) as [y Hy]; congruence).
  rewrite fmap_app in Hd1. assert (H12 : a1 <> a2) by (apply Hd2, elem_of_app; right; by left).
  assert (Hlast : forall t, t ∉ before.*1 -> last before.*1 <> Some t) by (intros t Ht Hl2; by apply Ht, last_fst_elem).
  assert ((a1 ∉ before.*1) /\ (a2 ∉ before.*1)) as [Hba1 Hba2].
  { split; intros Hin; [ apply Hd1, elem_of_app; by left | by apply (Hd2 a2); [ apply elem_of_app; left | ] ]. }
  eexists _, _, (before ++ (a2, (TRANSIENT, bs2)) :: after), a1. unfold inserted at 1. cbn [slists].
  split; [ | split_and! ].
  - rewrite lookup_insert_eq. do 2 f_equal. cbn [descr sl_length]. rewrite u32_add_1. f_equal.
    rewrite length_fmap, !length_app. cbn [length]. lia.
  - replace (if decide (before = []) then Some a2 else sl_head _)
      with (if decide (before = []) then Some a2 else head (before ++ after).*1) by (by destruct before as [|[]]).
    apply (splice_segment w _ _ a2 x2); try done.
    + rewrite fmap_app. intros Hin. apply (Hd2 a2); [ | done ]. apply elem_of_app in Hin as [Hin|Hin]; apply elem_of_app;
        [ by left | right; by right ].
    + exact (no_item _ _ _ _ Hn2).
    + intros a Ha. cbn [inserted elems w1 spliced]. apply insert_twice_lookup; [ by apply Hlast | ]. intros ->.
      rewrite fmap_app, fmap_cons in Ha. apply elem_of_app in Ha as [Ha|[Ha|Ha]%elem_of_cons]; [ done | done | ].
      apply Hd1, elem_of_app. by right.
  - rewrite !fmap_app, fmap_cons. rewrite take_app_length', drop_app_length' by (by rewrite length_fmap). done.
  - cbn [inserted elems]. rewrite link_lookup_ne, lookup_insert_ne by (done || by apply Hlast).
    apply Hlive, elem_of_app. right. by left.
  - rewrite fmap_app, fmap_cons. intros [Ha|[Ha|Ha]%elem_of_cons]%elem_of_app; [ done | done | ].
    apply Hd1, elem_of_app. by right.
Qed.
