(* ===== verification/CoreTypemap.v ===== *)
(** * The type map of the core service: [src/core/gnunet-service-core_typemap.c]

    The core service tells its neighbours which types of messages its clients handle.  A
    type map is a bitmap of 65536 types in 32-bit words; the own map has a counter for
    every type, since several clients can handle the same one.  The state is threaded
    through the functions; messages to all neighbours ([GSC_SESSIONS_broadcast]) are
    recorded in it.  zlib is the class [Zlib] of [MetaData]. *)

From Stdlib Require Import ZArith Lia.
From stdpp Require Import base list numbers.
From S2P Require Import Prelude Endian Hash Messages MetaData.
Local Open Scope Z_scope.

(** ** Data *)

(** [(UINT16_MAX + 1) / 32] words *)
Definition TYPE_MAP_WORDS : nat := 2048.

Record GSC_TypeMap := mk_tmap { bits : list Z }.
Definition sizeof_TypeMap : Z := 8192.

Record typemap := mk_typemap {
  my_type_map : GSC_TypeMap;
  map_counters : list Z;
  (** the messages that were sent to all neighbours *)
  broadcasts : list (list Z)
}.

Definition set_my_type_map (m : GSC_TypeMap) (st : typemap) : typemap :=
  mk_typemap m (map_counters st) (broadcasts st).
Definition set_counter (t : nat) (c : Z) (st : typemap) : typemap :=
  mk_typemap (my_type_map st) (<[t := c]> (map_counters st)) (broadcasts st).
Definition record_broadcast (msg : list Z) (st : typemap) : typemap :=
  mk_typemap (my_type_map st) (map_counters st) (broadcasts st ++ [msg]).

Definition GNUNET_MESSAGE_TYPE_CORE_COMPRESSED_TYPE_MAP : Z := 86.
Definition GNUNET_MESSAGE_TYPE_CORE_BINARY_TYPE_MAP : Z := 87.

(** The struct as bytes, and bytes as the struct *)
Definition tmap_bytes (m : GSC_TypeMap) : list Z := flat_map (host_bytes 4) (bits m).
Definition tmap_of_bytes (l : list Z) : GSC_TypeMap := mk_tmap (hash_words TYPE_MAP_WORDS l).

(** [1 << (type % 32)], an [int]; [1 << 31] is its sign bit. *)
Definition type_bit (type : Z) : Z := s32 (Z.shiftl 1 (type mod 32)).

(** [bits[type / 32]] *)
Definition bits_at (m : GSC_TypeMap) (type : Z) : outcome Z := of_option (bits m !! Z.to_nat (type / 32)).

(** [bits[type / 32] |= (1 << (type % 32))] *)
Definition set_type (m : GSC_TypeMap) (type : Z) : outcome GSC_TypeMap :=
  w ← bits_at m type;
  Ret (mk_tmap (<[Z.to_nat (type / 32) := Z.lor w (u32 (type_bit type))]> (bits m))).

(** [bits[type / 32] &= ~(1 << (type % 32))] *)
Definition clear_type (m : GSC_TypeMap) (type : Z) : outcome GSC_TypeMap :=
  w ← bits_at m type;
  Ret (mk_tmap (<[Z.to_nat (type / 32) := Z.land w (u32 (Z.lnot (type_bit type)))]> (bits m))).

(** ** Maps of other peers *)

Fixpoint test_match_loop (tmap : GSC_TypeMap) (types : list Z) : outcome Z :=
  match types with
  | [] => Ret GNUNET_NO
  | t :: types =>
      w ← bits_at tmap t;
      if negb (0 =? Z.land w (u32 (type_bit t))) then Ret GNUNET_YES else test_match_loop tmap types
  end.

Definition GSC_TYPEMAP_test_match (tmap : option GSC_TypeMap) (types : list Z) : outcome Z :=
  match tmap with
  | None => Ret GNUNET_NO
  | Some tmap =>
      match types with
      | [] => Ret GNUNET_YES
      | _ => test_match_loop tmap types
      end
  end.

Definition GSC_TYPEMAP_create : outcome GSC_TypeMap :=
  b ← GNUNET_malloc sizeof_TypeMap; Ret (tmap_of_bytes b).

Fixpoint extend_loop (ret : GSC_TypeMap) (types : list Z) : outcome GSC_TypeMap :=
  match types with
  | [] => Ret ret
  | t :: types => ret ← set_type ret t; extend_loop ret types
  end.

(** The result is a fresh copy. *)
Definition GSC_TYPEMAP_extend (tmap : option GSC_TypeMap) (types : list Z) : outcome GSC_TypeMap :=
  b ← GNUNET_malloc sizeof_TypeMap;
  extend_loop (match tmap with Some m => m | None => tmap_of_bytes b end) types.

Section Messages.
Context `{Zlib}.

(** ** Messages *)

(** The message: the first [size] bytes of the buffer that is returned.  [compressBound]
    is a function of zlib and not a macro. *)
Definition GSC_TYPEMAP_compute_type_map_message (my_type_map : GSC_TypeMap) : outcome (list Z) :=
  let dlen := sizeof_TypeMap + sizeof_TypeMap / 100 + 20 in
  _ ← GNUNET_malloc (dlen + Z.of_nat (wire_size GNUNET_MessageHeader));
  let data := tmap_bytes my_type_map in
  let '(type, tmp) :=
    match compress2 data dlen with
    | Some tmp =>
        if sizeof_TypeMap <=? Z.of_nat (length tmp)
        then (GNUNET_MESSAGE_TYPE_CORE_BINARY_TYPE_MAP, data)
        else (GNUNET_MESSAGE_TYPE_CORE_COMPRESSED_TYPE_MAP, tmp)
    | None => (GNUNET_MESSAGE_TYPE_CORE_BINARY_TYPE_MAP, data)
    end in
  Ret (wire_encode (mk_header (u16 (u16 (Z.of_nat (length tmp)) + Z.of_nat (wire_size GNUNET_MessageHeader))) type)
       ++ tmp).

(** [buf] is the memory from the message on, at least its [size] bytes. *)
Definition GSC_TYPEMAP_get_from_message (buf : list Z) : outcome (option GSC_TypeMap) :=
  hdr ← mem_read buf 0 (wire_size GNUNET_MessageHeader);
  let msg : GNUNET_MessageHeader := wire_decode hdr in
  let size := mh_size msg in
  if mh_type msg =? GNUNET_MESSAGE_TYPE_CORE_BINARY_TYPE_MAP then
    if negb (size =? sizeof_TypeMap) then Ret None
    else
      _ ← GNUNET_malloc sizeof_TypeMap;
      data ← mem_read buf (wire_size GNUNET_MessageHeader) (Z.to_nat sizeof_TypeMap);
      Ret (Some (tmap_of_bytes data))
  else if mh_type msg =? GNUNET_MESSAGE_TYPE_CORE_COMPRESSED_TYPE_MAP then
    _ ← GNUNET_malloc sizeof_TypeMap;
    input ← mem_read buf (wire_size GNUNET_MessageHeader) (Z.to_nat size);
    Ret match uncompress input sizeof_TypeMap with
        | Some data =>
            if negb (Z.of_nat (length data) =? sizeof_TypeMap) then None else Some (tmap_of_bytes data)
        | None => None
        end
  else Ret None.

(** ** The own map *)

Definition broadcast_my_type_map : action typemap unit :=
  st ← get_state;
  hdr ← lift (GSC_TYPEMAP_compute_type_map_message (my_type_map st));
  modify (record_broadcast hdr).

Fixpoint add_types (types : list Z) (changed : Z) : action typemap Z :=
  match types with
  | [] => mret changed
  | t :: types =>
      st ← get_state;
      c ← lift (of_option (map_counters st !! Z.to_nat t));
      _ ← modify (set_counter (Z.to_nat t) (u8 (c + 1)));
      if 0 =? c then
        m ← lift (set_type (my_type_map st) t);
        _ ← modify (set_my_type_map m);
        add_types types GNUNET_YES
      else add_types types changed
  end.

Definition GSC_TYPEMAP_add (types : list Z) : action typemap unit :=
  changed ← add_types types GNUNET_NO;
  if GNUNET_YES =? changed then broadcast_my_type_map else mret tt.

Fixpoint remove_types (types : list Z) (changed : Z) : action typemap Z :=
  match types with
  | [] => mret changed
  | t :: types =>
      st ← get_state;
      c ← lift (of_option (map_counters st !! Z.to_nat t));
      _ ← modify (set_counter (Z.to_nat t) (u8 (c - 1)));
      if 0 =? u8 (c - 1) then
        m ← lift (clear_type (my_type_map st) t);
        _ ← modify (set_my_type_map m);
        remove_types types GNUNET_YES
      else remove_types types changed
  end.

Definition GSC_TYPEMAP_remove (types : list Z) : action typemap unit :=
  changed ← remove_types types GNUNET_NO;
  if GNUNET_YES =? changed then broadcast_my_type_map else mret tt.

End Messages.

(** The static variables at the start *)
Definition initial_typemap : typemap :=
  mk_typemap (mk_tmap (replicate TYPE_MAP_WORDS 0)) (replicate (Z.to_nat 65536) 0) [].
