(* ===== verification/CoreTypemapSpec.v ===== *)
(** * The type map as a bag of registrations

    The clients of the core service register the types of messages that they handle; the
    own type map is the set of the types that are registered at least once, and every
    change of it is announced to all neighbours ([typemap_refines_registrations]).  The
    defects of the messages and counters are [typemap_message_overreads] and
    [typemap_counter_wraps]. *)

From Stdlib Require Import ZArith Lia.
From stdpp Require Import base list numbers gmap gmultiset.
From S2P Require Import Prelude Endian Hash Messages MetaData MetaDataSpec CoreTypemap.
Local Open Scope Z_scope.

(** ** Bits *)

Definition has_type (m : GSC_TypeMap) (t : Z) : bool :=
  Z.testbit (nth (Z.to_nat (t / 32)) (bits m) 0) (t mod 32).

Definition tmap_ok (m : GSC_TypeMap) : Prop := length (bits m) = TYPE_MAP_WORDS /\ Forall is_u32 (bits m).

Lemma testbit_type_bit t k : 0 <= k < 32 -> Z.testbit (u32 (type_bit t)) k = (t mod 32 =? k).
Proof.
  intros Hk. pose proof (Z.mod_pos_bound t 32). unfold type_bit. rewrite Z.shiftl_1_l.
  replace (u32 (s32 (2 ^ (t mod 32)))) with (u32 (2 ^ (t mod 32))).
  - unfold u32. by rewrite Z.mod_pow2_bits_low, Z.pow2_bits_eqb by lia.
  - unfold u32, s32. rewrite Zminus_mod_idemp_l. f_equal. lia.
Qed.

Lemma testbit_not_type_bit t k : 0 <= k < 32 -> Z.testbit (u32 (Z.lnot (type_bit t))) k = negb (t mod 32 =? k).
Proof.
  intros Hk. rewrite <- testbit_type_bit by done. unfold u32.
  by rewrite !Z.mod_pow2_bits_low, Z.lnot_spec by lia.
Qed.

Lemma u32_lor a b : is_u32 a -> is_u32 b -> is_u32 (Z.lor a b).
Proof.
  intros Ha Hb. assert (E : Z.lor a b = u32 (Z.lor a b)); [ | rewrite E; apply u32_range ].
  unfold u32. rewrite <- (Z.mod_small a (2 ^ 32)), <- (Z.mod_small b (2 ^ 32)) by done.
  apply Z.bits_inj'. intros i Hi. destruct (Z.lt_ge_cases i 32).
  - by rewrite (Z.mod_pow2_bits_low (Z.lor _ _)) by lia.
  - by rewrite (Z.mod_pow2_bits_high (Z.lor _ _)), Z.lor_spec, !Z.mod_pow2_bits_high by lia.
Qed.

Lemma u32_land a b : is_u32 a -> is_u32 (Z.land a b).
Proof.
  intros Ha. assert (E : Z.land a b = u32 (Z.land a b)); [ | rewrite E; apply u32_range ].
  unfold u32. rewrite <- (Z.mod_small a (2 ^ 32)) by done.
  apply Z.bits_inj'. intros i Hi. destruct (Z.lt_ge_cases i 32).
  - by rewrite (Z.mod_pow2_bits_low (Z.land _ _)) by lia.
  - by rewrite (Z.mod_pow2_bits_high (Z.land _ _)), Z.land_spec, !Z.mod_pow2_bits_high by lia.
Qed.

Lemma bits_at_run m t : tmap_ok m -> is_u16 t ->
  (Z.to_nat (t / 32) < length (bits m))%nat
  /\ bits_at m t = Ret (nth (Z.to_nat (t / 32)) (bits m) 0) /\ is_u32 (nth (Z.to_nat (t / 32)) (bits m) 0).
Proof.
  intros [Hl Hm] Ht.
  assert (Hi : (Z.to_nat (t / 32) < length (bits m))%nat).
  { rewrite Hl. unfold TYPE_MAP_WORDS. int_lia. }
  destruct (lookup_lt_is_Some_2 _ _ Hi) as [w Hw].
  rewrite nth_lookup. unfold bits_at. rewrite Hw. cbn. split; [ done | ]. split; [ done | ].
  by eapply Forall_lookup_1.
Qed.

(** A word replaced: what remains to show about its bits *)
Lemma has_type_insert m t w u : (Z.to_nat (t / 32) < length (bits m))%nat -> 0 <= t -> 0 <= u ->
  has_type (mk_tmap (<[Z.to_nat (t / 32) := w]> (bits m))) u
  = if decide (t / 32 = u / 32) then Z.testbit w (u mod 32) else has_type m u.
Proof.
  intros Hi Ht Hu. unfold has_type. cbn [bits]. rewrite !nth_lookup.
  destruct (decide (t / 32 = u / 32)) as [E|E].
  - by rewrite <- E, list_lookup_insert_eq.
  - rewrite list_lookup_insert_ne; [ done | ]. pose proof (Z.div_pos t 32). pose proof (Z.div_pos u 32). lia.
Qed.

Lemma same_type t u : t / 32 = u / 32 -> (t mod 32 =? u mod 32) = (t =? u).
Proof.
  intros E. apply eq_bool_prop_intro. rewrite !Is_true_true, !Z.eqb_eq. split; [ | by intros -> ].
  intros. rewrite (Z.div_mod t 32), (Z.div_mod u 32) by lia. lia.
Qed.

Lemma other_type t u : t / 32 <> u / 32 -> (t =? u) = false.
Proof. intros E. apply Z.eqb_neq. congruence. Qed.

Lemma set_type_ok m t : tmap_ok m -> is_u16 t -> exists m', set_type m t = Ret m' /\ tmap_ok m'
  /\ forall u, 0 <= u -> has_type m' u = (t =? u) || has_type m u.
Proof.
  intros Hm Ht. destruct (bits_at_run m t Hm Ht) as (Hi & Hb & Hw). unfold set_type. rewrite Hb.
  eexists. split; [ done | ]. split.
  - destruct Hm. split; cbn [bits]; [ by rewrite length_insert | ].
    apply Forall_insert; [ done | ]. apply u32_lor; [ done | apply u32_range ].
  - intros u Hu. destruct Ht. rewrite has_type_insert by done. destruct (decide _) as [E|E].
    + rewrite Z.lor_spec, testbit_type_bit, same_type, orb_comm by (try apply Z.mod_pos_bound; done || lia).
      unfold has_type. by rewrite E.
    + by rewrite other_type.
Qed.

Lemma clear_type_ok m t : tmap_ok m -> is_u16 t -> exists m', clear_type m t = Ret m' /\ tmap_ok m'
  /\ forall u, 0 <= u -> has_type m' u = negb (t =? u) && has_type m u.
Proof.
  intros Hm Ht. destruct (bits_at_run m t Hm Ht) as (Hi & Hb & Hw). unfold clear_type. rewrite Hb.
  eexists. split; [ done | ]. split.
  - destruct Hm. split; cbn [bits]; [ by rewrite length_insert | ].
    apply Forall_insert; [ done | ]. by apply u32_land.
  - intros u Hu. destruct Ht. rewrite has_type_insert by done. destruct (decide _) as [E|E].
    + rewrite Z.land_spec, testbit_not_type_bit, same_type, andb_comm by (try apply Z.mod_pos_bound; done || lia).
      unfold has_type. by rewrite E.
    + by rewrite other_type.
Qed.

Lemma test_bit m t : tmap_ok m -> is_u16 t ->
  bits_at m t = Ret (nth (Z.to_nat (t / 32)) (bits m) 0)
  /\ negb (0 =? Z.land (nth (Z.to_nat (t / 32)) (bits m) 0) (u32 (type_bit t))) = has_type m t.
Proof.
  intros Hm Ht. destruct (bits_at_run m t Hm Ht) as (Hi & Hb & Hw). split; [ done | ]. unfold has_type.
  set (w := nth _ _ _) in *. pose proof (Z.mod_pos_bound t 32 ltac:(lia)) as Hk.
  destruct (Z.testbit w (t mod 32)) eqn:E.
  - apply negb_true_iff, Z.eqb_neq. intros E0. apply (f_equal (fun z => Z.testbit z (t mod 32))) in E0.
    rewrite Z.land_spec, testbit_type_bit, E, Z.eqb_refl, Z.bits_0 in E0 by done. done.
  - apply negb_false_iff, Z.eqb_eq. symmetry. apply Z.bits_inj'. intros k Hk0. rewrite Z.land_spec, Z.bits_0.
    destruct (Z.lt_ge_cases k 32).
    + rewrite testbit_type_bit by lia. destruct (Z.eqb_spec (t mod 32) k) as [<-|]; [ by rewrite E | apply andb_false_r ].
    + rewrite <- (Z.mod_small w (2 ^ 32)), Z.mod_pow2_bits_high by (done || lia). done.
Qed.

Lemma test_match_loop_run m types : tmap_ok m -> Forall is_u16 types ->
  test_match_loop m types = Ret (if existsb (has_type m) types then GNUNET_YES else GNUNET_NO).
Proof.
  intros Hm. induction 1 as [|t types Ht _ IH]; [ done | ]. cbn [test_match_loop existsb].
  destruct (test_bit m t Hm Ht) as [-> Hb]. cbn [mbind outcome_bind]. rewrite Hb.
  by destruct (has_type m t).
Qed.

Lemma extend_loop_ok types : forall m, tmap_ok m -> Forall is_u16 types ->
  exists m', extend_loop m types = Ret m' /\ tmap_ok m'
  /\ forall u, 0 <= u -> has_type m' u = existsb (fun t => t =? u) types || has_type m u.
Proof.
  induction types as [|t types IH]; intros m Hm Hts; [ by exists m | ].
  apply Forall_cons_1 in Hts as [Ht Hts]. cbn [extend_loop existsb].
  destruct (set_type_ok m t Hm Ht) as (m1 & -> & Hm1 & Hh1). cbn [mbind outcome_bind].
  destruct (IH m1 Hm1 Hts) as (m2 & -> & Hm2 & Hh2). exists m2. split; [ done | ]. split; [ done | ].
  intros u Hu. rewrite Hh2, Hh1 by done. destruct (t =? u), (existsb _ types); done.
Qed.

(** ** Registrations *)

(** [X]: the registered types, once for every registration *)
Record tracks (st : typemap) (X : gmultiset Z) : Prop := {
  tr_map : tmap_ok (my_type_map st);
  tr_length : length (map_counters st) = Z.to_nat 65536;
  tr_count : forall t, is_u16 t -> map_counters st !! Z.to_nat t = Some (Z.of_nat (multiplicity t X));
  tr_bits : forall t, is_u16 t -> has_type (my_type_map st) t = bool_decide (t ∈ X)
}.

(** A map that holds the types of [X] *)
Definition map_is (m : GSC_TypeMap) (X : gmultiset Z) : Prop :=
  tmap_ok m /\ forall t, is_u16 t -> has_type m t = bool_decide (t ∈ X).

(** A counter and the map replaced *)
Lemma tracks_update st X Y t m :
  tracks st X -> is_u16 t -> map_is m Y -> (forall u, u <> t -> multiplicity u Y = multiplicity u X) ->
  tracks (mk_typemap m (<[Z.to_nat t := Z.of_nat (multiplicity t Y)]> (map_counters st)) (broadcasts st)) Y.
Proof.
  intros Htr Ht [Hm Hb] Hne. pose proof (tr_length _ _ Htr) as Hl.
  constructor; cbn [my_type_map map_counters]; [ done | by rewrite length_insert | | done ].
  intros u Hu. destruct (decide (u = t)) as [->|Hut].
  - rewrite list_lookup_insert_eq; [ done | ]. int_lia.
  - rewrite list_lookup_insert_ne by int_lia. rewrite (tr_count _ _ Htr) by done. by rewrite Hne.
Qed.

Lemma tracks_map_is st X : tracks st X -> map_is (my_type_map st) X.
Proof. intros Htr. split; [ apply (tr_map _ _ Htr) | apply (tr_bits _ _ Htr) ]. Qed.

Lemma map_is_dom m X Y : map_is m X -> dom X = dom Y -> map_is m Y.
Proof.
  intros [Hm Hb] Hd. split; [ done | ]. intros t Ht. rewrite Hb by done. apply bool_decide_ext.
  by rewrite <- !gmultiset_elem_of_dom, Hd.
Qed.

Lemma set_type_map m X t : map_is m X -> is_u16 t -> exists m', set_type m t = Ret m' /\ map_is m' (X ⊎ {[+ t +]}).
Proof.
  intros [Hm Hb] Ht. destruct (set_type_ok m t Hm Ht) as (m' & -> & Hm' & Hb'). exists m'. split; [ done | ].
  split; [ done | ]. intros u Hu. rewrite Hb', Hb by (done || apply (proj1 Hu)). case_bool_decide as E1; case_bool_decide as E2;
    rewrite gmultiset_elem_of_disj_union, gmultiset_elem_of_singleton in E2; destruct (Z.eqb_spec t u); naive_solver.
Qed.

Lemma add_step st X t : tracks st X -> is_u16 t -> (multiplicity t X < 255)%nat ->
  exists st', tracks st' (X ⊎ {[+ t +]}) /\ broadcasts st' = broadcasts st
    /\ forall types changed, add_types (t :: types) changed st
       = add_types types (if decide (t ∈ X) then changed else GNUNET_YES) st'.
Proof.
  intros Htr Ht Hc. pose proof (tracks_map_is _ _ Htr) as Hmap. set (Y := X ⊎ {[+ t +]}).
  assert (HY : u8 (Z.of_nat (multiplicity t X) + 1) = Z.of_nat (multiplicity t Y)).
  { unfold Y. rewrite multiplicity_disj_union, multiplicity_singleton_eq. rewrite u8_small by (unfold is_u8; lia). lia. }
  assert (Hne : forall u, u <> t -> multiplicity u Y = multiplicity u X).
  { intros u Hu. unfold Y. rewrite multiplicity_disj_union, multiplicity_singleton_ne by done. lia. }
  destruct (set_type_map _ _ _ Hmap Ht) as (m & Hm & HmY). fold Y in HmY.
  exists (mk_typemap (if decide (t ∈ X) then my_type_map st else m)
            (<[Z.to_nat t := Z.of_nat (multiplicity t Y)]> (map_counters st)) (broadcasts st)).
  split; [ | split; [ done | ] ].
  - apply (tracks_update st X); try done. destruct (decide (t ∈ X)) as [E|]; [ | done ].
    apply (map_is_dom _ X); [ done | ]. unfold Y. apply set_eq. intros u. rewrite !gmultiset_elem_of_dom. multiset_solver.
  - intros types changed. cbn [add_types]. rewrite (run_bind _ _ _ st st) by done.
    rewrite (run_bind _ _ _ st (Z.of_nat (multiplicity t X))) by (apply run_lift; by rewrite (tr_count _ _ Htr)).
    rewrite (run_bind _ _ _ _ tt) by done. rewrite HY. destruct (decide (t ∈ X)) as [E|E].
    + rewrite elem_of_multiplicity in E. by rewrite (proj2 (Z.eqb_neq _ _)) by lia.
    + rewrite elem_of_multiplicity in E. rewrite (proj2 (Z.eqb_eq _ _)) by lia.
      rewrite (run_bind _ _ _ _ m) by (by apply run_lift). done.
Qed.

Lemma add_types_ok types : forall st X changed,
  tracks st X -> Forall is_u16 types ->
  (forall t, (multiplicity t (X ⊎ list_to_set_disj types) <= 255)%nat) ->
  exists st', add_types types changed st
    = Ret (if decide (dom X = dom (X ⊎ list_to_set_disj types)) then changed else GNUNET_YES, st')
    /\ tracks st' (X ⊎ list_to_set_disj types) /\ broadcasts st' = broadcasts st.
Proof.
  induction types as [|t types IH]; intros st X changed Htr Hts Hb; cbn [list_to_set_disj] in *.
  - exists st. rewrite (right_id_L ∅ (⊎)) in *. by rewrite decide_True.
  - apply Forall_cons_1 in Hts as [Ht Hts]. rewrite (assoc_L (⊎)) in *.
    destruct (add_step st X t) as (st1 & Htr1 & Hbc1 & Hrun); [ done | done | | ].
    { specialize (Hb t). rewrite !multiplicity_disj_union, multiplicity_singleton_eq in Hb. lia. }
    destruct (IH st1 _ (if decide (t ∈ X) then changed else GNUNET_YES) Htr1 Hts Hb) as (st' & Hrun' & Htr' & Hbc').
    exists st'. rewrite Hrun, Hrun'. split; [ | split; [ done | congruence ] ]. do 2 f_equal.
    destruct (decide (t ∈ X)) as [E|E].
    + replace (dom (X ⊎ {[+ t +]})) with (dom X); [ done | ]. apply set_eq. intros u.
      rewrite !gmultiset_elem_of_dom. multiset_solver.
    + rewrite (decide_False (P := dom X = _)); [ by destruct (decide _) | ]. intros Hd. apply E.
      rewrite <- gmultiset_elem_of_dom, Hd, gmultiset_elem_of_dom. multiset_solver.
Qed.

Lemma clear_type_map m X t : map_is m X -> is_u16 t -> multiplicity t X = 1%nat ->
  exists m', clear_type m t = Ret m' /\ map_is m' (X ∖ {[+ t +]}).
Proof.
  intros [Hm Hb] Ht HX. destruct (clear_type_ok m t Hm Ht) as (m' & -> & Hm' & Hb'). exists m'. split; [ done | ].
  split; [ done | ]. intros u Hu. rewrite Hb', Hb by (done || apply (proj1 Hu)).
  assert (E : u ∈ X ∖ {[+ t +]} <-> u <> t /\ u ∈ X).
  { rewrite !elem_of_multiplicity, multiplicity_difference. destruct (decide (u = t)) as [->|Hne].
    - rewrite multiplicity_singleton_eq. lia.
    - rewrite multiplicity_singleton_ne by done. naive_solver lia. }
  rewrite (bool_decide_ext _ _ E). destruct (Z.eqb_spec t u); repeat case_bool_decide; naive_solver.
Qed.

Lemma remove_step st X t : tracks st X -> is_u16 t -> (0 < multiplicity t X <= 255)%nat ->
  exists st', tracks st' (X ∖ {[+ t +]}) /\ broadcasts st' = broadcasts st
    /\ forall types changed, remove_types (t :: types) changed st
       = remove_types types (if decide (t ∈ X ∖ {[+ t +]}) then changed else GNUNET_YES) st'.
Proof.
  intros Htr Ht Hc. pose proof (tracks_map_is _ _ Htr) as Hmap. set (Y := X ∖ {[+ t +]}).
  assert (HYt : multiplicity t Y = (multiplicity t X - 1)%nat).
  { unfold Y. by rewrite multiplicity_difference, multiplicity_singleton_eq. }
  assert (HY : u8 (Z.of_nat (multiplicity t X) - 1) = Z.of_nat (multiplicity t Y)).
  { rewrite u8_small by (unfold is_u8; lia). lia. }
  assert (Hne : forall u, u <> t -> multiplicity u Y = multiplicity u X).
  { intros u Hu. unfold Y. rewrite multiplicity_difference, multiplicity_singleton_ne by done. lia. }
  assert (Hm : t ∉ Y -> exists m, clear_type (my_type_map st) t = Ret m /\ map_is m Y).
  { intros E. rewrite elem_of_multiplicity in E. apply clear_type_map; [ done | done | lia ]. }
  assert (Hrun : forall types changed, remove_types (t :: types) changed st
    = (if 0 =? Z.of_nat (multiplicity t Y)
       then m ← lift (clear_type (my_type_map st) t); _ ← modify (set_my_type_map m); remove_types types GNUNET_YES
       else remove_types types changed) (set_counter (Z.to_nat t) (Z.of_nat (multiplicity t Y)) st)).
  { intros. cbn [remove_types]. rewrite (run_bind _ _ _ st st) by done.
    rewrite (run_bind _ _ _ st (Z.of_nat (multiplicity t X))) by (apply run_lift; by rewrite (tr_count _ _ Htr)).
    rewrite (run_bind _ _ _ _ tt) by done. by rewrite HY. }
  destruct (decide (t ∈ Y)) as [E|E].
  - exists (set_counter (Z.to_nat t) (Z.of_nat (multiplicity t Y)) st). split; [ | split; [ done | ] ].
    + apply (tracks_update st X); try done. apply (map_is_dom _ X); [ done | ]. apply set_eq. intros u.
      rewrite !gmultiset_elem_of_dom. destruct (decide (u = t)) as [->|Hu]; rewrite !elem_of_multiplicity in *; [ lia | ].
      by rewrite Hne.
    + intros. rewrite Hrun. rewrite elem_of_multiplicity in E. by rewrite (proj2 (Z.eqb_neq _ _)) by lia.
  - destruct (Hm E) as (m & Hcl & HmY). eexists. split; [ apply (tracks_update st X); done | split; [ done | ] ].
    intros. rewrite Hrun. rewrite elem_of_multiplicity in E. rewrite (proj2 (Z.eqb_eq _ _)) by lia.
    rewrite (run_bind _ _ _ _ m) by (by apply run_lift). done.
Qed.

Lemma remove_types_ok types : forall st X changed,
  tracks st X -> Forall is_u16 types -> (forall t, (multiplicity t X <= 255)%nat) ->
  list_to_set_disj types ⊆ X ->
  exists st', remove_types types changed st
    = Ret (if decide (dom X = dom (X ∖ list_to_set_disj types)) then changed else GNUNET_YES, st')
    /\ tracks st' (X ∖ list_to_set_disj types) /\ broadcasts st' = broadcasts st.
Proof.
  induction types as [|t types IH]; intros st X changed Htr Hts Hb Hsub; cbn [list_to_set_disj] in *.
  - exists st. replace (X ∖ ∅) with X by multiset_solver. by rewrite decide_True.
  - apply Forall_cons_1 in Hts as [Ht Hts].
    assert (HX : X ∖ ({[+ t +]} ⊎ list_to_set_disj types) = X ∖ {[+ t +]} ∖ list_to_set_disj types).
    { apply gmultiset_eq. intros u. rewrite !multiplicity_difference, multiplicity_disj_union. lia. }
    destruct (remove_step st X t) as (st1 & Htr1 & Hbc1 & Hrun); [ done | done | | ].
    { specialize (Hsub t). rewrite multiplicity_disj_union, multiplicity_singleton_eq in Hsub. specialize (Hb t). lia. }
    destruct (IH st1 (X ∖ {[+ t +]}) (if decide (t ∈ X ∖ {[+ t +]}) then changed else GNUNET_YES) Htr1 Hts)
      as (st' & Hrun' & Htr' & Hbc').
    { intros u. specialize (Hb u). rewrite multiplicity_difference. lia. }
    { intros u. specialize (Hsub u). rewrite multiplicity_disj_union in Hsub. rewrite multiplicity_difference. lia. }
    exists st'. rewrite HX, Hrun, Hrun'. split; [ | split; [ done | congruence ] ]. do 2 f_equal.
    destruct (decide (t ∈ X ∖ {[+ t +]})) as [E|E].
    + replace (dom (X ∖ {[+ t +]})) with (dom X); [ done | ]. apply set_eq. intros u.
      rewrite !gmultiset_elem_of_dom. multiset_solver.
    + rewrite (decide_False (P := dom X = _)); [ by destruct (decide _) | ]. intros Hd. apply E.
      rewrite <- gmultiset_elem_of_dom. rewrite elem_of_multiplicity in E.
      assert (HtX : t ∈ X) by multiset_solver. rewrite <- gmultiset_elem_of_dom, Hd, gmultiset_elem_of_dom in HtX.
      apply gmultiset_elem_of_dom. rewrite !elem_of_multiplicity, !multiplicity_difference in *. lia.
Qed.

(** ** Messages *)

(** [uncompress] stops at the end of the compressed stream and ignores what follows. *)
Class ZlibStream `{Zlib} : Prop :=
  uncompress_trailing : forall d cap c rest,
    compress2 d cap = Some c -> uncompress (c ++ rest) (Z.of_nat (length d)) = Some d.

Definition message_type (msg : list Z) : Z := mh_type (wire_decode msg).

Section Announcements.
Context `{ZlibStream}.

Lemma length_tmap_bytes m : tmap_ok m -> Z.of_nat (length (tmap_bytes m)) = sizeof_TypeMap.
Proof.
  intros [Hl _]. change (tmap_bytes m) with (hash_bytes (bits m)). rewrite length_hash_bytes, Hl.
  unfold TYPE_MAP_WORDS, sizeof_TypeMap. lia.
Qed.

Lemma tmap_bytes_roundtrip m : tmap_ok m -> tmap_of_bytes (tmap_bytes m) = m.
Proof.
  intros [Hl Hm]. destruct m as [b]. cbn [bits] in *. unfold tmap_of_bytes, tmap_bytes. cbn [bits]. f_equal.
  rewrite <- Hl, <- (app_nil_r (flat_map _ _)). by apply hash_words_bytes.
Qed.

(** What [msg] is made of *)
Definition message_is (m : GSC_TypeMap) (msg : list Z) : Prop :=
  exists type tmp, msg = wire_encode (mk_header (Z.of_nat (length tmp) + 4) type) ++ tmp
    /\ Z.of_nat (length tmp) <= sizeof_TypeMap
    /\ (type = GNUNET_MESSAGE_TYPE_CORE_COMPRESSED_TYPE_MAP /\ (exists cap, compress2 (tmap_bytes m) cap = Some tmp)
        \/ type = GNUNET_MESSAGE_TYPE_CORE_BINARY_TYPE_MAP /\ tmp = tmap_bytes m).

Lemma compute_message_run m : tmap_ok m ->
  exists msg, GSC_TYPEMAP_compute_type_map_message m = Ret msg /\ message_is m msg.
Proof.
  intros Hm. unfold GSC_TYPEMAP_compute_type_map_message.
  rewrite malloc_ok by (vm_compute; congruence). cbn [mbind outcome_bind].
  pose proof (length_tmap_bytes m Hm) as Hl.
  assert (Hmsg : forall tmp : list Z, Z.of_nat (length tmp) <= sizeof_TypeMap ->
    u16 (u16 (Z.of_nat (length tmp)) + Z.of_nat (wire_size GNUNET_MessageHeader)) = Z.of_nat (length tmp) + 4).
  { intros tmp Ht. change (Z.of_nat (wire_size GNUNET_MessageHeader)) with 4. unfold sizeof_TypeMap in Ht.
    rewrite (u16_small (Z.of_nat _)), u16_small by (unfold is_u16; lia). done. }
  assert (Hbin : message_is m (wire_encode (mk_header (Z.of_nat (length (tmap_bytes m)) + 4)
    GNUNET_MESSAGE_TYPE_CORE_BINARY_TYPE_MAP) ++ tmap_bytes m)).
  { eexists _, _. split; [ reflexivity | ]. split; [ lia | by right ]. }
  destruct (compress2 _ _) as [tmp|] eqn:Hc; [ destruct (Z.leb_spec sizeof_TypeMap (Z.of_nat (length tmp))) | ];
    eexists; (split; [ reflexivity | ]); rewrite Hmsg by (done || lia); try done.
  eexists _, _. split; [ reflexivity | ]. split; [ lia | ]. left. eauto.
Qed.

Lemma message_header size type tmp rest : is_u16 size -> is_u16 type ->
  mem_read ((wire_encode (mk_header size type) ++ tmp) ++ rest) 0 (wire_size GNUNET_MessageHeader)
  = Ret (wire_encode (mk_header size type))
  /\ wire_decode (wire_encode (mk_header size type)) = mk_header size type
  /\ message_type (wire_encode (mk_header size type) ++ tmp) = type.
Proof.
  intros Hs Ht. pose proof (wire_length (mk_header size type)) as Hl. split; [ | split ].
  - unfold mem_read. rewrite !length_app, Hl. rewrite (proj2 (Nat.leb_le _ _)) by lia.
    by rewrite drop_0, <- app_assoc, take_app_length'.
  - rewrite <- (app_nil_r (wire_encode _)). by apply wire_roundtrip.
  - unfold message_type. by rewrite wire_roundtrip.
Qed.

(** The bytes that are read for the decompression: the message without its header, and
    four bytes behind it *)
Lemma get_compressed_run m msg behind : tmap_ok m -> message_is m msg ->
  message_type msg = GNUNET_MESSAGE_TYPE_CORE_COMPRESSED_TYPE_MAP ->
  GSC_TYPEMAP_get_from_message (msg ++ behind)
  = if (4 <=? length behind)%nat then Ret (Some m) else Undefined.
Proof.
  intros Hm (type & tmp & -> & Hl & Ht). unfold sizeof_TypeMap in Hl.
  destruct (message_header (Z.of_nat (length tmp) + 4) type tmp behind) as (Hr & Hd & ->).
  { unfold is_u16. lia. }
  { by destruct Ht as [[-> _]|[-> _]]. }
  intros ->. destruct Ht as [[_ [cap Hc]]|[Ht _]]; [ | done ].
  unfold GSC_TYPEMAP_get_from_message. rewrite Hr. cbn [mbind outcome_bind]. rewrite Hd. cbn [mh_size mh_type].
  change (_ =? GNUNET_MESSAGE_TYPE_CORE_BINARY_TYPE_MAP) with false. rewrite Z.eqb_refl. cbn iota.
  rewrite malloc_ok by (vm_compute; congruence). cbn [mbind outcome_bind].
  replace (Z.to_nat (Z.of_nat (length tmp) + 4)) with (length tmp + 4)%nat by lia.
  unfold mem_read. rewrite !length_app, wire_length. change (wire_size GNUNET_MessageHeader) with 4%nat.
  destruct (Nat.leb_spec 4 (length behind)) as [Hb|Hb].
  - rewrite (proj2 (Nat.leb_le _ _)) by lia. rewrite <- app_assoc, drop_app_length' by reflexivity.
    rewrite take_app_ge, Nat.add_comm, Nat.add_sub by lia. cbn [mbind outcome_bind].
    rewrite <- (length_tmap_bytes m Hm), (uncompress_trailing _ _ _ _ Hc), Z.eqb_refl.
    cbn [negb]. by rewrite tmap_bytes_roundtrip.
  - rewrite (proj2 (Nat.leb_gt _ _)) by lia. done.
Qed.

(** An uncompressed map is rejected: the size of the message is compared with the one of
    the map. *)
Lemma get_binary_run m msg behind : tmap_ok m -> message_is m msg ->
  message_type msg = GNUNET_MESSAGE_TYPE_CORE_BINARY_TYPE_MAP ->
  GSC_TYPEMAP_get_from_message (msg ++ behind) = Ret None.
Proof.
  intros Hm (type & tmp & -> & Hl & Ht). unfold sizeof_TypeMap in Hl.
  destruct (message_header (Z.of_nat (length tmp) + 4) type tmp behind) as (Hr & Hd & ->).
  { unfold is_u16. lia. }
  { by destruct Ht as [[-> _]|[-> _]]. }
  intros ->. destruct Ht as [[Ht _]|[_ ->]]; [ done | ].
  unfold GSC_TYPEMAP_get_from_message. rewrite Hr. cbn [mbind outcome_bind]. rewrite Hd. cbn [mh_size mh_type].
  rewrite Z.eqb_refl, length_tmap_bytes by done. done.
Qed.

(** A message tells a neighbour the types of [X], if it is compressed and four bytes
    behind it can be read. *)
Definition announces (msg : list Z) (X : gmultiset Z) : Prop :=
  (message_type msg = GNUNET_MESSAGE_TYPE_CORE_COMPRESSED_TYPE_MAP
   /\ forall behind, (4 <= length behind)%nat ->
      exists m, GSC_TYPEMAP_get_from_message (msg ++ behind) = Ret (Some m)
        /\ forall types, Forall is_u16 types -> GSC_TYPEMAP_test_match (Some m) types
           = Ret (if decide (types = [] \/ Exists (fun t => t ∈ X) types) then GNUNET_YES else GNUNET_NO))
  \/ (message_type msg = GNUNET_MESSAGE_TYPE_CORE_BINARY_TYPE_MAP
      /\ forall behind, GSC_TYPEMAP_get_from_message (msg ++ behind) = Ret None).

Lemma test_match_run m X types : map_is m X -> Forall is_u16 types ->
  GSC_TYPEMAP_test_match (Some m) types
  = Ret (if decide (types = [] \/ Exists (fun t => t ∈ X) types) then GNUNET_YES else GNUNET_NO).
Proof.
  intros [Hm Hb] Ht. destruct types as [|t types]; [ done | ]. unfold GSC_TYPEMAP_test_match.
  rewrite test_match_loop_run by done. f_equal. set (l := t :: types) in *.
  assert (E : existsb (has_type m) l = true <-> l = [] \/ Exists (fun t => t ∈ X) l).
  { rewrite existsb_exists, List.Exists_exists. rewrite List.Forall_forall in Ht. split.
    - intros (u & Hu & Hh). right. exists u. split; [ done | ].
      rewrite Hb in Hh by auto. by apply bool_decide_eq_true in Hh.
    - intros [?|(u & Hu & HX)]; [ done | ]. exists u. split; [ done | ].
      rewrite Hb by auto. by apply bool_decide_eq_true. }
  destruct (existsb _ l), (decide _) as [Hd|Hd]; try done; naive_solver.
Qed.

Lemma compute_announces m X : map_is m X ->
  exists msg, GSC_TYPEMAP_compute_type_map_message m = Ret msg /\ announces msg X.
Proof.
  intros Hm. destruct (compute_message_run m (proj1 Hm)) as (msg & Hrun & Hmsg). exists msg. split; [ done | ].
  assert (Ht : message_type msg = GNUNET_MESSAGE_TYPE_CORE_COMPRESSED_TYPE_MAP
    \/ message_type msg = GNUNET_MESSAGE_TYPE_CORE_BINARY_TYPE_MAP).
  { destruct Hmsg as (type & tmp & -> & Hl & Ht). unfold sizeof_TypeMap in Hl.
    destruct (message_header (Z.of_nat (length tmp) + 4) type tmp []) as (_ & _ & ->); 
      [ unfold is_u16; lia | by destruct Ht as [[-> _]|[-> _]] | naive_solver ]. }
  destruct Ht as [Ht|Ht]; [ left | right ]; (split; [ done | ]); intros behind.
  - intros Hb. exists m. split; [ | intros; by apply test_match_run ].
    rewrite (get_compressed_run m) by (done || apply Hm). by rewrite (proj2 (Nat.leb_le _ _)).
  - apply (get_binary_run m); done || apply Hm.
Qed.

(** ** Clients that come and go *)

Inductive typemap_op :=
  | Register (types : list Z)
  | Unregister (types : list Z).

Definition run_op (op : typemap_op) : action typemap unit :=
  match op with
  | Register types => GSC_TYPEMAP_add types
  | Unregister types => GSC_TYPEMAP_remove types
  end.

Fixpoint run_ops (ops : list typemap_op) : action typemap unit :=
  match ops with
  | [] => mret tt
  | op :: ops => _ ← run_op op; run_ops ops
  end.

(** The specification: a bag of registrations *)
Definition registered (X : gmultiset Z) (op : typemap_op) : gmultiset Z :=
  match op with
  | Register types => X ⊎ list_to_set_disj types
  | Unregister types => X ∖ list_to_set_disj types
  end.

(** A type is registered at most 255 times, and only what is registered is removed. *)
Definition op_ok (X : gmultiset Z) (op : typemap_op) : Prop :=
  match op with
  | Register types => Forall is_u16 types /\ forall t, (multiplicity t (registered X op) <= 255)%nat
  | Unregister types => list_to_set_disj types ⊆ X
  end.

Fixpoint ops_ok (X : gmultiset Z) (ops : list typemap_op) : Prop :=
  match ops with
  | [] => True
  | op :: ops => op_ok X op /\ ops_ok (registered X op) ops
  end.

(** The bags that are announced: those whose set of types differs from the one before *)
Fixpoint announced (X : gmultiset Z) (ops : list typemap_op) : list (gmultiset Z) :=
  match ops with
  | [] => []
  | op :: ops =>
      let Y := registered X op in
      (if decide (dom X = dom Y) then [] else [Y]) ++ announced Y ops
  end.

Lemma broadcast_run st X : tracks st X ->
  exists msg, broadcast_my_type_map st = Ret (tt, record_broadcast msg st)
    /\ announces msg X /\ tracks (record_broadcast msg st) X.
Proof.
  intros Htr. destruct (compute_announces _ _ (tracks_map_is _ _ Htr)) as (msg & Hc & Ha). exists msg.
  unfold broadcast_my_type_map. rewrite (run_bind _ _ _ st st) by done.
  rewrite (run_bind _ _ _ st msg) by (by apply run_lift). split; [ done | ]. split; [ done | ].
  destruct Htr. by constructor.
Qed.

Definition bag_ok (X : gmultiset Z) : Prop := forall t, t ∈ X -> is_u16 t /\ (multiplicity t X <= 255)%nat.

Lemma bag_ok_count X t : bag_ok X -> (multiplicity t X <= 255)%nat.
Proof.
  intros HX. destruct (decide (t ∈ X)) as [E|E]; [ by apply HX | ]. rewrite elem_of_multiplicity in E. lia.
Qed.

(** What both operations do with the flag *)
Lemma changed_run (f : action typemap Z) st st' (X Y : gmultiset Z) :
  f st = Ret (if decide (dom X = dom Y) then GNUNET_NO else GNUNET_YES, st') -> tracks st' Y ->
  returns (changed ← f; if GNUNET_YES =? changed then broadcast_my_type_map else mret tt) st (fun _ st2 =>
    tracks st2 Y /\ exists sent, broadcasts st2 = broadcasts st' ++ sent
      /\ Forall2 announces sent (if decide (dom X = dom Y) then [] else [Y])).
Proof.
  intros Hf Htr. eapply returns_step; [ exact Hf | ]. destruct (decide _); cbn [Z.eqb GNUNET_YES GNUNET_NO].
  - apply returns_ret. split; [ done | ]. exists []. by rewrite app_nil_r.
  - destruct (broadcast_run st' Y Htr) as (msg & Hrun & Ha & Htr2). eexists tt, _. split; [ exact Hrun | ].
    split; [ done | ]. exists [msg]. split; [ done | ]. by apply Forall2_cons.
Qed.

Lemma registration_op_ok st X op : tracks st X -> bag_ok X -> op_ok X op ->
  bag_ok (registered X op)
  /\ returns (run_op op) st (fun _ st' => tracks st' (registered X op)
       /\ exists sent, broadcasts st' = broadcasts st ++ sent
          /\ Forall2 announces sent (if decide (dom X = dom (registered X op)) then [] else [registered X op])).
Proof.
  intros Htr HX Hop. destruct op as [types|types]; cbn [op_ok registered run_op] in *.
  - destruct Hop as [Ht Hb]. split.
    + intros t Hin. split; [ | done ]. rewrite gmultiset_elem_of_disj_union in Hin.
      destruct Hin as [Hin|Hin]; [ by apply HX | ]. rewrite elem_of_list_to_set_disj in Hin.
      eapply List.Forall_forall; [ done | ]. by apply list_elem_of_In.
    + destruct (add_types_ok types st X GNUNET_NO Htr Ht Hb) as (st' & Hrun & Htr' & <-).
      by apply changed_run.
  - split.
    + intros t Hin. pose proof (bag_ok_count X t HX). rewrite elem_of_multiplicity in Hin.
      rewrite multiplicity_difference in *. split; [ | lia ]. apply HX. rewrite elem_of_multiplicity. lia.
    + destruct (remove_types_ok types st X GNUNET_NO Htr) as (st' & Hrun & Htr' & <-); [ | | done | ].
      * apply List.Forall_forall. intros t Hin. apply HX. eapply gmultiset_elem_of_subseteq; [ | done ].
        by apply elem_of_list_to_set_disj, list_elem_of_In.
      * intros t. by apply bag_ok_count.
      * by apply changed_run.
Qed.

Lemma registration_ops_ok ops : forall st X, tracks st X -> bag_ok X -> ops_ok X ops ->
  returns (run_ops ops) st (fun _ st' => tracks st' (fold_left registered ops X)
    /\ exists sent, broadcasts st' = broadcasts st ++ sent /\ Forall2 announces sent (announced X ops)).
Proof.
  induction ops as [|op ops IH]; intros st X Htr HX Hok; cbn [run_ops fold_left announced ops_ok] in *.
  - apply returns_ret. split; [ done | ]. exists []. by rewrite app_nil_r.
  - destruct Hok as [Hop Hok]. destruct (registration_op_ok st X op Htr HX Hop) as [HY Hrun].
    eapply returns_bind; [ exact Hrun | ]. intros _ st1 (Htr1 & sent1 & Hb1 & Ha1).
    eapply returns_weaken; [ by apply IH | ]. intros _ st2 (Htr2 & sent2 & Hb2 & Ha2). split; [ done | ].
    exists (sent1 ++ sent2). split; [ by rewrite Hb2, Hb1, app_assoc | by apply Forall2_app ].
Qed.

Lemma initial_tracks : tracks initial_typemap ∅.
Proof.
  constructor; cbn [initial_typemap my_type_map map_counters].
  - split; [ apply length_replicate | ]. apply Forall_replicate. unfold is_u32. lia.
  - apply length_replicate.
  - intros t Ht. rewrite multiplicity_empty. apply lookup_replicate_2. int_lia.
  - intros t Ht. unfold has_type. cbn [bits].
    rewrite nth_lookup. destruct (replicate _ 0 !! _) as [w|] eqn:E.
    + apply lookup_replicate in E as [-> _]. cbn. by rewrite Z.bits_0.
    + cbn. by rewrite Z.bits_0.
Qed.

End Announcements.


(** A compressor for the witness: the length of the data without the zeros at its end, and
    these data *)
Definition sample_stream : Zlib.
Proof.
  refine {| compress2 d cap :=
              let s := be_encode 8 (Z.of_nat (length (strip d))) ++ strip d in
              if (Z.of_nat (length s) <=? cap) && (Z.of_nat (length d) <? 2 ^ 64) then Some s else None;
            uncompress c cap :=
              let n := Z.to_nat (be_decode (take 8 c)) in
              if Z.of_nat n <=? cap then
                Some (take n (drop 8 c) ++ replicate (Z.to_nat cap - length (take n (drop 8 c))) 0) else None |}.
  - intros d cap c. cbv beta zeta. destruct (Z.leb_spec (Z.of_nat (length (be_encode 8 (Z.of_nat (length (strip d))) ++ strip d))) cap);
      destruct (_ <? _); cbn [andb]; [ intros <-%(inj Some) | done.. ]. done.
  - intros c cap d. cbv beta zeta. destruct (Z.leb_spec (Z.of_nat (Z.to_nat (be_decode (take 8 c)))) cap); [ | done ].
    intros [= <-]. rewrite length_app, length_replicate, length_take. lia.
  - intros d cap c. cbv beta zeta. destruct (_ <=? cap), (Z.ltb_spec (Z.of_nat (length d)) (2 ^ 64)) as [Hd|]; cbn [andb];
      [ intros <-%(inj Some) | done.. ]. rewrite take_app_length', drop_app_length' by done.
    pose proof (strip_spec d) as Hs. pose proof (f_equal length Hs) as Hl. rewrite length_app in Hl.
    rewrite be_decode_encode. change (8 * Z.of_nat 8) with 64. rewrite Z.mod_small, Nat2Z.id by lia.
    rewrite (proj2 (Z.leb_le _ _)) by lia. by rewrite firstn_all, Nat2Z.id, <- Hs.
Defined.

Lemma sample_stream_ok : @ZlibStream sample_stream.
Proof.
  intros d cap c rest. cbn [compress2 uncompress sample_stream]. cbv beta zeta.
  destruct (_ <=? cap), (Z.ltb_spec (Z.of_nat (length d)) (2 ^ 64)) as [Hd|]; cbn [andb];
    [ intros <-%(inj Some) | done.. ]. rewrite <- app_assoc, take_app_length', drop_app_length' by done.
  pose proof (strip_spec d) as Hs. pose proof (f_equal length Hs) as Hl. rewrite length_app in Hl.
  rewrite be_decode_encode. change (8 * Z.of_nat 8) with 64. rewrite Z.mod_small, Nat2Z.id by lia.
  rewrite (proj2 (Z.leb_le _ _)) by lia. by rewrite take_app_length, Nat2Z.id, <- Hs.
Qed.

Lemma multiplicity_list (l : list Z) t : (multiplicity t (list_to_set_disj l : gmultiset Z) <= length l)%nat.
Proof.
  induction l as [|u l IH]; cbn [list_to_set_disj length]; [ by rewrite multiplicity_empty | ].
  rewrite multiplicity_disj_union, multiplicity_singleton. destruct (decide _); lia.
Qed.

(** Two clients, of which one leaves *)
Definition sample_ops : list typemap_op := [Register [1; 40]; Register [40]; Unregister [40; 1]].


(** The map of a neighbour extended by types that it uses *)
Theorem typemap_extend_exact (m : GSC_TypeMap) (X : gmultiset Z) (types : list Z) :
  map_is m X -> Forall is_u16 types ->
  exists m', GSC_TYPEMAP_extend (Some m) types = Ret m' /\ map_is m' (X ⊎ list_to_set_disj types).
Proof.
  intros [Hm Hb] Ht. unfold GSC_TYPEMAP_extend. rewrite malloc_ok by (vm_compute; congruence).
  cbn [mbind outcome_bind]. destruct (extend_loop_ok types m Hm Ht) as (m' & -> & Hm' & Hb'). exists m'.
  split; [ done | ]. split; [ done | ]. intros u Hu. rewrite Hb', Hb by (done || apply (proj1 Hu)).
  apply eq_true_iff_eq. rewrite orb_true_iff, existsb_exists, !bool_decide_eq_true.
  rewrite gmultiset_elem_of_disj_union, elem_of_list_to_set_disj, list_elem_of_In.
  setoid_rewrite Z.eqb_eq. naive_solver.
Qed.

(** ** Defects *)

(** A compressed message that ends with its memory: the four bytes behind it are read. *)
Theorem typemap_message_overreads `{ZlibStream} (m : GSC_TypeMap) (msg : list Z) :
  tmap_ok m -> GSC_TYPEMAP_compute_type_map_message m = Ret msg ->
  message_type msg = GNUNET_MESSAGE_TYPE_CORE_COMPRESSED_TYPE_MAP ->
  GSC_TYPEMAP_get_from_message msg = Undefined.
Proof.
  intros Hm Hc Ht. destruct (compute_message_run m Hm) as (msg' & Hc' & Hmsg).
  rewrite Hc in Hc'. injection Hc' as <-. rewrite <- (app_nil_r msg). by rewrite (get_compressed_run m).
Qed.

Lemma add_one_run st t c : tmap_ok (my_type_map st) -> is_u16 t -> map_counters st !! Z.to_nat t = Some c ->
  exists m, tmap_ok m /\ (c <> 0 -> m = my_type_map st)
    /\ add_types [t] GNUNET_NO st = Ret (if 0 =? c then GNUNET_YES else GNUNET_NO,
         mk_typemap m (<[Z.to_nat t := u8 (c + 1)]> (map_counters st)) (broadcasts st)).
Proof.
  intros Hm Ht Hc. destruct (set_type_ok _ t Hm Ht) as (m & Hs & Hmok & _).
  exists (if 0 =? c then m else my_type_map st). cbn [add_types]. rewrite (run_bind _ _ _ st st) by done.
  rewrite (run_bind _ _ _ st c) by (apply run_lift; by rewrite Hc). rewrite (run_bind _ _ _ _ tt) by done.
  destruct (Z.eqb_spec 0 c) as [<-|Hne]; [ | done ].
  split; [ done | ]. split; [ done | ]. by rewrite (run_bind _ _ _ _ m) by (by apply run_lift).
Qed.

Lemma add_one_returns `{Zlib} st t c :
  tmap_ok (my_type_map st) -> is_u16 t -> map_counters st !! Z.to_nat t = Some c ->
  returns (GSC_TYPEMAP_add [t]) st (fun _ st' => tmap_ok (my_type_map st')
    /\ map_counters st' = <[Z.to_nat t := u8 (c + 1)]> (map_counters st)).
Proof.
  intros Hm Ht Hc. destruct (add_one_run st t c Hm Ht Hc) as (m & Hmok & _ & Hrun).
  eapply returns_step; [ exact Hrun | ]. destruct (0 =? c); cbn [Z.eqb GNUNET_YES GNUNET_NO].
  - destruct (compute_message_run m Hmok) as (msg & Hmsg & _). apply returns_get. eapply returns_lift; [ exact Hmsg | ].
    by eexists tt, _.
  - by apply returns_ret.
Qed.

(** The counters have eight bits: with a type that is registered 255 times, two more
    registrations and one removal take it out of the map although 256 registrations are
    left. *)
Theorem typemap_counter_wraps `{Zlib} (st : typemap) (X : gmultiset Z) (t : Z) :
  tracks st X -> is_u16 t -> multiplicity t X = 255%nat ->
  returns (GSC_TYPEMAP_add [t]) st (fun _ st1 => returns (GSC_TYPEMAP_add [t]) st1 (fun _ st2 =>
    returns (GSC_TYPEMAP_remove [t]) st2 (fun _ st3 => has_type (my_type_map st3) t = false))).
Proof.
  intros Htr Ht HX. pose proof (tr_length _ _ Htr) as Hl.
  assert (Hi : (Z.to_nat t < length (map_counters st))%nat) by (rewrite Hl; int_lia).
  eapply returns_weaken; [ apply (add_one_returns st t 255); [ apply (tr_map _ _ Htr) | done | ] | ].
  { by rewrite (tr_count _ _ Htr), HX. }
  intros _ st1 (Hm1 & Hc1). change (u8 (255 + 1)) with 0 in Hc1.
  eapply returns_weaken; [ apply (add_one_returns st1 t 0); [ done | done | ] | ].
  { by rewrite Hc1, list_lookup_insert_eq. }
  intros _ st2 (Hm2 & Hc2). change (u8 (0 + 1)) with 1 in Hc2.
  destruct (clear_type_ok _ t Hm2 Ht) as (m & Hs & Hmok & Hb).
  apply returns_bind with (Q := fun ch st' => ch = GNUNET_YES /\ my_type_map st' = m).
  - cbn [remove_types]. apply returns_get. apply (returns_lift _ _ _ 1).
    { by rewrite Hc2, list_lookup_insert_eq by (rewrite Hc1, length_insert; done). }
    apply returns_modify. change (0 =? u8 (1 - 1)) with true. apply (returns_lift _ _ _ m); [ done | ].
    apply returns_modify. by apply returns_ret.
  - intros ch st' (-> & Hm'). cbn [Z.eqb GNUNET_YES]. change (Pos.eqb 1 1) with true.
    unfold broadcast_my_type_map. apply returns_get. rewrite Hm'.
    destruct (compute_message_run m Hmok) as (msg & Hmsg & _). apply (returns_lift _ _ _ msg); [ done | ].
    eexists tt, _. split; [ reflexivity | ]. cbn [record_broadcast my_type_map]. rewrite Hm', Hb, Z.eqb_refl by apply Ht.
    done.
Qed.
