(* ===== verification/CString.v ===== *)
(** * C strings: what the sources use of the C library

    A C string is the list of its characters without the NUL ([str], see [MetaData]); a
    buffer that holds one is a list of bytes with the NUL in it.  This file has the
    character classes and comparisons ([isspace], [strcasecmp] in the C locale), the
    searches ([strchr], [strrchr], [strtok]), the numbers ([strtoull], the decimal
    conversion of [printf]) and [sscanf], whose format string is the list of its
    directives. *)

From Stdlib Require Import ZArith Lia String Ascii.
From stdpp Require Import base list numbers.
From S2P Require Import Prelude MetaData.
Local Open Scope Z_scope.

(** ** Characters and literals *)

Abbreviation TAB := 9 (only parsing).
Abbreviation LF := 10 (only parsing).
Abbreviation CR := 13 (only parsing).
Abbreviation SPACE := 32 (only parsing).
Abbreviation QUOTE := 34 (only parsing).
Abbreviation DOLLAR := 36 (only parsing).
Abbreviation DOT := 46 (only parsing).
Abbreviation SLASH := 47 (only parsing).
Abbreviation BACKSLASH := 92 (only parsing).

(** A string literal *)
Definition cs (s : string) : str :=
  (fun a => Z.of_nat (nat_of_ascii a)) <$> list_ascii_of_string s.

Definition is_digit (c : Z) : bool := (48 <=? c) && (c <=? 57).

(** [isspace] *)
Definition isspace (c : Z) : bool := (c =? 32) || ((9 <=? c) && (c <=? 13)).

Definition lowercase (s : str) : str := ascii_lower <$> s.

(** [0 == strcasecmp (a, b)] *)
Definition strcaseeq (a b : str) : bool := bool_decide (lowercase a = lowercase b).

(** [0 == strcmp (a, b)] *)
Definition streq (a b : str) : bool := bool_decide (a = b).

Definition strlen (s : str) : Z := Z.of_nat (length s).

(** What a C string holds: bytes other than NUL *)
Definition is_cstr (s : str) : Prop := Forall (fun c => c <> 0) s.

(** ** Prefixes and searches *)

Fixpoint drop_while (p : Z -> bool) (s : str) : str :=
  match s with
  | [] => []
  | c :: s' => if p c then drop_while p s' else s
  end.

(** The longest prefix of at most [w] characters that all satisfy [p], and what follows *)
Fixpoint span (w : nat) (p : Z -> bool) (s : str) : str * str :=
  match w, s with
  | S w', c :: s' => if p c then let '(t, r) := span w' p s' in (c :: t, r) else ([], s)
  | _, _ => ([], s)
  end.

(** [strchr (s, c)]: the offset of the first [c] *)
Fixpoint strchr (s : str) (c : Z) : option nat :=
  match s with
  | [] => None
  | b :: s' => if b =? c then Some 0%nat else S <$> strchr s' c
  end.

(** [strrchr (s, c)]: what follows from the last [c] on *)
Fixpoint strrchr (s : str) (c : Z) : option str :=
  match s with
  | [] => None
  | b :: s' =>
      match strrchr s' c with
      | Some r => Some r
      | None => if b =? c then Some s else None
      end
  end.

(** The characters that start a buffer, up to its first NUL or its end *)
Fixpoint upto_nul (l : list Z) : str :=
  match l with
  | [] => []
  | b :: l' => if b =? 0 then [] else b :: upto_nul l'
  end.

(** What [strtok (s, d)] and then [strtok (NULL, d)] return, in this order: the maximal
    runs of characters other than [d]; [w] is the run being read. *)
Fixpoint strtok_words_loop (d : Z) (w : str) (s : str) : list str :=
  match s with
  | [] => match w with [] => [] | _ => [reverse w] end
  | c :: s' =>
      if c =? d
      then match w with [] => strtok_words_loop d [] s' | _ => reverse w :: strtok_words_loop d [] s' end
      else strtok_words_loop d (c :: w) s'
  end.

Definition strtok_words (s : str) (d : Z) : list str := strtok_words_loop d [] s.

(** Removing the characters that satisfy [p] from the end *)
Definition strip_end (p : Z -> bool) (s : str) : str := reverse (drop_while p (reverse s)).

(** ** Numbers *)

(** [snprintf ("%llu")]; 20 digits are enough for 64 bits *)
Fixpoint decimal_loop (fuel : nat) (n : Z) (acc : str) : str :=
  match fuel with
  | O => acc
  | S fuel' =>
      let acc := (48 + n mod 10) :: acc in
      if n / 10 =? 0 then acc else decimal_loop fuel' (n / 10) acc
  end.

Definition dec (n : Z) : str := decimal_loop 20 n [].

Definition digits_value (acc : Z) (ds : str) : Z :=
  foldl (fun a c => 10 * a + (c - 48)) acc ds.

(** [strtoull (s, &end, 10)]: the value and what follows; a number out of range gives
    [ULLONG_MAX], and a minus sign negates modulo 2^64 *)
Definition strtoull (s : str) : option (Z * str) :=
  let s := drop_while isspace s in
  let '(neg, s) :=
    match s with
    | c :: s' => if c =? 45 then (true, s') else if c =? 43 then (false, s') else (false, s)
    | [] => (false, s)
    end in
  match span (length s) is_digit s with
  | ([], _) => None
  | (ds, r) =>
      let v := digits_value 0 ds in
      Some (if UINT64_MAX <? v then UINT64_MAX else if neg then u64 (- v) else v, r)
  end.

(** ** [sscanf] *)

(** The directives of a format string: white space, a character to match, [%w[^excluded]],
    and the unsigned decimal conversions ([%u] with 32 bits, [%llu] with 64). *)
Inductive directive :=
  | Space
  | Lit (c : Z)
  | Scanset (width : nat) (excluded : str)
  | Unsigned (bits : Z).

Inductive capture :=
  | Word (s : str)
  | Number (n : Z).

(** The arguments that are assigned, in order; [sscanf] returns their number (or a
    negative number instead of 0 at the end of the input). *)
Fixpoint sscanf (s : str) (fmt : list directive) : list capture :=
  match fmt with
  | [] => []
  | Space :: f => sscanf (drop_while isspace s) f
  | Lit c :: f =>
      match s with
      | b :: s' => if b =? c then sscanf s' f else []
      | [] => []
      end
  | Scanset w ex :: f =>
      match span w (fun c => negb (bool_decide (c ∈ ex))) s with
      | ([], _) => []
      | (t, r) => Word t :: sscanf r f
      end
  | Unsigned bits :: f =>
      match strtoull s with
      | None => []
      | Some (v, r) => Number (v mod 2 ^ bits) :: sscanf r f
      end
  end.

Definition lits (s : string) : list directive := Lit <$> cs s.

(** ** Buffers that hold a string *)

(** A fresh buffer of [size] bytes filled with [s] and its NUL *)
Definition alloc_str (size : Z) (s : str) : outcome str :=
  b ← GNUNET_malloc size;
  b ← mem_write b 0 (s ++ [0]);
  c_str b.

(** [GNUNET_xstrdup_]: [GNUNET_strdup] of a pointer that may be NULL *)
Definition GNUNET_xstrdup_ (s : option str) : outcome str :=
  match s with
  | None => AssertFailed
  | Some s => GNUNET_strdup s
  end.

(** [GNUNET_snprintf] of the text [s] into a buffer of [size] bytes: [vsnprintf] keeps
    the last byte for the NUL, and the assertion compares the length with [size] *)
Definition GNUNET_snprintf (size : Z) (s : str) : outcome str :=
  _ ← gnunet_assert (strlen s <=? size);
  Ret (take (Z.to_nat (size - 1)) s).

(** [GNUNET_asprintf]: the text in a fresh buffer *)
Definition GNUNET_asprintf (s : str) : outcome str :=
  _ ← GNUNET_malloc (strlen s + 1);
  Ret s.

Definition can_alloc (n : Z) : Prop := n <= GNUNET_MAX_MALLOC_CHECKED.

(** ** Lemmas *)

(** The first character, if any, does not satisfy [p] *)
Definition stops (p : Z -> bool) (s : str) : Prop := forall c, head s = Some c -> p c = false.

Lemma stops_nil p : stops p [].
Proof. by intros c. Qed.

Lemma stops_cons p c s : p c = false -> stops p (c :: s).
Proof. intros H d [= <-]. exact H. Qed.

#[export] Hint Resolve stops_nil stops_cons : gnunet.

Lemma drop_while_stops p s : stops p s -> drop_while p s = s.
Proof. destruct s as [|c s]; [ done | ]. intros H. cbn. by rewrite (H c eq_refl). Qed.

Lemma drop_while_app p t s :
  Forall (fun c => p c = true) t -> drop_while p (t ++ s) = drop_while p s.
Proof. induction 1 as [|c t Hc _ IH]; cbn; [ done | ]. by rewrite Hc. Qed.

Lemma span_app w p t s :
  Forall (fun c => p c = true) t -> stops p s -> (length t <= w)%nat ->
  span w p (t ++ s) = (t, s).
Proof.
  intros Ht Hs. revert w. induction Ht as [|c t Hc _ IH]; intros w Hw.
  - destruct s as [|c s]; [ by destruct w | ]. destruct w; [ done | ]. cbn. by rewrite (Hs c eq_refl).
  - destruct w as [|w]; cbn in Hw; [ lia | ]. cbn. rewrite Hc, IH by lia. done.
Qed.

Lemma span_full w p t : Forall (fun c => p c = true) t -> (length t <= w)%nat -> span w p t = (t, []).
Proof. intros Ht Hw. rewrite <- (app_nil_r t) at 1. apply span_app; auto with gnunet. Qed.

Lemma strchr_app_new s c r : c ∉ s -> strchr (s ++ c :: r) c = Some (length s).
Proof.
  induction s as [|b s IH]; cbn; intros Hc.
  - by rewrite Z.eqb_refl.
  - apply not_elem_of_cons in Hc as [Hb Hc]. destruct (Z.eqb_spec b c); [ congruence | ].
    by rewrite IH.
Qed.

Lemma strchr_None s c : strchr s c = None <-> c ∉ s.
Proof.
  induction s as [|b s IH]; cbn; [ split; [ intros _; apply not_elem_of_nil | done ] | ].
  rewrite not_elem_of_cons. destruct (Z.eqb_spec b c) as [->|Hb]; [ split; [ done | by intros [? _] ] | ].
  rewrite <- IH. destruct (strchr s c); split; (done || (intros; split; congruence) || (intros [_ ?]; done)).
Qed.

Lemma strchr_Some s c n : strchr s c = Some n -> exists a b, s = a ++ c :: b /\ (c ∉ a) /\ n = length a.
Proof.
  revert n. induction s as [|d s IH]; intros n; cbn; [ done | ]. destruct (Z.eqb_spec d c) as [->|Hd].
  - intros [= <-]. exists [], s. split; [ done | ]. split; [ apply not_elem_of_nil | done ].
  - destruct (strchr s c) as [m|]; [ | done ]. intros [= <-].
    destruct (IH m eq_refl) as (a & b & -> & Ha & ->). exists (d :: a), b.
    split; [ done | ]. split; [ | done ]. apply not_elem_of_cons. by split.
Qed.

Lemma until_nul_cstr s : is_cstr s -> upto_nul s = s.
Proof. induction 1 as [|c s Hc _ IH]; cbn; [ done | ]. destruct (Z.eqb_spec c 0); [ done | ]. by rewrite IH. Qed.

Lemma until_nul_is_cstr l : is_cstr (upto_nul l).
Proof.
  induction l as [|c l IH]; cbn; [ constructor | ]. destruct (Z.eqb_spec c 0); constructor; done.
Qed.

Lemma until_nul_length l : (length (upto_nul l) <= length l)%nat.
Proof. induction l as [|c l IH]; cbn; [ lia | ]. destruct (c =? 0); cbn; lia. Qed.

Lemma is_cstr_app a b : is_cstr (a ++ b) <-> is_cstr a /\ is_cstr b.
Proof. apply Forall_app. Qed.

Lemma c_str_terminated s r : is_cstr s -> c_str (s ++ 0 :: r) = Ret s.
Proof.
  induction 1 as [|c s Hc _ IH]; cbn; [ done | ]. destruct (Z.eqb_spec c 0); [ done | ]. by rewrite IH.
Qed.

Lemma strip_end_app p s t :
  Forall (fun c => p c = true) t -> stops p (reverse s) -> strip_end p (s ++ t) = s.
Proof.
  intros Ht Hs. unfold strip_end. rewrite reverse_app, drop_while_app.
  - rewrite drop_while_stops by done. apply reverse_involutive.
  - by apply Forall_reverse.
Qed.

Lemma strip_end_id p s : stops p (reverse s) -> strip_end p s = s.
Proof. intros Hs. rewrite <- (app_nil_r s) at 1. apply strip_end_app; [ constructor | done ]. Qed.

Lemma GNUNET_malloc_ok n : can_alloc n -> GNUNET_malloc n = Ret (replicate (Z.to_nat n) 0).
Proof. intros H. unfold GNUNET_malloc. rewrite gnunet_assert_true; [ done | ]. by apply Z.leb_le. Qed.

Lemma GNUNET_strdup_ok s : can_alloc (strlen s + 1) -> GNUNET_strdup s = Ret s.
Proof. intros H. unfold GNUNET_strdup. by rewrite (bind_ret _ _ _ (GNUNET_malloc_ok _ H)). Qed.

Lemma asprintf_ok s : can_alloc (strlen s + 1) -> GNUNET_asprintf s = Ret s.
Proof. intros H. unfold GNUNET_asprintf. by rewrite (bind_ret _ _ _ (GNUNET_malloc_ok _ H)). Qed.

Lemma alloc_str_ok n s :
  is_cstr s -> strlen s + 1 <= n -> can_alloc n -> alloc_str n s = Ret s.
Proof.
  intros Hs Hn Hc. unfold alloc_str, strlen in *. rewrite (bind_ret _ _ _ (GNUNET_malloc_ok _ Hc)).
  unfold mem_write. rewrite length_app, length_replicate. cbn [length].
  rewrite (proj2 (Nat.leb_le _ _)) by lia. cbn. rewrite <- app_assoc. cbn. by apply c_str_terminated.
Qed.

Lemma strcaseeq_true a b : strcaseeq a b = true <-> lowercase a = lowercase b.
Proof. apply bool_decide_eq_true. Qed.

Lemma strcaseeq_sym a b : strcaseeq a b = strcaseeq b a.
Proof. apply bool_decide_ext. split; congruence. Qed.

Lemma strcaseeq_refl a : strcaseeq a a = true.
Proof. by apply strcaseeq_true. Qed.

Lemma lower_length s : length (lowercase s) = length s.
Proof. apply length_fmap. Qed.

(** *** Numbers *)

Lemma digits_value_app acc a b : digits_value acc (a ++ b) = digits_value (digits_value acc a) b.
Proof. apply foldl_app. Qed.

(** What [decimal_loop] prepends to [acc]: digits, whose value is [n] when the fuel is enough *)
Lemma decimal_loop_spec fuel n acc :
  0 <= n < 10 ^ Z.of_nat fuel -> (0 < fuel)%nat ->
  exists ds, decimal_loop fuel n acc = ds ++ acc /\ ds <> [] /\ Forall (fun c => is_digit c = true) ds
    /\ digits_value 0 ds = n /\ (length ds <= fuel)%nat.
Proof.
  revert n acc. induction fuel as [|fuel IH]; intros n acc Hn Hf; [ lia | ]. cbn [decimal_loop].
  assert (Hd : is_digit (48 + n mod 10) = true).
  { unfold is_digit. pose proof (Z.mod_pos_bound n 10 ltac:(lia)). lia. }
  destruct (Z.eqb_spec (n / 10) 0) as [H0|H0].
  - exists [48 + n mod 10]. split; [ done | ]. split; [ done | ]. split; [ by constructor | ].
    split; [ unfold digits_value; cbn [foldl]; pose proof (Z.div_mod n 10 ltac:(lia)); lia | cbn; lia ].
  - rewrite Nat2Z.inj_succ, Z.pow_succ_r in Hn by lia.
    assert (Hq : 0 <= n / 10 < 10 ^ Z.of_nat fuel).
    { split; [ apply Z.div_pos; lia | apply Z.div_lt_upper_bound; lia ]. }
    assert (Hf' : (0 < fuel)%nat) by (destruct fuel; cbn in Hq; lia).
    destruct (IH (n / 10) ((48 + n mod 10) :: acc) Hq Hf') as (ds & -> & Hne & Hall & Hv & Hl).
    exists (ds ++ [48 + n mod 10]). rewrite <- app_assoc. split; [ done | ].
    split; [ by destruct ds | ]. split; [ apply Forall_app; split; [ done | by constructor ] | ].
    rewrite digits_value_app, Hv, length_app. unfold digits_value. cbn [foldl length].
    pose proof (Z.div_mod n 10 ltac:(lia)). lia.
Qed.

Lemma dec_spec n : is_u64 n ->
  dec n <> [] /\ Forall (fun c => is_digit c = true) (dec n) /\ digits_value 0 (dec n) = n
  /\ (length (dec n) <= 20)%nat.
Proof.
  intros Hn. destruct (decimal_loop_spec 20 n []) as (ds & Hd & H); [ int_lia | lia | ].
  unfold dec. by rewrite Hd, app_nil_r.
Qed.

Lemma dec_is_cstr n : is_u64 n -> is_cstr (dec n).
Proof.
  intros Hn. destruct (dec_spec n Hn) as (_ & H & _). eapply Forall_impl; [ | exact H ].
  cbn. unfold is_digit. lia.
Qed.

Lemma digit_head c : is_digit c = true -> isspace c = false /\ (c =? 45) = false /\ (c =? 43) = false.
Proof. unfold is_digit, isspace. lia. Qed.

Lemma strtoull_dec n r : is_u64 n -> stops is_digit r -> strtoull (dec n ++ r) = Some (n, r).
Proof.
  intros Hn Hr. destruct (dec_spec n Hn) as (Hne & Hall & Hv & _). revert Hne Hall Hv.
  generalize (dec n) as ds. intros [|c ds]; [ done | ]. intros _ Hall Hv. unfold strtoull.
  pose proof (Forall_inv Hall) as Hc. cbn beta in Hc. apply digit_head in Hc as (H1 & H2 & H3).
  rewrite drop_while_stops by (apply stops_cons; exact H1). cbn [app]. rewrite H2, H3.
  change (c :: ds ++ r) with ((c :: ds) ++ r).
  rewrite span_app by (done || (rewrite length_app; lia)). rewrite Hv.
  destruct (Z.ltb_spec UINT64_MAX n); [ int_lia | done ].
Qed.
