(* ===== verification/Strings.v ===== *)
(** * Strings: [src/util/strings.c]

    Packing several strings into a buffer and finding them again, human-readable sizes
    and times, file names, URIs and socket addresses.  (The Base32 conversions of the
    same file are in [Base32].)  Strings are [str]; the process environment ([getenv],
    [getcwd]) and [stat] are the type class [Environment].  Messages are the ones of the
    C locale: [_("s")] is "s". *)

From Stdlib Require Import ZArith Lia String.
From stdpp Require Import base list numbers.
From S2P Require Import Prelude Time MetaData CString.
Local Open Scope Z_scope.

(** ** Packing strings into a buffer *)

(** The loop of [GNUNET_STRINGS_buffer_fill] from the offset [needed] *)
Fixpoint fill_strings (buffer : option (list Z)) (size needed : Z) (args : list str)
  : outcome (option (list Z) * Z) :=
  match args with
  | [] => Ret (buffer, needed)
  | s :: args' =>
      let slen := strlen s + 1 in
      buffer ← match buffer with
               | None => Ret None
               | Some b =>
                   _ ← gnunet_assert (needed + slen <=? size);
                   b ← mem_write b (Z.to_nat needed) (s ++ [0]);
                   Ret (Some b)
               end;
      fill_strings buffer size (needed + slen) args'
  end.

Definition GNUNET_STRINGS_buffer_fill (buffer : option (list Z)) (size : Z) (args : list str)
  : outcome (option (list Z) * Z) :=
  fill_strings buffer size 0 args.

(** [while ((needed < size) && (buffer[needed] != 0)) needed++], where [needed] is an
    [unsigned int]; running out of fuel is the loop that never ends *)
Fixpoint find_nul (fuel : nat) (buffer : list Z) (size needed : Z) : outcome Z :=
  match fuel with
  | O => Undefined
  | S fuel' =>
      if needed <? size then
        c ← of_option (buffer !! Z.to_nat needed);
        if c =? 0 then Ret needed else find_nul fuel' buffer size (u32 (needed + 1))
      else Ret needed
  end.

(** The loop of [GNUNET_STRINGS_buffer_tokenize]: the result and the offsets that the
    [count] pointers are set to, in this order *)
Fixpoint tokenize_loop (buffer : list Z) (size needed : Z) (count : nat) (starts : list Z)
  : outcome (Z * list Z) :=
  match count with
  | O => Ret (needed, starts)
  | S count' =>
      let start := needed in
      needed ← find_nul (S (length buffer)) buffer size needed;
      if needed =? size then Ret (0, starts)
      else tokenize_loop buffer size (u32 (needed + 1)) count' (starts ++ [start])
  end.

Definition GNUNET_STRINGS_buffer_tokenize (buffer : list Z) (size : Z) (count : nat)
  : outcome (Z * list Z) :=
  tokenize_loop buffer size 0 count [].

(** ** Human-readable sizes and times *)

Definition byte_size_unit (size : Z) : Z * string :=
  if 5 * 1024 <? size then
    let size := size / 1024 in
    if 5 * 1024 <? size then
      let size := size / 1024 in
      if 5 * 1024 <? size then
        let size := size / 1024 in
        if 5 * 1024 <? size then (size / 1024, "TiB"%string) else (size, "GiB"%string)
      else (size, "MiB"%string)
    else (size, "KiB"%string)
  else (size, "b"%string).

Definition GNUNET_STRINGS_byte_size_fancy (size : Z) : outcome str :=
  let '(size, unit) := byte_size_unit size in
  _ ← GNUNET_malloc 32;
  GNUNET_snprintf 32 (dec size ++ cs " " ++ cs unit).

(** [struct ConversionTable], without the entry that ends it *)
Definition ConversionTable : Type := list (str * Z).

Fixpoint find_unit (table : ConversionTable) (tok : str) : option Z :=
  match table with
  | [] => None
  | (name, value) :: table' => if strcaseeq name tok then Some value else find_unit table' tok
  end.

Fixpoint convert_loop (table : ConversionTable) (toks : list str) (ret last : Z) : option Z :=
  match toks with
  | [] => Some (u64 (ret + last))
  | tok :: toks' =>
      match find_unit table tok with
      | Some value => convert_loop table toks' ret (u64 (last * value))
      | None =>
          match sscanf tok [Unsigned 64] with
          | [Number n] => convert_loop table toks' (u64 (ret + last)) n
          | _ => None
          end
      end
  end.

(** [None] is [GNUNET_SYSERR], which leaves the output as it is *)
Definition convert_with_table (input : str) (table : ConversionTable) : outcome (option Z) :=
  in_ ← GNUNET_strdup input;
  Ret (convert_loop table (strtok_words in_ SPACE) 0 0).

Definition size_table : ConversionTable :=
  [ (cs "B", 1); (cs "KiB", 1024); (cs "kB", 1000); (cs "MiB", 1024 * 1024);
    (cs "MB", 1000 * 1000); (cs "GiB", 1024 * 1024 * 1024); (cs "GB", 1000 * 1000 * 1000);
    (cs "TiB", 1024 * 1024 * 1024 * 1024); (cs "TB", 1000 * 1000 * 1000 * 1024);
    (cs "PiB", 1024 * 1024 * 1024 * 1024 * 1024); (cs "PB", 1000 * 1000 * 1000 * 1024 * 1000);
    (cs "EiB", 1024 * 1024 * 1024 * 1024 * 1024 * 1024);
    (cs "EB", 1000 * 1000 * 1000 * 1024 * 1000 * 1000) ].

Definition GNUNET_STRINGS_fancy_size_to_bytes (fancy_size : str) : outcome (option Z) :=
  convert_with_table fancy_size size_table.

Definition time_table : ConversionTable :=
  [ (cs "ms", 1); (cs "s", 1000); ([QUOTE], 1000); (cs "m", 60 * 1000); (cs "min", 60 * 1000);
    (cs "minutes", 60 * 1000); (cs "'", 60 * 1000); (cs "h", 60 * 60 * 1000);
    (cs "d", 24 * 60 * 60 * 1000); (cs "day", 24 * 60 * 60 * 1000);
    (cs "days", 24 * 60 * 60 * 1000); (cs "a", 31536000000) ].

(** The return value and [*rtime]; when the conversion fails the uninitialised [val] is
    copied, which is [None] *)
Definition GNUNET_STRINGS_fancy_time_to_relative (fancy_time : str)
  : outcome (Z * option GNUNET_TIME_Relative) :=
  if strcaseeq (cs "forever") fancy_time
  then Ret (GNUNET_OK, Some GNUNET_TIME_UNIT_FOREVER_REL)
  else
    v ← convert_with_table fancy_time time_table;
    match v with
    | Some val => Ret (GNUNET_OK, Some (mk_rel val))
    | None => Ret (GNUNET_SYSERR, None)
    end.

(** The number and the unit of [GNUNET_STRINGS_relative_time_to_string] *)
Definition time_unit (dval : Z) (do_round : bool) : Z * string :=
  if (do_round && (5 * 1000 <? dval)) || (dval mod 1000 =? 0) then
    let dval := dval / 1000 in
    if (do_round && (5 * 60 <? dval)) || (dval mod 60 =? 0) then
      let dval := dval / 60 in
      if (do_round && (5 * 60 <? dval)) || (dval mod 60 =? 0) then
        let dval := dval / 60 in
        if (do_round && (5 * 24 <? dval)) || (dval mod 24 =? 0) then
          let dval := dval / 24 in
          (dval, if dval =? 1 then "day"%string else "days"%string)
        else (dval, "h"%string)
      else (dval, "m"%string)
    else (dval, "s"%string)
  else (dval, "ms"%string).

Definition GNUNET_STRINGS_relative_time_to_string (delta : GNUNET_TIME_Relative)
  (do_round : bool) : outcome str :=
  if rel_value GNUNET_TIME_UNIT_FOREVER_REL =? rel_value delta then Ret (cs "forever")
  else if rel_value delta =? 0 then Ret (cs "0 ms")
  else
    let '(dval, unit) := time_unit (rel_value delta) do_round in
    GNUNET_snprintf 128 (dec dval ++ cs " " ++ cs unit).

(** ** File names and URIs *)

(** What [stat] says of a file *)
Record file_status := mk_stat { S_ISDIR : bool; S_ISLNK : bool }.

(** [getcwd] with a buffer of the given size: the directory, or [errno == ERANGE] *)
Class Environment := {
  getenv : str -> option str;
  getcwd : Z -> str + bool;
  stat : str -> option file_status
}.

Section Files.
Context `{Environment}.

Definition DIR_SEPARATOR_STR : str := [SLASH].

(** The search for a buffer that is large enough; the size doubles from 512 and a size of
    4 MB is the last one, so 14 rounds are all there are. *)
Fixpoint getcwd_loop (fuel : nat) (len : Z) : outcome (option str) :=
  match fuel with
  | O => Undefined
  | S fuel' =>
      _ ← GNUNET_malloc len;
      match getcwd len with
      | inl buffer => Ret (Some buffer)
      | inr erange =>
          if erange && (len <? 1024 * 1024 * 4) then getcwd_loop fuel' (len * 2) else Ret None
      end
  end.

(** The directory that a relative name is relative to *)
Definition current_directory : outcome str :=
  fm ← getcwd_loop 14 512;
  match fm with
  | Some fm => Ret fm
  | None =>
      match getenv (cs "PWD") with
      | Some buffer => GNUNET_strdup buffer
      | None => GNUNET_strdup (cs "./")
      end
  end.

(** [fm], a directory separator unless [fm] ends with one, and [fil_ptr]; the character
    before the end of an empty [fm] is outside of its buffer *)
Definition join_path (fm fil_ptr : str) : outcome str :=
  let n := strlen fm + 1 + strlen fil_ptr + 1 in
  _ ← GNUNET_malloc n;
  c ← of_option (list.last fm);
  GNUNET_snprintf n (fm ++ (if c =? SLASH then [] else DIR_SEPARATOR_STR) ++ fil_ptr).

Definition GNUNET_STRINGS_filename_expand (fil : option str) : outcome (option str) :=
  match fil with
  | None => Ret None
  | Some fil =>
      if bool_decide (head fil = Some SLASH) then
        s ← GNUNET_strdup fil; Ret (Some s)
      else if bool_decide (head fil = Some 126) then
        match getenv (cs "HOME") with
        | None => Ret None
        | Some fm =>
            fm ← GNUNET_strdup fm;
            let fil_ptr := drop 1 fil in
            let fil_ptr := if bool_decide (head fil_ptr = Some SLASH) then drop 1 fil_ptr else fil_ptr in
            buffer ← join_path fm fil_ptr;
            Ret (Some buffer)
        end
      else
        fm ← current_directory;
        buffer ← join_path fm fil;
        Ret (Some buffer)
  end.

(** [while (NULL != (ss = strstr (short_fn, "/")) && (ss[1] != 0)) short_fn = 1 + ss] *)
Fixpoint short_name_loop (fuel : nat) (short_fn : str) : str :=
  match fuel with
  | O => short_fn
  | S fuel' =>
      match strchr short_fn SLASH with
      | Some ss =>
          match drop (S ss) short_fn with
          | [] => short_fn
          | rest => short_name_loop fuel' rest
          end
      | None => short_fn
      end
  end.

Definition GNUNET_STRINGS_get_short_name (filename : str) : str :=
  short_name_loop (length filename) filename.

Definition scheme_char (c : Z) : bool :=
  ((65 <=? c) && (c <=? 90)) || ((97 <=? c) && (c <=? 122)) || ((48 <=? c) && (c <=? 57))
  || (c =? 43) || (c =? 45) || (c =? 46).

(** The states of the loop of [GNUNET_STRINGS_parse_uri] *)
Inductive pp_state :=
  | pp_scheme     (* 0 *)
  | pp_colon      (* 1: the colon was read *)
  | pp_slash      (* 2: one slash was read *)
  | pp_slashes.   (* 3: both slashes were read *)

(** The offset of [post_scheme_part], if it is set *)
Fixpoint parse_uri_loop (s : str) (i : nat) (st : pp_state) : option nat :=
  match s with
  | [] => None
  | c :: s' =>
      match st with
      | pp_scheme =>
          if (c =? 58) && (0 <? i)%nat then parse_uri_loop s' (S i) pp_colon
          else if scheme_char c then parse_uri_loop s' (S i) pp_scheme else None
      | pp_colon => if c =? SLASH then parse_uri_loop s' (S i) pp_slash else None
      | pp_slash => if c =? SLASH then parse_uri_loop s' (S i) pp_slashes else None
      | pp_slashes => Some i
      end
  end.

(** [Some (scheme_part, path_part)] is [GNUNET_YES] *)
Definition GNUNET_STRINGS_parse_uri (path : str) : outcome (option (str * str)) :=
  match parse_uri_loop path 0 pp_scheme with
  | None => Ret None
  | Some post =>
      scheme_part ← alloc_str (Z.of_nat post + 1) (take post path);
      Ret (Some (scheme_part, drop post path))
  end.

(** The result of [GNUNET_STRINGS_path_is_absolute], what [*r_is_uri] is set to ([None]:
    it is not written) and the scheme *)
Definition GNUNET_STRINGS_path_is_absolute (filename : str) (can_be_uri : bool)
  : outcome (Z * option Z * option str) :=
  if bool_decide (head filename = Some SLASH) then Ret (GNUNET_YES, None, None)
  else if can_be_uri then
    u ← GNUNET_STRINGS_parse_uri filename;
    match u with
    | Some (uri, post_scheme_path) =>
        Ret (if bool_decide (head post_scheme_path = Some SLASH) then GNUNET_YES else GNUNET_NO,
             Some GNUNET_YES, Some uri)
    | None => Ret (GNUNET_NO, Some GNUNET_NO, None)
    end
  else Ret (GNUNET_NO, Some GNUNET_NO, None).

Definition GNUNET_STRINGS_CHECK_EXISTS : Z := 1.
Definition GNUNET_STRINGS_CHECK_IS_DIRECTORY : Z := 2.
Definition GNUNET_STRINGS_CHECK_IS_LINK : Z := 4.
Definition GNUNET_STRINGS_CHECK_IS_ABSOLUTE : Z := 8.

Definition has_check (checks c : Z) : bool := negb (Z.land checks c =? 0).

(** The checks after the one for absolute names *)
Definition check_status (filename : str) (checks : Z) : Z :=
  let later (st : option file_status) : Z :=
    match st with
    | None => GNUNET_YES
    | Some st =>
        if has_check checks GNUNET_STRINGS_CHECK_IS_DIRECTORY && negb (S_ISDIR st) then GNUNET_NO
        else if has_check checks GNUNET_STRINGS_CHECK_IS_LINK && negb (S_ISLNK st) then GNUNET_NO
        else GNUNET_YES
    end in
  if has_check checks (Z.lor GNUNET_STRINGS_CHECK_EXISTS
       (Z.lor GNUNET_STRINGS_CHECK_IS_DIRECTORY GNUNET_STRINGS_CHECK_IS_LINK)) then
    match stat filename with
    | None => if has_check checks GNUNET_STRINGS_CHECK_EXISTS then GNUNET_NO else GNUNET_SYSERR
    | Some st => later (Some st)
    end
  else later None.

Definition GNUNET_STRINGS_check_filename (filename : option str) (checks : Z) : outcome Z :=
  match filename with
  | None | Some [] => Ret GNUNET_SYSERR
  | Some filename =>
      if has_check checks GNUNET_STRINGS_CHECK_IS_ABSOLUTE then
        '(r, _, _) ← GNUNET_STRINGS_path_is_absolute filename false;
        if r =? 0 then Ret GNUNET_NO else Ret (check_status filename checks)
      else Ret (check_status filename checks)
  end.

End Files.

(** ** Socket addresses *)

(** [sin_addr] and [sin_port] in network byte order *)
Record sockaddr_in := mk_sockaddr_in { sin_port : list Z; sin_addr : list Z }.

Definition ipv4_format : list directive :=
  [Unsigned 32; Lit DOT; Unsigned 32; Lit DOT; Unsigned 32; Lit DOT; Unsigned 32; Lit 58; Unsigned 32].

Definition GNUNET_STRINGS_to_address_ipv4 (zt_addr : str) (addrlen : Z) : option sockaddr_in :=
  if addrlen <? 9 then None
  else
    match sscanf zt_addr ipv4_format with
    | [Number t0; Number t1; Number t2; Number t3; Number port] =>
        if (255 <? t0) || (255 <? t1) || (255 <? t2) || (255 <? t3) then None
        else if 65535 <? port then None
        else Some (mk_sockaddr_in (be_encode 2 port)
               (be_encode 4 (u32 (u32 (Z.shiftl t0 24) + u32 (Z.shiftl t1 16)
                  + u32 (Z.shiftl t2 8) + t3))))
    | _ => None
    end.

Record sockaddr_in6 := mk_sockaddr_in6 { sin6_port : list Z; sin6_addr : list Z }.

Section IPv6.
(** [inet_pton (AF_INET6, ...)] *)
Context (inet_pton6 : str -> option (list Z)).

(** The position of the last [c] *)
Fixpoint strrchr_pos (s : str) (c : Z) : option nat :=
  match s with
  | [] => None
  | b :: s' =>
      match strrchr_pos s' c with
      | Some p => Some (S p)
      | None => if b =? c then Some 0%nat else None
      end
  end.

(** [zbuf] is the string in the first [addrlen] bytes of [zt_addr] *)
Definition GNUNET_STRINGS_to_address_ipv6 (zt_addr : list Z) (addrlen : Z)
  : outcome (option sockaddr_in6) :=
  if addrlen <? 6 then Ret None
  else
    zbuf ← mem_read zt_addr 0 (Z.to_nat addrlen);
    if negb (bool_decide (head zbuf = Some 91)) then Ret None
    else
      let zbuf := upto_nul zbuf in
      match strrchr_pos zbuf 58 with
      | None => Ret None
      | Some port_colon =>
          before ← of_option (zbuf !! (port_colon - 1)%nat);
          if negb (before =? 93) then Ret None
          else
            match sscanf (drop port_colon zbuf) [Lit 58; Unsigned 32] with
            | [Number port] =>
                if 65535 <? port then Ret None
                else
                  match inet_pton6 (take (port_colon - 2) (drop 1 zbuf)) with
                  | None => Ret None
                  | Some a => Ret (Some (mk_sockaddr_in6 (be_encode 2 port) a))
                  end
            | _ => Ret None
            end
      end.

End IPv6.

(** ** Numbers with units *)

Lemma strtok_loop_word d w s :
  d ∉ s -> strtok_words_loop d w s = match reverse w ++ s with [] => [] | r => [r] end.
Proof.
  revert w. induction s as [|c s IH]; intros w Hd; cbn [strtok_words_loop].
  - rewrite app_nil_r. destruct w as [|c w]; [ done | ]. rewrite reverse_cons.
    by destruct (reverse w).
  - apply not_elem_of_cons in Hd as [Hc Hd]. destruct (Z.eqb_spec c d); [ congruence | ].
    rewrite IH by done. by rewrite reverse_cons, <- app_assoc.
Qed.

Lemma strtok_loop_cons d w a s :
  d ∉ a -> reverse w ++ a <> [] ->
  strtok_words_loop d w (a ++ d :: s) = (reverse w ++ a) :: strtok_words_loop d [] s.
Proof.
  revert w. induction a as [|c a IH]; intros w Hd Hne; cbn [strtok_words_loop app].
  - rewrite Z.eqb_refl, app_nil_r. rewrite app_nil_r in Hne. by destruct w.
  - apply not_elem_of_cons in Hd as [Hc Hd]. destruct (Z.eqb_spec c d); [ congruence | ].
    assert (Hr : reverse (c :: w) ++ a = reverse w ++ c :: a) by by rewrite reverse_cons, <- app_assoc.
    rewrite IH; rewrite ?Hr; done.
Qed.

(** Two words with a space between them *)
Lemma strtok_two a b :
  a <> [] -> b <> [] -> SPACE ∉ a -> SPACE ∉ b -> strtok_words (a ++ cs " " ++ b) SPACE = [a; b].
Proof.
  intros Ha Hb Hsa Hsb. unfold strtok_words. change (a ++ cs " " ++ b) with (a ++ SPACE :: b).
  rewrite strtok_loop_cons by done. rewrite strtok_loop_word by done. cbn. by destruct b.
Qed.

(** No unit of the table starts with a digit. *)
Definition units_ok (table : ConversionTable) : Prop :=
  Forall (fun e : str * Z => match head e.1 with Some c => is_digit c = false | None => False end) table.

Lemma ascii_lower_digit c : is_digit (ascii_lower c) = is_digit c.
Proof. unfold is_digit, ascii_lower. destruct ((65 <=? c) && (c <=? 90)) eqn:E; lia. Qed.

Lemma find_unit_number table c s : units_ok table -> is_digit c = true -> find_unit table (c :: s) = None.
Proof.
  intros Ht Hc. induction Ht as [|[name v] table Hn _ IH]; cbn [find_unit]; [ done | ].
  destruct (strcaseeq name (c :: s)) eqn:E; [ | exact IH ]. apply strcaseeq_true in E.
  destruct name as [|d name]; [ done | ]. cbn in Hn. injection E as Hd _.
  rewrite <- ascii_lower_digit, Hd, ascii_lower_digit in Hn. congruence.
Qed.

Lemma sscanf_dec n : is_u64 n -> sscanf (dec n) [Unsigned 64] = [Number n].
Proof.
  intros Hn. cbn [sscanf]. rewrite <- (app_nil_r (dec n)), strtoull_dec by auto with gnunet.
  rewrite Z.mod_small by int_lia. done.
Qed.

(** A number and a unit *)
Lemma convert_number_unit table n unit v :
  is_u64 n -> units_ok table -> unit <> [] -> SPACE ∉ unit -> find_unit table unit = Some v ->
  strlen (dec n ++ cs " " ++ unit) <= 100 ->
  convert_with_table (dec n ++ cs " " ++ unit) table = Ret (Some (u64 (n * v))).
Proof.
  intros Hn Ht Hu Hs Hf Hl. unfold convert_with_table.
  rewrite (bind_ret (GNUNET_strdup _) (dec n ++ cs " " ++ unit))
    by (apply GNUNET_strdup_ok; unfold can_alloc, GNUNET_MAX_MALLOC_CHECKED; lia).
  destruct (dec_spec n Hn) as (Hne & Hall & _).
  rewrite strtok_two; [ | done | done | | done ].
  2:{ intros Hin. rewrite Forall_forall in Hall. specialize (Hall SPACE (proj1 (list_elem_of_In _ _) Hin)). done. }
  cbn [convert_loop].
  assert (Hd : find_unit table (dec n) = None).
  { destruct (dec n) as [|c s]; [ done | ]. apply find_unit_number; [ done | ]. exact (Forall_inv Hall). }
  rewrite Hd, sscanf_dec by done. cbn [convert_loop]. rewrite Hf. f_equal. f_equal.
  unfold u64. rewrite Zplus_mod_idemp_r. f_equal.
Qed.

Lemma size_table_ok : units_ok size_table.
Proof. repeat constructor. Qed.

Lemma time_table_ok : units_ok time_table.
Proof. repeat constructor. Qed.

(** [GNUNET_snprintf] of a text that is shorter than the buffer *)
Lemma GNUNET_snprintf_ok size s : strlen s < size -> GNUNET_snprintf size s = Ret s.
Proof.
  intros Hs. unfold GNUNET_snprintf, strlen in *. rewrite gnunet_assert_true by lia. cbn.
  by rewrite take_ge by lia.
Qed.

(** The text of a number and a unit of at most 10 characters *)
Lemma number_unit_length n unit :
  is_u64 n -> strlen unit <= 10 -> strlen (dec n ++ cs " " ++ unit) <= 31.
Proof.
  intros Hn Hu. destruct (dec_spec n Hn) as (_ & _ & _ & Hl). unfold strlen in *.
  rewrite !length_app. change (length (cs " ")) with 1%nat. lia.
Qed.

(** The value of the units that [byte_size_unit] chooses: the size is rounded down to a
    multiple of the unit, and there are at least five of them. *)
Lemma byte_size_unit_spec size : 0 <= size ->
  exists v, find_unit size_table (cs (byte_size_unit size).2) = Some v
    /\ strlen (cs (byte_size_unit size).2) <= 10 /\ cs (byte_size_unit size).2 <> []
    /\ (SPACE ∉ cs (byte_size_unit size).2)
    /\ (byte_size_unit size).1 = size / v /\ (v = 1 \/ (0 < v /\ 5 <= size / v)).
Proof.
  intros Hs. unfold byte_size_unit.
  repeat match goal with |- context [5 * 1024 <? ?x] => destruct (Z.ltb_spec (5 * 1024) x) end;
    cbn [fst snd]; eexists.
  all: split; [ reflexivity | ]; split; [ vm_compute; congruence | ]; split; [ done | ].
  all: split; [ apply (bool_decide_unpack _); vm_compute; exact I | ].
  all: rewrite ?Z.div_div by lia; split; [ first [ by rewrite Z.div_1_r | f_equal; lia | reflexivity ] | ].
  all: first [ left; reflexivity | right; split; [ lia | ] ].
  all: rewrite ?Z.div_div in * by lia; apply Z.div_le_lower_bound; [ lia | ].
  all: Z.div_mod_to_equations; lia.
Qed.

(** Without rounding the number and the unit give exactly the time. *)
Lemma time_unit_spec n : 0 < n ->
  exists v, find_unit time_table (cs (time_unit n false).2) = Some v
    /\ strlen (cs (time_unit n false).2) <= 10 /\ cs (time_unit n false).2 <> []
    /\ (SPACE ∉ cs (time_unit n false).2) /\ 0 < v /\ (time_unit n false).1 * v = n.
Proof.
  intros Hn. unfold time_unit. cbn [andb orb].
  repeat match goal with |- context [?x mod ?y =? 0] => destruct (Z.eqb_spec (x mod y) 0) end;
    try (destruct (Z.eqb_spec (n / 1000 / 60 / 60 / 24) 1));
    cbn [fst snd]; eexists.
  all: split; [ reflexivity | ]; split; [ vm_compute; congruence | ]; split; [ done | ].
  all: split; [ apply (bool_decide_unpack _); vm_compute; exact I | ].
  all: split; [ lia | ].
  all: Z.div_mod_to_equations; lia.
Qed.

(** The text of a time never reads as "forever". *)
Lemma number_unit_not_forever n unit : is_u64 n -> strcaseeq (cs "forever") (dec n ++ cs " " ++ unit) = false.
Proof.
  intros Hn. destruct (dec_spec n Hn) as (Hne & Hall & _). destruct (dec n) as [|c s]; [ done | ].
  apply Forall_inv in Hall. unfold strcaseeq. apply bool_decide_eq_false. cbn. intros [= Hc _].
  rewrite <- ascii_lower_digit, <- Hc in Hall. done.
Qed.

Lemma time_text_converts n :
  is_u64 n -> 0 < n -> let '(d, unit) := time_unit n false in
  is_u64 d /\ convert_with_table (dec d ++ cs " " ++ cs unit) time_table = Ret (Some n)
  /\ strlen (dec d ++ cs " " ++ cs unit) <= 31.
Proof.
  intros Hn H0. destruct (time_unit_spec n H0) as (v & Hf & Hl & Hne & Hs & Hv & Hm).
  destruct (time_unit n false) as [d unit]. cbn [fst snd] in *.
  assert (Hd : is_u64 d) by (unfold is_u64 in *; nia).
  pose proof (number_unit_length d (cs unit) Hd Hl). split; [ done | ]. split; [ | done ].
  rewrite (convert_number_unit _ _ _ v) by (done || lia || apply time_table_ok).
  rewrite Hm. unfold u64. rewrite Z.mod_small by exact Hn. done.
Qed.

Lemma size_text_converts n :
  is_u64 n -> let '(d, unit) := byte_size_unit n in
  exists v, convert_with_table (dec d ++ cs " " ++ cs unit) size_table = Ret (Some (d * v))
    /\ strlen (dec d ++ cs " " ++ cs unit) <= 31
    /\ d * v <= n /\ (d * v = n \/ 5 * (n - d * v) < d * v).
Proof.
  intros Hn. destruct (byte_size_unit_spec n ltac:(int_lia)) as (v & Hf & Hl & Hne & Hs & Hd & Hv).
  destruct (byte_size_unit n) as [d unit]. cbn [fst snd] in *.
  assert (H0 : 0 < v) by lia. pose proof (Z.mul_div_le n v H0). pose proof (Z.mod_pos_bound n v H0).
  pose proof (Z.div_mod n v ltac:(lia)). pose proof (Z.div_pos n v ltac:(int_lia) H0).
  assert (Hu : is_u64 d) by (unfold is_u64 in *; nia).
  pose proof (number_unit_length d (cs unit) Hu Hl). exists v. split.
  - rewrite (convert_number_unit _ _ _ v) by (done || lia || apply size_table_ok).
    unfold u64. rewrite Z.mod_small by (unfold is_u64 in *; nia). done.
  - split; [ done | ]. split; [ nia | ]. destruct Hv as [->|[_ H5]]; [ left; lia | right; nia ].
Qed.

(** Packing and finding strings *)

Definition packed (args : list str) : list Z := mjoin ((fun s => s ++ [0]) <$> args).

Lemma packed_cons s args : packed (s :: args) = (s ++ [0]) ++ packed args.
Proof. done. Qed.

Lemma fill_strings_ok args pre rest (size : Z) :
  (length (packed args) <= length rest)%nat -> Z.of_nat (length pre + length rest) = size ->
  fill_strings (Some (pre ++ rest)) size (Z.of_nat (length pre)) args
  = Ret (Some (pre ++ packed args ++ drop (length (packed args)) rest),
         Z.of_nat (length pre + length (packed args))).
Proof.
  revert pre rest. induction args as [|s args IH]; intros pre rest Hl Hs.
  - cbn. by rewrite drop_0, Nat.add_0_r.
  - rewrite packed_cons in Hl |- *. rewrite !length_app in Hl. cbn [length] in Hl.
    cbn [fill_strings]. unfold strlen. rewrite gnunet_assert_true by lia. cbn [mbind outcome_bind].
    rewrite !length_app.
    unfold mem_write. rewrite !length_app, Nat2Z.id. cbn [length].
    rewrite (proj2 (Nat.leb_le _ _)) by lia. cbn [mbind outcome_bind].
    rewrite take_app_length, drop_app_add.
    specialize (IH (pre ++ s ++ [0]) (drop (length s + 1) rest)).
    rewrite !length_app, length_drop in IH. cbn [length] in IH.
    rewrite <- !app_assoc in IH. cbn [app] in IH. rewrite <- !app_assoc. cbn [app].
    replace (Z.of_nat (length pre) + (Z.of_nat (length s) + 1)) with (Z.of_nat (length pre + (length s + 1))) by lia.
    rewrite IH by lia. rewrite drop_drop. by rewrite !Nat.add_assoc.
Qed.

Ltac lengths := repeat (progress (rewrite ?length_app in *; cbn [length] in *)).

Lemma fill_strings_dry args z :
  fill_strings None 0 z args = Ret (None, z + Z.of_nat (length (packed args))).
Proof.
  revert z. induction args as [|s args IH]; intros z; cbn [fill_strings mbind outcome_bind].
  - by rewrite Z.add_0_r.
  - rewrite IH, packed_cons. lengths. do 2 f_equal. unfold strlen. lia.
Qed.

Lemma fill_strings_aborts args pre rest (size : Z) :
  Z.of_nat (length (pre ++ rest)) = size ->
  size < Z.of_nat (length pre) + Z.of_nat (length (packed args)) ->
  fill_strings (Some (pre ++ rest)) size (Z.of_nat (length pre)) args = AssertFailed.
Proof.
  revert pre rest. induction args as [|s args IH]; intros pre rest Hs Hlt; [ cbn in Hlt; lengths; lia | ].
  cbn [fill_strings]. unfold strlen.
  destruct (Z.leb_spec (Z.of_nat (length pre) + (Z.of_nat (length s) + 1)) size); [ | done ].
  cbn [gnunet_assert mbind outcome_bind]. unfold mem_write. rewrite Nat2Z.id, packed_cons in *. lengths.
  rewrite (proj2 (Nat.leb_le _ _)) by lia. cbn [mbind outcome_bind]. rewrite take_app_length, drop_app_add.
  specialize (IH (pre ++ s ++ [0]) (drop (length s + 1) rest)). rewrite <- !app_assoc in IH. rewrite <- !app_assoc.
  lengths. replace (Z.of_nat (length pre) + (Z.of_nat (length s) + 1))
    with (Z.of_nat (length pre + (length s + 1))) by lia.
  apply IH; [ rewrite length_drop; lia | lia ].
Qed.

Lemma find_nul_ok fuel pre s r (size : Z) :
  is_cstr s -> Z.of_nat (length (pre ++ s ++ 0 :: r)) = size -> size < 2 ^ 32 -> (length s < fuel)%nat ->
  find_nul fuel (pre ++ s ++ 0 :: r) size (Z.of_nat (length pre)) = Ret (Z.of_nat (length pre + length s)).
Proof.
  revert pre s. induction fuel as [|fuel IH]; intros pre s Hc Hz Hs Hf; [ lia | ]. cbn [find_nul].
  rewrite !length_app in Hz. cbn [length] in Hz.
  rewrite (proj2 (Z.ltb_lt _ _)) by lia. rewrite Nat2Z.id, lookup_app_r, Nat.sub_diag by lia.
  destruct s as [|c s]; cbn [lookup list_lookup app of_option mbind outcome_bind].
  - rewrite Z.eqb_refl. f_equal. cbn. lia.
  - apply Forall_cons_iff in Hc as [Hc0 Hc]. destruct (Z.eqb_spec c 0); [ done | ].
    specialize (IH (pre ++ [c]) s Hc). rewrite <- app_assoc in IH. cbn [app] in IH.
    unfold u32. cbn [length] in *. rewrite Z.mod_small by lia.
    replace (Z.of_nat (length pre) + 1) with (Z.of_nat (length (pre ++ [c]))) by (rewrite length_app; cbn; lia).
    rewrite IH by (lengths; lia). lengths. f_equal. lia.
Qed.

(** The strings start where [buffer_fill] has put them. *)
Fixpoint offsets (off : Z) (args : list str) : list Z :=
  match args with
  | [] => []
  | s :: args' => off :: offsets (off + strlen s + 1) args'
  end.

Lemma tokenize_loop_ok args pre r size starts :
  Forall is_cstr args -> Z.of_nat (length (pre ++ packed args ++ r)) = size -> size < 2 ^ 32 ->
  tokenize_loop (pre ++ packed args ++ r) size (Z.of_nat (length pre)) (length args) starts
  = Ret (Z.of_nat (length pre + length (packed args)), starts ++ offsets (Z.of_nat (length pre)) args).
Proof.
  revert pre starts. induction args as [|s args IH]; intros pre starts Hc Hz Hs.
  - cbn. by rewrite app_nil_r, Nat.add_0_r.
  - apply Forall_cons_iff in Hc as [Hc0 Hc]. rewrite packed_cons in Hz |- *. cbn [length tokenize_loop offsets].
    rewrite <- !app_assoc in Hz |- *. cbn [app] in Hz |- *.
    pose proof Hz as Hlen. rewrite !length_app in Hlen. cbn [length] in Hlen. rewrite length_app in Hlen.
    rewrite find_nul_ok by (done || (lengths; lia)).
    cbn [mbind outcome_bind]. destruct (Z.eqb_spec (Z.of_nat (length pre + length s)) size); [ lia | ].
    unfold u32. rewrite Z.mod_small by lia.
    specialize (IH (pre ++ s ++ [0]) (starts ++ [Z.of_nat (length pre)]) Hc).
    rewrite <- !app_assoc in IH. cbn [app] in IH. rewrite !length_app in IH. cbn [length] in IH.
    replace (Z.of_nat (length pre + length s) + 1) with (Z.of_nat (length pre + (length s + 1))) by lia.
    rewrite IH by (lengths; lia).
    rewrite !length_app. cbn [length]. unfold strlen.
    replace (Z.of_nat (length pre) + Z.of_nat (length s) + 1) with (Z.of_nat (length pre + (length s + 1))) by lia.
    f_equal. f_equal. lia.
Qed.

Lemma offsets_point args pre r :
  Forall is_cstr args ->
  Forall2 (fun off s => c_str (drop (Z.to_nat off) (pre ++ packed args ++ r)) = Ret s)
    (offsets (Z.of_nat (length pre)) args) args.
Proof.
  intros Hc. revert pre. induction Hc as [|s args Hs _ IH]; intros pre; cbn [offsets]; [ constructor | ].
  constructor.
  - rewrite Nat2Z.id, drop_app_length, packed_cons, <- !app_assoc. by apply c_str_terminated.
  - specialize (IH (pre ++ s ++ [0])). rewrite packed_cons, <- !app_assoc. rewrite <- !app_assoc in IH.
    lengths. unfold strlen.
    replace (Z.of_nat (length pre) + Z.of_nat (length s) + 1) with (Z.of_nat (length pre + (length s + 1))) by lia.
    exact IH.
Qed.

(** ** File names *)

Section FileNames.
Context `{Environment}.

(** The home directory and the current directory are absolute and of a sensible length,
    and [getcwd] keeps to its buffer. *)
Definition absolute (s : str) : Prop := head s = Some SLASH.

Record env_ok : Prop := {
  eo_home : exists h, getenv (cs "HOME") = Some h /\ absolute h /\ strlen h <= 2 ^ 20;
  eo_pwd : exists p, getenv (cs "PWD") = Some p /\ absolute p /\ strlen p <= 2 ^ 20;
  eo_cwd : forall n d, getcwd n = inl d -> absolute d /\ strlen d < n
}.

Lemma getcwd_loop_returns fuel len :
  (0 < fuel)%nat -> 0 < len -> len * 2 ^ Z.of_nat (fuel - 1) = 1024 * 1024 * 4 ->
  exists o, getcwd_loop fuel len = Ret o
    /\ forall d, o = Some d -> exists n, n <= 1024 * 1024 * 4 /\ getcwd n = inl d.
Proof.
  revert len. induction fuel as [|fuel IH]; intros len Hf Hp Hl; [ lia | ]. cbn [getcwd_loop].
  replace (S fuel - 1)%nat with fuel in Hl by lia.
  assert (H1 : 1 <= 2 ^ Z.of_nat fuel) by (apply (Z.pow_le_mono_r 2 0); lia).
  assert (Hle : len <= 1024 * 1024 * 4) by nia.
  rewrite (bind_ret (GNUNET_malloc len) _ _ (GNUNET_malloc_ok len ltac:(unfold can_alloc, GNUNET_MAX_MALLOC_CHECKED; lia))).
  destruct (getcwd len) as [d|e] eqn:E.
  - exists (Some d). split; [ done | ]. intros ? [= <-]. by exists len.
  - destruct e; cbn [andb]; [ | by exists None ].
    destruct (Z.ltb_spec len (1024 * 1024 * 4)) as [Hlt|]; [ | by exists None ].
    destruct fuel as [|fuel]; [ cbn in Hl; lia | ].
    apply IH; [ lia | lia | ]. replace (S fuel - 1)%nat with fuel by lia.
    rewrite Nat2Z.inj_succ, Z.pow_succ_r in Hl by lia. lia.
Qed.

Lemma absolute_last s : absolute s -> exists c, list.last s = Some c.
Proof. destruct s as [|a s] using rev_ind; [ done | ]. intros _. exists a. apply last_snoc. Qed.

Lemma join_path_ok fm fil_ptr :
  absolute fm -> can_alloc (strlen fm + 1 + strlen fil_ptr + 1) ->
  exists f, join_path fm fil_ptr = Ret f /\ absolute f /\ strlen f + 1 <= strlen fm + 1 + strlen fil_ptr + 1.
Proof.
  intros Ha Hc. unfold join_path. rewrite (bind_ret _ _ _ (GNUNET_malloc_ok _ Hc)).
  destruct (absolute_last fm Ha) as (c & ->). cbn [of_option mbind outcome_bind].
  set (f := fm ++ _ ++ fil_ptr).
  assert (Hf : strlen f < strlen fm + 1 + strlen fil_ptr + 1).
  { unfold f, strlen. lengths. destruct (c =? SLASH); cbn [length DIR_SEPARATOR_STR]; lia. }
  exists f. split; [ by apply GNUNET_snprintf_ok | ]. split; [ | lia ].
  unfold f. destruct fm; [ done | exact Ha ].
Qed.

Lemma current_directory_ok : env_ok -> exists d, current_directory = Ret d /\ absolute d /\ strlen d <= 2 ^ 22.
Proof.
  intros He. unfold current_directory.
  destruct (getcwd_loop_returns 14 512) as (o & -> & Hd); [ lia | lia | done | ]. cbn [mbind outcome_bind].
  destruct o as [d|].
  - destruct (Hd d eq_refl) as (n & Hn & Hg). destruct (eo_cwd He n d Hg). exists d. split; [ done | ].
    split; [ done | lia ].
  - destruct (eo_pwd He) as (p & -> & Ha & Hl). exists p. split; [ | split; [ done | lia ] ].
    apply GNUNET_strdup_ok. unfold can_alloc, GNUNET_MAX_MALLOC_CHECKED. lia.
Qed.

Lemma filename_expand_absolute f :
  absolute f -> can_alloc (strlen f + 1) -> GNUNET_STRINGS_filename_expand (Some f) = Ret (Some f).
Proof.
  intros Ha Hc. cbn [GNUNET_STRINGS_filename_expand]. rewrite bool_decide_eq_true_2 by exact Ha.
  by rewrite (bind_ret _ _ _ (GNUNET_strdup_ok f Hc)).
Qed.

(** In a sensible environment expansion returns an absolute name, of bounded length. *)
Lemma filename_expand_returns fil :
  env_ok -> strlen fil <= 2 ^ 22 ->
  exists f, GNUNET_STRINGS_filename_expand (Some fil) = Ret (Some f) /\ absolute f /\ strlen f <= 2 ^ 24.
Proof.
  intros He Hl. cbn [GNUNET_STRINGS_filename_expand].
  assert (Hbig : forall n, n <= 2 ^ 24 -> can_alloc n) by (unfold can_alloc, GNUNET_MAX_MALLOC_CHECKED; lia).
  case_bool_decide as Ha.
  { exists fil. rewrite (bind_ret _ _ _ (GNUNET_strdup_ok fil ltac:(apply Hbig; lia))). split; [ done | ].
    split; [ done | lia ]. }
  case_bool_decide as Ht.
  - destruct (eo_home He) as (h & -> & Hh & Hhl).
    rewrite (bind_ret _ _ _ (GNUNET_strdup_ok h ltac:(apply Hbig; lia))).
    set (p := if bool_decide _ then _ else _).
    assert (Hp : strlen p <= 2 ^ 22).
    { unfold p, strlen in *. case_bool_decide; rewrite ?length_drop; lia. }
    destruct (join_path_ok h p Hh ltac:(apply Hbig; lia)) as (f & -> & Hf & Hfl).
    exists f. split; [ done | ]. split; [ done | lia ].
  - destruct (current_directory_ok He) as (d & -> & Hd & Hdl). cbn [mbind outcome_bind].
    destruct (join_path_ok d fil Hd ltac:(apply Hbig; lia)) as (f & -> & Hf & Hfl).
    exists f. split; [ done | ]. split; [ done | lia ].
Qed.

(** Strings from the environment are C strings. *)
Definition env_cstr : Prop :=
  (forall v e, getenv v = Some e -> is_cstr e) /\ (forall n d, getcwd n = inl d -> is_cstr d).

Lemma strdup_inv s t : GNUNET_strdup s = Ret t -> t = s.
Proof. unfold GNUNET_strdup. intros H1. inv_ret H1. by injection H1 as <-. Qed.

Lemma join_path_cstr fm p f : is_cstr fm -> is_cstr p -> join_path fm p = Ret f -> is_cstr f.
Proof.
  intros Hm Hp Hj. unfold join_path in Hj. inv_ret Hj. unfold GNUNET_snprintf in Hj. inv_ret Hj. injection Hj as <-.
  apply Forall_take. apply is_cstr_app. split; [ done | ]. apply is_cstr_app. split; [ | done ].
  destruct (_ =? SLASH); [ constructor | by repeat constructor ].
Qed.

Lemma getcwd_loop_cstr fuel len d : env_cstr -> getcwd_loop fuel len = Ret (Some d) -> is_cstr d.
Proof.
  intros [_ He]. revert len. induction fuel as [|fuel IH]; intros len; cbn [getcwd_loop]; [ done | ]. intros Hg. inv_ret Hg.
  destruct (getcwd len) as [b|e] eqn:E; [ injection Hg as ->; by eapply He | ]. inv_ret Hg; [ by eapply IH | done ].
Qed.

Lemma filename_expand_cstr fil f :
  env_cstr -> is_cstr fil -> GNUNET_STRINGS_filename_expand (Some fil) = Ret (Some f) -> is_cstr f.
Proof.
  intros He Hf Hx. cbn [GNUNET_STRINGS_filename_expand] in Hx. case_bool_decide.
  { inv_ret Hx. apply strdup_inv in Hret as ->. by injection Hx as <-. }
  case_bool_decide.
  - destruct (getenv (cs "HOME")) as [h|] eqn:Eh; [ | done ]. inv_ret Hx. apply strdup_inv in Hret as ->.
    injection Hx as <-. eapply join_path_cstr; [ exact (proj1 He _ _ Eh) | | done ]. case_bool_decide; by repeat apply Forall_drop.
  - inv_ret Hx. injection Hx as <-. eapply join_path_cstr; [ | done | done ]. unfold current_directory in Hret. inv_ret Hret.
    match type of Hret with (match ?o with _ => _ end) = _ => destruct o as [d|] end.
    + injection Hret as <-. by eapply getcwd_loop_cstr.
    + destruct (getenv (cs "PWD")) as [p|] eqn:Ep; apply strdup_inv in Hret as ->; [ exact (proj1 He _ _ Ep) | by repeat constructor ].
Qed.

End FileNames.

(** ** Base names *)

Lemma short_name_loop_spec fuel s : (length s <= fuel)%nat ->
  exists pre, s = pre ++ short_name_loop fuel s /\ (pre = [] \/ list.last pre = Some SLASH)
    /\ forall a b, short_name_loop fuel s = a ++ SLASH :: b -> b = [].
Proof.
  revert s. induction fuel as [|fuel IH]; intros s Hl; cbn [short_name_loop].
  - destruct s; [ | cbn in Hl; lia ]. exists []. split; [ done | ]. split; [ by left | ]. by intros [|] b.
  - destruct (strchr s SLASH) as [p|] eqn:E.
    + apply strchr_Some in E as (a & b & -> & Ha & ->).
      replace (drop (S (length a)) (a ++ SLASH :: b)) with b
        by (rewrite drop_app_ge, Nat.sub_succ_l, Nat.sub_diag by lia; done).
      destruct b as [|c b].
      * exists []. split; [ done | ]. split; [ by left | ]. intros a' b' Heq.
        destruct b' as [|x b'] using rev_ind; [ done | ]. exfalso. apply Ha.
        change (a' ++ SLASH :: b' ++ [x]) with (a' ++ (SLASH :: b') ++ [x]) in Heq.
        rewrite app_assoc in Heq. apply app_inj_tail in Heq as [-> _].
        apply elem_of_app. right. by left.
      * destruct (IH (c :: b)) as (pre & Heq & Hpre & Hs); [ lengths; lia | ].
        exists (a ++ SLASH :: pre). rewrite <- app_assoc. cbn [app]. rewrite <- Heq.
        split; [ done | ]. split; [ right | exact Hs ]. rewrite last_app_cons.
        destruct Hpre as [->|Hpre]; [ done | ]. by rewrite last_cons, Hpre.
    + exists []. split; [ done | ]. split; [ by left | ]. intros a b ->. exfalso.
      apply strchr_None in E. apply E, elem_of_app. right. by left.
Qed.

(** ** Addresses *)

Definition ipv4_text (a b c d port : Z) : str :=
  dec a ++ DOT :: dec b ++ DOT :: dec c ++ DOT :: dec d ++ 58 :: dec port.

Lemma sscanf_unsigned32 n r fmt :
  is_u32 n -> stops is_digit r -> sscanf (dec n ++ r) (Unsigned 32 :: fmt) = Number n :: sscanf r fmt.
Proof.
  intros Hn Hr. cbn [sscanf]. rewrite strtoull_dec by (done || int_lia). by rewrite Z.mod_small by int_lia.
Qed.

Lemma ipv4_word a b c d :
  is_u8 a -> is_u8 b -> is_u8 c -> is_u8 d ->
  be_encode 4 (u32 (u32 (Z.shiftl a 24) + u32 (Z.shiftl b 16) + u32 (Z.shiftl c 8) + d)) = [a; b; c; d].
Proof.
  intros Ha Hb Hc Hd. unfold be_encode. rewrite !Z.shiftl_mul_pow2, !Z.shiftr_div_pow2 by lia.
  change (8 * Z.of_nat 3) with 24. change (8 * Z.of_nat 2) with 16. change (8 * Z.of_nat 1) with 8.
  change (8 * Z.of_nat 0) with 0. change (2 ^ 0) with 1. change (2 ^ 24) with 16777216.
  change (2 ^ 16) with 65536. change (2 ^ 8) with 256. unfold_ints.
  change (2 ^ 8) with 256 in *. change (2 ^ 32) with 4294967296 in *.
  repeat f_equal; Z.div_mod_to_equations; lia.
Qed.

Section Spec.

(** Human-readable values are read back as they were meant: every
    relative time that is printed without rounding is parsed to exactly the
    same time (also 0 and forever), and a size that is printed is parsed to
    the size rounded down, by less than a fifth of it; neither conversion
    overflows, although both multiply without a check. *)
Theorem fancy_values_read_back :
  (forall d, is_rel d -> exists s,
     GNUNET_STRINGS_relative_time_to_string d false = Ret s
     /\ GNUNET_STRINGS_fancy_time_to_relative s = Ret (GNUNET_OK, Some d))
  /\ (forall n, is_u64 n -> exists s m,
     GNUNET_STRINGS_byte_size_fancy n = Ret s
     /\ GNUNET_STRINGS_fancy_size_to_bytes s = Ret (Some m)
     /\ m <= n /\ (m = n \/ 5 * (n - m) < m)).
Proof.
  split.
  - intros [n] Hn. unfold is_rel in Hn. cbn [rel_value] in Hn. unfold GNUNET_STRINGS_relative_time_to_string.
    cbn [rel_value]. destruct (Z.eqb_spec (rel_value GNUNET_TIME_UNIT_FOREVER_REL) n) as [<-|Hf].
    { exists (cs "forever"). by split. }
    destruct (Z.eqb_spec n 0) as [->|H0]; [ exists (cs "0 ms"); by split | ].
    pose proof (time_text_converts n Hn ltac:(int_lia)) as Ht.
    destruct (time_unit n false) as [d unit]. destruct Ht as (Hd & Hc & Hl).
    exists (dec d ++ cs " " ++ cs unit). split; [ apply GNUNET_snprintf_ok; lia | ].
    unfold GNUNET_STRINGS_fancy_time_to_relative. rewrite number_unit_not_forever by done. by rewrite Hc.
  - intros n Hn. unfold GNUNET_STRINGS_byte_size_fancy. pose proof (size_text_converts n Hn) as Hs.
    destruct (byte_size_unit n) as [d unit]. destruct Hs as (v & Hc & Hl & Hle & Hr).
    exists (dec d ++ cs " " ++ cs unit), (d * v).
    rewrite (bind_ret (GNUNET_malloc 32) _ _ (GNUNET_malloc_ok 32 ltac:(done))).
    split; [ apply GNUNET_snprintf_ok; lia | ]. by split.
Qed.

(** Strings that are packed into a buffer are found again: filling a
    buffer that is large enough writes nothing behind the strings and returns
    the number of bytes that a dry run without a buffer announces, and
    tokenizing returns the same number and sets the pointers to exactly the
    strings; a buffer that is too small aborts. *)
Theorem buffer_fill_tokenize (args : list str) (buf : list Z) :
  Forall is_cstr args -> Z.of_nat (length buf) < 2 ^ 32 ->
  let total := Z.of_nat (length (packed args)) in
  let size := Z.of_nat (length buf) in
  GNUNET_STRINGS_buffer_fill None 0 args = Ret (None, total)
  /\ (total <= size -> exists buf' starts,
        GNUNET_STRINGS_buffer_fill (Some buf) size args = Ret (Some buf', total)
        /\ drop (length (packed args)) buf' = drop (length (packed args)) buf
        /\ GNUNET_STRINGS_buffer_tokenize buf' size (length args) = Ret (total, starts)
        /\ Forall2 (fun off s => c_str (drop (Z.to_nat off) buf') = Ret s) starts args)
  /\ (size < total -> GNUNET_STRINGS_buffer_fill (Some buf) size args = AssertFailed).
Proof.
  intros Hc Hb total size. split; [ | split ].
  - apply (fill_strings_dry args 0).
  - intros Hle. exists (packed args ++ drop (length (packed args)) buf), (offsets 0 args).
    pose proof (fill_strings_ok args [] buf size ltac:(lia) eq_refl) as Hf. cbn [app length] in Hf.
    split; [ exact Hf | ]. split; [ apply drop_app_length | ]. split; [ | apply (offsets_point args []); done ].
    apply (tokenize_loop_ok args [] _ size []); [ done | | done ].
    cbn [app]. rewrite length_app, length_drop. lia.
  - intros Hlt. apply (fill_strings_aborts args [] buf); [ done | exact Hlt ].
Qed.

Lemma buffer_fill_tokenize_witness :
  exists buf' starts, GNUNET_STRINGS_buffer_fill (Some (replicate 8 7)) 8 [cs "a"; []; cs "bc"] = Ret (Some buf', 6)
    /\ GNUNET_STRINGS_buffer_tokenize buf' 8 3 = Ret (6, starts).
Proof.
  destruct (buffer_fill_tokenize [cs "a"; []; cs "bc"] (replicate 8 7)) as (_ & H & _).
  - repeat constructor; done.
  - done.
  - destruct (H ltac:(vm_compute; congruence)) as (b & st & H1 & _ & H2 & _). exists b, st.
    split; [ exact H1 | exact H2 ].
Defined.

(** In an environment whose home and current directory are absolute, expanding a file
    name of up to 1 MB returns an absolute name, and expanding that one again changes
    nothing: the search for a buffer for [getcwd] ends, the computed size of the result is
    enough, and a tilde and a relative name are resolved once and for all. *)
Theorem filename_expand_idempotent `{Environment} (fil : str) :
  env_ok -> strlen fil <= 2 ^ 20 ->
  exists f, GNUNET_STRINGS_filename_expand (Some fil) = Ret (Some f)
    /\ absolute f /\ GNUNET_STRINGS_filename_expand (Some f) = Ret (Some f).
Proof.
  intros He Hl. destruct (filename_expand_returns fil He ltac:(lia)) as (f & Hf & Ha & Hfl).
  exists f. split; [ done | ]. split; [ done | ]. apply filename_expand_absolute; [ done | ].
  unfold can_alloc, GNUNET_MAX_MALLOC_CHECKED. lia.
Qed.

Definition sample_environment : Environment :=
  {| getenv := fun v => if streq v (cs "HOME") then Some (cs "/home/u")
       else if streq v (cs "PWD") then Some (cs "/tmp") else None;
     getcwd := fun n => if n <? 600 then inr true else inl (cs "/tmp");
     stat := fun _ => None |}.

Lemma sample_env_ok : @env_ok sample_environment.
Proof.
  split; [ by exists (cs "/home/u") | by exists (cs "/tmp") | ].
  intros n d. cbn. destruct (Z.ltb_spec n 600); [ done | ]. intros [= <-]. split; [ done | ]. change (4 < n). lia.
Qed.

Lemma sample_getenv v e : @getenv sample_environment v = Some e -> e = cs "/home/u" \/ e = cs "/tmp".
Proof.
  unfold getenv, sample_environment. destruct (streq v (cs "HOME")); [ intros [= <-]; by left | ].
  destruct (streq v (cs "PWD")); [ intros [= <-]; by right | done ].
Qed.

Lemma sample_getcwd n d : @getcwd sample_environment n = inl d -> d = cs "/tmp".
Proof. unfold getcwd, sample_environment. destruct (n <? 600); [ done | by intros [= <-] ]. Qed.

Lemma filename_expand_idempotent_witness :
  exists f, @GNUNET_STRINGS_filename_expand sample_environment (Some (cs "~/x")) = Ret (Some f) /\ absolute f.
Proof.
  destruct (@filename_expand_idempotent sample_environment (cs "~/x")) as (f & H1 & H2 & _).
  - exact sample_env_ok.
  - vm_compute. congruence.
  - exists f. by split.
Defined.

(** An empty [HOME] makes the expansion of a tilde read the character before the buffer. *)
Lemma filename_expand_empty_home `{Environment} fil :
  getenv (cs "HOME") = Some [] -> strlen fil <= 2 ^ 20 ->
  GNUNET_STRINGS_filename_expand (Some (126 :: fil)) = Undefined.
Proof.
  intros Hh Hl. cbn [GNUNET_STRINGS_filename_expand]. rewrite bool_decide_eq_false_2 by done.
  rewrite bool_decide_eq_true_2 by done. rewrite Hh, (bind_ret (GNUNET_strdup []) []) by reflexivity.
  set (p := if bool_decide _ then _ else _). unfold join_path.
  assert (Hp : strlen p <= 2 ^ 20) by (unfold p, strlen in *; case_bool_decide; rewrite ?length_drop; cbn [length]; lia).
  rewrite (bind_ret (GNUNET_malloc _) _ _ (GNUNET_malloc_ok (strlen [] + 1 + strlen p + 1)
    ltac:(unfold can_alloc, GNUNET_MAX_MALLOC_CHECKED, strlen in *; cbn [length]; lia))). done.
Qed.

(** The base name of a path that ends with a separator keeps the separator. *)
Example short_name_trailing_slash : GNUNET_STRINGS_get_short_name (cs "a/b/") = cs "b/".
Proof. reflexivity. Qed.

Lemma get_short_name_spec (filename : str) :
  exists pre, filename = pre ++ GNUNET_STRINGS_get_short_name filename
    /\ (pre = [] \/ list.last pre = Some SLASH)
    /\ forall a b, GNUNET_STRINGS_get_short_name filename = a ++ SLASH :: b -> b = [].
Proof. by apply short_name_loop_spec. Qed.

Lemma to_address_ipv4_text a b c d port :
  is_u8 a -> is_u8 b -> is_u8 c -> is_u8 d -> is_u16 port -> 9 <= strlen (ipv4_text a b c d port) ->
  GNUNET_STRINGS_to_address_ipv4 (ipv4_text a b c d port) (strlen (ipv4_text a b c d port))
  = Some (mk_sockaddr_in (be_encode 2 port) [a; b; c; d]).
Proof.
  intros Ha Hb Hc Hd Hp Hl. unfold GNUNET_STRINGS_to_address_ipv4.
  destruct (Z.ltb_spec (strlen (ipv4_text a b c d port)) 9); [ lia | ]. unfold ipv4_text, ipv4_format.
  rewrite sscanf_unsigned32 by (int_lia || by apply stops_cons). cbn [sscanf]. rewrite Z.eqb_refl.
  rewrite strtoull_dec by (int_lia || by apply stops_cons). rewrite Z.eqb_refl.
  rewrite strtoull_dec by (int_lia || by apply stops_cons). rewrite Z.eqb_refl.
  rewrite strtoull_dec by (int_lia || by apply stops_cons). rewrite Z.eqb_refl.
  rewrite <- (app_nil_r (dec port)), strtoull_dec by (int_lia || by apply stops_nil).
  rewrite !Z.mod_small by int_lia.
  repeat match goal with |- context [255 <? ?x] => destruct (Z.ltb_spec 255 x); [ int_lia | ] end.
  cbn [orb]. destruct (Z.ltb_spec 65535 port); [ int_lia | ]. by rewrite ipv4_word.
Qed.

(** [TB] is 1000^3 * 1024 bytes, so 1 TB is more than 1000 GB. *)
Example fancy_size_terabyte :
  GNUNET_STRINGS_fancy_size_to_bytes (cs "1 TB") = Ret (Some 1024000000000)
  /\ GNUNET_STRINGS_fancy_size_to_bytes (cs "1000 GB") = Ret (Some 1000000000000).
Proof. split; reflexivity. Qed.

(** A URI without a path is not recognised as one. *)
Example parse_uri_empty_path : GNUNET_STRINGS_parse_uri (cs "file://") = Ret None.
Proof. reflexivity. Qed.

(** A text that is exactly as long as the buffer loses its last character unnoticed. *)
Lemma snprintf_truncates (c : Z) (s : str) : GNUNET_snprintf (strlen (s ++ [c])) (s ++ [c]) = Ret s.
Proof.
  unfold GNUNET_snprintf, strlen. rewrite gnunet_assert_true by lia. cbn [mbind outcome_bind].
  lengths. f_equal. replace (Z.to_nat _) with (length s) by lia. apply take_app_length.
Qed.

(** [stat] follows links, so that a check for a link never succeeds. *)
Lemma check_filename_never_link `{Environment} (filename : str) :
  (forall f st, stat f = Some st -> S_ISLNK st = false) ->
  GNUNET_STRINGS_check_filename (Some filename) GNUNET_STRINGS_CHECK_IS_LINK <> Ret GNUNET_YES.
Proof.
  intros Hst. cbn. destruct filename as [|c f]; [ done | ]. unfold check_status.
  destruct (stat (c :: f)) as [st|] eqn:E; cbn; [ | done ]. by rewrite (Hst _ _ E).
Qed.

End Spec.
