(* ===== verification/Configuration.v ===== *)
(** * Configuration: [src/util/configuration.c]

    A configuration is a list of sections, each with a list of entries; the latest ones
    come first, names are compared without regard to case.  The linked lists are lists, a
    pointer to a section or an entry is its position.  Reading and writing of files goes
    through the type class [Disk] (the functions of [src/util/disk.c], which are wrappers
    of system calls); the process environment is the class [Environment] of [Strings].

    [GNUNET_CONFIGURATION_parse] and [_deserialize] call each other for [@INLINE@] lines,
    and [_get_value_filename] and [_expand_dollar] call each other for options that refer
    to other options.  Neither recursion is bounded by the code; here the depth is bounded
    by fuel, and a recursion that is deeper than its fuel is [Undefined] (the stack is
    exhausted). *)

From Stdlib Require Import ZArith Lia String.
From stdpp Require Import base list numbers.
From S2P Require Import Prelude Time MetaData CString Strings.
Local Open Scope Z_scope.

(** ** Data *)

Record ConfigEntry := mk_entry { key : str; val : option str }.

Record ConfigSection := mk_section { name : str; entries : list ConfigEntry }.

Record GNUNET_CONFIGURATION_Handle := mk_cfg { sections : list ConfigSection; dirty : Z }.

Abbreviation Handle := GNUNET_CONFIGURATION_Handle.

Definition set_entries (sec : ConfigSection) (l : list ConfigEntry) : ConfigSection :=
  mk_section (name sec) l.

Definition set_sections (cfg : Handle) (l : list ConfigSection) : Handle := mk_cfg l (dirty cfg).

Definition set_dirty (cfg : Handle) (d : Z) : Handle := mk_cfg (sections cfg) d.

Definition GNUNET_CONFIGURATION_create : Handle := mk_cfg [] GNUNET_NO.

Definition GNUNET_CONFIGURATION_is_dirty (cfg : Handle) : Z := dirty cfg.

(** ** Looking up and changing options *)

Definition findSection (cfg : Handle) (section : str) : option (nat * ConfigSection) :=
  list_find (fun pos => strcaseeq section (name pos) = true) (sections cfg).

(** The positions of section and entry, and the entry *)
Definition findEntry (cfg : Handle) (section option_ : str) : option (nat * nat * ConfigEntry) :=
  match findSection cfg section with
  | None => None
  | Some (i, sec) =>
      match list_find (fun pos => strcaseeq option_ (key pos) = true) (entries sec) with
      | None => None
      | Some (j, e) => Some (i, j, e)
      end
  end.

(** [e->val = nv] for the entry at the positions [i] and [j] *)
Definition store_value (cfg : Handle) (i j : nat) (nv : str) : Handle :=
  set_sections cfg (alter (fun sec => set_entries sec
    (alter (fun e => mk_entry (key e) (Some nv)) j (entries sec))) i (sections cfg)).

Definition GNUNET_CONFIGURATION_set_value_string (cfg : Handle) (section option_ : str)
  (value : option str) : outcome Handle :=
  match findEntry cfg section option_ with
  | Some (i, j, e) =>
      nv ← GNUNET_xstrdup_ value;
      Ret (store_value cfg i j nv)
  | None =>
      '(cfg, i) ← match findSection cfg section with
                  | Some (i, _) => Ret (cfg, i)
                  | None =>
                      n ← GNUNET_strdup section;
                      Ret (set_sections cfg (mk_section n [] :: sections cfg), 0%nat)
                  end;
      k ← GNUNET_strdup option_;
      v ← GNUNET_xstrdup_ value;
      Ret (set_sections cfg (alter (fun sec => set_entries sec (mk_entry k (Some v) :: entries sec))
             i (sections cfg)))
  end.

Definition GNUNET_CONFIGURATION_set_value_number (cfg : Handle) (section option_ : str) (number : Z)
  : outcome Handle :=
  s ← GNUNET_snprintf 64 (dec number);
  GNUNET_CONFIGURATION_set_value_string cfg section option_ (Some s).

(** [Some n] is [GNUNET_OK]; [sscanf] of a NULL string is not defined *)
Definition GNUNET_CONFIGURATION_get_value_number (cfg : Handle) (section option_ : str)
  : outcome (option Z) :=
  match findEntry cfg section option_ with
  | None => Ret None
  | Some (_, _, e) =>
      v ← of_option (val e);
      match sscanf v [Unsigned 64] with
      | [Number n] => Ret (Some n)
      | _ => Ret None
      end
  end.

(** The result and [*time] ([None]: not written, or written with an undetermined value) *)
Definition GNUNET_CONFIGURATION_get_value_time (cfg : Handle) (section option_ : str)
  : outcome (Z * option GNUNET_TIME_Relative) :=
  match findEntry cfg section option_ with
  | None => Ret (GNUNET_SYSERR, None)
  | Some (_, _, e) =>
      v ← of_option (val e);
      GNUNET_STRINGS_fancy_time_to_relative v
  end.

Definition GNUNET_CONFIGURATION_get_value_size (cfg : Handle) (section option_ : str)
  : outcome (option Z) :=
  match findEntry cfg section option_ with
  | None => Ret None
  | Some (_, _, e) =>
      match val e with
      | None => AssertFailed
      | Some v => GNUNET_STRINGS_fancy_size_to_bytes v
      end
  end.

(** [Some value] is [GNUNET_OK] *)
Definition GNUNET_CONFIGURATION_get_value_string (cfg : Handle) (section option_ : str)
  : outcome (option str) :=
  match findEntry cfg section option_ with
  | None => Ret None
  | Some (_, _, e) =>
      match val e with
      | None => Ret None
      | Some v => v ← GNUNET_strdup v; Ret (Some v)
      end
  end.

(** The position of the choice *)
Fixpoint find_choice (choices : list str) (v : str) (i : nat) : option nat :=
  match choices with
  | [] => None
  | c :: choices' => if strcaseeq c v then Some i else find_choice choices' v (S i)
  end.

Definition GNUNET_CONFIGURATION_get_value_choice (cfg : Handle) (section option_ : str)
  (choices : list str) : outcome (option nat) :=
  match findEntry cfg section option_ with
  | None => Ret None
  | Some (_, _, e) =>
      match choices with
      | [] => Ret None
      | _ =>
          v ← of_option (val e);
          Ret (find_choice choices v 0)
      end
  end.

Definition GNUNET_CONFIGURATION_get_value_yesno (cfg : Handle) (section option_ : str) : outcome Z :=
  c ← GNUNET_CONFIGURATION_get_value_choice cfg section option_ [cs "YES"; cs "NO"];
  match c with
  | None => Ret GNUNET_SYSERR
  | Some i => if (i =? 0)%nat then Ret GNUNET_YES else Ret GNUNET_NO
  end.

Definition GNUNET_CONFIGURATION_have_value (cfg : Handle) (section option_ : str) : Z :=
  match findEntry cfg section option_ with
  | None => GNUNET_NO
  | Some (_, _, e) => match val e with Some _ => GNUNET_YES | None => GNUNET_NO end
  end.

(** ** Sections and iteration *)

(** The list after the removal and whether an entry was freed *)
Fixpoint remove_first_section (section : str) (l : list ConfigSection) : list ConfigSection * bool :=
  match l with
  | [] => ([], false)
  | spos :: l' =>
      if strcaseeq section (name spos)
      then (l', match entries spos with [] => false | _ => true end)
      else let '(r, d) := remove_first_section section l' in (spos :: r, d)
  end.

Definition GNUNET_CONFIGURATION_remove_section (cfg : Handle) (section : str) : Handle :=
  let '(l, freed) := remove_first_section section (sections cfg) in
  mk_cfg l (if freed then GNUNET_YES else dirty cfg).

(** The loop of [GNUNET_CONFIGURATION_destroy]: what is left of the handle *)
Fixpoint GNUNET_CONFIGURATION_destroy (fuel : nat) (cfg : Handle) : outcome Handle :=
  match sections cfg with
  | [] => Ret cfg
  | sec :: _ =>
      match fuel with
      | O => Undefined
      | S fuel' => GNUNET_CONFIGURATION_destroy fuel' (GNUNET_CONFIGURATION_remove_section cfg (name sec))
      end
  end.

Section Iterate.
Context {S : Type}.

(** A callback of type [GNUNET_CONFIGURATION_Iterator], with its closure as state *)
Definition Iterator : Type := S -> str -> str -> option str -> outcome S.

Fixpoint iterate_entries (iter : Iterator) (section : str) (s : S) (l : list ConfigEntry)
  : outcome S :=
  match l with
  | [] => Ret s
  | epos :: l' =>
      s ← iter s section (key epos) (val epos);
      iterate_entries iter section s l'
  end.

Fixpoint iterate_all (iter : Iterator) (s : S) (l : list ConfigSection) : outcome S :=
  match l with
  | [] => Ret s
  | spos :: l' =>
      s ← iterate_entries iter (name spos) s (entries spos);
      iterate_all iter s l'
  end.

Definition GNUNET_CONFIGURATION_iterate (cfg : Handle) (iter : Iterator) (s : S) : outcome S :=
  iterate_all iter s (sections cfg).

Definition GNUNET_CONFIGURATION_iterate_section_values (cfg : Handle) (section : str)
  (iter : Iterator) (s : S) : outcome S :=
  match list_find (fun spos => strcaseeq (name spos) section = true) (sections cfg) with
  | None => Ret s
  | Some (_, spos) => iterate_entries iter (name spos) s (entries spos)
  end.

Fixpoint iterate_sections_loop (iter : S -> str -> outcome S) (s : S) (l : list ConfigSection)
  : outcome S :=
  match l with
  | [] => Ret s
  | spos :: l' => s ← iter s (name spos); iterate_sections_loop iter s l'
  end.

Definition GNUNET_CONFIGURATION_iterate_sections (cfg : Handle) (iter : S -> str -> outcome S)
  (s : S) : outcome S :=
  iterate_sections_loop iter s (sections cfg).

End Iterate.

Definition copy_entry (dst : Handle) (section option_ : str) (value : option str) : outcome Handle :=
  GNUNET_CONFIGURATION_set_value_string dst section option_ value.

Definition GNUNET_CONFIGURATION_dup (cfg : Handle) : outcome Handle :=
  GNUNET_CONFIGURATION_iterate cfg copy_entry GNUNET_CONFIGURATION_create.

(** [cls] is [cfgDiff]; [strcmp] of a NULL string is not defined *)
Definition compareEntries (cfgDefault : Handle) (cfgDiff : Handle) (section option_ : str)
  (value : option str) : outcome Handle :=
  same ← match findEntry cfgDefault section option_ with
         | None => Ret false
         | Some (_, _, entNew) =>
             a ← of_option (val entNew);
             b ← of_option value;
             Ret (streq a b)
         end;
  if (same : bool) then Ret cfgDiff
  else GNUNET_CONFIGURATION_set_value_string cfgDiff section option_ value.

(** ** Serialization *)

(** The loop over [strstr (pos, "\n")] *)
Fixpoint count_newlines (s : str) : Z :=
  match s with
  | [] => 0
  | c :: s' => (if c =? LF then 1 else 0) + count_newlines s'
  end.

(** Pass 1 *)
Fixpoint entries_size (l : list ConfigEntry) (m_size : Z) : Z :=
  match l with
  | [] => m_size
  | ent :: l' =>
      entries_size l'
        (match val ent with
         | None => m_size
         | Some v => m_size + count_newlines v + (strlen (key ent) + strlen v + 4)
         end)
  end.

Fixpoint sections_size (l : list ConfigSection) (m_size : Z) : Z :=
  match l with
  | [] => m_size
  | sec :: l' => sections_size l' (entries_size (entries sec) (m_size + (strlen (name sec) + 3)) + 1)
  end.

(** [while (NULL != (pos = strstr (val, "\n")))] in pass 2: the string behind the newline
    is moved by one character, without its NUL *)
Fixpoint escape_newlines (fuel : nat) (buf : list Z) : outcome (list Z) :=
  match fuel with
  | O => Undefined
  | S fuel' =>
      s ← c_str buf;
      match strchr s LF with
      | None => Ret buf
      | Some pos =>
          rest ← mem_read buf (pos + 1) (length s - (pos + 1));
          buf ← mem_write buf (pos + 2) rest;
          buf ← mem_write buf pos [BACKSLASH; 110];
          escape_newlines fuel' buf
      end
  end.

(** One [key = val] line of pass 2, with the text of [ent->val] escaped *)
Definition write_entry (mem : list Z) (c_size : nat) (ent : ConfigEntry) : outcome (list Z * nat) :=
  match val ent with
  | None => Ret (mem, c_size)
  | Some v =>
      buf ← GNUNET_malloc (strlen v * 2 + 1);
      buf ← mem_write buf 0 (v ++ [0]);
      buf ← escape_newlines (S (length v)) buf;
      escaped ← c_str buf;
      cbuf ← GNUNET_asprintf (key ent ++ cs " = " ++ escaped ++ [LF]);
      mem ← mem_write mem c_size cbuf;
      Ret (mem, (c_size + length cbuf)%nat)
  end.

Fixpoint write_entries (mem : list Z) (c_size : nat) (l : list ConfigEntry) : outcome (list Z * nat) :=
  match l with
  | [] => Ret (mem, c_size)
  | ent :: l' => '(mem, c_size) ← write_entry mem c_size ent; write_entries mem c_size l'
  end.

Fixpoint write_sections (mem : list Z) (c_size : nat) (l : list ConfigSection) : outcome (list Z * nat) :=
  match l with
  | [] => Ret (mem, c_size)
  | sec :: l' =>
      cbuf ← GNUNET_asprintf (cs "[" ++ name sec ++ cs "]" ++ [LF]);
      _ ← gnunet_assert (0 <? strlen cbuf);
      mem ← mem_write mem c_size cbuf;
      '(mem, c_size) ← write_entries mem (c_size + length cbuf) (entries sec);
      mem ← mem_write mem c_size [LF];
      write_sections mem (c_size + 1) l'
  end.

(** The block of memory; its length is [*size] *)
Definition GNUNET_CONFIGURATION_serialize (cfg : Handle) : outcome (list Z) :=
  let m_size := sections_size (sections cfg) 0 in
  mem ← GNUNET_malloc m_size;
  '(mem, c_size) ← write_sections mem 0 (sections cfg);
  _ ← gnunet_assert (Z.of_nat c_size =? m_size);
  Ret mem.

(** ** Deserialization *)

(** The fgets-like part of the loop: the line, up to and with its newline, of the text that
    is left, and the number of bytes that it takes.  A NUL ends the line; without a newline
    the whole chunk of up to 255 bytes is consumed. *)
Definition read_line (rest : list Z) : str * nat :=
  let chunk := take 255 rest in
  let line := upto_nul chunk in
  match strchr line LF with
  | Some pos => (take (pos + 1) line, (pos + 1)%nat)
  | None => (line, length chunk)
  end.

Definition tabs_to_spaces (line : str) : str := (fun c => if c =? TAB then SPACE else c) <$> line.

Definition is_comment (line : str) : bool :=
  match line with
  | c :: _ => (c =? LF) || (c =? 35) || (c =? 37) || (c =? CR)
  | [] => false
  end.

Definition is_empty_line (line : str) : bool :=
  forallb (fun c => (c =? SPACE) || (c =? LF) || (c =? CR)) line.

(** The quotes of a value: the text between the first two, if it starts with one *)
Definition remove_quotes (value : str) : str :=
  match value with
  | c :: rest =>
      if c =? QUOTE
      then match strchr rest QUOTE with Some i => take i rest | None => value end
      else value
  | [] => value
  end.

(** What a line asks for *)
Inductive line_action :=
  | Skip                             (* comment or empty line *)
  | Inline (filename : str)          (* @INLINE@ filename *)
  | Section_ (section : str)         (* [section] *)
  | Assign (tag value : str)         (* tag = value *)
  | SyntaxError.

Definition inline_format : list directive := lits "@INLINE@" ++ [Space; Scanset 191 [LF]].
Definition section_format : list directive := [Lit 91; Scanset 99 [93]; Lit 93].
Definition assign_format : list directive :=
  [Space; Scanset 63 (cs "= "); Space; Lit 61; Space; Scanset 191 [LF]].
Definition empty_format : list directive :=
  [Space; Scanset 63 (cs "= "); Space; Lit 61; Lit 91; Lit 94; Space; Lit 93].

Definition parse_line (line : str) : line_action :=
  let line := tabs_to_spaces line in
  if is_comment line then Skip
  else if is_empty_line line then Skip
  else
    let line := strip_end isspace line in
    match sscanf line inline_format with
    | [Word value] => Inline value
    | _ =>
        match sscanf line section_format with
        | [Word value] => Section_ value
        | _ =>
            match sscanf line assign_format with
            | [Word tag; Word value] => Assign tag (remove_quotes (strip_end isspace value))
            | _ =>
                match sscanf line empty_format with
                | [Word tag] => Assign tag []
                | _ => SyntaxError
                end
            end
        end
    end.

Section Deserialize.
(** [GNUNET_CONFIGURATION_parse] *)
Context (parse : Handle -> str -> outcome (Handle * Z)).

(** The loop over the text that is left, with [section] and [ret]; what remains unread when
    it ends is returned too.  Every round takes at least one byte, so that the length of
    the text is enough fuel. *)
Fixpoint deserialize_lines (fuel : nat) (allow_inline : bool) (cfg : Handle) (section : str) (ret : Z)
  (rest : list Z) : outcome (Handle * Z * list Z) :=
  match rest with
  | [] => Ret (cfg, ret, [])
  | _ =>
      match fuel with
      | O => Undefined
      | S fuel' =>
          let '(line, n) := read_line rest in
          let rest := drop n rest in
          match parse_line line with
          | Skip => deserialize_lines fuel' allow_inline cfg section ret rest
          | Inline value =>
              if allow_inline then
                '(cfg, r) ← parse cfg value;
                deserialize_lines fuel' allow_inline cfg section
                  (if r =? GNUNET_OK then ret else GNUNET_SYSERR) rest
              else deserialize_lines fuel' allow_inline cfg section ret rest
          | Section_ value =>
              section ← GNUNET_strdup value;
              deserialize_lines fuel' allow_inline cfg section ret rest
          | Assign tag value =>
              cfg ← GNUNET_CONFIGURATION_set_value_string cfg section tag (Some value);
              deserialize_lines fuel' allow_inline cfg section ret rest
          | SyntaxError => Ret (cfg, GNUNET_SYSERR, rest)
          end
      end
  end.

(** [GNUNET_assert (r_bytes == size)] *)
Definition GNUNET_CONFIGURATION_deserialize (cfg : Handle) (mem : list Z) (allow_inline : bool)
  : outcome (Handle * Z) :=
  '(cfg, ret, rest) ← deserialize_lines (length mem) allow_inline cfg [] GNUNET_OK mem;
  _ ← gnunet_assert (bool_decide (rest = []));
  Ret (cfg, ret).

End Deserialize.

(** ** Files *)

(** The file store as [src/util/disk.c] presents it; the names are expanded.  A file that
    has been written completely has the size of what was written and reads back. *)
Class Disk := {
  disk : Type;
  GNUNET_DISK_file_size : disk -> str -> option Z;
  GNUNET_DISK_fn_read : disk -> str -> Z -> option (list Z);
  GNUNET_DISK_directory_create_for_file : disk -> str -> disk * Z;
  GNUNET_DISK_fn_write : disk -> str -> list Z -> disk * Z;
  (* [opendir] and [readdir] of a directory: the names, or [None] if it cannot be opened *)
  READDIR : disk -> str -> option (list str);
  fn_write_read : forall d f b d',
    GNUNET_DISK_fn_write d f b = (d', Z.of_nat (length b)) ->
    GNUNET_DISK_file_size d' f = Some (Z.of_nat (length b))
    /\ GNUNET_DISK_fn_read d' f (Z.of_nat (length b)) = Some b
}.

Definition SIZE_MAX : Z := 2 ^ 64 - 1.

Section Files.
Context `{Environment} `{Disk}.

(** [fuel] bounds the depth of [@INLINE@] lines *)
Fixpoint GNUNET_CONFIGURATION_parse (fuel : nat) (d : disk) (cfg : Handle) (filename : str)
  : outcome (Handle * Z) :=
  match fuel with
  | O => Undefined
  | S fuel' =>
      fn ← GNUNET_STRINGS_filename_expand (Some filename);
      match fn with
      | None => Ret (cfg, GNUNET_SYSERR)
      | Some fn =>
          let dirty_ := dirty cfg in
          match GNUNET_DISK_file_size d fn with
          | None => Ret (cfg, GNUNET_SYSERR)
          | Some fs =>
              if SIZE_MAX <? fs then Ret (cfg, GNUNET_SYSERR)
              else
                _ ← GNUNET_malloc fs;
                match GNUNET_DISK_fn_read d fn fs with
                | None => Ret (cfg, GNUNET_SYSERR)
                | Some mem =>
                    if negb (fs =? Z.of_nat (length mem)) then Ret (cfg, GNUNET_SYSERR)
                    else
                      '(cfg, ret) ← GNUNET_CONFIGURATION_deserialize
                                      (GNUNET_CONFIGURATION_parse fuel' d) cfg mem true;
                      Ret (set_dirty cfg dirty_, ret)
                end
          end
      end
  end.

Definition GNUNET_CONFIGURATION_write (d : disk) (cfg : Handle) (filename : str)
  : outcome (disk * Handle * Z) :=
  fn ← GNUNET_STRINGS_filename_expand (Some filename);
  match fn with
  | None => Ret (d, cfg, GNUNET_SYSERR)
  | Some fn =>
      let '(d, r) := GNUNET_DISK_directory_create_for_file d fn in
      if negb (r =? GNUNET_OK) then Ret (d, cfg, GNUNET_SYSERR)
      else
        cfg_buf ← GNUNET_CONFIGURATION_serialize cfg;
        let '(d, n) := GNUNET_DISK_fn_write d fn cfg_buf in
        if negb (Z.of_nat (length cfg_buf) =? n)
        then Ret (d, set_dirty cfg GNUNET_SYSERR, GNUNET_SYSERR)
        else Ret (d, set_dirty cfg GNUNET_NO, GNUNET_OK)
  end.

Definition GNUNET_CONFIGURATION_write_diffs (d : disk) (cfgDefault cfgNew : Handle) (filename : str)
  : outcome (disk * Z) :=
  cfgDiff ← GNUNET_CONFIGURATION_iterate cfgNew (compareEntries cfgDefault) GNUNET_CONFIGURATION_create;
  '(d, cfgDiff, ret) ← GNUNET_CONFIGURATION_write d cfgDiff filename;
  _ ← GNUNET_CONFIGURATION_destroy (length (sections cfgDiff)) cfgDiff;
  Ret (d, ret).

(** ** File names in options *)

(** The position of the first [/], [\] or NUL *)
Fixpoint dollar_end (orig : list Z) : outcome nat :=
  match orig with
  | [] => Undefined
  | c :: orig' =>
      if (c =? SLASH) || (c =? BACKSLASH) || (c =? 0) then Ret 0%nat
      else i ← dollar_end orig'; Ret (S i)
  end.

(** [orig] is the buffer with the string and its NUL; the result is one too, unless the
    NUL has been overwritten. *)
Definition expand_dollar_with (get_paths : str -> outcome (option str)) (orig : list Z)
  : outcome (list Z) :=
  c ← of_option (head orig);
  if negb (c =? DOLLAR) then Ret orig
  else
    i ← dollar_end orig;
    at_i ← of_option (orig !! i);
    post ← (if at_i =? 0 then Ret [] else c_str (drop (i + 1) orig));
    let var := take (i - 1) (drop 1 orig) in
    p ← get_paths var;
    prefix ← match p with
             | Some prefix => Ret (Some prefix)
             | None =>
                 match getenv var with
                 | None => Ret None
                 | Some env => e ← GNUNET_strdup env; Ret (Some e)
                 end
             end;
    match prefix with
    | None => mem_write orig i [SLASH]
    | Some prefix =>
        let sep := if bool_decide (strlen prefix = 0)
                      || (negb (bool_decide (list.last prefix = Some SLASH)) && (0 <? strlen post))
                   then DIR_SEPARATOR_STR else [] in
        result ← alloc_str (strlen prefix + strlen post + 2) (prefix ++ sep ++ post);
        Ret (result ++ [0])
    end.

(** [fuel] bounds the depth of options that refer to other options *)
Fixpoint GNUNET_CONFIGURATION_get_value_filename (fuel : nat) (cfg : Handle) (section option_ : str)
  : outcome (option str) :=
  match fuel with
  | O => Undefined
  | S fuel' =>
      tmp ← GNUNET_CONFIGURATION_get_value_string cfg section option_;
      match tmp with
      | None => Ret None
      | Some tmp =>
          tmp ← expand_dollar_with (GNUNET_CONFIGURATION_get_value_filename fuel' cfg (cs "PATHS")) (tmp ++ [0]);
          tmp ← c_str tmp;
          GNUNET_STRINGS_filename_expand (Some tmp)
      end
  end.

Definition GNUNET_CONFIGURATION_expand_dollar (fuel : nat) (cfg : Handle) (orig : list Z)
  : outcome (list Z) :=
  expand_dollar_with (GNUNET_CONFIGURATION_get_value_filename fuel cfg (cs "PATHS")) orig.

End Files.

(** ** Lists of file names *)

(** The inner loop of [_iterate_value_filenames] from [end] on, where [\\] and [\ ] are
    unescaped in place: the characters up to the end of the name, and what follows from
    there *)
Fixpoint name_end (s : str) : str * str :=
  match s with
  | [] => ([], [])
  | c :: s' =>
      if c =? SPACE then ([], s)
      else
        match s' with
        | d :: s'' =>
            if (c =? BACKSLASH) && ((d =? BACKSLASH) || (d =? SPACE))
            then let '(t, r) := name_end s'' in (d :: t, r)
            else let '(t, r) := name_end s' in (c :: t, r)
        | [] => ([c], [])
        end
  end.

Section Filenames.
Context {S : Type}.

(** A callback of type [GNUNET_FileNameCallback] *)
Definition FileNameCallback : Type := S -> str -> S * Z.

(** The outer loop from [pos] on, with [ret] names so far *)
Fixpoint filenames_loop (fuel : nat) (cb : option FileNameCallback) (s : S) (ret : Z) (pos : str)
  : outcome (S * Z) :=
  match fuel with
  | O => Undefined
  | Datatypes.S fuel' =>
      match drop_while (fun c => c =? SPACE) pos with
      | [] => Ret (s, ret)
      | c :: rest =>
          let '(t, after) := name_end rest in
          let ret := ret + 1 in
          let '(s, r) := match cb with Some cb => cb s (c :: t) | None => (s, GNUNET_OK) end in
          if negb (r =? GNUNET_OK) then Ret (s, GNUNET_SYSERR)
          else
            match after with
            | [] => Ret (s, ret)
            | _ :: pos => filenames_loop fuel' cb s ret pos
            end
      end
  end.

Definition GNUNET_CONFIGURATION_iterate_value_filenames (cfg : Handle) (section option_ : str)
  (cb : option FileNameCallback) (s : S) : outcome (S * Z) :=
  list_ ← GNUNET_CONFIGURATION_get_value_string cfg section option_;
  match list_ with
  | None => Ret (s, 0)
  | Some list_ => filenames_loop (Datatypes.S (length list_)) cb s 0 list_
  end.

End Filenames.

Fixpoint escape_chars (value : str) : str :=
  match value with
  | [] => []
  | c :: value' =>
      if (c =? BACKSLASH) || (c =? SPACE) then BACKSLASH :: c :: escape_chars value'
      else c :: escape_chars value'
  end.

Definition escape_name (value : str) : outcome str :=
  alloc_str (strlen value * 2 + 1) (escape_chars value).

Definition test_match (of_ : str) (s : unit) (fn : str) : unit * Z :=
  (tt, if streq of_ fn then GNUNET_SYSERR else GNUNET_OK).

Definition GNUNET_CONFIGURATION_append_value_filename (cfg : Handle) (section option_ value : str)
  : outcome (Handle * Z) :=
  '(_, r) ← GNUNET_CONFIGURATION_iterate_value_filenames cfg section option_ (Some (test_match value)) tt;
  if r =? GNUNET_SYSERR then Ret (cfg, GNUNET_NO)
  else
    o ← GNUNET_CONFIGURATION_get_value_string cfg section option_;
    old ← match o with Some old => Ret old | None => GNUNET_strdup [] end;
    escaped ← escape_name value;
    nw ← alloc_str (strlen old + strlen escaped + 2)
           (old ++ (if 0 <? strlen old then cs " " else []) ++ escaped);
    cfg ← GNUNET_CONFIGURATION_set_value_string cfg section option_ (Some nw);
    Ret (cfg, GNUNET_OK).

(** The inner loop of [_remove_value_filename]: as [name_end], but without unescaping *)
Fixpoint raw_end (s : str) : str * str :=
  match s with
  | [] => ([], [])
  | c :: s' =>
      if c =? SPACE then ([], s)
      else
        match s' with
        | d :: s'' =>
            if (c =? BACKSLASH) && ((d =? BACKSLASH) || (d =? SPACE))
            then let '(t, r) := raw_end s'' in (c :: d :: t, r)
            else let '(t, r) := raw_end s' in (c :: t, r)
        | [] => ([c], [])
        end
  end.

(** The outer loop from [pos] on, with what comes before it; [Some list] is the list
    without the name *)
Fixpoint remove_filename_loop (fuel : nat) (match_ before pos : str) : outcome (option str) :=
  match fuel with
  | O => Undefined
  | S fuel' =>
      match pos with
      | [] => Ret None
      | c :: rest =>
          if c =? SPACE then remove_filename_loop fuel' match_ (before ++ [c]) rest
          else
            let '(t, after) := raw_end rest in
            if streq (c :: t) match_ then
              Ret (Some (match after with
                         | _ :: after' => before ++ after'
                         | [] => take (length before - 1) before
                         end))
            else
              match after with
              | [] => Ret None
              | e :: pos => remove_filename_loop fuel' match_ (before ++ c :: t ++ [e]) pos
              end
      end
  end.

Definition GNUNET_CONFIGURATION_remove_value_filename (cfg : Handle) (section option_ value : str)
  : outcome (Handle * Z) :=
  l ← GNUNET_CONFIGURATION_get_value_string cfg section option_;
  match l with
  | None => Ret (cfg, GNUNET_NO)
  | Some list_ =>
      match_ ← escape_name value;
      r ← remove_filename_loop (S (length list_)) match_ [] list_;
      match r with
      | Some list_ =>
          cfg ← GNUNET_CONFIGURATION_set_value_string cfg section option_ (Some list_);
          Ret (cfg, GNUNET_OK)
      | None => Ret (cfg, GNUNET_NO)
      end
  end.

(** ** Loading *)

Section Load.
Context `{Environment} `{Disk}.

(** The loop of [GNUNET_DISK_directory_scan] over the names of the directory [dname], with
    [name_len] and [count] *)
Fixpoint scan_loop {S : Type} (dname : str) (callback : S -> str -> outcome (S * Z)) (s : S)
  (name_len count : Z) (names : list str) : outcome (S * Z) :=
  match names with
  | [] => Ret (s, count)
  | d_name :: names' =>
      if streq d_name (cs ".") || streq d_name (cs "..") then scan_loop dname callback s name_len count names'
      else
        let name_len := if name_len <? strlen d_name then strlen d_name else name_len in
        let n_size := strlen dname + name_len + 2 in
        _ ← GNUNET_malloc n_size;
        name ← GNUNET_snprintf n_size
                 (dname ++ (if streq dname DIR_SEPARATOR_STR then [] else DIR_SEPARATOR_STR) ++ d_name);
        '(s, r) ← callback s name;
        if negb (r =? GNUNET_OK) then Ret (s, GNUNET_SYSERR)
        else scan_loop dname callback s name_len (count + 1) names'
  end.

Definition GNUNET_DISK_directory_scan {S : Type} (d : disk) (dirName : str)
  (callback : S -> str -> outcome (S * Z)) (s : S) : outcome (S * Z) :=
  dname ← GNUNET_STRINGS_filename_expand (Some dirName);
  match dname with
  | None => Ret (s, GNUNET_SYSERR)
  | Some dname =>
      let dname := strip_end (fun c => c =? SLASH) dname in
      match stat dname with
      | None => Ret (s, GNUNET_SYSERR)
      | Some istat =>
          if negb (S_ISDIR istat) then Ret (s, GNUNET_SYSERR)
          else
            match READDIR d dname with
            | None => Ret (s, GNUNET_SYSERR)
            | Some names =>
                _ ← GNUNET_malloc (strlen dname + 256 + 2);
                scan_loop dname callback s 256 0 names
            end
      end
  end.

Definition parse_configuration_file (fuel : nat) (d : disk) (cfg : Handle) (filename : str)
  : outcome (Handle * Z) :=
  match strrchr filename DOT with
  | None => Ret (cfg, GNUNET_OK)
  | Some ext =>
      if negb (streq ext (cs ".conf")) then Ret (cfg, GNUNET_OK)
      else GNUNET_CONFIGURATION_parse fuel d cfg filename
  end.

Definition GNUNET_CONFIGURATION_load_from (fuel : nat) (d : disk) (cfg : Handle) (defaults_d : str)
  : outcome (Handle * Z) :=
  '(cfg, r) ← GNUNET_DISK_directory_scan d defaults_d (parse_configuration_file fuel d) cfg;
  Ret (cfg, if r =? GNUNET_SYSERR then GNUNET_SYSERR else GNUNET_OK).

(** The last steps of [GNUNET_CONFIGURATION_load]: the default of [PATHS/DEFAULTCONFIG], and
    whether the gathering of entropy is disabled *)
Definition finish_load (cfg : Handle) (filename : option str) : outcome (Handle * Z * bool) :=
  cfg ← match filename with
        | Some f =>
            if GNUNET_CONFIGURATION_have_value cfg (cs "PATHS") (cs "DEFAULTCONFIG") =? GNUNET_YES then Ret cfg
            else GNUNET_CONFIGURATION_set_value_string cfg (cs "PATHS") (cs "DEFAULTCONFIG") filename
        | None => Ret cfg
        end;
  weak ← (if GNUNET_CONFIGURATION_have_value cfg (cs "TESTING") (cs "WEAKRANDOM") =? GNUNET_YES
          then y ← GNUNET_CONFIGURATION_get_value_yesno cfg (cs "TESTING") (cs "WEAKRANDOM");
               Ret (y =? GNUNET_YES)
          else Ret false);
  Ret (cfg, GNUNET_OK, weak).

(** [ipath] is the result of [GNUNET_OS_installation_get_path] *)
Definition GNUNET_CONFIGURATION_load (fuel : nat) (d : disk) (ipath : option str) (cfg : Handle)
  (filename : option str) : outcome (Handle * Z * bool) :=
  match ipath with
  | None => Ret (cfg, GNUNET_SYSERR, false)
  | Some ipath =>
      baseconfig ← GNUNET_asprintf (ipath ++ cs "config.d");
      '(cfg, r) ← GNUNET_DISK_directory_scan d baseconfig (parse_configuration_file fuel d) cfg;
      if r =? GNUNET_SYSERR then Ret (cfg, GNUNET_SYSERR, false)
      else
        '(cfg, r) ← match filename with
                    | Some f => GNUNET_CONFIGURATION_parse fuel d cfg f
                    | None => Ret (cfg, GNUNET_OK)
                    end;
        if negb (r =? GNUNET_OK) then Ret (cfg, GNUNET_SYSERR, false)
        else finish_load cfg filename
  end.

End Load.

Example parse_sample : parse_line (cs "  Key =	some value  ") = Assign (cs "Key") (cs "some value").
Proof. vm_compute. reflexivity. Qed.
Example parse_no_equals : parse_line (cs "oops") = Assign (cs "oops") [].
Proof. vm_compute. reflexivity. Qed.
Example parse_empty_section : parse_line (cs "[]") = Assign (cs "[]") [].
Proof. vm_compute. reflexivity. Qed.
Example parse_equals : parse_line (cs "= x") = SyntaxError.
Proof. vm_compute. reflexivity. Qed.
Example parse_unclosed_section : parse_line (cs "[abc") = Section_ (cs "abc").
Proof. vm_compute. reflexivity. Qed.
