(* ===== verification/ConfigurationSpec.v ===== *)
(** * The configuration is a map

    A configuration implements a map from section and option, without regard to case, to
    values: the invariant of the lists, the abstraction function [abs], what every
    operation does to the map, and the theorem for any sequence of operations
    ([configuration_implements_map]).  [ConfigurationText] has the textual form,
    [ConfigurationFiles] the options that hold file names. *)

From Stdlib Require Import ZArith Lia String.
From stdpp Require Import base list numbers gmap.
From S2P Require Import Prelude Time MetaData CString Strings Configuration.
Local Open Scope Z_scope.

(** ** Generic lemmas *)

Lemma list_find_split {A} (P : A -> Prop) `{forall x, Decision (P x)} (l : list A) i x :
  list_find P l = Some (i, x) ->
  exists l1 l2, l = l1 ++ x :: l2 /\ i = length l1 /\ Forall (fun y => ~ P y) l1 /\ P x.
Proof.
  intros Hf. apply list_find_Some in Hf as (Hi & Hx & Hall). exists (take i l), (drop (S i) l).
  assert (Hlen : (i < length l)%nat) by (apply lookup_lt_is_Some; by eexists).
  split; [ symmetry; by apply take_drop_middle | ]. split; [ rewrite length_take; lia | ].
  split; [ | done ]. apply Forall_lookup. intros j y Hj. apply lookup_take_Some in Hj as [Hj Hlt].
  by apply (Hall j y).
Qed.

Lemma list_find_none {A} (P : A -> Prop) `{forall x, Decision (P x)} (l : list A) :
  list_find P l = None -> Forall (fun y => ~ P y) l.
Proof. intros Hf. by apply list_find_None in Hf. Qed.

Lemma alter_middle {A} (f : A -> A) (l1 l2 : list A) x :
  alter f (length l1) (l1 ++ x :: l2) = l1 ++ f x :: l2.
Proof. induction l1 as [|y l1 IH]; cbn; [ done | ]. f_equal. exact IH. Qed.

Lemma list_to_map_middle {K A} `{Countable K} (l1 l2 : list (K * A)) k v :
  NoDup ((l1 ++ (k, v) :: l2).*1) ->
  (list_to_map (l1 ++ (k, v) :: l2) : gmap K A) = <[k := v]> (list_to_map (l1 ++ l2)).
Proof.
  intros Hd. change (<[k := v]> (list_to_map (l1 ++ l2) : gmap K A))
    with (list_to_map ((k, v) :: l1 ++ l2) : gmap K A).
  apply list_to_map_proper; [ exact Hd | ]. symmetry. apply Permutation_middle.
Qed.

Lemma filter_true {A} (P : A -> Prop) `{forall x, Decision (P x)} (l : list A) :
  Forall P l -> filter P l = l.
Proof. induction 1 as [|x l Hx _ IH]; [ done | ]. by rewrite filter_cons_True, IH. Qed.

Lemma filter_false {A} (P : A -> Prop) `{forall x, Decision (P x)} (l : list A) :
  Forall (fun x => ~ P x) l -> filter P l = [].
Proof. induction 1 as [|x l Hx _ IH]; [ done | ]. by rewrite filter_cons_False, IH. Qed.

Lemma list_to_map_filter {K A} `{Countable K} (P : K * A -> Prop) `{forall x, Decision (P x)}
  (l : list (K * A)) :
  NoDup l.*1 -> (list_to_map (filter P l) : gmap K A) = filter P (list_to_map l : gmap K A).
Proof.
  induction l as [|[k v] l IH]; intros Hn; [ symmetry; apply map_filter_empty | ].
  cbn in Hn. apply NoDup_cons in Hn as [Hk Hn]. rewrite list_to_map_cons, filter_cons.
  apply not_elem_of_list_to_map_1 in Hk. case_decide as HP.
  - rewrite map_filter_insert_True by done. by rewrite list_to_map_cons, IH.
  - rewrite map_filter_insert_False by done. by rewrite delete_id, IH.
Qed.

(** ** The abstract map *)

Abbreviation option_map_ := (gmap (str * str) str).

(** The options in the order of iteration *)
Definition flat_section (sec : ConfigSection) : list (str * str * option str) :=
  (fun e => (name sec, key e, val e)) <$> entries sec.

Definition flat (l : list ConfigSection) : list (str * str * option str) :=
  l ≫= flat_section.

Definition assoc (l : list (str * str * option str)) : list (str * str * str) :=
  omap (fun o => pair (lowercase o.1.1, lowercase o.1.2) <$> o.2) l.

Definition abs (cfg : Handle) : option_map_ := list_to_map (assoc (flat (sections cfg))).

Definition str_ok (s : str) : Prop := can_alloc (strlen s + 1).

(** Names are unique, no section is empty, every option has a value, and all strings have
    been allocated. *)
Record section_inv (sec : ConfigSection) : Prop := {
  si_name : str_ok (name sec);
  si_nonempty : entries sec <> [];
  si_nodup : NoDup ((fun e => lowercase (key e)) <$> entries sec);
  si_vals : Forall (fun e => str_ok (key e) /\ exists v, val e = Some v /\ str_ok v) (entries sec)
}.

Record cfg_inv (cfg : Handle) : Prop := {
  ci_nodup : NoDup ((fun sec => lowercase (name sec)) <$> sections cfg);
  ci_sections : Forall section_inv (sections cfg)
}.

Lemma flat_app l1 l2 : flat (l1 ++ l2) = flat l1 ++ flat l2.
Proof. apply bind_app. Qed.

Lemma flat_cons sec l : flat (sec :: l) = flat_section sec ++ flat l.
Proof. done. Qed.

Lemma assoc_app l1 l2 : assoc (l1 ++ l2) = assoc l1 ++ assoc l2.
Proof. apply omap_app. Qed.

Lemma assoc_keys_section sec k :
  k ∈ (assoc (flat_section sec)).*1 -> k.1 = lowercase (name sec) /\ k.2 ∈ ((fun e => lowercase (key e)) <$> entries sec).
Proof.
  unfold flat_section. induction (entries sec) as [|e l IH]; [ by intros ?%elem_of_nil | ].
  cbn. destruct (val e) as [v|]; cbn.
  - rewrite elem_of_cons. intros [->|Hk]; [ split; [ done | by left ] | ].
    destruct (IH Hk) as [? ?]. split; [ done | by right ].
  - intros Hk. destruct (IH Hk) as [? ?]. split; [ done | by right ].
Qed.

Lemma assoc_section_nodup sec :
  NoDup ((fun e => lowercase (key e)) <$> entries sec) -> NoDup (assoc (flat_section sec)).*1.
Proof.
  destruct sec as [n l]. cbn [entries]. induction l as [|e l IH]; [ intros _; constructor | ].
  intros Hn. cbn in Hn. apply NoDup_cons in Hn as [He Hn]. specialize (IH Hn). cbn.
  destruct (val e) as [v|]; cbn; [ | exact IH ]. constructor; [ | exact IH ].
  intros Hk. apply (assoc_keys_section (mk_section n l)) in Hk as [_ Hk]. done.
Qed.

Lemma assoc_keys_flat l k : k ∈ (assoc (flat l)).*1 -> k.1 ∈ ((fun sec => lowercase (name sec)) <$> l).
Proof.
  induction l as [|sec l IH]; [ by intros ?%elem_of_nil | ]. rewrite flat_cons, assoc_app, fmap_app, elem_of_app.
  cbn. intros [Hk|Hk]; [ apply assoc_keys_section in Hk as [-> _]; left | right; by apply IH ].
Qed.

Lemma assoc_nodup l :
  NoDup ((fun sec => lowercase (name sec)) <$> l) -> Forall section_inv l -> NoDup (assoc (flat l)).*1.
Proof.
  induction l as [|sec l IH]; [ constructor | ]. intros Hn Hs.
  apply Forall_cons in Hs as [Hs Hl]. apply NoDup_cons in Hn as [Hsec Hn].
  rewrite flat_cons, assoc_app, fmap_app. apply NoDup_app. split; [ apply assoc_section_nodup, Hs | ].
  split; [ | by apply IH ]. intros k Hk Hk'. apply assoc_keys_section in Hk as [Hk _].
  apply assoc_keys_flat in Hk'. rewrite Hk in Hk'. done.
Qed.

Lemma cfg_assoc_nodup cfg : cfg_inv cfg -> NoDup (assoc (flat (sections cfg))).*1.
Proof. intros [H1 H2]. by apply assoc_nodup. Qed.

(** *** Finding entries *)

(** Where an entry that is found lies *)
Lemma findEntry_Some cfg s k i j e :
  findEntry cfg s k = Some (i, j, e) ->
  exists S1 S2 n E1 E2, sections cfg = S1 ++ mk_section n (E1 ++ e :: E2) :: S2
    /\ i = length S1 /\ j = length E1 /\ lowercase n = lowercase s /\ lowercase (key e) = lowercase k.
Proof.
  unfold findEntry, findSection. destruct (list_find _ (sections cfg)) as [[i' sec]|] eqn:Hs; [ | done ].
  destruct (list_find _ (entries sec)) as [[j' e']|] eqn:He; [ | done ]. intros [= -> -> ->].
  apply list_find_split in Hs as (S1 & S2 & HS & -> & _ & Hn).
  apply list_find_split in He as (E1 & E2 & HE & -> & _ & Hk).
  exists S1, S2, (name sec), E1, E2. rewrite <- HE. destruct sec; cbn in *.
  apply strcaseeq_true in Hn, Hk. done.
Qed.

Lemma findSection_Some cfg s i sec :
  findSection cfg s = Some (i, sec) ->
  exists S1 S2, sections cfg = S1 ++ sec :: S2 /\ i = length S1 /\ lowercase (name sec) = lowercase s.
Proof.
  unfold findSection. intros Hs. apply list_find_split in Hs as (S1 & S2 & HS & -> & _ & Hn).
  apply strcaseeq_true in Hn. by exists S1, S2.
Qed.

Lemma findSection_None cfg s :
  findSection cfg s = None -> lowercase s ∉ ((fun sec => lowercase (name sec)) <$> sections cfg).
Proof.
  unfold findSection. intros Hs. apply list_find_none in Hs. intros Hin.
  apply list_elem_of_fmap in Hin as (sec & Heq & Hin). rewrite Forall_forall in Hs.
  apply (Hs sec Hin). by apply strcaseeq_true.
Qed.

Lemma findEntry_None cfg s k :
  cfg_inv cfg -> findEntry cfg s k = None ->
  ((lowercase s, lowercase k) ∉ (assoc (flat (sections cfg))).*1)
  /\ (forall i sec, findSection cfg s = Some (i, sec) -> lowercase k ∉ ((fun e => lowercase (key e)) <$> entries sec)).
Proof.
  intros Hinv Hf. unfold findEntry in Hf. destruct (findSection cfg s) as [[i sec]|] eqn:Hs.
  - destruct (list_find _ (entries sec)) as [[j e]|] eqn:He; [ done | ].
    apply list_find_none in He.
    assert (Hk : lowercase k ∉ ((fun e => lowercase (key e)) <$> entries sec)).
    { intros Hin. apply list_elem_of_fmap in Hin as (e & Heq & Hin). rewrite Forall_forall in He.
      apply (He e Hin). by apply strcaseeq_true. }
    split; [ | intros ? ? [= <- <-]; done ].
    apply findSection_Some in Hs as (S1 & S2 & HS & -> & Hn). destruct Hinv as [Hnd _].
    rewrite HS in Hnd |- *. rewrite fmap_app in Hnd. cbn in Hnd. apply NoDup_app in Hnd as (_ & Hd1 & Hd2).
    apply NoDup_cons in Hd2 as [Hd2 _].
    rewrite flat_app, flat_cons, !assoc_app, !fmap_app, !elem_of_app. intros [Hin|[Hin|Hin]].
    + apply assoc_keys_flat in Hin. apply (Hd1 _ Hin). rewrite Hn. by left.
    + by apply assoc_keys_section in Hin as [_ Hin].
    + apply assoc_keys_flat in Hin. rewrite Hn in Hd2. done.
  - split; [ | done ]. intros Hin. apply assoc_keys_flat in Hin. by apply findSection_None in Hs.
Qed.

(** The list of options around one of them *)
Lemma flat_middle S1 S2 n E1 E2 e :
  flat (S1 ++ mk_section n (E1 ++ e :: E2) :: S2)
  = (flat S1 ++ flat_section (mk_section n E1)) ++ (n, key e, val e)
    :: (flat_section (mk_section n E2) ++ flat S2).
Proof.
  rewrite flat_app, flat_cons. unfold flat_section. cbn [entries name].
  rewrite fmap_app. cbn. by rewrite <- !app_assoc.
Qed.

Lemma flat_hole S1 S2 n E1 E2 :
  flat (S1 ++ mk_section n (E1 ++ E2) :: S2)
  = (flat S1 ++ flat_section (mk_section n E1)) ++ flat_section (mk_section n E2) ++ flat S2.
Proof.
  rewrite flat_app, flat_cons. unfold flat_section. cbn [entries name].
  rewrite fmap_app. by rewrite <- !app_assoc.
Qed.

(** Adding or changing one option *)
Lemma abs_middle d S1 S2 n E1 E2 e v :
  cfg_inv (mk_cfg (S1 ++ mk_section n (E1 ++ e :: E2) :: S2) d) -> val e = Some v ->
  abs (mk_cfg (S1 ++ mk_section n (E1 ++ e :: E2) :: S2) d)
  = <[(lowercase n, lowercase (key e)) := v]> (list_to_map (assoc (flat (S1 ++ mk_section n (E1 ++ E2) :: S2)))).
Proof.
  intros Hinv Hv. apply cfg_assoc_nodup in Hinv. cbn [sections] in Hinv. unfold abs. cbn [sections].
  rewrite flat_middle in Hinv |- *. rewrite flat_hole.
  generalize dependent (flat S1 ++ flat_section (mk_section n E1)). intros A Hinv.
  generalize dependent (flat_section (mk_section n E2) ++ flat S2). intros B Hinv.
  rewrite Hv, !assoc_app in *. cbn in Hinv. by apply list_to_map_middle.
Qed.

Definition lookup_value (cfg : Handle) (s k : str) : option str :=
  match findEntry cfg s k with Some (_, _, e) => val e | None => None end.

Lemma findEntry_ok cfg s k i j e :
  cfg_inv cfg -> findEntry cfg s k = Some (i, j, e) -> exists v, val e = Some v /\ str_ok v.
Proof.
  intros Hinv Hf. apply findEntry_Some in Hf as (S1 & S2 & n & E1 & E2 & HS & _).
  destruct Hinv as [_ Hs]. rewrite HS in Hs. apply Forall_app in Hs as [_ Hs].
  apply Forall_cons in Hs as [[_ _ _ Hs] _]. cbn in Hs. apply Forall_app in Hs as [_ Hs].
  apply Forall_cons in Hs as [(_ & v & Hv & Hok) _]. by exists v.
Qed.

Lemma abs_lookup cfg s k : cfg_inv cfg -> abs cfg !! (lowercase s, lowercase k) = lookup_value cfg s k.
Proof.
  intros Hinv. unfold lookup_value. destruct (findEntry cfg s k) as [[[i j] e]|] eqn:Hf.
  - destruct (findEntry_ok _ _ _ _ _ _ Hinv Hf) as (v & Hv & _).
    apply findEntry_Some in Hf as (S1 & S2 & n & E1 & E2 & HS & _ & _ & Hn & Hk). destruct cfg as [l d]. cbn in HS. subst l.
    rewrite (abs_middle _ _ _ _ _ _ _ v Hinv Hv), Hn, Hk, Hv. apply lookup_insert_eq.
  - apply findEntry_None in Hf as [Hf _]; [ | done ]. by apply not_elem_of_list_to_map.
Qed.

(** *** Setting options *)

Lemma cfg_inv_replace S1 S2 sec sec' d d' :
  cfg_inv (mk_cfg (S1 ++ sec :: S2) d) -> lowercase (name sec') = lowercase (name sec) -> section_inv sec' ->
  cfg_inv (mk_cfg (S1 ++ sec' :: S2) d').
Proof.
  intros [Hn Hs] Hname Hsec. split; cbn [sections] in *.
  - rewrite fmap_app in Hn |- *. cbn in Hn |- *. by rewrite Hname.
  - apply Forall_app in Hs as [Hs1 Hs2]. apply Forall_cons in Hs2 as [_ Hs2].
    apply Forall_app. split; [ done | by constructor ].
Qed.

Lemma cfg_inv_section S1 S2 sec d : cfg_inv (mk_cfg (S1 ++ sec :: S2) d) -> section_inv sec.
Proof. intros [_ Hs]. apply Forall_app in Hs as [_ Hs]. by apply Forall_cons in Hs as [Hs _]. Qed.

Lemma section_inv_update n E1 E2 e v :
  section_inv (mk_section n (E1 ++ e :: E2)) -> str_ok v ->
  section_inv (mk_section n (E1 ++ mk_entry (key e) (Some v) :: E2)).
Proof.
  intros [Hn _ Hd Hv] Hok. split; cbn [name entries] in *.
  - done.
  - by destruct E1.
  - rewrite fmap_app in Hd |- *. exact Hd.
  - apply Forall_app in Hv as [Hv1 Hv2]. apply Forall_cons in Hv2 as [[Hk _] Hv2].
    apply Forall_app. split; [ done | ]. constructor; [ | done ]. split; [ done | by exists v ].
Qed.

Lemma section_inv_add sec k v :
  section_inv sec -> lowercase k ∉ ((fun e => lowercase (key e)) <$> entries sec) -> str_ok k -> str_ok v ->
  section_inv (set_entries sec (mk_entry k (Some v) :: entries sec)).
Proof.
  intros [Hn _ Hd Hv] Hk Hok Hov. split; cbn [name entries set_entries] in *.
  - done.
  - done.
  - cbn. by constructor.
  - constructor; [ | done ]. split; [ done | by exists v ].
Qed.

Lemma section_inv_new s k v : str_ok s -> str_ok k -> str_ok v -> section_inv (mk_section s [mk_entry k (Some v)]).
Proof.
  intros Hs Hk Hv. split; cbn; [ done | done | | ].
  - constructor; [ apply not_elem_of_nil | constructor ].
  - constructor; [ split; [ done | by exists v ] | constructor ].
Qed.

Lemma strdup_str_ok s : str_ok s -> GNUNET_strdup s = Ret s.
Proof. apply GNUNET_strdup_ok. Qed.

Lemma set_value_ok cfg s k v :
  cfg_inv cfg -> str_ok s -> str_ok k -> str_ok v ->
  exists cfg', GNUNET_CONFIGURATION_set_value_string cfg s k (Some v) = Ret cfg'
    /\ cfg_inv cfg' /\ abs cfg' = <[(lowercase s, lowercase k) := v]> (abs cfg) /\ dirty cfg' = dirty cfg.
Proof.
  intros Hinv Hs Hk Hv. unfold GNUNET_CONFIGURATION_set_value_string, GNUNET_xstrdup_.
  destruct (findEntry cfg s k) as [[[i j] e]|] eqn:Hf.
  - rewrite strdup_str_ok by done. cbn [mbind outcome_bind]. eexists. split; [ reflexivity | ].
    destruct (findEntry_ok _ _ _ _ _ _ Hinv Hf) as (w & Hw & _).
    apply findEntry_Some in Hf as (S1 & S2 & n & E1 & E2 & HS & -> & -> & Hn & Hkey).
    destruct cfg as [l d]. cbn in HS. subst l. unfold store_value, set_sections. cbn [sections dirty].
    rewrite alter_middle. unfold set_entries. cbn [entries name]. rewrite alter_middle.
    assert (Hinv' : cfg_inv (mk_cfg (S1 ++ mk_section n (E1 ++ mk_entry (key e) (Some v) :: E2) :: S2) d)).
    { eapply cfg_inv_replace; [ exact Hinv | done | ].
      eapply section_inv_update; [ exact (cfg_inv_section _ _ _ _ Hinv) | done ]. }
    split; [ exact Hinv' | ]. split; [ | done ].
    rewrite (abs_middle _ _ _ _ _ _ _ v Hinv' eq_refl), (abs_middle _ _ _ _ _ _ _ w Hinv Hw).
    cbn [key]. by rewrite Hn, Hkey, insert_insert_eq.
  - destruct (findEntry_None _ _ _ Hinv Hf) as [_ Hnew].
    destruct (findSection cfg s) as [[i sec]|] eqn:Hsec.
    + cbn [mbind outcome_bind]. rewrite !strdup_str_ok by done. cbn [mbind outcome_bind].
      eexists. split; [ reflexivity | ]. specialize (Hnew _ _ eq_refl).
      apply findSection_Some in Hsec as (S1 & S2 & HS & -> & Hn).
      destruct cfg as [l d]. cbn in HS. subst l. unfold set_sections. cbn [sections dirty].
      rewrite alter_middle.
      assert (Hinv' : cfg_inv (mk_cfg (S1 ++ set_entries sec (mk_entry k (Some v) :: entries sec) :: S2) d)).
      { eapply cfg_inv_replace; [ exact Hinv | done | ].
        apply section_inv_add; [ exact (cfg_inv_section _ _ _ _ Hinv) | done | done | done ]. }
      split; [ exact Hinv' | ]. split; [ | done ].
      etransitivity; [ exact (abs_middle _ S1 S2 _ [] (entries sec) (mk_entry k (Some v)) v Hinv' eq_refl) | ].
      cbn [key app].
      rewrite Hn. unfold abs. cbn [sections]. by destruct sec.
    + rewrite strdup_str_ok by done. cbn [mbind outcome_bind]. rewrite !strdup_str_ok by done.
      cbn [mbind outcome_bind]. eexists. split; [ reflexivity | ].
      apply findSection_None in Hsec. destruct cfg as [l d]. unfold set_sections. cbn [sections dirty].
      cbn [alter list_alter]. unfold set_entries. cbn [name entries].
      split; [ | split; [ reflexivity | done ] ].
      destruct Hinv as [Hn Hl]. split; cbn [sections] in *; [ by constructor | ].
      constructor; [ by apply section_inv_new | done ].
Qed.

(** *** Removing sections *)

Lemma remove_first_section_spec section l :
  NoDup ((fun sec => lowercase (name sec)) <$> l) ->
  (remove_first_section section l).1 = filter (fun sec => lowercase (name sec) <> lowercase section) l.
Proof.
  induction l as [|sec l IH]; intros Hn; [ done | ]. cbn in Hn. apply NoDup_cons in Hn as [Hsec Hn].
  cbn [remove_first_section]. destruct (strcaseeq section (name sec)) eqn:E.
  - apply strcaseeq_true in E. cbn [fst]. rewrite filter_cons_False by (intros H; apply H; done).
    rewrite filter_true; [ done | ]. apply Forall_forall. intros sec' Hin Heq. apply Hsec.
    rewrite <- E, <- Heq. apply list_elem_of_fmap; by exists sec'.
  - assert (Hne : lowercase (name sec) <> lowercase section).
    { intros Heq. by rewrite (proj2 (strcaseeq_true _ _)) in E. }
    rewrite filter_cons_True by done. rewrite <- IH by done.
    by destruct (remove_first_section section l).
Qed.

Lemma assoc_filter section l :
  assoc (flat (filter (fun sec => lowercase (name sec) <> lowercase section) l))
  = filter (fun p => p.1.1 <> lowercase section) (assoc (flat l)).
Proof.
  induction l as [|sec l IH]; [ done | ]. rewrite flat_cons, assoc_app, filter_app, <- IH, filter_cons.
  assert (Hkeys : Forall (fun p => p.1.1 = lowercase (name sec)) (assoc (flat_section sec))).
  { apply Forall_forall. intros p Hp.
    apply (assoc_keys_section sec p.1), list_elem_of_fmap. by exists p. }
  case_decide as Hs.
  - rewrite flat_cons, assoc_app. f_equal. symmetry. apply filter_true.
    eapply Forall_impl; [ exact Hkeys | ]. cbn. congruence.
  - rewrite (filter_false _ (assoc (flat_section sec))); [ done | ]. eapply Forall_impl; [ exact Hkeys | ]. cbn. intros p Hp Hne. congruence.
Qed.

Lemma remove_section_ok cfg section :
  cfg_inv cfg ->
  cfg_inv (GNUNET_CONFIGURATION_remove_section cfg section)
  /\ abs (GNUNET_CONFIGURATION_remove_section cfg section)
     = filter (fun p => p.1.1 <> lowercase section) (abs cfg).
Proof.
  intros Hinv. pose proof (remove_first_section_spec section _ (ci_nodup _ Hinv)) as Hr.
  unfold GNUNET_CONFIGURATION_remove_section. destruct (remove_first_section section (sections cfg)) as [l b].
  cbn [fst] in Hr. subst l. split.
  - destruct Hinv as [Hn Hs]. split; cbn [sections].
    + eapply sublist_NoDup; [ exact Hn | ]. apply fmap_sublist, sublist_filter.
    + apply Forall_forall. intros sec Hin. apply list_elem_of_filter in Hin as [_ Hin].
      rewrite Forall_forall in Hs. by apply Hs.
  - unfold abs at 1. cbn [sections]. rewrite assoc_filter. apply list_to_map_filter.
    by apply cfg_assoc_nodup.
Qed.

(** *** Iteration and copies *)

Fixpoint fold_opts {S} (iter : @Iterator S) (s : S) (l : list (str * str * option str)) : outcome S :=
  match l with
  | [] => Ret s
  | (n, k, v) :: l' => s ← iter s n k v; fold_opts iter s l'
  end.

Lemma fold_opts_app {S} (iter : @Iterator S) s l1 l2 :
  fold_opts iter s (l1 ++ l2) = (s ← fold_opts iter s l1; fold_opts iter s l2).
Proof.
  revert s. induction l1 as [|[[n k] v] l1 IH]; intros s; [ done | ]. cbn [fold_opts app].
  destruct (iter s n k v); cbn; [ apply IH | done | done ].
Qed.

Lemma iterate_entries_fold {S} (iter : @Iterator S) sec s :
  iterate_entries iter (name sec) s (entries sec) = fold_opts iter s (flat_section sec).
Proof.
  unfold flat_section. revert s. induction (entries sec) as [|e l IH]; intros s; [ done | ]. cbn.
  destruct (iter s (name sec) (key e) (val e)); [ apply IH | done | done ].
Qed.

Lemma iterate_fold {S} (iter : @Iterator S) cfg s :
  GNUNET_CONFIGURATION_iterate cfg iter s = fold_opts iter s (flat (sections cfg)).
Proof.
  unfold GNUNET_CONFIGURATION_iterate. revert s. induction (sections cfg) as [|sec l IH]; intros s; [ done | ].
  cbn [iterate_all]. rewrite flat_cons, fold_opts_app, iterate_entries_fold.
  destruct (fold_opts iter s (flat_section sec)); cbn; [ apply IH | done | done ].
Qed.

Definition opt_ok (o : str * str * option str) : Prop :=
  str_ok o.1.1 /\ str_ok o.1.2 /\ exists v, o.2 = Some v /\ str_ok v.

Lemma flat_ok cfg : cfg_inv cfg -> Forall opt_ok (flat (sections cfg)).
Proof.
  intros [_ Hs]. induction Hs as [|sec l Hsec _ IH]; [ constructor | ]. rewrite flat_cons.
  apply Forall_app. split; [ | exact IH ]. destruct Hsec as [Hn _ _ Hv]. unfold flat_section.
  apply Forall_fmap. eapply Forall_impl; [ exact Hv | ]. intros e (Hk & v & Hv' & Hok).
  split; [ done | ]. split; [ done | by exists v ].
Qed.

Lemma copy_all l dst :
  cfg_inv dst -> Forall opt_ok l ->
  exists dst', fold_opts copy_entry dst l = Ret dst' /\ cfg_inv dst'
    /\ abs dst' = list_to_map (reverse (assoc l)) ∪ abs dst /\ dirty dst' = dirty dst.
Proof.
  intros Hinv Hl. revert dst Hinv. induction Hl as [|[[n k] v] l (Hn & Hk & w & Hv & Hw) _ IH]; intros dst Hinv.
  - exists dst. split; [ done | ]. split; [ done | ]. split; [ symmetry; apply map_empty_union | done ].
  - cbn [fst snd] in *. subst v.
    destruct (set_value_ok dst n k w Hinv Hn Hk Hw) as (d1 & Hset & Hinv1 & Habs1 & Hd1).
    destruct (IH d1 Hinv1) as (d2 & Hf & Hinv2 & Habs2 & Hd2).
    exists d2. cbn [fold_opts]. rewrite (bind_ret (copy_entry dst n k (Some w)) d1) by exact Hset.
    split; [ exact Hf | ]. split; [ done | ]. split; [ | congruence ].
    rewrite Habs2, Habs1. change (assoc ((n, k, Some w) :: l)) with ((lowercase n, lowercase k, w) :: assoc l).
    rewrite reverse_cons, list_to_map_app. cbn [list_to_map foldr]. rewrite <- (assoc_L (∪)). f_equal.
    by rewrite insert_union_singleton_l.
Qed.

Lemma list_to_map_reverse {K A} `{Countable K} (l : list (K * A)) :
  NoDup l.*1 -> (list_to_map (reverse l) : gmap K A) = list_to_map l.
Proof.
  intros Hn. symmetry. apply list_to_map_proper; [ done | ]. symmetry. apply reverse_Permutation.
Qed.

(** Copying all options of a configuration into another one *)
Lemma copy_cfg cfg dst :
  cfg_inv cfg -> cfg_inv dst ->
  exists dst', GNUNET_CONFIGURATION_iterate cfg copy_entry dst = Ret dst' /\ cfg_inv dst'
    /\ abs dst' = abs cfg ∪ abs dst /\ dirty dst' = dirty dst.
Proof.
  intros Hc Hd. rewrite iterate_fold. destruct (copy_all (flat (sections cfg)) dst Hd (flat_ok cfg Hc))
    as (dst' & H1 & H2 & H3 & H4).
  exists dst'. split; [ done | ]. split; [ done | ]. split; [ | done ].
  rewrite H3, list_to_map_reverse by by apply cfg_assoc_nodup. done.
Qed.

Lemma config_create_inv : cfg_inv GNUNET_CONFIGURATION_create.
Proof. split; constructor. Qed.

Lemma dup_ok cfg :
  cfg_inv cfg -> exists cfg', GNUNET_CONFIGURATION_dup cfg = Ret cfg' /\ cfg_inv cfg' /\ abs cfg' = abs cfg.
Proof.
  intros Hc. destruct (copy_cfg cfg _ Hc config_create_inv) as (c & H1 & H2 & H3 & _).
  exists c. split; [ exact H1 | ]. split; [ done | ]. rewrite H3. apply map_union_empty.
Qed.

(** *** Queries *)

Lemma get_value_string_abs cfg s k :
  cfg_inv cfg -> GNUNET_CONFIGURATION_get_value_string cfg s k = Ret (abs cfg !! (lowercase s, lowercase k)).
Proof.
  intros Hinv. rewrite abs_lookup by done. unfold GNUNET_CONFIGURATION_get_value_string, lookup_value.
  destruct (findEntry cfg s k) as [[[i j] e]|] eqn:Hf; [ | done ].
  destruct (findEntry_ok _ _ _ _ _ _ Hinv Hf) as (v & -> & Hv). by rewrite strdup_str_ok.
Qed.

Lemma have_value_abs cfg s k :
  cfg_inv cfg ->
  GNUNET_CONFIGURATION_have_value cfg s k = match abs cfg !! (lowercase s, lowercase k) with Some _ => GNUNET_YES | None => GNUNET_NO end.
Proof.
  intros Hinv. rewrite abs_lookup by done. unfold GNUNET_CONFIGURATION_have_value, lookup_value.
  destruct (findEntry cfg s k) as [[[i j] e]|]; [ | done ]. by destruct (val e).
Qed.

(** The number that a value reads as *)
Definition number_of (v : str) : option Z :=
  match sscanf v [Unsigned 64] with [Number n] => Some n | _ => None end.

Lemma get_value_number_abs cfg s k :
  cfg_inv cfg ->
  GNUNET_CONFIGURATION_get_value_number cfg s k = Ret (abs cfg !! (lowercase s, lowercase k) ≫= number_of).
Proof.
  intros Hinv. rewrite abs_lookup by done. unfold GNUNET_CONFIGURATION_get_value_number, lookup_value.
  destruct (findEntry cfg s k) as [[[i j] e]|] eqn:Hf; [ | done ].
  destruct (findEntry_ok _ _ _ _ _ _ Hinv Hf) as (v & -> & _). cbn [of_option mbind outcome_bind option_bind].
  unfold number_of. by repeat case_match.
Qed.

Lemma number_of_dec n : is_u64 n -> number_of (dec n) = Some n.
Proof. intros Hn. unfold number_of. by rewrite sscanf_dec. Qed.

Lemma dec_str_ok n : is_u64 n -> str_ok (dec n).
Proof.
  intros Hn. destruct (dec_spec n Hn) as (_ & _ & _ & Hl).
  unfold str_ok, can_alloc, GNUNET_MAX_MALLOC_CHECKED, strlen. lia.
Qed.

Lemma set_value_number_ok cfg s k n :
  is_u64 n -> GNUNET_CONFIGURATION_set_value_number cfg s k n
  = GNUNET_CONFIGURATION_set_value_string cfg s k (Some (dec n)).
Proof.
  intros Hn. destruct (dec_spec n Hn) as (_ & _ & _ & Hl). unfold GNUNET_CONFIGURATION_set_value_number.
  by rewrite (bind_ret _ _ _ (GNUNET_snprintf_ok 64 (dec n) ltac:(unfold strlen; lia))).
Qed.

Lemma get_value_yesno_abs cfg s k :
  cfg_inv cfg ->
  GNUNET_CONFIGURATION_get_value_yesno cfg s k =
  Ret (match abs cfg !! (lowercase s, lowercase k) with
       | Some v => if strcaseeq (cs "YES") v then GNUNET_YES
                   else if strcaseeq (cs "NO") v then GNUNET_NO else GNUNET_SYSERR
       | None => GNUNET_SYSERR
       end).
Proof.
  intros Hinv. rewrite abs_lookup by done.
  unfold GNUNET_CONFIGURATION_get_value_yesno, GNUNET_CONFIGURATION_get_value_choice, lookup_value.
  destruct (findEntry cfg s k) as [[[i j] e]|] eqn:Hf; [ | done ].
  destruct (findEntry_ok _ _ _ _ _ _ Hinv Hf) as (v & -> & _). cbn [of_option mbind outcome_bind find_choice].
  destruct (strcaseeq (cs "YES") v); [ done | ]. by destruct (strcaseeq (cs "NO") v).
Qed.

(** ** Runs of operations *)

Inductive config_op :=
  | OpSet (section option_ value : str)
  | OpSetNumber (section option_ : str) (number : Z)
  | OpRemoveSection (section : str)
  | OpDup.

Definition run_op (cfg : Handle) (op : config_op) : outcome Handle :=
  match op with
  | OpSet s k v => GNUNET_CONFIGURATION_set_value_string cfg s k (Some v)
  | OpSetNumber s k n => GNUNET_CONFIGURATION_set_value_number cfg s k n
  | OpRemoveSection s => Ret (GNUNET_CONFIGURATION_remove_section cfg s)
  | OpDup => GNUNET_CONFIGURATION_dup cfg
  end.

Fixpoint run_config_ops (cfg : Handle) (ops : list config_op) : outcome Handle :=
  match ops with
  | [] => Ret cfg
  | op :: ops' => cfg ← run_op cfg op; run_config_ops cfg ops'
  end.

(** What an operation does to the map *)
Definition spec_op (m : option_map_) (op : config_op) : option_map_ :=
  match op with
  | OpSet s k v => <[(lowercase s, lowercase k) := v]> m
  | OpSetNumber s k n => <[(lowercase s, lowercase k) := dec n]> m
  | OpRemoveSection s => filter (fun p => p.1.1 <> lowercase s) m
  | OpDup => m
  end.

Definition op_ok (op : config_op) : Prop :=
  match op with
  | OpSet s k v => str_ok s /\ str_ok k /\ str_ok v
  | OpSetNumber s k n => str_ok s /\ str_ok k /\ is_u64 n
  | OpRemoveSection _ | OpDup => True
  end.

Lemma run_op_ok cfg op :
  cfg_inv cfg -> op_ok op ->
  exists cfg', run_op cfg op = Ret cfg' /\ cfg_inv cfg' /\ abs cfg' = spec_op (abs cfg) op.
Proof.
  intros Hinv Hop. destruct op as [s k v|s k n|s|]; cbn [run_op spec_op op_ok] in *.
  - destruct Hop as (Hs & Hk & Hv). destruct (set_value_ok cfg s k v Hinv Hs Hk Hv) as (c & ? & ? & ? & _).
    by exists c.
  - destruct Hop as (Hs & Hk & Hn). rewrite set_value_number_ok by done.
    destruct (set_value_ok cfg s k (dec n) Hinv Hs Hk (dec_str_ok n Hn)) as (c & ? & ? & ? & _). by exists c.
  - eexists. split; [ reflexivity | ]. by apply remove_section_ok.
  - by apply dup_ok.
Qed.

Lemma run_config_ops_ok ops cfg :
  cfg_inv cfg -> Forall op_ok ops ->
  exists cfg', run_config_ops cfg ops = Ret cfg' /\ cfg_inv cfg' /\ abs cfg' = foldl spec_op (abs cfg) ops.
Proof.
  intros Hinv Hops. revert cfg Hinv. induction Hops as [|op ops Hop _ IH]; intros cfg Hinv; [ by exists cfg | ].
  destruct (run_op_ok cfg op Hinv Hop) as (c1 & H1 & Hi1 & Ha1).
  destruct (IH c1 Hi1) as (c2 & H2 & Hi2 & Ha2). exists c2. cbn [run_config_ops foldl]. rewrite H1, <- Ha1. by split.
Qed.

(** The options that [GNUNET_CONFIGURATION_iterate] shows to its callback *)
Definition visited (cfg : Handle) : outcome (list (str * str * option str)) :=
  GNUNET_CONFIGURATION_iterate cfg (fun acc n k v => Ret (acc ++ [(n, k, v)])) [].

Lemma visited_flat cfg : visited cfg = Ret (flat (sections cfg)).
Proof.
  unfold visited. rewrite iterate_fold.
  assert (Hf : forall l acc, fold_opts (fun acc n k v => Ret (acc ++ [(n, k, v)])) acc l = Ret (acc ++ l)).
  { induction l as [|[[n k] v] l IH]; intros acc; [ cbn; by rewrite app_nil_r | ].
    cbn [fold_opts mbind outcome_bind]. rewrite IH. by rewrite <- app_assoc. }
  apply Hf.
Qed.

Section Spec.

(** C17: The configuration implements a map from section and option names,
    compared without regard to case, to strings: any sequence of calls that
    set a string or a number, remove a section or duplicate the handle
    returns, and afterwards get_value_string, have_value, get_value_number and
    get_value_yesno answer exactly as the map does, and iteration shows each
    option of the map once. *)
Theorem configuration_implements_map (ops : list config_op) :
  Forall op_ok ops ->
  exists cfg, run_config_ops GNUNET_CONFIGURATION_create ops = Ret cfg /\
  let m := foldl spec_op ∅ ops in
  (forall s k, GNUNET_CONFIGURATION_get_value_string cfg s k = Ret (m !! (lowercase s, lowercase k)))
  /\ (forall s k, GNUNET_CONFIGURATION_have_value cfg s k
                  = match m !! (lowercase s, lowercase k) with Some _ => GNUNET_YES | None => GNUNET_NO end)
  /\ (forall s k, GNUNET_CONFIGURATION_get_value_number cfg s k
                  = Ret (m !! (lowercase s, lowercase k) ≫= number_of))
  /\ (forall s k n, is_u64 n -> m !! (lowercase s, lowercase k) = Some (dec n) ->
        GNUNET_CONFIGURATION_get_value_number cfg s k = Ret (Some n))
  /\ (forall s k, GNUNET_CONFIGURATION_get_value_yesno cfg s k =
        Ret (match m !! (lowercase s, lowercase k) with
             | Some v => if strcaseeq (cs "YES") v then GNUNET_YES
                         else if strcaseeq (cs "NO") v then GNUNET_NO else GNUNET_SYSERR
             | None => GNUNET_SYSERR
             end))
  /\ exists l, visited cfg = Ret l /\ assoc l ≡ₚ map_to_list m.
Proof.
  intros Hops. destruct (run_config_ops_ok ops _ config_create_inv Hops) as (cfg & Hrun & Hinv & Habs).
  exists cfg. split; [ exact Hrun | ]. cbn zeta.
  change (abs GNUNET_CONFIGURATION_create) with (∅ : option_map_) in Habs. rewrite <- Habs.
  split; [ intros; by apply get_value_string_abs | ].
  split; [ intros; by apply have_value_abs | ].
  split; [ intros; by apply get_value_number_abs | ].
  split; [ intros s k n Hn Hm; rewrite get_value_number_abs, Hm by done; apply (f_equal Ret), (number_of_dec n Hn) | ].
  split; [ intros; by apply get_value_yesno_abs | ].
  exists (flat (sections cfg)). split; [ apply visited_flat | ]. unfold abs.
  symmetry. apply map_to_list_to_map. by apply cfg_assoc_nodup.
Qed.

Lemma configuration_implements_map_witness :
  exists cfg, run_config_ops GNUNET_CONFIGURATION_create
    [OpSet (cs "Hello") (cs "A") (cs "yes"); OpSetNumber (cs "HELLO") (cs "b") 7; OpDup;
     OpSet (cs "hello") (cs "a") (cs "no"); OpSet (cs "x") (cs "y") []; OpRemoveSection (cs "X")] = Ret cfg
  /\ GNUNET_CONFIGURATION_get_value_yesno cfg (cs "hEllo") (cs "A") = Ret GNUNET_NO
  /\ GNUNET_CONFIGURATION_get_value_number cfg (cs "hello") (cs "B") = Ret (Some 7).
Proof.
  destruct (configuration_implements_map
    [OpSet (cs "Hello") (cs "A") (cs "yes"); OpSetNumber (cs "HELLO") (cs "b") 7; OpDup;
     OpSet (cs "hello") (cs "a") (cs "no"); OpSet (cs "x") (cs "y") []; OpRemoveSection (cs "X")])
    as (cfg & Hrun & _ & _ & Hn & _ & Hy & _).
  - repeat constructor; vm_compute; congruence.
  - exists cfg. split; [ exact Hrun | ]. rewrite Hy, Hn. split; vm_compute; reflexivity.
Defined.

(** Setting an option leaves the handle marked as clean. *)
Lemma set_value_stays_clean cfg s k v cfg' :
  GNUNET_CONFIGURATION_set_value_string cfg s k v = Ret cfg' ->
  GNUNET_CONFIGURATION_is_dirty cfg' = GNUNET_CONFIGURATION_is_dirty cfg.
Proof.
  unfold GNUNET_CONFIGURATION_set_value_string. destruct (findEntry cfg s k) as [[[i j] e]|]; intros Hs; inv_ret Hs.
  - by injection Hs as <-.
  - injection Hs as <-. destruct (findSection cfg s) as [[i sec]|]; inv_ret Hret; by injection Hret as <- <-.
Qed.

End Spec.
