(* ===== verification/ConfigurationText.v ===== *)
(** * The textual form of a configuration

    What [GNUNET_CONFIGURATION_serialize] writes ([serialize_escaped_ok]: both passes agree and
    the in-place escaping of newlines stays within its buffer), what deserialization makes
    of it ([configuration_roundtrip]), files that are written and read back, differences
    between configurations, and what deserialization does with arbitrary text
    ([configuration_deserialize_total]). *)

From Stdlib Require Import ZArith Lia String.
From stdpp Require Import base list numbers gmap.
From S2P Require Import Prelude Time MetaData MetaDataSpec CString Strings Configuration ConfigurationSpec.
Local Open Scope Z_scope.

(** ** The text *)

Fixpoint escaped (v : str) : str :=
  match v with
  | [] => []
  | c :: v' => if c =? LF then BACKSLASH :: 110 :: escaped v' else c :: escaped v'
  end.

Definition entry_text (e : ConfigEntry) : str :=
  match val e with
  | None => []
  | Some v => key e ++ cs " = " ++ escaped v ++ [LF]
  end.

Definition section_text (sec : ConfigSection) : str :=
  (cs "[" ++ name sec ++ cs "]" ++ [LF]) ++ mjoin (entry_text <$> entries sec) ++ [LF].

Definition config_text (l : list ConfigSection) : str := mjoin (section_text <$> l).

(** All strings are C strings. *)
Definition entry_cstr (e : ConfigEntry) : Prop :=
  is_cstr (key e) /\ forall v, val e = Some v -> is_cstr v /\ can_alloc (strlen v * 2 + 1).

Definition section_cstr (sec : ConfigSection) : Prop :=
  is_cstr (name sec) /\ Forall entry_cstr (entries sec).

Lemma text_cons {A} (f : A -> str) x l : mjoin (f <$> x :: l) = f x ++ mjoin (f <$> l).
Proof. done. Qed.

(** *** Pass 1 *)

Lemma escaped_length v : strlen (escaped v) = count_newlines v + strlen v.
Proof.
  unfold strlen. induction v as [|c v IH]; [ done | ]. cbn [escaped count_newlines].
  destruct (c =? LF); cbn [length]; lia.
Qed.

Lemma count_newlines_nonneg v : 0 <= count_newlines v.
Proof. induction v as [|c v IH]; cbn; [ lia | ]. destruct (c =? LF); lia. Qed.

Lemma entry_text_length e v : val e = Some v ->
  strlen (entry_text e) = count_newlines v + (strlen (key e) + strlen v + 4).
Proof.
  intros Hv. unfold entry_text. rewrite Hv. pose proof (escaped_length v). unfold strlen in *.
  rewrite !length_app. change (length (cs " = ")) with 3%nat. cbn [length]. lia.
Qed.

Lemma entries_size_text l m : entries_size l m = m + strlen (mjoin (entry_text <$> l)).
Proof.
  revert m. induction l as [|e l IH]; intros m; cbn [entries_size]; [ unfold strlen; cbn; lia | ]. rewrite IH, text_cons.
  destruct (val e) as [v|] eqn:Hv.
  - pose proof (entry_text_length e v Hv). unfold strlen in *. rewrite length_app. lia.
  - unfold entry_text. rewrite Hv. done.
Qed.

Lemma section_text_length sec :
  strlen (section_text sec) = strlen (name sec) + 3 + strlen (mjoin (entry_text <$> entries sec)) + 1.
Proof. unfold section_text, strlen. rewrite !length_app. change (length (cs "[")) with 1%nat. change (length (cs "]")) with 1%nat. cbn [length]. lia. Qed.

Lemma sections_size_text l m : sections_size l m = m + strlen (config_text l).
Proof.
  revert m. induction l as [|sec l IH]; intros m; cbn [sections_size]; [ unfold strlen; cbn; lia | ].
  rewrite IH, entries_size_text. unfold config_text in *. rewrite text_cons. pose proof (section_text_length sec).
  unfold strlen in *. rewrite length_app. lia.
Qed.

(** *** Escaping in place *)

Lemma escaped_app a b : escaped (a ++ b) = escaped a ++ escaped b.
Proof. induction a as [|c a IH]; cbn; [ done | ]. rewrite IH. by destruct (c =? LF). Qed.

Lemma escaped_id v : LF ∉ v -> escaped v = v.
Proof.
  induction v as [|c v IH]; cbn; [ done | ]. intros [Hc Hv]%not_elem_of_cons.
  destruct (Z.eqb_spec c LF); [ congruence | ]. by rewrite IH.
Qed.

Lemma count_newlines_app a b : count_newlines (a ++ b) = count_newlines a + count_newlines b.
Proof. induction a as [|c a IH]; cbn; [ done | ]. rewrite IH. lia. Qed.

Lemma count_newlines_0 v : LF ∉ v -> count_newlines v = 0.
Proof.
  induction v as [|c v IH]; cbn; [ done | ]. intros [Hc Hv]%not_elem_of_cons.
  destruct (Z.eqb_spec c LF); [ congruence | ]. by rewrite IH.
Qed.

(** Moving the text behind a newline by one character and replacing the newline *)
Lemma escape_step p r z :
  (rest ← mem_read (p ++ LF :: r ++ replicate (S z) 0) (length p + 1) (length r);
   buf ← mem_write (p ++ LF :: r ++ replicate (S z) 0) (length p + 2) rest;
   mem_write buf (length p) [BACKSLASH; 110])
  = Ret (p ++ BACKSLASH :: 110 :: r ++ replicate z 0).
Proof.
  unfold mem_read. lengths. rewrite length_replicate, (proj2 (Nat.leb_le _ _)) by lia. cbn [mbind outcome_bind].
  rewrite drop_app_add. cbn [drop]. rewrite drop_0, take_app_length. unfold mem_write. lengths.
  rewrite length_replicate, (proj2 (Nat.leb_le _ _)) by lia. cbn [mbind outcome_bind].
  destruct (r ++ replicate (S z) 0) as [|x tl] eqn:E; [ destruct r; done | ].
  assert (Htl : drop (length r) tl = replicate z 0).
  { change (drop (length r) tl) with (drop (S (length r)) (x :: tl)). rewrite <- E.
    rewrite drop_app_ge, Nat.sub_succ_l, Nat.sub_diag by lia. done. }
  replace (length p + 2 + length r)%nat with (length p + (2 + length r))%nat by lia.
  rewrite drop_app_add, take_app_add. cbn [Nat.add drop take]. rewrite Htl.
  lengths. rewrite (proj2 (Nat.leb_le _ _)) by lia. rewrite <- app_assoc. cbn [app].
  rewrite take_app_length, drop_app_add. done.
Qed.

Lemma escape_newlines_ok fuel v z :
  is_cstr v -> count_newlines v < Z.of_nat fuel -> count_newlines v < Z.of_nat z ->
  escape_newlines fuel (v ++ replicate z 0)
  = Ret (escaped v ++ replicate (z - Z.to_nat (count_newlines v)) 0).
Proof.
  revert v z. induction fuel as [|fuel IH]; intros v z Hc Hf Hz; [ pose proof (count_newlines_nonneg v); lia | ].
  destruct z as [|z]; [ pose proof (count_newlines_nonneg v); lia | ]. cbn [escape_newlines].
  rewrite (bind_ret (c_str _) v) by (by apply c_str_terminated).
  destruct (strchr v LF) as [pos|] eqn:E.
  - apply strchr_Some in E as (p & r & -> & Hp & ->).
    rewrite count_newlines_app, (count_newlines_0 p Hp) in Hf, Hz |- *. cbn [count_newlines] in Hf, Hz |- *.
    change (LF =? LF) with true in *. cbn iota in *.
    replace (length (p ++ LF :: r) - (length p + 1))%nat with (length r) by (lengths; lia).
    rewrite <- app_assoc. cbn [app].
    pose proof (escape_step p r z) as Hstep. unfold outcome_bind in *. unfold mbind in *.
    destruct (mem_read _ _ _) as [rest| |]; [ | done | done ].
    destruct (mem_write _ (length p + 2) rest) as [buf| |]; [ | done | done ]. rewrite Hstep.
    change (p ++ BACKSLASH :: 110 :: r ++ replicate z 0) with (p ++ [BACKSLASH; 110] ++ r ++ replicate z 0).
    rewrite !app_assoc. rewrite <- (app_assoc p). rewrite IH.
    + rewrite !escaped_app, (escaped_id p Hp), !count_newlines_app, (count_newlines_0 p Hp).
      pose proof (count_newlines_nonneg r). f_equal. f_equal. f_equal. cbn [count_newlines]. cbn. lia.
    + apply is_cstr_app in Hc as [Hc1 Hc2]. apply Forall_cons in Hc2 as [_ Hc2].
      apply is_cstr_app. split; [ done | ]. apply is_cstr_app. split; [ repeat constructor; done | done ].
    + rewrite !count_newlines_app, (count_newlines_0 p Hp). cbn. lia.
    + rewrite !count_newlines_app, (count_newlines_0 p Hp). cbn. lia.
  - apply strchr_None in E. by rewrite escaped_id, (count_newlines_0 v) by done.
Qed.

(** *** Pass 2 *)

Lemma count_newlines_le v : count_newlines v <= strlen v.
Proof. unfold strlen. induction v as [|c v IH]; cbn [count_newlines length]; [ lia | ]. destruct (c =? LF); lia. Qed.

Lemma escaped_cstr v : is_cstr v -> is_cstr (escaped v).
Proof.
  induction 1 as [|c v Hc _ IH]; cbn; [ constructor | ]. destruct (c =? LF); repeat constructor; done.
Qed.

Lemma write_entry_ok out e k :
  entry_cstr e -> can_alloc (strlen (entry_text e) + 1) ->
  write_entry (out ++ replicate (length (entry_text e) + k) 0) (length out) e
  = Ret ((out ++ entry_text e) ++ replicate k 0, length (out ++ entry_text e)).
Proof.
  intros [Hk Hv] Ha. unfold write_entry, entry_text in *. destruct (val e) as [v|].
  - destruct (Hv v eq_refl) as [Hc Hm]. clear Hv. rewrite (bind_ret _ _ _ (GNUNET_malloc_ok _ Hm)).
    replace (Z.to_nat (strlen v * 2 + 1)) with (length (v ++ [0%Z]) + length v)%nat by (unfold strlen; lengths; lia).
    rewrite (bind_ret _ _ _ (write_zeros [] (v ++ [0]) (length v))). cbn [app].
    replace ((v ++ [0]) ++ replicate (length v) 0) with (v ++ replicate (S (length v)) 0) by (by rewrite <- app_assoc).
    pose proof (count_newlines_le v) as Hle. pose proof (count_newlines_nonneg v) as H0. unfold strlen in Hle.
    rewrite (bind_ret _ _ _ (escape_newlines_ok (S (length v)) v (S (length v)) Hc ltac:(lia) ltac:(lia))).
    destruct (S (length v) - Z.to_nat (count_newlines v))%nat as [|z] eqn:Ez; [ lia | ].
    rewrite (bind_ret _ _ _ (c_str_terminated (escaped v) (replicate z 0) (escaped_cstr v Hc))).
    rewrite (bind_ret _ _ _ (asprintf_ok _ Ha)), (bind_ret _ _ _ (write_zeros _ _ _)).
    by rewrite (length_app out).
  - cbn. by rewrite app_nil_r.
Qed.

Lemma write_entries_ok l out k :
  Forall entry_cstr l -> can_alloc (strlen (mjoin (entry_text <$> l)) + 1) ->
  write_entries (out ++ replicate (length (mjoin (entry_text <$> l)) + k) 0) (length out) l
  = Ret ((out ++ mjoin (entry_text <$> l)) ++ replicate k 0, length (out ++ mjoin (entry_text <$> l))).
Proof.
  intros Hl. revert out. induction Hl as [|e l He _ IH]; intros out Ha.
  - cbn. by rewrite app_nil_r.
  - rewrite text_cons in *. unfold can_alloc, strlen in *. rewrite length_app in *. cbn [write_entries].
    rewrite <- Nat.add_assoc.
    rewrite (bind_ret _ _ _ (write_entry_ok out e _ He ltac:(unfold can_alloc, strlen; lia))).
    rewrite IH by lia. by rewrite <- !app_assoc.
Qed.

Lemma write_sections_ok l out k :
  Forall section_cstr l -> can_alloc (strlen (config_text l) + 1) ->
  write_sections (out ++ replicate (length (config_text l) + k) 0) (length out) l
  = Ret ((out ++ config_text l) ++ replicate k 0, length (out ++ config_text l)).
Proof.
  intros Hl. revert out. induction Hl as [|sec l [Hn He] _ IH]; intros out Ha.
  - cbn. by rewrite app_nil_r.
  - unfold config_text in *. rewrite text_cons in *. cbn [write_sections].
    set (tl := mjoin (section_text <$> l)) in *. unfold section_text in Ha |- *.
    set (hd := cs "[" ++ name sec ++ cs "]" ++ [LF]) in *. set (body := mjoin (entry_text <$> entries sec)) in *.
    assert (Hlen : Z.of_nat (length hd + (length body + 1) + length tl) + 1 <= GNUNET_MAX_MALLOC_CHECKED).
    { clear -Ha. unfold can_alloc, strlen in Ha. rewrite !length_app in Ha. exact Ha. }
    rewrite (bind_ret _ _ _ (asprintf_ok hd ltac:(unfold can_alloc, strlen; lia))).
    assert (Hpos : (0 < length hd)%nat) by (unfold hd; rewrite length_app; change (length (cs "[")) with 1%nat; lia).
    rewrite (bind_ret (gnunet_assert _) tt) by (apply gnunet_assert_true; unfold strlen; lia).
    replace (length ((hd ++ body ++ [LF]) ++ tl) + k)%nat
      with (length hd + (length body + (1 + (length tl + k))))%nat by (rewrite !length_app; cbn [length]; lia).
    rewrite (bind_ret _ _ _ (write_zeros out hd _)). rewrite <- length_app.
    rewrite (bind_ret _ _ _ (write_entries_ok (entries sec) (out ++ hd) _ He
      ltac:(unfold can_alloc, strlen; fold body; lia))). fold body.
    rewrite (bind_ret _ _ _ (write_zeros ((out ++ hd) ++ body) [LF] (length tl + k))).
    replace (length ((out ++ hd) ++ body) + 1)%nat with (length (((out ++ hd) ++ body) ++ [LF]))
      by (rewrite (length_app _ [_]); done).
    rewrite IH by (unfold can_alloc, strlen; lia). by rewrite <- !app_assoc.
Qed.

(** The serialized form of a configuration whose text stays below the limit of 40 MB *)
Lemma serialize_sections_ok cfg :
  Forall section_cstr (sections cfg) -> can_alloc (strlen (config_text (sections cfg)) + 1) ->
  GNUNET_CONFIGURATION_serialize cfg = Ret (config_text (sections cfg)).
Proof.
  intros Hs Ha. unfold GNUNET_CONFIGURATION_serialize. rewrite sections_size_text, Z.add_0_l.
  rewrite (bind_ret _ _ _ (GNUNET_malloc_ok (strlen (config_text (sections cfg))) ltac:(unfold can_alloc in *; lia))).
  pose proof (write_sections_ok (sections cfg) [] 0 Hs Ha) as Hw. cbn [app length] in Hw.
  unfold strlen. rewrite Nat2Z.id. rewrite Nat.add_0_r in Hw. rewrite (bind_ret _ _ _ Hw).
  rewrite gnunet_assert_true by lia. cbn. by rewrite app_nil_r.
Qed.

(** ** Names and values that survive the textual form *)

Definition section_name_ok (n : str) : Prop :=
  (1 <= length n <= 99)%nat /\ Forall (fun c => c <> 0 /\ c <> LF /\ c <> TAB /\ c <> 93) n.

Record key_ok (k : str) : Prop := {
  ko_length : (1 <= length k <= 63)%nat;
  ko_chars : Forall (fun c => c <> 0 /\ c <> LF /\ c <> TAB /\ c <> SPACE /\ c <> 61) k;
  ko_head : forall c, head k = Some c -> isspace c = false /\ c <> 35 /\ c <> 37 /\ c <> 91;
  ko_inline : take 8 k <> cs "@INLINE@"
}.

Record value_ok (v : str) : Prop := {
  vo_length : (length v <= 191)%nat;
  vo_chars : Forall (fun c => c <> 0 /\ c <> LF /\ c <> TAB) v;
  vo_start : stops isspace v;
  vo_end : stops isspace (reverse v);
  vo_quote : head v <> Some QUOTE
}.

Definition entry_ok (e : ConfigEntry) : Prop :=
  exists v, val e = Some v /\ key_ok (key e) /\ value_ok v /\ (length (key e) + length v <= 251)%nat.

Definition section_ok (sec : ConfigSection) : Prop := section_name_ok (name sec) /\ Forall entry_ok (entries sec).

(** *** Lines *)

Lemma notin_Forall (x : Z) s : Forall (fun c => c <> x) s -> x ∉ s.
Proof. induction 1; [ apply not_elem_of_nil | ]. apply not_elem_of_cons. by split. Qed.

Lemma tabs_to_spaces_id s : TAB ∉ s -> tabs_to_spaces s = s.
Proof.
  induction s as [|c s IH]; [ done | ]. intros [Hc Hs]%not_elem_of_cons. cbn.
  destruct (Z.eqb_spec c 9); [ congruence | ]. f_equal. by apply IH.
Qed.

Lemma sscanf_lits s l f :
  sscanf s (lits l ++ f) = if bool_decide (take (length (cs l)) s = cs l) then sscanf (drop (length (cs l)) s) f else [].
Proof.
  unfold lits. revert s. induction (cs l) as [|c l' IH]; intros s.
  - cbn. rewrite drop_0. done.
  - cbn. destruct s as [|b s]; [ done | ]. destruct (Z.eqb_spec b c) as [->|Hb].
    + rewrite IH. cbn.
      destruct (bool_decide_reflect (take (length l') s = l')) as [H|H].
      * rewrite bool_decide_eq_true_2; [ done | ]. by rewrite H.
      * rewrite bool_decide_eq_false_2; [ done | ]. intros Heq. apply H. by injection Heq.
    + rewrite bool_decide_eq_false_2; [ done | ]. intros Heq. apply Hb. by injection Heq.
Qed.

Lemma read_line_ok line rest :
  is_cstr line -> LF ∉ line -> (length line < 255)%nat ->
  read_line (line ++ LF :: rest) = (line ++ [LF], (length line + 1)%nat).
Proof.
  intros Hc Hn Hl. unfold read_line.
  assert (Ht : exists tl, take 255 (line ++ LF :: rest) = line ++ LF :: tl).
  { exists (take (254 - length line) rest). rewrite take_app_ge by lia.
    replace (255 - length line)%nat with (S (254 - length line)) by lia. done. }
  destruct Ht as [tl ->].
  assert (Hu : exists tl', upto_nul (line ++ LF :: tl) = line ++ LF :: tl').
  { exists (upto_nul tl). clear -Hc. induction Hc as [|c line Hc _ IH]; cbn; [ done | ].
    destruct (Z.eqb_spec c 0); [ done | ]. by rewrite IH. }
  destruct Hu as [tl' ->]. rewrite strchr_app_new by done. f_equal.
  rewrite take_app_ge by lia. by replace (length line + 1 - length line)%nat with 1%nat by lia.
Qed.

Lemma parse_section_line n : section_name_ok n -> parse_line (cs "[" ++ n ++ cs "]" ++ [LF]) = Section_ n.
Proof.
  intros [Hl Hc]. change (cs "[" ++ n ++ cs "]" ++ [LF]) with ([91] ++ n ++ [93; LF]).
  unfold parse_line. rewrite tabs_to_spaces_id.
  2:{ apply notin_Forall, Forall_app. split; [ by repeat constructor | ]. apply Forall_app.
      split; [ | by repeat constructor ]. eapply Forall_impl; [ exact Hc | ]. by intros c (_ & _ & ? & _). }
  cbn [app is_comment]. change (91 =? _) with false at 1. cbn [orb].
  change (is_empty_line (91 :: n ++ [93; LF])) with false. cbn iota.
  change (91 :: n ++ [93; LF]) with ([91] ++ n ++ [93] ++ [LF]). rewrite !app_assoc, strip_end_app.
  2:{ repeat constructor. }
  2:{ rewrite reverse_app. by apply stops_cons. }
  change ((([91] ++ n) ++ [93])) with (91 :: n ++ [93]).
  change (sscanf (91 :: n ++ [93]) inline_format) with (@nil capture). cbn iota.
  cbn [section_format sscanf]. change (91 =? 91) with true. cbn iota.
  rewrite span_app; [ | | by apply stops_cons | lia ].
  - destruct n as [|c n]; [ cbn in Hl; lia | ]. done.
  - eapply Forall_impl; [ exact Hc | ]. intros c (_ & _ & _ & H). cbn.
    rewrite bool_decide_eq_false_2; [ done | ]. by rewrite list_elem_of_singleton.
Qed.

Section EntryLine.
Context (k v : str) (Hk : key_ok k) (Hv : value_ok v).

Lemma entry_line_no_tab : TAB ∉ (k ++ cs " = " ++ v ++ [LF]).
Proof.
  apply notin_Forall. repeat (apply Forall_app; split).
  - eapply Forall_impl; [ exact (ko_chars _ Hk) | ]. by intros c (_ & _ & ? & _).
  - by repeat constructor.
  - eapply Forall_impl; [ exact (vo_chars _ Hv) | ]. by intros c (_ & _ & ?).
  - by repeat constructor.
Qed.

(** The line without its white space at the end *)
Definition stripped : str := k ++ (if decide (v = []) then cs " =" else cs " = " ++ v).

Lemma entry_line_strip : strip_end isspace (k ++ cs " = " ++ v ++ [LF]) = stripped.
Proof.
  unfold stripped. destruct (decide (v = [])) as [->|Hne].
  - change (k ++ cs " = " ++ [] ++ [LF]) with (k ++ cs " =" ++ [SPACE; LF]). rewrite app_assoc.
    apply strip_end_app; [ by repeat constructor | ]. rewrite reverse_app. by apply stops_cons.
  - rewrite !app_assoc. rewrite strip_end_app.
    + by rewrite <- !app_assoc.
    + by repeat constructor.
    + rewrite !reverse_app. intros c Hc. apply (vo_end _ Hv). destruct (reverse v) eqn:E; [ | exact Hc ].
      by apply reverse_nil_inv in E || (apply (f_equal reverse) in E; rewrite reverse_involutive in E; done).
Qed.

(** What follows the key *)
Definition behind : str := if decide (v = []) then cs " =" else cs " = " ++ v.

Lemma key_head : exists c k', k = c :: k' /\ isspace c = false /\ c <> 35 /\ c <> 37 /\ c <> 91.
Proof.
  pose proof (ko_length _ Hk). pose proof (ko_head _ Hk) as Hh. destruct k as [|c k'].
  - cbn in *. lia.
  - exists c, k'. split; [ done | ]. by apply Hh.
Qed.

Lemma behind_head : exists r, behind = SPACE :: r.
Proof. unfold behind. destruct (decide _); eexists; reflexivity. Qed.

Lemma key_not_inline : sscanf stripped inline_format = [].
Proof.
  unfold inline_format. rewrite sscanf_lits, bool_decide_eq_false_2; [ done | ]. intros Ht.
  change (length (cs "@INLINE@")) with 8%nat in Ht. change stripped with (k ++ behind) in Ht.
  destruct (le_lt_dec 8 (length k)) as [Hl|Hl].
  - rewrite take_app_le in Ht by done. by apply (ko_inline _ Hk).
  - destruct behind_head as [r Hr]. rewrite Hr, take_app_ge in Ht by lia.
    replace (8 - length k)%nat with (S (7 - length k)) in Ht by lia. cbn [take] in Ht.
    assert (Hin : SPACE ∈ cs "@INLINE@") by (rewrite <- Ht; apply elem_of_app; right; by left).
    revert Hin. apply (bool_decide_unpack _). vm_compute. exact I.
Qed.

Lemma key_span w : (63 <= w)%nat ->
  span w (fun c => negb (bool_decide (c ∈ cs "= "))) (k ++ behind) = (k, behind).
Proof.
  intros Hw. apply span_app.
  - eapply Forall_impl; [ exact (ko_chars _ Hk) | ]. intros c (_ & _ & _ & H1 & H2).
    rewrite bool_decide_eq_false_2; [ done | ]. change (cs "= ") with [61; SPACE].
    rewrite !elem_of_cons. intros [?|[?|?%elem_of_nil]]; done.
  - destruct behind_head as [r ->]. by apply stops_cons.
  - pose proof (ko_length _ Hk). lia.
Qed.
End EntryLine.

Lemma span_value v : value_ok v -> span 191 (fun c => negb (bool_decide (c ∈ [LF]))) v = (v, []).
Proof.
  intros Hv. apply span_full; [ | exact (vo_length _ Hv) ].
  eapply Forall_impl; [ exact (vo_chars _ Hv) | ]. intros c (_ & Hc & _).
  rewrite bool_decide_eq_false_2; [ done | ]. by rewrite list_elem_of_singleton.
Qed.

Lemma sscanf_key k v rest :
  key_ok k -> sscanf (k ++ behind v) (Space :: Scanset 63 (cs "= ") :: rest) = Word k :: sscanf (behind v) rest.
Proof.
  intros Hk. cbn [sscanf]. destruct (key_head k Hk) as (c & k' & E & Hs & _).
  rewrite drop_while_stops by (rewrite E; by apply stops_cons).
  rewrite key_span by done. by rewrite E.
Qed.

Lemma sscanf_behind v :
  value_ok v ->
  sscanf (behind v) [Space; Lit 61; Space; Scanset 191 [LF]] = if decide (v = []) then [] else [Word v].
Proof.
  intros Hv. unfold behind. destruct (decide (v = [])) as [->|Hne]; [ done | ].
  change (cs " = " ++ v) with (SPACE :: 61 :: SPACE :: v). cbn [sscanf drop_while].
  change (isspace SPACE) with true. change (isspace 61) with false. change (61 =? 61) with true. cbn iota.
  change (drop_while isspace (SPACE :: v)) with (drop_while isspace v).
  rewrite drop_while_stops by exact (vo_start _ Hv). rewrite span_value by done. by destruct v.
Qed.

Lemma sscanf_behind_empty : sscanf (behind []) [Space; Lit 61; Lit 91; Lit 94; Space; Lit 93] = [].
Proof. reflexivity. Qed.

Lemma remove_quotes_id v : head v <> Some QUOTE -> remove_quotes v = v.
Proof. destruct v as [|c v]; [ done | ]. cbn. destruct (Z.eqb_spec c QUOTE); [ congruence | done ]. Qed.

Lemma parse_entry_line k v : key_ok k -> value_ok v -> parse_line (k ++ cs " = " ++ v ++ [LF]) = Assign k v.
Proof.
  intros Hk Hv. destruct (key_head k Hk) as (c & k' & E & Hs & H35 & H37 & H91). unfold parse_line.
  rewrite tabs_to_spaces_id by by apply entry_line_no_tab.
  assert (Hc : is_comment (k ++ cs " = " ++ v ++ [LF]) = false).
  { rewrite E. cbn. unfold isspace in Hs. lia. }
  assert (He : is_empty_line (k ++ cs " = " ++ v ++ [LF]) = false).
  { rewrite E. unfold is_empty_line. cbn [app forallb]. unfold isspace in Hs.
    apply andb_false_iff. left. lia. }
  rewrite Hc, He. cbn iota. rewrite entry_line_strip, key_not_inline by done. cbn iota.
  assert (Hsec : sscanf (stripped k v) section_format = []).
  { unfold stripped. rewrite E. cbn. by destruct (Z.eqb_spec c 91). }
  rewrite Hsec. cbn iota. change (stripped k v) with (k ++ behind v).
  unfold assign_format, empty_format. rewrite sscanf_key, sscanf_behind by done.
  destruct (decide (v = [])) as [->|Hne].
  - by rewrite sscanf_key.
  - rewrite strip_end_id by exact (vo_end _ Hv). by rewrite remove_quotes_id by exact (vo_quote _ Hv).
Qed.

(** ** The loop *)

Section Loop.
Context (parse : Handle -> str -> outcome (Handle * Z)) (allow_inline : bool).

Lemma read_line_pos rest : rest <> [] -> (1 <= (read_line rest).2)%nat.
Proof.
  intros Hr. unfold read_line. destruct (strchr _ LF); cbn [snd]; [ lia | ].
  rewrite length_take. destruct rest; [ done | cbn; lia ].
Qed.

Lemma deserialize_fuel fuel fuel' cfg section ret rest :
  (length rest <= fuel)%nat -> (length rest <= fuel')%nat ->
  deserialize_lines parse fuel allow_inline cfg section ret rest
  = deserialize_lines parse fuel' allow_inline cfg section ret rest.
Proof.
  revert fuel' cfg section ret rest. induction fuel as [|fuel IH]; intros fuel' cfg section ret rest Hf Hf'.
  - destruct rest; [ by destruct fuel' | cbn in Hf; lia ].
  - destruct rest as [|b rest]; [ by destruct fuel' | ]. destruct fuel' as [|fuel']; [ cbn in Hf'; lia | ].
    cbn [deserialize_lines]. pose proof (read_line_pos (b :: rest) ltac:(done)) as Hp.
    destruct (read_line (b :: rest)) as [line n]. cbn [snd] in Hp.
    assert (Hd : forall f, (length (b :: rest) <= S f)%nat -> (length (drop n (b :: rest)) <= f)%nat).
    { intros f. rewrite length_drop. cbn [length]. lia. }
    destruct (parse_line line); try (apply IH; by apply Hd).
    + destruct allow_inline; [ | apply IH; by apply Hd ]. destruct (parse cfg filename) as [[c r]| |]; [ | done | done ].
      cbn. apply IH; by apply Hd.
    + destruct (GNUNET_strdup section0); [ | done | done ]. cbn. apply IH; by apply Hd.
    + destruct (GNUNET_CONFIGURATION_set_value_string _ _ _ _); [ | done | done ]. cbn. apply IH; by apply Hd.
    + done.
Qed.

(** The loop with enough fuel *)
Definition deser (cfg : Handle) (section : str) (ret : Z) (rest : list Z) : outcome (Handle * Z * list Z) :=
  deserialize_lines parse (length rest) allow_inline cfg section ret rest.

(** One round, after the line has been read *)
Definition act (a : line_action) (cfg : Handle) (section : str) (ret : Z) (rest : list Z)
  : outcome (Handle * Z * list Z) :=
  match a with
  | Skip => deser cfg section ret rest
  | Inline value =>
      if allow_inline then
        '(cfg, r) ← parse cfg value;
        deser cfg section (if r =? GNUNET_OK then ret else GNUNET_SYSERR) rest
      else deser cfg section ret rest
  | Section_ value => section ← GNUNET_strdup value; deser cfg section ret rest
  | Assign tag value =>
      cfg ← GNUNET_CONFIGURATION_set_value_string cfg section tag (Some value);
      deser cfg section ret rest
  | SyntaxError => Ret (cfg, GNUNET_SYSERR, rest)
  end.

Lemma deser_step cfg section ret rest :
  rest <> [] ->
  deser cfg section ret rest =
  let '(line, n) := read_line rest in
  act (parse_line line) cfg section ret (drop n rest).
Proof.
  intros Hr. unfold deser at 1. destruct rest as [|b rest]; [ done | ]. cbn [length deserialize_lines].
  pose proof (read_line_pos (b :: rest) ltac:(done)) as Hp.
  destruct (read_line (b :: rest)) as [line n]. cbn [snd] in Hp. cbn zeta.
  assert (Hd : (length (drop n (b :: rest)) <= length rest)%nat) by (rewrite length_drop; cbn [length]; lia).
  assert (He : forall c s r, deserialize_lines parse (length rest) allow_inline c s r (drop n (b :: rest))
    = deser c s r (drop n (b :: rest))) by (intros; by apply deserialize_fuel).
  destruct (parse_line line); cbn [act]; rewrite ?He; try done.
  - destruct allow_inline; [ | done ]. destruct (parse cfg filename) as [[c r]| |]; [ | done | done ]. cbn. by rewrite He.
  - destruct (GNUNET_strdup section0); [ | done | done ]. cbn. by rewrite He.
  - destruct (GNUNET_CONFIGURATION_set_value_string _ _ _ _); [ | done | done ]. cbn. by rewrite He.
Qed.

Lemma deser_line cfg section ret line rest :
  is_cstr line -> LF ∉ line -> (length line < 255)%nat ->
  deser cfg section ret (line ++ LF :: rest) =
  act (parse_line (line ++ [LF])) cfg section ret rest.
Proof.
  intros Hc Hn Hl. rewrite deser_step by by destruct line. rewrite read_line_ok by done. cbn zeta.
  replace (drop (length line + 1) (line ++ LF :: rest)) with rest; [ done | ].
  rewrite drop_app_add. cbn [drop]. by rewrite drop_0.
Qed.
End Loop.

(** ** Reading what was written *)

Lemma short_str_ok s : (length s <= 1000)%nat -> str_ok s.
Proof. intros H. unfold str_ok, can_alloc, GNUNET_MAX_MALLOC_CHECKED, strlen. lia. Qed.

Lemma entry_text_ok e :
  entry_ok e -> exists v, val e = Some v /\ entry_text e = (key e ++ cs " = " ++ v) ++ [LF]
    /\ parse_line ((key e ++ cs " = " ++ v) ++ [LF]) = Assign (key e) v
    /\ is_cstr (key e ++ cs " = " ++ v) /\ (LF ∉ (key e ++ cs " = " ++ v))
    /\ (length (key e ++ cs " = " ++ v) < 255)%nat.
Proof.
  intros (v & Hv & Hk & Hval & Hl). exists v. split; [ done | ].
  assert (Hn : LF ∉ v).
  { apply notin_Forall. eapply Forall_impl; [ exact (vo_chars _ Hval) | ]. by intros c (_ & ? & _). }
  split; [ unfold entry_text; rewrite Hv, escaped_id by done; by rewrite <- !app_assoc | ].
  split; [ rewrite <- !app_assoc; by apply parse_entry_line | ].
  split; [ | split ].
  - apply is_cstr_app. split; [ | apply is_cstr_app; split; [ by repeat constructor | ] ].
    + eapply Forall_impl; [ exact (ko_chars _ Hk) | ]. by intros c (? & _).
    + eapply Forall_impl; [ exact (vo_chars _ Hval) | ]. by intros c (? & _).
  - apply notin_Forall. repeat (apply Forall_app; split).
    + eapply Forall_impl; [ exact (ko_chars _ Hk) | ]. by intros c (_ & ? & _).
    + by repeat constructor.
    + eapply Forall_impl; [ exact (vo_chars _ Hval) | ]. by intros c (_ & ? & _).
  - rewrite !length_app. change (length (cs " = ")) with 3%nat. lia.
Qed.

Section Read.
Context (parse : Handle -> str -> outcome (Handle * Z)) (allow_inline : bool).
Local Abbreviation deser := (deser parse allow_inline).

Lemma deser_entries n l cfg ret rest :
  Forall entry_ok l ->
  deser cfg n ret (mjoin (entry_text <$> l) ++ rest)
  = (cfg ← fold_opts copy_entry cfg (flat_section (mk_section n l)); deser cfg n ret rest).
Proof.
  intros Hl. revert cfg. induction Hl as [|e l He _ IH]; intros cfg; [ done | ].
  rewrite text_cons. destruct (entry_text_ok e He) as (v & Hv & -> & Hp & Hc & Hn & Hlen).
  set (L := key e ++ cs " = " ++ v) in *. rewrite <- !app_assoc. cbn [app].
  rewrite deser_line by done. rewrite Hp. cbn [act].
  unfold flat_section. cbn. rewrite Hv.
  change (copy_entry cfg n (key e) (Some v)) with (GNUNET_CONFIGURATION_set_value_string cfg n (key e) (Some v)).
  destruct (GNUNET_CONFIGURATION_set_value_string _ _ _ _) as [c| |]; [ | done | done ]. apply IH.
Qed.

Lemma deser_blank cfg section ret rest : deser cfg section ret (LF :: rest) = deser cfg section ret rest.
Proof. apply (deser_line parse allow_inline cfg section ret [] rest); [ constructor | apply not_elem_of_nil | cbn; lia ]. Qed.

Lemma deser_sections l cfg section ret :
  Forall section_ok l ->
  deser cfg section ret (config_text l) = (cfg ← fold_opts copy_entry cfg (flat l); Ret (cfg, ret, [])).
Proof.
  intros Hl. revert cfg section. induction Hl as [|sec l [Hn He] _ IH]; intros cfg section; [ done | ].
  unfold config_text. rewrite text_cons. unfold section_text.
  set (tl := mjoin (section_text <$> l)). replace (cs "[" ++ name sec ++ cs "]" ++ [LF])
    with ((cs "[" ++ name sec ++ cs "]") ++ [LF]) by (by rewrite <- !app_assoc).
  set (L := cs "[" ++ name sec ++ cs "]"). rewrite <- !app_assoc. cbn [app]. destruct Hn as [Hlen Hch].
  rewrite deser_line; unfold L.
  - rewrite <- !app_assoc, parse_section_line by by split. cbn [act].
    rewrite (bind_ret (GNUNET_strdup _) (name sec)) by (apply strdup_str_ok, short_str_ok; lia).
    rewrite deser_entries by done. rewrite flat_cons, fold_opts_app. destruct sec as [n es].
    cbn [name entries] in *. destruct (fold_opts copy_entry cfg _) as [c| |]; [ | done | done ]. cbn [mbind outcome_bind].
    rewrite deser_blank. apply IH.
  - apply is_cstr_app. split; [ by repeat constructor | ]. apply is_cstr_app. split; [ | by repeat constructor ].
    eapply Forall_impl; [ exact Hch | ]. by intros c (? & _).
  - apply notin_Forall. repeat (apply Forall_app; split); try by repeat constructor.
    eapply Forall_impl; [ exact Hch | ]. by intros c (_ & ? & _).
  - rewrite !length_app. change (length (cs "[")) with 1%nat. change (length (cs "]")) with 1%nat. lia.
Qed.

(** Deserializing the text of a configuration copies its options. *)
Lemma deserialize_text cfg dst :
  Forall section_ok (sections cfg) ->
  GNUNET_CONFIGURATION_deserialize parse dst (config_text (sections cfg)) allow_inline
  = (dst ← GNUNET_CONFIGURATION_iterate cfg copy_entry dst; Ret (dst, GNUNET_OK)).
Proof.
  intros Hs. unfold GNUNET_CONFIGURATION_deserialize.
  change (deserialize_lines parse (length (config_text (sections cfg))) allow_inline dst [] GNUNET_OK
    (config_text (sections cfg))) with (deser dst [] GNUNET_OK (config_text (sections cfg))).
  rewrite deser_sections by done. rewrite iterate_fold. by destruct (fold_opts _ _ _).
Qed.
End Read.

Lemma section_ok_cstr sec : section_ok sec -> section_cstr sec.
Proof.
  intros [[_ Hn] He]. split; [ eapply Forall_impl; [ exact Hn | ]; by intros c (? & _) | ].
  eapply Forall_impl; [ exact He | ]. intros e (v & Hv & Hk & Hval & _). split.
  - eapply Forall_impl; [ exact (ko_chars _ Hk) | ]. by intros c (? & _).
  - intros w Hw. assert (w = v) as -> by congruence. split.
    + eapply Forall_impl; [ exact (vo_chars _ Hval) | ]. by intros c (? & _).
    + pose proof (vo_length _ Hval). unfold can_alloc, GNUNET_MAX_MALLOC_CHECKED, strlen. lia.
Qed.

(** What makes a configuration survive its textual form *)
Definition text_ok (cfg : Handle) : Prop :=
  Forall section_ok (sections cfg) /\ can_alloc (strlen (config_text (sections cfg)) + 1).

Lemma serialize_text_ok cfg :
  text_ok cfg -> GNUNET_CONFIGURATION_serialize cfg = Ret (config_text (sections cfg)).
Proof.
  intros [Hs Ha]. apply serialize_sections_ok; [ | done ]. eapply Forall_impl; [ exact Hs | ]. apply section_ok_cstr.
Qed.

(** *** Newlines

    The configuration that is read back has each newline of a value as the two characters
    that the text has for it. *)

Definition escape_entry (e : ConfigEntry) : ConfigEntry := mk_entry (key e) (escaped <$> val e).
Definition escape_section (sec : ConfigSection) : ConfigSection :=
  mk_section (name sec) (escape_entry <$> entries sec).
Definition escape_cfg (cfg : Handle) : Handle :=
  mk_cfg (escape_section <$> sections cfg) (dirty cfg).

Lemma escaped_no_newline v : LF ∉ escaped v.
Proof.
  induction v as [|c v IH]; [ apply not_elem_of_nil | ]. cbn [escaped].
  destruct (Z.eqb_spec c LF); rewrite !not_elem_of_cons; split_and!; done.
Qed.

Lemma escaped_longer v : (length v <= length (escaped v))%nat.
Proof. induction v as [|c v IH]; [ done | ]. cbn [escaped]. destruct (c =? LF); cbn [length]; lia. Qed.

Lemma escaped_cstr_inv v : is_cstr (escaped v) -> is_cstr v.
Proof.
  induction v as [|c v IH]; [ done | ]. cbn [escaped]. destruct (Z.eqb_spec c LF) as [->|Hc].
  - intros [_ [_ H]%Forall_cons]%Forall_cons. constructor; [ done | by apply IH ].
  - intros [H0 H]%Forall_cons. constructor; [ done | by apply IH ].
Qed.

Lemma config_text_escape cfg : config_text (sections (escape_cfg cfg)) = config_text (sections cfg).
Proof.
  unfold config_text. cbn [escape_cfg sections]. rewrite <- list_fmap_compose. f_equal.
  apply list_fmap_ext. intros _ sec _. unfold compose, section_text. cbn [escape_section name entries].
  rewrite <- list_fmap_compose. do 2 f_equal. f_equal. apply list_fmap_ext. intros _ e _.
  unfold compose, entry_text. cbn [escape_entry key val]. destruct (val e) as [v|]; [ | done ].
  cbn. by rewrite (escaped_id (escaped v)) by apply escaped_no_newline.
Qed.

Lemma abs_escape cfg : abs (escape_cfg cfg) = escaped <$> abs cfg.
Proof.
  unfold abs. rewrite <- list_to_map_fmap. f_equal. cbn [escape_cfg sections].
  induction (sections cfg) as [|sec l IH]; [ done | ].
  rewrite fmap_cons, !flat_cons, !assoc_app, fmap_app, IH. f_equal. clear IH l. destruct sec as [n es].
  unfold flat_section. cbn [escape_section name entries]. induction es as [|e es IH]; [ done | ].
  rewrite !fmap_cons. unfold assoc in *. cbn [omap list_omap]. rewrite IH.
  by destruct e as [k [v|]].
Qed.

Lemma inv_escape cfg : cfg_inv cfg -> text_ok (escape_cfg cfg) -> cfg_inv (escape_cfg cfg).
Proof.
  intros [Hn Hs] [Ht _]. cbn [escape_cfg sections] in *. split; cbn [escape_cfg sections].
  - by rewrite <- list_fmap_compose.
  - apply Forall_fmap. rewrite Forall_fmap in Ht. eapply Forall_impl; [ apply Forall_and; exact (conj Hs Ht) | ].
    intros sec [[S1 S2 S3 S4] [_ He]]. split; cbn [escape_section name entries].
    + done.
    + by destruct (entries sec).
    + by rewrite <- list_fmap_compose.
    + cbn in He. apply Forall_fmap. rewrite Forall_fmap in He.
      eapply Forall_impl; [ apply Forall_and; exact (conj S4 He) | ].
      intros e [[Hk _] (v & Hv & _ & Hval & _)]. split; [ done | ]. exists v. split; [ done | ].
      apply short_str_ok. pose proof (vo_length _ Hval). lia.
Qed.

Lemma serialize_escaped_ok cfg :
  text_ok (escape_cfg cfg) -> GNUNET_CONFIGURATION_serialize cfg = Ret (config_text (sections cfg)).
Proof.
  intros [Hs Ha]. rewrite config_text_escape in Ha. apply serialize_sections_ok; [ | done ].
  cbn [escape_cfg sections] in Hs. rewrite Forall_fmap in Hs. eapply Forall_impl; [ exact Hs | ].
  intros sec Hsec. pose proof (section_ok_cstr _ Hsec) as [Hn He]. destruct Hsec as [_ Hok].
  cbn [escape_section entries name] in *. split; [ done | ]. rewrite Forall_fmap in He, Hok.
  eapply Forall_impl; [ apply Forall_and; exact (conj He Hok) | ].
  intros e [[Hk Hv] (w & Hw & _ & Hval & _)]. cbn [compose escape_entry key val] in *. split; [ done | ].
  intros v Hev. unfold escape_entry in *. rewrite Hev in Hv, Hw. cbn in Hv, Hw. injection Hw as <-.
  split; [ by apply escaped_cstr_inv, Hv | ].
  pose proof (vo_length _ Hval). pose proof (escaped_longer v).
  unfold can_alloc, GNUNET_MAX_MALLOC_CHECKED, strlen. lia.
Qed.

(** ** Arbitrary text *)

Definition short_capture (c : capture) : Prop :=
  match c with Word t => (length t <= 191)%nat | Number _ => True end.

Definition short_directive (d : directive) : Prop :=
  match d with Scanset w _ => (w <= 191)%nat | _ => True end.

Lemma span_length w p s : (length (span w p s).1 <= w)%nat.
Proof.
  revert s. induction w as [|w IH]; intros [|c s]; cbn; try lia. destruct (p c); cbn; [ | lia ].
  specialize (IH s). destruct (span w p s). cbn in *. lia.
Qed.

Lemma sscanf_short s fmt : Forall short_directive fmt -> Forall short_capture (sscanf s fmt).
Proof.
  intros Hf. revert s. induction Hf as [|d fmt Hd _ IH]; intros s; [ constructor | ].
  destruct d as [|c|w ex|b]; cbn [sscanf].
  - apply IH.
  - destruct s as [|b s]; [ constructor | ]. destruct (b =? c); [ apply IH | constructor ].
  - pose proof (span_length w (fun c => negb (bool_decide (c ∈ ex))) s) as Hl.
    destruct (span w _ s) as [[|c t] r]; [ constructor | ]. constructor; [ cbn in *; lia | apply IH ].
  - destruct (strtoull s) as [[v r]|]; [ constructor; [ done | apply IH ] | constructor ].
Qed.

Lemma strip_end_length p s : (length (strip_end p s) <= length s)%nat.
Proof.
  unfold strip_end. rewrite length_reverse. rewrite <- (length_reverse s). generalize (reverse s).
  intros l. induction l as [|c l IH]; cbn; [ lia | ]. destruct (p c); cbn; lia.
Qed.

Lemma remove_quotes_length v : (length (remove_quotes v) <= length v)%nat.
Proof.
  destruct v as [|c v]; cbn; [ lia | ]. destruct (c =? QUOTE); [ | done ].
  destruct (strchr v QUOTE); [ rewrite length_take; lia | done ].
Qed.

Lemma short_value v : (length v <= 191)%nat -> str_ok (remove_quotes (strip_end isspace v)).
Proof.
  intros Hv. apply short_str_ok. pose proof (remove_quotes_length (strip_end isspace v)).
  pose proof (strip_end_length isspace v). lia.
Qed.

(** What a line assigns is short. *)
Lemma parse_line_short line :
  match parse_line line with
  | Section_ n => str_ok n
  | Assign t v => str_ok t /\ str_ok v
  | _ => True
  end.
Proof.
  unfold parse_line. destruct (is_comment _); [ done | ]. destruct (is_empty_line _); [ done | ].
  set (l := strip_end isspace (tabs_to_spaces line)).
  assert (Hi : Forall short_capture (sscanf l inline_format)) by (apply sscanf_short; repeat constructor).
  assert (Hs : Forall short_capture (sscanf l section_format)) by (apply sscanf_short; repeat constructor; cbn; lia).
  assert (Ha : Forall short_capture (sscanf l assign_format)) by (apply sscanf_short; repeat constructor; cbn; lia).
  assert (He : Forall short_capture (sscanf l empty_format)) by (apply sscanf_short; repeat constructor; cbn; lia).
  repeat case_match; try done; simplify_eq;
    repeat match goal with H : Forall short_capture (Word _ :: _) |- _ => apply Forall_cons in H as [? ?] end;
    cbn [short_capture] in *;
    repeat match goal with |- _ /\ _ => split end;
    first [ by apply short_value | apply short_str_ok; cbn [length]; lia ].
Qed.

(** The text behind the first line that is a syntax error *)
Fixpoint first_error (fuel : nat) (rest : list Z) : option (list Z) :=
  match rest, fuel with
  | [], _ | _, O => None
  | _, S fuel' =>
      let '(line, n) := read_line rest in
      match parse_line line with
      | SyntaxError => Some (drop n rest)
      | _ => first_error fuel' (drop n rest)
      end
  end.

Lemma deser_total parse fuel cfg section ret rest :
  cfg_inv cfg -> str_ok section -> (length rest <= fuel)%nat ->
  exists cfg', cfg_inv cfg' /\ deser parse false cfg section ret rest
    = Ret (match first_error fuel rest with
           | Some after => (cfg', GNUNET_SYSERR, after)
           | None => (cfg', ret, [])
           end).
Proof.
  revert cfg section rest. induction fuel as [|fuel IH]; intros cfg section rest Hinv Hs Hf.
  - destruct rest; [ | cbn in Hf; lia ]. by exists cfg.
  - destruct rest as [|b rest]; [ by exists cfg | ]. rewrite deser_step by done. cbn [first_error].
    pose proof (read_line_pos (b :: rest) ltac:(done)) as Hp.
    destruct (read_line (b :: rest)) as [line n]. cbn [snd] in Hp.
    pose proof (parse_line_short line) as Hshort.
    assert (Hd : (length (drop n (b :: rest)) <= fuel)%nat) by (rewrite length_drop; cbn [length] in *; lia).
    destruct (parse_line line) as [|f|s|t v|]; cbn [act].
    + by apply IH.
    + by apply IH.
    + rewrite strdup_str_ok by done. cbn [mbind outcome_bind]. by apply IH.
    + destruct Hshort as [Ht Hv]. destruct (set_value_ok cfg section t v Hinv Hs Ht Hv) as (c & -> & Hc & _).
      cbn [mbind outcome_bind]. by apply IH.
    + by exists cfg.
Qed.

Section TextSpec.

(** C21: Serialization writes exactly config_text, the text that the format
    prescribes for the sections and options in their order, with each newline
    of a value as a backslash and an n (the size that the first pass computes
    is the size that the second one needs), and deserializing this text into
    any configuration succeeds and sets exactly the options: afterwards it has
    the options of the first configuration, newlines as these two characters
    since nothing undoes the escaping, and, where that has none, its own. Into
    a fresh handle, and if no value has a newline, this gives what
    GNUNET_CONFIGURATION_dup gives. Names and values must fit their lines and
    avoid the characters that the syntax uses: no tabs, no spaces around a
    value and no quote at its start, names of options of up to 63 and escaped
    values of up to 191 characters. *)
Theorem configuration_roundtrip parse (allow_inline : bool) (cfg dst : Handle) :
  cfg_inv cfg -> text_ok (escape_cfg cfg) -> cfg_inv dst ->
  GNUNET_CONFIGURATION_serialize cfg = Ret (config_text (sections cfg))
  /\ exists cfg',
    GNUNET_CONFIGURATION_deserialize parse dst (config_text (sections cfg)) allow_inline
      = Ret (cfg', GNUNET_OK)
    /\ abs cfg' = (escaped <$> abs cfg) ∪ abs dst
    /\ (dst = GNUNET_CONFIGURATION_create -> escape_cfg cfg = cfg ->
        GNUNET_CONFIGURATION_dup cfg = Ret cfg').
Proof.
  intros Hinv Ht Hd. split; [ by apply serialize_escaped_ok | ].
  destruct (copy_cfg (escape_cfg cfg) dst (inv_escape cfg Hinv Ht) Hd) as (c & Hc & _ & Ha & _).
  exists c. rewrite <- config_text_escape, deserialize_text by apply Ht. rewrite Hc. split; [ done | ].
  split; [ by rewrite Ha, abs_escape | ]. intros -> He. by rewrite He in Hc.
Qed.

(** C36: Deserialization of arbitrary bytes with inlining of other files
    disallowed ends for every input: the handle keeps its invariant and the
    result is GNUNET_OK if no line is a syntax error, and GNUNET_SYSERR if the
    last line is one; but a syntax error with more text behind it does not
    reach the caller: the assertion that all bytes were read aborts the
    process. *)
Theorem configuration_deserialize_total parse (cfg : Handle) (mem : list Z) :
  cfg_inv cfg ->
  match first_error (length mem) mem with
  | None => exists cfg', cfg_inv cfg'
      /\ GNUNET_CONFIGURATION_deserialize parse cfg mem false = Ret (cfg', GNUNET_OK)
  | Some [] => exists cfg', cfg_inv cfg'
      /\ GNUNET_CONFIGURATION_deserialize parse cfg mem false = Ret (cfg', GNUNET_SYSERR)
  | Some _ => GNUNET_CONFIGURATION_deserialize parse cfg mem false = AssertFailed
  end.
Proof.
  intros Hinv. unfold GNUNET_CONFIGURATION_deserialize.
  destruct (deser_total parse (length mem) cfg [] GNUNET_OK mem Hinv (short_str_ok [] ltac:(cbn; lia)) ltac:(done))
    as (c & Hc & Hd). unfold deser in Hd. rewrite Hd.
  destruct (first_error (length mem) mem) as [[|b after]|]; cbn; [ by exists c | done | by exists c ].
Qed.

Lemma configuration_deserialize_total_witness :
  GNUNET_CONFIGURATION_deserialize (fun c _ => Ret (c, GNUNET_OK)) GNUNET_CONFIGURATION_create
    ([61; LF] ++ cs "a = b") false = AssertFailed.
Proof.
  exact (configuration_deserialize_total (fun c _ => Ret (c, GNUNET_OK)) GNUNET_CONFIGURATION_create
    ([61; LF] ++ cs "a = b") config_create_inv).
Defined.

(** Configurations with one section *)
Definition sample_with (v : str) : Handle :=
  mk_cfg [mk_section (cs "dht") [mk_entry (cs "PORT") (Some (cs "2086")); mk_entry (cs "NAME") (Some v);
    mk_entry (cs "EMPTY") (Some [])]] GNUNET_NO.
Definition sample_cfg : Handle := sample_with (cs "a b").
Definition newline_cfg : Handle := sample_with [97; LF; 98].

Lemma key_ok_dec k :
  (1 <=? length k)%nat && (length k <=? 63)%nat
  && forallb (fun c => negb (bool_decide (c ∈ [0; LF; TAB; SPACE; 61]))) k
  && forallb (fun c => negb (isspace c || bool_decide (c ∈ [35; 37; 91]))) (take 1 k)
  && negb (bool_decide (take 8 k = cs "@INLINE@")) = true -> key_ok k.
Proof.
  rewrite !andb_true_iff, !Nat.leb_le, !negb_true_iff, bool_decide_eq_false. intros ((([H1 H2] & H3) & H4) & H5).
  split; [ lia | | | done ].
  - apply Forall_forall. intros c Hc. rewrite forallb_forall in H3. apply list_elem_of_In in Hc.
    specialize (H3 c Hc). apply negb_true_iff, bool_decide_eq_false in H3.
    repeat split; intros ->; apply H3; apply (bool_decide_unpack _); vm_compute; exact I.
  - intros c Hc. destruct k as [|d k]; [ done | ]. injection Hc as ->. cbn in H4.
    rewrite andb_true_r, negb_true_iff, orb_false_iff, bool_decide_eq_false in H4. destruct H4 as [H4 H6].
    split; [ done | ]. repeat split; intros ->; apply H6; apply (bool_decide_unpack _); vm_compute; exact I.
Qed.

Lemma value_ok_dec v :
  (length v <=? 191)%nat && forallb (fun c => negb (bool_decide (c ∈ [0; LF; TAB]))) v
  && forallb (fun c => negb (isspace c)) (take 1 v ++ take 1 (reverse v))
  && negb (bool_decide (head v = Some QUOTE)) = true -> value_ok v.
Proof.
  rewrite !andb_true_iff, Nat.leb_le, negb_true_iff, bool_decide_eq_false, forallb_app, andb_true_iff.
  intros (([H1 H2] & (H3 & H4)) & H5). split; [ done | | | | done ].
  - apply Forall_forall. intros c Hc. rewrite forallb_forall in H2. apply list_elem_of_In in Hc.
    specialize (H2 c Hc). apply negb_true_iff, bool_decide_eq_false in H2.
    repeat split; intros ->; apply H2; apply (bool_decide_unpack _); vm_compute; exact I.
  - intros c Hc. destruct v as [|d v]; [ done | ]. injection Hc as ->. cbn in H3.
    by rewrite andb_true_r, negb_true_iff in H3.
  - intros c Hc. destruct (reverse v) as [|d r]; [ done | ]. injection Hc as ->. cbn in H4.
    by rewrite andb_true_r, negb_true_iff in H4.
Qed.

Lemma entry_ok_dec k v : key_ok k -> value_ok v -> (length k + length v <=? 251)%nat = true -> entry_ok (mk_entry k (Some v)).
Proof. intros Hk Hv Hl. exists v. apply Nat.leb_le in Hl. done. Qed.

Lemma sample_inv v : str_ok v -> cfg_inv (sample_with v).
Proof.
  intros Hv. assert (Hs : forall t, (length t <= 5)%nat -> str_ok t) by (intros; apply short_str_ok; lia).
  split; [ apply (bool_decide_unpack _); vm_compute; exact I | ].
  constructor; [ | constructor ]. split; [ apply Hs; vm_compute; lia | done | apply (bool_decide_unpack _); vm_compute; exact I | ].
  repeat (constructor; [ split; [ apply Hs; vm_compute; lia | eexists; split; [ reflexivity | ] ] | ]); [ .. | constructor ];
    first [ done | apply Hs; vm_compute; lia ].
Qed.

Lemma sample_cfg_inv : cfg_inv sample_cfg.
Proof. by apply sample_inv. Qed.

Ltac decide_text :=
  split; [ | vm_compute; congruence ]; (constructor; [ | constructor ]); split;
  [ split; [ vm_compute; lia | ]; repeat constructor; vm_compute; congruence
  | repeat (constructor; [ apply entry_ok_dec; [ apply key_ok_dec; reflexivity | apply value_ok_dec; reflexivity | reflexivity ] | ]);
    constructor ].

Lemma sample_text_ok : text_ok sample_cfg.
Proof. decide_text. Qed.

Lemma newline_text_ok : text_ok (escape_cfg newline_cfg).
Proof. decide_text. Qed.

Lemma configuration_roundtrip_witness :
  exists cfg', GNUNET_CONFIGURATION_serialize newline_cfg = Ret (config_text (sections newline_cfg))
    /\ GNUNET_CONFIGURATION_deserialize (fun c _ => Ret (c, GNUNET_SYSERR)) GNUNET_CONFIGURATION_create
         (config_text (sections newline_cfg)) true = Ret (cfg', GNUNET_OK)
    /\ abs cfg' !! (cs "dht", cs "name") = Some [97; BACKSLASH; 110; 98].
Proof.
  destruct (configuration_roundtrip (fun c _ => Ret (c, GNUNET_SYSERR)) true newline_cfg
    GNUNET_CONFIGURATION_create (sample_inv [97; LF; 98] ltac:(vm_compute; congruence)) newline_text_ok config_create_inv) as (H1 & c & H2 & H3 & _).
  exists c. refine (conj H1 (conj H2 _)). rewrite H3. vm_compute. reflexivity.
Defined.

End TextSpec.
