(* ===== verification/ConfigurationFiles.v ===== *)
(** * Configuration files and file names in the configuration

    - a configuration, or the difference between two, that is written to a file is read
      back ([configuration_diff_roundtrip]);
    - an option that holds a list of file names implements a list ([filename_list_refines]);
    - file names that refer to other options are expanded if the references end
      ([filename_expansion_terminates]), and where they go wrong. *)

From Stdlib Require Import ZArith Lia String.
From stdpp Require Import base list numbers gmap.
From S2P Require Import Prelude Time MetaData MetaDataSpec CString Strings Configuration.
From S2P Require Import ConfigurationSpec ConfigurationText.
Local Open Scope Z_scope.

(** ** Options whose text is read back *)

Definition opt_text_ok (o : str * str * option str) : Prop :=
  section_name_ok o.1.1 /\ entry_ok (mk_entry o.1.2 o.2).

Lemma section_ok_flat sec : section_ok sec -> Forall opt_text_ok (flat_section sec).
Proof.
  intros [Hn He]. unfold flat_section. apply Forall_fmap. eapply Forall_impl; [ exact He | ].
  intros [k v] H. by split.
Qed.

Lemma sections_ok_flat l : Forall section_ok l -> Forall opt_text_ok (flat l).
Proof.
  induction 1 as [|sec l Hs _ IH]; [ constructor | ]. rewrite flat_cons. apply Forall_app.
  split; [ by apply section_ok_flat | done ].
Qed.

Lemma lower_eq_length a b : lowercase a = lowercase b -> length a = length b.
Proof. intros H. rewrite <- (lower_length a), <- (lower_length b). by rewrite H. Qed.

(** The number of options *)
Definition option_count (l : list ConfigSection) : nat := length (flat l).

Lemma option_count_middle S1 sec S2 :
  option_count (S1 ++ sec :: S2) = (option_count S1 + (length (entries sec) + option_count S2))%nat.
Proof. unfold option_count. rewrite flat_app, flat_cons, !length_app. unfold flat_section. by rewrite length_fmap. Qed.

Lemma sections_ok_middle S1 sec sec' S2 :
  Forall section_ok (S1 ++ sec :: S2) -> (section_ok sec -> section_ok sec') -> Forall section_ok (S1 ++ sec' :: S2).
Proof.
  intros [H1 H2]%Forall_app Hs. apply Forall_cons in H2 as [H2 H3]. apply Forall_app.
  split; [ done | constructor; [ by apply Hs | done ] ].
Qed.

(** Setting an option keeps the configuration readable. *)
Lemma set_value_text cfg s k v cfg' :
  GNUNET_CONFIGURATION_set_value_string cfg s k (Some v) = Ret cfg' ->
  Forall section_ok (sections cfg) -> opt_text_ok (s, k, Some v) ->
  Forall section_ok (sections cfg') /\ (option_count (sections cfg') <= S (option_count (sections cfg)))%nat.
Proof.
  intros Hset Hall [Hn He]. cbn [fst snd] in *.
  assert (Hdup : forall x, (length x <= 200)%nat -> GNUNET_strdup x = Ret x)
    by (intros; apply strdup_str_ok, short_str_ok; lia).
  destruct He as (v' & [= <-] & Hk & Hv & Hl). cbn [key] in *.
  unfold GNUNET_CONFIGURATION_set_value_string, GNUNET_xstrdup_ in Hset.
  pose proof (Hdup s ltac:(destruct Hn; lia)) as Es. pose proof (Hdup k ltac:(pose proof (ko_length _ Hk); lia)) as Ek.
  pose proof (Hdup v ltac:(pose proof (vo_length _ Hv); lia)) as Ev. rewrite Es, Ek, Ev in Hset. clear Hdup Es Ek Ev.
  cbn [mbind outcome_bind] in Hset. destruct (findEntry cfg s k) as [[[i j] e]|] eqn:Hf.
  - injection Hset as <-.
    apply findEntry_Some in Hf as (S1 & S2 & n & E1 & E2 & HS & -> & -> & _ & Hkey).
    unfold store_value. cbn [sections set_sections]. rewrite HS in Hall |- *. rewrite alter_middle.
    unfold set_entries. cbn [entries name]. rewrite alter_middle, !option_count_middle. cbn [entries].
    split; [ | rewrite !length_app; cbn [length]; lia ]. apply (sections_ok_middle _ _ _ _ Hall).
    intros [Hname Hes]. split; [ done | ]. cbn [entries] in *. apply Forall_app in Hes as [H1 H2].
    apply Forall_cons in H2 as [(w & _ & Hk' & _) H2]. apply Forall_app. split; [ done | ]. constructor; [ | done ].
    exists v. cbn [key val]. split; [ done | ]. split; [ done | ]. split; [ done | ].
    rewrite (lower_eq_length _ _ Hkey). done.
  - assert (He : entry_ok (mk_entry k (Some v))) by by exists v.
    destruct (findSection cfg s) as [[i sec]|] eqn:Hsec.
    + injection Hset as <-. apply findSection_Some in Hsec as (S1 & S2 & HS & -> & Hname).
      cbn [sections set_sections]. rewrite HS in Hall |- *. rewrite alter_middle, !option_count_middle.
      cbn [entries set_entries length]. split; [ | lia ]. apply (sections_ok_middle _ _ _ _ Hall).
      intros [Hname' Hes]. split; [ done | ]. cbn. by constructor.
    + injection Hset as <-. cbn [sections set_sections alter list_alter].
      split; [ | unfold option_count; rewrite flat_cons, length_app; cbn; lia ].
      constructor; [ | done ]. split; [ done | ]. by repeat constructor.
Qed.

Lemma copy_all_text l dst dst' :
  fold_opts copy_entry dst l = Ret dst' -> Forall section_ok (sections dst) -> Forall opt_text_ok l ->
  Forall section_ok (sections dst') /\ (option_count (sections dst') <= option_count (sections dst) + length l)%nat.
Proof.
  intros Hf Hs Hl. revert dst Hf Hs. induction Hl as [|[[s k] v] l Ho _ IH]; intros dst Hf Hs.
  - injection Hf as <-. cbn. split; [ done | lia ].
  - cbn [fold_opts] in Hf. destruct (copy_entry dst s k v) as [d| |] eqn:E; [ | done | done ]. cbn in Hf.
    pose proof Ho as [_ (w & Hw & _)]. cbn in Hw. subst v.
    destruct (set_value_text dst s k w d E Hs Ho) as [H1 H2]. destruct (IH d Hf H1) as [H3 H4].
    split; [ done | cbn [length]; lia ].
Qed.

Lemma entries_text_bound l : Forall entry_ok l -> (length (mjoin (entry_text <$> l)) <= 255 * length l)%nat.
Proof.
  induction 1 as [|e l He _ IH]; [ cbn; lia | ]. rewrite text_cons, length_app. cbn [length].
  destruct (entry_text_ok e He) as (v & _ & -> & _ & _ & _ & Hl). rewrite length_app. cbn [length]. lia.
Qed.

Lemma config_text_bound l :
  Forall section_ok l -> Forall section_inv l -> (length (config_text l) <= 400 * option_count l)%nat.
Proof.
  intros Hs Hi. unfold config_text. induction Hs as [|sec l [Hn He] _ IH]; [ cbn; lia | ].
  apply Forall_cons in Hi as [[_ Hne _ _] Hi]. specialize (IH Hi). rewrite text_cons, length_app.
  change (sec :: l) with ([] ++ sec :: l). rewrite option_count_middle. change (option_count []) with 0%nat.
  pose proof (section_text_length sec) as Hlen. pose proof (entries_text_bound _ He). destruct Hn as [Hn _].
  unfold strlen in Hlen. destruct (entries sec) as [|e es]; [ done | ]. cbn [length] in *. lia.
Qed.

Lemma text_ok_small cfg :
  cfg_inv cfg -> Forall section_ok (sections cfg) -> Z.of_nat (option_count (sections cfg)) <= 100000 -> text_ok cfg.
Proof.
  intros [_ Hi] Hs Hc. split; [ done | ]. pose proof (config_text_bound _ Hs Hi).
  unfold can_alloc, GNUNET_MAX_MALLOC_CHECKED, strlen. lia.
Qed.

(** ** Differences *)

Lemma filter_Forall {A} (P Q : A -> Prop) `{forall x, Decision (P x)} (l : list A) :
  Forall Q l -> Forall Q (filter P l).
Proof.
  intros HQ. apply Forall_forall. intros x Hx. apply list_elem_of_filter in Hx as [_ Hx].
  rewrite Forall_forall in HQ. by apply HQ.
Qed.

Definition differs (def : Handle) (o : str * str * option str) : Prop := lookup_value def o.1.1 o.1.2 <> o.2.

#[local] Instance differs_dec def o : Decision (differs def o).
Proof. unfold differs. apply _. Defined.

Lemma fold_diff def l dst :
  cfg_inv def -> Forall opt_ok l ->
  fold_opts (compareEntries def) dst l = fold_opts copy_entry dst (filter (differs def) l).
Proof.
  intros Hd Hl. revert dst. induction Hl as [|[[s k] v] l (_ & _ & w & Hw & _) _ IH]; intros dst; [ done | ].
  cbn in Hw. subst v. rewrite filter_cons. cbn [fold_opts].
  assert (Hc : compareEntries def dst s k (Some w)
    = if decide (differs def (s, k, Some w)) then copy_entry dst s k (Some w) else Ret dst).
  { case_decide as H1; unfold differs, lookup_value in H1; cbn [fst snd] in H1; unfold compareEntries;
      destruct (findEntry def s k) as [[[i j] e]|] eqn:Hf; try (by destruct H1).
    all: try (destruct (findEntry_ok _ _ _ _ _ _ Hd Hf) as (x & Hx & _); rewrite Hx in *).
    all: cbn [of_option mbind outcome_bind]; unfold streq; try case_bool_decide; first [ done | exfalso; apply H1; congruence | congruence ]. }
  rewrite Hc. case_decide; [ | apply IH ]. cbn [fold_opts].
  destruct (copy_entry dst s k (Some w)) as [d| |]; [ apply IH | done | done ].
Qed.

Lemma assoc_filter_diff def l :
  cfg_inv def -> Forall opt_ok l ->
  assoc (filter (differs def) l) = filter (fun p => abs def !! p.1 <> Some p.2) (assoc l).
Proof.
  intros Hd. induction 1 as [|[[s k] v] l (_ & _ & w & Hw & _) _ IH]; [ done | ]. cbn in Hw. subst v.
  change (assoc ((s, k, Some w) :: l)) with ((lowercase s, lowercase k, w) :: assoc l). rewrite !filter_cons.
  case_decide as H1; unfold differs in H1; cbn [fst snd] in H1; rewrite <- (abs_lookup def s k) in H1 by done;
    case_decide as H2; cbn [fst snd] in H2; try done.
  change (assoc ((s, k, Some w) :: filter (differs def) l))
    with ((lowercase s, lowercase k, w) :: assoc (filter (differs def) l)). by rewrite IH.
Qed.

(** The options that compareEntries collects are the ones that differ from the defaults;
    on top of the defaults they give the new configuration. *)
Lemma diff_ok def new :
  cfg_inv def -> cfg_inv new -> Forall section_ok (sections new) ->
  exists diff, GNUNET_CONFIGURATION_iterate new (compareEntries def) GNUNET_CONFIGURATION_create = Ret diff
    /\ cfg_inv diff /\ Forall section_ok (sections diff)
    /\ (option_count (sections diff) <= option_count (sections new))%nat
    /\ abs diff = filter (fun p => abs def !! p.1 <> Some p.2) (abs new)
    /\ abs diff ∪ abs def = abs new ∪ abs def.
Proof.
  intros Hd Hn Hs. rewrite iterate_fold, fold_diff by (done || by apply flat_ok).
  set (l := filter (differs def) (flat (sections new))).
  assert (Hl : Forall opt_ok l) by (apply filter_Forall, flat_ok, Hn).
  assert (Ht : Forall opt_text_ok l) by (apply filter_Forall, sections_ok_flat, Hs).
  destruct (copy_all l _ config_create_inv Hl) as (diff & Hf & Hi & Ha & _). exists diff. split; [ done | ].
  destruct (copy_all_text l _ _ Hf (Forall_nil_2 _) Ht) as [H1 H2]. split; [ done | ]. split; [ done | ].
  split. { etransitivity; [ exact H2 | ]. cbn. unfold option_count, l. apply length_filter. }
  assert (Habs : abs diff = filter (fun p => abs def !! p.1 <> Some p.2) (abs new)).
  { rewrite Ha. change (abs GNUNET_CONFIGURATION_create) with (∅ : option_map_). rewrite map_union_empty.
    unfold l. rewrite assoc_filter_diff by (done || by apply flat_ok).
    pose proof (cfg_assoc_nodup new Hn) as Hnd. rewrite list_to_map_reverse; [ by apply list_to_map_filter | ].
    eapply sublist_NoDup; [ exact Hnd | ]. apply fmap_sublist, sublist_filter. }
  split; [ done | ]. rewrite Habs. apply map_eq. intros i. rewrite !lookup_union, map_lookup_filter.
  destruct (abs new !! i) as [v|]; cbn; [ | done ]. case_guard as H3; cbn; [ done | ].
  destruct (decide (abs def !! i = Some v)) as [->|]; [ done | by destruct H3 ].
Qed.

(** ** Files *)

Lemma remove_section_head sec l d :
  sections (GNUNET_CONFIGURATION_remove_section (mk_cfg (sec :: l) d) (name sec)) = l.
Proof. unfold GNUNET_CONFIGURATION_remove_section. cbn. by rewrite strcaseeq_refl. Qed.

Lemma destroy_ok l d :
  exists d', GNUNET_CONFIGURATION_destroy (length l) (mk_cfg l d) = Ret (mk_cfg [] d').
Proof.
  revert d. induction l as [|sec l IH]; intros d; [ by exists d | ]. cbn [length GNUNET_CONFIGURATION_destroy sections].
  pose proof (remove_section_head sec l d) as Hr.
  destruct (GNUNET_CONFIGURATION_remove_section _ _) as [l' d']. cbn in Hr. subst l'. apply IH.
Qed.

Section Files.
Context `{Environment} `{Disk}.
Context (d d1 : disk) (filename fn : str).
Context (Hexp : GNUNET_STRINGS_filename_expand (Some filename) = Ret (Some fn)).
Context (Hdir : GNUNET_DISK_directory_create_for_file d fn = (d1, GNUNET_OK)).

(** Writing a configuration, when the disk takes all of it *)
Lemma write_ok cfg d2 :
  text_ok cfg ->
  GNUNET_DISK_fn_write d1 fn (config_text (sections cfg)) = (d2, strlen (config_text (sections cfg))) ->
  GNUNET_CONFIGURATION_write d cfg filename = Ret (d2, set_dirty cfg GNUNET_NO, GNUNET_OK).
Proof.
  intros Ht Hw. unfold GNUNET_CONFIGURATION_write. rewrite (bind_ret _ _ _ Hexp), Hdir.
  change (negb (GNUNET_OK =? GNUNET_OK)) with false. cbn iota.
  rewrite (bind_ret _ _ _ (serialize_text_ok cfg Ht)), Hw. by rewrite Z.eqb_refl.
Qed.

(** Parsing it again *)
Lemma parse_written cfg dst d2 fuel :
  text_ok cfg ->
  GNUNET_DISK_fn_write d1 fn (config_text (sections cfg)) = (d2, strlen (config_text (sections cfg))) ->
  GNUNET_CONFIGURATION_parse (S fuel) d2 dst filename
  = (c ← GNUNET_CONFIGURATION_iterate cfg copy_entry dst; Ret (set_dirty c (dirty dst), GNUNET_OK)).
Proof.
  intros Ht Hw. destruct (fn_write_read _ _ _ _ Hw) as [Hsize Hread]. cbn [GNUNET_CONFIGURATION_parse].
  rewrite (bind_ret _ _ _ Hexp), Hsize. destruct Ht as [Hs Ha].
  destruct (Z.ltb_spec SIZE_MAX (Z.of_nat (length (config_text (sections cfg))))) as [Hlt|_].
  { unfold can_alloc, GNUNET_MAX_MALLOC_CHECKED, strlen, SIZE_MAX in *. lia. }
  rewrite (bind_ret _ _ _ (GNUNET_malloc_ok (Z.of_nat (length (config_text (sections cfg))))
    ltac:(unfold can_alloc, strlen in *; lia))).
  rewrite Hread, Z.eqb_refl. cbn [negb]. cbn iota. rewrite deserialize_text by done.
  by destruct (GNUNET_CONFIGURATION_iterate _ _ _).
Qed.

End Files.

Section FilesSpec.

(** Writing the differences between a default configuration and a new one
    to a file, and parsing that file into a configuration that has the
    defaults, gives the new configuration (with the defaults where it has no
    value); the file holds exactly the options whose value differs from the
    default. It holds for any disk that keeps what is written, and the whole
    path returns: comparison, serialization, writing, destruction of the
    temporary handle, reading and deserialization. *)
Theorem configuration_diff_roundtrip `{Environment} `{Disk} (d d1 : disk) (filename fn : str)
  (cfgDefault cfgNew : Handle) :
  GNUNET_STRINGS_filename_expand (Some filename) = Ret (Some fn) ->
  GNUNET_DISK_directory_create_for_file d fn = (d1, GNUNET_OK) ->
  (forall b, exists d2, GNUNET_DISK_fn_write d1 fn b = (d2, Z.of_nat (length b))) ->
  cfg_inv cfgDefault -> cfg_inv cfgNew -> Forall section_ok (sections cfgNew) ->
  Z.of_nat (option_count (sections cfgNew)) <= 100000 ->
  exists d2, GNUNET_CONFIGURATION_write_diffs d cfgDefault cfgNew filename = Ret (d2, GNUNET_OK)
    /\ (forall fuel dst, cfg_inv dst -> exists cfg',
          GNUNET_CONFIGURATION_parse (S fuel) d2 dst filename = Ret (cfg', GNUNET_OK)
          /\ dirty cfg' = dirty dst
          /\ abs cfg' = filter (fun p => abs cfgDefault !! p.1 <> Some p.2) (abs cfgNew) ∪ abs dst
          /\ (abs dst = abs cfgDefault -> abs cfg' = abs cfgNew ∪ abs cfgDefault)).
Proof.
  intros Hexp Hdir Hdisk Hd Hn Hs Hc.
  destruct (diff_ok cfgDefault cfgNew Hd Hn Hs) as (diff & Hit & Hi & Hso & Hcnt & Ha & Hu).
  assert (Ht : text_ok diff) by (apply text_ok_small; [ done | done | lia ]).
  destruct (Hdisk (config_text (sections diff))) as [d2 Hw]. exists d2. split.
  - unfold GNUNET_CONFIGURATION_write_diffs. rewrite (bind_ret _ _ _ Hit).
    rewrite (bind_ret _ _ _ (write_ok d d1 filename fn Hexp Hdir diff d2 Ht Hw)).
    destruct (destroy_ok (sections diff) GNUNET_NO) as [x Hx]. unfold set_dirty. cbn [sections].
    by rewrite (bind_ret _ _ _ Hx).
  - intros fuel dst Hdst. destruct (copy_cfg diff dst Hi Hdst) as (c & Hcp & _ & Hac & Hdc).
    exists (set_dirty c (dirty dst)). rewrite (parse_written d1 filename fn Hexp diff dst d2 fuel Ht Hw), Hcp.
    split; [ done | ]. split; [ done | ]. change (abs (set_dirty c (dirty dst))) with (abs c).
    rewrite Hac. split; [ by rewrite Ha | ]. intros ->. exact Hu.
Qed.

(** A file that inlines itself: no depth is enough. *)
Lemma configuration_inline_cycle `{Environment} `{Disk} (d : disk) (cfg : Handle) (filename fn : str) (fuel : nat) :
  let text := (cs "@INLINE@ " ++ filename) ++ [LF] in
  GNUNET_STRINGS_filename_expand (Some filename) = Ret (Some fn) ->
  is_cstr filename -> LF ∉ filename -> (length filename < 191)%nat ->
  parse_line text = Inline filename ->
  GNUNET_DISK_file_size d fn = Some (Z.of_nat (length text)) ->
  GNUNET_DISK_fn_read d fn (Z.of_nat (length text)) = Some text ->
  GNUNET_CONFIGURATION_parse fuel d cfg filename = Undefined.
Proof.
  intros text Hexp Hc Hn Hl Hp Hsize Hread.
  assert (Hlen : (length (cs "@INLINE@ " ++ filename) < 255)%nat).
  { rewrite length_app. change (length (cs "@INLINE@ ")) with 9%nat. lia. }
  assert (Htl : Z.of_nat (length text) <= 255) by (unfold text; rewrite length_app; cbn [length]; lia).
  revert cfg. induction fuel as [|fuel IH]; intros cfg; [ done | ]. cbn [GNUNET_CONFIGURATION_parse].
  rewrite (bind_ret _ _ _ Hexp), Hsize.
  destruct (Z.ltb_spec SIZE_MAX (Z.of_nat (length text))) as [Hlt|_]; [ unfold SIZE_MAX in Hlt; lia | ].
  rewrite (bind_ret (GNUNET_malloc _) _ _ (GNUNET_malloc_ok (Z.of_nat (length text))
    ltac:(unfold can_alloc, GNUNET_MAX_MALLOC_CHECKED; lia))).
  rewrite Hread, Z.eqb_refl. cbn [negb]. cbn iota. unfold GNUNET_CONFIGURATION_deserialize.
  match goal with |- context [deserialize_lines ?p (length text) true cfg [] GNUNET_OK text] =>
    change (deserialize_lines p (length text) true cfg [] GNUNET_OK text)
      with (deser p true cfg [] GNUNET_OK ((cs "@INLINE@ " ++ filename) ++ LF :: [])) end.
  rewrite deser_line; [ | | | done ].
  - change ((cs "@INLINE@ " ++ filename) ++ [LF]) with text. rewrite Hp. cbn [act]. by rewrite (IH cfg).
  - apply is_cstr_app. split; [ by repeat constructor | done ].
  - intros [Hin|Hin]%elem_of_app; [ | done ]. revert Hin. apply (bool_decide_unpack _). vm_compute. exact I.
Qed.

(** Files as a map from names to contents *)
#[refine] Definition map_disk : Disk := {|
  disk := gmap str (list Z);
  GNUNET_DISK_file_size := fun d f => (fun b => Z.of_nat (length b)) <$> (d !! f);
  GNUNET_DISK_fn_read := fun d f n => take (Z.to_nat n) <$> (d !! f);
  GNUNET_DISK_directory_create_for_file := fun d f => (d, GNUNET_OK);
  GNUNET_DISK_fn_write := fun d f b => (<[f := b]> d, Z.of_nat (length b));
  READDIR := fun d f => Some []
|}.
Proof.
  intros d f b d' [= <-]. rewrite lookup_insert_eq. split; [ done | ]. cbn.
  rewrite Nat2Z.id, take_ge by done. done.
Defined.

Lemma configuration_diff_roundtrip_witness :
  exists d2, @GNUNET_CONFIGURATION_write_diffs sample_environment map_disk ∅ GNUNET_CONFIGURATION_create sample_cfg
    (cs "/f") = Ret (d2, GNUNET_OK)
  /\ exists cfg', @GNUNET_CONFIGURATION_parse sample_environment map_disk 1 d2 GNUNET_CONFIGURATION_create (cs "/f")
     = Ret (cfg', GNUNET_OK) /\ abs cfg' = abs sample_cfg.
Proof.
  destruct (@configuration_diff_roundtrip sample_environment map_disk ∅ ∅ (cs "/f") (cs "/f")
    GNUNET_CONFIGURATION_create sample_cfg) as (d2 & H1 & H2).
  - vm_compute. reflexivity.
  - reflexivity.
  - intros b. by eexists.
  - exact config_create_inv.
  - exact sample_cfg_inv.
  - apply sample_text_ok.
  - vm_compute. congruence.
  - exists d2. split; [ exact H1 | ]. destruct (H2 O GNUNET_CONFIGURATION_create config_create_inv) as (c & H3 & _ & _ & H4).
    exists c. split; [ exact H3 | ]. rewrite (H4 eq_refl). apply map_union_empty.
Defined.

End FilesSpec.

(** ** Lists of file names *)

(** A name that the code handles: not empty, and not starting with a space or a backslash *)
Definition good_name (n : str) : Prop :=
  is_cstr n /\ exists c n', n = c :: n' /\ c <> SPACE /\ c <> BACKSLASH.

Fixpoint names_text (l : list str) : str :=
  match l with
  | [] => []
  | n :: l' => match l' with [] => escape_chars n | _ => escape_chars n ++ SPACE :: names_text l' end
  end.

(** The end of a name: the end of the list or a space *)
Definition name_stop (r : str) : Prop := r = [] \/ exists r', r = SPACE :: r'.

Lemma name_end_plain c s :
  c <> SPACE -> c <> BACKSLASH -> name_end (c :: s) = let '(t, r) := name_end s in (c :: t, r).
Proof.
  intros H1 H2. cbn [name_end]. destruct (Z.eqb_spec c SPACE); [ done | ]. destruct s as [|d s]; [ done | ].
  destruct (Z.eqb_spec c BACKSLASH); [ done | ]. done.
Qed.

Lemma raw_end_plain c s :
  c <> SPACE -> c <> BACKSLASH -> raw_end (c :: s) = let '(t, r) := raw_end s in (c :: t, r).
Proof.
  intros H1 H2. cbn [raw_end]. destruct (Z.eqb_spec c SPACE); [ done | ]. destruct s as [|d s]; [ done | ].
  destruct (Z.eqb_spec c BACKSLASH); [ done | ]. done.
Qed.

Lemma escape_chars_cases c t :
  (escape_chars (c :: t) = BACKSLASH :: c :: escape_chars t /\ (c = BACKSLASH \/ c = SPACE))
  \/ (escape_chars (c :: t) = c :: escape_chars t /\ c <> BACKSLASH /\ c <> SPACE).
Proof.
  cbn. destruct (Z.eqb_spec c BACKSLASH); [ by left; auto | ]. destruct (Z.eqb_spec c SPACE); [ by left; auto | by right ].
Qed.

Lemma name_end_escaped t r : name_stop r -> name_end (escape_chars t ++ r) = (t, r).
Proof.
  intros Hr. induction t as [|c t IH].
  - destruct Hr as [->|[r' ->]]; reflexivity.
  - destruct (escape_chars_cases c t) as [[-> Hc]|(-> & H1 & H2)].
    + cbn [app name_end]. change (BACKSLASH =? SPACE) with false. change (BACKSLASH =? BACKSLASH) with true. cbn iota.
      assert (Hd : (c =? BACKSLASH) || (c =? SPACE) = true) by lia. rewrite Hd. cbn [andb]. by rewrite IH.
    + cbn [app]. rewrite name_end_plain by done. by rewrite IH.
Qed.

Lemma raw_end_escaped t r : name_stop r -> raw_end (escape_chars t ++ r) = (escape_chars t, r).
Proof.
  intros Hr. induction t as [|c t IH].
  - destruct Hr as [->|[r' ->]]; reflexivity.
  - destruct (escape_chars_cases c t) as [[-> Hc]|(-> & H1 & H2)].
    + cbn [app raw_end]. change (BACKSLASH =? SPACE) with false. change (BACKSLASH =? BACKSLASH) with true. cbn iota.
      assert (Hd : (c =? BACKSLASH) || (c =? SPACE) = true) by lia. rewrite Hd. cbn [andb]. by rewrite IH.
    + cbn [app]. rewrite raw_end_plain by done. by rewrite IH.
Qed.

Lemma escape_chars_inj a b : escape_chars a = escape_chars b -> a = b.
Proof.
  intros Heq. pose proof (name_end_escaped a [] (or_introl eq_refl)) as H.
  rewrite Heq, name_end_escaped in H by by left. by injection H.
Qed.

Lemma good_escape n : good_name n -> exists c n', n = c :: n' /\ c <> SPACE /\ escape_chars n = c :: escape_chars n'.
Proof.
  intros (_ & c & n' & -> & H1 & H2). exists c, n'. split; [ done | ]. split; [ done | ].
  by destruct (escape_chars_cases c n') as [[_ [?|?]]|[? _]].
Qed.

Lemma names_text_cons n l :
  names_text (n :: l) = escape_chars n ++ (match l with [] => [] | _ => SPACE :: names_text l end).
Proof. cbn. destruct l; [ by rewrite app_nil_r | done ]. Qed.

Lemma names_rest_stop (l : list str) : name_stop (match l with [] => [] | _ => SPACE :: names_text l end).
Proof. destruct l; [ by left | right; eauto ]. Qed.

Lemma names_text_length l : Forall good_name l -> (length l <= length (names_text l))%nat.
Proof.
  induction 1 as [|n l Hn _ IH]; [ done | ]. rewrite names_text_cons, length_app.
  destruct (good_escape n Hn) as (c & n' & _ & _ & ->). destruct l; cbn [length] in *; lia.
Qed.

(** What a callback sees of a list of names *)
Fixpoint visit_names {S} (cb : @FileNameCallback S) (s : S) (ret : Z) (l : list str) : S * Z :=
  match l with
  | [] => (s, ret)
  | n :: l' =>
      let '(s, r) := cb s n in
      if negb (r =? GNUNET_OK) then (s, GNUNET_SYSERR) else visit_names cb s (ret + 1) l'
  end.

Lemma filenames_loop_ok {S} fuel (cb : @FileNameCallback S) s ret l :
  Forall good_name l -> (length l <= fuel)%nat -> (1 <= fuel)%nat ->
  filenames_loop fuel (Some cb) s ret (names_text l) = Ret (visit_names cb s ret l).
Proof.
  revert s ret l. induction fuel as [|fuel IH]; intros s ret l Hl Hf H1; [ lia | ].
  destruct Hl as [|n l Hn Hl]; [ done | ]. cbn [filenames_loop].
  rewrite names_text_cons. destruct (good_escape n Hn) as (c & n' & En & Hc & ->). cbn [app].
  rewrite drop_while_stops by (apply stops_cons; lia). rewrite name_end_escaped by apply names_rest_stop.
  rewrite <- En. cbn [visit_names]. destruct (cb s n) as [s' r]. destruct (negb (r =? GNUNET_OK)); [ done | ].
  destruct l as [|m l]; [ done | ]. cbn [length] in Hf. apply IH; [ done | cbn [length]; lia | lia ].
Qed.

(** The text of names that are followed by others *)
Definition names_prefix (l : list str) : str := mjoin ((fun n => escape_chars n ++ [SPACE]) <$> l).

Lemma names_prefix_cons n l : names_prefix (n :: l) = (escape_chars n ++ [SPACE]) ++ names_prefix l.
Proof. done. Qed.

Lemma names_prefix_snoc l n : names_prefix (l ++ [n]) = names_prefix l ++ escape_chars n ++ [SPACE].
Proof. unfold names_prefix. rewrite fmap_app, join_app. cbn. by rewrite app_nil_r. Qed.

Lemma names_text_app l1 l2 : l2 <> [] -> names_text (l1 ++ l2) = names_prefix l1 ++ names_text l2.
Proof.
  intros Hne. induction l1 as [|n l1 IH]; [ done | ]. cbn [app]. rewrite names_text_cons, names_prefix_cons, IH.
  rewrite <- !app_assoc. destruct (l1 ++ l2) eqn:E; [ | done ]. destruct l1, l2; done.
Qed.

Lemma names_prefix_strip l : take (length (names_prefix l) - 1) (names_prefix l) = names_text l.
Proof.
  destruct l as [|n l _] using rev_ind; [ done | ].
  rewrite names_text_app, names_prefix_snoc by done. cbn [names_text]. rewrite !length_app. cbn [length].
  rewrite app_assoc, take_app_le by (rewrite length_app; lia). rewrite take_ge; [ done | rewrite length_app; lia ].
Qed.

(** The list without the first occurrence of a name *)
Fixpoint remove_name (n : str) (l : list str) : option (list str) :=
  match l with
  | [] => None
  | m :: l' => if decide (m = n) then Some l' else cons m <$> remove_name n l'
  end.

Lemma remove_name_None n l : remove_name n l = None <-> n ∉ l.
Proof.
  induction l as [|m l IH]; cbn; [ split; [ intros _; apply not_elem_of_nil | done ] | ].
  rewrite not_elem_of_cons. case_decide as E; [ split; [ done | intros [? _]; congruence ] | ].
  rewrite fmap_None, IH. split; [ intros ?; split; [ congruence | done ] | by intros [_ ?] ].
Qed.

Lemma remove_filename_loop_ok fuel n l1 l2 :
  Forall good_name l2 -> (length l2 <= fuel)%nat -> (1 <= fuel)%nat ->
  remove_filename_loop fuel (escape_chars n) (names_prefix l1) (names_text l2)
  = Ret ((fun l => names_text (l1 ++ l)) <$> remove_name n l2).
Proof.
  revert l1 l2. induction fuel as [|fuel IH]; intros l1 l2 Hl Hf H1; [ lia | ].
  destruct Hl as [|m l2 Hm Hl]; [ done | ]. cbn [remove_filename_loop]. rewrite names_text_cons.
  destruct (good_escape m Hm) as (c & m' & Em & Hc & Ee). rewrite Ee. cbn [app].
  destruct (Z.eqb_spec c SPACE); [ done | ]. rewrite raw_end_escaped by apply names_rest_stop.
  rewrite <- Ee. unfold streq. cbn [remove_name]. case_bool_decide as Hmn.
  - apply escape_chars_inj in Hmn. rewrite decide_True by done. cbn [fmap option_fmap option_map].
    do 2 f_equal. destruct l2 as [|x l2]; [ by rewrite names_prefix_strip, app_nil_r | by rewrite names_text_app ].
  - rewrite decide_False by (intros ->; done). destruct l2 as [|x l2]; [ done | ].
    specialize (IH (l1 ++ [m]) (x :: l2) Hl). rewrite names_prefix_snoc, Ee in IH. cbn [app] in IH.
    rewrite IH by (cbn [length] in *; lia). rewrite <- option_fmap_compose. unfold compose. f_equal.
    destruct (remove_name n (x :: l2)); cbn; [ | done ]. by rewrite <- app_assoc.
Qed.

Lemma remove_name_shorter n l l' :
  remove_name n l = Some l' -> (length (names_text l') <= length (names_text l))%nat.
Proof.
  revert l'. induction l as [|m l IH]; intros l'; [ done | ]. cbn [remove_name]. case_decide.
  - intros [= <-]. rewrite names_text_cons, length_app. destruct l; cbn [length]; [ cbn; lia | lia ].
  - destruct (remove_name n l) as [l0|] eqn:E; [ | done ]. intros [= <-]. specialize (IH _ eq_refl).
    destruct l as [|x l]; [ done | ]. rewrite !(names_text_cons m), !length_app. destruct l0; cbn [length] in *; lia.
Qed.

Lemma escape_chars_cstr n : is_cstr n -> is_cstr (escape_chars n).
Proof.
  induction 1 as [|c n Hc _ IH]; [ constructor | ].
  destruct (escape_chars_cases c n) as [[-> _]|[-> _]]; repeat constructor; done.
Qed.

Lemma escape_chars_length n : strlen (escape_chars n) <= 2 * strlen n.
Proof.
  unfold strlen. induction n as [|c n IH]; [ cbn; lia | ].
  destruct (escape_chars_cases c n) as [[-> _]|[-> _]]; cbn [length]; lia.
Qed.

Lemma escape_name_ok n : is_cstr n -> can_alloc (2 * strlen n + 1) -> escape_name n = Ret (escape_chars n).
Proof.
  intros Hn Ha. apply alloc_str_ok; [ by apply escape_chars_cstr | | unfold can_alloc in *; lia ].
  pose proof (escape_chars_length n). lia.
Qed.

Lemma names_text_cstr l : Forall good_name l -> is_cstr (names_text l).
Proof.
  induction 1 as [|n l [Hn _] _ IH]; [ constructor | ]. rewrite names_text_cons. apply is_cstr_app.
  split; [ by apply escape_chars_cstr | ]. destruct l; [ constructor | by constructor ].
Qed.

(** The option holds a list of names; an option that is not set holds the empty one. *)
Definition holds_names (cfg : Handle) (s k : str) (l : list str) : Prop :=
  default [] (abs cfg !! (lowercase s, lowercase k)) = names_text l.

Lemma names_text_nil l : Forall good_name l -> names_text l = [] -> l = [].
Proof.
  intros [|n l' Hn _]; [ done | ]. rewrite names_text_cons.
  by destruct (good_escape n Hn) as (c & n' & _ & _ & ->).
Qed.

Section NameOps.
Context (cfg : Handle) (s k : str) (l : list str).
Context (Hinv : cfg_inv cfg) (Hl : Forall good_name l) (Hh : holds_names cfg s k l).

Lemma holds_get :
  GNUNET_CONFIGURATION_get_value_string cfg s k = Ret (Some (names_text l))
  \/ (l = [] /\ GNUNET_CONFIGURATION_get_value_string cfg s k = Ret None).
Proof.
  rewrite get_value_string_abs by done. unfold holds_names in Hh.
  destruct (abs cfg !! (lowercase s, lowercase k)) as [v|]; cbn in Hh; [ left; by rewrite Hh | right ].
  split; [ by apply names_text_nil | done ].
Qed.

Lemma iterate_names {S} (cb : @FileNameCallback S) (s0 : S) :
  GNUNET_CONFIGURATION_iterate_value_filenames cfg s k (Some cb) s0 = Ret (visit_names cb s0 0 l).
Proof.
  unfold GNUNET_CONFIGURATION_iterate_value_filenames.
  destruct holds_get as [Hg|[-> Hg]]; rewrite (bind_ret _ _ _ Hg); [ | done ].
  pose proof (names_text_length l Hl). apply filenames_loop_ok; [ done | lia | lia ].
Qed.

Lemma visit_test n ret : 0 <= ret ->
  (visit_names (test_match n) tt ret l).2 = GNUNET_SYSERR <-> n ∈ l.
Proof.
  revert ret. clear Hl Hh. induction l as [|m l' IH]; intros ret Hr; cbn.
  - split; [ | by intros ?%elem_of_nil ]. intros ->. unfold GNUNET_SYSERR in Hr. lia.
  - unfold streq. case_bool_decide as E.
    + split; [ intros _; rewrite E; by left | done ].
    + cbn. rewrite IH by lia. rewrite elem_of_cons. split; [ by right | intros [?|?]; [ congruence | done ] ].
Qed.

(** Appending a name *)
Lemma append_name n :
  good_name n -> str_ok s -> str_ok k -> can_alloc (strlen (names_text l) + 2 * strlen n + 3) ->
  exists cfg', GNUNET_CONFIGURATION_append_value_filename cfg s k n
    = Ret (cfg', if decide (n ∈ l) then GNUNET_NO else GNUNET_OK)
  /\ abs cfg' = (if decide (n ∈ l) then abs cfg
                 else <[(lowercase s, lowercase k) := names_text (l ++ [n])]> (abs cfg))
  /\ cfg_inv cfg'.
Proof.
  intros Hn Hs Hk Ha. unfold GNUNET_CONFIGURATION_append_value_filename.
  rewrite (bind_ret _ _ _ (iterate_names (test_match n) tt)).
  pose proof (visit_test n 0 ltac:(done)) as Hv. destruct (visit_names (test_match n) tt 0 l) as [u r].
  cbn [snd] in *. destruct (Z.eqb_spec r GNUNET_SYSERR) as [Hr|Hr].
  { rewrite !decide_True by by apply Hv. by exists cfg. }
  rewrite !decide_False by (intros Hin; by apply Hr, Hv). unfold can_alloc in Ha.
  pose proof (escape_chars_length n) as Hlen. pose proof Hn as [Hc _].
  set (text := names_text (l ++ [n])).
  assert (Htext : text = names_text l ++ (if 0 <? strlen (names_text l) then cs " " else []) ++ escape_chars n).
  { unfold text. destruct l as [|m l'] using rev_ind; [ done | ]. rewrite names_text_app by done. cbn [names_text].
    rewrite names_prefix_snoc, names_text_app by done. cbn [names_text]. rewrite <- !app_assoc. do 2 f_equal.
    destruct (Z.ltb_spec 0 (strlen (names_prefix l' ++ escape_chars m))) as [|Hz]; [ done | ]. exfalso.
    apply Forall_app in Hl as [_ Hm]. apply Forall_cons in Hm as [Hm _].
    destruct (good_escape m Hm) as (c & m' & _ & _ & E). unfold strlen in Hz. rewrite E, length_app in Hz.
    cbn [length] in Hz. lia. }
  assert (Htl : strlen text <= strlen (names_text l) + 1 + strlen (escape_chars n)).
  { rewrite Htext. unfold strlen. rewrite !length_app.
    destruct (0 <? _); [ change (length (cs " ")) with 1%nat | cbn [length] ]; lia. }
  assert (Hold : exists old, (o ← GNUNET_CONFIGURATION_get_value_string cfg s k;
      match o with Some old => Ret old | None => GNUNET_strdup [] end) = Ret old /\ old = names_text l).
  { destruct holds_get as [Hg|[E Hg]]; rewrite (bind_ret _ _ _ Hg); [ by exists (names_text l) | ].
    exists []. by rewrite E. }
  destruct Hold as (old & Hold & ->).
  destruct (set_value_ok cfg s k text Hinv Hs Hk) as (cfg' & Hset & Hinv' & Habs & _).
  { unfold str_ok, can_alloc. lia. }
  exists cfg'. split; [ | by split ].
  destruct (GNUNET_CONFIGURATION_get_value_string cfg s k) as [o| |]; [ | done | done ]. cbn [mbind outcome_bind] in Hold |- *.
  rewrite (bind_ret _ _ _ Hold), (bind_ret _ _ _ (escape_name_ok n Hc ltac:(unfold can_alloc, strlen in *; lia))).
  rewrite <- Htext, (bind_ret (alloc_str _ text) text).
  - by rewrite (bind_ret _ _ _ Hset).
  - apply alloc_str_ok; [ | lia | unfold can_alloc; lia ]. apply names_text_cstr, Forall_app. split; [ done | by constructor ].
Qed.

(** Removing a name *)
Lemma remove_name_op n :
  is_cstr n -> str_ok s -> str_ok k -> can_alloc (2 * strlen n + 1) -> str_ok (names_text l) ->
  exists cfg', GNUNET_CONFIGURATION_remove_value_filename cfg s k n
    = Ret (cfg', if decide (n ∈ l) then GNUNET_OK else GNUNET_NO)
  /\ abs cfg' = (match remove_name n l with
                 | Some l' => <[(lowercase s, lowercase k) := names_text l']> (abs cfg)
                 | None => abs cfg
                 end)
  /\ cfg_inv cfg'.
Proof.
  intros Hc Hs Hk Ha Hok. unfold GNUNET_CONFIGURATION_remove_value_filename.
  destruct holds_get as [Hg|[E Hg]]; rewrite (bind_ret _ _ _ Hg).
  - rewrite (bind_ret _ _ _ (escape_name_ok n Hc Ha)). pose proof (names_text_length l Hl).
    rewrite (bind_ret _ _ _ (remove_filename_loop_ok (S (length (names_text l))) n [] l Hl ltac:(lia) ltac:(lia))). cbn [app].
    pose proof (remove_name_None n l) as Hnone. destruct (remove_name n l) as [l'|] eqn:Er; cbn [fmap option_fmap option_map].
    + rewrite decide_True by (destruct (decide (n ∈ l)) as [|Hni]; [ done | by apply Hnone in Hni ]).
      destruct (set_value_ok cfg s k (names_text l') Hinv Hs Hk) as (cfg' & Hset & Hinv' & Habs & _).
      * pose proof (remove_name_shorter _ _ _ Er). unfold str_ok, can_alloc, strlen in *. lia.
      * exists cfg'. rewrite (bind_ret _ _ _ Hset). by split.
    + rewrite decide_False by by apply Hnone. by exists cfg.
  - exists cfg. rewrite E. rewrite decide_False by apply not_elem_of_nil. done.
Qed.
End NameOps.

(** Sequences of changes to one list of names *)
Inductive name_op :=
  | AppendName (n : str)
  | RemoveName (n : str).

Definition op_name (op : name_op) : str := match op with AppendName n | RemoveName n => n end.

Definition run_name_op (cfg : Handle) (s k : str) (op : name_op) : outcome (Handle * Z) :=
  match op with
  | AppendName n => GNUNET_CONFIGURATION_append_value_filename cfg s k n
  | RemoveName n => GNUNET_CONFIGURATION_remove_value_filename cfg s k n
  end.

Fixpoint run_name_ops (cfg : Handle) (s k : str) (ops : list name_op) (results : list Z)
  : outcome (Handle * list Z) :=
  match ops with
  | [] => Ret (cfg, results)
  | op :: ops' => '(cfg, r) ← run_name_op cfg s k op; run_name_ops cfg s k ops' (results ++ [r])
  end.

(** The same on lists *)
Definition spec_name_op (l : list str) (op : name_op) : list str * Z :=
  match op with
  | AppendName n => if decide (n ∈ l) then (l, GNUNET_NO) else (l ++ [n], GNUNET_OK)
  | RemoveName n => match remove_name n l with Some l' => (l', GNUNET_OK) | None => (l, GNUNET_NO) end
  end.

Fixpoint spec_name_ops (l : list str) (ops : list name_op) (results : list Z) : list str * list Z :=
  match ops with
  | [] => (l, results)
  | op :: ops' => let '(l, r) := spec_name_op l op in spec_name_ops l ops' (results ++ [r])
  end.

Lemma remove_name_sub n l l' (P : str -> Prop) : remove_name n l = Some l' -> Forall P l -> Forall P l'.
Proof.
  revert l'. induction l as [|m l IH]; intros l'; [ done | ]. cbn. case_decide as Hd.
  - intros [= <-] [_ H]%Forall_cons. done.
  - destruct (remove_name n l) as [l0|]; [ | done ]. intros [= <-] [Hm H]%Forall_cons. constructor; [ done | by apply IH ].
Qed.

(** One step: the list of names is changed as the specification says, and nothing else. *)
Lemma name_op_ok cfg s k l op :
  cfg_inv cfg -> Forall good_name l -> holds_names cfg s k l -> str_ok s -> str_ok k ->
  good_name (op_name op) -> strlen (op_name op) <= 1000 -> strlen (names_text l) <= 2 ^ 25 ->
  exists cfg', run_name_op cfg s k op = Ret (cfg', (spec_name_op l op).2)
    /\ cfg_inv cfg' /\ Forall good_name (spec_name_op l op).1 /\ holds_names cfg' s k (spec_name_op l op).1
    /\ (forall i, i <> (lowercase s, lowercase k) -> abs cfg' !! i = abs cfg !! i)
    /\ strlen (names_text (spec_name_op l op).1) <= strlen (names_text l) + 2001.
Proof.
  intros Hinv Hl Hh Hs Hk Hg Hn Hsz.
  assert (Ha : can_alloc (strlen (names_text l) + 2 * strlen (op_name op) + 3)).
  { unfold can_alloc, GNUNET_MAX_MALLOC_CHECKED. lia. }
  destruct op as [n|n]; cbn [op_name run_name_op spec_name_op] in *.
  - destruct (append_name cfg s k l Hinv Hl Hh n Hg Hs Hk Ha) as (cfg' & Hr & Habs & Hinv').
    exists cfg'. destruct (decide (n ∈ l)) as [Hin|Hin]; cbn [fst snd].
    + split; [ done | ]. split; [ done | ]. split; [ done | ]. unfold holds_names. rewrite Habs.
      split; [ done | ]. split; [ done | lia ].
    + split; [ done | ]. split; [ done | ]. split; [ apply Forall_app; split; [ done | by constructor ] | ].
      unfold holds_names. rewrite Habs, lookup_insert_eq. split; [ done | ].
      split; [ intros i Hi; by apply lookup_insert_ne | ].
      pose proof (escape_chars_length n) as He. destruct l as [|m l'] using rev_ind; [ cbn [app names_text]; unfold strlen in *; lia | ].
      rewrite names_text_app by done. rewrite (names_text_app l' [m]), names_prefix_snoc by done. cbn [names_text].
      unfold strlen in *. rewrite !length_app. cbn [length]. lia.
  - destruct Hg as [Hc Hg]. assert (Ha' : can_alloc (2 * strlen n + 1)) by (unfold can_alloc, strlen in *; lia).
    assert (Hok : str_ok (names_text l)) by (unfold str_ok, can_alloc, strlen in *; lia).
    destruct (remove_name_op cfg s k l Hinv Hl Hh n Hc Hs Hk Ha' Hok) as (cfg' & Hr & Habs & Hinv').
    exists cfg'. pose proof (remove_name_None n l) as Hnone. destruct (remove_name n l) as [l'|] eqn:Er; cbn [fst snd].
    + rewrite decide_True in Hr by (destruct (decide (n ∈ l)) as [|Hni]; [ done | by apply Hnone in Hni ]).
      split; [ done | ]. split; [ done | ]. split; [ by eapply remove_name_sub | ].
      unfold holds_names. rewrite Habs, lookup_insert_eq. split; [ done | ].
      split; [ intros i Hi; by apply lookup_insert_ne | ].
      pose proof (remove_name_shorter _ _ _ Er). unfold strlen. lia.
    + rewrite decide_False in Hr by by apply Hnone. split; [ done | ]. split; [ done | ]. split; [ done | ].
      unfold holds_names. rewrite Habs. split; [ done | ]. split; [ done | lia ].
Qed.

Lemma name_ops_ok ops cfg s k l results :
  cfg_inv cfg -> Forall good_name l -> holds_names cfg s k l -> str_ok s -> str_ok k ->
  Forall (fun op => good_name (op_name op) /\ strlen (op_name op) <= 1000) ops ->
  strlen (names_text l) + 2001 * Z.of_nat (length ops) <= 2 ^ 25 ->
  exists cfg', run_name_ops cfg s k ops results = Ret (cfg', (spec_name_ops l ops results).2)
    /\ cfg_inv cfg' /\ Forall good_name (spec_name_ops l ops results).1 /\ holds_names cfg' s k (spec_name_ops l ops results).1
    /\ (forall i, i <> (lowercase s, lowercase k) -> abs cfg' !! i = abs cfg !! i).
Proof.
  intros Hinv Hl Hh Hs Hk Hops. revert cfg l results Hinv Hl Hh.
  induction Hops as [|op ops [Hg Hn] _ IH]; intros cfg l results Hinv Hl Hh Hsz; [ by exists cfg | ].
  cbn [length] in Hsz. destruct (name_op_ok cfg s k l op Hinv Hl Hh Hs Hk Hg Hn ltac:(lia)) as (c1 & Hr & Hi & Hl1 & Hh1 & Ho & Hz).
  cbn [run_name_ops spec_name_ops]. rewrite (bind_ret _ _ _ Hr). destruct (spec_name_op l op) as [l1 r]. cbn [fst snd] in *.
  destruct (IH c1 l1 (results ++ [r]) Hi Hl1 Hh1 ltac:(lia)) as (c2 & H1 & H2 & H3 & H4 & H5).
  exists c2. split; [ done | ]. split; [ done | ]. split; [ done | ]. split; [ done | ].
  intros i Hi'. rewrite H5, Ho by done. done.
Qed.

Section NamesSpec.

(** C22: An option that holds file names and is not set at first implements a
    list of names without duplicates: any sequence of up to 10000 calls that
    append and remove names (of up to 1000 characters, which may contain
    spaces and backslashes, but not start with one) returns, each call reports
    whether the name was new or was there, afterwards iteration shows the
    callback exactly the names of the list, in order and until it objects, and
    no other option has changed. *)
Theorem filename_list_refines (cfg : Handle) (s k : str) (ops : list name_op) :
  cfg_inv cfg -> abs cfg !! (lowercase s, lowercase k) = None -> str_ok s -> str_ok k ->
  Forall (fun op => good_name (op_name op) /\ strlen (op_name op) <= 1000) ops ->
  Z.of_nat (length ops) <= 10000 ->
  exists cfg', run_name_ops cfg s k ops [] = Ret (cfg', (spec_name_ops [] ops []).2)
    /\ (forall (S : Type) (cb : @FileNameCallback S) (s0 : S),
          GNUNET_CONFIGURATION_iterate_value_filenames cfg' s k (Some cb) s0
          = Ret (visit_names cb s0 0 (spec_name_ops [] ops []).1))
    /\ (forall i, i <> (lowercase s, lowercase k) -> abs cfg' !! i = abs cfg !! i).
Proof.
  intros Hinv Hnone Hs Hk Hops Hlen.
  destruct (name_ops_ok ops cfg s k [] [] Hinv) as (c & H1 & H2 & H3 & H4 & H5); [ constructor | | done | done | done | | ].
  - exact (f_equal (default []) Hnone).
  - change (strlen (names_text [])) with 0. lia.
  - exists c. split; [ done | ]. split; [ | done ]. intros S cb s0. by apply iterate_names.
Qed.

Lemma filename_list_refines_witness :
  exists cfg', run_name_ops GNUNET_CONFIGURATION_create (cs "fs") (cs "INDEX")
    [AppendName (cs "a b"); AppendName (cs "c"); AppendName (cs "a b"); AppendName (cs "d\e"); RemoveName (cs "c")] []
    = Ret (cfg', [GNUNET_OK; GNUNET_OK; GNUNET_NO; GNUNET_OK; GNUNET_OK])
  /\ GNUNET_CONFIGURATION_iterate_value_filenames cfg' (cs "fs") (cs "INDEX")
       (Some (fun acc n => (acc ++ [n], GNUNET_OK))) [] = Ret ([cs "a b"; cs "d\e"], 2).
Proof.
  destruct (filename_list_refines GNUNET_CONFIGURATION_create (cs "fs") (cs "INDEX")
    [AppendName (cs "a b"); AppendName (cs "c"); AppendName (cs "a b"); AppendName (cs "d\e"); RemoveName (cs "c")])
    as (c & H1 & H2 & _).
  - exact config_create_inv.
  - reflexivity.
  - vm_compute. congruence.
  - vm_compute. congruence.
  - repeat (constructor; [ split; [ split; [ repeat constructor; done | eexists _, _; split; [ reflexivity | split; done ] ]
                                  | vm_compute; congruence ] | ]). constructor.
  - vm_compute. congruence.
  - exists c. split; [ rewrite H1; vm_compute; reflexivity | ]. etransitivity; [ apply H2 | ]. vm_compute. reflexivity.
Defined.

(** A name that starts with a space is stored but read back as two other names. *)
Lemma filename_list_leading_space (n : str) :
  good_name n ->
  filenames_loop (S (S (length n))) (Some (fun acc m => (acc ++ [m], GNUNET_OK))) [] 0 (names_text [SPACE :: n])
  = Ret ([[BACKSLASH]; n], 2).
Proof.
  intros Hn. change (names_text [SPACE :: n]) with (BACKSLASH :: SPACE :: escape_chars n).
  cbn [filenames_loop drop_while]. change (BACKSLASH =? SPACE) with false. cbn iota.
  change (name_end (SPACE :: escape_chars n)) with (@nil Z, SPACE :: escape_chars n). cbn iota beta.
  change (negb (GNUNET_OK =? GNUNET_OK)) with false. cbn iota. cbn [app].
  pose proof (filenames_loop_ok (S (length n)) (fun acc m => (acc ++ [m], GNUNET_OK)) [[BACKSLASH]] 1 [n]) as Hl.
  cbn [names_text visit_names] in Hl. change (negb (GNUNET_OK =? GNUNET_OK)) with false in Hl. cbn iota in Hl.
  apply Hl; [ by constructor | cbn; lia | lia ].
Qed.

End NamesSpec.

(** ** File names that refer to other options *)

Definition not_sep (c : Z) : bool := negb ((c =? SLASH) || (c =? BACKSLASH)).

(** The variable that a value starts with, and what follows it *)
Definition dollar_var (v : str) : option (str * str) :=
  match v with
  | c :: v' => if c =? DOLLAR then Some (span (length v') not_sep v') else None
  | [] => None
  end.

Lemma span_split w p s t r :
  span w p s = (t, r) -> (length s <= w)%nat ->
  s = t ++ r /\ Forall (fun c => p c = true) t /\ stops p r.
Proof.
  revert s t. induction w as [|w IH]; intros [|c s] t; cbn; intros Hs Hl; try lia.
  - injection Hs as <- <-. split; [ done | ]. split; [ constructor | by intros d ].
  - injection Hs as <- <-. split; [ done | ]. split; [ constructor | by intros d ].
  - destruct (p c) eqn:Hc.
    + destruct (span w p s) as [t' r'] eqn:E. injection Hs as <- <-.
      destruct (IH s t' E ltac:(lia)) as (-> & H2 & H3). split; [ done | ]. split; [ by constructor | done ].
    + injection Hs as <- <-. split; [ done | ]. split; [ constructor | by apply stops_cons ].
Qed.

Lemma dollar_var_split v var tail :
  dollar_var v = Some (var, tail) ->
  v = DOLLAR :: var ++ tail /\ Forall (fun c => not_sep c = true) var
  /\ (tail = [] \/ exists c post, tail = c :: post /\ not_sep c = false).
Proof.
  destruct v as [|c v]; [ done | ]. cbn. destruct (Z.eqb_spec c DOLLAR) as [->|]; [ | done ]. intros [= Hs].
  apply span_split in Hs as (-> & H1 & H2); [ | done ]. split; [ done | ]. split; [ done | ].
  destruct tail as [|d tail]; [ by left | right ]. exists d, tail. split; [ done | ]. by apply H2.
Qed.

Lemma dollar_end_ok var rest :
  is_cstr var -> Forall (fun c => not_sep c = true) var -> stops (fun c => not_sep c && negb (c =? 0)) rest -> rest <> [] ->
  dollar_end (var ++ rest) = Ret (length var).
Proof.
  intros Hc Hn Hs Hne. induction Hn as [|c var Hv _ IH]; cbn [app dollar_end].
  - destruct rest as [|d rest]; [ done | ]. cbn. specialize (Hs d eq_refl). unfold not_sep in Hs.
    destruct ((d =? SLASH) || (d =? BACKSLASH)) eqn:E; cbn in *; [ done | ].
    apply negb_false_iff in Hs. by rewrite Hs.
  - apply Forall_cons in Hc as [Hc0 Hc]. unfold not_sep in Hv. destruct (Z.eqb_spec c 0); [ done | ].
    destruct ((c =? SLASH) || (c =? BACKSLASH)); [ done | ]. cbn [orb]. by rewrite (bind_ret _ _ _ (IH Hc)).
Qed.

(** The separator that is put between the expansion and the rest *)
Definition dollar_sep (prefix post : str) : str :=
  if bool_decide (strlen prefix = 0) || (negb (bool_decide (list.last prefix = Some SLASH)) && (0 <? strlen post))
  then DIR_SEPARATOR_STR else [].

Section Dollar.
Context `{Environment} (get_paths : str -> outcome (option str)).

(** The prefix that a variable stands for *)
Definition prefix_of (p : option str) (var : str) : option str :=
  match p with Some f => Some f | None => getenv var end.

(** What is done with the parts of a value that starts with a variable *)
Lemma expand_dollar_parts v var tail :
  is_cstr v -> dollar_var v = Some (var, tail) ->
  expand_dollar_with get_paths (v ++ [0]) =
  (p ← get_paths var;
   prefix ← match p with
            | Some prefix => Ret (Some prefix)
            | None => match getenv var with None => Ret None | Some env => e ← GNUNET_strdup env; Ret (Some e) end
            end;
   match prefix with
   | None => mem_write (v ++ [0]) (S (length var)) [SLASH]
   | Some prefix =>
       result ← alloc_str (strlen prefix + strlen (drop 1 tail) + 2) (prefix ++ dollar_sep prefix (drop 1 tail) ++ drop 1 tail);
       Ret (result ++ [0])
   end).
Proof.
  intros Hv Hd. apply dollar_var_split in Hd as (-> & Hn & Ht).
  apply Forall_cons in Hv as [_ Hv]. apply Forall_app in Hv as [Hvar Htail].
  unfold expand_dollar_with. rewrite (bind_ret (of_option _) DOLLAR) by done.
  change (negb (DOLLAR =? DOLLAR)) with false. cbn iota. cbn [app]. rewrite <- app_assoc.
  rewrite (bind_ret (dollar_end _) (S (length var))).
  2:{ change (DOLLAR :: var ++ tail ++ [0]) with ((DOLLAR :: var) ++ tail ++ [0]).
      rewrite dollar_end_ok; [ done | by constructor | by constructor | | by destruct tail ].
      destruct Ht as [->|(c & post & -> & Hc)]; apply stops_cons; [ done | by rewrite Hc ]. }
  assert (Hvar' : take (S (length var) - 1) (drop 1 (DOLLAR :: var ++ tail ++ [0])) = var).
  { cbn [drop Nat.sub]. by rewrite drop_0, Nat.sub_0_r, take_app_length. }
  rewrite Hvar'. destruct Ht as [->|(c & post & -> & Hc)]; cbn [app].
  - rewrite (bind_ret (of_option _) 0).
    2:{ change (of_option ((var ++ [0]) !! length var) = Ret 0). by rewrite list_lookup_middle. }
    change (0 =? 0) with true. reflexivity.
  - apply Forall_cons in Htail as [Hc0 Hpost]. rewrite (bind_ret (of_option _) c).
    2:{ change (of_option ((var ++ c :: post ++ [0]) !! length var) = Ret c). by rewrite list_lookup_middle. }
    destruct (Z.eqb_spec c 0); [ done | ]. rewrite (bind_ret (c_str _) post); [ by cbn [drop]; rewrite drop_0 | ].
    change (drop (S (length var) + 1) (DOLLAR :: var ++ c :: post ++ [0]))
      with (drop (length var + 1) (var ++ c :: post ++ [0])).
    rewrite drop_app_add. cbn [drop]. rewrite drop_0. by apply c_str_terminated.
Qed.
End Dollar.

Definition PATHS : str := lowercase (cs "PATHS").

(** Options that refer to other options of the section PATHS: the references decrease a
    rank, and a value that is nothing but a variable refers to something. *)
Record refs_ok `{Environment} (cfg : Handle) (rank : str -> nat) : Prop := {
  ro_value : forall i v, abs cfg !! i = Some v -> is_cstr v /\ strlen v <= 1000;
  ro_rank : forall o v var tail, abs cfg !! (PATHS, o) = Some v -> dollar_var v = Some (var, tail) ->
    abs cfg !! (PATHS, lowercase var) <> None -> (rank (lowercase var) < rank o)%nat;
  ro_bound : forall o, (rank o <= 1000)%nat;
  ro_dangling : forall i v var, abs cfg !! i = Some v -> dollar_var v = Some (var, []) ->
    abs cfg !! (PATHS, lowercase var) <> None \/ getenv var <> None
}.

Section Expansion.
Context `{Environment}.
Context (Henv : env_ok) (Hcstr : env_cstr) (Hlong : forall v e, getenv v = Some e -> strlen e <= 2 ^ 20).

Lemma expand_small fil :
  is_cstr fil -> strlen fil <= 2 ^ 21 ->
  exists f, (t ← c_str (fil ++ [0]); GNUNET_STRINGS_filename_expand (Some t)) = Ret (Some f)
    /\ absolute f /\ is_cstr f /\ strlen f <= 2 ^ 24.
Proof.
  intros Hc Hl. rewrite (bind_ret _ _ _ (c_str_terminated fil [] Hc)).
  destruct (filename_expand_returns fil Henv ltac:(lia)) as (f & Hf & Ha & Hlen).
  exists f. split; [ done | ]. split; [ done | ]. split; [ by eapply filename_expand_cstr | done ].
Qed.

Lemma dollar_sep_cstr a b : is_cstr (dollar_sep a b) /\ strlen (dollar_sep a b) <= 1.
Proof.
  unfold dollar_sep. destruct (_ || _); [ | split; [ constructor | done ] ].
  split; [ by repeat constructor | done ].
Qed.

(** The buffer for prefix and rest *)
Lemma dollar_alloc prefix post :
  is_cstr prefix -> is_cstr post -> strlen prefix + strlen post <= 2 ^ 25 ->
  alloc_str (strlen prefix + strlen post + 2) (prefix ++ dollar_sep prefix post ++ post)
  = Ret (prefix ++ dollar_sep prefix post ++ post)
  /\ is_cstr (prefix ++ dollar_sep prefix post ++ post)
  /\ strlen (prefix ++ dollar_sep prefix post ++ post) <= strlen prefix + 1 + strlen post.
Proof.
  intros Hx Hp Hl. destruct (dollar_sep_cstr prefix post) as [Hs1 Hs2].
  assert (Hr : is_cstr (prefix ++ dollar_sep prefix post ++ post)).
  { apply is_cstr_app. split; [ done | ]. apply is_cstr_app. by split. }
  assert (Hz : strlen (prefix ++ dollar_sep prefix post ++ post) <= strlen prefix + 1 + strlen post).
  { unfold strlen in *. rewrite !length_app. lia. }
  split; [ | done ]. apply alloc_str_ok; [ done | lia | unfold can_alloc, GNUNET_MAX_MALLOC_CHECKED; lia ].
Qed.

(** A variable that stands for nothing: its separator becomes a slash. *)
Lemma restore_separator var c post :
  mem_write ((DOLLAR :: var ++ c :: post) ++ [0]) (S (length var)) [SLASH]
  = Ret ((DOLLAR :: var ++ SLASH :: post) ++ [0]).
Proof.
  rewrite (mem_write_at _ (DOLLAR :: var) (c :: post ++ [0])); [ | | done | cbn; lia ].
  - cbn [length drop app]. by rewrite <- app_assoc, drop_0.
  - cbn [app]. by rewrite <- app_assoc.
Qed.

Lemma dollar_parts_small v var tail :
  is_cstr v -> strlen v <= 1000 -> dollar_var v = Some (var, tail) ->
  is_cstr (drop 1 tail) /\ strlen (drop 1 tail) <= 1000
  /\ is_cstr (DOLLAR :: var ++ SLASH :: drop 1 tail) /\ strlen (DOLLAR :: var ++ SLASH :: drop 1 tail) <= 1001.
Proof.
  intros Hc Hl Hd. apply dollar_var_split in Hd as (-> & _ & _). apply Forall_cons in Hc as [_ Hc].
  apply Forall_app in Hc as [Hv Ht]. pose proof (Forall_drop _ 1 _ Ht) as Hd. unfold strlen in *.
  cbn [length] in *. rewrite !length_app in *. cbn [length]. rewrite length_drop. split; [ done | ]. split; [ lia | ].
  split; [ | lia ]. constructor; [ done | ]. apply is_cstr_app. split; [ done | by constructor ].
Qed.

(** A good file name of bounded length *)
Definition good_path (B : Z) (f : str) : Prop := absolute f /\ is_cstr f /\ strlen f <= B.

(** One level of the recursion *)
Lemma expand_level get_paths v B :
  is_cstr v -> strlen v <= 1000 -> 2 ^ 24 <= B <= 2 ^ 24 + 2 ^ 20 ->
  (forall var tail, dollar_var v = Some (var, tail) ->
     exists p, get_paths var = Ret p /\ (forall f, p = Some f -> good_path B f)
       /\ (p = None -> tail = [] -> getenv var <> None)) ->
  exists f, (t ← expand_dollar_with get_paths (v ++ [0]); t ← c_str t; GNUNET_STRINGS_filename_expand (Some t))
    = Ret (Some f) /\ good_path (B + 1002) f.
Proof.
  intros Hc Hl HB Hrec.
  assert (Hweak : forall fil, is_cstr fil -> strlen fil <= 2 ^ 21 ->
    exists f, (t ← c_str (fil ++ [0]); GNUNET_STRINGS_filename_expand (Some t)) = Ret (Some f) /\ good_path (B + 1002) f).
  { intros fil H1 H2. destruct (expand_small fil H1 H2) as (f & Hf & ? & ? & ?). exists f.
    split; [ done | ]. split; [ done | ]. split; [ done | lia ]. }
  destruct (dollar_var v) as [[var tail]|] eqn:Hd.
  - destruct (Hrec var tail eq_refl) as (p & Hg & Hpath & Hdang).
    rewrite (expand_dollar_parts get_paths v var tail Hc Hd), (bind_ret _ _ _ Hg).
    pose proof (dollar_var_split _ _ _ Hd) as (Ev & _ & Ht).
    destruct (dollar_parts_small v var tail Hc Hl Hd) as (Hpc & Hpl & Hrc & Hrl).
    destruct p as [f|]; [ | destruct (getenv var) as [e|] eqn:He ].
    + destruct (Hpath f eq_refl) as (Hfa & Hfc & Hfl). rewrite (bind_ret (Ret _) (Some f)) by done.
      destruct (dollar_alloc f (drop 1 tail) Hfc Hpc ltac:(lia)) as (-> & Hr & Hz).
      rewrite (bind_ret (Ret _) _ _ eq_refl), (bind_ret (Ret _) _ _ eq_refl), (bind_ret _ _ _ (c_str_terminated _ [] Hr)).
      eexists. split; [ apply filename_expand_absolute | split; [ | split; [ exact Hr | lia ] ] ].
      * unfold absolute in *. by destruct f.
      * unfold can_alloc, GNUNET_MAX_MALLOC_CHECKED. lia.
      * unfold absolute in *. by destruct f.
    + pose proof (proj1 Hcstr _ _ He) as Hec. pose proof (Hlong _ _ He) as Hel.
      rewrite (bind_ret (GNUNET_strdup e) e) by (apply GNUNET_strdup_ok; unfold can_alloc, GNUNET_MAX_MALLOC_CHECKED; lia).
      rewrite (bind_ret (Ret _) (Some e)) by done.
      destruct (dollar_alloc e (drop 1 tail) Hec Hpc ltac:(lia)) as (-> & Hr & Hz).
      rewrite (bind_ret (Ret _) _ _ eq_refl), (bind_ret (Ret _) _ _ eq_refl). apply Hweak; [ done | lia ].
    + destruct Ht as [->|(c & post & -> & _)]; [ by destruct (Hdang eq_refl eq_refl) | ].
      cbn [drop] in Hrc, Hrl. rewrite drop_0 in Hrc, Hrl. rewrite (bind_ret (Ret _) None) by done. subst v.
      rewrite (bind_ret _ _ _ (restore_separator var c post)). apply Hweak; [ done | lia ].
  - rewrite (bind_ret (expand_dollar_with _ _) (v ++ [0])); [ apply Hweak; [ done | lia ] | ].
    unfold expand_dollar_with. destruct v as [|c v]; [ done | ]. cbn in Hd |- *. by destruct (c =? DOLLAR).
Qed.
End Expansion.

Lemma get_filename_step `{Environment} cfg s k v fuel :
  cfg_inv cfg -> abs cfg !! (lowercase s, lowercase k) = Some v ->
  GNUNET_CONFIGURATION_get_value_filename (S fuel) cfg s k
  = (t ← expand_dollar_with (GNUNET_CONFIGURATION_get_value_filename fuel cfg (cs "PATHS")) (v ++ [0]);
     t ← c_str t; GNUNET_STRINGS_filename_expand (Some t)).
Proof.
  intros Hinv Hv. cbn [GNUNET_CONFIGURATION_get_value_filename].
  by rewrite (bind_ret _ _ _ (eq_trans (get_value_string_abs cfg s k Hinv) (f_equal Ret Hv))).
Qed.

Lemma get_filename_none `{Environment} cfg s k fuel :
  cfg_inv cfg -> abs cfg !! (lowercase s, lowercase k) = None ->
  GNUNET_CONFIGURATION_get_value_filename (S fuel) cfg s k = Ret None.
Proof.
  intros Hinv Hv. cbn [GNUNET_CONFIGURATION_get_value_filename].
  by rewrite (bind_ret _ _ _ (eq_trans (get_value_string_abs cfg s k Hinv) (f_equal Ret Hv))).
Qed.

Section Ranked.
Context `{Environment} (cfg : Handle) (rank : str -> nat).
Context (Henv : env_ok) (Hcstr : env_cstr) (Hlong : forall v e, getenv v = Some e -> strlen e <= 2 ^ 20).
Context (Hinv : cfg_inv cfg) (Hrefs : refs_ok cfg rank).

(** What a reference to an option of PATHS gives, if the references behind it end *)
Lemma paths_expand n o v fuel :
  (rank (lowercase o) < n)%nat -> (n <= 1001)%nat -> (n + 1 <= fuel)%nat -> abs cfg !! (PATHS, lowercase o) = Some v ->
  exists f, GNUNET_CONFIGURATION_get_value_filename fuel cfg (cs "PATHS") o = Ret (Some f)
    /\ good_path (2 ^ 24 + 1002 * Z.of_nat n) f.
Proof.
  revert o v fuel. induction n as [|n IH]; intros o v fuel Hr Hn Hf Hv; [ lia | ].
  destruct fuel as [|fuel]; [ lia | ]. rewrite (get_filename_step cfg (cs "PATHS") o v fuel Hinv Hv).
  destruct (ro_value _ _ Hrefs _ _ Hv) as [Hc Hl].
  destruct (expand_level Henv Hcstr Hlong (GNUNET_CONFIGURATION_get_value_filename fuel cfg (cs "PATHS")) v
    (2 ^ 24 + 1002 * Z.of_nat n) Hc Hl ltac:(lia)) as (f & Hf' & Hg).
  - intros var tail Hd. destruct (abs cfg !! (PATHS, lowercase var)) as [w|] eqn:Hw.
    + pose proof (ro_rank _ _ Hrefs (lowercase o) v var tail Hv Hd ltac:(congruence)) as Hlt.
      destruct (IH var w fuel ltac:(lia) ltac:(lia) ltac:(lia) Hw) as (f & Hf' & Hg). exists (Some f).
      split; [ done | ]. split; [ by intros ? [= <-] | done ].
    + destruct fuel as [|fuel]; [ lia | ]. exists None. split; [ by apply get_filename_none | ].
      split; [ done | ]. intros _ ->. by destruct (ro_dangling _ _ Hrefs _ _ _ Hv Hd).
  - exists f. split; [ exact Hf' | ]. destruct Hg as (? & ? & ?). split; [ done | ]. split; [ done | lia ].
Qed.

Lemma filename_expand_ranked s k v fuel :
  (1003 <= fuel)%nat -> abs cfg !! (lowercase s, lowercase k) = Some v ->
  exists f, GNUNET_CONFIGURATION_get_value_filename fuel cfg s k = Ret (Some f) /\ absolute f.
Proof.
  intros Hf Hv. destruct fuel as [|fuel]; [ lia | ]. rewrite (get_filename_step cfg s k v fuel Hinv Hv).
  destruct (ro_value _ _ Hrefs _ _ Hv) as [Hc Hl].
  destruct (expand_level Henv Hcstr Hlong (GNUNET_CONFIGURATION_get_value_filename fuel cfg (cs "PATHS")) v
    (2 ^ 24 + 1002 * 1001) Hc Hl ltac:(lia)) as (f & Hf' & Hg & _); [ | by exists f ].
  intros var tail Hd. destruct (abs cfg !! (PATHS, lowercase var)) as [w|] eqn:Hw.
  - pose proof (ro_bound _ _ Hrefs (lowercase var)).
    destruct (paths_expand 1001 var w fuel ltac:(lia) ltac:(lia) ltac:(lia) Hw) as (f & Hf' & Hg).
    exists (Some f). split; [ done | ]. split; [ by intros ? [= <-] | done ].
  - destruct fuel as [|fuel]; [ lia | ]. exists None. split; [ by apply get_filename_none | ].
    split; [ done | ]. intros _ ->. by destruct (ro_dangling _ _ Hrefs _ _ _ Hv Hd).
Qed.
End Ranked.

Section ExpansionSpec.

(** C34: Reading an option that holds a file name ends with an absolute file
    name, if the references between options ($NAME, looked up in the section
    PATHS and then in the environment) have no cycle and no value is nothing
    but a reference to a name that is defined in neither (for such a value
    expand_dollar writes over the NUL of its buffer,
    filename_dangling_variable): get_value_filename and expand_dollar call
    each other without a limit, but a chain of up to 1000 references is
    followed to its end, whatever the names are relative to, and the buffers
    of all expansions are large enough. Values have at most 1000 characters,
    environment variables at most 2^20. *)
Theorem filename_expansion_terminates `{Environment} (cfg : Handle) (rank : str -> nat) (s k v : str) (fuel : nat) :
  env_ok -> env_cstr -> (forall v e, getenv v = Some e -> strlen e <= 2 ^ 20) ->
  cfg_inv cfg -> refs_ok cfg rank ->
  abs cfg !! (lowercase s, lowercase k) = Some v -> (1003 <= fuel)%nat ->
  exists f, GNUNET_CONFIGURATION_get_value_filename fuel cfg s k = Ret (Some f) /\ absolute f.
Proof. intros He Hc Hl Hi Hr Hv Hf. by eapply filename_expand_ranked. Qed.

(** [PATHS/SERVICEHOME = ~/.gnunet/], [PATHS/DEFAULTCONFIG = $SERVICEHOME/gnunet.conf] *)
Definition paths_ops : list config_op :=
  [OpSet (cs "PATHS") (cs "SERVICEHOME") (cs "~/.gnunet/");
   OpSet (cs "PATHS") (cs "DEFAULTCONFIG") (cs "$SERVICEHOME/gnunet.conf")].

Definition paths_rank (o : str) : nat := if streq o (lowercase (cs "DEFAULTCONFIG")) then 1 else 0.

Definition paths_cfg : Handle :=
  mk_cfg [mk_section (cs "PATHS") [mk_entry (cs "DEFAULTCONFIG") (Some (cs "$SERVICEHOME/gnunet.conf"));
    mk_entry (cs "SERVICEHOME") (Some (cs "~/.gnunet/"))]] GNUNET_NO.

Lemma paths_cfg_abs i v :
  abs paths_cfg !! i = Some v ->
  (i = (PATHS, lowercase (cs "DEFAULTCONFIG")) /\ v = cs "$SERVICEHOME/gnunet.conf")
  \/ (i = (PATHS, lowercase (cs "SERVICEHOME")) /\ v = cs "~/.gnunet/").
Proof.
  intros Hl. apply elem_of_list_to_map_2 in Hl. cbn in Hl. rewrite !elem_of_cons in Hl.
  destruct Hl as [Hl|[Hl|Hl%elem_of_nil]]; [ left | right | done ]; injection Hl as -> ->; by split.
Qed.

Lemma paths_cfg_inv : cfg_inv paths_cfg.
Proof.
  destruct (run_config_ops_ok paths_ops _ config_create_inv) as (c & Hc & Hinv & _).
  - repeat constructor; vm_compute; congruence.
  - assert (Hs : run_config_ops GNUNET_CONFIGURATION_create paths_ops = Ret paths_cfg) by (vm_compute; reflexivity).
    rewrite Hs in Hc. injection Hc as <-. exact Hinv.
Qed.

Lemma paths_refs_ok : @refs_ok sample_environment paths_cfg paths_rank.
Proof.
  split.
  - intros i v [[_ ->]|[_ ->]]%paths_cfg_abs; (split; [ repeat constructor; done | vm_compute; congruence ]).
  - intros o v var tail [[Ho ->]|[Ho ->]]%paths_cfg_abs Hd; vm_compute in Hd; [ | done ].
    injection Hd as <- <-. intros _. injection Ho as ->. vm_compute. lia.
  - intros o. unfold paths_rank. destruct (streq _ _); lia.
  - intros i v var [[_ ->]|[_ ->]]%paths_cfg_abs Hd; vm_compute in Hd; done.
Qed.

Lemma filename_expansion_terminates_witness :
  exists f, @GNUNET_CONFIGURATION_get_value_filename sample_environment 1003 paths_cfg (cs "paths") (cs "DefaultConfig")
    = Ret (Some f) /\ absolute f.
Proof.
  apply (@filename_expansion_terminates sample_environment paths_cfg paths_rank (cs "paths") (cs "DefaultConfig")
    (cs "$SERVICEHOME/gnunet.conf") 1003).
  - exact sample_env_ok.
  - split.
    + intros v e He. destruct (sample_getenv v e He) as [E|E]; rewrite E; repeat constructor; done.
    + intros n d Hd. rewrite (sample_getcwd n d Hd). repeat constructor; done.
  - intros v e He. destruct (sample_getenv v e He) as [E|E]; rewrite E; vm_compute; congruence.
  - exact paths_cfg_inv.
  - exact paths_refs_ok.
  - vm_compute. reflexivity.
  - lia.
Defined.

(** An option of PATHS that refers to itself: no depth is enough. *)
Lemma filename_expansion_cycle `{Environment} (cfg : Handle) (o tail : str) (fuel : nat) :
  cfg_inv cfg -> is_cstr (DOLLAR :: o ++ tail) -> dollar_var (DOLLAR :: o ++ tail) = Some (o, tail) ->
  abs cfg !! (PATHS, lowercase o) = Some (DOLLAR :: o ++ tail) ->
  GNUNET_CONFIGURATION_get_value_filename fuel cfg (cs "PATHS") o = Undefined.
Proof.
  intros Hinv Hc Hd Hv. induction fuel as [|fuel IH]; [ done | ].
  rewrite (get_filename_step cfg (cs "PATHS") o _ fuel Hinv Hv).
  rewrite (expand_dollar_parts _ _ _ _ Hc Hd). by rewrite IH.
Qed.

(** A value that is nothing but an unknown variable: the slash that is written back replaces
    the NUL, and the string is read beyond its buffer. *)
Lemma filename_dangling_variable `{Environment} (cfg : Handle) (s k var : str) (fuel : nat) :
  cfg_inv cfg -> is_cstr (DOLLAR :: var) -> dollar_var (DOLLAR :: var) = Some (var, []) ->
  abs cfg !! (lowercase s, lowercase k) = Some (DOLLAR :: var) ->
  abs cfg !! (PATHS, lowercase var) = None -> getenv var = None ->
  GNUNET_CONFIGURATION_get_value_filename (S (S fuel)) cfg s k = Undefined.
Proof.
  intros Hinv Hc Hd Hv Hn He. rewrite (get_filename_step cfg s k _ _ Hinv Hv).
  rewrite (expand_dollar_parts _ _ _ _ Hc Hd), (bind_ret _ _ _ (get_filename_none cfg (cs "PATHS") var fuel Hinv Hn)), He.
  rewrite (bind_ret (Ret _) None) by done.
  rewrite (bind_ret (mem_write _ _ _) (DOLLAR :: var ++ [SLASH])).
  2:{ rewrite (mem_write_at _ (DOLLAR :: var) [0]); [ done | done | done | cbn; lia ]. }
  assert (Hu : c_str (DOLLAR :: var ++ [SLASH]) = Undefined); [ | by rewrite Hu ].
  apply Forall_cons in Hc as [_ Hc]. change (DOLLAR :: var ++ [SLASH]) with ((DOLLAR :: var) ++ [SLASH]).
  assert (Hg : forall l, is_cstr l -> c_str (l ++ [SLASH]) = Undefined).
  { induction 1 as [|c l Hc0 _ IH]; [ done | ]. cbn. destruct (Z.eqb_spec c 0); [ done | ]. by rewrite IH. }
  apply Hg. by constructor.
Qed.

End ExpansionSpec.
