(* ===== verification/CryptoAes.v ===== *)
(** * AES session keys and block encryption: [src/util/crypto_aes.c] and
    [GNUNET_CRYPTO_hash] of [src/util/crypto_hash.c]

    SHA-512 and AES-256 in CFB mode are libgcrypt's: the class [Gcrypt] has one
    field per libgcrypt function the code calls, and [GcryptLaws] states what its
    manual documents of them.  The theorems about the code are that a key derived
    from a hash code passes the checksum test and that decryption inverts
    encryption under it. *)

From Stdlib Require Import ZArith Lia.
From stdpp Require Import base list numbers.
From S2P Require Import Prelude Endian Crc Base32 Hash.
Local Open Scope Z_scope.

(** ** libgcrypt *)

(** The error codes are the [int] values the functions return; a cipher handle is
    what was set in it, the key and the initialization vector. *)
Class Gcrypt := {
  gcry_md_sha512 : list Z -> GNUNET_HashCode;
  gcry_cipher_open : Z;
  gcry_cipher_setkey : list Z -> Z;
  gcry_cipher_setiv : list Z -> Z;
  gcry_cipher_encrypt : list Z -> list Z -> list Z -> Z * list Z;
  gcry_cipher_decrypt : list Z -> list Z -> list Z -> Z * list Z
}.

Definition GPG_ERR_WEAK_KEY : Z := 43.

(** [(char) rc] on a platform where [char] is signed *)
Definition s8 (z : Z) : Z := (z + 2 ^ 7) mod 2 ^ 8 - 2 ^ 7.

Definition accepted (rc : Z) : bool := (0 =? rc) || (s8 rc =? GPG_ERR_WEAK_KEY).

(** SHA-512 has 64 bytes of output; opening AES-256 succeeds; keys of 32 and
    vectors of 16 bytes are accepted; CFB mode is length preserving and
    invertible. *)
Class GcryptLaws `{Gcrypt} := {
  sha512_is_hash : forall m, is_hash (gcry_md_sha512 m);
  open_ok : gcry_cipher_open = 0;
  setkey_ok : forall k, length k = 32%nat -> accepted (gcry_cipher_setkey k) = true;
  setiv_ok : forall iv, length iv = 16%nat -> accepted (gcry_cipher_setiv iv) = true;
  encrypt_ok : forall k iv m, length k = 32%nat -> length iv = 16%nat ->
    exists c, gcry_cipher_encrypt k iv m = (0, c) /\ length c = length m
      /\ gcry_cipher_decrypt k iv c = (0, m)
}.

Section CryptoAes.
Context `{Gcrypt}.

Definition GNUNET_CRYPTO_hash (block : list Z) : GNUNET_HashCode := gcry_md_sha512 block.

(** ** Session keys *)

(** [rnd] are the 32 bytes that [gcry_randomize] stores. *)
Definition GNUNET_CRYPTO_aes_create_session_key (rnd : list Z) : GNUNET_CRYPTO_AesSessionKey :=
  mk_skey rnd (htonl (GNUNET_CRYPTO_crc32_n rnd)).

Definition GNUNET_CRYPTO_aes_check_session_key (k : GNUNET_CRYPTO_AesSessionKey) : Z :=
  let crc := GNUNET_CRYPTO_crc32_n (key k) in
  if negb (ntohl (key_crc32 k) =? crc) then GNUNET_SYSERR else GNUNET_OK.

(** The handle is the pair of key and vector set in it. *)
Definition setup_cipher (sessionkey : GNUNET_CRYPTO_AesSessionKey) (iv : list Z)
  : outcome (option (list Z * list Z)) :=
  if negb (GNUNET_CRYPTO_aes_check_session_key sessionkey =? GNUNET_OK) then Ret None
  else
    _ ← gnunet_assert (0 =? gcry_cipher_open);
    _ ← gnunet_assert (accepted (gcry_cipher_setkey (key sessionkey)));
    _ ← gnunet_assert (accepted (gcry_cipher_setiv iv));
    Ret (Some (key sessionkey, iv)).

(** ** Encryption: the result is the length (or -1) and the buffer [result]. *)

Definition GNUNET_CRYPTO_aes_encrypt (block : list Z) (sessionkey : GNUNET_CRYPTO_AesSessionKey)
  (iv result : list Z) : outcome (Z * list Z) :=
  handle ← setup_cipher sessionkey iv;
  match handle with
  | None => Ret (-1, result)
  | Some (k, v) =>
      let '(rc, out) := gcry_cipher_encrypt k v block in
      _ ← gnunet_assert (0 =? rc);
      result ← mem_write result 0 out;
      Ret (Z.of_nat (length block), result)
  end.

Definition GNUNET_CRYPTO_aes_decrypt (block : list Z) (sessionkey : GNUNET_CRYPTO_AesSessionKey)
  (iv result : list Z) : outcome (Z * list Z) :=
  handle ← setup_cipher sessionkey iv;
  match handle with
  | None => Ret (-1, result)
  | Some (k, v) =>
      let '(rc, out) := gcry_cipher_decrypt k v block in
      _ ← gnunet_assert (0 =? rc);
      result ← mem_write result 0 out;
      Ret (Z.of_nat (length block), result)
  end.

(** ** Keys derived from a hash code *)

(** A key with its checksum passes the test, whatever its 32 bytes are. *)
Lemma check_session_key_ok k :
  is_bytes k -> GNUNET_CRYPTO_aes_check_session_key (mk_skey k (htonl (GNUNET_CRYPTO_crc32_n k)))
    = GNUNET_OK.
Proof.
  intros Hk. unfold GNUNET_CRYPTO_aes_check_session_key, htonl. cbn [key key_crc32].
  rewrite ntohl_involutive by (by apply crc32_n_range). by rewrite Z.eqb_refl.
Qed.

Context `{!GcryptLaws}.

Lemma setup_cipher_ok h :
  is_hash h ->
  let '(sk, iv) := GNUNET_CRYPTO_hash_to_aes_key h in
  setup_cipher sk iv = Ret (Some (key sk, iv)) /\ length (key sk) = 32%nat
  /\ length iv = 16%nat.
Proof.
  intros [Hl _]. unfold GNUNET_CRYPTO_hash_to_aes_key. cbv zeta.
  assert (Hk : length (take 32 (hash_bytes h)) = 32%nat)
    by (rewrite length_take, length_hash_bytes; lia).
  assert (Hv : length (take 16 (drop 32 (hash_bytes h))) = 16%nat)
    by (rewrite length_take, length_drop, length_hash_bytes; lia).
  split; [ | done ]. unfold setup_cipher.
  rewrite check_session_key_ok by apply is_bytes_take, hash_bytes_bytes.
  cbn [negb Z.eqb GNUNET_OK Pos.eqb key]. rewrite open_ok.
  rewrite (bind_ret _ tt _ eq_refl), (bind_ret _ tt) by (by apply gnunet_assert_true, setkey_ok).
  by rewrite (bind_ret _ tt) by (by apply gnunet_assert_true, setiv_ok).
Qed.

(** The ciphertext of a block under the key derived from a hash code *)
Definition encrypted (h : GNUNET_HashCode) (block : list Z) : list Z :=
  let '(sk, iv) := GNUNET_CRYPTO_hash_to_aes_key h in
  snd (gcry_cipher_encrypt (key sk) iv block).

Lemma aes_encrypt_ok h block result :
  is_hash h -> (length block <= length result)%nat ->
  let '(sk, iv) := GNUNET_CRYPTO_hash_to_aes_key h in
  GNUNET_CRYPTO_aes_encrypt block sk iv result
    = Ret (Z.of_nat (length block), encrypted h block ++ drop (length block) result)
  /\ length (encrypted h block) = length block
  /\ forall out, (length block <= length out)%nat ->
       GNUNET_CRYPTO_aes_decrypt (encrypted h block) sk iv out
         = Ret (Z.of_nat (length block), block ++ drop (length block) out).
Proof.
  intros Hh Hlen. pose proof (setup_cipher_ok h Hh) as Hs. unfold encrypted.
  destruct (GNUNET_CRYPTO_hash_to_aes_key h) as [sk iv]. destruct Hs as (Hs & Hk & Hv).
  destruct (encrypt_ok (key sk) iv block Hk Hv) as (c & He & Hc & Hd).
  unfold GNUNET_CRYPTO_aes_encrypt, GNUNET_CRYPTO_aes_decrypt.
  rewrite !(bind_ret _ _ _ Hs), He. cbn [snd]. rewrite (bind_ret _ tt _ eq_refl).
  rewrite mem_write_ok by lia. cbn [take app Nat.add]. rewrite Hc. split; [ done | ].
  split; [ done | ]. intros out Hout. rewrite (bind_ret _ _ _ Hs), Hd, (bind_ret _ tt _ eq_refl).
  rewrite mem_write_ok by lia. done.
Qed.

End CryptoAes.

(** ** An instance of the interface

    A cipher that adds the key's first byte to each byte, and a checksum for a
    hash, show that the laws can hold together. *)

#[local] Instance sample_gcrypt : Gcrypt := {
  gcry_md_sha512 m := u32 (foldl (fun h b => 31 * h + b + 7) 5 m) :: replicate 15 1;
  gcry_cipher_open := 0;
  gcry_cipher_setkey _ := 0;
  gcry_cipher_setiv _ := 0;
  gcry_cipher_encrypt k _ m := (0, (fun b => Z.lxor b (hd 0 k)) <$> m);
  gcry_cipher_decrypt k _ m := (0, (fun b => Z.lxor b (hd 0 k)) <$> m)
}.

#[local] Instance sample_gcrypt_laws : GcryptLaws.
Proof.
  split; try done.
  - intros m. split; [ done | ]. constructor; [ apply u32_range | ].
    repeat (constructor; [ vm_compute; split; congruence | ]). constructor.
  - intros k iv m _ _. eexists. split; [ reflexivity | ]. split; [ apply length_fmap | ].
    cbn. f_equal. rewrite <- list_fmap_compose. rewrite <- (list_fmap_id m) at 2.
    apply list_fmap_ext. intros i b _. cbn. by rewrite Z.lxor_assoc, Z.lxor_nilpotent, Z.lxor_0_r.
Qed.
