(* ===== verification/FsTree.v ===== *)
(** * The CHK tree encoder: [src/fs/fs_tree.c]

    A file is published as a tree of encrypted blocks: DBLOCKs hold up to 32 KiB of
    it, IBLOCKs the content hash keys of up to 256 blocks of the level below.  The
    encoder produces one block per call of [GNUNET_FS_tree_encoder_next] and keeps
    only the keys on the path to the current block.  [merkle] is the tree as a
    recursive function of the file and [tree_blocks] its blocks in postorder; the
    encoder is related to them in [FsTreeSpec].  The reader of the file is a
    parameter; calls of [proc], [progress] and [cont] are events. *)

From Stdlib Require Import ZArith Lia.
From stdpp Require Import base list numbers.
From S2P Require Import Prelude Endian Crc Base32 Hash CryptoAes.
Local Open Scope Z_scope.

Definition DBLOCK_SIZE : Z := 32 * 1024.
Definition CHK_PER_INODE : Z := 256.

(** [struct ContentHashKey]: two hash codes *)
Record ContentHashKey := mk_chk { chk_key : GNUNET_HashCode; chk_query : GNUNET_HashCode }.
Definition sizeof_chk : Z := 128.
Definition chk_bytes (c : ContentHashKey) : list Z :=
  hash_bytes (chk_key c) ++ hash_bytes (chk_query c).
Definition chk_zero : ContentHashKey := mk_chk (replicate 16 0) (replicate 16 0).

(** Division and remainder of unsigned integers: undefined for a zero divisor *)
Definition c_div (a b : Z) : outcome Z := if b =? 0 then Undefined else Ret (a / b).
Definition c_mod (a b : Z) : outcome Z := if b =? 0 then Undefined else Ret (a mod b).

(** ** Geometry of the tree

    Depths are [unsigned int] values below 2^32, held as [nat]. *)

(** [while (fl < flen)], with at most [n] iterations left; [None] would be a loop
    that is still running. *)
Fixpoint depth_loop (n : nat) (flen : Z) (treeDepth : nat) (fl : Z) : option nat :=
  match n with
  | O => None
  | S n' =>
      if fl <? flen then
        if u64 (fl * CHK_PER_INODE) <? fl then Some (S treeDepth)
        else depth_loop n' flen (S treeDepth) (u64 (fl * CHK_PER_INODE))
      else Some treeDepth
  end.

Definition GNUNET_FS_compute_depth (flen : Z) : option nat := depth_loop 8 flen 1 DBLOCK_SIZE.

Fixpoint GNUNET_FS_tree_compute_tree_size (depth : nat) : Z :=
  match depth with
  | O => DBLOCK_SIZE
  | S i => u64 (GNUNET_FS_tree_compute_tree_size i * CHK_PER_INODE)
  end.

Definition GNUNET_FS_tree_compute_iblock_size (depth : nat) (end_offset : Z) : outcome Z :=
  _ ← gnunet_assert (0 <? depth)%nat;
  _ ← gnunet_assert (0 <? end_offset);
  let bds := GNUNET_FS_tree_compute_tree_size depth in
  m ← c_mod end_offset bds;
  ret ← (if 0 =? m then Ret CHK_PER_INODE
         else
           let bds := bds / CHK_PER_INODE in
           ret ← c_div m bds;
           r ← c_mod m bds;
           Ret (u32 (if negb (0 =? r) then u32 ret + 1 else u32 ret)));
  Ret (u16 (ret * sizeof_chk)).

Definition GNUNET_FS_tree_calculate_block_size (fsize offset : Z) (depth : nat) : outcome Z :=
  _ ← gnunet_assert (0 <? fsize);
  _ ← gnunet_assert (offset <=? fsize);
  match depth with
  | O =>
      let ret := DBLOCK_SIZE in
      if (fsize <? u64 (offset + ret)) || (u64 (offset + ret) <? offset)
      then Ret (u64 (fsize - offset)) else Ret ret
  | S depth' =>
      let rsize := GNUNET_FS_tree_compute_tree_size depth' in
      let epos := u64 (offset + u64 (rsize * CHK_PER_INODE)) in
      let epos := if (epos <? offset) || (fsize <? epos) then fsize else epos in
      q ← c_div (u64 (epos - offset + rsize - 1)) rsize;
      let chks := u32 q in
      _ ← gnunet_assert (chks <=? CHK_PER_INODE);
      Ret (chks * sizeof_chk)
  end.

(** ** The encoder *)

(** [struct FileIdentifier] of [fs_api.h], the data of the [chk] URI that the encoder
    makes; the length is in network byte order *)
Record FileIdentifier := mk_fi { file_length : Z; fi_chk : ContentHashKey }.

Inductive block_type := GNUNET_BLOCK_TYPE_FS_DBLOCK | GNUNET_BLOCK_TYPE_FS_IBLOCK.

(** The callbacks, with their arguments; [ReadDone] is the last call of the reader,
    which tells it to clean up. *)
Inductive te_event :=
  | Proc (chk : ContentHashKey) (offset : Z) (depth : nat) (type : block_type)
      (block : list Z) (block_size : Z)
  | Progress (offset : Z) (pt_block : list Z) (pt_size : Z) (depth : nat)
  | Cont
  | ReadDone.

(** [proc] and [progress] tell whether the function pointers are set. *)
Record GNUNET_FS_TreeEncoder := mk_te {
  te_proc : bool;
  te_progress : bool;
  te_emsg : option (list Z);
  te_uri : option FileIdentifier;
  te_size : Z;
  te_publish_offset : Z;
  te_current_depth : nat;
  te_chk_tree_depth : nat;
  te_chk_tree : list ContentHashKey;
  te_in_next : bool
}.

Definition te_set_emsg (te : GNUNET_FS_TreeEncoder) (e : option (list Z)) : GNUNET_FS_TreeEncoder :=
  mk_te (te_proc te) (te_progress te) e (te_uri te) (te_size te) (te_publish_offset te)
    (te_current_depth te) (te_chk_tree_depth te) (te_chk_tree te) (te_in_next te).
Definition te_set_uri (te : GNUNET_FS_TreeEncoder) (u : FileIdentifier) : GNUNET_FS_TreeEncoder :=
  mk_te (te_proc te) (te_progress te) (te_emsg te) (Some u) (te_size te) (te_publish_offset te)
    (te_current_depth te) (te_chk_tree_depth te) (te_chk_tree te) (te_in_next te).
Definition te_set_pos (te : GNUNET_FS_TreeEncoder) (off : Z) (depth : nat) : GNUNET_FS_TreeEncoder :=
  mk_te (te_proc te) (te_progress te) (te_emsg te) (te_uri te) (te_size te) off
    depth (te_chk_tree_depth te) (te_chk_tree te) (te_in_next te).
Definition te_set_tree (te : GNUNET_FS_TreeEncoder) (t : list ContentHashKey) : GNUNET_FS_TreeEncoder :=
  mk_te (te_proc te) (te_progress te) (te_emsg te) (te_uri te) (te_size te) (te_publish_offset te)
    (te_current_depth te) (te_chk_tree_depth te) t (te_in_next te).
Definition te_set_in_next (te : GNUNET_FS_TreeEncoder) (b : bool) : GNUNET_FS_TreeEncoder :=
  mk_te (te_proc te) (te_progress te) (te_emsg te) (te_uri te) (te_size te) (te_publish_offset te)
    (te_current_depth te) (te_chk_tree_depth te) (te_chk_tree te) b.

Section Encoder.
Context `{Gcrypt}.

(** What the reader does for an offset and a length: the number it returns, the
    bytes it stores in [buf], and the message it stores in [*emsg]. *)
Context (reader : Z -> Z -> Z * list Z * option (list Z)).

(** [GNUNET_malloc] zeroes the tree. *)
Definition GNUNET_FS_tree_encoder_create (size : Z) (proc progress : bool)
  : outcome GNUNET_FS_TreeEncoder :=
  d ← of_option (GNUNET_FS_compute_depth size);
  Ret (mk_te proc progress None None size 0 0 d
         (replicate (d * Z.to_nat CHK_PER_INODE) chk_zero) false).

Definition compute_chk_offset (depth : nat) (end_offset : Z) : outcome Z :=
  let bds := GNUNET_FS_tree_compute_tree_size depth in
  let end_offset := if (0 <? depth)%nat then u64 (end_offset - 1) else end_offset in
  ret ← c_div end_offset bds;
  Ret (u32 ret mod CHK_PER_INODE).

(** The CHK of a block and its ciphertext: hash the plaintext, encrypt it under the
    hash, hash the ciphertext.  [enc] is the local buffer. *)
Definition encode_chk (pt_block enc : list Z) : outcome (ContentHashKey * list Z) :=
  let k := GNUNET_CRYPTO_hash pt_block in
  let '(sk, iv) := GNUNET_CRYPTO_hash_to_aes_key k in
  '(_, enc) ← GNUNET_CRYPTO_aes_encrypt pt_block sk iv enc;
  ct ← mem_read enc 0 (length pt_block);
  Ret (mk_chk k (GNUNET_CRYPTO_hash ct), ct).

(** The plaintext of the block at the current position, with its size.  At depth 0
    it is read from the file; [None] is a failed read.  Above, it is [pt_size]
    bytes of the keys of the level below. *)
Definition current_block (te : GNUNET_FS_TreeEncoder)
  : outcome (GNUNET_FS_TreeEncoder * option (list Z * Z)) :=
  match te_current_depth te with
  | O =>
      let pt_size := u16 (Z.min DBLOCK_SIZE (u64 (te_size te - te_publish_offset te))) in
      let '(n, data, msg) := reader (te_publish_offset te) pt_size in
      let te := match msg with Some _ => te_set_emsg te msg | None => te end in
      _ ← (if (Z.of_nat (length data) <=? DBLOCK_SIZE) then Ret tt else Undefined);
      if negb (pt_size =? n) then Ret (te, None)
      else
        pt ← mem_read data 0 (Z.to_nat pt_size);
        Ret (te, Some (pt, pt_size))
  | S d =>
      pt_size ← GNUNET_FS_tree_compute_iblock_size (S d) (te_publish_offset te);
      pt ← mem_read (flat_map chk_bytes (te_chk_tree te))
             (Z.to_nat (Z.of_nat d * CHK_PER_INODE * sizeof_chk)) (Z.to_nat pt_size);
      Ret (te, Some (pt, pt_size))
  end.

(** The position of the next block *)
Definition advance (te : GNUNET_FS_TreeEncoder) (pt_size off : Z) : GNUNET_FS_TreeEncoder :=
  match te_current_depth te with
  | O =>
      let o := u64 (te_publish_offset te + pt_size) in
      te_set_pos te o
        (if (o =? te_size te) || (0 =? o mod (CHK_PER_INODE * DBLOCK_SIZE)) then 1 else 0)
  | S d =>
      te_set_pos te (te_publish_offset te)
        (if (off =? CHK_PER_INODE) || (te_publish_offset te =? te_size te) then S (S d) else 0)
  end.

(** [stack] is what the local array [enc] holds before it is written. *)
Definition GNUNET_FS_tree_encoder_next (stack : list Z) (te : GNUNET_FS_TreeEncoder)
  : outcome (GNUNET_FS_TreeEncoder * list te_event) :=
  _ ← gnunet_assert (negb (te_in_next te));
  let te := te_set_in_next te true in
  if (te_chk_tree_depth te =? te_current_depth te)%nat then
    let off := CHK_PER_INODE * (Z.of_nat (te_chk_tree_depth te) - 1) in
    c ← of_option (te_chk_tree te !! Z.to_nat off);
    let te := te_set_uri te (mk_fi (GNUNET_htonll (te_size te)) c) in
    Ret (te_set_in_next te false, [Cont])
  else
    '(te, b) ← current_block te;
    match b with
    | None => Ret (te_set_in_next te false, [Cont])
    | Some (pt_block, pt_size) =>
        let depth := te_current_depth te in
        off ← compute_chk_offset depth (te_publish_offset te);
        '(mychk, enc) ← encode_chk pt_block stack;
        let idx := (depth * Z.to_nat CHK_PER_INODE + Z.to_nat off)%nat in
        tree ← mem_write (te_chk_tree te) idx [mychk];
        let te := te_set_tree te tree in
        let ev1 := if te_proc te
          then [Proc mychk (te_publish_offset te) depth
                  (if (0 =? depth)%nat then GNUNET_BLOCK_TYPE_FS_DBLOCK
                   else GNUNET_BLOCK_TYPE_FS_IBLOCK) enc pt_size]
          else [] in
        let ev2 := if te_progress te
          then [Progress (te_publish_offset te) pt_block pt_size depth] else [] in
        let te := advance te pt_size off in
        Ret (te_set_in_next te false, ev1 ++ ev2)
    end.

(** [uri] and [emsg] tell whether the pointers are set; what is not handed out is
    freed. *)
Definition GNUNET_FS_tree_encoder_finish (te : GNUNET_FS_TreeEncoder) (uri emsg : bool)
  : outcome (option FileIdentifier * option (list Z) * list te_event) :=
  let '(_, _, _) := reader UINT64_MAX 0 in
  _ ← gnunet_assert (negb (te_in_next te));
  Ret (if uri then te_uri te else None, if emsg then te_emsg te else None, [ReadDone]).

(** [k] calls, each made when the previous one has returned *)
Fixpoint encoder_steps (k : nat) (stack : list Z) (te : GNUNET_FS_TreeEncoder)
  : outcome (GNUNET_FS_TreeEncoder * list te_event) :=
  match k with
  | O => Ret (te, [])
  | S k' =>
      '(te, ev) ← GNUNET_FS_tree_encoder_next stack te;
      '(te, evs) ← encoder_steps k' stack te;
      Ret (te, ev ++ evs)
  end.

End Encoder.
