(* ===== verification/FsTreeSpec.v ===== *)
(** * The CHK tree of a file, and the encoder against it

    [merkle_plain], [merkle] and [tree_blocks] define the tree of a file by recursion
    on the depth, without an encoder: the plaintext of each block, its content hash
    key, and the blocks in postorder.  For files of up to 2^31 bytes the encoder of
    [FsTree] emits exactly these blocks and ends with the key of the root; for longer
    files it skips blocks of depth 2 and more ([encoder_skips_blocks]). *)

From Stdlib Require Import ZArith Lia.
From stdpp Require Import base list numbers.
From S2P Require Import Prelude Endian Crc Base32 Hash CryptoAes FsTree.
Local Open Scope Z_scope.

(** ** Sizes *)

(** Bytes of the file below a full block of depth [d] *)
Definition tree_span (d : nat) : Z := 2 ^ (15 + 8 * Z.of_nat d).

Lemma tree_span_S d : tree_span (S d) = 256 * tree_span d.
Proof.
  unfold tree_span. replace (15 + 8 * Z.of_nat (S d)) with (8 + (15 + 8 * Z.of_nat d)) by lia.
  by rewrite Z.pow_add_r by lia.
Qed.

Lemma tree_span_pos d : 0 < tree_span d.
Proof. unfold tree_span. lia. Qed.

Lemma tree_span_0 : tree_span 0 = 32768.
Proof. done. Qed.

Lemma tree_span_le d d' : (d <= d')%nat -> tree_span d <= tree_span d'.
Proof. intros Hd. unfold tree_span. apply Z.pow_le_mono_r; lia. Qed.

Lemma compute_tree_size_ok d : (d <= 6)%nat -> GNUNET_FS_tree_compute_tree_size d = tree_span d.
Proof.
  intros Hd. induction d as [|d IH]; [ done | ].
  cbn [GNUNET_FS_tree_compute_tree_size]. rewrite IH by lia.
  rewrite tree_span_S, (Z.mul_comm (tree_span d)). apply u64_small. unfold is_u64, CHK_PER_INODE.
  rewrite <- tree_span_S. pose proof (tree_span_pos (S d)) as Hp. pose proof (tree_span_le (S d) 6 Hd) as Hle.
  change (tree_span 6) with (2 ^ 63) in Hle. lia.
Qed.

(** ** The depth of the tree *)

Lemma depth_loop_go n d flen :
  (d <= 6)%nat -> tree_span d < flen ->
  depth_loop (S n) flen (S d) (tree_span d)
  = if (d =? 6)%nat then Some 8%nat else depth_loop n flen (S (S d)) (tree_span (S d)).
Proof.
  intros Hd Hlt. cbn [depth_loop]. rewrite (proj2 (Z.ltb_lt _ _) Hlt).
  do 7 (destruct d as [|d]; [ reflexivity | ]). lia.
Qed.

Lemma depth_loop_stop n d flen :
  flen <= tree_span d -> depth_loop (S n) flen (S d) (tree_span d) = Some (S d).
Proof. intros Hle. cbn [depth_loop]. by rewrite (proj2 (Z.ltb_ge _ _) Hle). Qed.

Lemma depth_loop_spec flen m d :
  is_u64 flen -> (m + d = 6)%nat -> (forall d', (d' < d)%nat -> tree_span d' < flen) ->
  exists e, depth_loop (2 + m) flen (S d) (tree_span d) = Some (S e) /\ (e <= 7)%nat
    /\ flen <= tree_span e /\ forall d', (d' < e)%nat -> tree_span d' < flen.
Proof.
  intros Hf. revert d. induction m as [|m IH]; intros d Hm Hlow;
    cbn [Nat.add];
    (destruct (Z.le_gt_cases flen (tree_span d)) as [Hle|Hgt];
     [ exists d; rewrite depth_loop_stop by done; repeat split; [ lia | done | done ] | ]);
    rewrite depth_loop_go by lia.
  - replace d with 6%nat in * by lia. exists 7%nat. split; [ done | ]. split; [ lia | ].
    split; [ unfold is_u64 in Hf; change (tree_span 7) with (2 ^ 71); lia | ].
    intros d' Hd'. destruct (decide (d' = 6)%nat) as [->|]; [ lia | apply Hlow; lia ].
  - rewrite (proj2 (Nat.eqb_neq _ _)) by lia. apply IH; [ lia | ].
    intros d' Hd'. destruct (decide (d' = d)) as [->|]; [ lia | apply Hlow; lia ].
Qed.

(** GNUNET_FS_compute_depth terminates for every 64-bit file length and returns the
    least depth (between 1 and 8) whose tree can hold the file. *)
Theorem compute_depth_minimal (flen : Z) :
  is_u64 flen ->
  exists d, GNUNET_FS_compute_depth flen = Some (S d) /\ (d <= 7)%nat /\ flen <= tree_span d
    /\ forall d', (d' < d)%nat -> tree_span d' < flen.
Proof. intros Hf. apply (depth_loop_spec flen 6 0); [ done | done | lia ]. Qed.

Lemma compute_depth_minimal_witness :
  GNUNET_FS_compute_depth (2 ^ 31 + 1) = Some 4%nat /\
  exists d, GNUNET_FS_compute_depth (2 ^ 64 - 1) = Some (S d) /\ 2 ^ 64 - 1 <= tree_span d.
Proof.
  split; [ reflexivity | ].
  destruct (compute_depth_minimal (2 ^ 64 - 1)) as (d & Hd & _ & Hs & _);
    [ unfold is_u64; lia | ].
  exists d. auto.
Defined.

(** ** The tree of a file *)

Section Merkle.
Context `{Gcrypt} (file : list Z) (proc progress : bool).

Definition size : Z := Z.of_nat (length file).

Lemma size_nonneg : 0 <= size.
Proof. unfold size. lia. Qed.

(** The end of the part of the file below the block of depth [d] that starts at
    [o], and the number of its children *)
Definition part_end (d : nat) (o : Z) : Z := Z.min size (o + tree_span d).

Definition children (d : nat) (o : Z) : nat :=
  Z.to_nat ((part_end (S d) o - o + tree_span d - 1) / tree_span d).

Definition part (o e : Z) : list Z := take (Z.to_nat (e - o)) (drop (Z.to_nat o) file).

Definition chk_of (pt : list Z) : ContentHashKey :=
  let k := GNUNET_CRYPTO_hash pt in mk_chk k (GNUNET_CRYPTO_hash (encrypted k pt)).

Fixpoint merkle_plain (d : nat) (o : Z) : list Z :=
  match d with
  | O => part o (part_end 0 o)
  | S d' =>
      flat_map (fun i => chk_bytes (chk_of (merkle_plain d' (o + Z.of_nat i * tree_span d'))))
        (seq 0 (children d' o))
  end.

Definition merkle (d : nat) (o : Z) : ContentHashKey := chk_of (merkle_plain d o).

(** What the callbacks see of a block with plaintext [pt]; the offset of a DBLOCK is
    its beginning, that of an IBLOCK the end of its part of the file. *)
Definition callbacks (d : nat) (off : Z) (pt : list Z) : list te_event :=
  (if proc then [Proc (chk_of pt) off d
                   (if (0 =? d)%nat then GNUNET_BLOCK_TYPE_FS_DBLOCK
                    else GNUNET_BLOCK_TYPE_FS_IBLOCK)
                   (encrypted (GNUNET_CRYPTO_hash pt) pt) (Z.of_nat (length pt))]
   else [])
  ++ (if progress then [Progress off pt (Z.of_nat (length pt)) d] else []).

Definition block_offset (d : nat) (o : Z) : Z :=
  match d with O => o | S _ => part_end d o end.

Fixpoint tree_blocks (d : nat) (o : Z) : list te_event :=
  match d with
  | O => []
  | S d' => flat_map (fun i => tree_blocks d' (o + Z.of_nat i * tree_span d')) (seq 0 (children d' o))
  end ++ callbacks d (block_offset d o) (merkle_plain d o).

(** ** Arithmetic of the tree *)

Lemma length_part o e : 0 <= o <= e -> e <= size -> length (part o e) = Z.to_nat (e - o).
Proof.
  intros Ho He. unfold part. rewrite length_take, length_drop. unfold size in He. lia.
Qed.

Lemma children_bounds d o :
  0 <= o < size -> 
  let n := Z.of_nat (children d o) in
  1 <= n <= 256 /\ o + (n - 1) * tree_span d < size /\
  part_end (S d) o = part_end d (o + (n - 1) * tree_span d) /\
  (n < 256 -> part_end (S d) o = size).
Proof.
  intros Ho n. pose proof (tree_span_pos d) as Hp. pose proof (tree_span_S d) as HS.
  unfold n, children, part_end.
  set (x := Z.min size (o + tree_span (S d)) - o) in *.
  assert (Hx : 1 <= x <= 256 * tree_span d) by lia.
  assert (Hq : 1 <= (x + tree_span d - 1) / tree_span d <= 256).
  { split; [ apply Z.div_le_lower_bound; lia | ].
    apply Z.lt_succ_r, Z.div_lt_upper_bound; lia. }
  rewrite Z2Nat.id by lia. set (q := (x + tree_span d - 1) / tree_span d) in *.
  pose proof (Z.mul_div_le (x + tree_span d - 1) (tree_span d) Hp) as Hlo.
  pose proof (Z.mul_succ_div_gt (x + tree_span d - 1) (tree_span d) Hp) as Hhi. fold q in Hlo, Hhi.
  split; [ lia | ]. split; [ nia | ]. split; [ nia | ]. intros Hlt. nia.
Qed.

(** Quotient and remainder of the end of a block's part, for a block that starts at a
    multiple of its tree_span *)
Lemma part_end_div d o :
  0 <= o < size -> o mod tree_span d = 0 ->
  (part_end d o - 1) / tree_span d = o / tree_span d /\
  part_end d o mod tree_span d = (if part_end d o - o =? tree_span d then 0 else part_end d o - o).
Proof.
  intros Ho Hal. pose proof (tree_span_pos d) as Hp.
  assert (He : 0 < part_end d o - o <= tree_span d) by (unfold part_end; lia).
  set (q := o / tree_span d). assert (Hoq : o = tree_span d * q) by (apply Z.div_exact; lia).
  split.
  - symmetry. apply (Z.div_unique_pos _ _ _ (part_end d o - 1 - o)); lia.
  - case_match eqn:E.
    + apply Z.eqb_eq in E. symmetry. apply (Z.mod_unique_pos _ _ (q + 1)); lia.
    + apply Z.eqb_neq in E. symmetry. apply (Z.mod_unique_pos _ _ q); lia.
Qed.

Lemma ceil_div x y : 0 < y -> 0 <= x ->
  (x + y - 1) / y = if x mod y =? 0 then x / y else x / y + 1.
Proof.
  intros Hy Hx. pose proof (Z.div_mod x y ltac:(lia)) as Hdm.
  pose proof (Z.mod_pos_bound x y Hy) as Hm. symmetry. case_match eqn:E.
  - apply Z.eqb_eq in E. apply (Z.div_unique_pos _ _ _ (y - 1)); lia.
  - apply Z.eqb_neq in E. apply (Z.div_unique_pos _ _ _ (x mod y - 1)); lia.
Qed.

Lemma compute_iblock_size_ok d o :
  (S d <= 6)%nat -> 0 <= o < size -> o mod tree_span (S d) = 0 ->
  GNUNET_FS_tree_compute_iblock_size (S d) (part_end (S d) o)
  = Ret (Z.of_nat (children d o) * 128).
Proof.
  intros Hd Ho Hal. destruct (part_end_div (S d) o Ho Hal) as [_ Hmod].
  pose proof (tree_span_pos d) as Hp. pose proof (tree_span_S d) as HS.
  destruct (children_bounds d o Ho) as (Hn & _ & _ & _).
  assert (He : 0 < part_end (S d) o - o <= tree_span (S d)) by (unfold part_end; lia).
  unfold GNUNET_FS_tree_compute_iblock_size. rewrite (bind_ret _ tt _ eq_refl).
  rewrite (bind_ret _ tt) by (apply gnunet_assert_true, Z.ltb_lt; lia).
  rewrite compute_tree_size_ok by lia. cbv zeta. unfold c_mod, c_div.
  rewrite (proj2 (Z.eqb_neq (tree_span (S d)) 0)) by lia. rewrite (bind_ret _ _ _ eq_refl), Hmod.
  assert (Hc : Z.of_nat (children d o) = (part_end (S d) o - o + tree_span d - 1) / tree_span d).
  { unfold children in *. rewrite Z2Nat.id; [ done | ]. apply Z.div_pos; lia. }
  rewrite ceil_div in Hc by lia.
  destruct (part_end (S d) o - o =? tree_span (S d)) eqn:E.
  - apply Z.eqb_eq in E. cbn [Z.eqb]. rewrite (bind_ret _ _ _ eq_refl). unfold CHK_PER_INODE.
    rewrite E, HS, Z.mod_mul, Z.div_mul in Hc by lia. cbn [Z.eqb] in Hc. by rewrite Hc.
  - apply Z.eqb_neq in E. rewrite (proj2 (Z.eqb_neq 0 _)) by lia.
    replace (tree_span (S d) / CHK_PER_INODE) with (tree_span d)
      by (unfold CHK_PER_INODE; rewrite HS, Z.mul_comm, Z.div_mul; lia).
    rewrite (proj2 (Z.eqb_neq (tree_span d) 0)) by lia. rewrite !(bind_ret _ _ _ eq_refl).
    set (q := (part_end (S d) o - o) / tree_span d) in *.
    assert (Hq : 0 <= q <= 256) by (case_match; lia).
    rewrite (u32_small q) by (unfold is_u32; lia). rewrite (Z.eqb_sym 0).
    unfold sizeof_chk. rewrite Hc. destruct (_ mod tree_span d =? 0) eqn:Em; cbn [negb];
      rewrite u32_small by (unfold is_u32; lia); rewrite u16_small; try done; unfold is_u16; lia.
Qed.

End Merkle.

(** ** Single steps of the encoder *)

Definition chk_wf (c : ContentHashKey) : Prop := length (chk_bytes c) = 128%nat.

Lemma length_chks l : Forall chk_wf l -> length (flat_map chk_bytes l) = (128 * length l)%nat.
Proof.
  induction 1 as [|c l Hc Hl IH]; [ done | ]. cbn [flat_map length].
  rewrite length_app, IH. unfold chk_wf in Hc. lia.
Qed.

Lemma mem_read_chks tree i n :
  Forall chk_wf tree -> (i + n <= length tree)%nat ->
  mem_read (flat_map chk_bytes tree) (i * 128) (n * 128)
  = Ret (flat_map chk_bytes (take n (drop i tree))).
Proof.
  intros Hwf Hlen.
  rewrite <- (take_drop i tree) at 1. rewrite <- (take_drop n (drop i tree)) at 1.
  rewrite !flat_map_app.
  assert (forall k l, Forall chk_wf l -> (k <= length l)%nat ->
    length (flat_map chk_bytes (take k l)) = (k * 128)%nat) as Hl.
  { intros k l Hk Hle. rewrite length_chks by (by apply Forall_take).
    rewrite length_take. lia. }
  eapply mem_read_at; [ reflexivity | | ].
  - by rewrite Hl by (done || lia).
  - apply Hl; [ by apply Forall_drop | rewrite length_drop; lia ].
Qed.

Section Encoder.
Context `{GcryptLaws} (file : list Z) (proc progress : bool).
Context (reader : Z -> Z -> Z * list Z * option (list Z)) (stack : list Z) (D : nat).

(** The reader delivers the bytes of the file. *)
Definition reads_file : Prop := forall o n, 0 <= o -> 0 <= n -> o + n <= size file ->
  reader o n = (n, part file o (o + n), None).

Context (Hreader : reads_file) (Hstack : length stack = Z.to_nat DBLOCK_SIZE).

Abbreviation size := (size file).
Abbreviation part_end := (part_end file).
Abbreviation children := (children file).
Abbreviation merkle_plain := (merkle_plain file).
Abbreviation merkle := (merkle file).
Abbreviation tree_blocks := (tree_blocks file proc progress).
Abbreviation callbacks := (callbacks proc progress).

(** The encoder between two calls *)
Definition at_pos (o : Z) (depth : nat) (tree : list ContentHashKey) : GNUNET_FS_TreeEncoder :=
  mk_te proc progress None None size o depth D tree false.

Definition tree_wf (tree : list ContentHashKey) : Prop :=
  length tree = (D * 256)%nat /\ Forall chk_wf tree.

Lemma chk_of_wf pt : chk_wf (chk_of pt).
Proof.
  unfold chk_wf, chk_bytes, chk_of, GNUNET_CRYPTO_hash. cbn [chk_key chk_query].
  rewrite length_app, !length_hash_bytes.
  by rewrite (proj1 (sha512_is_hash _)), (proj1 (sha512_is_hash _)).
Qed.

Lemma tree_wf_insert tree i pt :
  tree_wf tree -> tree_wf (<[i := chk_of pt]> tree).
Proof.
  intros [Hl Hwf]. split; [ by rewrite length_insert | ].
  apply Forall_insert; [ done | apply chk_of_wf ].
Qed.

Lemma encode_chk_ok pt :
  Z.of_nat (length pt) <= DBLOCK_SIZE ->
  encode_chk pt stack = Ret (chk_of pt, encrypted (GNUNET_CRYPTO_hash pt) pt).
Proof.
  intros Hpt. unfold encode_chk, chk_of. cbv zeta.
  pose proof (aes_encrypt_ok (GNUNET_CRYPTO_hash pt) pt stack (sha512_is_hash pt)) as He.
  destruct (GNUNET_CRYPTO_hash_to_aes_key _) as [sk iv].
  destruct He as (He & Hl & _); [ rewrite Hstack; lia | ].
  rewrite (bind_ret _ _ _ He). set (c := encrypted _ pt) in *.
  rewrite (bind_ret _ c); [ done | ].
  apply (mem_read_at _ [] c (drop (length pt) stack)); [ done | done | done ].
Qed.

(** The slot of a block of depth [d] in the tree *)
Definition slot (d : nat) (o : Z) : nat := (d * 256 + Z.to_nat ((o / tree_span d) mod 256))%nat.

Lemma slot_lt d o : (d < D)%nat -> (slot d o < D * 256)%nat.
Proof. intros Hd. unfold slot. pose proof (Z.mod_pos_bound (o / tree_span d) 256). nia. Qed.

Context (Hsize : size <= 2 ^ 31).

(** The part of [next] that does not depend on the depth *)
Lemma next_block o d start o' d' tree pt :
  tree_wf tree -> (d < D)%nat -> Z.of_nat (length pt) <= DBLOCK_SIZE ->
  current_block reader (te_set_in_next (at_pos o d tree) true)
    = Ret (te_set_in_next (at_pos o d tree) true, Some (pt, Z.of_nat (length pt))) ->
  compute_chk_offset d o = Ret ((start / tree_span d) mod 256) ->
  (forall tree', advance (te_set_in_next (at_pos o d tree') true) (Z.of_nat (length pt))
     ((start / tree_span d) mod 256) = te_set_in_next (at_pos o' d' tree') true) ->
  GNUNET_FS_tree_encoder_next reader stack (at_pos o d tree)
  = Ret (at_pos o' d' (<[slot d start := chk_of pt]> tree), callbacks d o pt).
Proof.
  intros [Hl Hwf] Hd Hpt Hcur Hoff Hadv. unfold GNUNET_FS_tree_encoder_next.
  rewrite (bind_ret _ tt _ eq_refl). cbv zeta.
  set (te := te_set_in_next (at_pos o d tree) true) in *.
  change (te_chk_tree_depth te) with D. change (te_current_depth te) with d.
  rewrite (proj2 (Nat.eqb_neq D d)) by lia.
  rewrite (bind_ret _ _ _ Hcur). cbv beta iota.
  change (te_current_depth te) with d. change (te_publish_offset te) with o.
  rewrite (bind_ret _ _ _ Hoff), (bind_ret _ _ _ (encode_chk_ok pt Hpt)). cbv beta iota.
  rewrite (bind_ret _ (<[slot d start := chk_of pt]> tree)).
  - set (tree' := <[slot d start := chk_of pt]> tree).
    change (te_set_tree te tree') with (te_set_in_next (at_pos o d tree') true).
    by rewrite Hadv.
  - apply mem_write_insert. cbn [te te_chk_tree te_set_in_next at_pos]. rewrite Hl.
    by apply slot_lt.
Qed.

Lemma next_dblock o tree :
  tree_wf tree -> (0 < D)%nat -> 0 <= o <= size -> o mod tree_span 0 = 0 ->
  GNUNET_FS_tree_encoder_next reader stack (at_pos o 0 tree)
  = Ret (at_pos (part_end 0 o)
           (if (part_end 0 o =? size) || (part_end 0 o mod tree_span 1 =? 0) then 1 else 0)
           (<[slot 0 o := merkle 0 o]> tree),
         callbacks 0 o (merkle_plain 0 o)).
Proof.
  intros Htree HD Ho Hal. pose proof tree_span_0 as Hs.
  assert (Hpe : o <= part_end 0 o <= size) by (unfold FsTreeSpec.part_end; lia).
  assert (Hpt : Z.of_nat (length (merkle_plain 0 o)) = part_end 0 o - o).
  { cbn [FsTreeSpec.merkle_plain]. rewrite length_part; lia. }
  assert (Hlen : part_end 0 o - o = Z.min 32768 (size - o)) by (unfold FsTreeSpec.part_end; lia).
  apply next_block; [ done | done | unfold DBLOCK_SIZE; lia | | | ].
  - unfold current_block. cbn [te_current_depth te_set_in_next at_pos te_size te_publish_offset].
    cbv zeta. rewrite u64_small by (unfold is_u64; lia). change DBLOCK_SIZE with 32768.
    rewrite <- Hlen, u16_small by (unfold is_u16; lia).
    rewrite Hreader by lia. replace (o + (part_end 0 o - o)) with (part_end 0 o) by lia.
    change (part file o (part_end 0 o)) with (merkle_plain 0 o).
    rewrite (proj2 (Z.leb_le _ _)) by lia. rewrite (bind_ret _ tt _ eq_refl), Z.eqb_refl.
    cbn [negb]. rewrite (bind_ret _ (merkle_plain 0 o)); [ by rewrite Hpt | ].
    apply (mem_read_at _ [] _ []); [ by rewrite app_nil_r | done | lia ].
  - unfold compute_chk_offset. rewrite compute_tree_size_ok by lia. cbn [Nat.ltb Nat.leb].
    unfold c_div. rewrite Hs. cbn [Z.eqb]. rewrite (bind_ret _ _ _ eq_refl).
    unfold CHK_PER_INODE. f_equal. f_equal. apply u32_small. unfold is_u32.
    split; [ apply Z.div_pos; lia | apply Z.div_lt_upper_bound; lia ].
  - intros tree'. unfold advance, te_set_pos.
    cbn [te_current_depth te_set_in_next at_pos te_size te_publish_offset].
    cbv zeta. rewrite Hpt. replace (o + (part_end 0 o - o)) with (part_end 0 o) by lia.
    rewrite u64_small by (unfold is_u64; lia).
    change (CHK_PER_INODE * DBLOCK_SIZE) with (tree_span 1). by rewrite (Z.eqb_sym 0).
Qed.

(** The keys of the children of a block, in their slots of the tree *)
Definition holds_children (d : nat) (o : Z) (n : nat) (tree : list ContentHashKey) : Prop :=
  forall i, (i < n)%nat -> tree !! (d * 256 + i)%nat = Some (merkle d (o + Z.of_nat i * tree_span d)).

Lemma read_children d o tree :
  (d < D)%nat -> 0 <= o < size -> tree_wf tree -> holds_children d o (children d o) tree ->
  mem_read (flat_map chk_bytes tree) (d * 256 * 128) (children d o * 128)
  = Ret (merkle_plain (S d) o).
Proof.
  intros Hd Ho [Hl Hwf] Hc. destruct (children_bounds file d o Ho) as (Hn & _).
  rewrite mem_read_chks by (done || nia). f_equal. cbn [FsTreeSpec.merkle_plain].
  rewrite !flat_map_concat_map. etransitivity;
    [ | apply (f_equal (@concat Z)), (map_map (fun i => merkle d (o + Z.of_nat i * tree_span d)) chk_bytes) ].
  f_equal. f_equal. apply list_eq. intros i. change (map ?f) with (fmap (M:=list) f).
  rewrite list_lookup_fmap.
  destruct (decide (i < children d o)%nat) as [Hi|Hi].
  - rewrite lookup_take_lt, lookup_drop, Hc by done. by rewrite lookup_seq_lt by done.
  - rewrite lookup_take_ge by lia. by rewrite lookup_seq_ge by lia.
Qed.

Lemma next_iblock d o tree :
  (S d < D)%nat -> (D <= 3)%nat -> 0 <= o < size -> o mod tree_span (S d) = 0 ->
  tree_wf tree -> holds_children d o (children d o) tree ->
  GNUNET_FS_tree_encoder_next reader stack (at_pos (part_end (S d) o) (S d) tree)
  = Ret (at_pos (part_end (S d) o)
           (if (part_end (S d) o =? size) || (part_end (S d) o mod tree_span (S (S d)) =? 0)
            then S (S d) else 0)
           (<[slot (S d) o := merkle (S d) o]> tree),
         callbacks (S d) (part_end (S d) o) (merkle_plain (S d) o)).
Proof.
  intros Hd HD Ho Hal Htree Hc. destruct (children_bounds file d o Ho) as (Hn & _).
  destruct (part_end_div file (S d) o Ho Hal) as [Hdiv _].
  assert (He : 0 < part_end (S d) o <= size)
    by (pose proof (tree_span_pos (S d)); unfold FsTreeSpec.part_end; lia).
  pose proof (read_children d o tree ltac:(lia) Ho Htree Hc) as Hread.
  assert (Hlen : Z.of_nat (length (merkle_plain (S d) o)) = Z.of_nat (children d o) * 128).
  { rewrite (mem_read_len _ _ _ _ Hread). lia. }
  apply (next_block _ _ o); [ done | done | rewrite Hlen; unfold DBLOCK_SIZE; lia | | | ].
  - unfold current_block. cbn [te_current_depth te_set_in_next at_pos te_publish_offset te_chk_tree].
    rewrite (bind_ret _ _ _ (compute_iblock_size_ok file d o ltac:(lia) Ho Hal)).
    unfold CHK_PER_INODE, sizeof_chk.
    replace (Z.to_nat (Z.of_nat d * 256 * 128)) with (d * 256 * 128)%nat by lia.
    replace (Z.to_nat (Z.of_nat (children d o) * 128)) with (children d o * 128)%nat by lia.
    by rewrite (bind_ret _ _ _ Hread), Hlen.
  - unfold compute_chk_offset. rewrite compute_tree_size_ok by lia. cbn [Nat.ltb Nat.leb].
    rewrite u64_small by (unfold is_u64; lia).
    unfold c_div. pose proof (tree_span_pos (S d)). rewrite (proj2 (Z.eqb_neq (tree_span (S d)) 0)) by lia.
    rewrite (bind_ret _ _ _ eq_refl), Hdiv. unfold CHK_PER_INODE. f_equal. f_equal.
    apply u32_small. unfold is_u32. pose proof (tree_span_le 0 (S d) ltac:(lia)) as Hs0.
    change (tree_span 0) with 32768 in Hs0.
    split; [ apply Z.div_pos; lia | apply Z.div_lt_upper_bound; nia ].
  - intros tree'. unfold advance, te_set_pos.
    cbn [te_current_depth te_set_in_next at_pos te_size te_publish_offset].
    pose proof (Z.mod_pos_bound (o / tree_span (S d)) 256 ltac:(lia)) as Hm.
    rewrite (proj2 (Z.eqb_neq _ CHK_PER_INODE)) by (unfold CHK_PER_INODE; lia). cbn [orb].
    destruct (part_end (S d) o =? size) eqn:E; [ done | ]. cbn [orb].
    rewrite (proj2 (Z.eqb_neq _ 0)); [ done | ]. apply Z.eqb_neq in E.
    pose proof (tree_span_le 2 (S (S d)) ltac:(lia)) as H2. change (tree_span 2) with (2 ^ 31) in H2.
    rewrite Z.mod_small by lia. lia.
Qed.

(** ** Subtrees *)

Lemma encoder_steps_app k1 k2 te te1 te2 ev1 ev2 :
  encoder_steps reader k1 stack te = Ret (te1, ev1) ->
  encoder_steps reader k2 stack te1 = Ret (te2, ev2) ->
  encoder_steps reader (k1 + k2) stack te = Ret (te2, ev1 ++ ev2).
Proof.
  revert te ev1. induction k1 as [|k1 IH]; intros te ev1 H1 H2; cbn [encoder_steps Nat.add] in *.
  - by injection H1 as -> <-.
  - inv_ret H1. injection H1 as <- <-. rewrite (bind_ret _ _ _ Hret). cbv beta iota.
    rewrite (bind_ret _ _ _ (IH _ _ Hret0 H2)). by rewrite app_assoc.
Qed.

Lemma encoder_steps_1 te te' ev :
  GNUNET_FS_tree_encoder_next reader stack te = Ret (te', ev) ->
  encoder_steps reader 1 stack te = Ret (te', ev).
Proof.
  intros Hn. cbn [encoder_steps]. rewrite (bind_ret _ _ _ Hn). cbv beta iota.
  rewrite (bind_ret _ _ _ eq_refl). by rewrite app_nil_r.
Qed.

(** The encoder at depth 0 and offset [o] emits the subtree of depth [d] that starts
    there, leaves its key in its slot and goes up when the block above is complete. *)
Definition encodes_subtree (d : nat) (o : Z) : Prop := forall tree, tree_wf tree ->
  exists k tree',
    encoder_steps reader k stack (at_pos o 0 tree)
    = Ret (at_pos (part_end d o)
             (if (part_end d o =? size) || (part_end d o mod tree_span (S d) =? 0) then S d else 0)
             tree', tree_blocks d o)
    /\ tree_wf tree' /\ tree' !! slot d o = Some (merkle d o)
    /\ forall j, (d * 256 <= j)%nat -> j <> slot d o -> tree' !! j = tree !! j.

Lemma child_slot d o i :
  0 <= o -> o mod tree_span (S d) = 0 -> (i < 256)%nat ->
  slot d (o + Z.of_nat i * tree_span d) = (d * 256 + i)%nat.
Proof.
  intros Ho Hal Hi. pose proof (tree_span_pos d) as Hp. unfold slot. rewrite Z.div_add by lia.
  assert (Hq : exists q, o = tree_span d * (256 * q)).
  { exists (o / tree_span (S d)). pose proof (tree_span_S d) as HS.
    pose proof (Z.div_exact o (tree_span (S d)) ltac:(lia)) as [_ Hd]. specialize (Hd Hal). lia. }
  destruct Hq as [q ->]. rewrite (Z.mul_comm (tree_span d)), Z.div_mul by lia.
  rewrite (Z.add_comm (256 * q)), (Z.mul_comm 256), Z.mod_add, Z.mod_small by lia. lia.
Qed.

(** All children but the last: the encoder is back at depth 0. *)
Lemma children_steps d o tree i :
  (forall i, (i < children d o)%nat -> encodes_subtree d (o + Z.of_nat i * tree_span d)) ->
  0 <= o < size -> o mod tree_span (S d) = 0 -> tree_wf tree ->
  (i < children d o)%nat ->
  exists k tree',
    encoder_steps reader k stack (at_pos o 0 tree)
    = Ret (at_pos (o + Z.of_nat i * tree_span d) 0 tree',
           flat_map (fun i => tree_blocks d (o + Z.of_nat i * tree_span d)) (seq 0 i))
    /\ tree_wf tree' /\ holds_children d o i tree'
    /\ forall j, (S d * 256 <= j)%nat -> tree' !! j = tree !! j.
Proof.
  intros Hsub Ho Hal Htree. destruct (children_bounds file d o Ho) as (Hn & Hlast & _ & _).
  pose proof (tree_span_pos d) as Hp. induction i as [|i IH]; intros Hi.
  - exists 0%nat, tree. rewrite Z.mul_0_l, Z.add_0_r. repeat split; try apply Htree; try done.
    intros i Hi'. lia.
  - destruct IH as (k & tree1 & Hk & Hwf1 & Hc1 & Hsame1); [ lia | ].
    destruct (Hsub i ltac:(lia) tree1 Hwf1) as (k2 & tree2 & Hk2 & Hwf2 & Hslot & Hsame2).
    rewrite child_slot in Hslot, Hsame2 by (done || lia).
    assert (He : part_end d (o + Z.of_nat i * tree_span d) = o + Z.of_nat (S i) * tree_span d)
      by (unfold FsTreeSpec.part_end; nia).
    assert (Hend : o + Z.of_nat (S i) * tree_span d < size) by nia.
    assert (Hmod : (o + Z.of_nat (S i) * tree_span d) mod tree_span (S d) = Z.of_nat (S i) * tree_span d).
    { pose proof (tree_span_S d) as HS.
      pose proof (Z.div_exact o (tree_span (S d)) ltac:(lia)) as [_ Hd]. specialize (Hd Hal).
      symmetry. apply (Z.mod_unique_pos _ _ (o / tree_span (S d))); nia. }
    rewrite He, (proj2 (Z.eqb_neq _ size)), Hmod, (proj2 (Z.eqb_neq _ 0)) in Hk2 by nia.
    cbn [orb] in Hk2.
    exists (k + k2)%nat, tree2. split; [ | split; [ done | split ] ].
    + rewrite (encoder_steps_app _ _ _ _ _ _ _ Hk Hk2), seq_S, flat_map_app. cbn [flat_map Nat.add].
      by rewrite app_nil_r.
    + intros j Hj. destruct (decide (j = i)) as [->|]; [ done | ].
      rewrite Hsame2 by lia. apply Hc1. lia.
    + intros j Hj. rewrite Hsame2 by lia. by apply Hsame1.
Qed.

Lemma subtree_encoded d o :
  (d < D)%nat -> (D <= 3)%nat -> 0 <= o -> (o < size \/ (d = 0%nat /\ o <= size)) ->
  o mod tree_span d = 0 -> encodes_subtree d o.
Proof.
  intros Hd HD. revert o. induction d as [|d IH]; intros o Ho Hlt Hal tree Htree.
  { exists 1%nat. eexists. split; [ apply encoder_steps_1, next_dblock; [ done | done | lia | done ] | ].
    split; [ by apply tree_wf_insert | ]. destruct Htree as [Hl _].
    split; [ apply list_lookup_insert_eq; rewrite Hl; by apply slot_lt | ].
    intros j _ Hj. by apply list_lookup_insert_ne. }
  assert (Hos : 0 <= o < size) by (destruct Hlt as [|[? _]]; [ lia | done ]). clear Hlt.
  destruct (children_bounds file d o Hos) as (Hn & Hlast & Hend & Hfull).
  pose proof (tree_span_pos d) as Hp. pose proof (tree_span_S d) as HS.
  assert (Hsub : forall i, (i < children d o)%nat -> encodes_subtree d (o + Z.of_nat i * tree_span d)).
  { intros i Hi. apply IH; [ lia | nia | left; nia | ].
    rewrite Z.mod_add by lia. apply Z.mod_divide; [ lia | ].
    apply Z.mod_divide in Hal; [ | lia ]. rewrite HS in Hal.
    destruct Hal as [q ->]. exists (q * 256). lia. }
  set (n := children d o) in *. assert (Hn1 : (n - 1 < n)%nat) by lia.
  destruct (children_steps d o tree (n - 1) Hsub Hos Hal Htree Hn1)
    as (k1 & tree1 & Hk1 & Hwf1 & Hc1 & Hsame1).
  destruct (Hsub (n - 1)%nat Hn1 tree1 Hwf1) as (k2 & tree2 & Hk2 & Hwf2 & Hslot & Hsame2).
  rewrite child_slot in Hslot, Hsame2 by (done || lia).
  replace (Z.of_nat (n - 1)) with (Z.of_nat n - 1) in * by lia.
  rewrite <- Hend in Hk2.
  assert (Hup : (part_end (S d) o =? size) || (part_end (S d) o mod tree_span (S d) =? 0) = true).
  { apply orb_true_iff. destruct (part_end_div file (S d) o Hos Hal) as [_ Hmod].
    rewrite Hmod. case_match eqn:E; [ by right | left ]. apply Z.eqb_neq in E.
    apply Z.eqb_eq. unfold FsTreeSpec.part_end in *. lia. }
  rewrite Hup in Hk2.
  assert (Hc2 : holds_children d o n tree2).
  { intros j Hj. destruct (decide (j = n - 1)%nat) as [->|].
    - replace (Z.of_nat (n - 1)) with (Z.of_nat n - 1) by lia. exact Hslot.
    - rewrite Hsame2 by lia. apply Hc1. lia. }
  pose proof (next_iblock d o tree2 ltac:(lia) HD Hos Hal Hwf2 Hc2) as Hstep.
  exists (k1 + k2 + 1)%nat. eexists. split; [ | split; [ by apply tree_wf_insert | split ] ].
  - rewrite (encoder_steps_app _ _ _ _ _ _ _ (encoder_steps_app _ _ _ _ _ _ _ Hk1 Hk2)
      (encoder_steps_1 _ _ _ Hstep)).
    do 2 f_equal. cbn [FsTreeSpec.tree_blocks block_offset]. f_equal. fold n.
    assert (Hseq : seq 0 n = seq 0 (n - 1) ++ [(n - 1)%nat])
      by (rewrite <- (seq_S (n - 1)); f_equal; lia).
    rewrite Hseq, flat_map_app. cbn [flat_map]. rewrite app_nil_r.
    by replace (Z.of_nat (n - 1)) with (Z.of_nat n - 1) by lia.
  - destruct Hwf2 as [Hl _]. apply list_lookup_insert_eq. rewrite Hl. by apply slot_lt.
  - intros j Hj Hne. rewrite list_lookup_insert_ne by done. rewrite Hsame2 by lia.
    apply Hsame1. lia.
Qed.

End Encoder.

(** ** The encoder builds the tree *)

Lemma compute_depth_bound size d :
  is_u64 size -> GNUNET_FS_compute_depth size = Some (S d) ->
  (d <= 7)%nat /\ size <= tree_span d /\ forall d', (d' < d)%nat -> tree_span d' < size.
Proof.
  intros Hs Hd. destruct (depth_loop_spec size 6 0 Hs eq_refl ltac:(lia)) as (e & He & Hrest).
  change (depth_loop (2 + 6) size 1 (tree_span 0)) with (GNUNET_FS_compute_depth size) in He.
  rewrite He in Hd. injection Hd as ->. exact Hrest.
Qed.

Lemma encoder_create_ok size proc progress d :
  GNUNET_FS_compute_depth size = Some (S d) ->
  GNUNET_FS_tree_encoder_create size proc progress
  = Ret (mk_te proc progress None None size 0 0 (S d) (replicate (S d * 256) chk_zero) false).
Proof. intros Hd. unfold GNUNET_FS_tree_encoder_create. by rewrite Hd. Qed.

(** C9: For every file of at most 2^31 bytes the tree encoder implements the
    CHK tree of the file: after finitely many calls of
    GNUNET_FS_tree_encoder_next it has handed to the callbacks exactly the
    blocks of the tree, in postorder, each encrypted under the hash of its
    plaintext, and then calls the continuation; GNUNET_FS_tree_encoder_finish
    returns the URI with the key of the root and the file length in network
    byte order. *)
Theorem tree_encoder_builds_chk_tree `{GcryptLaws} (file : list Z) (proc progress : bool)
  (reader : Z -> Z -> Z * list Z * option (list Z)) (stack : list Z) :
  reads_file file reader -> length stack = Z.to_nat DBLOCK_SIZE -> size file <= 2 ^ 31 ->
  exists d te0 k te',
    GNUNET_FS_compute_depth (size file) = Some (S d)
    /\ GNUNET_FS_tree_encoder_create (size file) proc progress = Ret te0
    /\ encoder_steps reader k stack te0 = Ret (te', tree_blocks file proc progress d 0 ++ [Cont])
    /\ GNUNET_FS_tree_encoder_finish reader te' true true
       = Ret (Some (mk_fi (GNUNET_htonll (size file)) (merkle file d 0)), None, [ReadDone]).
Proof.
  intros Hreader Hstack Hsize. pose proof (size_nonneg file) as Hpos.
  destruct (depth_loop_spec (size file) 6 0) as (d & Hd & _ & Hle & Hmin);
    [ unfold is_u64; lia | done | lia | ].
  change (depth_loop _ _ _ _) with (GNUNET_FS_compute_depth (size file)) in Hd.
  assert (Hd2 : (d <= 2)%nat).
  { destruct (decide (d <= 2)%nat); [ done | ]. pose proof (Hmin 2%nat ltac:(lia)) as H2.
    change (tree_span 2) with (2 ^ 31) in H2. lia. }
  assert (Hend : part_end file d 0 = size file) by (unfold part_end; lia).
  assert (Hnz : 0 < size file \/ d = 0%nat /\ 0 <= size file).
  { destruct (Z.eq_dec (size file) 0) as [Hz|]; [ right | left; lia ]. split; [ | lia ].
    destruct d as [|d]; [ done | ]. pose proof (Hmin 0%nat ltac:(lia)). pose proof tree_span_0. lia. }
  assert (Htree : tree_wf (S d) (replicate (S d * 256) chk_zero)).
  { split; [ apply length_replicate | by apply Forall_replicate ]. }
  destruct (subtree_encoded file proc progress reader stack (S d) Hreader Hstack Hsize d 0
    ltac:(lia) ltac:(lia) ltac:(lia) Hnz ltac:(done) _ Htree) as (k & tree & Hk & [Hl _] & Hroot & _).
  rewrite Hend, Z.eqb_refl in Hk. cbn [orb] in Hk.
  exists d. eexists. exists (k + 1)%nat. eexists. split; [ done | ].
  split; [ by apply encoder_create_ok | ]. split; [ | ].
  - eapply encoder_steps_app; [ exact Hk | ]. apply encoder_steps_1.
    unfold GNUNET_FS_tree_encoder_next. rewrite (bind_ret _ tt _ eq_refl). cbv zeta.
    cbn [te_chk_tree_depth te_current_depth te_set_in_next at_pos te_chk_tree].
    rewrite Nat.eqb_refl. unfold slot in Hroot. rewrite Z.div_0_l, Z.mod_0_l in Hroot
      by (pose proof (tree_span_pos d); lia).
    replace (Z.to_nat (CHK_PER_INODE * (Z.of_nat (S d) - 1))) with (d * 256 + Z.to_nat 0)%nat
      by (unfold CHK_PER_INODE; lia).
    by rewrite Hroot.
  - unfold GNUNET_FS_tree_encoder_finish. by destruct (reader UINT64_MAX 0) as [[? ?] ?].
Qed.

(** A file of two DBLOCKs and the sample cipher *)
Definition sample_file : list Z := replicate (Z.to_nat 40000) 7.
Definition sample_reader (o n : Z) : Z * list Z * option (list Z) :=
  (n, part sample_file o (o + n), None).

Lemma tree_encoder_builds_chk_tree_witness :
  exists te0 k te',
    GNUNET_FS_tree_encoder_create 40000 true false = Ret te0
    /\ encoder_steps (H:=sample_gcrypt) sample_reader k (replicate (Z.to_nat DBLOCK_SIZE) 0) te0
       = Ret (te', tree_blocks (H:=sample_gcrypt) sample_file true false 1 0 ++ [Cont]).
Proof.
  assert (Hs : size sample_file = 40000)
    by (unfold size, sample_file; rewrite length_replicate; lia).
  destruct (tree_encoder_builds_chk_tree (H:=sample_gcrypt) (H0:=sample_gcrypt_laws)
    sample_file true false sample_reader (replicate (Z.to_nat DBLOCK_SIZE) 0))
    as (d & te0 & k & te' & Hd & Hc & Hk & _).
  - intros o n _ _ _. reflexivity.
  - apply length_replicate.
  - rewrite Hs. lia.
  - rewrite Hs in Hc, Hd. assert (Hd1 : d = 1%nat) by (vm_compute in Hd; congruence). subst d.
    exists te0, k, te'. split; [ exact Hc | exact Hk ].
Defined.

(** ** Block sizes: encoder and downloader *)

Lemma length_merkle_plain `{GcryptLaws} file d o :
  length (merkle_plain file (S d) o) = (children file d o * 128)%nat.
Proof.
  cbn [merkle_plain]. rewrite <- (length_seq (children file d o) 0) at 2.
  induction (seq 0 (children file d o)) as [|i l IH]; [ done | ].
  cbn [flat_map length]. rewrite length_app, IH, (chk_of_wf _). lia.
Qed.

(** For every block of the tree of a file of at most 2^63 bytes, the size
    that the downloader computes from the start of the block's part of the
    file (GNUNET_FS_tree_calculate_block_size) is the length of the block's
    plaintext, and for an IBLOCK also the size that the encoder computes from
    the end of that part. *)
Theorem block_sizes_agree `{GcryptLaws} (file : list Z) (d : nat) (o : Z) :
  size file <= 2 ^ 63 -> (d <= 6)%nat -> 0 <= o < size file -> o mod tree_span d = 0 ->
  let n := Z.of_nat (length (merkle_plain file d o)) in
  GNUNET_FS_tree_calculate_block_size (size file) o d = Ret n
  /\ n <= DBLOCK_SIZE
  /\ ((0 < d)%nat -> GNUNET_FS_tree_compute_iblock_size d (part_end file d o) = Ret n).
Proof.
  intros Hsize Hd Ho Hal n. unfold GNUNET_FS_tree_calculate_block_size, DBLOCK_SIZE.
  rewrite (bind_ret _ tt) by (apply gnunet_assert_true, Z.ltb_lt; lia).
  rewrite (bind_ret _ tt) by (apply gnunet_assert_true, Z.leb_le; lia).
  destruct d as [|d].
  - subst n. cbn [merkle_plain]. rewrite length_part by (unfold part_end; pose proof tree_span_0; lia).
    change (32 * 1024) with 32768. rewrite !(u64_small (o + 32768)) by (unfold is_u64; lia).
    pose proof tree_span_0 as H0s. unfold part_end. rewrite H0s. split; [ | split; [ lia | lia ] ].
    destruct (size file <? o + 32768) eqn:E.
    + apply Z.ltb_lt in E. cbn [orb]. rewrite u64_small by (unfold is_u64; lia). f_equal. lia.
    + apply Z.ltb_ge in E. rewrite (proj2 (Z.ltb_ge _ _)) by lia. cbn [orb]. f_equal. lia.
  - assert (Hn : n = Z.of_nat (children file d o) * 128)
      by (subst n; rewrite length_merkle_plain; lia).
    destruct (children_bounds file d o Ho) as (Hc & _). rewrite Hn.
    split; [ | split; [ lia | intros _; by apply compute_iblock_size_ok ] ].
    rewrite compute_tree_size_ok by lia. pose proof (tree_span_pos d) as Hp.
    pose proof (tree_span_S d) as HS. pose proof (tree_span_le (S d) 6 Hd) as Hle.
    change (tree_span 6) with (2 ^ 63) in Hle. unfold CHK_PER_INODE. cbv zeta.
    rewrite (u64_small (tree_span d * 256)) by (unfold is_u64; lia).
    assert (Hsum : u64 (o + tree_span d * 256) = o + tree_span (S d)).
    { rewrite Z.mul_comm, <- HS. apply u64_small. unfold is_u64. lia. }
    rewrite Hsum, (proj2 (Z.ltb_ge (o + tree_span (S d)) o)) by lia. cbn [orb].
    assert (He : (if size file <? o + tree_span (S d) then size file else o + tree_span (S d))
      = part_end file (S d) o).
    { unfold part_end. case_match eqn:E; [ apply Z.ltb_lt in E | apply Z.ltb_ge in E ]; lia. }
    rewrite He. assert (Hr : 0 <= part_end file (S d) o - o + tree_span d - 1 < 2 ^ 64)
      by (unfold part_end; lia).
    rewrite u64_small by exact Hr. unfold c_div. rewrite (proj2 (Z.eqb_neq (tree_span d) 0)) by lia.
    rewrite (bind_ret _ _ _ eq_refl). unfold children in *.
    rewrite Z2Nat.id in * by (apply Z.div_pos; lia).
    rewrite u32_small by (unfold is_u32; lia).
    by rewrite (bind_ret _ tt) by (apply gnunet_assert_true, Z.leb_le; lia).
Qed.

(** The root IBLOCK of the sample file has two keys. *)
Lemma block_sizes_agree_witness :
  GNUNET_FS_tree_calculate_block_size (size sample_file) 0 1
  = Ret (Z.of_nat (length (merkle_plain (H:=sample_gcrypt) sample_file 1 0))).
Proof.
  refine (proj1 (block_sizes_agree (H:=sample_gcrypt) (H0:=sample_gcrypt_laws) sample_file 1 0
    _ _ _ _)); [ | lia | | reflexivity ];
    unfold size, sample_file; rewrite length_replicate; lia.
Defined.

(** ** Files of more than 2^31 bytes *)

Section Skips.
Context `{Gcrypt} (reader : Z -> Z -> Z * list Z * option (list Z)) (stack : list Z).

(** Above depth 1 the encoder is at the end of the file. *)
Definition high_at_end (te : GNUNET_FS_TreeEncoder) : Prop :=
  (2 <= te_current_depth te)%nat -> te_publish_offset te = te_size te.

Lemma current_block_pos te te' b :
  current_block reader te = Ret (te', b) ->
  te_size te' = te_size te /\ te_publish_offset te' = te_publish_offset te
  /\ te_current_depth te' = te_current_depth te.
Proof.
  unfold current_block. intros Hc. destruct (te_current_depth te) as [|d] eqn:Ed.
  - cbv zeta in Hc. destruct (reader _ _) as [[r data] msg]. inv_ret Hc;
      injection Hc as <- _; destruct msg; done.
  - inv_ret Hc. by injection Hc as <- _.
Qed.

Lemma next_high_at_end te te' ev :
  high_at_end te -> GNUNET_FS_tree_encoder_next reader stack te = Ret (te', ev) ->
  high_at_end te' /\ te_size te' = te_size te
  /\ forall c off d ty enc n, In (Proc c off d ty enc n) ev -> (2 <= d)%nat -> off = te_size te.
Proof.
  intros Hinv Hn. unfold GNUNET_FS_tree_encoder_next in Hn. cbv zeta in Hn.
  apply bind_Ret_inv in Hn as (_ & _ & Hn). case_match.
  { inv_ret Hn. injection Hn as <- <-. split; [ exact Hinv | ]. split; [ done | ].
    intros ? ? ? ? ? ? [[=]|[]]. }
  apply bind_Ret_inv in Hn as ([te1 b] & Hb & Hn).
  apply current_block_pos in Hb as (Hs & Ho & Hd).
  cbn [te_size te_publish_offset te_current_depth te_set_in_next] in Hs, Ho, Hd.
  destruct b as [[pt n]|].
  2: { injection Hn as <- <-. unfold high_at_end in *.
       cbn [te_size te_publish_offset te_current_depth te_set_in_next]. rewrite Hs, Ho, Hd.
       repeat split; [ done | ]. intros ? ? ? ? ? ? [[=]|[]]. }
  apply bind_Ret_inv in Hn as (off & Hoff & Hn).
  apply bind_Ret_inv in Hn as ([c enc] & _ & Hn).
  apply bind_Ret_inv in Hn as (tree & _ & Hn). injection Hn as <- <-.
  assert (Hlt : off < 256).
  { unfold compute_chk_offset in Hoff. inv_ret Hoff. injection Hoff as <-.
    apply Z.mod_pos_bound. done. }
  unfold advance, high_at_end in *.
  cbn [te_size te_publish_offset te_current_depth te_set_in_next te_set_tree te_set_pos te_proc
    te_progress] in *. rewrite Hs, Ho, Hd in *.
  destruct (te_current_depth te) as [|d] eqn:Ed;
    cbn [te_size te_publish_offset te_current_depth te_set_in_next te_set_tree te_set_pos];
    rewrite ?Hs.
  - split; [ case_match; lia | ]. split; [ done | ].
    intros c' o' d' ty e m Hin H2. exfalso. apply in_app_iff in Hin as [Hin|Hin].
    + case_match; [ | done ]. destruct Hin as [[=]|[]]. lia.
    + case_match; [ by destruct Hin as [[=]|[]] | done ].
  - rewrite (proj2 (Z.eqb_neq off CHK_PER_INODE)) by (unfold CHK_PER_INODE; lia). cbn [orb].
    split; [ | split; [ done | ] ].
    + destruct (te_publish_offset te =? te_size te) eqn:E; [ by apply Z.eqb_eq in E | lia ].
    + intros c' o' d' ty e m Hin H2. apply in_app_iff in Hin as [Hin|Hin].
      * case_match; [ | done ]. destruct Hin as [Hin|[]]. injection Hin as <- <- <- _ _ _.
        by apply Hinv.
      * case_match; [ by destruct Hin as [[=]|[]] | done ].
Qed.

Lemma steps_high_at_end k te te' ev :
  high_at_end te -> encoder_steps reader k stack te = Ret (te', ev) ->
  forall c off d ty enc n, In (Proc c off d ty enc n) ev -> (2 <= d)%nat -> off = te_size te.
Proof.
  revert te ev. induction k as [|k IH]; intros te ev Hinv Hk c off d ty enc n Hin H2;
    cbn [encoder_steps] in Hk; [ by injection Hk as <- <- | ].
  apply bind_Ret_inv in Hk as ([te1 ev1] & H1 & Hk).
  apply bind_Ret_inv in Hk as ([te2 ev2] & Hk & [= <- <-]).
  destruct (next_high_at_end _ _ _ Hinv H1) as (Hinv1 & Hs & Hev).
  apply in_app_iff in Hin as [Hin|Hin]; [ by eapply Hev | ].
  rewrite <- Hs. by eapply IH.
Qed.

End Skips.

Lemma first_child_blocks `{Gcrypt} file proc progress d e :
  (e <= d)%nat -> 0 < size file ->
  exists pre post, tree_blocks file proc progress d 0
    = pre ++ callbacks proc progress e (block_offset file e 0) (merkle_plain file e 0) ++ post.
Proof.
  intros He Hs. induction d as [|d IH].
  - replace e with 0%nat by lia. exists [], []. by rewrite app_nil_r.
  - destruct (decide (e = S d)) as [->|].
    { cbn [tree_blocks]. eexists _, []. by rewrite app_nil_r. }
    destruct IH as (pre & post & Heq); [ lia | ]. cbn [tree_blocks].
    destruct (children_bounds file d 0 ltac:(lia)) as (Hc & _).
    destruct (children file d 0) as [|m]; [ lia | ]. cbn [seq flat_map].
    change (0 + Z.of_nat 0 * tree_span d) with 0. rewrite Heq. exists pre. eexists.
    by rewrite <- !app_assoc.
Qed.

(** For a file of more than 2^31 bytes the encoder does not produce its
    CHK tree: the block of depth 2 that covers the first 2^31 bytes belongs to
    the tree, but no number of calls of GNUNET_FS_tree_encoder_next ever emits
    it, since the test that should send the encoder up after the 256th key of
    an IBLOCK (off == CHK_PER_INODE) can never hold. *)
Theorem encoder_skips_blocks `{Gcrypt} (file : list Z) (progress : bool)
  (reader : Z -> Z -> Z * list Z * option (list Z)) (stack : list Z)
  (d : nat) (te0 : GNUNET_FS_TreeEncoder) :
  2 ^ 31 < size file -> is_u64 (size file) ->
  GNUNET_FS_compute_depth (size file) = Some (S d) ->
  GNUNET_FS_tree_encoder_create (size file) true progress = Ret te0 ->
  let pt := merkle_plain file 2 0 in
  let b := Proc (chk_of pt) (2 ^ 31) 2 GNUNET_BLOCK_TYPE_FS_IBLOCK
             (encrypted (GNUNET_CRYPTO_hash pt) pt) (Z.of_nat (length pt)) in
  In b (tree_blocks file true progress d 0)
  /\ forall k te' ev, encoder_steps reader k stack te0 = Ret (te', ev) -> ~ In b ev.
Proof.
  intros Hbig Hu Hd Hc pt b. destruct (compute_depth_bound _ _ Hu Hd) as (_ & Hle & _).
  assert (Hd3 : (2 <= d)%nat).
  { destruct (decide (2 <= d)%nat); [ done | ]. pose proof (tree_span_le d 2 ltac:(lia)) as H2.
    change (tree_span 2) with (2 ^ 31) in H2. lia. }
  assert (Hoff : block_offset file 2 0 = 2 ^ 31)
    by (cbn [block_offset]; unfold part_end; change (tree_span 2) with (2 ^ 31); lia).
  rewrite (encoder_create_ok _ _ _ _ Hd) in Hc. injection Hc as <-.
  destruct (first_child_blocks file true progress d 2 Hd3 ltac:(lia)) as (pre & post & Heq).
  rewrite Heq, Hoff. split.
  - apply in_app_iff. right. apply in_app_iff. left. unfold callbacks. by left.
  - intros k te' ev Hk Hin. eapply steps_high_at_end in Hin; [ | | exact Hk | lia ].
    + cbn [te_size] in Hin. lia.
    + intros H2. cbn [te_current_depth] in H2. lia.
Qed.

Definition big_file : list Z := replicate (Z.to_nat (2 ^ 31 + 1)) 0.

Lemma encoder_skips_blocks_witness :
  exists b, In b (tree_blocks (H:=sample_gcrypt) big_file true false 3 0)
    /\ forall k te' ev,
      encoder_steps (H:=sample_gcrypt) sample_reader k (replicate (Z.to_nat DBLOCK_SIZE) 0)
        (mk_te true false None None (size big_file) 0 0 4 (replicate (4 * 256) chk_zero) false)
      = Ret (te', ev) -> ~ In b ev.
Proof.
  assert (Hs : size big_file = 2 ^ 31 + 1)
    by (unfold size, big_file; rewrite length_replicate; lia).
  eexists. apply (encoder_skips_blocks (H:=sample_gcrypt) big_file false sample_reader _ 3);
    rewrite ?Hs; [ lia | unfold is_u64; lia | reflexivity | reflexivity ].
Defined.
