(* ===== verification/FsUri.v ===== *)
(** * URIs of the file-sharing service: [src/fs/fs_uri.c]

    The four kinds of URI (content, namespace, keyword and location), their text
    forms, the keyword lists and the keywords found in meta data.  Text is handled as
    the code does it, in buffers of computed sizes, so that a write past the end is
    [Undefined].  Parameters are libunistring ([Unistring] and the case mapping of [UpperCase]),
    RSA ([Rsa]) and the layout of the stack frame in which the text of a hash code is
    converted, which decides what its one-byte overrun does ([UpperCase]). *)

From Stdlib Require Import ZArith Lia String.
From stdpp Require Import base list numbers.
From S2P Require Import Prelude Endian Time Crc Base32 Hash MetaData CString Strings CryptoAes FsTree.
Local Open Scope Z_scope.

(** ** Data: [struct GNUNET_FS_Uri] of [fs_api.h] *)

(** The public key and the signature are the bytes of their structs. *)
Record Location := mk_location {
  loc_fi : FileIdentifier;
  loc_peer : list Z;
  expirationTime : GNUNET_TIME_Absolute;
  contentSignature : list Z
}.

(** A keyword starts with ['+'] when it is mandatory and with [' '] otherwise;
    [keywordCount] is the length of the list. *)
Inductive GNUNET_FS_Uri :=
  | chk (fi : FileIdentifier)
  | sks (ns : GNUNET_HashCode) (identifier : str)
  | ksk (keywords : list str)
  | loc (l : Location).

Definition sizeof_public_key : nat := 264.
Definition sizeof_signature : nat := 256.
(** [sizeof (struct GNUNET_CRYPTO_HashAsciiEncoded)] *)
Definition sizeof_hash_enc : nat := 104.

Definition GNUNET_FS_URI_PREFIX : str := cs "gnunet://fs/".
Definition GNUNET_FS_URI_KSK_PREFIX : str := GNUNET_FS_URI_PREFIX ++ cs "ksk/".
Definition GNUNET_FS_URI_SKS_PREFIX : str := GNUNET_FS_URI_PREFIX ++ cs "sks/".
Definition GNUNET_FS_URI_CHK_PREFIX : str := GNUNET_FS_URI_PREFIX ++ cs "chk/".
Definition GNUNET_FS_URI_LOC_PREFIX : str := GNUNET_FS_URI_PREFIX ++ cs "loc/".

Abbreviation PLUS := 43 (only parsing).
Abbreviation PERCENT := 37 (only parsing).

(** The character at an offset of a C string; the NUL follows the last one. *)
Definition char_at (s : str) (i : nat) : outcome Z := of_option ((s ++ [0]) !! i).

(** [0 == strncmp (s, prefix, strlen (prefix))] *)
Definition has_prefix (s prefix : str) : bool := bool_decide (take (length prefix) s = prefix).

(** A parser returns the URI and what [*emsg] is. *)
Definition parse_result : Type := option GNUNET_FS_Uri * option str.

Definition uri_error (msg : str) : outcome parse_result :=
  m ← GNUNET_strdup msg;
  Ret (None, Some m).

(** ** Interfaces *)

(** libunistring's [u8_toupper], and the stack frame of [GNUNET_CRYPTO_hash_from_string2]:
    the bytes from the start of an array [upper_enc] of the given size up to the next
    object of the frame *)
Class UpperCase := {
  u8_toupper : list Z -> list Z;
  upper_enc_frame : nat -> list Z
}.

(** The macro [GNUNET_CRYPTO_hash_from_string] of [src/include/gnunet_crypto_lib.h]:
    [hash_from_string2] with the length of the C string *)
Definition hash_from_string `{UpperCase} (enc : str) : outcome (option GNUNET_HashCode) :=
  r ← GNUNET_CRYPTO_hash_from_string2 u8_toupper (upper_enc_frame (length enc)) (enc ++ [0])
        (length enc);
  Ret (option_map (hash_words 16) r).

(** [GNUNET_CRYPTO_rsa_verify] of the bytes of a block, and [GNUNET_CRYPTO_rsa_sign] with
    [GNUNET_CRYPTO_rsa_key_get_public] of a private key *)
Class Rsa := {
  rsa_verify : list Z -> list Z -> list Z -> bool;
  rsa_key : Type;
  rsa_key_from_file : str -> option rsa_key;
  rsa_key_get_public : rsa_key -> list Z;
  rsa_sign : rsa_key -> list Z -> list Z
}.

(** ** Keywords *)

Definition keyword_char (k : str) : outcome Z := char_at k 0.
(** [&keyword[1]] *)
Definition keyword_text (k : str) : outcome str :=
  match k with [] => Undefined | _ :: t => Ret t end.

Definition strcat (buf : list Z) (s : str) : outcome (list Z) :=
  d ← c_str buf;
  mem_write buf (length d) (s ++ [0]).

(** [NULL != strstr (s, " ")] *)
Definition has_space (s : str) : bool := match strchr s SPACE with Some _ => true | None => false end.

Fixpoint fancy_size (n : Z) (keywords : list str) : outcome Z :=
  match keywords with
  | [] => Ret n
  | k :: ks =>
      t ← keyword_text k;
      c ← keyword_char k;
      let n := u64 (n + strlen k - 1) in
      let n := if has_space t then u64 (n + 2) else n in
      let n := if c =? PLUS then u64 (n + 1) else n in
      fancy_size n ks
  end.

Fixpoint fancy_loop (ret : list Z) (keywords : list str) : outcome (list Z) :=
  match keywords with
  | [] => Ret ret
  | k :: ks =>
      t ← keyword_text k;
      c ← keyword_char k;
      let w := if c =? PLUS then k else t in
      ret ← (if has_space t then
               ret ← strcat ret [QUOTE];
               ret ← strcat ret w;
               strcat ret [QUOTE]
             else strcat ret w);
      ret ← strcat ret [SPACE];
      fancy_loop ret ks
  end.

Definition GNUNET_FS_uri_ksk_to_string_fancy (uri : option GNUNET_FS_Uri) : outcome (option str) :=
  match uri with
  | Some (ksk keywords) =>
      n ← fancy_size (Z.of_nat (length keywords) + 1) keywords;
      ret ← GNUNET_malloc n;
      ret ← mem_write ret 0 [0];
      ret ← fancy_loop ret keywords;
      s ← c_str ret;
      Ret (Some s)
  | _ => Ret None
  end.

(** [SSCANF (s, "%2X", &hx)]: white space, then at most two characters of a number in
    base 16 with an optional sign and an optional [0x]. *)
Definition hex_value (c : Z) : option Z :=
  if is_digit c then Some (c - 48)
  else if (65 <=? c) && (c <=? 70) then Some (c - 55)
  else if (97 <=? c) && (c <=? 102) then Some (c - 87)
  else None.

Definition scan_2X (s : str) : option Z :=
  match take 2 (drop_while isspace s) with
  | [a] => hex_value a
  | [a; b] =>
      match hex_value a, hex_value b with
      | Some x, Some y => Some (16 * x + y)
      | Some x, None => Some x
      | None, Some y => if a =? 45 then Some (u32 (- y)) else if a =? PLUS then Some y else None
      | None, None => None
      end
  | _ => None
  end.

(** The loop of [percent_decode_keyword]: [out] is the copy of the keyword with its NUL,
    decoded in place.  The fuel is the length of the buffer. *)
Fixpoint percent_loop (fuel : nat) (out : list Z) (rpos wpos : nat) : outcome (option (list Z)) :=
  match fuel with
  | O => Undefined
  | S fuel' =>
      c ← of_option (out !! rpos);
      if c =? 0 then
        out ← mem_write out wpos [0];
        Ret (Some out)
      else if c =? PERCENT then
        rest ← c_str (drop (rpos + 1) out);
        match scan_2X rest with
        | None => Ret None
        | Some hx =>
            let rpos := (rpos + 3)%nat in
            if hx =? QUOTE then percent_loop fuel' out rpos wpos
            else
              out ← mem_write out wpos [u8 hx];
              percent_loop fuel' out rpos (S wpos)
        end
      else
        out ← mem_write out wpos [c];
        percent_loop fuel' out (S rpos) (S wpos)
  end.

Definition percent_decode_keyword (s : str) : outcome (option str * option str) :=
  out ← GNUNET_strdup s;
  r ← percent_loop (length s + 1) (out ++ [0]) 0 0;
  match r with
  | None =>
      m ← GNUNET_strdup (cs "`%' must be followed by HEX number");
      Ret (None, Some m)
  | Some out =>
      out ← c_str out;
      c ← char_at out 0;
      ret ← (if c =? PLUS then GNUNET_strdup out
             else alloc_str (strlen out + 2) (SPACE :: out));
      Ret (Some ret, None)
  end.

(** ** Parsing *)

Definition at_quote (s : str) (i : nat) : bool := has_prefix (drop i s) (cs "%22").

(** The first loop of [uri_ksk_parse]: the number of keywords, and whether a quote is
    open at the end; [None] for a doubled ['+'].  [s] is the rest of the string and
    [prev] the character before it; [n] characters are still to be skipped after a
    quote. *)
Fixpoint ksk_count (s : str) (prev : Z) (skip : nat) (max : Z) (saw_quote : bool)
  : option (Z * bool) :=
  match s with
  | [] => Some (max, saw_quote)
  | c :: s' =>
      match skip with
      | S k => ksk_count s' c k max saw_quote
      | O =>
          if has_prefix s (cs "%22") then ksk_count s' c 3 max (negb saw_quote)
          else if (c =? PLUS) && negb saw_quote then
            if prev =? PLUS then None else ksk_count s' c 0 (max + 1) saw_quote
          else ksk_count s' c 0 max saw_quote
      end
  end.

(** The second loop, from the end of the string backwards.  [dup] is the copy, of which
    only the part up to a ['+'] already seen is left; [keywords] are those stored so
    far, from slot [max] on.  [None] is a loop that is still running after [fuel]
    iterations. *)
Inductive ksk_state :=
  | KskDone (dup : str) (keywords : list str) (max : Z)
  | KskFailed (emsg : option str).

Fixpoint ksk_split (fuel : nat) (s : str) (pos : nat) (i : Z) (dup : str) (saw_quote : bool)
  (max : Z) (keywords : list str) : option (outcome ksk_state) :=
  match fuel with
  | O => None
  | S fuel' =>
      if i <? Z.of_nat pos then Some (Ret (KskDone dup keywords max))
      else
        let n := Z.to_nat i in
        if at_quote s n then ksk_split fuel' s pos (i + 3 - 1) dup (negb saw_quote) max keywords
        else
          match dup !! n with
          | Some c =>
              if (c =? PLUS) && negb saw_quote then
                if max <=? 0 then Some Undefined
                else
                  match percent_decode_keyword (drop (S n) dup) with
                  | Ret (Some k, _) =>
                      ksk_split fuel' s pos (i - 1) (take n dup) saw_quote (max - 1) (k :: keywords)
                  | Ret (None, m) => Some (Ret (KskFailed m))
                  | AssertFailed => Some AssertFailed
                  | Undefined => Some Undefined
                  end
              else ksk_split fuel' s pos (i - 1) dup saw_quote max keywords
          | None => ksk_split fuel' s pos (i - 1) dup saw_quote max keywords
          end
  end.

(** [fuel] bounds the iterations of the second loop: [None] is a parser that is still
    running. *)
Definition uri_ksk_parse (fuel : nat) (s : option str) (emsg : option str)
  : option (outcome parse_result) :=
  match s with
  | None => Some AssertFailed
  | Some s =>
      let slen := length s in
      let pos := length GNUNET_FS_URI_KSK_PREFIX in
      if (slen <=? pos)%nat || negb (has_prefix s GNUNET_FS_URI_KSK_PREFIX) then Some (Ret (None, emsg))
      else if bool_decide (s !! (slen - 1)%nat = Some PLUS) || bool_decide (s !! pos = Some PLUS) then
        Some (uri_error (cs "Malformed KSK URI (must not begin or end with `+')"))
      else
        match ksk_count (drop pos s) SLASH 0 1 false with
        | None => Some (uri_error (cs "`++' not allowed in KSK URI"))
        | Some (_, true) => Some (uri_error (cs "Quotes not balanced in KSK URI"))
        | Some (max, false) =>
            match GNUNET_strdup s with
            | Ret dup =>
                match GNUNET_malloc (max * 8) with
                | Ret _ =>
                    r ← ksk_split fuel s pos (Z.of_nat slen - 1) dup false max [];
                    Some (
                      st ← r;
                      match st with
                      | KskFailed m => Ret (None, m)
                      | KskDone dup keywords max =>
                          if max <=? 0 then Undefined
                          else
                            '(k, m) ← percent_decode_keyword (drop pos dup);
                            match k with
                            | None => Ret (None, m)
                            | Some k =>
                                _ ← gnunet_assert (max - 1 =? 0);
                                Ret (Some (ksk (k :: keywords)), emsg)
                            end
                      end)
                | AssertFailed => Some AssertFailed
                | Undefined => Some Undefined
                end
            | AssertFailed => Some AssertFailed
            | Undefined => Some Undefined
            end
        end
  end.

Section Parsing.
Context `{UpperCase} `{Rsa}.

(** The 103 characters of a hash at an offset *)
Definition hash_text (s : str) (pos : nat) : str := take (sizeof_hash_enc - 1) (drop pos s).

Definition uri_sks_parse (s : option str) (emsg : option str) : outcome parse_result :=
  match s with
  | None => AssertFailed
  | Some s =>
      let slen := length s in
      let pos := length GNUNET_FS_URI_SKS_PREFIX in
      if (slen <=? pos)%nat || negb (has_prefix s GNUNET_FS_URI_SKS_PREFIX) then Ret (None, emsg)
      else if (slen <? pos + sizeof_hash_enc)%nat
              || negb (bool_decide (s !! (pos + sizeof_hash_enc - 1)%nat = Some SLASH))
      then uri_error (cs "Malformed SKS URI")
      else
        ns ← hash_from_string (hash_text s pos);
        match ns with
        | None => uri_error (cs "Malformed SKS URI")
        | Some ns =>
            identifier ← GNUNET_strdup (drop (pos + sizeof_hash_enc) s);
            Ret (Some (sks ns identifier), emsg)
        end
  end.

(** The part that CHK and LOC URIs share: two hash codes and the file length;
    [None] when one of them is malformed *)
Definition parse_file_identifier (s : str) (pos : nat) : outcome (option FileIdentifier) :=
  key ← hash_from_string (hash_text s pos);
  match key with
  | None => Ret None
  | Some key =>
      query ← hash_from_string (hash_text s (pos + sizeof_hash_enc));
      match query with
      | None => Ret None
      | Some query =>
          match sscanf (drop (pos + sizeof_hash_enc * 2) s) [Unsigned 64] with
          | [Number flen] => Ret (Some (mk_fi (GNUNET_htonll flen) (mk_chk key query)))
          | _ => Ret None
          end
      end
  end.

Definition separated (s : str) (pos : nat) : bool :=
  bool_decide (s !! (pos + sizeof_hash_enc - 1)%nat = Some DOT)
  && bool_decide (s !! (pos + sizeof_hash_enc * 2 - 1)%nat = Some DOT).

Definition uri_chk_parse (s : option str) (emsg : option str) : outcome parse_result :=
  match s with
  | None => Ret (None, emsg)
  | Some s =>
      let slen := length s in
      let pos := length GNUNET_FS_URI_CHK_PREFIX in
      if (slen <? pos + 2 * sizeof_hash_enc + 1)%nat || negb (has_prefix s GNUNET_FS_URI_CHK_PREFIX)
      then Ret (None, emsg)
      else if negb (separated s pos) then uri_error (cs "Malformed CHK URI")
      else
        fi ← parse_file_identifier s pos;
        match fi with
        | None => uri_error (cs "Malformed CHK URI")
        | Some fi => Ret (Some (chk fi), emsg)
        end
  end.

(** *** Binary data, six bits per character *)

(** -1 converted to [unsigned int] for a character that is not in the table *)
Definition c2v (a : Z) : Z :=
  if (48 <=? a) && (a <=? 57) then a - 48
  else if (65 <=? a) && (a <=? 90) then a - 65 + 10
  else if (97 <=? a) && (a <=? 122) then a - 97 + 36
  else if a =? 95 then 62
  else if a =? 61 then 63
  else UINT32_MAX.

Definition encoded_chars (size : nat) : nat :=
  (size * 8 / 6 + (if (size * 8) mod 6 =? 0 then 0 else 1))%nat.

(** [while (hbits < 8)]: at most two characters *)
Fixpoint enc2bin_fill (fuel : nat) (input : str) (len : nat) (bits hbits : Z)
  : outcome (nat * Z * Z) :=
  if hbits <? 8 then
    match fuel with
    | O => Undefined
    | S fuel' =>
        c ← char_at input len;
        enc2bin_fill fuel' input (S len) (Z.lor bits (u32 (Z.shiftl (c2v c) hbits))) (hbits + 6)
    end
  else Ret (len, bits, hbits).

Fixpoint enc2bin_loop (n : nat) (input : str) (len : nat) (bits hbits : Z) (data : list Z)
  : outcome (nat * list Z) :=
  match n with
  | O => Ret (len, data)
  | S n' =>
      '(len, bits, hbits) ← enc2bin_fill 2 input len bits hbits;
      enc2bin_loop n' input len (Z.shiftr bits 8) (hbits - 8) (data ++ [u8 bits])
  end.

(** [None] for -1, otherwise the characters read and the data *)
Definition enc2bin (input : str) (size : nat) : outcome (option (nat * list Z)) :=
  if (length input <? encoded_chars size)%nat then Ret None
  else
    r ← enc2bin_loop size input 0 0 0 [];
    Ret (Some r).

(** The bytes of [struct LocUriAssembly]: what is signed *)
Definition chk_struct (fi : FileIdentifier) : list Z :=
  host_bytes 8 (file_length fi) ++ chk_bytes (fi_chk fi).
Definition GNUNET_SIGNATURE_PURPOSE_PEER_PLACEMENT : Z := 5.
Definition sizeof_assembly : Z := 416.
Definition loc_assembly (exptime : Z) (fi : FileIdentifier) (peer : list Z) : list Z :=
  be_encode 4 sizeof_assembly ++ be_encode 4 GNUNET_SIGNATURE_PURPOSE_PEER_PLACEMENT
  ++ be_encode 8 exptime ++ chk_struct fi ++ peer.

(** [while ((s[npos] != '\0') && (s[npos] != '.')) npos++] *)
Definition skip_to_dot (s : str) (npos : nat) : nat :=
  match strchr (drop npos s) DOT with
  | Some k => (npos + k)%nat
  | None => length s
  end.

Definition uri_loc_parse (s : option str) (emsg : option str) : outcome parse_result :=
  match s with
  | None => AssertFailed
  | Some s =>
      let slen := length s in
      let pos := length GNUNET_FS_URI_LOC_PREFIX in
      if (slen <? pos + 2 * sizeof_hash_enc + 1)%nat || negb (has_prefix s GNUNET_FS_URI_LOC_PREFIX)
      then Ret (None, emsg)
      else if negb (separated s pos) then uri_error (cs "SKS URI malformed")
      else
        fi ← parse_file_identifier s pos;
        match fi with
        | None => uri_error (cs "SKS URI malformed")
        | Some fi =>
            let npos := skip_to_dot s (pos + sizeof_hash_enc * 2) in
            c ← char_at s npos;
            if c =? 0 then uri_error (cs "SKS URI malformed")
            else
              let npos := S npos in
              r ← enc2bin (drop npos s) sizeof_public_key;
              match r with
              | None => uri_error (cs "SKS URI malformed (could not decode public key)")
              | Some (n, peer) =>
                  let npos := (npos + n)%nat in
                  c ← char_at s npos;
                  if negb (c =? DOT) then
                    uri_error (cs "SKS URI malformed (could not find signature)")
                  else
                    let npos := S npos in
                    r ← enc2bin (drop npos s) sizeof_signature;
                    match r with
                    | None => uri_error (cs "SKS URI malformed (could not decode signature)")
                    | Some (n, sig) =>
                        let npos := (npos + n)%nat in
                        c ← char_at s npos;
                        if negb (c =? DOT) then uri_error (cs "SKS URI malformed")
                        else
                          match sscanf (drop (S npos) s) [Unsigned 64] with
                          | [Number exptime] =>
                              if negb (rsa_verify (loc_assembly exptime fi peer) sig peer) then
                                uri_error (cs "SKS URI malformed (signature failed validation)")
                              else Ret (Some (loc (mk_location fi peer (mk_abs exptime) sig)), emsg)
                          | _ => uri_error
                                   (cs "SKS URI malformed (could not parse expiration time)")
                          end
                    end
              end
        end
  end.

(** A message that was stored by a parser is replaced by the next one. *)
Definition GNUNET_FS_uri_parse (fuel : nat) (uri : option str) : option (outcome parse_result) :=
  match uri_chk_parse uri None with
  | Ret (None, emsg) =>
      r ← uri_ksk_parse fuel uri emsg;
      Some (
        '(ret, emsg) ← r;
        match ret with
        | Some _ => Ret (ret, emsg)
        | None =>
            '(ret, emsg) ← uri_sks_parse uri emsg;
            match ret with
            | Some _ => Ret (ret, emsg)
            | None =>
                '(ret, emsg) ← uri_loc_parse uri emsg;
                match ret, emsg with
                | Some _, _ => Ret (ret, emsg)
                | None, None => uri_error (cs "Unrecognized URI type")
                | None, Some _ => Ret (None, emsg)
                end
            end
        end)
  | r => Some r
  end.

End Parsing.

(** ** Printing *)

(** [isalnum] in the C locale *)
Definition isalnum (c : Z) : bool :=
  is_digit c || ((65 <=? c) && (c <=? 90)) || ((97 <=? c) && (c <=? 122)).

Definition needs_percent (c : Z) : bool :=
  negb (isalnum c || (c =? 45) || (c =? 95) || (c =? 46) || (c =? 126)).

(** [sprintf ("%02X")] of a [char]: it is promoted to [int] with its sign, and printed as
    [unsigned int] *)
Definition hex_digit (v : Z) : Z := if v <? 10 then 48 + v else 55 + v.

Fixpoint hex_loop (fuel : nat) (n : Z) (acc : str) : str :=
  match fuel with
  | O => acc
  | S fuel' => if n =? 0 then acc else hex_loop fuel' (n / 16) (hex_digit (n mod 16) :: acc)
  end.

Definition sprintf_02X (c : Z) : str :=
  let h := hex_loop 8 (u32 (s8 c)) [] in
  replicate (2 - length h) 48 ++ h.

(** The size that one keyword needs, by the loop over [j] *)
Fixpoint ksk_keyword_size (n : Z) (first : bool) (k : str) : Z :=
  match k with
  | [] => n
  | c :: k' =>
      if first && (c =? SPACE) then ksk_keyword_size (n - 1) false k'
      else if needs_percent c then ksk_keyword_size (n + 2) false k'
      else ksk_keyword_size n false k'
  end.

Fixpoint ksk_size (n : Z) (keywords : list str) : Z :=
  match keywords with
  | [] => n
  | k :: ks => ksk_size (ksk_keyword_size (n + strlen k) true k) ks
  end.

Fixpoint ksk_write_keyword (ret : list Z) (wpos : nat) (first : bool) (k : str)
  : outcome (list Z * nat) :=
  match k with
  | [] => Ret (ret, wpos)
  | c :: k' =>
      if first && (c =? SPACE) then ksk_write_keyword ret wpos false k'
      else if needs_percent c then
        ret ← mem_write ret wpos (PERCENT :: sprintf_02X c ++ [0]);
        ksk_write_keyword ret (wpos + 3) false k'
      else
        ret ← mem_write ret wpos [c];
        ksk_write_keyword ret (wpos + 1) false k'
  end.

Fixpoint ksk_write (ret : list Z) (wpos : nat) (keywords : list str) : outcome (list Z) :=
  match keywords with
  | [] => Ret ret
  | k :: ks =>
      '(ret, wpos) ← ksk_write_keyword ret wpos true k;
      match ks with
      | [] => Ret ret
      | _ =>
          ret ← mem_write ret wpos [PLUS];
          ksk_write ret (wpos + 1) ks
      end
  end.

Definition uri_ksk_to_string (uri : GNUNET_FS_Uri) : outcome (option str) :=
  match uri with
  | ksk keywords =>
      let n := ksk_size (Z.of_nat (length keywords) + strlen GNUNET_FS_URI_PREFIX
                         + strlen (cs "ksk/") + 1) keywords in
      ret ← GNUNET_malloc n;
      ret ← mem_write ret 0 (GNUNET_FS_URI_PREFIX ++ [0]);
      ret ← strcat ret (cs "ksk/");
      ret ← ksk_write ret (length GNUNET_FS_URI_KSK_PREFIX) keywords;
      s ← c_str ret;
      Ret (Some s)
  | _ => Ret None
  end.

(** The characters of a hash code, without the NUL *)
Definition hash_enc (h : GNUNET_HashCode) : outcome str :=
  e ← GNUNET_CRYPTO_hash_to_enc h;
  c_str e.

Definition uri_sks_to_string (uri : GNUNET_FS_Uri) : outcome (option str) :=
  match uri with
  | sks ns identifier =>
      nsasc ← hash_enc ns;
      s ← GNUNET_asprintf (GNUNET_FS_URI_SKS_PREFIX ++ nsasc ++ cs "/" ++ identifier);
      Ret (Some s)
  | _ => Ret None
  end.

Definition uri_chk_to_string (uri : GNUNET_FS_Uri) : outcome (option str) :=
  match uri with
  | chk fi =>
      keyhash ← hash_enc (chk_key (fi_chk fi));
      queryhash ← hash_enc (chk_query (fi_chk fi));
      s ← GNUNET_asprintf (GNUNET_FS_URI_CHK_PREFIX ++ keyhash ++ cs "." ++ queryhash ++ cs "."
            ++ dec (GNUNET_ntohll (file_length fi)));
      Ret (Some s)
  | _ => Ret None
  end.

Definition tbl : str := cs "0123456789ABCDEFGHIJKLMNOPQRSTUVWXYZabcdefghijklmnopqrstuvwxyz_=".

(** [while (hbits >= 6)]: at most two characters per byte *)
Fixpoint bin2enc_emit (fuel : nat) (ret : list Z) (len : nat) (bits hbits : Z)
  : outcome (list Z * nat * Z * Z) :=
  if 6 <=? hbits then
    match fuel with
    | O => Undefined
    | S fuel' =>
        c ← of_option (tbl !! Z.to_nat (Z.land bits 63));
        ret ← mem_write ret len [c];
        bin2enc_emit fuel' ret (S len) (Z.shiftr bits 6) (hbits - 6)
    end
  else Ret (ret, len, bits, hbits).

Fixpoint bin2enc_loop (data : list Z) (ret : list Z) (len : nat) (bits hbits : Z)
  : outcome (list Z * nat * Z * Z) :=
  match data with
  | [] => Ret (ret, len, bits, hbits)
  | b :: data' =>
      '(ret, len, bits, hbits) ←
        bin2enc_emit 2 ret len (Z.lor bits (u32 (Z.shiftl b hbits))) (hbits + 8);
      bin2enc_loop data' ret len bits hbits
  end.

Definition bin2enc (data : list Z) : outcome str :=
  _ ← gnunet_assert (strlen tbl =? 64);
  let len := encoded_chars (length data) in
  ret ← GNUNET_malloc (Z.of_nat len + 1);
  ret ← mem_write ret len [0];
  '(ret, len, bits, hbits) ← bin2enc_loop data ret 0 0 0;
  ret ← (if 0 <? hbits then
           c ← of_option (tbl !! Z.to_nat (Z.land bits 63));
           mem_write ret len [c]
         else Ret ret);
  c_str ret.

Definition uri_loc_to_string (l : Location) : outcome (option str) :=
  keyhash ← hash_enc (chk_key (fi_chk (loc_fi l)));
  queryhash ← hash_enc (chk_query (fi_chk (loc_fi l)));
  peerId ← bin2enc (loc_peer l);
  peerSig ← bin2enc (contentSignature l);
  s ← GNUNET_asprintf (GNUNET_FS_URI_LOC_PREFIX ++ keyhash ++ cs "." ++ queryhash ++ cs "."
        ++ dec (GNUNET_ntohll (file_length (loc_fi l))) ++ cs "." ++ peerId ++ cs "." ++ peerSig
        ++ cs "." ++ dec (abs_value (expirationTime l)));
  Ret (Some s).

Definition GNUNET_FS_uri_to_string (uri : option GNUNET_FS_Uri) : outcome (option str) :=
  match uri with
  | None => Ret None
  | Some uri =>
      match uri with
      | ksk _ => uri_ksk_to_string uri
      | sks _ _ => uri_sks_to_string uri
      | chk _ => uri_chk_to_string uri
      | loc l => uri_loc_to_string l
      end
  end.

(** ** Operations on URIs *)

Definition is_ksk (uri : GNUNET_FS_Uri) : bool := match uri with ksk _ => true | _ => false end.
Definition GNUNET_FS_uri_test_ksk (uri : GNUNET_FS_Uri) : bool := is_ksk uri.
Definition GNUNET_FS_uri_test_sks (uri : GNUNET_FS_Uri) : bool :=
  match uri with sks _ _ => true | _ => false end.
Definition GNUNET_FS_uri_test_chk (uri : GNUNET_FS_Uri) : bool :=
  match uri with chk _ => true | _ => false end.
Definition GNUNET_FS_uri_test_loc (uri : GNUNET_FS_Uri) : bool :=
  match uri with loc _ => true | _ => false end.

(** The key for a map; [key] is what the caller's variable holds, which a keyword URI
    without keywords leaves as it is. *)
Definition GNUNET_FS_uri_to_key `{Gcrypt} (uri : GNUNET_FS_Uri) (key : GNUNET_HashCode)
  : GNUNET_HashCode :=
  match uri with
  | chk fi => chk_query (fi_chk fi)
  | sks _ identifier => GNUNET_CRYPTO_hash identifier
  | ksk [] => key
  | ksk (k :: _) => GNUNET_CRYPTO_hash k
  | loc l => GNUNET_CRYPTO_hash (chk_struct (loc_fi l) ++ loc_peer l)
  end.

Definition GNUNET_FS_uri_ksk_get_keyword_count (uri : GNUNET_FS_Uri) : Z :=
  match uri with ksk ks => Z.of_nat (length ks) | _ => 0 end.

(** [iterator] with its closure as a state; the result is the state and the number of
    keywords before the one that stopped the iteration. *)
Fixpoint get_keywords_loop {S : Type} (iterator : S -> str -> bool -> S * Z) (st : S) (i : Z)
  (ks : list str) : outcome (S * Z) :=
  match ks with
  | [] => Ret (st, i)
  | k :: ks' =>
      t ← keyword_text k;
      c ← keyword_char k;
      let '(st, r) := iterator st t (c =? PLUS) in
      if negb (r =? GNUNET_OK) then Ret (st, i) else get_keywords_loop iterator st (i + 1) ks'
  end.

Definition GNUNET_FS_uri_ksk_get_keywords {S : Type} (uri : GNUNET_FS_Uri)
  (iterator : option (S -> str -> bool -> S * Z)) (st : S) : outcome (S * Z) :=
  match uri, iterator with
  | ksk ks, None => Ret (st, Z.of_nat (length ks))
  | ksk ks, Some iterator => get_keywords_loop iterator st 0 ks
  | _, _ => Ret (st, -1)
  end.

(** The position of the first keyword with this text *)
Fixpoint keyword_index (ks : list str) (keyword : str) : outcome (option nat) :=
  match ks with
  | [] => Ret None
  | k :: ks' =>
      t ← keyword_text k;
      if streq t keyword then Ret (Some 0%nat)
      else
        r ← keyword_index ks' keyword;
        Ret (option_map S r)
  end.

Definition GNUNET_FS_uri_ksk_add_keyword (uri : GNUNET_FS_Uri) (keyword : str) (is_mandatory : bool)
  : outcome GNUNET_FS_Uri :=
  match uri with
  | ksk ks =>
      r ← keyword_index ks keyword;
      match r with
      | Some _ => Ret uri
      | None =>
          n ← GNUNET_asprintf ((if is_mandatory then PLUS else SPACE) :: keyword);
          _ ← GNUNET_malloc ((Z.of_nat (length ks) + 1) * 8);
          Ret (ksk (ks ++ [n]))
      end
  | _ => AssertFailed
  end.

(** The last keyword takes the place of the one removed. *)
Definition GNUNET_FS_uri_ksk_remove_keyword (uri : GNUNET_FS_Uri) (keyword : str)
  : outcome GNUNET_FS_Uri :=
  match uri with
  | ksk ks =>
      r ← keyword_index ks keyword;
      match r with
      | None => Ret uri
      | Some i =>
          last ← of_option (ks !! (length ks - 1)%nat);
          Ret (ksk (take (length ks - 1) (<[i := last]> ks)))
      end
  | _ => AssertFailed
  end.

Definition GNUNET_FS_uri_loc_get_peer_identity `{Gcrypt} (uri : GNUNET_FS_Uri)
  : option GNUNET_HashCode :=
  match uri with loc l => Some (GNUNET_CRYPTO_hash (loc_peer l)) | _ => None end.

Definition GNUNET_FS_uri_loc_get_expiration (uri : GNUNET_FS_Uri) : outcome GNUNET_TIME_Absolute :=
  match uri with loc l => Ret (expirationTime l) | _ => AssertFailed end.

Definition GNUNET_FS_uri_loc_get_uri (uri : GNUNET_FS_Uri) : option GNUNET_FS_Uri :=
  match uri with loc l => Some (chk (loc_fi l)) | _ => None end.

(** [keyfile] is the value of the option HOSTKEY, if it is set. *)
Definition GNUNET_FS_uri_loc_create `{Rsa} (baseUri : GNUNET_FS_Uri) (keyfile : option str)
  (expiration_time : GNUNET_TIME_Absolute) : option GNUNET_FS_Uri :=
  match baseUri, keyfile with
  | chk fi, Some keyfile =>
      match rsa_key_from_file keyfile with
      | None => None
      | Some my_private_key =>
          let my_public_key := rsa_key_get_public my_private_key in
          let ass := loc_assembly (abs_value expiration_time) fi my_public_key in
          Some (loc (mk_location fi my_public_key expiration_time (rsa_sign my_private_key ass)))
      end
  | _, _ => None
  end.

Definition GNUNET_FS_uri_sks_create `{Gcrypt} `{Rsa} (ns_key : rsa_key) (id : str)
  : outcome GNUNET_FS_Uri :=
  identifier ← GNUNET_strdup id;
  Ret (sks (GNUNET_CRYPTO_hash (rsa_key_get_public ns_key)) identifier).

Definition GNUNET_FS_uri_sks_create_from_nsid (nsid : GNUNET_HashCode) (id : str)
  : outcome GNUNET_FS_Uri :=
  identifier ← GNUNET_strdup id;
  Ret (sks nsid identifier).

Definition GNUNET_FS_uri_sks_get_namespace (uri : GNUNET_FS_Uri) : option GNUNET_HashCode :=
  match uri with sks ns _ => Some ns | _ => None end.

Definition GNUNET_FS_uri_sks_get_content_id (uri : GNUNET_FS_Uri) : outcome (option str) :=
  match uri with
  | sks _ identifier => s ← GNUNET_strdup identifier; Ret (Some s)
  | _ => Ret None
  end.

Definition GNUNET_FS_uri_chk_get_file_size (uri : GNUNET_FS_Uri) : outcome Z :=
  match uri with
  | chk fi => Ret (GNUNET_ntohll (file_length fi))
  | loc l => Ret (GNUNET_ntohll (file_length (loc_fi l)))
  | _ => AssertFailed
  end.

(** [GNUNET_strdup] of each string of an array *)
Fixpoint strdup_all (ks : list str) : outcome (list str) :=
  match ks with
  | [] => Ret []
  | k :: ks' =>
      k ← GNUNET_strdup k;
      ks' ← strdup_all ks';
      Ret (k :: ks')
  end.

Definition GNUNET_FS_uri_dup (uri : option GNUNET_FS_Uri) : outcome (option GNUNET_FS_Uri) :=
  match uri with
  | None => Ret None
  | Some (ksk ks) =>
      if GNUNET_MAX_MALLOC_CHECKED / 8 <=? Z.of_nat (length ks) then Ret None
      else
        ks ← strdup_all ks;
        Ret (Some (ksk ks))
  | Some (sks ns identifier) =>
      identifier ← GNUNET_strdup identifier;
      Ret (Some (sks ns identifier))
  | Some u => Ret (Some u)
  end.

(** The loop over the keywords of the second URI; [n1] is the number of keywords of the
    first, among which duplicates are looked for. *)
Fixpoint merge_loop (n1 : nat) (kl : list str) (ks : list str) : outcome (list str) :=
  match ks with
  | [] => Ret kl
  | kp :: ks' =>
      t ← keyword_text kp;
      c ← keyword_char kp;
      r ← keyword_index (take n1 kl) t;
      match r with
      | Some j =>
          let kl := if c =? PLUS then alter (fun k => PLUS :: drop 1 k) j kl else kl in
          merge_loop n1 kl ks'
      | None =>
          kp ← GNUNET_strdup kp;
          merge_loop n1 (kl ++ [kp]) ks'
      end
  end.

Definition GNUNET_FS_uri_ksk_merge (u1 u2 : option GNUNET_FS_Uri) : outcome (option GNUNET_FS_Uri) :=
  match u1, u2 with
  | None, None => Ret None
  | None, Some _ => GNUNET_FS_uri_dup u2
  | Some _, None => GNUNET_FS_uri_dup u1
  | Some (ksk k1), Some (ksk k2) =>
      _ ← GNUNET_malloc ((Z.of_nat (length k1) + Z.of_nat (length k2)) * 8);
      kl ← strdup_all k1;
      kl ← merge_loop (length k1) kl k2;
      Ret (Some (ksk kl))
  | Some _, Some _ => Ret None
  end.

(** [memcmp] of the start of [struct Location]: the file, the peer, the expiration time
    and four bytes of the signature *)
Definition location_prefix (l : Location) : list Z :=
  chk_struct (loc_fi l) ++ loc_peer l ++ host_bytes 8 (abs_value (expirationTime l))
  ++ take 4 (contentSignature l).

Definition GNUNET_FS_uri_test_equal (u1 u2 : GNUNET_FS_Uri) : bool :=
  match u1, u2 with
  | chk f1, chk f2 => bool_decide (chk_struct f1 = chk_struct f2)
  | sks n1 i1, sks n2 i2 => bool_decide (hash_bytes n1 = hash_bytes n2) && streq i1 i2
  | ksk k1, ksk k2 =>
      (length k1 =? length k2)%nat && forallb (fun k => existsb (streq k) k2) k1
  | loc l1, loc l2 => bool_decide (location_prefix l1 = location_prefix l2)
  | _, _ => false
  end.

(** ** Keyword URIs from the user's input *)

(** The first loop of [GNUNET_FS_uri_ksk_create]: the words, and whether a quote is open *)
Fixpoint count_words (s : str) (in_word saw_quote : bool) (n : Z) : Z * bool :=
  match s with
  | [] => (n, saw_quote)
  | c :: s' =>
      let '(in_word, n) :=
        if negb saw_quote && isspace c then (false, n)
        else if negb in_word then (true, n + 1) else (in_word, n) in
      count_words s' in_word (xorb saw_quote (c =? QUOTE)) n
  end.

(** The second loop: the words themselves; [w] is the word being read, backwards. *)
Fixpoint split_words (s : str) (in_word saw_quote : bool) (w : str) : list str :=
  match s with
  | [] => if in_word then [reverse w] else []
  | c :: s' =>
      if negb saw_quote && isspace c then
        (if in_word then [reverse w] else []) ++ split_words s' false saw_quote []
      else split_words s' true (xorb saw_quote (c =? QUOTE)) (c :: w)
  end.

(** One argument: a blank for an optional keyword, and no quotes *)
Definition keyword_of_arg (keyword : str) : outcome str :=
  c ← char_at keyword 0;
  val ← (if c =? PLUS then GNUNET_strdup keyword else GNUNET_asprintf (SPACE :: keyword));
  Ret (filter (fun c => c <> QUOTE) val).

Fixpoint keywords_of_args (argv : list str) : outcome (list str) :=
  match argv with
  | [] => Ret []
  | a :: argv' =>
      k ← keyword_of_arg a;
      ks ← keywords_of_args argv';
      Ret (k :: ks)
  end.

Section Create.
Context `{UpperCase} `{Rsa}.

Definition GNUNET_FS_uri_ksk_create_from_args (fuel : nat) (argv : list str)
  : option (outcome (option GNUNET_FS_Uri)) :=
  let new := Some (
    _ ← GNUNET_malloc (Z.of_nat (length argv) * 8);
    ks ← keywords_of_args argv;
    Ret (Some (ksk ks))) in
  match argv with
  | [] => Some (Ret None)
  | [a] =>
      if (strlen GNUNET_FS_URI_PREFIX <? strlen a) && has_prefix a GNUNET_FS_URI_PREFIX then
        r ← GNUNET_FS_uri_parse fuel (Some a);
        match r with
        | Ret (Some uri, _) => Some (Ret (Some uri))
        | Ret (None, _) => new
        | AssertFailed => Some AssertFailed
        | Undefined => Some Undefined
        end
      else new
  | _ => new
  end.

(** The URI and what is stored in [*emsg], if anything *)
Definition GNUNET_FS_uri_ksk_create (fuel : nat) (keywords : option str)
  : option (outcome (option GNUNET_FS_Uri * option str)) :=
  let fail msg := Some (m ← GNUNET_strdup msg; Ret (None, Some m)) in
  match keywords with
  | None => fail (cs "No keywords specified!" ++ [LF])
  | Some keywords =>
      match GNUNET_strdup keywords with
      | Ret searchString =>
          let '(num_Words, saw_quote) := count_words searchString false false 0 in
          if num_Words =? 0 then fail (cs "No keywords specified!" ++ [LF])
          else if saw_quote then fail (cs "Number of double-quotes not balanced!" ++ [LF])
          else
            match GNUNET_malloc (num_Words * 8) with
            | Ret _ =>
                let keywordarr := split_words searchString false saw_quote [] in
                if num_Words <? Z.of_nat (length keywordarr) then Some Undefined
                else
                  r ← GNUNET_FS_uri_ksk_create_from_args fuel keywordarr;
                  Some (u ← r; Ret (u, None))
            | AssertFailed => Some AssertFailed
            | Undefined => Some Undefined
            end
      | AssertFailed => Some AssertFailed
      | Undefined => Some Undefined
      end
  end.

End Create.

(** ** Keywords from meta data *)

(** libunistring and the character set of the locale.  [u8_next] gives what follows the
    first character of a string, and [None] at its end; [u8_check] tells whether the
    bytes are valid UTF-8; the conversions give [None] when they fail. *)
Class Unistring := {
  u8_next : str -> option str;
  u8_check : str -> bool;
  u8_strconv_from_encoding : str -> option str;
  u8_tolower : str -> option str;
  u8_next_end : u8_next [] = None;
  u8_next_shorter : forall s r, u8_next s = Some r -> (length r < length s)%nat
}.

Section FromMetaData.
Context `{Extractor} `{Unistring}.

(** [array[index] = nkword] in an array of [cap] entries of which [array] are filled *)
Definition insert_non_mandatory_keyword (cap : Z) (s : str) (array : list str)
  : outcome (list str) :=
  nkword ← GNUNET_asprintf (SPACE :: s);
  if Z.of_nat (length array) <? cap then Ret (array ++ [nkword]) else Undefined.

(** The loop goes from the last entry to the first. *)
Definition find_duplicate (s : str) (array : list str) : outcome bool :=
  r ← keyword_index (reverse array) s;
  Ret (match r with Some _ => true | None => false end).

Definition add_new (cap : Z) (s : str) (array : list str) : outcome (list str) :=
  dup ← find_duplicate s array;
  if (dup : bool) then Ret array else insert_non_mandatory_keyword cap s array.

(** The converted string is freed without having been used. *)
Definition normalize_metadata (format : Z) (data : str) : outcome (option str) :=
  let format :=
    if (format =? EXTRACTOR_METAFORMAT_UTF8) && negb (u8_check data)
    then EXTRACTOR_METAFORMAT_C_STRING else format in
  if (format =? EXTRACTOR_METAFORMAT_C_STRING)
     && match u8_strconv_from_encoding data with None => true | Some _ => false end
  then Ret None
  else
    match u8_tolower data with
    | None => Ret None
    | Some normalized =>
        s ← alloc_str (strlen normalized + 1) normalized;
        Ret (Some s)
    end.

(** [for (count = 0; s != NULL; count++)]; [None] is a loop that is still running *)
Fixpoint u8_count_loop (fuel : nat) (s : option str) (count : Z) : option Z :=
  match s with
  | None => Some count
  | Some s =>
      match fuel with
      | O => None
      | S fuel' => u8_count_loop fuel' (u8_next s) (count + 1)
      end
  end.

Definition u8_strcount (s : str) : option Z :=
  match s with
  | [] => Some 0
  | _ => (fun n => n - 1) <$> u8_count_loop (length s + 1) (Some s) 0
  end.

Definition keyword_long_enough (s : str) : outcome bool :=
  n ← of_option (u8_strcount s);
  Ret (2 <? n).

(** A token and its normalized form, added unless they are there; without an array,
    the token is counted. *)
Definition add_token (cap : Z) (p : str) (array : list str) : outcome (list str) :=
  array ← add_new cap p array;
  normalized ← normalize_metadata EXTRACTOR_METAFORMAT_UTF8 p;
  match normalized with
  | None => Ret array
  | Some n => add_new cap n array
  end.

Fixpoint add_tokens (cap : Z) (tokens : list str) (array : list str) : outcome (list str) :=
  match tokens with
  | [] => Ret array
  | p :: tokens' =>
      long ← keyword_long_enough p;
      array ← (if (long : bool) then add_token cap p array else Ret array);
      add_tokens cap tokens' array
  end.

Fixpoint count_tokens (tokens : list str) (n : Z) : outcome Z :=
  match tokens with
  | [] => Ret n
  | p :: tokens' =>
      long ← keyword_long_enough p;
      count_tokens tokens' (if (long : bool) then n + 1 else n)
  end.

Definition is_open (c : Z) : bool := (c =? 91) || (c =? 123) || (c =? 40).
Definition is_close (c : Z) : bool := (c =? 93) || (c =? 125) || (c =? 41).
Definition parens_match (o c : Z) : bool :=
  ((o =? 91) && (c =? 93)) || ((o =? 123) && (c =? 125)) || ((o =? 40) && (c =? 41)).

(** The texts between an opening parenthesis and the next closing one, where the two match
    and the text is not empty: what the loop over [strpbrk] looks at *)
Fixpoint paren_tokens (s : str) : list str :=
  match s with
  | [] => []
  | c :: s' =>
      (if is_open c then
         match span (length s') (fun c => negb (is_close c)) s' with
         | ((_ :: _) as text, close :: _) => if parens_match c close then [text] else []
         | _ => []
         end
       else [])
      ++ paren_tokens s'
  end.

(** [TOKENS]: where to break up keywords *)
Definition TOKENS : str := cs "_. /-!?#&+@'\;:,()[]{}$<>|" ++ [QUOTE].

(** [strtok] with a set of delimiters; [w] is the token being read, backwards. *)
Fixpoint strtok_set (w : str) (s : str) : list str :=
  match s with
  | [] => match w with [] => [] | _ => [reverse w] end
  | c :: s' =>
      if bool_decide (c ∈ TOKENS)
      then match w with [] => strtok_set [] s' | _ => reverse w :: strtok_set [] s' end
      else strtok_set (c :: w) s'
  end.

Definition get_keywords_from_parens (s : str) (array : option (Z * list str))
  : outcome (Z * list str) :=
  ss ← GNUNET_strdup s;
  match array with
  | None => n ← count_tokens (paren_tokens ss) 0; Ret (n, [])
  | Some (cap, array) =>
      a ← add_tokens cap (paren_tokens ss) array;
      Ret (Z.of_nat (length a - length array), a)
  end.

Definition get_keywords_from_tokens (s : str) (array : option (Z * list str))
  : outcome (Z * list str) :=
  ss ← GNUNET_strdup s;
  match array with
  | None => n ← count_tokens (strtok_set [] ss) 0; Ret (n, [])
  | Some (cap, array) =>
      a ← add_tokens cap (strtok_set [] ss) array;
      Ret (Z.of_nat (length a - length array), a)
  end.

(** The iterator over the meta data; the state is the array. *)
Definition gather_uri_data (cap : Z) (array : list str) (i : MetaItem) : outcome (list str * Z) :=
  if negb (is_text (item_format i)) then Ret (array, 0)
  else
    data ← c_str (item_data i);
    long ← keyword_long_enough data;
    if negb long then Ret (array, 0)
    else
      normalized_data ← normalize_metadata (item_format i) data;
      array ← add_new cap data array;
      match normalized_data with
      | None => Ret (array, 0)
      | Some n =>
          array ← add_new cap n array;
          Ret (array, 0)
      end.

(** [while (NULL != (ss = strstr (filename, DIR_SEPARATOR_STR))) filename = ss + 1] *)
Definition base_name (full_name : str) : str :=
  match strrchr full_name SLASH with
  | Some r => drop 1 r
  | None => full_name
  end.

Definition GNUNET_FS_uri_ksk_create_from_meta_data (md : option GNUNET_CONTAINER_MetaData)
  : outcome (option GNUNET_FS_Uri) :=
  match md with
  | None => Ret None
  | Some md' =>
      '(_, ent) ← GNUNET_CONTAINER_meta_data_iterate (S:=unit) md None tt;
      if negb (0 <? ent) then Ret (Some (ksk []))
      else
        full_name ← GNUNET_CONTAINER_meta_data_get_first_by_types md
                      [EXTRACTOR_METATYPE_GNUNET_ORIGINAL_FILENAME];
        let filename := base_name (default [] full_name) in
        '(tok_keywords, paren_keywords) ←
          match full_name with
          | None => Ret (0, 0)
          | Some _ =>
              '(t, _) ← get_keywords_from_tokens filename None;
              '(p, _) ← get_keywords_from_parens filename None;
              Ret (t, p)
          end;
        let cap := (ent + tok_keywords + paren_keywords) * 2 in
        _ ← GNUNET_malloc (8 * cap);
        '(array, _) ← GNUNET_CONTAINER_meta_data_iterate md (Some (gather_uri_data cap)) [];
        array ← (if 0 <? tok_keywords
                 then '(_, a) ← get_keywords_from_tokens filename (Some (cap, array)); Ret a
                 else Ret array);
        array ← (if 0 <? paren_keywords
                 then '(_, a) ← get_keywords_from_parens filename (Some (cap, array)); Ret a
                 else Ret array);
        Ret (Some (ksk array))
  end.

End FromMetaData.
