(* ===== verification/FsUriSpec.v ===== *)
(** * URIs and their text

    The text of a URI and its parsing are inverse to each other
    ([fs_uri_roundtrip]): the lemmas treat the binary data of a location URI (numbers in
    base 64 and base 256), the in-place decoding of keywords and the backward loop that
    splits them.  A keyword URI that ends with a quote sends that loop into a cycle
    ([ksk_parse_quote_diverges]).  The keywords found in meta data fit the array that is
    allocated for them ([ksk_from_meta_data_fits]). *)

From Stdlib Require Import ZArith Lia String.
From stdpp Require Import base list numbers.
From S2P Require Import Prelude Endian Time Crc Base32 Hash MetaData MetaDataSpec CString Strings.
From S2P Require Import CryptoAes FsTree FsUri.
Local Open Scope Z_scope.

(** ** Numbers in base 64 and base 256, least significant digit first *)

Fixpoint le_value (b : Z) (l : list Z) : Z :=
  match l with
  | [] => 0
  | d :: l' => d + b * le_value b l'
  end.

Definition is_digits (b : Z) (l : list Z) : Prop := Forall (fun d => 0 <= d < b) l.

Lemma le_value_app b l1 l2 :
  le_value b (l1 ++ l2) = le_value b l1 + b ^ Z.of_nat (length l1) * le_value b l2.
Proof.
  induction l1 as [|d l1 IH]; cbn [le_value app length]; [ rewrite Z.pow_0_r; lia | ].
  rewrite IH, Nat2Z.inj_succ, Z.pow_succ_r by lia. ring.
Qed.

Lemma le_value_range b l : 0 < b -> is_digits b l -> 0 <= le_value b l < b ^ Z.of_nat (length l).
Proof.
  intros Hb. induction 1 as [|d l Hd _ IH]; cbn [le_value length]; [ rewrite Z.pow_0_r; lia | ].
  rewrite Nat2Z.inj_succ, Z.pow_succ_r by lia. nia.
Qed.

Lemma le_value_inj b l1 l2 :
  0 < b -> is_digits b l1 -> is_digits b l2 -> length l1 = length l2 ->
  le_value b l1 = le_value b l2 -> l1 = l2.
Proof.
  intros Hb H1. revert l2. induction H1 as [|d l1 Hd H1 IH]; intros [|d2 l2] H2 Hl Hv; try done.
  apply Forall_cons_iff in H2 as [Hd2 H2]. cbn [le_value] in Hv.
  assert (Hq : le_value b l1 = le_value b l2).
  { assert (d - d2 = b * (le_value b l2 - le_value b l1)) by lia. nia. }
  f_equal; [ nia | ]. apply IH; [ done | cbn in Hl; lia | done ].
Qed.

(** A partial register above the digits: adding the next byte, removing the next digit *)
Lemma lor_shift_in bits hbits v :
  0 <= hbits -> 0 <= bits < 2 ^ hbits -> 0 <= v ->
  Z.lor bits (Z.shiftl v hbits) = bits + v * 2 ^ hbits.
Proof.
  intros Hh Hb Hv. rewrite Z.lor_comm, (lor_add_shift v bits hbits) by lia. lia.
Qed.

Lemma tbl_c2v v : 0 <= v < 64 ->
  exists c, tbl !! Z.to_nat v = Some c /\ c2v c = v /\ c <> 0 /\ c <> DOT.
Proof.
  intros Hv.
  assert (Hall : Forall (fun n => exists c, tbl !! n = Some c /\ c2v c = Z.of_nat n /\ c <> 0 /\ c <> DOT)
    (seq 0 64)).
  { repeat (apply List.Forall_cons; [ eexists; split; [ reflexivity | ]; split; [ reflexivity | ];
      split; discriminate | ]).
    constructor. }
  rewrite List.Forall_forall in Hall. destruct (Hall (Z.to_nat v)) as (c & Hc & Hv' & Hn);
    [ apply in_seq; lia | ].
  exists c. rewrite Z2Nat.id in Hv' by lia. auto.
Qed.

(** *** Encoding *)

Definition tbl_char (v : Z) : Z := nth (Z.to_nat v) tbl 0.
Definition tbl_text (vals : list Z) : str := tbl_char <$> vals.

Lemma tbl_char_spec v : 0 <= v < 64 ->
  tbl !! Z.to_nat v = Some (tbl_char v) /\ c2v (tbl_char v) = v /\ tbl_char v <> 0 /\ tbl_char v <> DOT.
Proof.
  intros Hv. destruct (tbl_c2v v Hv) as (c & Hc & H). unfold tbl_char.
  rewrite (nth_lookup_Some _ _ _ _ Hc). auto.
Qed.

Lemma emit_ok fuel vals k bits hbits :
  0 <= hbits < 6 + 6 * Z.of_nat fuel -> 0 <= bits < 2 ^ hbits -> hbits < 6 * Z.of_nat k + 6 ->
  exists new bits' hbits' k',
    bin2enc_emit fuel (tbl_text vals ++ replicate k 0) (length vals) bits hbits
    = Ret (tbl_text (vals ++ new) ++ replicate k' 0, length (vals ++ new), bits', hbits')
    /\ k = (length new + k')%nat /\ 0 <= hbits' < 6 /\ 0 <= bits' < 2 ^ hbits'
    /\ hbits = hbits' + 6 * Z.of_nat (length new) /\ is_digits 64 new
    /\ bits = le_value 64 new + 64 ^ Z.of_nat (length new) * bits'.
Proof.
  revert vals k bits hbits. induction fuel as [|fuel IH]; intros vals k bits hbits Hh Hb Hk;
    cbn [bin2enc_emit].
  - rewrite (proj2 (Z.leb_gt _ _)) by lia. exists [], bits, hbits, k. rewrite app_nil_r.
    cbn [length le_value]. repeat split; try lia. constructor.
  - destruct (6 <=? hbits) eqn:E.
    2: { apply Z.leb_gt in E. exists [], bits, hbits, k. rewrite app_nil_r.
         cbn [length le_value]. repeat split; try lia. constructor. }
    apply Z.leb_le in E. change 63 with (Z.ones 6). rewrite Z.land_ones by lia.
    set (v := bits mod 2 ^ 6).
    assert (Hv : 0 <= v < 64) by (apply Z.mod_pos_bound; lia).
    destruct (tbl_char_spec v Hv) as (Hc & _). rewrite Hc.
    rewrite (bind_ret (of_option (Some (tbl_char v))) _ _ eq_refl).
    destruct k as [|k]; [ lia | ].
    replace (length vals) with (length (tbl_text vals)) by apply length_fmap.
    rewrite (bind_ret _ _ _ (write_zeros (tbl_text vals) [tbl_char v] k)).
    rewrite Z.shiftr_div_pow2 by lia.
    assert (Hq : 0 <= bits / 2 ^ 6 < 2 ^ (hbits - 6)).
    { split; [ apply Z.div_pos; lia | ]. apply Z.div_lt_upper_bound; [ lia | ].
      rewrite <- Z.pow_add_r by lia. replace (6 + (hbits - 6)) with hbits by lia. lia. }
    destruct (IH (vals ++ [v]) k (bits / 2 ^ 6) (hbits - 6) ltac:(lia) Hq ltac:(lia))
      as (new & bits' & hbits' & k' & Heq & Hk' & Hh' & Hb' & Hhb & Hd & Hval).
    exists (v :: new), bits', hbits', k'.
    unfold tbl_text in *. rewrite fmap_app, length_app in Heq. cbn [length fmap list_fmap] in Heq.
    rewrite length_fmap. rewrite Nat.add_1_r in Heq. rewrite Heq, <- !app_assoc. cbn [app length].
    split; [ done | ]. split; [ lia | ]. split; [ done | ]. split; [ done | ].
    split; [ lia | ]. split; [ by constructor | ]. cbn [le_value].
    rewrite Nat2Z.inj_succ, Z.pow_succ_r by lia.
    pose proof (Z.div_mod bits (2 ^ 6) ltac:(lia)) as Hdm. fold v in Hdm.
    change (2 ^ 6) with 64 in *. rewrite Hval in Hdm. lia.
Qed.

Lemma bin2enc_loop_ok data vals k bits hbits :
  is_bytes data -> 0 <= hbits < 6 -> 0 <= bits < 2 ^ hbits ->
  8 * Z.of_nat (length data) + hbits < 6 * Z.of_nat k + 6 ->
  exists new bits' hbits' k',
    bin2enc_loop data (tbl_text vals ++ replicate k 0) (length vals) bits hbits
    = Ret (tbl_text (vals ++ new) ++ replicate k' 0, length (vals ++ new), bits', hbits')
    /\ k = (length new + k')%nat /\ 0 <= hbits' < 6 /\ 0 <= bits' < 2 ^ hbits'
    /\ 8 * Z.of_nat (length data) + hbits = hbits' + 6 * Z.of_nat (length new) /\ is_digits 64 new
    /\ bits + 2 ^ hbits * le_value 256 data
       = le_value 64 new + 64 ^ Z.of_nat (length new) * bits'.
Proof.
  intros Hd. revert vals k bits hbits. induction Hd as [|b data Hb8 Hd IH];
    intros vals k bits hbits Hh Hb Hk; cbn [bin2enc_loop].
  { exists [], bits, hbits, k. rewrite app_nil_r. cbn [length le_value].
    repeat split; try lia. constructor. }
  unfold is_u8 in Hb8. change (2 ^ 8) with 256 in Hb8.
  assert (Hpow : 1 <= 2 ^ hbits <= 32).
  { split; [ apply (Z.pow_le_mono_r 2 0); lia | apply (Z.pow_le_mono_r 2 hbits 5); lia ]. }
  assert (Hsh : u32 (Z.shiftl b hbits) = Z.shiftl b hbits).
  { apply u32_small. unfold is_u32. rewrite Z.shiftl_mul_pow2 by lia. nia. }
  rewrite Hsh, lor_shift_in by lia. cbn [length] in Hk.
  assert (Hp8 : 2 ^ (hbits + 8) = 256 * 2 ^ hbits) by (rewrite Z.pow_add_r by lia; lia).
  destruct (emit_ok 2 vals k (bits + b * 2 ^ hbits) (hbits + 8) ltac:(lia) ltac:(nia) ltac:(lia))
    as (new1 & bits1 & hbits1 & k1 & Heq1 & Hk1 & Hh1 & Hb1 & Hhb1 & Hd1 & Hval1).
  rewrite (bind_ret _ _ _ Heq1). cbv beta iota.
  destruct (IH (vals ++ new1) k1 bits1 hbits1 Hh1 Hb1 ltac:(lia))
    as (new2 & bits2 & hbits2 & k2 & Heq2 & Hk2 & Hh2 & Hb2 & Hhb2 & Hd2 & Hval2).
  exists (new1 ++ new2), bits2, hbits2, k2. rewrite Heq2, <- app_assoc.
  split; [ done | ]. rewrite length_app. split; [ lia | ]. split; [ done | ]. split; [ done | ].
  split; [ cbn [length]; lia | ]. split; [ by apply Forall_app | ].
  rewrite le_value_app, Nat2Z.inj_add, Z.pow_add_r by lia. cbn [le_value].
  assert (Hpe : 2 ^ hbits * 256 = 2 ^ hbits1 * 64 ^ Z.of_nat (length new1)).
  { change 64 with (2 ^ 6). rewrite <- Z.pow_mul_r, <- Z.pow_add_r by lia.
    change 256 with (2 ^ 8). rewrite <- Z.pow_add_r by lia. f_equal. lia. }
  transitivity ((bits + b * 2 ^ hbits) + (2 ^ hbits * 256) * le_value 256 data); [ ring | ].
  rewrite Hval1, Hpe.
  transitivity (le_value 64 new1 + 64 ^ Z.of_nat (length new1)
    * (bits1 + 2 ^ hbits1 * le_value 256 data)); [ ring | ].
  rewrite Hval2. ring.
Qed.

Lemma encoded_chars_spec n :
  8 * Z.of_nat n <= 6 * Z.of_nat (encoded_chars n) < 8 * Z.of_nat n + 6.
Proof.
  unfold encoded_chars.
  pose proof (Nat.div_mod (n * 8) 6 ltac:(lia)) as Hdm.
  pose proof (Nat.mod_upper_bound (n * 8) 6 ltac:(lia)) as Hm.
  destruct (Nat.eqb_spec ((n * 8) mod 6) 0); lia.
Qed.

Lemma tbl_text_cstr vals : is_digits 64 vals -> is_cstr (tbl_text vals).
Proof.
  intros Hv. unfold is_cstr, tbl_text. apply Forall_fmap. eapply Forall_impl; [ | exact Hv ].
  cbn. intros v Hv'. by apply tbl_char_spec.
Qed.

Lemma bin2enc_ok data :
  is_bytes data -> can_alloc (Z.of_nat (encoded_chars (length data)) + 1) ->
  exists vals, bin2enc data = Ret (tbl_text vals) /\ is_digits 64 vals
    /\ length vals = encoded_chars (length data) /\ le_value 64 vals = le_value 256 data.
Proof.
  intros Hd Ha. pose proof (encoded_chars_spec (length data)) as Hn.
  set (n := encoded_chars (length data)) in *. unfold bin2enc.
  rewrite (bind_ret (gnunet_assert (strlen tbl =? 64)) tt) by reflexivity. fold n. cbv zeta.
  rewrite (bind_ret _ _ _ (GNUNET_malloc_ok _ Ha)).
  replace (Z.to_nat (Z.of_nat n + 1)) with (n + 1)%nat by lia.
  assert (Hz : mem_write (replicate (n + 1) 0) n [0] = Ret (replicate (n + 1) 0)).
  { pose proof (write_zeros (replicate n 0) [0] 0) as Hw. rewrite length_replicate in Hw.
    cbn [length Nat.add replicate] in Hw. rewrite app_nil_r in Hw. by rewrite replicate_add. }
  rewrite (bind_ret _ _ _ Hz).
  destruct (bin2enc_loop_ok data [] (n + 1) 0 0 Hd ltac:(lia) ltac:(cbn; lia) ltac:(lia))
    as (vals & bits & hbits & k & Heq & Hk & Hh & Hb & Hhb & Hv & Hval).
  change (tbl_text [] ++ replicate (n + 1) 0) with (replicate (n + 1) 0) in Heq.
  cbn [app length] in Heq. rewrite (bind_ret _ _ _ Heq). cbv beta iota.
  rewrite Z.add_0_l, Z.pow_0_r, Z.mul_1_l in Hval. rewrite Z.add_0_r in Hhb.
  destruct (0 <? hbits) eqn:E.
  - apply Z.ltb_lt in E. assert (Hlen : (length vals + 1 = n)%nat) by lia.
    assert (Hb64 : 0 <= bits < 64)
      by (pose proof (Z.pow_le_mono_r 2 hbits 5 ltac:(lia) ltac:(lia)); lia).
    change 63 with (Z.ones 6). rewrite Z.land_ones by lia. change (2 ^ 6) with 64.
    rewrite Z.mod_small by lia. destruct (tbl_char_spec bits Hb64) as (Hc & _). rewrite Hc.
    rewrite (bind_ret (of_option (Some (tbl_char bits))) _ _ eq_refl).
    destruct k as [|[|k]]; [ lia | lia | ]. destruct k as [|k]; [ | lia ].
    replace (length vals) with (length (tbl_text vals)) by apply length_fmap.
    rewrite (bind_ret _ _ _ (write_zeros (tbl_text vals) [tbl_char bits] 1)).
    exists (vals ++ [bits]). assert (Hd64 : is_digits 64 (vals ++ [bits]))
      by (apply Forall_app; split; [ done | constructor; [ done | constructor ] ]).
    split; [ | split; [ done | split; [ rewrite length_app; cbn [length]; lia | ] ] ].
    + change (tbl_text vals ++ [tbl_char bits]) with (tbl_text vals ++ tbl_text [bits]).
      unfold tbl_text at 1 2. rewrite <- fmap_app. exact (c_str_terminated _ [] (tbl_text_cstr _ Hd64)).
    + rewrite le_value_app. cbn [le_value]. lia.
  - apply Z.ltb_ge in E. assert (hbits = 0) as -> by lia. change (2 ^ 0) with 1 in Hb.
    assert (bits = 0) as -> by lia. exists vals. rewrite (bind_ret _ _ _ eq_refl).
    split; [ | split; [ done | split; [ lia | lia ] ] ].
    destruct k as [|k]; [ lia | ]. exact (c_str_terminated _ (replicate k 0) (tbl_text_cstr _ Hv)).
Qed.

(** *** Decoding *)

Lemma char_at_tbl vals rest len v :
  vals !! len = Some v -> char_at (tbl_text vals ++ rest) len = Ret (tbl_char v).
Proof.
  intros Hv. unfold char_at. rewrite <- app_assoc, lookup_app_l
    by (unfold tbl_text; rewrite length_fmap; eauto using lookup_lt_Some).
  unfold tbl_text. by rewrite list_lookup_fmap, Hv.
Qed.

Lemma fill_ok fuel vals rest len bits hbits :
  is_digits 64 vals -> 0 <= hbits -> 8 <= hbits + 6 * Z.of_nat fuel -> hbits < 14 ->
  0 <= bits < 2 ^ hbits -> 8 - hbits <= 6 * (Z.of_nat (length vals) - Z.of_nat len) ->
  exists len' bits' hbits',
    enc2bin_fill fuel (tbl_text vals ++ rest) len bits hbits = Ret (len', bits', hbits')
    /\ (len <= len')%nat /\ 8 <= hbits' < 14 /\ 0 <= bits' < 2 ^ hbits'
    /\ hbits' = hbits + 6 * (Z.of_nat len' - Z.of_nat len)
    /\ (hbits < 8 -> (len' <= length vals)%nat)
    /\ bits' = bits + 2 ^ hbits * le_value 64 (take (len' - len) (drop len vals)).
Proof.
  intros Hd. revert len bits hbits. induction fuel as [|fuel IH];
    intros len bits hbits Hh Hf H14 Hb Hlen; cbn [enc2bin_fill].
  - rewrite (proj2 (Z.ltb_ge _ _)) by lia. exists len, bits, hbits. rewrite Nat.sub_diag.
    rewrite take_0. cbn [le_value]. repeat split; lia.
  - destruct (hbits <? 8) eqn:E.
    2: { apply Z.ltb_ge in E. exists len, bits, hbits. rewrite Nat.sub_diag.
         rewrite take_0. cbn [le_value]. repeat split; lia. }
    apply Z.ltb_lt in E.
    destruct (lookup_lt_is_Some_2 vals len ltac:(lia)) as [v Hv].
    assert (Hv64 : 0 <= v < 64) by exact (Forall_lookup_1 _ _ _ _ Hd Hv).
    rewrite (bind_ret _ _ _ (char_at_tbl vals rest len v Hv)).
    destruct (tbl_char_spec v Hv64) as (_ & -> & _).
    assert (Hp : 1 <= 2 ^ hbits <= 128).
    { split; [ apply (Z.pow_le_mono_r 2 0); lia | apply (Z.pow_le_mono_r 2 hbits 7); lia ]. }
    assert (Hsh : u32 (Z.shiftl v hbits) = Z.shiftl v hbits).
    { apply u32_small. unfold is_u32. rewrite Z.shiftl_mul_pow2 by lia. nia. }
    rewrite Hsh, lor_shift_in by lia.
    assert (Hp6 : 2 ^ (hbits + 6) = 64 * 2 ^ hbits) by (rewrite Z.pow_add_r by lia; lia).
    destruct (IH (S len) (bits + v * 2 ^ hbits) (hbits + 6) ltac:(lia) ltac:(lia) ltac:(lia)
      ltac:(nia) ltac:(lia)) as (len' & bits' & hbits' & Heq & Hle & Hh' & Hb' & Hhb & Hin & Hval).
    exists len', bits', hbits'. split; [ done | ]. split; [ lia | ]. split; [ done | ].
    split; [ done | ]. split; [ lia | ].
    split.
    { intros _. pose proof (lookup_lt_Some _ _ _ Hv). destruct (decide (hbits + 6 < 8)); [ auto | lia ]. }
    rewrite (drop_S vals v len Hv). replace (len' - len)%nat with (S (len' - S len)) by lia.
    cbn [take le_value]. rewrite Hval, Hp6. ring.
Qed.

Lemma enc2bin_loop_ok n vals rest len bits hbits out :
  is_digits 64 vals -> 0 <= hbits < 8 -> 0 <= bits < 2 ^ hbits ->
  hbits + 8 * Z.of_nat (length out) = 6 * Z.of_nat len -> (len <= length vals)%nat ->
  8 * Z.of_nat n - hbits <= 6 * (Z.of_nat (length vals) - Z.of_nat len) ->
  is_bytes out ->
  le_value 256 out + 256 ^ Z.of_nat (length out) * bits = le_value 64 (take len vals) ->
  exists len' out' bits' hbits',
    enc2bin_loop n (tbl_text vals ++ rest) len bits hbits out = Ret (len', out')
    /\ (len' <= length vals)%nat /\ length out' = (length out + n)%nat /\ is_bytes out'
    /\ 0 <= hbits' < 8 /\ hbits' + 8 * Z.of_nat (length out') = 6 * Z.of_nat len'
    /\ (n <> 0%nat -> hbits' < 6) /\ 0 <= bits'
    /\ le_value 256 out' + 256 ^ Z.of_nat (length out') * bits' = le_value 64 (take len' vals).
Proof.
  intros Hd. revert len bits hbits out. induction n as [|n IH];
    intros len bits hbits out Hh Hb Hpos Hle Hleft Hout Hval; cbn [enc2bin_loop].
  { exists len, out, bits, hbits. repeat split; try done; lia. }
  destruct (fill_ok 2 vals rest len bits hbits Hd ltac:(lia) ltac:(lia) ltac:(lia) Hb ltac:(lia))
    as (len1 & bits1 & hbits1 & Heq & Hle1 & Hh1 & Hb1 & Hhb1 & Hin1 & Hval1).
  rewrite (bind_ret _ _ _ Heq). cbv beta iota. rewrite Z.shiftr_div_pow2 by lia.
  assert (Hp : 2 ^ hbits1 = 256 * 2 ^ (hbits1 - 8)).
  { change 256 with (2 ^ 8). rewrite <- Z.pow_add_r by lia. f_equal. lia. }
  assert (Hlast : le_value 256 (out ++ [u8 bits1])
      + 256 ^ Z.of_nat (length (out ++ [u8 bits1])) * (bits1 / 2 ^ 8) = le_value 64 (take len1 vals)).
  { rewrite le_value_app, length_app. cbn [le_value length].
    replace (Z.of_nat (length out + 1)) with (Z.succ (Z.of_nat (length out))) by lia.
    rewrite Z.pow_succ_r by lia. unfold u8. change (2 ^ 8) with 256.
    pose proof (Z.div_mod bits1 256 ltac:(lia)) as Hdm.
    transitivity (le_value 256 out + 256 ^ Z.of_nat (length out) * bits1);
      [ rewrite Hdm at 3; ring | ].
    rewrite Hval1. replace len1 with (len + (len1 - len))%nat at 2 by lia.
    rewrite <- take_take_drop, le_value_app, <- Hval, length_take, Nat.min_l by done.
    transitivity (le_value 256 out + 256 ^ Z.of_nat (length out) * bits
      + (256 ^ Z.of_nat (length out) * 2 ^ hbits) * le_value 64 (take (len1 - len) (drop len vals)));
      [ ring | ].
    f_equal. f_equal. change 256 with (2 ^ 8). change 64 with (2 ^ 6).
    rewrite <- !Z.pow_mul_r, <- Z.pow_add_r by lia. f_equal. lia. }
  destruct (IH len1 (bits1 / 2 ^ 8) (hbits1 - 8) (out ++ [u8 bits1]))
    as (len' & out' & bits' & hbits' & He & H1 & H2 & H3 & H4 & H5 & H6 & H7 & H8).
  - lia.
  - split; [ apply Z.div_pos; lia | apply Z.div_lt_upper_bound; lia ].
  - rewrite length_app. cbn [length]. lia.
  - apply Hin1. lia.
  - lia.
  - apply is_bytes_app. split; [ done | ]. apply is_bytes_cons. split; [ apply u8_range | constructor ].
  - exact Hlast.
  - exists len', out', bits', hbits'. split; [ done | ]. split; [ done | ].
    split; [ rewrite H2, length_app; cbn [length]; lia | ]. repeat split; try done; try lia.
    intros _. destruct n as [|n]; [ | apply H6; lia ].
    cbn [enc2bin_loop] in He. injection He as <- <-. rewrite length_app in H5. cbn [length] in H5. lia.
Qed.

(** The decoder inverts the encoder, whatever follows in the input. *)
Lemma enc2bin_bin2enc vals data rest :
  is_digits 64 vals -> length vals = encoded_chars (length data) -> is_bytes data ->
  le_value 64 vals = le_value 256 data ->
  enc2bin (tbl_text vals ++ rest) (length data) = Ret (Some (encoded_chars (length data), data)).
Proof.
  intros Hd Hl Hb Hval. pose proof (encoded_chars_spec (length data)) as Hn.
  unfold enc2bin. rewrite length_app. unfold tbl_text at 1. rewrite length_fmap, Hl.
  rewrite (proj2 (Nat.ltb_ge _ _)) by lia.
  destruct (enc2bin_loop_ok (length data) vals rest 0 0 0 [] Hd ltac:(lia) ltac:(cbn; lia)
    ltac:(cbn; lia) ltac:(lia) ltac:(lia) ltac:(constructor) ltac:(by rewrite take_0))
    as (len & out & bits & hbits & Heq & Hle & Hlen & Hob & Hh & Hpos & Hh6 & Hb0 & Hv).
  rewrite (bind_ret _ _ _ Heq). cbn [length Nat.add] in Hlen.
  destruct (decide (length data = 0%nat)) as [H0|H0].
  - destruct data; [ | done ]. cbn in Hl. destruct out; [ | done ]. cbn in Hpos.
    assert (len = 0%nat) by lia. by subst len.
  - specialize (Hh6 H0). assert (len = encoded_chars (length data)) as -> by lia.
    rewrite take_ge in Hv by lia. rewrite Hval in Hv.
    pose proof (le_value_range 256 data ltac:(lia) Hb) as Hr.
    pose proof (le_value_range 256 out ltac:(lia) Hob) as Hr2. rewrite Hlen in *.
    assert (bits = 0) as -> by nia.
    do 3 f_equal. apply (le_value_inj 256); [ lia | exact Hob | exact Hb | done | lia ].
Qed.

(** ** Fields of the text *)

(** Arithmetic of lengths, with the lengths of the prefixes *)
Ltac uri_lia :=
  rewrite ?length_app;
  change (length GNUNET_FS_URI_CHK_PREFIX) with 16%nat in *;
  change (length GNUNET_FS_URI_SKS_PREFIX) with 16%nat in *;
  change (length GNUNET_FS_URI_KSK_PREFIX) with 16%nat in *;
  change (length GNUNET_FS_URI_LOC_PREFIX) with 16%nat in *;
  change (length (cs ".")) with 1%nat in *;
  change (length (cs "/")) with 1%nat in *;
  cbn [length] in *;
  unfold sizeof_hash_enc in *; lia.

Lemma drop_pre {A} (pre r : list A) n : n = length pre -> drop n (pre ++ r) = r.
Proof. intros ->. apply drop_app_length. Qed.

Lemma take_pre {A} (a r : list A) n : n = length a -> take n (a ++ r) = a.
Proof. intros ->. apply take_app_length. Qed.

Lemma lookup_pre {A} (pre r : list A) c n : n = length pre -> (pre ++ c :: r) !! n = Some c.
Proof. intros ->. by rewrite list_lookup_middle. Qed.

Lemma has_prefix_app p r : has_prefix (p ++ r) p = true.
Proof. unfold has_prefix. rewrite take_app_length. by apply bool_decide_eq_true. Qed.

(** ** Hash codes *)

(** What the parsers rely on: letters and digits of the alphabet are upper case already. *)
Class UpperCaseLaws `{UpperCase} :=
  upper_alphabet : forall s, Forall (fun c => getValue__ c <> -1) s -> u8_toupper s = s.

(** Behind the 103 bytes of [upper_enc] the frame has padding (nine bytes, where arrays are
    placed at multiples of 16), so that the NUL stored there harms nothing. *)
Definition padded `{UpperCase} : Prop := (103 < length (upper_enc_frame 103))%nat.
Class PaddedFrame `{UpperCase} := frame_padded : padded.
Definition when_padded `{UpperCase} {A} (x : A) : outcome A :=
  if decide (103 < length (upper_enc_frame 103))%nat then Ret x else Undefined.

Lemma is_padded `{PaddedFrame} {A} (x : A) : when_padded x = Ret x.
Proof. unfold when_padded. by rewrite decide_True by apply frame_padded. Qed.

Lemma hash_enc_ok h : is_hash h ->
  exists e, hash_enc h = Ret e /\ length e = 103%nat /\ is_cstr e
    /\ Forall (fun c => getValue__ c <> -1) e
    /\ GNUNET_STRINGS_string_to_data e 64 = Ret (Some (hash_bytes h)).
Proof.
  intros Hh. destruct (hash_enc_roundtrip h (replicate 8 0) Hh) as ((e & He & Hl & Hv & Hd) & _).
  { split; [ done | ]. repeat (constructor; [ by vm_compute | ]). constructor. }
  assert (Hc : is_cstr e).
  { eapply Forall_impl; [ | exact Hv ]. cbn. intros c Hc ->. by apply Hc. }
  exists e. unfold hash_enc. rewrite (bind_ret _ _ _ He), c_str_terminated by done. auto.
Qed.

(** The text of a hash code is converted back to it, if the overrun hits padding. *)
Lemma parses_hash `{UpperCaseLaws} h e :
  is_hash h -> hash_enc h = Ret e -> hash_from_string e = when_padded (Some h).
Proof.
  intros Hh He. destruct (hash_enc_ok h Hh) as (e' & He' & Hl & Hc & Hv & Hd).
  rewrite He in He'. injection He' as <-. unfold hash_from_string, when_padded.
  pose proof (upper_alphabet e Hv) as Hup. rewrite <- Hl. case_decide.
  - rewrite hash_from_string_padded by (done || lia). rewrite (bind_ret _ _ _ Hd).
    cbn [option_map]. destruct Hh as [Hl16 Hu]. rewrite <- Hl16, <- (app_nil_r (hash_bytes h)).
    by rewrite hash_words_bytes.
  - by rewrite hash_from_string_overruns_buffer by (done || lia || congruence).
Qed.

(** ** Content, namespace and location URIs *)

Definition fi_ok (fi : FileIdentifier) : Prop :=
  is_u64 (file_length fi) /\ is_hash (chk_key (fi_chk fi)) /\ is_hash (chk_query (fi_chk fi)).

Lemma htonll_is_ntohll n : GNUNET_htonll n = GNUNET_ntohll n.
Proof. reflexivity. Qed.

Lemma htonll_involutive n : is_u64 n -> GNUNET_htonll (GNUNET_ntohll n) = n.
Proof. intros Hn. rewrite htonll_is_ntohll, <- (htonll_is_ntohll n). by apply ntohll_htonll. Qed.

Lemma ntohll_range n : is_u64 (GNUNET_ntohll n).
Proof. unfold GNUNET_ntohll. apply u64_range. Qed.

(** The text of a file identifier *)
Definition fi_text (ke qe : str) (n : Z) : str := ke ++ cs "." ++ qe ++ cs "." ++ dec n.

Section RoundTrip.
Context `{UpperCaseLaws} `{Rsa}.

Lemma fi_fields pre ke qe n r :
  length ke = 103%nat -> length qe = 103%nat ->
  let s := pre ++ fi_text ke qe n ++ r in
  separated s (length pre) = true /\ hash_text s (length pre) = ke
  /\ hash_text s (length pre + sizeof_hash_enc) = qe
  /\ drop (length pre + sizeof_hash_enc * 2) s = dec n ++ r.
Proof.
  intros Hk Hq s. unfold s, fi_text. clear s. change (cs ".") with [DOT]. cbn [app].
  assert (Hs : pre ++ (ke ++ DOT :: qe ++ DOT :: dec n) ++ r
    = (pre ++ ke ++ [DOT]) ++ (qe ++ [DOT]) ++ dec n ++ r) by (rewrite <- !app_assoc; cbn [app];
    rewrite <- !app_assoc; done).
  split; [ | split; [ | split ] ].
  - unfold separated. rewrite andb_true_iff, !bool_decide_eq_true. split.
    + rewrite <- app_assoc, app_assoc. apply lookup_pre. rewrite length_app.
      unfold sizeof_hash_enc. lia.
    + replace (pre ++ (ke ++ DOT :: qe ++ DOT :: dec n) ++ r)
        with ((pre ++ ke ++ DOT :: qe) ++ DOT :: dec n ++ r) by (rewrite <- !app_assoc; cbn [app]; rewrite <- !app_assoc; done).
      apply lookup_pre. rewrite !length_app. cbn [length]. unfold sizeof_hash_enc. lia.
  - unfold hash_text, sizeof_hash_enc. rewrite drop_pre, <- app_assoc, take_pre by (done || lia). done.
  - unfold hash_text. rewrite Hs, drop_pre, <- app_assoc, take_pre; [ done | | ].
    + unfold sizeof_hash_enc. lia.
    + rewrite !length_app. cbn [length]. unfold sizeof_hash_enc. lia.
  - rewrite Hs, app_assoc, drop_pre; [ done | ]. rewrite !length_app. cbn [length].
    unfold sizeof_hash_enc. lia.
Qed.

Lemma parse_fi_ok pre fi ke qe r :
  fi_ok fi -> hash_enc (chk_key (fi_chk fi)) = Ret ke -> hash_enc (chk_query (fi_chk fi)) = Ret qe ->
  length ke = 103%nat -> length qe = 103%nat -> stops is_digit r ->
  parse_file_identifier (pre ++ fi_text ke qe (GNUNET_ntohll (file_length fi)) ++ r) (length pre)
  = when_padded (Some fi).
Proof.
  intros (Hn & Hk & Hq) Hke Hqe Hlk Hlq Hr.
  destruct (fi_fields pre ke qe (GNUNET_ntohll (file_length fi)) r Hlk Hlq) as (_ & Hf1 & Hf2 & Hf3).
  unfold parse_file_identifier. rewrite Hf1, (parses_hash _ _ Hk Hke), Hf2, (parses_hash _ _ Hq Hqe), Hf3.
  unfold when_padded. case_decide; [ | done ]. cbn [mbind outcome_bind sscanf].
  rewrite strtoull_dec by (done || apply ntohll_range).
  rewrite Z.mod_small by apply ntohll_range. rewrite htonll_involutive by done.
  by destruct fi as [? []].
Qed.

(** Texts are much shorter than the limit of an allocation. *)
Definition is_short (s : str) : Prop := strlen s <= 2 ^ 20.

Lemma alloc_short s k : is_short s -> k <= 2 ^ 20 -> can_alloc (strlen s + k).
Proof. unfold is_short, can_alloc. change GNUNET_MAX_MALLOC_CHECKED with (40 * 2 ^ 20). lia. Qed.

Lemma other_prefix p q r :
  length p = length q -> p <> q -> has_prefix (p ++ r) q = false.
Proof.
  intros Hl Hne. unfold has_prefix. apply bool_decide_eq_false. by rewrite <- Hl, take_app_length.
Qed.

(** The text of a URI that is not a keyword URI can be stored as a C string. *)
Definition text_ok (s : str) : Prop := is_cstr s /\ s <> [] /\ strlen s <= 2 ^ 20 + 2 ^ 10.

Lemma chk_roundtrip fi fuel :
  fi_ok fi ->
  exists s, GNUNET_FS_uri_to_string (Some (chk fi)) = Ret (Some s)
    /\ GNUNET_FS_uri_parse fuel (Some s) = Some (when_padded (Some (chk fi), None)) /\ text_ok s.
Proof.
  intros Hfi. pose proof Hfi as (Hn & Hk & Hq).
  destruct (hash_enc_ok _ Hk) as (ke & Hke & Hlk & Hck & _).
  destruct (hash_enc_ok _ Hq) as (qe & Hqe & Hlq & Hcq & _).
  set (n := GNUNET_ntohll (file_length fi)) in *.
  pose proof (ntohll_range (file_length fi)) as Hrange. fold n in Hrange.
  destruct (dec_spec n Hrange) as (Hne & _ & _ & Hl20).
  exists (GNUNET_FS_URI_CHK_PREFIX ++ fi_text ke qe n). split; [ | split ].
  - cbn [GNUNET_FS_uri_to_string uri_chk_to_string].
    rewrite (bind_ret _ _ _ Hke), (bind_ret _ _ _ Hqe). fold n.
    assert (Hs : is_short (GNUNET_FS_URI_CHK_PREFIX ++ fi_text ke qe n)).
    { unfold is_short, strlen, fi_text. uri_lia. }
    by rewrite (bind_ret _ _ _ (asprintf_ok _ (alloc_short _ 1 Hs ltac:(lia)))).
  - unfold GNUNET_FS_uri_parse, uri_chk_parse. cbv zeta.
    rewrite has_prefix_app, (proj2 (Nat.ltb_ge _ _)).
    2: { unfold fi_text. destruct (dec n); [ done | ]. uri_lia. }
    cbn [orb negb].
    destruct (fi_fields GNUNET_FS_URI_CHK_PREFIX ke qe n [] Hlk Hlq) as (Hsep & _).
    pose proof (parse_fi_ok GNUNET_FS_URI_CHK_PREFIX fi ke qe [] Hfi Hke Hqe Hlk Hlq
      ltac:(apply stops_nil)) as Hp. fold n in Hp. rewrite app_nil_r in Hsep, Hp. rewrite Hsep.
    cbn [negb]. rewrite Hp. unfold when_padded. by case_decide.
  - split; [ | split ].
    + apply is_cstr_app. split; [ by repeat constructor | ]. unfold fi_text.
      rewrite !is_cstr_app. pose proof (dec_is_cstr n Hrange). split_and!; try done; by repeat constructor.
    + done.
    + unfold strlen, fi_text. uri_lia.
Qed.

(** The parsers of the other kinds pass a text on. *)
Lemma chk_parse_other p r e :
  length p = 16%nat -> p <> GNUNET_FS_URI_CHK_PREFIX -> uri_chk_parse (Some (p ++ r)) e = Ret (None, e).
Proof.
  intros Hl Hp. unfold uri_chk_parse. cbv zeta. rewrite other_prefix by done. by rewrite orb_true_r.
Qed.

Lemma ksk_parse_other fuel p r e :
  length p = 16%nat -> p <> GNUNET_FS_URI_KSK_PREFIX ->
  uri_ksk_parse fuel (Some (p ++ r)) e = Some (Ret (None, e)).
Proof.
  intros Hl Hp. unfold uri_ksk_parse. cbv zeta. rewrite other_prefix by done. by rewrite orb_true_r.
Qed.

Lemma sks_parse_other p r e :
  length p = 16%nat -> p <> GNUNET_FS_URI_SKS_PREFIX -> uri_sks_parse (Some (p ++ r)) e = Ret (None, e).
Proof.
  intros Hl Hp. unfold uri_sks_parse. cbv zeta. rewrite other_prefix by done. by rewrite orb_true_r.
Qed.

Lemma sks_roundtrip ns identifier fuel :
  is_hash ns -> is_short identifier ->
  exists s, GNUNET_FS_uri_to_string (Some (sks ns identifier)) = Ret (Some s)
    /\ GNUNET_FS_uri_parse fuel (Some s) = Some (when_padded (Some (sks ns identifier), None))
    /\ (is_cstr identifier -> text_ok s).
Proof.
  intros Hns Hid. destruct (hash_enc_ok _ Hns) as (e & He & Hl & Hc & _).
  exists (GNUNET_FS_URI_SKS_PREFIX ++ e ++ cs "/" ++ identifier). split; [ | split ].
  - cbn [GNUNET_FS_uri_to_string uri_sks_to_string]. rewrite (bind_ret _ _ _ He).
    assert (Ha : can_alloc (strlen (GNUNET_FS_URI_SKS_PREFIX ++ e ++ cs "/" ++ identifier) + 1)).
    { unfold can_alloc, is_short, strlen in *.
      change GNUNET_MAX_MALLOC_CHECKED with (40 * 2 ^ 20). uri_lia. }
    by rewrite (bind_ret _ _ _ (asprintf_ok _ Ha)).
  - unfold GNUNET_FS_uri_parse. rewrite chk_parse_other, ksk_parse_other by done.
    cbn [mbind option_bind outcome_bind]. f_equal. unfold uri_sks_parse. cbv zeta.
    rewrite has_prefix_app, (proj2 (Nat.leb_gt _ _)) by uri_lia. cbn [orb negb].
    rewrite (proj2 (Nat.ltb_ge _ _)) by uri_lia. cbn [orb].
    replace (GNUNET_FS_URI_SKS_PREFIX ++ e ++ cs "/" ++ identifier)
      with ((GNUNET_FS_URI_SKS_PREFIX ++ e) ++ SLASH :: identifier) by (by rewrite <- app_assoc).
    rewrite bool_decide_eq_true_2 by (apply lookup_pre; uri_lia). cbn [negb].
    set (s := (GNUNET_FS_URI_SKS_PREFIX ++ e) ++ SLASH :: identifier).
    assert (Ht : hash_text s (length GNUNET_FS_URI_SKS_PREFIX) = e).
    { unfold hash_text, s. rewrite <- app_assoc, drop_pre by done. apply take_pre. uri_lia. }
    assert (Hd : drop (length GNUNET_FS_URI_SKS_PREFIX + sizeof_hash_enc) s = identifier).
    { unfold s. change (SLASH :: identifier) with ([SLASH] ++ identifier).
      rewrite app_assoc. apply drop_pre. uri_lia. }
    rewrite Ht, (parses_hash _ _ Hns He), Hd. unfold when_padded. case_decide; [ | done ].
    cbn [mbind outcome_bind]. by rewrite (bind_ret _ _ _ (GNUNET_strdup_ok _ (alloc_short _ 1 Hid ltac:(lia)))).
  - intros Hci. split; [ | split ].
    + rewrite !is_cstr_app. split_and!; try done; by repeat constructor.
    + done.
    + unfold is_short, strlen in *. uri_lia.
Qed.

Definition location_ok (l : Location) : Prop :=
  fi_ok (loc_fi l) /\ is_bytes (loc_peer l) /\ length (loc_peer l) = sizeof_public_key
  /\ is_bytes (contentSignature l) /\ length (contentSignature l) = sizeof_signature
  /\ is_abs (expirationTime l)
  /\ rsa_verify (loc_assembly (abs_value (expirationTime l)) (loc_fi l) (loc_peer l))
       (contentSignature l) (loc_peer l) = true.

Lemma skip_to_dot_ok pre ds r :
  Forall (fun c => is_digit c = true) ds ->
  skip_to_dot (pre ++ ds ++ DOT :: r) (length pre) = (length pre + length ds)%nat.
Proof.
  intros Hd. unfold skip_to_dot. rewrite drop_pre by done. rewrite strchr_app_new; [ done | ].
  intros Hin. apply list_elem_of_In in Hin. rewrite List.Forall_forall in Hd.
  specialize (Hd _ Hin). done.
Qed.

Lemma char_at_pre pre c r n : n = length pre -> char_at (pre ++ c :: r) n = Ret c.
Proof. intros Hn. unfold char_at. rewrite <- app_assoc. cbn [app]. by rewrite lookup_pre. Qed.

(** The parser on the text of a location: [pv] and [sv] are the digits of the key and of
    the signature. *)
Lemma loc_parse_ok l ke qe pv sv emsg :
  location_ok l ->
  hash_enc (chk_key (fi_chk (loc_fi l))) = Ret ke -> hash_enc (chk_query (fi_chk (loc_fi l))) = Ret qe ->
  length ke = 103%nat -> length qe = 103%nat ->
  is_digits 64 pv -> length pv = encoded_chars (length (loc_peer l)) ->
  le_value 64 pv = le_value 256 (loc_peer l) ->
  is_digits 64 sv -> length sv = encoded_chars (length (contentSignature l)) ->
  le_value 64 sv = le_value 256 (contentSignature l) ->
  uri_loc_parse (Some (GNUNET_FS_URI_LOC_PREFIX
    ++ fi_text ke qe (GNUNET_ntohll (file_length (loc_fi l)))
    ++ cs "." ++ tbl_text pv ++ cs "." ++ tbl_text sv ++ cs "."
    ++ dec (abs_value (expirationTime l)))) emsg
  = when_padded (Some (loc l), emsg).
Proof.
  intros (Hfi & Hpb & Hpl & Hsb & Hsl & Hexp & Hver) Hke Hqe Hlk Hlq Hpd Hplen Hpval Hsd Hslen Hsval.
  set (n := GNUNET_ntohll (file_length (loc_fi l))) in *.
  pose proof (ntohll_range (file_length (loc_fi l))) as Hrange. fold n in Hrange.
  destruct (dec_spec n Hrange) as (Hne & Hdig & _ & _).
  set (exp := abs_value (expirationTime l)) in *.
  change (cs ".") with [DOT]. cbn [app].
  set (tail := DOT :: tbl_text pv ++ DOT :: tbl_text sv ++ DOT :: dec exp).
  set (s := GNUNET_FS_URI_LOC_PREFIX ++ fi_text ke qe n ++ tail).
  set (A1 := GNUNET_FS_URI_LOC_PREFIX ++ ke ++ [DOT] ++ qe ++ [DOT]).
  assert (Hs1 : s = A1 ++ dec n ++ tail).
  { unfold s, A1, fi_text. change (cs ".") with [DOT]. by rewrite <- !app_assoc. }
  assert (Hs2 : s = (A1 ++ dec n) ++ tail) by (rewrite Hs1; by rewrite app_assoc).
  set (A3 := ((A1 ++ dec n) ++ [DOT]) ++ tbl_text pv).
  assert (Hs3 : s = A3 ++ DOT :: tbl_text sv ++ DOT :: dec exp)
    by (rewrite Hs2; unfold A3, tail; by rewrite <- !app_assoc).
  set (A4 := (A3 ++ [DOT]) ++ tbl_text sv).
  assert (Hs4 : s = A4 ++ DOT :: dec exp) by (rewrite Hs3; unfold A4; by rewrite <- !app_assoc).
  assert (HA1 : length A1 = (length GNUNET_FS_URI_LOC_PREFIX + sizeof_hash_enc * 2)%nat)
    by (unfold A1; uri_lia).
  unfold uri_loc_parse. cbv zeta. unfold s at 1 2 3. rewrite has_prefix_app.
  rewrite (proj2 (Nat.ltb_ge _ _)).
  2: { unfold fi_text. destruct (dec n); [ done | ]. uri_lia. }
  cbn [orb negb].
  destruct (fi_fields GNUNET_FS_URI_LOC_PREFIX ke qe n tail Hlk Hlq) as (Hsep & _).
  rewrite Hsep. cbn [negb].
  pose proof (parse_fi_ok GNUNET_FS_URI_LOC_PREFIX _ ke qe tail Hfi Hke Hqe Hlk Hlq
    ltac:(by apply stops_cons)) as Hp. fold n s in Hp. fold s. rewrite Hp. unfold when_padded.
  case_decide; [ | done ]. cbn [mbind outcome_bind]. cbv beta iota.
  assert (Hskip : skip_to_dot s (length GNUNET_FS_URI_LOC_PREFIX + sizeof_hash_enc * 2)
    = length (A1 ++ dec n)).
  { rewrite <- HA1, Hs1. unfold tail. rewrite length_app. by apply skip_to_dot_ok. }
  assert (Hc1 : char_at s (length (A1 ++ dec n)) = Ret DOT)
    by (rewrite Hs2; by apply char_at_pre).
  assert (Hd1 : drop (S (length (A1 ++ dec n))) s
    = tbl_text pv ++ DOT :: tbl_text sv ++ DOT :: dec exp).
  { rewrite Hs2. unfold tail. rewrite (cons_middle DOT), (app_assoc _ [DOT]). apply drop_pre.
    rewrite (length_app _ [DOT]). cbn [length]. lia. }
  rewrite Hskip, (bind_ret _ _ _ Hc1). change (DOT =? 0) with false. cbv beta iota.
  rewrite Hd1, <- Hpl, (bind_ret _ _ _ (enc2bin_bin2enc pv _ _ Hpd Hplen Hpb Hpval)).
  cbv beta iota.
  assert (HA3 : (S (length (A1 ++ dec n)) + encoded_chars (length (loc_peer l)))%nat = length A3).
  { unfold A3, tbl_text. rewrite (length_app _ (_ <$> _)), length_fmap, (length_app _ [DOT]).
    cbn [length]. lia. }
  assert (Hc3 : char_at s (length A3) = Ret DOT) by (rewrite Hs3; by apply char_at_pre).
  assert (Hd3 : drop (S (length A3)) s = tbl_text sv ++ DOT :: dec exp).
  { rewrite Hs3, (cons_middle DOT), (app_assoc _ [DOT]). apply drop_pre.
    rewrite (length_app _ [DOT]). cbn [length]. lia. }
  rewrite HA3, (bind_ret _ _ _ Hc3), Z.eqb_refl. cbn [negb].
  rewrite Hd3, <- Hsl, (bind_ret _ _ _ (enc2bin_bin2enc sv _ _ Hsd Hslen Hsb Hsval)).
  cbv beta iota.
  assert (HA4 : (S (length A3) + encoded_chars (length (contentSignature l)))%nat = length A4).
  { unfold A4, tbl_text. rewrite (length_app _ (_ <$> _)), length_fmap, (length_app _ [DOT]).
    cbn [length]. lia. }
  assert (Hc4 : char_at s (length A4) = Ret DOT) by (rewrite Hs4; by apply char_at_pre).
  assert (Hd4 : drop (S (length A4)) s = dec exp).
  { rewrite Hs4, (cons_middle DOT), (app_assoc _ [DOT]). apply drop_pre.
    rewrite (length_app _ [DOT]). cbn [length]. lia. }
  rewrite HA4, (bind_ret _ _ _ Hc4), Z.eqb_refl. cbn [negb]. rewrite Hd4. cbn [sscanf].
  rewrite <- (app_nil_r (dec exp)), strtoull_dec by (done || apply stops_nil).
  rewrite Z.mod_small by exact Hexp. rewrite Hver. cbn [negb]. unfold exp.
  by destruct l as [? ? [] ?].
Qed.

Lemma loc_roundtrip l fuel :
  location_ok l ->
  exists s, GNUNET_FS_uri_to_string (Some (loc l)) = Ret (Some s)
    /\ GNUNET_FS_uri_parse fuel (Some s) = Some (when_padded (Some (loc l), None)) /\ text_ok s.
Proof.
  intros Hloc. pose proof Hloc as (Hfi & Hpb & Hpl & Hsb & Hsl & Hexp & Hver).
  pose proof Hfi as (Hn & Hk & Hq).
  destruct (hash_enc_ok _ Hk) as (ke & Hke & Hlk & Hck & _).
  destruct (hash_enc_ok _ Hq) as (qe & Hqe & Hlq & Hcq & _).
  set (n := GNUNET_ntohll (file_length (loc_fi l))) in *.
  pose proof (ntohll_range (file_length (loc_fi l))) as Hrange. fold n in Hrange.
  destruct (dec_spec n Hrange) as (Hne & Hdig & _ & Hl20).
  destruct (bin2enc_ok (loc_peer l) Hpb) as (pv & Hpv & Hpd & Hplen & Hpval).
  { rewrite Hpl. unfold can_alloc. by vm_compute. }
  destruct (bin2enc_ok (contentSignature l) Hsb) as (sv & Hsv & Hsd & Hslen & Hsval).
  { rewrite Hsl. unfold can_alloc. by vm_compute. }
  set (exp := abs_value (expirationTime l)) in *.
  destruct (dec_spec exp Hexp) as (_ & _ & _ & He20).
  set (tail := cs "." ++ tbl_text pv ++ cs "." ++ tbl_text sv ++ cs "." ++ dec exp).
  exists (GNUNET_FS_URI_LOC_PREFIX ++ fi_text ke qe n ++ tail).
  assert (Hlong : (length (GNUNET_FS_URI_LOC_PREFIX ++ fi_text ke qe n ++ tail) <= 1000)%nat).
  { unfold fi_text, tail, tbl_text. rewrite !length_app, !length_fmap, Hplen, Hslen, Hpl, Hsl.
    change (encoded_chars sizeof_public_key) with 352%nat.
    change (encoded_chars sizeof_signature) with 342%nat. uri_lia. }
  split; [ | split ].
  - cbn [GNUNET_FS_uri_to_string]. unfold uri_loc_to_string.
    rewrite (bind_ret _ _ _ Hke), (bind_ret _ _ _ Hqe), (bind_ret _ _ _ Hpv), (bind_ret _ _ _ Hsv).
    fold n exp.
    assert (Heq : GNUNET_FS_URI_LOC_PREFIX ++ ke ++ cs "." ++ qe ++ cs "." ++ dec n ++ tail
      = GNUNET_FS_URI_LOC_PREFIX ++ fi_text ke qe n ++ tail)
      by (unfold fi_text; by rewrite <- !app_assoc).
    unfold tail in Heq. rewrite Heq. fold tail.
    assert (Ha : can_alloc (strlen (GNUNET_FS_URI_LOC_PREFIX ++ fi_text ke qe n ++ tail) + 1)).
    { unfold can_alloc, strlen. change GNUNET_MAX_MALLOC_CHECKED with (40 * 2 ^ 20). lia. }
    by rewrite (bind_ret _ _ _ (asprintf_ok _ Ha)).
  - unfold GNUNET_FS_uri_parse. rewrite chk_parse_other, ksk_parse_other by done.
    cbn [mbind option_bind outcome_bind]. f_equal. rewrite sks_parse_other by done.
    cbn [mbind outcome_bind]. rewrite (loc_parse_ok l ke qe pv sv) by done. unfold when_padded. by case_decide.
  - split; [ | split ].
    + unfold fi_text, tail. rewrite !is_cstr_app.
      pose proof (dec_is_cstr n Hrange). pose proof (dec_is_cstr exp Hexp).
      split_and!; try done; first [ by apply tbl_text_cstr | by repeat constructor ].
    + done.
    + unfold strlen. lia.
Qed.

End RoundTrip.

(** ** Keyword URIs *)

(** A keyword that its text preserves: 7-bit characters other than the quote after the mark,
    at least one, and no ['+'] at the start of an optional keyword *)
Definition keyword_ok (k : str) : Prop :=
  exists c t, k = c :: t /\ t <> [] /\ Forall (fun b => 0 < b < 128 /\ b <> QUOTE) t
    /\ (c = PLUS \/ (c = SPACE /\ head t <> Some PLUS)).

(** The characters of a keyword that are printed, and their text *)
Definition plain (k : str) : str :=
  match k with c :: t => if c =? SPACE then t else k | [] => [] end.

Definition enc_byte (c : Z) : str := if needs_percent c then PERCENT :: sprintf_02X c else [c].
Definition keyword_enc (k : str) : str := flat_map enc_byte (plain k).

Fixpoint ksk_body (ks : list str) : str :=
  match ks with
  | [] => []
  | [k] => keyword_enc k
  | k :: ks' => keyword_enc k ++ PLUS :: ksk_body ks'
  end.

(** The two hexadecimal digits of a 7-bit character *)
Definition hex_pair_ok (c : Z) : bool :=
  match sprintf_02X c with
  | [a; b] =>
      bool_decide (hex_value a = Some (c / 16)) && bool_decide (hex_value b = Some (c mod 16))
      && negb (isspace a) && negb (a =? PERCENT) && negb (b =? PERCENT) && negb (a =? PLUS)
      && negb (b =? PLUS) && negb (a =? 0) && negb (b =? 0)
      && ((c =? QUOTE) || negb ((a =? 50) && (b =? 50)))
  | _ => false
  end.

Lemma sprintf_02X_spec c : 0 < c < 128 -> hex_pair_ok c = true.
Proof.
  intros Hc. assert (Hall : forallb (fun n => hex_pair_ok (Z.of_nat n)) (seq 0 128) = true)
    by (vm_compute; reflexivity).
  rewrite forallb_forall in Hall. rewrite <- (Z2Nat.id c) by lia. apply Hall, in_seq. lia.
Qed.

Lemma sprintf_02X_pair c : 0 < c < 128 -> exists a b, sprintf_02X c = [a; b].
Proof.
  intros Hc. pose proof (sprintf_02X_spec c Hc) as H. unfold hex_pair_ok in H.
  destruct (sprintf_02X c) as [|a [|b [|]]]; eauto; done.
Qed.

(** What an encoded character looks like *)
Inductive enc_token : Z -> str -> Prop :=
  | enc_literal c : c <> PERCENT -> c <> PLUS -> c <> 0 -> enc_token c [c]
  | enc_escaped c a b : hex_value a = Some (c / 16) -> hex_value b = Some (c mod 16) ->
      isspace a = false -> a <> PERCENT -> b <> PERCENT -> a <> PLUS -> b <> PLUS ->
      a <> 0 -> b <> 0 -> (a = 50 -> b <> 50) -> enc_token c [PERCENT; a; b].

Lemma enc_byte_token c : 0 < c < 128 -> c <> QUOTE -> enc_token c (enc_byte c).
Proof.
  intros Hc Hq. unfold enc_byte. destruct (needs_percent c) eqn:E.
  - pose proof (sprintf_02X_spec c Hc) as H. unfold hex_pair_ok in H.
    destruct (sprintf_02X c) as [|a [|b [|]]]; try done.
    rewrite !andb_true_iff, !negb_true_iff, !bool_decide_eq_true, !Z.eqb_neq, orb_true_iff,
      negb_true_iff, Z.eqb_eq, andb_false_iff, !Z.eqb_neq in H.
    destruct H as (((((((((H1 & H2) & H3) & H4) & H5) & H6) & H7) & H8) & H9) & H10).
    constructor; auto. intros ->. destruct H10 as [?|[?|?]]; lia.
  - unfold needs_percent, isalnum, is_digit in E.
    constructor; intros ->; vm_compute in E; discriminate.
Qed.

Lemma enc_token_length c t : enc_token c t -> length t = 1%nat \/ length t = 3%nat.
Proof. destruct 1; auto. Qed.

Definition plain_ok (t : str) : Prop := Forall (fun b => 0 < b < 128 /\ b <> QUOTE) t.

Lemma keyword_plain k : keyword_ok k -> plain_ok (plain k) /\ plain k <> []
  /\ (if bool_decide (head (plain k) = Some PLUS) then plain k else SPACE :: plain k) = k.
Proof.
  intros (c & t & -> & Ht & Hall & [->|[-> Hhd]]); cbn [plain].
  - change (PLUS =? SPACE) with false. split; [ | split; [ done | done ] ].
    constructor; [ lia | done ].
  - rewrite Z.eqb_refl. split; [ done | ]. split; [ done | ]. by rewrite bool_decide_eq_false_2.
Qed.

(** *** Printing *)

Lemma keyword_size_rest n t : plain_ok t ->
  ksk_keyword_size n false t = n + Z.of_nat (length (flat_map enc_byte t)) - strlen t.
Proof.
  intros Ht. revert n. induction Ht as [|c t [Hc Hq] _ IH]; intros n; unfold strlen;
    cbn [ksk_keyword_size flat_map length]; [ lia | ].
  rewrite length_app. cbn [andb]. unfold enc_byte at 1.
  destruct (needs_percent c) eqn:E; rewrite IH; unfold strlen.
  - destruct (sprintf_02X_pair c Hc) as (a & b & ->). cbn [length]. lia.
  - cbn [length]. lia.
Qed.

Lemma keyword_size_ok n k : keyword_ok k ->
  ksk_keyword_size (n + strlen k) true k = n + Z.of_nat (length (keyword_enc k)).
Proof.
  intros Hk. pose proof (keyword_plain k Hk) as (Hp & _ & _).
  destruct Hk as (c & t & -> & _ & _ & [->|[-> _]]); unfold keyword_enc; cbn [plain] in *.
  - change (PLUS =? SPACE) with false in *.
    change (ksk_keyword_size (n + strlen (PLUS :: t)) true (PLUS :: t))
      with (ksk_keyword_size (n + strlen (PLUS :: t) + 2) false t).
    apply Forall_cons_iff in Hp as [_ Hp]. rewrite keyword_size_rest by done.
    cbn [flat_map]. rewrite length_app. change (length (enc_byte PLUS)) with 3%nat.
    unfold strlen. cbn [length]. lia.
  - rewrite Z.eqb_refl in *. cbn [ksk_keyword_size andb]. rewrite Z.eqb_refl.
    rewrite keyword_size_rest by done. unfold strlen. cbn [length]. lia.
Qed.

(** The text is written behind what is there; the zeros that are left end it. *)
Lemma write_token out tok m :
  mem_write (out ++ replicate (length tok + S m) 0) (length out) (tok ++ [0])
  = Ret ((out ++ tok) ++ replicate (S m) 0).
Proof.
  replace (length tok + S m)%nat with (length (tok ++ [0%Z]) + m)%nat
    by (rewrite length_app; cbn; lia).
  rewrite write_zeros. by rewrite <- !app_assoc.
Qed.

Lemma write_rest out t m :
  plain_ok t ->
  ksk_write_keyword (out ++ replicate (length (flat_map enc_byte t) + S m) 0) (length out) false t
  = Ret ((out ++ flat_map enc_byte t) ++ replicate (S m) 0, length (out ++ flat_map enc_byte t)).
Proof.
  intros Ht. revert out. induction Ht as [|c t [Hc Hq] _ IH]; intros out;
    cbn [ksk_write_keyword flat_map]; [ by rewrite app_nil_r | ].
  cbn [andb]. rewrite length_app, <- Nat.add_assoc.
  assert (He : enc_byte c = if needs_percent c then PERCENT :: sprintf_02X c else [c]) by done.
  destruct (sprintf_02X_pair c Hc) as (a & b & Hab). rewrite Hab in *.
  destruct (needs_percent c); rewrite He.
  - change (PERCENT :: [a; b] ++ [0]) with ([PERCENT; a; b] ++ [0]).
    replace (length [PERCENT; a; b] + (length (flat_map enc_byte t) + S m))%nat
      with (length [PERCENT; a; b] + S (length (flat_map enc_byte t) + m))%nat by lia.
    rewrite (bind_ret _ _ _ (write_token out [PERCENT; a; b] _)).
    replace (length out + 3)%nat with (length (out ++ [PERCENT; a; b])) by (rewrite length_app; done).
    replace (S (length (flat_map enc_byte t) + m)) with (length (flat_map enc_byte t) + S m)%nat by lia.
    rewrite IH. by rewrite <- !app_assoc.
  - rewrite (bind_ret _ _ _ (write_zeros out [c] _)).
    replace (length out + 1)%nat with (length (out ++ [c])) by (rewrite length_app; done).
    rewrite IH. by rewrite <- !app_assoc.
Qed.

Lemma write_keyword_ok out k m :
  keyword_ok k ->
  ksk_write_keyword (out ++ replicate (length (keyword_enc k) + S m) 0) (length out) true k
  = Ret ((out ++ keyword_enc k) ++ replicate (S m) 0, length (out ++ keyword_enc k)).
Proof.
  intros Hk. pose proof (keyword_plain k Hk) as (Hp & _ & _). unfold keyword_enc.
  assert (Heq : forall ret wpos, ksk_write_keyword ret wpos true k = ksk_write_keyword ret wpos false (plain k)).
  { destruct Hk as (c & t & -> & _ & _ & [->|[-> _]]); done. }
  rewrite Heq. by apply write_rest.
Qed.

Lemma ksk_write_ok ks : forall out m,
  Forall keyword_ok ks ->
  ksk_write (out ++ replicate (length (ksk_body ks) + S m) 0) (length out) ks
  = Ret ((out ++ ksk_body ks) ++ replicate (S m) 0).
Proof.
  induction ks as [|k ks IH]; intros out m Hks; cbn [ksk_write]; [ by rewrite app_nil_r | ].
  apply Forall_cons_iff in Hks as [Hk Hks]. destruct ks as [|k2 ks].
  - cbn [ksk_body]. by rewrite (bind_ret _ _ _ (write_keyword_ok out k m Hk)).
  - set (rest := k2 :: ks) in *.
    change (ksk_body (k :: rest)) with (keyword_enc k ++ PLUS :: ksk_body rest).
    rewrite length_app. cbn [length].
    replace (length (keyword_enc k) + S (length (ksk_body rest)) + S m)%nat
      with (length (keyword_enc k) + S (length (ksk_body rest) + S m))%nat by lia.
    rewrite (bind_ret _ _ _ (write_keyword_ok out k _ Hk)). cbv beta iota.
    change (S (length (ksk_body rest) + S m)) with (length [PLUS] + (length (ksk_body rest) + S m))%nat.
    rewrite (bind_ret _ _ _ (write_zeros (out ++ keyword_enc k) [PLUS] _)).
    replace (length (out ++ keyword_enc k) + 1)%nat with (length ((out ++ keyword_enc k) ++ [PLUS]))
      by (rewrite (length_app _ [PLUS]); done).
    unfold rest at 2. rewrite IH by done. by rewrite <- !app_assoc.
Qed.

Lemma ksk_size_ok ks n :
  Forall keyword_ok ks -> ks <> [] ->
  ksk_size (n + Z.of_nat (length ks)) ks = n + 1 + Z.of_nat (length (ksk_body ks)).
Proof.
  intros Hks. revert n. induction Hks as [|k ks Hk Hks IH]; intros n Hne; [ done | ].
  cbn [ksk_size ksk_body length]. rewrite keyword_size_ok by done.
  replace (n + Z.of_nat (S (length ks)) + Z.of_nat (length (keyword_enc k)))
    with (n + 1 + Z.of_nat (length (keyword_enc k)) + Z.of_nat (length ks)) by lia.
  destruct ks as [|k2 ks]; [ cbn [ksk_size length]; lia | ].
  rewrite IH by done. set (b := ksk_body (k2 :: ks)). rewrite length_app. cbn [length]. lia.
Qed.

Lemma plain_enc_cstr t : plain_ok t -> is_cstr (flat_map enc_byte t).
Proof.
  induction 1 as [|c t [Hc Hq] _ IH]; cbn [flat_map]; [ constructor | ].
  apply is_cstr_app. split; [ | done ].
  destruct (enc_byte_token c Hc Hq); repeat constructor; done.
Qed.

Lemma ksk_body_cstr ks : Forall keyword_ok ks -> is_cstr (ksk_body ks).
Proof.
  induction 1 as [|k ks Hk _ IH]; cbn [ksk_body]; [ constructor | ].
  assert (Hc : is_cstr (keyword_enc k)) by (apply plain_enc_cstr; by apply keyword_plain).
  destruct ks; [ done | ]. apply is_cstr_app. split; [ done | ]. constructor; [ lia | done ].
Qed.

Lemma ksk_to_string_ok ks :
  Forall keyword_ok ks -> ks <> [] -> is_short (ksk_body ks) ->
  uri_ksk_to_string (ksk ks) = Ret (Some (GNUNET_FS_URI_KSK_PREFIX ++ ksk_body ks)).
Proof.
  intros Hks Hne Hs. unfold uri_ksk_to_string. cbv zeta.
  replace (Z.of_nat (length ks) + strlen GNUNET_FS_URI_PREFIX + strlen (cs "ksk/") + 1)
    with (17 + Z.of_nat (length ks)) by (unfold strlen; change (length GNUNET_FS_URI_PREFIX) with 12%nat;
      change (length (cs "ksk/")) with 4%nat; lia).
  rewrite ksk_size_ok by done. set (b := ksk_body ks) in *.
  assert (Ha : can_alloc (17 + 1 + Z.of_nat (length b))).
  { pose proof (alloc_short b 18 Hs ltac:(lia)) as Ha. unfold can_alloc, strlen in *. lia. }
  rewrite (bind_ret _ _ _ (GNUNET_malloc_ok _ Ha)).
  replace (Z.to_nat (17 + 1 + Z.of_nat (length b)))
    with (length GNUNET_FS_URI_PREFIX + S (length (cs "ksk/") + S (length b)))%nat
    by (change (length GNUNET_FS_URI_PREFIX) with 12%nat; change (length (cs "ksk/")) with 4%nat; lia).
  pose proof (write_token [] GNUNET_FS_URI_PREFIX (length (cs "ksk/") + S (length b))) as Hw.
  cbn [app length] in Hw. rewrite (bind_ret _ _ _ Hw). clear Hw.
  assert (Hcat : strcat (GNUNET_FS_URI_PREFIX ++ replicate (S (length (cs "ksk/") + S (length b))) 0)
      (cs "ksk/") = Ret (GNUNET_FS_URI_KSK_PREFIX ++ replicate (length b + S 1) 0)).
  { unfold strcat. change (replicate (S ?n) 0) with (0 :: replicate n 0).
    rewrite (bind_ret _ _ _ (c_str_terminated GNUNET_FS_URI_PREFIX
      (replicate (length (cs "ksk/") + S (length b)) 0) ltac:(repeat constructor; done))).
    change (0 :: replicate ?n 0) with (replicate (S n) 0).
    replace (S (length (cs "ksk/") + S (length b))) with (length (cs "ksk/") + S (S (length b)))%nat by lia.
    rewrite write_token. unfold GNUNET_FS_URI_KSK_PREFIX. do 3 f_equal. lia. }
  rewrite (bind_ret _ _ _ Hcat), (bind_ret _ _ _ (ksk_write_ok ks GNUNET_FS_URI_KSK_PREFIX 1 Hks)).
  fold b. rewrite (bind_ret _ (GNUNET_FS_URI_KSK_PREFIX ++ b)); [ done | ].
  apply (c_str_terminated _ [0]). apply is_cstr_app. split; [ repeat constructor; done | ].
  by apply ksk_body_cstr.
Qed.

(** *** Decoding a keyword in place *)

Lemma drop_cons_inv {A} (l : list A) n x r :
  drop n l = x :: r -> l !! n = Some x /\ drop (S n) l = r /\ (n < length l)%nat.
Proof.
  intros Hd. assert (Hx : l !! n = Some x).
  { rewrite <- (Nat.add_0_r n), <- lookup_drop, Hd. done. }
  split; [ done | ]. split; [ | by eapply lookup_lt_Some ].
  pose proof (drop_S l x n Hx) as Hs. congruence.
Qed.

Lemma scan_2X_pair c a b r :
  hex_value a = Some (c / 16) -> hex_value b = Some (c mod 16) -> isspace a = false ->
  scan_2X (a :: b :: r) = Some c.
Proof.
  intros Ha Hb Hs. unfold scan_2X. rewrite drop_while_stops by (by apply stops_cons).
  change (take 2 (a :: b :: r)) with [a; b]. cbv beta iota. rewrite Ha, Hb. f_equal.
  pose proof (Z.div_mod c 16). lia.
Qed.

Lemma store_char (out : list Z) wpos rpos c :
  (wpos <= rpos)%nat -> (rpos < length out)%nat ->
  mem_write out wpos [c] = Ret (<[wpos := c]> out)
  /\ take (S wpos) (<[wpos := c]> out) = take wpos out ++ [c]
  /\ forall n, (rpos < n)%nat -> drop n (<[wpos := c]> out) = drop n out.
Proof.
  intros Hw Hr. split; [ apply mem_write_insert; lia | ]. split.
  - rewrite insert_take_drop by lia. rewrite (cons_middle c), app_assoc. apply take_pre.
    rewrite length_app, length_take. cbn [length]. lia.
  - intros n Hn. apply drop_insert_lt. lia.
Qed.

Lemma percent_loop_ok t : plain_ok t -> forall fuel out rpos wpos,
  (wpos <= rpos)%nat -> drop rpos out = flat_map enc_byte t ++ [0] -> (length t < fuel)%nat ->
  exists junk, percent_loop fuel out rpos wpos = Ret (Some (take wpos out ++ t ++ 0 :: junk)).
Proof.
  induction 1 as [|c t [Hc Hq] Ht IH]; intros fuel out rpos wpos Hw Hd Hf;
    (destruct fuel as [|fuel]; [ cbn [length] in Hf; lia | ]); cbn [percent_loop].
  - cbn [flat_map app] in Hd. apply drop_cons_inv in Hd as (Hl & _ & Hlt). rewrite Hl.
    rewrite (bind_ret (of_option (Some 0)) _ _ eq_refl), Z.eqb_refl.
    destruct (store_char out wpos rpos 0 Hw Hlt) as (-> & _ & _).
    rewrite (bind_ret (Ret _) _ _ eq_refl). exists (drop (S wpos) out).
    by rewrite insert_take_drop by lia.
  - cbn [flat_map length] in Hd, Hf. rewrite <- app_assoc in Hd.
    pose proof (plain_enc_cstr t Ht) as Hcs.
    destruct (enc_byte_token c Hc Hq) as [c H1 H2 H3|c a b Ha Hb Hs H4 H5 H6 H7 H8 H9 H10];
      cbn [app] in Hd.
    + apply drop_cons_inv in Hd as (Hl & Hd & Hlt). rewrite Hl.
      rewrite (bind_ret (of_option (Some c)) _ _ eq_refl).
      rewrite (proj2 (Z.eqb_neq c 0)), (proj2 (Z.eqb_neq c PERCENT)) by done.
      destruct (store_char out wpos rpos c Hw Hlt) as (-> & Htk & Hdr).
      rewrite (bind_ret (Ret _) _ _ eq_refl).
      destruct (IH fuel (<[wpos := c]> out) (S rpos) (S wpos)) as (junk & ->);
        [ lia | rewrite Hdr by lia; done | lia | ].
      exists junk. by rewrite Htk, <- app_assoc.
    + apply drop_cons_inv in Hd as (Hl & Hd & Hlt). rewrite Hl.
      rewrite (bind_ret (of_option (Some PERCENT)) _ _ eq_refl).
      change (PERCENT =? 0) with false. rewrite Z.eqb_refl. rewrite Nat.add_1_r, Hd.
      change (a :: b :: flat_map enc_byte t ++ [0]) with ((a :: b :: flat_map enc_byte t) ++ [0]).
      rewrite (bind_ret _ _ _ (c_str_terminated (a :: b :: flat_map enc_byte t) []
        ltac:(repeat (constructor; [ done | ]); exact Hcs))).
      rewrite (scan_2X_pair c) by done. cbv zeta. rewrite (proj2 (Z.eqb_neq c QUOTE)) by done.
      rewrite u8_small by (unfold is_u8; lia).
      destruct (store_char out wpos rpos c Hw Hlt) as (-> & Htk & Hdr).
      rewrite (bind_ret (Ret _) _ _ eq_refl).
      apply drop_cons_inv in Hd as (_ & Hd & _). apply drop_cons_inv in Hd as (_ & Hd & _).
      destruct (IH fuel (<[wpos := c]> out) (rpos + 3)%nat (S wpos)) as (junk & ->);
        [ lia | rewrite Hdr by lia; replace (rpos + 3)%nat with (S (S (S rpos))) by lia; done | lia | ].
      exists junk. by rewrite Htk, <- app_assoc.
Qed.

Lemma enc_length t : plain_ok t -> (length t <= length (flat_map enc_byte t))%nat.
Proof.
  induction 1 as [|c t [Hc Hq] _ IH]; cbn [flat_map length]; [ lia | ]. rewrite length_app.
  destruct (enc_token_length c _ (enc_byte_token c Hc Hq)); lia.
Qed.

Lemma percent_decode_ok k :
  keyword_ok k -> is_short (keyword_enc k) ->
  percent_decode_keyword (keyword_enc k) = Ret (Some k, None).
Proof.
  intros Hk Hs. destruct (keyword_plain k Hk) as (Hp & Hne & Hk'). unfold keyword_enc in *.
  set (t := plain k) in *. pose proof (enc_length t Hp) as Hl. unfold percent_decode_keyword.
  assert (Ht : is_short t) by (unfold is_short, strlen in *; lia).
  assert (Hct : is_cstr t) by (eapply Forall_impl; [ | exact Hp ]; cbn; lia).
  rewrite (bind_ret _ _ _ (GNUNET_strdup_ok _ (alloc_short _ 1 Hs ltac:(lia)))).
  destruct (percent_loop_ok t Hp (length (flat_map enc_byte t) + 1) (flat_map enc_byte t ++ [0]) 0 0)
    as (junk & Hj); [ lia | done | lia | ].
  rewrite (bind_ret _ _ _ Hj). cbv beta iota. rewrite take_0. cbn [app].
  rewrite (bind_ret _ _ _ (c_str_terminated t junk Hct)).
  destruct t as [|c t'] eqn:Et; [ done | ]. change (char_at (c :: t') 0) with (Ret c : outcome Z).
  rewrite (bind_ret (Ret c) _ _ eq_refl). cbn [head] in Hk'.
  destruct (Z.eqb_spec c PLUS) as [->|Hc].
  - rewrite bool_decide_eq_true_2 in Hk' by done. rewrite <- Hk'.
    by rewrite (bind_ret _ _ _ (GNUNET_strdup_ok _ (alloc_short _ 1 Ht ltac:(lia)))).
  - rewrite bool_decide_eq_false_2 in Hk' by congruence. rewrite <- Hk'.
    rewrite (bind_ret _ _ _ (alloc_str_ok (strlen (c :: t') + 2) (SPACE :: c :: t')
      ltac:(constructor; [ lia | done ]) ltac:(unfold strlen; cbn [length]; lia)
      (alloc_short _ 2 Ht ltac:(lia)))). done.
Qed.

(** *** Texts without an encoded quote *)

Fixpoint quote_free (s : str) : bool :=
  match s with
  | [] => true
  | _ :: s' => negb (has_prefix s (cs "%22")) && quote_free s'
  end.

Lemma not_quote c r : c <> PERCENT -> has_prefix (c :: r) (cs "%22") = false.
Proof. intros Hc. apply bool_decide_eq_false. intros [= ? _]. done. Qed.

Lemma quote_free_cons c r : c <> PERCENT -> quote_free r = true -> quote_free (c :: r) = true.
Proof. intros Hc Hr. cbn [quote_free]. rewrite not_quote by done. done. Qed.

Lemma quote_free_plain t r :
  plain_ok t -> quote_free r = true -> quote_free (flat_map enc_byte t ++ r) = true.
Proof.
  intros Ht Hr. induction Ht as [|c t [Hc Hq] _ IH]; [ done | ]. cbn [flat_map].
  rewrite <- app_assoc. destruct (enc_byte_token c Hc Hq) as [c ? ? ?|c a b ? ? ? Ha Hb ? ? ? ? Hab].
  - by apply quote_free_cons.
  - cbn [app]. set (l := flat_map enc_byte t ++ r) in *.
    assert (Hl : quote_free (a :: b :: l) = true) by auto using quote_free_cons.
    change (quote_free (PERCENT :: a :: b :: l))
      with (negb (has_prefix (PERCENT :: a :: b :: l) (cs "%22")) && quote_free (a :: b :: l)).
    rewrite Hl, andb_true_r. apply negb_true_iff, bool_decide_eq_false.
    intros Heq. injection Heq as -> ->. by apply Hab.
Qed.

Lemma quote_free_drop s n : quote_free s = true -> has_prefix (drop n s) (cs "%22") = false.
Proof.
  revert n. induction s as [|c s IH]; intros n Hs; [ by destruct n | ].
  cbn [quote_free] in Hs. apply andb_true_iff in Hs as [Hc Hs]. apply negb_true_iff in Hc.
  destruct n as [|n]; [ exact Hc | exact (IH n Hs) ].
Qed.

Lemma at_quote_free pre s n :
  quote_free s = true -> (length pre <= n)%nat -> at_quote (pre ++ s) n = false.
Proof.
  intros Hs Hn. unfold at_quote. replace n with (length pre + (n - length pre))%nat by lia.
  rewrite drop_app_add. by apply quote_free_drop.
Qed.

(** The body as its first keyword and the others, each after its ['+'] *)
Definition more_keywords (ks : list str) : str := flat_map (fun k => PLUS :: keyword_enc k) ks.

Lemma ksk_body_cons k ks : ksk_body (k :: ks) = keyword_enc k ++ more_keywords ks.
Proof.
  revert k. induction ks as [|k2 ks IH]; intros k; [ by rewrite app_nil_r | ].
  change (ksk_body (k :: k2 :: ks)) with (keyword_enc k ++ PLUS :: ksk_body (k2 :: ks)).
  by rewrite IH.
Qed.

Lemma quote_free_more ks : Forall keyword_ok ks -> quote_free (more_keywords ks) = true.
Proof.
  induction 1 as [|k ks Hk _ IH]; [ done | ]. unfold more_keywords. cbn [flat_map].
  apply (quote_free_cons PLUS); [ done | ]. apply quote_free_plain; [ by apply keyword_plain | done ].
Qed.

Lemma quote_free_body k ks : Forall keyword_ok (k :: ks) -> quote_free (ksk_body (k :: ks)) = true.
Proof.
  intros Hk. apply Forall_cons_iff in Hk as [Hk Hks]. rewrite ksk_body_cons. unfold keyword_enc.
  apply quote_free_plain; [ by apply keyword_plain | by apply quote_free_more ].
Qed.

Lemma enc_no_plus t : plain_ok t -> Forall (fun c => c <> PLUS) (flat_map enc_byte t).
Proof.
  induction 1 as [|c t [Hc Hq] _ IH]; cbn [flat_map]; [ constructor | ]. apply Forall_app.
  split; [ | done ]. destruct (enc_byte_token c Hc Hq); repeat constructor; done.
Qed.

Lemma keyword_enc_no_plus k : keyword_ok k -> Forall (fun c => c <> PLUS) (keyword_enc k).
Proof. intros Hk. apply enc_no_plus. by apply keyword_plain. Qed.

Lemma keyword_enc_nonempty k : keyword_ok k -> keyword_enc k <> [].
Proof.
  intros Hk. destruct (keyword_plain k Hk) as (Hp & Hne & _). unfold keyword_enc.
  pose proof (enc_length _ Hp). destruct (plain k); [ done | ]. destruct (flat_map _ _); [ | done ].
  cbn [length] in *. lia.
Qed.

(** *** The two loops of the parser on such a text *)

Lemma count_word w r prev max :
  Forall (fun c => c <> PLUS) w -> quote_free (w ++ r) = true -> w <> [] ->
  exists c, c <> PLUS /\ ksk_count (w ++ r) prev 0 max false = ksk_count r c 0 max false.
Proof.
  intros Hw. revert prev. induction Hw as [|c w Hc Hw IH]; intros prev Hq Hne; [ done | ].
  cbn [app] in *. pose proof (quote_free_drop (c :: w ++ r) 0 Hq) as H0. rewrite drop_0 in H0.
  cbn [ksk_count]. rewrite H0, (proj2 (Z.eqb_neq c PLUS)) by done. cbn [andb].
  destruct w as [|c2 w]; [ by exists c | ]. apply IH; [ | done ].
  cbn [quote_free] in Hq. by apply andb_true_iff in Hq as [_ Hq].
Qed.

Lemma quote_free_app_r a b : quote_free (a ++ b) = true -> quote_free b = true.
Proof.
  induction a as [|c a IH]; [ done | ]. cbn [app quote_free]. intros Hq.
  apply andb_true_iff in Hq as [_ Hq]. auto.
Qed.

Lemma count_more ks c max :
  Forall keyword_ok ks -> c <> PLUS ->
  ksk_count (more_keywords ks) c 0 max false = Some (max + Z.of_nat (length ks), false).
Proof.
  intros Hks. revert c max. induction Hks as [|k ks Hk Hks IH]; intros c max Hc;
    [ cbn; f_equal; f_equal; lia | ].
  pose proof (quote_free_more (k :: ks) ltac:(by constructor)) as Hq.
  change (more_keywords (k :: ks)) with (PLUS :: keyword_enc k ++ more_keywords ks) in *.
  pose proof (not_quote PLUS (keyword_enc k ++ more_keywords ks) ltac:(done)) as H0.
  cbn [ksk_count]. rewrite H0, Z.eqb_refl, (proj2 (Z.eqb_neq c PLUS)) by done. cbn [andb negb].
  destruct (count_word (keyword_enc k) (more_keywords ks) PLUS (max + 1)) as (c' & Hc' & ->);
    [ by apply keyword_enc_no_plus | by apply (quote_free_app_r [PLUS]) | by apply keyword_enc_nonempty | ].
  rewrite IH by done. cbn [length]. f_equal. f_equal. lia.
Qed.

Lemma count_body k ks :
  Forall keyword_ok (k :: ks) ->
  ksk_count (ksk_body (k :: ks)) SLASH 0 1 false = Some (Z.of_nat (length (k :: ks)), false).
Proof.
  intros Hall. pose proof (quote_free_body k ks Hall) as Hq.
  apply Forall_cons_iff in Hall as [Hk Hks]. rewrite ksk_body_cons in *.
  destruct (count_word (keyword_enc k) (more_keywords ks) SLASH 1) as (c & Hc & ->);
    [ by apply keyword_enc_no_plus | done | by apply keyword_enc_nonempty | ].
  rewrite count_more by done. cbn [length]. f_equal. f_equal. lia.
Qed.

Section Split.
Context (s : str) (pos : nat) (Hq : forall n, (pos <= n)%nat -> at_quote s n = false).

Lemma split_skip w : forall pre fuel max acc,
  Forall (fun c => c <> PLUS) w -> (pos <= length pre)%nat ->
  forall post, ksk_split (length w + fuel) s pos (Z.of_nat (length (pre ++ w)) - 1)
    (pre ++ w ++ post) false max acc
  = ksk_split fuel s pos (Z.of_nat (length pre) - 1) (pre ++ w ++ post) false max acc.
Proof.
  induction w as [|c w IH] using rev_ind; intros pre fuel max acc Hw Hp post.
  - by rewrite app_nil_r.
  - apply Forall_app in Hw as [Hw Hc]. apply Forall_cons_iff in Hc as [Hc _].
    rewrite length_app. cbn [length]. rewrite Nat.add_1_r. cbn [Nat.add ksk_split].
    assert (Hi : Z.of_nat (length (pre ++ w ++ [c])) - 1 = Z.of_nat (length (pre ++ w)))
      by (rewrite !length_app; cbn [length]; lia).
    rewrite Hi, (proj2 (Z.ltb_ge _ _)) by (rewrite length_app; lia).
    cbv zeta. rewrite Nat2Z.id, Hq by (rewrite length_app; lia).
    assert (Hl : lookup (M:=str) (length (pre ++ w)) (pre ++ (w ++ [c]) ++ post) = Some c).
    { rewrite <- app_assoc, app_assoc. cbn [app]. by apply lookup_pre. }
    rewrite Hl, (proj2 (Z.eqb_neq c PLUS)) by done. cbn [andb].
    rewrite <- (app_assoc w [c] post). apply IH; done.
Qed.

Lemma split_more ks : forall pre fuel max acc,
  Forall keyword_ok ks -> is_short (more_keywords ks) -> (pos <= length pre)%nat -> 0 <= max ->
  ksk_split (length (more_keywords ks) + fuel) s pos
    (Z.of_nat (length (pre ++ more_keywords ks)) - 1) (pre ++ more_keywords ks) false
    (max + Z.of_nat (length ks)) acc
  = ksk_split fuel s pos (Z.of_nat (length pre) - 1) pre false max (ks ++ acc).
Proof.
  induction ks as [|k ks IH] using rev_ind; intros pre fuel max acc Hks Hs Hp Hmax.
  - cbn. by rewrite app_nil_r, Z.add_0_r.
  - apply Forall_app in Hks as [Hks Hk]. apply Forall_cons_iff in Hk as [Hk _].
    unfold more_keywords in *. rewrite flat_map_app in *. cbn [flat_map] in *.
    rewrite app_nil_r in *. fold (more_keywords ks) in *.
    set (m := more_keywords ks) in *. set (e := keyword_enc k) in *.
    assert (Hlen : length (m ++ PLUS :: e) = (length m + S (length e))%nat)
      by (rewrite length_app; done).
    unfold is_short, strlen in Hs. rewrite Hlen in Hs.
    pose proof (split_skip e ((pre ++ m) ++ [PLUS]) (length m + S fuel)
      (max + Z.of_nat (length (ks ++ [k]))) acc (keyword_enc_no_plus k Hk)
      ltac:(rewrite !length_app; lia) []) as Hskip.
    rewrite app_nil_r, <- !app_assoc in Hskip. cbn [app] in Hskip.
    replace (length (m ++ PLUS :: e) + fuel)%nat with (length e + (length m + S fuel))%nat by lia.
    rewrite Hskip. replace (length m + S fuel)%nat with (S (length m + fuel)) by lia.
    cbn [ksk_split].
    assert (Hi : Z.of_nat (length (pre ++ m ++ [PLUS])) - 1 = Z.of_nat (length (pre ++ m)))
      by (rewrite !length_app; cbn [length]; lia).
    rewrite Hi, (proj2 (Z.ltb_ge _ _)) by (rewrite length_app; lia).
    cbv zeta. rewrite Nat2Z.id, Hq by (rewrite length_app; lia).
    rewrite (app_assoc pre m (PLUS :: e)).
    rewrite (lookup_pre (pre ++ m) e PLUS _ eq_refl : lookup (M:=str) _ _ = _), Z.eqb_refl.
    cbn [andb negb].
    rewrite length_app. cbn [length]. rewrite (proj2 (Z.leb_gt _ _)) by lia.
    rewrite (cons_middle PLUS), (app_assoc _ [PLUS]), drop_pre
      by (rewrite !length_app; cbn [length]; lia).
    unfold e at 1. rewrite percent_decode_ok; [ | done | unfold is_short, strlen; fold e; lia ].
    rewrite <- (app_assoc _ [PLUS]), take_pre by done.
    replace (max + Z.of_nat (length ks + 1) - 1) with (max + Z.of_nat (length ks)) by lia.
    rewrite IH by (done || (unfold is_short, strlen; lia)). by rewrite <- app_assoc.
Qed.

End Split.

(** The text neither starts nor ends with a ['+']. *)
Lemma body_last k ks :
  Forall keyword_ok (k :: ks) -> exists b c, ksk_body (k :: ks) = b ++ [c] /\ c <> PLUS.
Proof.
  intros Hall. assert (Hw : exists pre w, ksk_body (k :: ks) = pre ++ keyword_enc w /\ keyword_ok w).
  { rewrite ksk_body_cons. apply Forall_cons_iff in Hall as [Hk Hks].
    destruct ks as [|w ks _] using rev_ind; [ exists [], k; by rewrite app_nil_r | ].
    apply Forall_app in Hks as [_ Hw]. apply Forall_cons_iff in Hw as [Hw _].
    exists (keyword_enc k ++ more_keywords ks ++ [PLUS]), w. split; [ | done ].
    unfold more_keywords. rewrite flat_map_app. cbn [flat_map]. rewrite app_nil_r.
    by rewrite <- !app_assoc. }
  destruct Hw as (pre & w & -> & Hw). pose proof (keyword_enc_no_plus w Hw) as Hp.
  pose proof (keyword_enc_nonempty w Hw) as Hne.
  destruct (keyword_enc w) as [|c e _] using rev_ind; [ done | ].
  apply Forall_app in Hp as [_ Hc]. apply Forall_cons_iff in Hc as [Hc _].
  exists (pre ++ e), c. by rewrite app_assoc.
Qed.

Lemma body_first k ks :
  Forall keyword_ok (k :: ks) -> exists c b, ksk_body (k :: ks) = c :: b /\ c <> PLUS.
Proof.
  intros Hall. apply Forall_cons_iff in Hall as [Hk _]. rewrite ksk_body_cons.
  pose proof (keyword_enc_no_plus k Hk) as Hp. pose proof (keyword_enc_nonempty k Hk) as Hne.
  destruct (keyword_enc k) as [|c e]; [ done | ]. apply Forall_cons_iff in Hp as [Hc _].
  by exists c, (e ++ more_keywords ks).
Qed.

Lemma ksk_parse_ok k ks fuel emsg :
  Forall keyword_ok (k :: ks) -> is_short (ksk_body (k :: ks)) ->
  (length (ksk_body (k :: ks)) < fuel)%nat ->
  uri_ksk_parse fuel (Some (GNUNET_FS_URI_KSK_PREFIX ++ ksk_body (k :: ks))) emsg
  = Some (Ret (Some (ksk (k :: ks)), emsg)).
Proof.
  intros Hall Hs Hf. pose proof (quote_free_body k ks Hall) as Hq.
  pose proof (count_body k ks Hall) as Hcount.
  pose proof Hall as [Hk Hks]%Forall_cons_iff.
  destruct (body_last k ks Hall) as (bl & cl & Hlast & Hcl).
  destruct (body_first k ks Hall) as (cf & bf & Hfirst & Hcf).
  set (P := GNUNET_FS_URI_KSK_PREFIX) in *. set (b := ksk_body (k :: ks)) in *.
  assert (Hb : b = keyword_enc k ++ more_keywords ks) by apply ksk_body_cons.
  assert (HP : length P = 16%nat) by done.
  assert (Hbl : (0 < length b)%nat) by (rewrite Hfirst; cbn [length]; lia).
  unfold uri_ksk_parse. cbv zeta. fold P. rewrite has_prefix_app.
  rewrite (proj2 (Nat.leb_gt _ _)) by (rewrite length_app; lia). cbn [orb negb].
  rewrite (bool_decide_eq_false_2 (lookup (M:=str) (length (P ++ b) - 1)%nat (P ++ b) = Some PLUS)).
  2: { assert (Hc : lookup (M:=str) (length (P ++ b) - 1)%nat (P ++ b) = Some cl); [ | congruence ].
       rewrite Hlast, app_assoc. apply lookup_pre. rewrite (length_app _ [cl]). cbn [length]. lia. }
  rewrite (bool_decide_eq_false_2 (lookup (M:=str) (length P) (P ++ b) = Some PLUS)).
  2: { assert (Hc : lookup (M:=str) (length P) (P ++ b) = Some cf); [ | congruence ].
       rewrite Hfirst. by apply lookup_pre. }
  cbn [orb]. rewrite drop_pre by done. fold b in Hcount. rewrite Hcount.
  assert (Hlen : (length (k :: ks) <= length b)%nat).
  { rewrite Hb. clear -Hk Hks. pose proof (keyword_enc_nonempty k Hk).
    destruct (keyword_enc k); [ done | ]. cbn [app length]. rewrite length_app.
    enough (length ks <= length (more_keywords ks))%nat by lia.
    unfold more_keywords. clear. induction ks as [|k2 ks IH]; cbn [flat_map length]; [ lia | ].
    cbn [app length]. rewrite length_app. lia. }
  rewrite GNUNET_strdup_ok.
  2: { pose proof (alloc_short b 17 Hs ltac:(lia)) as Ha. unfold can_alloc, strlen in *.
       rewrite length_app. lia. }
  rewrite GNUNET_malloc_ok.
  2: { unfold is_short, strlen in Hs. unfold can_alloc.
       change GNUNET_MAX_MALLOC_CHECKED with (40 * 2 ^ 20). lia. }
  assert (Hat : forall n, (length P <= n)%nat -> at_quote (P ++ b) n = false)
    by (intros n Hn; by apply at_quote_free).
  assert (Hsplit : ksk_split fuel (P ++ b) (length P) (Z.of_nat (length (P ++ b)) - 1) (P ++ b) false
    (Z.of_nat (length (k :: ks))) [] = Some (Ret (KskDone (P ++ keyword_enc k) ks 1))).
  { pose proof Hs as Hs'. unfold is_short, strlen in Hs'. rewrite Hb, length_app in Hs'.
    replace fuel with (length (more_keywords ks)
      + (length (keyword_enc k) + S (fuel - length b - 1)))%nat
      by (rewrite Hb, length_app in Hf |- *; lia).
    replace (Z.of_nat (length (k :: ks))) with (1 + Z.of_nat (length ks)) by (cbn [length]; lia).
    pose proof (split_more (P ++ b) (length P) Hat ks (P ++ keyword_enc k)
      (length (keyword_enc k) + S (fuel - length b - 1)) 1 [] Hks
      ltac:(unfold is_short, strlen; lia) ltac:(rewrite length_app; lia) ltac:(lia)) as Hm.
    rewrite <- app_assoc, <- Hb in Hm. rewrite Hm.
    rewrite app_nil_r.
    pose proof (split_skip (P ++ b) (length P) Hat (keyword_enc k) P (S (fuel - length b - 1)) 1 ks
      (keyword_enc_no_plus k Hk) ltac:(lia) []) as Hskip. rewrite app_nil_r in Hskip.
    rewrite Hskip. cbn [ksk_split]. rewrite (proj2 (Z.ltb_lt _ _)) by lia. done. }
  rewrite Hsplit. cbn [mbind option_bind outcome_bind]. f_equal.
  change (1 <=? 0) with false. cbv iota. rewrite drop_pre by done.
  rewrite percent_decode_ok; [ done | done | ].
  unfold is_short, strlen in *. rewrite Hb, length_app in Hs. lia.
Qed.

(** ** The round trip *)

(** A URI whose text can be read back: hash codes, keys and signatures of the right sizes,
    a signature that verifies, and keywords that the text preserves *)
Definition uri_ok `{Rsa} (u : GNUNET_FS_Uri) : Prop :=
  match u with
  | chk fi => fi_ok fi
  | sks ns identifier => is_hash ns /\ is_short identifier
  | ksk ks => ks <> [] /\ Forall keyword_ok ks /\ is_short (ksk_body ks)
  | loc l => location_ok l
  end.

(** C14: Printing a URI and parsing the text gives the URI back, for all four
    kinds: GNUNET_FS_uri_to_string returns a text, and GNUNET_FS_uri_parse of
    it terminates with the same URI and no error message. For content,
    namespace and location URIs this holds exactly if the stack frame has a
    byte of padding behind the 103-byte array upper_enc of
    GNUNET_CRYPTO_hash_from_string2, which stores a NUL there; without padding
    the parse is undefined. All other buffers are large enough. Keyword URIs
    are covered for keywords of 7-bit characters other than NUL and the quote
    (on a quote the parser may not terminate, ksk_parse_quote_diverges), not
    empty behind their mark, and without a plus at the start of an optional
    keyword; texts are at most 2^20 characters, and of u8_toupper it is
    assumed that it keeps text of the base-32 alphabet. *)
Theorem fs_uri_roundtrip `{UpperCaseLaws} `{Rsa} (u : GNUNET_FS_Uri) :
  uri_ok u ->
  exists s, GNUNET_FS_uri_to_string (Some u) = Ret (Some s)
    /\ forall fuel, (length s <= fuel)%nat ->
       GNUNET_FS_uri_parse fuel (Some s)
       = Some (match u with ksk _ => Ret (Some u, None) | _ => when_padded (Some u, None) end).
Proof.
  destruct u as [fi|ns identifier|ks|l]; cbn [uri_ok].
  - intros Hfi. destruct (chk_roundtrip fi 0 Hfi) as (s & Hs & _). exists s. split; [ done | ].
    intros fuel _. destruct (chk_roundtrip fi fuel Hfi) as (s' & Hs' & Hp & _). congruence.
  - intros [Hns Hid]. destruct (sks_roundtrip ns identifier 0 Hns Hid) as (s & Hs & _).
    exists s. split; [ done | ]. intros fuel _.
    destruct (sks_roundtrip ns identifier fuel Hns Hid) as (s' & Hs' & Hp & _). congruence.
  - intros (Hne & Hks & Hshort). exists (GNUNET_FS_URI_KSK_PREFIX ++ ksk_body ks).
    split; [ by apply ksk_to_string_ok | ]. intros fuel Hf. destruct ks as [|k ks]; [ done | ].
    unfold GNUNET_FS_uri_parse. rewrite chk_parse_other by done.
    rewrite ksk_parse_ok; [ done | done | done | rewrite length_app in Hf; revert Hf; uri_lia ].
  - intros Hl. destruct (loc_roundtrip l 0 Hl) as (s & Hs & _). exists s. split; [ done | ].
    intros fuel _. destruct (loc_roundtrip l fuel Hl) as (s' & Hs' & Hp & _). congruence.
Qed.

(** Two keywords, one of them mandatory and with a space in it, and the identity as case
    mapping *)
#[local] Instance sample_rsa : Rsa := {
  rsa_verify _ _ _ := true;
  rsa_key := unit;
  rsa_key_from_file _ := Some tt;
  rsa_key_get_public _ := replicate sizeof_public_key 0;
  rsa_sign _ _ := replicate sizeof_signature 0
}.

(** Text without lower-case letters, in frames whose arrays start at multiples of 16 bytes *)
Definition sample_frame : UpperCase := {|
  u8_toupper s := s;
  upper_enc_frame n := replicate (16 * ((n + 15) / 16)) 0
|}.

Lemma sample_upper_case : @UpperCaseLaws sample_frame.
Proof. by intros s _. Qed.

Lemma sample_frame_padded : @PaddedFrame sample_frame.
Proof. unfold PaddedFrame, padded. vm_compute. lia. Qed.

Definition sample_ksk : GNUNET_FS_Uri := ksk [cs "+a b"; cs " c"].

Definition sample_chk : GNUNET_FS_Uri :=
  chk (mk_fi (GNUNET_htonll 4711) (mk_chk (replicate 16 3735928559) (replicate 16 51966))).

Lemma fs_uri_roundtrip_witness :
  (exists s, GNUNET_FS_uri_to_string (Some sample_ksk) = Ret (Some s)
    /\ GNUNET_FS_uri_parse (H:=sample_frame) (length s) (Some s)
       = Some (Ret (Some sample_ksk, None)))
  /\ exists s, GNUNET_FS_uri_to_string (Some sample_chk) = Ret (Some s)
    /\ GNUNET_FS_uri_parse (H:=sample_frame) (length s) (Some s)
       = Some (Ret (Some sample_chk, None)).
Proof.
  split.
  - destruct (fs_uri_roundtrip (H0:=sample_upper_case) sample_ksk) as (s & Hs & Hp).
    + cbn. split; [ done | ]. split; [ | by vm_compute ].
      constructor; [ | constructor; [ | constructor ] ].
      * exists PLUS, (cs "a b"). split; [ done | ]. split; [ done | ]. split; [ | by left ].
        repeat (constructor; [ vm_compute; split; [ split; congruence | congruence ] | ]). constructor.
      * exists SPACE, (cs "c"). split; [ done | ]. split; [ done | ]. split; [ | by right ].
        repeat (constructor; [ vm_compute; split; [ split; congruence | congruence ] | ]). constructor.
    + exists s. split; [ exact Hs | apply Hp; lia ].
  - destruct (fs_uri_roundtrip (H0:=sample_upper_case) sample_chk) as (s & Hs & Hp).
    + split_and!; [ by vm_compute | | ]; (split; [ done | ]); apply Forall_replicate; by vm_compute.
    + exists s. split; [ exact Hs | ]. rewrite (Hp _ (le_n _)). exact (f_equal Some (is_padded (H0:=sample_frame_padded) _)).
Defined.

(** ** Quotes in a keyword URI *)

Lemma split_quote_diverges s t pos dup max acc :
  s = t ++ cs "%22" -> (pos <= length t)%nat -> (length dup <= length s)%nat ->
  (forall c, lookup (M:=str) (length t + 1)%nat dup = Some c -> c <> PLUS) ->
  (forall c, lookup (M:=str) (length t + 2)%nat dup = Some c -> c <> PLUS) ->
  forall fuel q, ksk_split fuel s pos (Z.of_nat (length t) + 2) dup q max acc = None
    /\ ksk_split fuel s pos (Z.of_nat (length t) + 1) dup q max acc = None
    /\ ksk_split fuel s pos (Z.of_nat (length t)) dup q max acc = None.
Proof.
  intros -> Hpos Hlen H1 H2. induction fuel as [|fuel IH]; intros q; [ done | ].
  assert (Hq0 : at_quote (t ++ cs "%22") (length t) = true).
  { unfold at_quote. rewrite drop_pre by done. apply (has_prefix_app (cs "%22") []). }
  assert (Hq1 : at_quote (t ++ cs "%22") (length t + 1) = false).
  { unfold at_quote. by rewrite drop_app_add. }
  assert (Hq2 : at_quote (t ++ cs "%22") (length t + 2) = false).
  { unfold at_quote. by rewrite drop_app_add. }
  cbn [ksk_split]. rewrite !(proj2 (Z.ltb_ge _ _)) by lia. cbv zeta.
  replace (Z.to_nat (Z.of_nat (length t) + 2)) with (length t + 2)%nat by lia.
  replace (Z.to_nat (Z.of_nat (length t) + 1)) with (length t + 1)%nat by lia.
  rewrite Nat2Z.id, Hq0, Hq1, Hq2.
  replace (Z.of_nat (length t) + 2 - 1) with (Z.of_nat (length t) + 1) by lia.
  replace (Z.of_nat (length t) + 1 - 1) with (Z.of_nat (length t)) by lia.
  replace (Z.of_nat (length t) + 3 - 1) with (Z.of_nat (length t) + 2) by lia.
  split; [ | split; [ | apply IH ] ].
  - destruct (lookup (M:=str) (length t + 2)%nat dup) as [c|] eqn:E; [ | apply IH ].
    rewrite (proj2 (Z.eqb_neq c PLUS)) by (by apply H2). cbn [andb]. apply IH.
  - destruct (lookup (M:=str) (length t + 1)%nat dup) as [c|] eqn:E; [ | apply IH ].
    rewrite (proj2 (Z.eqb_neq c PLUS)) by (by apply H1). cbn [andb]. apply IH.
Qed.

(** A keyword URI whose text ends with an encoded quote (%22), and which the first pass
    of the parser accepts as balanced, is never parsed: for no number of iterations does
    the backward loop of uri_ksk_parse end, since it steps forward over the quote it has
    just found and meets it again. *)
Theorem ksk_parse_quote_diverges `{UpperCase} `{Rsa} (t : str) (max : Z) :
  let s := GNUNET_FS_URI_KSK_PREFIX ++ t ++ cs "%22" in
  is_short t -> head t <> Some PLUS ->
  ksk_count (t ++ cs "%22") SLASH 0 1 false = Some (max, false) -> max <= 2 ^ 20 ->
  forall fuel, GNUNET_FS_uri_parse fuel (Some s) = None.
Proof.
  intros s Hs Hhd Hcount Hmax fuel. unfold GNUNET_FS_uri_parse, s. rewrite chk_parse_other by done.
  enough (Hn : uri_ksk_parse fuel (Some s) None = None) by (unfold s in Hn; by rewrite Hn).
  set (P := GNUNET_FS_URI_KSK_PREFIX) in *. assert (HP : length P = 16%nat) by done.
  assert (Hq : length (cs "%22") = 3%nat) by done.
  unfold uri_ksk_parse. cbv zeta. fold P. unfold s at 1 2. rewrite has_prefix_app.
  rewrite (proj2 (Nat.leb_gt _ _)) by (rewrite !length_app; lia). cbn [orb negb].
  rewrite (bool_decide_eq_false_2 (lookup (M:=str) (length s - 1)%nat s = Some PLUS)).
  2: { assert (Hc : lookup (M:=str) (length s - 1)%nat s = Some 50); [ | congruence ].
       unfold s. change (cs "%22") with ([PERCENT; 50] ++ [50]). rewrite !app_assoc.
       apply lookup_pre. rewrite !length_app. cbn [length]. lia. }
  rewrite (bool_decide_eq_false_2 (lookup (M:=str) (length P) s = Some PLUS)).
  2: { unfold s. destruct t as [|c t].
       - assert (Hc : lookup (M:=str) (length P) (P ++ [] ++ cs "%22") = Some PERCENT);
           [ by apply lookup_pre | congruence ].
       - assert (Hc : lookup (M:=str) (length P) (P ++ (c :: t) ++ cs "%22") = Some c);
           [ by apply lookup_pre | ]. rewrite Hc. exact Hhd. }
  cbn [orb]. unfold s at 1. rewrite drop_pre, Hcount by done.
  rewrite GNUNET_strdup_ok.
  2: { unfold s. pose proof (alloc_short t 20 Hs ltac:(lia)) as Ha. unfold can_alloc, strlen in *.
       rewrite !length_app. lia. }
  rewrite GNUNET_malloc_ok.
  2: { unfold can_alloc. change GNUNET_MAX_MALLOC_CHECKED with (40 * 2 ^ 20). lia. }
  assert (Hs' : s = (P ++ t) ++ cs "%22") by (unfold s; by rewrite app_assoc).
  replace (Z.of_nat (length s) - 1) with (Z.of_nat (length (P ++ t)) + 2)
    by (rewrite Hs', (length_app (P ++ t)); lia).
  destruct (split_quote_diverges s (P ++ t) (length P) s max [] Hs') with (fuel := fuel) (q := false)
    as (Hsp & _ & _).
  - rewrite length_app. lia.
  - done.
  - intros c Hc. enough (lookup (M:=str) (length (P ++ t) + 1)%nat s = Some 50) by congruence.
    rewrite Hs'. change (cs "%22") with ([PERCENT] ++ 50 :: [50]). rewrite app_assoc.
    apply lookup_pre. by rewrite (length_app _ [PERCENT]).
  - intros c Hc. enough (lookup (M:=str) (length (P ++ t) + 2)%nat s = Some 50) by congruence.
    rewrite Hs'. change (cs "%22") with ([PERCENT; 50] ++ [50]). rewrite app_assoc.
    apply lookup_pre. by rewrite (length_app _ [PERCENT; 50]).
  - by rewrite Hsp.
Qed.

(** The text gnunet://fs/ksk/%22a%20b%22 *)
Lemma ksk_parse_quote_diverges_witness :
  forall fuel, GNUNET_FS_uri_parse (H:=sample_frame) fuel
    (Some (cs "gnunet://fs/ksk/%22a%20b%22")) = None.
Proof.
  apply (ksk_parse_quote_diverges (cs "%22a%20b") 1); [ by vm_compute | done | reflexivity | lia ].
Defined.
