(* ===== verification/FsUriKeywords.v ===== *)
(** * Keyword lists of the file-sharing URIs

    A keyword URI is a map from texts to whether the keyword is mandatory ([kmap]); adding,
    removing and merging keywords implement its insertion, deletion and union
    ([ksk_operations_implement_map]).  The keywords that are collected from meta data
    fit the array that the code allocates in advance ([ksk_from_meta_data_fits]).  The
    last part evaluates keyword lists that the text forms do not preserve. *)

From Stdlib Require Import ZArith Lia String.
From stdpp Require Import base list numbers gmap.
From S2P Require Import Prelude MetaData MetaDataSpec CString Strings CryptoAes FsTree FsUri FsUriSpec.
Local Open Scope Z_scope.

(** ** Keyword lists as maps *)

Definition text_of (k : str) : str := drop 1 k.
Definition mandatory (k : str) : bool := bool_decide (head k = Some PLUS).

Definition keyword_marked (k : str) : Prop := head k = Some PLUS \/ head k = Some SPACE.

Record keywords_ok (ks : list str) : Prop := mk_keywords_ok {
  kok_marked : Forall keyword_marked ks;
  kok_distinct : NoDup (text_of <$> ks)
}.

Definition kmap (ks : list str) : gmap str bool :=
  list_to_map ((fun k => (text_of k, mandatory k)) <$> ks).

(** Both maps' keywords; one that is mandatory in either is mandatory. *)
Definition kmerge (m1 m2 : gmap str bool) : gmap str bool :=
  union_with (fun a b => Some (a || b)) m1 m2.

Lemma marked_cons k : keyword_marked k -> exists c, k = c :: text_of k /\ (c = PLUS \/ c = SPACE).
Proof.
  destruct k as [|c t]; intros [Hk|Hk]; try done; injection Hk as ->; eexists; split; auto.
Qed.

Lemma marked_text k : keyword_marked k -> keyword_text k = Ret (text_of k).
Proof. intros Hk. destruct (marked_cons k Hk) as (c & Hc & _). rewrite Hc. done. Qed.

Lemma marked_char k : keyword_marked k ->
  exists c, keyword_char k = Ret c /\ (c =? PLUS) = mandatory k.
Proof.
  intros Hk. destruct (marked_cons k Hk) as (c & Hc & Hm). rewrite Hc. exists c. split; [ done | ].
  unfold mandatory. cbn [head]. by destruct Hm as [->| ->].
Qed.

Lemma keys_of ks : ((fun k => (text_of k, mandatory k)) <$> ks).*1 = text_of <$> ks.
Proof. rewrite <- list_fmap_compose. by apply list_fmap_ext. Qed.

Lemma kmap_lookup_None ks t : kmap ks !! t = None <-> (t ∉ text_of <$> ks).
Proof. unfold kmap. rewrite <- not_elem_of_list_to_map, keys_of. done. Qed.

Lemma kmap_lookup_Some ks k :
  keywords_ok ks -> k ∈ ks -> kmap ks !! text_of k = Some (mandatory k).
Proof.
  intros [_ Hnd] Hin. unfold kmap. apply elem_of_list_to_map_1; [ by rewrite keys_of | ].
  apply list_elem_of_fmap. by exists k.
Qed.

Lemma kmap_cons k ks : kmap (k :: ks) = <[text_of k := mandatory k]> (kmap ks).
Proof. done. Qed.

Lemma kmap_perm ks ks' : keywords_ok ks -> ks ≡ₚ ks' -> kmap ks = kmap ks'.
Proof.
  intros [_ Hnd] Hp. unfold kmap. apply list_to_map_proper; [ by rewrite keys_of | ].
  by apply fmap_Permutation.
Qed.

Lemma keywords_ok_perm ks ks' : ks ≡ₚ ks' -> keywords_ok ks -> keywords_ok ks'.
Proof. intros Hp [Hm Hnd]. split; [ by rewrite <- Hp | by rewrite <- Hp ]. Qed.

Lemma keywords_ok_cons k ks :
  keywords_ok (k :: ks) <-> keyword_marked k /\ (text_of k ∉ text_of <$> ks) /\ keywords_ok ks.
Proof.
  split.
  - intros [Hm Hnd]. apply Forall_cons in Hm as [Hk Hm]. cbn in Hnd. apply NoDup_cons in Hnd as [Hn Hnd].
    split; [ done | ]. split; [ done | by split ].
  - intros (Hk & Hn & [Hm Hnd]). split; [ by constructor | ]. cbn. by apply NoDup_cons.
Qed.

(** The search for a text *)
Lemma keyword_index_spec ks t :
  Forall keyword_marked ks ->
  exists r, keyword_index ks t = Ret r /\
    match r with
    | Some i => exists k, ks !! i = Some k /\ text_of k = t
    | None => t ∉ text_of <$> ks
    end.
Proof.
  induction 1 as [|k ks Hk _ IH]; [ exists None; split; [ done | apply not_elem_of_nil ] | ].
  cbn [keyword_index]. rewrite (bind_ret _ _ _ (marked_text k Hk)). unfold streq.
  destruct (decide (text_of k = t)) as [He|Hne].
  - rewrite bool_decide_eq_true_2 by done. exists (Some 0%nat). split; [ done | ]. by exists k.
  - rewrite bool_decide_eq_false_2 by done. destruct IH as (r & Hr & Hspec).
    rewrite (bind_ret _ _ _ Hr). exists (option_map S r). split; [ done | ].
    destruct r as [i|]; [ done | ]. cbn. apply not_elem_of_cons. split; [ congruence | done ].
Qed.

(** ** The operations *)

Lemma add_keyword_ok ks t m :
  keywords_ok ks -> can_alloc (strlen t + 2) -> can_alloc ((Z.of_nat (length ks) + 1) * 8) ->
  exists ks', GNUNET_FS_uri_ksk_add_keyword (ksk ks) t m = Ret (ksk ks') /\ keywords_ok ks'
    /\ kmap ks' = match kmap ks !! t with Some _ => kmap ks | None => <[t := m]> (kmap ks) end.
Proof.
  intros Hks Ht Ha. cbn [GNUNET_FS_uri_ksk_add_keyword].
  destruct (keyword_index_spec ks t (kok_marked _ Hks)) as (r & Hr & Hspec).
  rewrite (bind_ret _ _ _ Hr). destruct r as [i|].
  - exists ks. split; [ done | ]. split; [ done | ]. destruct Hspec as (k & Hk & <-).
    by rewrite (kmap_lookup_Some ks k Hks (list_elem_of_lookup_2 _ _ _ Hk)).
  - set (k := (if m then PLUS else SPACE) :: t).
    assert (Hk : can_alloc (strlen k + 1)) by (unfold k, strlen in *; cbn [length]; unfold can_alloc in *; lia).
    rewrite (bind_ret _ _ _ (asprintf_ok k Hk)), (bind_ret _ _ _ (GNUNET_malloc_ok _ Ha)).
    exists (ks ++ [k]). split; [ done | ].
    assert (Hp : k :: ks ≡ₚ ks ++ [k]) by apply Permutation_cons_append.
    assert (Hok : keywords_ok (k :: ks)).
    { apply keywords_ok_cons. split; [ | by split ]. unfold k. destruct m; [ by left | by right ]. }
    split; [ by eapply keywords_ok_perm | ]. rewrite <- (kmap_perm _ _ Hok Hp), kmap_cons.
    rewrite (proj2 (kmap_lookup_None ks t) Hspec). by destruct m.
Qed.

(** The last keyword in the place of another: the other is gone. *)
Lemma replace_by_last (ks : list str) i k :
  ks !! i = Some k ->
  exists last, ks !! (length ks - 1)%nat = Some last
    /\ ks ≡ₚ k :: take (length ks - 1) (<[i := last]> ks).
Proof.
  intros Hi. destruct ks as [|l ks0 _] using rev_ind; [ done | ]. exists l.
  rewrite length_app. cbn [length]. replace (length ks0 + 1 - 1)%nat with (length ks0) by lia.
  split; [ by rewrite list_lookup_middle | ].
  destruct (decide (i = length ks0)) as [->|Hne].
  - rewrite list_lookup_middle in Hi by done. injection Hi as <-.
    rewrite insert_app_r_alt by lia. rewrite Nat.sub_diag. cbn [insert list_insert].
    rewrite take_app_length. symmetry. apply Permutation_cons_append.
  - assert (Hlt : (i < length ks0)%nat).
    { apply lookup_lt_Some in Hi. rewrite length_app in Hi. cbn [length] in Hi. lia. }
    rewrite lookup_app_l in Hi by done. rewrite insert_app_l by done.
    rewrite take_app_length' by (by rewrite length_insert).
    rewrite insert_take_drop by done. rewrite <- (take_drop_middle ks0 i k Hi) at 1.
    rewrite <- app_assoc. cbn [app]. rewrite <- Permutation_middle. constructor.
    rewrite (Permutation_app_comm (drop (S i) ks0) [l]). done.
Qed.

Lemma remove_keyword_ok ks t :
  keywords_ok ks ->
  exists ks', GNUNET_FS_uri_ksk_remove_keyword (ksk ks) t = Ret (ksk ks') /\ keywords_ok ks'
    /\ kmap ks' = delete t (kmap ks).
Proof.
  intros Hks. cbn [GNUNET_FS_uri_ksk_remove_keyword].
  destruct (keyword_index_spec ks t (kok_marked _ Hks)) as (r & Hr & Hspec).
  rewrite (bind_ret _ _ _ Hr). destruct r as [i|].
  - destruct Hspec as (k & Hk & <-). destruct (replace_by_last ks i k Hk) as (l & Hl & Hp).
    rewrite Hl. rewrite (bind_ret (of_option (Some l)) _ _ eq_refl).
    set (ks' := take (length ks - 1) (<[i := l]> ks)) in *. exists ks'. split; [ done | ].
    pose proof (keywords_ok_perm _ _ Hp Hks) as Hok.
    rewrite (kmap_perm _ _ Hks Hp), kmap_cons. apply keywords_ok_cons in Hok as (_ & Hn & Hok).
    split; [ done | ]. rewrite delete_insert_eq. symmetry. apply delete_id. by apply kmap_lookup_None.
  - exists ks. split; [ done | ]. split; [ done | ]. symmetry. apply delete_id.
    by apply kmap_lookup_None.
Qed.

Lemma strdup_all_ok ks : Forall (fun k => can_alloc (strlen k + 1)) ks -> strdup_all ks = Ret ks.
Proof.
  induction 1 as [|k ks Hk _ IH]; [ done | ]. cbn [strdup_all].
  by rewrite (bind_ret _ _ _ (GNUNET_strdup_ok k Hk)), (bind_ret _ _ _ IH).
Qed.

(** The state of the merge: [kl] is the list being built, [done] the keywords of the second
    URI already seen *)
Record merged (k1 done kl : list str) : Prop := mk_merged {
  mg_ok : keywords_ok kl;
  mg_first : text_of <$> take (length k1) kl = text_of <$> k1;
  mg_texts : forall t, t ∈ text_of <$> kl -> t ∈ text_of <$> k1 \/ t ∈ text_of <$> done;
  mg_map : kmap kl = kmerge (kmap k1) (kmap done)
}.

Lemma kmerge_insert m1 m2 t b :
  m2 !! t = None ->
  kmerge m1 (<[t := b]> m2)
  = match m1 !! t with
    | Some a => <[t := a || b]> (kmerge m1 m2)
    | None => <[t := b]> (kmerge m1 m2)
    end.
Proof.
  intros Hn. unfold kmerge. apply map_eq. intros u. rewrite lookup_union_with.
  destruct (decide (u = t)) as [->|Hne].
  - rewrite lookup_insert_eq. destruct (m1 !! t); by rewrite lookup_insert_eq.
  - rewrite lookup_insert_ne by done.
    destruct (m1 !! t); rewrite lookup_insert_ne by done; by rewrite lookup_union_with.
Qed.

Lemma promoted_ok kl j k :
  keywords_ok kl -> kl !! j = Some k ->
  let kl' := alter (fun k => PLUS :: drop 1 k) j kl in
  keywords_ok kl' /\ (text_of <$> kl' = text_of <$> kl) /\ kmap kl' = <[text_of k := true]> (kmap kl).
Proof.
  intros Hok Hj kl'. assert (Htexts : text_of <$> kl' = text_of <$> kl).
  { unfold kl'. apply list_eq. intros i. rewrite !list_lookup_fmap.
    destruct (decide (i = j)) as [->|]; [ by rewrite list_lookup_alter_eq, Hj | ].
    by rewrite list_lookup_alter_ne. }
  assert (Hkl' : keywords_ok kl').
  { split; [ | rewrite Htexts; apply Hok ]. apply Forall_alter; [ apply Hok | ]. intros ? _ _. by left. }
  split; [ done | ]. split; [ done | ].
  apply map_eq. intros u. destruct (kmap kl' !! u) as [b|] eqn:E.
  - unfold kmap in E. apply elem_of_list_to_map_2, list_elem_of_fmap in E as (k' & [= -> ->] & Hin).
    apply list_elem_of_lookup in Hin as (i & Hi). unfold kl' in Hi.
    destruct (decide (i = j)) as [->|Hne].
    + rewrite list_lookup_alter_eq, Hj in Hi. injection Hi as <-. by rewrite lookup_insert_eq.
    + rewrite list_lookup_alter_ne in Hi by done.
      assert (text_of k <> text_of k').
      { intros He. apply Hne. eapply (NoDup_lookup _ _ _ (text_of k') (kok_distinct _ Hok));
          rewrite list_lookup_fmap; [ by rewrite Hi | rewrite Hj, <- He; done ]. }
      rewrite lookup_insert_ne by done. symmetry.
      apply kmap_lookup_Some; [ done | by eapply list_elem_of_lookup_2 ].
  - apply kmap_lookup_None in E. rewrite Htexts in E.
    rewrite lookup_insert_ne; [ symmetry; by apply kmap_lookup_None | ].
    intros <-. apply E. apply list_elem_of_fmap. exists k.
    split; [ done | by eapply list_elem_of_lookup_2 ].
Qed.

Lemma merge_step k1 seen kl kp ks :
  merged k1 seen kl -> keyword_marked kp -> (text_of kp ∉ text_of <$> seen) ->
  can_alloc (strlen kp + 1) ->
  exists kl', merge_loop (length k1) kl (kp :: ks) = merge_loop (length k1) kl' ks
    /\ merged k1 (kp :: seen) kl'.
Proof.
  intros [Hok Hfirst Htexts Hmap] Hm Hnew Ha. cbn [merge_loop].
  rewrite (bind_ret _ _ _ (marked_text kp Hm)).
  destruct (marked_char kp Hm) as (c & Hc & Hmand). rewrite (bind_ret _ _ _ Hc), Hmand.
  pose proof (proj2 (kmap_lookup_None seen (text_of kp)) Hnew) as Hseen.
  destruct (keyword_index_spec (take (length k1) kl) (text_of kp)) as (r & Hr & Hspec);
    [ apply Forall_take, Hok | ].
  rewrite (bind_ret _ _ _ Hr). pose proof (kmerge_insert (kmap k1) _ _ (mandatory kp) Hseen) as Hins.
  rewrite <- kmap_cons, <- Hmap in Hins. destruct r as [j|].
  - destruct Hspec as (k & Hk & Htk). apply lookup_take_Some in Hk as [Hk _].
    pose proof (kmap_lookup_Some kl k Hok (list_elem_of_lookup_2 _ _ _ Hk)) as Hlk.
    assert (H1 : kmap k1 !! text_of kp = Some (mandatory k)).
    { rewrite Hmap, Htk in Hlk. unfold kmerge in Hlk. rewrite lookup_union_with, Hseen in Hlk.
      by destruct (kmap k1 !! text_of kp). }
    rewrite H1 in Hins. destruct (mandatory kp).
    + destruct (promoted_ok kl j k Hok Hk) as (Hok' & Htx & Hmp).
      eexists. split; [ done | ]. set (kl' := alter _ j kl) in *. split; [ done | | | ].
      * rewrite !fmap_take in *. by rewrite Htx.
      * intros t. rewrite Htx. intros Ht. destruct (Htexts t Ht) as [|Hd]; [ by left | right ].
        by apply list_elem_of_further.
      * rewrite Hmp, Hins, Htk. by rewrite orb_true_r.
    + exists kl. split; [ done | ]. split; [ done | done | | ].
      * intros t Ht. destruct (Htexts t Ht) as [|Hd]; [ by left | right ]. by apply list_elem_of_further.
      * rewrite Hins, orb_false_r. symmetry. apply insert_id. by rewrite <- Htk.
  - rewrite (bind_ret _ _ _ (GNUNET_strdup_ok kp Ha)). eexists. split; [ done | ].
    rewrite fmap_take, <- fmap_take, Hfirst in Hspec.
    rewrite (proj2 (kmap_lookup_None k1 _) Hspec) in Hins.
    assert (Hlen : (length k1 <= length kl)%nat).
    { apply (f_equal length) in Hfirst. rewrite !length_fmap, length_take in Hfirst. lia. }
    assert (Hp : kp :: kl ≡ₚ kl ++ [kp]) by apply Permutation_cons_append.
    assert (Hok' : keywords_ok (kp :: kl)).
    { apply keywords_ok_cons. split; [ done | ]. split; [ | done ].
      intros Hin. by destruct (Htexts _ Hin). }
    split.
    + by eapply keywords_ok_perm.
    + by rewrite take_app_le by lia.
    + intros t. rewrite fmap_app, elem_of_app. intros [Ht|Ht].
      * destruct (Htexts t Ht) as [|Hd]; [ by left | right ]. by apply list_elem_of_further.
      * right. apply list_elem_of_singleton in Ht as ->. apply list_elem_of_here.
    + rewrite <- (kmap_perm _ _ Hok' Hp), kmap_cons. by rewrite Hins.
Qed.

Lemma merge_loop_ok k1 ks : forall seen kl,
  merged k1 seen kl -> keywords_ok (ks ++ seen) -> Forall (fun k => can_alloc (strlen k + 1)) ks ->
  exists kl', merge_loop (length k1) kl ks = Ret kl' /\ keywords_ok kl'
    /\ kmap kl' = kmerge (kmap k1) (kmap (ks ++ seen)).
Proof.
  induction ks as [|kp ks IH]; intros seen kl Hmg Hok Ha.
  - exists kl. split; [ done | ]. split; [ apply Hmg | ]. apply Hmg.
  - cbn [app] in Hok. pose proof Hok as Hok'. apply keywords_ok_cons in Hok as (Hm & Hn & Hok).
    apply Forall_cons in Ha as [Hkp Ha].
    destruct (merge_step k1 seen kl kp ks Hmg Hm) as (kl' & -> & Hmg'); [ | done | ].
    { intros Hin. apply Hn. rewrite fmap_app. apply elem_of_app. by right. }
    assert (Hp : kp :: ks ++ seen ≡ₚ ks ++ kp :: seen) by apply Permutation_middle.
    destruct (IH (kp :: seen) kl' Hmg') as (r & Hr & Hrok & Hrm);
      [ by eapply keywords_ok_perm | done | ].
    exists r. split; [ done | ]. split; [ done | ]. rewrite Hrm.
    cbn [app]. by rewrite (kmap_perm _ _ Hok' Hp).
Qed.

Lemma merge_ok k1 k2 :
  keywords_ok k1 -> keywords_ok k2 ->
  Forall (fun k => can_alloc (strlen k + 1)) (k1 ++ k2) ->
  can_alloc ((Z.of_nat (length k1) + Z.of_nat (length k2)) * 8) ->
  exists ks, GNUNET_FS_uri_ksk_merge (Some (ksk k1)) (Some (ksk k2)) = Ret (Some (ksk ks))
    /\ keywords_ok ks /\ kmap ks = kmerge (kmap k1) (kmap k2).
Proof.
  intros H1 H2 Hall Ha. apply Forall_app in Hall as [Ha1 Ha2].
  cbn [GNUNET_FS_uri_ksk_merge]. rewrite (bind_ret _ _ _ (GNUNET_malloc_ok _ Ha)).
  rewrite (bind_ret _ _ _ (strdup_all_ok k1 Ha1)).
  destruct (merge_loop_ok k1 k2 [] k1) as (ks & Hks & Hok & Hmap).
  - split; [ done | by rewrite take_ge by lia | by left | ].
    unfold kmerge. apply map_eq. intros t. rewrite lookup_union_with.
    change (kmap [] !! t) with (@None bool). by destruct (kmap k1 !! t).
  - by rewrite app_nil_r.
  - done.
  - rewrite (bind_ret _ _ _ Hks). exists ks. rewrite app_nil_r in Hmap. auto.
Qed.

(** ** Specification and refinement *)

(** What a keyword URI promises: a map from texts to the mark, under the three operations.
    The side condition of an operation is that its allocations are within the limit. *)
Inductive kw_op :=
  | KwAdd (t : str) (m : bool)
  | KwRemove (t : str)
  | KwMerge (ks : list str).

Definition kw_spec (m : gmap str bool) (op : kw_op) : gmap str bool :=
  match op with
  | KwAdd t b => match m !! t with Some _ => m | None => <[t := b]> m end
  | KwRemove t => delete t m
  | KwMerge ks => kmerge m (kmap ks)
  end.

Definition kw_run (u : GNUNET_FS_Uri) (op : kw_op) : outcome GNUNET_FS_Uri :=
  match op with
  | KwAdd t b => GNUNET_FS_uri_ksk_add_keyword u t b
  | KwRemove t => GNUNET_FS_uri_ksk_remove_keyword u t
  | KwMerge ks =>
      r ← GNUNET_FS_uri_ksk_merge (Some u) (Some (ksk ks));
      of_option r
  end.

Definition kw_fits (ks : list str) (op : kw_op) : Prop :=
  match op with
  | KwAdd t _ => can_alloc (strlen t + 2) /\ can_alloc ((Z.of_nat (length ks) + 1) * 8)
  | KwRemove _ => True
  | KwMerge k2 => keywords_ok k2 /\ Forall (fun k => can_alloc (strlen k + 1)) (ks ++ k2)
      /\ can_alloc ((Z.of_nat (length ks) + Z.of_nat (length k2)) * 8)
  end.

(** C31: The keyword list of a KSK URI implements a map from keyword texts to
    their mandatory mark: adding a keyword inserts it unless its text is
    present, removing deletes it (although the code moves the last keyword
    into the gap), and merging two lists gives the union in which a keyword is
    mandatory when either list marks it so; each operation returns and keeps
    the texts distinct. *)
Theorem ksk_operations_implement_map (ks : list str) (op : kw_op) :
  keywords_ok ks -> kw_fits ks op ->
  exists ks', kw_run (ksk ks) op = Ret (ksk ks') /\ keywords_ok ks'
    /\ kmap ks' = kw_spec (kmap ks) op.
Proof.
  intros Hks. destruct op as [t b|t|k2]; cbn [kw_fits kw_run kw_spec].
  - intros [Ht Ha]. by apply add_keyword_ok.
  - intros _. by apply remove_keyword_ok.
  - intros (H2 & Hall & Ha). destruct (merge_ok ks k2 Hks H2 Hall Ha) as (r & Hr & Hrest).
    exists r. by rewrite (bind_ret _ _ _ Hr).
Qed.

(** Merging [" a"; " b"] with ["+b"; " c"] *)
Lemma ksk_operations_implement_map_witness :
  exists ks', kw_run (ksk [cs " a"; cs " b"]) (KwMerge [cs "+b"; cs " c"]) = Ret (ksk ks')
    /\ kmap ks' = kw_spec (kmap [cs " a"; cs " b"]) (KwMerge [cs "+b"; cs " c"]).
Proof.
  assert (Hok : forall a b, keyword_marked a -> keyword_marked b -> text_of a <> text_of b ->
    keywords_ok [a; b]).
  { intros a b Ha Hb Hab. split; [ apply Forall_cons; split; [ done | ]; apply Forall_cons; split; [ done | constructor ] | ].
    cbn. apply NoDup_cons.
    split; [ | apply NoDup_singleton ]. intros Hin. by apply list_elem_of_singleton in Hin. }
  destruct (ksk_operations_implement_map [cs " a"; cs " b"] (KwMerge [cs "+b"; cs " c"]))
    as (ks' & Hr & _ & Hm).
  - apply Hok; [ by right | by right | discriminate ].
  - split; [ apply Hok; [ by left | by right | discriminate ] | ].
    split; [ | by vm_compute ]. repeat (constructor; [ by vm_compute | ]). constructor.
  - exists ks'. split; [ exact Hr | exact Hm ].
Defined.

(** ** Keywords from meta data *)

(** What is assumed of libunistring besides [Unistring]: the lower-case form of a string has
    no NUL in it and is at most twelve times as long. *)
Class UnistringLaws `{Unistring} :=
  u8_tolower_ok : forall s n, u8_tolower s = Some n -> is_cstr n /\ strlen n <= 12 * strlen s.

Section FromMetaData.
Context `{Extractor} `{UnistringLaws}.

Lemma u8_count_ok fuel (s : str) count :
  (length s < fuel)%nat -> exists n, u8_count_loop fuel (Some s) count = Some n.
Proof.
  revert s count. induction fuel as [|fuel IH]; intros s count Hf; [ lia | ]. cbn [u8_count_loop].
  destruct (u8_next s) as [r|] eqn:E.
  - apply IH. apply u8_next_shorter in E. lia.
  - exists (count + 1). by destruct fuel.
Qed.

Lemma long_enough_ok s : exists b, keyword_long_enough s = Ret b.
Proof.
  unfold keyword_long_enough. destruct s as [|c s]; [ by eexists | ]. unfold u8_strcount.
  destruct (u8_count_ok (length (c :: s) + 1) (c :: s) 0 ltac:(lia)) as [n ->]. by eexists.
Qed.

Definition fits_keyword (s : str) : Prop := can_alloc (strlen s + 2).

Lemma short_fits s : is_short s -> fits_keyword s.
Proof. intros Hs. apply (alloc_short s 2 Hs). lia. Qed.

Lemma normalize_metadata_ok format s :
  is_short s -> exists r, normalize_metadata format s = Ret r /\ forall n, r = Some n -> fits_keyword n.
Proof.
  intros Hs. unfold normalize_metadata. cbv zeta. case_match; [ by exists None | ].
  destruct (u8_tolower s) as [n|] eqn:E; [ | by exists None ].
  destruct (u8_tolower_ok s n E) as [Hc Hl]. exists (Some n).
  assert (Hf : can_alloc (strlen n + 2)).
  { unfold is_short, can_alloc in *. change GNUNET_MAX_MALLOC_CHECKED with (40 * 2 ^ 20). lia. }
  split; [ | by intros n' [= <-] ].
  rewrite (bind_ret _ _ _ (alloc_str_ok (strlen n + 1) n Hc ltac:(lia)
    ltac:(unfold can_alloc in *; lia))). done.
Qed.

(** The array after a step: still distinct keywords, at most [d] more *)
Definition grown (a a' : list str) (d : Z) : Prop :=
  keywords_ok a' /\ Z.of_nat (length a) <= Z.of_nat (length a') <= Z.of_nat (length a) + d.

Lemma grown_trans a b c d e : grown a b d -> grown b c e -> grown a c (d + e).
Proof. unfold grown. intros [? ?] [? ?]. split; [ done | lia ]. Qed.

Lemma grown_weaken a b d e : grown a b d -> d <= e -> grown a b e.
Proof. unfold grown. intros [? ?] ?. split; [ done | lia ]. Qed.

Lemma grown_refl a : keywords_ok a -> grown a a 0.
Proof. intros Ha. split; [ done | lia ]. Qed.

Lemma add_new_ok cap s a :
  keywords_ok a -> fits_keyword s -> Z.of_nat (length a) < cap ->
  exists a', add_new cap s a = Ret a' /\ grown a a' 1.
Proof.
  intros Ha Hs Hcap. unfold add_new, find_duplicate.
  destruct (keyword_index_spec (reverse a) s) as (r & Hr & Hspec);
    [ apply Forall_reverse, Ha | ].
  rewrite bind_bind, (bind_ret _ _ _ Hr). rewrite (bind_ret (Ret _) _ _ eq_refl).
  destruct r as [i|]; [ exists a; split; [ done | split; [ done | lia ] ] | ].
  unfold insert_non_mandatory_keyword. unfold fits_keyword in Hs.
  assert (Hk : can_alloc (strlen (SPACE :: s) + 1)) by (unfold strlen, can_alloc in *; cbn [length]; lia).
  rewrite (bind_ret _ _ _ (asprintf_ok _ Hk)), (proj2 (Z.ltb_lt _ _) Hcap).
  eexists. split; [ done | ]. split; [ | rewrite length_app; cbn [length]; lia ].
  apply (keywords_ok_perm ((SPACE :: s) :: a)); [ apply Permutation_cons_append | ].
  apply keywords_ok_cons. split; [ by right | ]. split; [ | done ].
  rewrite fmap_reverse in Hspec. intros Hin. apply Hspec. by apply elem_of_reverse.
Qed.

Lemma add_token_ok cap p a :
  keywords_ok a -> is_short p -> Z.of_nat (length a) + 2 <= cap ->
  exists a', add_token cap p a = Ret a' /\ grown a a' 2.
Proof.
  intros Ha Hp Hcap. unfold add_token.
  destruct (add_new_ok cap p a Ha (short_fits p Hp) ltac:(lia)) as (a1 & Hs1 & Hg1).
  rewrite (bind_ret _ _ _ Hs1).
  destruct (normalize_metadata_ok EXTRACTOR_METAFORMAT_UTF8 p Hp) as (r & Hr & Hfits).
  rewrite (bind_ret _ _ _ Hr). destruct r as [n|].
  - destruct (add_new_ok cap n a1 (proj1 Hg1) (Hfits n eq_refl)) as (a2 & Hs2 & Hg2);
      [ destruct Hg1; lia | ].
    exists a2. split; [ done | ]. exact (grown_trans _ _ _ _ _ Hg1 Hg2).
  - exists a1. split; [ done | ]. apply (grown_weaken _ _ 1); [ done | lia ].
Qed.

Lemma count_tokens_ok toks c :
  exists n, count_tokens toks c = Ret (c + n) /\ 0 <= n <= Z.of_nat (length toks).
Proof.
  revert c. induction toks as [|p toks IH]; intros c; cbn [count_tokens length].
  - exists 0. rewrite Z.add_0_r. split; [ done | lia ].
  - destruct (long_enough_ok p) as (b & Hb). rewrite (bind_ret _ _ _ Hb).
    destruct (IH (if b then c + 1 else c)) as (n & -> & Hn).
    destruct b; [ exists (n + 1) | exists n ]; (split; [ f_equal; lia | lia ]).
Qed.

Lemma add_tokens_ok cap toks : forall c n a,
  Forall is_short toks -> count_tokens toks c = Ret (c + n) -> keywords_ok a ->
  Z.of_nat (length a) + 2 * n <= cap ->
  exists a', add_tokens cap toks a = Ret a' /\ grown a a' (2 * n).
Proof.
  induction toks as [|p toks IH]; intros c n a Hs Hc Ha Hcap; cbn [count_tokens add_tokens] in *.
  - injection Hc as Hc. exists a. split; [ done | ].
    apply (grown_weaken _ _ 0); [ by apply grown_refl | lia ].
  - apply Forall_cons in Hs as [Hp Hs]. destruct (long_enough_ok p) as (b & Hb).
    rewrite (bind_ret _ _ _ Hb) in Hc. rewrite (bind_ret _ _ _ Hb).
    destruct b; cbv beta iota in Hc.
    + destruct (count_tokens_ok toks (c + 1)) as (n' & Hn' & Hr).
      rewrite Hn' in Hc. injection Hc as Hc.
      destruct (add_token_ok cap p a Ha Hp ltac:(lia)) as (a1 & Hs1 & Hg1).
      rewrite (bind_ret _ _ _ Hs1).
      destruct (IH (c + 1) n' a1 Hs Hn' (proj1 Hg1)) as (a2 & Hs2 & Hg2); [ destruct Hg1; lia | ].
      exists a2. split; [ done | ].
      apply (grown_weaken _ _ (2 + 2 * n')); [ exact (grown_trans _ _ _ _ _ Hg1 Hg2) | lia ].
    + rewrite (bind_ret (Ret a) _ _ eq_refl). by apply (IH c n a).
Qed.

(** *** The tokens of a file name *)

Lemma strtok_set_ok w s :
  Forall (fun t => (length t <= length w + length s)%nat) (strtok_set w s)
  /\ (length (strtok_set w s) <= length s + (if decide (w = []) then 0 else 1))%nat.
Proof.
  revert w. induction s as [|c s IH]; intros w; cbn [strtok_set length].
  - destruct w as [|b w]; [ split; [ constructor | cbn; lia ] | ].
    rewrite decide_False by done. split; [ | cbn [length]; lia ].
    constructor; [ rewrite length_reverse; lia | constructor ].
  - case_match.
    + destruct (IH []) as [Hf Hl]. rewrite decide_True in Hl by done. cbn [length] in Hf.
      assert (Hf' : Forall (fun t => (length t <= length w + S (length s))%nat) (strtok_set [] s))
        by (eapply Forall_impl; [ exact Hf | cbn; lia ]).
      destruct w as [|b w].
      * split; [ done | lia ].
      * rewrite decide_False by done. split; [ | cbn [length]; lia ].
        constructor; [ rewrite length_reverse; lia | done ].
    + destruct (IH (c :: w)) as [Hf Hl]. split.
      * eapply Forall_impl; [ exact Hf | cbn; lia ].
      * rewrite decide_False in Hl by done. destruct (decide (w = [])); lia.
Qed.

Lemma keyword_span_length n (f : Z -> bool) (s t r : str) : span n f s = (t, r) -> (length t <= length s)%nat.
Proof.
  revert s t r. induction n as [|n IH]; intros s t r; [ by intros [= <- _]; cbn; lia | ].
  destruct s as [|c s]; cbn [span]; [ by intros [= <- _] | ].
  destruct (f c); [ | intros [= <- _]; cbn; lia ].
  destruct (span n f s) as [t' r'] eqn:E. intros [= <- _]. cbn [length]. apply IH in E. lia.
Qed.

Lemma paren_tokens_ok s :
  Forall (fun t => (length t <= length s)%nat) (paren_tokens s)
  /\ (length (paren_tokens s) <= length s)%nat.
Proof.
  induction s as [|c s [IHf IHl]]; cbn [paren_tokens length]; [ split; [ constructor | lia ] | ].
  assert (Hf' : Forall (fun t => (length t <= S (length s))%nat) (paren_tokens s))
    by (eapply Forall_impl; [ exact IHf | cbn; lia ]).
  rewrite length_app.
  set (head_tok := if is_open c then _ else _).
  assert (Hh : Forall (fun t => (length t <= S (length s))%nat) head_tok /\ (length head_tok <= 1)%nat).
  { unfold head_tok. destruct (is_open c); [ | split; [ constructor | cbn; lia ] ].
    destruct (span _ _ s) as [t r] eqn:E. apply keyword_span_length in E.
    destruct t as [|b t]; [ split; [ constructor | cbn; lia ] | ].
    destruct r as [|close r]; [ split; [ constructor | cbn; lia ] | ].
    destruct (parens_match c close); [ | split; [ constructor | cbn; lia ] ].
    split; [ constructor; [ cbn in *; lia | constructor ] | cbn; lia ]. }
  destruct Hh as [Hh1 Hh2]. split; [ by apply Forall_app | lia ].
Qed.

Lemma base_name_short s : is_short s -> is_short (base_name s).
Proof.
  intros Hs. unfold base_name. destruct (strrchr s SLASH) as [r|] eqn:E; [ | done ].
  assert (Hl : (length r <= length s)%nat).
  { revert r E. clear. induction s as [|c s IH]; intros r; cbn [strrchr]; [ done | ].
    destruct (strrchr s SLASH) as [r'|].
    - intros [= <-]. specialize (IH r' eq_refl). cbn [length]. lia.
    - destruct (c =? SLASH); [ | done ]. intros [= <-]. done. }
  unfold is_short, strlen in *. rewrite length_drop. lia.
Qed.

Lemma short_tokens (l : list str) (s : str) :
  is_short s -> Forall (fun t => (length t <= length s)%nat) l -> Forall is_short l.
Proof.
  intros Hs Hl. eapply Forall_impl; [ exact Hl | ]. cbn. unfold is_short, strlen in *. lia.
Qed.

(** *** The items *)

Definition texts_ok (md : GNUNET_CONTAINER_MetaData) : Prop :=
  Forall (fun i => is_text (item_format i) = true ->
    exists d, c_str (item_data i) = Ret d /\ is_short d) (md_items md).

Lemma gather_ok cap a i :
  keywords_ok a -> Z.of_nat (length a) + 2 <= cap ->
  (is_text (item_format i) = true -> exists d, c_str (item_data i) = Ret d /\ is_short d) ->
  exists a', gather_uri_data cap a i = Ret (a', 0) /\ grown a a' 2.
Proof.
  intros Ha Hcap Hi. unfold gather_uri_data.
  assert (Hsame : grown a a 2) by (apply (grown_weaken _ _ 0); [ by apply grown_refl | lia ]).
  destruct (is_text (item_format i)) eqn:E; cbn [negb]; [ | by exists a ].
  destruct (Hi eq_refl) as (d & Hd & Hs). rewrite (bind_ret _ _ _ Hd).
  destruct (long_enough_ok d) as (b & Hb). rewrite (bind_ret _ _ _ Hb).
  destruct b; cbn [negb]; [ | by exists a ].
  destruct (normalize_metadata_ok (item_format i) d Hs) as (r & Hr & Hfits). rewrite (bind_ret _ _ _ Hr).
  destruct (add_new_ok cap d a Ha (short_fits d Hs) ltac:(lia)) as (a1 & Hs1 & Hg1).
  rewrite (bind_ret _ _ _ Hs1). destruct r as [n|].
  - destruct (add_new_ok cap n a1 (proj1 Hg1) (Hfits n eq_refl)) as (a2 & Hs2 & Hg2);
      [ destruct Hg1; lia | ].
    rewrite (bind_ret _ _ _ Hs2). exists a2. split; [ done | ]. exact (grown_trans _ _ _ _ _ Hg1 Hg2).
  - exists a1. split; [ done | ]. apply (grown_weaken _ _ 1); [ done | lia ].
Qed.

Lemma gather_all_ok cap l : forall a,
  Forall (fun i => is_text (item_format i) = true ->
    exists d, c_str (item_data i) = Ret d /\ is_short d) l ->
  keywords_ok a -> Z.of_nat (length a) + 2 * Z.of_nat (length l) <= cap ->
  exists a', iterate_items (gather_uri_data cap) a l = Ret a' /\ grown a a' (2 * Z.of_nat (length l)).
Proof.
  induction l as [|i l IH]; intros a Hl Ha Hcap; cbn [iterate_items length] in *.
  - exists a. split; [ done | by apply grown_refl ].
  - apply Forall_cons in Hl as [Hi Hl].
    destruct (gather_ok cap a i Ha ltac:(lia) Hi) as (a1 & Hs1 & Hg1).
    rewrite (bind_ret _ _ _ Hs1). cbn [negb Z.eqb].
    destruct (IH a1 Hl (proj1 Hg1)) as (a2 & Hs2 & Hg2); [ destruct Hg1; lia | ].
    exists a2. split; [ done | ].
    apply (grown_weaken _ _ (2 + 2 * Z.of_nat (length l))); [ | lia ].
    exact (grown_trans _ _ _ _ _ Hg1 Hg2).
Qed.

Lemma file_name_ok md type :
  texts_ok md ->
  exists r, GNUNET_CONTAINER_meta_data_get_first_by_types (Some md) [type] = Ret r
    /\ forall s, r = Some s -> is_short s.
Proof.
  intros Hmd. unfold texts_ok in Hmd. cbn [GNUNET_CONTAINER_meta_data_get_first_by_types].
  assert (Hg : exists r, get_by_type_loop type (md_items md) = Ret r /\ forall s, r = Some s -> is_short s).
  { induction Hmd as [|i l Hi _ IH]; cbn [get_by_type_loop]; [ by exists None | ].
    destruct (type =? item_type i); cbn [andb]; [ | exact IH ].
    destruct (is_text (item_format i)); [ | exact IH ].
    destruct (Hi eq_refl) as (d & Hd & Hs). rewrite (bind_ret _ _ _ Hd).
    rewrite (bind_ret _ _ _ (GNUNET_strdup_ok d (alloc_short d 1 Hs ltac:(lia)))).
    exists (Some d). split; [ done | ]. by intros s [= <-]. }
  destruct Hg as (r & Hr & Hs). cbn [GNUNET_CONTAINER_meta_data_get_by_type].
  rewrite (bind_ret _ _ _ Hr). destruct r as [s|]; eauto.
Qed.

Lemma count_parens s : is_short s ->
  exists n, get_keywords_from_parens s None = Ret (n, []) /\ 0 <= n <= strlen s
    /\ forall cap a, keywords_ok a -> Z.of_nat (length a) + 2 * n <= cap ->
       exists d a', get_keywords_from_parens s (Some (cap, a)) = Ret (d, a') /\ grown a a' (2 * n).
Proof.
  intros Hs. unfold get_keywords_from_parens.
  rewrite (bind_ret _ _ _ (GNUNET_strdup_ok s (alloc_short s 1 Hs ltac:(lia)))).
  destruct (paren_tokens_ok s) as [Hf Hl].
  destruct (count_tokens_ok (paren_tokens s) 0) as (n & Hn & Hr).
  rewrite (bind_ret _ _ _ Hn). exists n. split; [ done | ]. split; [ unfold strlen; lia | ].
  intros cap a Ha Hcap.
  rewrite (bind_ret _ _ _ (GNUNET_strdup_ok s (alloc_short s 1 Hs ltac:(lia)))).
  destruct (add_tokens_ok cap _ 0 n a (short_tokens _ s Hs Hf) Hn Ha Hcap) as (a' & Ha' & Hg).
  rewrite (bind_ret _ _ _ Ha'). eauto.
Qed.

Lemma count_strtok s : is_short s ->
  exists n, get_keywords_from_tokens s None = Ret (n, []) /\ 0 <= n <= strlen s
    /\ forall cap a, keywords_ok a -> Z.of_nat (length a) + 2 * n <= cap ->
       exists d a', get_keywords_from_tokens s (Some (cap, a)) = Ret (d, a') /\ grown a a' (2 * n).
Proof.
  intros Hs. unfold get_keywords_from_tokens.
  rewrite (bind_ret _ _ _ (GNUNET_strdup_ok s (alloc_short s 1 Hs ltac:(lia)))).
  destruct (strtok_set_ok [] s) as [Hf Hl]. rewrite decide_True in Hl by done.
  destruct (count_tokens_ok (strtok_set [] s) 0) as (n & Hn & Hr).
  rewrite (bind_ret _ _ _ Hn). exists n. split; [ done | ]. split; [ unfold strlen; lia | ].
  intros cap a Ha Hcap.
  rewrite (bind_ret _ _ _ (GNUNET_strdup_ok s (alloc_short s 1 Hs ltac:(lia)))).
  destruct (add_tokens_ok cap _ 0 n a (short_tokens _ s Hs Hf) Hn Ha Hcap) as (a' & Ha' & Hg).
  rewrite (bind_ret _ _ _ Ha'). eauto.
Qed.

(** Adding the keywords that were counted, if there are any *)
Lemma add_counted (f : str -> option (Z * list str) -> outcome (Z * list str)) s n cap a :
  (0 < n -> forall cap a, keywords_ok a -> Z.of_nat (length a) + 2 * n <= cap ->
     exists d a', f s (Some (cap, a)) = Ret (d, a') /\ grown a a' (2 * n)) ->
  0 <= n -> keywords_ok a -> Z.of_nat (length a) + 2 * n <= cap ->
  exists a', (if 0 <? n then '(_, a) ← f s (Some (cap, a)); Ret a else Ret a) = Ret a'
    /\ grown a a' (2 * n).
Proof.
  intros Hf Hn Ha Hcap. destruct (0 <? n) eqn:E.
  - apply Z.ltb_lt in E. destruct (Hf E cap a Ha Hcap) as (d & a' & Heq & Hg). rewrite (bind_ret _ _ _ Heq). eauto.
  - exists a. split; [ done | ]. apply (grown_weaken _ _ 0); [ by apply grown_refl | lia ].
Qed.

End FromMetaData.

(** Collecting keywords from meta data (up to 2^19 items, texts of up to
    1 MiB) always returns a keyword URI: the array that is allocated in
    advance, two entries for each item, token and parenthesised text of the
    file name, is never overrun, and no keyword is listed twice, whatever the
    case mapping of libunistring does. *)
Theorem ksk_from_meta_data_fits `{Extractor} `{UnistringLaws} (md : GNUNET_CONTAINER_MetaData) :
  texts_ok md -> item_count md = Z.of_nat (length (md_items md)) -> item_count md <= 2 ^ 19 ->
  exists ks, GNUNET_FS_uri_ksk_create_from_meta_data (Some md) = Ret (Some (ksk ks))
    /\ keywords_ok ks.
Proof.
  intros Hmd Hcount Hmax. unfold GNUNET_FS_uri_ksk_create_from_meta_data.
  cbn [GNUNET_CONTAINER_meta_data_iterate]. rewrite (bind_ret (Ret _) _ _ eq_refl).
  cbv beta iota. rewrite s32_small by lia.
  assert (Hnil : keywords_ok []) by (split; [ constructor | apply NoDup_nil_2 ]).
  destruct (0 <? item_count md) eqn:E; cbn [negb]; [ apply Z.ltb_lt in E | by exists [] ].
  destruct (file_name_ok md EXTRACTOR_METATYPE_GNUNET_ORIGINAL_FILENAME Hmd) as (r & Hr & Hshort).
  rewrite (bind_ret _ _ _ Hr). cbv zeta.
  set (filename := base_name (default [] r)).
  assert (Hfs : is_short filename).
  { apply base_name_short. destruct r as [s|]; [ by apply Hshort | by vm_compute ]. }
  destruct (count_strtok filename Hfs) as (nt & Hnt & Hrt & Haddt).
  destruct (count_parens filename Hfs) as (np & Hnp & Hrp & Haddp).
  assert (Hcounts : exists tok par,
    match r with
    | None => Ret (0, 0)
    | Some _ =>
        '(t, _) ← get_keywords_from_tokens filename None;
        '(p, _) ← get_keywords_from_parens filename None;
        Ret (t, p)
    end = Ret (tok, par) /\ (tok = nt \/ tok = 0) /\ (par = np \/ par = 0)).
  { destruct r; [ exists nt, np | exists 0, 0; auto ].
    rewrite (bind_ret _ _ _ Hnt), (bind_ret _ _ _ Hnp). auto. }
  destruct Hcounts as (tok & par & Hc & Htok & Hpar). rewrite (bind_ret _ _ _ Hc). cbv beta iota.
  unfold is_short in Hfs.
  assert (Hbound : 0 <= tok <= strlen filename /\ 0 <= par <= strlen filename) by lia.
  set (cap := (item_count md + tok + par) * 2).
  assert (Ha : can_alloc (8 * cap)).
  { unfold can_alloc, cap. change GNUNET_MAX_MALLOC_CHECKED with (40 * 2 ^ 20). lia. }
  rewrite (bind_ret _ _ _ (GNUNET_malloc_ok _ Ha)).
  destruct (gather_all_ok cap (md_items md) [] Hmd Hnil) as (a1 & Hg1 & Hgr1);
    [ cbn [length]; unfold cap; lia | ].
  rewrite bind_bind, (bind_ret _ _ _ Hg1), (bind_ret (Ret _) _ _ eq_refl). cbv beta iota.
  destruct Hgr1 as [Hok1 Hlen1]. cbn [length] in Hlen1.
  destruct (add_counted get_keywords_from_tokens filename tok cap a1) as (a2 & Heq2 & Hok2 & Hlen2);
    [ destruct Htok as [->| ->]; [ auto | lia ] | lia | done | unfold cap; lia | ].
  rewrite (bind_ret _ _ _ Heq2).
  destruct (add_counted get_keywords_from_parens filename par cap a2) as (a3 & Heq3 & Hok3 & _);
    [ destruct Hpar as [->| ->]; [ auto | lia ] | lia | done | unfold cap; lia | ].
  rewrite (bind_ret _ _ _ Heq3). by exists a3.
Qed.

(** A file name with parentheses, and ASCII as character set *)
Definition ascii_next (s : str) : option str := match s with [] => None | _ :: r => Some r end.

Lemma ascii_next_shorter s r : ascii_next s = Some r -> (length r < length s)%nat.
Proof. destruct s; [ done | ]. intros [= <-]. cbn. lia. Qed.

#[local] Instance sample_unistring : Unistring := {
  u8_next := ascii_next;
  u8_check _ := true;
  u8_strconv_from_encoding s := Some s;
  u8_tolower s := if bool_decide (Forall (fun c => c <> 0) s) then Some (lowercase s) else None;
  u8_next_end := eq_refl;
  u8_next_shorter := ascii_next_shorter
}.

#[local] Instance sample_unistring_laws : UnistringLaws.
Proof.
  intros s n Hn. cbn in Hn. case_bool_decide as Hs; [ | done ]. injection Hn as <-. split.
  - unfold lowercase, is_cstr. apply Forall_fmap. eapply Forall_impl; [ exact Hs | ]. cbn.
    unfold ascii_lower. intros c Hc. case_match; lia.
  - unfold strlen. rewrite lower_length. lia.
Qed.

Definition sample_name_md : GNUNET_CONTAINER_MetaData :=
  mk_md [mk_item None None (cs "/tmp/My File (Draft).txt" ++ [0])
           (@EXTRACTOR_METATYPE_GNUNET_ORIGINAL_FILENAME sample_extractor)
           (@EXTRACTOR_METAFORMAT_UTF8 sample_extractor)] None 1.

Lemma ksk_from_meta_data_fits_witness :
  exists ks, GNUNET_FS_uri_ksk_create_from_meta_data (H:=sample_extractor) (Some sample_name_md)
    = Ret (Some (ksk ks)) /\ keywords_ok ks.
Proof.
  apply (ksk_from_meta_data_fits (H:=sample_extractor) sample_name_md).
  - unfold texts_ok. constructor; [ | constructor ]. intros _.
    exists (cs "/tmp/My File (Draft).txt"). split; [ reflexivity | by vm_compute ].
  - reflexivity.
  - vm_compute. discriminate.
Defined.

(** The keywords of that file: the name, its lower-case form, and the words of three or more
    letters *)
Example sample_name_keywords :
  GNUNET_FS_uri_ksk_create_from_meta_data (H:=sample_extractor) (Some sample_name_md)
  = Ret (Some (ksk [cs " /tmp/My File (Draft).txt"; cs " /tmp/my file (draft).txt";
      cs " File"; cs " file"; cs " Draft"; cs " draft"; cs " txt"])).
Proof. vm_compute. reflexivity. Qed.

(** ** Texts that do not give the keywords back *)

(** A byte above 127 is printed with its sign: the text of the letter e with an accent is
    longer than the buffer. *)
Example ksk_to_string_overruns :
  GNUNET_FS_uri_to_string (Some (ksk [[SPACE; 195; 169]])) = Undefined.
Proof. vm_compute. reflexivity. Qed.

(** With room behind it, the byte is lost: both bytes become FF. *)
Example ksk_to_string_loses_bytes :
  GNUNET_FS_uri_to_string (Some (ksk [[SPACE; 195; 169] ++ cs "        "]))
  = Ret (Some (cs "gnunet://fs/ksk/%FF%FF%20%20%20%20%20%20%20%20")).
Proof. vm_compute. reflexivity. Qed.

(** A percent sign with a single digit at the end makes the decoder read past the string. *)
Example percent_decode_overreads : percent_decode_keyword (cs "a%4") = Undefined.
Proof. vm_compute. reflexivity. Qed.

(** The readable form of a mandatory keyword with a space reads back as an optional keyword
    that starts with a plus sign. *)
Example ksk_fancy_loses_mandatory :
  GNUNET_FS_uri_ksk_to_string_fancy (Some (ksk [cs "+a b"]))
  = Ret (Some (QUOTE :: cs "+a b" ++ [QUOTE; SPACE]))
  /\ split_words (QUOTE :: cs "+a b" ++ [QUOTE; SPACE]) false false [] = [QUOTE :: cs "+a b" ++ [QUOTE]]
  /\ keywords_of_args [QUOTE :: cs "+a b" ++ [QUOTE]] = Ret [cs " +a b"].
Proof. vm_compute. done. Qed.

(** Two keyword lists with a repeated keyword are equal in one direction only. *)
Example ksk_test_equal_asymmetric :
  GNUNET_FS_uri_test_equal (ksk [cs " a"; cs " a"]) (ksk [cs " a"; cs " b"]) = true
  /\ GNUNET_FS_uri_test_equal (ksk [cs " a"; cs " b"]) (ksk [cs " a"; cs " a"]) = false.
Proof. vm_compute. done. Qed.

(** The two passes over the user's keywords agree, so the array of words is never overrun. *)
Lemma words_counted s : forall in_word saw_quote w n,
  fst (count_words s in_word saw_quote n) + (if in_word then 1 else 0)
  = n + Z.of_nat (length (split_words s in_word saw_quote w)).
Proof.
  induction s as [|c s IH]; intros in_word saw_quote w n; cbn [count_words split_words].
  - destruct in_word; cbn [fst length]; lia.
  - destruct (negb saw_quote && isspace c) eqn:E; cbv beta iota.
    + assert (Hq : xorb saw_quote (c =? QUOTE) = saw_quote).
      { apply andb_true_iff in E as [_ E]. unfold isspace in E.
        destruct (Z.eqb_spec c QUOTE) as [->|]; [ done | by destruct saw_quote ]. }
      rewrite Hq, length_app. specialize (IH false saw_quote [] n).
      destruct in_word; cbn [length] in *; unfold str in *; lia.
    + destruct in_word; cbn [negb]; cbv beta iota.
      * apply (IH true _ (c :: w) n).
      * specialize (IH true (xorb saw_quote (c =? QUOTE)) (c :: w) (n + 1)). unfold str in *. lia.
Qed.
