(* ===== verification/FsDirectory.v ===== *)
(** * Directories of the file-sharing service: [src/fs/fs_directory.c]

    A directory is a file: a magic number, the serialized meta data of the directory and
    one entry per file, each the text of a URI with its NUL, the length of the serialized
    meta data and the meta data.  An entry that would cross a boundary of [DBLOCK_SIZE]
    bytes is moved to the last boundary before its end, and the gap is filled with zeros.
    [GNUNET_FS_directory_builder_finish] picks the order of the entries by a greedy search
    for small gaps; [GNUNET_FS_directory_list_contents] gives the entries of (a part of) a
    directory to a processor.

    The builder's list is the list of its [BuilderEntry] structs from [head] on, each with
    the bytes that follow the struct.  Memory for the finished directory may be refused
    ([GNUNET_malloc_large] returns [NULL]), which is the argument [available].  The
    processor is a function on a state of its own. *)

From Stdlib Require Import ZArith Lia String.
From stdpp Require Import base list numbers.
From S2P Require Import Prelude Messages MetaData CString Strings Hash CryptoAes FsTree FsUri.
Local Open Scope Z_scope.

(** Two more types of libextractor's enumeration *)
Class DirectoryTypes `{Extractor} := {
  EXTRACTOR_METATYPE_MIMETYPE : Z;
  EXTRACTOR_METATYPE_GNUNET_FULL_DATA : Z;
  directory_types_fit : is_u32 EXTRACTOR_METATYPE_MIMETYPE
    /\ is_u32 EXTRACTOR_METATYPE_GNUNET_FULL_DATA;
  directory_types_differ : is_filename EXTRACTOR_METATYPE_MIMETYPE = false
    /\ is_filename EXTRACTOR_METATYPE_GNUNET_FULL_DATA = false
    /\ EXTRACTOR_METATYPE_MIMETYPE <> EXTRACTOR_METATYPE_GNUNET_FULL_DATA
}.

Definition GNUNET_FS_DIRECTORY_MIME : str := cs "application/gnunet-directory".
Definition GNUNET_FS_DIRECTORY_MAGIC : list Z := [137; 71; 78; 68; 13; 10; 26; 10].
Definition GNUNET_DIRECTORY_MAGIC : list Z := [137; 71; 78; 68; 13; 10; 26; 10].
Definition MAX_INLINE_SIZE : Z := 65536.

Section Types.
Context `{DirectoryTypes}.

Definition GNUNET_FS_meta_data_test_for_directory (md : option GNUNET_CONTAINER_MetaData)
  : outcome Z :=
  match md with
  | None => Ret GNUNET_SYSERR
  | Some _ =>
      mime ← GNUNET_CONTAINER_meta_data_get_by_type md EXTRACTOR_METATYPE_MIMETYPE;
      match mime with
      | None => Ret GNUNET_SYSERR
      | Some mime =>
          Ret (if bool_decide (mime = GNUNET_FS_DIRECTORY_MIME) then GNUNET_YES else GNUNET_NO)
      end
  end.

(** [GNUNET_break] only logs. *)
Definition GNUNET_FS_meta_data_make_directory (md : GNUNET_CONTAINER_MetaData)
  : outcome GNUNET_CONTAINER_MetaData :=
  mime ← GNUNET_CONTAINER_meta_data_get_by_type (Some md) EXTRACTOR_METATYPE_MIMETYPE;
  match mime with
  | Some _ => Ret md
  | None =>
      '(_, md) ← GNUNET_CONTAINER_meta_data_insert md (Some (cs "<gnunet>"))
        EXTRACTOR_METATYPE_MIMETYPE EXTRACTOR_METAFORMAT_UTF8 (Some (cs "text/plain"))
        (GNUNET_FS_DIRECTORY_MIME ++ [0]);
      Ret md
  end.

(** ** Listing *)

(** [struct GetFullDataClosure]: the size and the data *)
Definition find_full_data (gfdc : Z * option (list Z)) (i : MetaItem)
  : outcome (Z * option (list Z) * Z) :=
  if item_type i =? EXTRACTOR_METATYPE_GNUNET_FULL_DATA then
    if 0 <? data_size i then
      _ ← GNUNET_malloc (data_size i);
      Ret ((data_size i, Some (item_data i)), 1)
    else Ret ((data_size i, gfdc.2), 1)
  else Ret (gfdc, 0).
End Types.

(** What a round of the loop leads to: the function returns, or [pos] for the next one *)
Inductive progress (S : Type) :=
  | Stop (ret : Z) (s : S)
  | Next (pos : Z) (s : S).
Arguments Stop {S} ret s.
Arguments Next {S} pos s.

(** A computation that may fail, followed by one that may not terminate *)
Definition and_then {A B} (m : outcome A) (f : A -> option (outcome B)) : option (outcome B) :=
  match m with
  | Ret a => f a
  | AssertFailed => Some AssertFailed
  | Undefined => Some Undefined
  end.

Section Listing.
Context `{UpperCase} `{Rsa} `{DirectoryTypes} `{Zlib}.

(** [GNUNET_FS_DirectoryEntryProcessor]: file name, URI, meta data, length and data *)
Context {S : Type}.
Definition processor : Type :=
  S -> option str -> option GNUNET_FS_Uri -> GNUNET_CONTAINER_MetaData -> Z -> option (list Z)
  -> outcome S.
Context (dep : option processor).

(** The rest of a round, from the length of the meta data on.  The four bytes of the
    length are read without a check that they are there. *)
Definition list_entry (cdata : list Z) (uri : GNUNET_FS_Uri) (pos : Z) (s : S)
  : outcome (progress S) :=
  let size := Z.of_nat (List.length cdata) in
  if GNUNET_FS_uri_test_ksk uri then Ret (Stop GNUNET_NO s)
  else
    b ← mem_read cdata (Z.to_nat pos) 4;
    let mdSize := be_decode b in
    let pos := u64 (pos + 4) in
    if size <? u64 (pos + mdSize) then Ret (Stop GNUNET_NO s)
    else
      b ← mem_read cdata (Z.to_nat pos) (Z.to_nat mdSize);
      md ← GNUNET_CONTAINER_meta_data_deserialize b;
      match md with
      | None => Ret (Stop GNUNET_NO s)
      | Some md =>
          let pos := u64 (pos + mdSize) in
          filename ← GNUNET_CONTAINER_meta_data_get_by_type (Some md)
                       EXTRACTOR_METATYPE_GNUNET_ORIGINAL_FILENAME;
          '(full_data, _) ← GNUNET_CONTAINER_meta_data_iterate (Some md) (Some find_full_data)
                              (0, None);
          s ← match dep with
              | Some dep => dep s filename (Some uri) md full_data.1 full_data.2
              | None => Ret s
              end;
          Ret (Next pos s)
      end.

(** A round from the search for the end of the URI on; [fuel] is for its parser. *)
Definition list_round (fuel : nat) (cdata : list Z) (pos : Z) (s : S)
  : option (outcome (progress S)) :=
  let size := Z.of_nat (List.length cdata) in
  let text := upto_nul (drop (Z.to_nat pos) cdata) in
  let epos := u64 (pos + Z.of_nat (List.length text)) in
  if size <=? epos then Some (Ret (Stop GNUNET_NO s))
  else
    r ← GNUNET_FS_uri_parse fuel (Some text);
    Some (
      '(uri, emsg) ← r;
      let pos := u64 (epos + 1) in
      match uri with
      | None =>
          _ ← gnunet_assert (bool_decide (emsg <> None));         (* GNUNET_free (emsg) *)
          Ret (Next (u64 (pos - 1)) s)
      | Some uri => list_entry cdata uri pos s
      end).

(** The next alignment *)
Definition skip_block (pos : Z) : Z :=
  let align := u64 ((pos / DBLOCK_SIZE + 1) * DBLOCK_SIZE) in
  if align =? pos then u64 (align + DBLOCK_SIZE) else align.

Fixpoint list_loop (fuel pfuel : nat) (cdata : list Z) (pos : Z) (s : S)
  : option (outcome (Z * S)) :=
  let size := Z.of_nat (List.length cdata) in
  if size <=? pos then Some (Ret (GNUNET_OK, s))
  else
    match fuel with
    | O => None
    | Datatypes.S fuel =>
        and_then (of_option (cdata !! Z.to_nat pos)) (fun c =>
          let pos := if c =? 0 then skip_block pos else pos in
          if (c =? 0) && (size <=? pos) then Some (Ret (GNUNET_OK, s))
          else
            r ← list_round pfuel cdata pos s;
            and_then r (fun p =>
              match p with
              | Stop ret s => Some (Ret (ret, s))
              | Next pos s => list_loop fuel pfuel cdata pos s
              end))
    end.

(** The meta data of the directory itself; the processor is called without a check. *)
Definition list_header (cdata : list Z) (s : S) : outcome (progress S) :=
  let size := Z.of_nat (List.length cdata) in
  b ← mem_read cdata 8 4;
  let mdSize := be_decode b in
  if size - 8 - 4 <? mdSize then Ret (Stop GNUNET_SYSERR s)
  else
    b ← mem_read cdata 12 (Z.to_nat mdSize);
    md ← GNUNET_CONTAINER_meta_data_deserialize b;
    match md with
    | None => Ret (Stop GNUNET_SYSERR s)
    | Some md =>
        s ← match dep with
            | Some dep => dep s None None md 0 None
            | None => Undefined
            end;
        Ret (Next (8 + 4 + mdSize) s)
    end.

(** [None]: the fuel of the loop or of the parser is used up. *)
Definition GNUNET_FS_directory_list_contents (fuel pfuel : nat) (cdata : list Z) (offset : Z)
  (s : S) : option (outcome (Z * S)) :=
  let size := Z.of_nat (List.length cdata) in
  if (offset =? 0)
     && ((size <? 8 + 4) || negb (bool_decide (take 8 cdata = GNUNET_FS_DIRECTORY_MAGIC)))
  then Some (Ret (GNUNET_SYSERR, s))
  else
    and_then (if offset =? 0 then list_header cdata s else Ret (Next offset s)) (fun p =>
      match p with
      | Stop ret s => Some (Ret (ret, s))
      | Next pos s => list_loop fuel pfuel cdata pos s
      end).
End Listing.

(** ** Building *)

(** The struct, and the memory that was allocated behind it *)
Record BuilderEntry := mk_entry {
  be_len : Z;
  be_data : list Z
}.
Definition sizeof_BuilderEntry : Z := 16.

Record GNUNET_FS_DirectoryBuilder := mk_builder {
  bld_meta : GNUNET_CONTAINER_MetaData;
  bld_head : list BuilderEntry;
  bld_count : Z
}.

Section Building.
Context `{DirectoryTypes} `{Zlib}.

Definition GNUNET_FS_directory_builder_create (mdir : option GNUNET_CONTAINER_MetaData)
  : outcome GNUNET_FS_DirectoryBuilder :=
  meta ← match mdir with
         | Some _ => m ← GNUNET_CONTAINER_meta_data_duplicate mdir; of_option m
         | None => Ret GNUNET_CONTAINER_meta_data_create
         end;
  meta ← GNUNET_FS_meta_data_make_directory meta;
  Ret (mk_builder meta [] 0).

(** The number of bytes at [data], when they are given *)
Definition inline_size (uri : GNUNET_FS_Uri) (data : option (list Z)) : outcome Z :=
  fsize ← match data with
          | None => Ret 0
          | Some _ =>
              _ ← gnunet_assert (negb (GNUNET_FS_uri_test_sks uri));
              if GNUNET_FS_uri_test_chk uri then GNUNET_FS_uri_chk_get_file_size uri
              else
                match GNUNET_FS_uri_loc_get_uri uri with
                | None => AssertFailed
                | Some curi => GNUNET_FS_uri_chk_get_file_size curi
                end
          end;
  Ret (if MAX_INLINE_SIZE <? fsize then 0 else fsize).

(** [meta] with the data of the file, and its serialized size *)
Definition with_full_data (md : GNUNET_CONTAINER_MetaData) (data : list Z) (fsize : Z)
  : outcome (GNUNET_CONTAINER_MetaData * Z) :=
  meta ← GNUNET_CONTAINER_meta_data_duplicate (Some md);
  meta ← of_option meta;
  d ← mem_read data 0 (Z.to_nat fsize);
  '(_, meta) ← GNUNET_CONTAINER_meta_data_insert meta (Some (cs "<gnunet>"))
    EXTRACTOR_METATYPE_GNUNET_FULL_DATA EXTRACTOR_METAFORMAT_BINARY None d;
  '(mdxs, meta) ← GNUNET_CONTAINER_meta_data_get_serialized_size meta;
  Ret (meta, u64 mdxs).

(** The number of blocks an entry crosses *)
Definition entry_blocks (slen mds : Z) : Z := u64 (slen + 4 + mds - 1) / DBLOCK_SIZE.

(** [meta_use] (or [None] for [md] itself) and [mds] *)
Definition choose_meta (md : GNUNET_CONTAINER_MetaData) (data : option (list Z)) (fsize slen mds : Z)
  : outcome (option GNUNET_CONTAINER_MetaData * Z) :=
  match data with
  | Some data =>
      if 0 <? fsize then
        '(meta, mdxs) ← with_full_data md data fsize;
        Ret (if entry_blocks slen mdxs =? entry_blocks slen mds then (Some meta, mdxs)
             else (None, mds))
      else Ret (None, mds)
  | None => Ret (None, mds)
  end.

(** The allocation of an entry and what is written to it; also [meta_use] with its cache *)
Definition build_entry (uris : str) (meta_use : GNUNET_CONTAINER_MetaData) (mds : Z)
  : outcome (BuilderEntry * GNUNET_CONTAINER_MetaData) :=
  let slen := (List.length uris + 1)%nat in
  _ ← GNUNET_malloc (sizeof_BuilderEntry + Z.of_nat slen + mds + 4);
  ser ← mem_write (replicate (slen + Z.to_nat mds + 4) 0) 0 (uris ++ [0]);
  '(ret, meta, t) ← GNUNET_CONTAINER_meta_data_serialize (Some meta_use) (Some (drop (slen + 4) ser))
    mds GNUNET_CONTAINER_META_DATA_SERIALIZE_PART;
  meta ← of_option meta;
  t ← of_option t;
  let ser := take (slen + 4) ser ++ t in
  let mds := if ret =? -1 then 0 else ret in
  ser ← mem_write ser slen (be_encode 4 (u32 mds));
  Ret (mk_entry (Z.of_nat slen + 4 + mds) ser, meta).

(** The caller's meta data are returned with their cache. *)
Definition GNUNET_FS_directory_builder_add (bld : GNUNET_FS_DirectoryBuilder) (uri : GNUNET_FS_Uri)
  (md : GNUNET_CONTAINER_MetaData) (data : option (list Z))
  : outcome (GNUNET_FS_DirectoryBuilder * GNUNET_CONTAINER_MetaData) :=
  _ ← gnunet_assert (negb (GNUNET_FS_uri_test_ksk uri));
  fsize ← inline_size uri data;
  uris ← GNUNET_FS_uri_to_string (Some uri);
  uris ← of_option uris;
  '(mds, md) ← GNUNET_CONTAINER_meta_data_get_serialized_size md;
  '(meta, mds) ← choose_meta md data fsize (strlen uris + 1) (u64 mds);
  let mds := if GNUNET_MAX_MALLOC_CHECKED / 2 <? mds then GNUNET_MAX_MALLOC_CHECKED / 2 else mds in
  '(e, md) ← match meta with
             | Some meta => '(e, _) ← build_entry uris meta mds; Ret (e, md)
             | None => build_entry uris md mds
             end;
  Ret (mk_builder (bld_meta bld) (e :: bld_head bld) (u32 (bld_count bld + 1)), md).

Definition do_align (start_position end_position : Z) : Z :=
  let align := end_position / DBLOCK_SIZE * DBLOCK_SIZE in
  if (start_position <? align) && (align <? end_position)
  then u64 (align + end_position - start_position) else end_position.

(** How bad it is to place an entry of [size] bytes at [cpos], an [ssize_t] *)
Definition placement_badness (cpos size : Z) : Z :=
  let cend := u64 (cpos + size) in
  if cpos mod DBLOCK_SIZE =? 0 then s64 (u64 (- (cend mod DBLOCK_SIZE)))
  else if cpos / DBLOCK_SIZE =? cend / DBLOCK_SIZE then DBLOCK_SIZE - cend mod DBLOCK_SIZE
  else DBLOCK_SIZE * (DBLOCK_SIZE - cpos mod DBLOCK_SIZE).

(** The inner loop over [perm[j]], [j >= i]; [best] is [None] for -1. *)
Fixpoint best_loop (sizes : list Z) (cpos : Z) (j : nat) (rest : list nat) (badness : Z)
  (best : option nat) : outcome (option nat) :=
  match rest with
  | [] => Ret best
  | cval :: rest =>
      size ← of_option (sizes !! cval);
      let cbad := placement_badness cpos size in
      if cbad <? badness then best_loop sizes cpos (S j) rest cbad (Some j)
      else best_loop sizes cpos (S j) rest badness best
  end.

(** [n] rounds of the outer loop, from [i] on *)
Fixpoint align_loop (n i : nat) (sizes : list Z) (cpos : Z) (perm : list nat) : outcome (list nat) :=
  match n with
  | O => Ret perm
  | S n =>
      best ← best_loop sizes cpos i (drop i perm) 0x7FFFFFFF None;
      best ← match best with Some b => Ret b | None => AssertFailed end;
      tmp ← of_option (perm !! i);
      chosen ← of_option (perm !! best);
      size ← of_option (sizes !! chosen);
      align_loop n (S i) sizes (do_align cpos (u64 (cpos + size)))
        (<[best := tmp]> (<[i := chosen]> perm))
  end.

Definition block_align (start : Z) (sizes : list Z) (perm : list nat) : outcome (list nat) :=
  align_loop (List.length perm) 0 sizes start perm.

(** The final size with alignment *)
Fixpoint aligned_size (sizes : list Z) (perm : list nat) (size : Z) : outcome Z :=
  match perm with
  | [] => Ret size
  | i :: perm =>
      s ← of_option (sizes !! i);
      aligned_size sizes perm (do_align size (u64 (size + s)))
  end.

(** [memcpy] of each entry to its place *)
Fixpoint copy_entries (bes : list BuilderEntry) (perm : list nat) (data : list Z) (off : Z)
  : outcome (list Z * Z) :=
  match perm with
  | [] => Ret (data, off)
  | i :: perm =>
      e ← of_option (bes !! i);
      let off := do_align off (u64 (off + be_len e)) in
      bytes ← mem_read (be_data e) 0 (Z.to_nat (be_len e));
      data ← mem_write data (Z.to_nat (u64 (off - be_len e))) bytes;
      copy_entries bes perm data off
  end.

(** The arrays [bes], [sizes] and [perm] of [count] elements, and the final size *)
Definition arrange (bld : GNUNET_FS_DirectoryBuilder) (size : Z)
  : outcome (list BuilderEntry * list nat * Z) :=
  if 0 <? bld_count bld then
    _ ← GNUNET_malloc (bld_count bld * 8);
    _ ← GNUNET_malloc (bld_count bld * 4);
    _ ← GNUNET_malloc (bld_count bld * 8);
    let n := Z.to_nat (bld_count bld) in
    bes ← mem_read (bld_head bld) 0 n;
    let sizes := be_len <$> bes in
    perm ← block_align size sizes (seq 0 n);
    size ← aligned_size sizes perm size;
    Ret (bes, perm, size)
  else Ret ([], [], size).

(** The result, [*rsize] and [*rdata] *)
Definition GNUNET_FS_directory_builder_finish (available : bool) (bld : GNUNET_FS_DirectoryBuilder)
  : outcome (Z * Z * option (list Z)) :=
  '(mds, meta) ← GNUNET_CONTAINER_meta_data_get_serialized_size (bld_meta bld);
  '(bes, perm, size) ← arrange bld (u64 (8 + 4 + mds));
  if negb available then Ret (GNUNET_SYSERR, 0, None)
  else
    data ← mem_write (replicate (Z.to_nat size) 0) 0 GNUNET_DIRECTORY_MAGIC;
    '(ret, _, t) ← GNUNET_CONTAINER_meta_data_serialize (Some meta) (Some (drop 12 data))
      (u64 (size - 8 - 4)) GNUNET_CONTAINER_META_DATA_SERIALIZE_FULL;
    _ ← gnunet_assert (negb (ret =? -1));
    t ← of_option t;
    let data := take 12 data ++ t in
    data ← mem_write data 8 (be_encode 4 (u32 ret));
    '(data, off) ← copy_entries bes perm data (u64 (8 + 4 + ret));
    _ ← gnunet_assert (off =? size);
    Ret (GNUNET_OK, size, Some data).
End Building.
