(* ===== verification/FsDirectorySpec.v ===== *)
(** * Directories: what is built is what is listed

    [layout] is the specification of a finished directory: entries one after the other, an
    entry that would cross a block moved to the last boundary before its end.  The builder
    writes [layout] of a permutation of its entries, the listing of [layout] delivers the
    entries in their order, and together with the round trips of URIs and meta data the
    processor gets each file that was added ([directory_roundtrip]). *)

From Stdlib Require Import ZArith Lia String.
From stdpp Require Import base list numbers gmap sorting.
From S2P Require Import Prelude Endian Messages CString Strings Hash CryptoAes FsTree FsUri FsUriSpec FsDirectory MetaData MetaDataSpec.
Local Open Scope Z_scope.

Abbreviation zlen l := (Z.of_nat (List.length l)).

(** ** Meta data *)

Section Meta.
Context `{Extractor} `{Zlib}.

(** After its size was computed, a container is written to a buffer as it is cached. *)
Definition writes (md : GNUNET_CONTAINER_MetaData) (p : list Z) : Prop :=
  forall t max opt, zlen p <= max -> (List.length p <= List.length t)%nat ->
    GNUNET_CONTAINER_meta_data_serialize (Some md) (Some t) max opt
    = Ret (zlen p, Some md, Some (p ++ drop (List.length p) t)).

Lemma mem_write_0 (t p : list Z) :
  (List.length p <= List.length t)%nat -> mem_write t 0 p = Ret (p ++ drop (List.length p) t).
Proof. intros Hl. unfold mem_write. by rewrite (proj2 (Nat.leb_le _ _)) by lia. Qed.

Lemma packed_header comp l : (12 <= List.length (packed comp l))%nat.
Proof.
  unfold packed. destruct comp; rewrite length_app, length_meta_data_header; unfold sizeof_md_header; lia.
Qed.

Lemma writes_cached md p : sbuf md = Some p -> (12 <= List.length p)%nat -> writes md p.
Proof.
  intros Hs Hp t max opt Hmax Ht. unfold GNUNET_CONTAINER_meta_data_serialize.
  change (Z.of_nat sizeof_md_header) with 12. rewrite (proj2 (Z.ltb_ge _ _)) by lia.
  rewrite Hs, (proj2 (Z.leb_le _ _)) by done. cbn [mbind outcome_bind]. by rewrite mem_write_0.
Qed.

Lemma serialize_empty md target max opt :
  md_ok md -> md_items md = [] -> sbuf md = None -> 12 <= max ->
  GNUNET_CONTAINER_meta_data_serialize (Some md) target max opt
  = (dst ← match target with None => GNUNET_malloc 12 | Some t => Ret t end;
     dst ← mem_write dst 0 (packed None []);
     Ret (12, Some md, Some dst)).
Proof.
  intros Hmd He Hs Hmax. unfold GNUNET_CONTAINER_meta_data_serialize.
  change (Z.of_nat sizeof_md_header) with 12. rewrite (proj2 (Z.ltb_ge _ _)) by lia.
  pose proof (mo_count _ Hmd) as Hc. rewrite He in Hc. cbn in Hc.
  rewrite Hs. unfold serialize_items. rewrite He, Hc. cbv zeta.
  cbn [rev serialized_size]. change (GNUNET_MAX_MALLOC_CHECKED <=? 0) with false.
  change (u64 _) with 0.
  change (packed None []) with (meta_data_header 2 0 0).
  cbn -[mem_write GNUNET_malloc meta_data_header].
  rewrite (malloc_ok 0) by (vm_compute; congruence). cbn -[mem_write GNUNET_malloc meta_data_header].
  assert (Hw : forall t : list Z, (dst ← mem_write t 0 (meta_data_header 2 0 0);
      Ret (12, Some md, Some dst))
    = ('(r, md, target) ← (dst ← mem_write t 0 (meta_data_header 2 0 0); Ret (12, md, Some dst));
       Ret (r, Some md, target)))
    by (intros t; rewrite bind_bind; reflexivity).
  destruct target as [t|]; cbn [mbind outcome_bind]; [ symmetry; apply Hw | ].
  change (Z.of_nat sizeof_md_header) with 12.
  destruct (GNUNET_malloc 12) as [t| |]; [ symmetry; apply Hw | done | done ].
Qed.

Lemma get_serialized_size_ok md :
  md_ok md -> small (md_items md) ->
  exists comp md', GNUNET_CONTAINER_meta_data_get_serialized_size md
                   = Ret (zlen (packed comp (md_items md)), md')
    /\ compressed_ok comp (md_items md) /\ md_ok md' /\ md_items md' = md_items md
    /\ writes md' (packed comp (md_items md)).
Proof.
  intros Hmd Hsm. unfold GNUNET_CONTAINER_meta_data_get_serialized_size.
  destruct (sbuf md) as [p|] eqn:Hs.
  { pose proof (mo_sbuf _ Hmd) as Hb. unfold sbuf_ok in Hb. rewrite Hs in Hb.
    destruct Hb as (comp & Hc & ->). exists comp, md. split_and!; try done.
    apply writes_cached; [ done | apply packed_header ]. }
  destruct (decide (md_items md = [])) as [He|Hne].
  - exists None, md. rewrite serialize_empty by (try done; vm_compute; congruence).
    rewrite He. split_and!; try done. intros t max opt Hmax Ht. pose proof (packed_header None []).
    rewrite serialize_empty by (try done; lia). cbn [mbind outcome_bind].
    by rewrite mem_write_0.
  - pose proof (small_bound _ Hsm) as Hb.
    destruct (first_attempt md None GNUNET_MAX_MALLOC_CHECKED GNUNET_CONTAINER_META_DATA_SERIALIZE_FULL)
      as (rest & -> & Hrest); try done; [ lia | ].
    change (_ =? 0) with true. destruct (try_compression_ok _ Hsm) as (comp & -> & Hc).
    cbn [mbind outcome_bind]. rewrite (Hrest comp) by (done || (left; lia)).
    cbn [store_result mbind outcome_bind default]. exists comp. eexists. split; [ reflexivity | ].
    split_and!; try done.
    + destruct Hmd. constructor; try done. cbn. by exists comp.
    + apply writes_cached; [ done | apply packed_header ].
Qed.

(** What a serialized form is read back as; also a copy of the container *)
Lemma insert_all_copy l :
  StronglySorted larger l -> NoDup (key <$> l) -> Forall item_ok l -> zlen l < 2 ^ 32 ->
  exists md, insert_all GNUNET_CONTAINER_meta_data_create (rev l) = Ret md /\ md_ok md
    /\ md_items md ≡ₚ l.
Proof.
  intros _ Hk Hi Hn.
  destruct (insert_all_fresh (rev l) GNUNET_CONTAINER_meta_data_create create_ok) as (md & -> & Hok & Hp);
    cbn [md_items GNUNET_CONTAINER_meta_data_create app] in *.
  - by apply Forall_rev.
  - by rewrite <- Permutation_rev.
  - by rewrite length_rev.
  - exists md. by rewrite Hp, <- Permutation_rev.
Qed.

Lemma read_back comp md :
  md_ok md -> small (md_items md) -> compressed_ok comp (md_items md) ->
  exists md', GNUNET_CONTAINER_meta_data_deserialize (packed comp (md_items md)) = Ret (Some md')
    /\ md_ok md' /\ md_items md' ≡ₚ md_items md.
Proof.
  intros Hmd Hs Hc. rewrite deserialize_packed by (done || apply Hmd).
  destruct (insert_all_copy (md_items md)) as (md' & -> & Hok & Hp); try apply Hmd; [ | by eauto ].
  pose proof (small_bound _ Hs). pose proof (length_le_encode (md_items md)).
  unfold GNUNET_MAX_MALLOC_CHECKED in *. lia.
Qed.

Lemma duplicate_ok md :
  md_ok md -> zlen (md_items md) < 2 ^ 32 ->
  exists md', GNUNET_CONTAINER_meta_data_duplicate (Some md) = Ret (Some md') /\ md_ok md'
    /\ md_items md' ≡ₚ md_items md.
Proof.
  intros Hmd Hn. unfold GNUNET_CONTAINER_meta_data_duplicate.
  destruct (insert_all_copy (md_items md)) as (md' & -> & Hok & Hp); try apply Hmd; by eauto.
Qed.

Lemma c_str_prefix d : 0 ∈ d -> exists s, c_str d = Ret s /\ (List.length s < List.length d)%nat.
Proof.
  induction d as [|b d IH]; intros Hin; [ by apply elem_of_nil in Hin | ]. cbn [c_str].
  destruct (Z.eqb_spec b 0) as [->|Hb]; [ exists []; split; [ done | cbn; lia ] | ].
  apply elem_of_cons in Hin as [<-|Hin]; [ done | ]. destruct (IH Hin) as (s & -> & Hl).
  exists (b :: s). split; [ done | cbn; lia ].
Qed.

Lemma get_by_type_ok md type :
  md_ok md -> exists s, GNUNET_CONTAINER_meta_data_get_by_type (Some md) type = Ret s.
Proof.
  intros Hmd. unfold GNUNET_CONTAINER_meta_data_get_by_type. pose proof (mo_items _ Hmd) as Hi.
  induction Hi as [|i l Hi _ IH]; cbn [get_by_type_loop]; [ by exists None | ].
  destruct (andb _ _) eqn:E; [ | done ]. apply andb_prop in E as [_ Ht].
  destruct (last_Some (item_data i) 0) as [Hl _]. destruct (Hl (io_text _ Hi Ht)) as (d & Hd).
  destruct (c_str_prefix (item_data i)) as (s & -> & Hlen).
  { rewrite Hd, elem_of_app, list_elem_of_singleton. by right. }
  cbn [mbind outcome_bind]. unfold GNUNET_strdup.
  rewrite malloc_ok; [ by exists (Some s) | ].
  pose proof (io_sizes _ Hi) as (Hsz & _). unfold data_size in Hsz. lia.
Qed.

(** An item that is inserted is there afterwards, and nothing else changes. *)
Lemma insert_binary md i :
  md_ok md -> item_ok i -> item_format i = EXTRACTOR_METAFORMAT_BINARY -> mime_type i = None ->
  zlen (md_items md) + 1 < 2 ^ 32 ->
  exists r md', insert_item md i = Ret (r, md') /\ md_ok md'
    /\ ((md' = md /\ key i ∈ key <$> md_items md)
        \/ (md_items md' ≡ₚ i :: md_items md /\ key i ∉ key <$> md_items md)).
Proof.
  intros Hmd Hi Hf Hm Hn. destruct (decide (key i ∈ key <$> md_items md)) as [Hin|Hin].
  - unfold insert_item, GNUNET_CONTAINER_meta_data_insert.
    pose proof (insert_scan_spec (item_type i) (item_data i) _ (mo_sorted _ Hmd)) as Hsc.
    destruct (insert_scan _ _ _) as [n [p|]]; [ | by destruct Hsc ].
    rewrite Hm, Hf. exists GNUNET_SYSERR, md.
    replace (match mime_type p with Some _ | _ => Ret (p, md) end) with (Ret (A := MetaItem * GNUNET_CONTAINER_MetaData) (p, md)) by (by destruct (mime_type p)).
    cbn [mbind outcome_bind]. rewrite (proj2 (Z.eqb_neq EXTRACTOR_METAFORMAT_UTF8 _)), andb_false_r.
    + split_and!; [ done | done | by left ].
    + pose proof formats_differ as (Hd & _). congruence.
  - destruct (insert_fresh md i Hmd Hi Hin Hn) as [Hr Hok].
    eexists _, _. split; [ exact Hr | ]. split; [ exact Hok | ]. right. split; [ | done ]. apply place_perm.
Qed.
End Meta.

(** ** The layout of the entries *)

(** Where an entry of [n] bytes begins when the previous one ends at [off] *)
Definition place_of (off n : Z) : Z := do_align off (off + n) - n.

Fixpoint layout (off : Z) (es : list (list Z)) : list Z :=
  match es with
  | [] => []
  | e :: es =>
      let start := place_of off (zlen e) in
      replicate (Z.to_nat (start - off)) 0 ++ e ++ layout (start + zlen e) es
  end.

Definition total (es : list (list Z)) : Z := foldr (fun e n => zlen e + n) 0 es.

(** Offsets far from the limit of [size_t] *)
Definition room (off : Z) (es : list (list Z)) : Prop := 0 <= off /\ off + 2 * total es < 2 ^ 62.

Lemma layout_total_nonneg es : 0 <= total es.
Proof. induction es; cbn [total foldr]; [ lia | ]. unfold total in *. lia. Qed.

Lemma total_perm es es' : es ≡ₚ es' -> total es = total es'.
Proof. induction 1; unfold total in *; cbn [foldr]; lia. Qed.

Lemma place_of_spec off n :
  0 <= off -> 0 <= n -> off + 2 * n < 2 ^ 62 ->
  let start := place_of off n in
  off <= start <= off + n /\ (off < start -> start mod DBLOCK_SIZE = 0)
  /\ do_align off (off + n) = start + n.
Proof.
  intros Ho Hn Hb start. unfold start, place_of, do_align. cbv zeta.
  set (align := (off + n) / DBLOCK_SIZE * DBLOCK_SIZE).
  assert (align <= off + n /\ align mod DBLOCK_SIZE = 0) as [Ha Hm].
  { unfold align, DBLOCK_SIZE. split; [ Z.div_mod_to_equations; lia | apply Z.mod_mul; lia ]. }
  destruct (Z.ltb_spec off align), (Z.ltb_spec align (off + n)); cbn [andb].
  2-4: split_and!; lia.
  rewrite u64_small by int_lia. split_and!; try lia. intros _.
  by replace (align + (off + n) - off - n) with align by lia.
Qed.

(** An entry keeps to its block unless it is longer than one. *)
Lemma place_of_block off n :
  0 <= off -> 0 < n <= DBLOCK_SIZE -> off + 2 * n < 2 ^ 62 ->
  let start := place_of off n in start / DBLOCK_SIZE = (start + n - 1) / DBLOCK_SIZE.
Proof.
  intros Ho Hn Hb start. unfold start, place_of, do_align. cbv zeta.
  set (align := (off + n) / DBLOCK_SIZE * DBLOCK_SIZE).
  assert (Ha : align <= off + n < align + DBLOCK_SIZE)
    by (unfold align, DBLOCK_SIZE in *; Z.div_mod_to_equations; lia).
  assert (Hm : align / DBLOCK_SIZE = (off + n) / DBLOCK_SIZE)
    by (unfold align, DBLOCK_SIZE; apply Z.div_mul; lia).
  destruct (Z.ltb_spec off align), (Z.ltb_spec align (off + n)); cbn [andb].
  - rewrite u64_small by int_lia. replace (align + (off + n) - off - n) with align by lia.
    unfold DBLOCK_SIZE in *. Z.div_mod_to_equations. lia.
  - unfold align, DBLOCK_SIZE in *. Z.div_mod_to_equations. lia.
  - unfold align, DBLOCK_SIZE in *. Z.div_mod_to_equations. lia.
  - unfold align, DBLOCK_SIZE in *. Z.div_mod_to_equations. lia.
Qed.

Lemma room_cons off e es : room off (e :: es) ->
  let start := place_of off (zlen e) in
  off <= start <= off + zlen e /\ (off < start -> start mod DBLOCK_SIZE = 0)
  /\ do_align off (u64 (off + zlen e)) = start + zlen e /\ room (start + zlen e) es
  /\ start + zlen e < 2 ^ 62.
Proof.
  intros [Ho Hr] start. cbn [total foldr] in Hr. pose proof (layout_total_nonneg es) as Ht.
  unfold total in Ht.
  destruct (place_of_spec off (zlen e) Ho ltac:(lia) ltac:(lia)) as (H1 & H2 & H3). fold start in H1, H2, H3.
  rewrite u64_small by int_lia. unfold room, total. split_and!; try done; lia.
Qed.

Lemma layout_length off es : room off es -> off + zlen (layout off es) < 2 ^ 62.
Proof.
  revert off. induction es as [|e es IH]; intros off Hr.
  { destruct Hr as [_ Hr]. cbn [total foldr] in Hr. cbn [layout List.length]. lia. }
  destruct (room_cons _ _ _ Hr) as (H1 & _ & _ & Hr' & _). specialize (IH _ Hr').
  cbn [layout]. rewrite !length_app, length_replicate. lia.
Qed.

(** ** Placing the entries *)

Section Placing.

(** Whatever the sizes, a candidate is better than none: [GNUNET_assert (best != -1)]. *)
Lemma placement_badness_bound cpos size : placement_badness cpos size < 0x7FFFFFFF.
Proof.
  unfold placement_badness. cbv zeta. set (r := u64 (cpos + size) mod DBLOCK_SIZE).
  assert (0 <= r < DBLOCK_SIZE) by (apply Z.mod_pos_bound; done).
  assert (0 <= cpos mod DBLOCK_SIZE < DBLOCK_SIZE) by (apply Z.mod_pos_bound; done).
  unfold DBLOCK_SIZE in *. destruct (_ =? 0); [ int_lia | ]. destruct (_ =? _); lia.
Qed.

Lemma best_loop_ok sizes cpos rest : forall j badness best,
  Forall (fun c => is_Some (sizes !! c)) rest ->
  exists b, best_loop sizes cpos j rest badness best = Ret b
    /\ (b = best \/ exists k, b = Some (j + k)%nat /\ (k < List.length rest)%nat).
Proof.
  induction rest as [|c rest IH]; intros j badness best Hv; cbn [best_loop]; [ by eauto | ].
  apply Forall_cons in Hv as [[s Hs] Hv]. rewrite Hs. cbn [of_option mbind outcome_bind].
  destruct (_ <? _).
  - destruct (IH (S j) (placement_badness cpos s) (Some j) Hv) as (b & -> & [->|(k & -> & Hk)]);
      eexists; split; try done; right; [ exists 0%nat | exists (S k) ]; cbn; split; (f_equal; lia) || lia.
  - destruct (IH (S j) badness best Hv) as (b & -> & [->|(k & -> & Hk)]);
      eexists; split; try done; [ by left | right; exists (S k) ]; cbn; split; (f_equal; lia) || lia.
Qed.

Lemma best_loop_first sizes cpos c rest j :
  Forall (fun c => is_Some (sizes !! c)) (c :: rest) ->
  exists k, best_loop sizes cpos j (c :: rest) 0x7FFFFFFF None = Ret (Some (j + k)%nat)
    /\ (k < List.length (c :: rest))%nat.
Proof.
  intros Hv. cbn [best_loop]. apply Forall_cons in Hv as [[s Hs] Hv].
  rewrite Hs. cbn [of_option mbind outcome_bind].
  rewrite (proj2 (Z.ltb_lt _ _)) by apply placement_badness_bound.
  destruct (best_loop_ok sizes cpos rest (S j) (placement_badness cpos s) (Some j) Hv)
    as (b & -> & [->|(k & -> & Hk)]); [ exists 0%nat | exists (S k) ]; cbn; split; (repeat f_equal; lia) || lia.
Qed.

Lemma align_loop_ok sizes n : forall i cpos perm,
  Forall (fun c => is_Some (sizes !! c)) perm -> List.length perm = (i + n)%nat ->
  exists perm', align_loop n i sizes cpos perm = Ret perm' /\ perm' ≡ₚ perm.
Proof.
  induction n as [|n IH]; intros i cpos perm Hv Hl; cbn [align_loop]; [ by eauto | ].
  destruct (lookup_lt_is_Some_2 perm i) as [tmp Htmp]; [ lia | ].
  pose proof (Forall_drop _ i _ Hv) as Hd. rewrite (drop_S _ _ _ Htmp) in Hd |- *.
  destruct (best_loop_first sizes cpos _ _ i Hd) as (k & -> & Hk). cbn [mbind outcome_bind].
  assert (Hk' : (i + k < List.length perm)%nat).
  { cbn [List.length] in Hk. rewrite length_drop in Hk. lia. }
  destruct (lookup_lt_is_Some_2 perm (i + k)) as [c Hc]; [ done | ].
  rewrite Htmp, Hc. cbn [of_option mbind outcome_bind].
  destruct (proj1 (Forall_lookup _ _) Hv _ _ Hc) as [s Hs]. rewrite Hs. cbn [of_option mbind outcome_bind].
  pose proof (Permutation_insert_swap perm i (i + k) tmp c Htmp Hc) as Hp.
  destruct (IH (S i) (do_align cpos (u64 (cpos + s))) (<[(i + k)%nat := tmp]> (<[i := c]> perm)))
    as (perm' & -> & Hp').
  - by rewrite Hp.
  - rewrite !length_insert. lia.
  - exists perm'. split; [ done | by rewrite Hp', Hp ].
Qed.

Lemma block_align_ok start sizes :
  exists perm, block_align start sizes (seq 0 (List.length sizes)) = Ret perm
    /\ perm ≡ₚ seq 0 (List.length sizes).
Proof.
  unfold block_align. rewrite length_seq. apply align_loop_ok; [ | by rewrite length_seq ].
  apply Forall_forall. intros c Hc%elem_of_seq. apply lookup_lt_is_Some_2. lia.
Qed.

(** [es] are the elements of [bes] in the order [perm]. *)
Definition selects (bes : list BuilderEntry) (perm : list nat) (es : list BuilderEntry) : Prop :=
  Forall2 (fun i e => bes !! i = Some e) perm es.

Lemma selects_perm bes perm :
  perm ≡ₚ seq 0 (List.length bes) -> exists es, selects bes perm es /\ es ≡ₚ bes.
Proof.
  intros Hp. assert (Hid : selects bes (seq 0 (List.length bes)) bes).
  { apply Forall2_same_length_lookup_2; [ by rewrite length_seq | ].
    intros i j e Hj He. apply lookup_seq in Hj as [-> _]. done. }
  destruct (Permutation_Forall2 (Permutation_sym Hp) Hid) as (es & Hes & Hsel). by exists es.
Qed.

(** An entry whose memory holds exactly its bytes *)
Definition full_entry (e : BuilderEntry) : Prop := be_len e = zlen (be_data e).

Lemma aligned_size_ok bes perm es : forall off,
  Forall full_entry bes -> selects bes perm es -> room off (be_data <$> es) ->
  aligned_size (be_len <$> bes) perm off = Ret (off + zlen (layout off (be_data <$> es))).
Proof.
  intros off Hf Hs. revert off. induction Hs as [|i e perm es Hi Hs IH]; intros off Hr; cbn [aligned_size].
  { cbn [fmap list_fmap layout List.length]. f_equal. lia. }
  rewrite list_lookup_fmap, Hi. cbn [fmap option_fmap option_map of_option mbind outcome_bind].
  rewrite fmap_cons in Hr |- *. destruct (room_cons _ _ _ Hr) as (H1 & _ & H3 & Hr' & _).
  pose proof (proj1 (Forall_lookup _ _) Hf _ _ Hi) as He. unfold full_entry in He.
  rewrite He, H3, IH by done. cbn [layout]. rewrite !length_app, length_replicate. f_equal. lia.
Qed.

Lemma copy_entries_ok bes perm es : forall pre,
  Forall full_entry bes -> selects bes perm es -> room (zlen pre) (be_data <$> es) ->
  let l := layout (zlen pre) (be_data <$> es) in
  copy_entries bes perm (pre ++ replicate (List.length l) 0) (zlen pre) = Ret (pre ++ l, zlen (pre ++ l)).
Proof.
  intros pre Hf Hs. revert pre. induction Hs as [|i e perm es Hi Hs IH]; intros pre Hr; cbn [copy_entries].
  { cbn. by rewrite !app_nil_r. }
  rewrite Hi. cbn [of_option mbind outcome_bind]. cbv zeta. rewrite fmap_cons in Hr |- *.
  destruct (room_cons _ _ _ Hr) as (H1 & _ & H3 & Hr' & Hb).
  pose proof (proj1 (Forall_lookup _ _) Hf _ _ Hi) as He. unfold full_entry in He.
  rewrite He, H3, Nat2Z.id. cbn [layout]. set (start := place_of _ _) in *.
  pose proof (mem_read_prefix (be_data e) [] _ eq_refl) as Hm. rewrite app_nil_r in Hm. rewrite Hm.
  cbn [mbind outcome_bind]. rewrite u64_small by int_lia. set (l := layout _ _).
  set (gap := replicate (Z.to_nat (start - zlen pre)) 0).
  assert (Hgap : zlen (pre ++ gap) = start) by (unfold gap; rewrite length_app, length_replicate; lia).
  assert (Hz : pre ++ replicate (List.length (gap ++ be_data e ++ l)) 0
    = (pre ++ gap) ++ replicate (List.length (be_data e) + List.length l) 0).
  { rewrite <- app_assoc. f_equal. unfold gap. rewrite <- replicate_add. f_equal.
    rewrite !length_app, length_replicate. done. }
  rewrite Hz. replace (Z.to_nat (start + zlen (be_data e) - zlen (be_data e)))
    with (List.length (pre ++ gap)) by lia.
  rewrite write_zeros. cbn [mbind outcome_bind].
  assert (Hend : start + zlen (be_data e) = zlen ((pre ++ gap) ++ be_data e)) by (rewrite length_app; lia).
  unfold l. rewrite Hend in Hr' |- *. rewrite app_assoc, IH by done. by rewrite <- !app_assoc.
Qed.
End Placing.

(** ** Building *)

Definition entry_bytes (text : str) (p : list Z) : list Z :=
  text ++ [0] ++ be_encode 4 (zlen p) ++ p.

Definition directory_bytes (p : list Z) (es : list (list Z)) : list Z :=
  GNUNET_DIRECTORY_MAGIC ++ be_encode 4 (zlen p) ++ p ++ layout (12 + zlen p) es.

Lemma malloc_is_ok n : n <= GNUNET_MAX_MALLOC_CHECKED -> exists b, GNUNET_malloc n = Ret b.
Proof. intros Hn. rewrite malloc_ok by done. by eauto. Qed.

Section Building.
Context `{DirectoryTypes} `{Zlib}.

Record builder_ok (bld : GNUNET_FS_DirectoryBuilder) : Prop := {
  bo_meta : md_ok (bld_meta bld);
  bo_small : small (md_items (bld_meta bld));
  bo_full : Forall full_entry (bld_head bld);
  bo_count : bld_count bld = zlen (bld_head bld)
}.

Lemma arrange_ok bld size :
  builder_ok bld -> bld_count bld * 8 <= GNUNET_MAX_MALLOC_CHECKED ->
  room size (be_data <$> bld_head bld) ->
  exists bes perm es, arrange bld size = Ret (bes, perm, size + zlen (layout size (be_data <$> es)))
    /\ selects bes perm es /\ es ≡ₚ bld_head bld /\ Forall full_entry bes.
Proof.
  intros Hb Hn Hr. unfold arrange. rewrite (bo_count _ Hb) in *.
  destruct (Z.ltb_spec 0 (zlen (bld_head bld))) as [Hpos|Hz].
  2: { exists [], [], []. destruct (bld_head bld); [ | cbn in Hz; lia ]. cbn [fmap list_fmap layout List.length].
       rewrite Z.add_0_r. split_and!; try done. constructor. }
  rewrite !malloc_ok by lia. cbn [mbind outcome_bind]. cbv zeta.
  assert (Hread : mem_read (bld_head bld) 0 (Z.to_nat (zlen (bld_head bld))) = Ret (bld_head bld)).
  { unfold mem_read. rewrite (proj2 (Nat.leb_le _ _)) by lia. by rewrite Nat2Z.id, drop_0, firstn_all. }
  rewrite Hread. cbn [mbind outcome_bind]. rewrite Nat2Z.id.
  destruct (block_align_ok size (be_len <$> bld_head bld)) as (perm & Ha & Hp).
  rewrite length_fmap in Ha, Hp. rewrite Ha. cbn [mbind outcome_bind].
  destruct (selects_perm (bld_head bld) perm Hp) as (es & Hs & Hes).
  assert (Hr' : room size (be_data <$> es)).
  { destruct Hr as [Hr1 Hr2]. split; [ done | ].
    by rewrite (total_perm _ (be_data <$> bld_head bld)) by by rewrite Hes. }
  rewrite (aligned_size_ok _ _ es) by (done || apply Hb). cbn [mbind outcome_bind].
  exists (bld_head bld), perm, es. split_and!; try done. apply Hb.
Qed.

Lemma finish_ok bld :
  builder_ok bld -> bld_count bld * 8 <= GNUNET_MAX_MALLOC_CHECKED ->
  total (be_data <$> bld_head bld) < 2 ^ 60 ->
  exists comp es, compressed_ok comp (md_items (bld_meta bld)) /\ es ≡ₚ bld_head bld
    /\ room (12 + zlen (packed comp (md_items (bld_meta bld)))) (be_data <$> es)
    /\ GNUNET_FS_directory_builder_finish false bld = Ret (GNUNET_SYSERR, 0, None)
    /\ let data := directory_bytes (packed comp (md_items (bld_meta bld))) (be_data <$> es) in
       GNUNET_FS_directory_builder_finish true bld = Ret (GNUNET_OK, zlen data, Some data).
Proof.
  intros Hb Hn Ht. unfold GNUNET_FS_directory_builder_finish.
  destruct (get_serialized_size_ok _ (bo_meta _ Hb) (bo_small _ Hb)) as (comp & md' & -> & Hc & _ & _ & Hw).
  pose proof (packed_length comp _ Hc) as Hpl. pose proof (small_bound _ (bo_small _ Hb)) as Hsb.
  set (p := packed comp _) in *. unfold GNUNET_MAX_MALLOC_CHECKED in Hsb.
  assert (Hr : room (12 + zlen p) (be_data <$> bld_head bld)) by (split; lia).
  cbn [mbind outcome_bind]. change (8 + 4) with 12. rewrite u64_small by int_lia.
  destruct (arrange_ok bld _ Hb Hn Hr) as (bes & perm & es & -> & Hs & Hes & Hf).
  assert (Hr' : room (12 + zlen p) (be_data <$> es)).
  { destruct Hr as [Hr1 Hr2]. split; [ done | ].
    by rewrite (total_perm _ (be_data <$> bld_head bld)) by by rewrite Hes. }
  cbn [mbind outcome_bind negb]. exists comp, es. do 4 (split; [ done | ]). cbv zeta.
  set (l := layout _ _). pose proof (layout_length _ _ Hr') as Hl. fold l in Hl.
  assert (Hbuf : replicate (Z.to_nat (12 + zlen p + zlen l)) 0
    = [] ++ replicate (List.length GNUNET_DIRECTORY_MAGIC + (4 + (List.length p + List.length l))) 0).
  { cbn [app]. f_equal. cbn [GNUNET_DIRECTORY_MAGIC List.length]. lia. }
  rewrite Hbuf, (write_zeros [] GNUNET_DIRECTORY_MAGIC). cbn [mbind outcome_bind].
  rewrite replicate_add. cbn [app GNUNET_DIRECTORY_MAGIC replicate].
  change (_ :: _ :: _ :: _ :: _ :: _ :: _ :: _ :: _ :: _ :: _ :: _ :: replicate (List.length p + List.length l) 0)
    with ((GNUNET_DIRECTORY_MAGIC ++ replicate 4 0) ++ replicate (List.length p + List.length l) 0).
  rewrite take_app_length', drop_app_length' by done.
  rewrite Hw; [ | rewrite u64_small by int_lia; lia | rewrite length_replicate; lia ].
  cbn [mbind outcome_bind]. rewrite gnunet_assert_true by (destruct (Z.eqb_spec (zlen p) (-1)); [ lia | done ]).
  cbn [mbind outcome_bind of_option]. rewrite drop_replicate.
  replace (List.length p + List.length l - List.length p)%nat with (List.length l) by lia.
  rewrite (u32_small (zlen p)) by int_lia. rewrite <- app_assoc.
  pose proof (write_first_zeros GNUNET_DIRECTORY_MAGIC (be_encode 4 (zlen p)) (p ++ replicate (List.length l) 0) 0) as Hh.
  rewrite length_be_encode in Hh. change (List.length GNUNET_DIRECTORY_MAGIC) with 8%nat in Hh.
  change (4 + 0)%nat with 4%nat in Hh. cbn [replicate app] in Hh. cbn [replicate app]. rewrite Hh.
  cbn [mbind outcome_bind]. rewrite u64_small by int_lia.
  set (pre := GNUNET_DIRECTORY_MAGIC ++ be_encode 4 (zlen p) ++ p).
  assert (Hpre : zlen pre = 12 + zlen p) by (unfold pre; rewrite !length_app, length_be_encode; cbn; lia).
  pose proof (copy_entries_ok bes perm es pre Hf Hs) as Hcp. rewrite Hpre in Hcp.
  specialize (Hcp Hr'). fold l in Hcp. cbv zeta in Hcp. unfold pre in Hcp at 1. rewrite <- !app_assoc in Hcp.
  rewrite Hcp. cbn [mbind outcome_bind].
  assert (Hd : directory_bytes p (be_data <$> es) = pre ++ l)
    by (unfold directory_bytes, pre; by rewrite <- !app_assoc).
  assert (Hsize : 12 + zlen p + zlen l = zlen (pre ++ l)) by (rewrite length_app; lia).
  fold p. rewrite Hsize, gnunet_assert_true, Hd by apply Z.eqb_refl. done.
Qed.

Lemma build_entry_ok text md p :
  writes md p -> text_ok text -> zlen p <= GNUNET_MAX_MALLOC_CHECKED / 2 ->
  build_entry text md (zlen p)
  = Ret (mk_entry (zlen (entry_bytes text p)) (entry_bytes text p), md).
Proof.
  intros Hw (_ & _ & Ht) Hp. unfold build_entry. cbv zeta.
  change (GNUNET_MAX_MALLOC_CHECKED / 2) with 20971520 in Hp. unfold strlen in Ht.
  rewrite malloc_ok by (unfold GNUNET_MAX_MALLOC_CHECKED, sizeof_BuilderEntry; lia).
  cbn [mbind outcome_bind]. set (t := text ++ [0]).
  assert (Hlen : List.length t = (List.length text + 1)%nat) by (unfold t; by rewrite length_app).
  rewrite <- Hlen, Nat2Z.id. replace (List.length t + List.length p + 4)%nat
    with (List.length t + (4 + List.length p))%nat by lia.
  pose proof (write_zeros [] t (4 + List.length p)) as Hz. cbn [app] in Hz. 
  change (List.length []) with 0%nat in Hz. rewrite Hz. cbn [mbind outcome_bind].
  rewrite replicate_add, app_assoc.
  rewrite take_app_length', drop_app_length' by (rewrite length_app, length_replicate; lia).
  rewrite Hw by (rewrite ?length_replicate; lia). cbn [mbind outcome_bind of_option].
  rewrite drop_replicate, Nat.sub_diag. change (replicate 0 0) with (@nil Z). rewrite app_nil_r.
  destruct (Z.eqb_spec (zlen p) (-1)) as [|_]; [ lia | ]. rewrite u32_small by int_lia.
  pose proof (write_first_zeros t (be_encode 4 (zlen p)) p 0) as Hb. rewrite length_be_encode in Hb.
  change (4 + 0)%nat with 4%nat in Hb. change (replicate 0 0 ++ p) with p in Hb.
  rewrite <- (app_assoc t), Hb.
  cbn [mbind outcome_bind]. unfold entry_bytes, t. rewrite <- app_assoc.
  do 2 f_equal. f_equal. rewrite !length_app, length_be_encode. cbn [List.length]. lia.
Qed.

(** *** Inlined data *)

Definition full_item (d : list Z) : MetaItem :=
  mk_item (Some (cs "<gnunet>")) None d EXTRACTOR_METATYPE_GNUNET_FULL_DATA EXTRACTOR_METAFORMAT_BINARY.

Lemma full_item_ok d : zlen d <= MAX_INLINE_SIZE -> item_ok (full_item d).
Proof.
  intros Hd. destruct directory_types_fit as [_ Hf]. destruct directory_types_differ as (_ & Hn & _).
  destruct formats_differ as (Hf1 & Hf2 & _).
  assert (Ht : is_text EXTRACTOR_METAFORMAT_BINARY = false).
  { unfold is_text. by rewrite (proj2 (Z.eqb_neq _ _) Hf1), (proj2 (Z.eqb_neq _ _) Hf2). }
  constructor; cbn [full_item item_type item_format item_data plugin_name mime_type]; try done.
  - by right.
  - by rewrite Ht.
  - by repeat constructor.
  - unfold data_size, full_item, MAX_INLINE_SIZE in *. cbn [item_data]. split_and!; [ | done | done ].
    unfold GNUNET_MAX_MALLOC_CHECKED. lia.
  - by rewrite Hn.
Qed.

(** The items of an entry for meta data [md] and a file [data]: those of [md], perhaps
    with the file *)
Definition carries (inlined : option (list Z)) (md : GNUNET_CONTAINER_MetaData) (l : list MetaItem) : Prop :=
  match inlined with
  | None => l ≡ₚ md_items md
  | Some d => l ≡ₚ (if decide (key (full_item d) ∈ key <$> md_items md) then md_items md
                    else full_item d :: md_items md)
  end.

Lemma blobs_perm l l' : l ≡ₚ l' -> blobs l = blobs l'.
Proof. induction 1; rewrite ?blobs_cons in *; lia. Qed.

Definition encode_size (l : list MetaItem) : Z := zlen (encode l).

Lemma encode_size_perm l l' : l ≡ₚ l' -> encode_size l = encode_size l'.
Proof. intros Hp. unfold encode_size. by rewrite !length_encode, (blobs_perm _ _ Hp), Hp. Qed.

Lemma encode_size_cons i l : encode_size (i :: l) = encode_size l + 20 + zlen (blob i).
Proof. unfold encode_size. rewrite !length_encode, blobs_cons. cbn [List.length]. lia. Qed.

Lemma encode_size_full d l :
  encode_size (full_item d :: l) = encode_size l + zlen d + 29.
Proof.
  rewrite encode_size_cons. unfold blob, string_bytes, full_item. cbn [mime_type plugin_name item_data].
  rewrite !length_app. cbn. lia.
Qed.

(** Meta data that are serialized completely in an entry *)
Definition fits (l : list MetaItem) : Prop := encode_size l <= 2 ^ 24.
Definition nearly_fits (l : list MetaItem) : Prop := encode_size l <= 2 ^ 24 + 2 ^ 17.

Lemma nearly_fits_small l : nearly_fits l -> small l /\ zlen l < 2 ^ 32 - 1.
Proof.
  unfold nearly_fits, encode_size, small, GNUNET_MAX_MALLOC_CHECKED. intros Hn.
  pose proof (length_le_encode l). split; [ Z.div_mod_to_equations; lia | lia ].
Qed.

Lemma carries_fits inlined md l :
  carries inlined md l -> fits (md_items md) ->
  match inlined with None => True | Some d => zlen d <= MAX_INLINE_SIZE end -> nearly_fits l.
Proof.
  unfold carries, fits, nearly_fits, MAX_INLINE_SIZE. intros Hc Hf Hd.
  destruct inlined as [d|]; [ destruct (decide _) | ]; rewrite (encode_size_perm _ _ Hc); try lia.
  rewrite encode_size_full. lia.
Qed.

(** [meta] is ready to be written as an entry for [md] and [inlined]. *)
Definition ready (inlined : option (list Z)) (md meta : GNUNET_CONTAINER_MetaData) (p : list Z) : Prop :=
  md_ok meta /\ carries inlined md (md_items meta) /\ nearly_fits (md_items meta)
  /\ (exists comp, compressed_ok comp (md_items meta) /\ p = packed comp (md_items meta))
  /\ writes meta p.

Lemma ready_length inlined md meta p :
  ready inlined md meta p -> zlen p <= 2 ^ 24 + 2 ^ 17 + 12.
Proof.
  intros (_ & _ & Hn & (comp & Hc & ->) & _). pose proof (packed_length comp _ Hc).
  unfold nearly_fits, encode_size in Hn. lia.
Qed.

Lemma with_full_data_ok md d :
  md_ok md -> fits (md_items md) -> zlen d <= MAX_INLINE_SIZE ->
  exists meta p, with_full_data md d (zlen d) = Ret (meta, zlen p) /\ ready (Some d) md meta p.
Proof.
  intros Hmd Hf Hd. unfold with_full_data.
  assert (Hn : nearly_fits (md_items md)) by (unfold fits, nearly_fits in *; lia).
  destruct (nearly_fits_small _ Hn) as [Hs Hl].
  destruct (duplicate_ok md Hmd ltac:(lia)) as (m & -> & Hm & Hp). cbn [mbind outcome_bind of_option].
  rewrite Nat2Z.id. pose proof (mem_read_prefix d [] _ eq_refl) as Hr. rewrite app_nil_r in Hr.
  rewrite Hr. cbn [mbind outcome_bind].
  destruct (insert_binary m (full_item d) Hm (full_item_ok d Hd) eq_refl eq_refl)
    as (r & m' & Hi & Hm' & Hc); [ rewrite Hp; lia | ].
  unfold insert_item, full_item in Hi. cbn [plugin_name item_type item_format mime_type item_data] in Hi.
  rewrite Hi. cbn [mbind outcome_bind].
  assert (Hcar : carries (Some d) md (md_items m')).
  { unfold carries. destruct Hc as [[-> Hin]|[Hc Hin]]; rewrite Hp in Hin.
    - by rewrite decide_True.
    - rewrite decide_False by done. by rewrite Hc, Hp. }
  pose proof (carries_fits _ _ _ Hcar Hf Hd) as Hn'. destruct (nearly_fits_small _ Hn') as [Hs' _].
  destruct (get_serialized_size_ok m' Hm' Hs') as (comp & m2 & -> & Hcomp & Hm2 & Hi2 & Hw).
  cbn [mbind outcome_bind]. exists m2, (packed comp (md_items m')).
  pose proof (packed_length comp _ Hcomp) as Hpl. unfold nearly_fits, encode_size in Hn'.
  rewrite u64_small by int_lia. split; [ done | ]. unfold ready. rewrite Hi2. by eauto 10.
Qed.

(** *** Adding a file *)

Context `{U : UpperCase} `{!UpperCaseLaws} `{!PaddedFrame} `{Rsa}.

Record addition := mk_addition {
  a_uri : GNUNET_FS_Uri;
  a_md : GNUNET_CONTAINER_MetaData;
  a_data : option (list Z)
}.

Definition dir_uri_ok (u : GNUNET_FS_Uri) : Prop :=
  match u with
  | sks _ identifier => is_cstr identifier
  | ksk _ => False
  | _ => True
  end /\ uri_ok u.

(** [data] are exactly the bytes that the URI names. *)
Definition names_data (u : GNUNET_FS_Uri) (d : list Z) : Prop :=
  match u with
  | chk fi => GNUNET_ntohll (file_length fi) = zlen d
  | loc l => GNUNET_ntohll (file_length (loc_fi l)) = zlen d
  | _ => False
  end.

Record addition_ok (a : addition) : Prop := {
  ao_uri : dir_uri_ok (a_uri a);
  ao_md : md_ok (a_md a);
  ao_fits : fits (md_items (a_md a));
  ao_data : match a_data a with Some d => names_data (a_uri a) d | None => True end
}.

Lemma dir_uri_text u :
  dir_uri_ok u ->
  exists s, GNUNET_FS_uri_to_string (Some u) = Ret (Some s) /\ text_ok s
    /\ forall fuel, GNUNET_FS_uri_parse fuel (Some s) = Some (Ret (Some u, None)).
Proof.
  assert (Hall : forall (Q : str -> Prop),
    (forall fuel, exists s, GNUNET_FS_uri_to_string (Some u) = Ret (Some s)
       /\ GNUNET_FS_uri_parse fuel (Some s) = Some (Ret (Some u, None)) /\ Q s) ->
    exists s, GNUNET_FS_uri_to_string (Some u) = Ret (Some s) /\ Q s
      /\ forall fuel, GNUNET_FS_uri_parse fuel (Some s) = Some (Ret (Some u, None))).
  { intros Q Hq. destruct (Hq 0%nat) as (s & Hs & _ & Ht). exists s. split_and!; [ done | done | ].
    intros fuel. destruct (Hq fuel) as (s' & Hs' & Hp & _). congruence. }
  destruct u as [fi|ns identifier|ks|l]; intros [Hu Hok]; cbn [uri_ok] in Hok; [ | | done | ]; apply Hall.
  - intros fuel. rewrite <- is_padded. by apply chk_roundtrip.
  - intros fuel. rewrite <- is_padded. destruct Hok as [Hns Hid].
    destruct (sks_roundtrip ns identifier fuel Hns Hid) as (s & ? & ? & Ht). eauto.
  - intros fuel. rewrite <- is_padded. by apply loc_roundtrip.
Qed.

Definition inline_length (data : option (list Z)) : Z :=
  match data with
  | None => 0
  | Some d => if MAX_INLINE_SIZE <? zlen d then 0 else zlen d
  end.

Lemma inline_size_ok u data :
  match data with Some d => names_data u d | None => True end ->
  inline_size u data = Ret (inline_length data).
Proof.
  unfold inline_size, inline_length. destruct data as [d|]; [ | done ].
  destruct u as [fi|ns identifier|ks|l]; cbn [names_data]; try done; intros Hd;
    cbn -[GNUNET_ntohll MAX_INLINE_SIZE Z.ltb]; by rewrite Hd.
Qed.

Definition inlines (inlined : option (list Z)) (data : option (list Z)) : Prop :=
  inlined = None \/ exists d, inlined = Some d /\ data = Some d /\ 0 < zlen d <= MAX_INLINE_SIZE.

Lemma choose_meta_ok md data slen p0 :
  md_ok md -> fits (md_items md) -> ready None md md p0 ->
  exists meta p inlined, choose_meta md data (inline_length data) slen (zlen p0) = Ret (meta, zlen p)
    /\ inlines inlined data /\ ready inlined md (default md meta) p.
Proof.
  intros Hmd Hf Hr. unfold choose_meta, inline_length.
  assert (Hno : exists meta p inlined, Ret (A := option GNUNET_CONTAINER_MetaData * Z) (None, zlen p0) = Ret (meta, zlen p)
    /\ inlines inlined data /\ ready inlined md (default md meta) p)
    by (exists None, p0, None; split_and!; [ done | by left | done ]).
  destruct data as [d|]; [ | done ].
  destruct (Z.ltb_spec MAX_INLINE_SIZE (zlen d)); [ done | ]. destruct (Z.ltb_spec 0 (zlen d)); [ | done ].
  destruct (with_full_data_ok md d Hmd Hf) as (meta & p & -> & Hp); [ done | ].
  cbn [mbind outcome_bind]. destruct (_ =? _); [ | done ].
  exists (Some meta), p, (Some d). split_and!; [ done | | done ]. right. by exists d.
Qed.

(** The entry that is stored for a file *)
Definition entry_for (a : addition) (e : BuilderEntry) : Prop :=
  exists text inlined meta p,
    GNUNET_FS_uri_to_string (Some (a_uri a)) = Ret (Some text) /\ text_ok text
    /\ inlines inlined (a_data a) /\ ready inlined (a_md a) meta p
    /\ e = mk_entry (zlen (entry_bytes text p)) (entry_bytes text p).

Lemma entry_for_length a e : entry_for a e -> full_entry e /\ zlen (be_data e) <= 2 ^ 25.
Proof.
  intros (text & inlined & meta & p & _ & (_ & _ & Ht) & _ & Hr & ->). split; [ done | ].
  pose proof (ready_length _ _ _ _ Hr) as Hp. unfold strlen in Ht. cbn [be_data].
  unfold entry_bytes. rewrite !length_app, length_be_encode. cbn [List.length]. lia.
Qed.

Lemma ready_items inlined md md' meta p :
  md_items md' = md_items md -> ready inlined md' meta p -> ready inlined md meta p.
Proof.
  intros Hi (Ho & Hc & Hr). split; [ done | ]. split; [ | done ]. unfold carries in *. by rewrite <- Hi.
Qed.

Lemma builder_add_ok bld a :
  builder_ok bld -> addition_ok a -> bld_count bld + 1 < 2 ^ 32 ->
  exists e md, GNUNET_FS_directory_builder_add bld (a_uri a) (a_md a) (a_data a)
      = Ret (mk_builder (bld_meta bld) (e :: bld_head bld) (bld_count bld + 1), md)
    /\ entry_for a e /\ md_ok md /\ md_items md = md_items (a_md a).
Proof.
  intros Hb Ha Hn. unfold GNUNET_FS_directory_builder_add.
  destruct (ao_uri _ Ha) as [Hk _].
  assert (Hnk : negb (GNUNET_FS_uri_test_ksk (a_uri a)) = true) by (by destruct (a_uri a)).
  rewrite (gnunet_assert_true _ Hnk). cbn [mbind outcome_bind].
  rewrite inline_size_ok by exact (ao_data _ Ha). cbn [mbind outcome_bind].
  destruct (dir_uri_text _ (ao_uri _ Ha)) as (text & Htext & Hok & _). rewrite Htext.
  cbn [mbind outcome_bind of_option].
  assert (Hf : nearly_fits (md_items (a_md a))) by (pose proof (ao_fits _ Ha); unfold fits, nearly_fits in *; lia).
  destruct (nearly_fits_small _ Hf) as [Hs _].
  destruct (get_serialized_size_ok _ (ao_md _ Ha) Hs) as (comp & md & -> & Hc & Hmd & Hi & Hw).
  cbn [mbind outcome_bind]. set (p0 := packed comp _) in *.
  assert (Hr : ready None md md p0).
  { split_and!; [ done | by unfold carries | by rewrite Hi | exists comp; by rewrite Hi | done ]. }
  pose proof (ready_length _ _ _ _ Hr) as Hl. rewrite (u64_small (zlen p0)) by int_lia.
  destruct (choose_meta_ok md (a_data a) (strlen text + 1) p0 Hmd) as (meta & p & inlined & -> & Hin & Hp);
    [ rewrite Hi; apply Ha | done | ].
  cbn [mbind outcome_bind]. pose proof (ready_length _ _ _ _ Hp) as Hlp.
  assert (Hcap : zlen p <= GNUNET_MAX_MALLOC_CHECKED / 2)
    by (change (GNUNET_MAX_MALLOC_CHECKED / 2) with 20971520; lia).
  rewrite (proj2 (Z.ltb_ge _ _) Hcap), (bo_count _ Hb) in *. rewrite u32_small by int_lia.
  pose proof (build_entry_ok text (default md meta) p ltac:(apply Hp) Hok Hcap) as He.
  exists (mk_entry (zlen (entry_bytes text p)) (entry_bytes text p)), md.
  split; [ | split; [ | done ] ].
  - destruct meta as [m|]; cbn [default from_option id] in He; rewrite He; done.
  - exists text, inlined, (default md meta), p. split_and!; try done. by apply (ready_items _ _ md).
Qed.

Fixpoint add_all (bld : GNUNET_FS_DirectoryBuilder) (l : list addition)
  : outcome GNUNET_FS_DirectoryBuilder :=
  match l with
  | [] => Ret bld
  | a :: l =>
      '(bld, _) ← GNUNET_FS_directory_builder_add bld (a_uri a) (a_md a) (a_data a);
      add_all bld l
  end.

Lemma add_all_ok l : forall bld,
  builder_ok bld -> Forall addition_ok l -> bld_count bld + zlen l < 2 ^ 32 ->
  exists es, add_all bld l
      = Ret (mk_builder (bld_meta bld) (rev es ++ bld_head bld) (bld_count bld + zlen l))
    /\ Forall2 entry_for l es.
Proof.
  induction l as [|a l IH]; intros bld Hb Hl Hn; cbn [add_all].
  { exists []. cbn. rewrite Z.add_0_r. by destruct bld. }
  apply Forall_cons in Hl as [Ha Hl]. cbn [List.length] in Hn.
  destruct (builder_add_ok bld a Hb Ha) as (e & md & -> & He & _); [ lia | ]. cbn [mbind outcome_bind].
  destruct (entry_for_length _ _ He) as [Hf _].
  destruct (IH (mk_builder (bld_meta bld) (e :: bld_head bld) (bld_count bld + 1))) as (es & -> & Hes).
  - destruct Hb as [Hm Hs Hfull Hc]. constructor; cbn [bld_meta bld_head bld_count]; try done.
    + by constructor.
    + cbn [List.length]. lia.
  - done.
  - cbn [bld_count]. lia.
  - exists (e :: es). split; [ | by constructor ]. cbn [bld_meta bld_head bld_count rev List.length].
    rewrite <- app_assoc. cbn [app]. do 2 f_equal. lia.
Qed.

(** *** The meta data of the directory *)

Definition mime_item : MetaItem :=
  mk_item (Some (cs "<gnunet>")) (Some (cs "text/plain")) (GNUNET_FS_DIRECTORY_MIME ++ [0])
    EXTRACTOR_METATYPE_MIMETYPE EXTRACTOR_METAFORMAT_UTF8.

Lemma mime_item_ok : item_ok mime_item.
Proof.
  destruct directory_types_fit as [Hf _]. destruct directory_types_differ as (Hn & _ & _).
  assert (Ht : is_text EXTRACTOR_METAFORMAT_UTF8 = true) by (unfold is_text; by rewrite Z.eqb_refl).
  constructor; cbn [mime_item item_type item_format item_data plugin_name mime_type];
    first [ done | by left | by repeat constructor | by rewrite Hn ].
Qed.

Lemma get_by_type_spec md type :
  md_ok md -> exists s, GNUNET_CONTAINER_meta_data_get_by_type (Some md) type = Ret s
    /\ (s = None <-> Forall (fun i => item_type i = type -> is_text (item_format i) = false) (md_items md)).
Proof.
  intros Hmd. destruct (get_by_type_ok md type Hmd) as [s Hs]. exists s. split; [ done | ].
  revert Hs. unfold GNUNET_CONTAINER_meta_data_get_by_type. induction (md_items md) as [|i l IH];
    cbn [get_by_type_loop]; [ intros [= <-]; split; [ constructor | done ] | ].
  rewrite Forall_cons. destruct (Z.eqb_spec type (item_type i)) as [Ht|Ht]; cbn [andb].
  - destruct (is_text (item_format i)) eqn:Hx.
    + intros Hs. apply bind_Ret_inv in Hs as (? & _ & Hs). apply bind_Ret_inv in Hs as (? & _ & [= <-]).
      split; [ done | ]. intros [Hno _]. by discriminate Hno.
    + intros Hs. rewrite (IH Hs). naive_solver.
  - intros Hs. rewrite (IH Hs). naive_solver.
Qed.

Definition mdir_items (mdir : option GNUNET_CONTAINER_MetaData) : list MetaItem :=
  match mdir with
  | Some m => md_items m
  | None => []
  end.

(** The items of a directory: those that were given, and that it is a directory *)
Definition directory_items (mdir : option GNUNET_CONTAINER_MetaData) : list MetaItem :=
  if decide (EXTRACTOR_METATYPE_MIMETYPE ∈ item_type <$> mdir_items mdir) then mdir_items mdir
  else mime_item :: mdir_items mdir.

(** Meta data of a directory: below the limit, and MIME types are text *)
Record mdir_ok (mdir : option GNUNET_CONTAINER_MetaData) : Prop := {
  mdo_md : match mdir with Some m => md_ok m | None => True end;
  mdo_fits : fits (mdir_items mdir);
  mdo_mime : Forall (fun i => item_type i = EXTRACTOR_METATYPE_MIMETYPE -> is_text (item_format i) = true)
               (mdir_items mdir)
}.

Lemma make_directory_ok mdir meta :
  mdir_ok mdir -> md_ok meta -> md_items meta ≡ₚ mdir_items mdir ->
  exists meta', GNUNET_FS_meta_data_make_directory meta = Ret meta' /\ md_ok meta'
    /\ md_items meta' ≡ₚ directory_items mdir.
Proof.
  intros Hd Hm Hp. unfold GNUNET_FS_meta_data_make_directory, directory_items.
  assert (Hlen : zlen (md_items meta) + 1 < 2 ^ 32).
  { rewrite Hp. pose proof (mdo_fits _ Hd) as Hf. unfold fits, encode_size in Hf.
    pose proof (length_le_encode (mdir_items mdir)). lia. }
  destruct (get_by_type_spec meta EXTRACTOR_METATYPE_MIMETYPE Hm) as (s & -> & Hs).
  cbn [mbind outcome_bind]. destruct (decide _) as [Hin|Hin].
  - destruct s as [s|]; [ by exists meta | ]. apply list_elem_of_fmap in Hin as (i & Ht & Hi).
    pose proof (proj1 Hs eq_refl) as Hno. rewrite Hp, Forall_forall in Hno.
    pose proof (proj1 (Forall_forall _ _) (mdo_mime _ Hd) _ Hi (eq_sym Ht)) as Htext.
    rewrite (Hno _ Hi (eq_sym Ht)) in Htext. done.
  - destruct s as [s|].
    { assert (Hnone : Some s = None); [ | done ]. apply Hs. rewrite Hp, Forall_forall. intros i Hi Ht.
      destruct Hin. apply list_elem_of_fmap. by exists i. }
    destruct (insert_fresh meta mime_item Hm mime_item_ok) as [Hi Hok].
    + rewrite Hp. intros Hk. apply list_elem_of_fmap in Hk as (i & Hk & Hi). destruct Hin.
      apply list_elem_of_fmap. exists i. split; [ | done ]. by injection Hk.
    + done.
    + unfold insert_item in Hi. unfold mime_item at 1 2 3 4 5 in Hi.
      cbn [plugin_name item_type item_format mime_type item_data] in Hi. rewrite Hi.
      cbn [mbind outcome_bind]. eexists. split; [ reflexivity | ]. split; [ done | ].
      cbn [md_items]. by rewrite place_perm, Hp.
Qed.

Lemma builder_create_ok mdir :
  mdir_ok mdir ->
  exists meta, GNUNET_FS_directory_builder_create mdir = Ret (mk_builder meta [] 0)
    /\ builder_ok (mk_builder meta [] 0) /\ md_items meta ≡ₚ directory_items mdir.
Proof.
  intros Hd. unfold GNUNET_FS_directory_builder_create.
  assert (Hn : nearly_fits (directory_items mdir)).
  { pose proof (mdo_fits _ Hd) as Hf. unfold fits, nearly_fits, directory_items in *.
    destruct (decide _); [ lia | ]. rewrite encode_size_cons. change (zlen (blob mime_item)) with 49. lia. }
  assert (Hmeta : exists meta0, match mdir with
      | Some _ => m ← GNUNET_CONTAINER_meta_data_duplicate mdir; of_option m
      | None => Ret GNUNET_CONTAINER_meta_data_create
      end = Ret meta0 /\ md_ok meta0 /\ md_items meta0 ≡ₚ mdir_items mdir).
  { destruct mdir as [m|]; [ | exists GNUNET_CONTAINER_meta_data_create; split_and!; [ done | apply create_ok | done ] ].
    pose proof (mdo_fits _ Hd) as Hf. unfold fits, encode_size in Hf.
    pose proof (length_le_encode (md_items m)). cbn [mdir_items] in Hf.
    destruct (duplicate_ok m (mdo_md _ Hd) ltac:(lia)) as (m' & -> & Hm & Hp). by exists m'. }
  destruct Hmeta as (meta0 & -> & Hok & Hp). cbn [mbind outcome_bind].
  destruct (make_directory_ok mdir meta0 Hd Hok Hp) as (meta & -> & Hm & Hi). cbn [mbind outcome_bind].
  exists meta. split_and!; [ done | | done ].
  assert (Hn' : nearly_fits (md_items meta)) by (unfold nearly_fits in *; by rewrite (encode_size_perm _ _ Hi)).
  constructor; cbn [bld_meta bld_head bld_count]; try done. by apply nearly_fits_small.
Qed.
End Building.

(** ** Listing *)

Lemma upto_nul_text s r : is_cstr s -> upto_nul (s ++ 0 :: r) = s.
Proof.
  induction 1 as [|c s Hc Hs IH]; [ done | ]. cbn [app upto_nul].
  by rewrite (proj2 (Z.eqb_neq c 0) Hc), IH.
Qed.

Section Listing.
Context `{U : UpperCase} `{!UpperCaseLaws} `{!PaddedFrame} `{Rsa} `{DirectoryTypes} `{Zlib}.

(** What the processor is given: file name, URI, meta data, length and data *)
Definition call : Type :=
  option str * option GNUNET_FS_Uri * GNUNET_CONTAINER_MetaData * Z * option (list Z).

Definition record_call : processor (S := list call) :=
  fun s filename uri md n data => Ret (s ++ [(filename, uri, md, n, data)]).

(** The data of the first item that holds a file *)
Definition full_data_of (l : list MetaItem) : Z * option (list Z) :=
  match filter (fun i => item_type i = EXTRACTOR_METATYPE_GNUNET_FULL_DATA) l with
  | i :: _ => (data_size i, if 0 <? data_size i then Some (item_data i) else None)
  | [] => (0, None)
  end.

Lemma find_full_data_ok l :
  Forall item_ok l -> iterate_items find_full_data (0, None) l = Ret (full_data_of l).
Proof.
  induction 1 as [|i l Hi Hl IH]; [ done | ]. cbn [iterate_items]. unfold full_data_of.
  destruct (decide (item_type i = EXTRACTOR_METATYPE_GNUNET_FULL_DATA)) as [Ht|Ht].
  - rewrite filter_cons_True by done.
    assert (Hone : find_full_data (0, None) i
      = Ret (data_size i, if 0 <? data_size i then Some (item_data i) else None, 1)).
    { unfold find_full_data. rewrite Ht, Z.eqb_refl, malloc_ok by apply (io_sizes _ Hi).
      by destruct (0 <? data_size i). }
    by rewrite Hone.
  - rewrite filter_cons_False by done.
    assert (Hone : find_full_data (0, None) i = Ret (0, None, 0))
      by (unfold find_full_data; by rewrite (proj2 (Z.eqb_neq _ _) Ht)).
    rewrite Hone. exact IH.
Qed.

(** The bytes of an entry, and the call it leads to *)
Definition reads_as (pfuel : nat) (e : list Z) (c : call) : Prop :=
  exists text p u md filename,
    e = entry_bytes text p /\ text_ok text /\ zlen p < 2 ^ 32
    /\ GNUNET_FS_uri_parse pfuel (Some text) = Some (Ret (Some u, None))
    /\ GNUNET_FS_uri_test_ksk u = false
    /\ GNUNET_CONTAINER_meta_data_deserialize p = Ret (Some md) /\ Forall item_ok (md_items md)
    /\ GNUNET_CONTAINER_meta_data_get_by_type (Some md) EXTRACTOR_METATYPE_GNUNET_ORIGINAL_FILENAME
       = Ret filename
    /\ c = (filename, Some u, md, (full_data_of (md_items md)).1, (full_data_of (md_items md)).2).

Context (pfuel : nat).

Lemma list_round_ok pre e post c s :
  reads_as pfuel e c -> zlen (pre ++ e ++ post) < 2 ^ 62 ->
  list_round (Some record_call) pfuel (pre ++ e ++ post) (zlen pre) s
  = Some (Ret (Next (zlen pre + zlen e) (s ++ [c]))).
Proof.
  intros (text & p & u & md & filename & -> & (Htext & _ & Hshort) & Hp & Hparse & Hksk & Hd & Hi & Hname & ->) Hsize.
  unfold list_round. cbv zeta. rewrite Nat2Z.id, drop_app_length.
  unfold entry_bytes in *. rewrite <- app_assoc. cbn [app]. rewrite upto_nul_text by done.
  rewrite !length_app in Hsize. cbn [List.length] in Hsize. rewrite length_be_encode in Hsize.
  set (cdata := pre ++ text ++ 0 :: (be_encode 4 (zlen p) ++ p) ++ post).
  assert (Hlen : zlen cdata = zlen pre + zlen text + 5 + zlen p + zlen post).
  { unfold cdata. rewrite !length_app. cbn [List.length]. rewrite !length_app, length_be_encode. lia. }
  rewrite u64_small by int_lia. rewrite (proj2 (Z.leb_gt _ _)) by lia. rewrite Hparse.
  cbn [mbind option_bind outcome_bind]. f_equal. rewrite u64_small by int_lia.
  unfold list_entry. cbv zeta. rewrite Hksk.
  rewrite (mem_read_at _ (pre ++ text ++ [0]) (be_encode 4 (zlen p)) (p ++ post));
    [ | unfold cdata; by rewrite <- !app_assoc | rewrite !length_app; cbn; lia | apply length_be_encode ].
  cbn [mbind outcome_bind]. rewrite be_decode_encode. change (2 ^ (8 * Z.of_nat 4)) with (2 ^ 32).
  rewrite Z.mod_small by lia. rewrite !u64_small by int_lia. rewrite (proj2 (Z.ltb_ge _ _)) by lia.
  rewrite (mem_read_at _ (pre ++ text ++ [0] ++ be_encode 4 (zlen p)) p post);
    [ | unfold cdata; rewrite <- !app_assoc; cbn [app]; by rewrite <- ?app_assoc
      | rewrite !length_app, length_be_encode; cbn; lia | lia ].
  cbn [mbind outcome_bind]. rewrite Hd. cbn [mbind outcome_bind]. rewrite Hname. cbn [mbind outcome_bind].
  unfold GNUNET_CONTAINER_meta_data_iterate. rewrite find_full_data_ok by done.
  cbn [mbind outcome_bind record_call]. unfold record_call. cbn [mbind outcome_bind].
  do 2 f_equal. rewrite !length_app. cbn [List.length]. rewrite !length_app, length_be_encode. lia.
Qed.

(** The text of an entry is not empty, so that a listing does not take it for a gap. *)
Lemma reads_as_first e c : reads_as pfuel e c -> exists b r, e = b :: r /\ b <> 0.
Proof.
  intros (text & p & u & md & filename & -> & (Htext & Hne & _) & _). destruct text as [|b r]; [ done | ].
  inversion_clear Htext. unfold entry_bytes. cbn [app]. by eauto.
Qed.

Lemma parse_empty : exists m, GNUNET_FS_uri_parse pfuel (Some ([] : str)) = Some (Ret (None, Some m)).
Proof. eexists. reflexivity. Qed.

Lemma skip_block_spec pos :
  0 <= pos < 2 ^ 62 ->
  let align := skip_block pos in
  pos < align /\ align mod DBLOCK_SIZE = 0 /\ align <= pos + DBLOCK_SIZE
  /\ forall q, pos < q -> q mod DBLOCK_SIZE = 0 -> align <= q.
Proof.
  intros Hpos. unfold skip_block. cbv zeta. unfold DBLOCK_SIZE. change (32 * 1024) with 32768.
  rewrite u64_small by int_lia. pose proof (Z.div_mod pos 32768 ltac:(lia)) as Hdm.
  pose proof (Z.mod_pos_bound pos 32768 ltac:(lia)) as Hmb.
  rewrite (proj2 (Z.eqb_neq _ _)) by lia. split_and!; [ lia | apply Z.mod_mul; lia | lia | ].
  intros q Hq Hm. Z.div_mod_to_equations. lia.
Qed.

(** A listing passes a gap of zeros, however many blocks it spans. *)
Lemma list_skip cdata target x s : forall fuel pos,
  zlen cdata < 2 ^ 62 -> cdata !! Z.to_nat target = Some x -> x <> 0 ->
  (pos < target -> target mod DBLOCK_SIZE = 0) ->
  0 <= pos <= target -> (forall i, pos <= i < target -> cdata !! Z.to_nat i = Some 0) ->
  (Z.to_nat (zlen cdata - pos) < fuel)%nat ->
  exists fuel', (Z.to_nat (zlen cdata - target) < fuel')%nat
    /\ list_loop (Some record_call) fuel pfuel cdata pos s
       = list_loop (Some record_call) fuel' pfuel cdata target s.
Proof.
  intros fuel pos Hsize Hx Hne. revert pos. induction fuel as [|fuel IH]; [ lia | ].
  intros pos Hal Hpos Hz Hf. destruct (decide (pos = target)) as [->|Hlt]; [ by exists (S fuel) | ].
  assert (Hsz : target < zlen cdata) by (apply lookup_lt_Some in Hx; lia).
  destruct (skip_block_spec pos ltac:(lia)) as (Ha1 & Ha2 & _ & Ha4).
  specialize (Ha4 target ltac:(lia) (Hal ltac:(lia))). set (align := skip_block pos) in *.
  cbn [list_loop]. rewrite (proj2 (Z.leb_gt _ _)) by lia. rewrite (Hz pos) by lia.
  cbn [of_option and_then]. change (0 =? 0) with true. cbv iota. fold align. cbn [andb].
  rewrite (proj2 (Z.leb_gt _ align)) by lia.
  destruct (decide (align = target)) as [Heq|Hneq].
  - exists (S fuel). split; [ lia | ]. cbn [list_loop]. rewrite (proj2 (Z.leb_gt _ target)) by lia.
    rewrite Hx. cbn [of_option and_then]. rewrite (proj2 (Z.eqb_neq x 0) Hne). cbn [andb]. by rewrite Heq.
  - assert (Hround : list_round (Some record_call) pfuel cdata align s = Some (Ret (Next align s))).
    { unfold list_round. cbv zeta. rewrite (drop_S _ _ _ (Hz align ltac:(lia))). cbn [upto_nul].
      change (0 =? 0) with true. cbn [List.length]. rewrite Z.add_0_r, u64_small by int_lia.
      rewrite (proj2 (Z.leb_gt _ _)) by lia. destruct parse_empty as [m ->].
      cbn [mbind option_bind outcome_bind]. rewrite gnunet_assert_true by (by apply bool_decide_eq_true).
      cbn [mbind outcome_bind]. rewrite !u64_small by int_lia. by replace (align + 1 - 1) with align by lia. }
    rewrite Hround. cbn [mbind option_bind and_then]. apply IH; [ intros _; apply Hal; lia | lia | | lia ].
    intros i Hi. apply Hz. lia.
Qed.

Lemma list_layout es calls : forall pre s fuel,
  Forall2 (reads_as pfuel) es calls -> room (zlen pre) es ->
  (List.length (layout (zlen pre) es) < fuel)%nat ->
  list_loop (Some record_call) fuel pfuel (pre ++ layout (zlen pre) es) (zlen pre) s
  = Some (Ret (GNUNET_OK, s ++ calls)).
Proof.
  intros pre s fuel Hr. revert pre s fuel. induction Hr as [|e c es calls He Hr IH]; intros pre s fuel Hroom Hf.
  { cbn [layout]. rewrite !app_nil_r. destruct fuel; cbn [list_loop]; by rewrite Z.leb_refl. }
  destruct (room_cons _ _ _ Hroom) as (H1' & H2' & _ & Hroom' & _). pose proof (layout_length _ _ Hroom) as Hlen.
  cbn [layout] in *. set (start := place_of _ _) in *.
  set (gap := replicate (Z.to_nat (start - zlen pre)) 0) in *. set (rest := layout _ es) in *.
  assert (Hgap : zlen (pre ++ gap) = start) by (unfold gap; rewrite length_app, length_replicate; lia).
  destruct (reads_as_first _ _ He) as (b & r & Hb & Hne).
  assert (Hle : (0 < List.length e)%nat) by (rewrite Hb; cbn; lia).
  set (cdata := pre ++ gap ++ e ++ rest).
  assert (Hsz : zlen cdata = start + zlen e + zlen rest).
  { unfold cdata. rewrite app_assoc, !length_app in *. lia. }
  assert (Hsmall : zlen cdata < 2 ^ 62) by (unfold cdata; rewrite length_app; lia).
  assert (Hx : cdata !! Z.to_nat start = Some b).
  { unfold cdata. rewrite app_assoc, Hb. cbn [app]. apply list_lookup_middle. lia. }
  destruct (list_skip cdata start b s fuel (zlen pre)) as (fuel' & Hf' & ->); try done.
  - lia.
  - intros i Hi. unfold cdata. rewrite lookup_app_r, lookup_app_l by (rewrite ?length_replicate; unfold gap; rewrite ?length_replicate; lia).
    apply lookup_replicate. split; [ done | lia ].
  - unfold cdata. rewrite !length_app in *. lia.
  - destruct fuel' as [|fuel']; [ lia | ]. cbn [list_loop]. rewrite (proj2 (Z.leb_gt _ _)) by lia.
    rewrite Hx. cbn [of_option and_then]. rewrite (proj2 (Z.eqb_neq b 0) Hne). cbn [andb].
    assert (Hround : list_round (Some record_call) pfuel cdata start s
      = Some (Ret (Next (start + zlen e) (s ++ [c])))).
    { unfold cdata in *. rewrite app_assoc in *. rewrite <- Hgap at 1 2. by apply list_round_ok. }
    rewrite Hround. cbn [mbind option_bind and_then].
    assert (Hend : start + zlen e = zlen ((pre ++ gap) ++ e)) by (rewrite length_app; lia).
    assert (Hcd : cdata = ((pre ++ gap) ++ e) ++ rest) by (unfold cdata; by rewrite <- !app_assoc).
    unfold rest in *. rewrite Hcd. rewrite Hend in Hroom' |- *. rewrite IH.
    + by rewrite <- app_assoc.
    + done.
    + rewrite <- Hend; lia.
Qed.

Lemma list_contents_ok meta p es calls fuel :
  GNUNET_CONTAINER_meta_data_deserialize p = Ret (Some meta) -> zlen p < 2 ^ 32 ->
  Forall2 (reads_as pfuel) es calls -> room (12 + zlen p) es ->
  (List.length (directory_bytes p es) < fuel)%nat ->
  GNUNET_FS_directory_list_contents (Some record_call) fuel pfuel (directory_bytes p es) 0 []
  = Some (Ret (GNUNET_OK, (None, None, meta, 0, None) :: calls)).
Proof.
  intros Hd Hp Hr Hroom Hf. unfold GNUNET_FS_directory_list_contents. cbv zeta.
  set (pre := GNUNET_DIRECTORY_MAGIC ++ be_encode 4 (zlen p) ++ p).
  assert (Hpre : zlen pre = 12 + zlen p) by (unfold pre; rewrite !length_app, length_be_encode; cbn; lia).
  assert (Hbytes : directory_bytes p es = pre ++ layout (zlen pre) es).
  { rewrite Hpre. unfold directory_bytes, pre. by rewrite <- !app_assoc. }
  assert (Hlen : zlen (directory_bytes p es) = 12 + zlen p + zlen (layout (zlen pre) es))
    by (rewrite Hbytes, length_app; lia).
  change (0 =? 0) with true. cbn [andb]. rewrite (proj2 (Z.ltb_ge _ _)) by lia.
  assert (Htake : take 8 (directory_bytes p es) = GNUNET_FS_DIRECTORY_MAGIC).
  { unfold directory_bytes. by apply take_app_length'. }
  rewrite Htake, bool_decide_eq_true_2 by done. cbn [orb negb].
  assert (Hh : list_header (Some record_call) (directory_bytes p es) []
    = Ret (Next (zlen pre) [(None, None, meta, 0, None)])).
  { unfold list_header. cbv zeta.
    rewrite (mem_read_at _ GNUNET_DIRECTORY_MAGIC (be_encode 4 (zlen p)) (p ++ layout (12 + zlen p) es));
      [ | done | done | apply length_be_encode ].
    cbn [mbind outcome_bind]. rewrite be_decode_encode. change (2 ^ (8 * Z.of_nat 4)) with (2 ^ 32).
    rewrite Z.mod_small by lia. rewrite (proj2 (Z.ltb_ge _ _)) by lia.
    rewrite (mem_read_at _ (GNUNET_DIRECTORY_MAGIC ++ be_encode 4 (zlen p)) p (layout (12 + zlen p) es));
      [ | unfold directory_bytes; by rewrite <- !app_assoc | rewrite length_app, length_be_encode; done | lia ].
    cbn [mbind outcome_bind]. rewrite Hd. cbn [mbind outcome_bind record_call]. unfold record_call.
    cbn [mbind outcome_bind app]. by rewrite Hpre. }
  rewrite Hh. cbn [and_then]. rewrite Hbytes in Hf |- *. rewrite (list_layout es calls); [ done | done | by rewrite Hpre | ].
  rewrite length_app in Hf. lia.
Qed.
End Listing.

(** ** Both together *)

Section RoundTrip.
Context `{U : UpperCase} `{!UpperCaseLaws} `{!PaddedFrame} `{Rsa} `{DirectoryTypes} `{Zlib}.

(** What the processor gets for a file that was added: its URI, its meta data, perhaps
    with the contents of the file, the name in them, and the contents *)
Definition delivers (a : addition) (c : call) : Prop :=
  exists inlined filename md n data,
    c = (filename, Some (a_uri a), md, n, data)
    /\ inlines inlined (a_data a) /\ md_ok md /\ carries inlined (a_md a) (md_items md)
    /\ GNUNET_CONTAINER_meta_data_get_by_type (Some md) EXTRACTOR_METATYPE_GNUNET_ORIGINAL_FILENAME
       = Ret filename
    /\ (n, data) = full_data_of (md_items md)
    /\ (Forall (fun i => item_type i <> EXTRACTOR_METATYPE_GNUNET_FULL_DATA) (md_items (a_md a)) ->
        (n, data) = match inlined with
                    | Some d => (zlen d, Some d)
                    | None => (0, None)
                    end).

Lemma full_data_carried inlined data md l :
  inlines inlined data -> carries inlined md l ->
  Forall (fun i => item_type i <> EXTRACTOR_METATYPE_GNUNET_FULL_DATA) (md_items md) ->
  full_data_of l = match inlined with Some d => (zlen d, Some d) | None => (0, None) end.
Proof.
  intros Hin Hc Hno. unfold full_data_of.
  assert (Hf : filter (fun i => item_type i = EXTRACTOR_METATYPE_GNUNET_FULL_DATA) (md_items md) = []).
  { induction Hno as [|i r Hi _ IH]; [ done | ]. by rewrite filter_cons_False. }
  destruct Hin as [->|(d & -> & _ & Hd)]; cbn [carries] in Hc.
  - pose proof (filter_Permutation (fun i => item_type i = EXTRACTOR_METATYPE_GNUNET_FULL_DATA) _ _ Hc) as Hp.
    rewrite Hf in Hp. by apply Permutation_nil_r in Hp as ->.
  - rewrite decide_False in Hc.
    2: { intros Hk. apply list_elem_of_fmap in Hk as (i & Hk & Hi). rewrite Forall_forall in Hno.
         destruct (Hno _ Hi). by injection Hk. }
    pose proof (filter_Permutation (fun i => item_type i = EXTRACTOR_METATYPE_GNUNET_FULL_DATA) _ _ Hc) as Hp.
    rewrite filter_cons_True, Hf in Hp by done. apply Permutation_singleton_r in Hp as ->.
    unfold data_size, full_item. cbn [item_data]. by rewrite (proj2 (Z.ltb_lt _ _)) by lia.
Qed.

Lemma entry_delivers pfuel a e :
  addition_ok a -> entry_for a e -> exists c, reads_as pfuel (be_data e) c /\ delivers a c.
Proof.
  intros Ha (text & inlined & meta & p & Htext & Hok & Hin & Hr & ->). cbn [be_data].
  pose proof (ready_length _ _ _ _ Hr) as Hl. destruct Hr as (Hm & Hc & Hn & (comp & Hcomp & ->) & _).
  destruct (nearly_fits_small _ Hn) as [Hs _].
  destruct (read_back comp meta Hm Hs Hcomp) as (md & Hd & Hmd & Hp).
  destruct (get_by_type_ok md EXTRACTOR_METATYPE_GNUNET_ORIGINAL_FILENAME Hmd) as [filename Hname].
  destruct (dir_uri_text _ (ao_uri _ Ha)) as (text' & Ht' & _ & Hparse).
  rewrite Htext in Ht'. injection Ht' as <-.
  assert (Hcar : carries inlined (a_md a) (md_items md)).
  { unfold carries in *. destruct inlined; by rewrite Hp. }
  eexists. split.
  - exists text, (packed comp (md_items meta)), (a_uri a), md, filename.
    split_and!; try done; [ lia | | apply Hmd ].
    destruct (ao_uri _ Ha) as [Hk _]. by destruct (a_uri a).
  - exists inlined, filename, md. eexists _, _. split; [ reflexivity | ]. split_and!; try done.
    + by destruct (full_data_of (md_items md)).
    + intros Hno. rewrite <- (full_data_carried _ _ _ _ Hin Hcar Hno). by destruct (full_data_of (md_items md)).
Qed.

Lemma total_bound es : Forall (fun e => zlen (be_data e) <= 2 ^ 25) es -> total (be_data <$> es) <= 2 ^ 25 * zlen es.
Proof.
  induction 1 as [|e es He Hes IH]; [ done | ]. rewrite fmap_cons. unfold total in *. cbn [foldr List.length]. lia.
Qed.

(** The entries in the order of the directory, with the files they stand for *)
Lemma entries_deliver pfuel files es es' :
  Forall addition_ok files -> Forall2 entry_for files es -> es' ≡ₚ es ->
  exists files' calls, files' ≡ₚ files /\ Forall2 (reads_as pfuel) (be_data <$> es') calls
    /\ Forall2 delivers files' calls.
Proof.
  intros Hok Hf Hp. assert (Hf' : Forall2 (fun e a => addition_ok a /\ entry_for a e) es files).
  { clear Hp. induction Hf as [|a e files es He Hf IH]; [ constructor | ].
    apply Forall_cons in Hok as [Ha Hok]. constructor; [ done | by apply IH ]. }
  destruct (Permutation_Forall2 (Permutation_sym Hp) Hf') as (files' & Hpf & Hall).
  exists files'. clear Hf Hf' Hp Hok. revert Hpf. generalize files. intros fs Hpf.
  assert (Hcalls : exists calls, Forall2 (reads_as pfuel) (be_data <$> es') calls /\ Forall2 delivers files' calls).
  { clear Hpf. induction Hall as [|e a es'' fs'' [Ha He] Hall (calls & Hr & Hd)].
    - exists []. split; constructor.
    - destruct (entry_delivers pfuel a e Ha He) as (c & Hc & Hdel). exists (c :: calls).
      rewrite fmap_cons. split; by constructor. }
  destruct Hcalls as (calls & Hr & Hd). exists calls. split_and!; [ by symmetry | done | done ].
Qed.
End RoundTrip.


(** Two files, one of them with its contents *)
Definition sample_directory_types : @DirectoryTypes sample_extractor.
Proof.
  refine (@Build_DirectoryTypes sample_extractor 1 137 _ _); [ int_lia | done ].
Defined.

Definition sample_files : list addition :=
  [mk_addition (chk (mk_fi (GNUNET_htonll 3) (mk_chk (replicate 16 7) (replicate 16 9)))) sample_md
     (Some [1; 2; 3]);
   mk_addition (sks (replicate 16 5) (cs "root")) (mk_md [] None 0) None].

Lemma sample_hash c : is_u32 c -> is_hash (replicate 16 c).
Proof. intros Hc. split; [ done | by apply Forall_replicate ]. Qed.

Lemma sample_files_ok :
  Forall (@addition_ok sample_extractor sample_zlib sample_rsa) sample_files.
Proof.
  apply List.Forall_cons; [ | apply List.Forall_cons; [ | apply List.Forall_nil ] ].
  - constructor; [ | apply sample_md_ok | vm_compute; congruence | reflexivity ].
    split; [ exact I | ]. split_and!; [ vm_compute; split; congruence | by apply sample_hash | by apply sample_hash ].
  - constructor; [ | apply (@create_ok sample_extractor sample_zlib) | vm_compute; congruence | exact I ].
    split; [ by repeat constructor | ]. split; [ by apply sample_hash | vm_compute; congruence ].
Qed.


(** ** Two more behaviours *)

(** Entries that are not longer than a block lie in one block, so that a listing can start
    at any block. *)
Theorem directory_entry_in_block (es : list (list Z)) : forall (off : Z) (i : nat) (e : list Z),
  room off es -> es !! i = Some e -> 0 < zlen e <= DBLOCK_SIZE ->
  exists a b, layout off es = a ++ e ++ b
    /\ (off + zlen a) / DBLOCK_SIZE = (off + zlen a + zlen e - 1) / DBLOCK_SIZE.
Proof.
  induction es as [|x es IH]; intros off i e Hr Hi He; [ done | ].
  destruct (room_cons _ _ _ Hr) as (Hstart & _ & _ & Hr' & _).
  cbn [layout]. set (start := place_of _ _) in *. set (gap := replicate _ 0).
  assert (Hgap : off + zlen gap = start) by (unfold gap; rewrite length_replicate; lia).
  destruct i as [|i]; cbn in Hi.
  - injection Hi as <-. exists gap, (layout (start + zlen x) es). split; [ done | ]. rewrite Hgap.
    destruct Hr as [Ho Hr]. cbn [total foldr] in Hr. pose proof (layout_total_nonneg es) as Ht. unfold total in Ht.
    unfold start. apply place_of_block; lia.
  - destruct (IH _ _ _ Hr' Hi He) as (a & b & -> & Hb). exists (gap ++ x ++ a), b.
    split; [ by rewrite <- !app_assoc | ].
    replace (off + zlen (gap ++ x ++ a)) with (start + zlen x + zlen a) by (rewrite !length_app; lia). done.
Qed.

(** A part of a directory that ends within the length of an entry's meta data is read past
    its end, although listing parts of directories is what the function is for. *)
Theorem directory_list_overreads `{U : UpperCase} `{!UpperCaseLaws} `{!PaddedFrame} `{Rsa} `{DirectoryTypes} `{Zlib}
  (pfuel fuel : nat) (u : GNUNET_FS_Uri) (pre : list Z) (text : str) (r : list Z) :
  GNUNET_FS_uri_parse pfuel (Some text) = Some (Ret (Some u, None)) ->
  text_ok text -> GNUNET_FS_uri_test_ksk u = false -> (List.length r < 4)%nat ->
  zlen (pre ++ text ++ 0 :: r) < 2 ^ 62 -> pre <> [] ->
  GNUNET_FS_directory_list_contents (Some record_call) (S fuel) pfuel (pre ++ text ++ 0 :: r) (zlen pre) []
  = Some Undefined.
Proof.
  intros Hparse (Htext & Hne & _) Hk Hr Hsz Hpre. unfold GNUNET_FS_directory_list_contents. cbv zeta.
  destruct (Z.eqb_spec (zlen pre) 0) as [Hz|_]; [ destruct pre; [ done | cbn in Hz; lia ] | ].
  cbn [andb and_then list_loop]. set (cdata := pre ++ text ++ 0 :: r) in *.
  assert (Hlen : zlen cdata = zlen pre + zlen text + 1 + zlen r)
    by (unfold cdata; rewrite !length_app; cbn [List.length]; lia).
  rewrite (proj2 (Z.leb_gt _ _)) by (destruct text; [ done | cbn [List.length] in Hlen; lia ]).
  destruct text as [|b t]; [ done | ]. pose proof Htext as Hcs. inversion_clear Htext as [|? ? Hb Ht].
  assert (Hx : cdata !! Z.to_nat (zlen pre) = Some b) by (unfold cdata; cbn [app]; apply list_lookup_middle; lia).
  rewrite Hx. cbn [of_option and_then]. rewrite (proj2 (Z.eqb_neq b 0) Hb). cbn [andb].
  unfold list_round. cbv zeta. rewrite Nat2Z.id.
  assert (Hdrop : drop (List.length pre) cdata = (b :: t) ++ 0 :: r) by (unfold cdata; apply drop_app_length).
  rewrite Hdrop, upto_nul_text by done. rewrite u64_small by int_lia.
  rewrite (proj2 (Z.leb_gt _ _)) by lia. rewrite Hparse. cbn [mbind option_bind outcome_bind and_then].
  rewrite u64_small by int_lia. unfold list_entry. cbv zeta. rewrite Hk.
  unfold mem_read. rewrite (proj2 (Nat.leb_gt _ _)) by lia. done.
Qed.

(** A block from the middle of a directory is never listed: its bytes are indexed with the
    offset of the block in the directory, which is not smaller than its size. *)
Theorem directory_list_ignores_blocks `{UpperCase} `{Rsa} `{DirectoryTypes} `{Zlib} {S : Type}
  (dep : option (processor (S := S))) (fuel pfuel : nat) (block : list Z) (offset : Z) (s : S) :
  0 < offset -> zlen block <= offset ->
  GNUNET_FS_directory_list_contents dep fuel pfuel block offset s = Some (Ret (GNUNET_OK, s)).
Proof.
  intros Ho Hs. unfold GNUNET_FS_directory_list_contents. cbv zeta.
  rewrite (proj2 (Z.eqb_neq offset 0)) by lia. cbn [andb and_then].
  destruct fuel; cbn [list_loop]; by rewrite (proj2 (Z.leb_le _ _)) by lia.
Qed.

(** An entry that would fill its block exactly is rated like one that has to be moved. *)
Example directory_exact_fit_is_bad :
  placement_badness (DBLOCK_SIZE - 100) 100 = DBLOCK_SIZE * 100
  /\ placement_badness (DBLOCK_SIZE - 100) 99 = 1
  /\ do_align (DBLOCK_SIZE - 100) DBLOCK_SIZE = DBLOCK_SIZE.
Proof. vm_compute. done. Qed.
