(* ===== verification/Block.v ===== *)
(** * The block library: [src/block/block.c]

    Blocks of the DHT and of file sharing have types, and a plugin per type knows how to
    check a block against a query and how to compute its key.  The functions of a plugin
    are fields of [GNUNET_BLOCK_PluginFunctions]; a context is the list of its plugins.
    The library also builds the Bloom filter that tells other peers which replies are
    known. *)

From Stdlib Require Import ZArith Lia.
From stdpp Require Import base list numbers.
From S2P Require Import Prelude Endian Hash BloomFilter.
Local Open Scope Z_scope.

(** [enum GNUNET_BLOCK_EvaluationResult]; a plugin may return other values. *)
Definition GNUNET_BLOCK_EVALUATION_OK_MORE : Z := 0.
Definition GNUNET_BLOCK_EVALUATION_OK_LAST : Z := 1.
Definition GNUNET_BLOCK_EVALUATION_OK_DUPLICATE : Z := 2.
Definition GNUNET_BLOCK_EVALUATION_RESULT_INVALID : Z := 3.
Definition GNUNET_BLOCK_EVALUATION_RESULT_IRRELEVANT : Z := 4.
Definition GNUNET_BLOCK_EVALUATION_REQUEST_VALID : Z := 10.
Definition GNUNET_BLOCK_EVALUATION_REQUEST_INVALID : Z := 11.
Definition GNUNET_BLOCK_EVALUATION_TYPE_NOT_SUPPORTED : Z := 20.

Definition GNUNET_BLOCK_TYPE_ANY : Z := 0.
Definition GNUNET_BLOCK_TYPE_DHT_HELLO : Z := 7.

Definition GNUNET_CONSTANTS_BLOOMFILTER_K : nat := 16.

(** [types] is the array before its 0.  [evaluate] gets type, query, filter, mutator,
    extended query and reply ([None] to check the request alone), and returns the result
    with the filter as it has updated it; [get_key] returns the key if it has set it. *)
Record GNUNET_BLOCK_PluginFunctions := mk_plugin {
  types : list Z;
  evaluate : Z -> GNUNET_HashCode -> option GNUNET_CONTAINER_BloomFilter -> Z -> list Z ->
    option (list Z) -> Z * option GNUNET_CONTAINER_BloomFilter;
  get_key : Z -> list Z -> Z * option GNUNET_HashCode
}.

Definition GNUNET_BLOCK_Context : Type := list GNUNET_BLOCK_PluginFunctions.

Definition add_plugin (ctx : GNUNET_BLOCK_Context) (api : GNUNET_BLOCK_PluginFunctions)
  : GNUNET_BLOCK_Context := ctx ++ [api].

(** [plugins] are those that [GNUNET_PLUGIN_load_all] finds. *)
Definition GNUNET_BLOCK_context_create (plugins : list GNUNET_BLOCK_PluginFunctions)
  : GNUNET_BLOCK_Context := foldl add_plugin [] plugins.

Fixpoint type_loop (type : Z) (l : list Z) : bool :=
  match l with
  | [] => false
  | t :: l' => if type =? t then true else type_loop type l'
  end.

Fixpoint find_plugin (ctx : GNUNET_BLOCK_Context) (type : Z)
  : option GNUNET_BLOCK_PluginFunctions :=
  match ctx with
  | [] => None
  | api :: ctx' => if type_loop type (types api) then Some api else find_plugin ctx' type
  end.

Definition GNUNET_BLOCK_evaluate (ctx : GNUNET_BLOCK_Context) (type : Z) (query : GNUNET_HashCode)
  (bf : option GNUNET_CONTAINER_BloomFilter) (bf_mutator : Z) (xquery : list Z)
  (reply_block : option (list Z)) : Z * option GNUNET_CONTAINER_BloomFilter :=
  match find_plugin ctx type with
  | None => (GNUNET_BLOCK_EVALUATION_TYPE_NOT_SUPPORTED, bf)
  | Some plugin => evaluate plugin type query bf bf_mutator xquery reply_block
  end.

Definition GNUNET_BLOCK_get_key (ctx : GNUNET_BLOCK_Context) (type : Z) (block : list Z)
  : Z * option GNUNET_HashCode :=
  match find_plugin ctx type with
  | None => (GNUNET_BLOCK_EVALUATION_TYPE_NOT_SUPPORTED, None)
  | Some plugin => get_key plugin type block
  end.

(** [while ((size < max) && (size < ideal)) size *= 2;] *)
Fixpoint size_loop (fuel : nat) (size max ideal : Z) : option Z :=
  match fuel with
  | O => None
  | S fuel => if (size <? max) && (size <? ideal) then size_loop fuel (u64 (size * 2)) max ideal
              else Some size
  end.

Definition compute_bloomfilter_size (entry_count : Z) : option Z :=
  let ideal := u32 (entry_count * Z.of_nat GNUNET_CONSTANTS_BLOOMFILTER_K) / 4 in
  let max := u16 (Z.shiftl 1 15) in
  if max <? entry_count then Some max
  else
    size ← size_loop 13 8 max ideal;
    Some (if max <? size then max else size).

Section Hashing.
(** [GNUNET_CRYPTO_hash] (SHA-512) of a block of bytes *)
Context (sha512 : list Z -> GNUNET_HashCode).

Definition GNUNET_BLOCK_mingle_hash (input : GNUNET_HashCode) (mingle_number : Z)
  : GNUNET_HashCode :=
  let m := sha512 (host_bytes 4 mingle_number) in
  GNUNET_CRYPTO_hash_xor m input.

(** The loop over the results *)
Fixpoint add_results (bf : GNUNET_CONTAINER_BloomFilter) (bf_mutator : Z)
  (seen_results : list GNUNET_HashCode) : outcome GNUNET_CONTAINER_BloomFilter :=
  match seen_results with
  | [] => Ret bf
  | r :: seen_results' =>
      let mhash := GNUNET_BLOCK_mingle_hash r (u32 bf_mutator) in
      bf ← GNUNET_CONTAINER_bloomfilter_add (fun h => sha512 (hash_bytes h)) bf mhash;
      add_results bf bf_mutator seen_results'
  end.

Definition GNUNET_BLOCK_construct_bloomfilter (bf_mutator : Z) (seen_results : list GNUNET_HashCode)
  : outcome (option GNUNET_CONTAINER_BloomFilter) :=
  nsize ← of_option (compute_bloomfilter_size (Z.of_nat (length seen_results)));
  match GNUNET_CONTAINER_bloomfilter_init None nsize GNUNET_CONSTANTS_BLOOMFILTER_K with
  | None => Ret None
  | Some bf => bf ← add_results bf bf_mutator seen_results; Ret (Some bf)
  end.
End Hashing.

(** ** The size of the filter *)

Lemma size_loop_ok fuel : forall k max ideal,
  0 <= k <= 15 -> max = 2 ^ 15 -> (Z.to_nat (15 - k) < fuel)%nat ->
  exists j, size_loop fuel (2 ^ k) max ideal = Some (2 ^ j) /\ k <= j <= 15
    /\ (2 ^ j = max \/ ideal <= 2 ^ j) /\ (j = k \/ 2 ^ (j - 1) < ideal).
Proof.
  induction fuel as [|fuel IH]; intros k max ideal Hk -> Hf; [ lia | ]. cbn [size_loop].
  assert (Hpow : 2 ^ (k + 1) = 2 ^ k * 2) by (rewrite Z.pow_add_r by lia; lia).
  destruct (Z.ltb_spec (2 ^ k) (2 ^ 15)) as [Hlt|Hge]; cbn [andb].
  - assert (Hk' : k < 15) by (apply (Z.pow_lt_mono_r_iff 2); lia).
    destruct (Z.ltb_spec (2 ^ k) ideal) as [Hi|Hi].
    + assert (0 <= 2 ^ k) by (apply Z.pow_nonneg; lia).
      rewrite u64_small by int_lia. rewrite <- Hpow.
      destruct (IH (k + 1) (2 ^ 15) ideal) as (j & -> & Hj & Hmax & Hmin); [ lia | done | lia | ].
      exists j. split_and!; [ done | lia | lia | done | ]. right.
      destruct Hmin as [->|Hmin]; [ by replace (k + 1 - 1) with k by lia | done ].
    + exists k. split_and!; auto; lia.
  - assert (Hk' : 15 <= k) by (apply (Z.pow_le_mono_r_iff 2); lia).
    exists k. assert (k = 15) as -> by lia. split_and!; auto; lia.
Qed.

(** The size of the filter is a power of two from 8 to 2^15, at least four bytes (32
    bits, two per address) for every entry unless it is the maximum, and the smallest
    such power. *)
Lemma compute_bloomfilter_size_ok n :
  is_u32 n ->
  exists j, compute_bloomfilter_size n = Some (2 ^ j) /\ 3 <= j <= 15
    /\ (2 ^ j = 2 ^ 15 \/ 4 * n <= 2 ^ j) /\ (j = 3 \/ 2 ^ (j - 1) < 4 * n).
Proof.
  intros Hn. unfold compute_bloomfilter_size. change (u16 (Z.shiftl 1 15)) with (2 ^ 15).
  destruct (Z.ltb_spec (2 ^ 15) n) as [Hgt|Hle].
  { exists 15. split_and!; [ done | lia | lia | by left | right; lia ]. }
  assert (Hideal : u32 (n * Z.of_nat GNUNET_CONSTANTS_BLOOMFILTER_K) / 4 = 4 * n).
  { unfold GNUNET_CONSTANTS_BLOOMFILTER_K. rewrite u32_small by int_lia.
    replace (n * Z.of_nat 16) with (4 * n * 4) by lia. apply Z.div_mul. lia. }
  rewrite Hideal. change 8 with (2 ^ 3).
  destruct (size_loop_ok 13 3 (2 ^ 15) (4 * n)) as (j & -> & Hj & Hmax & Hmin); [ lia | done | lia | ].
  exists j. cbn [mbind option_bind].
  assert (2 ^ j <= 2 ^ 15) by (apply Z.pow_le_mono_r; lia).
  rewrite (proj2 (Z.ltb_ge _ _)) by lia. split_and!; done || lia.
Qed.

(** ** The filter of the results that are known *)

Lemma add_results_all sha512 bf bf_mutator l :
  add_results sha512 bf bf_mutator l
  = add_all (fun h => sha512 (hash_bytes h)) bf
      ((fun r => GNUNET_BLOCK_mingle_hash sha512 r (u32 bf_mutator)) <$> l).
Proof.
  unfold add_all. enough (Hgen : forall m, (bf ← m; add_results sha512 bf bf_mutator l)
    = foldl (fun acc e => b ← acc; GNUNET_CONTAINER_bloomfilter_add (fun h => sha512 (hash_bytes h)) b e)
        m ((fun r => GNUNET_BLOCK_mingle_hash sha512 r (u32 bf_mutator)) <$> l))
    by apply (Hgen (Ret bf)).
  clear bf. induction l as [|r l IH]; intros m; [ by destruct m | ]. rewrite fmap_cons. cbn [foldl].
  rewrite <- IH. by destruct m.
Qed.

(** The filter of known results never fails to build for less than 2^32
    results: its size is a power of two between 8 and 2^15 bytes, the smallest
    with 32 bits per result or the maximum, and it contains every result that
    was seen, mingled with the mutator, so that none of them is sent again. *)
Theorem block_filter_contains_seen_results (sha512 : list Z -> GNUNET_HashCode) (bf_mutator : Z)
  (seen_results : list GNUNET_HashCode) :
  Z.of_nat (length seen_results) < 2 ^ 32 ->
  exists bf j, GNUNET_BLOCK_construct_bloomfilter sha512 bf_mutator seen_results = Ret (Some bf)
    /\ bitArraySize bf = 2 ^ j /\ 3 <= j <= 15
    /\ (2 ^ j = 2 ^ 15 \/ 4 * Z.of_nat (length seen_results) <= 2 ^ j)
    /\ (j = 3 \/ 2 ^ (j - 1) < 4 * Z.of_nat (length seen_results))
    /\ forall r, r ∈ seen_results ->
         GNUNET_CONTAINER_bloomfilter_test (fun h => sha512 (hash_bytes h)) (Some bf)
           (GNUNET_BLOCK_mingle_hash sha512 r (u32 bf_mutator)) = Ret true.
Proof.
  intros Hn. unfold GNUNET_BLOCK_construct_bloomfilter.
  destruct (compute_bloomfilter_size_ok (Z.of_nat (length seen_results))) as (j & -> & Hj & Hmax & Hmin);
    [ split; lia | ].
  cbn [of_option mbind outcome_bind].
  assert (Hsz : 0 < 2 ^ j < 2 ^ 60) by (split; [ apply Z.pow_pos_nonneg | apply Z.pow_lt_mono_r ]; lia).
  assert (Hinit : GNUNET_CONTAINER_bloomfilter_init None (2 ^ j) GNUNET_CONSTANTS_BLOOMFILTER_K
    = Some (mk_bf (replicate (Z.to_nat (2 ^ j)) 0) false None GNUNET_CONSTANTS_BLOOMFILTER_K (2 ^ j))).
  { unfold GNUNET_CONTAINER_bloomfilter_init. by rewrite (proj2 (Z.eqb_neq (2 ^ j) 0)) by lia. }
  rewrite Hinit, add_results_all. set (hash := fun h => sha512 (hash_bytes h)).
  set (l := _ <$> seen_results).
  destruct (holds_add_all_empty hash l _ (holds_empty (2 ^ j) false None GNUNET_CONSTANTS_BLOOMFILTER_K Hsz))
    as (bf & addrs & -> & Hp & Hh & Ha).
  exists bf, j. split_and!; try done; [ by destruct Hp | lia | lia | ]. intros r Hr.
  apply (holds_test hash _ _ _ Hh). intros a Hin. apply Ha.
  rewrite list_elem_of_In, in_flat_map. eexists. rewrite <- !list_elem_of_In.
  split; [ apply list_elem_of_fmap_2, Hr | ]. by rewrite <- (addresses_params hash _ _ _ Hp).
Qed.

Lemma block_filter_contains_seen_results_witness :
  exists bf j, GNUNET_BLOCK_construct_bloomfilter (fun _ => replicate 16 5) 3 [replicate 16 1] = Ret (Some bf)
    /\ bitArraySize bf = 2 ^ j /\ 3 <= j <= 15.
Proof.
  destruct (block_filter_contains_seen_results (fun _ => replicate 16 5) 3 [replicate 16 1])
    as (bf & j & He & Hs & Hj & _); [ reflexivity | ].
  exists bf, j. exact (conj He (conj Hs Hj)).
Defined.
