(* ===== verification/Routing.v ===== *)
(** * The routing table of the DHT: [src/dht/gnunet-service-dht_routing.c]

    The table remembers recent GET requests so that replies can be routed back.  A
    request is an object in memory ([mem], by address) that is shared by the heap
    [recent_heap] (by time) and the map [recent_map] (by key), so that a request that is
    combined with an earlier one is updated for both.  The map is any implementation of
    [MultiMap], the heap that of [Heap]; blocks are evaluated by [Block].  The addresses of
    new requests and heap nodes are arguments, and so are the clock readings.

    [multihashmap_get_multiple] stops and returns [GNUNET_SYSERR] when its callback does;
    the callbacks record that in their state. *)

From Stdlib Require Import ZArith Lia.
From stdpp Require Import base list numbers gmap.
From S2P Require Import Prelude Heap Hash MultiHashMap MapInterface BloomFilter Block.
Local Open Scope Z_scope.

Definition DHT_MAX_RECENT : Z := 1024 * 16.

Definition GNUNET_DHT_RO_RECORD_ROUTE : Z := 2.
Definition GNUNET_DHT_RO_FIND_PEER : Z := 4.

Definition GNUNET_PeerIdentity : Type := GNUNET_HashCode.

Record RecentRequest := mk_request {
  rr_peer : GNUNET_PeerIdentity;
  rr_key : GNUNET_HashCode;
  rr_heap_node : nat;
  rr_reply_bf : option GNUNET_CONTAINER_BloomFilter;
  rr_type : Z;
  rr_xquery : list Z;
  rr_reply_bf_mutator : Z;
  rr_options : Z
}.

Definition set_reply_bf (rr : RecentRequest) (bf : option GNUNET_CONTAINER_BloomFilter) (mutator : Z)
  : RecentRequest :=
  mk_request (rr_peer rr) (rr_key rr) (rr_heap_node rr) bf (rr_type rr) (rr_xquery rr) mutator
    (rr_options rr).

Definition set_heap_node (rr : RecentRequest) (n : nat) : RecentRequest :=
  mk_request (rr_peer rr) (rr_key rr) n (rr_reply_bf rr) (rr_type rr) (rr_xquery rr)
    (rr_reply_bf_mutator rr) (rr_options rr).

Record ProcessContext := mk_pc {
  pc_put_path : list GNUNET_PeerIdentity;
  pc_get_path : list GNUNET_PeerIdentity;
  pc_data : list Z;
  pc_expiration_time : Z;
  pc_type : Z
}.

(** The arguments of a call to [GDS_NEIGHBOURS_handle_reply] *)
Record reply := mk_reply {
  re_target : GNUNET_PeerIdentity;
  re_type : Z;
  re_expiration_time : Z;
  re_key : GNUNET_HashCode;
  re_put_path : list GNUNET_PeerIdentity;
  re_get_path : list GNUNET_PeerIdentity;
  re_data : list Z
}.

Section Routing.
Context {M : Type} `{MultiMap M nat} (GDS_block_context : GNUNET_BLOCK_Context).

Record routing := mk_routing {
  mem : gmap nat RecentRequest;
  recent_heap : GNUNET_CONTAINER_Heap nat;
  recent_map : M
}.

(** ** Replies *)

(** The key that the reply is evaluated against; [hc] is the local variable, which
    [get_key] does not set when it fails. *)
Definition eval_key (hc : GNUNET_HashCode) (pc : ProcessContext) (rr : RecentRequest)
  (key : GNUNET_HashCode) : GNUNET_HashCode :=
  if negb (Z.land (rr_options rr) GNUNET_DHT_RO_FIND_PEER =? 0)
     && (pc_type pc =? GNUNET_BLOCK_TYPE_DHT_HELLO)
  then default hc (GNUNET_BLOCK_get_key GDS_block_context GNUNET_BLOCK_TYPE_DHT_HELLO (pc_data pc)).2
  else key.

Definition reply_for (pc : ProcessContext) (rr : RecentRequest) (key : GNUNET_HashCode) : reply :=
  let record := negb (Z.land (rr_options rr) GNUNET_DHT_RO_RECORD_ROUTE =? 0) in
  mk_reply (rr_peer rr) (pc_type pc) (pc_expiration_time pc) key
    (if record then pc_put_path pc else []) (if record then pc_get_path pc else []) (pc_data pc).

(** The result, the request with its filter updated, and the replies that are sent *)
Definition process (hc : GNUNET_HashCode) (pc : ProcessContext) (key : GNUNET_HashCode)
  (rr : RecentRequest) : Z * RecentRequest * list reply :=
  if negb (rr_type rr =? GNUNET_BLOCK_TYPE_ANY) && negb (rr_type rr =? pc_type pc)
  then (GNUNET_OK, rr, [])
  else
    let '(eval, bf) := GNUNET_BLOCK_evaluate GDS_block_context (pc_type pc) (eval_key hc pc rr key)
                         (rr_reply_bf rr) (rr_reply_bf_mutator rr) (rr_xquery rr)
                         (Some (pc_data pc)) in
    let rr' := set_reply_bf rr bf (rr_reply_bf_mutator rr) in
    if (eval =? GNUNET_BLOCK_EVALUATION_OK_MORE) || (eval =? GNUNET_BLOCK_EVALUATION_OK_LAST)
    then (GNUNET_OK, rr', [reply_for pc rr key])
    else if eval =? GNUNET_BLOCK_EVALUATION_OK_DUPLICATE then (GNUNET_OK, rr', [])
    else if eval =? GNUNET_BLOCK_EVALUATION_RESULT_INVALID then (GNUNET_SYSERR, rr', [])
    else if eval =? GNUNET_BLOCK_EVALUATION_RESULT_IRRELEVANT then (GNUNET_OK, rr', [])
    else if eval =? GNUNET_BLOCK_EVALUATION_REQUEST_VALID then (GNUNET_OK, rr', [])
    else if eval =? GNUNET_BLOCK_EVALUATION_REQUEST_INVALID then (GNUNET_OK, rr', [])
    else if eval =? GNUNET_BLOCK_EVALUATION_TYPE_NOT_SUPPORTED then (GNUNET_SYSERR, rr', [])
    else (GNUNET_SYSERR, rr', []).

(** [process] on the request that a value of the map points to *)
Definition process_value (hc : GNUNET_HashCode) (pc : ProcessContext)
  (s : outcome (gmap nat RecentRequest * list reply)) (key : GNUNET_HashCode) (value : nat)
  : outcome (gmap nat RecentRequest * list reply) * bool :=
  match s with
  | Ret (memory, sent) =>
      match memory !! value with
      | None => (Undefined, false)
      | Some rr =>
          let '(ret, rr', out) := process hc pc key rr in
          (Ret (<[value := rr']> memory, sent ++ out), ret =? GNUNET_OK)
      end
  | _ => (s, false)
  end.

(** For [data == NULL] the context points to an empty string, an object of one byte, but
    [pc.data_size] keeps the argument. *)
Definition GDS_ROUTING_process (hc : GNUNET_HashCode) (type expiration_time : Z)
  (key : GNUNET_HashCode) (put_path get_path : list GNUNET_PeerIdentity)
  (data : option (list Z)) (data_size : nat) (st : routing) : outcome (routing * list reply) :=
  block ← match data with
          | Some d => mem_read d 0 data_size
          | None => mem_read [0] 0 data_size
          end;
  let pc := mk_pc put_path get_path block expiration_time type in
  '(memory, sent) ← mm_get_multiple (recent_map st) key (process_value hc pc) (Ret (mem st, []));
  Ret (mk_routing memory (recent_heap st) (recent_map st), sent).

(** ** Requests *)

(** [rnd] is for the walk of the heap. *)
Definition expire_oldest_entry (rnd : Z) (st : routing) : outcome routing :=
  match GNUNET_CONTAINER_heap_peek (recent_heap st) with
  | None => AssertFailed
  | Some a =>
      recent_req ← of_option (mem st !! a);
      '(_, heap) ← GNUNET_CONTAINER_heap_remove_node rnd (recent_heap st) (rr_heap_node recent_req);
      let '(ret, map) := mm_remove (recent_map st) (rr_key recent_req) a in
      _ ← gnunet_assert (GNUNET_YES =? ret);
      Ret (mk_routing (delete a (mem st)) heap map)
  end.

(** The same peer asks for the same with the same extended query. *)
Definition combines (input rr : RecentRequest) : bool :=
  bool_decide (rr_peer input = rr_peer rr) && (rr_type input =? rr_type rr)
  && bool_decide (rr_xquery input = rr_xquery rr).

Definition combine (input rr : RecentRequest) : RecentRequest :=
  if negb (rr_reply_bf_mutator input =? rr_reply_bf_mutator rr)
  then set_reply_bf rr (rr_reply_bf input) (rr_reply_bf_mutator input)
  else set_reply_bf rr
         (match rr_reply_bf input with
          | Some b => (GNUNET_CONTAINER_bloomfilter_or2 (rr_reply_bf rr) b
                         (GNUNET_CONTAINER_bloomfilter_get_size (Some b))).2
          | None => rr_reply_bf rr
          end) (rr_reply_bf_mutator rr).

(** The state has the memory and whether the request was combined. *)
Definition try_combine_recent (input : RecentRequest)
  (s : outcome (gmap nat RecentRequest * bool)) (key : GNUNET_HashCode) (value : nat)
  : outcome (gmap nat RecentRequest * bool) * bool :=
  match s with
  | Ret (memory, _) =>
      match memory !! value with
      | None => (Undefined, false)
      | Some rr =>
          if combines input rr then (Ret (<[value := combine input rr]> memory, true), false)
          else (s, true)
      end
  | _ => (s, false)
  end.

(** [while (heap_get_size (recent_heap) >= DHT_MAX_RECENT) expire_oldest_entry ();] *)
Fixpoint expire_loop (fuel : nat) (limit rnd : Z) (st : routing) : outcome routing :=
  if GNUNET_CONTAINER_heap_get_size (recent_heap st) <? limit then Ret st
  else
    match fuel with
    | O => Undefined
    | S fuel => st ← expire_oldest_entry rnd st; expire_loop fuel limit rnd st
    end.

(** [a] and [n] are the addresses of the new request and of its heap node. *)
Definition GDS_ROUTING_add (rnd now : Z) (a n : nat) (sender : GNUNET_PeerIdentity)
  (type options : Z) (key : GNUNET_HashCode) (xquery : list Z)
  (reply_bf : option GNUNET_CONTAINER_BloomFilter) (reply_bf_mutator : Z) (st : routing)
  : outcome routing :=
  st ← expire_loop (Z.to_nat (GNUNET_CONTAINER_heap_get_size (recent_heap st))) DHT_MAX_RECENT rnd st;
  filter ← of_option reply_bf;
  let recent_req := mk_request sender key 0 (GNUNET_CONTAINER_bloomfilter_copy filter) type xquery
                      reply_bf_mutator options in
  '(memory, combined) ←
    mm_get_multiple (recent_map st) key (try_combine_recent recent_req) (Ret (mem st, false));
  if (combined : bool) then Ret (mk_routing memory (recent_heap st) (recent_map st))
  else
    heap ← GNUNET_CONTAINER_heap_insert (recent_heap st) n a now;
    let recent_req := set_heap_node recent_req n in
    let '(_, map) := mm_put (recent_map st) key a in
    Ret (mk_routing (<[a := recent_req]> memory) heap map).

Definition GDS_ROUTING_init : outcome routing :=
  map ← mm_create (DHT_MAX_RECENT * 4 / 3) false;
  Ret (mk_routing ∅ (GNUNET_CONTAINER_heap_create GNUNET_CONTAINER_HEAP_ORDER_MIN) map).

Definition GDS_ROUTING_done (rnd : Z) (st : routing) : outcome unit :=
  st ← expire_loop (Z.to_nat (GNUNET_CONTAINER_heap_get_size (recent_heap st))) 1 rnd st;
  _ ← gnunet_assert (0 =? GNUNET_CONTAINER_heap_get_size (recent_heap st));
  gnunet_assert (0 =? mm_size (recent_map st)).
End Routing.
