(* ===== verification/RoutingSpec.v ===== *)
(** * The routing table of the DHT: invariant and specification

    [routing_ok] relates the three views of the recent requests ([Routing]): the objects
    in memory, the heap with a node per request and the map with an entry per request.
    [table] is the abstract table, from the handle of a request to its time and the
    request.  Adding a request drops the oldest when the table is full, then completes an
    equal request or inserts a new one; a reply reaches exactly the requests it answers. *)

From Stdlib Require Import ZArith Lia.
From stdpp Require Import base list numbers gmap.
From S2P Require Import Prelude Heap Hash MultiHashMap MapInterface BloomFilter Block Routing.
Local Open Scope Z_scope.

Section Spec.
Context {M : Type} `{MM : MultiMap M nat} (ctx : GNUNET_BLOCK_Context).

Definition capacity : nat := Z.to_nat DHT_MAX_RECENT.

Definition node_of (x : nat * nat * Z) : nat * nat := (x.1.1, x.1.2).
Definition age_of (x : nat * nat * Z) : nat * Z := (x.1.2, x.2).

Record routing_ok (st : routing (M := M)) : Prop := {
  ro_heap : heap_inv (recent_heap st);
  ro_walk : walk_valid (recent_heap st);
  ro_order : order (recent_heap st) = GNUNET_CONTAINER_HEAP_ORDER_MIN;
  ro_map : mm_ok capacity (recent_map st);
  ro_nodes : node_of <$> contents (recent_heap st)
    ≡ₚ (fun e => (rr_heap_node e.2, e.1)) <$> map_to_list (mem st);
  ro_keys : mm_entries (recent_map st) ≡ₚ (fun e => (rr_key e.2, e.1)) <$> map_to_list (mem st);
  ro_size : (base.size (mem st) <= capacity)%nat;
  ro_distinct : forall a1 a2 r1 r2, mem st !! a1 = Some r1 -> mem st !! a2 = Some r2 ->
    rr_key r1 = rr_key r2 -> combines r1 r2 = true -> a1 = a2
}.

(** ** The abstract table *)

Definition ages (h : GNUNET_CONTAINER_Heap nat) : gmap nat Z := list_to_map (age_of <$> contents h).

Definition table (st : routing (M := M)) : gmap nat (Z * RecentRequest) :=
  map_zip (ages (recent_heap st)) (mem st).

Lemma table_lookup st a c rr :
  table st !! a = Some (c, rr) <-> ages (recent_heap st) !! a = Some c /\ mem st !! a = Some rr.
Proof. unfold table. apply map_lookup_zip_Some. Qed.

Lemma addresses_perm st :
  routing_ok st -> (age_of <$> contents (recent_heap st)).*1 ≡ₚ (map_to_list (mem st)).*1.
Proof.
  intros Hok.
  assert (Hp : snd <$> (node_of <$> contents (recent_heap st))
    ≡ₚ snd <$> ((fun e => (rr_heap_node e.2, e.1)) <$> map_to_list (mem st)))
    by by rewrite (ro_nodes _ Hok).
  rewrite <- !list_fmap_compose in Hp. rewrite <- !list_fmap_compose. exact Hp.
Qed.

Lemma addresses_NoDup st : routing_ok st -> NoDup (age_of <$> contents (recent_heap st)).*1.
Proof. intros Hok. rewrite (addresses_perm _ Hok). apply NoDup_fst_map_to_list. Qed.

Lemma ages_perm h h' a n c :
  NoDup (age_of <$> contents h).*1 -> contents h ≡ₚ (n, a, c) :: contents h' ->
  ages h = <[a := c]> (ages h') /\ ages h' !! a = None.
Proof.
  intros Hnd Hp. unfold ages. rewrite Hp in Hnd. cbn in Hnd. apply NoDup_cons in Hnd as [Ha Hnd].
  split; [ | by apply not_elem_of_list_to_map ].
  assert (Hl : list_to_map (M := gmap nat Z) (age_of <$> contents h)
    = list_to_map (age_of <$> (n, a, c) :: contents h')).
  { apply list_to_map_proper; [ | by rewrite Hp ]. rewrite Hp. cbn. by constructor. }
  rewrite Hl. done.
Qed.

Lemma ages_dom st a : routing_ok st -> is_Some (mem st !! a) <-> is_Some (ages (recent_heap st) !! a).
Proof.
  intros Hok. unfold ages.
  rewrite <- !elem_of_dom, dom_list_to_map_L, elem_of_list_to_set, (addresses_perm _ Hok).
  rewrite <- (list_to_map_to_list (mem st)) at 1. rewrite dom_list_to_map_L, elem_of_list_to_set. done.
Qed.

Lemma mem_table st a rr :
  routing_ok st -> mem st !! a = Some rr -> exists c, table st !! a = Some (c, rr).
Proof.
  intros Hok Ha. destruct (proj1 (ages_dom st a Hok)) as [c Hc]; [ by rewrite Ha | ].
  exists c. by apply table_lookup.
Qed.

Lemma heap_size_mem st :
  routing_ok st -> GNUNET_CONTAINER_heap_get_size (recent_heap st) = Z.of_nat (base.size (mem st)).
Proof.
  intros Hok. unfold GNUNET_CONTAINER_heap_get_size. rewrite (hi_size _ (ro_heap _ Hok)).
  rewrite <- length_items. pose proof (ro_nodes _ Hok) as Hp. apply Permutation_length in Hp.
  rewrite !length_fmap, length_map_to_list in Hp. f_equal. exact Hp.
Qed.

(** An item of the heap is a request that knows its node. *)
Lemma item_request st n a c :
  routing_ok st -> (n, a, c) ∈ contents (recent_heap st) ->
  exists rr, mem st !! a = Some rr /\ rr_heap_node rr = n.
Proof.
  intros Hok Hin. assert (Hn : (n, a) ∈ node_of <$> contents (recent_heap st)).
  { apply list_elem_of_fmap. by exists (n, a, c). }
  rewrite (ro_nodes _ Hok) in Hn. apply list_elem_of_fmap in Hn as ([a' rr] & [= -> ->] & Hm).
  apply elem_of_map_to_list in Hm. eauto.
Qed.

Lemma same_id_same_item (l : list (nat * nat * Z)) x y :
  NoDup (item_id <$> l) -> x ∈ l -> y ∈ l -> item_id x = item_id y -> x = y.
Proof.
  intros Hnd Hx Hy He. apply list_elem_of_lookup in Hx as [i Hx], Hy as [j Hy].
  assert (i = j) as ->; [ | congruence ].
  eapply (NoDup_lookup _ _ _ (item_id x) Hnd); rewrite list_lookup_fmap; [ by rewrite Hx | by rewrite Hy, He ].
Qed.

(** ** Expiration *)

Definition oldest_request (st : routing (M := M)) (o : nat) : Prop :=
  exists c rr, table st !! o = Some (c, rr)
    /\ forall a c' rr', table st !! a = Some (c', rr') -> c <= c'.

(** The root of the heap is the oldest request. *)
Lemma root_oldest st n l r :
  routing_ok st -> root (recent_heap st) = Node n l r ->
  (node_id n, element n, cost n) ∈ contents (recent_heap st) /\ oldest_request st (element n).
Proof.
  intros Hok Hroot.
  assert (Hin : (node_id n, element n, cost n) ∈ contents (recent_heap st)).
  { unfold contents. rewrite Hroot. cbn [items]. rewrite !elem_of_app. right. right. by left. }
  split; [ done | ]. destruct (item_request st _ _ _ Hok Hin) as (rr & Hm & _).
  assert (Hage : forall a c, ages (recent_heap st) !! a = Some c -> (a, c) ∈ age_of <$> contents (recent_heap st)).
  { intros a c Hc. by apply elem_of_list_to_map_2 in Hc. }
  exists (cost n), rr. split.
  - apply table_lookup. split; [ | done ]. apply elem_of_list_to_map.
    + by apply addresses_NoDup.
    + apply list_elem_of_fmap. by exists (node_id n, element n, cost n).
  - intros a c' rr' [Hc _]%table_lookup. apply Hage, list_elem_of_fmap in Hc as (x & [= -> ->] & Hx).
    pose proof (ordered_below _ _ n l r (cost n) Hroot (hi_ordered _ (ro_heap _ Hok)) (stays_below_refl _ _)) as Hall.
    rewrite Forall_forall in Hall. specialize (Hall x Hx). rewrite (ro_order _ Hok) in Hall.
    by apply Z.leb_le in Hall.
Qed.

(** The invariant without a request *)
Lemma removed_request st heap map o c rr :
  routing_ok st -> mem st !! o = Some rr ->
  contents (recent_heap st) ≡ₚ (rr_heap_node rr, o, c) :: contents heap ->
  heap_inv heap -> walk_valid heap -> order heap = GNUNET_CONTAINER_HEAP_ORDER_MIN ->
  mm_ok capacity map -> mm_entries (recent_map st) ≡ₚ (rr_key rr, o) :: mm_entries map ->
  let st' := mk_routing (delete o (mem st)) heap map in
  routing_ok st' /\ table st' = delete o (table st).
Proof.
  intros Hok Hm Hc Hinv Hw Hord Hmap He st'.
  pose proof (map_to_list_delete (mem st) o rr Hm) as Hl.
  destruct (ages_perm _ heap o _ c (addresses_NoDup _ Hok) Hc) as [Hages Hfresh]. split.
  - constructor; cbn [st' recent_heap recent_map mem]; try done.
    + pose proof (ro_nodes _ Hok) as Hn. rewrite Hc, <- Hl in Hn. cbn in Hn.
      by apply Permutation_cons_inv in Hn.
    + pose proof (ro_keys _ Hok) as Hk. rewrite He, <- Hl in Hk. cbn in Hk.
      by apply Permutation_cons_inv in Hk.
    + rewrite map_size_delete_Some by eauto. pose proof (ro_size _ Hok). lia.
    + intros a1 a2 r1 r2 [_ H1]%lookup_delete_Some [_ H2]%lookup_delete_Some.
      by apply (ro_distinct _ Hok).
  - apply map_eq. intros a. unfold table. cbn [st' recent_heap mem]. rewrite Hages.
    destruct (decide (a = o)) as [->|Hne].
    + rewrite lookup_delete_eq. apply map_lookup_zip_with_None. by rewrite lookup_delete_eq; right.
    + rewrite lookup_delete_ne by done. rewrite !map_lookup_zip_with.
      by rewrite lookup_insert_ne, lookup_delete_ne by done.
Qed.

Lemma expire_oldest_ok rnd st :
  routing_ok st -> (0 < base.size (mem st))%nat ->
  exists o st', expire_oldest_entry rnd st = Ret st' /\ routing_ok st' /\ oldest_request st o
    /\ table st' = delete o (table st) /\ mem st' = delete o (mem st)
    /\ ids (root (recent_heap st')) ⊆ ids (root (recent_heap st)).
Proof.
  intros Hok Hsz. pose proof (heap_size_mem _ Hok) as Hh. unfold expire_oldest_entry, GNUNET_CONTAINER_heap_peek.
  destruct (root (recent_heap st)) as [|n l r] eqn:Hroot.
  { unfold GNUNET_CONTAINER_heap_get_size in Hh. rewrite (hi_size _ (ro_heap _ Hok)), Hroot in Hh. cbn in Hh. lia. }
  destruct (root_oldest st n l r Hok Hroot) as [Hin Hold].
  destruct (item_request st _ _ _ Hok Hin) as (rr & Hm & Hnode).
  rewrite Hm. cbn [of_option mbind outcome_bind]. rewrite Hnode.
  assert (Hid : node_id n ∈ ids (root (recent_heap st))).
  { apply list_elem_of_fmap. by exists (node_id n, element n, cost n). }
  destruct (heap_remove_node_ok rnd (recent_heap st) (node_id n) (ro_heap _ Hok) (ro_walk _ Hok) Hid)
    as (e & c & heap & -> & Hinv & Hw & Hc & Hord). cbn [mbind outcome_bind].
  assert (Hx : (node_id n, e, c) = (node_id n, element n, cost n)).
  { eapply same_id_same_item; [ apply (hi_nodup _ (ro_heap _ Hok)) | | exact Hin | done ].
    unfold contents in Hc. rewrite Hc. by left. }
  injection Hx as -> ->.
  destruct (mm_remove_ok capacity (recent_map st) (rr_key rr) (element n) (ro_map _ Hok))
    as (map & -> & Hmap & He).
  { rewrite (ro_keys _ Hok). apply list_elem_of_fmap. exists (element n, rr).
    split; [ done | by apply elem_of_map_to_list ]. }
  cbn [gnunet_assert Z.eqb GNUNET_YES Pos.eqb mbind outcome_bind].
  rewrite <- Hnode in Hc. rewrite (ro_order _ Hok) in Hord.
  destruct (removed_request st heap map _ _ rr Hok Hm Hc Hinv Hw Hord Hmap He) as [Hok' Ht].
  eexists (element n), _. split; [ reflexivity | ]. split_and!; try done.
  unfold contents in Hc. cbn [recent_heap]. intros i. rewrite <- Hroot. unfold ids. rewrite Hc, fmap_cons. by right.
Qed.

Lemma expire_loop_ok limit rnd fuel : forall st,
  routing_ok st -> 0 < limit -> (base.size (mem st) <= fuel)%nat ->
  exists st', expire_loop fuel limit rnd st = Ret st' /\ routing_ok st'
    /\ Z.of_nat (base.size (mem st')) < limit.
Proof.
  induction fuel as [|fuel IH]; intros st Hok Hlim Hf; cbn [expire_loop];
    rewrite (heap_size_mem _ Hok); destruct (Z.ltb_spec (Z.of_nat (base.size (mem st))) limit);
    try (by exists st); [ lia | ].
  destruct (expire_oldest_ok rnd st Hok) as (o & st' & -> & Hok' & (c & rr & Hold & _) & _ & Hm & _); [ lia | ].
  cbn [mbind outcome_bind]. apply IH; [ done | done | ].
  apply table_lookup in Hold as [_ Ho]. rewrite Hm, map_size_delete_Some by eauto. lia.
Qed.

(** At most one request is dropped before another one is request_added. *)
Lemma make_room st rnd :
  routing_ok st ->
  exists st0, expire_loop (Z.to_nat (GNUNET_CONTAINER_heap_get_size (recent_heap st))) DHT_MAX_RECENT rnd st
      = Ret st0
    /\ routing_ok st0 /\ (base.size (mem st0) < capacity)%nat /\ mem st0 ⊆ mem st
    /\ ids (root (recent_heap st0)) ⊆ ids (root (recent_heap st))
    /\ ((base.size (mem st) < capacity)%nat /\ table st0 = table st
        \/ base.size (mem st) = capacity
           /\ exists o, oldest_request st o /\ table st0 = delete o (table st)).
Proof.
  intros Hok. rewrite (heap_size_mem _ Hok), Nat2Z.id. pose proof (ro_size _ Hok) as Hsz.
  assert (Hcap : Z.of_nat capacity = DHT_MAX_RECENT) by (unfold capacity, DHT_MAX_RECENT; lia).
  assert (Hpos : 0 < DHT_MAX_RECENT) by done.
  destruct (decide (base.size (mem st) < capacity)%nat) as [Hlt|Hge].
  - exists st. split; [ | do 2 (split; [ assumption | ]); do 2 (split; [ reflexivity | ]);
      left; split; [ assumption | reflexivity ] ].
    destruct (base.size (mem st)) eqn:E; cbn [expire_loop]; rewrite (heap_size_mem _ Hok), E;
      by rewrite (proj2 (Z.ltb_lt _ _)) by lia.
  - assert (Heq : base.size (mem st) = capacity) by lia.
    destruct (expire_oldest_ok rnd st Hok) as (o & st' & Hexp & Hok' & Hold & Ht & Hm & Hids);
      [ lia | ].
    pose proof Hold as (c & rr & Ho & _). apply table_lookup in Ho as [_ Ho].
    assert (Hsz' : base.size (mem st') = (capacity - 1)%nat).
    { rewrite Hm, map_size_delete_Some by eauto. lia. }
    exists st'. split_and!; [ | done | lia | rewrite Hm; apply delete_subseteq | done | right; eauto ].
    destruct (base.size (mem st)) as [|k] eqn:E; [ lia | ]. cbn [expire_loop].
    rewrite (heap_size_mem _ Hok), E, (proj2 (Z.ltb_ge _ _)) by lia. rewrite Hexp. cbn [mbind outcome_bind].
    destruct k; cbn [expire_loop]; rewrite (heap_size_mem _ Hok'); by rewrite (proj2 (Z.ltb_lt _ _)) by lia.
Qed.

(** ** Updating a request in place *)

Definition same_request (rr rr' : RecentRequest) : Prop :=
  rr_peer rr' = rr_peer rr /\ rr_key rr' = rr_key rr /\ rr_heap_node rr' = rr_heap_node rr
  /\ rr_type rr' = rr_type rr /\ rr_xquery rr' = rr_xquery rr.

Lemma combines_same r1 r2 r1' r2' :
  same_request r1 r1' -> same_request r2 r2' -> combines r1' r2' = combines r1 r2.
Proof.
  intros (E1 & _ & _ & E2 & E3) (F1 & _ & _ & F2 & F3). unfold combines.
  by rewrite E1, E2, E3, F1, F2, F3.
Qed.

Lemma fmap_update {B} (f : nat * RecentRequest -> B) m a rr rr' :
  m !! a = Some rr -> f (a, rr') = f (a, rr) ->
  f <$> map_to_list (<[a := rr']> m) ≡ₚ f <$> map_to_list m.
Proof.
  intros Hm Hf. rewrite <- (map_to_list_delete m a rr Hm). rewrite <- insert_delete_eq.
  rewrite map_to_list_insert by apply lookup_delete_eq. rewrite !fmap_cons, Hf. done.
Qed.

Lemma updated_request st a rr rr' :
  routing_ok st -> mem st !! a = Some rr -> same_request rr rr' ->
  let st' := mk_routing (<[a := rr']> (mem st)) (recent_heap st) (recent_map st) in
  routing_ok st' /\ forall c, ages (recent_heap st) !! a = Some c -> table st' = <[a := (c, rr')]> (table st).
Proof.
  intros Hok Hm Hs st'. pose proof Hs as (_ & Hk & Hn & _). split.
  - constructor; cbn [st' recent_heap recent_map mem]; try apply Hok.
    + rewrite (ro_nodes _ Hok), (fmap_update _ _ _ rr); [ done | done | ]. cbn. by rewrite Hn.
    + rewrite (ro_keys _ Hok), (fmap_update _ _ _ rr); [ done | done | ]. cbn. by rewrite Hk.
    + rewrite map_size_insert_Some by eauto. apply Hok.
    + assert (Hback : forall b r, <[a := rr']> (mem st) !! b = Some r ->
        exists r0, mem st !! b = Some r0 /\ same_request r0 r).
      { intros b r [[<- <-]|[_ Hb]]%lookup_insert_Some; [ by exists rr | exists r; by repeat split ]. }
      intros a1 a2 r1 r2 (s1 & Hs1 & E1)%Hback (s2 & Hs2 & E2)%Hback Hkey Hc.
      apply (ro_distinct _ Hok _ _ s1 s2 Hs1 Hs2); [ destruct E1 as (_ & <- & _), E2 as (_ & <- & _); done | ].
      by rewrite <- (combines_same s1 s2 r1 r2).
  - intros c Hc. unfold table. cbn [st' recent_heap mem].
    apply map_eq. intros b. destruct (decide (b = a)) as [->|Hne].
    + by rewrite lookup_insert_eq, map_lookup_zip_with, Hc, lookup_insert_eq.
    + rewrite lookup_insert_ne, !map_lookup_zip_with, lookup_insert_ne by done. done.
Qed.

(** ** Adding a request *)

Lemma combine_same input rr : same_request rr (combine input rr).
Proof. unfold combine. by destruct (negb _). Qed.

Lemma walk_combine input m l :
  Forall (fun e : GNUNET_HashCode * nat => is_Some (m !! e.2)) l ->
  (exists a rr, a ∈ l.*2 /\ m !! a = Some rr /\ combines input rr = true
     /\ walk (try_combine_recent input) (Ret (m, false)) l = Ret (<[a := combine input rr]> m, true))
  \/ (forall a rr, a ∈ l.*2 -> m !! a = Some rr -> combines input rr = false)
     /\ walk (try_combine_recent input) (Ret (m, false)) l = Ret (m, false).
Proof.
  induction 1 as [|[k a] l [rr Ha] Hl IH]; cbn [walk].
  { right. split; [ intros a rr Ha; by apply elem_of_nil in Ha | done ]. }
  cbn [snd] in Ha. unfold try_combine_recent at 1 3. rewrite Ha.
  destruct (combines input rr) eqn:Hc.
  { left. exists a, rr. split_and!; [ by left | done | done | done ]. }
  destruct IH as [(b & rb & Hb & Hm & Hcb & ->)|[Hno ->]]; [ left | right ].
  - exists b, rb. split_and!; [ by right | done | done | done ].
  - split; [ | done ]. intros b rb Hb Hm. cbn in Hb.
    apply elem_of_cons in Hb as [->|Hb]; [ congruence | by eapply Hno ].
Qed.

(** The addresses that the map has for a key are those of the requests for it. *)
Lemma key_addresses st key l :
  routing_ok st -> l ≡ₚ filter (fun e => e.1 = key) (mm_entries (recent_map st)) ->
  NoDup l.*2 /\ (Forall (fun e => is_Some (mem st !! e.2)) l)
  /\ forall a, a ∈ l.*2 <-> exists rr, mem st !! a = Some rr /\ rr_key rr = key.
Proof.
  intros Hok Hl.
  assert (Hin : forall e, e ∈ l <-> e.1 = key /\ exists rr, mem st !! e.2 = Some rr /\ rr_key rr = e.1).
  { intros [k a]. rewrite Hl, list_elem_of_filter, (ro_keys _ Hok), list_elem_of_fmap. cbn.
    split; intros [Hk Hx]; (split; [ done | ]).
    - destruct Hx as ([a' rr] & [= -> ->] & Hm). apply elem_of_map_to_list in Hm. eauto.
    - destruct Hx as (rr & Hm & <-). exists (a, rr). split; [ done | by apply elem_of_map_to_list ]. }
  split_and!.
  - assert (Hnd : NoDup (mm_entries (recent_map st)).*2).
    { rewrite (ro_keys _ Hok), <- list_fmap_compose. apply NoDup_fst_map_to_list. }
    rewrite Hl. eapply sublist_NoDup; [ exact Hnd | apply fmap_sublist, sublist_filter ].
  - apply Forall_forall. intros e He. apply Hin in He as (_ & rr & Hm & _). by exists rr.
  - intros a. rewrite list_elem_of_fmap. split.
    + intros ([k a'] & -> & He). apply Hin in He as (Hk & rr & Hm & Hr). cbn in *. exists rr. by rewrite Hr.
    + intros (rr & Hm & Hr). exists (key, a). split; [ done | ]. apply Hin. eauto.
Qed.

Lemma inserted_request st heap map a rr now :
  routing_ok st -> (base.size (mem st) < capacity)%nat -> mem st !! a = None ->
  (forall b r, mem st !! b = Some r -> rr_key r = rr_key rr -> combines rr r = false) ->
  heap_inv heap -> walk_pos heap = walk_pos (recent_heap st) -> order heap = order (recent_heap st) ->
  ids (root heap) ≡ₚ rr_heap_node rr :: ids (root (recent_heap st)) ->
  contents heap ≡ₚ (rr_heap_node rr, a, now) :: contents (recent_heap st) ->
  mm_ok capacity map -> mm_entries map ≡ₚ (rr_key rr, a) :: mm_entries (recent_map st) ->
  let st' := mk_routing (<[a := rr]> (mem st)) heap map in
  routing_ok st' /\ table st' = <[a := (now, rr)]> (table st).
Proof.
  intros Hok Hsz Ha Hno Hinv Hw Hord Hids Hc Hmap He st'.
  assert (Hok' : routing_ok st').
  { constructor; cbn [st' recent_heap recent_map mem]; try done.
    - intros j Hj. rewrite Hids. right. apply (ro_walk _ Hok). by rewrite <- Hw.
    - by rewrite Hord, (ro_order _ Hok).
    - rewrite Hc, map_to_list_insert, !fmap_cons, (ro_nodes _ Hok) by done. done.
    - rewrite He, map_to_list_insert, fmap_cons, (ro_keys _ Hok) by done. done.
    - rewrite map_size_insert_None by done. lia.
    - assert (Hsym : forall r s, combines r s = combines s r).
      { intros r s. unfold combines. rewrite (Z.eqb_sym (rr_type r)). f_equal; [ f_equal | ]; apply bool_decide_ext; done. }
      intros a1 a2 r1 r2 H1 H2 Hk Hcb.
      apply lookup_insert_Some in H1 as [[<- <-]|[_ H1]], H2 as [[<- <-]|[_ H2]]; [ done | | | by eapply Hok ].
      + by rewrite (Hno _ _ H2) in Hcb.
      + by rewrite Hsym, (Hno _ _ H1) in Hcb. }
  split; [ done | ].
  destruct (ages_perm heap (recent_heap st) a _ now (addresses_NoDup _ Hok') Hc) as [Hages _].
  unfold table. cbn [st' recent_heap mem]. rewrite Hages. apply map_eq. intros b.
  destruct (decide (b = a)) as [->|Hne].
  - by rewrite map_lookup_zip_with, !lookup_insert_eq.
  - by rewrite lookup_insert_ne, !map_lookup_zip_with, !lookup_insert_ne by done.
Qed.

(** The same peer asks the same question again. *)
Definition same_question (input rr : RecentRequest) : Prop :=
  rr_peer rr = rr_peer input /\ rr_key rr = rr_key input /\ rr_type rr = rr_type input
  /\ rr_xquery rr = rr_xquery input.

(** A filter whose bytes are its bit array *)
Definition whole_filter (b : GNUNET_CONTAINER_BloomFilter) : Prop :=
  0 < bitArraySize b < 2 ^ 60 /\ Z.of_nat (length (bitArray b)) = bitArraySize b
  /\ is_bytes (bitArray b).

(** The bytewise or of two filters of the same size; a filter of another size leaves the
    earlier one as it is. *)
Definition united (old new r : option GNUNET_CONTAINER_BloomFilter) : Prop :=
  match old, new with
  | Some o, Some i =>
      if decide (bitArraySize o = bitArraySize i) then
        exists bytes, r = Some (mk_bf bytes (filename o) (fh o) (addressesPerElement o) (bitArraySize o))
          /\ (whole_filter o -> whole_filter i -> bytes = zip_with Z.lor (bitArray o) (bitArray i))
      else r = Some o
  | _, _ => r = old
  end.

(** The earlier request with the new filter: if the mutators agree, united with its own *)
Definition merged (input rr rr' : RecentRequest) : Prop :=
  same_request rr rr' /\ rr_options rr' = rr_options rr
  /\ rr_reply_bf_mutator rr' = rr_reply_bf_mutator input
  /\ if decide (rr_reply_bf_mutator rr = rr_reply_bf_mutator input)
     then united (rr_reply_bf rr) (rr_reply_bf input) (rr_reply_bf rr')
     else rr_reply_bf rr' = rr_reply_bf input.

(** Without a filter the copy of the filter reads through a null pointer. *)
Lemma add_without_filter rnd now a n sender type options key xquery mutator st :
  routing_ok st ->
  GDS_ROUTING_add rnd now a n sender type options key xquery None mutator st = Undefined.
Proof.
  intros Hok. unfold GDS_ROUTING_add. by destruct (make_room st rnd Hok) as (st0 & -> & _).
Qed.

(** What adding a request does to a table that has room *)
Definition request_added (t t' : gmap nat (Z * RecentRequest)) (a : nat) (now : Z) (input : RecentRequest)
  : Prop :=
  (exists b c rr rr', t !! b = Some (c, rr) /\ same_question input rr /\ merged input rr rr'
     /\ t' = <[b := (c, rr')]> t)
  \/ (forall b c rr, t !! b = Some (c, rr) -> ~ same_question input rr)
     /\ t' = <[a := (now, input)]> t.

Lemma combines_spec input rr :
  rr_key rr = rr_key input -> combines input rr = true <-> same_question input rr.
Proof.
  intros Hk. unfold combines, same_question. rewrite !andb_true_iff, !bool_decide_eq_true, Z.eqb_eq.
  split; [ intros [[-> ->] ->]; done | intros (-> & _ & -> & ->); done ].
Qed.

Lemma or2_united old i :
  united old (Some i) (GNUNET_CONTAINER_bloomfilter_or2 old i (bitArraySize i)).2.
Proof.
  destruct old as [o|]; [ | done ]. cbn [united].
  unfold GNUNET_CONTAINER_bloomfilter_or2, GNUNET_CONTAINER_bloomfilter_or.
  destruct (Z.eqb_spec (bitArraySize o) (bitArraySize i)) as [E|E]; cbn [negb snd].
  - rewrite decide_True by done. eexists. split; [ reflexivity | ].
    intros (Hs & Hl & Hb) (Hs' & Hl' & Hb'). rewrite take_ge by lia.
    apply (or_words_bytewise id); [ lia | int_lia | done | done ].
  - by rewrite decide_False.
Qed.

Lemma combine_merged input rr : merged input rr (combine input rr).
Proof.
  split; [ apply combine_same | ]. unfold combine.
  destruct (Z.eqb_spec (rr_reply_bf_mutator input) (rr_reply_bf_mutator rr)) as [He|Hne]; cbn [negb].
  - split_and!; [ done | done | ]. rewrite decide_True by done. cbn [set_reply_bf rr_reply_bf].
    destruct (rr_reply_bf input) as [i|]; [ apply or2_united | by destruct (rr_reply_bf rr) ].
  - split_and!; [ done | done | ]. by rewrite decide_False by congruence.
Qed.

Lemma add_ok rnd now a n sender type options key xquery filter mutator st :
  routing_ok st -> mem st !! a = None -> (n ∉ ids (root (recent_heap st))) ->
  let input := mk_request sender key n (GNUNET_CONTAINER_bloomfilter_copy filter) type xquery mutator options in
  exists st' t0,
    GDS_ROUTING_add rnd now a n sender type options key xquery (Some filter) mutator st = Ret st'
    /\ routing_ok st' /\ request_added t0 (table st') a now input
    /\ ((base.size (mem st) < capacity)%nat /\ t0 = table st
        \/ base.size (mem st) = capacity /\ exists o, oldest_request st o /\ t0 = delete o (table st)).
Proof.
  intros Hok Ha Hn input. unfold GDS_ROUTING_add.
  destruct (make_room st rnd Hok) as (st0 & -> & Hok0 & Hsz & Hsub & Hids & Hroom).
  cbn [mbind outcome_bind of_option]. set (req := mk_request _ _ 0 _ _ _ _ _).
  assert (Ha0 : mem st0 !! a = None) by (eapply lookup_weaken_None; done).
  assert (Hcomb : forall rr, combines req rr = combines input rr /\ combine req rr = combine input rr) by done.
  destruct (mm_get_multiple_ok capacity (recent_map st0) key _ (try_combine_recent req) (Ret (mem st0, false))
    (ro_map _ Hok0)) as (l & Hl & Hget).
  destruct (key_addresses st0 key l Hok0 Hl) as (_ & Hsome & Hin). rewrite Hget.
  destruct (walk_combine req (mem st0) l Hsome) as [(b & rr & Hb & Hm & Hc & ->)|[Hno ->]]; cbn [mbind outcome_bind].
  - apply Hin in Hb as (rr' & Hm' & Hk). rewrite Hm in Hm'. injection Hm' as <-.
    destruct (mem_table st0 b rr Hok0 Hm) as [c Ht].
    destruct (updated_request st0 b rr (combine req rr) Hok0 Hm (combine_same req rr)) as [Hok' Ht'].
    eexists _, (table st0). split; [ reflexivity | ]. split_and!; [ exact Hok' | | ].
    + left. exists b, c, rr, (combine req rr).
      split_and!; [ done | by apply combines_spec | exact (combine_merged input rr) | ].
      apply Ht'. by apply table_lookup in Ht as [? _].
    + destruct Hroom as [[? ->]|(? & o & ? & ->)]; eauto.
  - destruct (heap_insert_ok (recent_heap st0) n a now (ro_heap _ Hok0)) as (heap & -> & Hinv & Hc & Hid & Hw & Hord).
    { split; [ by intros Hx%Hids | ]. pose proof (heap_size_mem _ Hok0) as Hh.
      unfold GNUNET_CONTAINER_heap_get_size in Hh. rewrite (hi_size _ (ro_heap _ Hok0)) in Hh.
      unfold capacity, DHT_MAX_RECENT in Hsz. lia. }
    cbn [mbind outcome_bind].
    destruct (mm_put_ok capacity (recent_map st0) key a (ro_map _ Hok0)) as (map & -> & Hmap & He).
    { rewrite (ro_keys _ Hok0), length_fmap, length_map_to_list. done. }
    destruct (inserted_request st0 heap map a input now) as [Hok' Ht']; try done.
    { intros b r Hb Hk. destruct (Hcomb r) as [<- _]. eapply Hno; [ apply Hin | ]; eauto. }
    eexists _, (table st0). split; [ reflexivity | ]. split_and!; [ exact Hok' | | ].
    + right. split; [ | exact Ht' ]. intros b c rr [_ Hb]%table_lookup Hq.
      assert (Hk : rr_key rr = key) by apply Hq. apply combines_spec in Hq; [ | done ].
      assert (Hcf : combines req rr = false) by (eapply Hno; [ apply Hin | ]; eauto).
      rewrite <- (proj1 (Hcomb rr)), Hcf in Hq. done.
    + destruct Hroom as [[? ->]|(? & o & ? & ->)]; eauto.
Qed.

(** ** Replies *)

Lemma process_same hc pc key rr : same_request rr (process ctx hc pc key rr).1.2.
Proof.
  unfold process. destruct (negb _ && _); [ by repeat split | ].
  destruct (GNUNET_BLOCK_evaluate _ _ _ _ _ _ _) as [eval bf]. by repeat case_match.
Qed.

(** What a request makes of a reply *)
Definition wants (pc : ProcessContext) (rr : RecentRequest) : Prop :=
  rr_type rr = GNUNET_BLOCK_TYPE_ANY \/ rr_type rr = pc_type pc.

Definition verdict (hc : GNUNET_HashCode) (pc : ProcessContext) (key : GNUNET_HashCode) (rr : RecentRequest) :=
  GNUNET_BLOCK_evaluate ctx (pc_type pc) (eval_key ctx hc pc rr key) (rr_reply_bf rr)
    (rr_reply_bf_mutator rr) (rr_xquery rr) (Some (pc_data pc)).

Definition good_verdicts : list Z := [GNUNET_BLOCK_EVALUATION_OK_MORE; GNUNET_BLOCK_EVALUATION_OK_LAST].
Definition other_verdicts : list Z :=
  [GNUNET_BLOCK_EVALUATION_OK_DUPLICATE; GNUNET_BLOCK_EVALUATION_RESULT_IRRELEVANT;
   GNUNET_BLOCK_EVALUATION_REQUEST_VALID; GNUNET_BLOCK_EVALUATION_REQUEST_INVALID].

Definition process_as_specified (hc : GNUNET_HashCode) (pc : ProcessContext) (key : GNUNET_HashCode)
  (rr : RecentRequest) : Prop :=
  (~ wants pc rr -> process ctx hc pc key rr = (GNUNET_OK, rr, []))
  /\ (wants pc rr ->
      let '(v, bf) := verdict hc pc key rr in
      let route := Z.testbit (rr_options rr) 1 in
      process ctx hc pc key rr
      = (if decide (v ∈ good_verdicts ++ other_verdicts) then GNUNET_OK else GNUNET_SYSERR,
         set_reply_bf rr bf (rr_reply_bf_mutator rr),
         if decide (v ∈ good_verdicts)
         then [mk_reply (rr_peer rr) (pc_type pc) (pc_expiration_time pc) key
                 (if route then pc_put_path pc else []) (if route then pc_get_path pc else [])
                 (pc_data pc)]
         else [])).

Lemma land_2 z : negb (Z.land z 2 =? 0) = Z.testbit z 1.
Proof.
  destruct (Z.eqb_spec (Z.land z 2) 0) as [He|Hne]; cbn [negb].
  - apply (f_equal (fun x => Z.testbit x 1)) in He. rewrite Z.land_spec, Z.bits_0 in He.
    by rewrite andb_true_r in He.
  - destruct (Z.testbit z 1) eqn:E; [ done | ]. destruct Hne. apply Z.bits_inj'. intros i Hi.
    rewrite Z.land_spec, Z.bits_0. destruct (decide (i = 1)) as [->|Hi1]; [ by rewrite E | ].
    change 2 with (2 ^ 1). rewrite Z.pow2_bits_false by congruence. apply andb_false_r.
Qed.

Lemma process_spec hc pc key rr : process_as_specified hc pc key rr.
Proof.
  unfold process_as_specified, process, wants. split.
  - intros Hw. rewrite (proj2 (Z.eqb_neq _ _)), (proj2 (Z.eqb_neq _ _)) by tauto. done.
  - intros Hw. replace (negb _ && _) with false.
    2: { destruct Hw as [-> | ->]; rewrite Z.eqb_refl; [ done | by rewrite andb_false_r ]. }
    fold (verdict hc pc key rr). destruct (verdict hc pc key rr) as [v bf].
    unfold reply_for. rewrite land_2. unfold good_verdicts, other_verdicts.
    repeat match goal with |- context [v =? ?c] => destruct (Z.eqb_spec v c) as [->|?]; [ reflexivity | ] end.
    cbn [orb]. rewrite !decide_False; [ done | | ]; cbn [app]; rewrite ?elem_of_cons, elem_of_nil; tauto.
Qed.

(** The requests at the addresses [l] are processed until one refuses the reply: [k] of
    them. *)
Record processed (hc : GNUNET_HashCode) (pc : ProcessContext) (key : GNUNET_HashCode)
  (m m' : gmap nat RecentRequest) (sent : list reply) (l : list nat) (k : nat) : Prop := {
  pr_count : (k <= length l)%nat;
  pr_sent : sent = concat ((fun a => match m !! a with
                                     | Some rr => (process ctx hc pc key rr).2
                                     | None => [] end) <$> take k l);
  pr_mem : forall a, m' !! a = if decide (a ∈ take k l)
                               then (fun rr => (process ctx hc pc key rr).1.2) <$> m !! a else m !! a;
  pr_stop : (k < length l)%nat ->
    exists a rr, last (take k l) = Some a /\ m !! a = Some rr
      /\ (process ctx hc pc key rr).1.1 <> GNUNET_OK
}.

(** The reply goes on to the other requests after the first one. *)
Lemma processed_cons hc pc key m m' out out' rr rr' a l k :
  m !! a = Some rr -> process ctx hc pc key rr = (GNUNET_OK, rr', out) -> (a ∉ l) ->
  processed hc pc key (<[a := rr']> m) m' out' l k ->
  processed hc pc key m m' (out ++ out') (a :: l) (S k).
Proof.
  intros Ha Hp Hfresh [Hc Hsent Hm Hstop].
  assert (Htake : forall b, b ∈ take k l -> b ∈ l).
  { intros b Hb. apply elem_of_take in Hb as (i & Hi & _). by eapply list_elem_of_lookup_2. }
  assert (Hother : forall b, b ∈ l -> <[a := rr']> m !! b = m !! b).
  { intros b Hb. rewrite lookup_insert_ne; [ done | ]. intros ->. done. }
  constructor; cbn [length take].
  - lia.
  - rewrite fmap_cons. cbn [concat]. rewrite Ha, Hp. cbn [snd]. f_equal. rewrite Hsent. f_equal.
    apply list_fmap_ext. intros i b Hb. rewrite Hother; [ done | ].
    by apply Htake, (list_elem_of_lookup_2 _ i).
  - intros b. rewrite Hm. destruct (decide (b = a)) as [->|Hba].
    + rewrite decide_False by (by intros Hx%Htake). rewrite decide_True by by left.
      rewrite lookup_insert_eq, Ha. cbn. by rewrite Hp.
    + rewrite lookup_insert_ne by done. destruct (decide (b ∈ take k l)) as [Hb|Hb].
      * by rewrite decide_True by by right.
      * rewrite decide_False; [ done | ]. by intros [?|?]%elem_of_cons.
  - intros Hlt. destruct Hstop as (b & r & Hlast & Hb & Hr); [ lia | ]. exists b, r.
    assert (Hbl : b ∈ l) by (apply Htake; by apply last_Some_elem_of).
    split_and!; [ | by rewrite <- Hother | done ].
    destruct (take k l); [ done | ]. by rewrite last_cons_cons.
Qed.

Lemma processed_stop hc pc key m out rr rr' ret a l :
  m !! a = Some rr -> process ctx hc pc key rr = (ret, rr', out) -> ret <> GNUNET_OK ->
  processed hc pc key m (<[a := rr']> m) out (a :: l) 1.
Proof.
  intros Ha Hp Hne. constructor; cbn [length take]; rewrite ?take_0.
  - lia.
  - cbn. rewrite Ha, Hp. cbn. by rewrite app_nil_r.
  - intros b. destruct (decide (b = a)) as [->|Hba].
    + rewrite decide_True by by left. rewrite lookup_insert_eq, Ha. cbn. by rewrite Hp.
    + rewrite lookup_insert_ne by done. rewrite decide_False; [ done | ].
      by intros ->%list_elem_of_singleton.
  - intros _. exists a, rr. by rewrite Hp.
Qed.

Lemma walk_process hc pc key l : forall m sent,
  NoDup l.*2 -> Forall (fun e : GNUNET_HashCode * nat => is_Some (m !! e.2)) l ->
  Forall (fun e => e.1 = key) l ->
  exists m' out k, walk (process_value ctx hc pc) (Ret (m, sent)) l = Ret (m', sent ++ out)
    /\ processed hc pc key m m' out l.*2 k.
Proof.
  induction l as [|[k0 a] l IH]; intros m sent Hnd Hs Hk; cbn [walk].
  { exists m, [], 0%nat. rewrite app_nil_r. split; [ done | ]. constructor; try done. cbn. lia. }
  apply Forall_cons in Hs as [[rr Ha] Hs], Hk as [Hk0 Hk]. cbn [fst snd fmap list_fmap] in *. subst k0.
  apply NoDup_cons in Hnd as [Hfresh Hnd]. unfold process_value at 1. rewrite Ha.
  destruct (process ctx hc pc key rr) as [[ret rr'] out] eqn:Hp.
  destruct (Z.eqb_spec ret GNUNET_OK) as [->|Hne].
  - destruct (IH (<[a := rr']> m) (sent ++ out) Hnd) as (m' & out' & k & -> & Hpr); [ | done | ].
    { eapply Forall_impl; [ exact Hs | ]. intros e [r Hr]. apply lookup_insert_is_Some'. by right; exists r. }
    exists m', (out ++ out'), (S k). rewrite app_assoc. split; [ done | ]. by eapply processed_cons.
  - exists (<[a := rr']> m), out, 1%nat. split; [ done | ]. by eapply processed_stop.
Qed.

Lemma fmap_same_requests {B} (f : nat * RecentRequest -> B) m : forall m',
  (forall b, option_Forall2 same_request (m !! b) (m' !! b)) ->
  (forall a r r', same_request r r' -> f (a, r') = f (a, r)) ->
  f <$> map_to_list m ≡ₚ f <$> map_to_list m'.
Proof.
  induction m as [|a r m Ha IH] using map_ind; intros m' Hsame Hf.
  - assert (m' = ∅) as ->; [ | done ]. apply map_empty. intros b. specialize (Hsame b).
    rewrite lookup_empty in Hsame. by inversion Hsame.
  - pose proof (Hsame a) as Hr. rewrite lookup_insert_eq in Hr. inversion Hr as [? r' Hrr E1 E2|]; subst.
    rewrite map_to_list_insert by done. rewrite <- (map_to_list_delete m' a r') by done.
    rewrite !fmap_cons, (Hf a r r') by done. f_equiv. apply IH; [ | done ]. intros b. specialize (Hsame b).
    destruct (decide (a = b)) as [<-|Hne]; [ rewrite Ha, lookup_delete_eq; constructor | ].
    by rewrite lookup_delete_ne, lookup_insert_ne in * by done.
Qed.

(** Only filters change, so the invariant is kept. *)
Lemma processed_ok hc pc key st m' sent l k :
  routing_ok st -> processed hc pc key (mem st) m' sent l k ->
  let st' := mk_routing m' (recent_heap st) (recent_map st) in
  routing_ok st' /\ ages (recent_heap st') = ages (recent_heap st).
Proof.
  intros Hok Hpr. split; [ | done ].
  assert (Hsame : forall b, option_Forall2 same_request (mem st !! b) (m' !! b)).
  { intros b. rewrite (pr_mem _ _ _ _ _ _ _ _ Hpr). destruct (decide _); destruct (mem st !! b); cbn;
      constructor; [ apply process_same | by repeat split ]. }
  constructor; cbn [recent_heap recent_map mem]; try apply Hok.
  - rewrite (ro_nodes _ Hok). apply fmap_same_requests; [ done | ]. intros a r r' (_ & _ & E & _). cbn. by rewrite E.
  - rewrite (ro_keys _ Hok). apply fmap_same_requests; [ done | ]. intros a r r' (_ & E & _). cbn. by rewrite E.
  - rewrite <- (length_map_to_list m'), <- (length_fmap fst), <- (fmap_same_requests fst (mem st)) by done.
    rewrite length_fmap, length_map_to_list. apply Hok.
  - intros a1 a2 r1 r2 H1 H2 Hk Hc. pose proof (Hsame a1) as S1. pose proof (Hsame a2) as S2.
    rewrite H1 in S1. rewrite H2 in S2. inversion S1 as [s1 ? E1 F1|]; subst. inversion S2 as [s2 ? E2 F2|]; subst.
    apply (ro_distinct _ Hok a1 a2 s1 s2); [ done | done | | by rewrite <- (combines_same s1 s2 r1 r2) ].
    destruct E1 as (_ & <- & _), E2 as (_ & <- & _). done.
Qed.

(** ** Life of a table *)

Lemma init_ok : exists st, GDS_ROUTING_init = Ret st /\ routing_ok st /\ table st = ∅.
Proof.
  unfold GDS_ROUTING_init.
  destruct (mm_create_ok capacity (DHT_MAX_RECENT * 4 / 3) false) as (map & -> & Hmap & He).
  { vm_compute. split; congruence. }
  { unfold capacity. rewrite Z2Nat.id by done. vm_compute. congruence. }
  cbn [mbind outcome_bind]. eexists. split; [ reflexivity | ]. split.
  - constructor; cbn [recent_heap recent_map mem]; try done.
    + apply heap_inv_create.
    + by rewrite He, map_to_list_empty.
    + rewrite map_size_empty. lia.
  - unfold table. cbn. apply map_eq. intros a. by rewrite map_lookup_zip_with, lookup_empty.
Qed.

Lemma done_ok rnd st : routing_ok st -> GDS_ROUTING_done rnd st = Ret tt.
Proof.
  intros Hok. unfold GDS_ROUTING_done. rewrite (heap_size_mem _ Hok), Nat2Z.id.
  destruct (expire_loop_ok 1 rnd (base.size (mem st)) st Hok) as (st' & -> & Hok' & Hsz); [ lia | done | ].
  cbn [mbind outcome_bind]. rewrite (heap_size_mem _ Hok').
  rewrite (gnunet_assert_true (0 =? Z.of_nat (base.size (mem st')))) by (apply Z.eqb_eq; lia).
  cbn [mbind outcome_bind]. rewrite (mm_size_ok capacity) by apply Hok'.
  rewrite (ro_keys _ Hok'), length_fmap, length_map_to_list.
  by rewrite gnunet_assert_true by (apply Z.eqb_eq; lia).
Qed.

Lemma process_ok hc type expiration key put_path get_path data st :
  routing_ok st ->
  let pc := mk_pc put_path get_path data expiration type in
  exists st' sent l k,
    GDS_ROUTING_process ctx hc type expiration key put_path get_path (Some data) (length data) st = Ret (st', sent)
    /\ routing_ok st' /\ ages (recent_heap st') = ages (recent_heap st) /\ NoDup l
    /\ (forall a, a ∈ l <-> exists rr, mem st !! a = Some rr /\ rr_key rr = key)
    /\ processed hc pc key (mem st) (mem st') sent l k.
Proof.
  intros Hok pc. unfold GDS_ROUTING_process.
  rewrite mem_read_ok by done. cbn [mbind outcome_bind]. rewrite drop_0, firstn_all. fold pc.
  destruct (mm_get_multiple_ok capacity (recent_map st) key _ (process_value ctx hc pc) (Ret (mem st, []))
    (ro_map _ Hok)) as (l & Hl & ->).
  destruct (key_addresses st key l Hok Hl) as (Hnd & Hsome & Hin).
  destruct (walk_process hc pc key l (mem st) [] Hnd Hsome) as (m' & out & k & -> & Hpr).
  { rewrite Hl. apply Forall_forall. intros e [He _]%list_elem_of_filter. done. }
  cbn [mbind outcome_bind app]. destruct (processed_ok hc pc key st m' out _ k Hok Hpr) as [Hok' Hages].
  eexists _, out, l.*2, k. split; [ reflexivity | ]. split_and!; done || apply Hin.
Qed.

(** The states that a client can reach: requests come with fresh addresses. *)
Inductive reachable_table : routing (M := M) -> Prop :=
  | table_init st : GDS_ROUTING_init = Ret st -> reachable_table st
  | table_add st st' rnd now a n sender type options key xquery filter mutator :
      reachable_table st -> mem st !! a = None -> (n ∉ ids (root (recent_heap st))) ->
      GDS_ROUTING_add rnd now a n sender type options key xquery (Some filter) mutator st = Ret st' ->
      reachable_table st'
  | table_process st st' sent hc type expiration key put_path get_path data :
      reachable_table st ->
      GDS_ROUTING_process ctx hc type expiration key put_path get_path (Some data) (length data) st
        = Ret (st', sent) ->
      reachable_table st'.

Lemma reachable_table_ok st : reachable_table st -> routing_ok st.
Proof.
  induction 1 as [st Hi|st st' rnd now a n sender type options key xquery filter mutator _ IH Ha Hn He
                 |st st' sent hc type expiration key put_path get_path data _ IH He].
  - destruct init_ok as (st0 & Hi0 & Hok & _). congruence.
  - destruct (add_ok rnd now a n sender type options key xquery filter mutator st IH Ha Hn)
      as (st0 & t0 & He0 & Hok & _). congruence.
  - destruct (process_ok hc type expiration key put_path get_path data st IH)
      as (st0 & out & l & k & He0 & Hok & _). congruence.
Qed.

End Spec.

(** ** The claims *)

(** A table over the multi hash map, as [GDS_ROUTING_init] makes it *)
Lemma sample_table :
  exists st, GDS_ROUTING_init (M := GNUNET_CONTAINER_MultiHashMap nat) = Ret st /\ mem st = ∅
    /\ root (recent_heap st) = Leaf.
Proof. eexists. split_and!; reflexivity. Qed.

Definition sample_filter : GNUNET_CONTAINER_BloomFilter := mk_bf (replicate 8 0) false None 16 8.

(** C4: In every state of the DHT's routing table that requests and replies
    can reach, over any hash map with the MultiMap interface, adding a request
    that has a reply filter returns and does to the abstract table (handle to
    time and request) what it should: if the table is full its oldest request
    is dropped; then, if the same peer has asked for the same key, type and
    extended query, that request takes over the new filter if the mutators
    differ, and if they agree its filter becomes the bytewise or of both when
    they have the same size and stays as it is otherwise; if nobody asked the
    same, the request is added with the current time. Memory, heap and map
    keep describing the same requests. Adding a request without a filter
    dereferences a null pointer. *)
Theorem routing_add_refines {M : Type} `{MM : MultiMap M nat} (ctx : GNUNET_BLOCK_Context) (rnd now : Z)
  (a n : nat) sender type options key xquery filter mutator (st : routing (M := M)) :
  reachable_table ctx st -> mem st !! a = None -> (n ∉ ids (root (recent_heap st))) ->
  let input := mk_request sender key n (GNUNET_CONTAINER_bloomfilter_copy filter) type xquery mutator options in
  (exists st' t0,
     GDS_ROUTING_add rnd now a n sender type options key xquery (Some filter) mutator st = Ret st'
     /\ routing_ok st' /\ request_added t0 (table st') a now input
     /\ ((base.size (mem st) < capacity)%nat /\ t0 = table st
         \/ base.size (mem st) = capacity /\ exists o, oldest_request st o /\ t0 = delete o (table st)))
  /\ GDS_ROUTING_add rnd now a n sender type options key xquery None mutator st = Undefined.
Proof.
  intros Hr%reachable_table_ok Ha Hn. split; [ by apply add_ok | by apply add_without_filter ].
Qed.

Lemma routing_add_refines_witness :
  exists st st' t0, reachable_table [] st
    /\ GDS_ROUTING_add (M := GNUNET_CONTAINER_MultiHashMap nat) 0 7 1 1 (replicate 16 3) 1 0
         (replicate 16 4) [] (Some sample_filter) 9 st = Ret st'
    /\ request_added t0 (table st') 1 7
         (mk_request (replicate 16 3) (replicate 16 4) 1 (GNUNET_CONTAINER_bloomfilter_copy sample_filter) 1 [] 9 0).
Proof.
  destruct sample_table as (st & Hi & Hm & Hr). pose proof (table_init [] st Hi) as Hre.
  destruct (routing_add_refines [] 0 7 1 1 (replicate 16 3) 1 0 (replicate 16 4) [] sample_filter 9 st Hre)
    as ((st' & t0 & He & _ & Hadd & _) & _).
  - rewrite Hm. reflexivity.
  - rewrite Hr. apply not_elem_of_nil.
  - exists st, st', t0. exact (conj Hre (conj He Hadd)).
Defined.

(** C19: In every reachable routing table, processing a reply visits each
    request for the key once, in some order and until a request finds the
    reply invalid: a request whose type agrees and whose evaluation is OK gets
    exactly one reply, to its peer, with the paths if it asked for them, its
    filter is what the evaluation left, and nothing else in the table changes. *)
Theorem routing_process_exact {M : Type} `{MM : MultiMap M nat} (ctx : GNUNET_BLOCK_Context)
  hc type expiration key put_path get_path data (st : routing (M := M)) :
  reachable_table ctx st ->
  let pc := mk_pc put_path get_path data expiration type in
  exists st' sent l k,
    GDS_ROUTING_process ctx hc type expiration key put_path get_path (Some data) (length data) st
      = Ret (st', sent)
    /\ routing_ok st' /\ ages (recent_heap st') = ages (recent_heap st) /\ NoDup l
    /\ (forall a, a ∈ l <-> exists rr, mem st !! a = Some rr /\ rr_key rr = key)
    /\ processed ctx hc pc key (mem st) (mem st') sent l k
    /\ (forall rr, process_as_specified ctx hc pc key rr).
Proof.
  intros Hr%reachable_table_ok pc.
  destruct (process_ok ctx hc type expiration key put_path get_path data st Hr)
    as (st' & sent & l & k & He & Hok & Hages & Hnd & Hl & Hpr).
  exists st', sent, l, k. split_and!; try done. apply process_spec.
Qed.

(** A plugin that finds every block of type 1 good *)
Definition sample_plugin : GNUNET_BLOCK_PluginFunctions :=
  mk_plugin [1] (fun _ _ bf _ _ _ => (GNUNET_BLOCK_EVALUATION_OK_MORE, bf))
    (fun _ _ => (GNUNET_SYSERR, None)).

Lemma routing_process_exact_witness :
  exists st st' sent, reachable_table [sample_plugin] st
    /\ GDS_ROUTING_process (M := GNUNET_CONTAINER_MultiHashMap nat) [sample_plugin] [] 1 5
         (replicate 16 4) [] [] (Some [1; 2]) 2 st = Ret (st', sent)
    /\ routing_ok st'.
Proof.
  destruct sample_table as (st & Hi & Hm & Hr). pose proof (table_init [sample_plugin] st Hi) as Hre.
  destruct (routing_process_exact [sample_plugin] [] 1 5 (replicate 16 4) [] [] [1; 2] st Hre)
    as (st' & sent & l & k & He & Hok & _).
  exists st, st', sent. exact (conj Hre (conj He Hok)).
Defined.

(** From every reachable_table table, shutting down terminates: all requests are expired, and
    heap and map are both empty when their assertions look. *)
Theorem routing_done_terminates {M : Type} `{MM : MultiMap M nat} (ctx : GNUNET_BLOCK_Context) (rnd : Z)
  (st : routing (M := M)) :
  reachable_table ctx st -> GDS_ROUTING_done rnd st = Ret tt.
Proof. intros Hr%reachable_table_ok. by apply done_ok. Qed.

Lemma routing_done_terminates_witness :
  exists st, reachable_table [] st /\ GDS_ROUTING_done (M := GNUNET_CONTAINER_MultiHashMap nat) 0 st = Ret tt.
Proof.
  destruct sample_table as (st & Hi & _). exists st. pose proof (table_init [] st Hi) as Hre.
  split; [ exact Hre | exact (routing_done_terminates [] 0 st Hre) ].
Defined.

(** Adding a request without a reply filter dereferences a NULL pointer
    in every reachable routing table; a remote GET message with a reply filter
    of size 0 leads there when the block plugin accepts it. *)
Theorem routing_add_without_filter_crashes {M : Type} `{MM : MultiMap M nat} (ctx : GNUNET_BLOCK_Context)
  (rnd now : Z) (a n : nat) sender type options key xquery mutator (st : routing (M := M)) :
  reachable_table ctx st ->
  GDS_ROUTING_add rnd now a n sender type options key xquery None mutator st = Undefined.
Proof.
  intros Hr%reachable_table_ok. unfold GDS_ROUTING_add.
  by destruct (make_room st rnd Hr) as (st0 & -> & _).
Qed.

Lemma routing_add_without_filter_crashes_witness :
  exists st, reachable_table [] st
    /\ GDS_ROUTING_add (M := GNUNET_CONTAINER_MultiHashMap nat) 0 7 1 1 (replicate 16 3) 1 0
         (replicate 16 4) [] None 9 st = Undefined.
Proof.
  destruct sample_table as (st & Hi & _). exists st. pose proof (table_init [] st Hi) as Hre.
  split; [ exact Hre | ].
  exact (routing_add_without_filter_crashes [] 0 7 1 1 (replicate 16 3) 1 0 (replicate 16 4) [] 9 st Hre).
Defined.
