(* ===== verification/Hello.v ===== *)
(** * HELLO messages: [src/hello/hello.c] and [src/hello/address.c]

    A HELLO advertises the addresses of a peer: a fixed part with the public key,
    followed by entries (transport name, address length, expiration, address) that
    are packed without alignment.  HELLOs come from the network, so the entries are
    parsed with checked reads of the memory that holds the message.

    A message is the bytes of the memory that holds it, which may extend past the
    size in its header.  A [char *] that points into a buffer is the rest of the
    buffer from there on.  Iterators carry their closure as a state and return, in
    the outcome monad, the new state and their return code.  [hash] is
    [GNUNET_CRYPTO_hash], SHA-512 of libgcrypt.  The URI format, which needs the
    transport plugins, is not modelled. *)

From Stdlib Require Import ZArith Lia.
From stdpp Require Import base list numbers sorting.
From S2P Require Import Prelude Time Hash Bandwidth Messages.
Local Open Scope Z_scope.

(** [strcmp] on strings without their NUL and [memcmp] on blocks of equal length *)
Fixpoint bytes_cmp (a b : list Z) : Z :=
  match a, b with
  | [], [] => 0
  | [], _ :: _ => -1
  | _ :: _, [] => 1
  | x :: a', y :: b' => if x <? y then -1 else if y <? x then 1 else bytes_cmp a' b'
  end.

Record GNUNET_HELLO_Address := mk_address {
  peer : GNUNET_HashCode;
  transport_name : list Z;
  address : list Z
}.

(** [address_length] is the length of the address. *)
Definition address_length (a : GNUNET_HELLO_Address) : nat := length (address a).

Definition GNUNET_HELLO_address_cmp (a1 a2 : GNUNET_HELLO_Address) : Z :=
  let ret := bytes_cmp (transport_name a1) (transport_name a2) in
  if negb (ret =? 0) then ret
  else if (address_length a1 <? address_length a2)%nat then -1
  else if (address_length a2 <? address_length a1)%nat then 1
  else bytes_cmp (address a1) (address a2).

(** [sizeof (struct GNUNET_CRYPTO_RsaPublicKeyBinaryEncoded)] and
    [sizeof (struct GNUNET_HELLO_Message)] *)
Definition sizeof_key : nat := 264.
Definition sizeof_hello : nat := 272.
Definition GNUNET_MESSAGE_TYPE_HELLO : Z := 16.

(** [target] is the buffer, [max] the bytes that may be written to it; the result
    is the buffer and the number of bytes copied. *)
Definition GNUNET_HELLO_add_address (a : GNUNET_HELLO_Address)
  (expiration : GNUNET_TIME_Absolute) (target : list Z) (max : nat)
  : outcome (list Z * nat) :=
  let slen := S (length (transport_name a)) in
  if (max <? slen + 2 + 8 + address_length a)%nat then Ret (target, 0%nat)
  else
    t1 ← mem_write target 0 (transport_name a ++ [0]);
    t2 ← mem_write t1 slen (be_encode 2 (u16 (Z.of_nat (address_length a))));
    t3 ← mem_write t2 (slen + 2) (be_encode 8 (abs_value expiration));
    t4 ← mem_write t3 (slen + 2 + 8) (address a);
    Ret (t4, slen + 2 + 8 + address_length a)%nat.

(** The search for the NUL: [pos], [left] and [slen] after the loop. *)
Fixpoint scan_name (pos : list Z) (left_ slen : nat) : outcome (list Z * nat * nat) :=
  match left_ with
  | O => Ret (pos, O, slen)
  | S left' =>
      match pos with
      | [] => Undefined
      | c :: pos' => if c =? 0 then Ret (pos, left_, slen) else scan_name pos' left' (S slen)
      end
  end.

(** [None] is the result 0, [Some (esize, alen)] the size with [*ralen]. *)
Definition get_hello_address_size (buf : list Z) (max : nat) : outcome (option (nat * nat)) :=
  '(pos, left_, slen) ← scan_name buf max 1;
  if (left_ =? 0)%nat then Ret None
  else if (left_ <? 2 + 8)%nat then Ret None
  else
    f ← mem_read pos 1 2;
    let alen := Z.to_nat (be_decode f) in
    let slen' := (slen + (alen + 2 + 8))%nat in
    if (max <? slen')%nat then Ret None else Ret (Some (slen', alen)).

Definition GNUNET_HELLO_size (hello : list Z) : outcome Z :=
  f ← mem_read hello 0 4;
  let h : GNUNET_MessageHeader := wire_decode f in
  if (mh_size h <? Z.of_nat sizeof_hello) || negb (mh_type h =? GNUNET_MESSAGE_TYPE_HELLO)
  then Ret 0 else Ret (mh_size h).

(** [hello->publicKey] *)
Definition publicKey (hello : list Z) : outcome (list Z) := mem_read hello 8 sizeof_key.

(** The header check that the accessors share with [GNUNET_HELLO_size]; [None] is
    [GNUNET_SYSERR] or [NULL]. *)
Definition GNUNET_HELLO_get_key (hello : list Z) : outcome (option (list Z)) :=
  f ← mem_read hello 0 4;
  let h : GNUNET_MessageHeader := wire_decode f in
  if (mh_size h <? Z.of_nat sizeof_hello) || negb (mh_type h =? GNUNET_MESSAGE_TYPE_HELLO)
  then Ret None else pk ← publicKey hello; Ret (Some pk).

Definition GNUNET_HELLO_get_header (hello : list Z) : outcome (option GNUNET_MessageHeader) :=
  f ← mem_read hello 0 4;
  let h : GNUNET_MessageHeader := wire_decode f in
  if (mh_size h <? Z.of_nat sizeof_hello) || negb (mh_type h =? GNUNET_MESSAGE_TYPE_HELLO)
  then Ret None else Ret (Some h).

(** ** Creating a HELLO *)

(** The loop that calls [addrgen] with the rest of the buffer and its size; [used]
    is the part that was filled. *)
Fixpoint create_loop {S : Type} (fuel : nat)
  (addrgen : S -> nat -> list Z -> outcome (S * list Z * nat))
  (s : S) (max : nat) (rest used : list Z) : outcome (list Z) :=
  match fuel with
  | O => Undefined
  | Datatypes.S fuel' =>
      '(s', rest', ret) ← addrgen s max rest;
      if (ret =? 0)%nat then Ret used
      else if (max <? ret)%nat then Undefined
      else create_loop fuel' addrgen s' (max - ret) (drop ret rest') (used ++ take ret rest')
  end.

(** [sizeof (buffer)] *)
Definition create_buffer : nat :=
  (Z.to_nat GNUNET_SERVER_MAX_MESSAGE_SIZE - 1 - 256 - sizeof_hello)%nat.

(** [stack] is what [buffer] holds at first.  Each round fills at least one byte,
    so that [sizeof (buffer) + 1] rounds are enough. *)
Definition GNUNET_HELLO_create {S : Type} (stack pk : list Z)
  (addrgen : option (S -> nat -> list Z -> outcome (S * list Z * nat))) (s : S)
  : outcome (list Z) :=
  used ← match addrgen with
         | None => Ret []
         | Some g => create_loop (Datatypes.S create_buffer) g s create_buffer stack []
         end;
  Ret (wire_encode (mk_header (u16 (Z.of_nat (sizeof_hello + length used)))
                              GNUNET_MESSAGE_TYPE_HELLO)
       ++ [0; 0; 0; 0] ++ pk ++ used).

Section Hello.
Context (hash : list Z -> GNUNET_HashCode).

Definition GNUNET_HELLO_get_id (hello : list Z) : outcome (option GNUNET_HashCode) :=
  f ← mem_read hello 0 4;
  let h : GNUNET_MessageHeader := wire_decode f in
  if (mh_size h <? Z.of_nat sizeof_hello) || negb (mh_type h =? GNUNET_MESSAGE_TYPE_HELLO)
  then Ret None else pk ← publicKey hello; Ret (Some (hash pk)).

(** ** Iteration *)

(** [ret->header.size = ntohs (sizeof (struct GNUNET_HELLO_Message) + wpos)] when
    there is a copy *)
Definition set_size (ret : option (list Z)) (wpos : nat) : outcome (option (list Z)) :=
  match ret with
  | None => Ret None
  | Some r => r' ← mem_write r 0 (be_encode 2 (u16 (Z.of_nat (sizeof_hello + wpos))));
              Ret (Some r')
  end.

(** The [while] loop; every entry takes at least one byte of [insize]. *)
Fixpoint iterate_loop {S : Type} (fuel : nat)
  (it : S -> GNUNET_HELLO_Address -> GNUNET_TIME_Absolute -> outcome (S * Z)) (s : S)
  (id : GNUNET_HashCode) (inptr : list Z) (insize wpos : nat) (ret : option (list Z))
  : outcome (S * option (list Z)) :=
  match fuel with
  | O => Undefined
  | Datatypes.S fuel' =>
      if (insize =? 0)%nat then r ← set_size ret wpos; Ret (s, r)
      else
        e ← get_hello_address_size inptr insize;
        match e with
        | None => Ret (s, None)
        | Some (esize, alen) =>
            expire ← mem_read inptr (esize - alen - 8) 8;
            addr ← mem_read inptr (esize - alen) alen;
            '(s', iret) ← it s (mk_address id (c_string inptr) addr)
                               (mk_abs (be_decode expire));
            if iret =? GNUNET_SYSERR then r ← set_size ret wpos; Ret (s', r)
            else
              '(ret', wpos') ←
                match ret with
                | Some r =>
                    if iret =? GNUNET_OK
                    then entry ← mem_read inptr 0 esize;
                         r' ← mem_write r (sizeof_hello + wpos) entry;
                         Ret (Some r', (wpos + esize)%nat)
                    else Ret (ret, wpos)
                | None => Ret (ret, wpos)
                end;
              iterate_loop fuel' it s' id (drop esize inptr) (insize - esize) wpos' ret'
        end
  end.

(** [GNUNET_HELLO_size] is 0 for a message of another type, so the test of the type
    that the code repeats here never adds anything. *)
Definition GNUNET_HELLO_iterate_addresses {S : Type} (msg : list Z) (return_modified : bool)
  (it : S -> GNUNET_HELLO_Address -> GNUNET_TIME_Absolute -> outcome (S * Z)) (s : S)
  : outcome (S * option (list Z)) :=
  msize ← GNUNET_HELLO_size msg;
  if msize <? Z.of_nat sizeof_hello then Ret (s, None)
  else
    ret ← (if return_modified then m ← mem_read msg 0 (Z.to_nat msize); Ret (Some m)
           else Ret None);
    pk ← publicKey msg;
    let insize := (Z.to_nat msize - sizeof_hello)%nat in
    iterate_loop (Datatypes.S insize) it s (hash pk) (drop sizeof_hello msg) insize 0 ret.

(** ** Looking an address up *)

(** [expiration] is not initialized until [found]. *)
Record ExpireContext := mk_ec {
  ec_address : GNUNET_HELLO_Address;
  ec_found : bool;
  ec_expiration : GNUNET_TIME_Absolute
}.

Definition get_match_exp (ec : ExpireContext) (a : GNUNET_HELLO_Address)
  (expiration : GNUNET_TIME_Absolute) : outcome (ExpireContext * Z) :=
  if GNUNET_HELLO_address_cmp a (ec_address ec) =? 0
  then Ret (mk_ec (ec_address ec) true expiration, GNUNET_SYSERR)
  else Ret (ec, GNUNET_OK).

(** ** Merging *)

Record MergeContext := mk_merge {
  mc_h1 : option (list Z);
  mc_h2 : list Z;
  mc_other : list Z;
  mc_buf : list Z;
  mc_max : nat;
  mc_ret : nat;
  mc_take_equal : bool
}.

Definition copy_latest (mc : MergeContext) (a : GNUNET_HELLO_Address)
  (expiration : GNUNET_TIME_Absolute) : outcome (MergeContext * Z) :=
  '(ec, _) ← GNUNET_HELLO_iterate_addresses (mc_other mc) false get_match_exp
               (mk_ec a false (mk_abs 0));
  if negb (ec_found ec)
     || (abs_value (ec_expiration ec) <? abs_value expiration)
     || ((abs_value (ec_expiration ec) =? abs_value expiration) && mc_take_equal mc)
  then
    '(rest, n) ← GNUNET_HELLO_add_address a expiration (drop (mc_ret mc) (mc_buf mc))
                   (mc_max mc - mc_ret mc);
    Ret (mk_merge (mc_h1 mc) (mc_h2 mc) (mc_other mc) (take (mc_ret mc) (mc_buf mc) ++ rest)
           (mc_max mc) (mc_ret mc + n) (mc_take_equal mc), GNUNET_OK)
  else Ret (mc, GNUNET_OK).

Definition merge_addr (mc : MergeContext) (max : nat) (buf : list Z)
  : outcome (MergeContext * list Z * nat) :=
  match mc_h1 mc with
  | None => Ret (mc, buf, 0%nat)
  | Some h1 =>
      '(mc1, _) ← GNUNET_HELLO_iterate_addresses h1 false copy_latest
                    (mk_merge (Some h1) (mc_h2 mc) (mc_h2 mc) buf max 0 false);
      '(mc2, _) ← GNUNET_HELLO_iterate_addresses (mc_h2 mc1) false copy_latest
                    (mk_merge (mc_h1 mc1) (mc_h2 mc1) h1 (mc_buf mc1) (mc_max mc1)
                       (mc_ret mc1) true);
      Ret (mk_merge None (mc_h2 mc2) (mc_other mc2) (mc_buf mc2) (mc_max mc2) (mc_ret mc2)
             (mc_take_equal mc2), mc_buf mc2, mc_ret mc2)
  end.

Definition GNUNET_HELLO_merge (stack h1 h2 : list Z) : outcome (list Z) :=
  pk ← publicKey h1;
  GNUNET_HELLO_create stack pk (Some merge_addr) (mk_merge (Some h1) h2 [] [] 0 0 false).

(** ** New addresses *)

Definition delta_match {S : Type} (limit : GNUNET_TIME_Absolute) (old_hello : list Z)
  (it : S -> GNUNET_HELLO_Address -> GNUNET_TIME_Absolute -> outcome (S * Z)) (s : S)
  (a : GNUNET_HELLO_Address) (expiration : GNUNET_TIME_Absolute) : outcome (S * Z) :=
  '(ec, _) ← GNUNET_HELLO_iterate_addresses old_hello false get_match_exp
               (mk_ec a false (mk_abs 0));
  if ec_found ec && ((abs_value expiration <? abs_value (ec_expiration ec))
                     || (abs_value limit <=? abs_value (ec_expiration ec)))
  then Ret (s, GNUNET_YES)
  else it s a expiration.

Definition GNUNET_HELLO_iterate_new_addresses {S : Type} (new_hello old_hello : list Z)
  (limit : GNUNET_TIME_Absolute)
  (it : S -> GNUNET_HELLO_Address -> GNUNET_TIME_Absolute -> outcome (S * Z)) (s : S)
  : outcome S :=
  '(s', _) ← GNUNET_HELLO_iterate_addresses new_hello false (delta_match limit old_hello it) s;
  Ret s'.

(** ** Comparing *)

Record EqualsContext := mk_eq {
  eq_limit : GNUNET_TIME_Absolute;
  eq_result : GNUNET_TIME_Absolute;
  eq_h2 : list Z;
  eq_address : GNUNET_HELLO_Address;
  eq_expiration : GNUNET_TIME_Absolute;
  eq_found : bool
}.

Definition find_other_matching (ec : EqualsContext) (a : GNUNET_HELLO_Address)
  (expiration : GNUNET_TIME_Absolute) : outcome (EqualsContext * Z) :=
  if abs_value expiration <? abs_value (eq_limit ec) then Ret (ec, GNUNET_YES)
  else if GNUNET_HELLO_address_cmp a (eq_address ec) =? 0
  then
    let result := if abs_value expiration <? abs_value (eq_expiration ec)
                  then GNUNET_TIME_absolute_min expiration (eq_result ec)
                  else eq_result ec in
    Ret (mk_eq (eq_limit ec) result (eq_h2 ec) (eq_address ec) (eq_expiration ec) true,
         GNUNET_SYSERR)
  else Ret (ec, GNUNET_YES).

Definition find_matching (ec : EqualsContext) (a : GNUNET_HELLO_Address)
  (expiration : GNUNET_TIME_Absolute) : outcome (EqualsContext * Z) :=
  if abs_value expiration <? abs_value (eq_limit ec) then Ret (ec, GNUNET_YES)
  else
    '(ec1, _) ← GNUNET_HELLO_iterate_addresses (eq_h2 ec) false find_other_matching
                  (mk_eq (eq_limit ec) (eq_result ec) (eq_h2 ec) a expiration false);
    if negb (eq_found ec1)
    then Ret (mk_eq (eq_limit ec1) GNUNET_TIME_UNIT_ZERO_ABS (eq_h2 ec1) (eq_address ec1)
                (eq_expiration ec1) (eq_found ec1), GNUNET_SYSERR)
    else Ret (ec1, GNUNET_OK).

(** The [address], [expiration] and [found] of the context are not initialized;
    [find_matching] sets them before it uses them. *)
Definition GNUNET_HELLO_equals (h1 h2 : list Z) (now : GNUNET_TIME_Absolute)
  : outcome GNUNET_TIME_Absolute :=
  k1 ← publicKey h1;
  k2 ← publicKey h2;
  if negb (bool_decide (k1 = k2)) then Ret GNUNET_TIME_UNIT_ZERO_ABS
  else
    '(ec, _) ← GNUNET_HELLO_iterate_addresses h1 false find_matching
                 (mk_eq now GNUNET_TIME_UNIT_FOREVER_ABS h2 (mk_address [] [] []) (mk_abs 0)
                    false);
    if abs_value (eq_result ec) =? rel_value GNUNET_TIME_UNIT_ZERO
    then Ret (eq_result ec)
    else
      '(ec', _) ← GNUNET_HELLO_iterate_addresses h2 false find_matching
                    (mk_eq (eq_limit ec) (eq_result ec) h1 (eq_address ec)
                       (eq_expiration ec) (eq_found ec));
      Ret (eq_result ec').

(** ** Expiration *)

Definition find_min_expire (min : GNUNET_TIME_Absolute) (a : GNUNET_HELLO_Address)
  (expiration : GNUNET_TIME_Absolute) : outcome (GNUNET_TIME_Absolute * Z) :=
  Ret (GNUNET_TIME_absolute_min min expiration, GNUNET_OK).

Definition GNUNET_HELLO_get_last_expiration (msg : list Z) : outcome GNUNET_TIME_Absolute :=
  '(ret, _) ← GNUNET_HELLO_iterate_addresses msg false find_min_expire (mk_abs 0);
  Ret ret.

End Hello.

(** ** Entries: the reference format *)

Record entry := mk_hello_entry { e_name : list Z; e_addr : list Z; e_exp : Z }.

Definition encode_entry (e : entry) : list Z :=
  e_name e ++ [0] ++ be_encode 2 (Z.of_nat (length (e_addr e))) ++ be_encode 8 (e_exp e)
  ++ e_addr e.

Definition valid_entry (e : entry) : Prop :=
  Forall (fun c => is_u8 c /\ c <> 0) (e_name e) /\ is_bytes (e_addr e)
  /\ Z.of_nat (length (e_addr e)) < 2 ^ 16 /\ is_u64 (e_exp e).

Abbreviation encode_entries := (flat_map encode_entry).

Lemma length_encode_entry e :
  length (encode_entry e) = (length (e_name e) + 11 + length (e_addr e))%nat.
Proof. unfold encode_entry. rewrite !length_app, !length_be_encode. cbn [length]. lia. Qed.

Lemma encode_entry_bytes e : valid_entry e -> is_bytes (encode_entry e).
Proof.
  intros (Hn & Ha & _). unfold encode_entry. rewrite !is_bytes_app.
  split_and!; [ | repeat constructor; unfold is_u8; lia | apply be_encode_bytes.. | done ].
  eapply Forall_impl; [ exact Hn | by intros c [Hc _] ].
Qed.

Lemma encode_entries_bytes es : Forall valid_entry es -> is_bytes (encode_entries es).
Proof.
  induction 1 as [|e es He Hes IH]; [ constructor | ]. cbn [flat_map].
  rewrite is_bytes_app. split; [ by apply encode_entry_bytes | done ].
Qed.

Lemma bytes_cmp_eq a b : bytes_cmp a b = 0 <-> a = b.
Proof.
  revert b. induction a as [|x a IH]; intros [|y b]; cbn [bytes_cmp]; try (split; congruence).
  destruct (x <? y) eqn:E1; [ split; [ done | intros [=]; lia ] | ].
  destruct (y <? x) eqn:E2; [ split; [ done | intros [=]; lia ] | ].
  rewrite IH. assert (x = y) as -> by lia. split; congruence.
Qed.

(** Two addresses compare equal when transport and address agree. *)
Lemma address_cmp_eq a1 a2 :
  GNUNET_HELLO_address_cmp a1 a2 = 0 <->
  transport_name a1 = transport_name a2 /\ address a1 = address a2.
Proof.
  unfold GNUNET_HELLO_address_cmp, address_length.
  destruct (Z.eqb_spec (bytes_cmp (transport_name a1) (transport_name a2)) 0) as [E|E];
    cbn [negb].
  - apply bytes_cmp_eq in E. destruct (_ <? _)%nat eqn:E1.
    { apply Nat.ltb_lt in E1. split; [ done | intros [_ Ha]; rewrite Ha in E1; lia ]. }
    destruct (length (address a2) <? length (address a1))%nat eqn:E2.
    { apply Nat.ltb_lt in E2. split; [ done | intros [_ Ha]; rewrite Ha in E2; lia ]. }
    rewrite bytes_cmp_eq. tauto.
  - split; [ done | ]. intros [Hn _]. by apply bytes_cmp_eq in Hn.
Qed.

(** ** Parsing one entry *)

Lemma scan_name_found name rest left_ slen :
  Forall (fun c => is_u8 c /\ c <> 0) name -> (length name < left_)%nat ->
  scan_name (name ++ 0 :: rest) left_ slen
  = Ret (0 :: rest, (left_ - length name)%nat, (slen + length name)%nat).
Proof.
  intros Hn. revert left_ slen. induction Hn as [|c name [_ Hc] Hn IH]; intros left_ slen Hl.
  - destruct left_; [ lia | ]. cbn. by rewrite Nat.add_0_r.
  - destruct left_ as [|left_]; [ lia | ]. cbn [app scan_name].
    rewrite (proj2 (Z.eqb_neq _ _) Hc). cbn [length] in Hl.
    rewrite IH by lia. cbn [length]. rewrite Nat.sub_succ, Nat.add_succ_r. done.
Qed.

(** The search stops at the first NUL or after [left_] bytes. *)
Lemma scan_name_cases l left_ slen :
  is_bytes l -> (left_ <= length l)%nat ->
  (exists pos slen', scan_name l left_ slen = Ret (pos, 0%nat, slen'))
  \/ exists name rest, l = name ++ 0 :: rest /\ Forall (fun c => is_u8 c /\ c <> 0) name
       /\ (length name < left_)%nat.
Proof.
  intros Hl. revert left_ slen. induction Hl as [|c l Hc Hl IH]; intros [|left_] slen Hlen;
    cbn [scan_name length] in *; [ eauto | lia | eauto | ].
  destruct (Z.eqb_spec c 0) as [->|Hc0].
  - right. exists [], l. split_and!; [ done | constructor | cbn; lia ].
  - destruct (IH left_ (S slen) ltac:(lia)) as [H | (name & rest & -> & Hn & Hlt)]; [ auto | ].
    right. exists (c :: name), rest. split_and!; [ done | by constructor | cbn; lia ].
Qed.

Lemma be_decode_encode2 n :
  Z.of_nat n < 2 ^ 16 -> Z.to_nat (be_decode (be_encode 2 (Z.of_nat n))) = n.
Proof.
  intros H. rewrite be_decode_encode. change (8 * Z.of_nat 2) with 16.
  rewrite Z.mod_small by lia. lia.
Qed.

Lemma get_size_entry e rest max :
  valid_entry e -> (length (encode_entry e) <= max)%nat ->
  get_hello_address_size (encode_entry e ++ rest) max
  = Ret (Some (length (encode_entry e), length (e_addr e))).
Proof.
  intros (Hn & Hb & Ha & He) Hmax. rewrite length_encode_entry in *.
  unfold get_hello_address_size, encode_entry. rewrite <- app_assoc. cbn [app].
  rewrite scan_name_found by (done || lia). cbn [mbind outcome_bind].
  destruct (_ =? 0)%nat eqn:E0; [ apply Nat.eqb_eq in E0; lia | clear E0 ].
  destruct (_ <? 2 + 8)%nat eqn:E0; [ apply Nat.ltb_lt in E0; lia | clear E0 ].
  rewrite mem_read_ok by (cbn [length]; rewrite !length_app, length_be_encode; lia).
  cbn [mbind outcome_bind]. rewrite skipn_cons, drop_0, <- app_assoc.
  rewrite take_app_length' by (by rewrite length_be_encode). rewrite be_decode_encode2 by done.
  destruct (max <? _)%nat eqn:E0; [ apply Nat.ltb_lt in E0; lia | ].
  do 3 f_equal. lia.
Qed.

(** Whatever the bytes, an entry is refused or is a valid entry within [max]. *)
Lemma get_size_cases buf max :
  is_bytes buf -> (max <= length buf)%nat ->
  get_hello_address_size buf max = Ret None
  \/ exists e rest, buf = encode_entry e ++ rest /\ valid_entry e
       /\ (length (encode_entry e) <= max)%nat.
Proof.
  intros Hb Hmax. unfold get_hello_address_size.
  destruct (scan_name_cases buf max 1 Hb Hmax)
    as [(pos & slen' & ->) | (name & rest & -> & Hn & Hlt)]; [ by left | ].
  rewrite scan_name_found by done. cbn [mbind outcome_bind].
  destruct (_ =? 0)%nat; [ by left | ].
  destruct (_ <? 2 + 8)%nat eqn:E10; [ by left | ]. apply Nat.ltb_ge in E10.
  rewrite length_app in Hmax. cbn [length] in Hmax.
  rewrite mem_read_ok by (cbn [length]; lia). cbn [mbind outcome_bind]. rewrite skipn_cons, drop_0.
  apply is_bytes_app in Hb as [_ [_ Hr]%is_bytes_cons].
  set (alen := Z.to_nat (be_decode (take 2 rest))).
  destruct (max <? _)%nat eqn:El; [ by left | ]. apply Nat.ltb_ge in El. right.
  assert (H2 : length (take 2 rest) = 2%nat) by (rewrite length_take; lia).
  pose proof (be_decode_range (take 2 rest) ltac:(auto with gnunet)) as Hdec.
  rewrite H2 in Hdec. change (2 ^ (8 * Z.of_nat 2)) with (2 ^ 16) in Hdec.
  set (exp := take 8 (drop 2 rest)). set (addr := take alen (drop 10 rest)).
  assert (H8 : length exp = 8%nat) by (unfold exp; rewrite length_take, length_drop; lia).
  assert (Hal : length addr = alen) by (unfold addr; rewrite length_take, length_drop; lia).
  exists (mk_hello_entry name addr (be_decode exp)), (drop alen (drop 10 rest)).
  rewrite length_encode_entry. cbn [e_name e_addr]. rewrite Hal. split_and!; [ | | lia ].
  - unfold encode_entry. cbn [e_name e_addr e_exp]. rewrite <- !app_assoc. f_equal. cbn [app].
    f_equal. rewrite Hal. unfold alen at 1. rewrite Z2Nat.id by lia.
    rewrite <- H2 at 1. rewrite be_encode_decode by auto with gnunet.
    rewrite <- H8 at 1. rewrite be_encode_decode by (unfold exp; auto with gnunet).
    unfold addr, exp. rewrite take_drop. change 10%nat with (2 + 8)%nat.
    rewrite <- drop_drop, take_drop, take_drop. done.
  - unfold valid_entry. cbn [e_name e_addr e_exp]. split_and!; [ done | | lia | ].
    + unfold addr. auto with gnunet.
    + pose proof (be_decode_range exp ltac:(unfold exp; auto with gnunet)) as Hx.
      rewrite H8 in Hx. exact Hx.
Qed.

(** ** Parsing a message *)

(** Bytes that do not start with an entry of the format *)
Definition no_entry (bad : list Z) : Prop :=
  forall e rest, valid_entry e -> bad <> encode_entry e ++ rest.

Lemma no_entry_nil : no_entry [].
Proof. intros e rest _ E. apply (f_equal length) in E. rewrite length_app, length_encode_entry in E. cbn in E. lia. Qed.

Lemma no_entry_refused bad extra :
  is_bytes (bad ++ extra) -> no_entry bad ->
  get_hello_address_size (bad ++ extra) (length bad) = Ret None.
Proof.
  intros Hb Hs.
  destruct (get_size_cases (bad ++ extra) (length bad) Hb) as [H | (e & rest & Heq & Hv & Hl)];
    [ rewrite length_app; lia | done | ].
  assert (bad = encode_entry e ++ take (length bad - length (encode_entry e)) rest) as Hbad.
  { etransitivity; [ symmetry; apply (take_app_length bad extra) | ].
    rewrite Heq, take_app. by rewrite take_ge. }
  by apply Hs in Hbad.
Qed.

(** Every byte string is a sequence of valid entries up to where parsing stops. *)
Lemma entries_exist bs :
  is_bytes bs -> exists es bad, bs = encode_entries es ++ bad /\ Forall valid_entry es /\ no_entry bad.
Proof.
  remember (length bs) as n eqn:Hn. revert bs Hn.
  induction n as [n IH] using lt_wf_ind; intros bs Hn Hb.
  destruct (get_size_cases bs (length bs) Hb (le_n _)) as [H | (e & rest & -> & Hv & Hl)].
  - exists [], bs. split_and!; [ done | constructor | ].
    intros e rest Hv ->. by rewrite get_size_entry in H by (done || rewrite length_app; lia).
  - apply is_bytes_app in Hb as [_ Hr]. rewrite length_app, length_encode_entry in Hn.
    destruct (IH (length rest) ltac:(lia) rest eq_refl Hr) as (es & bad & -> & Hes & Hs).
    exists (e :: es), bad. split_and!; [ cbn [flat_map]; by rewrite app_assoc | by constructor | done ].
Qed.

(** [m] is the memory of a HELLO with the public key [pk] and the entries [es];
    [bad] is the part that cannot be parsed. *)
Definition hello_parts (m pk : list Z) (es : list entry) (bad : list Z) : Prop :=
  is_bytes m /\ mh_type (wire_decode m) = GNUNET_MESSAGE_TYPE_HELLO
  /\ msg_size m = Z.of_nat (sizeof_hello + length (encode_entries es ++ bad))
  /\ length pk = sizeof_key /\ Forall valid_entry es /\ no_entry bad
  /\ exists hd extra, m = hd ++ pk ++ (encode_entries es ++ bad) ++ extra /\ length hd = 8%nat.

Lemma hello_parts_exist m :
  is_bytes m -> msg_size m <= Z.of_nat (length m) -> Z.of_nat sizeof_hello <= msg_size m ->
  mh_type (wire_decode m) = GNUNET_MESSAGE_TYPE_HELLO ->
  exists pk es bad, hello_parts m pk es bad.
Proof.
  intros Hb Hlen Hsz Hty. unfold sizeof_hello in Hsz.
  set (body := take (Z.to_nat (msg_size m) - 272) (drop 272 m)).
  assert (Hbody : is_bytes body) by (unfold body; auto with gnunet).
  destruct (entries_exist body Hbody) as (es & bad & Heq & Hes & Hs).
  exists (take 264 (drop 8 m)), es, bad. unfold hello_parts, sizeof_hello, sizeof_key.
  rewrite <- Heq. split_and!; [ done | done | | | done | done | ].
  - unfold body. rewrite length_take, length_drop. lia.
  - rewrite length_take, length_drop. lia.
  - exists (take 8 m), (drop (Z.to_nat (msg_size m) - 272) (drop 272 m)).
    split; [ | rewrite length_take; lia ].
    unfold body. rewrite take_drop. change 272%nat with (8 + 264)%nat at 1.
    by rewrite <- (drop_drop m 264 8), take_drop, take_drop.
Qed.

(** ** The reference iteration *)

Section Visit.
Context (hash : list Z -> GNUNET_HashCode) {S : Type}.
Context (it : S -> GNUNET_HELLO_Address -> GNUNET_TIME_Absolute -> outcome (S * Z)).

Definition entry_address (id : GNUNET_HashCode) (e : entry) : GNUNET_HELLO_Address :=
  mk_address id (e_name e) (e_addr e).

(** The iterator on each entry in order until it returns [GNUNET_SYSERR]: its final
    state, the entries it returned [GNUNET_OK] for, and whether it stopped. *)
Fixpoint visit (id : GNUNET_HashCode) (s : S) (es : list entry)
  : outcome (S * list entry * bool) :=
  match es with
  | [] => Ret (s, [], false)
  | e :: es' =>
      '(s', r) ← it s (entry_address id e) (mk_abs (e_exp e));
      if r =? GNUNET_SYSERR then Ret (s', [], true)
      else '(s'', kept, stopped) ← visit id s' es';
           Ret (s'', if r =? GNUNET_OK then e :: kept else kept, stopped)
  end.

(** The copy [ret] of the message [M] after the entries [W] were written to it, and
    with the size in its header. *)
Definition copied (M W : list Z) : list Z :=
  take sizeof_hello M ++ W ++ drop (sizeof_hello + length W) M.
Definition finished (M W : list Z) : list Z :=
  be_encode 2 (Z.of_nat (sizeof_hello + length W)) ++ drop 2 (copied M W).

Lemma length_copied M W :
  (sizeof_hello + length W <= length M)%nat -> length (copied M W) = length M.
Proof. unfold copied. intros H. rewrite !length_app, length_take, length_drop. lia. Qed.

Lemma write_copied M W chunk :
  (sizeof_hello + length W + length chunk <= length M)%nat ->
  mem_write (copied M W) (sizeof_hello + length W) chunk = Ret (copied M (W ++ chunk)).
Proof.
  intros H. rewrite mem_write_ok by (rewrite length_copied; lia). f_equal.
  assert (E : length (take sizeof_hello M ++ W) = (sizeof_hello + length W)%nat)
    by (rewrite length_app, length_take; lia).
  unfold copied. rewrite (app_assoc _ W). rewrite take_app_length' by done.
  rewrite drop_app_ge by lia. rewrite E, drop_drop, length_app, <- !app_assoc.
  do 4 f_equal. lia.
Qed.

Lemma set_size_copied M W :
  (sizeof_hello + length W <= length M)%nat -> Z.of_nat (length M) < 2 ^ 16 ->
  set_size (Some (copied M W)) (length W) = Ret (Some (finished M W)).
Proof.
  intros H HM. unfold set_size. rewrite mem_write_ok.
  2:{ rewrite length_be_encode, length_copied by done. unfold sizeof_hello in *. lia. }
  rewrite length_be_encode, u16_small by int_lia. done.
Qed.

Lemma read_entry e rest :
  valid_entry e ->
  mem_read (encode_entry e ++ rest) (length (encode_entry e) - length (e_addr e) - 8) 8
  = Ret (be_encode 8 (e_exp e))
  /\ mem_read (encode_entry e ++ rest) (length (encode_entry e) - length (e_addr e))
       (length (e_addr e)) = Ret (e_addr e)
  /\ c_string (encode_entry e ++ rest) = e_name e.
Proof.
  intros (Hn & Hb & Ha & He).
  set (front := e_name e ++ [0] ++ be_encode 2 (Z.of_nat (length (e_addr e)))).
  assert (Hf : length front = (length (e_name e) + 3)%nat)
    by (unfold front; rewrite !length_app, length_be_encode; cbn [length]; lia).
  assert (E : encode_entry e ++ rest = front ++ be_encode 8 (e_exp e) ++ e_addr e ++ rest)
    by (unfold front, encode_entry; by rewrite <- !app_assoc).
  split_and!.
  - rewrite mem_read_ok by (rewrite length_app, length_encode_entry; lia). f_equal.
    rewrite E, drop_app_length' by (rewrite length_encode_entry; lia).
    apply take_app_length'. by rewrite length_be_encode.
  - rewrite mem_read_ok by (rewrite length_app, length_encode_entry; lia). f_equal.
    rewrite E, app_assoc, drop_app_length'
      by (rewrite length_app, length_be_encode, length_encode_entry; lia).
    by apply take_app_length'.
  - unfold encode_entry. rewrite <- app_assoc. cbn [app]. apply c_string_app.
    eapply Forall_impl; [ exact Hn | by intros c [_ Hc] ].
Qed.

(** The loop on the entries [es], the bytes [bad] and whatever memory follows; [rm]
    says whether there is a copy. *)
Lemma iterate_loop_visit fuel id es bad extra M W rm s :
  Forall valid_entry es -> no_entry bad -> is_bytes (bad ++ extra) ->
  (length (encode_entries es ++ bad) < fuel)%nat -> Z.of_nat (length M) < 2 ^ 16 ->
  (sizeof_hello + length W + length (encode_entries es ++ bad) <= length M)%nat ->
  iterate_loop fuel it s id (encode_entries es ++ bad ++ extra)
    (length (encode_entries es ++ bad)) (length W) (if (rm : bool) then Some (copied M W) else None)
  = '(s', kept, stopped) ← visit id s es;
    Ret (s', if rm && (stopped || bool_decide (bad = []))
             then Some (finished M (W ++ encode_entries kept)) else None).
Proof.
  revert es W s. induction fuel as [|fuel IH]; intros es W s Hes Hbad Hb Hfuel HM Hlen; [ lia | ].
  destruct es as [|e es].
  - cbn [flat_map app visit mbind outcome_bind iterate_loop] in *. rewrite app_nil_r.
    destruct bad as [|b bad].
    + cbn [length Nat.eqb orb]. rewrite bool_decide_eq_true_2, andb_true_r by done.
      destruct rm; [ | done ]. rewrite set_size_copied by lia. done.
    + rewrite bool_decide_eq_false_2 by done. cbn [length Nat.eqb orb].
      change (Datatypes.S (length bad)) with (length (b :: bad)).
      rewrite no_entry_refused by done. cbn [mbind outcome_bind]. by rewrite andb_false_r.
  - inversion Hes as [|e' es' He Hes']; subst e' es'. cbn [flat_map] in *.
    rewrite <- !app_assoc in *. rewrite length_app in *.
    pose proof (length_encode_entry e) as Hle.
    cbn [iterate_loop visit]. destruct (_ =? 0)%nat eqn:E0; [ apply Nat.eqb_eq in E0; lia | clear E0 ].
    rewrite get_size_entry by (done || lia). cbn [mbind outcome_bind].
    destruct (read_entry e (encode_entries es ++ bad ++ extra) He) as (R1 & R2 & R3).
    rewrite R1, R2, R3. cbn [mbind outcome_bind].
    rewrite be_decode_encode. change (8 * Z.of_nat 8) with 64.
    destruct He as (_ & _ & _ & Hexp). rewrite Z.mod_small by done.
    unfold entry_address.
    destruct (it s _ _) as [[s' r] | | ]; cbn [mbind outcome_bind]; [ | done | done ].
    destruct (r =? GNUNET_SYSERR) eqn:Er.
    + cbn [mbind outcome_bind flat_map orb]. rewrite app_nil_r, andb_true_r.
      destruct rm; [ | done ]. rewrite set_size_copied by lia. done.
    + rewrite drop_app_length, Nat.add_comm, Nat.add_sub.
      destruct rm; cbn [mbind outcome_bind andb].
      * destruct (r =? GNUNET_OK) eqn:Ek; cbn [mbind outcome_bind].
        -- rewrite mem_read_ok by (rewrite length_app; lia). cbn [mbind outcome_bind].
           rewrite drop_0, take_app_length, write_copied by lia. cbn [mbind outcome_bind].
           rewrite <- length_app. rewrite (IH es (W ++ encode_entry e) s');
             [ | done | done | done | lia | done | rewrite length_app; lia ].
           destruct (visit id s' es) as [[[s'' kept] st] | | ]; cbn [mbind outcome_bind]; try done.
           cbn [flat_map]. by rewrite app_assoc.
        -- rewrite (IH es W s'); [ | done | done | done | lia | done | lia ].
           by destruct (visit id s' es) as [[[s'' kept] st] | | ].
      * rewrite (IH es W s'); [ | done | done | done | lia | done | lia ].
        by destruct (visit id s' es) as [[[s'' kept] st] | | ].
Qed.

Lemma hello_header m pk es bad :
  hello_parts m pk es bad ->
  GNUNET_HELLO_size m = Ret (msg_size m) /\ publicKey m = Ret pk.
Proof.
  intros (Hb & Ht & Hsz & Hpk & _ & _ & hd & extra & Hm & Hhd). split.
  - unfold GNUNET_HELLO_size.
    assert (Hl : (4 <= length m)%nat) by (rewrite Hm, length_app; lia).
    rewrite mem_read_ok by lia. cbn [mbind outcome_bind]. rewrite drop_0.
    assert (E : forall l, (4 <= length l)%nat ->
      wire_decode (A := GNUNET_MessageHeader) (take 4 l) = wire_decode l).
    { intros l Hl'. destruct l as [|a [|b [|c [|d l]]]]; cbn [length] in Hl'; try lia. done. }
    rewrite E by done. fold (msg_size m).
    rewrite Ht, Z.eqb_refl. cbn [negb orb].
    destruct (_ <? _) eqn:E1; [ lia | done ].
  - unfold publicKey. rewrite mem_read_ok by (rewrite Hm, !length_app; lia). f_equal.
    rewrite Hm, <- Hhd, drop_app_length, <- Hpk. by apply take_app_length.
Qed.

(** *** The iteration over a message *)
Lemma iterate_addresses_visit m pk es bad rm s :
  hello_parts m pk es bad ->
  GNUNET_HELLO_iterate_addresses hash m rm it s
  = '(s', kept, stopped) ← visit (hash pk) s es;
    Ret (s', if rm && (stopped || bool_decide (bad = []))
             then Some (finished (take (Z.to_nat (msg_size m)) m) (encode_entries kept))
             else None).
Proof.
  intros Hp. destruct (hello_header _ _ _ _ Hp) as [Hs Hk].
  destruct Hp as (Hb & Ht & Hsz & Hpk & Hes & Hst & hd & extra & Hm & Hhd).
  unfold GNUNET_HELLO_iterate_addresses. rewrite Hs. cbn [mbind outcome_bind].
  rewrite Hsz. destruct (_ <? _) eqn:E; [ apply Z.ltb_lt in E; lia | clear E ].
  rewrite Nat2Z.id.
  assert (Hlm : (sizeof_hello + length (encode_entries es ++ bad) <= length m)%nat).
  { rewrite Hm, !length_app. unfold sizeof_hello, sizeof_key in *. rewrite Hpk, Hhd. lia. }
  set (M := take (sizeof_hello + length (encode_entries es ++ bad)) m).
  assert (HM : length M = (sizeof_hello + length (encode_entries es ++ bad))%nat)
    by (unfold M; rewrite length_take; lia).
  assert (Hret : (if rm then m0 ← mem_read m 0 (sizeof_hello + length (encode_entries es ++ bad));
                             Ret (Some m0) else Ret None)
                 = Ret (if rm then Some (copied M []) else None)).
  { destruct rm; [ | done ]. rewrite mem_read_ok by lia. cbn [mbind outcome_bind]. rewrite drop_0.
    fold M. unfold copied. cbn [length app]. by rewrite Nat.add_0_r, take_drop. }
  rewrite Hret, Hk. cbn [mbind outcome_bind].
  replace (sizeof_hello + length (encode_entries es ++ bad) - sizeof_hello)%nat
    with (length (encode_entries es ++ bad)) by lia.
  assert (Hd : drop sizeof_hello m = encode_entries es ++ bad ++ extra).
  { rewrite Hm, app_assoc, drop_app_length', <- app_assoc; [ done | ].
    rewrite length_app, Hhd, Hpk. done. }
  assert (Hu16 : is_u16 (msg_size m)).
  { assert (Hl4 : (2 <= length m)%nat) by (rewrite Hm, length_app; lia).
    change (is_u16 (be_decode (take 2 m))).
    pose proof (be_decode_range (take 2 m) ltac:(auto with gnunet)) as Hr.
    rewrite length_take, Nat.min_l in Hr by lia. exact Hr. }
  rewrite Hd. change 0%nat with (length (@nil Z)) at 1.
  rewrite iterate_loop_visit; [ done | done | done | | lia | | ].
  - rewrite Hm in Hb. rewrite !is_bytes_app in Hb. rewrite is_bytes_app. tauto.
  - rewrite HM. int_lia.
  - rewrite HM. cbn [length]. lia.
Qed.

End Visit.

(** ** What a modified copy holds *)

Lemma wire_decode_type l :
  (4 <= length l)%nat ->
  mh_type (wire_decode l) = be_decode (take 2 (drop 2 l)) /\ msg_size l = be_decode (take 2 l).
Proof. intros Hl. destruct l as [|a [|b [|c [|d l]]]]; cbn [length] in Hl; try lia. done. Qed.

Lemma finished_parts m pk es bad kept :
  hello_parts m pk es bad -> Forall valid_entry kept ->
  (length (encode_entries kept) <= length (encode_entries es))%nat ->
  hello_parts (finished (take (Z.to_nat (msg_size m)) m) (encode_entries kept)) pk kept [].
Proof.
  intros (Hb & Ht & Hsz & Hpk & Hes & Hst & hd & extra & Hm & Hhd) Hk Hle.
  set (body := encode_entries es ++ bad) in *. set (W := encode_entries kept) in *.
  assert (HleW : (length W <= length body)%nat) by (unfold body; rewrite length_app; lia).
  assert (HM : take (Z.to_nat (msg_size m)) m = hd ++ pk ++ body).
  { rewrite Hsz, Nat2Z.id, Hm. rewrite !(app_assoc pk), !(app_assoc hd). apply take_app_length'.
    rewrite !length_app. unfold sizeof_hello, sizeof_key in *. lia. }
  assert (Hl4 : (4 <= length m)%nat) by (rewrite Hm, length_app; lia).
  assert (Hu16 : is_u16 (msg_size m)).
  { rewrite (proj2 (wire_decode_type m Hl4)).
    pose proof (be_decode_range (take 2 m) ltac:(auto with gnunet)) as Hr.
    rewrite length_take, Nat.min_l in Hr by lia. exact Hr. }
  rewrite HM. destruct hd as [|h0 [|h1 hd]]; cbn [length] in Hhd; [ lia | lia | ].
  set (sz := be_encode 2 (Z.of_nat (sizeof_hello + length W))).
  assert (Hf : finished ((h0 :: h1 :: hd) ++ pk ++ body) W
               = (sz ++ hd) ++ pk ++ (W ++ []) ++ drop (length W) body).
  { unfold finished, copied. fold sz. rewrite (app_assoc (h0 :: h1 :: hd) pk body).
    rewrite take_app_length'
      by (rewrite length_app, Hpk; unfold sizeof_hello, sizeof_key; cbn [length]; lia).
    rewrite (drop_app_ge _ body)
      by (rewrite length_app, Hpk; unfold sizeof_hello, sizeof_key; cbn [length]; lia).
    rewrite length_app, Hpk. cbn [length].
    replace (sizeof_hello + length W - (S (S (length hd)) + sizeof_key))%nat with (length W)
      by (unfold sizeof_hello, sizeof_key; lia).
    rewrite <- !app_assoc. cbn [app drop]. done. }
  assert (Hsz2 : length sz = 2%nat) by apply length_be_encode.
  rewrite Hf. rewrite Hm in Hb. rewrite !is_bytes_app, !is_bytes_cons in Hb.
  destruct Hb as ((_ & _ & Hbh) & Hbpk & Hbb & _).
  assert (Hty : be_decode (take 2 hd) = GNUNET_MESSAGE_TYPE_HELLO).
  { rewrite <- Ht, (proj1 (wire_decode_type m Hl4)), Hm.
    change (be_decode (take 2 hd) = be_decode (take 2 (hd ++ pk ++ body ++ extra))).
    by rewrite take_app_le by lia. }
  assert (HbW : is_bytes W) by (by apply encode_entries_bytes).
  destruct (wire_decode_type ((sz ++ hd) ++ pk ++ (W ++ []) ++ drop (length W) body))
    as [T1 T2]; [ rewrite !length_app; lia | ].
  unfold hello_parts. split_and!.
  - rewrite !is_bytes_app.
    split_and!; [ apply be_encode_bytes | done | done | done | constructor | auto with gnunet ].
  - rewrite T1, <- app_assoc, (drop_app_length' sz) by lia.
    rewrite take_app_le by lia. exact Hty.
  - rewrite T2, <- app_assoc, (take_app_length' sz) by lia. unfold sz.
    rewrite be_decode_encode, app_nil_r. apply Z.mod_small.
    change (2 ^ (8 * Z.of_nat 2)) with (2 ^ 16). rewrite Hsz in Hu16. unfold is_u16 in Hu16.
    fold W. lia.
  - done.
  - done.
  - apply no_entry_nil.
  - exists (sz ++ hd), (drop (length W) body). split; [ done | rewrite length_app; lia ].
Qed.

Lemma visit_kept {S} it id (s : S) es s' kept st :
  visit it id s es = Ret (s', kept, st) -> Forall valid_entry es ->
  Forall valid_entry kept /\ (length (encode_entries kept) <= length (encode_entries es))%nat.
Proof.
  revert s s' kept st. induction es as [|e es IH]; intros s s' kept st H Hv; cbn [visit] in H.
  - simplify_eq. done.
  - inversion Hv as [|? ? He Hes]; subst.
    destruct (it s _ _) as [[s1 r] | | ]; cbn [mbind outcome_bind] in H; try done.
    destruct (r =? GNUNET_SYSERR); [ simplify_eq; split; [ constructor | cbn; lia ] | ].
    destruct (visit it id s1 es) as [[[s2 k] b] | | ] eqn:Ev; cbn [mbind outcome_bind] in H; try done.
    destruct (IH _ _ _ _ Ev Hes) as [Hk Hl]. simplify_eq.
    destruct (r =? GNUNET_OK); cbn [flat_map]; rewrite !length_app; split;
      [ by constructor | lia | done | lia ].
Qed.

(** ** Iteration over bytes from the network *)

Lemma hello_invalid m :
  (4 <= length m)%nat ->
  (msg_size m <? Z.of_nat sizeof_hello)
    || negb (mh_type (wire_decode m) =? GNUNET_MESSAGE_TYPE_HELLO) = true ->
  GNUNET_HELLO_size m = Ret 0.
Proof.
  intros Hl Hbad. unfold GNUNET_HELLO_size. rewrite mem_read_ok by lia.
  cbn [mbind outcome_bind]. rewrite drop_0.
  assert (E : wire_decode (A := GNUNET_MessageHeader) (take 4 m) = wire_decode m)
    by (destruct m as [|a [|b [|c [|d m]]]]; cbn [length] in Hl; try lia; done).
  rewrite E. fold (msg_size m). by rewrite Hbad.
Qed.

(** C33: Whatever bytes of the network form a HELLO, iterate_addresses
    terminates without reading or writing outside of the message: a wrong
    header is refused; otherwise the body is a sequence of entries of the
    packed format (name with its NUL, length of the address, expiration,
    address) and a rest that does not start with a complete entry, and for
    every such decomposition the iterator sees exactly these entries in order
    until it stops the iteration; a modified copy, which is returned when the
    iterator stopped or nothing is left over, is again a well-formed HELLO
    with the same key and exactly the entries the iterator kept. *)
Theorem hello_iterate_safe (hash : list Z -> GNUNET_HashCode) {S : Type}
  (it : S -> GNUNET_HELLO_Address -> GNUNET_TIME_Absolute -> outcome (S * Z)) (s : S)
  (m : list Z) (return_modified : bool) :
  is_bytes m -> (4 <= length m)%nat -> msg_size m <= Z.of_nat (length m) ->
  if (msg_size m <? Z.of_nat sizeof_hello)
     || negb (mh_type (wire_decode m) =? GNUNET_MESSAGE_TYPE_HELLO)
  then GNUNET_HELLO_iterate_addresses hash m return_modified it s = Ret (s, None)
  else (exists pk es bad, hello_parts m pk es bad) /\ forall pk es bad, hello_parts m pk es bad ->
    GNUNET_HELLO_iterate_addresses hash m return_modified it s
    = ('(s', kept, stopped) ← visit it (hash pk) s es;
       Ret (s', if return_modified && (stopped || bool_decide (bad = []))
                then Some (finished (take (Z.to_nat (msg_size m)) m) (encode_entries kept))
                else None))
    /\ forall s' kept stopped, visit it (hash pk) s es = Ret (s', kept, stopped) ->
         hello_parts (finished (take (Z.to_nat (msg_size m)) m) (encode_entries kept)) pk kept [].
Proof.
  intros Hb Hl Hsz. destruct (_ || _) eqn:E.
  - unfold GNUNET_HELLO_iterate_addresses. by rewrite hello_invalid.
  - apply orb_false_iff in E as [E1 E2].
    destruct (hello_parts_exist m Hb Hsz) as (pk & es & bad & Hp);
      [ lia | destruct (Z.eqb_spec (mh_type (wire_decode m)) GNUNET_MESSAGE_TYPE_HELLO); done | ].
    split; [ by exists pk, es, bad | ]. clear pk es bad Hp. intros pk es bad Hp.
    split; [ by apply iterate_addresses_visit | ]. intros s' kept stopped Hv.
    destruct (visit_kept _ _ _ _ _ _ _ Hv) as [Hk Hle]; [ apply Hp | ].
    by eapply finished_parts.
Qed.

(** A HELLO with one entry, and a second one that is cut off. *)
Definition sample_hello : list Z :=
  be_encode 2 (272 + 15 + 3) ++ be_encode 2 16 ++ replicate 4 0 ++ replicate 264 7
  ++ encode_entry (mk_hello_entry [116] [1; 2; 3] 1000) ++ [117; 100; 112].

Lemma sample_hello_bytes : is_bytes sample_hello.
Proof.
  unfold sample_hello. rewrite !is_bytes_app. split_and!; try apply be_encode_bytes.
  - repeat constructor; unfold is_u8; lia.
  - apply Forall_replicate. unfold is_u8. lia.
  - apply encode_entry_bytes. unfold valid_entry, is_bytes, is_u8, is_u64. cbn [e_name e_addr e_exp].
    split_and!; repeat constructor; cbn; lia.
  - repeat constructor; unfold is_u8; lia.
Qed.

Lemma sample_hello_parts :
  hello_parts sample_hello (replicate 264 7) [mk_hello_entry [116] [1; 2; 3] 1000] [117; 100; 112].
Proof.
  split; [ exact sample_hello_bytes | ]. split_and!; [ done | done | done | | | ].
  - constructor; [ | constructor ]. unfold valid_entry, is_bytes, is_u8, is_u64. cbn [e_name e_addr e_exp].
    split_and!; repeat constructor; cbn; lia.
  - intros e rest _ E. apply (f_equal length) in E. rewrite length_app, length_encode_entry in E. cbn in E. lia.
  - exists (take 8 sample_hello), []. split; vm_compute; reflexivity.
Qed.

(** The iterator counts one entry, and no copy is returned since the rest is malformed. *)
Lemma hello_iterate_safe_witness :
  GNUNET_HELLO_iterate_addresses (fun _ => []) sample_hello true
    (fun (n : nat) _ _ => Ret (S n, GNUNET_OK)) 0%nat = Ret (1%nat, None).
Proof.
  pose proof (hello_iterate_safe (fun _ => []) (fun (n : nat) _ _ => Ret (S n, GNUNET_OK)) 0%nat
                sample_hello true) as H.
  specialize (H sample_hello_bytes ltac:(vm_compute; lia) ltac:(vm_compute; discriminate)).
  destruct H as [_ H]. destruct (H _ _ _ sample_hello_parts) as [-> _]. reflexivity.
Defined.

(** get_last_expiration returns zero for every HELLO, whatever the
    expirations of its addresses, because it takes the minimum starting from
    zero instead of the maximum. *)
Theorem hello_last_expiration_is_zero (hash : list Z -> GNUNET_HashCode) (m : list Z) :
  is_bytes m -> (4 <= length m)%nat -> msg_size m <= Z.of_nat (length m) ->
  GNUNET_HELLO_get_last_expiration hash m = Ret (mk_abs 0).
Proof.
  intros Hb Hl Hsz. unfold GNUNET_HELLO_get_last_expiration.
  destruct ((msg_size m <? Z.of_nat sizeof_hello)
     || negb (mh_type (wire_decode m) =? GNUNET_MESSAGE_TYPE_HELLO)) eqn:E.
  - unfold GNUNET_HELLO_iterate_addresses. by rewrite hello_invalid.
  - apply orb_false_iff in E as [E1 E2].
    destruct (hello_parts_exist m Hb Hsz) as (pk & es & bad & Hp);
      [ lia | destruct (Z.eqb_spec (mh_type (wire_decode m)) GNUNET_MESSAGE_TYPE_HELLO); done | ].
    rewrite (iterate_addresses_visit hash _ _ _ _ _ _ _ Hp).
    assert (Hv : visit find_min_expire (hash pk) (mk_abs 0) es = Ret (mk_abs 0, es, false)).
    { destruct Hp as (_ & _ & _ & _ & Hes & _). clear -Hes.
      induction Hes as [|e es (_ & _ & _ & He) Hes IH]; [ done | ].
      cbn [visit find_min_expire mbind outcome_bind].
      assert (GNUNET_TIME_absolute_min (mk_abs 0) (mk_abs (e_exp e)) = mk_abs 0) as ->.
      { unfold GNUNET_TIME_absolute_min. cbn [abs_value]. unfold is_u64 in He.
        destruct (0 <? e_exp e) eqn:E; [ done | ]. f_equal. lia. }
      change (GNUNET_OK =? GNUNET_SYSERR) with false. cbv iota. by rewrite IH. }
    by rewrite Hv.
Qed.

Lemma hello_last_expiration_is_zero_witness :
  GNUNET_HELLO_get_last_expiration (fun _ => []) sample_hello = Ret (mk_abs 0).
Proof.
  apply hello_last_expiration_is_zero.
  - exact sample_hello_bytes.
  - vm_compute. lia.
  - vm_compute. discriminate.
Defined.

(** ** Looking up and adding addresses *)

Definition same_address (e e' : entry) : bool :=
  bool_decide (e_name e = e_name e') && bool_decide (e_addr e = e_addr e').

Lemma same_address_spec e e' :
  same_address e e' = true <-> e_name e = e_name e' /\ e_addr e = e_addr e'.
Proof. unfold same_address. rewrite andb_true_iff, !bool_decide_eq_true. done. Qed.

Lemma address_cmp_same id id' e e' :
  (GNUNET_HELLO_address_cmp (entry_address id e) (entry_address id' e') =? 0) = same_address e' e.
Proof.
  apply eq_true_iff_eq. rewrite Z.eqb_eq, address_cmp_eq, same_address_spec.
  cbn [entry_address transport_name address]. split; intros [-> ->]; done.
Qed.

(** The first entry with the address of [e] *)
Definition lookup_entry (e : entry) (es : list entry) : option entry :=
  List.find (same_address e) es.

Lemma lookup_entry_visit id id' e es :
  exists kept stopped,
    visit get_match_exp id' (mk_ec (entry_address id e) false (mk_abs 0)) es
    = Ret (match lookup_entry e es with
           | Some e' => mk_ec (entry_address id e) true (mk_abs (e_exp e'))
           | None => mk_ec (entry_address id e) false (mk_abs 0)
           end, kept, stopped).
Proof.
  induction es as [|e' es (kept & stopped & IH)]; [ cbn; eauto | ].
  cbn [visit lookup_entry List.find].
  assert (Hg : get_match_exp (mk_ec (entry_address id e) false (mk_abs 0)) (entry_address id' e')
                 (mk_abs (e_exp e'))
               = if same_address e e'
                 then Ret (mk_ec (entry_address id e) true (mk_abs (e_exp e')), GNUNET_SYSERR)
                 else Ret (mk_ec (entry_address id e) false (mk_abs 0), GNUNET_OK))
    by (unfold get_match_exp; cbn [ec_address]; by rewrite address_cmp_same).
  rewrite Hg. destruct (same_address e e'); cbn [mbind outcome_bind].
  - change (GNUNET_SYSERR =? GNUNET_SYSERR) with true. cbv iota. eauto.
  - change (GNUNET_OK =? GNUNET_SYSERR) with false. cbv iota. rewrite IH. cbn [mbind outcome_bind].
    eauto.
Qed.

Lemma lookup_address hash m pk es bad id e :
  hello_parts m pk es bad ->
  GNUNET_HELLO_iterate_addresses hash m false get_match_exp
    (mk_ec (entry_address id e) false (mk_abs 0))
  = Ret (match lookup_entry e es with
         | Some e' => mk_ec (entry_address id e) true (mk_abs (e_exp e'))
         | None => mk_ec (entry_address id e) false (mk_abs 0)
         end, None).
Proof.
  intros Hp. rewrite (iterate_addresses_visit hash _ _ _ _ _ _ _ Hp).
  destruct (lookup_entry_visit id (hash pk) e es) as (kept & stopped & ->). done.
Qed.

Lemma add_address_ok id e target max :
  valid_entry e -> (max <= length target)%nat ->
  GNUNET_HELLO_add_address (entry_address id e) (mk_abs (e_exp e)) target max
  = Ret (if (length (encode_entry e) <=? max)%nat
         then (encode_entry e ++ drop (length (encode_entry e)) target, length (encode_entry e))
         else (target, 0%nat)).
Proof.
  intros (Hn & Ha & Hl & He) Hmax. rewrite length_encode_entry.
  unfold GNUNET_HELLO_add_address, address_length, entry_address.
  cbn [transport_name address abs_value].
  destruct (max <? _)%nat eqn:E.
  { apply Nat.ltb_lt in E. by rewrite (proj2 (Nat.leb_gt _ _)) by lia. }
  apply Nat.ltb_ge in E. rewrite (proj2 (Nat.leb_le _ _)) by lia.
  set (n := length (e_name e)) in *. set (k := length (e_addr e)) in *.
  assert (Hw : forall (pre data t : list Z) off,
    off = length pre -> (length pre + length data <= length t)%nat ->
    mem_write (pre ++ drop off t) off data
    = Ret ((pre ++ data) ++ drop (off + length data) t)).
  { intros pre data t off -> Hle. rewrite mem_write_ok by (rewrite length_app, length_drop; lia).
    rewrite take_app_length, drop_app_ge, drop_drop by lia.
    rewrite <- app_assoc. do 4 f_equal. lia. }
  assert (H1 := Hw [] (e_name e ++ [0]) target 0%nat eq_refl).
  rewrite length_app in H1. cbn [app length] in H1. rewrite drop_0 in H1. fold n in H1.
  rewrite H1 by lia. cbn [mbind outcome_bind]. rewrite Nat.add_1_r.
  rewrite u16_small by int_lia.
  rewrite (Hw (e_name e ++ [0])), length_be_encode
    by (rewrite ?length_app, ?length_be_encode; cbn [length]; lia). cbn [mbind outcome_bind].
  rewrite (Hw ((e_name e ++ [0]) ++ _)), length_be_encode
    by (rewrite ?length_app, ?length_be_encode; cbn [length]; lia). cbn [mbind outcome_bind].
  rewrite (Hw (((e_name e ++ [0]) ++ _) ++ _))
    by (rewrite ?length_app, ?length_be_encode; cbn [length]; lia). cbn [mbind outcome_bind].
  fold k. unfold encode_entry. rewrite <- !app_assoc. fold k.
  replace (Datatypes.S n + 2 + 8 + k)%nat with (n + 11 + k)%nat by lia. done.
Qed.

(** ** Creating a HELLO from its addresses *)

Lemma get_key_parts m pk es bad :
  hello_parts m pk es bad -> GNUNET_HELLO_get_key m = Ret (Some pk).
Proof.
  intros Hp. destruct (hello_header _ _ _ _ Hp) as [Hs Hk].
  destruct Hp as (_ & _ & Hsz & _). unfold sizeof_hello in Hsz.
  unfold GNUNET_HELLO_size in Hs. unfold GNUNET_HELLO_get_key.
  destruct (mem_read m 0 4) as [f | | ]; cbn [mbind outcome_bind] in *; [ | done | done ].
  destruct (_ || _); [ | by rewrite Hk ]. injection Hs as Hs. lia.
Qed.

(** An [addrgen] that adds one address per call. *)
Definition next_address (l : list (GNUNET_HELLO_Address * GNUNET_TIME_Absolute)) (max : nat)
  (buf : list Z) : outcome (list (GNUNET_HELLO_Address * GNUNET_TIME_Absolute) * list Z * nat) :=
  match l with
  | [] => Ret ([], buf, 0%nat)
  | (a, expiration) :: l' =>
      '(buf', n) ← GNUNET_HELLO_add_address a expiration buf max; Ret (l', buf', n)
  end.

Definition addresses_of (id : GNUNET_HashCode) (es : list entry)
  : list (GNUNET_HELLO_Address * GNUNET_TIME_Absolute) :=
  (fun e => (entry_address id e, mk_abs (e_exp e))) <$> es.

(** An iterator that collects what it is called with. *)
Definition collect_addresses (l : list (GNUNET_HELLO_Address * GNUNET_TIME_Absolute))
  (a : GNUNET_HELLO_Address) (t : GNUNET_TIME_Absolute)
  : outcome (list (GNUNET_HELLO_Address * GNUNET_TIME_Absolute) * Z) :=
  Ret (l ++ [(a, t)], GNUNET_OK).

Lemma collect_visit id es l :
  visit collect_addresses id l es = Ret (l ++ addresses_of id es, es, false).
Proof.
  revert l. induction es as [|e es IH]; intros l; cbn [visit collect_addresses mbind outcome_bind].
  - by rewrite app_nil_r.
  - change (GNUNET_OK =? GNUNET_SYSERR) with false. cbv iota.
    rewrite IH. cbn [mbind outcome_bind]. by rewrite <- app_assoc.
Qed.

Lemma create_loop_addresses fuel id es max rest used :
  Forall valid_entry es -> (length (encode_entries es) <= max)%nat -> (max <= length rest)%nat ->
  (length es < fuel)%nat ->
  create_loop fuel next_address (addresses_of id es) max rest used
  = Ret (used ++ encode_entries es).
Proof.
  revert es max rest used. induction fuel as [|fuel IH]; intros es max rest used Hes Hmax Hr Hf;
    [ lia | ].
  destruct es as [|e es]; cbn [create_loop addresses_of next_address fmap list_fmap].
  - cbn. by rewrite app_nil_r.
  - inversion Hes as [|? ? He Hes']; subst. cbn [flat_map length] in *. rewrite length_app in Hmax.
    pose proof (length_encode_entry e) as Hle.
    rewrite add_address_ok by done. cbn [mbind outcome_bind].
    rewrite (proj2 (Nat.leb_le _ _)) by lia. cbn [mbind outcome_bind].
    destruct (_ =? 0)%nat eqn:E0; [ apply Nat.eqb_eq in E0; lia | clear E0 ].
    destruct (max <? _)%nat eqn:E0; [ apply Nat.ltb_lt in E0; lia | clear E0 ].
    rewrite drop_app_length, take_app_length. fold (addresses_of id es).
    rewrite IH; [ by rewrite app_assoc | done | lia | rewrite length_drop; lia | lia ].
Qed.

Lemma create_buffer_value : Z.of_nat create_buffer = 65007.
Proof. unfold create_buffer, sizeof_hello, GNUNET_SERVER_MAX_MESSAGE_SIZE. lia. Qed.

Lemma created_parts pk es :
  is_bytes pk -> length pk = sizeof_key -> Forall valid_entry es ->
  (length (encode_entries es) <= create_buffer)%nat ->
  hello_parts (wire_encode (mk_header (u16 (Z.of_nat (sizeof_hello + length (encode_entries es))))
                 GNUNET_MESSAGE_TYPE_HELLO) ++ [0; 0; 0; 0] ++ pk ++ encode_entries es) pk es [].
Proof.
  intros Hpk Hlpk Hes Hlen.
  assert (Hsz : Z.of_nat (sizeof_hello + length (encode_entries es)) < 2 ^ 16).
  { pose proof create_buffer_value. unfold sizeof_hello. lia. }
  rewrite u16_small by (unfold is_u16; lia).
  set (h := mk_header _ _). assert (Hv : wire_valid h).
  { split; cbn [mh_size mh_type h]; unfold is_u16, GNUNET_MESSAGE_TYPE_HELLO; lia. }
  unfold hello_parts, msg_size. rewrite wire_roundtrip by done. rewrite !app_nil_r.
  split_and!; try done.
  - rewrite !is_bytes_app. split_and!;
      [ apply wire_bytes | repeat constructor; unfold is_u8; lia | done | by apply encode_entries_bytes ].
  - apply no_entry_nil.
  - exists (wire_encode h ++ [0; 0; 0; 0]), []. rewrite app_nil_r, <- app_assoc. done.
Qed.

(** create with an address generator that adds one address per call
    builds a well-formed HELLO from which get_key returns the key and
    iterate_addresses the addresses with their expirations, in order, as long
    as they fit the buffer. *)
Theorem hello_create_roundtrip (hash : list Z -> GNUNET_HashCode) (stack pk : list Z)
  (id : GNUNET_HashCode) (es : list entry) :
  length stack = create_buffer -> is_bytes pk -> length pk = sizeof_key ->
  Forall valid_entry es -> (length (encode_entries es) <= create_buffer)%nat ->
  exists h, GNUNET_HELLO_create stack pk (Some next_address) (addresses_of id es) = Ret h
    /\ hello_parts h pk es []
    /\ GNUNET_HELLO_get_key h = Ret (Some pk)
    /\ GNUNET_HELLO_iterate_addresses hash h false collect_addresses []
       = Ret (addresses_of (hash pk) es, None).
Proof.
  intros Hst Hpk Hlpk Hes Hlen.
  assert (Hcount : forall l, (length l <= length (encode_entries l))%nat).
  { clear. induction l as [|e l IH]; cbn [flat_map length]; [ lia | ].
    rewrite length_app, length_encode_entry. lia. }
  pose proof (created_parts pk es Hpk Hlpk Hes Hlen) as Hp. eexists. split; [ | split; [ exact Hp | split ] ].
  - unfold GNUNET_HELLO_create. rewrite create_loop_addresses; [ done | done | done | lia | ].
    specialize (Hcount es). lia.
  - by eapply get_key_parts.
  - rewrite (iterate_addresses_visit hash _ _ _ _ _ _ _ Hp). by rewrite collect_visit.
Qed.

Lemma hello_create_roundtrip_witness :
  let es := [mk_hello_entry [116; 99; 112] [1; 2; 3; 4] 5000; mk_hello_entry [117] [] 0] in
  exists h, GNUNET_HELLO_create (replicate create_buffer 0) (replicate sizeof_key 9)
              (Some next_address) (addresses_of [] es) = Ret h
    /\ hello_parts h (replicate sizeof_key 9) es [].
Proof.
  intros es.
  destruct (hello_create_roundtrip (fun _ => []) (replicate create_buffer 0)
              (replicate sizeof_key 9) [] es) as (h & H1 & H2 & _).
  - apply length_replicate.
  - apply Forall_replicate. unfold is_u8. lia.
  - apply length_replicate.
  - repeat constructor; unfold is_u8, is_u64; cbn; lia.
  - apply Nat2Z.inj_le. rewrite create_buffer_value. cbn. lia.
  - exists h. split; [ exact H1 | exact H2 ].
Defined.

(** ** Merging two HELLOs *)

(** Whether the merge takes [e], given the entries of the other HELLO. *)
Definition newer (take_equal : bool) (other : list entry) (e : entry) : bool :=
  match lookup_entry e other with
  | None => true
  | Some e' => (e_exp e' <? e_exp e) || ((e_exp e' =? e_exp e) && take_equal)
  end.

Definition merged (es1 es2 : list entry) : list entry :=
  List.filter (newer false es2) es1 ++ List.filter (newer true es1) es2.

Section Merge.
Context (hash : list Z -> GNUNET_HashCode).

(** [copy_latest] on one entry *)
Lemma copy_latest_entry h1 h2 other pko eso bado D R max te id e :
  hello_parts other pko eso bado -> valid_entry e ->
  (max <= length D + length R)%nat -> (length D + length (encode_entry e) <= max)%nat ->
  copy_latest hash (mk_merge h1 h2 other (D ++ R) max (length D) te) (entry_address id e)
    (mk_abs (e_exp e))
  = Ret (if newer te eso e
         then mk_merge h1 h2 other ((D ++ encode_entry e) ++ drop (length (encode_entry e)) R) max
                (length (D ++ encode_entry e)) te
         else mk_merge h1 h2 other (D ++ R) max (length D) te, GNUNET_OK).
Proof.
  intros Hp He Hmax Hfit. unfold copy_latest. cbn [mc_other mc_h1 mc_h2 mc_buf mc_max mc_ret mc_take_equal].
  rewrite (lookup_address hash _ _ _ _ id e Hp). cbn [mbind outcome_bind].
  rewrite drop_app_length, take_app_length.
  assert (Hadd : forall (X : outcome (MergeContext * Z)) (b : bool),
    b = newer te eso e -> X = Ret (mk_merge h1 h2 other (D ++ R) max (length D) te, GNUNET_OK) ->
    (if b then '(rest, n) ← GNUNET_HELLO_add_address (entry_address id e) (mk_abs (e_exp e)) R
                              (max - length D);
               Ret (mk_merge h1 h2 other (D ++ rest) max (length D + n) te, GNUNET_OK)
     else X)
    = Ret (if newer te eso e
         then mk_merge h1 h2 other ((D ++ encode_entry e) ++ drop (length (encode_entry e)) R) max
                (length (D ++ encode_entry e)) te
         else mk_merge h1 h2 other (D ++ R) max (length D) te, GNUNET_OK)).
  { intros X b -> ->. destruct (newer te eso e); [ | done ].
    rewrite add_address_ok by (done || lia). rewrite (proj2 (Nat.leb_le _ _)) by lia.
    cbn [mbind outcome_bind]. by rewrite <- app_assoc, length_app. }
  apply Hadd; [ | done ].
  unfold newer. destruct (lookup_entry e eso) as [e'|]; done.
Qed.

(** One of the two passes of [merge_addr] *)
Lemma copy_latest_visit h1 h2 other pko eso bado max te id es D R :
  hello_parts other pko eso bado -> Forall valid_entry es ->
  (max <= length D + length R)%nat -> (length D + length (encode_entries es) <= max)%nat ->
  visit (copy_latest hash) id (mk_merge h1 h2 other (D ++ R) max (length D) te) es
  = let D' := D ++ encode_entries (List.filter (newer te eso) es) in
    Ret (mk_merge h1 h2 other (D' ++ drop (length D' - length D) R) max (length D') te,
         es, false).
Proof.
  intros Hp. revert D R. induction es as [|e es IH]; intros D R Hes Hmax Hfit.
  { cbn [visit List.filter flat_map]. cbv zeta. by rewrite app_nil_r, Nat.sub_diag, drop_0. }
  inversion Hes as [|? ? He Hes']; subst. cbn [flat_map] in Hfit. rewrite length_app in Hfit.
  cbn [visit]. rewrite (copy_latest_entry h1 h2 other pko eso bado) by (done || lia).
  cbn [mbind outcome_bind]. change (GNUNET_OK =? GNUNET_SYSERR) with false. cbv iota.
  cbn [List.filter]. destruct (newer te eso e).
  - rewrite IH; [ | done | rewrite length_app, length_drop; lia | rewrite length_app; lia ].
    cbv zeta. cbn [mbind outcome_bind flat_map].
    change (GNUNET_OK =? GNUNET_OK) with true. cbv iota.
    rewrite app_assoc, drop_drop. do 5 f_equal. rewrite !length_app. f_equal. lia.
  - rewrite IH by (done || lia). cbn [mbind outcome_bind].
    change (GNUNET_OK =? GNUNET_OK) with true. done.
Qed.

Lemma filter_length_le f es :
  (length (encode_entries (List.filter f es)) <= length (encode_entries es))%nat.
Proof.
  induction es as [|e es IH]; [ done | ]. cbn [List.filter flat_map].
  destruct (f e); cbn [flat_map]; rewrite !length_app; lia.
Qed.

Lemma filter_valid f es : Forall valid_entry es -> Forall valid_entry (List.filter f es).
Proof.
  induction 1 as [|e es He Hes IH]; [ constructor | ]. cbn [List.filter].
  destruct (f e); [ by constructor | done ].
Qed.

Lemma merge_addr_ok h1 pk1 es1 bad1 h2 pk2 es2 bad2 stack max :
  hello_parts h1 pk1 es1 bad1 -> hello_parts h2 pk2 es2 bad2 ->
  length stack = max -> (length (encode_entries es1) + length (encode_entries es2) <= max)%nat ->
  exists mc rest, merge_addr hash (mk_merge (Some h1) h2 [] [] 0 0 false) max stack
    = Ret (mc, encode_entries (merged es1 es2) ++ rest,
           length (encode_entries (merged es1 es2)))
    /\ mc_h1 mc = None.
Proof.
  intros Hp1 Hp2 Hst Hfit. unfold merge_addr. cbn [mc_h1 mc_h2].
  assert (Hes1 : Forall valid_entry es1) by apply Hp1.
  assert (Hes2 : Forall valid_entry es2) by apply Hp2.
  rewrite (iterate_addresses_visit hash _ _ _ _ _ _ _ Hp1).
  pose proof (copy_latest_visit (Some h1) h2 h2 pk2 es2 bad2 max false (hash pk1) es1 [] stack
                Hp2 Hes1) as V1. cbn [app length] in V1. rewrite V1 by lia. clear V1.
  rewrite Nat.sub_0_r. set (D := encode_entries (List.filter (newer false es2) es1)).
  assert (HD : (length D <= length (encode_entries es1))%nat) by apply filter_length_le.
  cbv zeta. cbn [mbind outcome_bind andb]. cbn [mc_h1 mc_h2 mc_buf mc_max mc_ret].
  rewrite (iterate_addresses_visit hash _ _ _ _ _ _ _ Hp2).
  rewrite (copy_latest_visit (Some h1) h2 h1 pk1 es1 bad1 max true (hash pk2) es2 D
                (drop (length D) stack) Hp1 Hes2) by (rewrite ?length_drop; lia).
  cbv zeta. cbn [mbind outcome_bind andb]. cbn [mc_h1 mc_h2 mc_buf mc_max mc_ret mc_other mc_take_equal].
  unfold merged. rewrite flat_map_app. fold D. eauto.
Qed.

(** [addrgen] is called twice at most. *)
Lemma create_loop_merge fuel mc0 max stack W rest mc :
  merge_addr hash mc0 max stack = Ret (mc, W ++ rest, length W) -> mc_h1 mc = None ->
  (length W <= max)%nat -> (2 <= fuel)%nat ->
  create_loop fuel (merge_addr hash) mc0 max stack [] = Ret W.
Proof.
  intros Hm Hmc HW Hf. destruct fuel as [|[|fuel]]; [ lia | lia | ].
  cbn [create_loop]. rewrite Hm. cbn [mbind outcome_bind].
  destruct (Nat.eqb_spec (length W) 0) as [H0|H0].
  { by apply nil_length_inv in H0 as ->. }
  rewrite (proj2 (Nat.ltb_ge _ _)) by lia. cbn [app]. rewrite take_app_length.
  unfold merge_addr. rewrite Hmc. done.
Qed.

Lemma merge_parts h1 pk1 es1 bad1 h2 pk2 es2 bad2 stack :
  hello_parts h1 pk1 es1 bad1 -> hello_parts h2 pk2 es2 bad2 ->
  length stack = create_buffer ->
  (length (encode_entries es1) + length (encode_entries es2) <= create_buffer)%nat ->
  exists h, GNUNET_HELLO_merge hash stack h1 h2 = Ret h
    /\ hello_parts h pk1 (merged es1 es2) [].
Proof.
  intros Hp1 Hp2 Hst Hfit. unfold GNUNET_HELLO_merge.
  rewrite (proj2 (hello_header _ _ _ _ Hp1)). cbn [mbind outcome_bind].
  destruct (merge_addr_ok _ _ _ _ _ _ _ _ stack create_buffer Hp1 Hp2 Hst Hfit)
    as (mc & rest & Hm & Hmc).
  set (W := encode_entries (merged es1 es2)) in *.
  assert (HW : (length W <= create_buffer)%nat).
  { unfold W, merged. rewrite flat_map_app, length_app.
    pose proof (filter_length_le (newer false es2) es1).
    pose proof (filter_length_le (newer true es1) es2). lia. }
  assert (Hpk : is_bytes pk1 /\ length pk1 = sizeof_key).
  { destruct Hp1 as (Hb & _ & _ & Hl & _ & _ & hd & extra & -> & _).
    rewrite !is_bytes_app in Hb. tauto. }
  unfold GNUNET_HELLO_create.
  rewrite (create_loop_merge _ _ create_buffer stack W rest mc Hm Hmc HW)
    by (pose proof create_buffer_value; lia).
  cbn [mbind outcome_bind]. eexists. split; [ reflexivity | ].
  apply created_parts; [ tauto | tauto | | done ].
  apply Forall_app. split; apply filter_valid; [ apply Hp1 | apply Hp2 ].
Qed.

End Merge.

(** *** What the merged entries are *)

Definition entry_key (e : entry) : list Z * list Z := (e_name e, e_addr e).
Definition distinct (es : list entry) : Prop := NoDup (entry_key <$> es).

(** The expiration of the first entry with the address of [e] *)
Definition expiry (e : entry) (es : list entry) : option Z := e_exp <$> lookup_entry e es.

Lemma same_address_key e e' : same_address e e' = true <-> entry_key e = entry_key e'.
Proof. rewrite same_address_spec. unfold entry_key. split; [ intros [-> ->]; done | by intros [= -> ->] ]. Qed.

Lemma lookup_entry_Some e es e' :
  lookup_entry e es = Some e' -> e' ∈ es /\ entry_key e = entry_key e'.
Proof.
  intros H. apply List.find_some in H as [Hin Hs]. rewrite list_elem_of_In. split; [ done | ].
  by apply same_address_key.
Qed.

Lemma lookup_entry_key e e' es :
  entry_key e = entry_key e' -> lookup_entry e es = lookup_entry e' es.
Proof.
  intros Hk. unfold lookup_entry. induction es as [|x es IH]; [ done | ]. cbn [List.find].
  assert (same_address e x = same_address e' x) as ->.
  { apply eq_true_iff_eq. rewrite !same_address_key. by rewrite Hk. }
  destruct (same_address e' x); done.
Qed.

Lemma lookup_entry_in e es : distinct es -> e ∈ es -> lookup_entry e es = Some e.
Proof.
  intros Hd Hin. induction es as [|x es IH]; [ by apply elem_of_nil in Hin | ].
  unfold distinct in *. rewrite fmap_cons in Hd. apply NoDup_cons in Hd as [Hx Hd].
  unfold lookup_entry in *. cbn [List.find]. apply elem_of_cons in Hin as [<-|Hin].
  - by rewrite (proj2 (same_address_key e e)).
  - destruct (same_address e x) eqn:E; [ | by apply IH ].
    apply same_address_key in E. destruct Hx. rewrite <- E. by apply list_elem_of_fmap_2.
Qed.

Lemma lookup_entry_app e es1 es2 :
  lookup_entry e (es1 ++ es2) = match lookup_entry e es1 with
                                | Some x => Some x
                                | None => lookup_entry e es2
                                end.
Proof.
  unfold lookup_entry. induction es1 as [|x es1 IH]; [ done | ]. cbn [app List.find].
  by destruct (same_address e x).
Qed.

Lemma lookup_entry_filter f e es :
  distinct es ->
  lookup_entry e (List.filter f es)
  = match lookup_entry e es with Some x => if f x then Some x else None | None => None end.
Proof.
  intros Hd. induction es as [|x es IH]; [ done | ].
  unfold distinct in *. rewrite fmap_cons in Hd. apply NoDup_cons in Hd as [Hx Hd].
  specialize (IH Hd). unfold lookup_entry in *. cbn [List.filter List.find].
  destruct (same_address e x) eqn:E; destruct (f x) eqn:Ef; cbn [List.find]; rewrite ?E, ?Ef; try done.
  rewrite IH. destruct (find (same_address e) es) as [y|] eqn:Ey; [ | done ].
  apply lookup_entry_Some in Ey as [Hin Hk]. destruct Hx.
  apply same_address_key in E. rewrite <- E, Hk. by apply list_elem_of_fmap_2.
Qed.

Lemma distinct_filter f es : distinct es -> distinct (List.filter f es).
Proof.
  unfold distinct. induction es as [|x es IH]; [ done | ]. rewrite fmap_cons.
  intros [Hx Hd]%NoDup_cons. cbn [List.filter]. destruct (f x); [ | by apply IH ].
  rewrite fmap_cons. apply NoDup_cons. split; [ | by apply IH ].
  intros (y & Hy & Hin)%list_elem_of_fmap. apply Hx. apply list_elem_of_fmap.
  exists y. split; [ done | ]. apply list_elem_of_In, List.filter_In in Hin as [Hin _].
  by apply list_elem_of_In.
Qed.

Lemma merged_distinct es1 es2 : distinct es1 -> distinct es2 -> distinct (merged es1 es2).
Proof.
  intros H1 H2. unfold merged, distinct. rewrite fmap_app. apply NoDup_app.
  split_and!; [ by apply distinct_filter | | by apply distinct_filter ].
  intros k (x & -> & Hx)%list_elem_of_fmap (y & Hk & Hy)%list_elem_of_fmap.
  apply list_elem_of_In, List.filter_In in Hx as [Hx Nx].
  apply list_elem_of_In, List.filter_In in Hy as [Hy Ny].
  apply list_elem_of_In in Hx, Hy.
  unfold newer in Nx, Ny.
  rewrite (lookup_entry_key x y), (lookup_entry_in y) in Nx by done.
  rewrite (lookup_entry_key y x), (lookup_entry_in x) in Ny by done.
  rewrite orb_true_iff, andb_true_iff in Nx, Ny. lia.
Qed.

Lemma merged_expiry es1 es2 e :
  distinct es1 -> distinct es2 ->
  expiry e (merged es1 es2)
  = union_with (fun x y => Some (Z.max x y)) (expiry e es1) (expiry e es2).
Proof.
  intros H1 H2. unfold expiry, merged. rewrite lookup_entry_app, !lookup_entry_filter by done.
  destruct (lookup_entry e es1) as [x|] eqn:E1; destruct (lookup_entry e es2) as [y|] eqn:E2; cbn.
  - destruct (lookup_entry_Some _ _ _ E1) as [_ K1]. destruct (lookup_entry_Some _ _ _ E2) as [_ K2].
    unfold newer. rewrite <- (lookup_entry_key e x), <- (lookup_entry_key e y) by done.
    rewrite E1, E2, andb_false_r, orb_false_r, andb_true_r.
    destruct (Z.ltb_spec (e_exp y) (e_exp x)); cbn; [ f_equal; lia | ].
    destruct (_ || _) eqn:E; cbn; [ f_equal; lia | ]. apply orb_false_iff in E. lia.
  - destruct (lookup_entry_Some _ _ _ E1) as [_ K1].
    unfold newer. rewrite <- (lookup_entry_key e x), E2 by done. done.
  - destruct (lookup_entry_Some _ _ _ E2) as [_ K2].
    unfold newer. rewrite <- (lookup_entry_key e y), E1 by done. done.
  - done.
Qed.

(** Merging two HELLOs that fit the buffer succeeds and gives a well-
    formed HELLO with the key of the first; when each has distinct addresses,
    so has the result, and every address of either appears in it with the
    later of its expirations. *)
Theorem hello_merge_spec (hash : list Z -> GNUNET_HashCode) (stack h1 h2 pk1 pk2 : list Z)
  (es1 es2 : list entry) (bad1 bad2 : list Z) :
  hello_parts h1 pk1 es1 bad1 -> hello_parts h2 pk2 es2 bad2 ->
  length stack = create_buffer ->
  (length (encode_entries es1) + length (encode_entries es2) <= create_buffer)%nat ->
  exists h es, GNUNET_HELLO_merge hash stack h1 h2 = Ret h /\ hello_parts h pk1 es []
    /\ (distinct es1 -> distinct es2 -> distinct es
        /\ forall e, expiry e es
             = union_with (fun x y => Some (Z.max x y)) (expiry e es1) (expiry e es2)).
Proof.
  intros Hp1 Hp2 Hst Hfit.
  destruct (merge_parts hash _ _ _ _ _ _ _ _ stack Hp1 Hp2 Hst Hfit) as (h & Hm & Hp).
  exists h, (merged es1 es2). split_and!; [ done | done | ].
  intros H1 H2. split; [ by apply merged_distinct | ]. intros e. by apply merged_expiry.
Qed.

Lemma hello_merge_spec_witness :
  let h1 := wire_encode (mk_header (u16 (Z.of_nat (sizeof_hello
              + length (encode_entries [mk_hello_entry [116] [1] 10])))) 16)
            ++ [0; 0; 0; 0] ++ replicate sizeof_key 9
            ++ encode_entries [mk_hello_entry [116] [1] 10] in
  exists h es, GNUNET_HELLO_merge (fun _ => []) (replicate create_buffer 0) h1 h1 = Ret h
    /\ hello_parts h (replicate sizeof_key 9) es [].
Proof.
  intros h1.
  assert (Hv : Forall valid_entry [mk_hello_entry [116] [1] 10])
    by (repeat constructor; unfold is_u8, is_u64; cbn; lia).
  assert (Hp : hello_parts h1 (replicate sizeof_key 9) [mk_hello_entry [116] [1] 10] []).
  { apply created_parts; [ apply Forall_replicate; unfold is_u8; lia | apply length_replicate
                         | exact Hv | ].
    apply Nat2Z.inj_le. rewrite create_buffer_value. cbn. lia. }
  destruct (hello_merge_spec (fun _ => []) (replicate create_buffer 0) h1 h1 _ _ _ _ _ _ Hp Hp)
    as (h & es & H1 & H2 & _).
  - apply length_replicate.
  - apply Nat2Z.inj_le. rewrite create_buffer_value. cbn. lia.
  - exists h, es. split; [ exact H1 | exact H2 ].
Defined.

(** ** Addresses that are new *)

(** Whether [old] already has the address of [e], with a later expiration or one
    that is not before [limit]. *)
Definition known (limit : Z) (old : list entry) (e : entry) : bool :=
  match lookup_entry e old with
  | None => false
  | Some e' => (e_exp e <? e_exp e') || (limit <=? e_exp e')
  end.

Lemma delta_visit (hash : list Z -> GNUNET_HashCode) {S : Type}
  (it : S -> GNUNET_HELLO_Address -> GNUNET_TIME_Absolute -> outcome (S * Z))
  limit old pko eso bado id es (s : S) :
  hello_parts old pko eso bado ->
  ('(s', _, _) ← visit (delta_match hash (mk_abs limit) old it) id s es; Ret s')
  = ('(s', _, _) ← visit it id s (List.filter (fun e => negb (known limit eso e)) es); Ret s').
Proof.
  intros Hp. revert s. induction es as [|e es IH]; intros s; [ done | ].
  cbn [visit List.filter].
  assert (Hd : delta_match hash (mk_abs limit) old it s (entry_address id e) (mk_abs (e_exp e))
               = if known limit eso e then Ret (s, GNUNET_YES)
                 else it s (entry_address id e) (mk_abs (e_exp e))).
  { unfold delta_match, known. rewrite (lookup_address hash _ _ _ _ id e Hp).
    cbn [mbind outcome_bind]. by destruct (lookup_entry e eso). }
  rewrite Hd. destruct (known limit eso e); cbn [negb mbind outcome_bind].
  - change (GNUNET_YES =? GNUNET_SYSERR) with false. cbv iota. rewrite <- IH.
    by destruct (visit _ id s es) as [[[? ?] ?] | | ].
  - cbn [visit]. destruct (it s _ _) as [[s' r] | | ]; cbn [mbind outcome_bind]; [ | done | done ].
    destruct (r =? GNUNET_SYSERR); [ done | ]. specialize (IH s').
    destruct (visit _ id s' es) as [[[? ?] ?] | | ];
      destruct (visit it id s' _) as [[[? ?] ?] | | ]; cbn [mbind outcome_bind] in *; congruence.
Qed.

(** iterate_new_addresses calls the iterator on exactly the entries of
    the new HELLO that the old one does not have with a later expiration or
    one not before the limit, in order and until the iterator stops. *)
Theorem hello_new_addresses_spec (hash : list Z -> GNUNET_HashCode) {S : Type}
  (it : S -> GNUNET_HELLO_Address -> GNUNET_TIME_Absolute -> outcome (S * Z)) (s : S)
  (new_hello old_hello pk pko : list Z) (es eso : list entry) (bad bado : list Z) (limit : Z) :
  hello_parts new_hello pk es bad -> hello_parts old_hello pko eso bado ->
  GNUNET_HELLO_iterate_new_addresses hash new_hello old_hello (mk_abs limit) it s
  = ('(s', _, _) ← visit it (hash pk) s (List.filter (fun e => negb (known limit eso e)) es);
     Ret s').
Proof.
  intros Hn Ho. unfold GNUNET_HELLO_iterate_new_addresses.
  rewrite (iterate_addresses_visit hash _ _ _ _ _ _ _ Hn).
  rewrite <- (delta_visit hash it limit old_hello pko eso bado (hash pk) es s Ho).
  by destruct (visit _ (hash pk) s es) as [[[? ?] ?] | | ].
Qed.

Lemma hello_new_addresses_spec_witness :
  let e := mk_hello_entry [116] [1] 10 in
  let h := wire_encode (mk_header (u16 (Z.of_nat (sizeof_hello + length (encode_entries [e])))) 16)
           ++ [0; 0; 0; 0] ++ replicate sizeof_key 9 ++ encode_entries [e] in
  GNUNET_HELLO_iterate_new_addresses (fun _ => []) h h (mk_abs 5) collect_addresses [] = Ret [].
Proof.
  intros e h.
  assert (Hp : hello_parts h (replicate sizeof_key 9) [e] []).
  { apply created_parts; [ apply Forall_replicate; unfold is_u8; lia | apply length_replicate
                         | repeat constructor; unfold is_u8, is_u64; cbn; lia | ].
    apply Nat2Z.inj_le. rewrite create_buffer_value. cbn. lia. }
  rewrite (hello_new_addresses_spec (fun _ => []) collect_addresses [] h h _ _ _ _ _ _ 5 Hp Hp).
  reflexivity.
Defined.

(** ** Comparing two HELLOs *)

(** The entries that have not expired *)
Definition live (now : Z) (es : list entry) : list entry :=
  List.filter (fun e => now <=? e_exp e) es.

(** Every live address of [es] is a live address of [other]. *)
Definition covered (now : Z) (es other : list entry) : bool :=
  forallb (fun e => match lookup_entry e (live now other) with Some _ => true | None => false end)
    (live now es).

(** The expirations of [other] that are below those of [es] *)
Definition lower (now : Z) (es other : list entry) : list Z :=
  flat_map (fun e => match lookup_entry e (live now other) with
                     | Some e' => if e_exp e' <? e_exp e then [e_exp e'] else []
                     | None => []
                     end) (live now es).

Lemma foldr_min_comm x r l : foldr Z.min (Z.min x r) l = Z.min x (foldr Z.min r l).
Proof. induction l as [|y l IH]; cbn [foldr]; [ done | ]. rewrite IH. lia. Qed.

Section Equals.
Context (hash : list Z -> GNUNET_HashCode).

Lemma find_other_visit now r h id' id e eso :
  exists kept stopped,
    visit find_other_matching id'
      (mk_eq (mk_abs now) (mk_abs r) h (entry_address id e) (mk_abs (e_exp e)) false) eso
    = Ret (match lookup_entry e (live now eso) with
           | Some e' => mk_eq (mk_abs now) (mk_abs (if e_exp e' <? e_exp e then Z.min (e_exp e') r else r))
                          h (entry_address id e) (mk_abs (e_exp e)) true
           | None => mk_eq (mk_abs now) (mk_abs r) h (entry_address id e) (mk_abs (e_exp e)) false
           end, kept, stopped).
Proof.
  induction eso as [|e' eso (kept & stopped & IH)]; [ cbn; eauto | ].
  cbn [visit live List.filter].
  set (ec := mk_eq _ _ _ _ _ _) in *.
  assert (Hf : find_other_matching ec (entry_address id' e') (mk_abs (e_exp e'))
               = if (e_exp e' <? now) then Ret (ec, GNUNET_YES)
                 else if same_address e e'
                 then Ret (mk_eq (mk_abs now)
                             (mk_abs (if e_exp e' <? e_exp e then Z.min (e_exp e') r else r)) h
                             (entry_address id e) (mk_abs (e_exp e)) true, GNUNET_SYSERR)
                 else Ret (ec, GNUNET_YES)).
  { unfold find_other_matching, ec.
    cbn [eq_limit eq_address eq_expiration eq_result eq_h2 abs_value].
    rewrite address_cmp_same. destruct (e_exp e' <? now); [ done | ].
    destruct (same_address e e'); [ | done ]. destruct (e_exp e' <? e_exp e); [ | done ].
    unfold GNUNET_TIME_absolute_min. cbn [abs_value].
    do 3 f_equal. destruct (Z.ltb_spec (e_exp e') r); do 2 f_equal; lia. }
  rewrite Hf. rewrite Z.leb_antisym. destruct (e_exp e' <? now); cbn [negb].
  - cbn [mbind outcome_bind]. change (GNUNET_YES =? GNUNET_SYSERR) with false. cbv iota.
    rewrite IH. cbn [mbind outcome_bind]. eauto.
  - unfold lookup_entry. cbn [List.find]. destruct (same_address e e'); cbn [mbind outcome_bind].
    + change (GNUNET_SYSERR =? GNUNET_SYSERR) with true. cbv iota. eauto.
    + change (GNUNET_YES =? GNUNET_SYSERR) with false. cbv iota.
      rewrite IH. cbn [mbind outcome_bind]. eauto.
Qed.

(** One pass of [GNUNET_HELLO_equals] over the entries of one HELLO *)
Lemma find_matching_visit now r h pkh eso bado id a0 t0 f0 es :
  hello_parts h pkh eso bado ->
  exists a t f kept stopped,
    visit (find_matching hash) id (mk_eq (mk_abs now) (mk_abs r) h a0 t0 f0) es
    = Ret (mk_eq (mk_abs now)
             (mk_abs (if covered now es eso then foldr Z.min r (lower now es eso) else 0))
             h a t f, kept, stopped).
Proof.
  intros Hp. revert r a0 t0 f0. induction es as [|e es IH]; intros r a0 t0 f0; [ cbn; eauto 10 | ].
  cbn [visit].
  assert (Hf : find_matching hash (mk_eq (mk_abs now) (mk_abs r) h a0 t0 f0) (entry_address id e)
                 (mk_abs (e_exp e))
               = if e_exp e <? now
                 then Ret (mk_eq (mk_abs now) (mk_abs r) h a0 t0 f0, GNUNET_YES)
                 else match lookup_entry e (live now eso) with
                      | Some e' => Ret (mk_eq (mk_abs now)
                             (mk_abs (if e_exp e' <? e_exp e then Z.min (e_exp e') r else r)) h
                             (entry_address id e) (mk_abs (e_exp e)) true, GNUNET_OK)
                      | None => Ret (mk_eq (mk_abs now) (mk_abs 0) h (entry_address id e)
                             (mk_abs (e_exp e)) false, GNUNET_SYSERR)
                      end).
  { unfold find_matching. cbn [eq_limit eq_result eq_h2 abs_value].
    destruct (e_exp e <? now); [ done | ].
    rewrite (iterate_addresses_visit hash _ _ _ _ _ _ _ Hp).
    destruct (find_other_visit now r h (hash pkh) id e eso) as (kept & stopped & ->).
    cbn [mbind outcome_bind]. by destruct (lookup_entry e (live now eso)). }
  rewrite Hf. unfold covered, lower. cbn [live List.filter]. rewrite Z.leb_antisym.
  destruct (e_exp e <? now); cbn [negb mbind outcome_bind].
  - change (GNUNET_YES =? GNUNET_SYSERR) with false. cbv iota.
    destruct (IH r a0 t0 f0) as (a & t & f & kept & stopped & ->). cbn [mbind outcome_bind]. eauto 10.
  - cbn [forallb flat_map]. destruct (lookup_entry e (live now eso)) as [e'|]; cbn [mbind outcome_bind].
    + change (GNUNET_OK =? GNUNET_SYSERR) with false. cbv iota.
      edestruct IH as (a & t & f & kept & stopped & ->). cbn [mbind outcome_bind andb].
      do 5 eexists. unfold covered, lower. do 5 f_equal.
      destruct (forallb _ _); [ | done ].
      destruct (e_exp e' <? e_exp e); cbn [app foldr]; [ | done ]. by rewrite foldr_min_comm.
    + change (GNUNET_SYSERR =? GNUNET_SYSERR) with true. cbv iota. eauto 10.
Qed.

End Equals.

Lemma foldr_min_zero l : Forall (fun x => 0 <= x) l -> foldr Z.min 0 l = 0.
Proof. induction 1 as [|x l Hx Hl IH]; cbn [foldr]; lia. Qed.

Lemma live_in now es e : e ∈ live now es <-> e ∈ es /\ now <= e_exp e.
Proof.
  unfold live. rewrite !list_elem_of_In, List.filter_In. split; intros [H1 H2]; split; try done; lia.
Qed.

Lemma lower_range now es other x :
  Forall valid_entry es -> Forall valid_entry other -> x ∈ lower now es other ->
  0 <= x < UINT64_MAX.
Proof.
  intros H1 H2 Hx. unfold lower in Hx. rewrite list_elem_of_In, in_flat_map in Hx.
  destruct Hx as (e & He & Hx). apply list_elem_of_In, live_in in He as [He _].
  destruct (lookup_entry e (live now other)) as [e'|] eqn:E; [ | done ].
  apply lookup_entry_Some in E as [[E _]%live_in _].
  rewrite Forall_forall in H1, H2.
  destruct (H1 e He) as (_ & _ & _ & R1). destruct (H2 e' E) as (_ & _ & _ & R2).
  destruct (e_exp e' <? e_exp e) eqn:Elt; cbn in Hx; [ | done ].
  destruct Hx as [<-|[]]. int_lia.
Qed.

(** The comparison as a function of the entries *)
Definition equals_result (now : Z) (es1 es2 : list entry) : Z :=
  if covered now es1 es2 && covered now es2 es1
  then foldr Z.min UINT64_MAX (lower now es2 es1 ++ lower now es1 es2) else 0.

Lemma equals_value hash h1 h2 pk1 pk2 es1 es2 bad1 bad2 now :
  hello_parts h1 pk1 es1 bad1 -> hello_parts h2 pk2 es2 bad2 ->
  GNUNET_HELLO_equals hash h1 h2 (mk_abs now)
  = Ret (mk_abs (if bool_decide (pk1 = pk2) then equals_result now es1 es2 else 0)).
Proof.
  intros Hp1 Hp2. unfold GNUNET_HELLO_equals.
  rewrite (proj2 (hello_header _ _ _ _ Hp1)), (proj2 (hello_header _ _ _ _ Hp2)).
  cbn [mbind outcome_bind]. destruct (bool_decide (pk1 = pk2)); cbn [negb]; [ | done ].
  rewrite (iterate_addresses_visit hash _ _ _ _ _ _ _ Hp1).
  change GNUNET_TIME_UNIT_FOREVER_ABS with (mk_abs UINT64_MAX).
  edestruct (find_matching_visit hash now UINT64_MAX h2 pk2 es2 bad2 (hash pk1)) as
    (a & t & f & kept & stopped & ->); [ exact Hp2 | ].
  cbn [mbind outcome_bind andb eq_result abs_value eq_limit].
  change (rel_value GNUNET_TIME_UNIT_ZERO) with 0.
  set (r1 := if covered now es1 es2 then _ else 0). unfold equals_result.
  assert (Hnn : Forall (fun x => 0 <= x) (lower now es2 es1)).
  { apply Forall_forall. intros x Hx. apply lower_range in Hx; [ lia | apply Hp2 | apply Hp1 ]. }
  destruct (Z.eqb_spec r1 0) as [Hr|Hr].
  - rewrite Hr. do 2 f_equal. unfold r1 in Hr. destruct (covered now es1 es2); [ | done ].
    cbn [andb]. destruct (covered now es2 es1); [ | done ].
    rewrite foldr_app, Hr. symmetry. by apply foldr_min_zero.
  - rewrite (iterate_addresses_visit hash _ _ _ _ _ _ _ Hp2).
    edestruct (find_matching_visit hash now r1 h1 pk1 es1 bad1 (hash pk2)) as
      (a' & t' & f' & kept' & stopped' & ->); [ exact Hp1 | ].
    cbn [mbind outcome_bind andb eq_result]. do 2 f_equal.
    unfold r1 in *. destruct (covered now es1 es2); [ | done ]. cbn [andb].
    by rewrite foldr_app.
Qed.

Lemma foldr_min_max l :
  Forall (fun x => x < UINT64_MAX) l -> foldr Z.min UINT64_MAX l = UINT64_MAX <-> l = [].
Proof.
  destruct 1 as [|x l Hx Hl]; cbn [foldr]; [ done | ]. split; [ lia | done ].
Qed.

Lemma lookup_live_perm now es1 es2 e :
  distinct (live now es2) -> live now es1 ≡ₚ live now es2 -> e ∈ live now es1 ->
  lookup_entry e (live now es2) = Some e.
Proof. intros Hd Hp He. apply lookup_entry_in; [ done | ]. by rewrite <- Hp. Qed.

Lemma covered_perm now es1 es2 :
  distinct (live now es2) -> live now es1 ≡ₚ live now es2 ->
  covered now es1 es2 = true /\ lower now es1 es2 = [].
Proof.
  intros Hd Hp. split.
  - apply forallb_forall. intros e He%list_elem_of_In. by rewrite (lookup_live_perm _ es1) by done.
  - unfold lower.
    assert (H : forall l, (forall e, e ∈ l -> e ∈ live now es1) ->
      flat_map (fun e => match lookup_entry e (live now es2) with
                         | Some e' => if e_exp e' <? e_exp e then [e_exp e'] else []
                         | None => [] end) l = []).
    { induction l as [|e l IH]; intros Hl; [ done | ]. cbn [flat_map].
      rewrite (lookup_live_perm _ es1), Z.ltb_irrefl by (done || (apply Hl; by left)).
      apply IH. intros x Hx. apply Hl. by right. }
    by apply H.
Qed.

Lemma covered_lookup now es other e :
  covered now es other = true -> e ∈ live now es ->
  exists e', lookup_entry e (live now other) = Some e' /\ e' ∈ live now other
    /\ entry_key e = entry_key e' /\ (lower now es other = [] -> e_exp e <= e_exp e').
Proof.
  intros Hc He. unfold covered in Hc. rewrite forallb_forall in Hc.
  specialize (Hc e (proj1 (list_elem_of_In _ _) He)).
  destruct (lookup_entry e (live now other)) as [e'|] eqn:E; [ | done ].
  exists e'. destruct (lookup_entry_Some _ _ _ E) as [Hin Hk]. split_and!; try done.
  intros Hl. destruct (Z.ltb_spec (e_exp e') (e_exp e)) as [Hlt|]; [ | done ].
  assert (Hx : List.In (e_exp e') (lower now es other)).
  { unfold lower. apply in_flat_map. exists e. split; [ by apply list_elem_of_In | ].
    rewrite E. destruct (Z.ltb_spec (e_exp e') (e_exp e)); [ by left | lia ]. }
  by rewrite Hl in Hx.
Qed.

Lemma mutual_inclusion now es1 es2 e :
  covered now es1 es2 = true -> lower now es1 es2 = [] ->
  covered now es2 es1 = true -> lower now es2 es1 = [] -> distinct (live now es1) ->
  e ∈ live now es1 -> e ∈ live now es2.
Proof.
  intros C1 L1 C2 L2 Hd He.
  destruct (covered_lookup _ _ _ _ C1 He) as (e' & _ & Hin & Hk & Hle). specialize (Hle L1).
  destruct (covered_lookup _ _ _ _ C2 Hin) as (e'' & Hl & _ & _ & Hle'). specialize (Hle' L2).
  rewrite (lookup_entry_key e' e), (lookup_entry_in e) in Hl by done. injection Hl as <-.
  assert (e = e') as ->; [ | done ].
  destruct e as [n a x], e' as [n' a' x']. unfold entry_key in Hk. cbn in *. simplify_eq. f_equal. lia.
Qed.

(** equals returns zero for different keys or when an unexpired address
    of one HELLO is not an unexpired address of the other, and otherwise the
    least expiration at which the two differ; for HELLOs with distinct
    addresses it returns FOREVER exactly when they hold the same unexpired
    entries. *)
Theorem hello_equals_spec (hash : list Z -> GNUNET_HashCode) (h1 h2 pk1 pk2 : list Z)
  (es1 es2 : list entry) (bad1 bad2 : list Z) (now : Z) :
  hello_parts h1 pk1 es1 bad1 -> hello_parts h2 pk2 es2 bad2 ->
  GNUNET_HELLO_equals hash h1 h2 (mk_abs now)
  = Ret (mk_abs (if bool_decide (pk1 = pk2) then equals_result now es1 es2 else 0))
  /\ (pk1 = pk2 -> distinct (live now es1) -> distinct (live now es2) ->
      (GNUNET_HELLO_equals hash h1 h2 (mk_abs now) = Ret GNUNET_TIME_UNIT_FOREVER_ABS
       <-> live now es1 ≡ₚ live now es2)).
Proof.
  intros Hp1 Hp2. pose proof (equals_value hash _ _ _ _ _ _ _ _ now Hp1 Hp2) as Hv.
  split; [ exact Hv | ]. intros -> D1 D2. rewrite Hv, bool_decide_eq_true_2 by done.
  unfold equals_result. change GNUNET_TIME_UNIT_FOREVER_ABS with (mk_abs UINT64_MAX).
  assert (Hlow : Forall (fun x => x < UINT64_MAX) (lower now es2 es1 ++ lower now es1 es2)).
  { apply Forall_app. split; apply Forall_forall; intros x Hx;
      apply lower_range in Hx; try lia; (apply Hp1 || apply Hp2). }
  pose proof (foldr_min_max _ Hlow) as Hmm. split.
  - intros [= H]. destruct (covered now es1 es2 && covered now es2 es1) eqn:Hc; [ | done ].
    apply andb_true_iff in Hc as [C1 C2]. apply Hmm in H. apply app_eq_nil in H as [L2 L1].
    apply NoDup_Permutation; [ by eapply NoDup_fmap_1 | by eapply NoDup_fmap_1 | ].
    intros e. split; eapply mutual_inclusion; done.
  - intros Hp. destruct (covered_perm now es1 es2 D2 Hp) as [C1 L1].
    destruct (covered_perm now es2 es1 D1 (Permutation_sym Hp)) as [C2 L2].
    rewrite C1, C2, L1, L2. done.
Qed.

Lemma hello_equals_spec_witness :
  let e := mk_hello_entry [116] [1] 10 in
  let h := wire_encode (mk_header (u16 (Z.of_nat (sizeof_hello + length (encode_entries [e])))) 16)
           ++ [0; 0; 0; 0] ++ replicate sizeof_key 9 ++ encode_entries [e] in
  GNUNET_HELLO_equals (fun _ => []) h h (mk_abs 5) = Ret GNUNET_TIME_UNIT_FOREVER_ABS.
Proof.
  intros e h.
  assert (Hp : hello_parts h (replicate sizeof_key 9) [e] []).
  { apply created_parts; [ apply Forall_replicate; unfold is_u8; lia | apply length_replicate
                         | repeat constructor; unfold is_u8, is_u64; cbn; lia | ].
    apply Nat2Z.inj_le. rewrite create_buffer_value. cbn. lia. }
  destruct (hello_equals_spec (fun _ => []) h h _ _ _ _ _ _ 5 Hp Hp) as [H _].
  rewrite H, bool_decide_eq_true_2 by reflexivity. vm_compute. reflexivity.
Defined.
