(* ===== verification/DhtMessages.v ===== *)
(** * Messages between the DHT services of peers

    The structs [PeerPutMessage], [PeerResultMessage] and [PeerGetMessage] of
    [src/dht/gnunet-service-dht_neighbours.c].  Numbers are in network byte order, but the
    mutator of a GET, which is copied in host order; the key and the identities of peers
    are hash codes as they are in memory.  Paths, extended queries, reply filters and data
    follow the struct. *)

From Stdlib Require Import ZArith Lia.
From stdpp Require Import base list numbers.
From S2P Require Import Prelude Endian Time Hash Messages.
Local Open Scope Z_scope.

Definition DHT_BLOOM_SIZE : Z := 128.

Definition GNUNET_MESSAGE_TYPE_DHT_P2P_PUT : Z := 146.
Definition GNUNET_MESSAGE_TYPE_DHT_P2P_GET : Z := 147.
Definition GNUNET_MESSAGE_TYPE_DHT_P2P_RESULT : Z := 148.

Record PeerPutMessage := mk_put {
  ppm_options : Z;
  ppm_type : Z;
  ppm_hop_count : Z;
  ppm_desired_replication_level : Z;
  ppm_put_path_length : Z;
  ppm_expiration_time : GNUNET_TIME_Absolute;
  ppm_bloomfilter : list Z;
  ppm_key : GNUNET_HashCode
}.

Record PeerResultMessage := mk_result {
  prm_type : Z;
  prm_put_path_length : Z;
  prm_get_path_length : Z;
  prm_expiration_time : GNUNET_TIME_Absolute;
  prm_key : GNUNET_HashCode
}.

Record PeerGetMessage := mk_get {
  pgm_options : Z;
  pgm_type : Z;
  pgm_hop_count : Z;
  pgm_desired_replication_level : Z;
  pgm_xquery_size : Z;
  pgm_bf_mutator : Z;
  pgm_bloomfilter : list Z;
  pgm_key : GNUNET_HashCode
}.

Definition sizeof_put : nat := 224.
Definition sizeof_result : nat := 88.
Definition sizeof_get : nat := 220.
Definition sizeof_peer : nat := 64.

Definition put_widths : list nat := [2; 2; 4; 4; 4; 4; 4; 8]%nat.
Definition result_widths : list nat := [2; 2; 4; 4; 4; 8]%nat.
Definition get_widths : list nat := [2; 2; 4; 4; 4; 4; 4]%nat.

(** The struct with [header.size = htons (msize)] *)
Definition encode_put (msize : Z) (m : PeerPutMessage) : list Z :=
  encode_fields put_widths
    [msize; GNUNET_MESSAGE_TYPE_DHT_P2P_PUT; ppm_options m; ppm_type m; ppm_hop_count m;
     ppm_desired_replication_level m; ppm_put_path_length m; abs_value (ppm_expiration_time m)]
  ++ ppm_bloomfilter m ++ hash_bytes (ppm_key m).

Definition encode_result (msize : Z) (m : PeerResultMessage) : list Z :=
  encode_fields result_widths
    [msize; GNUNET_MESSAGE_TYPE_DHT_P2P_RESULT; prm_type m; prm_put_path_length m;
     prm_get_path_length m; abs_value (prm_expiration_time m)]
  ++ hash_bytes (prm_key m).

Definition encode_get (msize : Z) (m : PeerGetMessage) : list Z :=
  encode_fields get_widths
    [msize; GNUNET_MESSAGE_TYPE_DHT_P2P_GET; pgm_options m; pgm_type m; pgm_hop_count m;
     pgm_desired_replication_level m; pgm_xquery_size m]
  ++ host_bytes 4 (pgm_bf_mutator m) ++ pgm_bloomfilter m ++ hash_bytes (pgm_key m).

Definition decode_put (l : list Z) : PeerPutMessage :=
  match decode_fields put_widths l with
  | [_; _; options; type; hops; level; pathlen; exp] =>
      mk_put options type hops level pathlen (mk_abs exp) (take 128 (drop 32 l))
        (hash_words 16 (drop 160 l))
  | _ => mk_put 0 0 0 0 0 (mk_abs 0) [] []
  end.

Definition decode_result (l : list Z) : PeerResultMessage :=
  match decode_fields result_widths l with
  | [_; _; type; putlen; getlen; exp] =>
      mk_result type putlen getlen (mk_abs exp) (hash_words 16 (drop 24 l))
  | _ => mk_result 0 0 0 (mk_abs 0) []
  end.

Definition decode_get (l : list Z) : PeerGetMessage :=
  match decode_fields get_widths l with
  | [_; _; options; type; hops; level; xqsize] =>
      mk_get options type hops level xqsize (be_decode (rev (take 4 (drop 24 l))))
        (take 128 (drop 28 l)) (hash_words 16 (drop 156 l))
  | _ => mk_get 0 0 0 0 0 0 [] []
  end.

(** An array of peer identities *)
Definition encode_path (path : list GNUNET_HashCode) : list Z := flat_map hash_bytes path.

Fixpoint decode_path (n : nat) (l : list Z) : list GNUNET_HashCode :=
  match n with
  | O => []
  | S n' => hash_words 16 l :: decode_path n' (drop sizeof_peer l)
  end.

(** [n] identities at offset [off] of a message *)
Definition read_path (msg : list Z) (off n : nat) : outcome (list GNUNET_HashCode) :=
  l ← mem_read msg off (n * sizeof_peer);
  Ret (decode_path n l).

(** ** Round trips *)

Record put_ok (m : PeerPutMessage) : Prop := {
  po_options : is_u32 (ppm_options m);
  po_type : is_u32 (ppm_type m);
  po_hops : is_u32 (ppm_hop_count m);
  po_level : is_u32 (ppm_desired_replication_level m);
  po_path : is_u32 (ppm_put_path_length m);
  po_exp : is_abs (ppm_expiration_time m);
  po_bf : length (ppm_bloomfilter m) = 128%nat;
  po_key : is_hash (ppm_key m)
}.

Record get_ok (m : PeerGetMessage) : Prop := {
  go_options : is_u32 (pgm_options m);
  go_type : is_u32 (pgm_type m);
  go_hops : is_u32 (pgm_hop_count m);
  go_level : is_u32 (pgm_desired_replication_level m);
  go_xquery : is_u32 (pgm_xquery_size m);
  go_mutator : is_u32 (pgm_bf_mutator m);
  go_bf : length (pgm_bloomfilter m) = 128%nat;
  go_key : is_hash (pgm_key m)
}.

Record result_ok (m : PeerResultMessage) : Prop := {
  ro_type : is_u32 (prm_type m);
  ro_put : is_u32 (prm_put_path_length m);
  ro_get : is_u32 (prm_get_path_length m);
  ro_exp : is_abs (prm_expiration_time m);
  ro_key : is_hash (prm_key m)
}.

Lemma hash_at (h : GNUNET_HashCode) n l rest :
  is_hash h -> drop n l = hash_bytes h ++ rest -> hash_words 16 (drop n l) = h.
Proof. intros [Hl Hu] ->. rewrite <- Hl. by apply hash_words_bytes. Qed.

Lemma hash_bytes_length h : is_hash h -> length (hash_bytes h) = 64%nat.
Proof. intros [Hl _]. rewrite length_hash_bytes, Hl. done. Qed.

Lemma length_encode_put n m : put_ok m -> length (encode_put n m) = sizeof_put.
Proof.
  intros []. unfold encode_put. rewrite !length_app, po_bf0, hash_bytes_length by done.
  by rewrite length_encode_fields.
Qed.

Lemma length_encode_get n m : get_ok m -> length (encode_get n m) = sizeof_get.
Proof.
  intros []. unfold encode_get. rewrite !length_app, go_bf0, hash_bytes_length by done.
  by rewrite length_encode_fields, length_host_bytes.
Qed.

Lemma length_encode_result n m : result_ok m -> length (encode_result n m) = sizeof_result.
Proof.
  intros []. unfold encode_result. rewrite !length_app, hash_bytes_length by done.
  by rewrite length_encode_fields.
Qed.

Lemma drop_past {A} (a b : list A) n k : length a = n -> drop (n + k) (a ++ b) = drop k b.
Proof. intros <-. apply drop_app_add. Qed.

Ltac p2p_fits :=
  unfold is_abs, GNUNET_MESSAGE_TYPE_DHT_P2P_PUT, GNUNET_MESSAGE_TYPE_DHT_P2P_GET,
    GNUNET_MESSAGE_TYPE_DHT_P2P_RESULT, put_widths, get_widths, result_widths in *;
  cbn [abs_value] in *; fits.

Lemma put_roundtrip n m rest :
  put_ok m -> is_u16 n -> decode_put (encode_put n m ++ rest) = m.
Proof.
  intros Hm Hn. destruct m as [o t h r p [e] bf k]. destruct Hm. cbn in * |-. unfold decode_put.
  unfold encode_put. cbn [ppm_options ppm_type ppm_hop_count ppm_desired_replication_level
    ppm_put_path_length ppm_expiration_time ppm_bloomfilter ppm_key abs_value]. rewrite <- !app_assoc.
  set (f := encode_fields put_widths [n; GNUNET_MESSAGE_TYPE_DHT_P2P_PUT; o; t; h; r; p; e]).
  assert (Hf : length f = 32%nat) by (unfold f; by rewrite length_encode_fields).
  unfold f at 1. rewrite decode_encode_fields by p2p_fits.
  rewrite (drop_past f _ 32 0 Hf), (drop_past f _ 32 128 Hf), drop_0, take_app_length' by done.
  by rewrite (hash_at k 128 _ rest) by (done || by rewrite drop_app_length').
Qed.

Lemma get_roundtrip n m rest :
  get_ok m -> is_u16 n -> decode_get (encode_get n m ++ rest) = m.
Proof.
  intros Hm Hn. destruct m as [o t h r x mu bf k]. destruct Hm. cbn in * |-. unfold decode_get.
  unfold encode_get. cbn [pgm_options pgm_type pgm_hop_count pgm_desired_replication_level
    pgm_xquery_size pgm_bf_mutator pgm_bloomfilter pgm_key]. rewrite <- !app_assoc.
  set (f := encode_fields get_widths [n; GNUNET_MESSAGE_TYPE_DHT_P2P_GET; o; t; h; r; x]).
  assert (Hf : length f = 24%nat) by (unfold f; by rewrite length_encode_fields).
  unfold f at 1. rewrite decode_encode_fields by p2p_fits.
  assert (Hh : length (host_bytes 4 mu) = 4%nat) by apply length_host_bytes.
  rewrite (drop_past f _ 24 0 Hf), (drop_past f _ 24 4 Hf), (drop_past f _ 24 132 Hf), drop_0.
  rewrite (take_app_length' _ _ 4 (eq_sym Hh)), (drop_past _ _ 4 0 Hh), (drop_past _ _ 4 128 Hh), drop_0.
  rewrite take_app_length' by done. rewrite (hash_at k 128 _ rest) by (done || by rewrite drop_app_length').
  f_equal. cbn. unfold u8. rewrite !Z.shiftr_div_pow2 by lia. int_lia.
Qed.

Lemma result_roundtrip n m rest :
  result_ok m -> is_u16 n -> decode_result (encode_result n m ++ rest) = m.
Proof.
  intros Hm Hn. destruct m as [t p g [e] k]. destruct Hm. cbn in * |-. unfold decode_result.
  unfold encode_result. cbn [prm_type prm_put_path_length prm_get_path_length prm_expiration_time
    prm_key abs_value]. rewrite <- !app_assoc.
  set (f := encode_fields result_widths [n; GNUNET_MESSAGE_TYPE_DHT_P2P_RESULT; t; p; g; e]).
  assert (Hf : length f = 24%nat) by (unfold f; by rewrite length_encode_fields).
  unfold f at 1. rewrite decode_encode_fields by p2p_fits.
  by rewrite (hash_at k 24 _ rest) by (done || by rewrite drop_app_length').
Qed.

(** The header announces the size. *)
Lemma msg_size_be n l : is_u16 n -> msg_size (be_encode 2 n ++ l) = n.
Proof.
  intros Hn. change (msg_size (be_encode 2 n ++ l)) with (be_decode (take 2 (be_encode 2 n ++ l))).
  rewrite take_app_length' by (by rewrite length_be_encode). rewrite be_decode_encode, Z.mod_small; [ done | ].
  cbn. unfold_ints. lia.
Qed.

Lemma msg_size_put n m rest : is_u16 n -> msg_size (encode_put n m ++ rest) = n.
Proof. intros Hn. unfold encode_put. cbn [put_widths encode_fields]. rewrite <- !app_assoc. by apply msg_size_be. Qed.

Lemma msg_size_get n m rest : is_u16 n -> msg_size (encode_get n m ++ rest) = n.
Proof. intros Hn. unfold encode_get. cbn [get_widths encode_fields]. rewrite <- !app_assoc. by apply msg_size_be. Qed.

Lemma msg_size_result n m rest : is_u16 n -> msg_size (encode_result n m ++ rest) = n.
Proof. intros Hn. unfold encode_result. cbn [result_widths encode_fields]. rewrite <- !app_assoc. by apply msg_size_be. Qed.

Lemma length_encode_path path :
  Forall is_hash path -> length (encode_path path) = (length path * sizeof_peer)%nat.
Proof.
  induction 1 as [|h path Hh _ IH]; [ done | ]. unfold encode_path in *. cbn [flat_map length].
  rewrite length_app, IH, hash_bytes_length by done. unfold sizeof_peer. lia.
Qed.

Lemma decode_encode_path path rest :
  Forall is_hash path -> decode_path (length path) (encode_path path ++ rest) = path.
Proof.
  induction 1 as [|h path Hh _ IH]; [ done | ]. cbn [length decode_path encode_path flat_map].
  rewrite <- app_assoc. f_equal.
  - rewrite <- (drop_0 (hash_bytes h ++ _)). by eapply hash_at.
  - unfold sizeof_peer. rewrite drop_app_length' by (by rewrite hash_bytes_length). apply IH.
Qed.

Lemma read_path_at pre path rest :
  Forall is_hash path ->
  read_path (pre ++ encode_path path ++ rest) (length pre) (length path) = Ret path.
Proof.
  intros Hp. unfold read_path. rewrite <- (length_encode_path path Hp).
  rewrite (mem_read_app pre) by done. cbn [mbind outcome_bind]. f_equal.
  rewrite <- (app_nil_r (encode_path path)). by apply decode_encode_path.
Qed.

Lemma read_path_ok msg off n :
  (off + n * sizeof_peer <= length msg)%nat ->
  exists p, read_path msg off n = Ret p /\ length p = n.
Proof.
  intros Hl. unfold read_path. rewrite mem_read_ok by lia. cbn [mbind outcome_bind].
  eexists. split; [ done | ]. generalize (take (n * sizeof_peer) (drop off msg)). clear.
  induction n as [|n IH]; intros l; cbn [decode_path length]; [ done | by rewrite IH ].
Qed.

Lemma read_path_overrun msg off n :
  (length msg < off + n * sizeof_peer)%nat -> read_path msg off n = Undefined.
Proof. intros Hl. unfold read_path, mem_read. by rewrite (proj2 (Nat.leb_gt _ _)) by lia. Qed.

(** ** Messages of the network *)

Lemma hash_words_hash l : is_bytes l -> (64 <= length l)%nat -> is_hash (hash_words 16 l).
Proof. intros Hb Hl. apply (hash_words_range 16); [ done | lia ]. Qed.

Ltac decoded_fields Hf :=
  repeat (apply List.Forall2_cons_iff in Hf as [?Hfield Hf]); clear Hf; unfold field_fits in *.

Lemma decode_put_ok l : is_bytes l -> length l = sizeof_put -> put_ok (decode_put l).
Proof.
  intros Hb Hl. pose proof (decode_fields_fit put_widths l Hb) as Hf. unfold decode_put.
  unfold put_widths in *. cbn [decode_fields] in *. decoded_fields Hf.
  unfold sizeof_put in Hl. constructor; unfold is_u32, is_abs, is_u64; cbn [ppm_options ppm_type ppm_hop_count ppm_desired_replication_level
    ppm_put_path_length ppm_expiration_time ppm_bloomfilter ppm_key abs_value]; try done.
  - rewrite length_take, length_drop. lia.
  - apply hash_words_hash; [ by apply Forall_drop | rewrite length_drop; lia ].
Qed.

Lemma decode_get_ok l : is_bytes l -> length l = sizeof_get -> get_ok (decode_get l).
Proof.
  intros Hb Hl. pose proof (decode_fields_fit get_widths l Hb) as Hf. unfold decode_get.
  unfold get_widths in *. cbn [decode_fields] in *. decoded_fields Hf.
  unfold sizeof_get in Hl. constructor; unfold is_u32; cbn [pgm_options pgm_type pgm_hop_count pgm_desired_replication_level
    pgm_xquery_size pgm_bf_mutator pgm_bloomfilter pgm_key]; try done.
  - assert (Ht : is_bytes (rev (take 4 (drop 24 l)))) by (by apply Forall_rev, Forall_take, Forall_drop).
    apply be_decode_range in Ht. rewrite length_rev, length_take, length_drop in Ht.
    replace (4 `min` (length l - 24))%nat with 4%nat in Ht by lia. exact Ht.
  - rewrite length_take, length_drop. lia.
  - apply hash_words_hash; [ by apply Forall_drop | rewrite length_drop; lia ].
Qed.

Lemma decode_result_ok l : is_bytes l -> length l = sizeof_result -> result_ok (decode_result l).
Proof.
  intros Hb Hl. pose proof (decode_fields_fit result_widths l Hb) as Hf. unfold decode_result.
  unfold result_widths in *. cbn [decode_fields] in *. decoded_fields Hf.
  unfold sizeof_result in Hl. constructor; unfold is_u32, is_abs, is_u64; cbn [prm_type prm_put_path_length prm_get_path_length
    prm_expiration_time prm_key abs_value]; try done.
  apply hash_words_hash; [ by apply Forall_drop | rewrite length_drop; lia ].
Qed.

Lemma decode_path_hashes n : forall l,
  is_bytes l -> (n * sizeof_peer <= length l)%nat -> Forall is_hash (decode_path n l).
Proof.
  unfold sizeof_peer. induction n as [|n IH]; intros l Hb Hl; cbn [decode_path]; constructor.
  - apply hash_words_hash; [ done | lia ].
  - apply IH; [ by apply Forall_drop | rewrite length_drop; unfold sizeof_peer; lia ].
Qed.

Lemma read_path_hashes msg off n :
  is_bytes msg -> (off + n * sizeof_peer <= length msg)%nat ->
  exists p, read_path msg off n = Ret p /\ length p = n /\ Forall is_hash p.
Proof.
  intros Hb Hl. destruct (read_path_ok msg off n Hl) as (p & Hr & Hn). exists p. split_and!; [ done | done | ].
  unfold read_path in Hr. rewrite mem_read_ok in Hr by lia. cbn [mbind outcome_bind] in Hr. injection Hr as <-.
  apply decode_path_hashes; [ by apply Forall_take, Forall_drop | rewrite length_take, length_drop; lia ].
Qed.
