(* ===== verification/DhtServices.v ===== *)
(** * Network size and HELLOs for the DHT: [src/dht/gnunet-service-dht_nse.c] and
      [src/dht/gnunet-service-dht_hello.c]

    What the neighbours module is given: the logarithm of the size of the network and the
    HELLOs of other peers.  The cache of HELLOs is fed by peerinfo; each HELLO is an object
    in memory that is owned by the map [peer_to_hello]. *)

From Stdlib Require Import ZArith Lia String SpecFloat.
From stdpp Require Import base list numbers gmap.
From S2P Require Import Prelude Double Time Hash MultiHashMap MapInterface Messages Hello.
From S2P Require Import MetaData CString Configuration Routing.
Local Open Scope Z_scope.

(** ** Network size *)

Definition default_log_of_network_size_estimate : Double.t := Double.of_Z 4.

(** [GNUNET_MAX (0.5, logestimate)] *)
Definition update_network_size_estimate (logestimate : Double.t) : Double.t :=
  let half := Double.div (Double.of_Z 1) (Double.of_Z 2) in
  if Double.ltb logestimate half then half else logestimate.

(** The estimate, and whether the service is asked for updates *)
Definition GDS_NSE_init (cfg : Handle) (log_of_network_size_estimate : Double.t)
  : outcome (Double.t * bool) :=
  hops ← (if GNUNET_CONFIGURATION_have_value cfg (cs "dht") (cs "FORCE_NSE") =? GNUNET_YES
          then GNUNET_CONFIGURATION_get_value_number cfg (cs "dht") (cs "FORCE_NSE")
          else Ret None);
  match hops with
  | Some hops => Ret (Double.of_Z hops, false)
  | None => Ret (log_of_network_size_estimate, true)
  end.

(** ** HELLOs of other peers *)

(** The objects by address and the map from peers to addresses *)
Record hellos := mk_hellos {
  hello_mem : gmap nat (list Z);
  peer_to_hello : option (GNUNET_CONTAINER_MultiHashMap nat)
}.

Definition GDS_HELLO_init : outcome hellos :=
  m ← GNUNET_CONTAINER_multihashmap_create 256 false;
  Ret (mk_hellos ∅ (Some m)).

(** [None] is [NULL]; a pointer to a freed HELLO has no value. *)
Definition GDS_HELLO_get (st : hellos) (peer : GNUNET_PeerIdentity) : outcome (option (list Z)) :=
  match peer_to_hello st with
  | None => Ret None
  | Some m =>
      match GNUNET_CONTAINER_multihashmap_get m peer with
      | None => Ret None
      | Some a => h ← of_option (hello_mem st !! a); Ret (Some h)
      end
  end.

Section Hellos.
Context (hash : list Z -> GNUNET_HashCode).

(** [a] is the address of the copy. *)
Definition process_hello (now : GNUNET_TIME_Absolute) (a : nat) (peer : GNUNET_PeerIdentity)
  (hello : option (list Z)) (st : hellos) : outcome hellos :=
  match hello with
  | None => Ret st
  | Some hello =>
      ex ← GNUNET_HELLO_get_last_expiration hash hello;
      if rel_value (GNUNET_TIME_absolute_get_remaining now ex) =? 0 then Ret st
      else
        m ← of_option (peer_to_hello st);
        let mem := match GNUNET_CONTAINER_multihashmap_get m peer with
                   | Some hm => delete hm (hello_mem st)
                   | None => hello_mem st
                   end in
        size ← GNUNET_HELLO_size hello;
        hm ← mem_read hello 0 (Z.to_nat size);
        let '(ret, m) := GNUNET_CONTAINER_multihashmap_put m peer a MULTIHASHMAPOPTION_REPLACE in
        _ ← gnunet_assert (negb (GNUNET_SYSERR =? ret));
        Ret (mk_hellos (<[a := hm]> mem) (Some m))
  end.

(** What peerinfo reports, one after the other *)
Fixpoint process_hellos (l : list (GNUNET_TIME_Absolute * nat * GNUNET_PeerIdentity * option (list Z)))
  (st : hellos) : outcome hellos :=
  match l with
  | [] => Ret st
  | (now, a, peer, hello) :: l' => st ← process_hello now a peer hello st; process_hellos l' st
  end.
End Hellos.

Lemma nth_replicate_nil {A} n i : nth i (replicate n (@nil A)) [] = [].
Proof. revert i. induction n as [|n IH]; intros [|i]; [ done | done | done | apply IH ]. Qed.

(** A HELLO as peerinfo reports it: bytes that hold at least what their header announces *)
Definition is_message (m : list Z) : Prop :=
  is_bytes m /\ (4 <= length m)%nat /\ msg_size m <= Z.of_nat (length m).

(** Since get_last_expiration returns 0 for every HELLO, every HELLO that
    peerinfo reports is taken for expired: whatever is reported at whatever times, the
    cache of the DHT stays empty and GDS_HELLO_get returns NULL for every peer. *)
Theorem dht_hello_cache_stays_empty (hash : list Z -> GNUNET_HashCode)
  (l : list (GNUNET_TIME_Absolute * nat * GNUNET_PeerIdentity * option (list Z))) :
  Forall (fun '(now, _, _, hello) => is_abs now /\ match hello with Some m => is_message m | None => True end) l ->
  exists st st', GDS_HELLO_init = Ret st /\ process_hellos hash l st = Ret st'
    /\ forall peer, GDS_HELLO_get st' peer = Ret None.
Proof.
  intros Hl. eexists. exists (mk_hellos ∅ (Some (mk_map (replicate 256 []) 0 256 false))).
  split; [ reflexivity | ]. set (st := mk_hellos _ _). split.
  - clearbody st. induction Hl as [|[[[now a] peer] hello] l [Hnow Hm] _ IH]; [ done | ].
    cbn [process_hellos]. rewrite (bind_ret _ st); [ done | ]. unfold process_hello.
    destruct hello as [m|]; [ | done ]. destruct Hm as (Hb & H4 & Hs).
    rewrite (bind_ret _ _ _ (hello_last_expiration_is_zero hash m Hb H4 Hs)).
    assert (Hz : rel_value (GNUNET_TIME_absolute_get_remaining now (mk_abs 0)) = 0); [ | by rewrite Hz ].
    unfold GNUNET_TIME_absolute_get_remaining. cbn [abs_value]. unfold is_abs in Hnow.
    change (0 =? UINT64_MAX) with false. destruct (Z.ltb_spec 0 (abs_value now)); [ done | ].
    replace (abs_value now) with 0 by int_lia. done.
  - intros peer. unfold GDS_HELLO_get, st. cbn [peer_to_hello].
    unfold GNUNET_CONTAINER_multihashmap_get, bucket. cbn [map]. by rewrite nth_replicate_nil.
Qed.

Lemma dht_hello_cache_stays_empty_witness :
  exists st st', GDS_HELLO_init = Ret st
    /\ process_hellos (fun _ => []) [(mk_abs 5, 1%nat, [], Some sample_hello)] st = Ret st'
    /\ forall peer, GDS_HELLO_get st' peer = Ret None.
Proof.
  apply (dht_hello_cache_stays_empty (fun _ => [])).
  constructor; [ | constructor ]. split; [ by vm_compute | ]. split_and!.
  - exact sample_hello_bytes.
  - vm_compute. lia.
  - vm_compute. discriminate.
Defined.
