(* ===== verification/DhtNeighbours.v ===== *)
(** * Neighbours of the DHT: [src/dht/gnunet-service-dht_neighbours.c]

    The service keeps the connected peers in buckets by the length of the bit prefix that
    they share with its own identity, and forwards PUT and GET requests and their results.
    A peer is an object in memory ([store], by address) that is shared by its bucket and
    the map [all_known_peers], and that the tasks and transmission requests for it point
    to.  Requests for which replies are expected are in the routing table ([Routing]),
    blocks are checked by [Block], filters are those of [BloomFilter].

    The handlers are actions on the state [dht].  Calls to other services and to the parts
    of the DHT service that talk to clients are appended to [calls].  The addresses of new
    objects are arguments; the environment of the module is the class [DhtEnv]
    ([DhtServices] models the modules that give it the size of the network and the HELLOs of
    other peers). *)

From Stdlib Require Import ZArith Lia String SpecFloat.
From stdpp Require Import base list numbers gmap.
From S2P Require Import Prelude Endian Double Time Heap Hash MultiHashMap MapInterface BloomFilter.
From S2P Require Import Bandwidth Messages Hello MetaData CString Configuration Block Routing DhtMessages.
Local Open Scope Z_scope.

Definition MAX_BUCKETS : Z := 512.
Definition DEFAULT_BUCKET_SIZE : Z := 8.
Definition FIND_PEER_REPLICATION_LEVEL : Z := 4.
Definition MAXIMUM_REPLICATION_LEVEL : Z := 16.
Definition MAXIMUM_PENDING_PER_PEER : Z := 64.

Definition DHT_DEFAULT_PREFERENCE_INTERVAL : GNUNET_TIME_Relative :=
  GNUNET_TIME_relative_multiply GNUNET_TIME_relative_get_minute_ 2.
Definition DHT_MINIMUM_FIND_PEER_INTERVAL : GNUNET_TIME_Relative :=
  GNUNET_TIME_relative_multiply GNUNET_TIME_relative_get_second_ 30.
Definition DHT_MAXIMUM_FIND_PEER_INTERVAL : GNUNET_TIME_Relative :=
  GNUNET_TIME_relative_multiply GNUNET_TIME_relative_get_minute_ 10.
Definition GET_TIMEOUT : GNUNET_TIME_Relative :=
  GNUNET_TIME_relative_multiply GNUNET_TIME_relative_get_minute_ 2.
Definition GNUNET_CONSTANTS_HELLO_ADDRESS_EXPIRATION : GNUNET_TIME_Relative :=
  GNUNET_TIME_relative_multiply GNUNET_TIME_relative_get_hour_ 12.

Definition GNUNET_DHT_RO_DEMULTIPLEX_EVERYWHERE : Z := 1.

Record P2PPendingMessage := mk_pending {
  pm_importance : Z;
  pm_timeout : GNUNET_TIME_Absolute;
  pm_msg : list Z
}.

(** [head] to [tail] is the list [pi_queue]; [th] and [preference_task] are whether there is
    a transmission request and a task. *)
Record PeerInfo := mk_peer_info {
  pi_pending_count : Z;
  pi_queue : list P2PPendingMessage;
  pi_th : bool;
  pi_preference_task : bool;
  pi_id : GNUNET_PeerIdentity
}.

Definition set_queue (p : PeerInfo) (count : Z) (q : list P2PPendingMessage) : PeerInfo :=
  mk_peer_info count q (pi_th p) (pi_preference_task p) (pi_id p).
Definition set_th (b : bool) (p : PeerInfo) : PeerInfo :=
  mk_peer_info (pi_pending_count p) (pi_queue p) b (pi_preference_task p) (pi_id p).
Definition set_preference_task (b : bool) (p : PeerInfo) : PeerInfo :=
  mk_peer_info (pi_pending_count p) (pi_queue p) (pi_th p) b (pi_id p).

(** [head] to [tail] as a list of addresses *)
Record PeerBucket := mk_bucket { pb_peers : list nat; peers_size : Z }.

(** Calls to other modules.  A path that is passed as a pointer into the message is
    [Undefined] when it extends past the end of the message. *)
Inductive dht_call : Type :=
  | CORE_notify_transmit_ready (peer : nat) (importance : Z) (maxdelay : GNUNET_TIME_Relative)
      (target : GNUNET_PeerIdentity) (size : Z)
  | CORE_notify_transmit_ready_cancel (peer : nat)
  | SCHEDULER_add_preference (delay : GNUNET_TIME_Relative) (peer : nat)
  | SCHEDULER_cancel_preference (peer : nat)
  | SCHEDULER_add_find_peer (delay : GNUNET_TIME_Relative)
  | SCHEDULER_cancel_find_peer
  | ATS_change_preference (target : GNUNET_PeerIdentity) (preference : Z)
  | TRANSPORT_offer_hello (h : list Z)
  | TRANSPORT_try_connect (target : GNUNET_PeerIdentity)
  | DATACACHE_put (key : GNUNET_HashCode) (data : list Z) (type : Z) (expiration : GNUNET_TIME_Absolute)
      (put_path : list GNUNET_PeerIdentity)
  | CLIENTS_handle_reply (expiration : GNUNET_TIME_Absolute) (key : GNUNET_HashCode)
      (get_path put_path : list GNUNET_PeerIdentity) (type : Z) (data : list Z)
  | CLIENTS_process_put (options type hop_count level : Z) (path : outcome (list GNUNET_PeerIdentity))
      (expiration : GNUNET_TIME_Absolute) (key : GNUNET_HashCode) (data : list Z)
  | CLIENTS_process_get (options type hop_count level : Z) (key : GNUNET_HashCode)
  | CLIENTS_process_get_resp (type : Z) (get_path : outcome (list GNUNET_PeerIdentity))
      (put_path : list GNUNET_PeerIdentity) (expiration : GNUNET_TIME_Absolute)
      (key : GNUNET_HashCode) (data : list Z).

(** A result of the data cache *)
Record cached := mk_cached {
  ca_data : list Z;
  ca_type : Z;
  ca_expiration : GNUNET_TIME_Absolute;
  ca_put_path : list GNUNET_PeerIdentity
}.

(** What the module is configured with and is given by other modules:
    - [clock], [rng]: the successive readings of the clock and the random numbers;
    - [core_accepts]: whether core returns a handle for a request to transmit so many bytes
      to a peer;
    - [nse]: [GDS_NSE_get ()];
    - [my_hello], [hello_get]: [GDS_my_hello] and [GDS_HELLO_get];
    - [datacache]: the results of [GNUNET_DATACACHE_get] for a key and a type, [None] without
      a data cache;
    - [float_conversion]: conversions of numbers that do not fit. *)
Class DhtEnv := {
  my_identity : GNUNET_PeerIdentity;
  bucket_size : Z;
  disable_try_connect : bool;
  have_transport : bool;
  clock : nat -> GNUNET_TIME_Absolute;
  rng : nat -> Z;
  core_accepts : GNUNET_PeerIdentity -> Z -> bool;
  sha512 : list Z -> GNUNET_HashCode;
  GDS_block_context : GNUNET_BLOCK_Context;
  nse : Double.t;
  my_hello : option (list Z);
  hello_get : GNUNET_PeerIdentity -> option (list Z);
  hello_expiration : GNUNET_TIME_Relative;
  datacache : option (GNUNET_HashCode -> Z -> list cached);
  float_conversion :: FloatConversion
}.

Section Neighbours.
Context {M : Type} `{MultiMap M nat}.

(** [recent] is the routing table, [ticks] and [draws] count the readings of the clock and
    the random numbers. *)
Record dht := mk_dht {
  store : gmap nat PeerInfo;
  k_buckets : list PeerBucket;
  all_known_peers : M;
  closest_bucket : Z;
  newly_found_peers : Z;
  find_peer_task : bool;
  recent : routing (M := M);
  calls : list dht_call;
  ticks : nat;
  draws : nat
}.

Definition set_store (s : gmap nat PeerInfo) (w : dht) : dht :=
  mk_dht s (k_buckets w) (all_known_peers w) (closest_bucket w) (newly_found_peers w)
    (find_peer_task w) (recent w) (calls w) (ticks w) (draws w).
Definition set_buckets (b : list PeerBucket) (closest : Z) (w : dht) : dht :=
  mk_dht (store w) b (all_known_peers w) closest (newly_found_peers w) (find_peer_task w)
    (recent w) (calls w) (ticks w) (draws w).
Definition set_known (m : M) (w : dht) : dht :=
  mk_dht (store w) (k_buckets w) m (closest_bucket w) (newly_found_peers w) (find_peer_task w)
    (recent w) (calls w) (ticks w) (draws w).
Definition set_newly_found (n : Z) (w : dht) : dht :=
  mk_dht (store w) (k_buckets w) (all_known_peers w) (closest_bucket w) n (find_peer_task w)
    (recent w) (calls w) (ticks w) (draws w).
Definition set_find_peer_task (b : bool) (w : dht) : dht :=
  mk_dht (store w) (k_buckets w) (all_known_peers w) (closest_bucket w) (newly_found_peers w) b
    (recent w) (calls w) (ticks w) (draws w).
Definition set_recent (r : routing (M := M)) (w : dht) : dht :=
  mk_dht (store w) (k_buckets w) (all_known_peers w) (closest_bucket w) (newly_found_peers w)
    (find_peer_task w) r (calls w) (ticks w) (draws w).
Definition add_call (c : dht_call) (w : dht) : dht :=
  mk_dht (store w) (k_buckets w) (all_known_peers w) (closest_bucket w) (newly_found_peers w)
    (find_peer_task w) (recent w) (calls w ++ [c]) (ticks w) (draws w).
Definition count_reads (t d : nat) (w : dht) : dht :=
  mk_dht (store w) (k_buckets w) (all_known_peers w) (closest_bucket w) (newly_found_peers w)
    (find_peer_task w) (recent w) (calls w) (ticks w + t) (draws w + d).

Abbreviation act A := (action dht A).

Context `{DhtEnv}.

(** The hash function of Bloom filters *)
Definition bf_hash (h : GNUNET_HashCode) : GNUNET_HashCode := sha512 (hash_bytes h).

Abbreviation bf_test := (GNUNET_CONTAINER_bloomfilter_test bf_hash).

(** ** Access to the state *)

Definition GNUNET_TIME_absolute_get_now : act GNUNET_TIME_Absolute := fun w =>
  Ret (clock (ticks w), count_reads 1 0 w).

(** The result is less than [i]. *)
Definition random_below (i : Z) : act Z := fun w =>
  _ ← gnunet_assert (0 <? i);
  Ret (rng (draws w) mod i, count_reads 0 1 w).

Definition peer_at (a : nat) : act PeerInfo := fun w =>
  p ← of_option (store w !! a); Ret (p, w).

Definition update_peer (a : nat) (f : PeerInfo -> PeerInfo) : act unit := fun w =>
  p ← of_option (store w !! a); Ret (tt, set_store (<[a := f p]> (store w)) w).

Definition emit (c : dht_call) : act unit := modify (add_call c).

Definition bucket_at (w : dht) (i : Z) : outcome PeerBucket :=
  of_option (k_buckets w !! Z.to_nat i).

(** ** Buckets *)

Definition find_bucket (hc : GNUNET_HashCode) : outcome Z :=
  bits ← GNUNET_CRYPTO_hash_matching_bits my_identity hc;
  if bits =? MAX_BUCKETS then Ret GNUNET_SYSERR
  else Ret (MAX_BUCKETS - bits - 1).

(** [shutdown] is whether the reason of the task has [GNUNET_SCHEDULER_REASON_SHUTDOWN]. *)
Definition update_core_preference (peer : nat) (shutdown : bool) : act unit :=
  _ ← update_peer peer (set_preference_task false);
  if shutdown then mret tt
  else
    p ← peer_at peer;
    matching ← lift (GNUNET_CRYPTO_hash_matching_bits my_identity (pi_id p));
    let matching := if 64 <=? matching then 63 else matching in
    bucket ← lift (find_bucket (pi_id p));
    w ← get_state;
    preference ← lift (if bucket =? GNUNET_SYSERR then Ret 0
                       else
                         b ← bucket_at w bucket;
                         _ ← gnunet_assert (negb (peers_size b =? 0));
                         (* 1LL << 63 is the sign bit *)
                         Ret (u64 (Z.quot (s64 (Z.shiftl 1 matching)) (peers_size b))));
    if preference =? 0 then
      _ ← emit (SCHEDULER_add_preference DHT_DEFAULT_PREFERENCE_INTERVAL peer);
      update_peer peer (set_preference_task true)
    else
      _ ← emit (ATS_change_preference (pi_id p) preference);
      _ ← emit (SCHEDULER_add_preference DHT_DEFAULT_PREFERENCE_INTERVAL peer);
      update_peer peer (set_preference_task true).

(** [a] is the address of the new [struct PeerInfo]. *)
Definition handle_core_connect (a : nat) (peer : GNUNET_PeerIdentity) : act unit :=
  w ← get_state;
  if bool_decide (my_identity = peer) then mret tt
  else if mm_contains (all_known_peers w) peer =? GNUNET_YES then mret tt
  else
    peer_bucket ← lift (find_bucket peer);
    _ ← lift (gnunet_assert ((0 <=? peer_bucket) && (peer_bucket <? MAX_BUCKETS)));
    b ← lift (bucket_at w peer_bucket);
    let size := u32 (peers_size b + 1) in
    _ ← modify (set_store (<[a := mk_peer_info 0 [] false false peer]> (store w)));
    _ ← modify (set_buckets (<[Z.to_nat peer_bucket := mk_bucket (pb_peers b ++ [a]) size]> (k_buckets w))
                  (Z.max (closest_bucket w) peer_bucket));
    _ ← (if (0 <? peer_bucket) && (size <=? bucket_size) then
           _ ← emit (SCHEDULER_add_preference GNUNET_TIME_relative_get_zero_ a);
           _ ← update_peer a (set_preference_task true);
           modify (set_newly_found (u32 (newly_found_peers w + 1)))
         else mret tt);
    let '(ret, m) := mm_put_unique (all_known_peers w) peer a in
    _ ← lift (gnunet_assert (GNUNET_OK =? ret));
    _ ← modify (set_known m);
    if 1 =? mm_size m then
      _ ← emit (SCHEDULER_add_find_peer GNUNET_TIME_relative_get_zero_);
      modify (set_find_peer_task true)
    else mret tt.

(** [GNUNET_CONTAINER_DLL_remove] of an element that must be in the list *)
Fixpoint dll_remove (a : nat) (l : list nat) : outcome (list nat) :=
  match l with
  | [] => Undefined
  | x :: l' => if decide (x = a) then Ret l' else r ← dll_remove a l'; Ret (x :: r)
  end.

(** [while ((closest_bucket > 0) && (k_buckets[closest_bucket].peers_size == 0)) closest_bucket--;] *)
Fixpoint lower_closest (buckets : list PeerBucket) (closest : nat) : outcome nat :=
  match closest with
  | O => Ret O
  | S c =>
      b ← of_option (buckets !! S c);
      if peers_size b =? 0 then lower_closest buckets c else Ret (S c)
  end.

Definition handle_core_disconnect (peer : GNUNET_PeerIdentity) : act unit :=
  w ← get_state;
  if bool_decide (my_identity = peer) then mret tt
  else
    match mm_get (all_known_peers w) peer with
    | None => mret tt
    | Some to_remove =>
        let '(ret, m) := mm_remove (all_known_peers w) peer to_remove in
        _ ← lift (gnunet_assert (GNUNET_YES =? ret));
        _ ← modify (set_known m);
        p ← peer_at to_remove;
        _ ← (if pi_preference_task p then
               _ ← emit (SCHEDULER_cancel_preference to_remove);
               update_peer to_remove (set_preference_task false)
             else mret tt);
        current_bucket ← lift (find_bucket (pi_id p));
        _ ← lift (gnunet_assert (0 <=? current_bucket));
        b ← lift (bucket_at w current_bucket);
        peers ← lift (dll_remove to_remove (pb_peers b));
        _ ← lift (gnunet_assert (0 <? peers_size b));
        let buckets := <[Z.to_nat current_bucket := mk_bucket peers (peers_size b - 1)]> (k_buckets w) in
        closest ← lift (lower_closest buckets (Z.to_nat (closest_bucket w)));
        _ ← modify (set_buckets buckets (Z.of_nat closest));
        _ ← (if pi_th p then
               _ ← emit (CORE_notify_transmit_ready_cancel to_remove);
               update_peer to_remove (set_th false)
             else mret tt);
        (* the pending messages are discarded and the peer is freed *)
        w ← get_state;
        modify (set_store (delete to_remove (store w)))
    end.

(** ** Transmission *)

(** [GNUNET_CORE_notify_transmit_ready] for the message [pending] of a peer *)
Definition notify_transmit_ready (peer : nat) (pending : P2PPendingMessage) (size : Z) : act unit :=
  now ← GNUNET_TIME_absolute_get_now;
  p ← peer_at peer;
  _ ← emit (CORE_notify_transmit_ready peer (pm_importance pending)
              (GNUNET_TIME_absolute_get_remaining now (pm_timeout pending)) (pi_id p) size);
  update_peer peer (set_th (core_accepts (pi_id p) size)).

(** The first loop: messages whose time is up are dropped. *)
Fixpoint drop_expired (q : list P2PPendingMessage) (count : Z)
  : act (list P2PPendingMessage * Z) :=
  match q with
  | [] => mret ([], count)
  | pending :: q' =>
      now ← GNUNET_TIME_absolute_get_now;
      if rel_value (GNUNET_TIME_absolute_get_remaining now (pm_timeout pending)) =? 0
      then drop_expired q' (u32 (count - 1))
      else mret (q, count)
  end.

(** The second loop: messages are copied while they fit; what is written, what is left *)
Fixpoint copy_messages (q : list P2PPendingMessage) (count size off : Z) (buf : list Z)
  : outcome (list Z * list P2PPendingMessage * Z) :=
  match q with
  | [] => Ret (buf, [], count)
  | pending :: q' =>
      let msize := msg_size (pm_msg pending) in
      if msize <=? size - off then
        m ← mem_read (pm_msg pending) 0 (Z.to_nat msize);
        copy_messages q' (u32 (count - 1)) size (off + msize) (buf ++ m)
      else Ret (buf, q, count)
  end.

(** [size] is [None] when [buf] is [NULL]; the result is what is written to [buf]. *)
Definition core_transmit_notify (peer : nat) (size : option Z) : act (list Z) :=
  _ ← update_peer peer (set_th false);
  p ← peer_at peer;
  '(q, count) ← drop_expired (pi_queue p) (pi_pending_count p);
  _ ← update_peer peer (fun p => set_queue p count q);
  match q, size with
  | [], _ => mret []
  | pending :: _, None =>
      _ ← notify_transmit_ready peer pending (msg_size (pm_msg pending));
      mret []
  | _, Some size =>
      '(buf, q, count) ← lift (copy_messages q count size 0 []);
      _ ← update_peer peer (fun p => set_queue p count q);
      match q with
      | [] => mret buf
      | pending :: _ =>
          _ ← notify_transmit_ready peer pending (msg_size (pm_msg pending));
          mret buf
      end
  end.

Definition process_peer_queue (peer : nat) : act unit :=
  p ← peer_at peer;
  match pi_queue p with
  | [] => mret tt
  | pending :: _ =>
      if pi_th p then mret tt
      else notify_transmit_ready peer pending (msg_size (pm_msg pending))
  end.

(** ** Selection of peers *)

(** Arithmetic in [double] but for the product and the stored value, which are [float] *)
Definition get_forward_count (hop_count target_replication : Z) : act Z :=
  let hops := Double.of_Z hop_count in
  if Double.ltb (Double.mul nse (Double.of_Z 6)) hops then mret 0
  else if Double.ltb (Double.mul nse (Double.of_Z 4)) hops then mret 1
  else
    let target_replication := Z.min MAXIMUM_REPLICATION_LEVEL target_replication in
    let others := Double.sub (Double.of_Z target_replication) (Double.of_Z 1) in
    let target_value :=
      Single.of_double
        (Double.add (Double.of_Z 1)
           (Double.div others
              (Double.add nse
                 (Single.to_double (Single.mul (Single.of_double others) (Single.of_Z hop_count)))))) in
    let forward_count := Single.to_u32 target_value in
    let target_value := Single.sub target_value (Single.of_Z forward_count) in
    random_value ← random_below UINT32_MAX;
    if Single.ltb (Single.of_Z random_value) (Single.mul target_value (Single.of_Z UINT32_MAX))
    then mret (u32 (forward_count + 1))
    else mret forward_count.

(** The loop over the bits from [i] on, with at most [n] iterations left *)
Fixpoint distance_loop (n : nat) (i bucket : Z) (target have : GNUNET_HashCode) (lsb : Z)
  : outcome Z :=
  match n with
  | O => Ret lsb
  | S n' =>
      if i <? 64 * 8 then
        b1 ← GNUNET_CRYPTO_hash_get_bit target i;
        b2 ← GNUNET_CRYPTO_hash_get_bit have i;
        distance_loop n' (i + 1) bucket target have
          (if negb (Bool.eqb b1 b2) then Z.lor lsb (Z.shiftl 1 (bucket + 32 - 9 - i)) else lsb)
      else Ret lsb
  end.

Definition get_distance (target have : GNUNET_HashCode) : outcome Z :=
  bucket ← GNUNET_CRYPTO_hash_matching_bits target have;
  if bucket =? 512 then Ret 0
  else if bucket =? 0 then Ret UINT32_MAX
  else
    let msb := u32 (Z.shiftl (512 - bucket) (32 - 9)) in
    lsb ← distance_loop (32 - 9) (bucket + 1) bucket target have 0;
    Ret (Z.lor msb lsb).

(** [count] is never incremented. *)
Fixpoint closest_loop (w : dht) (key : GNUNET_HashCode) (bloom : option GNUNET_CONTAINER_BloomFilter)
  (bits : Z) (l : list nat) : outcome bool :=
  match l with
  | [] => Ret true
  | a :: l' =>
      if 0 <? bucket_size then
        pos ← of_option (store w !! a);
        skip ← match bloom with None => Ret false | Some _ => bf_test bloom (pi_id pos) end;
        if (skip : bool) then closest_loop w key bloom bits l'
        else
          other_bits ← GNUNET_CRYPTO_hash_matching_bits (pi_id pos) key;
          if bits <? other_bits then Ret false
          else if other_bits =? bits then Ret true
          else closest_loop w key bloom bits l'
      else Ret true
  end.

Definition am_closest_peer (w : dht) (key : GNUNET_HashCode)
  (bloom : option GNUNET_CONTAINER_BloomFilter) : outcome bool :=
  if bool_decide (my_identity = key) then Ret true
  else
    bucket_num ← find_bucket key;
    _ ← gnunet_assert (0 <=? bucket_num);
    bits ← GNUNET_CRYPTO_hash_matching_bits my_identity key;
    b ← bucket_at w bucket_num;
    closest_loop w key bloom bits (pb_peers b).

(** [(bloom == NULL) || (GNUNET_NO == bloomfilter_test (bloom, ...))] *)
Definition selectable (bloom : option GNUNET_CONTAINER_BloomFilter) (pos : PeerInfo) : outcome bool :=
  match bloom with
  | None => Ret true
  | Some _ => t ← bf_test bloom (pi_id pos); Ret (negb t)
  end.

(** Greedy selection in one bucket: [chosen] and [smallest_distance] *)
Fixpoint greedy_bucket (w : dht) (key : GNUNET_HashCode) (bloom : option GNUNET_CONTAINER_BloomFilter)
  (count : Z) (l : list nat) (s : option nat * Z) : outcome (option nat * Z) :=
  match l with
  | [] => Ret s
  | a :: l' =>
      if count <? bucket_size then
        pos ← of_option (store w !! a);
        free ← selectable bloom pos;
        s ← (if (free : bool) then
               dist ← get_distance key (pi_id pos);
               Ret (if dist <? s.2 then (Some a, dist) else s)
             else Ret s);
        greedy_bucket w key bloom (count + 1) l' s
      else Ret s
  end.

Fixpoint greedy_buckets (w : dht) (key : GNUNET_HashCode) (bloom : option GNUNET_CONTAINER_BloomFilter)
  (bs : list PeerBucket) (s : option nat * Z) : outcome (option nat * Z) :=
  match bs with
  | [] => Ret s
  | b :: bs' =>
      s ← greedy_bucket w key bloom 0 (pb_peers b) s;
      greedy_buckets w key bloom bs' s
  end.

(** The number of peers that are not filtered; [count] runs through all buckets. *)
Fixpoint count_bucket (w : dht) (bloom : option GNUNET_CONTAINER_BloomFilter) (l : list nat)
  (count : Z) : outcome Z :=
  match l with
  | [] => Ret count
  | a :: l' =>
      if count <? bucket_size then
        pos ← of_option (store w !! a);
        free ← selectable bloom pos;
        count_bucket w bloom l' (if (free : bool) then count + 1 else count)
      else Ret count
  end.

Fixpoint count_buckets (w : dht) (bloom : option GNUNET_CONTAINER_BloomFilter) (bs : list PeerBucket)
  (count : Z) : outcome Z :=
  match bs with
  | [] => Ret count
  | b :: bs' => count ← count_bucket w bloom (pb_peers b) count; count_buckets w bloom bs' count
  end.

(** The peer number [selected] of those that are not filtered ([inl]), or what is left of
    [selected]; [count] stays 0. *)
Fixpoint pick_bucket (w : dht) (bloom : option GNUNET_CONTAINER_BloomFilter) (l : list nat)
  (selected : Z) : outcome (nat + Z) :=
  match l with
  | [] => Ret (inr selected)
  | a :: l' =>
      if 0 <? bucket_size then
        pos ← of_option (store w !! a);
        free ← selectable bloom pos;
        if (free : bool) then
          if 0 =? selected then Ret (inl a) else pick_bucket w bloom l' (u32 (selected - 1))
        else pick_bucket w bloom l' selected
      else Ret (inr selected)
  end.

Fixpoint pick_buckets (w : dht) (bloom : option GNUNET_CONTAINER_BloomFilter) (bs : list PeerBucket)
  (selected : Z) : outcome (option nat) :=
  match bs with
  | [] => Ret None
  | b :: bs' =>
      r ← pick_bucket w bloom (pb_peers b) selected;
      match r with
      | inl a => Ret (Some a)
      | inr selected => pick_buckets w bloom bs' selected
      end
  end.

(** [k_buckets[0]] to [k_buckets[closest_bucket]] *)
Definition used_buckets (w : dht) : list PeerBucket :=
  take (S (Z.to_nat (closest_bucket w))) (k_buckets w).

Definition select_peer (key : GNUNET_HashCode) (bloom : option GNUNET_CONTAINER_BloomFilter)
  (hops : Z) : act (option nat) :=
  w ← get_state;
  if Double.leb nse (Double.of_Z hops) then
    '(chosen, _) ← lift (greedy_buckets w key bloom (used_buckets w) (None, UINT32_MAX));
    mret chosen
  else
    count ← lift (count_buckets w bloom (used_buckets w) 0);
    if count =? 0 then mret None
    else
      selected ← random_below count;
      lift (pick_buckets w bloom (used_buckets w) selected).

(** The loop over [off] with [n] iterations left *)
Fixpoint target_loop (n : nat) (key : GNUNET_HashCode) (bloom : GNUNET_CONTAINER_BloomFilter)
  (hop_count : Z) (targets : list nat) : act (list nat * GNUNET_CONTAINER_BloomFilter) :=
  match n with
  | O => mret (targets, bloom)
  | S n' =>
      nxt ← select_peer key (Some bloom) hop_count;
      match nxt with
      | None => mret (targets, bloom)
      | Some nxt =>
          p ← peer_at nxt;
          bloom ← lift (GNUNET_CONTAINER_bloomfilter_add bf_hash bloom (pi_id p));
          target_loop n' key bloom hop_count (targets ++ [nxt])
      end
  end.

Definition get_target_peers (key : GNUNET_HashCode) (bloom : GNUNET_CONTAINER_BloomFilter)
  (hop_count target_replication : Z) : act (list nat * GNUNET_CONTAINER_BloomFilter) :=
  ret ← get_forward_count hop_count target_replication;
  if ret =? 0 then mret ([], bloom)
  else
    _ ← lift (gnunet_assert (8 * ret <=? GNUNET_MAX_MALLOC_CHECKED));
    target_loop (Z.to_nat ret) key bloom hop_count [].

(** ** Forwarding *)

(** The loop over the targets: a peer whose queue is full is skipped; for the others the
    message is built ([pending]) and appended to the queue. *)
Fixpoint queue_to_all (targets : list nat) (pending : act P2PPendingMessage) : act unit :=
  match targets with
  | [] => mret tt
  | target :: targets' =>
      p ← peer_at target;
      if MAXIMUM_PENDING_PER_PEER <=? pi_pending_count p then queue_to_all targets' pending
      else
        pm ← pending;
        _ ← update_peer target (fun p => set_queue p (u32 (pi_pending_count p + 1)) (pi_queue p ++ [pm]));
        _ ← process_peer_queue target;
        queue_to_all targets' pending
  end.

(** The result is the filter [bf] as it is updated. *)
Definition GDS_NEIGHBOURS_handle_put (type options desired_replication_level : Z)
  (expiration_time : GNUNET_TIME_Absolute) (hop_count : Z) (bf : GNUNET_CONTAINER_BloomFilter)
  (key : GNUNET_HashCode) (put_path : list GNUNET_PeerIdentity) (data : list Z)
  : act GNUNET_CONTAINER_BloomFilter :=
  bf ← lift (GNUNET_CONTAINER_bloomfilter_add bf_hash bf my_identity);
  '(targets, bf) ← get_target_peers key bf hop_count desired_replication_level;
  match targets with
  | [] => mret bf
  | _ =>
      let msize n := Z.of_nat (n * sizeof_peer + length data + sizeof_put) in
      let put_path := if GNUNET_SERVER_MAX_MESSAGE_SIZE <=? msize (length put_path) then [] else put_path in
      let msize := msize (length put_path) in
      if GNUNET_SERVER_MAX_MESSAGE_SIZE <=? msize then mret bf
      else
        let pending :=
          raw ← lift (match GNUNET_CONTAINER_bloomfilter_get_raw_data (Some bf) DHT_BLOOM_SIZE with
                      | Some raw => Ret raw
                      | None => AssertFailed
                      end);
          mret (mk_pending 0 expiration_time
                  (encode_put msize
                     (mk_put options type (u32 (hop_count + 1)) desired_replication_level
                        (Z.of_nat (length put_path)) expiration_time raw key)
                   ++ encode_path put_path ++ data)) in
        _ ← queue_to_all targets pending;
        mret bf
  end.

Definition GDS_NEIGHBOURS_handle_get (type options desired_replication_level hop_count : Z)
  (key : GNUNET_HashCode) (xquery : list Z) (reply_bf : option GNUNET_CONTAINER_BloomFilter)
  (reply_bf_mutator : Z) (peer_bf : GNUNET_CONTAINER_BloomFilter)
  : act GNUNET_CONTAINER_BloomFilter :=
  '(targets, peer_bf) ← get_target_peers key peer_bf hop_count desired_replication_level;
  peer_bf ← lift (GNUNET_CONTAINER_bloomfilter_add bf_hash peer_bf my_identity);
  match targets with
  | [] => mret peer_bf
  | _ =>
      let reply_bf_size := GNUNET_CONTAINER_bloomfilter_get_size reply_bf in
      let msize := Z.of_nat (length xquery + sizeof_get) + reply_bf_size in
      if GNUNET_SERVER_MAX_MESSAGE_SIZE <=? msize then mret peer_bf
      else
        let pending :=
          now ← GNUNET_TIME_absolute_get_now;
          raw ← lift (match GNUNET_CONTAINER_bloomfilter_get_raw_data (Some peer_bf) DHT_BLOOM_SIZE with
                      | Some raw => Ret raw
                      | None => AssertFailed
                      end);
          replies ← lift (match reply_bf with
                          | None => Ret []
                          | Some _ =>
                              match GNUNET_CONTAINER_bloomfilter_get_raw_data reply_bf reply_bf_size with
                              | Some replies => Ret replies
                              | None => AssertFailed
                              end
                          end);
          mret (mk_pending 0 (GNUNET_TIME_relative_to_absolute now GET_TIMEOUT)
                  (encode_get msize
                     (mk_get options type (u32 (hop_count + 1)) desired_replication_level
                        (Z.of_nat (length xquery)) reply_bf_mutator raw key)
                   ++ xquery ++ replies)) in
        _ ← queue_to_all targets pending;
        mret peer_bf
  end.

(** The message goes to the head of the queue. *)
Definition GDS_NEIGHBOURS_handle_reply (target : GNUNET_PeerIdentity) (type : Z)
  (expiration_time : GNUNET_TIME_Absolute) (key : GNUNET_HashCode)
  (put_path get_path : list GNUNET_PeerIdentity) (data : list Z) : act unit :=
  let put_path_length := Z.of_nat (length put_path) in
  let get_path_length := Z.of_nat (length get_path) in
  let data_size := Z.of_nat (length data) in
  let msize := data_size + Z.of_nat sizeof_result
               + u32 (get_path_length + put_path_length) * Z.of_nat sizeof_peer in
  let max_path := GNUNET_SERVER_MAX_MESSAGE_SIZE / Z.of_nat sizeof_peer in
  if (GNUNET_SERVER_MAX_MESSAGE_SIZE <=? msize) || (max_path <? get_path_length)
     || (max_path <? put_path_length) || (GNUNET_SERVER_MAX_MESSAGE_SIZE <? data_size)
  then mret tt
  else
    w ← get_state;
    match mm_get (all_known_peers w) target with
    | None => mret tt
    | Some pi =>
        p ← peer_at pi;
        if MAXIMUM_PENDING_PER_PEER <=? pi_pending_count p then mret tt
        else
          let pending := mk_pending 0 expiration_time
            (encode_result msize (mk_result type put_path_length get_path_length expiration_time key)
             ++ encode_path put_path ++ encode_path get_path ++ data) in
          _ ← update_peer pi (fun p => set_queue p (u32 (pi_pending_count p + 1)) (pending :: pi_queue p));
          process_peer_queue pi
    end.

(** The replies that the routing table sends *)
Fixpoint send_replies (l : list reply) : act unit :=
  match l with
  | [] => mret tt
  | r :: l' =>
      _ ← GDS_NEIGHBOURS_handle_reply (re_target r) (re_type r) (mk_abs (re_expiration_time r))
            (re_key r) (re_put_path r) (re_get_path r) (re_data r);
      send_replies l'
  end.

(** [hc] is the uninitialized local variable of [process]. *)
Definition route_reply (hc : GNUNET_HashCode) (type : Z) (expiration_time : GNUNET_TIME_Absolute)
  (key : GNUNET_HashCode) (put_path get_path : list GNUNET_PeerIdentity) (data : list Z) : act unit :=
  w ← get_state;
  '(r, replies) ← lift (GDS_ROUTING_process GDS_block_context hc type (abs_value expiration_time) key
                          put_path get_path (Some data) (length data) (recent w));
  _ ← modify (set_recent r);
  send_replies replies.

(** ** Requests for the data cache: [src/dht/gnunet-service-dht_datacache.c] *)

Definition GDS_DATACACHE_handle_put (expiration : GNUNET_TIME_Absolute) (key : GNUNET_HashCode)
  (put_path : list GNUNET_PeerIdentity) (type : Z) (data : list Z) : act unit :=
  match datacache with
  | None => mret tt
  | Some _ =>
      if GNUNET_SERVER_MAX_MESSAGE_SIZE <=? Z.of_nat (length data) then mret tt
      else emit (DATACACHE_put key data type expiration put_path)
  end.

(** The calls of [datacache_get_iterator] on the results: [ctx->eval] and the filter *)
Fixpoint datacache_get_iterator (hc : GNUNET_HashCode) (key : GNUNET_HashCode) (xquery : list Z)
  (reply_bf : option GNUNET_CONTAINER_BloomFilter) (reply_bf_mutator eval : Z) (l : list cached)
  : act (Z * option GNUNET_CONTAINER_BloomFilter) :=
  match l with
  | [] => mret (eval, reply_bf)
  | c :: l' =>
      let '(eval, reply_bf) := GNUNET_BLOCK_evaluate GDS_block_context (ca_type c) key reply_bf
                                 reply_bf_mutator xquery (Some (ca_data c)) in
      _ ← (if (eval =? GNUNET_BLOCK_EVALUATION_OK_LAST) || (eval =? GNUNET_BLOCK_EVALUATION_OK_MORE) then
             _ ← emit (CLIENTS_handle_reply (ca_expiration c) key [] (ca_put_path c) (ca_type c) (ca_data c));
             route_reply hc (ca_type c) (ca_expiration c) key (ca_put_path c) [] (ca_data c)
           else mret tt);
      if (eval =? GNUNET_BLOCK_EVALUATION_REQUEST_INVALID) || (eval =? GNUNET_BLOCK_EVALUATION_OK_LAST)
      then mret (eval, reply_bf)
      else datacache_get_iterator hc key xquery reply_bf reply_bf_mutator eval l'
  end.

Definition GDS_DATACACHE_handle_get (hc : GNUNET_HashCode) (key : GNUNET_HashCode) (type : Z)
  (xquery : list Z) (reply_bf : option GNUNET_CONTAINER_BloomFilter) (reply_bf_mutator : Z)
  : act (Z * option GNUNET_CONTAINER_BloomFilter) :=
  match datacache with
  | None => mret (GNUNET_BLOCK_EVALUATION_REQUEST_VALID, reply_bf)
  | Some get =>
      datacache_get_iterator hc key xquery reply_bf reply_bf_mutator
        GNUNET_BLOCK_EVALUATION_REQUEST_VALID (get key type)
  end.

(** ** Handlers of messages; [hc] is uninitialized memory *)

Definition handle_dht_p2p_put (peer : GNUNET_PeerIdentity) (message : list Z) : act Z :=
  let msize := msg_size message in
  if msize <? Z.of_nat sizeof_put then mret GNUNET_YES
  else
    hd ← lift (mem_read message 0 sizeof_put);
    let put := decode_put hd in
    let putlen := ppm_put_path_length put in
    if (msize <? Z.of_nat sizeof_put + putlen * Z.of_nat sizeof_peer)
       || (GNUNET_SERVER_MAX_MESSAGE_SIZE / Z.of_nat sizeof_peer <? putlen)
    then mret GNUNET_YES
    else
      let n := Z.to_nat putlen in
      let payload_size := (Z.to_nat msize - (sizeof_put + n * sizeof_peer))%nat in
      payload ← lift (mem_read message (sizeof_put + n * sizeof_peer) payload_size);
      let options := ppm_options put in
      let '(ret, test_key) := GNUNET_BLOCK_get_key GDS_block_context (ppm_type put) payload in
      valid ← lift (if ret =? GNUNET_YES then k ← of_option test_key; Ret (bool_decide (k = ppm_key put))
                    else Ret (negb (ret =? GNUNET_NO)));
      if negb (valid : bool) then mret GNUNET_YES
      else
        bf ← lift (of_option (GNUNET_CONTAINER_bloomfilter_init (Some (ppm_bloomfilter put)) DHT_BLOOM_SIZE
                                GNUNET_CONSTANTS_BLOOMFILTER_K));
        put_path ← lift (read_path message sizeof_put n);
        let pp := if negb (Z.land options GNUNET_DHT_RO_RECORD_ROUTE =? 0) then put_path ++ [peer] else [] in
        _ ← emit (CLIENTS_handle_reply (ppm_expiration_time put) (ppm_key put) [] pp (ppm_type put) payload);
        w ← get_state;
        here ← lift (if negb (Z.land options GNUNET_DHT_RO_DEMULTIPLEX_EVERYWHERE =? 0) then Ret true
                     else am_closest_peer w (ppm_key put) (Some bf));
        _ ← (if (here : bool)
             then GDS_DATACACHE_handle_put (ppm_expiration_time put) (ppm_key put) pp (ppm_type put) payload
             else mret tt);
        _ ← GDS_NEIGHBOURS_handle_put (ppm_type put) options (ppm_desired_replication_level put)
              (ppm_expiration_time put) (ppm_hop_count put) bf (ppm_key put) pp payload;
        _ ← emit (CLIENTS_process_put options (ppm_type put) (ppm_hop_count put)
                    (ppm_desired_replication_level put) (read_path message sizeof_put (length pp))
                    (ppm_expiration_time put) (ppm_key put) payload);
        mret GNUNET_YES.

(** The loop [do ... while]: [n] peers are tried, the first is the one behind [peer]; [None]
    for the end of the list, which wraps around to [bucket->head]. *)
Fixpoint find_hello (w : dht) (n : nat) (bf : option GNUNET_CONTAINER_BloomFilter) (bf_mutator : Z)
  (all : list nat) (next : list nat) : outcome (option (list Z)) :=
  match n with
  | O => Ret None
  | S n' =>
      match (match next with [] => all | _ => next end) with
      | [] => Undefined
      | a :: rest =>
          p ← of_option (store w !! a);
          let mhash := GNUNET_BLOCK_mingle_hash sha512 (pi_id p) bf_mutator in
          match hello_get (pi_id p) with
          | None => find_hello w n' bf bf_mutator all rest
          | Some hello =>
              masked ← bf_test bf mhash;
              if (masked : bool) then find_hello w n' bf bf_mutator all rest else Ret (Some hello)
          end
      end
  end.

(** [for (choice) peer = peer->next] *)
Fixpoint nth_peer (choice : nat) (l : list nat) : outcome (list nat) :=
  match choice with
  | O => Ret l
  | S c => match l with [] => AssertFailed | _ :: l' => nth_peer c l' end
  end.

(** A reply with a HELLO *)
Definition send_hello (sender : GNUNET_PeerIdentity) (key : GNUNET_HashCode) (hello : list Z)
  (expiration : GNUNET_TIME_Relative) : act unit :=
  now ← GNUNET_TIME_absolute_get_now;
  size ← lift (GNUNET_HELLO_size hello);
  data ← lift (mem_read hello 0 (Z.to_nat size));
  GDS_NEIGHBOURS_handle_reply sender GNUNET_BLOCK_TYPE_DHT_HELLO
    (GNUNET_TIME_relative_to_absolute now expiration) key [] [] data.

Definition handle_find_peer (sender : GNUNET_PeerIdentity) (key : GNUNET_HashCode)
  (bf : option GNUNET_CONTAINER_BloomFilter) (bf_mutator : Z) : act unit :=
  _ ← match my_hello with
      | None => mret tt
      | Some hello =>
          let mhash := GNUNET_BLOCK_mingle_hash sha512 my_identity bf_mutator in
          masked ← lift (match bf with None => Ret false | Some _ => bf_test bf mhash end);
          if (masked : bool) then mret tt else send_hello sender key hello hello_expiration
      end;
  w ← get_state;
  bucket_idx ← lift (if bool_decide (my_identity = key) then Ret (closest_bucket w)
                     else i ← find_bucket key; Ret (Z.min (closest_bucket w) (u32 i)));
  b ← lift (bucket_at w bucket_idx);
  if peers_size b =? 0 then mret tt
  else
    choice ← random_below (peers_size b);
    peers ← lift (nth_peer (Z.to_nat choice) (pb_peers b));
    (* peer->next *)
    next ← lift (match peers with [] => Undefined | _ :: next => Ret next end);
    hello ← lift (find_hello w (Z.to_nat (peers_size b)) bf bf_mutator (pb_peers b) next);
    match hello with
    | None => mret tt
    | Some hello => send_hello sender key hello GNUNET_CONSTANTS_HELLO_ADDRESS_EXPIRATION
    end.

(** [a] and [n] are the addresses for a new request of the routing table, [rnd] is for the
    walk of its heap. *)
Definition handle_dht_p2p_get (hc : GNUNET_HashCode) (rnd : Z) (a n : nat)
  (peer : GNUNET_PeerIdentity) (message : list Z) : act Z :=
  let msize := msg_size message in
  if msize <? Z.of_nat sizeof_get then mret GNUNET_YES
  else
    hd ← lift (mem_read message 0 sizeof_get);
    let get := decode_get hd in
    let xquery_size := pgm_xquery_size get in
    if msize <? Z.of_nat sizeof_get + xquery_size then mret GNUNET_YES
    else
      let reply_bf_size := msize - (Z.of_nat sizeof_get + xquery_size) in
      let type := pgm_type get in
      let options := pgm_options get in
      xquery ← lift (mem_read message sizeof_get (Z.to_nat xquery_size));
      reply_bf ← lift (if 0 <? reply_bf_size then
                         raw ← mem_read message (sizeof_get + Z.to_nat xquery_size) (Z.to_nat reply_bf_size);
                         Ret (GNUNET_CONTAINER_bloomfilter_init (Some raw) reply_bf_size
                                GNUNET_CONSTANTS_BLOOMFILTER_K)
                       else Ret None);
      let '(eval, reply_bf) := GNUNET_BLOCK_evaluate GDS_block_context type (pgm_key get) reply_bf
                                 (pgm_bf_mutator get) xquery None in
      if negb (eval =? GNUNET_BLOCK_EVALUATION_REQUEST_VALID) then mret GNUNET_YES
      else
        peer_bf ← lift (of_option (GNUNET_CONTAINER_bloomfilter_init (Some (pgm_bloomfilter get))
                                     DHT_BLOOM_SIZE GNUNET_CONSTANTS_BLOOMFILTER_K));
        now ← GNUNET_TIME_absolute_get_now;
        w ← get_state;
        r ← lift (GDS_ROUTING_add rnd (abs_value now) a n peer type options (pgm_key get) xquery reply_bf
                    (pgm_bf_mutator get) (recent w));
        _ ← modify (set_recent r);
        here ← lift (if negb (Z.land options GNUNET_DHT_RO_DEMULTIPLEX_EVERYWHERE =? 0) then Ret true
                     else am_closest_peer w (pgm_key get) (Some peer_bf));
        '(eval, reply_bf) ←
          (if (here : bool) then
             if negb (Z.land options GNUNET_DHT_RO_FIND_PEER =? 0) then
               _ ← handle_find_peer peer (pgm_key get) reply_bf (pgm_bf_mutator get);
               mret (eval, reply_bf)
             else GDS_DATACACHE_handle_get hc (pgm_key get) type xquery reply_bf (pgm_bf_mutator get)
           else mret (eval, reply_bf));
        _ ← emit (CLIENTS_process_get options type (pgm_hop_count get)
                    (pgm_desired_replication_level get) (pgm_key get));
        _ ← (if negb (eval =? GNUNET_BLOCK_EVALUATION_OK_LAST) then
               _ ← GDS_NEIGHBOURS_handle_get type options (pgm_desired_replication_level get)
                     (pgm_hop_count get) (pgm_key get) xquery reply_bf (pgm_bf_mutator get) peer_bf;
               mret tt
             else mret tt);
        mret GNUNET_YES.

(** A HELLO in a result: whether it is well-formed, after it was considered for the routing
    table *)
Definition consider_hello (h : list Z) : act bool :=
  if Z.of_nat (length h) <? 4 then mret false
  else if negb (Z.of_nat (length h) =? msg_size h) then mret false
  else
    pid ← lift (GNUNET_HELLO_get_id sha512 h);
    match pid with
    | None => mret false
    | Some pid =>
        if bool_decide (my_identity = pid) then mret true
        else
          bucket ← lift (find_bucket pid);
          w ← get_state;
          wanted ← lift (if 0 <=? bucket then b ← bucket_at w bucket; Ret (peers_size b <? bucket_size)
                         else Ret false);
          _ ← (if (wanted : bool) && have_transport then
                 _ ← emit (TRANSPORT_offer_hello h);
                 if disable_try_connect then mret tt else emit (TRANSPORT_try_connect pid)
               else mret tt);
          mret true
    end.

Definition handle_dht_p2p_result (hc : GNUNET_HashCode) (peer : GNUNET_PeerIdentity)
  (message : list Z) : act Z :=
  let msize := msg_size message in
  if msize <? Z.of_nat sizeof_result then mret GNUNET_YES
  else
    hd ← lift (mem_read message 0 sizeof_result);
    let prm := decode_result hd in
    let putlen := prm_put_path_length prm in
    let getlen := prm_get_path_length prm in
    let max_path := GNUNET_SERVER_MAX_MESSAGE_SIZE / Z.of_nat sizeof_peer in
    if (msize <? Z.of_nat sizeof_result + u32 (getlen + putlen) * Z.of_nat sizeof_peer)
       || (max_path <? getlen) || (max_path <? putlen)
    then mret GNUNET_YES
    else
      let np := Z.to_nat putlen in
      let ng := Z.to_nat getlen in
      let get_off := (sizeof_result + np * sizeof_peer)%nat in
      let data_off := (get_off + ng * sizeof_peer)%nat in
      let type := prm_type prm in
      data ← lift (mem_read message data_off (Z.to_nat msize - data_off));
      ok ← (if type =? GNUNET_BLOCK_TYPE_DHT_HELLO then consider_hello data else mret true);
      if negb (ok : bool) then mret GNUNET_YES
      else
        put_path ← lift (read_path message sizeof_result np);
        get_path ← lift (read_path message get_off ng);
        let xget_path := get_path ++ [peer] in
        _ ← emit (CLIENTS_handle_reply (prm_expiration_time prm) (prm_key prm) xget_path put_path type data);
        _ ← route_reply hc type (prm_expiration_time prm) (prm_key prm) put_path xget_path data;
        _ ← emit (CLIENTS_process_get_resp type (read_path message get_off (length xget_path)) put_path
                    (prm_expiration_time prm) (prm_key prm) data);
        mret GNUNET_YES.

(** ** Finding peers *)

(** The callback for the map; the state is the filter. *)
Definition add_known_to_bloom (bf_mutator : Z) (bloom : outcome GNUNET_CONTAINER_BloomFilter)
  (key : GNUNET_HashCode) (value : nat) : outcome GNUNET_CONTAINER_BloomFilter * bool :=
  (bloom ← bloom;
   GNUNET_CONTAINER_bloomfilter_add bf_hash bloom (GNUNET_BLOCK_mingle_hash sha512 key bf_mutator), true).

Definition send_find_peer_message (shutdown : bool) : act unit :=
  _ ← modify (set_find_peer_task false);
  w ← get_state;
  if shutdown then mret tt
  else if bucket_size <? newly_found_peers w then
    _ ← emit (SCHEDULER_add_find_peer GNUNET_TIME_relative_get_minute_);
    _ ← modify (set_find_peer_task true);
    modify (set_newly_found 0)
  else
    bf_mutator ← random_below UINT32_MAX;
    let fresh := of_option (GNUNET_CONTAINER_bloomfilter_init None DHT_BLOOM_SIZE
                              GNUNET_CONSTANTS_BLOOMFILTER_K) in
    bloom ← lift (mm_iterate (all_known_peers w) (add_known_to_bloom bf_mutator) fresh);
    peer_bf ← lift fresh;
    _ ← GDS_NEIGHBOURS_handle_get GNUNET_BLOCK_TYPE_DHT_HELLO GNUNET_DHT_RO_FIND_PEER
          FIND_PEER_REPLICATION_LEVEL 0 my_identity [] (Some bloom) bf_mutator peer_bf;
    let n := u32 (newly_found_peers w + 1) in
    _ ← lift (if n =? 0 then Undefined else Ret tt);
    r ← random_below (rel_value DHT_MAXIMUM_FIND_PEER_INTERVAL / n);
    _ ← modify (set_newly_found 0);
    _ ← emit (SCHEDULER_add_find_peer (mk_rel (rel_value DHT_MINIMUM_FIND_PEER_INTERVAL + r)));
    modify (set_find_peer_task true).

(** ** Start and end *)

(** [GNUNET_CORE_disconnect] reports the peers that are connected as disconnected. *)
Fixpoint disconnect_all (peers : list GNUNET_PeerIdentity) : act unit :=
  match peers with
  | [] => mret tt
  | p :: peers' => _ ← handle_core_disconnect p; disconnect_all peers'
  end.

Definition GDS_NEIGHBOURS_done (peers : list GNUNET_PeerIdentity) : act unit :=
  _ ← disconnect_all peers;
  w ← get_state;
  _ ← lift (gnunet_assert (0 =? mm_size (all_known_peers w)));
  if find_peer_task w then
    _ ← emit SCHEDULER_cancel_find_peer;
    modify (set_find_peer_task false)
  else mret tt.
End Neighbours.

(** [disable_try_connect], [bucket_size] and the state before the first connection *)
Definition GDS_NEIGHBOURS_init {M : Type} `{MultiMap M nat} (cfg : Handle) (r : routing (M := M))
  : outcome (bool * Z * dht (M := M)) :=
  y ← GNUNET_CONFIGURATION_get_value_yesno cfg (cs "DHT") (cs "DISABLE_TRY_CONNECT");
  temp_config_num ← GNUNET_CONFIGURATION_get_value_number cfg (cs "DHT") (cs "bucket_size");
  m ← mm_create 256 false;
  Ret (y =? GNUNET_YES,
       match temp_config_num with Some n => u32 n | None => DEFAULT_BUCKET_SIZE end,
       mk_dht ∅ (replicate (Z.to_nat MAX_BUCKETS) (mk_bucket [] 0)) m 0 0 false r [] 0 0).
