(* ===== verification/DhtDistance.v ===== *)
(** * The distance between keys and peers in the DHT

    [get_distance] packs the distance of two hash codes into 32 bits: how many bits they
    share at the start, and the 23 bits behind the first difference.  The reference is the
    exclusive or of the two codes, read as a number whose most significant bit is bit 0
    ([xor_distance]). *)

From Stdlib Require Import ZArith Lia.
From stdpp Require Import base list numbers gmap.
From S2P Require Import Prelude Hash DhtNeighbours.
Local Open Scope Z_scope.

(** The number with the [n] bits [f i], [f (i + 1)], ..., most significant first *)
Fixpoint bits_value (n : nat) (f : Z -> bool) (i : Z) : Z :=
  match n with
  | O => 0
  | S n' => (if f i then 2 ^ Z.of_nat n' else 0) + bits_value n' f (i + 1)
  end.

(** The bits in which two hash codes differ; there are none behind the last. *)
Definition differ (a b : GNUNET_HashCode) (i : Z) : bool :=
  (i <? 512) && xorb (Z.testbit (hash_val a) i) (Z.testbit (hash_val b) i).

Definition xor_distance (a b : GNUNET_HashCode) : Z := bits_value 512 (differ a b) 0.

Lemma bits_value_range n f i : 0 <= bits_value n f i < 2 ^ Z.of_nat n.
Proof.
  revert i. induction n as [|n IH]; intros i; cbn [bits_value]; [ cbn; lia | ].
  specialize (IH (i + 1)). rewrite Nat2Z.inj_succ, Z.pow_succ_r by lia. destruct (f i); lia.
Qed.

Lemma bits_value_app n m f i :
  bits_value (n + m) f i = bits_value n f i * 2 ^ Z.of_nat m + bits_value m f (i + Z.of_nat n).
Proof.
  revert i. induction n as [|n IH]; intros i; cbn [bits_value Nat.add].
  - replace (i + Z.of_nat 0) with i by lia. lia.
  - rewrite IH, Nat2Z.inj_add, Z.pow_add_r, Nat2Z.inj_succ by lia.
    replace (i + 1 + Z.of_nat n) with (i + Z.succ (Z.of_nat n)) by lia. destruct (f i); ring.
Qed.

Lemma bits_value_S n f i :
  bits_value (S n) f i = (if f i then 2 ^ Z.of_nat n else 0) + bits_value n f (i + 1).
Proof. done. Qed.

Lemma bits_value_0 n f i :
  (forall j, i <= j < i + Z.of_nat n -> f j = false) -> bits_value n f i = 0.
Proof.
  revert i. induction n as [|n IH]; intros i Hf; cbn [bits_value]; [ done | ].
  rewrite (Hf i), IH by (try intros j Hj; try apply Hf; lia). done.
Qed.

Lemma bits_value_zero n f i :
  bits_value n f i = 0 -> forall j, i <= j < i + Z.of_nat n -> f j = false.
Proof.
  revert i. induction n as [|n IH]; intros i Hv j Hj; [ lia | ]. cbn [bits_value] in Hv.
  pose proof (bits_value_range n f (i + 1)) as Hr.
  assert (0 < 2 ^ Z.of_nat n) by (apply Z.pow_pos_nonneg; lia).
  destruct (f i) eqn:Hf; [ lia | ]. destruct (Z.eq_dec j i) as [->|]; [ done | ].
  apply (IH (i + 1)); lia.
Qed.

(** ** What the code computes *)

(** [matching_bits] finds the first difference. *)
Lemma matching_bits_differ a b :
  is_hash a -> is_hash b ->
  exists r, GNUNET_CRYPTO_hash_matching_bits a b = Ret r /\ 0 <= r <= 512
    /\ (forall j, 0 <= j < r -> differ a b j = false) /\ (r < 512 -> differ a b r = true).
Proof.
  intros Ha Hb. destruct (matching_loop_spec 512 0 a b Ha Hb) as (r & Hr & Hrange & Heq & Hne);
    [ lia | lia | ].
  exists r. unfold differ. split_and!; [ done | lia | lia | | ].
  - intros j Hj. rewrite (Heq j Hj), xorb_nilpotent. apply andb_false_r.
  - intros Hlt. rewrite (proj2 (Z.ltb_lt r 512) Hlt). cbn. specialize (Hne Hlt).
    by destruct (Z.testbit (hash_val a) r), (Z.testbit (hash_val b) r).
Qed.

Lemma distance_loop_ok n : forall i r a b acc,
  is_hash a -> is_hash b -> 0 <= r -> i = r + 24 - Z.of_nat n -> (n <= 23)%nat ->
  0 <= acc -> acc mod 2 ^ Z.of_nat n = 0 ->
  distance_loop n i r a b acc = Ret (acc + bits_value n (differ a b) i).
Proof.
  induction n as [|n IH]; intros i r a b acc Ha Hb Hr Hi Hn Hacc Hmod; cbn [distance_loop bits_value].
  { f_equal. lia. }
  destruct (Z.ltb_spec i (64 * 8)) as [Hlt|Hge].
  - rewrite !hash_get_bit_testbit by (done || lia). cbn [mbind outcome_bind].
    assert (Hp : 2 ^ Z.of_nat (S n) = 2 * 2 ^ Z.of_nat n)
      by (rewrite Nat2Z.inj_succ, Z.pow_succ_r; lia).
    assert (0 < 2 ^ Z.of_nat n) by (apply Z.pow_pos_nonneg; lia).
    assert (Hx : differ a b i = negb (Bool.eqb (Z.testbit (hash_val a) i) (Z.testbit (hash_val b) i))).
    { unfold differ. rewrite (proj2 (Z.ltb_lt i 512)) by lia.
      by destruct (Z.testbit (hash_val a) i), (Z.testbit (hash_val b) i). }
    rewrite <- Hx. rewrite Hp in Hmod.
    assert (Hdiv : acc = acc / (2 * 2 ^ Z.of_nat n) * (2 * 2 ^ Z.of_nat n))
      by (pose proof (Z.div_mod acc (2 * 2 ^ Z.of_nat n)); lia).
    destruct (differ a b i).
    + assert (Hl : Z.lor acc (Z.shiftl 1 (r + 32 - 9 - i)) = acc + 2 ^ Z.of_nat n).
      { rewrite Z.shiftl_1_l. replace (r + 32 - 9 - i) with (Z.of_nat n) by lia.
        rewrite Hdiv at 1. rewrite <- Hp, <- Z.shiftl_mul_pow2 by lia.
        rewrite lor_add_shift; [ rewrite Hp; lia | lia | ].
        split; [ lia | ]. apply Z.pow_lt_mono_r; lia. }
      rewrite Hl, IH; try done; try lia; [ f_equal; lia | ].
      rewrite Hdiv. rewrite Z.add_mod, Z.mod_same by lia.
      rewrite Z.mul_assoc, Z.mod_mul by lia. by rewrite Z.mod_0_l by lia.
    + rewrite IH; try done; try lia. rewrite Hdiv. by rewrite Z.mul_assoc, Z.mod_mul by lia.
  - f_equal. assert (Hd : forall j, i <= j -> differ a b j = false).
    { intros j Hj. unfold differ. by rewrite (proj2 (Z.ltb_ge j 512)) by lia. }
    rewrite Hd by lia. rewrite bits_value_0; [ lia | ]. intros j Hj. apply Hd. lia.
Qed.

(** The value of [get_distance] when the first difference is bit [r] *)
Definition packed_distance (r : Z) (a b : GNUNET_HashCode) : Z :=
  if r =? 512 then 0 else if r =? 0 then UINT32_MAX
  else (512 - r) * 2 ^ 23 + bits_value 23 (differ a b) (r + 1).

Lemma get_distance_ok a b r :
  is_hash a -> is_hash b -> GNUNET_CRYPTO_hash_matching_bits a b = Ret r -> 0 <= r <= 512 ->
  get_distance a b = Ret (packed_distance r a b).
Proof.
  intros Ha Hb Hr Hrange. unfold get_distance, packed_distance. rewrite (bind_ret _ _ _ Hr).
  destruct (Z.eqb_spec r 512); [ done | ]. destruct (Z.eqb_spec r 0); [ done | ].
  rewrite distance_loop_ok by (done || lia). cbn [mbind outcome_bind]. f_equal.
  pose proof (bits_value_range 23 (differ a b) (r + 1)) as Hb23.
  change (Z.of_nat 23) with 23 in Hb23. change (32 - 9)%nat with 23%nat. change (32 - 9) with 23.
  rewrite Z.add_0_l.
  rewrite u32_small by (rewrite Z.shiftl_mul_pow2 by lia; unfold is_u32; lia).
  rewrite lor_add_shift; [ lia | lia | exact Hb23 ].
Qed.

(** ** Relation to the exclusive or *)

(** The exclusive or with 23 more (zero) bits splits at the first difference [r]. *)
Lemma xor_distance_split a b r :
  0 <= r < 512 -> (forall j, 0 <= j < r -> differ a b j = false) -> differ a b r = true ->
  exists low, 0 <= low < 2 ^ (511 - r)
    /\ xor_distance a b * 2 ^ 23
       = 2 ^ (534 - r) + bits_value 23 (differ a b) (r + 1) * 2 ^ (511 - r) + low.
Proof.
  intros Hr Hz H1. set (n := Z.to_nat (511 - r)).
  exists (bits_value n (differ a b) (r + 24)). split.
  { replace (511 - r) with (Z.of_nat n) by lia. apply bits_value_range. }
  assert (Hpad : xor_distance a b * 2 ^ 23 = bits_value (512 + 23) (differ a b) 0).
  { rewrite bits_value_app. change (Z.of_nat 23) with 23. fold (xor_distance a b).
    rewrite (bits_value_0 23); [ lia | ]. intros j Hj. unfold differ.
    by rewrite (proj2 (Z.ltb_ge j 512)) by lia. }
  rewrite Hpad. replace (512 + 23)%nat with (Z.to_nat r + S (23 + n))%nat by lia.
  rewrite bits_value_app, bits_value_0 by (intros j Hj; apply Hz; lia).
  rewrite bits_value_S. replace (0 + Z.of_nat (Z.to_nat r)) with r by lia.
  rewrite H1, Z.mul_0_l, Z.add_0_l.
  rewrite bits_value_app. replace (Z.of_nat (23 + n)) with (534 - r) by lia.
  replace (Z.of_nat n) with (511 - r) by lia.
  replace (r + 1 + Z.of_nat 23) with (r + 24) by lia. change (Z.of_nat 23) with 23. lia.
Qed.

Lemma xor_distance_none a b :
  (forall j, 0 <= j < 512 -> differ a b j = false) -> xor_distance a b = 0.
Proof. intros Hz. apply bits_value_0. intros j Hj. apply Hz. lia. Qed.

Lemma packed_distance_range r a b : 0 <= r <= 512 -> is_u32 (packed_distance r a b).
Proof.
  intros Hr. unfold packed_distance. pose proof (bits_value_range 23 (differ a b) (r + 1)) as Hb.
  change (Z.of_nat 23) with 23 in Hb. repeat case_match; unfold is_u32, UINT32_MAX; lia.
Qed.

(** The first difference and the bits behind it are compared in this order. *)
Lemma packed_distance_mono t a b ra rb :
  is_hash t -> is_hash a -> is_hash b ->
  GNUNET_CRYPTO_hash_matching_bits t a = Ret ra -> GNUNET_CRYPTO_hash_matching_bits t b = Ret rb ->
  xor_distance t a <= xor_distance t b -> packed_distance ra t a <= packed_distance rb t b.
Proof.
  intros Ht Ha Hb Hra Hrb Hle.
  destruct (matching_bits_differ t a Ht Ha) as (ra' & Ea & Hrange_a & Hza & H1a).
  destruct (matching_bits_differ t b Ht Hb) as (rb' & Eb & Hrange_b & Hzb & H1b).
  assert (ra' = ra) as -> by congruence. assert (rb' = rb) as -> by congruence.
  pose proof (packed_distance_range ra t a Hrange_a) as Hua.
  pose proof (packed_distance_range rb t b Hrange_b) as Hub. unfold packed_distance in *.
  pose proof (bits_value_range 23 (differ t a) (ra + 1)) as H23a.
  pose proof (bits_value_range 23 (differ t b) (rb + 1)) as H23b.
  change (Z.of_nat 23) with 23 in *.
  destruct (Z.eqb_spec ra 512) as [|Hra512]; [ apply Hub | ].
  destruct (xor_distance_split t a ra ltac:(lia) Hza ltac:(apply H1a; lia)) as (la & Hla & Hda).
  destruct (Z.eqb_spec rb 512) as [->|Hrb512].
  { rewrite (xor_distance_none t b Hzb) in Hle. pose proof (bits_value_range 512 (differ t a) 0).
    assert (0 < 2 ^ (534 - ra)) by (apply Z.pow_pos_nonneg; lia).
    assert (0 < 2 ^ (511 - ra)) by (apply Z.pow_pos_nonneg; lia). nia. }
  destruct (xor_distance_split t b rb ltac:(lia) Hzb ltac:(apply H1b; lia)) as (lb & Hlb & Hdb).
  assert (Hcmp : xor_distance t a * 2 ^ 23 <= xor_distance t b * 2 ^ 23) by lia.
  rewrite Hda, Hdb in Hcmp.
  assert (Hpa : 2 ^ (534 - ra) = 2 ^ 23 * 2 ^ (511 - ra)) by (rewrite <- Z.pow_add_r by lia; f_equal; lia).
  assert (Hpb : 2 ^ (534 - rb) = 2 ^ 23 * 2 ^ (511 - rb)) by (rewrite <- Z.pow_add_r by lia; f_equal; lia).
  assert (0 < 2 ^ (511 - ra)) by (apply Z.pow_pos_nonneg; lia).
  assert (0 < 2 ^ (511 - rb)) by (apply Z.pow_pos_nonneg; lia).
  destruct (Z.lt_trichotomy ra rb) as [Hlt|[->|Hgt]].
  - exfalso. assert (Hp : 2 ^ (511 - ra) = 2 ^ (rb - ra) * 2 ^ (511 - rb))
      by (rewrite <- Z.pow_add_r by lia; f_equal; lia).
    assert (2 <= 2 ^ (rb - ra)) by (change 2 with (2 ^ 1) at 1; apply Z.pow_le_mono_r; lia).
    nia.
  - destruct (rb =? 0); [ lia | ]. nia.
  - destruct (Z.eqb_spec rb 0); [ destruct (ra =? 0); unfold is_u32, UINT32_MAX in *; lia | ].
    rewrite (proj2 (Z.eqb_neq ra 0)) by lia. lia.
Qed.

(** C29: get_distance never fails on hash codes and orders peers as the
    exclusive or with the key does: a peer that is not farther from the key by
    the 512-bit exclusive or (the bits in the order in which prefixes are
    compared) does not get a larger distance, distances fit 32 bits, and the
    distance is 0 only for the key itself. *)
Theorem get_distance_respects_xor (target a b : GNUNET_HashCode) :
  is_hash target -> is_hash a -> is_hash b ->
  exists da db, get_distance target a = Ret da /\ get_distance target b = Ret db
    /\ is_u32 da /\ is_u32 db
    /\ (xor_distance target a <= xor_distance target b -> da <= db)
    /\ (da = 0 <-> a = target).
Proof.
  intros Ht Ha Hb.
  destruct (hash_matching_bits_spec target a Ht Ha) as (ra & Hra & Hrange_a & _ & _ & Heq).
  destruct (hash_matching_bits_spec target b Ht Hb) as (rb & Hrb & Hrange_b & _).
  exists (packed_distance ra target a), (packed_distance rb target b).
  split_and!; [ by apply get_distance_ok | by apply get_distance_ok | by apply packed_distance_range
    | by apply packed_distance_range | by apply packed_distance_mono | ].
  unfold packed_distance. pose proof (bits_value_range 23 (differ target a) (ra + 1)).
  destruct (Z.eqb_spec ra 512) as [E|E]; [ split; [ intros _; symmetry; by apply Heq | done ] | ].
  assert (Hne : a <> target) by (intros ->; apply E; by apply Heq).
  split; [ | done ]. destruct (ra =? 0); [ done | ]. intros; lia.
Qed.

Lemma get_distance_respects_xor_witness :
  exists da db, get_distance (replicate 16 4) (replicate 16 12) = Ret da
    /\ get_distance (replicate 16 4) (replicate 16 6) = Ret db /\ da <= db.
Proof.
  destruct (get_distance_respects_xor (replicate 16 4) (replicate 16 12) (replicate 16 6))
    as (da & db & Ha & Hb & _ & _ & Hle & _).
  1-3: split; [ reflexivity | repeat constructor; unfold is_u32; lia ].
  exists da, db. split_and!; [ done | done | ]. apply Hle. vm_compute. discriminate.
Defined.
