(* ===== verification/DhtTable.v ===== *)
(** * The table of connected peers of the DHT

    The invariant of the state that the neighbours module keeps: every connected peer is one
    object, known to the map under its identity, in the bucket for the length of the prefix
    that it shares with the local peer, and nowhere else; the counters are exact and no
    bucket above [closest_bucket] is used.  Connecting and disconnecting a peer add and
    remove it, and every other operation leaves the table as it is ([steady]). *)

From Stdlib Require Import ZArith Lia.
From stdpp Require Import base list numbers gmap.
From S2P Require Import Prelude Time Heap Hash MultiHashMap MapInterface BloomFilter Messages Routing.
From S2P Require Import RoutingSpec DhtMessages DhtNeighbours DhtDistance.
Local Open Scope Z_scope.

Create HintDb dht.

Section Table.
Context {M : Type} `{MM : MultiMap M nat} `{Env : DhtEnv}.

(** A message in a queue has the length that its header announces. *)
Definition pending_ok (pm : P2PPendingMessage) : Prop :=
  msg_size (pm_msg pm) = Z.of_nat (length (pm_msg pm)).

Record peer_ok (p : PeerInfo) : Prop := {
  po_id : is_hash (pi_id p);
  po_other : pi_id p <> my_identity;
  po_count : pi_pending_count p = Z.of_nat (length (pi_queue p));
  po_max : pi_pending_count p <= MAXIMUM_PENDING_PER_PEER;
  po_queue : Forall pending_ok (pi_queue p)
}.

(** [B] bounds the number of peers. *)
Record dht_ok (B : nat) (w : dht (M := M)) : Prop := {
  do_my_identity : is_hash my_identity;
  do_peers : forall a p, store w !! a = Some p -> peer_ok p;
  do_map : mm_ok B (all_known_peers w);
  do_keys : NoDup (mm_entries (all_known_peers w)).*1;
  do_known : forall id a, (id, a) ∈ mm_entries (all_known_peers w)
    <-> exists p, store w !! a = Some p /\ pi_id p = id;
  do_length : length (k_buckets w) = Z.to_nat MAX_BUCKETS;
  do_bucket : forall i b, k_buckets w !! i = Some b ->
    NoDup (pb_peers b) /\ peers_size b = Z.of_nat (length (pb_peers b))
    /\ forall a, a ∈ pb_peers b
         <-> exists p, store w !! a = Some p /\ find_bucket (pi_id p) = Ret (Z.of_nat i);
  do_closest : 0 <= closest_bucket w < MAX_BUCKETS;
  do_above : forall i b, k_buckets w !! i = Some b -> closest_bucket w < Z.of_nat i -> pb_peers b = [];
  do_bound : Z.of_nat B < 2 ^ 31
}.

(** The peers that are connected *)
Definition connected (w : dht (M := M)) (id : GNUNET_PeerIdentity) : Prop :=
  exists a p, store w !! a = Some p /\ pi_id p = id.

(** ** Buckets *)

Lemma find_bucket_ok id :
  is_hash my_identity -> is_hash id -> id <> my_identity ->
  exists i, find_bucket id = Ret (Z.of_nat i) /\ (i < Z.to_nat MAX_BUCKETS)%nat
    /\ GNUNET_CRYPTO_hash_matching_bits my_identity id = Ret (511 - Z.of_nat i).
Proof.
  intros Hm Hid Hne. destruct (hash_matching_bits_spec my_identity id Hm Hid) as (r & Hr & Hrange & _ & _ & Heq).
  assert (Hr512 : r <> 512) by (intros E; apply Hne; symmetry; by apply Heq).
  exists (Z.to_nat (511 - r)). unfold find_bucket. rewrite (bind_ret _ _ _ Hr). unfold MAX_BUCKETS.
  rewrite (proj2 (Z.eqb_neq r 512)) by lia. rewrite Z2Nat.id by lia.
  split_and!; [ f_equal; lia | lia | rewrite Hr; f_equal; lia ].
Qed.

Lemma peer_bucket B w a p :
  dht_ok B w -> store w !! a = Some p ->
  exists i b, find_bucket (pi_id p) = Ret (Z.of_nat i) /\ (i < Z.to_nat MAX_BUCKETS)%nat
    /\ k_buckets w !! i = Some b /\ a ∈ pb_peers b.
Proof.
  intros Hw Ha. destruct (do_peers _ _ Hw a p Ha).
  destruct (find_bucket_ok (pi_id p)) as (i & Hi & Hlt & _); [ apply Hw | done | done | ].
  destruct (lookup_lt_is_Some_2 (k_buckets w) i) as [b Hb]; [ by rewrite (do_length _ _ Hw) | ].
  exists i, b. split_and!; [ done | done | done | ].
  apply (do_bucket _ _ Hw i b Hb). eauto.
Qed.

Lemma bucket_of_peer B w i b a :
  dht_ok B w -> k_buckets w !! i = Some b -> a ∈ pb_peers b ->
  exists p, store w !! a = Some p /\ find_bucket (pi_id p) = Ret (Z.of_nat i).
Proof. intros Hw Hb Ha. by apply (do_bucket _ _ Hw i b Hb). Qed.

(** The map has one address for each identity. *)
Lemma known_get B w id :
  dht_ok B w ->
  match mm_get (all_known_peers w) id with
  | Some a => exists p, store w !! a = Some p /\ pi_id p = id
  | None => ~ connected w id
  end.
Proof.
  intros Hw. pose proof (mm_get_ok B (all_known_peers w) id (do_map _ _ Hw)) as Hg.
  destruct (mm_get _ id) as [a|].
  - by apply (do_known _ _ Hw).
  - intros (a & p & Ha & Hid). apply (Hg a). apply (do_known _ _ Hw). eauto.
Qed.

Lemma same_identity B w a1 a2 p1 p2 :
  dht_ok B w -> store w !! a1 = Some p1 -> store w !! a2 = Some p2 -> pi_id p1 = pi_id p2 -> a1 = a2.
Proof.
  intros Hw H1 H2 Hid.
  assert (E1 : (pi_id p1, a1) ∈ mm_entries (all_known_peers w)) by (apply (do_known _ _ Hw); eauto).
  assert (E2 : (pi_id p1, a2) ∈ mm_entries (all_known_peers w)) by (apply (do_known _ _ Hw); eauto).
  unfold GNUNET_PeerIdentity in *. apply list_elem_of_lookup in E1 as [i1 E1]. apply list_elem_of_lookup in E2 as [i2 E2].
  assert (i1 = i2) as <-.
  { apply (NoDup_lookup (mm_entries (all_known_peers w)).*1 i1 i2 (pi_id p1));
      [ apply Hw | by rewrite list_lookup_fmap, E1 | by rewrite list_lookup_fmap, E2 ]. }
  congruence.
Qed.

(** ** Operations that leave the table as it is: they keep the invariant of the routing table
    and only append to the calls *)

Record steady (B : nat) (w w' : dht (M := M)) : Prop := {
  st_ok : dht_ok B w';
  st_buckets : k_buckets w' = k_buckets w;
  st_known : all_known_peers w' = all_known_peers w;
  st_closest : closest_bucket w' = closest_bucket w;
  st_ids : forall a, pi_id <$> store w' !! a = pi_id <$> store w !! a;
  st_routing : routing_ok (recent w) -> routing_ok (recent w');
  st_calls : calls w `prefix_of` calls w'
}.

Lemma steady_refl B w : dht_ok B w -> steady B w w.
Proof. by constructor. Qed.

Lemma steady_trans B w1 w2 w3 : steady B w1 w2 -> steady B w2 w3 -> steady B w1 w3.
Proof. intros [] []. constructor; [ done | congruence.. | | by auto | by etransitivity ]. intros a. by rewrite st_ids1. Qed.

Lemma steady_ok B w w' : steady B w w' -> dht_ok B w'.
Proof. by intros []. Qed.

Lemma steady_peer B w w' a p :
  steady B w w' -> store w !! a = Some p -> exists p', store w' !! a = Some p' /\ pi_id p' = pi_id p.
Proof.
  intros Hs Ha. pose proof (st_ids _ _ _ Hs a) as E. rewrite Ha in E. cbn in E.
  destruct (store w' !! a) as [p'|]; [ | done ]. injection E. eauto.
Qed.

Lemma steady_connected B w w' id : steady B w w' -> connected w' id <-> connected w id.
Proof.
  intros Hs. unfold connected. split; intros (a & p & Ha & Hid).
  - pose proof (st_ids _ _ _ Hs a) as E. rewrite Ha in E. cbn in E.
    destruct (store w !! a) as [p'|] eqn:E'; [ | done ]. injection E as E. exists a, p'.
    split; [ done | congruence ].
  - destruct (steady_peer _ _ _ _ _ Hs Ha) as (p' & Ha' & E). exists a, p'. split; [ done | congruence ].
Qed.

(** A change of the other fields of the state *)
Lemma steady_other B w w' :
  dht_ok B w -> store w' = store w -> k_buckets w' = k_buckets w ->
  all_known_peers w' = all_known_peers w -> closest_bucket w' = closest_bucket w ->
  (routing_ok (recent w) -> routing_ok (recent w')) -> calls w `prefix_of` calls w' -> steady B w w'.
Proof.
  intros [] Hs Hb Hk Hc Hr Hcalls. constructor; [ | done | done | done | by rewrite Hs | done | done ].
  constructor; rewrite ?Hs, ?Hb, ?Hk, ?Hc; done.
Qed.

(** A change of a peer *)
Lemma steady_peer_change B w a p p' :
  dht_ok B w -> store w !! a = Some p -> peer_ok p' -> pi_id p' = pi_id p ->
  steady B w (set_store (<[a := p']> (store w)) w).
Proof.
  intros [] Ha Hp' Hid.
  assert (Hx : forall c (P : GNUNET_PeerIdentity -> Prop),
    (exists q, <[a := p']> (store w) !! c = Some q /\ P (pi_id q))
    <-> exists q, store w !! c = Some q /\ P (pi_id q)).
  { intros c P. destruct (decide (c = a)) as [->|Hne].
    - rewrite lookup_insert_eq, Ha. split; intros (q & [= <-] & HP); eexists; split; try done; congruence.
    - by rewrite lookup_insert_ne. }
  constructor; [ | done | done | done | | done | done ].
  - constructor; cbn [set_store store k_buckets all_known_peers closest_bucket]; try done.
    + intros c q. rewrite lookup_insert_Some. intros [[<- <-]|[Hne Hq]]; eauto.
    + intros id c. rewrite (do_known0 id c). symmetry. apply (Hx c (fun i => i = id)).
    + intros i b Hb. destruct (do_bucket0 i b Hb) as (Hn & Hs & He). split_and!; [ done | done | ].
      intros c. rewrite (He c). symmetry. apply (Hx c (fun i' => find_bucket i' = Ret (Z.of_nat i))).
  - intros c. cbn [set_store store]. destruct (decide (c = a)) as [->|Hne].
    + rewrite lookup_insert_eq, Ha. cbn. by rewrite Hid.
    + by rewrite lookup_insert_ne.
Qed.

(** ** Actions that leave the table as it is *)

(** [m] returns, the table stays, and the result satisfies [Q]. *)
Definition runs {A} (B : nat) (m : action (dht (M := M)) A) (w : dht) (Q : A -> dht -> Prop) : Prop :=
  returns m w (fun a w' => steady B w w' /\ Q a w').

Definition any {A} (_ : A) (_ : dht (M := M)) : Prop := True.

Lemma runs_ret {A} B (a : A) w (Q : A -> dht -> Prop) : dht_ok B w -> Q a w -> runs B (mret a) w Q.
Proof. intros Hw HQ. apply returns_ret. split; [ by apply steady_refl | done ]. Qed.

Lemma runs_bind {A C} B (m : action dht A) (f : A -> action dht C) w (Q : A -> dht -> Prop)
  (R : C -> dht -> Prop) :
  runs B m w Q -> (forall a w', steady B w w' -> Q a w' -> runs B (f a) w' R) -> runs B (m ≫= f) w R.
Proof.
  intros Hm Hf. eapply returns_bind; [ exact Hm | ]. cbn. intros a w' [Hs HQ].
  eapply returns_weaken; [ by apply (Hf a w') | ]. cbn. intros c w'' [Hs' HR].
  split; [ by eapply steady_trans | done ].
Qed.

Lemma runs_weaken {A} B (m : action dht A) w (Q R : A -> dht -> Prop) :
  runs B m w Q -> (forall a w', steady B w w' -> Q a w' -> R a w') -> runs B m w R.
Proof. intros Hm HR. eapply returns_weaken; [ exact Hm | ]. cbn. intros a w' []. auto. Qed.

Lemma runs_lift {A C} B (o : outcome A) (f : A -> action dht C) w (a : A) (R : C -> dht -> Prop) :
  o = Ret a -> runs B (f a) w R -> runs B (lift o ≫= f) w R.
Proof. apply returns_lift. Qed.

Lemma runs_get {C} B (f : dht -> action dht C) w (R : C -> dht -> Prop) :
  runs B (f w) w R -> runs B (get_state ≫= f) w R.
Proof. apply returns_get. Qed.

(** A step to a state with the same table *)
Lemma runs_step {A C} B (m : action dht A) (f : A -> action dht C) w w' (a : A) (R : C -> dht -> Prop) :
  m w = Ret (a, w') -> steady B w w' -> runs B (f a) w' R -> runs B (m ≫= f) w R.
Proof.
  intros Hm Hs Hf. eapply returns_step; [ exact Hm | ]. eapply returns_weaken; [ exact Hf | ].
  cbn. intros c w'' [Hs' HR]. split; [ by eapply steady_trans | done ].
Qed.

Lemma emit_steady B c w : dht_ok B w -> steady B w (add_call c w).
Proof. intros Hw. apply steady_other; try done. by apply prefix_app_r. Qed.

Lemma runs_emit {C} B c (f : unit -> action dht C) w (R : C -> dht -> Prop) :
  dht_ok B w -> runs B (f tt) (add_call c w) R -> runs B (emit c ≫= f) w R.
Proof. intros Hw. apply runs_step; [ done | by apply emit_steady ]. Qed.

Lemma runs_peer_at {C} B a p (f : PeerInfo -> action dht C) w (R : C -> dht -> Prop) :
  store w !! a = Some p -> runs B (f p) w R -> runs B (peer_at a ≫= f) w R.
Proof. intros Ha. apply returns_step. unfold peer_at. by rewrite Ha. Qed.

Lemma runs_now {C} B (f : GNUNET_TIME_Absolute -> action dht C) w (R : C -> dht -> Prop) :
  dht_ok B w -> runs B (f (clock (ticks w))) (count_reads 1 0 w) R ->
  runs B (GNUNET_TIME_absolute_get_now ≫= f) w R.
Proof. intros Hw. apply runs_step; [ done | by apply steady_other ]. Qed.

Lemma runs_random {C} B i (f : Z -> action dht C) w (R : C -> dht -> Prop) :
  dht_ok B w -> 0 < i ->
  (forall x, 0 <= x < i -> runs B (f x) (count_reads 0 1 w) R) -> runs B (random_below i ≫= f) w R.
Proof.
  intros Hw Hi Hf. eapply runs_step; [ | | apply Hf, Z.mod_pos_bound, Hi ].
  - unfold random_below. rewrite gnunet_assert_true by (by apply Z.ltb_lt). done.
  - by apply steady_other.
Qed.

Lemma update_peer_run a p (f : PeerInfo -> PeerInfo) (w : dht (M := M)) :
  store w !! a = Some p -> update_peer a f w = Ret (tt, set_store (<[a := f p]> (store w)) w).
Proof. intros Ha. unfold update_peer. by rewrite Ha. Qed.

(** The peer after the update is known. *)
Lemma runs_update_peer {C} B a p g (f : unit -> action dht C) w (R : C -> dht -> Prop) :
  dht_ok B w -> store w !! a = Some p -> peer_ok (g p) -> pi_id (g p) = pi_id p ->
  (forall w', steady B w w' -> store w' !! a = Some (g p) -> runs B (f tt) w' R) ->
  runs B (update_peer a g ≫= f) w R.
Proof.
  intros Hw Ha Hp Hid Hf.
  assert (Hs : steady B w (set_store (<[a := g p]> (store w)) w)) by by eapply steady_peer_change.
  eapply runs_step; [ by apply update_peer_run | done | ]. apply Hf; [ done | ].
  cbn [set_store store]. by rewrite lookup_insert_eq.
Qed.

Lemma runs_last {A} B (m : action dht A) w (Q : A -> dht -> Prop) :
  runs B (a ← m; mret a) w Q -> runs B m w Q.
Proof.
  intros (a & w' & Hm & HQ). exists a, w'. split; [ | done ]. revert Hm. unfold mbind, action_bind.
  destruct (m w) as [[a1 w1]| |]; [ | done | done ]. intros Hr. by injection Hr as -> ->.
Qed.

Lemma peer_ok_th p b : peer_ok p -> peer_ok (set_th b p).
Proof. by intros []. Qed.

Lemma peer_ok_task p b : peer_ok p -> peer_ok (set_preference_task b p).
Proof. by intros []. Qed.

Lemma peer_ok_queue p n q :
  peer_ok p -> n = Z.of_nat (length q) -> n <= MAXIMUM_PENDING_PER_PEER -> Forall pending_ok q ->
  peer_ok (set_queue p n q).
Proof. by intros []. Qed.
End Table.

#[export] Hint Resolve peer_ok_th peer_ok_task steady_ok : dht.

Section Operations.
Context {M : Type} `{MM : MultiMap M nat} `{Env : DhtEnv}.

(** ** Preferences and transmission *)

Lemma update_core_preference_ok B w a p shutdown :
  dht_ok B w -> store w !! a = Some p -> runs B (update_core_preference a shutdown) w any.
Proof.
  intros Hw Ha. pose proof (do_peers _ _ Hw a p Ha) as Hp. unfold update_core_preference.
  apply runs_update_peer with (p := p); [ done | done | auto with dht | done | ].
  intros w1 Hs1 Ha1. destruct shutdown; [ apply runs_ret; [ by eapply steady_ok | done ] | ].
  apply runs_peer_at with (p := set_preference_task false p); [ done | ]. cbn [pi_id set_preference_task].
  destruct (peer_bucket B w a p Hw Ha) as (i & b & Hi & Hlt & Hb & Hin).
  destruct (find_bucket_ok (pi_id p)) as (i' & Hi' & _ & Hmatch); [ apply Hw | apply Hp | apply Hp | ].
  assert (i' = i) as -> by (rewrite Hi in Hi'; injection Hi'; lia). clear Hi'.
  apply runs_lift with (a := 511 - Z.of_nat i); [ done | ]. set (matching := if 64 <=? _ then 63 else _).
  apply runs_lift with (a := Z.of_nat i); [ done | ]. apply runs_get.
  assert (Hpref : exists n,
    (if Z.of_nat i =? GNUNET_SYSERR then Ret 0
     else b ← bucket_at w1 (Z.of_nat i);
          _ ← gnunet_assert (negb (peers_size b =? 0));
          Ret (u64 (Z.quot (s64 (Z.shiftl 1 matching)) (peers_size b)))) = Ret n).
  { unfold GNUNET_SYSERR. rewrite (proj2 (Z.eqb_neq _ _)) by lia. unfold bucket_at.
    rewrite (st_buckets _ _ _ Hs1), Nat2Z.id, Hb. cbn [of_option mbind outcome_bind].
    destruct (do_bucket _ _ Hw i b Hb) as (_ & Hsz & _).
    destruct (pb_peers b) as [|x l]; [ by apply elem_of_nil in Hin | ]. cbn [length] in Hsz.
    rewrite gnunet_assert_true by (rewrite (proj2 (Z.eqb_neq _ _)); [ done | lia ]). eauto. }
  destruct Hpref as (n & Hn). apply runs_lift with (a := n); [ exact Hn | ].
  assert (Hend : forall w2, dht_ok B w2 -> store w2 !! a = Some (set_preference_task false p) ->
    runs B (update_peer a (set_preference_task true)) w2 any).
  { intros w2 Hw2 Ha2. apply runs_last, runs_update_peer with (p := set_preference_task false p);
      [ done | done | auto with dht | done | ]. intros. apply runs_ret; [ by eapply steady_ok | done ]. }
  assert (Hw1 : dht_ok B w1) by by eapply steady_ok.
  destruct (n =? 0).
  - apply runs_emit; [ done | ]. apply Hend; [ by eapply steady_ok, emit_steady | done ].
  - apply runs_emit; [ done | ]. apply runs_emit; [ by eapply steady_ok, emit_steady | ].
    apply Hend; [ by eapply steady_ok, emit_steady, steady_ok, emit_steady | done ].
Qed.

Lemma notify_transmit_ready_ok B w a p pm size :
  dht_ok B w -> store w !! a = Some p ->
  runs B (notify_transmit_ready a pm size) w
    (fun _ w' => exists b, store w' = <[a := set_th b p]> (store w)).
Proof.
  intros Hw Ha. pose proof (do_peers _ _ Hw a p Ha) as Hp. unfold notify_transmit_ready.
  apply runs_now; [ done | ]. apply runs_peer_at with (p := p); [ done | ].
  assert (Hw1 : dht_ok B (count_reads 1 0 w)) by (eapply steady_ok, steady_other; done).
  apply runs_emit; [ done | ]. apply runs_last.
  assert (Hw2 := steady_ok _ _ _ (emit_steady B (CORE_notify_transmit_ready a (pm_importance pm)
    (GNUNET_TIME_absolute_get_remaining (clock (ticks w)) (pm_timeout pm)) (pi_id p) size) _ Hw1)).
  eapply runs_step; [ by apply update_peer_run | eapply steady_peer_change; try done; auto with dht | ].
  apply runs_ret; [ eapply steady_ok, steady_peer_change; try done; auto with dht | eauto ].
Qed.

Lemma process_peer_queue_ok B w a p :
  dht_ok B w -> store w !! a = Some p ->
  runs B (process_peer_queue a) w (fun _ w' => exists b, store w' = <[a := set_th b p]> (store w)).
Proof.
  intros Hw Ha. unfold process_peer_queue. apply runs_peer_at with (p := p); [ done | ].
  assert (Hsame : exists b, store w = <[a := set_th b p]> (store w))
    by (exists (pi_th p); symmetry; apply insert_id; by destruct p).
  destruct (pi_queue p) as [|pm q] eqn:Hq; [ by apply runs_ret | ].
  destruct (pi_th p) eqn:Hth; [ apply runs_ret; done | ].
  by apply notify_transmit_ready_ok.
Qed.

(** Whether the time of a message is up *)
Definition expired (now : GNUNET_TIME_Absolute) (pm : P2PPendingMessage) : bool :=
  rel_value (GNUNET_TIME_absolute_get_remaining now (pm_timeout pm)) =? 0.

(** The messages [old] in front of a queue are expired at the readings of the clock from
    the [n]th on, and the first one of [rest] is not. *)
Definition expired_prefix (n : nat) (old rest : list P2PPendingMessage) : Prop :=
  (forall j pm, old !! j = Some pm -> expired (clock (n + j)) pm = true)
  /\ (forall pm, head rest = Some pm -> expired (clock (n + length old)) pm = false).

(** Messages whose time is up are dropped from the front. *)
Lemma drop_expired_ok B q : forall w count,
  dht_ok B w -> count = Z.of_nat (length q) -> count < 2 ^ 32 ->
  runs B (drop_expired q count) w (fun r w' => store w' = store w /\ exists old,
    q = old ++ r.1 /\ r.2 = Z.of_nat (length r.1) /\ expired_prefix (ticks w) old r.1).
Proof.
  induction q as [|pm q IH]; intros w count Hw Hc Hb; cbn [drop_expired].
  { apply runs_ret; [ done | ]. split; [ done | ]. exists []. by subst. }
  apply runs_now; [ done | ].
  assert (Hs1 : steady B w (count_reads 1 0 w)) by (by apply steady_other).
  assert (Hw1 := steady_ok _ _ _ Hs1). fold (expired (clock (ticks w)) pm).
  destruct (expired (clock (ticks w)) pm) eqn:Hpm.
  - cbn [length] in Hc. eapply runs_weaken.
    + apply IH; [ done | rewrite u32_small by (unfold is_u32; lia); lia | pose proof (u32_range (count - 1)); unfold is_u32 in *; lia ].
    + cbn beta. intros [q' n] w' _ (Hst & old & -> & Hn & Hold & Hrest). split; [ done | ]. exists (pm :: old).
      split_and!; [ done | done | ]. cbn [ticks count_reads] in Hold, Hrest. split.
      * intros [|j] pm' Hj; [ injection Hj as <-; by rewrite Nat.add_0_r | ].
        replace (ticks w + S j)%nat with (ticks w + 1 + j)%nat by lia. by apply Hold.
      * intros pm' Hh. cbn [length]. replace (ticks w + S (length old))%nat with (ticks w + 1 + length old)%nat by lia.
        by apply Hrest.
  - apply runs_ret; [ done | ]. split; [ done | ]. exists []. split_and!; [ done | by subst | ]. split; [ done | ].
    intros pm' [= <-]. by rewrite Nat.add_0_r.
Qed.

(** The messages that fit are copied in order. *)
Lemma copy_messages_ok q : forall count size off buf,
  Forall pending_ok q -> count = Z.of_nat (length q) -> count < 2 ^ 32 ->
  off = Z.of_nat (length buf) -> off <= size ->
  exists sent q', copy_messages q count size off buf
      = Ret (buf ++ concat (pm_msg <$> sent), q', Z.of_nat (length q'))
    /\ q = sent ++ q' /\ Z.of_nat (length (buf ++ concat (pm_msg <$> sent))) <= size
    /\ match q' with
       | [] => True
       | pm :: _ => size < Z.of_nat (length (buf ++ concat (pm_msg <$> sent)) + length (pm_msg pm))
       end.
Proof.
  induction q as [|pm q IH]; intros count size off buf Hq Hc Hb Hoff Hle; cbn [copy_messages].
  { exists [], []. rewrite app_nil_r, Hc. split_and!; [ done | done | lia | done ]. }
  apply Forall_cons in Hq as [Hpm Hq]. rewrite Hpm.
  destruct (Z.leb_spec (Z.of_nat (length (pm_msg pm))) (size - off)) as [Hfit|Hnot].
  - rewrite Nat2Z.id, mem_read_ok, drop_0, take_ge by lia. cbn [mbind outcome_bind length] in *.
    destruct (IH (u32 (count - 1)) size (off + Z.of_nat (length (pm_msg pm))) (buf ++ pm_msg pm))
      as (sent & q' & -> & -> & Hsz & Hrest);
      [ done | rewrite u32_small by (unfold is_u32; lia); lia
      | pose proof (u32_range (count - 1)); unfold is_u32 in *; lia | rewrite length_app; lia | lia | ].
    exists (pm :: sent), q'. cbn [fmap list_fmap concat]. rewrite app_assoc. auto.
  - exists [], (pm :: q). rewrite app_nil_r. subst count.
    split_and!; [ done | done | lia | lia ].
Qed.

(** Messages leave in the order of the queue, without those that are expired, as far as they
    fit; the others stay queued. *)
Lemma core_transmit_notify_ok B w a p size :
  dht_ok B w -> store w !! a = Some p -> match size with Some n => 0 <= n | None => True end ->
  runs B (core_transmit_notify a size) w (fun buf w' => exists old sent q' p',
    store w' !! a = Some p' /\ pi_queue p = old ++ sent ++ q' /\ pi_queue p' = q'
    /\ expired_prefix (ticks w) old (sent ++ q') /\ buf = concat (pm_msg <$> sent)
    /\ match size with
       | Some n => Z.of_nat (length buf) <= n
           /\ forall pm, head q' = Some pm -> n < Z.of_nat (length buf + length (pm_msg pm))
       | None => sent = []
       end).
Proof.
  intros Hw Ha Hsize. pose proof (do_peers _ _ Hw a p Ha) as Hp. unfold core_transmit_notify.
  eapply runs_step; [ by apply update_peer_run | eapply steady_peer_change; try done; auto with dht | ].
  set (w1 := set_store _ w). assert (Ha1 : store w1 !! a = Some (set_th false p)) by apply lookup_insert_eq.
  assert (Hs1 : steady B w w1) by (eapply steady_peer_change; try done; auto with dht).
  apply runs_peer_at with (p := set_th false p); [ done | ].
  assert (Hw1 := steady_ok _ _ _ Hs1). pose proof Hp as [_ _ Hcnt Hmax Hq].
  assert (Hmax' : pi_pending_count p < 2 ^ 32) by (unfold MAXIMUM_PENDING_PER_PEER in *; lia).
  eapply runs_bind; [ apply (drop_expired_ok B (pi_queue p)); done | ]. cbn beta.
  intros [q count] w2 Hs2 (Hst & old & Hold & Hcount & Hexp). cbn [fst snd] in *. change (ticks w1) with (ticks w) in Hexp.
  assert (Hw2 := steady_ok _ _ _ Hs2). rewrite <- Hst in Ha1.
  rewrite Hold in Hq. apply Forall_app in Hq as [_ Hq].
  assert (Hlen : count <= MAXIMUM_PENDING_PER_PEER) by (rewrite Hcount; rewrite Hold, length_app in Hcnt; lia).
  apply runs_update_peer with (p := set_th false p); [ done | done | apply peer_ok_queue; auto with dht | done | ].
  intros w3 Hs3 Ha3. assert (Hw3 := steady_ok _ _ _ Hs3).
  destruct q as [|pm q]; [ | destruct size as [n|] ].
  - apply runs_ret; [ done | ]. exists old, [], []. eexists. split_and!; [ done | done | done | done | done | ].
    destruct size; cbn; [ split; [ lia | done ] | done ].
  - destruct (copy_messages_ok (pm :: q) count n 0 []) as (sent & q' & Hcopy & Hsplit & Hfit & Hrest);
      [ done | done | unfold MAXIMUM_PENDING_PER_PEER in *; lia | done | lia | ].
    eapply runs_lift; [ exact Hcopy | ]. cbv beta iota. rewrite app_nil_l in *.
    rewrite Hsplit in Hq, Hexp. apply Forall_app in Hq as [_ Hq].
    eapply runs_update_peer; [ done | exact Ha3 | | done | ].
    { apply peer_ok_queue; [ by apply (do_peers _ _ Hw3 a) | done | | done ].
      rewrite Hcount, Hsplit, length_app in Hlen. lia. }
    intros w4 Hs4 Ha4. assert (Hw4 := steady_ok _ _ _ Hs4). destruct q' as [|pm' q'].
    + apply runs_ret; [ done | ]. exists old, sent, []. eexists.
      split_and!; [ exact Ha4 | by rewrite Hold, Hsplit | done | done | done | done | done ].
    + eapply runs_bind; [ by apply notify_transmit_ready_ok with (1 := Hw4) (2 := Ha4) | ]. cbn beta.
      intros _ w5 Hs5 (b & Hst5). assert (Ha5 := f_equal (lookup a) Hst5). rewrite lookup_insert_eq in Ha5. apply runs_ret; [ by eapply steady_ok | ].
      exists old, sent, (pm' :: q'). eexists.
      split_and!; [ exact Ha5 | by rewrite Hold, Hsplit | done | done | done | done | by intros ? [= <-] ].
  - eapply runs_bind; [ by apply notify_transmit_ready_ok with (1 := Hw3) (2 := Ha3) | ]. cbn beta.
    intros _ w5 Hs5 (b & Hst5). assert (Ha5 := f_equal (lookup a) Hst5). rewrite lookup_insert_eq in Ha5. apply runs_ret; [ by eapply steady_ok | ].
    exists old, [], (pm :: q). eexists. split_and!; [ exact Ha5 | done | done | done | done | done ].
Qed.

(** ** Connecting *)

Lemma bucket_length B (w : dht (M := M)) i b :
  dht_ok B w -> k_buckets w !! i = Some b ->
  (length (pb_peers b) <= length (mm_entries (all_known_peers w)))%nat.
Proof.
  intros Hw Hb. destruct (do_bucket _ _ Hw i b Hb) as (Hn & _ & He).
  rewrite <- (length_fmap snd (mm_entries _)). apply submseteq_length, NoDup_submseteq; [ done | ].
  intros a Ha. apply He in Ha as (p & Hp & _).
  apply list_elem_of_fmap. exists (pi_id p, a). split; [ done | ]. apply (do_known _ _ Hw). eauto.
Qed.

(** A new peer in its bucket *)
Lemma dht_ok_add B (w w' : dht (M := M)) a p i b :
  dht_ok B w -> store w !! a = None -> peer_ok p -> ~ connected w (pi_id p) ->
  find_bucket (pi_id p) = Ret (Z.of_nat i) -> k_buckets w !! i = Some b ->
  store w' = <[a := p]> (store w) ->
  k_buckets w' = <[i := mk_bucket (pb_peers b ++ [a]) (peers_size b + 1)]> (k_buckets w) ->
  mm_ok B (all_known_peers w') ->
  mm_entries (all_known_peers w') ≡ₚ (pi_id p, a) :: mm_entries (all_known_peers w) ->
  closest_bucket w' = Z.max (closest_bucket w) (Z.of_nat i) ->
  dht_ok B w'.
Proof.
  intros Hw Ha Hp Hnew Hi Hb Hst Hbk Hmap Hent Hcl.
  assert (Hlt : (i < length (k_buckets w))%nat) by (by eapply lookup_lt_Some).
  destruct (do_bucket _ _ Hw i b Hb) as (Hn & Hsz & He).
  assert (Hab : a ∉ pb_peers b) by (intros Hin; apply He in Hin as (q & Hq & _); congruence).
  assert (Hstore : forall c (P : PeerInfo -> Prop),
    (exists q, store w' !! c = Some q /\ P q)
    <-> (c = a /\ P p) \/ exists q, store w !! c = Some q /\ P q).
  { intros c P. rewrite Hst. destruct (decide (c = a)) as [->|Hne].
    - rewrite lookup_insert_eq, Ha. naive_solver.
    - rewrite lookup_insert_ne by done. naive_solver. }
  pose proof Hw as []. constructor; [ done | | done | | | | | | | done ].
  - intros c q. rewrite Hst, lookup_insert_Some. intros [[<- <-]|[_ Hq]]; [ done | eauto ].
  - rewrite Hent, fmap_cons. apply NoDup_cons. split; [ | done ]. intros Hin.
    apply list_elem_of_fmap in Hin as ([id c] & Hid & Hin). cbn in Hid. subst id. apply Hnew.
    apply do_known0 in Hin as (q & Hq & E). by exists c, q.
  - intros id c. rewrite Hent, elem_of_cons, do_known0, (Hstore c (fun q => pi_id q = id)).
    apply or_iff_compat_r. split; [ intros [= -> ->]; done | intros [-> <-]; done ].
  - by rewrite Hbk, length_insert.
  - intros j c. rewrite Hbk. destruct (decide (j = i)) as [->|Hne].
    + rewrite list_lookup_insert_eq by done. intros [= <-]. cbn [pb_peers peers_size]. split_and!.
      * apply NoDup_app. split_and!; [ done | | apply NoDup_singleton ].
        intros x Hx Hxa. apply list_elem_of_singleton in Hxa. by subst.
      * rewrite length_app, Hsz. cbn. lia.
      * intros x. rewrite elem_of_app, list_elem_of_singleton, He,
          (Hstore x (fun q => find_bucket (pi_id q) = Ret (Z.of_nat i))). naive_solver.
    + rewrite list_lookup_insert_ne by done. intros Hc. destruct (do_bucket0 j c Hc) as (Hn' & Hs' & He').
      split_and!; [ done | done | ]. intros x.
      rewrite He', (Hstore x (fun q => find_bucket (pi_id q) = Ret (Z.of_nat j))).
      split; [ by right | ]. intros [[-> Hj]|]; [ | done ]. exfalso. apply Hne.
      rewrite Hi in Hj. injection Hj. lia.
  - rewrite Hcl. rewrite do_length0 in Hlt. unfold MAX_BUCKETS in *. lia.
  - intros j c. rewrite Hbk, Hcl. destruct (decide (j = i)) as [->|Hne]; [ lia | ].
    rewrite list_lookup_insert_ne by done. intros Hc Hj. eapply do_above0; [ done | lia ].
Qed.

Lemma handle_core_connect_ok B w a peer :
  dht_ok B w -> store w !! a = None -> is_hash peer ->
  (length (mm_entries (all_known_peers w)) < B)%nat ->
  returns (handle_core_connect a peer) w (fun _ w' => dht_ok B w' /\ recent w' = recent w
    /\ forall id, connected w' id <-> connected w id \/ (id = peer /\ peer <> my_identity)).
Proof.
  intros Hw Ha Hpeer HB. unfold handle_core_connect. apply returns_get.
  case_bool_decide as Hself.
  { apply returns_ret. split_and!; [ done | done | ]. intros id. subst. naive_solver. }
  pose proof (known_get B w peer Hw) as Hknown. rewrite (mm_contains_ok B _ peer (do_map _ _ Hw)).
  destruct (mm_get (all_known_peers w) peer) as [c|] eqn:Hget; cbn.
  { apply returns_ret. split_and!; [ done | done | ]. destruct Hknown as (q & Hq & <-). intros id.
    split; [ by left | ]. intros [Hid|[-> _]]; [ done | by exists c, q ]. }
  destruct (find_bucket_ok peer) as (i & Hi & Hlt & _); [ apply Hw | done | congruence | ].
  apply returns_lift with (a := Z.of_nat i); [ done | ]. unfold MAX_BUCKETS in *.
  apply returns_lift with (a := tt).
  { apply gnunet_assert_true. rewrite (proj2 (Z.leb_le _ _)), (proj2 (Z.ltb_lt _ _)) by lia. done. }
  destruct (lookup_lt_is_Some_2 (k_buckets w) i) as [b Hb];
    [ by rewrite (do_length _ _ Hw) | ].
  apply returns_lift with (a := b); [ unfold bucket_at; by rewrite Nat2Z.id, Hb | ].
  apply returns_modify, returns_modify. rewrite Nat2Z.id.
  set (p0 := mk_peer_info 0 [] false false peer).
  pose proof (bucket_length B w i b Hw Hb) as Hbl. pose proof (do_bound _ _ Hw) as HB31.
  destruct (do_bucket _ _ Hw i b Hb) as (_ & Hsz & _).
  assert (Hsz' : u32 (peers_size b + 1) = peers_size b + 1) by (apply u32_small; unfold is_u32; lia).
  rewrite Hsz'. clear Hsz'.
  set (w1 := set_buckets _ _ _).
  apply returns_bind with (Q := fun _ w2 => exists t, store w2 = <[a := set_preference_task t p0]> (store w)
    /\ k_buckets w2 = k_buckets w1 /\ closest_bucket w2 = closest_bucket w1 /\ recent w2 = recent w).
  { destruct (_ && _); [ | apply returns_ret; by exists false ].
    apply returns_step with (a := tt) (w' := add_call (SCHEDULER_add_preference GNUNET_TIME_relative_get_zero_ a) w1); [ done | ].
    eapply returns_step; [ apply update_peer_run with (p := p0); cbn; by rewrite lookup_insert_eq | ].
    eexists tt, _. split; [ reflexivity | ]. exists true. cbn. by rewrite insert_insert_eq. }
  intros _ w2 (t & Hst & Hbk & Hcl & Hrec).
  destruct (mm_put_unique_ok B (all_known_peers w) peer a (do_map _ _ Hw) HB Hget) as (m & -> & Hm & Hent).
  apply returns_lift with (a := tt); [ done | ]. apply returns_modify.
  assert (Hfinal : forall w3, store w3 = store w2 -> k_buckets w3 = k_buckets w2 ->
    closest_bucket w3 = closest_bucket w2 -> all_known_peers w3 = m -> recent w3 = recent w2 ->
    dht_ok B w3 /\ recent w3 = recent w /\ forall id, connected w3 id <-> connected w id \/ (id = peer /\ peer <> my_identity)).
  { intros w3 Hs3 Hb3 Hc3 Hm3 Hr3. split_and!; [ | congruence | ].
    - apply dht_ok_add with (w := w) (a := a) (p := set_preference_task t p0) (i := i) (b := b);
        rewrite ?Hs3, ?Hb3, ?Hc3, ?Hm3, ?Hst, ?Hbk, ?Hcl; done.
    - intros id. unfold connected. rewrite Hs3, Hst. split.
      + intros (c & q & Hq & <-). apply lookup_insert_Some in Hq as [[<- <-]|[_ Hq]]; [ by right | left; eauto ].
      + intros [(c & q & Hq & Hid)|[-> _]].
        * exists c, q. rewrite lookup_insert_ne; [ done | congruence ].
        * exists a, (set_preference_task t p0). split; [ by rewrite lookup_insert_eq | done ]. }
  match goal with |- returns (if ?b then _ else _) _ _ => destruct b end.
  - eapply returns_step; [ done | ]. eexists tt, _. split; [ reflexivity | ]. by apply Hfinal.
  - eexists tt, _. split; [ reflexivity | ]. by apply Hfinal.
Qed.

(** ** Disconnecting *)

Lemma dll_remove_ok a l : a ∈ l -> NoDup l ->
  exists l', dll_remove a l = Ret l' /\ NoDup l' /\ S (length l') = length l
    /\ forall x, x ∈ l' <-> x ∈ l /\ x <> a.
Proof.
  induction l as [|y l IH]; intros Ha Hn; [ by apply elem_of_nil in Ha | ].
  apply NoDup_cons in Hn as [Hy Hn]. cbn [dll_remove]. destruct (decide (y = a)) as [->|Hne].
  - exists l. split_and!; [ done | done | done | ]. intros x. rewrite elem_of_cons. naive_solver.
  - apply elem_of_cons in Ha as [->|Ha]; [ done | ]. destruct (IH Ha Hn) as (l' & -> & Hn' & Hl & He).
    exists (y :: l'). cbn [mbind outcome_bind length]. split_and!; [ done | | lia | ].
    + apply NoDup_cons. rewrite He. naive_solver.
    + intros x. rewrite !elem_of_cons, He. naive_solver.
Qed.

Lemma lower_closest_ok buckets c :
  (c < length buckets)%nat ->
  exists c', lower_closest buckets c = Ret c' /\ (c' <= c)%nat
    /\ forall i b, (c' < i <= c)%nat -> buckets !! i = Some b -> peers_size b = 0.
Proof.
  induction c as [|c IH]; intros Hc; cbn [lower_closest]; [ exists 0%nat; split_and!; [ done | lia | lia ] | ].
  destruct (lookup_lt_is_Some_2 buckets (S c) Hc) as [b Hb]. rewrite Hb. cbn [of_option mbind outcome_bind].
  destruct (Z.eqb_spec (peers_size b) 0) as [H0|H0].
  - destruct (IH ltac:(lia)) as (c' & -> & Hle & Hz). exists c'. split_and!; [ done | lia | ].
    intros i b' Hi Hb'. destruct (decide (i = S c)) as [->|]; [ congruence | ]. apply (Hz i b'); [ lia | done ].
  - exists (S c). split_and!; [ done | lia | lia ].
Qed.

(** A peer that leaves its bucket *)
Lemma dht_ok_remove B (w w' : dht (M := M)) a p i b l :
  dht_ok B w -> store w !! a = Some p ->
  find_bucket (pi_id p) = Ret (Z.of_nat i) -> k_buckets w !! i = Some b ->
  NoDup l -> S (length l) = length (pb_peers b) -> (forall x, x ∈ l <-> x ∈ pb_peers b /\ x <> a) ->
  store w' = delete a (store w) ->
  k_buckets w' = <[i := mk_bucket l (peers_size b - 1)]> (k_buckets w) ->
  mm_ok B (all_known_peers w') ->
  mm_entries (all_known_peers w) ≡ₚ (pi_id p, a) :: mm_entries (all_known_peers w') ->
  0 <= closest_bucket w' <= closest_bucket w ->
  (forall j c, closest_bucket w' < Z.of_nat j <= closest_bucket w -> k_buckets w' !! j = Some c ->
     peers_size c = 0) ->
  dht_ok B w'.
Proof.
  intros Hw Ha Hi Hb Hnl Hll Hel Hst Hbk Hmap Hent Hcl Hz.
  assert (Hlt : (i < length (k_buckets w))%nat) by (by eapply lookup_lt_Some).
  destruct (do_bucket _ _ Hw i b Hb) as (Hn & Hsz & He).
  assert (Hstore : forall c (P : PeerInfo -> Prop),
    (exists q, store w' !! c = Some q /\ P q) <-> c <> a /\ exists q, store w !! c = Some q /\ P q).
  { intros c P. rewrite Hst. destruct (decide (c = a)) as [->|Hne].
    - rewrite lookup_delete_eq. naive_solver.
    - rewrite lookup_delete_ne by done. naive_solver. }
  pose proof (do_keys _ _ Hw) as Hkeys. rewrite Hent, fmap_cons in Hkeys.
  apply NoDup_cons in Hkeys as [Hnew Hkeys]. cbn [fst] in Hnew.
  assert (Hbuckets : forall j c, k_buckets w' !! j = Some c ->
    NoDup (pb_peers c) /\ peers_size c = Z.of_nat (length (pb_peers c))
    /\ forall x, x ∈ pb_peers c
         <-> exists q, store w' !! x = Some q /\ find_bucket (pi_id q) = Ret (Z.of_nat j)).
  { intros j c. rewrite Hbk. destruct (decide (j = i)) as [->|Hne].
    + rewrite list_lookup_insert_eq by done. intros [= <-]. cbn [pb_peers peers_size].
      split_and!; [ done | lia | ]. intros x.
      rewrite Hel, He, (Hstore x (fun q => find_bucket (pi_id q) = Ret (Z.of_nat i))). tauto.
    + rewrite list_lookup_insert_ne by done. intros Hc.
      destruct (do_bucket _ _ Hw j c Hc) as (Hn' & Hs' & He'). split_and!; [ done | done | ]. intros x.
      rewrite He', (Hstore x (fun q => find_bucket (pi_id q) = Ret (Z.of_nat j))).
      split; [ | by intros [_ Hx] ]. intros (q & Hq & Hj). split; [ | eauto ]. intros ->. apply Hne.
      rewrite Ha in Hq. injection Hq as <-. rewrite Hi in Hj. injection Hj. lia. }
  pose proof Hw as []. constructor; [ done | | done | done | | | done | lia | | done ].
  - intros c q Hq. destruct (proj1 (Hstore c (fun r => r = q))) as (_ & r & Hr & ->); eauto.
  - intros id c. rewrite (Hstore c (fun q => pi_id q = id)), <- do_known0, Hent, elem_of_cons.
    split.
    + intros Hin. split; [ | by right ]. intros ->. apply Hnew.
      assert (Hd : exists q, store w !! a = Some q /\ pi_id q = id)
        by (apply do_known0; rewrite Hent; by right).
      destruct Hd as (q & Hq & <-). rewrite Ha in Hq. injection Hq as <-.
      apply list_elem_of_fmap. by exists (pi_id p, a).
    + intros [Hne [[= _ ->]|Hin]]; done.
  - by rewrite Hbk, length_insert.
  - intros j c Hc Hj. destruct (Hbuckets j c Hc) as (_ & Hs & Hec).
    destruct (Z.le_gt_cases (Z.of_nat j) (closest_bucket w)) as [Hle|Hgt].
    + specialize (Hz j c ltac:(lia) Hc). destruct (pb_peers c); [ done | ]. cbn in Hs. lia.
    + destruct (pb_peers c) as [|x r] eqn:Hpc; [ done | ]. exfalso.
      destruct (proj1 (Hec x) ltac:(left)) as (q & Hq & Hqj).
      destruct (proj1 (Hstore x (fun r => find_bucket (pi_id r) = Ret (Z.of_nat j)))) as (_ & q' & Hq' & Hj');
        [ eauto | ].
      destruct (peer_bucket B w x q' Hw Hq') as (i' & b' & Hi' & _ & Hb' & Hin).
      assert (i' = j) as -> by (rewrite Hj' in Hi'; injection Hi'; lia).
      rewrite (do_above0 j b' Hb' ltac:(lia)) in Hin. by apply elem_of_nil in Hin.
Qed.

(** A state that differs from [w] in the map, the calls and the fields of peer [a] other than
    its identity *)
Definition same_but (a : nat) (w w' : dht (M := M)) : Prop :=
  k_buckets w' = k_buckets w /\ closest_bucket w' = closest_bucket w
  /\ recent w' = recent w /\ delete a (store w') = delete a (store w) /\ is_Some (store w' !! a).

(** Cancelling a task or a request of peer [a] *)
Lemma cancel_same (b : bool) c f a p (w : dht (M := M)) :
  store w !! a = Some p ->
  returns (if b then _ ← emit c; update_peer a f else mret tt) w (fun _ w' => same_but a w w'
    /\ all_known_peers w' = all_known_peers w).
Proof.
  intros Ha. destruct b.
  - eapply returns_step; [ done | ]. eexists tt, _.
    split; [ apply update_peer_run with (p := p); done | ].
    split; [ | done ]. split_and!; [ done | done | done | | ]; cbn [set_store store add_call].
    + apply delete_insert_eq.
    + rewrite lookup_insert_eq. eauto.
  - apply returns_ret. split; [ | done ]. split_and!; [ done | done | done | done | eauto ].
Qed.

Lemma handle_core_disconnect_ok B w peer :
  dht_ok B w ->
  returns (handle_core_disconnect peer) w (fun _ w' => dht_ok B w' /\ recent w' = recent w
    /\ forall id, connected w' id <-> connected w id /\ id <> peer).
Proof.
  intros Hw. unfold handle_core_disconnect. apply returns_get.
  assert (Hself : ~ connected w my_identity)
    by (intros (a & p & Ha & Hid); by apply (po_other _ (do_peers _ _ Hw a p Ha))).
  case_bool_decide as Hme.
  { apply returns_ret. split_and!; [ done | done | ]. intros id. subst. naive_solver. }
  pose proof (known_get B w peer Hw) as Hknown. pose proof (mm_get_ok B _ peer (do_map _ _ Hw)) as Hget.
  destruct (mm_get (all_known_peers w) peer) as [a|].
  2: { apply returns_ret. split_and!; [ done | done | ]. intros id. naive_solver. }
  destruct Hknown as (p & Ha & Hid).
  destruct (mm_remove_ok B (all_known_peers w) peer a (do_map _ _ Hw) Hget) as (m & -> & Hm & Hent).
  apply returns_lift with (a := tt); [ done | ]. apply returns_modify.
  eapply returns_step; [ unfold peer_at; cbn [set_known store]; rewrite Ha; reflexivity | ].
  eapply returns_bind; [ eapply cancel_same; exact Ha | ]. cbn beta.
  intros _ w2 ((Hbk2 & Hcl2 & Hrec2 & Hst2 & [p2 Hp2]) & Hm2).
  destruct (peer_bucket B w a p Hw Ha) as (i & b & Hi & Hlt & Hb & Hin).
  apply returns_lift with (a := Z.of_nat i); [ done | ].
  apply returns_lift with (a := tt); [ apply gnunet_assert_true, Z.leb_le; lia | ].
  apply returns_lift with (a := b); [ unfold bucket_at; by rewrite Nat2Z.id, Hb | ].
  destruct (do_bucket _ _ Hw i b Hb) as (Hn & Hsz & _).
  destruct (dll_remove_ok a (pb_peers b) Hin Hn) as (l & Hl & Hnl & Hll & Hel).
  apply returns_lift with (a := l); [ done | ].
  apply returns_lift with (a := tt); [ apply gnunet_assert_true, Z.ltb_lt; lia | ]. rewrite Nat2Z.id.
  set (buckets := <[i := _]> (k_buckets w)). pose proof (do_closest _ _ Hw) as Hc.
  destruct (lower_closest_ok buckets (Z.to_nat (closest_bucket w))) as (c & Hlow & Hcle & Hz).
  { unfold buckets. rewrite length_insert, (do_length _ _ Hw). lia. }
  apply returns_lift with (a := c); [ done | ]. apply returns_modify.
  eapply returns_bind; [ eapply cancel_same; exact Hp2 | ]. cbn beta.
  intros _ w3 ((Hbk3 & Hcl3 & Hrec3 & Hst3 & _) & Hm3).
  cbn [set_buckets store k_buckets closest_bucket all_known_peers recent set_known] in *.
  apply returns_get. eexists tt, _. split; [ reflexivity | ].
  assert (Hst : store (set_store (delete a (store w3)) w3) = delete a (store w))
    by (cbn [set_store store]; by rewrite Hst3, Hst2).
  split_and!; [ | cbn [set_store recent]; congruence | ].
  - eapply dht_ok_remove with (w := w) (a := a) (p := p) (i := i) (b := b) (l := l); try done;
      cbn [set_store k_buckets all_known_peers closest_bucket].
    + by rewrite Hm3, Hm2.
    + by rewrite Hm3, Hm2, Hid.
    + rewrite Hcl3. lia.
    + rewrite Hcl3, Hbk3. intros j b' Hj Hb'. apply (Hz j b'); [ lia | done ].
  - intros id. unfold connected. rewrite Hst. split.
    + intros (x & q & Hq & <-). apply lookup_delete_Some in Hq as [Hne Hq]. split; [ eauto | ].
      intros E. apply Hne. eapply same_identity; [ done | done | exact Hq | congruence ].
    + intros [(x & q & Hq & <-) Hne]. exists x, q. rewrite lookup_delete_ne; [ done | ].
      intros <-. apply Hne. congruence.
Qed.
End Operations.
