(* ===== verification/DhtSelect.v ===== *)
(** * Selection of peers in the DHT

    Whether the local peer is the closest one to a key, and to which peers a request is
    forwarded, on a table of peers that satisfies [dht_ok].  Peers that a request has visited
    are in its Bloom filter. *)

From Stdlib Require Import ZArith Lia.
From stdpp Require Import base list numbers gmap.
From S2P Require Import Prelude Double Time Hash MultiHashMap MapInterface BloomFilter MetaData Routing.
From S2P Require Import DhtMessages DhtNeighbours DhtDistance DhtTable.
Local Open Scope Z_scope.

(** ** Shared prefixes *)

(** The number of bits that two hash codes share at the start *)
Definition shared (a b : GNUNET_HashCode) : Z :=
  match GNUNET_CRYPTO_hash_matching_bits a b with Ret r => r | _ => 0 end.

Lemma shared_ok a b : is_hash a -> is_hash b -> GNUNET_CRYPTO_hash_matching_bits a b = Ret (shared a b).
Proof. intros Ha Hb. unfold shared. by destruct (matching_bits_differ a b Ha Hb) as (r & -> & _). Qed.

Lemma shared_differ a b : is_hash a -> is_hash b ->
  0 <= shared a b <= 512 /\ (forall j, 0 <= j < shared a b -> differ a b j = false)
  /\ (shared a b < 512 -> differ a b (shared a b) = true).
Proof. intros Ha Hb. unfold shared. by destruct (matching_bits_differ a b Ha Hb) as (r & -> & ?). Qed.

Lemma shared_unique a b r : is_hash a -> is_hash b -> 0 <= r < 512 ->
  (forall j, 0 <= j < r -> differ a b j = false) -> differ a b r = true -> shared a b = r.
Proof.
  intros Ha Hb Hr Hz H1. destruct (shared_differ a b Ha Hb) as (Hrange & Hz' & H1').
  destruct (Z.lt_trichotomy (shared a b) r) as [Hlt|[->|Hgt]]; [ | done | ].
  - rewrite (Hz (shared a b)) in H1' by lia. discriminate H1'. lia.
  - rewrite (Hz' r) in H1 by lia. done.
Qed.

Lemma differ_trans me id key j : 0 <= j < 512 ->
  differ id key j = xorb (differ me id j) (differ me key j).
Proof.
  intros Hj. unfold differ. rewrite (proj2 (Z.ltb_lt j 512)) by lia. cbn.
  by destruct (Z.testbit (hash_val id) j), (Z.testbit (hash_val key) j), (Z.testbit (hash_val me) j).
Qed.

(** A code that shares more with the key than [me] does leaves [me] where the key does, and
    conversely. *)
Lemma closer_same_bucket me id key :
  is_hash me -> is_hash id -> is_hash key -> shared me key < 512 ->
  shared me key < shared id key <-> shared me id = shared me key.
Proof.
  intros Hm Hi Hk Hs. set (s := shared me key) in *.
  destruct (shared_differ me key Hm Hk) as (Hr & Hz & H1). fold s in Hr, Hz, H1.
  destruct (shared_differ id key Hi Hk) as (Hri & Hzi & H1i).
  destruct (shared_differ me id Hm Hi) as (Hrm & Hzm & H1m). split.
  - intros Hlt. apply shared_unique; [ done | done | lia | | ].
    + intros j Hj. pose proof (differ_trans me id key j ltac:(lia)) as E.
      rewrite (Hzi j), (Hz j), xorb_false_r in E by lia. done.
    + pose proof (differ_trans me id key s ltac:(lia)) as E. rewrite (Hzi s), (H1 ltac:(lia)) in E by lia.
      by destruct (differ me id s).
  - intros Heq. rewrite Heq in *. destruct (Z.lt_trichotomy s (shared id key)) as [|[E|E]]; [ done | | ].
    + rewrite <- E in H1i. rewrite (differ_trans me id key s), H1m, H1 in H1i by lia.
      discriminate H1i. lia.
    + rewrite (differ_trans me id key), Hzm, Hz in H1i by lia. discriminate H1i. lia.
Qed.

(** ** Filters *)

Section Filters.
Context `{Env : DhtEnv}.

Definition bf_ok (bf : GNUNET_CONTAINER_BloomFilter) : Prop :=
  0 < bitArraySize bf < 2 ^ 60 /\ Z.of_nat (length (bitArray bf)) = bitArraySize bf.

(** What [bloomfilter_test] answers *)
Definition masked (bf : GNUNET_CONTAINER_BloomFilter) (e : GNUNET_HashCode) : bool :=
  forallb (testBit (bitArray bf)) (addresses bf_hash bf e).

Lemma bf_test_ok bf e :
  bf_ok bf -> GNUNET_CONTAINER_bloomfilter_test bf_hash (Some bf) e = Ret (masked bf e).
Proof. intros [Hs _]. by apply test_addresses. Qed.

(** Every array of bits holds the addresses of its bits. *)
Lemma bf_ok_holds bf : bf_ok bf -> exists addrs, holds bf addrs.
Proof.
  intros [Hs Hl]. exists (List.filter (testBit (bitArray bf)) (seqZ 0 (bitArraySize bf * 8))).
  split_and!; [ lia | lia | done | ]. intros i Hi. symmetry.
  destruct (testBit (bitArray bf) i) eqn:E.
  - apply bool_decide_eq_true. rewrite list_elem_of_In, filter_In, <- list_elem_of_In, elem_of_seqZ. split; [ lia | done ].
  - apply bool_decide_eq_false. rewrite list_elem_of_In, filter_In. intros [_ ?]. congruence.
Qed.

Lemma masked_holds bf addrs e :
  holds bf addrs -> masked bf e = true <-> forall a, a ∈ addresses bf_hash bf e -> a ∈ addrs.
Proof.
  intros Hh. rewrite <- (holds_test bf_hash bf addrs e Hh). unfold masked.
  rewrite (test_addresses bf_hash) by apply Hh. split; [ by intros -> | by intros [= ->] ].
Qed.

Lemma bf_add_ok bf e :
  bf_ok bf ->
  exists bf', GNUNET_CONTAINER_bloomfilter_add bf_hash bf e = Ret bf' /\ bf_ok bf'
    /\ same_params bf bf' /\ masked bf' e = true
    /\ forall x, masked bf x = true -> masked bf' x = true.
Proof.
  intros Hbf. destruct (bf_ok_holds bf Hbf) as [addrs Hh].
  destruct (holds_add bf_hash bf addrs e Hh) as (bf' & Hadd & Hh' & Hp).
  exists bf'. pose proof Hh' as (Hs & Hl & _). split; [ done | ]. split; [ by split | ].
  split; [ done | ]. split.
  - apply (masked_holds bf' _ e Hh'). intros a Ha. rewrite (addresses_params bf_hash _ _ _ Hp) in Ha.
    apply elem_of_app. left. rewrite list_elem_of_In, <- in_rev, <- list_elem_of_In. done.
  - intros x Hx. apply (masked_holds bf' _ x Hh'). intros a Ha. rewrite (addresses_params bf_hash _ _ _ Hp) in Ha.
    apply elem_of_app. right. by apply (proj1 (masked_holds bf addrs x Hh) Hx).
Qed.

Definition filter_ok (bloom : option GNUNET_CONTAINER_BloomFilter) : Prop :=
  match bloom with Some bf => bf_ok bf | None => True end.

Definition excluded (bloom : option GNUNET_CONTAINER_BloomFilter) (e : GNUNET_HashCode) : bool :=
  match bloom with Some bf => masked bf e | None => false end.

Lemma selectable_ok bloom p :
  filter_ok bloom -> selectable bloom p = Ret (negb (excluded bloom (pi_id p))).
Proof. destruct bloom as [bf|]; [ | done ]. intros Hb. unfold selectable. by rewrite bf_test_ok. Qed.
End Filters.

Section Select.
Context {M : Type} `{MM : MultiMap M nat} `{Env : DhtEnv}.
Implicit Types (w : dht (M := M)) (key : GNUNET_HashCode) (bloom : option GNUNET_CONTAINER_BloomFilter).

(** ** The closest peer *)

Lemma closest_loop_ok B w key bloom bits l :
  dht_ok B w -> is_hash key -> filter_ok bloom -> 0 < bucket_size ->
  (forall a, a ∈ l -> exists p, store w !! a = Some p /\ bits < shared (pi_id p) key) ->
  exists r, closest_loop w key bloom bits l = Ret r
    /\ (r = true <-> forall a p, a ∈ l -> store w !! a = Some p -> excluded bloom (pi_id p) = true).
Proof.
  intros Hw Hk Hb Hbs. induction l as [|a l IH]; intros Hl; cbn [closest_loop].
  { exists true. split; [ done | ]. split; [ | done ]. intros _ a p Ha. by apply elem_of_nil in Ha. }
  destruct (Hl a) as (p & Ha & Hp); [ by left | ]. rewrite (proj2 (Z.ltb_lt _ _) Hbs), Ha.
  cbn [of_option mbind outcome_bind].
  assert (Hskip : (match bloom with None => Ret false | Some _ => GNUNET_CONTAINER_bloomfilter_test bf_hash bloom (pi_id p) end)
    = Ret (excluded bloom (pi_id p))) by (destruct bloom; [ by apply bf_test_ok | done ]).
  rewrite (bind_ret _ _ _ Hskip). destruct (excluded bloom (pi_id p)) eqn:Hex.
  - destruct IH as (r & -> & Hr); [ intros c Hc; apply Hl; by right | ]. exists r. split; [ done | ].
    rewrite Hr. split; [ | intros H' c q Hc; apply H'; by right ].
    intros H' c q Hc Hq. apply elem_of_cons in Hc as [->|Hc]; [ congruence | eauto ].
  - rewrite (bind_ret _ _ _ (shared_ok (pi_id p) key (po_id _ (do_peers _ _ Hw a p Ha)) Hk)).
    rewrite (proj2 (Z.ltb_lt _ _) Hp). exists false. split; [ done | ]. split; [ done | ].
    intros H'. specialize (H' a p ltac:(by left) Ha). congruence.
Qed.

Lemma am_closest_ok B w key bloom :
  dht_ok B w -> is_hash key -> filter_ok bloom -> 0 < bucket_size ->
  exists r, am_closest_peer w key bloom = Ret r
    /\ (r = true <-> forall id, connected w id -> excluded bloom id = false ->
          shared id key <= shared my_identity key).
Proof.
  intros Hw Hk Hb Hbs. pose proof (do_my_identity _ _ Hw) as Hme. unfold am_closest_peer.
  case_bool_decide as Hself.
  { exists true. split; [ done | ]. split; [ | done ]. intros _ id (a & p & Ha & <-) _. rewrite <- Hself.
    destruct (shared_differ (pi_id p) my_identity (po_id _ (do_peers _ _ Hw a p Ha)) Hme) as ([_ Hle] & _).
    destruct (hash_matching_bits_spec my_identity my_identity Hme Hme) as (r & Hr & _ & _ & _ & Heq).
    unfold shared at 2. rewrite Hr. rewrite (proj2 Heq eq_refl). exact Hle. }
  destruct (find_bucket_ok key) as (i & Hi & Hlt & Hmatch); [ done | done | congruence | ].
  rewrite (bind_ret _ _ _ Hi). rewrite gnunet_assert_true by (apply Z.leb_le; lia).
  cbn [mbind outcome_bind]. rewrite Hmatch.
  assert (Hs : shared my_identity key = 511 - Z.of_nat i) by (unfold shared; by rewrite Hmatch).
  destruct (lookup_lt_is_Some_2 (k_buckets w) i) as [b Hbk]; [ by rewrite (do_length _ _ Hw) | ].
  unfold bucket_at. rewrite Nat2Z.id, Hbk. cbn [of_option mbind outcome_bind].
  assert (Hsame : forall a p, store w !! a = Some p ->
    (a ∈ pb_peers b <-> shared my_identity key < shared (pi_id p) key)).
  { intros a p Ha. pose proof (do_peers _ _ Hw a p Ha) as [Hid Hne _ _ _].
    rewrite (closer_same_bucket my_identity (pi_id p) key) by (done || lia).
    destruct (find_bucket_ok (pi_id p)) as (j & Hj & _ & Hmj); [ done | done | done | ].
    assert (Hsj : shared my_identity (pi_id p) = 511 - Z.of_nat j) by (unfold shared; by rewrite Hmj).
    destruct (do_bucket _ _ Hw i b Hbk) as (_ & _ & He). rewrite He. split.
    - intros (q & Hq & Hqi). rewrite Ha in Hq. injection Hq as <-. rewrite Hj in Hqi. injection Hqi. lia.
    - intros E. exists p. split; [ done | ]. rewrite Hj. f_equal. lia. }
  destruct (closest_loop_ok B w key bloom (511 - Z.of_nat i) (pb_peers b)) as (r & -> & Hr); try done.
  { intros a Ha. destruct (bucket_of_peer B w i b a Hw Hbk Ha) as (p & Hp & _). exists p. split; [ done | ].
    rewrite <- Hs. by apply (Hsame a p Hp). }
  exists r. split; [ done | ]. rewrite Hr. split.
  - intros Hall id (a & p & Ha & <-) Hex. destruct (Z.le_gt_cases (shared (pi_id p) key) (shared my_identity key)); [ done | ].
    rewrite (Hall a p) in Hex; [ done | apply (Hsame a p Ha); lia | done ].
  - intros Hall a p Ha Hp. destruct (excluded bloom (pi_id p)) eqn:E; [ done | ].
    apply (Hsame a p Hp) in Ha. specialize (Hall (pi_id p) (ex_intro _ a (ex_intro _ p (conj Hp eq_refl))) E). lia.
Qed.

(** ** Greedy selection *)

Definition dist (key id : GNUNET_HashCode) : Z :=
  match get_distance key id with Ret d => d | _ => 0 end.

Lemma dist_ok key id :
  is_hash key -> is_hash id -> get_distance key id = Ret (dist key id) /\ is_u32 (dist key id).
Proof.
  intros Hk Hi. destruct (matching_bits_differ key id Hk Hi) as (r & Hr & Hrange & _).
  unfold dist. rewrite (get_distance_ok key id r) by done. split; [ done | ]. by apply packed_distance_range.
Qed.

(** [s] is the choice among the peers [seen]. *)
Record best w key bloom (seen : list nat) (s : option nat * Z) : Prop := {
  be_min : forall a p, a ∈ seen -> store w !! a = Some p -> excluded bloom (pi_id p) = false ->
    s.2 <= dist key (pi_id p);
  be_chosen : match s.1 with
    | Some a => exists p, a ∈ seen /\ store w !! a = Some p /\ excluded bloom (pi_id p) = false
                 /\ s.2 = dist key (pi_id p) /\ s.2 < UINT32_MAX
    | None => s.2 = UINT32_MAX
    end
}.

Lemma best_step w key bloom seen s a p :
  best w key bloom seen s -> store w !! a = Some p -> dist key (pi_id p) <= UINT32_MAX ->
  best w key bloom (seen ++ [a])
    (if excluded bloom (pi_id p) then s
     else if dist key (pi_id p) <? s.2 then (Some a, dist key (pi_id p)) else s).
Proof.
  intros [Hmin Hch] Ha Hmax.
  assert (Hs2 : s.2 <= UINT32_MAX) by (destruct (s.1) as [c|]; [ destruct Hch as (q & _ & _ & _ & _ & H2); lia | lia ]).
  assert (Hkeep : match s.1 with
    | Some c => exists q, c ∈ seen ++ [a] /\ store w !! c = Some q /\ excluded bloom (pi_id q) = false
                 /\ s.2 = dist key (pi_id q) /\ s.2 < UINT32_MAX
    | None => s.2 = UINT32_MAX
    end).
  { destruct (s.1) as [c|]; [ | done ]. destruct Hch as (q & Hc & H'). exists q.
    split; [ apply elem_of_app; by left | done ]. }
  assert (Hcase : forall c q, c ∈ seen ++ [a] -> store w !! c = Some q -> c ∈ seen \/ q = p).
  { intros c q Hc Hq. apply elem_of_app in Hc as [Hc|Hc]; [ by left | right ].
    apply list_elem_of_singleton in Hc. subst. congruence. }
  destruct (excluded bloom (pi_id p)) eqn:Hex; [ | destruct (Z.ltb_spec (dist key (pi_id p)) s.2) as [Hlt|Hge] ].
  - split; [ | done ]. intros c q Hc Hq Hx. destruct (Hcase c q Hc Hq) as [Hin| ->]; [ by apply (Hmin c q) | congruence ].
  - split; cbn [fst snd].
    + intros c q Hc Hq Hx. destruct (Hcase c q Hc Hq) as [Hin| ->]; [ | lia ].
      specialize (Hmin c q Hin Hq Hx). lia.
    + exists p. split_and!; [ apply elem_of_app; right; by left | done | done | done | lia ].
  - split; [ | done ]. intros c q Hc Hq Hx. destruct (Hcase c q Hc Hq) as [Hin| ->]; [ by apply (Hmin c q) | lia ].
Qed.

Lemma greedy_bucket_ok B w key bloom l : forall count seen s,
  dht_ok B w -> is_hash key -> filter_ok bloom -> (forall a, a ∈ l -> is_Some (store w !! a)) ->
  best w key bloom seen s ->
  exists s', greedy_bucket w key bloom count l s = Ret s'
    /\ best w key bloom (seen ++ take (Z.to_nat (bucket_size - count)) l) s'.
Proof.
  induction l as [|a l IH]; intros count seen s Hw Hk Hb Hl Hs; cbn [greedy_bucket].
  { exists s. by rewrite take_nil, app_nil_r. }
  destruct (Z.ltb_spec count bucket_size) as [Hlt|Hge].
  2: { exists s. by rewrite Z2Nat.nonpos, take_0, app_nil_r by lia. }
  destruct (Hl a) as [p Ha]; [ by left | ]. rewrite Ha. cbn [of_option mbind outcome_bind].
  rewrite (bind_ret _ _ _ (selectable_ok bloom p Hb)).
  destruct (dist_ok key (pi_id p) Hk (po_id _ (do_peers _ _ Hw a p Ha))) as [Hd Hu].
  pose proof (best_step w key bloom seen s a p Hs Ha ltac:(unfold is_u32, UINT32_MAX in *; lia)) as Hstep.
  assert (Hgo : forall s1, best w key bloom (seen ++ [a]) s1 ->
    exists s', greedy_bucket w key bloom (count + 1) l s1 = Ret s'
      /\ best w key bloom (seen ++ take (Z.to_nat (bucket_size - count)) (a :: l)) s').
  { intros s1 Hs1. destruct (IH (count + 1) (seen ++ [a]) s1) as (s' & Hs' & Hbest); try done.
    - intros c Hc. apply Hl. by right.
    - exists s'. split; [ done | ]. replace (Z.to_nat (bucket_size - count)) with (S (Z.to_nat (bucket_size - (count + 1)))) by lia.
      cbn [take]. by rewrite <- app_assoc in Hbest. }
  destruct (excluded bloom (pi_id p)); cbn [negb].
  - rewrite (bind_ret (Ret s) s) by done. by apply Hgo.
  - rewrite Hd. cbn [mbind outcome_bind]. by apply Hgo.
Qed.

(** The peers that greedy selection looks at: the first of each bucket *)
Definition candidates w : list nat :=
  flat_map (fun b => take (Z.to_nat bucket_size) (pb_peers b)) (used_buckets w).

Lemma greedy_buckets_ok B w key bloom bs : forall seen s,
  dht_ok B w -> is_hash key -> filter_ok bloom ->
  (forall b a, b ∈ bs -> a ∈ pb_peers b -> is_Some (store w !! a)) ->
  best w key bloom seen s ->
  exists s', greedy_buckets w key bloom bs s = Ret s'
    /\ best w key bloom (seen ++ flat_map (fun b => take (Z.to_nat bucket_size) (pb_peers b)) bs) s'.
Proof.
  induction bs as [|b bs IH]; intros seen s Hw Hk Hb Hbs Hs; cbn [greedy_buckets flat_map].
  { exists s. by rewrite app_nil_r. }
  destruct (greedy_bucket_ok B w key bloom (pb_peers b) 0 seen s) as (s1 & Hs1 & Hbest1); try done.
  { intros a Ha. apply (Hbs b); [ by left | done ]. }
  rewrite (bind_ret _ _ _ Hs1). rewrite Z.sub_0_r in Hbest1.
  destruct (IH (seen ++ take (Z.to_nat bucket_size) (pb_peers b)) s1) as (s' & Hs' & Hbest'); try done.
  { intros b' a Hb' Ha. apply (Hbs b'); [ by right | done ]. }
  exists s'. split; [ done | ]. by rewrite app_assoc.
Qed.

Lemma used_bucket_peer B w b a :
  dht_ok B w -> b ∈ used_buckets w -> a ∈ pb_peers b -> is_Some (store w !! a).
Proof.
  intros Hw Hb Ha. apply list_elem_of_lookup in Hb as [i Hb]. apply lookup_take_Some in Hb as [Hb _].
  destruct (bucket_of_peer B w i b a Hw Hb Ha) as (p & Hp & _). eauto.
Qed.

(** Every connected peer is in a bucket that is used. *)
Lemma peer_in_used B w a p :
  dht_ok B w -> store w !! a = Some p -> exists b, b ∈ used_buckets w /\ a ∈ pb_peers b.
Proof.
  intros Hw Ha. destruct (peer_bucket B w a p Hw Ha) as (i & b & _ & _ & Hb & Hin).
  exists b. split; [ | done ]. apply list_elem_of_lookup. exists i. apply lookup_take_Some.
  split; [ done | ]. destruct (Z.le_gt_cases (Z.of_nat i) (closest_bucket w)) as [|Hgt]; [ lia | ].
  rewrite (do_above _ _ Hw i b Hb) in Hin by lia. by apply elem_of_nil in Hin.
Qed.

(** ** Random selection *)

(** The peers of a list that the filter does not exclude *)
Definition free_peers w bloom (l : list nat) : list nat :=
  List.filter (fun a => match store w !! a with
                        | Some p => negb (excluded bloom (pi_id p))
                        | None => false
                        end) l.

Lemma free_peers_cons w bloom a p l :
  store w !! a = Some p ->
  free_peers w bloom (a :: l)
  = (if excluded bloom (pi_id p) then [] else [a]) ++ free_peers w bloom l.
Proof. intros Ha. unfold free_peers. cbn [List.filter]. rewrite Ha. by destruct (excluded _ _). Qed.

Lemma count_bucket_ok w bloom l : forall count,
  filter_ok bloom -> (forall a, a ∈ l -> is_Some (store w !! a)) -> 0 <= count ->
  count_bucket w bloom l count
  = Ret (Z.max count (Z.min bucket_size (count + Z.of_nat (length (free_peers w bloom l))))).
Proof.
  induction l as [|a l IH]; intros count Hb Hl Hc; cbn [count_bucket].
  { f_equal. cbn. lia. }
  destruct (Hl a) as [p Ha]; [ by left | ]. rewrite (free_peers_cons w bloom a p l Ha), length_app.
  destruct (Z.ltb_spec count bucket_size) as [Hlt|Hge]; [ | f_equal; lia ].
  rewrite Ha. cbn [of_option mbind outcome_bind]. rewrite (bind_ret _ _ _ (selectable_ok bloom p Hb)).
  assert (Hl' : forall c, c ∈ l -> is_Some (store w !! c)) by (intros c Hc'; apply Hl; by right).
  destruct (excluded bloom (pi_id p)); cbn [negb length]; rewrite IH by (done || lia); f_equal; lia.
Qed.

Lemma free_peers_app w bloom l1 l2 :
  free_peers w bloom (l1 ++ l2) = free_peers w bloom l1 ++ free_peers w bloom l2.
Proof. apply List.filter_app. Qed.

Lemma count_buckets_ok w bloom bs : forall count,
  filter_ok bloom -> (forall b a, b ∈ bs -> a ∈ pb_peers b -> is_Some (store w !! a)) -> 0 <= count ->
  count_buckets w bloom bs count
  = Ret (Z.max count (Z.min bucket_size
           (count + Z.of_nat (length (free_peers w bloom (flat_map pb_peers bs)))))).
Proof.
  induction bs as [|b bs IH]; intros count Hb Hbs Hc; cbn [count_buckets flat_map].
  { f_equal. cbn. lia. }
  rewrite count_bucket_ok; [ | done | intros a Ha; apply (Hbs b); [ by left | done ] | done ].
  cbn [mbind outcome_bind]. rewrite IH; [ | done | intros b' a Hb' Ha; apply (Hbs b'); [ by right | done ] | lia ].
  f_equal. rewrite free_peers_app, length_app. lia.
Qed.

Lemma pick_bucket_ok w bloom l : forall selected,
  filter_ok bloom -> (forall a, a ∈ l -> is_Some (store w !! a)) -> 0 < bucket_size -> is_u32 selected ->
  pick_bucket w bloom l selected
  = Ret (match free_peers w bloom l !! Z.to_nat selected with
         | Some a => inl a
         | None => inr (selected - Z.of_nat (length (free_peers w bloom l)))
         end).
Proof.
  induction l as [|a l IH]; intros selected Hb Hl Hbs Hu; cbn [pick_bucket].
  { cbn. by rewrite Z.sub_0_r. }
  destruct (Hl a) as [p Ha]; [ by left | ]. rewrite (free_peers_cons w bloom a p l Ha).
  rewrite (proj2 (Z.ltb_lt _ _) Hbs), Ha. cbn [of_option mbind outcome_bind].
  rewrite (bind_ret _ _ _ (selectable_ok bloom p Hb)).
  assert (Hl' : forall c, c ∈ l -> is_Some (store w !! c)) by (intros c Hc'; apply Hl; by right).
  destruct (excluded bloom (pi_id p)); cbn [negb app]; [ by apply IH | ].
  destruct (Z.eqb_spec 0 selected) as [<-|Hne]; [ done | ].
  assert (Hu' : u32 (selected - 1) = selected - 1) by (apply u32_small; unfold is_u32 in *; lia).
  rewrite Hu', IH by (done || unfold is_u32 in *; lia). unfold is_u32 in Hu.
  replace (Z.to_nat selected) with (S (Z.to_nat (selected - 1))) by lia. cbn [lookup list_lookup length].
  destruct (free_peers w bloom l !! Z.to_nat (selected - 1)); [ done | ]. f_equal. f_equal. lia.
Qed.

Lemma pick_buckets_ok w bloom bs : forall selected,
  filter_ok bloom -> (forall b a, b ∈ bs -> a ∈ pb_peers b -> is_Some (store w !! a)) ->
  0 < bucket_size -> is_u32 selected ->
  pick_buckets w bloom bs selected = Ret (free_peers w bloom (flat_map pb_peers bs) !! Z.to_nat selected).
Proof.
  induction bs as [|b bs IH]; intros selected Hb Hbs Hpos Hu; cbn [pick_buckets flat_map]; [ done | ].
  rewrite pick_bucket_ok; [ | done | intros a Ha; apply (Hbs b); [ by left | done ] | done | done ].
  cbn [mbind outcome_bind]. rewrite free_peers_app.
  destruct (free_peers w bloom (pb_peers b) !! Z.to_nat selected) as [a|] eqn:E.
  - by rewrite (lookup_app_l_Some _ _ _ _ E).
  - apply lookup_ge_None in E. unfold is_u32 in *.
    rewrite IH; [ | done | intros b' a Hb' Ha; apply (Hbs b'); [ by right | done ] | done | lia ].
    rewrite lookup_app_r by lia. f_equal. f_equal. lia.
Qed.

Lemma elem_of_free_peers w bloom l a :
  a ∈ free_peers w bloom l <-> a ∈ l /\ exists p, store w !! a = Some p /\ excluded bloom (pi_id p) = false.
Proof.
  unfold free_peers. rewrite list_elem_of_In, filter_In, <- list_elem_of_In.
  apply and_iff_compat_l. destruct (store w !! a) as [p|]; [ | naive_solver ].
  rewrite negb_true_iff. naive_solver.
Qed.

(** ** [select_peer] *)

(** What the selection of a peer for [key] promises *)
Definition selected_ok w key bloom hops (r : option nat) : Prop :=
  if Double.leb nse (Double.of_Z hops) then
    match r with
    | Some a => exists p, a ∈ candidates w /\ store w !! a = Some p /\ excluded bloom (pi_id p) = false
        /\ forall c q, c ∈ candidates w -> store w !! c = Some q -> excluded bloom (pi_id q) = false ->
             dist key (pi_id p) <= dist key (pi_id q)
    | None => forall c q, c ∈ candidates w -> store w !! c = Some q -> excluded bloom (pi_id q) = false ->
             dist key (pi_id q) = UINT32_MAX
    end
  else
    match r with
    | Some a => exists p, store w !! a = Some p /\ excluded bloom (pi_id p) = false
    | None => forall id, connected w id -> excluded bloom id = true
    end.

Lemma select_peer_ok B w key bloom hops :
  dht_ok B w -> is_hash key -> filter_ok bloom -> 0 < bucket_size < 2 ^ 32 ->
  runs B (select_peer key bloom hops) w
    (fun r w' => store w' = store w /\ selected_ok w key bloom hops r).
Proof.
  intros Hw Hk Hb Hbs. unfold select_peer. apply runs_get.
  assert (Hused : forall b a, b ∈ used_buckets w -> a ∈ pb_peers b -> is_Some (store w !! a))
    by (intros; by eapply used_bucket_peer).
  unfold selected_ok. destruct (Double.leb nse (Double.of_Z hops)).
  - destruct (greedy_buckets_ok B w key bloom (used_buckets w) [] (None, UINT32_MAX))
      as ([r d] & Hr & [Hmin Hch]); [ done | done | done | done | | ].
    { split; [ intros a p Ha; by apply elem_of_nil in Ha | done ]. }
    eapply runs_lift; [ exact Hr | ]. cbv beta iota. apply runs_ret; [ done | ]. split; [ done | ].
    cbn [app fst snd] in *. fold (candidates w) in *. destruct r as [a|].
    + destruct Hch as (p & Hin & Ha & Hex & Hd & _). exists p. split_and!; [ done | done | done | ].
      intros c q Hc Hq Hx. rewrite <- Hd. by apply (Hmin c q).
    + intros c q Hc Hq Hx. specialize (Hmin c q Hc Hq Hx).
      destruct (dist_ok key (pi_id q) Hk (po_id _ (do_peers _ _ Hw c q Hq))) as [_ Hu].
      unfold is_u32, UINT32_MAX in *. lia.
  - set (free := free_peers w bloom (flat_map pb_peers (used_buckets w))).
    eapply runs_lift; [ by apply count_buckets_ok | ]. fold free.
    destruct free as [|a0 fs] eqn:Hfree.
    + cbn [length]. rewrite (proj2 (Z.eqb_eq _ _)) by lia. apply runs_ret; [ done | ]. split; [ done | ].
      intros id (a & p & Ha & <-). destruct (excluded bloom (pi_id p)) eqn:Hex; [ done | exfalso ].
      destruct (peer_in_used B w a p Hw Ha) as (b & Hbu & Hin).
      assert (Hel : a ∈ free).
      { apply elem_of_free_peers. split; [ | eauto ]. rewrite list_elem_of_In, in_flat_map.
        exists b. by rewrite <- !list_elem_of_In. }
      rewrite Hfree in Hel. by apply elem_of_nil in Hel.
    + set (n := Z.max _ _). assert (Hn : 0 < n <= bucket_size) by (unfold n; cbn [length]; lia).
      assert (Hn2 : n <= Z.of_nat (length (a0 :: fs))) by (unfold n; lia).
      rewrite (proj2 (Z.eqb_neq _ _)) by lia. apply runs_random; [ done | lia | ]. intros x Hx.
      apply runs_last. eapply runs_lift; [ apply pick_buckets_ok; done || lia || (unfold is_u32; lia) | ].
      apply runs_ret; [ by eapply steady_ok, steady_other | ]. split; [ done | ]. fold free. rewrite Hfree.
      destruct (lookup_lt_is_Some_2 (a0 :: fs) (Z.to_nat x)) as [a Ha]; [ lia | ]. rewrite Ha.
      assert (Hel : a ∈ free) by (rewrite Hfree; by eapply list_elem_of_lookup_2).
      by apply elem_of_free_peers in Hel as [_ Hel].
Qed.

(** ** Targets *)

Definition target_ids w (l : list nat) : list (option GNUNET_PeerIdentity) :=
  (fun a => pi_id <$> store w !! a) <$> l.

(** The targets found so far are different peers that the filter [bf0] does not exclude; the
    filter [bf] excludes them and what [bf0] does. *)
Record targets_ok w (bf0 bf : GNUNET_CONTAINER_BloomFilter) (l : list nat) : Prop := {
  to_bf : bf_ok bf;
  to_params : same_params bf0 bf;
  to_nodup : NoDup l;
  to_new : forall a, a ∈ l -> exists p, store w !! a = Some p /\ masked bf0 (pi_id p) = false
    /\ masked bf (pi_id p) = true;
  to_more : forall e, masked bf0 e = true -> masked bf e = true
}.

Lemma targets_step w bf0 bf bf' l a p :
  targets_ok w bf0 bf l -> store w !! a = Some p -> masked bf (pi_id p) = false ->
  bf_ok bf' -> same_params bf bf' -> masked bf' (pi_id p) = true ->
  (forall e, masked bf e = true -> masked bf' e = true) ->
  targets_ok w bf0 bf' (l ++ [a]).
Proof.
  intros [] Ha Hm Hok Hp Hm' Hmore.
  constructor; [ done | destruct to_params0, Hp; split; congruence | | | auto ].
  - apply NoDup_app. split_and!; [ done | | apply NoDup_singleton ].
    intros x Hx Hxa. apply list_elem_of_singleton in Hxa as ->.
    destruct (to_new0 a Hx) as (q & Hq & _ & Hq'). congruence.
  - intros x Hx. apply elem_of_app in Hx as [Hx|Hx].
    + destruct (to_new0 x Hx) as (q & Hq & Hq0 & Hq'). exists q. auto.
    + apply list_elem_of_singleton in Hx as ->. exists p. split_and!; [ done | | done ].
      destruct (masked bf0 (pi_id p)) eqn:E; [ | done ]. by rewrite (to_more0 _ E) in Hm.
Qed.

(** Why there are fewer targets than wanted: nobody is left, or in greedy selection nobody
    but peers of the largest distance *)
Definition exhausted w key bf hops : Prop :=
  selected_ok w key (Some bf) hops None.

Lemma same_store_targets w w' bf0 bf l : store w' = store w -> targets_ok w bf0 bf l -> targets_ok w' bf0 bf l.
Proof. intros Hs []. constructor; rewrite ?Hs; done. Qed.

Lemma selected_ok_store w w' key bloom hops r :
  store w' = store w -> k_buckets w' = k_buckets w -> closest_bucket w' = closest_bucket w ->
  selected_ok w' key bloom hops r -> selected_ok w key bloom hops r.
Proof.
  intros Hs Hk Hc. unfold selected_ok, candidates, used_buckets, connected. by rewrite Hs, Hk, Hc.
Qed.

Lemma target_loop_ok B n : forall w key bf0 bf hops l,
  dht_ok B w -> is_hash key -> 0 < bucket_size < 2 ^ 32 -> targets_ok w bf0 bf l ->
  runs B (target_loop n key bf hops l) w (fun r w' => store w' = store w
    /\ targets_ok w bf0 r.2 r.1 /\ (length r.1 <= length l + n)%nat
    /\ ((length r.1 < length l + n)%nat -> exhausted w key r.2 hops)).
Proof.
  induction n as [|n IH]; intros w key bf0 bf hops l Hw Hk Hbs Ht; cbn [target_loop].
  { apply runs_ret; [ done | ]. cbn [fst snd]. split_and!; [ done | done | lia | lia ]. }
  eapply runs_bind; [ apply (select_peer_ok B w key (Some bf)); [ done | done | apply Ht | done ] | ].
  cbn beta. intros r w1 Hs1 [Hst Hsel]. assert (Hw1 := steady_ok _ _ _ Hs1).
  destruct r as [a|].
  2: { apply runs_ret; [ done | ]. cbn [fst snd]. split_and!; [ done | done | lia | done ]. }
  assert (Ha : exists p, store w !! a = Some p /\ masked bf (pi_id p) = false).
  { unfold selected_ok in Hsel. destruct (Double.leb _ _).
    - destruct Hsel as (p & _ & Ha & Hm & _). eauto.
    - destruct Hsel as (p & Ha & Hm). eauto. }
  destruct Ha as (p & Ha & Hm). apply runs_peer_at with (p := p); [ by rewrite Hst | ].
  destruct (bf_add_ok bf (pi_id p) (to_bf _ _ _ _ Ht)) as (bf' & Hadd & Hok & Hp & Hm' & Hmore).
  eapply runs_lift; [ exact Hadd | ].
  pose proof (targets_step w bf0 bf bf' l a p Ht Ha Hm Hok Hp Hm' Hmore) as Ht'.
  eapply runs_weaken; [ apply (IH w1 key bf0 bf' hops (l ++ [a])); try done; by apply (same_store_targets w) | ].
  cbn beta. intros [l' bf2] w2 _ (Hst2 & Ht2 & Hle & Hex). cbn [fst snd] in *.
  rewrite length_app in *. cbn [length] in *. split_and!.
  - congruence.
  - by apply (same_store_targets w1).
  - lia.
  - intros Hlt. apply (selected_ok_store w w1); [ done | apply Hs1 | apply Hs1 | ]. apply Hex. lia.
Qed.
End Select.
