(* ===== verification/DhtForward.v ===== *)
(** * Forwarding of requests and results in the DHT

    What the functions of [DhtNeighbours] that queue messages do: the targets of a request
    are different connected peers that its filter does not exclude, every target whose queue
    has room gets one message with the contents of the request, nothing else changes in the
    queues, and the table of peers stays as it is. *)

From Stdlib Require Import ZArith Lia.
From stdpp Require Import base list numbers gmap.
From S2P Require Import Prelude Endian Double Time Heap Hash MultiHashMap MapInterface BloomFilter.
From S2P Require Import Bandwidth Messages MetaData Hello Block Routing DhtMessages DhtNeighbours DhtDistance DhtTable DhtSelect.
Local Open Scope Z_scope.

(** The filter that [bloomfilter_init] makes of the bytes of a message *)
Lemma bf_init_ok raw size k :
  0 < size < 2 ^ 60 -> length raw = Z.to_nat size -> (0 < k)%nat ->
  exists bf, GNUNET_CONTAINER_bloomfilter_init (Some raw) size k = Some bf /\ bf_ok bf
    /\ bitArraySize bf = size /\ bitArray bf = raw.
Proof.
  intros Hs Hl Hk. unfold GNUNET_CONTAINER_bloomfilter_init.
  rewrite (proj2 (Nat.eqb_neq k 0)), (proj2 (Z.eqb_neq size 0)) by lia. cbn [orb].
  eexists. split; [ reflexivity | ]. unfold bf_ok. cbn [bitArraySize bitArray].
  rewrite firstn_all2 by lia. split_and!; (done || lia).
Qed.

Section Forward.
Context {M : Type} `{MM : MultiMap M nat} `{Env : DhtEnv}.
Implicit Types (w : dht (M := M)) (key : GNUNET_HashCode).

(** ** The number of targets *)

(** A forward count of at most so many that the array of targets can be allocated *)
Definition counts (hops level : Z) : Prop :=
  forall w, exists n, 0 <= n /\ 8 * n <= GNUNET_MAX_MALLOC_CHECKED
    /\ (get_forward_count hops level w = Ret (n, w)
        \/ get_forward_count hops level w = Ret (n, count_reads 0 1 w)).

Lemma targets_start w bf : bf_ok bf -> targets_ok w bf bf [].
Proof.
  intros Hb. constructor; [ done | by split | apply NoDup_nil_2 | | done ].
  intros a Ha. by apply elem_of_nil in Ha.
Qed.

Lemma get_target_peers_ok B w key bf hops level :
  dht_ok B w -> is_hash key -> 0 < bucket_size < 2 ^ 32 -> bf_ok bf -> counts hops level ->
  runs B (get_target_peers key bf hops level) w (fun r w' => store w' = store w
    /\ targets_ok w bf r.2 r.1
    /\ exists n w1, get_forward_count hops level w = Ret (n, w1) /\ (length r.1 <= Z.to_nat n)%nat
         /\ ((length r.1 < Z.to_nat n)%nat -> exhausted w key r.2 hops)).
Proof.
  intros Hw Hk Hbs Hb Hc. unfold get_target_peers. destruct (Hc w) as (n & Hn & Hmax & Hrun).
  assert (exists w1, get_forward_count hops level w = Ret (n, w1) /\ steady B w w1 /\ store w1 = store w)
    as (w1 & Hr & Hs & Hst).
  { destruct Hrun as [Hr|Hr]; [ exists w | exists (count_reads 0 1 w) ]; split_and!; try done;
      by apply steady_other. }
  eapply runs_step; [ exact Hr | exact Hs | ]. assert (Hw1 := steady_ok _ _ _ Hs).
  destruct (Z.eqb_spec n 0) as [->|Hne].
  { apply runs_ret; [ done | ]. cbn [fst snd]. split_and!; [ done | by apply targets_start | ].
    exists 0, w1. split_and!; [ done | done | cbn; lia ]. }
  apply runs_lift with (a := tt); [ by apply gnunet_assert_true, Z.leb_le | ].
  eapply runs_weaken; [ by apply (target_loop_ok B (Z.to_nat n) w1 key bf bf hops []); try done; apply targets_start | ].
  cbn beta. intros [l bf'] w2 Hs2 (Hst2 & Ht & Hle & Hex). cbn [fst snd length] in *.
  split_and!; [ congruence | by apply (same_store_targets w1) | ].
  exists n, w1. split_and!; [ done | lia | ]. intros Hlt.
  apply (selected_ok_store w w1); [ done | apply Hs | apply Hs | ]. apply Hex. lia.
Qed.

(** ** Queues *)

(** The queue of [p'] is that of [p] with a message that satisfies [P] at the end, unless it
    was full. *)
Definition got (P : P2PPendingMessage -> Prop) (p p' : PeerInfo) : Prop :=
  if MAXIMUM_PENDING_PER_PEER <=? pi_pending_count p then pi_queue p' = pi_queue p
  else exists pm, P pm /\ pi_queue p' = pi_queue p ++ [pm].

(** The [targets] got a message, the others did not. *)
Definition queued (P : P2PPendingMessage -> Prop) (targets : list nat) w w' : Prop :=
  forall a p, store w !! a = Some p -> exists p', store w' !! a = Some p'
    /\ if decide (a ∈ targets) then got P p p' else pi_queue p' = pi_queue p.

Lemma queued_nil P w w' : store w' = store w -> queued P [] w w'.
Proof. intros Hs a p Ha. exists p. rewrite Hs. split; [ done | ]. by rewrite decide_False by apply not_elem_of_nil. Qed.

Lemma peer_ok_room p pm q :
  peer_ok p -> pi_pending_count p < MAXIMUM_PENDING_PER_PEER -> pending_ok pm ->
  q ≡ₚ pm :: pi_queue p -> peer_ok (set_queue p (u32 (pi_pending_count p + 1)) q).
Proof.
  intros [] Hlt Hpm Hq. assert (E : length q = S (length (pi_queue p))) by (by rewrite Hq).
  unfold MAXIMUM_PENDING_PER_PEER in *.
  assert (Hu : u32 (pi_pending_count p + 1) = pi_pending_count p + 1)
    by (apply u32_small; unfold is_u32; lia).
  constructor; cbn [set_queue pi_id pi_pending_count pi_queue]; rewrite ?Hu; try done.
  - lia.
  - unfold MAXIMUM_PENDING_PER_PEER. lia.
  - rewrite Hq. by constructor.
Qed.

(** A message is put into the queue of a peer and core is asked to transmit it. *)
Lemma enqueue_ok B w a p pm (f : PeerInfo -> list P2PPendingMessage) :
  dht_ok B w -> store w !! a = Some p -> pi_pending_count p < MAXIMUM_PENDING_PER_PEER ->
  pending_ok pm -> f p ≡ₚ pm :: pi_queue p ->
  runs B (_ ← update_peer a (fun p => set_queue p (u32 (pi_pending_count p + 1)) (f p));
          process_peer_queue a) w
    (fun _ w' => (exists p', store w' !! a = Some p' /\ pi_queue p' = f p)
       /\ forall c, c <> a -> store w' !! c = store w !! c).
Proof.
  intros Hw Ha Hlt Hpm Hq. pose proof (do_peers _ _ Hw a p Ha) as Hp.
  set (p1 := set_queue p (u32 (pi_pending_count p + 1)) (f p)).
  assert (Hs : steady B w (set_store (<[a := p1]> (store w)) w)).
  { eapply steady_peer_change; [ done | exact Ha | by eapply peer_ok_room | done ]. }
  eapply runs_step; [ by apply update_peer_run | exact Hs | ].
  set (w1 := set_store _ w) in *. assert (Ha1 : store w1 !! a = Some p1) by apply lookup_insert_eq.
  eapply runs_weaken; [ apply (process_peer_queue_ok B w1 a p1); [ by eapply steady_ok | done ] | ].
  cbn beta. intros _ w2 _ [b Hb]. rewrite Hb. split.
  - eexists. split; [ apply lookup_insert_eq | done ].
  - intros c Hc. rewrite lookup_insert_ne by done. by apply lookup_insert_ne.
Qed.

Lemma runs_assoc {A C D} B (m : action dht A) (f : A -> action dht C) (g : C -> action dht D) w R :
  runs B ((m ≫= f) ≫= g) w R -> runs B (m ≫= (fun x => f x ≫= g)) w R.
Proof.
  unfold runs, returns, mbind, action_bind. intros (d & w' & Hr & HR). exists d, w'. split; [ | done ].
  by destruct (m w) as [[x w1]| |].
Qed.

Lemma queue_to_all_ok B (P : P2PPendingMessage -> Prop) (pending : action dht P2PPendingMessage) :
  (forall pm, P pm -> pending_ok pm) ->
  (forall w, dht_ok B w -> runs B pending w (fun pm w' => store w' = store w /\ P pm)) ->
  forall targets w, dht_ok B w -> NoDup targets -> (forall a, a ∈ targets -> is_Some (store w !! a)) ->
  runs B (queue_to_all targets pending) w (fun _ w' => queued P targets w w').
Proof.
  intros HP Hpend targets. induction targets as [|t targets IH]; intros w Hw Hnd Hin; cbn [queue_to_all].
  { apply runs_ret; [ done | by apply queued_nil ]. }
  apply NoDup_cons in Hnd as [Ht Hnd]. destruct (Hin t) as [p Hp]; [ by left | ].
  apply runs_peer_at with (p := p); [ done | ].
  assert (Hstep : forall w1, steady B w w1 ->
    (forall c, c <> t -> store w1 !! c = store w !! c) ->
    (exists p', store w1 !! t = Some p' /\ got P p p') ->
    runs B (queue_to_all targets pending) w1 (fun _ w' => queued P (t :: targets) w w')).
  { intros w1 Hs1 Hother (p' & Hp' & Hgot). eapply runs_weaken; [ apply IH; [ by eapply steady_ok | done | ] | ].
    { intros a Ha. rewrite Hother by (intros ->; done). apply Hin. by right. }
    cbn beta. intros _ w2 _ Hq a q Ha. destruct (decide (a = t)) as [->|Hne].
    - rewrite Hp in Ha. injection Ha as <-. destruct (Hq t p' Hp') as (p2 & Hp2 & Hqueue).
      rewrite decide_False in Hqueue by done. exists p2. split; [ done | ].
      rewrite decide_True by (by left). unfold got in *. by rewrite Hqueue.
    - rewrite <- Hother in Ha by done. destruct (Hq a q Ha) as (p2 & Hp2 & Hqueue). exists p2.
      split; [ done | ]. destruct (decide (a ∈ targets)) as [Hat|Hat].
      + by rewrite decide_True by (by right).
      + rewrite decide_False; [ done | ]. intros [?|?]%elem_of_cons; done. }
  destruct (Z.leb_spec MAXIMUM_PENDING_PER_PEER (pi_pending_count p)) as [Hfull|Hroom].
  { apply Hstep; [ by apply steady_refl | done | ]. exists p. split; [ done | ]. unfold got.
    by rewrite (proj2 (Z.leb_le _ _)). }
  eapply runs_bind; [ by apply Hpend | ]. cbn beta. intros pm w1 Hs1 [Hst1 Hpm].
  assert (Hw1 := steady_ok _ _ _ Hs1). eapply runs_assoc, runs_bind.
  { apply (enqueue_ok B w1 t p pm (fun p => pi_queue p ++ [pm])); [ done | by rewrite Hst1 | done | auto | ].
    by rewrite (comm app). }
  cbn beta. intros _ w2 Hs2 [(p' & Hp' & Hq) Hother]. apply Hstep.
  - by eapply steady_trans.
  - intros c Hc. rewrite Hother by done. by rewrite Hst1.
  - exists p'. split; [ done | ]. unfold got. rewrite (proj2 (Z.leb_gt _ _)) by done. eauto.
Qed.
(** ** PUT *)

Definition put_size (path : list GNUNET_PeerIdentity) (data : list Z) : Z :=
  Z.of_nat (length path * sizeof_peer + length data + sizeof_put).

(** The path is left out if the message would be too large with it. *)
Definition sent_path (path : list GNUNET_PeerIdentity) (data : list Z) : list GNUNET_PeerIdentity :=
  if GNUNET_SERVER_MAX_MESSAGE_SIZE <=? put_size path data then [] else path.

Definition put_message (options type hops level : Z) (exp : GNUNET_TIME_Absolute) (bf : GNUNET_CONTAINER_BloomFilter)
  key (path : list GNUNET_PeerIdentity) (data : list Z) : list Z :=
  encode_put (put_size path data)
    (mk_put options type hops level (Z.of_nat (length path)) exp (bitArray bf) key)
  ++ encode_path path ++ data.

Definition dht_filter (bf : GNUNET_CONTAINER_BloomFilter) : Prop :=
  bf_ok bf /\ bitArraySize bf = DHT_BLOOM_SIZE.

Lemma dht_filter_same bf bf' : dht_filter bf -> bf_ok bf' -> same_params bf bf' -> dht_filter bf'.
Proof. intros [_ Hs] Hok [Hs' _]. split; [ done | congruence ]. Qed.

Lemma dht_filter_length bf : dht_filter bf -> length (bitArray bf) = 128%nat.
Proof. intros [[_ Hl] Hs]. unfold DHT_BLOOM_SIZE in Hs. lia. Qed.

Lemma dht_filter_raw bf :
  dht_filter bf -> GNUNET_CONTAINER_bloomfilter_get_raw_data (Some bf) DHT_BLOOM_SIZE = Some (bitArray bf).
Proof.
  intros Hbf. unfold GNUNET_CONTAINER_bloomfilter_get_raw_data. rewrite (proj2 Hbf), Z.eqb_refl. cbn [negb].
  by rewrite firstn_all2 by (by rewrite (dht_filter_length bf)).
Qed.

(** What the arguments of a request are in the code: numbers in range, hash codes *)
Record request_ok (type options level : Z) (exp : GNUNET_TIME_Absolute) key
  (bf : GNUNET_CONTAINER_BloomFilter) : Prop := {
  rq_type : is_u32 type;
  rq_options : is_u32 options;
  rq_level : is_u32 level;
  rq_exp : is_abs exp;
  rq_key : is_hash key;
  rq_bf : dht_filter bf
}.

Lemma put_message_ok options type hops level exp bf key path data :
  request_ok type options level exp key bf -> is_u32 hops -> Forall is_hash path ->
  put_size path data < GNUNET_SERVER_MAX_MESSAGE_SIZE ->
  let m := mk_put options type hops level (Z.of_nat (length path)) exp (bitArray bf) key in
  put_ok m /\ msg_size (put_message options type hops level exp bf key path data) = put_size path data
  /\ Z.of_nat (length (put_message options type hops level exp bf key path data)) = put_size path data.
Proof.
  intros [] Hh Hp Hsz m. unfold put_message. fold m.
  assert (Hu : is_u16 (put_size path data)) by (unfold is_u16, put_size, sizeof_peer, sizeof_put, GNUNET_SERVER_MAX_MESSAGE_SIZE in *; lia).
  assert (Hm : put_ok m).
  { constructor; cbn; try done; [ | by apply dht_filter_length ].
    unfold is_u32, put_size, sizeof_peer, GNUNET_SERVER_MAX_MESSAGE_SIZE, GNUNET_PeerIdentity in *. lia. }
  split_and!; [ done | by apply msg_size_put | ].
  rewrite !length_app, length_encode_put, length_encode_path by done.
  unfold put_size, sizeof_peer, GNUNET_PeerIdentity. lia.
Qed.

(** The filter with this peer, the targets, and the message that they get *)
Lemma handle_put_ok B w type options level exp hops bf key path data :
  dht_ok B w -> 0 < bucket_size < 2 ^ 32 -> counts hops level ->
  request_ok type options level exp key bf -> Forall is_hash path ->
  runs B (GDS_NEIGHBOURS_handle_put type options level exp hops bf key path data) w (fun bf' w' =>
    exists bf1 targets, GNUNET_CONTAINER_bloomfilter_add bf_hash bf my_identity = Ret bf1
      /\ targets_ok w bf1 bf' targets
      /\ queued (fun pm => pm = mk_pending 0 exp (put_message options type (u32 (hops + 1)) level exp bf' key
                                                  (sent_path path data) data))
           (if GNUNET_SERVER_MAX_MESSAGE_SIZE <=? put_size (sent_path path data) data then [] else targets) w w').
Proof.
  intros Hw Hbs Hc Hrq Hp. pose proof Hrq as [_ _ _ _ Hk Hbf]. unfold GDS_NEIGHBOURS_handle_put.
  destruct (bf_add_ok bf my_identity (proj1 Hbf)) as (bf1 & Hadd & Hok1 & Hp1 & _).
  eapply runs_lift; [ exact Hadd | ].
  eapply runs_bind; [ by apply get_target_peers_ok | ]. cbn beta.
  intros [targets bf'] w1 Hs1 (Hst1 & Ht & _). cbn [fst snd] in *. assert (Hw1 := steady_ok _ _ _ Hs1).
  assert (Hbf' : dht_filter bf').
  { eapply dht_filter_same; [ | apply Ht | apply Ht ]. by eapply dht_filter_same. }
  set (path' := sent_path path data).
  assert (Hp' : Forall is_hash path') by (unfold path', sent_path; by destruct (_ <=? _)).
  assert (Hnone : forall P, queued P [] w w1) by (intros P; by apply queued_nil).
  destruct targets as [|t ts].
  { apply runs_ret; [ done | ]. exists bf1, []. split_and!; [ done | done | ]. by destruct (_ <=? _). }
  cbv beta zeta. unfold GNUNET_PeerIdentity in *.
  change (if GNUNET_SERVER_MAX_MESSAGE_SIZE <=? Z.of_nat (length path * sizeof_peer + length data + sizeof_put)
          then [] else path) with path'.
  change (Z.of_nat (length path' * sizeof_peer + length data + sizeof_put)) with (put_size path' data).
  destruct (Z.leb_spec GNUNET_SERVER_MAX_MESSAGE_SIZE (put_size path' data)) as [Hbig|Hfit].
  { apply runs_ret; [ done | ]. exists bf1, (t :: ts). split_and!; [ done | done | apply Hnone ]. }
  assert (Hrq' : request_ok type options level exp key bf') by (by destruct Hrq).
  destruct (put_message_ok options type (u32 (hops + 1)) level exp bf' key path' data)
    as (Hm & Hms & Hml); [ by destruct Hrq' | apply u32_range | done | done | ].
  set (msg := put_message options type (u32 (hops + 1)) level exp bf' key path' data) in *.
  eapply runs_bind; [ eapply queue_to_all_ok with (P := fun pm => pm = mk_pending 0 exp msg);
    [ | | done | apply Ht | ] | ].
  - intros pm ->. unfold pending_ok. cbn [pm_msg]. rewrite Hms. by rewrite <- Hml.
  - intros w2 Hw2. rewrite (dht_filter_raw bf' Hbf'). eapply runs_lift; [ done | ].
    by apply runs_ret.
  - intros a Ha. rewrite Hst1. destruct (to_new _ _ _ _ Ht a Ha) as (p & -> & _). eauto.
  - cbn beta. intros _ w3 Hs3 Hq. apply runs_ret; [ by eapply steady_ok | ]. exists bf1, (t :: ts).
    split_and!; [ done | done | ]. intros a p Ha. rewrite <- Hst1 in Ha. by apply Hq.
Qed.
(** ** GET *)

(** The bytes of the filter for replies *)
Definition filter_bytes (reply_bf : option GNUNET_CONTAINER_BloomFilter) : list Z :=
  match reply_bf with Some bf => bitArray bf | None => [] end.

Definition get_size (xquery : list Z) (reply_bf : option GNUNET_CONTAINER_BloomFilter) : Z :=
  Z.of_nat (length xquery + sizeof_get) + GNUNET_CONTAINER_bloomfilter_get_size reply_bf.

Definition get_message (options type hops level : Z) key (xquery : list Z)
  (reply_bf : option GNUNET_CONTAINER_BloomFilter) (mutator : Z) (bf : GNUNET_CONTAINER_BloomFilter) : list Z :=
  encode_get (get_size xquery reply_bf)
    (mk_get options type hops level (Z.of_nat (length xquery)) mutator (bitArray bf) key)
  ++ xquery ++ filter_bytes reply_bf.

Lemma filter_bytes_size reply_bf :
  filter_ok reply_bf -> GNUNET_CONTAINER_bloomfilter_get_size reply_bf = Z.of_nat (length (filter_bytes reply_bf)).
Proof. destruct reply_bf as [b|]; [ by intros [_ Hl] | done ]. Qed.

Lemma get_message_ok options type hops level key xquery reply_bf mutator bf exp :
  request_ok type options level exp key bf -> is_u32 hops -> is_u32 mutator -> filter_ok reply_bf ->
  get_size xquery reply_bf < GNUNET_SERVER_MAX_MESSAGE_SIZE ->
  let m := mk_get options type hops level (Z.of_nat (length xquery)) mutator (bitArray bf) key in
  let msg := get_message options type hops level key xquery reply_bf mutator bf in
  get_ok m /\ msg_size msg = get_size xquery reply_bf /\ Z.of_nat (length msg) = get_size xquery reply_bf.
Proof.
  intros [] Hh Hmu Hr Hsz m msg. unfold msg, get_message. fold m.
  unfold get_size in *. rewrite (filter_bytes_size reply_bf Hr) in *.
  set (size := Z.of_nat (length xquery + sizeof_get) + Z.of_nat (length (filter_bytes reply_bf))) in *.
  assert (Hu : is_u16 size) by (unfold size, is_u16, sizeof_get, GNUNET_SERVER_MAX_MESSAGE_SIZE in *; lia).
  assert (Hm : get_ok m).
  { constructor; cbn; try done; [ | by apply dht_filter_length ].
    unfold size, is_u32, sizeof_get, GNUNET_SERVER_MAX_MESSAGE_SIZE in *. lia. }
  split_and!; [ done | by apply msg_size_get | ].
  rewrite !length_app, length_encode_get by done. unfold size. lia.
Qed.

(** The targets, the filter with them and this peer, and the message that they get *)
Lemma handle_get_ok B w type options level hops key xquery reply_bf mutator bf exp :
  dht_ok B w -> 0 < bucket_size < 2 ^ 32 -> counts hops level ->
  request_ok type options level exp key bf -> is_u32 mutator -> filter_ok reply_bf ->
  runs B (GDS_NEIGHBOURS_handle_get type options level hops key xquery reply_bf mutator bf) w (fun bf' w' =>
    exists bf1 targets, targets_ok w bf bf1 targets
      /\ GNUNET_CONTAINER_bloomfilter_add bf_hash bf1 my_identity = Ret bf'
      /\ queued (fun pm => pm_importance pm = 0
                    /\ pm_msg pm = get_message options type (u32 (hops + 1)) level key xquery reply_bf mutator bf')
           (if GNUNET_SERVER_MAX_MESSAGE_SIZE <=? get_size xquery reply_bf then [] else targets) w w').
Proof.
  intros Hw Hbs Hc Hrq Hmu Hr. pose proof Hrq as [_ _ _ _ Hk Hbf]. unfold GDS_NEIGHBOURS_handle_get.
  eapply runs_bind; [ apply get_target_peers_ok; (done || apply Hbf) | ]. cbn beta.
  intros [targets bf1] w1 Hs1 (Hst1 & Ht & _). cbn [fst snd] in *. assert (Hw1 := steady_ok _ _ _ Hs1).
  destruct (bf_add_ok bf1 my_identity) as (bf' & Hadd & Hok' & Hp' & _); [ apply Ht | ].
  eapply runs_lift; [ exact Hadd | ].
  assert (Hbf' : dht_filter bf').
  { eapply dht_filter_same; [ | done | exact Hp' ]. eapply dht_filter_same; [ done | apply Ht | apply Ht ]. }
  assert (Hnone : forall P, queued P [] w w1) by (intros P; by apply queued_nil).
  destruct targets as [|t ts].
  { apply runs_ret; [ done | ]. exists bf1, []. split_and!; [ done | done | ]. by destruct (_ <=? _). }
  fold (get_size xquery reply_bf).
  destruct (Z.leb_spec GNUNET_SERVER_MAX_MESSAGE_SIZE (get_size xquery reply_bf)) as [Hbig|Hfit].
  { apply runs_ret; [ done | ]. exists bf1, (t :: ts). split_and!; [ done | done | apply Hnone ]. }
  assert (Hrq' : request_ok type options level exp key bf') by (by destruct Hrq).
  destruct (get_message_ok options type (u32 (hops + 1)) level key xquery reply_bf mutator bf' exp)
    as (Hm & Hms & Hml); [ done | apply u32_range | done | done | done | ].
  set (msg := get_message options type (u32 (hops + 1)) level key xquery reply_bf mutator bf') in *.
  eapply runs_bind; [ eapply queue_to_all_ok with (P := fun pm => pm_importance pm = 0 /\ pm_msg pm = msg);
    [ | | done | apply Ht | ] | ].
  - intros pm [_ Hpm]. unfold pending_ok. rewrite Hpm, Hms. by rewrite <- Hml.
  - intros w2 Hw2. apply runs_now; [ done | ]. rewrite (dht_filter_raw bf' Hbf').
    eapply runs_lift; [ done | ]. apply runs_lift with (a := filter_bytes reply_bf).
    { destruct reply_bf as [b|]; [ | done ]. destruct Hr as [_ Hl]. cbn [GNUNET_CONTAINER_bloomfilter_get_size].
      unfold GNUNET_CONTAINER_bloomfilter_get_raw_data. rewrite Z.eqb_refl. cbn [negb filter_bytes].
      by rewrite firstn_all2 by lia. }
    apply runs_ret; [ by eapply steady_ok, steady_other | ]. done.
  - intros a Ha. rewrite Hst1. destruct (to_new _ _ _ _ Ht a Ha) as (p & -> & _). eauto.
  - cbn beta. intros _ w3 Hs3 Hq. apply runs_ret; [ by eapply steady_ok | ]. exists bf1, (t :: ts).
    split_and!; [ done | done | ]. intros a p Ha. rewrite <- Hst1 in Ha. by apply Hq.
Qed.

(** ** Results *)

Definition result_size (put_path get_path : list GNUNET_PeerIdentity) (data : list Z) : Z :=
  Z.of_nat (length data) + Z.of_nat sizeof_result
  + u32 (Z.of_nat (length get_path) + Z.of_nat (length put_path)) * Z.of_nat sizeof_peer.

Definition result_message (type : Z) (exp : GNUNET_TIME_Absolute) key
  (put_path get_path : list GNUNET_PeerIdentity) (data : list Z) : list Z :=
  encode_result (result_size put_path get_path data)
    (mk_result type (Z.of_nat (length put_path)) (Z.of_nat (length get_path)) exp key)
  ++ encode_path put_path ++ encode_path get_path ++ data.

(** The message fits: neither it nor its parts are too long. *)
Definition result_fits (put_path get_path : list GNUNET_PeerIdentity) (data : list Z) : bool :=
  let max_path := GNUNET_SERVER_MAX_MESSAGE_SIZE / Z.of_nat sizeof_peer in
  negb ((GNUNET_SERVER_MAX_MESSAGE_SIZE <=? result_size put_path get_path data)
        || (max_path <? Z.of_nat (length get_path)) || (max_path <? Z.of_nat (length put_path))
        || (GNUNET_SERVER_MAX_MESSAGE_SIZE <? Z.of_nat (length data))).

Lemma result_fits_ok put_path get_path data :
  result_fits put_path get_path data = true ->
  Z.of_nat (length put_path) + Z.of_nat (length get_path) < 2 ^ 32
  /\ result_size put_path get_path data
     = Z.of_nat (length data + sizeof_result + (length put_path + length get_path) * sizeof_peer)
  /\ result_size put_path get_path data < 65536.
Proof.
  unfold result_fits. change (GNUNET_SERVER_MAX_MESSAGE_SIZE / Z.of_nat sizeof_peer) with 1024. cbv zeta.
  rewrite negb_true_iff, !orb_false_iff, !Z.ltb_ge, Z.leb_gt. intros [[[Hsz Hg] Hp] _].
  unfold result_size, GNUNET_PeerIdentity in *.
  assert (Hu : u32 (Z.of_nat (length get_path) + Z.of_nat (length put_path))
    = Z.of_nat (length get_path) + Z.of_nat (length put_path)) by (apply u32_small; unfold is_u32; lia).
  rewrite Hu in *. unfold GNUNET_SERVER_MAX_MESSAGE_SIZE, sizeof_peer, sizeof_result in *. lia.
Qed.

Lemma result_message_ok type exp key put_path get_path data :
  is_u32 type -> is_abs exp -> is_hash key -> Forall is_hash put_path -> Forall is_hash get_path ->
  result_fits put_path get_path data = true ->
  let m := mk_result type (Z.of_nat (length put_path)) (Z.of_nat (length get_path)) exp key in
  let msg := result_message type exp key put_path get_path data in
  result_ok m /\ msg_size msg = result_size put_path get_path data
  /\ Z.of_nat (length msg) = result_size put_path get_path data.
Proof.
  intros Ht He Hk Hpp Hgp Hfit m msg. destruct (result_fits_ok _ _ _ Hfit) as (Hn & Hsz & Hlt).
  assert (Hm : result_ok m) by (constructor; cbn; try done; unfold is_u32, GNUNET_PeerIdentity in *; lia).
  unfold msg, result_message. fold m. split_and!; [ done | apply msg_size_result; unfold is_u16; lia | ].
  rewrite !length_app, length_encode_result, !length_encode_path, Hsz by done.
  unfold GNUNET_PeerIdentity. lia.
Qed.

(** A connected target whose queue has room gets the result at the head of its queue. *)
Definition replied (target : GNUNET_PeerIdentity) (pm : P2PPendingMessage) (fits : bool) w w' : Prop :=
  forall a p, store w !! a = Some p -> exists p', store w' !! a = Some p'
    /\ pi_queue p' = if bool_decide (pi_id p = target) && fits && (pi_pending_count p <? MAXIMUM_PENDING_PER_PEER)
                     then pm :: pi_queue p else pi_queue p.

Lemma handle_reply_ok B w target type exp key put_path get_path data :
  dht_ok B w -> is_u32 type -> is_abs exp -> is_hash key -> Forall is_hash put_path -> Forall is_hash get_path ->
  runs B (GDS_NEIGHBOURS_handle_reply target type exp key put_path get_path data) w (fun _ w' =>
    replied target (mk_pending 0 exp (result_message type exp key put_path get_path data))
      (result_fits put_path get_path data) w w').
Proof.
  intros Hw Ht He Hk Hpp Hgp. unfold GDS_NEIGHBOURS_handle_reply. cbv zeta. fold (result_size put_path get_path data).
  set (pm := mk_pending 0 exp (result_message type exp key put_path get_path data)).
  assert (Hsame : forall fits, (forall a p, store w !! a = Some p -> pi_id p = target -> fits = true ->
      MAXIMUM_PENDING_PER_PEER <= pi_pending_count p) -> runs B (mret tt) w (fun _ w' => replied target pm fits w w')).
  { intros fits Hno. apply runs_ret; [ done | ]. intros a p Ha. exists p. split; [ done | ].
    case_bool_decide as Hid; [ | done ]. destruct fits; [ | done ]. cbn [andb].
    by rewrite (proj2 (Z.ltb_ge _ _)) by eauto. }
  match goal with |- runs _ (if ?b then _ else _) _ _ =>
    replace b with (negb (result_fits put_path get_path data)) by (unfold result_fits; by rewrite negb_involutive) end.
  destruct (result_fits put_path get_path data) eqn:Hfit; cbn [negb]; [ | by apply Hsame ].
  apply runs_get. pose proof (known_get B w target Hw) as Hknown.
  destruct (mm_get (all_known_peers w) target) as [a|].
  2: { apply Hsame. intros a p Ha Hid. destruct Hknown. by exists a, p. }
  destruct Hknown as (p & Ha & Hid). apply runs_peer_at with (p := p); [ done | ].
  assert (Honly : forall c q, store w !! c = Some q -> pi_id q = target -> c = a)
    by (intros c q Hc Hq; eapply same_identity; [ done | done | done | congruence ]).
  destruct (Z.leb_spec MAXIMUM_PENDING_PER_PEER (pi_pending_count p)) as [Hfull|Hroom].
  { apply Hsame. intros c q Hc Hq _. rewrite (Honly c q Hc Hq) in Hc. congruence. }
  destruct (result_message_ok type exp key put_path get_path data) as (_ & Hms & Hml); try done.
  eapply runs_weaken; [ apply (enqueue_ok B w a p pm (fun p => pm :: pi_queue p)); try done | ].
  { unfold pending_ok. cbn [pm pm_msg]. by rewrite Hms, <- Hml. }
  cbn beta. intros _ w' _ [(p' & Hp' & Hq) Hother] c q Hc. case_bool_decide as Hqid; cbn [andb].
  - assert (c = a) as -> by eauto. assert (q = p) as -> by congruence. exists p'.
    by rewrite (proj2 (Z.ltb_lt _ _)).
  - exists q. rewrite Hother; [ done | ]. intros ->. congruence.
Qed.
End Forward.
