(* ===== verification/DhtReceive.v ===== *)
(** * Messages that the DHT receives from other peers

    The handlers of [DhtNeighbours] for messages of the network: on any bytes whose header
    announces no more than there is they return, the table of peers stays as it is and the
    routing table keeps its invariant. *)

From Stdlib Require Import ZArith Lia.
From stdpp Require Import base list numbers gmap.
From S2P Require Import Prelude Endian Time Heap Hash MultiHashMap MapInterface BloomFilter.
From S2P Require Import Bandwidth Messages Hello MetaData Block Routing RoutingSpec DhtMessages DhtServices.
From S2P Require Import DhtNeighbours DhtDistance DhtTable DhtSelect DhtForward.
Local Open Scope Z_scope.

Section Receive.
Context {M : Type} `{MM : MultiMap M nat} `{Env : DhtEnv}.
Implicit Types (w : dht (M := M)) (key : GNUNET_HashCode).

(** ** Replies of the routing table *)

(** The arguments of [GDS_NEIGHBOURS_handle_reply] *)
Record reply_ok (r : reply) : Prop := {
  re_type_ok : is_u32 (re_type r);
  re_exp_ok : is_abs (mk_abs (re_expiration_time r));
  re_key_ok : is_hash (re_key r);
  re_put_ok : Forall is_hash (re_put_path r);
  re_get_ok : Forall is_hash (re_get_path r)
}.

Lemma send_replies_ok B l : forall w, dht_ok B w -> Forall reply_ok l -> runs B (send_replies l) w any.
Proof.
  induction l as [|r l IH]; intros w Hw Hl; cbn [send_replies]; [ by apply runs_ret | ].
  apply Forall_cons in Hl as [[] Hl]. eapply runs_bind; [ by apply handle_reply_ok | ].
  intros _ w1 Hs _. apply IH; [ by eapply steady_ok | done ].
Qed.

Lemma process_replies hc pc key rr r :
  r ∈ (process GDS_block_context hc pc key rr).2 -> r = reply_for pc rr key.
Proof.
  unfold process. destruct (negb _ && _); [ intros Hin; by apply elem_of_nil in Hin | ].
  destruct (GNUNET_BLOCK_evaluate _ _ _ _ _ _ _) as [eval bf].
  repeat case_match; cbn; intros Hin; try (by apply elem_of_nil in Hin). by apply list_elem_of_singleton in Hin.
Qed.

Lemma route_reply_ok B w hc type exp key put_path get_path data :
  dht_ok B w -> routing_ok (recent w) -> is_u32 type -> is_abs exp -> is_hash key ->
  Forall is_hash put_path -> Forall is_hash get_path ->
  runs B (route_reply hc type exp key put_path get_path data) w any.
Proof.
  intros Hw Hr Ht He Hk Hp Hg. unfold route_reply. apply runs_get.
  destruct (process_ok GDS_block_context hc type (abs_value exp) key put_path get_path data (recent w) Hr)
    as (r & sent & l & k & Hrun & Hr' & _ & _ & _ & Hpr).
  eapply runs_lift; [ exact Hrun | ]. cbv beta iota.
  assert (Hs : steady B w (set_recent r w)) by by apply steady_other.
  apply runs_step with (a := tt) (w' := set_recent r w); [ done | done | ].
  apply send_replies_ok; [ by eapply steady_ok | ]. rewrite (pr_sent _ _ _ _ _ _ _ _ _ Hpr).
  apply Forall_forall. intros x Hx. rewrite list_elem_of_In, in_concat in Hx. destruct Hx as (s & Hs1 & Hs2).
  apply list_elem_of_In in Hs1, Hs2. apply list_elem_of_fmap in Hs1 as (a & -> & _).
  destruct (mem (recent w) !! a) as [rr|]; [ | by apply elem_of_nil in Hs2 ].
  apply process_replies in Hs2 as ->. unfold reply_for.
  constructor; cbn; try done; by destruct (negb _).
Qed.

(** ** Results *)

Lemma consider_hello_ok B w h :
  dht_ok B w -> (forall l, is_hash (sha512 l)) -> runs B (consider_hello h) w any.
Proof.
  intros Hw Hsha. unfold consider_hello.
  destruct (Z.ltb_spec (Z.of_nat (length h)) 4); [ by apply runs_ret | ].
  destruct (Z.eqb_spec (Z.of_nat (length h)) (msg_size h)) as [Hsz|Hne]; cbn [negb]; [ | by apply runs_ret ].
  assert (exists r, GNUNET_HELLO_get_id sha512 h = Ret r /\ forall id, r = Some id -> is_hash id) as (r & Hr & Hid).
  { unfold GNUNET_HELLO_get_id. rewrite mem_read_ok by lia. cbn [mbind outcome_bind]. rewrite drop_0.
    assert (Hhd : mh_size (wire_decode (take 4 h)) = msg_size h).
    { unfold msg_size. cbn. by rewrite take_take. }
    rewrite Hhd. destruct (_ || _) eqn:Hg; [ by eexists | ].
    apply orb_false_iff in Hg as [Hg _]. apply Z.ltb_ge in Hg. unfold publicKey.
    unfold sizeof_hello in Hg. rewrite mem_read_ok by (unfold sizeof_key in *; lia). cbn [mbind outcome_bind].
    eexists. split; [ reflexivity | ]. intros id [= <-]. apply Hsha. }
  eapply runs_lift; [ exact Hr | ]. destruct r as [id|]; [ | by apply runs_ret ].
  specialize (Hid id eq_refl). case_bool_decide as Hme; [ by apply runs_ret | ].
  destruct (find_bucket_ok id) as (i & Hi & Hlt & _); [ apply Hw | done | congruence | ].
  eapply runs_lift; [ exact Hi | ]. apply runs_get.
  destruct (lookup_lt_is_Some_2 (k_buckets w) i) as [b Hb]; [ by rewrite (do_length _ _ Hw) | ].
  apply runs_lift with (a := peers_size b <? bucket_size).
  { rewrite (proj2 (Z.leb_le _ _)) by lia. unfold bucket_at. by rewrite Nat2Z.id, Hb. }
  apply runs_bind with (Q := any); [ | intros; apply runs_ret; [ by eapply steady_ok | done ] ].
  destruct (_ && _); [ | by apply runs_ret ]. apply runs_emit; [ done | ].
  assert (Hw1 := steady_ok _ _ _ (emit_steady B (TRANSPORT_offer_hello h) w Hw)).
  destruct disable_try_connect; [ by apply runs_ret | ].
  apply runs_last, runs_emit; [ done | ]. apply runs_ret; [ by eapply steady_ok, emit_steady | done ].
Qed.

(** A message as the core service passes it on *)
Definition received (message : list Z) : Prop :=
  is_bytes message /\ msg_size message <= Z.of_nat (length message).

Lemma read_header message n :
  received message -> Z.of_nat n <= msg_size message ->
  mem_read message 0 n = Ret (take n message) /\ is_bytes (take n message) /\ length (take n message) = n.
Proof.
  intros [Hb Hl] Hn. rewrite mem_read_ok by lia. rewrite drop_0.
  split_and!; [ done | by apply Forall_take | rewrite length_take; lia ].
Qed.

Lemma handle_result_ok B w hc peer message :
  dht_ok B w -> routing_ok (recent w) -> (forall l, is_hash (sha512 l)) -> is_hash peer -> received message ->
  runs B (handle_dht_p2p_result hc peer message) w (fun r _ => r = GNUNET_YES).
Proof.
  intros Hw Hr Hsha Hpeer Hmsg. pose proof Hmsg as [Hb Hlen]. unfold handle_dht_p2p_result.
  destruct (Z.ltb_spec (msg_size message) (Z.of_nat sizeof_result)) as [|Hsz]; [ by apply runs_ret | ].
  destruct (read_header message sizeof_result Hmsg Hsz) as (Hread & Hhb & Hhl).
  eapply runs_lift; [ exact Hread | ]. pose proof (decode_result_ok _ Hhb Hhl) as Hprm.
  set (prm := decode_result _) in *. clearbody prm. destruct Hprm as [Ht Hpl Hgl He Hk].
  change (GNUNET_SERVER_MAX_MESSAGE_SIZE / Z.of_nat sizeof_peer) with 1024. cbv zeta.
  match goal with |- runs _ (if ?b then _ else _) _ _ => destruct b eqn:Hguard end; [ by apply runs_ret | ].
  rewrite !orb_false_iff, !Z.ltb_ge in Hguard. destruct Hguard as [[Hfit Hg] Hp].
  rewrite (u32_small (_ + _)) in Hfit by (unfold is_u32 in *; lia).
  set (np := Z.to_nat (prm_put_path_length prm)). set (ng := Z.to_nat (prm_get_path_length prm)).
  set (get_off := (sizeof_result + np * sizeof_peer)%nat). set (data_off := (get_off + ng * sizeof_peer)%nat).
  assert (Hoff : Z.of_nat data_off <= msg_size message)
    by (unfold data_off, get_off, np, ng, sizeof_peer, is_u32 in *; lia).
  eapply runs_lift; [ apply mem_read_ok; lia | ].
  set (data := take _ _).
  apply runs_bind with (Q := any).
  { destruct (_ =? _); [ by apply consider_hello_ok | by apply runs_ret ]. }
  intros ok w1 Hs1 _. assert (Hw1 := steady_ok _ _ _ Hs1).
  destruct ok; cbn [negb]; [ | by apply runs_ret ].
  destruct (read_path_hashes message sizeof_result np Hb) as (put_path & Hpp & _ & Hpph);
    [ unfold data_off, get_off in *; lia | ].
  destruct (read_path_hashes message get_off ng Hb) as (get_path & Hgp & _ & Hgph);
    [ unfold data_off in *; lia | ].
  eapply runs_lift; [ exact Hpp | ]. eapply runs_lift; [ exact Hgp | ].
  apply runs_emit; [ done | ]. set (w2 := add_call _ w1).
  assert (Hs2 : steady B w1 w2) by by apply emit_steady. assert (Hw2 := steady_ok _ _ _ Hs2).
  assert (Hgph' : Forall is_hash (get_path ++ [peer])) by (apply Forall_app; by split; [ | constructor ]).
  eapply runs_bind; [ apply route_reply_ok; try done; by apply Hs2, Hs1 | ].
  intros _ w3 Hs3 _. assert (Hw3 := steady_ok _ _ _ Hs3). apply runs_emit; [ done | ].
  apply runs_ret; [ by eapply steady_ok, emit_steady | done ].
Qed.

(** ** PUT *)

(** A plugin that reports success has set the key. *)
Definition plugins_ok : Prop :=
  forall type block, (GNUNET_BLOCK_get_key GDS_block_context type block).1 = GNUNET_YES ->
    is_Some (GNUNET_BLOCK_get_key GDS_block_context type block).2.

(** A block is taken unless its key is wrong or it is malformed. *)
Definition valid_block (type : Z) key (payload : list Z) : bool :=
  let '(ret, k) := GNUNET_BLOCK_get_key GDS_block_context type payload in
  if ret =? GNUNET_YES then bool_decide (k = Some key) else negb (ret =? GNUNET_NO).

Lemma valid_block_ok type key payload ret k :
  plugins_ok -> GNUNET_BLOCK_get_key GDS_block_context type payload = (ret, k) ->
  (if ret =? GNUNET_YES then k' ← of_option k; Ret (bool_decide (k' = key)) else Ret (negb (ret =? GNUNET_NO)))
  = Ret (valid_block type key payload).
Proof.
  intros Hplug Hkey. specialize (Hplug type payload). unfold valid_block. rewrite Hkey in *. cbn [fst snd] in Hplug.
  destruct (Z.eqb_spec ret GNUNET_YES) as [Hy|Hy]; [ | done ]. destruct (Hplug Hy) as [k' ->].
  cbn [of_option mbind outcome_bind]. f_equal. apply bool_decide_ext. split; [ by intros -> | by intros [= ->] ].
Qed.

(** Whether a block is to be stored here *)
Definition store_here w (options : Z) key (bf : GNUNET_CONTAINER_BloomFilter) : Prop :=
  Z.land options GNUNET_DHT_RO_DEMULTIPLEX_EVERYWHERE <> 0
  \/ forall id, connected w id -> masked bf id = false -> shared id key <= shared my_identity key.

(** The calls of the data cache for a block that is stored *)
Definition stored (exp : GNUNET_TIME_Absolute) key (path : list GNUNET_PeerIdentity) (type : Z) (data : list Z)
  : list dht_call :=
  match datacache with
  | None => []
  | Some _ => if GNUNET_SERVER_MAX_MESSAGE_SIZE <=? Z.of_nat (length data) then []
              else [DATACACHE_put key data type exp path]
  end.

Lemma datacache_put_ok B w exp key path type data :
  dht_ok B w ->
  runs B (GDS_DATACACHE_handle_put exp key path type data) w (fun _ w' =>
    store w' = store w /\ calls w' = calls w ++ stored exp key path type data).
Proof.
  intros Hw. unfold GDS_DATACACHE_handle_put, stored. destruct datacache as [get|].
  2: { apply runs_ret; [ done | by rewrite app_nil_r ]. }
  destruct (_ <=? _); [ apply runs_ret; [ done | by rewrite app_nil_r ] | ].
  apply runs_last, runs_emit; [ done | ]. apply runs_ret; [ by eapply steady_ok, emit_steady | done ].
Qed.

(** What the peers get that a PUT is forwarded to *)
Definition put_forwarded (put : PeerPutMessage) (bf : GNUNET_CONTAINER_BloomFilter)
  (path : list GNUNET_PeerIdentity) (payload : list Z) w w' : Prop :=
  exists bf1 bf' targets, GNUNET_CONTAINER_bloomfilter_add bf_hash bf my_identity = Ret bf1
    /\ targets_ok w bf1 bf' targets
    /\ queued (fun pm => pm = mk_pending 0 (ppm_expiration_time put)
                  (put_message (ppm_options put) (ppm_type put) (u32 (ppm_hop_count put + 1))
                     (ppm_desired_replication_level put) (ppm_expiration_time put) bf' (ppm_key put)
                     (sent_path path payload) payload))
         (if GNUNET_SERVER_MAX_MESSAGE_SIZE <=? put_size (sent_path path payload) payload then [] else targets)
         w w'.

(** A PUT from [peer] that is not refused: the clients that wait for it get the block with the
    path (if that is recorded), the block is stored if this peer is the closest, and it is
    forwarded. *)
Definition put_accepted (peer : GNUNET_PeerIdentity) (put : PeerPutMessage) (put_path : list GNUNET_PeerIdentity)
  (payload : list Z) w w' : Prop :=
  let pp := if Z.land (ppm_options put) GNUNET_DHT_RO_RECORD_ROUTE =? 0 then [] else put_path ++ [peer] in
  exists bf (here : bool), GNUNET_CONTAINER_bloomfilter_init (Some (ppm_bloomfilter put)) DHT_BLOOM_SIZE
      GNUNET_CONSTANTS_BLOOMFILTER_K = Some bf
    /\ (here = true <-> store_here w (ppm_options put) (ppm_key put) bf)
    /\ calls w ++ CLIENTS_handle_reply (ppm_expiration_time put) (ppm_key put) [] pp (ppm_type put) payload
         :: (if here then stored (ppm_expiration_time put) (ppm_key put) pp (ppm_type put) payload else [])
       `prefix_of` calls w'
    /\ put_forwarded put bf pp payload w w'.

Lemma put_accepted_ok B w peer message put n payload put_path :
  dht_ok B w -> 0 < bucket_size < 2 ^ 32 -> plugins_ok -> is_hash peer ->
  counts (M := M) (ppm_hop_count put) (ppm_desired_replication_level put) ->
  Z.of_nat sizeof_put <= msg_size message -> mem_read message 0 sizeof_put = Ret (take sizeof_put message) ->
  decode_put (take sizeof_put message) = put -> put_ok put -> n = Z.to_nat (ppm_put_path_length put) ->
  Z.of_nat sizeof_put + ppm_put_path_length put * Z.of_nat sizeof_peer <= msg_size message ->
  ppm_put_path_length put <= 1024 ->
  mem_read message (sizeof_put + n * sizeof_peer)
    (Z.to_nat (msg_size message) - (sizeof_put + n * sizeof_peer)) = Ret payload ->
  read_path message sizeof_put n = Ret put_path -> Forall is_hash put_path ->
  valid_block (ppm_type put) (ppm_key put) payload = true ->
  runs B (handle_dht_p2p_put peer message) w (fun r w' =>
    r = GNUNET_YES /\ put_accepted peer put put_path payload w w').
Proof.
  intros Hw Hbs Hplug Hpeer Hc Hsz Hread Hput Hok Hn Hfit Hmax Hpay Hpath Hhash Hvalid.
  unfold handle_dht_p2p_put. rewrite (proj2 (Z.ltb_ge _ _)) by done.
  eapply runs_lift; [ exact Hread | ]. rewrite Hput. cbv zeta. rewrite <- Hn.
  change (GNUNET_SERVER_MAX_MESSAGE_SIZE / Z.of_nat sizeof_peer) with 1024.
  rewrite (proj2 (Z.ltb_ge (msg_size message) _)), (proj2 (Z.ltb_ge 1024 _)) by done. cbn [orb].
  eapply runs_lift; [ exact Hpay | ]. 
  destruct (GNUNET_BLOCK_get_key GDS_block_context (ppm_type put) payload) as [ret k] eqn:Hkey.
  apply runs_lift with (a := true); [ rewrite (valid_block_ok _ (ppm_key put) _ _ _ Hplug Hkey); by rewrite Hvalid | ].
  cbn [negb]. pose proof Hok as [Ho Ht Hh Hl _ He Hbl Hk].
  destruct (bf_init_ok (ppm_bloomfilter put) DHT_BLOOM_SIZE GNUNET_CONSTANTS_BLOOMFILTER_K)
    as (bf & Hbf & Hbok & Hbsz & _); [ done | by rewrite Hbl | unfold GNUNET_CONSTANTS_BLOOMFILTER_K; lia | ].
  rewrite Hbf. eapply runs_lift; [ done | ]. eapply runs_lift; [ exact Hpath | ].
  unfold put_accepted. unfold GNUNET_PeerIdentity in *. set (pp := if Z.land (ppm_options put) GNUNET_DHT_RO_RECORD_ROUTE =? 0 then [] else _).
  match goal with |- context [if negb ?b then put_path ++ [peer] else []] =>
    replace (if negb b then put_path ++ [peer] else []) with pp by (unfold pp; by destruct b) end.
  assert (Hpp : Forall is_hash pp).
  { unfold pp. destruct (_ =? 0); [ constructor | ]. apply Forall_app. by split; [ | constructor ]. }
  apply runs_emit; [ done | ]. set (w1 := add_call _ w).
  assert (Hs1 : steady B w w1) by by apply emit_steady. assert (Hw1 := steady_ok _ _ _ Hs1). apply runs_get.
  assert (exists here, (if negb (Z.land (ppm_options put) GNUNET_DHT_RO_DEMULTIPLEX_EVERYWHERE =? 0) then Ret true
      else am_closest_peer w1 (ppm_key put) (Some bf)) = Ret here
      /\ (here = true <-> store_here w (ppm_options put) (ppm_key put) bf)) as (here & Hhere & Hst).
  { unfold store_here. destruct (Z.eqb_spec (Z.land (ppm_options put) GNUNET_DHT_RO_DEMULTIPLEX_EVERYWHERE) 0)
      as [E|E]; cbn [negb]; [ | exists true; split; [ done | tauto ] ].
    destruct (am_closest_ok B w1 (ppm_key put) (Some bf)) as (r & Hr & Hiff); [ done | done | done | lia | ].
    exists r. split; [ done | ]. rewrite Hiff. cbn [excluded]. split; [ intros Hall; by right | ].
    intros [?|Hall]; [ done | exact Hall ]. }
  eapply runs_lift; [ exact Hhere | ].
  apply runs_bind with (Q := fun _ w2 => store w2 = store w /\ calls w2
    = calls w1 ++ if here then stored (ppm_expiration_time put) (ppm_key put) pp (ppm_type put) payload else []).
  { destruct here; [ eapply runs_weaken; [ by apply (datacache_put_ok B w1) | done ] | ]. apply runs_ret; [ done | by rewrite app_nil_r ]. }
  cbn beta. intros _ w2 Hs2 [Hst2 Hcalls2]. assert (Hw2 := steady_ok _ _ _ Hs2).
  assert (Hrq : request_ok (ppm_type put) (ppm_options put) (ppm_desired_replication_level put)
    (ppm_expiration_time put) (ppm_key put) bf) by (constructor; try done; by split).
  eapply runs_bind; [ by apply handle_put_ok | ]. cbn beta.
  intros bf' w3 Hs3 (bf1 & targets & Hadd & Htg & Hq). assert (Hw3 := steady_ok _ _ _ Hs3).
  apply runs_emit; [ done | ]. apply runs_ret; [ by eapply steady_ok, emit_steady | ]. split; [ done | ].
  exists bf, here. split_and!; [ done | done | | ].
  - cbn [add_call calls]. etransitivity; [ | by apply prefix_app_r, Hs3 ]. rewrite Hcalls2. cbn [w1 add_call calls].
    by rewrite <- app_assoc.
  - exists bf1, bf', targets. split_and!; [ done | by apply (same_store_targets w2) | ].
    intros a p Ha. rewrite <- Hst2 in Ha. exact (Hq a p Ha).
Qed.

(** On any bytes the handler returns; the message is refused or handled. *)
Lemma handle_p2p_put_ok B w peer message :
  dht_ok B w -> 0 < bucket_size < 2 ^ 32 -> plugins_ok -> is_hash peer -> received message ->
  (let put := decode_put (take sizeof_put message) in put_ok put ->
   counts (M := M) (ppm_hop_count put) (ppm_desired_replication_level put)) ->
  runs B (handle_dht_p2p_put peer message) w (fun r w' => r = GNUNET_YES
    /\ (w' = w \/ exists put_path payload,
          put_accepted peer (decode_put (take sizeof_put message)) put_path payload w w')).
Proof.
  intros Hw Hbs Hplug Hpeer Hmsg Hc. pose proof Hmsg as [Hb Hlen].
  assert (Hrefused : runs B (mret GNUNET_YES) w (fun r w' => r = GNUNET_YES /\ (w' = w \/ exists put_path payload,
      put_accepted peer (decode_put (take sizeof_put message)) put_path payload w w')))
    by (apply runs_ret; [ done | split; [ done | by left ] ]).
  destruct (Z.ltb_spec (msg_size message) (Z.of_nat sizeof_put)) as [Hsz|Hsz].
  { unfold handle_dht_p2p_put. by rewrite (proj2 (Z.ltb_lt _ _) Hsz). }
  destruct (read_header message sizeof_put Hmsg Hsz) as (Hread & Hhb & Hhl).
  pose proof (decode_put_ok _ Hhb Hhl) as Hput. set (put := decode_put _) in *.
  set (n := Z.to_nat (ppm_put_path_length put)).
  destruct ((msg_size message <? Z.of_nat sizeof_put + ppm_put_path_length put * Z.of_nat sizeof_peer)
            || (1024 <? ppm_put_path_length put)) eqn:Hguard.
  { unfold handle_dht_p2p_put. rewrite (proj2 (Z.ltb_ge _ _) Hsz). eapply runs_lift; [ exact Hread | ]. fold put.
    change (GNUNET_SERVER_MAX_MESSAGE_SIZE / Z.of_nat sizeof_peer) with 1024. cbv zeta. by rewrite Hguard. }
  pose proof Hguard as Hg.
  rewrite orb_false_iff, !Z.ltb_ge in Hg. destruct Hg as [Hfit Hmax].
  assert (Hoff : (sizeof_put + n * sizeof_peer <= Z.to_nat (msg_size message))%nat)
    by (destruct Hput; unfold n, sizeof_put, sizeof_peer, is_u32 in *; lia).
  assert (Hpay : exists payload, mem_read message (sizeof_put + n * sizeof_peer)
    (Z.to_nat (msg_size message) - (sizeof_put + n * sizeof_peer)) = Ret payload)
    by (eexists; apply mem_read_ok; lia).
  destruct Hpay as [payload Hpay].
  destruct (valid_block (ppm_type put) (ppm_key put) payload) eqn:Hvalid.
  2: { unfold handle_dht_p2p_put. rewrite (proj2 (Z.ltb_ge _ _) Hsz). eapply runs_lift; [ exact Hread | ]. fold put.
       change (GNUNET_SERVER_MAX_MESSAGE_SIZE / Z.of_nat sizeof_peer) with 1024. cbv zeta. rewrite Hguard.
       eapply runs_lift; [ exact Hpay | ].
       destruct (GNUNET_BLOCK_get_key GDS_block_context (ppm_type put) payload) as [ret k] eqn:Hkey.
       apply runs_lift with (a := false); [ | done ]. rewrite (valid_block_ok _ (ppm_key put) _ _ _ Hplug Hkey).
       by rewrite Hvalid. }
  destruct (read_path_hashes message sizeof_put n Hb) as (put_path & Hpath & _ & Hhash); [ lia | ].
  eapply runs_weaken; [ apply (put_accepted_ok B w peer message put n payload put_path); try done; by apply Hc | ].
  cbn beta. intros r w' _ [-> Hacc]. split; [ done | ]. right. eauto.
Qed.

(** The message that [GDS_NEIGHBOURS_handle_put] builds is understood. *)
Lemma put_received B w peer options type hops level exp bf key path data :
  dht_ok B w -> 0 < bucket_size < 2 ^ 32 -> plugins_ok -> is_hash peer -> counts (M := M) hops level ->
  request_ok type options level exp key bf -> is_u32 hops -> Forall is_hash path ->
  put_size path data < GNUNET_SERVER_MAX_MESSAGE_SIZE -> valid_block type key data = true ->
  runs B (handle_dht_p2p_put peer (put_message options type hops level exp bf key path data)) w (fun r w' =>
    r = GNUNET_YES
    /\ put_accepted peer (mk_put options type hops level (Z.of_nat (length path)) exp (bitArray bf) key) path data w w').
Proof.
  intros Hw Hbs Hplug Hpeer Hc Hrq Hh Hp Hsz Hvalid.
  destruct (put_message_ok options type hops level exp bf key path data Hrq Hh Hp Hsz) as (Hok & Hms & Hml).
  set (put := mk_put options type hops level _ exp _ key) in *.
  set (msg := put_message options type hops level exp bf key path data) in *.
  assert (Hmsg : msg = encode_put (put_size path data) put ++ encode_path path ++ data) by done.
  assert (Hel : length (encode_put (put_size path data) put) = sizeof_put) by by apply length_encode_put.
  assert (Hpl : length (encode_path path) = (length path * sizeof_peer)%nat) by by apply length_encode_path.
  assert (Hu : is_u16 (put_size path data)).
  { unfold is_u16, put_size, sizeof_peer, sizeof_put, GNUNET_SERVER_MAX_MESSAGE_SIZE in *. lia. }
  assert (Hhead : mem_read msg 0 sizeof_put = Ret (take sizeof_put msg)).
  { rewrite mem_read_ok, drop_0; [ done | ]. rewrite Hmsg, length_app, Hel. lia. }
  assert (Hdec : decode_put (take sizeof_put msg) = put).
  { rewrite Hmsg, take_app_length' by done. rewrite <- (app_nil_r (encode_put _ _)). by apply put_roundtrip. }
  unfold GNUNET_PeerIdentity in *.
  apply (put_accepted_ok B w peer msg put (length path) data path); try done.
  - rewrite Hms. unfold put_size. lia.
  - cbn [put ppm_put_path_length]. by rewrite Nat2Z.id.
  - rewrite Hms. cbn [put ppm_put_path_length]. unfold put_size, sizeof_put, sizeof_peer, GNUNET_PeerIdentity. lia.
  - cbn [put ppm_put_path_length]. unfold put_size, sizeof_put, sizeof_peer, GNUNET_PeerIdentity, GNUNET_SERVER_MAX_MESSAGE_SIZE in *. lia.
  - replace (Z.to_nat (msg_size msg) - _)%nat with (length data)
      by (rewrite Hms; unfold put_size, GNUNET_PeerIdentity; lia).
    apply mem_read_at with (pre := encode_put (put_size path data) put ++ encode_path path) (post := []).
    + by rewrite app_nil_r, Hmsg, app_assoc.
    + by rewrite length_app, Hel, Hpl.
    + done.
  - rewrite Hmsg, <- Hel. by apply read_path_at.
Qed.

(** ** GET *)

(** A HELLO that this peer sends *)
Definition hello_ok (h : list Z) : Prop := is_bytes h /\ (4 <= length h)%nat /\ msg_size h <= Z.of_nat (length h).

(** What the other modules give: HELLOs, the results of the data cache, and filters that
    plugins have extended *)
Record env_ok : Prop := {
  en_my_hello : forall h, my_hello = Some h -> hello_ok h;
  en_hello : forall id h, hello_get id = Some h -> hello_ok h;
  en_cached : forall get key type c, datacache = Some get -> c ∈ get key type ->
    is_u32 (ca_type c) /\ is_abs (ca_expiration c) /\ Forall is_hash (ca_put_path c);
  en_filter : forall type key bf mutator xquery block, filter_ok bf ->
    filter_ok (GNUNET_BLOCK_evaluate GDS_block_context type key bf mutator xquery block).2;
  en_some : forall type key bf mutator xquery block, is_Some bf ->
    is_Some (GNUNET_BLOCK_evaluate GDS_block_context type key bf mutator xquery block).2;
  en_expiration : is_rel hello_expiration;
  en_clock : forall t, is_abs (clock t)
}.

Lemma read_hello h : hello_ok h -> exists size data, GNUNET_HELLO_size h = Ret size
  /\ mem_read h 0 (Z.to_nat size) = Ret data.
Proof.
  intros (Hb & H4 & Hsz). unfold GNUNET_HELLO_size. rewrite mem_read_ok by lia. cbn [mbind outcome_bind].
  rewrite drop_0. assert (Hhd : mh_size (wire_decode (take 4 h)) = msg_size h).
  { unfold msg_size. cbn. by rewrite take_take. }
  rewrite Hhd. destruct (_ || _).
  - eexists 0, _. split; [ done | ]. apply mem_read_ok. cbn. lia.
  - eexists _, _. split; [ done | ]. apply mem_read_ok. lia.
Qed.

Lemma find_hello_ok B w n bf mutator all : forall next,
  dht_ok B w -> filter_ok bf -> all <> [] ->
  (forall a, a ∈ all \/ a ∈ next -> is_Some (store w !! a)) ->
  exists r, find_hello w n bf mutator all next = Ret r
    /\ forall h, r = Some h -> exists id, hello_get id = Some h.
Proof.
  induction n as [|n IH]; intros next Hw Hbf Hall Hin; cbn [find_hello]; [ by eexists | ].
  set (l := match next with [] => all | _ => next end).
  assert (Hl : l <> [] /\ forall a, a ∈ l -> is_Some (store w !! a)).
  { unfold l. destruct next; split; auto. }
  destruct Hl as [Hne Hl]. destruct l as [|a rest]; [ done | ].
  destruct (Hl a) as [p Hp]; [ by left | ]. rewrite Hp. cbn [of_option mbind outcome_bind].
  assert (Hrest : forall a, a ∈ all \/ a ∈ rest -> is_Some (store w !! a))
    by (intros c [Hc|Hc]; [ apply Hin; by left | apply Hl; by right ]).
  destruct (hello_get (pi_id p)) as [h|] eqn:Hh; [ | by apply IH ].
  assert (Ht : exists t, GNUNET_CONTAINER_bloomfilter_test bf_hash bf
    (GNUNET_BLOCK_mingle_hash sha512 (pi_id p) mutator) = Ret t).
  { destruct bf as [b|]; [ | by eexists ]. eexists. by apply bf_test_ok. }
  destruct Ht as [t Ht]. rewrite (bind_ret _ _ _ Ht). destruct t; [ by apply IH | ].
  eexists. split; [ done | ]. intros h' [= <-]. eauto.
Qed.

Lemma nth_peer_ok c : forall l, (c < length l)%nat -> nth_peer c l = Ret (drop c l).
Proof.
  induction c as [|c IH]; intros [|x l] Hl; cbn [nth_peer length drop] in *; try lia; [ done | apply IH; lia ].
Qed.

Lemma relative_to_absolute_abs now d : is_abs now -> is_rel d -> is_abs (GNUNET_TIME_relative_to_absolute now d).
Proof.
  intros Hn Hd. unfold is_abs, is_rel in *. rewrite relative_to_absolute_saturates by done.
  unfold saturate, is_u64, UINT64_MAX in *. lia.
Qed.

Lemma send_hello_ok B w sender key h d :
  dht_ok B w -> env_ok -> is_hash key -> hello_ok h -> is_rel d -> runs B (send_hello sender key h d) w any.
Proof.
  intros Hw Henv Hk Hh Hd. unfold send_hello. destruct (read_hello h Hh) as (size & data & Hsz & Hrd).
  apply runs_now; [ done | ]. eapply runs_lift; [ exact Hsz | ]. eapply runs_lift; [ exact Hrd | ].
  eapply runs_weaken; [ apply handle_reply_ok; try done; [ by eapply steady_ok, steady_other | ] | done ].
  apply relative_to_absolute_abs; [ apply Henv | done ].
Qed.

Lemma handle_find_peer_ok B w sender key bf mutator :
  dht_ok B w -> env_ok -> is_hash key -> filter_ok bf ->
  runs B (handle_find_peer sender key bf mutator) w any.
Proof.
  intros Hw Henv Hk Hbf. unfold handle_find_peer.
  apply runs_bind with (Q := any).
  { destruct my_hello as [h|] eqn:Hmy; [ | by apply runs_ret ].
    eapply runs_lift with (a := excluded bf (GNUNET_BLOCK_mingle_hash sha512 my_identity mutator)).
    { destruct bf; [ by apply bf_test_ok | done ]. }
    destruct (excluded _ _); [ by apply runs_ret | apply send_hello_ok; [ done | done | done | by apply (en_my_hello Henv) | apply Henv ] ]. }
  intros _ w1 Hs1 _. assert (Hw1 := steady_ok _ _ _ Hs1). apply runs_get.
  assert (exists i, (if bool_decide (my_identity = key) then Ret (closest_bucket w1)
      else i ← find_bucket key; Ret (Z.min (closest_bucket w1) (u32 i))) = Ret (Z.of_nat i)
      /\ (i < Z.to_nat MAX_BUCKETS)%nat) as (i & Hi & Hlt).
  { pose proof (do_closest _ _ Hw1) as Hc. case_bool_decide as Hme.
    - exists (Z.to_nat (closest_bucket w1)). rewrite Z2Nat.id by lia. split; [ done | lia ].
    - destruct (find_bucket_ok key) as (i & -> & Hi & _); [ apply Hw1 | done | congruence | ].
      cbn [mbind outcome_bind]. unfold MAX_BUCKETS in *. rewrite u32_small by (unfold is_u32; lia).
      exists (Z.to_nat (Z.min (closest_bucket w1) (Z.of_nat i))). rewrite Z2Nat.id by lia. split; [ done | lia ]. }
  eapply runs_lift; [ exact Hi | ].
  destruct (lookup_lt_is_Some_2 (k_buckets w1) i) as [b Hb]; [ by rewrite (do_length _ _ Hw1) | ].
  apply runs_lift with (a := b); [ unfold bucket_at; by rewrite Nat2Z.id, Hb | ].
  destruct (do_bucket _ _ Hw1 i b Hb) as (_ & Hsz & He).
  destruct (Z.eqb_spec (peers_size b) 0) as [|Hne]; [ by apply runs_ret | ].
  apply runs_random; [ done | lia | ]. intros x Hx. set (w2 := count_reads 0 1 w1).
  assert (Hw2 : dht_ok B w2) by by eapply steady_ok, steady_other.
  eapply runs_lift; [ apply nth_peer_ok; lia | ].
  destruct (drop (Z.to_nat x) (pb_peers b)) as [|t next] eqn:Hd.
  { apply (f_equal length) in Hd. rewrite length_drop in Hd. cbn in Hd. lia. }
  eapply runs_lift; [ done | ].
  destruct (find_hello_ok B w1 (Z.to_nat (peers_size b)) bf mutator (pb_peers b) next) as (r & Hr & Hfrom);
    [ done | done | destruct (pb_peers b); [ cbn in Hsz; lia | done ] | | ].
  { intros a Ha. assert (Hab : a ∈ pb_peers b).
    { destruct Ha as [Ha|Ha]; [ done | ]. rewrite <- (take_drop (Z.to_nat x) (pb_peers b)), Hd.
      apply elem_of_app. right. by right. }
    apply He in Hab as (p & -> & _). eauto. }
  eapply runs_lift; [ exact Hr | ]. destruct r as [h|]; [ | by apply runs_ret ].
  destruct (Hfrom h eq_refl) as [id Hid]. apply send_hello_ok; [ done | done | done | by apply (en_hello Henv id) | vm_compute; split; congruence ].
Qed.

Lemma datacache_iterator_ok B hc key xquery mutator l : forall w bf eval,
  dht_ok B w -> routing_ok (recent w) -> env_ok -> is_hash key -> filter_ok bf ->
  (forall c, c ∈ l -> is_u32 (ca_type c) /\ is_abs (ca_expiration c) /\ Forall is_hash (ca_put_path c)) ->
  runs B (datacache_get_iterator hc key xquery bf mutator eval l) w (fun r _ => filter_ok r.2).
Proof.
  induction l as [|c l IH]; intros w bf eval Hw Hr Henv Hk Hbf Hl; cbn [datacache_get_iterator];
    [ by apply runs_ret | ].
  pose proof (en_filter Henv (ca_type c) key bf mutator xquery (Some (ca_data c)) Hbf) as Hbf'.
  destruct (GNUNET_BLOCK_evaluate _ _ _ _ _ _ _) as [eval' bf']. cbn [snd] in Hbf'.
  destruct (Hl c) as (Ht & He & Hp); [ by left | ].
  apply runs_bind with (Q := any).
  { destruct (_ || _); [ | by apply runs_ret ]. apply runs_emit; [ done | ].
    apply route_reply_ok; try done. by eapply steady_ok, emit_steady. }
  intros _ w1 Hs1 _. assert (Hw1 := steady_ok _ _ _ Hs1). destruct (_ || _); [ by apply runs_ret | ].
  apply IH; try done; [ by apply Hs1 | ]. intros d Hd. apply Hl. by right.
Qed.

Lemma datacache_get_ok B w hc key type xquery bf mutator :
  dht_ok B w -> routing_ok (recent w) -> env_ok -> is_hash key -> filter_ok bf ->
  runs B (GDS_DATACACHE_handle_get hc key type xquery bf mutator) w (fun r _ => filter_ok r.2).
Proof.
  intros Hw Hr Henv Hk Hbf. unfold GDS_DATACACHE_handle_get. destruct datacache as [get|] eqn:Hd; [ | by apply runs_ret ].
  apply datacache_iterator_ok; try done. intros c. by apply (en_cached Henv get key type c).
Qed.

(** A GET that has a filter for replies *)
Definition has_filter (message : list Z) : Prop :=
  msg_size message <> Z.of_nat sizeof_get + pgm_xquery_size (decode_get (take sizeof_get message)).

Lemma handle_p2p_get_ok B w hc rnd a n peer message :
  dht_ok B w -> routing_ok (recent w) -> env_ok -> 0 < bucket_size < 2 ^ 32 ->
  mem (recent w) !! a = None -> (n ∉ ids (root (recent_heap (recent w)))) ->
  received message -> has_filter message ->
  (let get := decode_get (take sizeof_get message) in get_ok get ->
   counts (M := M) (pgm_hop_count get) (pgm_desired_replication_level get)) ->
  runs B (handle_dht_p2p_get hc rnd a n peer message) w (fun r _ => r = GNUNET_YES).
Proof.
  intros Hw Hr Henv Hbs Ha Hn Hmsg Hfilter Hc. pose proof Hmsg as [Hb Hlen]. unfold handle_dht_p2p_get.
  destruct (Z.ltb_spec (msg_size message) (Z.of_nat sizeof_get)) as [|Hsz]; [ by apply runs_ret | ].
  destruct (read_header message sizeof_get Hmsg Hsz) as (Hread & Hhb & Hhl).
  eapply runs_lift; [ exact Hread | ]. unfold has_filter in Hfilter. pose proof (decode_get_ok _ Hhb Hhl) as Hget. specialize (Hc Hget).
  set (get := decode_get _) in *. clearbody get. destruct Hget as [Ho Ht Hh Hl Hx Hmu Hbl Hk].
  destruct (Z.ltb_spec (msg_size message) (Z.of_nat sizeof_get + pgm_xquery_size get)) as [|Hxs]; [ by apply runs_ret | ].
  cbv zeta. unfold is_u32 in Hx. unfold sizeof_get in *.
  assert (Hmax : msg_size message < 65536).
  { pose proof (be_decode_take 2 message Hb) as [_ Hm]. exact Hm. }
  eapply runs_lift; [ apply mem_read_ok; lia | ]. set (xquery := take _ _).
  rewrite (proj2 (Z.ltb_lt 0 _)) by lia.
  set (size := msg_size message - _) in *.
  set (raw := take (Z.to_nat size) (drop (220 + Z.to_nat (pgm_xquery_size get)) message)).
  destruct (bf_init_ok raw size GNUNET_CONSTANTS_BLOOMFILTER_K) as (rbf & Hrbf & Hrok & _);
    [ unfold size; lia | unfold raw; rewrite length_take, length_drop; unfold size; lia
    | unfold GNUNET_CONSTANTS_BLOOMFILTER_K; lia | ].
  apply runs_lift with (a := Some rbf).
  { rewrite mem_read_ok by (unfold size; lia). cbn [mbind outcome_bind]. fold raw. by rewrite Hrbf. }
  pose proof (en_filter Henv (pgm_type get) (pgm_key get) (Some rbf) (pgm_bf_mutator get) xquery None Hrok) as Hbf2.
  pose proof (en_some Henv (pgm_type get) (pgm_key get) (Some rbf) (pgm_bf_mutator get) xquery None ltac:(eauto)) as Hsome.
  destruct (GNUNET_BLOCK_evaluate _ _ _ _ _ _ _) as [eval bf2]. cbn [snd] in *. destruct Hsome as [b2 ->].
  destruct (negb _); [ by apply runs_ret | ].
  destruct (bf_init_ok (pgm_bloomfilter get) DHT_BLOOM_SIZE GNUNET_CONSTANTS_BLOOMFILTER_K)
    as (bf & Hbf & Hbok & Hbsz & _); [ done | by rewrite Hbl | unfold GNUNET_CONSTANTS_BLOOMFILTER_K; lia | ].
  rewrite Hbf. eapply runs_lift; [ done | ]. apply runs_now; [ done | ]. apply runs_get.
  set (w1 := count_reads 1 0 w). assert (Hw1 : dht_ok B w1) by by eapply steady_ok, steady_other.
  destruct (add_ok rnd (abs_value (clock (ticks w))) a n peer (pgm_type get) (pgm_options get) (pgm_key get) xquery
    b2 (pgm_bf_mutator get) (recent w) Hr Ha Hn) as (r & t0 & Hadd & Hr' & _).
  eapply runs_lift; [ exact Hadd | ].
  assert (Hs2 : steady B w1 (set_recent r w1)) by by apply steady_other.
  apply runs_step with (a := tt) (w' := set_recent r w1); [ done | done | ].
  set (w2 := set_recent r w1) in *. assert (Hw2 := steady_ok _ _ _ Hs2).
  assert (exists here, (if negb (Z.land (pgm_options get) GNUNET_DHT_RO_DEMULTIPLEX_EVERYWHERE =? 0) then Ret true
      else am_closest_peer w1 (pgm_key get) (Some bf)) = Ret here) as [here Hhere].
  { destruct (negb _); [ by eexists | ].
    destruct (am_closest_ok B w1 (pgm_key get) (Some bf)) as (h & Hh' & _); [ done | done | done | lia | eauto ]. }
  eapply runs_lift; [ exact Hhere | ].
  apply runs_bind with (Q := fun r _ => filter_ok r.2).
  { destruct here; [ | by apply runs_ret ].
    match goal with |- runs _ (if ?b then _ else _) _ _ => destruct b end; [ | by apply datacache_get_ok ].
    eapply runs_bind; [ by apply handle_find_peer_ok | ]. intros _ w3 Hs3 _.
    apply runs_ret; [ by eapply steady_ok | done ]. }
  intros [eval3 bf3] w3 Hs3 Hbf3. cbn [snd] in Hbf3. assert (Hw3 := steady_ok _ _ _ Hs3).
  apply runs_emit; [ done | ]. set (w4 := add_call _ w3).
  assert (Hw4 : dht_ok B w4) by by eapply steady_ok, emit_steady.
  apply runs_bind with (Q := any); [ | intros; apply runs_ret; [ by eapply steady_ok | done ] ].
  match goal with |- runs _ (if ?b then _ else _) _ _ => destruct b end; [ | by apply runs_ret ].
  assert (Hrq : request_ok (pgm_type get) (pgm_options get) (pgm_desired_replication_level get)
    (clock 0) (pgm_key get) bf) by (constructor; try done; apply Henv).
  eapply runs_bind; [ by eapply handle_get_ok | ]. intros _ w5 Hs5 _.
  apply runs_ret; [ by eapply steady_ok | done ].
Qed.
End Receive.
