(* ===== verification/DhtCount.v ===== *)
(** * The number of peers that a request is forwarded to

    [get_forward_count] computes with floating point numbers.  For every estimate of the size
    of the network that is not less than 0.5, as the estimates of the NSE service are, every
    hop count and every replication level but 0 it returns a small number.  For estimates
    that are whole numbers from 1 to 10 its result is that of integer arithmetic: the
    computation is evaluated for all relevant arguments. *)

From Stdlib Require Import ZArith Lia SpecFloat.
From stdpp Require Import base list numbers gmap.
From S2P Require Import Prelude Double FloatBounds Time Hash MapInterface MetaData DhtServices DhtNeighbours DhtForward.
Local Open Scope Z_scope.

(** [1 + (r - 1) / (k + (r - 1) * hops)] in the arithmetic of the code *)
Definition float_value (nse : Double.t) (hops r : Z) : Single.t :=
  let others := Double.sub (Double.of_Z r) (Double.of_Z 1) in
  Single.of_double
    (Double.add (Double.of_Z 1)
       (Double.div others
          (Double.add nse (Single.to_double (Single.mul (Single.of_double others) (Single.of_Z hops)))))).

Definition whole_part (k hops r : Z) : Z := 1 + (r - 1) / (k + (r - 1) * hops).

(** The whole part is exact, and the rest is 0 when it should be. *)
Definition agrees (k : Double.t) (k' hops r : Z) : bool :=
  let v := float_value k hops r in
  let rest := k' + (r - 1) * hops in
  let '(q, m) := Z.div_eucl (r - 1) rest in
  match Double.trunc v with
  | Some n => (n =? 1 + q) && (0 <=? n) && (n <? 2 ^ 32)
      && (negb (m =? 0) || match Single.sub v (Single.of_Z n) with S754_zero _ => true | _ => false end)
  | _ => false
  end.

Definition all_agree : bool :=
  forallb (fun k => let f := Double.of_Z k in
    forallb (fun hops => forallb (agrees f k hops) (seqZ 1 16)) (seqZ 0 (4 * k + 1))) (seqZ 1 10).

Lemma all_agree_true : all_agree = true.
Proof. vm_compute. reflexivity. Qed.

Lemma float_value_ok `{FloatConversion} k hops r :
  1 <= k <= 10 -> 0 <= hops <= 4 * k -> 1 <= r <= 16 ->
  Single.to_u32 (float_value (Double.of_Z k) hops r) = whole_part k hops r
  /\ ((r - 1) mod (k + (r - 1) * hops) = 0 -> exists s,
       Single.sub (float_value (Double.of_Z k) hops r) (Single.of_Z (whole_part k hops r)) = S754_zero s).
Proof.
  intros Hk Hh Hr. pose proof all_agree_true as Hall. unfold all_agree in Hall.
  rewrite forallb_forall in Hall. specialize (Hall k). cbv zeta in Hall.
  rewrite forallb_forall in Hall. specialize (Hall ltac:(apply list_elem_of_In, elem_of_seqZ; lia) hops).
  rewrite forallb_forall in Hall. specialize (Hall ltac:(apply list_elem_of_In, elem_of_seqZ; lia) r
    ltac:(apply list_elem_of_In, elem_of_seqZ; lia)).
  unfold agrees in Hall. unfold whole_part, Single.to_u32, Z.div, Z.modulo.
  destruct (Z.div_eucl (r - 1) (k + (r - 1) * hops)) as [q m].
  destruct (Double.trunc _) as [n|]; [ | done ]. rewrite <- !andb_assoc in Hall.
  apply andb_true_iff in Hall as [Hn Hall]. rewrite !andb_assoc in Hall. apply andb_true_iff in Hall as [Hfit Hz].
  rewrite Hfit. apply Z.eqb_eq in Hn as ->. split; [ done | ].
  intros ->. destruct (Single.sub _ _); try done. eauto.
Qed.

(** No number is less than 0 that an integer is rounded to. *)
Lemma not_below_zero z s : 0 <= z -> Single.ltb (Single.of_Z z) (S754_zero s) = false.
Proof.
  intros Hz. unfold Single.ltb, Single.of_Z, binary_normalize. destruct z as [|p|p]; [ done | | lia ].
  unfold binary_round. destruct (shl_align _ _ _) as [mz ez]. unfold binary_round_aux.
  destruct (shr_fexp _ _ _ _ _) as [mrs e]. destruct (shr_fexp _ _ _ _ _) as [mrs' e'].
  destruct (shr_m mrs'); [ done | by destruct (_ <=? _) | done ].
Qed.

(** A closed equation for every element of a list of numbers *)
Ltac each_value :=
  try change (seqZ 1 10) with [1; 2; 3; 4; 5; 6; 7; 8; 9; 10];
  repeat first [ apply List.Forall_nil | apply List.Forall_cons ]; vm_compute; reflexivity.

(** ** Any estimate *)

(** [0.5] *)
Definition half : Double.t := S754_finite false (2 ^ 52) (-53).

(** A double that is at least 0.5 *)
Definition estimate_ok (x : Double.t) : Prop :=
  valid_binary Double.prec Double.emax x = true /\ Double.leb half x = true.

(** Every estimate of the NSE service is one, unless it is not a number. *)
Lemma updated_estimate_ok x : valid_binary Double.prec Double.emax x = true -> x <> S754_nan ->
  estimate_ok (update_network_size_estimate x).
Proof.
  intros Hv Hn. unfold update_network_size_estimate.
  change (Double.div (Double.of_Z 1) (Double.of_Z 2)) with half. destruct (Double.ltb x half) eqn:Hl; [ by split | ].
  split; [ done | ]. unfold Double.ltb, Double.leb, SFltb, SFleb, half in *.
  destruct x as [s|[]| |[] m e]; try done. cbn [SFcompare] in *. rewrite Z.compare_antisym. destruct (e ?= -53); cbn [CompOpp] in *; try done.
  change (Pos.compare_cont Eq) with Pos.compare in *. set (c := (2 ^ 52)%positive) in *.
  rewrite (Pos.compare_antisym m c). by destruct (m ?= c)%positive.
Qed.

Lemma default_estimate_ok : estimate_ok default_log_of_network_size_estimate.
Proof. by split. Qed.

(** The level minus one *)
Lemma others_ok r : 1 <= r <= 16 ->
  at_most 4 (Double.sub (Double.of_Z r) (Double.of_Z 1))
  /\ at_most 4 (Single.of_double (Double.sub (Double.of_Z r) (Double.of_Z 1))).
Proof.
  intros Hr. assert (Hc : Forall (fun r => at_most 4 (Double.sub (Double.of_Z r) (Double.of_Z 1))
    /\ at_most 4 (Single.of_double (Double.sub (Double.of_Z r) (Double.of_Z 1)))) (seqZ 1 16)).
  { change (seqZ 1 16) with [1; 2; 3; 4; 5; 6; 7; 8; 9; 10; 11; 12; 13; 14; 15; 16].
    repeat first [ apply List.Forall_nil | apply List.Forall_cons ]; vm_compute; repeat split; congruence. }
  rewrite Forall_forall in Hc. apply Hc, elem_of_seqZ. lia.
Qed.

Lemma float_value_bounds `{FloatConversion} x hops r : estimate_ok x -> is_u32 hops -> 1 <= r <= 16 ->
  1 <= Single.to_u32 (float_value x hops r) <= 64.
Proof.
  intros [Hv Hl] Hh Hr. destruct (others_ok r Hr) as [Ho Hof]. unfold float_value. unfold is_u32 in Hh.
  assert (Hs : 0 < Single.prec /\ Single.prec < Single.emax) by (by split).
  assert (Hd : 0 < Double.prec /\ Double.prec < Double.emax) by (by split).
  assert (Hhops : at_most 32 (Single.of_Z hops)).
  { apply normalize_at_most; try apply Hs; unfold Single.prec, Single.emax; lia. }
  assert (Hprod : not_negative (Single.to_double (Single.mul (Single.of_double (Double.sub (Double.of_Z r) (Double.of_Z 1)))
    (Single.of_Z hops)))).
  { pose proof (mul_not_negative Single.prec Single.emax 4 32 _ _ Hof Hhops) as Hn.
    unfold Single.mul. destruct (SFmul _ _ _ _) as [?|[]| |[]]; try done. by apply normalize_not_negative. }
  set (prod := Single.to_double _) in *.
  assert (Hden : at_least (-1) (Double.add x prod)).
  { apply add_at_least; try apply Hd; [ unfold Double.prec, Double.emax; lia | by apply half_at_least | done ]. }
  assert (Hdiv : at_most 5 (Double.div (Double.sub (Double.of_Z r) (Double.of_Z 1)) (Double.add x prod))).
  { apply (div_at_most Double.prec Double.emax) with (a := 4) (b := -1); try apply Hd; done. }
  set (quo := Double.div _ _) in *.
  assert (Hone : at_most 5 (Double.of_Z 1)) by (vm_compute; split; congruence).
  assert (Hone' : at_least 0 (Double.of_Z 1)) by (vm_compute; right; congruence).
  assert (Hmost : at_most 6 (Double.add (Double.of_Z 1) quo)).
  { apply (add_at_most Double.prec Double.emax) with (k := 5); try apply Hd; done. }
  assert (Hleast : at_least 0 (Double.add (Double.of_Z 1) quo)).
  { apply add_at_least; try apply Hd; [ unfold Double.prec, Double.emax; lia | done | by eapply at_most_not_negative ]. }
  set (v := Double.add (Double.of_Z 1) _) in *.
  assert (Hv6 : at_most 6 (Single.of_double v) /\ at_least 0 (Single.of_double v)).
  { destruct v as [?|[]| |[] m e]; try done. cbn [at_most at_least] in Hmost, Hleast. split.
    - apply normalize_at_most; try apply Hs; unfold Single.prec, Single.emax; lia.
    - apply normalize_at_least; try apply Hs; done. }
  destruct (trunc_range 6 (Single.of_double v)) as (n & Ht & Hn); [ lia | apply Hv6 | apply Hv6 | ].
  change (2 ^ 6) with 64 in Hn. unfold Single.to_u32. rewrite Ht.
  rewrite (proj2 (Z.leb_le _ _)), (proj2 (Z.ltb_lt _ _)) by lia. done.
Qed.

Section AnyEstimate.
Context {M : Type} `{MM : MultiMap M nat} `{Env : DhtEnv} (Hnse : estimate_ok nse).

(** The result for any estimate: nothing beyond six times the estimate, one beyond four
    times, and otherwise a number that depends on a draw *)
Definition count_bounds (hops n : Z) (drawn : nat) : Prop :=
  if Double.ltb (Double.mul nse (Double.of_Z 6)) (Double.of_Z hops) then n = 0 /\ drawn = 0%nat
  else if Double.ltb (Double.mul nse (Double.of_Z 4)) (Double.of_Z hops) then n = 1 /\ drawn = 0%nat
  else drawn = 1%nat /\ 1 <= n <= 65.

Lemma count_reads_0 (w : dht (M := M)) : count_reads 0 0 w = w.
Proof. destruct w. unfold count_reads. cbn. by rewrite !Nat.add_0_r. Qed.

Lemma forward_count_bounds hops level (w : dht (M := M)) : is_u32 hops -> 1 <= level ->
  exists n drawn, get_forward_count hops level w = Ret (n, count_reads 0 drawn w) /\ count_bounds hops n drawn.
Proof.
  intros Hh Hl. unfold get_forward_count, count_bounds.
  destruct (Double.ltb (Double.mul nse (Double.of_Z 6)) _); [ exists 0, 0%nat; by rewrite count_reads_0 | ].
  destruct (Double.ltb (Double.mul nse (Double.of_Z 4)) _); [ exists 1, 0%nat; by rewrite count_reads_0 | ].
  set (r := Z.min MAXIMUM_REPLICATION_LEVEL level). cbv zeta. fold r.
  pose proof (float_value_bounds nse hops r Hnse Hh ltac:(unfold r, MAXIMUM_REPLICATION_LEVEL; lia)) as Hn.
  change (Single.of_double (Double.add (Double.of_Z 1) _)) with (float_value nse hops r).
  set (n := Single.to_u32 (float_value nse hops r)) in *.
  assert (Hrand : random_below UINT32_MAX w = Ret (rng (draws w) mod UINT32_MAX, count_reads 0 1 w)) by done.
  rewrite (run_bind _ _ _ _ _ Hrand). destruct (Single.ltb _ _).
  - exists (u32 (n + 1)), 1%nat. split; [ done | ]. rewrite u32_small by (unfold is_u32; lia). lia.
  - exists n, 1%nat. split; [ done | ]. lia.
Qed.

(** The array of targets can be allocated. *)
Lemma forward_counts hops level : is_u32 hops -> 1 <= level -> counts (M := M) hops level.
Proof.
  intros Hh Hl w. destruct (forward_count_bounds hops level w Hh Hl) as (n & d & Hr & Hs).
  unfold count_bounds in Hs. exists n.
  assert (Hmax : 8 * 65 <= GNUNET_MAX_MALLOC_CHECKED) by (vm_compute; congruence).
  destruct (Double.ltb _ _); [ | destruct (Double.ltb _ _) ]; destruct Hs as [Hs1 Hs2].
  - subst. rewrite count_reads_0 in Hr. split_and!; [ lia | lia | by left ].
  - subst. rewrite count_reads_0 in Hr. split_and!; [ lia | lia | by left ].
  - subst. split_and!; [ lia | lia | by right ].
Qed.
End AnyEstimate.

(** ** Whole numbers *)

Section Count.
Context {M : Type} `{MM : MultiMap M nat} `{Env : DhtEnv}.
Context (k : Z) (Hk : 1 <= k <= 10) (Hnse : nse = Double.of_Z k).

Lemma small_products n : In n [4; 6] -> Double.mul nse (Double.of_Z n) = Double.of_Z (k * n).
Proof.
  intros Hn. rewrite Hnse.
  assert (Hc : Forall (fun k => Forall (fun n => Double.mul (Double.of_Z k) (Double.of_Z n) = Double.of_Z (k * n)) [4; 6])
    (seqZ 1 10)) by each_value.
  rewrite Forall_forall in Hc. specialize (Hc k ltac:(apply elem_of_seqZ; lia)).
  rewrite Forall_forall in Hc. apply Hc. by apply list_elem_of_In.
Qed.

(** The result, for the level that is used *)
Definition count_spec (hops level n : Z) (drawn : nat) : Prop :=
  if 6 * k <? hops then n = 0 /\ drawn = 0%nat
  else if 4 * k <? hops then n = 1 /\ drawn = 0%nat
  else
    let r := Z.min MAXIMUM_REPLICATION_LEVEL level in
    drawn = 1%nat /\ whole_part k hops r <= n <= whole_part k hops r + 1
    /\ ((r - 1) mod (k + (r - 1) * hops) = 0 -> n = whole_part k hops r).

Lemma whole_part_range hops r : 0 <= hops -> 1 <= r <= 16 -> 1 <= whole_part k hops r <= 16.
Proof.
  intros Hh Hr. unfold whole_part.
  assert (Hd : 1 <= k + (r - 1) * hops) by (assert (0 <= (r - 1) * hops) by (apply Z.mul_nonneg_nonneg; lia); lia).
  assert (0 <= (r - 1) / (k + (r - 1) * hops)) by (apply Z.div_pos; lia).
  assert ((r - 1) / (k + (r - 1) * hops) <= r - 1); [ | lia ].
  apply Z.div_le_upper_bound; [ lia | ]. rewrite <- (Z.mul_1_l (r - 1)) at 1. apply Z.mul_le_mono_nonneg_r; lia.
Qed.

Lemma forward_count_ok hops level (w : dht (M := M)) :
  is_u32 hops -> 1 <= level ->
  exists n drawn, get_forward_count hops level w = Ret (n, count_reads 0 drawn w) /\ count_spec hops level n drawn.
Proof.
  intros Hh Hl. unfold get_forward_count, count_spec, is_u32 in *.
  rewrite !small_products by (cbn; auto). rewrite !Double.ltb_of_Z by lia.
  rewrite (Z.mul_comm k 6), (Z.mul_comm k 4).
  assert (Hw : forall n, (mret n : action dht Z) w = Ret (n, count_reads 0 0 w)) by (intros; by rewrite count_reads_0).
  destruct (Z.ltb_spec (6 * k) hops); [ exists 0, 0%nat; by rewrite Hw | ].
  destruct (Z.ltb_spec (4 * k) hops) as [|H4]; [ exists 1, 0%nat; by rewrite Hw | ].
  set (r := Z.min MAXIMUM_REPLICATION_LEVEL level).
  assert (Hr : 1 <= r <= 16) by (unfold r, MAXIMUM_REPLICATION_LEVEL; lia).
  destruct (float_value_ok k hops r Hk ltac:(lia) Hr) as [Hq Hz].
  pose proof (whole_part_range hops r ltac:(lia) Hr) as Hrange. cbv zeta. fold r. rewrite Hnse.
  change (Single.of_double (Double.add (Double.of_Z 1) _)) with (float_value (Double.of_Z k) hops r).
  set (v := float_value (Double.of_Z k) hops r) in *.
  rewrite Hq.
  assert (Hrand : random_below UINT32_MAX w = Ret (rng (draws w) mod UINT32_MAX, count_reads 0 1 w)) by done.
  rewrite (run_bind _ _ _ _ _ Hrand).
  set (rnd := rng (draws w) mod UINT32_MAX).
  assert (Hrnd : 0 <= rnd) by (apply Z.mod_pos_bound; done).
  destruct (Single.ltb (Single.of_Z rnd) _) eqn:Hlt.
  - exists (u32 (whole_part k hops r + 1)), 1%nat. split; [ done | ].
    rewrite u32_small by (unfold is_u32; lia). split_and!; [ done | lia | lia | ].
    intros Hm. destruct (Hz Hm) as [s Hs]. rewrite Hs in Hlt.
    change (Single.mul (S754_zero s) (Single.of_Z UINT32_MAX)) with (S754_zero (xorb s false)) in Hlt.
    by rewrite not_below_zero in Hlt.
  - exists (whole_part k hops r), 1%nat. split; [ done | ]. split_and!; [ done | lia | lia | done ].
Qed.

(** A level of 0 divides by 0 when the hop count is the estimate: the count is what the
    machine converts infinity to. *)
Lemma level_0_unspecified (w : dht (M := M)) : exists n, get_forward_count k 0 w = Ret (n, count_reads 0 1 w)
  /\ (n = u32 (unspecified_u32 (S754_infinity true)) \/ n = u32 (u32 (unspecified_u32 (S754_infinity true)) + 1)).
Proof.
  unfold get_forward_count. rewrite !small_products by (cbn; auto). rewrite !Double.ltb_of_Z by lia.
  rewrite (proj2 (Z.ltb_ge _ _)), (proj2 (Z.ltb_ge _ _)) by lia. rewrite Hnse. cbv zeta.
  change (Single.of_double (Double.add (Double.of_Z 1) _)) with (float_value (Double.of_Z k) k 0).
  assert (Hu : float_value (Double.of_Z k) k 0 = S754_infinity true).
  { assert (Hc : Forall (fun k => float_value (Double.of_Z k) k 0 = S754_infinity true) (seqZ 1 10)) by each_value.
    rewrite Forall_forall in Hc. apply Hc. apply elem_of_seqZ. lia. }
  rewrite Hu. change (Single.to_u32 (S754_infinity true)) with (u32 (unspecified_u32 (S754_infinity true))).
  assert (Hrand : random_below UINT32_MAX w = Ret (rng (draws w) mod UINT32_MAX, count_reads 0 1 w)) by done.
  rewrite (run_bind _ _ _ _ _ Hrand). destruct (Single.ltb _ _); eauto.
Qed.
End Count.
