(* ===== verification/DhtSpec.v ===== *)
(** * Correctness of the neighbours of the DHT

    The states that connections, transmissions and messages of the network can reach from
    [GDS_NEIGHBOURS_init], and the properties of the module in them. *)

From Stdlib Require Import ZArith Lia String SpecFloat.
From stdpp Require Import base list numbers gmap.
From S2P Require Import Prelude Endian Double Time Heap Hash MultiHashMap MapInterface BloomFilter.
From S2P Require Import Bandwidth Messages Hello MetaData CString Configuration Block Routing RoutingSpec.
From S2P Require Import DhtMessages DhtNeighbours DhtDistance DhtTable DhtSelect DhtForward DhtReceive DhtCount.
Local Open Scope Z_scope.

Section Life.
Context {M : Type} `{MM : MultiMap M nat} `{Env : DhtEnv}.
Implicit Types (w : dht (M := M)) (key : GNUNET_HashCode).

(** What the module relies on *)
Record module_ok : Prop := {
  mo_identity : is_hash my_identity;
  mo_bucket_size : 0 < bucket_size < 2 ^ 32;
  mo_sha512 : forall l, is_hash (sha512 l);
  mo_plugins : plugins_ok;
  mo_env : env_ok;
  mo_nse : estimate_ok nse
}.

(** ** Start and end *)

Lemma neighbours_init_ok B (cfg : Handle) (r : routing (M := M)) dis size w :
  is_hash my_identity -> Z.of_nat B <= 2 ^ 28 -> GDS_NEIGHBOURS_init cfg r = Ret (dis, size, w) ->
  dht_ok B w /\ recent w = r /\ forall id, ~ connected w id.
Proof.
  intros Hid HB Hi. unfold GDS_NEIGHBOURS_init in Hi. inv_ret Hi.
  destruct (mm_create_ok B 256 false) as (m & Hm & Hok & He); [ lia | done | ].
  match goal with H : mm_create 256 false = Ret ?m' |- _ => assert (m' = m) as -> by congruence end.
  remember (replicate (Z.to_nat MAX_BUCKETS) (mk_bucket [] 0)) as bs eqn:Hbs in Hi.
  injection Hi as <- <- <-. split_and!; [ | done | ].
  - constructor; cbn [store all_known_peers k_buckets closest_bucket]; try done.
    + by rewrite He; apply NoDup_nil_2.
    + intros id c. rewrite He. split; [ intros Hin; by apply elem_of_nil in Hin | ].
      intros (p & Hp & _). by rewrite lookup_empty in Hp.
    + by rewrite Hbs, length_replicate.
    + intros i b Hb. rewrite Hbs in Hb. apply lookup_replicate_1 in Hb as [-> _]. cbn [pb_peers peers_size].
      split_and!; [ apply NoDup_nil_2 | done | ]. intros c. split; [ intros Hin; by apply elem_of_nil in Hin | ].
      intros (p & Hp & _). by rewrite lookup_empty in Hp.
    + intros i b Hb _. rewrite Hbs in Hb. by apply lookup_replicate_1 in Hb as [-> _].
    + lia.
  - intros id (c & p & Hp & _). cbn in Hp. by rewrite lookup_empty in Hp.
Qed.

Lemma disconnect_all_ok B peers : forall w,
  dht_ok B w ->
  returns (disconnect_all peers) w (fun _ w' => dht_ok B w' /\ recent w' = recent w
    /\ forall id, connected w' id <-> connected w id /\ id ∉ peers).
Proof.
  induction peers as [|p peers IH]; intros w Hw; cbn [disconnect_all].
  { apply returns_ret. split_and!; [ done | done | ]. intros id. split; [ | by intros [] ].
    intros Hc. split; [ done | apply not_elem_of_nil ]. }
  eapply returns_bind; [ by apply handle_core_disconnect_ok | ]. cbn beta.
  intros _ w1 (Hw1 & Hr1 & Hc1). eapply returns_weaken; [ by apply IH | ]. cbn beta.
  intros _ w2 (Hw2 & Hr2 & Hc2). split_and!; [ done | congruence | ].
  intros id. rewrite Hc2, Hc1, not_elem_of_cons. tauto.
Qed.

(** When all peers are disconnected the map is empty. *)
Lemma neighbours_done_ok B w peers :
  dht_ok B w -> (forall id, connected w id -> id ∈ peers) ->
  returns (GDS_NEIGHBOURS_done peers) w (fun _ w' => (forall id, ~ connected w' id) /\ find_peer_task w' = false).
Proof.
  intros Hw Hall. unfold GDS_NEIGHBOURS_done. eapply returns_bind; [ by apply disconnect_all_ok | ]. cbn beta.
  intros _ w1 (Hw1 & _ & Hc1).
  assert (Hnone : forall id, ~ connected w1 id) by (intros id [Hc Hn]%Hc1; by apply Hn, Hall).
  apply returns_get. apply returns_lift with (a := tt).
  { apply gnunet_assert_true, Z.eqb_eq. rewrite (mm_size_ok B) by apply Hw1.
    destruct (mm_entries (all_known_peers w1)) as [|[id a] l] eqn:He; [ done | exfalso ].
    destruct (proj1 (do_known _ _ Hw1 id a)) as (p & Hp & Hid); [ rewrite He; by left | ].
    apply (Hnone id). by exists a, p. }
  destruct (find_peer_task w1) eqn:Ht; [ | by apply returns_ret ].
  eapply returns_step; [ done | ]. eexists tt, _. split; [ reflexivity | ]. split; [ | done ].
  intros id Hc. by apply (Hnone id).
Qed.

(** ** Searching for peers *)

Lemma known_filter_ok mutator (l : list (GNUNET_HashCode * nat)) : forall bf,
  dht_filter bf ->
  exists bf', walk (add_known_to_bloom mutator) (Ret bf) l = Ret bf' /\ dht_filter bf'.
Proof.
  induction l as [|[id a] l IH]; intros bf Hbf; cbn [walk]; [ eauto | ]. unfold add_known_to_bloom at 1.
  destruct (bf_add_ok bf (GNUNET_BLOCK_mingle_hash sha512 id mutator) (proj1 Hbf)) as (bf' & Hadd & Hok & Hp & _).
  cbn [mbind outcome_bind]. rewrite Hadd. apply IH. by eapply dht_filter_same.
Qed.

Lemma fresh_filter_ok : exists bf,
  GNUNET_CONTAINER_bloomfilter_init None DHT_BLOOM_SIZE GNUNET_CONSTANTS_BLOOMFILTER_K = Some bf /\ dht_filter bf.
Proof. eexists. split; [ reflexivity | ]. by repeat split. Qed.

Lemma runs_modify {C} B (g : dht -> dht) (f : unit -> action dht C) w R :
  steady B w (g w) -> (dht_ok B (g w) -> runs B (f tt) (g w) R) -> runs B (modify g ≫= f) w R.
Proof. intros Hs Hf. eapply runs_step; [ done | done | ]. by eapply Hf, steady_ok. Qed.

Lemma send_find_peer_ok B w shutdown :
  dht_ok B w -> module_ok -> bucket_size < 600000 -> 0 <= newly_found_peers w ->
  runs B (send_find_peer_message shutdown) w any.
Proof.
  intros Hw Hmod Hbs Hnew. pose proof (mo_bucket_size Hmod) as Hbs0. unfold send_find_peer_message.
  apply runs_modify; [ by apply steady_other | ]. set (w1 := set_find_peer_task false w). intros Hw1.
  apply runs_get.
  destruct shutdown; [ by apply runs_ret | ].
  assert (Hlast : forall w2 n c, dht_ok B w2 ->
    runs B (_ ← modify (set_newly_found n); _ ← emit c; modify (set_find_peer_task true)) w2 any).
  { intros w2 n c Hw2. apply runs_modify; [ by apply steady_other | ]. intros Hw3.
    apply runs_emit; [ done | ]. assert (Hw4 := steady_ok _ _ _ (emit_steady B c _ Hw3)).
    apply runs_last, runs_modify; [ by apply steady_other | ]. intros Hw5. by apply runs_ret. }
  destruct (Z.ltb_spec bucket_size (newly_found_peers w1)) as [Hmany|Hfew]; cbn [w1 set_find_peer_task newly_found_peers] in *.
  - apply runs_emit; [ done | ].
    assert (Hw2 := steady_ok _ _ _ (emit_steady B (SCHEDULER_add_find_peer GNUNET_TIME_relative_get_minute_) _ Hw1)).
    apply runs_modify; [ by apply steady_other | ]. intros Hw3.
    apply runs_last, runs_modify; [ by apply steady_other | ]. intros Hw4. by apply runs_ret.
  - apply runs_random; [ done | done | ]. intros mutator Hmu. set (w2 := count_reads 0 1 w1).
    assert (Hw2 : dht_ok B w2) by by eapply steady_ok, steady_other.
    destruct fresh_filter_ok as (bf & Hbf & Hfil). rewrite Hbf.
    destruct (known_filter_ok mutator (mm_entries (all_known_peers w1)) bf Hfil) as (bf' & Hwalk & Hfil').
    apply runs_lift with (a := bf'); [ by rewrite (mm_iterate_ok B) by apply Hw1 | ].
    eapply runs_lift; [ done | ].
    eapply runs_bind; [ eapply (handle_get_ok B w2) with (exp := mk_abs 0); try done; try lia | ].
    + apply forward_counts; try apply Hmod; done || (unfold FIND_PEER_REPLICATION_LEVEL; lia).
    + constructor; try done. apply Hmod.
    + unfold is_u32, UINT32_MAX in *. lia.
    + apply Hfil'.
    + intros _ w3 Hs3 _. assert (Hw3 := steady_ok _ _ _ Hs3).
      rewrite u32_small by (unfold is_u32; lia).
      apply runs_lift with (a := tt); [ by rewrite (proj2 (Z.eqb_neq _ _)) by lia | ].
      apply runs_random; [ done | | ].
      { apply Z.div_str_pos. change (rel_value DHT_MAXIMUM_FIND_PEER_INTERVAL) with 600000. lia. }
      intros r _. apply Hlast. by eapply steady_ok, steady_other.
Qed.

(** ** Reachable states *)

Definition put_level (message : list Z) : Z := ppm_desired_replication_level (decode_put (take sizeof_put message)).
Definition get_level (message : list Z) : Z := pgm_desired_replication_level (decode_get (take sizeof_get message)).

(** The events at the interface of the module, at most [B] peers being connected *)
Inductive reachable_dht (B : nat) : dht (M := M) -> Prop :=
  | dht_init cfg r w :
      GDS_ROUTING_init = Ret r -> GDS_NEIGHBOURS_init cfg r = Ret (disable_try_connect, bucket_size, w) ->
      reachable_dht B w
  | dht_connect w w' a peer :
      reachable_dht B w -> store w !! a = None -> is_hash peer ->
      (length (mm_entries (all_known_peers w)) < B)%nat ->
      handle_core_connect a peer w = Ret (tt, w') -> reachable_dht B w'
  | dht_disconnect w w' peer :
      reachable_dht B w -> handle_core_disconnect peer w = Ret (tt, w') -> reachable_dht B w'
  | dht_transmit w w' a p size buf :
      reachable_dht B w -> store w !! a = Some p -> match size with Some n => 0 <= n | None => True end ->
      core_transmit_notify a size w = Ret (buf, w') -> reachable_dht B w'
  | dht_preference w w' a p shutdown :
      reachable_dht B w -> store w !! a = Some p ->
      update_core_preference a shutdown w = Ret (tt, w') -> reachable_dht B w'
  | dht_put w w' peer message r :
      reachable_dht B w -> is_hash peer -> received message -> 1 <= put_level message ->
      handle_dht_p2p_put peer message w = Ret (r, w') -> reachable_dht B w'
  | dht_get w w' hc rnd a n peer message r :
      reachable_dht B w -> is_hash peer -> received message -> has_filter message -> 1 <= get_level message ->
      mem (recent w) !! a = None -> (n ∉ ids (root (recent_heap (recent w)))) ->
      handle_dht_p2p_get hc rnd a n peer message w = Ret (r, w') -> reachable_dht B w'
  | dht_result w w' hc peer message r :
      reachable_dht B w -> is_hash peer -> received message ->
      handle_dht_p2p_result hc peer message w = Ret (r, w') -> reachable_dht B w'.

Lemma returns_result {A} (m : action dht A) w (Q : A -> dht -> Prop) a w' :
  returns m w Q -> m w = Ret (a, w') -> Q a w'.
Proof. intros (b & w2 & Hm & HQ) He. rewrite Hm in He. by injection He as <- <-. Qed.

Section Handlers.
Context (Hmod : module_ok) (B : nat) (HB : Z.of_nat B <= 2 ^ 28).

Lemma put_safe w peer message :
  dht_ok B w -> is_hash peer -> received message -> 1 <= put_level message ->
  runs B (handle_dht_p2p_put peer message) w (fun r w' => r = GNUNET_YES
    /\ (w' = w \/ exists put_path payload,
          put_accepted peer (decode_put (take sizeof_put message)) put_path payload w w')).
Proof.
  intros Hw Hp Hm Hl. apply handle_p2p_put_ok; try done; try apply Hmod.
  intros put Hok. apply forward_counts; try apply Hmod; [ apply Hok | exact Hl ].
Qed.

Lemma get_safe w hc rnd a n peer message :
  dht_ok B w -> routing_ok (recent w) -> is_hash peer -> received message -> has_filter message ->
  1 <= get_level message -> mem (recent w) !! a = None -> (n ∉ ids (root (recent_heap (recent w)))) ->
  runs B (handle_dht_p2p_get hc rnd a n peer message) w (fun r _ => r = GNUNET_YES).
Proof.
  intros Hw Hr Hp Hm Hf Hl Ha Hn. apply handle_p2p_get_ok; try done; [ apply Hmod | apply Hmod | ].
  intros get Hok. apply forward_counts; try apply Hmod; [ apply Hok | exact Hl ].
Qed.

Lemma result_safe w hc peer message :
  dht_ok B w -> routing_ok (recent w) -> is_hash peer -> received message ->
  runs B (handle_dht_p2p_result hc peer message) w (fun r _ => r = GNUNET_YES).
Proof. intros Hw Hr Hp Hm. apply handle_result_ok; try done. apply Hmod. Qed.

Lemma reachable_dht_ok w : reachable_dht B w -> dht_ok B w /\ routing_ok (recent w).
Proof.
  assert (Hstep : forall A (m : action dht A) w Q a w', dht_ok B w /\ routing_ok (recent w) ->
    runs B m w Q -> m w = Ret (a, w') -> dht_ok B w' /\ routing_ok (recent w')).
  { intros A m w0 Q a w' [Hw Hr] Hm He. destruct (returns_result _ _ _ _ _ Hm He) as [Hs _].
    split; [ by eapply steady_ok | by apply Hs ]. }
  induction 1 as [cfg r w Hr Hi|w w' a peer _ [Hw Hr] Ha Hp Hl He|w w' peer _ [Hw Hr] He
    |w w' a p size buf _ IH Ha Hs He|w w' a p sd _ IH Ha He|w w' peer msg r _ IH Hp Hm Hl He
    |w w' hc rnd a n peer msg r _ IH Hp Hm Hf Hl Ha Hn He|w w' hc peer msg r _ IH Hp Hm He].
  - destruct (neighbours_init_ok B cfg r _ _ w (mo_identity Hmod) HB Hi) as (Hw & -> & _). split; [ done | ].
    destruct init_ok as (r' & Hr' & Hok & _). congruence.
  - destruct (returns_result _ _ _ _ _ (handle_core_connect_ok B w a peer Hw Ha Hp Hl) He) as (Hw' & -> & _). done.
  - destruct (returns_result _ _ _ _ _ (handle_core_disconnect_ok B w peer Hw) He) as (Hw' & -> & _). done.
  - eapply Hstep; [ exact IH | | exact He ]. by apply core_transmit_notify_ok with (p := p); [ apply IH | .. ].
  - eapply Hstep; [ exact IH | | exact He ]. by apply update_core_preference_ok with (p := p); [ apply IH | .. ].
  - eapply Hstep; [ exact IH | | exact He ]. by apply put_safe; [ apply IH | .. ].
  - eapply Hstep; [ exact IH | | exact He ]. by apply get_safe; [ apply IH | apply IH | .. ].
  - eapply Hstep; [ exact IH | | exact He ]. by apply result_safe; [ apply IH | apply IH | .. ].
Qed.
End Handlers.
End Life.

(** ** The claims *)

(** A network of one bit, a plugin for blocks of type 1, and a data cache that is empty *)
#[local] Instance sample_env : DhtEnv := {
  my_identity := replicate 16 0;
  bucket_size := 8;
  disable_try_connect := false;
  have_transport := true;
  clock := fun _ => mk_abs 0;
  rng := fun _ => 0;
  core_accepts := fun _ _ => true;
  sha512 := fun l => replicate 16 (u32 (Z.shiftr (fold_right Z.add 0 l) 3));
  GDS_block_context := [sample_plugin];
  nse := Double.of_Z 1;
  my_hello := None;
  hello_get := fun _ => None;
  hello_expiration := mk_rel 0;
  datacache := Some (fun _ _ => []);
  float_conversion := {| unspecified_u64 := fun _ => 2 ^ 63; unspecified_u32 := fun _ => 2 ^ 31 |}
}.

Lemma sample_module : module_ok.
Proof.
  assert (Heval : forall type key bf mutator xquery block,
    (GNUNET_BLOCK_evaluate GDS_block_context type key bf mutator xquery block).2 = bf).
  { intros. unfold GNUNET_BLOCK_evaluate. cbn. by destruct (_ =? _). }
  constructor; try done.
  - split; [ done | ]. by apply Forall_replicate.
  - intros l. split; [ done | ]. apply Forall_replicate, u32_range.
  - intros type block. unfold GNUNET_BLOCK_get_key. cbn. by destruct (_ =? _).
  - constructor; try done.
    + intros get key type c [= <-] Hc. by apply elem_of_nil in Hc.
    + intros. by rewrite Heval.
    + intros. by rewrite Heval.
Qed.

Definition sample_peer : GNUNET_PeerIdentity := replicate 16 (2 ^ 31 + 5).

Lemma sample_peer_hash : is_hash sample_peer.
Proof. split; [ done | ]. apply Forall_replicate. done. Qed.

(** The module after its start, and after a peer has connected *)
Definition sample_start : outcome (dht (M := GNUNET_CONTAINER_MultiHashMap nat)) :=
  r ← GDS_ROUTING_init;
  r ← GDS_NEIGHBOURS_init GNUNET_CONFIGURATION_create r;
  Ret r.2.

Definition sample_connected : outcome (dht (M := GNUNET_CONTAINER_MultiHashMap nat)) :=
  w ← sample_start;
  r ← handle_core_connect 7 sample_peer w;
  Ret r.2.

Lemma sample_reachable :
  exists w, sample_start = Ret w /\ reachable_dht 16 w /\ store w = ∅ /\ mm_entries (all_known_peers w) = [].
Proof.
  destruct sample_table as (r & Hr & Hm & Hroot). unfold sample_start. rewrite Hr. cbn [mbind outcome_bind].
  eexists. split_and!; [ reflexivity | eapply (dht_init 16 GNUNET_CONFIGURATION_create r); [ exact Hr | reflexivity ] | .. ];
    reflexivity.
Qed.

Lemma sample_connected_ok :
  exists w, sample_connected = Ret w /\ reachable_dht 16 w /\ connected w sample_peer.
Proof.
  destruct sample_reachable as (w & Hs & Hr & Hst & He).
  destruct (reachable_dht_ok sample_module 16 ltac:(lia) w Hr) as [Hw _].
  destruct (handle_core_connect_ok 16 w 7 sample_peer Hw) as ([] & w' & Hrun & _ & _ & Hc).
  - by rewrite Hst.
  - exact sample_peer_hash.
  - rewrite He. cbn. lia.
  - exists w'. split_and!.
    + unfold sample_connected. rewrite Hs. cbn [mbind outcome_bind]. by rewrite Hrun.
    + eapply dht_connect; [ exact Hr | by rewrite Hst | exact sample_peer_hash | rewrite He; cbn; lia | exact Hrun ].
    + apply Hc. right. split; [ done | ]. vm_compute. congruence.
Qed.

Definition sample_bf : GNUNET_CONTAINER_BloomFilter :=
  mk_bf (replicate 128 0) false None GNUNET_CONSTANTS_BLOOMFILTER_K 128.

Lemma sample_bf_ok : dht_filter sample_bf.
Proof. by repeat split. Qed.

(** C10: The table of neighbours of the DHT implements a set of peers: in
    every state that connections, disconnections, transmissions and messages
    of the network can reach, over any hash map with the MultiMap interface,
    connecting a peer returns and adds exactly this peer (unless it is the
    local one), disconnecting returns and removes exactly it, and transmitting
    a queue, updating a preference and the shutdown return too. A transmission
    takes off the queue the messages at its front that have expired, sends the
    next ones in order and stops only when the queue is empty or its next
    message does not fit the rest of the buffer; without a buffer it only
    drops expired messages. Map, buckets, counters and the store describe the
    same peers, each in the bucket of its shared prefix; PUTs and GETs with
    replication level 0 and GETs without a filter for replies are left out of
    the histories, see the findings. (Assumed of the environment: at most B
    peers with B up to 2^28, bucket_size above 0, a network size estimate, the
    same throughout a history, that is a number of at least 0.5, as its
    default is and the NSE handler keeps it, block plugins that return a key
    whenever they answer GNUNET_YES and keep filters well-formed, and HELLOs
    and cached records that are well typed.) *)
Theorem dht_refines_peer_set {M : Type} `{MM : MultiMap M nat} `{Env : DhtEnv} (B : nat) (w : dht (M := M)) :
  module_ok -> Z.of_nat B <= 2 ^ 28 -> reachable_dht B w ->
  dht_ok B w
  /\ (forall a peer, store w !! a = None -> is_hash peer -> (length (mm_entries (all_known_peers w)) < B)%nat ->
        returns (handle_core_connect a peer) w (fun _ w' => reachable_dht B w'
          /\ forall id, connected w' id <-> connected w id \/ (id = peer /\ peer <> my_identity)))
  /\ (forall peer, returns (handle_core_disconnect peer) w (fun _ w' => reachable_dht B w'
        /\ forall id, connected w' id <-> connected w id /\ id <> peer))
  /\ (forall a p size, store w !! a = Some p -> match size with Some n => 0 <= n | None => True end ->
        returns (core_transmit_notify a size) w (fun buf w' => reachable_dht B w'
          /\ (forall id, connected w' id <-> connected w id)
          /\ exists old sent p', store w' !! a = Some p' /\ pi_queue p = old ++ sent ++ pi_queue p'
               /\ expired_prefix (ticks w) old (sent ++ pi_queue p') /\ buf = concat (pm_msg <$> sent)
               /\ match size with
                  | Some n => Z.of_nat (length buf) <= n
                      /\ forall pm, head (pi_queue p') = Some pm -> n < Z.of_nat (length buf + length (pm_msg pm))
                  | None => sent = []
                  end))
  /\ (forall a p shutdown, store w !! a = Some p ->
        returns (update_core_preference a shutdown) w (fun _ w' => reachable_dht B w'
          /\ forall id, connected w' id <-> connected w id))
  /\ (forall peers, (forall id, connected w id -> id ∈ peers) ->
        returns (GDS_NEIGHBOURS_done peers) w (fun _ w' => forall id, ~ connected w' id)).
Proof.
  intros Hmod HB Hr. destruct (reachable_dht_ok Hmod B HB w Hr) as [Hw Hrt].
  split_and!; [ done | | | | | ].
  - intros a peer Ha Hp Hl. destruct (handle_core_connect_ok B w a peer Hw Ha Hp Hl) as ([] & w' & He & _ & _ & Hc).
    exists tt, w'. split; [ done | ]. split; [ by eapply dht_connect | done ].
  - intros peer. destruct (handle_core_disconnect_ok B w peer Hw) as ([] & w' & He & _ & _ & Hc).
    exists tt, w'. split; [ done | ]. split; [ by eapply dht_disconnect | done ].
  - intros a p size Ha Hs. destruct (core_transmit_notify_ok B w a p size Hw Ha Hs)
      as (buf & w' & He & Hst & old & sent & q' & p' & Hp' & Hq & Hq' & Hexp & Hbuf & Hlen).
    exists buf, w'. split; [ done | ]. split_and!; [ by eapply dht_transmit | by intros; eapply steady_connected | ].
    exists old, sent, p'. by rewrite Hq'.
  - intros a p sd Ha. destruct (update_core_preference_ok B w a p sd Hw Ha) as ([] & w' & He & Hst & _).
    exists tt, w'. split; [ done | ]. split; [ by eapply dht_preference | by intros; eapply steady_connected ].
  - intros peers Hall. eapply returns_weaken; [ by apply (neighbours_done_ok B) | ]. by intros ? ? [].
Qed.

Lemma dht_refines_peer_set_witness :
  exists w : dht (M := GNUNET_CONTAINER_MultiHashMap nat), reachable_dht 16 w /\ connected w sample_peer
    /\ returns (handle_core_disconnect sample_peer) w (fun _ w' => ~ connected w' sample_peer).
Proof.
  destruct sample_connected_ok as (w & _ & Hr & Hc). exists w. split; [ exact Hr | ]. split; [ exact Hc | ].
  destruct (dht_refines_peer_set 16 w sample_module ltac:(lia) Hr) as (_ & _ & Hdis & _).
  destruct (Hdis sample_peer) as (u & w' & Hrun & _ & Hd). exists u, w'. split; [ exact Hrun | ].
  intros [_ Hne]%Hd. by apply Hne.
Defined.

(** C12: Whatever bytes a peer sends as PUT, GET or RESULT, with the size
    field within the buffer, in every reachable state the handlers return
    GNUNET_YES without a failed assertion or an access outside of an object,
    and the table of peers and the invariant of the routing table stay; a PUT
    is either refused without any effect or handled completely. The exceptions
    are those of the findings: PUTs and GETs with replication level 0 and GETs
    without a filter for replies are excluded, also from the histories, and
    what monitoring clients read through the paths that are passed to them is
    left out. (Assumed of the environment: at most B peers with B up to 2^28,
    bucket_size above 0, a network size estimate, the same throughout a
    history, that is a number of at least 0.5, as its default is and the NSE
    handler keeps it, block plugins that return a key whenever they answer
    GNUNET_YES and keep filters well-formed, and HELLOs and cached records
    that are well typed.) *)
Theorem dht_messages_safe {M : Type} `{MM : MultiMap M nat} `{Env : DhtEnv} (B : nat) (w : dht (M := M))
  (peer : GNUNET_PeerIdentity) (message : list Z) :
  module_ok -> Z.of_nat B <= 2 ^ 28 -> reachable_dht B w -> is_hash peer -> received message ->
  (1 <= put_level message -> returns (handle_dht_p2p_put peer message) w (fun r w' =>
     r = GNUNET_YES /\ steady B w w' /\ (w' = w \/ exists put_path payload,
       put_accepted peer (decode_put (take sizeof_put message)) put_path payload w w')))
  /\ (forall hc rnd a n, has_filter message -> 1 <= get_level message ->
        mem (recent w) !! a = None -> (n ∉ ids (root (recent_heap (recent w)))) ->
        returns (handle_dht_p2p_get hc rnd a n peer message) w (fun r w' => r = GNUNET_YES /\ steady B w w'))
  /\ (forall hc, returns (handle_dht_p2p_result hc peer message) w (fun r w' => r = GNUNET_YES /\ steady B w w')).
Proof.
  intros Hmod HB Hr Hp Hm. destruct (reachable_dht_ok Hmod B HB w Hr) as [Hw Hrt]. split_and!.
  - intros Hl. eapply returns_weaken; [ by apply (put_safe Hmod B w peer message) | ]. cbn beta. tauto.
  - intros hc rnd a n Hf Hl Ha Hn. eapply returns_weaken; [ by apply (get_safe Hmod B w) | ]. cbn beta. tauto.
  - intros hc. eapply returns_weaken; [ by apply (result_safe Hmod B w) | ]. cbn beta. tauto.
Qed.

(** Bytes that are no message of the DHT *)
Lemma dht_messages_safe_witness :
  exists w : dht (M := GNUNET_CONTAINER_MultiHashMap nat), reachable_dht 16 w
    /\ returns (handle_dht_p2p_result [] sample_peer (encode_result 88 (mk_result 1 0 0 (mk_abs 5) sample_peer))) w
         (fun r w' => r = GNUNET_YES /\ steady 16 w w').
Proof.
  destruct sample_connected_ok as (w & _ & Hr & _). exists w. split; [ exact Hr | ].
  destruct (dht_messages_safe 16 w sample_peer (encode_result 88 (mk_result 1 0 0 (mk_abs 5) sample_peer))
    sample_module ltac:(lia) Hr sample_peer_hash) as (_ & _ & Hres).
  - split; [ vm_compute; repeat constructor; congruence | vm_compute; congruence ].
  - exact (Hres []).
Defined.

(** C28: In every reachable state am_closest_peer returns and decides whether
    no connected peer that the filter leaves shares a longer prefix with the
    key than this peer, although it looks only at one bucket and stops at the
    first peer that is not excluded; PUTs and GETs with replication level 0
    and GETs without a filter for replies are left out of the histories, see
    the findings. (Assumed of the environment: at most B peers with B up to
    2^28, bucket_size above 0, a network size estimate, the same throughout a
    history, that is a number of at least 0.5, as its default is and the NSE
    handler keeps it, block plugins that return a key whenever they answer
    GNUNET_YES and keep filters well-formed, and HELLOs and cached records
    that are well typed.) *)
Theorem dht_closest_peer_exact {M : Type} `{MM : MultiMap M nat} `{Env : DhtEnv} (B : nat) (w : dht (M := M))
  (key : GNUNET_HashCode) (bloom : option GNUNET_CONTAINER_BloomFilter) :
  module_ok -> Z.of_nat B <= 2 ^ 28 -> reachable_dht B w -> is_hash key -> filter_ok bloom ->
  exists r, am_closest_peer w key bloom = Ret r
    /\ (r = true <-> forall id, connected w id -> excluded bloom id = false ->
          shared id key <= shared my_identity key).
Proof.
  intros Hmod HB Hr Hk Hb. destruct (reachable_dht_ok Hmod B HB w Hr) as [Hw _].
  apply (am_closest_ok B); try done. apply Hmod.
Qed.

(** A connected peer that is closer to the key: itself *)
Lemma dht_closest_peer_exact_witness :
  exists w : dht (M := GNUNET_CONTAINER_MultiHashMap nat), reachable_dht 16 w /\ connected w sample_peer
    /\ am_closest_peer w sample_peer None = Ret false.
Proof.
  destruct sample_connected_ok as (w & _ & Hr & Hc). exists w. split; [ exact Hr | ]. split; [ exact Hc | ].
  destruct (dht_closest_peer_exact 16 w sample_peer None sample_module ltac:(lia) Hr sample_peer_hash I)
    as ([] & He & Hiff); [ | exact He ].
  destruct Hiff as [Hiff _]. specialize (Hiff eq_refl sample_peer Hc eq_refl). vm_compute in Hiff. by destruct Hiff.
Defined.



(** C30: For every network size estimate of at least 0.5, every hop count and
    every replication level of at least 1, the floating point computation of
    get_forward_count gives 0 beyond six times the estimate, 1 beyond four
    times, and otherwise a number between 1 and 65. For an estimate that is a
    whole number from 1 to 10 it is, in the last case, the whole part of 1 +
    (r-1)/(nse + (r-1)*hops) or one more, exactly the whole part if there is
    no rest, r being the level, at most 16. For level 0 and a hop count that
    equals such an estimate it converts an infinity to an integer: the count
    is an unspecified number, not bounded by anything. *)
Theorem dht_forward_count_exact {M : Type} `{MM : MultiMap M nat} `{Env : DhtEnv} (hops level : Z) (w : dht (M := M)) :
  is_u32 hops ->
  (estimate_ok nse -> 1 <= level -> exists n drawn,
     get_forward_count hops level w = Ret (n, count_reads 0 drawn w) /\ count_bounds hops n drawn)
  /\ forall k, 1 <= k <= 10 -> nse = Double.of_Z k ->
     (1 <= level -> exists n drawn,
        get_forward_count hops level w = Ret (n, count_reads 0 drawn w) /\ count_spec k hops level n drawn)
     /\ (level = 0 -> hops = k -> exists n, get_forward_count hops level w = Ret (n, count_reads 0 1 w)
          /\ (n = u32 (unspecified_u32 (S754_infinity true)) \/ n = u32 (u32 (unspecified_u32 (S754_infinity true)) + 1))).
Proof.
  intros Hh. split; [ intros Hn Hl; by apply forward_count_bounds | ]. intros k Hk Hn. split.
  - intros Hl. by apply forward_count_ok.
  - intros -> ->. by apply level_0_unspecified.
Qed.

Lemma dht_forward_count_exact_witness :
  exists w : dht (M := GNUNET_CONTAINER_MultiHashMap nat),
    (exists n, get_forward_count 1 0 w = Ret (n, count_reads 0 1 w) /\ 2 ^ 31 <= n <= 2 ^ 31 + 1)
    /\ exists n drawn, get_forward_count 1 5 w = Ret (n, count_reads 0 drawn w) /\ 1 <= n <= 2.
Proof.
  destruct sample_reachable as (w & _). exists w. split.
  - destruct (dht_forward_count_exact 1 0 w) as [_ Hc]; [ unfold is_u32; lia | ].
    destruct (Hc 1 ltac:(lia) eq_refl) as [_ Hc0]. destruct (Hc0 eq_refl eq_refl) as (n & He & Hn).
    exists n. split; [ exact He | ]. vm_compute in Hn. lia.
  - destruct (dht_forward_count_exact 1 5 w) as [_ Hc]; [ unfold is_u32; lia | ].
    destruct (Hc 1 ltac:(lia) eq_refl) as [Hc1 _].
    destruct (Hc1 ltac:(lia)) as (n & d & He & Hs). exists n, d. split; [ exact He | ].
    vm_compute in Hs. destruct Hs as (_ & [H1 H2] & _). split; [ exact H1 | exact H2 ].
Defined.


(** The peer 7 is a target: there is a message in its queue. *)
Lemma sample_put_queued :
  match sample_connected with
  | Ret w =>
      match GDS_NEIGHBOURS_handle_put 1 2 3 (mk_abs 5) 0 sample_bf sample_peer [] [9; 9] w with
      | Ret (_, w') =>
          match store w !! 7%nat, store w' !! 7%nat with
          | Some p, Some p' => pi_queue p = [] /\ length (pi_queue p') = 1%nat
          | _, _ => False
          end
      | _ => False
      end
  | _ => False
  end.
Proof. vm_compute. by split. Qed.

