(* ===== verification/Fragmentation.v ===== *)
(** * Fragmentation: [src/fragmentation/fragmentation.c]

    A fragmentation context cuts a message into at most 64 fragments and sends
    them round-robin until they are acknowledged.  A scheduled task is the delay
    it was scheduled with; the callback [proc] is what [transmit_next] returns to
    be sent; statistics are left out.  [clk i] is the [i]-th reading of the clock
    in a call.

    [1 << n] has no defined value in C when [n] is 31 or more: [shl_overflow] is
    whatever the machine computes then. *)

From Stdlib Require Import ZArith Lia.
From stdpp Require Import base list numbers sorting.
From S2P Require Import Prelude Endian Time Bandwidth Messages.
Local Open Scope Z_scope.

Record GNUNET_FRAGMENT_Context := mk_fc {
  tracker : option GNUNET_BANDWIDTH_Tracker;
  ack_delay : GNUNET_TIME_Relative;
  msg_delay : GNUNET_TIME_Relative;
  delay_until : GNUNET_TIME_Absolute;
  last_round : GNUNET_TIME_Absolute;
  msg : list Z;
  acks : Z;
  acks_mask : Z;
  task : option GNUNET_TIME_Relative;
  fragment_id : Z;
  next_transmission : Z;
  num_rounds : Z;
  num_transmissions : Z;
  proc_busy : bool;
  wack : bool;
  mtu : Z
}.

Definition sizeof_FragmentHeader : Z := Z.of_nat (wire_size FragmentHeader).
Definition GNUNET_MESSAGE_TYPE_FRAGMENT : Z := 18.
Definition GNUNET_MESSAGE_TYPE_FRAGMENT_ACK : Z := 19.
Definition MIN_ACK_DELAY : GNUNET_TIME_Relative :=
  GNUNET_TIME_relative_multiply GNUNET_TIME_UNIT_MILLISECONDS 1.

(** [0 != (x & (1LL << b))] *)
Definition has_bit (x b : Z) : bool := negb (Z.land x (Z.shiftl 1 b) =? 0).

(** [while (0 == (fc->acks & (1LL << fc->next_transmission))) ...]; [None] when the
    loop does not end within [fuel] steps. *)
Fixpoint skip_acked (fuel : nat) (a next : Z) (wrap : bool) : option (Z * bool) :=
  match fuel with
  | O => None
  | S fuel' =>
      if has_bit a next then Some (next, wrap)
      else let next' := (next + 1) mod 64 in
           skip_acked fuel' a next' (wrap || (next' =? 0))
  end.

(** [GNUNET_BANDWIDTH_tracker_get_delay] when there is a tracker *)
Definition tracker_delay (now : GNUNET_TIME_Absolute) (tr : option GNUNET_BANDWIDTH_Tracker)
  (fsize : Z) : outcome (GNUNET_TIME_Relative * option GNUNET_BANDWIDTH_Tracker) :=
  match tr with
  | None => Ret (GNUNET_TIME_UNIT_ZERO, None)
  | Some av => r ← GNUNET_BANDWIDTH_tracker_get_delay now av fsize; Ret (r.1, Some r.2)
  end.

Definition tracker_consume (now : GNUNET_TIME_Absolute) (tr : option GNUNET_BANDWIDTH_Tracker)
  (fsize : Z) : outcome (option GNUNET_BANDWIDTH_Tracker) :=
  match tr with
  | None => Ret None
  | Some av => r ← GNUNET_BANDWIDTH_tracker_consume now av fsize; Ret (Some r.2)
  end.

(** The fragment of number [bit], assembled in [char msg[fc->mtu]]. *)
Definition assemble (fc : GNUNET_FRAGMENT_Context) (bit fsize : Z) : outcome (list Z) :=
  let p := mtu fc - sizeof_FragmentHeader in
  if fsize <=? mtu fc then
    payload ← mem_read (msg fc) (Z.to_nat (bit * p)) (Z.to_nat (fsize - sizeof_FragmentHeader));
    Ret (wire_encode (mk_fragment_header
           (mk_header (u16 fsize) GNUNET_MESSAGE_TYPE_FRAGMENT) (fragment_id fc)
           (msg_size (msg fc)) (u16 (p * bit))) ++ payload)
  else Undefined.

Section Shifts.
Context (shl_overflow : Z -> Z).

(** [1 << n] in [int] *)
Definition int_shl (n : Z) : Z := if n <? 31 then Z.shiftl 1 n else shl_overflow n.

Definition transmit_next (clk : nat -> GNUNET_TIME_Absolute) (fc : GNUNET_FRAGMENT_Context)
  : outcome (GNUNET_FRAGMENT_Context * option (list Z)) :=
  let sent task next tr :=
    mk_fc tr (ack_delay fc) (msg_delay fc) (delay_until fc) (last_round fc) (msg fc) (acks fc)
      (acks_mask fc) task (fragment_id fc) next (num_rounds fc) (num_transmissions fc)
      (proc_busy fc) (wack fc) (mtu fc) in
  _ ← gnunet_assert (negb (proc_busy fc));
  if acks fc =? 0 then Ret (sent None (next_transmission fc) (tracker fc), None)
  else
    s1 ← of_option (skip_acked 64 (acks fc) (next_transmission fc) false);
    let '(bit, wrap1) := s1 in
    let p := mtu fc - sizeof_FragmentHeader in
    let size := msg_size (msg fc) in
    let fsize := if bit =? size / p then size mod p + sizeof_FragmentHeader else mtu fc in
    d1 ← tracker_delay (clk 0%nat) (tracker fc) fsize;
    let '(delay1, tr1) := d1 in
    if 0 <? rel_value delay1 then Ret (sent (Some delay1) bit tr1, None)
    else
      let next1 := (bit + 1) mod 64 in
      s2 ← of_option (skip_acked 64 (acks fc) next1 (wrap1 || (next1 =? 0)));
      let '(next2, wrap2) := s2 in
      fragment ← assemble fc bit fsize;
      tr2 ← tracker_consume (clk 1%nat) tr1 fsize;
      let fsize2 := if next2 =? size / p then size mod p else mtu fc in
      d2 ← tracker_delay (clk 2%nat) tr2 fsize2;
      let '(delay2, tr3) := d2 in
      let delay3 := GNUNET_TIME_relative_max delay2
        (GNUNET_TIME_relative_multiply (msg_delay fc) (u32 (int_shl (num_rounds fc)))) in
      let '(rounds', delay4, wack', last_round') :=
        if wrap2 : bool
        then (u32 (num_rounds fc + 1),
              GNUNET_TIME_relative_max MIN_ACK_DELAY
                (GNUNET_TIME_relative_multiply (ack_delay fc) 2),
              true, clk 3%nat)
        else (num_rounds fc, delay3, wack fc, last_round fc) in
      Ret (mk_fc tr3 (ack_delay fc) (msg_delay fc)
             (GNUNET_TIME_relative_to_absolute (clk 4%nat) delay4) last_round' (msg fc) (acks fc)
             (acks_mask fc) None (fragment_id fc) next2 rounds'
             (u32 (num_transmissions fc + 1)) true wack' (mtu fc),
           Some fragment).

(** [rnd] is the fragmentation ID chosen at random; [GNUNET_malloc] zeroes the
    fields that are not set. *)
Definition GNUNET_FRAGMENT_context_create (mtu0 : Z) (tr : option GNUNET_BANDWIDTH_Tracker)
  (msg_delay0 ack_delay0 : GNUNET_TIME_Relative) (m : list Z) (rnd : Z)
  : outcome GNUNET_FRAGMENT_Context :=
  _ ← gnunet_assert (1024 + sizeof_FragmentHeader <=? mtu0);
  let size := msg_size m in
  _ ← gnunet_assert (Z.of_nat (wire_size GNUNET_MessageHeader) <=? size);
  m' ← mem_read m 0 (Z.to_nat size);
  let bits := (size + mtu0 - sizeof_FragmentHeader - 1) / (mtu0 - sizeof_FragmentHeader) in
  _ ← gnunet_assert (bits <=? 64);
  let mask := if bits =? 64 then UINT64_MAX else u64 (Z.shiftl 1 bits - 1) in
  Ret (mk_fc tr ack_delay0 msg_delay0 (mk_abs 0) (mk_abs 0) m' mask mask
         (Some GNUNET_TIME_UNIT_ZERO) rnd 0 0 0 false false mtu0).

Definition GNUNET_FRAGMENT_context_transmission_done (now : GNUNET_TIME_Absolute)
  (fc : GNUNET_FRAGMENT_Context) : outcome GNUNET_FRAGMENT_Context :=
  _ ← gnunet_assert (proc_busy fc);
  _ ← gnunet_assert (match task fc with None => true | Some _ => false end);
  Ret (mk_fc (tracker fc) (ack_delay fc) (msg_delay fc) (delay_until fc) (last_round fc) (msg fc)
         (acks fc) (acks_mask fc)
         (Some (GNUNET_TIME_absolute_get_remaining now (delay_until fc)))
         (fragment_id fc) (next_transmission fc) (num_rounds fc) (num_transmissions fc)
         false (wack fc) (mtu fc)).

(** The [for] loop of [process_ack]: [(snd_cnt, ack_cnt)]. *)
Definition count_acks (mask abits : Z) : Z * Z :=
  foldl (fun '(snd_cnt, ack_cnt) i =>
           if Z.land mask (u64 (int_shl (Z.of_nat i))) =? 1
           then (snd_cnt + 1, if Z.land abits (u64 (int_shl (Z.of_nat i))) =? 0
                              then ack_cnt + 1 else ack_cnt)
           else (snd_cnt, ack_cnt)) (0, 0) (seq 0 64).

Definition GNUNET_FRAGMENT_process_ack (now : GNUNET_TIME_Absolute)
  (fc : GNUNET_FRAGMENT_Context) (m : list Z) : outcome (Z * GNUNET_FRAGMENT_Context) :=
  if negb (Z.of_nat (wire_size FragmentAcknowledgement) =? msg_size m)
  then Ret (GNUNET_SYSERR, fc)
  else
    let fa : FragmentAcknowledgement := wire_decode m in
    if negb (fa_fragment_id fa =? fragment_id fc) then Ret (GNUNET_SYSERR, fc)
    else
      let abits := fa_bits fa in
      d ← (if wack fc && negb (num_transmissions fc =? 0) then
             ndelay ← GNUNET_TIME_absolute_get_duration now (last_round fc);
             let ack_delay' := mk_rel (u64 (rel_value ndelay / num_transmissions fc
                                            + 3 * rel_value (ack_delay fc)) / 4) in
             let '(snd_cnt, ack_cnt) := count_acks (acks_mask fc) abits in
             let msg_delay' :=
               if ack_cnt =? 0 then GNUNET_TIME_relative_multiply (msg_delay fc) snd_cnt
               else if ack_cnt <? snd_cnt
               then mk_rel (u64 (rel_value (msg_delay fc) * ack_cnt) / snd_cnt)
               else if 1 <? rel_value (msg_delay fc) then mk_rel (rel_value (msg_delay fc) - 1)
               else msg_delay fc in
             Ret (false, ack_delay', 0,
                  GNUNET_TIME_relative_min msg_delay' GNUNET_TIME_UNIT_SECONDS)
           else Ret (wack fc, ack_delay fc, num_transmissions fc, msg_delay fc));
      let '(wack', ack_delay', num_transmissions', msg_delay') := d in
      let acks' := Z.land abits (acks_mask fc) in
      let with_task t :=
        mk_fc (tracker fc) ack_delay' msg_delay' (delay_until fc) (last_round fc) (msg fc)
          acks' (acks_mask fc) t (fragment_id fc) (next_transmission fc) (num_rounds fc)
          num_transmissions' (proc_busy fc) wack' (mtu fc) in
      if negb (acks' =? 0) then
        match task fc with
        | Some _ => Ret (GNUNET_NO, with_task (Some GNUNET_TIME_UNIT_ZERO))
        | None => _ ← gnunet_assert (proc_busy fc); Ret (GNUNET_NO, with_task None)
        end
      else Ret (GNUNET_OK, with_task None).

(** What is stored through [msg_delay] and [ack_delay]. *)
Definition GNUNET_FRAGMENT_context_destroy (fc : GNUNET_FRAGMENT_Context)
  : GNUNET_TIME_Relative * GNUNET_TIME_Relative :=
  (GNUNET_TIME_relative_multiply (msg_delay fc) (num_rounds fc), ack_delay fc).

End Shifts.

(** ** Fragments of a message *)

Definition payload_size (mtu0 : Z) : Z := mtu0 - sizeof_FragmentHeader.
Definition fragment_count (size mtu0 : Z) : Z :=
  (size + payload_size mtu0 - 1) / payload_size mtu0.

(** The bytes of fragment [i] of [m]. *)
Definition slice (m : list Z) (mtu0 i : Z) : list Z :=
  take (Z.to_nat (payload_size mtu0)) (drop (Z.to_nat (i * payload_size mtu0)) m).

Definition fragment (m : list Z) (mtu0 fid i : Z) : list Z :=
  wire_encode (mk_fragment_header
    (mk_header (sizeof_FragmentHeader + Z.of_nat (length (slice m mtu0 i)))
       GNUNET_MESSAGE_TYPE_FRAGMENT) fid (msg_size m) (i * payload_size mtu0))
  ++ slice m mtu0 i.

(** A message and an MTU that [context_create] accepts. *)
Record fragmentable (m : list Z) (mtu0 : Z) : Prop := {
  fr_mtu : 1036 <= mtu0 < 65536;
  fr_length : Z.of_nat (length m) = msg_size m;
  fr_size : 4 <= msg_size m < 65536
}.

Record fc_inv (fc : GNUNET_FRAGMENT_Context) : Prop := {
  inv_msg : fragmentable (msg fc) (mtu fc);
  inv_mask : acks_mask fc = Z.ones (fragment_count (msg_size (msg fc)) (mtu fc));
  inv_acks : Z.land (acks fc) (acks_mask fc) = acks fc;
  inv_next : 0 <= next_transmission fc < 64
}.

Lemma fragment_count_range size mtu0 :
  1036 <= mtu0 < 65536 -> 4 <= size < 65536 ->
  1 <= fragment_count size mtu0 <= 64
  /\ forall i, 0 <= i < fragment_count size mtu0 <-> 0 <= i /\ i * payload_size mtu0 < size.
Proof.
  intros Hm Hs. unfold fragment_count.
  assert (Hp : 1024 <= payload_size mtu0 < 65536)
    by (unfold payload_size, sizeof_FragmentHeader; cbn; lia).
  set (p := payload_size mtu0) in *. clearbody p.
  pose proof (Z.div_mod (size + p - 1) p ltac:(lia)) as Hdm.
  pose proof (Z.mod_pos_bound (size + p - 1) p ltac:(lia)) as Hmod.
  set (q := (size + p - 1) / p) in *. split.
  - split; [ nia | ]. destruct (Z.le_gt_cases q 64); [ done | ]. nia.
  - intros i. split; intros [H0 H1]; (split; [ done | ]); nia.
Qed.

Lemma fragment_count_bounds m mtu0 :
  fragmentable m mtu0 ->
  1 <= fragment_count (msg_size m) mtu0 <= 64
  /\ forall i, 0 <= i < fragment_count (msg_size m) mtu0 <->
               0 <= i /\ i * payload_size mtu0 < msg_size m.
Proof. intros [Hm _ Hs]. by apply fragment_count_range. Qed.

(** The mask of the first [n] bits as the code computes it. *)
Lemma mask_ones n :
  0 <= n <= 64 -> (if n =? 64 then UINT64_MAX else u64 (Z.shiftl 1 n - 1)) = Z.ones n.
Proof.
  intros Hn. destruct (Z.eqb_spec n 64) as [->|]; [ done | ].
  rewrite Z.shiftl_1_l, Z.ones_equiv, u64_small; [ lia | ]. unfold is_u64.
  pose proof (Z.pow_lt_mono_r 2 n 64). pose proof (Z.pow_pos_nonneg 2 n). lia.
Qed.

Lemma length_slice m mtu0 i :
  fragmentable m mtu0 -> 0 <= i < fragment_count (msg_size m) mtu0 ->
  Z.of_nat (length (slice m mtu0 i))
  = Z.min (payload_size mtu0) (msg_size m - i * payload_size mtu0).
Proof.
  intros Hf Hi. destruct (fragment_count_bounds m mtu0 Hf) as [_ Hb]. apply Hb in Hi as [H0 Hi].
  destruct Hf as [Hm Hl Hs]. unfold slice. rewrite length_take, length_drop.
  assert (0 <= payload_size mtu0) by (unfold payload_size, sizeof_FragmentHeader; cbn; lia).
  assert (0 <= i * payload_size mtu0) by nia. lia.
Qed.

(** The size [transmit_next] computes is that of the slice. *)
Lemma fragment_size m mtu0 i :
  fragmentable m mtu0 -> 0 <= i < fragment_count (msg_size m) mtu0 ->
  (if i =? msg_size m / payload_size mtu0
   then msg_size m mod payload_size mtu0 + sizeof_FragmentHeader else mtu0)
  = sizeof_FragmentHeader + Z.of_nat (length (slice m mtu0 i)).
Proof.
  intros Hf Hi. rewrite length_slice by done.
  destruct (fragment_count_bounds m mtu0 Hf) as [_ Hb]. apply Hb in Hi as [H0 Hi].
  destruct Hf as [Hm Hl Hs].
  assert (Hp : 0 < payload_size mtu0) by (unfold payload_size, sizeof_FragmentHeader; cbn; lia).
  assert (Hmtu : mtu0 = payload_size mtu0 + sizeof_FragmentHeader) by (unfold payload_size; lia).
  set (p := payload_size mtu0) in *.
  pose proof (Z.div_mod (msg_size m) p ltac:(lia)). pose proof (Z.mod_pos_bound (msg_size m) p Hp).
  destruct (Z.eqb_spec i (msg_size m / p)) as [->|Hne]; [ lia | ].
  assert (i < msg_size m / p) by (apply Z.le_neq; split; [ apply Z.div_le_lower_bound; lia | done ]).
  nia.
Qed.

Lemma assemble_spec fc i :
  fc_inv fc -> 0 <= i < fragment_count (msg_size (msg fc)) (mtu fc) ->
  assemble fc i (sizeof_FragmentHeader + Z.of_nat (length (slice (msg fc) (mtu fc) i)))
  = Ret (fragment (msg fc) (mtu fc) (fragment_id fc) i).
Proof.
  intros Hfc Hi. pose proof (inv_msg fc Hfc) as Hf. pose proof (length_slice _ _ i Hf Hi) as Hls.
  destruct (fragment_count_bounds _ _ Hf) as [_ Hb]. pose proof (proj1 (Hb i) Hi) as [H0 Hlt].
  destruct Hf as [Hm Hl Hs]. unfold assemble. fold (payload_size (mtu fc)).
  assert (Hp : 0 < payload_size (mtu fc)) by (unfold payload_size, sizeof_FragmentHeader; cbn; lia).
  assert (Hmtu : mtu fc = payload_size (mtu fc) + sizeof_FragmentHeader)
    by (unfold payload_size; lia).
  assert (Hh : sizeof_FragmentHeader = 12) by done.
  set (p := payload_size (mtu fc)) in *.
  rewrite (proj2 (Z.leb_le _ _)) by lia.
  assert (Hprod : 0 <= i * p) by nia.
  rewrite mem_read_ok by lia. cbn [mbind outcome_bind]. unfold fragment. fold p.
  rewrite !u16_small by (unfold is_u16; lia). do 2 f_equal.
  - do 2 f_equal. lia.
  - unfold slice. fold p. unfold slice in Hls. fold p in Hls.
    set (d := drop _ (msg fc)) in *.
    replace (Z.to_nat (sizeof_FragmentHeader + Z.of_nat (length (take (Z.to_nat p) d))
                       - sizeof_FragmentHeader)) with (length (take (Z.to_nat p) d)) by lia.
    rewrite length_take. destruct (Nat.le_ge_cases (Z.to_nat p) (length d)).
    + by rewrite Nat.min_l.
    + rewrite Nat.min_r by done. by rewrite (take_ge d (Z.to_nat p)), take_ge by lia.
Qed.

(** ** Creation *)

(** context_create succeeds for every message and MTU it is documented
    for; the fragments number at most 64, the initial acks bitmap has exactly
    one bit per fragment, and the context satisfies the invariant. *)
Theorem fragment_context_create_total mtu0 tr md ad m rnd :
  fragmentable m mtu0 ->
  exists fc, GNUNET_FRAGMENT_context_create mtu0 tr md ad m rnd = Ret fc
    /\ fc_inv fc /\ msg fc = m /\ mtu fc = mtu0 /\ fragment_id fc = rnd
    /\ acks fc = Z.ones (fragment_count (msg_size m) mtu0)
    /\ fragment_count (msg_size m) mtu0 <= 64.
Proof.
  intros Hf. pose proof (fragment_count_bounds m mtu0 Hf) as [Hc _]. pose proof Hf as [Hm Hl Hs].
  unfold GNUNET_FRAGMENT_context_create.
  assert (Hn : (msg_size m + mtu0 - sizeof_FragmentHeader - 1) / (mtu0 - sizeof_FragmentHeader)
               = fragment_count (msg_size m) mtu0).
  { unfold fragment_count, payload_size. f_equal. lia. }
  change sizeof_FragmentHeader with 12 in *. cbn [wire_size header_wire]. rewrite Hn.
  rewrite (gnunet_assert_true (1024 + 12 <=? mtu0)) by (apply Z.leb_le; lia). cbn [mbind outcome_bind].
  rewrite (gnunet_assert_true (Z.of_nat 4 <=? msg_size m)) by (apply Z.leb_le; lia). cbn [mbind outcome_bind].
  rewrite (gnunet_assert_true (_ <=? 64)) by (apply Z.leb_le; lia). cbn [mbind outcome_bind].
  rewrite mem_read_ok by lia. cbn [mbind outcome_bind].
  rewrite drop_0, take_ge by lia.
  set (n := fragment_count (msg_size m) mtu0) in *.
  rewrite mask_ones by lia. eexists. split_and!; try done; [ | lia ].
  constructor; cbn [msg mtu acks acks_mask next_transmission]; try done.
  apply Z.land_diag.
Qed.

(** ** Round robin *)

Lemma has_bit_testbit x b : 0 <= b -> has_bit x b = Z.testbit x b.
Proof.
  intros Hb. unfold has_bit. rewrite Z.shiftl_1_l. destruct (Z.testbit x b) eqn:E.
  - destruct (Z.eqb_spec (Z.land x (2 ^ b)) 0) as [E0|]; [ | done ].
    apply (f_equal (fun z => Z.testbit z b)) in E0.
    rewrite Z.land_spec, E, Z.pow2_bits_true, Z.bits_0 in E0 by lia. done.
  - replace (Z.land x (2 ^ b)) with 0; [ done | ]. symmetry.
    apply Z.bits_inj'. intros j Hj. rewrite Z.land_spec, Z.bits_0, Z.pow2_bits_eqb by lia.
    destruct (Z.eqb_spec b j) as [<-|]; [ by rewrite E | apply andb_false_r ].
Qed.

Lemma filter_split {A} (f : A -> bool) l x rest :
  List.filter f l = x :: rest ->
  exists k, l !! k = Some x /\ f x = true
    /\ forall i y, (i < k)%nat -> l !! i = Some y -> f y = false.
Proof.
  revert rest. induction l as [|y l IH]; intros rest; [ done | ]. cbn [List.filter].
  destruct (f y) eqn:E.
  - intros [= -> _]. exists 0%nat. split_and!; try done. intros. lia.
  - intros Hf. destruct (IH rest Hf) as (k & Hk & Hx & Hlt). exists (S k). split_and!; try done.
    intros [|i] z Hi; cbn; [ by intros [= <-] | ]. apply Hlt. lia.
Qed.

Lemma filter_seq_first (f : Z -> bool) (g : nat -> Z) n b rest :
  List.filter f (g <$> seq 0 n) = b :: rest ->
  exists k, (k < n)%nat /\ g k = b /\ f b = true /\ forall i, (i < k)%nat -> f (g i) = false.
Proof.
  intros Hc. destruct (filter_split _ _ _ _ Hc) as (k & Hk & Hb & Hlt).
  rewrite list_lookup_fmap in Hk. destruct (seq 0 n !! k) as [k'|] eqn:Ek; [ | done ].
  injection Hk as Hk. apply lookup_seq in Ek as [-> Hkn].
  exists k. split; [ done | ]. split; [ done | ]. split; [ done | ].
  intros i Hi. eapply (Hlt i); [ done | ].
  by rewrite list_lookup_fmap, lookup_seq_lt by lia.
Qed.

(** The unacknowledged fragments in the order in which they are sent, starting
    from [next]; [n] is 64. *)
Definition cyc (n : nat) (a next : Z) : list Z :=
  List.filter (has_bit a) ((fun i => (next + Z.of_nat i) mod Z.of_nat n) <$> seq 0 n).

Section Cyclic.
Context (n : nat) (Hn64 : Z.of_nat n = 64).

Lemma seq_ends : seq 0 n = 0%nat :: seq 1 (n - 1) /\ seq 0 n = seq 0 (n - 1) ++ [(n - 1)%nat].
Proof.
  destruct n as [|n']; [ done | ]. rewrite Nat.sub_1_r. cbn [Nat.pred]. split; [ done | ].
  apply (seq_S n' 0).
Qed.

Lemma cyc_rotate a next :
  0 <= next < 64 ->
  exists l, cyc n a next = (if has_bit a next then [next] else []) ++ l
    /\ cyc n a ((next + 1) mod 64) = l ++ (if has_bit a next then [next] else []).
Proof.
  intros Hnext. set (f i := (next + Z.of_nat i) mod 64).
  exists (List.filter (has_bit a) (f <$> seq 1 (n - 1))). unfold cyc. rewrite Hn64.
  destruct seq_ends as [E1 E2]. fold f. split.
  - rewrite E1, fmap_cons. cbn [List.filter].
    assert (E0 : f 0%nat = next) by (unfold f; rewrite Z.add_0_r; apply Z.mod_small; lia).
    rewrite E0. by destruct (has_bit a next).
  - rewrite E2, fmap_app, List.filter_app. f_equal.
    + f_equal. rewrite <- (fmap_S_seq 0), <- list_fmap_compose.
      apply list_fmap_ext. intros _ i _. unfold f. cbn [compose].
      rewrite Z.add_mod_idemp_l by lia. f_equal. lia.
    + cbn [fmap list_fmap List.filter]. rewrite Z.add_mod_idemp_l by lia.
      replace (next + 1 + Z.of_nat (n - 1)) with (next + 1 * 64) by lia.
      rewrite Z.mod_add, Z.mod_small by lia. by destruct (has_bit a next).
Qed.

Lemma elem_of_cyc a next b :
  0 <= next < 64 -> b ∈ cyc n a next <-> 0 <= b < 64 /\ has_bit a b = true.
Proof.
  intros Hnext. unfold cyc. rewrite list_elem_of_In, filter_In, <- list_elem_of_In.
  rewrite list_elem_of_fmap, Hn64. split.
  - intros ((i & -> & _) & Hb). split; [ apply Z.mod_pos_bound; lia | done ].
  - intros [Hb Hbit]. split; [ | done ]. exists (Z.to_nat ((b - next) mod 64)).
    pose proof (Z.mod_pos_bound (b - next) 64 ltac:(lia)).
    rewrite elem_of_seq. split; [ | lia ].
    rewrite Z2Nat.id, Z.add_mod_idemp_r by lia.
    replace (next + (b - next)) with b by lia. symmetry. apply Z.mod_small. lia.
Qed.

Lemma NoDup_cyc a next : 0 <= next < 64 -> NoDup (cyc n a next).
Proof.
  intros Hnext. apply NoDup_ListNoDup, List.NoDup_filter, NoDup_ListNoDup.
  apply NoDup_fmap_2_strong; [ | apply NoDup_seq ]. intros i j Hi Hj E.
  rewrite elem_of_seq in Hi, Hj. rewrite Hn64 in E.
  pose proof (Z.div_mod (next + Z.of_nat i) 64). pose proof (Z.div_mod (next + Z.of_nat j) 64).
  pose proof (Z.mod_pos_bound (next + Z.of_nat i) 64). lia.
Qed.

(** The loop stops at the first unacknowledged fragment from [next] on. *)
Lemma skip_acked_steps k : forall fuel a next wrap,
  0 <= next < 64 -> (k < fuel)%nat ->
  (forall i, (i < k)%nat -> has_bit a ((next + Z.of_nat i) mod 64) = false) ->
  has_bit a ((next + Z.of_nat k) mod 64) = true ->
  exists wrap', skip_acked fuel a next wrap = Some ((next + Z.of_nat k) mod 64, wrap')
    /\ cyc n a ((next + Z.of_nat k) mod 64) = cyc n a next.
Proof.
  induction k as [|k IH]; intros fuel a next wrap Hn Hf Hno Hyes;
    (destruct fuel as [|fuel]; [ lia | ]); cbn [skip_acked].
  - change (Z.of_nat 0) with 0 in *. rewrite Z.add_0_r, (Z.mod_small next) in Hyes |- * by lia.
    rewrite Hyes. by exists wrap.
  - pose proof (Hno 0%nat ltac:(lia)) as H0. rewrite Z.add_0_r, Z.mod_small in H0 by lia.
    rewrite H0. pose proof (Z.mod_pos_bound (next + 1) 64 ltac:(lia)).
    assert (Hsh : forall i, ((next + 1) mod 64 + Z.of_nat i) mod 64
                            = (next + Z.of_nat (S i)) mod 64).
    { intros i. rewrite Z.add_mod_idemp_l by lia. f_equal. lia. }
    destruct (IH fuel a ((next + 1) mod 64) (wrap || ((next + 1) mod 64 =? 0)))
      as (wrap' & E & Hc); [ lia | lia | | | ].
    + intros i Hi. rewrite Hsh. apply Hno. lia.
    + by rewrite Hsh.
    + rewrite Hsh in E, Hc. exists wrap'. split; [ done | ]. rewrite Hc.
      destruct (cyc_rotate a next Hn) as (l & -> & ->). rewrite H0. by rewrite app_nil_r.
Qed.

Lemma skip_acked_spec fuel a next wrap b rest :
  (n <= fuel)%nat -> 0 <= next < 64 -> cyc n a next = b :: rest ->
  exists wrap', skip_acked fuel a next wrap = Some (b, wrap')
    /\ 0 <= b < 64 /\ has_bit a b = true /\ cyc n a b = b :: rest.
Proof.
  intros Hfuel Hn Hc. pose proof Hc as Hf. unfold cyc in Hf.
  apply filter_seq_first in Hf as (k & Hkn & Hk & Hb & Hlt). rewrite Hn64 in Hk, Hlt.
  destruct (skip_acked_steps k fuel a next wrap Hn ltac:(lia) Hlt) as (wrap' & E & Hcy).
  - rewrite Hk. exact Hb.
  - rewrite Hk in E, Hcy. exists wrap'. rewrite Hcy.
    pose proof (Z.mod_pos_bound (next + Z.of_nat k) 64 ltac:(lia)).
    split; [ exact E | ]. split; [ lia | ]. split; [ exact Hb | exact Hc ].
Qed.

Lemma cyc_nonempty a next m :
  0 < a -> Z.land a (Z.ones m) = a -> 0 <= m <= 64 -> 0 <= next < 64 ->
  exists b rest, cyc n a next = b :: rest.
Proof.
  intros Ha Hm Hmn Hnext.
  assert (Hin : Z.log2 a ∈ cyc n a next).
  { apply elem_of_cyc; [ done | ]. assert (Hlog : Z.testbit a (Z.log2 a) = true)
      by (by apply Z.bit_log2). pose proof (Z.log2_nonneg a).
    assert (Hl2 : Z.testbit (Z.land a (Z.ones m)) (Z.log2 a) = true) by (by rewrite Hm).
    rewrite Z.land_spec, Z.testbit_ones in Hl2 by lia.
    rewrite has_bit_testbit by lia. split; [ lia | done ]. }
  destruct (cyc n a next) as [|b rest]; [ by apply not_elem_of_nil in Hin | by eauto ].
Qed.

End Cyclic.

Lemma acked_bound fc b :
  fc_inv fc -> 0 <= b -> has_bit (acks fc) b = true ->
  b < fragment_count (msg_size (msg fc)) (mtu fc).
Proof.
  intros Hfc Hb Hbit. rewrite has_bit_testbit in Hbit by done.
  destruct (fragment_count_bounds _ _ (inv_msg fc Hfc)) as [Hc _].
  rewrite <- (inv_acks fc Hfc), (inv_mask fc Hfc), Z.land_spec, Z.testbit_ones in Hbit by lia.
  lia.
Qed.

(** What [transmit_next] leaves alone. *)
Definition same_message (fc fc' : GNUNET_FRAGMENT_Context) : Prop :=
  msg fc' = msg fc /\ mtu fc' = mtu fc /\ fragment_id fc' = fragment_id fc
  /\ acks fc' = acks fc /\ acks_mask fc' = acks_mask fc /\ tracker fc' = tracker fc.

Lemma fc_inv_same fc fc' :
  fc_inv fc -> same_message fc fc' -> 0 <= next_transmission fc' < 64 -> fc_inv fc'.
Proof.
  intros [Hm Hk Ha Hn] (E1 & E2 & E3 & E4 & E5 & E6) Hn'.
  constructor; rewrite ?E1, ?E2, ?E4, ?E5; done.
Qed.

Section Transmission.
Context (shl_overflow : Z -> Z).

Lemma transmit_next_spec clk fc n b rest :
  Z.of_nat n = 64 -> fc_inv fc -> tracker fc = None -> proc_busy fc = false ->
  cyc n (acks fc) (next_transmission fc) = b :: rest ->
  exists fc', transmit_next shl_overflow clk fc
      = Ret (fc', Some (fragment (msg fc) (mtu fc) (fragment_id fc) b))
    /\ fc_inv fc' /\ same_message fc fc' /\ proc_busy fc' = true /\ task fc' = None
    /\ cyc n (acks fc') (next_transmission fc') = rest ++ [b].
Proof.
  intros Hn64 Hfc Htr Hbusy Hcyc. pose proof (inv_next fc Hfc) as Hnext.
  destruct (skip_acked_spec n Hn64 64 (acks fc) (next_transmission fc) false b rest) as (w1 & Es1 & Hb & Hbit & Hcb);
    [ lia | done | done | ].
  destruct (cyc_rotate n Hn64 (acks fc) b Hb) as (l & Hl1 & Hl2).
  rewrite Hcb, Hbit in Hl1. injection Hl1 as <-. rewrite Hbit in Hl2.
  assert (Hne : exists b2 rest2, rest ++ [b] = b2 :: rest2) by (destruct rest; eauto).
  destruct Hne as (b2 & rest2 & Hrest). rewrite Hrest in Hl2.
  pose proof (Z.mod_pos_bound (b + 1) 64 ltac:(lia)) as Hb1.
  destruct (skip_acked_spec n Hn64 64 (acks fc) ((b + 1) mod 64) (w1 || ((b + 1) mod 64 =? 0))
    b2 rest2) as (w2 & Es2 & Hb2 & Hbit2 & Hcb2); [ lia | lia | done | ].
  assert (Hlt : 0 <= b < fragment_count (msg_size (msg fc)) (mtu fc))
    by (split; [ lia | apply acked_bound; try done; lia ]).
  unfold transmit_next. rewrite Hbusy, Htr. cbn [negb gnunet_assert mbind outcome_bind].
  assert (Hnz : (acks fc =? 0) = false).
  { apply Z.eqb_neq. intros E. rewrite E in Hbit. rewrite has_bit_testbit, Z.bits_0 in Hbit; lia. }
  rewrite Hnz, Es1. cbn [of_option mbind outcome_bind].
  fold (payload_size (mtu fc)). rewrite fragment_size by (try apply Hfc; done).
  cbn [tracker_delay mbind outcome_bind]. change (0 <? rel_value GNUNET_TIME_UNIT_ZERO) with false.
  cbn iota. rewrite Es2. cbn [of_option mbind outcome_bind].
  rewrite assemble_spec by done. cbn [mbind outcome_bind tracker_consume tracker_delay].
  destruct w2; (eexists; split; [ reflexivity | ]); cbn; rewrite Hcb2, Hrest;
    (split; [ by eapply fc_inv_same | done ]).
Qed.

(** [k] transmissions, each completed by the user of the context before the next
    one; the fragments that were sent. *)
Fixpoint transmissions (clk : nat -> nat -> GNUNET_TIME_Absolute) (k : nat)
  (fc : GNUNET_FRAGMENT_Context) : outcome (list (list Z) * GNUNET_FRAGMENT_Context) :=
  match k with
  | O => Ret ([], fc)
  | S k' =>
      r ← transmit_next shl_overflow (clk k) fc;
      match r.2 with
      | None => Ret ([], r.1)
      | Some f =>
          fc' ← GNUNET_FRAGMENT_context_transmission_done (clk k 5%nat) r.1;
          rs ← transmissions clk k' fc';
          Ret (f :: rs.1, rs.2)
      end
  end.

Lemma transmissions_spec clk n l1 : forall l2 fc,
  Z.of_nat n = 64 -> fc_inv fc -> tracker fc = None -> proc_busy fc = false ->
  cyc n (acks fc) (next_transmission fc) = l1 ++ l2 ->
  exists fc', transmissions clk (length l1) fc
      = Ret (fragment (msg fc) (mtu fc) (fragment_id fc) <$> l1, fc')
    /\ fc_inv fc' /\ same_message fc fc' /\ proc_busy fc' = false
    /\ cyc n (acks fc') (next_transmission fc') = l2 ++ l1.
Proof.
  induction l1 as [|b l1 IH]; intros l2 fc Hn64 Hfc Htr Hbusy Hcyc.
  - exists fc. rewrite app_nil_r. split; [ done | ]. split; [ done | ]. by split.
  - destruct (transmit_next_spec (clk (S (length l1))) fc n b (l1 ++ l2))
      as (fc1 & E1 & Hfc1 & Hs1 & Hb1 & Ht1 & Hc1); try done.
    cbn [length transmissions]. rewrite E1. cbn [mbind outcome_bind snd fst].
    unfold GNUNET_FRAGMENT_context_transmission_done. rewrite Hb1, Ht1.
    cbn [gnunet_assert mbind outcome_bind].
    set (fc2 := mk_fc _ _ _ _ _ _ _ _ _ _ _ _ _ _ _ _).
    destruct Hs1 as (S1 & S2 & S3 & S4 & S5 & S6).
    destruct (IH (l2 ++ [b]) fc2) as (fc' & E & Hfc' & Hs & Hbf & Hc).
    + done.
    + apply (fc_inv_same fc1); [ done | done | apply (inv_next fc1 Hfc1) ].
    + cbn. congruence.
    + done.
    + cbn. rewrite Hc1. by rewrite <- app_assoc.
    + rewrite E. cbn [mbind outcome_bind]. exists fc'. cbn [fst snd fmap list_fmap].
      split; [ cbn; by rewrite S1, S2, S3 | ]. split; [ done | ].
      split; [ | split; [ done | by rewrite Hc, <- app_assoc ] ].
      destruct Hs as (T1 & T2 & T3 & T4 & T5 & T6). cbn in *.
      repeat split; congruence.
Qed.

End Transmission.

(** Without a bandwidth limit and while no acknowledgement arrives, the
    next transmissions of the fragmentation context send each unacknowledged
    fragment exactly once before any is repeated, each with the right offset,
    identifier and payload, and keep the invariant. *)
Theorem fragment_round_robin shl_overflow clk fc :
  fc_inv fc -> tracker fc = None -> proc_busy fc = false ->
  exists l fc', NoDup l
    /\ (forall b, b ∈ l <-> 0 <= b < 64 /\ Z.testbit (acks fc) b = true)
    /\ transmissions shl_overflow clk (length l) fc
       = Ret (fragment (msg fc) (mtu fc) (fragment_id fc) <$> l, fc')
    /\ fc_inv fc' /\ same_message fc fc'.
Proof.
  intros Hfc Htr Hbusy. pose proof (inv_next fc Hfc) as Hnext.
  assert (Hn : Z.of_nat (Z.to_nat 64) = 64) by (apply Z2Nat.id; lia).
  revert Hn. generalize (Z.to_nat 64). intros n Hn.
  destruct (transmissions_spec shl_overflow clk n (cyc n (acks fc) (next_transmission fc)) [] fc)
    as (fc' & E & Hfc' & Hs & _); try done; [ by rewrite app_nil_r | ].
  exists (cyc n (acks fc) (next_transmission fc)), fc'.
  split; [ by apply NoDup_cyc | ]. split; [ | by split; [ | split ] ].
  intros b. rewrite elem_of_cyc by done. split; intros [Hb Hbit]; (split; [ done | ]).
  - by rewrite has_bit_testbit in Hbit by lia.
  - by rewrite has_bit_testbit by lia.
Qed.

(** ** Acknowledgements *)

(** Something will run [transmit_next] again, and the time of the last round is a
    time. *)
Definition scheduled (fc : GNUNET_FRAGMENT_Context) : Prop :=
  (proc_busy fc = true \/ task fc <> None)
  /\ abs_value (last_round fc) <> UINT64_MAX.

Definition ack_message (fid bits : Z) : list Z :=
  wire_encode (mk_fragment_ack (mk_header 16 GNUNET_MESSAGE_TYPE_FRAGMENT_ACK) fid bits).

(** An acknowledgement of this context replaces the set of missing fragments, any
    other one is refused. *)
Lemma process_ack_spec shl_overflow now fc fid bits :
  fc_inv fc -> scheduled fc -> is_u32 fid -> is_u64 bits ->
  exists code fc', GNUNET_FRAGMENT_process_ack shl_overflow now fc (ack_message fid bits)
      = Ret (code, fc')
    /\ if fid =? fragment_id fc
       then fc_inv fc' /\ acks fc' = Z.land bits (acks_mask fc)
            /\ code = (if acks fc' =? 0 then GNUNET_OK else GNUNET_NO)
       else code = GNUNET_SYSERR /\ fc' = fc.
Proof.
  intros Hfc [Hsch Hlr] Hid Hbits. unfold GNUNET_FRAGMENT_process_ack, ack_message.
  set (fa := mk_fragment_ack _ _ _).
  assert (Hv : wire_valid fa) by (cbn; unfold valid_fragment_ack, valid_header; cbn; split_and!;
    try done; unfold is_u16; lia).
  rewrite <- (app_nil_r (wire_encode fa)), msg_size_ack by done.
  change (Z.of_nat (wire_size FragmentAcknowledgement) =? mh_size (fa_header fa)) with true.
  cbn [negb]. rewrite wire_roundtrip by done. cbn [fa_fragment_id fa_bits fa].
  destruct (Z.eqb_spec fid (fragment_id fc)) as [Eid|Eid]; cbn [negb];
    [ | by eexists _, _ ].
  match goal with |- context [mbind _ ?d] =>
    assert (Hd : exists w ad nt md, d = Ret (w, ad, nt, md)) end.
  { destruct (wack fc && negb (num_transmissions fc =? 0)); [ | by eauto ].
    unfold GNUNET_TIME_absolute_get_duration.
    rewrite gnunet_assert_true by (by apply negb_true_iff, Z.eqb_neq). cbn [mbind outcome_bind].
    destruct (abs_value now <? abs_value (last_round fc)); cbn [mbind outcome_bind];
      destruct (count_acks shl_overflow (acks_mask fc) bits); eauto. }
  destruct Hd as (w & ad & nt & md & ->). cbn [mbind outcome_bind].
  assert (Hland : Z.land (Z.land bits (acks_mask fc)) (acks_mask fc)
                  = Z.land bits (acks_mask fc)) by (by rewrite <- Z.land_assoc, Z.land_diag).
  destruct Hfc as [Hm Hk _ Hn].
  destruct (Z.eqb_spec (Z.land bits (acks_mask fc)) 0) as [E0|E0]; cbn [negb].
  - eexists _, _. split; [ reflexivity | ]. cbn. rewrite E0.
    split; [ | done ]. constructor; cbn; done.
  - destruct (task fc) as [t|].
    + eexists _, _. split; [ reflexivity | ]. cbn. rewrite (proj2 (Z.eqb_neq _ _) E0).
      split; [ | done ]. by constructor.
    + destruct Hsch as [->|]; [ | done ]. cbn [gnunet_assert mbind outcome_bind].
      eexists _, _. split; [ reflexivity | ]. cbn. rewrite (proj2 (Z.eqb_neq _ _) E0).
      split; [ | done ]. by constructor.
Qed.

(** ** The hypotheses hold at a concrete message *)

(** 2050 bytes: two full fragments and one of two bytes. *)
Definition sample_message : list Z := [8; 2; 0; 7] ++ replicate (Z.to_nat 2046) 5.

Lemma sample_fragmentable : fragmentable sample_message 1036.
Proof.
  constructor; [ lia | | change (msg_size sample_message) with 2050; lia ].
  unfold sample_message. rewrite length_app, length_replicate.
  change (msg_size _) with 2050. cbn [length]. lia.
Qed.

Definition sample_context : GNUNET_FRAGMENT_Context :=
  mk_fc None GNUNET_TIME_UNIT_SECONDS GNUNET_TIME_UNIT_MILLISECONDS (mk_abs 0) (mk_abs 0)
    sample_message 5 7 (Some GNUNET_TIME_UNIT_ZERO) 4711 1 0 0 false false 1036.

Lemma sample_context_inv : fc_inv sample_context.
Proof.
  constructor; cbn; [ apply sample_fragmentable | | reflexivity | lia ].
  change (msg_size sample_message) with 2050. reflexivity.
Qed.

Lemma fragment_context_create_total_witness :
  exists fc, GNUNET_FRAGMENT_context_create 1036 None GNUNET_TIME_UNIT_MILLISECONDS
      GNUNET_TIME_UNIT_SECONDS sample_message 4711 = Ret fc
    /\ acks fc = 7.
Proof.
  destruct (fragment_context_create_total 1036 None GNUNET_TIME_UNIT_MILLISECONDS
    GNUNET_TIME_UNIT_SECONDS sample_message 4711) as (fc & E & _ & _ & _ & _ & Ha & _).
  - apply sample_fragmentable.
  - exists fc. split; [ exact E | ]. rewrite Ha.
    change (msg_size sample_message) with 2050. reflexivity.
Defined.

Lemma fragment_round_robin_witness :
  exists l fc', transmissions (fun _ => 0) (fun _ _ => mk_abs 1000) (length l) sample_context
      = Ret (fragment sample_message 1036 4711 <$> l, fc')
    /\ (2 ∈ l) /\ (1 ∉ l).
Proof.
  destruct (fragment_round_robin (fun _ => 0) (fun _ _ => mk_abs 1000) sample_context)
    as (l & fc' & _ & Hl & E & _);
    [ apply sample_context_inv | reflexivity | reflexivity | ].
  exists l, fc'. split; [ exact E | ]. split.
  - apply Hl. split; [ lia | reflexivity ].
  - intros H1. apply Hl in H1 as [_ H1]. discriminate H1.
Defined.
