(* ===== verification/Defragmentation.v ===== *)
(** * Defragmentation: [src/fragmentation/defragmentation.c]

    A defragmentation context reassembles the messages of one peer from fragments
    that arrive in any order, and acknowledges them.  The list of message contexts
    is in the order of the DLL; the callbacks are the values that the operations
    return: a message for [proc], an acknowledgement for [ackp].  Writes to the
    message and to [frag_times] are checked, so a fragment that made the code write
    outside of them would make the run [Undefined].

    The delay until an acknowledgement comes from a least-squares fit of the
    arrival times in [double], which is modelled operation by operation. *)

From Stdlib Require Import ZArith Lia.
From stdpp Require Import base list numbers sorting.
From S2P Require Import Prelude Double Time Messages Fragmentation.
Local Open Scope Z_scope.

Record FragTimes := mk_frag_time { time : GNUNET_TIME_Absolute; ft_bit : Z }.

Record MessageContext := mk_mc {
  mc_msg : list Z;
  last_update : GNUNET_TIME_Absolute;
  ack_task : option GNUNET_TIME_Relative;
  frag_times : list FragTimes;
  mc_bits : Z;
  mc_fragment_id : Z;
  last_bit : Z;
  frag_times_start_offset : nat;
  frag_times_write_offset : nat;
  total_size : Z
}.

Record GNUNET_DEFRAGMENT_Context := mk_dc {
  dc_list : list MessageContext;
  latency : GNUNET_TIME_Relative;
  num_msgs : Z;
  list_size : Z;
  dc_mtu : Z
}.

Definition GNUNET_DEFRAGMENT_context_create (mtu0 num_msgs0 : Z) : GNUNET_DEFRAGMENT_Context :=
  mk_dc [] GNUNET_TIME_UNIT_SECONDS num_msgs0 0 mtu0.

(** Every message context is unlinked and freed, and its task cancelled. *)
Fixpoint destroy_loop (l : list MessageContext) (size : Z) : Z :=
  match l with
  | [] => size
  | _ :: l' => destroy_loop l' (size - 1)
  end.

Definition GNUNET_DEFRAGMENT_context_destroy (dc : GNUNET_DEFRAGMENT_Context) : outcome unit :=
  gnunet_assert (destroy_loop (dc_list dc) (list_size dc) =? 0).

Definition with_ack_task (mc : MessageContext) (t : option GNUNET_TIME_Relative)
  : MessageContext :=
  mk_mc (mc_msg mc) (last_update mc) t (frag_times mc) (mc_bits mc) (mc_fragment_id mc)
    (last_bit mc) (frag_times_start_offset mc) (frag_times_write_offset mc) (total_size mc).

Definition send_ack (mc : MessageContext) : MessageContext * list Z :=
  (with_ack_task mc None,
   wire_encode (mk_fragment_ack
     (mk_header (Z.of_nat (wire_size FragmentAcknowledgement)) GNUNET_MESSAGE_TYPE_FRAGMENT_ACK)
     (mc_fragment_id mc) (mc_bits mc))).

(** ** Latency *)

(** [m += (v - m) / (i + 1.0)] over the values [v] *)
Fixpoint running_mean (i : Z) (vs : list Double.t) (m : Double.t) : Double.t :=
  match vs with
  | [] => m
  | v :: vs' =>
      running_mean (i + 1) vs'
        (Double.add m (Double.div (Double.sub v m) (Double.add (Double.of_Z i) (Double.of_Z 1))))
  end.

Record fit := mk_fit { c1 : Double.t; cov_11 : Double.t; sumsq : Double.t }.

Definition gsl_fit_mul (x y : list Double.t) : fit :=
  let zero := Double.of_Z 0 in
  let n := Double.of_Z (Z.of_nat (length x)) in
  let m_x := running_mean 0 x zero in
  let m_y := running_mean 0 y zero in
  let dx := (fun v => Double.sub v m_x) <$> x in
  let dy := (fun v => Double.sub v m_y) <$> y in
  let m_dx2 := running_mean 0 ((fun d => Double.mul d d) <$> dx) zero in
  let m_dxdy := running_mean 0 (zip_with Double.mul dx dy) zero in
  let b := Double.div (Double.add (Double.mul m_x m_y) m_dxdy)
                      (Double.add (Double.mul m_x m_x) m_dx2) in
  let d2 := foldl (fun acc d => Double.add acc (Double.mul d d)) zero
              (zip_with (fun dxi dyi =>
                 Double.sub (Double.add (Double.sub m_y (Double.mul b m_x)) dyi)
                            (Double.mul b dxi)) dx dy) in
  let s2 := Double.div d2 (Double.sub n (Double.of_Z 1)) in
  mk_fit b
    (Double.div (Double.mul s2 (Double.of_Z 1))
       (Double.mul n (Double.add (Double.mul m_x m_x) m_dx2)))
    d2.

Definition estimate_latency `{FloatConversion} (mc : MessageContext) : outcome GNUNET_TIME_Relative :=
  let total := (frag_times_write_offset mc - frag_times_start_offset mc)%nat in
  let first := take total (drop (frag_times_start_offset mc) (frag_times mc)) in
  _ ← gnunet_assert (1 <? total)%nat;
  match first with
  | [] => Undefined
  | f0 :: _ =>
      let x := (fun i => Double.of_Z (Z.of_nat i)) <$> seq 0 total in
      let y := (fun f => Double.of_Z (u64 (abs_value (time f) - abs_value (time f0)))) <$> first in
      let r := gsl_fit_mul x y in
      let c := Double.to_u64 (Double.add (c1 r) (Double.sqrt (sumsq r))) in
      Ret (if c =? 0 then GNUNET_TIME_UNIT_MILLISECONDS else mk_rel c)
  end.

(** ** The list of message contexts *)

(** The index of the first context with the smallest [last_update]. *)
Fixpoint oldest (l : list MessageContext) (i : nat) (old : option (nat * MessageContext))
  : option (nat * MessageContext) :=
  match l with
  | [] => old
  | pos :: l' =>
      oldest l' (S i)
        (match old with
         | None => Some (i, pos)
         | Some (j, o) => if abs_value (last_update pos) <? abs_value (last_update o)
                          then Some (i, pos) else old
         end)
  end.

Definition discard_oldest_mc (dc : GNUNET_DEFRAGMENT_Context)
  : outcome GNUNET_DEFRAGMENT_Context :=
  match oldest (dc_list dc) 0 None with
  | None => AssertFailed
  | Some (i, _) => Ret (mk_dc (take i (dc_list dc) ++ drop (S i) (dc_list dc)) (latency dc)
                          (num_msgs dc) (list_size dc - 1) (dc_mtu dc))
  end.

(** [while ((NULL != mc) && (fid != mc->fragment_id)) mc = mc->next;] *)
Fixpoint find_mc (fid : Z) (l : list MessageContext) (i : nat) : option (nat * MessageContext) :=
  match l with
  | [] => None
  | mc :: l' => if fid =? mc_fragment_id mc then Some (i, mc) else find_mc fid l' (S i)
  end.

(** A new message context, in front of the list. *)
Definition add_mc (now : GNUNET_TIME_Absolute) (dc : GNUNET_DEFRAGMENT_Context) (fid msize : Z)
  : outcome (MessageContext * GNUNET_DEFRAGMENT_Context) :=
  let p := dc_mtu dc - sizeof_FragmentHeader in
  let n := (msize + dc_mtu dc - sizeof_FragmentHeader - 1) / p in
  bits ← (if n =? 64 then Ret UINT64_MAX
          else if n <? 64 then Ret (u64 (Z.shiftl 1 n - 1)) else Undefined);
  let mc := mk_mc (replicate (Z.to_nat msize) 0) now None
              (replicate 64 (mk_frag_time (mk_abs 0) 0)) bits fid 0 0 0 msize in
  dc1 ← (if num_msgs dc <=? list_size dc then discard_oldest_mc dc else Ret dc);
  Ret (mc, mk_dc (mc :: dc_list dc1) (latency dc1) (num_msgs dc1) (list_size dc1 + 1)
             (dc_mtu dc1)).

(** The block that stores a fragment that was missing. *)
Definition store_fragment (now : GNUNET_TIME_Absolute) (p bit : Z) (payload : list Z)
  (mc : MessageContext) : outcome MessageContext :=
  buf ← mem_write (mc_msg mc) (Z.to_nat (bit * p)) payload;
  let start := if bit <? last_bit mc then frag_times_write_offset mc
               else frag_times_start_offset mc in
  if (frag_times_write_offset mc <? length (frag_times mc))%nat
  then Ret (mk_mc buf now (ack_task mc)
              (<[frag_times_write_offset mc := mk_frag_time now bit]> (frag_times mc))
              (mc_bits mc - Z.shiftl 1 bit) (mc_fragment_id mc) bit start
              (S (frag_times_write_offset mc)) (total_size mc))
  else Undefined.

Definition count_missing (bits : Z) : Z :=
  Z.of_nat (length (List.filter (has_bit bits) (Z.of_nat <$> seq 0 64))).

(** The part of [process_fragment] after the message context [mc], the [i]-th of the
    list, has been found or created; [ack_now] is [last + fid == num_fragments]. *)
Definition accept_fragment `{FloatConversion} (now : GNUNET_TIME_Absolute) (dc1 : GNUNET_DEFRAGMENT_Context)
  (i : nat) (mc : MessageContext) (m : list Z) (ack_now : bool)
  : outcome (Z * GNUNET_DEFRAGMENT_Context * option (list Z)) :=
  let hsize := sizeof_FragmentHeader in
  let p := dc_mtu dc1 - hsize in
  let bit := fh_offset (wire_decode m) / p in
  let fresh := has_bit (mc_bits mc) bit in
  mc1 ← (if fresh
         then payload ← mem_read m (Z.to_nat hsize) (Z.to_nat (msg_size m - hsize));
              store_fragment now p bit payload mc
         else Ret mc);
  let bc := count_missing (mc_bits mc1) in
  let complete := mc_bits mc1 =? 0 in
  let delivered := if fresh && complete then Some (mc_msg mc1) else None in
  latency1 ← (if (1 <? frag_times_write_offset mc1 - frag_times_start_offset mc1)%nat
              then estimate_latency mc1 else Ret (latency dc1));
  let delay := if ack_now || complete || negb fresh
               then GNUNET_TIME_UNIT_ZERO
               else GNUNET_TIME_relative_multiply latency1 (u32 (bc + 1)) in
  let mc2 := with_ack_task mc1 (Some delay) in
  Ret (if fresh then GNUNET_YES else GNUNET_NO,
       mk_dc (<[i := mc2]> (dc_list dc1)) latency1 (num_msgs dc1) (list_size dc1)
         (dc_mtu dc1),
       delivered).

Definition GNUNET_DEFRAGMENT_process_fragment `{FloatConversion} (now : GNUNET_TIME_Absolute)
  (dc : GNUNET_DEFRAGMENT_Context) (m : list Z)
  : outcome (Z * GNUNET_DEFRAGMENT_Context * option (list Z)) :=
  let reject := Ret (GNUNET_SYSERR, dc, None) in
  let hsize := sizeof_FragmentHeader in
  let size := msg_size m in
  if size <? hsize then reject
  else if dc_mtu dc <? size then reject
  else
    let fh : FragmentHeader := wire_decode m in
    let msize := fh_total_size fh in
    if msize <? Z.of_nat (wire_size GNUNET_MessageHeader) then reject
    else
      let fid := fh_fragment_id fh in
      let foff := fh_offset fh in
      if msize <=? foff then reject
      else
        let p := dc_mtu dc - hsize in
        if p =? 0 then Undefined
        else if negb (foff mod p =? 0) then reject
        else
          let num_fragments := (size + dc_mtu dc - hsize - 1) / p in
          let last := Z.of_nat (length (List.filter (fun mc => fid <? mc_fragment_id mc)
                                          (dc_list dc))) in
          let found := find_mc fid (dc_list dc) 0 in
          let bit := foff / p in
          if msize <? bit * p + size - hsize then reject
          else if match found with
                  | Some (_, mc) => negb (msize =? total_size mc)
                  | None => false
                  end then reject
          else
            r ← (match found with
                 | Some (i, mc) => Ret (i, mc, dc)
                 | None => a ← add_mc now dc fid msize; Ret (0%nat, a.1, a.2)
                 end);
            let '(i, mc, dc1) := r in
            accept_fragment now dc1 i mc m (u32 (last + fid) =? num_fragments).

(** ** Bits *)

Lemma clear_set_bit bits b :
  0 <= b -> Z.testbit bits b = true ->
  bits - Z.shiftl 1 b = Z.clearbit bits b
  /\ forall j, 0 <= j -> Z.testbit (bits - Z.shiftl 1 b) j = Z.testbit bits j && negb (b =? j).
Proof.
  intros Hb Hbit. assert (E : bits - Z.shiftl 1 b = Z.clearbit bits b).
  { rewrite Z.shiftl_1_l, Z.clearbit_spec'. apply Z.sub_nocarry_ldiff.
    apply Z.bits_inj'. intros j Hj. rewrite Z.ldiff_spec, Z.pow2_bits_eqb, Z.bits_0 by lia.
    destruct (Z.eqb_spec b j) as [<-|]; [ by rewrite Hbit | done ]. }
  split; [ done | ]. intros j Hj. rewrite E. by apply Z.clearbit_eqb.
Qed.

Lemma filter_remove_one (f g : Z -> bool) l b :
  NoDup l -> b ∈ l -> f b = true -> (forall j, j ∈ l -> g j = f j && negb (b =? j)) ->
  (length (List.filter f l) = S (length (List.filter g l)))%nat.
Proof.
  intros Hnd. induction Hnd as [|x l Hx Hnd IH]; intros Hin Hfb Hg; [ by apply elem_of_nil in Hin | ].
  cbn [List.filter]. rewrite (Hg x) by (by left).
  destruct (Z.eqb_spec b x) as [->|Hbx].
  - rewrite Hfb. cbn [andb negb length]. f_equal. f_equal.
    apply List.filter_ext_in. intros j Hj. apply list_elem_of_In in Hj.
    rewrite Hg by (by right). destruct (Z.eqb_spec x j) as [<-|]; [ done | by rewrite andb_true_r ].
  - apply elem_of_cons in Hin as [|Hin]; [ done | ]. rewrite andb_true_r.
    assert (Hg' : forall j, j ∈ l -> g j = f j && negb (b =? j)) by (intros; apply Hg; by right).
    destruct (f x); cbn [length]; by rewrite IH.
Qed.

Lemma missing_bounds bits : 0 <= count_missing bits <= 64.
Proof.
  unfold count_missing. split; [ lia | ].
  pose proof (List.filter_length_le (has_bit bits) (Z.of_nat <$> seq 0 64)) as H.
  rewrite length_fmap, length_seq in H. lia.
Qed.

Lemma missing_ones n : 0 <= n <= 64 -> count_missing (Z.ones n) = n.
Proof.
  intros Hn. unfold count_missing.
  assert (H : forall k, Z.of_nat (length (List.filter (has_bit (Z.ones n)) (Z.of_nat <$> seq 0 k)))
                        = Z.min n (Z.of_nat k)).
  { induction k as [|k IH]; [ cbn; lia | ].
    rewrite seq_S, fmap_app, List.filter_app, length_app, Nat2Z.inj_add, IH.
    cbn [fmap list_fmap List.filter]. rewrite has_bit_testbit, Z.testbit_ones by lia.
    destruct (Z.leb_spec 0 (Z.of_nat (0 + k))), (Z.ltb_spec (Z.of_nat (0 + k)) n);
      cbn [andb length]; lia. }
  rewrite H. lia.
Qed.

Lemma missing_clear bits b :
  0 <= b < 64 -> Z.testbit bits b = true ->
  count_missing bits = count_missing (bits - Z.shiftl 1 b) + 1.
Proof.
  intros Hb Hbit. destruct (clear_set_bit bits b) as [_ Hc]; [ lia | done | ].
  unfold count_missing. rewrite (filter_remove_one _ (has_bit (bits - Z.shiftl 1 b)) _ b); [ lia | | | | ].
  - apply (NoDup_fmap_2 Z.of_nat), NoDup_seq.
  - apply list_elem_of_fmap. exists (Z.to_nat b). rewrite elem_of_seq. lia.
  - by rewrite has_bit_testbit by lia.
  - intros j Hj. apply list_elem_of_fmap in Hj as (k & -> & _).
    rewrite !has_bit_testbit by lia. apply Hc. lia.
Qed.

(** ** Invariants *)

Record mc_inv (mtu0 : Z) (mc : MessageContext) : Prop := {
  mi_total : 4 <= total_size mc < 65536;
  mi_length : Z.of_nat (length (mc_msg mc)) = total_size mc;
  mi_bits : Z.land (mc_bits mc) (Z.ones (fragment_count (total_size mc) mtu0)) = mc_bits mc;
  mi_times : length (frag_times mc) = 64%nat;
  mi_offsets : (frag_times_start_offset mc <= frag_times_write_offset mc)%nat;
  mi_count : Z.of_nat (frag_times_write_offset mc) + count_missing (mc_bits mc)
             <= fragment_count (total_size mc) mtu0
}.

Section Receiver.
Context `{FC : FloatConversion}.

Record dc_inv (dc : GNUNET_DEFRAGMENT_Context) : Prop := {
  di_mtu : 1036 <= dc_mtu dc < 65536;
  di_msgs : 0 < num_msgs dc;
  di_size : list_size dc = Z.of_nat (length (dc_list dc));
  di_max : list_size dc <= num_msgs dc;
  di_mcs : Forall (mc_inv (dc_mtu dc)) (dc_list dc)
}.

Lemma oldest_some l i old :
  (l <> [] \/ old <> None) -> exists r, oldest l i old = Some r.
Proof.
  revert i old. induction l as [|mc l IH]; intros i old [H|H]; cbn [oldest]; try done.
  - destruct old; [ eauto | done ].
  - apply IH. right. repeat case_match; done.
  - apply IH. right. repeat case_match; done.
Qed.

Lemma oldest_bound l i old j mc :
  oldest l i old = Some (j, mc) ->
  (match old with Some (k, _) => k < i | None => True end)%nat -> (j < i + length l)%nat.
Proof.
  revert i old. induction l as [|x l IH]; intros i old; cbn [oldest length].
  - intros -> H. lia.
  - intros H Hk. apply IH in H; [ lia | ]. repeat case_match; simplify_eq; lia.
Qed.

Lemma discard_ok dc :
  dc_inv dc -> dc_list dc <> [] ->
  exists dc', discard_oldest_mc dc = Ret dc' /\ dc_mtu dc' = dc_mtu dc
    /\ num_msgs dc' = num_msgs dc /\ list_size dc' = list_size dc - 1
    /\ list_size dc' = Z.of_nat (length (dc_list dc'))
    /\ Forall (mc_inv (dc_mtu dc)) (dc_list dc').
Proof.
  intros [Hm Hn Hs Hx Hf] Hne. unfold discard_oldest_mc.
  destruct (oldest_some (dc_list dc) 0 None) as [[i mc] E]; [ by left | ].
  pose proof (oldest_bound _ _ _ _ _ E I) as Hi. rewrite E.
  eexists. split; [ reflexivity | ]. cbn. split_and!; try done.
  - rewrite length_app, length_take, length_drop. lia.
  - apply Forall_app. split; [ by apply Forall_take | by apply Forall_drop ].
Qed.

(** A new message context misses every fragment. *)
Lemma add_mc_ok now dc fid msize :
  dc_inv dc -> 4 <= msize < 65536 ->
  exists mc dc1 rest, add_mc now dc fid msize = Ret (mc, dc1) /\ dc_inv dc1
    /\ dc_list dc1 = mc :: rest /\ dc_mtu dc1 = dc_mtu dc
    /\ (dc_list dc = [] -> rest = [])
    /\ mc_inv (dc_mtu dc) mc
    /\ mc_bits mc = Z.ones (fragment_count msize (dc_mtu dc))
    /\ mc_fragment_id mc = fid /\ total_size mc = msize.
Proof.
  intros Hdc Hms. pose proof Hdc as [Hm Hn Hs Hx Hf]. unfold add_mc.
  destruct (fragment_count_range msize (dc_mtu dc) Hm Hms) as [Hc _].
  assert (E : (msize + dc_mtu dc - sizeof_FragmentHeader - 1) / (dc_mtu dc - sizeof_FragmentHeader)
              = fragment_count msize (dc_mtu dc))
    by (unfold fragment_count, payload_size; f_equal; lia).
  rewrite E. set (n := fragment_count msize (dc_mtu dc)) in *.
  assert (Eb : (if n =? 64 then Ret UINT64_MAX
                else if n <? 64 then Ret (u64 (Z.shiftl 1 n - 1)) else Undefined) = Ret (Z.ones n)).
  { rewrite <- (mask_ones n) by lia. destruct (Z.eqb_spec n 64); [ done | ].
    by rewrite (proj2 (Z.ltb_lt n 64)) by lia. }
  rewrite Eb. cbn [mbind outcome_bind].
  set (mc := mk_mc _ _ _ _ _ _ _ _ _ _).
  assert (Hmc : mc_inv (dc_mtu dc) mc).
  { constructor; cbn [mc total_size mc_msg mc_bits frag_times frag_times_start_offset
      frag_times_write_offset]; [ done | rewrite length_replicate; lia | apply Z.land_diag
      | apply length_replicate | lia | rewrite missing_ones by lia; fold n; lia ]. }
  assert (Hd : exists dc1, (if num_msgs dc <=? list_size dc then discard_oldest_mc dc else Ret dc)
      = Ret dc1 /\ dc_mtu dc1 = dc_mtu dc /\ num_msgs dc1 = num_msgs dc
      /\ list_size dc1 + 1 <= num_msgs dc
      /\ list_size dc1 = Z.of_nat (length (dc_list dc1))
      /\ (dc_list dc = [] -> dc_list dc1 = [])
      /\ Forall (mc_inv (dc_mtu dc)) (dc_list dc1)).
  { destruct (Z.leb_spec (num_msgs dc) (list_size dc)) as [Hfull|Hroom].
    - assert (Hne : dc_list dc <> []) by (intros E0; rewrite E0 in Hs; cbn in Hs; lia).
      destruct (discard_ok dc Hdc Hne) as (dc1 & E1 & ? & ? & ? & ? & ?).
      exists dc1. split_and!; try done. lia.
    - exists dc. split_and!; try done. lia. }
  destruct Hd as (dc1 & -> & Hm1 & Hn1 & Hx1 & Hs1 & He1 & Hf1). cbn [mbind outcome_bind].
  exists mc. eexists _, (dc_list dc1). split; [ reflexivity | ]. cbn. split_and!; try done.
  constructor; cbn [dc_mtu num_msgs list_size dc_list length];
    rewrite ?Hm1, ?Hn1; try done; try lia. by constructor.
Qed.

Lemma has_bit_bound mtu0 mc b :
  1036 <= mtu0 < 65536 -> mc_inv mtu0 mc -> 0 <= b -> Z.testbit (mc_bits mc) b = true ->
  b < fragment_count (total_size mc) mtu0 <= 64.
Proof.
  intros Hm [Ht _ Hb _ _ _] Hb0 Hbit.
  destruct (fragment_count_range (total_size mc) mtu0 Hm Ht) as [Hc _].
  rewrite <- Hb, Z.land_spec, Z.testbit_ones in Hbit by lia. lia.
Qed.

(** Storing a missing fragment. *)
Lemma store_ok now mtu0 b payload mc :
  1036 <= mtu0 < 65536 -> mc_inv mtu0 mc ->
  0 <= b -> Z.testbit (mc_bits mc) b = true ->
  b * payload_size mtu0 + Z.of_nat (length payload) <= total_size mc ->
  exists mc', store_fragment now (payload_size mtu0) b payload mc = Ret mc'
    /\ mc_inv mtu0 mc'
    /\ mc_bits mc' = mc_bits mc - Z.shiftl 1 b
    /\ mem_write (mc_msg mc) (Z.to_nat (b * payload_size mtu0)) payload = Ret (mc_msg mc')
    /\ mc_fragment_id mc' = mc_fragment_id mc /\ total_size mc' = total_size mc.
Proof.
  intros Hm Hmc Hb Hbit Hfit.
  pose proof (has_bit_bound mtu0 mc b Hm Hmc Hb Hbit) as Hb64.
  destruct Hmc as [Ht Hl Hbits Hft Hoff Hcount].
  assert (Hp : 0 <= payload_size mtu0) by (unfold payload_size, sizeof_FragmentHeader; cbn; lia).
  assert (Hbp : 0 <= b * payload_size mtu0) by nia.
  unfold store_fragment. rewrite mem_write_ok by lia. cbn [mbind outcome_bind].
  set (buf := take _ _ ++ _).
  pose proof (missing_clear (mc_bits mc) b ltac:(lia) Hbit) as Hmiss.
  pose proof (missing_bounds (mc_bits mc - Z.shiftl 1 b)) as Hmb.
  destruct (Nat.ltb_spec (frag_times_write_offset mc) (length (frag_times mc))) as [Hw|Hw]; [ | lia ].
  destruct (clear_set_bit (mc_bits mc) b Hb Hbit) as [_ Htest].
  eexists. split; [ reflexivity | ]. split.
  - constructor; cbn [total_size mc_msg mc_bits frag_times frag_times_start_offset
      frag_times_write_offset]; [ done | | | | | lia ].
    + unfold buf. rewrite !length_app, length_take, length_drop. lia.
    + apply Z.bits_inj'. intros j Hj. rewrite Z.land_spec, Htest by done.
      rewrite <- Hbits at 2. rewrite Z.land_spec.
      destruct (Z.testbit (mc_bits mc) j), (Z.testbit (Z.ones _) j), (b =? j); done.
    + by rewrite length_insert.
    + case_match; lia.
  - cbn. split_and!; done.
Qed.

Lemma latency_ok mtu0 mc lat :
  1036 <= mtu0 < 65536 -> mc_inv mtu0 mc ->
  exists r, (if (1 <? frag_times_write_offset mc - frag_times_start_offset mc)%nat
             then estimate_latency mc else Ret lat) = Ret r.
Proof.
  intros Hm [Ht _ _ Hft Hoff Hcount].
  destruct (Nat.ltb_spec 1 (frag_times_write_offset mc - frag_times_start_offset mc)) as [Hw|]; [ | eauto ].
  destruct (fragment_count_range (total_size mc) mtu0 Hm Ht) as [Hc _]. pose proof (missing_bounds (mc_bits mc)).
  unfold estimate_latency. rewrite (proj2 (Nat.ltb_lt _ _) Hw). cbn [gnunet_assert mbind outcome_bind].
  destruct (take _ _) as [|f0 l] eqn:E; [ | eauto ].
  apply (f_equal length) in E. rewrite length_take, length_drop in E. cbn [length] in E. lia.
Qed.

Lemma accept_ok now dc i mc m ack_now :
  dc_inv dc -> dc_list dc !! i = Some mc ->
  Z.of_nat (length m) = msg_size m -> sizeof_FragmentHeader <= msg_size m ->
  let p := payload_size (dc_mtu dc) in
  let b := fh_offset (wire_decode m) / p in
  0 <= b -> b * p + msg_size m - sizeof_FragmentHeader <= total_size mc ->
  let fresh := Z.testbit (mc_bits mc) b in
  exists mc1 t lat,
    let dc' := mk_dc (<[i := with_ack_task mc1 t]> (dc_list dc)) lat (num_msgs dc)
                 (list_size dc) (dc_mtu dc) in
    accept_fragment now dc i mc m ack_now
      = Ret (if fresh then GNUNET_YES else GNUNET_NO, dc',
             if fresh && (mc_bits mc1 =? 0) then Some (mc_msg mc1) else None)
    /\ dc_inv dc' /\ mc_inv (dc_mtu dc) mc1
    /\ mc_fragment_id mc1 = mc_fragment_id mc /\ total_size mc1 = total_size mc
    /\ if fresh
       then mc_bits mc1 = mc_bits mc - Z.shiftl 1 b
            /\ mem_write (mc_msg mc) (Z.to_nat (b * p)) (drop (Z.to_nat sizeof_FragmentHeader) m)
               = Ret (mc_msg mc1)
       else mc1 = mc.
Proof.
  intros Hdc Hi Hlen Hsz p b Hb Hfit fresh.
  pose proof Hdc as [Hm Hn Hs Hx Hf].
  pose proof (proj1 (Forall_lookup _ _) Hf i mc Hi) as Hmc.
  assert (H1 : exists mc1,
    (if fresh then payload ← mem_read m (Z.to_nat sizeof_FragmentHeader)
                               (Z.to_nat (msg_size m - sizeof_FragmentHeader));
                   store_fragment now p b payload mc
     else Ret mc) = Ret mc1
    /\ mc_inv (dc_mtu dc) mc1
    /\ mc_fragment_id mc1 = mc_fragment_id mc /\ total_size mc1 = total_size mc
    /\ if fresh
       then mc_bits mc1 = mc_bits mc - Z.shiftl 1 b
            /\ mem_write (mc_msg mc) (Z.to_nat (b * p)) (drop (Z.to_nat sizeof_FragmentHeader) m)
               = Ret (mc_msg mc1)
       else mc1 = mc).
  { unfold fresh. destruct (Z.testbit (mc_bits mc) b) eqn:Hbit; [ | by eauto 10 ].
    change sizeof_FragmentHeader with 12 in *.
    rewrite mem_read_ok by lia. cbn [mbind outcome_bind].
    rewrite take_ge by (rewrite length_drop; lia).
    destruct (store_ok now (dc_mtu dc) b (drop (Z.to_nat 12) m) mc)
      as (mc1 & E & ? & ? & ? & ? & ?); try done.
    - rewrite length_drop. lia.
    - exists mc1. split_and!; done. }
  destruct H1 as (mc1 & E1 & Hmc1 & Hid & Htot & Hres).
  destruct (latency_ok (dc_mtu dc) mc1 (latency dc) Hm Hmc1) as (lat & El).
  unfold accept_fragment. fold (payload_size (dc_mtu dc)). fold p. fold b.
  rewrite (has_bit_testbit (mc_bits mc) b Hb). fold fresh.
  rewrite E1. cbn [mbind outcome_bind]. rewrite El. cbn [mbind outcome_bind].
  eexists mc1, _, lat. split; [ reflexivity | ]. split; [ | done ].
  constructor; cbn; rewrite ?length_insert; try done.
  apply Forall_insert; [ done | ].
  destruct Hmc1. by constructor.
Qed.

Lemma find_mc_some fid l j i mc :
  find_mc fid l j = Some (i, mc) ->
  (j <= i)%nat /\ l !! (i - j)%nat = Some mc /\ mc_fragment_id mc = fid.
Proof.
  revert j. induction l as [|x l IH]; intros j; [ done | ]. cbn [find_mc].
  destruct (Z.eqb_spec fid (mc_fragment_id x)) as [E|E].
  - intros [= <- <-]. by rewrite Nat.sub_diag.
  - intros H. apply IH in H as (H1 & H2 & H3). split_and!; [ lia | | done ].
    replace (i - j)%nat with (S (i - S j)) by lia. done.
Qed.

Lemma decode_fragment_range m :
  is_bytes m ->
  let fh : FragmentHeader := wire_decode m in
  0 <= fh_total_size fh < 65536 /\ 0 <= fh_offset fh.
Proof.
  intros Hm. cbn. split.
  - apply (be_decode_take 2). auto with gnunet.
  - apply (be_decode_take 2). auto with gnunet.
Qed.

(** A fragment was handled: rejected, a duplicate, or new. *)
Definition handled (dc : GNUNET_DEFRAGMENT_Context)
  (r : outcome (Z * GNUNET_DEFRAGMENT_Context * option (list Z))) : Prop :=
  exists code dc' out, r = Ret (code, dc', out) /\ dc_inv dc'
    /\ ((code = GNUNET_SYSERR /\ dc' = dc /\ out = None)
        \/ (code = GNUNET_NO /\ out = None) \/ code = GNUNET_YES).

Lemma process_fragment_ok now dc m :
  dc_inv dc -> is_bytes m -> Z.of_nat (length m) = msg_size m ->
  handled dc (GNUNET_DEFRAGMENT_process_fragment now dc m).
Proof.
  intros Hdc Hbytes Hlen. unfold GNUNET_DEFRAGMENT_process_fragment.
  destruct (decode_fragment_range m Hbytes) as [Htot Hoff].
  set (fh := wire_decode m) in *. pose proof Hdc as [Hm _ _ _ Hf].
  assert (Hrej : handled dc (Ret (GNUNET_SYSERR, dc, None))).
  { eexists _, _, _. split; [ reflexivity | ]. auto. }
  change (Z.of_nat (wire_size GNUNET_MessageHeader)) with 4.
  fold (payload_size (dc_mtu dc)).
  assert (Hp : 1024 <= payload_size (dc_mtu dc)).
  { unfold payload_size. change sizeof_FragmentHeader with 12. lia. }
  destruct (Z.ltb_spec (msg_size m) sizeof_FragmentHeader) as [|Hsz]; [ done | ].
  destruct (Z.ltb_spec (dc_mtu dc) (msg_size m)) as [|Hmtu]; [ done | ].
  destruct (Z.ltb_spec (fh_total_size fh) 4) as [|Htot4]; [ done | ].
  destruct (Z.leb_spec (fh_total_size fh) (fh_offset fh)) as [|Hofft]; [ done | ].
  destruct (Z.eqb_spec (payload_size (dc_mtu dc)) 0) as [|_]; [ lia | ].
  destruct (Z.eqb_spec (fh_offset fh mod payload_size (dc_mtu dc)) 0) as [Hmod|]; [ | done ].
  cbn [negb]. set (p := payload_size (dc_mtu dc)) in *. set (b := fh_offset fh / p).
  assert (Hb : 0 <= b) by (apply Z.div_pos; lia).
  destruct (Z.ltb_spec (fh_total_size fh) (b * p + msg_size m - sizeof_FragmentHeader))
    as [|Hfit]; [ done | ].
  set (ack_now := _ =? _). clearbody ack_now.
  assert (Hacc : forall dc1 i mc, dc_inv dc1 -> dc_mtu dc1 = dc_mtu dc ->
    dc_list dc1 !! i = Some mc -> total_size mc = fh_total_size fh ->
    handled dc (accept_fragment now dc1 i mc m ack_now)).
  { intros dc1 i mc Hdc1 Em Hi Etot.
    destruct (accept_ok now dc1 i mc m ack_now Hdc1 Hi Hlen Hsz)
      as (mc1 & t & lat & E & Hdc' & _); rewrite ?Em; [ done | fold p fh b; lia | ].
    eexists _, _, _. split; [ exact E | ]. split; [ exact Hdc' | ]. right.
    destruct (Z.testbit (mc_bits mc) _); [ by right | by left ]. }
  destruct (find_mc (fh_fragment_id fh) (dc_list dc) 0) as [[i mc]|] eqn:Efind.
  - destruct (Z.eqb_spec (fh_total_size fh) (total_size mc)) as [Etot|]; [ | done ].
    cbn [negb mbind outcome_bind]. apply find_mc_some in Efind as (_ & Hi & _).
    rewrite Nat.sub_0_r in Hi. by apply Hacc.
  - destruct (add_mc_ok now dc (fh_fragment_id fh) (fh_total_size fh) Hdc)
      as (mc & dc1 & rest & -> & Hdc1 & Hl1 & Em & _ & _ & _ & _ & Etot); [ lia | ].
    cbn [mbind outcome_bind fst snd]. apply Hacc; try done. by rewrite Hl1.
Qed.

(** ** Reassembly of one message *)

Context (m : list Z) (mtu0 fid : Z).
Hypothesis Hfr : fragmentable m mtu0.
Hypothesis Hfid : is_u32 fid.

Let n : Z := fragment_count (msg_size m) mtu0.
Let p : Z := payload_size mtu0.

Lemma payload_range : 1024 <= p < 65536.
Proof.
  destruct Hfr. unfold p, payload_size. change sizeof_FragmentHeader with 12. lia.
Qed.

Lemma fragment_wire i :
  0 <= i < n ->
  let f := fragment m mtu0 fid i in
  msg_size f = 12 + Z.of_nat (length (slice m mtu0 i))
  /\ Z.of_nat (length f) = msg_size f
  /\ (wire_decode f : FragmentHeader)
     = mk_fragment_header (mk_header (msg_size f) GNUNET_MESSAGE_TYPE_FRAGMENT) fid (msg_size m)
         (i * p)
  /\ drop (Z.to_nat sizeof_FragmentHeader) f = slice m mtu0 i.
Proof.
  intros Hi f. pose proof payload_range as Hp. pose proof (length_slice m mtu0 i Hfr Hi) as Hl.
  destruct (fragment_count_bounds m mtu0 Hfr) as [_ Hb]. pose proof (proj1 (Hb i) Hi) as [H0 Hlt].
  destruct Hfr as [Hm Hlm Hs]. fold p in Hl, Hlt.
  unfold f, fragment. change sizeof_FragmentHeader with 12. fold p.
  set (h := mk_fragment_header _ _ _ _).
  assert (Hv : wire_valid h).
  { change (valid_fragment_header h).
    unfold valid_fragment_header, valid_header, is_u16, is_u32 in *.
    cbn [h fh_header fh_fragment_id fh_total_size fh_offset mh_size mh_type].
    assert (mtu0 = p + 12) by (unfold p, payload_size; change sizeof_FragmentHeader with 12; lia).
    split_and!; try lia; try nia. all: unfold GNUNET_MESSAGE_TYPE_FRAGMENT; lia. }
  assert (Ems : msg_size (wire_encode h ++ slice m mtu0 i)
                = 12 + Z.of_nat (length (slice m mtu0 i))) by (by rewrite msg_size_fragment).
  assert (Hwl : length (wire_encode h) = Z.to_nat 12)
    by (rewrite wire_length; reflexivity).
  split; [ done | ]. split; [ rewrite Ems, length_app, Hwl; lia | ]. split.
  - rewrite wire_roundtrip, Ems by done. done.
  - rewrite <- Hwl. apply drop_app_length.
Qed.

(** The fragments in [got] have arrived. *)
Record assembled (got : list Z) (mc : MessageContext) : Prop := {
  as_id : mc_fragment_id mc = fid;
  as_total : total_size mc = msg_size m;
  as_bits : forall i, 0 <= i ->
    Z.testbit (mc_bits mc) i = bool_decide (i < n /\ i ∉ got);
  as_slices : forall i, 0 <= i < n -> i ∈ got -> slice (mc_msg mc) mtu0 i = slice m mtu0 i
}.

(** Every fragment has arrived. *)
Definition all_received (got : list Z) : bool :=
  bool_decide (Forall (fun i => i ∈ got) (seqZ 0 n)).

Lemma all_received_spec got : all_received got = true <-> forall i, 0 <= i < n -> i ∈ got.
Proof.
  unfold all_received. rewrite bool_decide_eq_true, Forall_forall.
  setoid_rewrite elem_of_seqZ. split; intros H i Hi; apply H; lia.
Qed.

Definition assembling (got : list Z) (dc : GNUNET_DEFRAGMENT_Context) : Prop :=
  dc_inv dc /\ dc_mtu dc = mtu0
  /\ ((dc_list dc = [] /\ got = []) \/ exists mc, dc_list dc = [mc] /\ assembled got mc).

Lemma slice_lookup l i k :
  0 <= i -> (slice l mtu0 i) !! k
  = if (k <? Z.to_nat p)%nat then l !! (Z.to_nat (i * p) + k)%nat else None.
Proof.
  intros Hi. unfold slice. fold p. destruct (Nat.ltb_spec k (Z.to_nat p)).
  - rewrite lookup_take_lt, lookup_drop by lia. done.
  - apply lookup_take_ge. lia.
Qed.

Lemma mem_write_lookup (l l' d : list Z) off k :
  mem_write l off d = Ret l' ->
  l' !! k = if decide (off <= k < off + length d)%nat then d !! (k - off)%nat else l !! k.
Proof.
  unfold mem_write. case_match eqn:E; [ | done ]. intros [= <-]. apply Nat.leb_le in E.
  assert (Ho : length (take off l) = off) by (rewrite length_take; lia).
  destruct (Nat.lt_ge_cases k off).
  - rewrite lookup_app_l, lookup_take_lt, decide_False by lia. done.
  - rewrite lookup_app_r, Ho by lia. destruct (Nat.lt_ge_cases (k - off) (length d)).
    + by rewrite lookup_app_l, decide_True by lia.
    + rewrite lookup_app_r, lookup_drop, decide_False by lia. f_equal. lia.
Qed.

Lemma slice_write l l' b :
  length l = length m -> 0 <= b < n ->
  mem_write l (Z.to_nat (b * p)) (slice m mtu0 b) = Ret l' ->
  forall i, 0 <= i < n -> slice l' mtu0 i = if i =? b then slice m mtu0 b else slice l mtu0 i.
Proof.
  intros Hll Hb Hw i Hi. pose proof payload_range as Hp.
  pose proof (length_slice m mtu0 b Hfr Hb) as Hlb. fold p in Hlb.
  destruct (fragment_count_bounds m mtu0 Hfr) as [_ Hbd].
  pose proof (proj1 (Hbd b) Hb) as [_ Hblt]. fold p in Hblt. pose proof (fr_length _ _ Hfr) as Hlen.
  apply list_eq. intros k. rewrite slice_lookup, (mem_write_lookup _ _ _ _ _ Hw) by lia.
  destruct (Z.eqb_spec i b) as [->|Hne].
  - replace (Z.to_nat (b * p) + k - Z.to_nat (b * p))%nat with k by lia.
    rewrite !slice_lookup by lia. destruct (Nat.ltb_spec k (Z.to_nat p)); [ | done ].
    destruct (decide _) as [Hin|Hout]; [ done | ].
    rewrite !lookup_ge_None_2; [ done | lia | lia ].
  - rewrite !slice_lookup by lia. destruct (Nat.ltb_spec k (Z.to_nat p)) as [Hk|]; [ | done ].
    rewrite decide_False; [ done | ]. intros [H1 H2].
    assert (b * p <= i * p + Z.of_nat k < b * p + p) by nia. nia.
Qed.

Lemma slices_eq l :
  length l = length m -> (forall i, 0 <= i < n -> slice l mtu0 i = slice m mtu0 i) -> l = m.
Proof.
  intros Hll Hs. pose proof payload_range as Hp. apply list_eq. intros k.
  destruct (Nat.lt_ge_cases k (length m)) as [Hk|Hk];
    [ | by rewrite !lookup_ge_None_2 by lia ].
  set (i := Z.of_nat k / p). pose proof (Z.div_mod (Z.of_nat k) p ltac:(lia)) as Hdm.
  pose proof (Z.mod_pos_bound (Z.of_nat k) p ltac:(lia)) as Hmod. fold i in Hdm.
  assert (Hi0 : 0 <= i) by (apply Z.div_pos; lia).
  destruct (fragment_count_bounds m mtu0 Hfr) as [_ Hbd].
  assert (Hi : 0 <= i < n).
  { apply Hbd. pose proof (fr_length _ _ Hfr). fold p. split; [ done | nia ]. }
  specialize (Hs i Hi). apply (f_equal (fun x => x !! Z.to_nat (Z.of_nat k mod p))) in Hs.
  rewrite !slice_lookup in Hs by done.
  rewrite (proj2 (Nat.ltb_lt _ _)) in Hs by lia.
  assert (Hip : 0 <= i * p) by nia.
  replace (Z.to_nat (i * p) + Z.to_nat (Z.of_nat k mod p))%nat with k in Hs by nia. done.
Qed.

(** The bits of a message context are zero when everything has arrived. *)
Lemma assembled_complete got mc :
  mc_inv mtu0 mc -> assembled got mc -> (mc_bits mc =? 0) = all_received got.
Proof.
  intros Hmc [_ _ Hb _]. apply eq_bool_prop_intro.
  rewrite !Is_true_true, Z.eqb_eq, all_received_spec. split.
  - intros E i Hi. specialize (Hb i ltac:(lia)). rewrite E, Z.bits_0 in Hb.
    symmetry in Hb. apply bool_decide_eq_false in Hb.
    destruct (decide (i ∈ got)); [ done | ]. exfalso. apply Hb. split; [ lia | done ].
  - intros Hall. apply Z.bits_inj'. intros i Hi. rewrite Hb, Z.bits_0 by done.
    apply bool_decide_eq_false. intros [H1 H2]. apply H2, Hall. lia.
Qed.

(** Once everything has arrived, the buffer is the message. *)
Lemma assembled_message got mc :
  mc_inv mtu0 mc -> assembled got mc -> all_received got = true -> mc_msg mc = m.
Proof.
  intros Hmc Has Hall. apply slices_eq.
  - pose proof (fr_length _ _ Hfr). pose proof (mi_length _ _ Hmc). pose proof (as_total _ _ Has). lia.
  - intros i Hi. apply (as_slices _ _ Has); [ done | ]. by apply all_received_spec.
Qed.

(** Storing fragment [b], or seeing it again. *)
Lemma assembled_cons got b mc mc1 :
  mc_inv mtu0 mc -> assembled got mc -> 0 <= b < n ->
  mc_fragment_id mc1 = mc_fragment_id mc -> total_size mc1 = total_size mc ->
  (if negb (bool_decide (b ∈ got))
   then mc_bits mc1 = mc_bits mc - Z.shiftl 1 b
        /\ mem_write (mc_msg mc) (Z.to_nat (b * p)) (slice m mtu0 b) = Ret (mc_msg mc1)
   else mc1 = mc) ->
  assembled (b :: got) mc1.
Proof.
  intros Hmc Has Hb Hid Htot. pose proof Has as [Eid Etot Hbits Hsl].
  destruct (decide (b ∈ got)) as [Hin|Hin].
  - rewrite bool_decide_true by done. cbn [negb]. intros ->. constructor; try done.
    + intros i Hi. rewrite Hbits by done. apply bool_decide_ext.
      rewrite elem_of_cons. split; intros [H1 H2]; (split; [ done | ]); [ | tauto ].
      intros [->|]; [ done | done ].
    + intros i Hi Hig. apply Hsl; [ done | ]. apply elem_of_cons in Hig as [->|]; done.
  - rewrite bool_decide_false by done. cbn [negb]. intros [Hb1 Hw].
    assert (Hset : Z.testbit (mc_bits mc) b = true).
    { rewrite Hbits by lia. apply bool_decide_true. split; [ lia | done ]. }
    destruct (clear_set_bit (mc_bits mc) b ltac:(lia) Hset) as [_ Hclr].
    assert (Hlen : length (mc_msg mc) = length m).
    { pose proof (fr_length _ _ Hfr). pose proof (mi_length _ _ Hmc). lia. }
    constructor; [ congruence | congruence | | ].
    + intros i Hi. rewrite Hb1, Hclr, Hbits by done. apply eq_bool_prop_intro.
      rewrite andb_True, !bool_decide_spec, negb_True, Is_true_true, Z.eqb_eq, elem_of_cons.
      split; [ intros [[H1 H2] H3] | intros [H1 H2] ].
      * split; [ done | ]. intros [->|]; done.
      * split; [ split; [ done | tauto ] | ]. intros ->. tauto.
    + intros i Hi Hig. rewrite (slice_write _ _ b Hlen Hb Hw i Hi).
      destruct (Z.eqb_spec i b) as [->|Hne]; [ done | ]. apply Hsl; [ done | ].
      apply elem_of_cons in Hig as [|]; done.
Qed.

(** Fragment [b] arrives at its message context. *)
Lemma accept_step now dc i mc got b ack_now :
  dc_inv dc -> dc_mtu dc = mtu0 -> dc_list dc !! i = Some mc ->
  assembled got mc -> 0 <= b < n ->
  exists dc' mc', accept_fragment now dc i mc (fragment m mtu0 fid b) ack_now
      = Ret (if bool_decide (b ∈ got) then GNUNET_NO else GNUNET_YES, dc',
             if negb (bool_decide (b ∈ got)) && all_received (b :: got) then Some m else None)
    /\ dc_inv dc' /\ dc_mtu dc' = mtu0 /\ dc_list dc' = <[i := mc']> (dc_list dc)
    /\ assembled (b :: got) mc'.
Proof.
  intros Hdc Em Hi Has Hb. pose proof payload_range as Hp.
  destruct (fragment_wire b Hb) as (Hsz & Hlen & Hdec & Hdrop).
  set (f := fragment m mtu0 fid b) in *.
  destruct (fragment_count_bounds m mtu0 Hfr) as [_ Hbd].
  pose proof (proj1 (Hbd b) Hb) as [_ Hlt]. fold p in Hlt.
  pose proof (length_slice m mtu0 b Hfr Hb) as Hls. fold p in Hls.
  assert (Hbit : fh_offset (wire_decode f) / p = b).
  { rewrite Hdec. cbn [fh_offset]. apply Z.div_mul. lia. }
  destruct (accept_ok now dc i mc f ack_now Hdc Hi Hlen)
    as (mc1 & t & lat & E & Hdc' & Hmc1 & Hid & Htot & Hres);
    rewrite ?Em; fold p; rewrite ?Hbit;
    [ change sizeof_FragmentHeader with 12; lia | lia
    | rewrite (as_total got mc Has); change sizeof_FragmentHeader with 12; lia | ].
  pose proof (proj1 (Forall_lookup _ _) (di_mcs dc Hdc) i mc Hi) as Hmc.
  rewrite Em in *. fold p in E, Hres. rewrite Hbit in E, Hres.
  assert (Hfresh : Z.testbit (mc_bits mc) b = negb (bool_decide (b ∈ got))).
  { rewrite (as_bits got mc Has) by lia. rewrite <- bool_decide_not. apply bool_decide_ext.
    split; [ by intros [_ ?] | ]. intros; split; [ lia | done ]. }
  rewrite Hfresh in E, Hres. rewrite Hdrop in Hres.
  pose proof (assembled_cons got b mc mc1 Hmc Has Hb Hid Htot Hres) as Has1.
  exists (mk_dc (<[i := with_ack_task mc1 t]> (dc_list dc)) lat (num_msgs dc) (list_size dc) mtu0),
    (with_ack_task mc1 t).
  split; [ | split; [ done | split; [ done | split; [ done | ] ] ] ].
  - rewrite E, (assembled_complete (b :: got) mc1 Hmc1 Has1).
    destruct (all_received (b :: got)) eqn:Hall.
    + rewrite (assembled_message (b :: got) mc1 Hmc1 Has1 Hall). by destruct (bool_decide _).
    + rewrite andb_false_r. by destruct (bool_decide _).
  - destruct Has1. by constructor.
Qed.

(** A new message context has nothing of the message. *)
Lemma assembled_nil mc :
  mc_bits mc = Z.ones n -> mc_fragment_id mc = fid -> total_size mc = msg_size m ->
  assembled [] mc.
Proof.
  intros Hb Hid Htot. destruct (fragment_count_bounds m mtu0 Hfr) as [Hc _]. fold n in Hc.
  constructor; [ done | done | | ].
  - intros i Hi. rewrite Hb, Z.testbit_ones by lia. apply eq_bool_prop_intro.
    rewrite bool_decide_spec, Is_true_true, andb_true_iff, Z.leb_le, Z.ltb_lt.
    split; [ intros [_ H]; split; [ done | apply not_elem_of_nil ] | intros [H _]; lia ].
  - intros i _ Hi. by apply not_elem_of_nil in Hi.
Qed.

(** One fragment of the message is processed. *)
Lemma process_step now dc got b :
  assembling got dc -> 0 <= b < n ->
  exists dc', GNUNET_DEFRAGMENT_process_fragment now dc (fragment m mtu0 fid b)
      = Ret (if bool_decide (b ∈ got) then GNUNET_NO else GNUNET_YES, dc',
             if negb (bool_decide (b ∈ got)) && all_received (b :: got) then Some m else None)
    /\ assembling (b :: got) dc'.
Proof.
  intros (Hdc & Em & Hst) Hb. pose proof payload_range as Hp.
  destruct (fragment_wire b Hb) as (Hsz & Hlen & Hdec & Hdrop).
  destruct (fragment_count_bounds m mtu0 Hfr) as [_ Hbd].
  pose proof (proj1 (Hbd b) Hb) as [_ Hlt]. fold p in Hlt.
  pose proof (length_slice m mtu0 b Hfr Hb) as Hls. fold p in Hls.
  pose proof (fr_size _ _ Hfr) as Hms.
  assert (Hmp : mtu0 = p + 12).
  { unfold p, payload_size. change sizeof_FragmentHeader with 12. lia. }
  unfold GNUNET_DEFRAGMENT_process_fragment.
  set (f := fragment m mtu0 fid b) in *. rewrite Hdec.
  cbn [fh_total_size fh_fragment_id fh_offset]. rewrite Em.
  change (Z.of_nat (wire_size GNUNET_MessageHeader)) with 4.
  fold (payload_size mtu0). fold p. change sizeof_FragmentHeader with 12.
  rewrite (proj2 (Z.ltb_ge (msg_size f) 12)), (proj2 (Z.ltb_ge mtu0 (msg_size f))),
    (proj2 (Z.ltb_ge (msg_size m) 4)), (proj2 (Z.leb_gt (msg_size m) (b * p))),
    (proj2 (Z.eqb_neq p 0)), Z.mod_mul, Z.div_mul by lia.
  cbn [Z.eqb negb].
  rewrite (proj2 (Z.ltb_ge (msg_size m) (b * p + msg_size f - 12))) by lia.
  set (ack_now := _ =? _). clearbody ack_now.
  destruct Hst as [[Hnil ->]|(mc & Hone & Has)].
  - rewrite Hnil. cbn [find_mc].
    destruct (add_mc_ok now dc fid (msg_size m) Hdc Hms)
      as (mc & dc1 & rest & -> & Hdc1 & Hl1 & Em1 & Hrest & _ & Hbits & Hid & Htot).
    cbn [mbind outcome_bind fst snd]. rewrite Em in *.
    destruct (accept_step now dc1 0%nat mc [] b ack_now) as (dc' & mc' & E & H1 & H2 & H3 & H4);
      try done; [ by rewrite Hl1 | by apply assembled_nil | ].
    exists dc'. split; [ done | ]. split; [ done | ]. split; [ done | ]. right. exists mc'.
    by rewrite H3, Hl1, (Hrest Hnil).
  - rewrite Hone. cbn [find_mc]. rewrite (as_id got mc Has), Z.eqb_refl.
    rewrite (as_total got mc Has), Z.eqb_refl. cbn [negb mbind outcome_bind].
    destruct (accept_step now dc 0%nat mc got b ack_now) as (dc' & mc' & E & H1 & H2 & H3 & H4);
      try done; [ by rewrite Hone | ].
    exists dc'. split; [ done | ]. split; [ done | ]. split; [ done | ]. right. exists mc'.
    by rewrite H3, Hone.
Qed.

(** Fragments that arrive one after the other: the codes and the messages that
    were delivered. *)
Fixpoint process_all (dc : GNUNET_DEFRAGMENT_Context) (l : list (GNUNET_TIME_Absolute * list Z))
  : outcome (list Z * list (list Z) * GNUNET_DEFRAGMENT_Context) :=
  match l with
  | [] => Ret ([], [], dc)
  | (now, f) :: l' =>
      r ← GNUNET_DEFRAGMENT_process_fragment now dc f;
      let '(code, dc1, out) := r in
      rs ← process_all dc1 l';
      let '(codes, outs, dc2) := rs in
      Ret (code :: codes, match out with Some x => x :: outs | None => outs end, dc2)
  end.

(** What [process_all] returns for the fragments with the numbers [bs], after those
    in [got] have arrived. *)
Fixpoint expected_codes (got bs : list Z) : list Z :=
  match bs with
  | [] => []
  | b :: bs' => (if bool_decide (b ∈ got) then GNUNET_NO else GNUNET_YES)
                :: expected_codes (b :: got) bs'
  end.

Lemma process_all_spec l : forall dc got,
  assembling got dc ->
  Forall (fun x : GNUNET_TIME_Absolute * Z => 0 <= x.2 < n) l ->
  let got' := rev (snd <$> l) ++ got in
  exists outs dc',
    process_all dc ((fun x => (x.1, fragment m mtu0 fid x.2)) <$> l)
      = Ret (expected_codes got (snd <$> l), outs, dc')
    /\ assembling got' dc'
    /\ outs = if negb (all_received got) && all_received got' then [m] else [].
Proof.
  induction l as [|[now b] l IH]; intros dc got Has HF got'.
  - exists [], dc. split; [ done | ]. split; [ done | ]. cbn. by destruct (all_received got).
  - apply Forall_cons in HF as [Hb HF]. cbn [snd] in Hb.
    destruct (process_step now dc got b Has Hb) as (dc1 & E & Has1).
    destruct (IH dc1 (b :: got) Has1 HF) as (outs & dc' & E' & Has' & Houts).
    assert (Hgot : rev (snd <$> l) ++ b :: got = got').
    { unfold got'. cbn [fmap list_fmap rev snd]. by rewrite <- app_assoc. }
    rewrite Hgot in Has', Houts.
    rewrite !fmap_cons. cbn [process_all fst snd]. rewrite E. cbn [mbind outcome_bind].
    rewrite E'. cbn [mbind outcome_bind expected_codes].
    eexists _, dc'. split; [ reflexivity | ]. split; [ done | ]. rewrite Houts.
    assert (Hmono : all_received (b :: got) = true -> all_received got' = true).
    { rewrite !all_received_spec, <- Hgot. intros H i Hi. apply elem_of_app. right. by apply H. }
    destruct (decide (b ∈ got)) as [Hin|Hin].
    + rewrite bool_decide_true by done. cbn [negb andb].
      assert (Hsame : all_received (b :: got) = all_received got).
      { apply eq_bool_prop_intro. rewrite !Is_true_true, !all_received_spec.
        setoid_rewrite elem_of_cons. split; intros H i Hi; [ | right; by apply H ].
        by destruct (H i Hi) as [->|]. }
      by rewrite Hsame.
    + rewrite bool_decide_false by done. cbn [negb andb].
      assert (Hnot : all_received got = false).
      { apply not_true_iff_false. rewrite all_received_spec. intros H. by apply Hin, H. }
      rewrite Hnot. cbn [negb andb]. destruct (all_received (b :: got)); [ | done ].
      by rewrite Hmono.
Qed.

End Receiver.

(** ** Properties *)

(** C24: Whatever bytes the network delivers as a fragment message whose size
    field is its length, and whatever the clock shows, process_fragment
    terminates without a failed assertion, an out-of-bounds access or a shift
    past the width, returns GNUNET_SYSERR (the context unchanged and nothing
    delivered), GNUNET_NO (nothing delivered) or GNUNET_YES, and keeps the
    invariant of the defragmentation context. (A latency estimate out of range
    is converted to an unspecified number, as Annex F of the C standard has
    it.) *)
Theorem defragment_safe `{FC : FloatConversion} now dc m :
  dc_inv dc -> is_bytes m ->
  Z.of_nat (length m) = msg_size m ->
  exists code dc' out, GNUNET_DEFRAGMENT_process_fragment now dc m = Ret (code, dc', out)
    /\ dc_inv dc'
    /\ ((code = GNUNET_SYSERR /\ dc' = dc /\ out = None)
        \/ (code = GNUNET_NO /\ out = None) \/ code = GNUNET_YES).
Proof. apply process_fragment_ok. Qed.

Lemma create_assembling m mtu0 fid num :
  1036 <= mtu0 < 65536 -> 0 < num ->
  assembling m mtu0 fid [] (GNUNET_DEFRAGMENT_context_create mtu0 num).
Proof.
  intros Hm Hn. split; [ | split; [ done | by left ] ].
  constructor; cbn; try done; lia.
Qed.

(** C6: Feed a fresh defragmentation context (MTU of at least 1036 bytes) the
    fragments that the sender builds for a message whose size field is its
    length, in any order, with any duplicates and losses, at any clock
    readings, also when the clock steps back: every fragment is accepted, a
    duplicate or a fragment of a complete message returns GNUNET_NO and a new
    one GNUNET_YES, and the client receives the original message exactly once
    if all fragments arrived and nothing otherwise. (The latency that is
    estimated for the acknowledgement may be out of the range of its type; its
    conversion then has an unspecified value, on which nothing here depends.) *)
Theorem defragment_reassembles `{FC : FloatConversion} m mtu0 fid num (l : list (GNUNET_TIME_Absolute * Z)) :
  fragmentable m mtu0 -> is_u32 fid -> 0 < num ->
  Forall (fun x => 0 <= x.2 < fragment_count (msg_size m) mtu0) l ->
  let everything := forall i, 0 <= i < fragment_count (msg_size m) mtu0 -> i ∈ (snd <$> l) in
  exists outs dc',
    process_all (GNUNET_DEFRAGMENT_context_create mtu0 num)
        ((fun x => (x.1, fragment m mtu0 fid x.2)) <$> l)
      = Ret (expected_codes [] (snd <$> l), outs, dc')
    /\ (everything -> outs = [m]) /\ (~ everything -> outs = []).
Proof.
  intros Hfr Hfid Hnum HF everything.
  pose proof (create_assembling m mtu0 fid num (fr_mtu _ _ Hfr) Hnum) as Has.
  destruct (process_all_spec m mtu0 fid Hfr Hfid l _ [] Has HF)
    as (outs & dc' & E & _ & Houts).
  exists outs, dc'. split; [ done | ]. rewrite app_nil_r in Houts.
  destruct (fragment_count_bounds m mtu0 Hfr) as [Hc _].
  assert (Hnil : all_received m mtu0 [] = false).
  { apply not_true_iff_false. rewrite all_received_spec. intros H.
    apply (not_elem_of_nil (A := Z) 0), H. lia. }
  assert (Hall : all_received m mtu0 (rev (snd <$> l)) = true <-> everything).
  { rewrite all_received_spec. unfold everything. setoid_rewrite list_elem_of_In.
    setoid_rewrite <- in_rev. done. }
  rewrite Hnil in Houts. cbn [negb andb] in Houts.
  split; intros H; rewrite Houts.
  - by rewrite (proj2 Hall H).
  - destruct (all_received m mtu0 (rev (snd <$> l))); [ by destruct H; apply Hall | done ].
Qed.

(** The acknowledgement that the receiver of some fragments sends is
    understood by the sender: process_ack accepts it, clears exactly the bits
    of the received fragments, keeps the sender's invariant and returns
    GNUNET_OK (finished) exactly when all fragments had arrived. *)
Theorem acknowledgement_end_to_end `{FC : FloatConversion} shl_overflow now fc num l :
  let m := msg fc in
  let n := fragment_count (msg_size m) (mtu fc) in
  fc_inv fc -> scheduled fc -> is_u32 (fragment_id fc) ->
  0 < num -> l <> [] ->
  Forall (fun x : GNUNET_TIME_Absolute * Z => 0 <= x.2 < n) l ->
  exists codes outs dc' mc code fc',
    process_all (GNUNET_DEFRAGMENT_context_create (mtu fc) num)
        ((fun x => (x.1, fragment m (mtu fc) (fragment_id fc) x.2)) <$> l)
      = Ret (codes, outs, dc')
    /\ dc_list dc' = [mc]
    /\ GNUNET_FRAGMENT_process_ack shl_overflow now fc (send_ack mc).2 = Ret (code, fc')
    /\ fc_inv fc'
    /\ (forall i, 0 <= i -> Z.testbit (acks fc') i = bool_decide (i < n /\ i ∉ (snd <$> l)))
    /\ (code = GNUNET_OK <-> forall i, 0 <= i < n -> i ∈ (snd <$> l)).
Proof.
  intros m n Hfc Hsch Hid Hnum Hne HF. pose proof (inv_msg fc Hfc) as Hfr. fold m in Hfr.
  pose proof (create_assembling m (mtu fc) (fragment_id fc) num (fr_mtu _ _ Hfr) Hnum) as Has.
  destruct (process_all_spec m (mtu fc) (fragment_id fc) Hfr Hid l _ [] Has HF)
    as (outs & dc' & E & (Hdc & Em & Hst) & _). rewrite app_nil_r in Hst.
  destruct Hst as [[_ Hnil]|(mc & Hone & Hmc)].
  { destruct l as [|x l]; [ done | ]. rewrite fmap_cons in Hnil. cbn [rev] in Hnil.
    by destruct (rev (snd <$> l)). }
  pose proof (di_mcs _ Hdc) as Hinv. rewrite Hone, Em in Hinv.
  apply Forall_cons in Hinv as [Hmi _]. pose proof Hmc as [Eid Etot Hbits _].
  destruct (fragment_count_bounds m (mtu fc) Hfr) as [Hc _].
  pose proof (mi_bits _ _ Hmi) as Hland. rewrite Etot in Hland. fold n in Hland.
  assert (Hu64 : is_u64 (mc_bits mc)).
  { rewrite <- Hland, Z.land_ones by lia. unfold is_u64.
    pose proof (Z.mod_pos_bound (mc_bits mc) (2 ^ n)). pose proof (Z.pow_le_mono_r 2 n 64). lia. }
  destruct (process_ack_spec shl_overflow now fc (fragment_id fc) (mc_bits mc) Hfc Hsch Hid Hu64)
    as (code & fc' & Ea & Hres). rewrite Z.eqb_refl in Hres. destruct Hres as (Hfc' & Hacks & Hcode).
  pose proof (inv_mask fc Hfc) as Hmask. fold m n in Hmask. rewrite Hmask, Hland in Hacks.
  assert (Hin : forall i, i ∈ rev (snd <$> l) <-> i ∈ (snd <$> l)).
  { intros i. rewrite !list_elem_of_In. symmetry. apply in_rev. }
  eexists _, outs, dc', mc, code, fc'. split; [ exact E | ]. split; [ done | ].
  split; [ unfold send_ack; cbn [snd]; rewrite Eid; exact Ea | ]. split; [ done | ]. split.
  - intros i Hi. rewrite Hacks, Hbits by done. apply bool_decide_ext. by rewrite Hin.
  - rewrite Hcode, Hacks, (assembled_complete m (mtu fc) (fragment_id fc) _ mc Hmi Hmc).
    assert (Hall : all_received m (mtu fc) (rev (snd <$> l)) = true
                   <-> forall i, 0 <= i < n -> i ∈ (snd <$> l)).
    { rewrite all_received_spec. setoid_rewrite Hin. done. }
    rewrite <- Hall. unfold GNUNET_OK, GNUNET_NO.
    destruct (all_received m (mtu fc) (rev (snd <$> l))); split; intros; congruence.
Qed.

(** ** The hypotheses hold at concrete inputs *)

#[local] Instance sample_conversion : FloatConversion := { unspecified_u64 := fun _ => 7; unspecified_u32 := fun _ => 7 }.

Definition large_message : list Z := [255; 255; 0; 7] ++ replicate (Z.to_nat 65531) 5.

Lemma large_fragmentable : fragmentable large_message 65535.
Proof.
  assert (Hs : msg_size large_message = 65535) by reflexivity.
  constructor; [ lia | | lia ].
  rewrite Hs. unfold large_message. rewrite length_app, length_replicate. cbn [length]. lia.
Qed.

Lemma large_count : fragment_count (msg_size large_message) 65535 = 2.
Proof. reflexivity. Qed.

Definition t0 : GNUNET_TIME_Absolute := mk_abs 1000.

Lemma defragment_safe_witness :
  let m := [0; 12; 0; 18; 0; 0; 0; 1; 0; 4; 0; 0] in
  exists code dc' out, GNUNET_DEFRAGMENT_process_fragment t0
      (GNUNET_DEFRAGMENT_context_create 65535 4) m = Ret (code, dc', out)
    /\ dc_inv dc'.
Proof.
  intros m. destruct (defragment_safe t0
    (GNUNET_DEFRAGMENT_context_create 65535 4) m) as (code & dc' & out & E & Hdc & _).
  - constructor; cbn; [ lia | lia | reflexivity | lia | constructor ].
  - repeat constructor; int_lia.
  - reflexivity.
  - exists code, dc', out. split; [ exact E | exact Hdc ].
Defined.

Lemma defragment_reassembles_witness :
  exists outs dc', process_all (GNUNET_DEFRAGMENT_context_create 65535 4)
      ((fun x => (x.1, fragment large_message 65535 77 x.2)) <$> [(t0, 1); (mk_abs 999, 0); (t0, 1)])
    = Ret ([GNUNET_YES; GNUNET_YES; GNUNET_NO], outs, dc')
    /\ outs = [large_message].
Proof.
  destruct (defragment_reassembles large_message 65535 77 4
    [(t0, 1); (mk_abs 999, 0); (t0, 1)]) as (outs & dc' & E & Hall & _).
  - apply large_fragmentable.
  - unfold is_u32. lia.
  - lia.
  - rewrite large_count. repeat constructor; cbn; lia.
  - exists outs, dc'. split; [ exact E | ]. apply Hall. rewrite large_count. intros i Hi.
    assert (i = 0 \/ i = 1) as [-> | ->] by lia; [ right; left | left ].
Defined.

Definition large_context : GNUNET_FRAGMENT_Context :=
  mk_fc None GNUNET_TIME_UNIT_SECONDS GNUNET_TIME_UNIT_MILLISECONDS t0 t0 large_message 3 3
    None 77 0 0 2 true true 65535.

Lemma large_context_inv : fc_inv large_context.
Proof.
  constructor; cbn [msg mtu acks acks_mask next_transmission large_context];
    [ apply large_fragmentable | | reflexivity | lia ].
  rewrite large_count. reflexivity.
Qed.

Lemma acknowledgement_end_to_end_witness :
  exists codes outs dc' mc code fc',
    process_all (GNUNET_DEFRAGMENT_context_create 65535 4)
        ((fun x => (x.1, fragment large_message 65535 77 x.2)) <$> [(t0, 1)])
      = Ret (codes, outs, dc')
    /\ dc_list dc' = [mc]
    /\ GNUNET_FRAGMENT_process_ack (fun _ => 0) t0 large_context (send_ack mc).2 = Ret (code, fc')
    /\ Z.testbit (acks fc') 0 = true /\ code <> GNUNET_OK.
Proof.
  destruct (acknowledgement_end_to_end (fun _ => 0) t0 large_context 4
    [(t0, 1)]) as (codes & outs & dc' & mc & code & fc' & E & Hl & Ea & _ & Hbits & Hcode).
  - apply large_context_inv.
  - split; [ left; reflexivity | discriminate ].
  - unfold is_u32; cbn; lia.
  - lia.
  - discriminate.
  - cbn [msg mtu large_context]. rewrite large_count. repeat constructor; cbn; lia.
  - exists codes, outs, dc', mc, code, fc'. split; [ exact E | ]. split; [ exact Hl | ].
    split; [ exact Ea | ]. split.
    + rewrite Hbits by lia. cbn [msg mtu large_context]. rewrite large_count.
      vm_compute. reflexivity.
    + intros Hok. apply Hcode with (i := 0) in Hok.
      * apply elem_of_cons in Hok as [Hok|Hok]; [ discriminate Hok | ].
        by apply not_elem_of_nil in Hok.
      * cbn [msg mtu large_context]. rewrite large_count. lia.
Defined.
